(* ===== verification/_CoqProject ===== *)
-Q . S2P
Prelude.v
Packet.v
Replay.v
Crypto.v
TestCrypto.v
PacketCodec.v
GF256.v
Gauss.v
Fec.v
Ordered.v
Float.v
Cc.v
Congestion.v
Estimators.v
Arbiter.v
Ack.v
Stream.v
Flow.v
Datagram.v
Arq.v
Rack.v
Session.v
Delivery.v
SessionProps.v
Ratchet.v
Resume.v
Resumption.v
Cookie.v
Stun.v
Probe.v
Identity.v
Handshake.v
Net.v
Tar.v
Connection.v
ConnectionProps.v
Endpoint.v
Text.v
Multipath.v
Api.v
Mux.v
Proc.v
Frames.v
Transfer.v
Parallel.v
Sync.v
Calendar.v
Json.v
AuditLog.v
KnownHosts.v
Specs.v
Config.v
Tui.v
Mount.v
Shell.v
Forwarding.v
Tunnel.v
Share.v
Serve.v
Limits.v
Keys.v
Doctor.v
Addr.v
Route.v
Watch.v
Health.v
Main.v
Reverse.v
Daemon.v
Bench.v
Bootstrap.v
Ls.v
Diagnose.v
Paths.v
Punch.v
Scan.v
Plans.v
Deploy.v
AuditTable.v
