(* ===== verification/Prelude.v ===== *)
(** * Seam: a verification library for the Seam transport

    Seam (src/src) is an encrypted datagram transport and a program built on it.
    The transport multiplexes byte streams and datagrams over AEAD-sealed packets,
    after a post-quantum handshake guarded by cookies, with acknowledgement
    ranges, retransmission, congestion control, forward error correction, traffic
    shaping and multipath.  The program (src/src/bin/seam) runs remote shells, forwards
    connections, builds routes over relays, copies, shares, watches and synchronises
    files, lists and mounts remote directories, scans ports, pins host keys, keeps an
    audit log and offers an interactive interface.  Most commands start a worker of the
    same program on the other side over SSH and connect to what it announces.  This library models them as executable definitions and
    proves what each part promises to the others.

    ** How the parts fit together

    [Session] (session/mod.rs) owns a [PacketEncoder] and a [PacketDecoder], a map
    of [Stream]s, an [ArqTracker], [AckRanges], two [FlowWindow]s and a
    [DatagramQueue].  [Connection] (transport/connection.rs) owns a session once
    its handshake is over, and before that the cookie and [Handshake] state; it
    sends what [flush] returns through the traffic shaper, the FEC encoder and the
    congestion controller, and feeds received datagrams to [receive_packet].
    [Endpoint] and [Api] keep tables of connections and route datagrams to them.
    [Mux] turns a connection's events into streams; [Frames] cuts a stream into
    frames; [Transfer], [Parallel], [Share] and [Sync] are the two sides of the file
    protocols over those frames, [Ls] a listing over them, [Watch] a loop over the
    rounds of [Transfer]; [Shell], [Forwarding], [Tunnel] and [Serve] read and write
    such streams directly, [Route] and [Health] ask the services behind them.  [Plans]
    turns arguments into a direction and a worker; [Bootstrap] writes the worker's
    command line, reads its announcement and connects, through the pins of
    [KnownHosts].  [Main] chooses mode and policy and logs the commands.  The rest of
    the program ([AuditLog], [Config], [Specs], [Tui], [Mount], [Diagnose]) works on
    texts and files.

    ** Files

    Foundations
    - [Prelude]: results and the [?] operator, machine integers as [Z] with the
      wrap-around written out, time, bytes, slices, little- and big-endian
      encodings, the hint databases [seam] and [len], shared lemmas.
    - [Packet] (packet.rs, error.rs): packet types, lengths, [SeamError].
    - [Ordered]: ordered sets and maps for BTreeSet and BTreeMap.  [Float]: the
      operations of f64 and f32.  [Net]: addresses.  [Text]: the [str] functions
      the code uses, on UTF-8 bytes.  [Proc]: two processes that exchange frames,
      any interleaving of their steps.  [Json]: serde_json as a class with laws.
    Packets
    - [Replay] (crypto/replay.rs), [Crypto] (crypto/mod.rs, keys.rs, header.rs,
      rekey.rs), [TestCrypto] (a concrete instance of the primitives),
      [PacketCodec] (crypto/encoder.rs, decoder.rs), [Ratchet] (crypto/ratchet.rs,
      session/ratchet_session.rs).
    - [GF256] (fec/gf.rs), [Gauss] and [Fec] (fec/codec.rs), [Arbiter]
      (fec/arbiter.rs, transport/chaff.rs, pool.rs, bufpool.rs).
    Sessions
    - [Ack], [Stream], [Flow], [Datagram], [Arq], [Rack], [Resume]: the files of
      session/ of the same names; [Session] (session/mod.rs) with [Delivery] (end
      to end) and [SessionProps] (invariants).
    Connections
    - [Cookie] (handshake/cookie.rs), [Identity] (handshake/hybrid_keys.rs),
      [Handshake] (handshake/state.rs), [Resumption] (transport/resumption.rs).
    - [Cc] (transport/cc.rs, bbr.rs), [Congestion] (transport/congestion.rs),
      [Estimators] (transport/rtt.rs, pacer.rs, bandwidth.rs, stats.rs).
    - [Stun] (transport/nat.rs), [Punch] (its hole punching, punch.rs), [Probe] (transport/probe.rs), [Tar]
      (transport/tar.rs), [Multipath] (transport/multipath.rs).
    - [Connection] and [ConnectionProps] (transport/connection.rs), [Endpoint]
      (transport/endpoint.rs), [Api] (api.rs), [Mux] (tunnel.rs).
    The program (bin/seam/)
    - [Frames] (proto.rs), [Transfer] and [Parallel] (copy.rs, recv.rs), [Share]
      (copy.rs's pull, send.rs, share.rs), [Limits] (the rate limiters of copy.rs and
      bench.rs, files over several paths), [Sync] (sync.rs), [Mount] (mount.rs).
    - [Shell] (shell.rs and serve.rs's shell service), [Forwarding] (forward.rs,
      proxy.rs and serve.rs's forward service), [Tunnel] (tunnel.rs), [Serve]
      (serve.rs), [Reverse] (fwd.rs), [Route] (route.rs) over the socket addresses of
      [Addr], [Watch] (watch.rs), [Health] (health.rs, ping.rs, stats.rs), [Daemon]
      (daemon.rs), [Bench] (bench.rs's measurement, perf.rs's median), [Main] (main.rs).
    - [Bootstrap] (connect.rs, ssh.rs, russh_client.rs and every command's remote
      command line), [Deploy] (ending the SSH child, the SSH client in Rust), [Plans]
      (what copy.rs, sync.rs, ls.rs, mount.rs, forward.rs and proxy.rs set up), [Ls]
      (ls.rs), [Scan] (scan.rs), [Paths] (recv.rs's wait for several paths).
    - [Calendar] (audit.rs, key.rs: dates), [AuditLog] and [AuditTable] (audit.rs), [Keys] (key.rs),
      [Doctor] (the checks of doctor.rs, update.rs), [Diagnose] (a run of doctor.rs),
      [KnownHosts] (known_hosts.rs), [Config] (config.rs), [Tui] (tui.rs), [Specs]
      (the parsers and printers of connect.rs, ssh.rs, forward.rs, fwd.rs, scan.rs,
      share.rs, ls.rs).

    Structs are records with the source's fields (prefixed where two structs
    share a name), enums are inductive types, operations are named
    [Type_method].  A method that mutates returns the new state; [Result] and
    [Option] are the source's; where a call can panic or not return, the model
    has an outer [option] or an explicit outcome, and the theorems show when it
    does not happen.  Instants and durations are nanoseconds in [Z]; the clock,
    random bytes and the iteration order of hash maps are arguments.  Integer
    arithmetic follows release builds: unchecked operations wrap.  A file system
    is a map from paths to contents.  Cryptographic primitives, the Noise state,
    channels and semaphores, JSON, TOML and compression are classes of operations
    with their documented laws, each with a concrete instance.  So is the remote
    shell ([PosixShell]): only the quoting rules of POSIX are known of it, and only
    for lines of plain, escaped and quoted bytes.

    ** What is proved

    - Packets: sealing and opening round-trip for both suites; only
      authenticated packets change the decoder; no packet number is delivered
      twice; no two packets an encoder emits are sealed under the same nonce; the
      replay window accepts exactly what the reference accepts; any [k] of
      [k + r] FEC symbols recover a group if the first is of full length.
    - Sessions: one flushed write reaches the server under any reordering,
      duplication and omission, when it is read in one piece; flushes succeed,
      send exactly what is owed under consecutive numbers and leave nothing
      behind; acknowledgements clear exactly what they name; stream limits hold.
    - Connections: client and server establish and agree on keys; the phase
      invariant under every operation and failure; the cookie gate; the data
      a flush sends fits the congestion window and is charged to it; endpoint and server tables; what a dispatcher
      of multipath packets sends where and hands out.
    - Streams and files: the multiplexer neither loses nor mixes bytes; frames
      are reassembled; copies and synchronisations end with the receiver holding
      the sender's files, for every interleaving of the two sides (a
      synchronisation between sides of the same mode and compression); a share
      serves only who has its token, and only so often; a mount answers from the remote
      file system, its inode numbers and open files stable.
    - Remote commands and connections: a command gets its input and the client its
      output and exit code, for every interleaving, as long as the output has no
      control byte; a forwarded or SOCKS5 connection reaches the target that was
      asked for with all its bytes; the daemon serves only who shows a key of
      its key files, if it has any, and never more than its limit.
    - The program's texts and files: the pin file implements a table and trusts on
      first use; the audit log is a hash chain as long as its lines are ASCII
      and fit the window, its dates the civil calendar; the
      configuration stays valid; quoting, announcement lines, ports, networks and
      durations; the interactive line editor refines an editor of whole
      characters and no key sequence makes the interface panic as
      long as the records' timestamps are ASCII.
    - Rotations keep every key in a backup as long as they are a second apart; the
      check of the pin file agrees with the pin file; an update installs only what
      the release's checksums list; rate limits, as they are.
    - Watching loses no file while its batches are sent; one daemon at a time; reverse
      forwards never exceed their slots; a route's connections, and what its end
      runs; reads of the daemon's information are capped; how far FIPS mode reaches.
    - Every POSIX shell reads the command lines as the words that were meant; a
      bootstrap connects to what was announced, and to no host given by name; a copy
      starts the worker it then talks to, and its first path settles the pin; the child
      is ended within a bounded number of looks; a listing arrives complete; a scan
      reports exactly the open ports and ends if it has a permit; a machine in order
      passes the doctor; synchronisations whose sides differ in mode or compression
      fail, and how.
    - Where modelling showed that the code does not do what it says, a theorem or
      lemma states what it does.

    ** Fuel and bounds

    Fuel is taken from the length of what is consumed, each step consuming
    something: [drain_stream] and [flush_datagrams] ([SessionProps] shows that
    nothing is left), [read_loop], the STUN attribute loop ([Stun] shows that it
    ends), the text functions of [Text] (a character at a time), [pieces],
    [chars].  The loops of the two-process protocols take fuel as an argument; the
    theorems of [Transfer] and [Sync] give one that is enough for the files at
    hand ([fuel_for]) and state that both sides return.  The AEAD laws are assumed
    up to the primitives' own message limit.

    ** Not modelled

    Sockets, child processes, terminals and the system's services, and the
    copying of bytes between them and a connection; argument parsing; the cache of
    synchronised manifests, which is only counted for a message; drawing beyond the texts it slices; the
    file system's errors and directories; progress bars; the floating-point division of one statistic of the traffic shaper. *)

From Stdlib Require Import ZArith Lia Bool List.
From Stdlib Require Import Strings.Byte.
From stdpp Require Import base list numbers option countable.

#[global] Set Default Goal Selector "!".
Open Scope Z_scope.

Declare Scope seam_scope.
Delimit Scope seam_scope with seam.
Open Scope seam_scope.

(** ** Rust's [Result], its [?] operator and the generic automation *)

(** [Result<T, E>]: the error type is a parameter, as in Rust. *)
Inductive Result (T E : Type) : Type :=
  | Ok (v : T)
  | Err (e : E).
Arguments Ok {T E} v.
Arguments Err {T E} e.

Definition is_ok {T E} (r : Result T E) : bool :=
  match r with Ok _ => true | Err _ => false end.

(** [let x = e?; k]. *)
Definition bind_result {T U E} (r : Result T E) (k : T -> Result U E) : Result U E :=
  match r with Ok v => k v | Err e => Err e end.

Notation "'try' x ':=' r 'in' k" := (bind_result r (fun x => k))
  (at level 10, x name, r at level 100, k at level 200) : seam_scope.

(** [o.ok_or(e)]. *)
Definition ok_or {T E} (o : option T) (e : E) : Result T E :=
  match o with Some v => Ok v | None => Err e end.

Create HintDb seam.
Create Rewrite HintDb seam.
Create Rewrite HintDb len.

(** Case analysis on the innermost boolean comparison of the goal or of a
    hypothesis, turned into the arithmetic fact it decides. *)
Ltac cmp_facts :=
  repeat match goal with
  | H : (_ <? _) = true |- _ => apply Z.ltb_lt in H
  | H : (_ <? _) = false |- _ => apply Z.ltb_ge in H
  | H : (_ <=? _) = true |- _ => apply Z.leb_le in H
  | H : (_ <=? _) = false |- _ => apply Z.leb_gt in H
  | H : (_ =? _) = true |- _ => apply Z.eqb_eq in H
  | H : (_ =? _) = false |- _ => apply Z.eqb_neq in H
  | H : (_ <? _)%nat = true |- _ => apply Nat.ltb_lt in H
  | H : (_ <? _)%nat = false |- _ => apply Nat.ltb_ge in H
  | H : (_ <=? _)%nat = true |- _ => apply Nat.leb_le in H
  | H : (_ <=? _)%nat = false |- _ => apply Nat.leb_gt in H
  | H : (_ =? _)%nat = true |- _ => apply Nat.eqb_eq in H
  | H : (_ =? _)%nat = false |- _ => apply Nat.eqb_neq in H
  | H : (_ && _)%bool = true |- _ => apply andb_prop in H; destruct H
  | H : (_ || _)%bool = false |- _ => apply orb_false_elim in H; destruct H
  | H : negb _ = true |- _ => apply negb_true_iff in H
  | H : negb _ = false |- _ => apply negb_false_iff in H
  end.

(** Split one [if] of the goal. *)
Ltac split_if :=
  match goal with
  | |- context [if ?b then _ else _] => let E := fresh "Eif" in destruct b eqn:E
  end.

(** Split one [if] of a hypothesis. *)
Ltac split_if_in H :=
  match type of H with
  | context [if ?b then _ else _] => let E := fresh "Eif" in destruct b eqn:E
  end.

(** ** Machine integers: values of [Z] with the width written out *)

Definition U8_MAX : Z := 2 ^ 8 - 1.
Definition U16_MAX : Z := 2 ^ 16 - 1.
Definition U32_MAX : Z := 2 ^ 32 - 1.
Definition U64_MAX : Z := 2 ^ 64 - 1.

Definition wrap (w v : Z) : Z := v mod 2 ^ w.
Definition wrapping_add (w a b : Z) : Z := wrap w (a + b).
Definition wrapping_mul (w a b : Z) : Z := wrap w (a * b).
Definition saturating_sub (a b : Z) : Z := Z.max 0 (a - b).
Definition saturating_add (w a b : Z) : Z := Z.min (2 ^ w - 1) (a + b).
Definition saturating_mul (w a b : Z) : Z := Z.min (2 ^ w - 1) (a * b).
Definition checked_sub (a b : Z) : option Z :=
  if a <? b then None else Some (a - b).

Definition is_u (w v : Z) : Prop := 0 <= v < 2 ^ w.
Abbreviation is_u8 := (is_u 8).
Abbreviation is_u16 := (is_u 16).
Abbreviation is_u32 := (is_u 32).
Abbreviation is_u64 := (is_u 64).

Lemma wrap_small w v : is_u w v -> wrap w v = v.
Proof. intros H. unfold wrap. by apply Z.mod_small. Qed.

Lemma wrap_is_u w v : 0 <= w -> is_u w (wrap w v).
Proof. intros H. unfold wrap, is_u. apply Z.mod_pos_bound. by apply Z.pow_pos_nonneg. Qed.

Lemma saturating_sub_le a b : b <= a -> saturating_sub a b = a - b.
Proof. unfold saturating_sub. lia. Qed.

Lemma checked_sub_Some a b c : checked_sub a b = Some c <-> b <= a /\ c = a - b.
Proof.
  unfold checked_sub. destruct (a <? b) eqn:E; cmp_facts; split.
  - done.
  - lia.
  - intros [= <-]. lia.
  - intros [? ->]. done.
Qed.

(** ** Time: [Duration] and [Instant] in nanoseconds *)

Definition from_millis (ms : Z) : Z := ms * 1000000.
Definition from_micros (us : Z) : Z := us * 1000.
Definition from_secs (s : Z) : Z := s * 1000000000.
Definition as_micros_u64 (d : Z) : Z := wrap 64 (d / 1000).

(** [later.duration_since(earlier)]. *)
Definition duration_since (later earlier : Z) : Z := saturating_sub later earlier.

(** ** Bytes *)

#[export] Instance byte_eq_dec : EqDecision byte := Byte.byte_eq_dec.

#[export] Instance byte_countable : Countable byte.
Proof.
  apply (inj_countable Byte.to_N Byte.of_N). intros b. by rewrite Byte.of_to_N.
Defined.
#[export] Instance byte_inhabited : Inhabited byte := populate Byte.x00.

Definition byte_val (b : byte) : Z := Z.of_N (Byte.to_N b).
Definition byte_of (z : Z) : byte :=
  match Byte.of_N (Z.to_N (z mod 256)) with Some b => b | None => Byte.x00 end.

Lemma byte_val_bound b : 0 <= byte_val b < 256.
Proof.
  unfold byte_val. pose proof (Byte.to_N_bounded b). lia.
Qed.

Lemma byte_val_of z : byte_val (byte_of z) = z mod 256.
Proof.
  unfold byte_val, byte_of.
  pose proof (Z.mod_pos_bound z 256 ltac:(lia)) as Hb.
  destruct (Byte.of_N (Z.to_N (z mod 256))) as [b|] eqn:E.
  - apply Byte.to_of_N in E. rewrite E. lia.
  - apply Byte.of_N_None_iff in E. lia.
Qed.

Lemma byte_of_val b : byte_of (byte_val b) = b.
Proof.
  unfold byte_of, byte_val. rewrite Z.mod_small by apply byte_val_bound.
  rewrite N2Z.id, Byte.of_to_N. done.
Qed.

Lemma byte_val_inj a b : byte_val a = byte_val b -> a = b.
Proof. intros H. rewrite <- (byte_of_val a), <- (byte_of_val b). by rewrite H. Qed.

Lemma byte_of_small z : 0 <= z < 256 -> byte_val (byte_of z) = z.
Proof. intros H. rewrite byte_val_of. by apply Z.mod_small. Qed.

(** Equality of byte strings, as the code computes it on slices. *)
Fixpoint bytes_eqb (a b : list byte) : bool :=
  match a, b with
  | [], [] => true
  | x :: a', y :: b' => (byte_val x =? byte_val y) && bytes_eqb a' b'
  | _, _ => false
  end.

Lemma bytes_eqb_eq a b : bytes_eqb a b = true <-> a = b.
Proof.
  revert b. induction a as [|x a IH]; intros [|y b]; simpl; try done.
  rewrite andb_true_iff, Z.eqb_eq, IH. split.
  - intros [Hx ->]. by rewrite (byte_val_inj _ _ Hx).
  - by intros [= -> ->].
Qed.

Lemma bytes_eqb_refl a : bytes_eqb a a = true.
Proof. by apply bytes_eqb_eq. Qed.

(** [u8 ^ u8]. *)
Definition byte_xor (a b : byte) : byte := byte_of (Z.lxor (byte_val a) (byte_val b)).

Lemma lxor_bound w a b : 0 <= w -> is_u w a -> is_u w b -> is_u w (Z.lxor a b).
Proof.
  intros Hw [Ha Ha'] [Hb Hb']. split.
  - apply Z.lxor_nonneg; lia.
  - destruct (Z.eq_dec (Z.lxor a b) 0) as [->|Hne]; [by apply Z.pow_pos_nonneg|].
    assert (0 <= Z.lxor a b) by (apply Z.lxor_nonneg; lia).
    apply Z.log2_lt_pow2; [lia|].
    pose proof (Z.log2_lxor a b Ha Hb) as Hl.
    assert (forall x, 0 <= x < 2 ^ w -> x = 0 \/ Z.log2 x < w) as Hx.
    { intros x [Hx0 Hx1]. destruct (Z.eq_dec x 0) as [->|]; [by left|].
      right. apply Z.log2_lt_pow2; lia. }
    destruct (Hx a ltac:(lia)) as [Ea|], (Hx b ltac:(lia)) as [Eb|];
      try rewrite Ea in *; try rewrite Eb in *; rewrite ?Z.lxor_0_l, ?Z.lxor_0_r in *;
      try lia.
Qed.

Lemma byte_val_xor a b : byte_val (byte_xor a b) = Z.lxor (byte_val a) (byte_val b).
Proof.
  unfold byte_xor. apply byte_of_small.
  apply (lxor_bound 8); [lia| |]; unfold is_u; apply byte_val_bound.
Qed.

Lemma byte_xor_comm a b : byte_xor a b = byte_xor b a.
Proof. apply byte_val_inj. rewrite !byte_val_xor. apply Z.lxor_comm. Qed.

Lemma byte_xor_assoc a b c : byte_xor (byte_xor a b) c = byte_xor a (byte_xor b c).
Proof. apply byte_val_inj. rewrite !byte_val_xor. apply Z.lxor_assoc. Qed.

Lemma byte_xor_0_l a : byte_xor Byte.x00 a = a.
Proof. apply byte_val_inj. rewrite byte_val_xor. apply Z.lxor_0_l. Qed.

Lemma byte_xor_0_r a : byte_xor a Byte.x00 = a.
Proof. rewrite byte_xor_comm. apply byte_xor_0_l. Qed.

Lemma byte_xor_nilpotent a : byte_xor a a = Byte.x00.
Proof. apply byte_val_inj. rewrite byte_val_xor. apply Z.lxor_nilpotent. Qed.

Lemma byte_xor_cancel a b : byte_xor (byte_xor a b) b = a.
Proof. by rewrite byte_xor_assoc, byte_xor_nilpotent, byte_xor_0_r. Qed.

#[export] Hint Rewrite byte_xor_0_l byte_xor_0_r byte_xor_nilpotent byte_xor_cancel : seam.

(** ** Slices and arrays *)

(** [&l[i..j]], for [i <= j <= l.len()]. *)
Definition slice {A} (l : list A) (i j : nat) : list A := take (j - i) (drop i l).

(** [l[i]] of a byte slice, for [i < l.len()]. *)
Definition at_ (l : list byte) (i : nat) : byte := nth i l Byte.x00.

(** [vec.resize(n, 0)] on bytes: truncate or pad. *)
Definition resize_bytes (l : list byte) (n : nat) : list byte :=
  take n l ++ replicate (n - length l) Byte.x00.

(** [dst.iter_mut().zip(src)] with [*d ^= s]: positions past the shorter
    operand keep their value. *)
Fixpoint xor_zip (dst src : list byte) : list byte :=
  match dst, src with
  | d :: dst', s :: src' => byte_xor d s :: xor_zip dst' src'
  | _, _ => dst
  end.

Lemma length_slice {A} (l : list A) i j :
  (i <= j)%nat -> (j <= length l)%nat -> length (slice l i j) = (j - i)%nat.
Proof. intros. unfold slice. rewrite length_take, length_drop. lia. Qed.

Lemma slice_app_l {A} (l k : list A) i j :
  (j <= length l)%nat -> slice (l ++ k) i j = slice l i j.
Proof.
  intros Hj. unfold slice. destruct (decide (i <= length l)%nat).
  - rewrite drop_app_le, take_app_le; [done| |done]. rewrite length_drop. lia.
  - replace (j - i)%nat with 0%nat by lia. done.
Qed.

Lemma slice_app_r {A} (l k : list A) i j :
  (length l <= i)%nat -> slice (l ++ k) i j = slice k (i - length l) (j - length l).
Proof.
  intros Hj. unfold slice. rewrite drop_app_ge by done. f_equal. lia.
Qed.

Lemma slice_all {A} (l : list A) n : length l = n -> slice l 0 n = l.
Proof. intros <-. unfold slice. simpl. rewrite Nat.sub_0_r. apply firstn_all. Qed.

Lemma slice_mid {A} (p m q : list A) i j :
  length p = i -> length m = (j - i)%nat -> slice (p ++ m ++ q) i j = m.
Proof.
  intros Hp Hm. rewrite slice_app_r by lia. rewrite Hp, Nat.sub_diag.
  rewrite slice_app_l by lia. by apply slice_all.
Qed.

Lemma slice_last {A} (p m : list A) i j :
  length p = i -> length m = (j - i)%nat -> slice (p ++ m) i j = m.
Proof. intros Hp Hm. rewrite <- (app_nil_r m) at 1. by apply slice_mid. Qed.

(** Adjacent slices of one buffer join. *)
Lemma slice_join {A} (b : list A) i j k :
  (i <= j)%nat -> (j <= k)%nat -> slice b i j ++ slice b j k = slice b i k.
Proof.
  intros Hi Hj. unfold slice. replace (drop j b) with (drop (j - i) (drop i b))
    by (rewrite drop_drop; f_equal; lia).
  replace (k - i)%nat with ((j - i) + (k - j))%nat by lia.
  by rewrite take_take_drop.
Qed.

Lemma length_resize_bytes l n : length (resize_bytes l n) = n.
Proof. unfold resize_bytes. rewrite length_app, length_take, length_replicate. lia. Qed.

Lemma resize_bytes_ge l n :
  (length l <= n)%nat -> resize_bytes l n = l ++ replicate (n - length l) Byte.x00.
Proof. intros. unfold resize_bytes. by rewrite take_ge. Qed.

Lemma length_xor_zip dst src : length (xor_zip dst src) = length dst.
Proof. revert src. induction dst as [|d dst IH]; intros [|s src]; simpl; auto. Qed.

Lemma xor_zip_involutive dst src : xor_zip (xor_zip dst src) src = dst.
Proof.
  revert src. induction dst as [|d dst IH]; intros [|s src]; simpl; auto.
  by rewrite byte_xor_cancel, IH.
Qed.

#[export] Hint Rewrite @length_app @length_take @length_drop @length_replicate
  length_resize_bytes length_xor_zip @length_fmap @length_insert : len.

(** ** Little- and big-endian encodings *)

Fixpoint to_le (n : nat) (v : Z) : list byte :=
  match n with
  | O => []
  | S n' => byte_of v :: to_le n' (v / 256)
  end.

Fixpoint from_le (l : list byte) : Z :=
  match l with
  | [] => 0
  | b :: l' => byte_val b + 256 * from_le l'
  end.

Definition to_be (n : nat) (v : Z) : list byte := rev (to_le n v).
Definition from_be (l : list byte) : Z := from_le (rev l).

Lemma length_to_le n v : length (to_le n v) = n.
Proof. revert v. induction n; simpl; auto. Qed.

Lemma length_to_be n v : length (to_be n v) = n.
Proof. unfold to_be. by rewrite length_rev, length_to_le. Qed.

#[export] Hint Rewrite length_to_le length_to_be : len.

Lemma from_le_bound l : 0 <= from_le l < 256 ^ Z.of_nat (length l).
Proof.
  induction l as [|b l IH]; simpl length; [simpl; lia|].
  rewrite Nat2Z.inj_succ, Z.pow_succ_r by lia. simpl.
  pose proof (byte_val_bound b). nia.
Qed.

Lemma pow256 n : 256 ^ Z.of_nat n = 2 ^ (8 * Z.of_nat n).
Proof. rewrite Z.pow_mul_r by lia. done. Qed.

Lemma from_le_to_le n v : from_le (to_le n v) = v mod 256 ^ Z.of_nat n.
Proof.
  revert v. induction n as [|n IH]; intros v.
  - simpl. by rewrite Z.mod_1_r.
  - simpl to_le. simpl from_le. rewrite IH, byte_val_of.
    rewrite Nat2Z.inj_succ, Z.pow_succ_r by lia.
    rewrite Z.rem_mul_r; lia.
Qed.

Lemma from_le_to_le_small n v :
  is_u (8 * Z.of_nat n) v -> from_le (to_le n v) = v.
Proof.
  intros H. rewrite from_le_to_le, pow256. by apply Z.mod_small.
Qed.

Lemma to_le_from_le l n : length l = n -> to_le n (from_le l) = l.
Proof.
  intros <-. induction l as [|b l IH]; [done|]. simpl.
  pose proof (byte_val_bound b) as Hb. f_equal.
  - apply byte_val_inj. rewrite byte_val_of.
    rewrite Z.mul_comm, Z.mod_add, Z.mod_small; lia.
  - rewrite Z.mul_comm, Z.div_add, Z.div_small, Z.add_0_l; [exact IH|lia|lia].
Qed.

Lemma from_be_to_be_small n v :
  is_u (8 * Z.of_nat n) v -> from_be (to_be n v) = v.
Proof.
  intros H. unfold from_be, to_be. rewrite rev_involutive. by apply from_le_to_le_small.
Qed.

Lemma from_le_is_u l n : length l = n -> is_u (8 * Z.of_nat n) (from_le l).
Proof. intros <-. unfold is_u. rewrite <- pow256. apply from_le_bound. Qed.

Lemma to_le_inj n a b :
  is_u (8 * Z.of_nat n) a -> is_u (8 * Z.of_nat n) b -> to_le n a = to_le n b -> a = b.
Proof.
  intros Ha Hb H. rewrite <- (from_le_to_le_small n a Ha), <- (from_le_to_le_small n b Hb).
  by rewrite H.
Qed.

(** ** Single bits of a word *)

(** [w & (1u64 << n) != 0]. *)
Definition bit_set (w n : Z) : bool := negb (Z.land w (Z.shiftl 1 n) =? 0).

Lemma testbit_1_shiftl n m : 0 <= n -> Z.testbit (Z.shiftl 1 n) m = (m =? n).
Proof.
  intros Hn. rewrite Z.shiftl_1_l. destruct (m =? n) eqn:E; cmp_facts.
  - subst. by apply Z.pow2_bits_true.
  - by apply Z.pow2_bits_false.
Qed.

Lemma bit_set_testbit w n : 0 <= n -> bit_set w n = Z.testbit w n.
Proof.
  intros Hn. unfold bit_set. destruct (Z.testbit w n) eqn:E.
  - apply negb_true_iff, Z.eqb_neq. intros H0.
    apply (f_equal (fun x => Z.testbit x n)) in H0.
    rewrite Z.land_spec, testbit_1_shiftl, Z.eqb_refl, E, Z.bits_0 in H0 by done. done.
  - apply negb_false_iff, Z.eqb_eq. apply Z.bits_inj'. intros m Hm.
    rewrite Z.land_spec, testbit_1_shiftl, Z.bits_0 by done.
    destruct (m =? n) eqn:Em; cmp_facts; [subst; by rewrite E | by rewrite andb_false_r].
Qed.

Lemma testbit_high w v n : 0 <= w -> is_u w v -> w <= n -> Z.testbit v n = false.
Proof.
  intros Hw Hv Hn. rewrite <- (wrap_small w v Hv). unfold wrap.
  apply Z.mod_pow2_bits_high. lia.
Qed.

Lemma testbit_wrap w v n :
  0 <= w -> 0 <= n -> Z.testbit (wrap w v) n = (n <? w) && Z.testbit v n.
Proof.
  intros Hw Hn. unfold wrap. destruct (n <? w) eqn:E; cmp_facts; simpl.
  - apply Z.mod_pow2_bits_low. lia.
  - apply Z.mod_pow2_bits_high. lia.
Qed.

Lemma lor_is_u w a b : 0 <= w -> is_u w a -> is_u w b -> is_u w (Z.lor a b).
Proof.
  intros Hw Ha Hb. replace (Z.lor a b) with (wrap w (Z.lor a b)); [by apply wrap_is_u|].
  apply Z.bits_inj'. intros n Hn. rewrite testbit_wrap by done.
  destruct (n <? w) eqn:E; cmp_facts; [done|]. simpl.
  by rewrite Z.lor_spec, !(testbit_high w) by done.
Qed.

Lemma shiftr_is_u w a n : 0 <= n -> is_u w a -> is_u w (Z.shiftr a n).
Proof.
  intros Hn [Ha Ha']. rewrite Z.shiftr_div_pow2 by done.
  assert (0 < 2 ^ n) by (by apply Z.pow_pos_nonneg).
  split; [apply Z.div_pos; lia|].
  apply Z.le_lt_trans with a; [|done]. apply Z.div_le_upper_bound; nia.
Qed.

(** ** Boolean filters *)

Lemma filter_none {A} (P : A -> bool) l :
  (forall x, In x l -> P x = false) -> List.filter P l = [].
Proof.
  induction l as [|x l IH]; intros H; simpl; [done|].
  rewrite H by (by left). apply IH. intros y Hy. apply H. by right.
Qed.

Lemma filter_true_all {A} (P : A -> bool) l :
  (forall x, In x l -> P x = true) -> List.filter P l = l.
Proof.
  induction l as [|x l IH]; intros H; simpl; [done|].
  rewrite H by (by left). f_equal. apply IH. intros y Hy. apply H. by right.
Qed.

Lemma filter_filter_and {A} (P Q : A -> bool) l :
  List.filter P (List.filter Q l) = List.filter (fun x => Q x && P x) l.
Proof.
  induction l as [|x l IH]; simpl; [done|]. destruct (Q x); simpl; [|done].
  destruct (P x); simpl; by rewrite IH.
Qed.
