(* ===== verification/Packet.v ===== *)
(** * Packets and errors

    The wire constants and packet types of src/src/packet.rs and the error
    type of src/src/error.rs. *)

From Stdlib Require Import ZArith Lia Bool List String.
From Stdlib Require Import Strings.Byte.
From stdpp Require Import base list numbers option.
From S2P Require Import Prelude.

Open Scope Z_scope.

(** [SeamError], with the payload of each variant. *)
Inductive SeamError : Type :=
  | AuthFailed
  | Replay (seq : Z)
  | TooOld (seq : Z)
  | BufferTooSmall (need have : Z)
  | InvalidPktType (v : Z)
  | HandshakeFailed (msg : string)
  | FlowControlBlocked (available requested : Z)
  | UnknownStream (id : Z)
  | StreamFinished (id : Z)
  | ProtocolViolation (msg : string)
  | PacketTooLarge (have max : Z).

Definition HEADER_LEN : nat := 32.
Definition TAG_LEN : nat := 16.
Definition MIN_PACKET_LEN : nat := HEADER_LEN + TAG_LEN.
Definition MAX_PACKET_LEN : Z := 65535.

Definition encode_buf_len (plaintext_len : nat) : nat := HEADER_LEN + plaintext_len + TAG_LEN.

Inductive PktType : Type :=
  | Initial | Handshake | Data | Ack | FecRepair | Chaff | PathProbe | Close
  | Datagram | KeyUpdate | MaxData | Ping | Pong | SessionTicketPkt
  | SvcResume | SvcResumeOk | PathChallenge | PathResponse.

#[export] Instance PktType_eq_dec : EqDecision PktType.
Proof. solve_decision. Defined.

(** [pkt_type as u8]. *)
Definition PktType_as_u8 (t : PktType) : byte :=
  match t with
  | Initial => x00 | Handshake => x01 | Data => x02 | Ack => x03
  | FecRepair => x04 | Chaff => x05 | PathProbe => x06 | Close => x07
  | Datagram => x08 | KeyUpdate => x09 | MaxData => x0a | Ping => x0b
  | Pong => x0c | SessionTicketPkt => x0d | SvcResume => x0e
  | SvcResumeOk => x0f | PathChallenge => x10 | PathResponse => x11
  end.

(** [PktType::try_from]. *)
Definition PktType_try_from (v : byte) : Result PktType SeamError :=
  match v with
  | x00 => Ok Initial | x01 => Ok Handshake | x02 => Ok Data | x03 => Ok Ack
  | x04 => Ok FecRepair | x05 => Ok Chaff | x06 => Ok PathProbe | x07 => Ok Close
  | x08 => Ok Datagram | x09 => Ok KeyUpdate | x0a => Ok MaxData | x0b => Ok Ping
  | x0c => Ok Pong | x0d => Ok SessionTicketPkt | x0e => Ok SvcResume
  | x0f => Ok SvcResumeOk | x10 => Ok PathChallenge | x11 => Ok PathResponse
  | other => Err (InvalidPktType (byte_val other))
  end.

Lemma PktType_try_from_as_u8 t : PktType_try_from (PktType_as_u8 t) = Ok t.
Proof. by destruct t. Qed.

Lemma PktType_try_from_Ok v t : PktType_try_from v = Ok t -> v = PktType_as_u8 t.
Proof. destruct v; simpl; intros H; try discriminate; injection H as <-; done. Qed.

#[export] Hint Rewrite PktType_try_from_as_u8 : seam.

Lemma encode_buf_len_min n : (MIN_PACKET_LEN <= encode_buf_len n)%nat.
Proof. unfold encode_buf_len, MIN_PACKET_LEN. lia. Qed.

(** The packet-type byte is a bijection between the defined variants and
    the accepted byte values: decoding inverts encoding, and a byte decodes to
    a type exactly when it is that type's discriminant; every other byte is
    rejected with [InvalidPktType] carrying the offending value. *)
Theorem pkt_type_codec :
  (forall t, PktType_try_from (PktType_as_u8 t) = Ok t) /\
  (forall v t, PktType_try_from v = Ok t <-> v = PktType_as_u8 t) /\
  (forall v e, PktType_try_from v = Err e ->
     e = InvalidPktType (byte_val v) /\ 17 < byte_val v).
Proof.
  repeat split.
  - apply PktType_try_from_as_u8.
  - apply PktType_try_from_Ok.
  - intros ->. apply PktType_try_from_as_u8.
  - destruct v; simpl in H; try discriminate; injection H as <-; done.
  - destruct v; simpl in H; try discriminate; done.
Qed.
