(* ===== verification/Replay.v ===== *)
(** * Anti-replay window

    [ReplayWindow] of src/src/crypto/replay.rs: a 1024-bit sliding bitmap of
    sixteen [u64] words over the packet numbers, refined to the set of packet
    numbers ever accepted. *)

From Stdlib Require Import ZArith Lia Bool List.
From stdpp Require Import base list numbers option gmap.
From S2P Require Import Prelude Packet.

Open Scope Z_scope.

Record ReplayWindow : Type := mkReplayWindow {
  rw_base_seq : Z;          (* u64 *)
  rw_bitmap : list Z        (* [u64; 16] *)
}.

Definition ReplayWindow_new : ReplayWindow :=
  {| rw_base_seq := 0; rw_bitmap := replicate 16 0 |}.

(** [self.bitmap[bit_pos / 64] & (1u64 << (bit_pos % 64)) != 0]. *)
Definition rw_test (bm : list Z) (bit_pos : Z) : bool :=
  bit_set (nth (Z.to_nat (bit_pos / 64)) bm 0) (bit_pos mod 64).

(** [ReplayWindow::check]. *)
Definition ReplayWindow_check (w : ReplayWindow) (seq : Z) : Result unit SeamError :=
  if seq <? rw_base_seq w then Err (TooOld seq)
  else
    let offset := seq - rw_base_seq w in
    if offset <? 1024 then
      if rw_test (rw_bitmap w) offset then Err (Replay seq) else Ok tt
    else Ok tt.

(** The [else] branch of the slide: shift the bitmap by [slide < 1024] bits. *)
Definition rw_shift (bm : list Z) (slide : Z) : list Z :=
  let word_shift := Z.to_nat (slide / 64) in
  let bit_shift := slide mod 64 in
  map (fun i : nat =>
         let src := (i + word_shift)%nat in
         if (src <? 16)%nat then
           let slot := Z.shiftr (nth src bm 0) bit_shift in
           if (0 <? bit_shift) && (src + 1 <? 16)%nat
           then Z.lor slot (wrap 64 (Z.shiftl (nth (src + 1) bm 0) (64 - bit_shift)))
           else slot
         else 0)
      (seq 0 16).

(** The window after the "slide forward if needed" step of [commit]. *)
Definition rw_slide (w : ReplayWindow) (seq : Z) : ReplayWindow :=
  let offset := seq - rw_base_seq w in
  if 1024 <=? offset then
    let slide := offset - 1023 in
    {| rw_base_seq := rw_base_seq w + slide;
       rw_bitmap := if 1024 <=? slide then replicate 16 0
                    else rw_shift (rw_bitmap w) slide |}
  else w.

(** [self.bitmap[word] |= 1u64 << bit]. *)
Definition rw_set (bm : list Z) (bit_pos : Z) : list Z :=
  let word := Z.to_nat (bit_pos / 64) in
  <[word := Z.lor (nth word bm 0) (Z.shiftl 1 (bit_pos mod 64))]> bm.

(** [ReplayWindow::commit]: the new window and the returned result. *)
Definition ReplayWindow_commit (w : ReplayWindow) (seq : Z)
  : ReplayWindow * Result unit SeamError :=
  if seq <? rw_base_seq w then (w, Err (TooOld seq))
  else
    let w' := rw_slide w seq in
    let bit_pos := seq - rw_base_seq w' in
    if rw_test (rw_bitmap w') bit_pos then (w', Err (Replay seq))
    else ({| rw_base_seq := rw_base_seq w';
             rw_bitmap := rw_set (rw_bitmap w') bit_pos |}, Ok tt).

(** [ReplayWindow::check_and_insert]. *)
Definition ReplayWindow_check_and_insert (w : ReplayWindow) (seq : Z)
  : ReplayWindow * Result unit SeamError :=
  match ReplayWindow_check w seq with
  | Err e => (w, Err e)
  | Ok _ => ReplayWindow_commit w seq
  end.

(** Feed a list of packet numbers; the results in order. *)
Fixpoint rw_run (w : ReplayWindow) (seqs : list Z) : ReplayWindow * list (Result unit SeamError) :=
  match seqs with
  | [] => (w, [])
  | s :: rest =>
      let '(w1, r) := ReplayWindow_check_and_insert w s in
      let '(w2, rs) := rw_run w1 rest in
      (w2, r :: rs)
  end.

(** ** Abstract specification: the set of accepted numbers and a floor *)

Record AntiReplay : Type := mkAntiReplay {
  ar_seen : gset Z;
  ar_floor : Z
}.

Definition AntiReplay_new : AntiReplay := {| ar_seen := ∅; ar_floor := 0 |}.

Definition AntiReplay_accept (a : AntiReplay) (s : Z) : AntiReplay * Result unit SeamError :=
  if s <? ar_floor a then (a, Err (TooOld s))
  else if bool_decide (s ∈ ar_seen a) then (a, Err (Replay s))
  else ({| ar_seen := {[s]} ∪ ar_seen a; ar_floor := Z.max (ar_floor a) (s - 1023) |}, Ok tt).

(** ** Invariant and abstraction relation *)

Definition rw_wf (w : ReplayWindow) : Prop :=
  length (rw_bitmap w) = 16%nat /\ Forall is_u64 (rw_bitmap w) /\
  0 <= rw_base_seq w <= U64_MAX - 1023.

Definition rw_bit (bm : list Z) (p : Z) : bool :=
  Z.testbit (nth (Z.to_nat (p / 64)) bm 0) (p mod 64).

Definition rw_abs (w : ReplayWindow) (a : AntiReplay) : Prop :=
  rw_base_seq w = ar_floor a /\
  (forall s, s ∈ ar_seen a -> s < rw_base_seq w + 1024) /\
  (forall p, 0 <= p < 1024 -> rw_bit (rw_bitmap w) p = bool_decide (rw_base_seq w + p ∈ ar_seen a)).

(** ** Bit-level lemmas *)

Lemma rw_test_bit bm p : rw_test bm p = rw_bit bm p.
Proof. unfold rw_test, rw_bit. apply bit_set_testbit. apply Z.mod_pos_bound. lia. Qed.

Lemma rw_nth_u64 bm i : Forall is_u64 bm -> is_u64 (nth i bm 0).
Proof.
  intros H. destruct (decide (i < length bm)%nat).
  - apply Forall_nth; [done|lia].
  - rewrite nth_overflow by lia. unfold is_u. lia.
Qed.
#[local] Hint Resolve rw_nth_u64 : seam.

Lemma rw_bit_out bm p : length bm = 16%nat -> 1024 <= p -> rw_bit bm p = false.
Proof.
  intros Hl Hp. unfold rw_bit. rewrite nth_overflow; [apply Z.bits_0|].
  rewrite Hl. assert (16 <= p / 64) by (apply Z.div_le_lower_bound; lia). lia.
Qed.

Lemma rw_bit_zero p : rw_bit (replicate 16 0) p = false.
Proof.
  unfold rw_bit.
  assert (forall n i, nth i (replicate n 0) 0 = 0) as ->.
  { induction n; destruct i; simpl; auto. }
  apply Z.bits_0.
Qed.

Lemma length_rw_shift bm s : length (rw_shift bm s) = 16%nat.
Proof. reflexivity. Qed.

(** The [i]-th word of a shifted bitmap. *)
Lemma rw_shift_nth bm s i : (i < 16)%nat ->
  nth i (rw_shift bm s) 0 =
    let src := (i + Z.to_nat (s / 64))%nat in
    if (src <? 16)%nat then
      let slot := Z.shiftr (nth src bm 0) (s mod 64) in
      if (0 <? s mod 64) && (src + 1 <? 16)%nat
      then Z.lor slot (wrap 64 (Z.shiftl (nth (src + 1) bm 0) (64 - s mod 64)))
      else slot
    else 0.
Proof.
  intros Hi. do 16 (destruct i as [|i]; [reflexivity|]). lia.
Qed.

Lemma rw_shift_u64 bm s : Forall is_u64 bm -> 0 <= s -> Forall is_u64 (rw_shift bm s).
Proof.
  intros Hb Hs. apply (Forall_nth _ 0). intros i Hi. rewrite length_rw_shift in Hi.
  rewrite rw_shift_nth by done. cbv zeta.
  pose proof (Z.mod_pos_bound s 64 ltac:(lia)).
  repeat split_if.
  - apply lor_is_u; [lia| |apply wrap_is_u; lia]. apply shiftr_is_u; [lia|]. by apply rw_nth_u64.
  - apply shiftr_is_u; [lia|]. by apply rw_nth_u64.
  - unfold is_u. lia.
Qed.

(** Decomposition of a shifted position into word and bit. *)
Lemma rw_pos_split p s :
  0 <= p < 1024 -> 0 <= s ->
  let i := p / 64 in let b := p mod 64 in
  (b + s mod 64 < 64 /\ (p + s) / 64 = i + s / 64 /\ (p + s) mod 64 = b + s mod 64) \/
  (64 <= b + s mod 64 /\ (p + s) / 64 = i + s / 64 + 1 /\ (p + s) mod 64 = b + s mod 64 - 64).
Proof.
  intros Hp Hs i b. subst i b.
  pose proof (Z.mod_pos_bound p 64 ltac:(lia)). pose proof (Z.mod_pos_bound s 64 ltac:(lia)).
  pose proof (Z.div_mod p 64 ltac:(lia)). pose proof (Z.div_mod s 64 ltac:(lia)).
  destruct (Z.lt_ge_cases (p mod 64 + s mod 64) 64); [left|right]; split; try lia; split.
  - symmetry. apply Z.div_unique with (p mod 64 + s mod 64); lia.
  - symmetry. apply Z.mod_unique with (p / 64 + s / 64); lia.
  - symmetry. apply Z.div_unique with (p mod 64 + s mod 64 - 64); lia.
  - symmetry. apply Z.mod_unique with (p / 64 + s / 64 + 1); lia.
Qed.

Lemma rw_bit_shift bm s p :
  length bm = 16%nat -> Forall is_u64 bm -> 0 <= s -> 0 <= p < 1024 ->
  rw_bit (rw_shift bm s) p = rw_bit bm (p + s).
Proof.
  intros Hl Hb Hs Hp. unfold rw_bit.
  pose proof (Z.mod_pos_bound p 64 ltac:(lia)). pose proof (Z.mod_pos_bound s 64 ltac:(lia)).
  assert (0 <= p / 64 < 16) by (split; [apply Z.div_pos|apply Z.div_lt_upper_bound]; lia).
  assert (0 <= s / 64) by (apply Z.div_pos; lia).
  rewrite rw_shift_nth by lia. cbv zeta.
  set (src := (Z.to_nat (p / 64) + Z.to_nat (s / 64))%nat).
  pose proof (rw_nth_u64 bm src Hb) as Hw.
  destruct (rw_pos_split p s Hp Hs) as [(Hlt & Hd & Hm) | (Hge & Hd & Hm)]; rewrite Hd, Hm.
  - replace (Z.to_nat (p / 64 + s / 64)) with src by lia.
    destruct (src <? 16)%nat eqn:E1; cmp_facts;
      [|rewrite (nth_overflow bm) by lia; by rewrite !Z.bits_0].
    destruct ((0 <? s mod 64) && (src + 1 <? 16)%nat) eqn:E2; cmp_facts;
      rewrite ?Z.lor_spec, ?testbit_wrap, ?Z.shiftl_spec, Z.shiftr_spec by lia; [|done].
    rewrite (Z.testbit_neg_r _ (p mod 64 - _)) by lia. by rewrite andb_false_r, orb_false_r.
  - replace (Z.to_nat (p / 64 + s / 64 + 1)) with (src + 1)%nat by lia.
    destruct (src <? 16)%nat eqn:E1; cmp_facts;
      [|rewrite (nth_overflow bm) by lia; by rewrite !Z.bits_0].
    replace (0 <? s mod 64) with true by (symmetry; apply Z.ltb_lt; lia).
    destruct (src + 1 <? 16)%nat eqn:E2; cmp_facts; cbn [andb];
      rewrite ?Z.lor_spec, ?testbit_wrap, ?Z.shiftl_spec, Z.shiftr_spec by lia;
      rewrite (testbit_high 64) by (done || lia).
    + replace (p mod 64 <? 64) with true by (symmetry; apply Z.ltb_lt; lia).
      cbn [andb orb]. f_equal. lia.
    + rewrite (nth_overflow bm) by lia. by rewrite Z.bits_0.
Qed.

Lemma rw_bit_set bm q p :
  length bm = 16%nat -> 0 <= q < 1024 -> 0 <= p < 1024 ->
  rw_bit (rw_set bm q) p = (p =? q) || rw_bit bm p.
Proof.
  intros Hl Hq Hp. unfold rw_bit, rw_set.
  pose proof (Z.mod_pos_bound q 64 ltac:(lia)). pose proof (Z.mod_pos_bound p 64 ltac:(lia)).
  pose proof (Z.div_mod p 64 ltac:(lia)). pose proof (Z.div_mod q 64 ltac:(lia)).
  assert (0 <= q / 64 < 16) by (split; [apply Z.div_pos|apply Z.div_lt_upper_bound]; lia).
  assert (0 <= p / 64 < 16) by (split; [apply Z.div_pos|apply Z.div_lt_upper_bound]; lia).
  rewrite !nth_lookup.
  destruct (decide (p / 64 = q / 64)) as [He|Hne].
  - rewrite He, list_lookup_insert_eq by lia. simpl.
    rewrite Z.lor_spec, testbit_1_shiftl by lia.
    rewrite orb_comm. f_equal.
    destruct (p mod 64 =? q mod 64) eqn:E1, (p =? q) eqn:E2; cmp_facts; try done; lia.
  - rewrite list_lookup_insert_ne by lia.
    destruct (p =? q) eqn:E; cmp_facts; [subst; done|done].
Qed.

(** ** The invariant is established and preserved *)

Lemma rw_new_wf : rw_wf ReplayWindow_new.
Proof.
  unfold rw_wf, U64_MAX. split_and!; simpl; try lia.
  repeat constructor; unfold is_u; lia.
Qed.

Lemma rw_slide_wf w s : rw_wf w -> is_u64 s -> rw_base_seq w <= s -> rw_wf (rw_slide w s).
Proof.
  intros (Hl & Hb & Hbase) [Hs Hs'] Hle. unfold rw_slide.
  destruct (1024 <=? s - rw_base_seq w) eqn:E; cmp_facts; [|done].
  unfold rw_wf. split_and!; simpl.
  - by split_if.
  - split_if; [apply rw_new_wf|]. apply rw_shift_u64; [done|lia].
  - lia.
  - unfold U64_MAX in *. lia.
Qed.

Lemma rw_set_wf bm q :
  Forall is_u64 bm -> 0 <= q -> Forall is_u64 (rw_set bm q).
Proof.
  intros Hb Hq. unfold rw_set. apply Forall_insert; [done|].
  pose proof (Z.mod_pos_bound q 64 ltac:(lia)).
  apply lor_is_u; [lia|by apply rw_nth_u64|]. unfold is_u. rewrite Z.shiftl_1_l.
  split; [lia|]. apply Z.pow_lt_mono_r; lia.
Qed.

Lemma rw_slide_base w s :
  rw_base_seq w <= s ->
  rw_base_seq (rw_slide w s) = Z.max (rw_base_seq w) (s - 1023) /\
  0 <= s - rw_base_seq (rw_slide w s) < 1024.
Proof. intros H. unfold rw_slide. split_if; cmp_facts; simpl; lia. Qed.

Lemma rw_commit_wf w s : rw_wf w -> is_u64 s -> rw_wf (fst (ReplayWindow_commit w s)).
Proof.
  intros Hwf Hs. unfold ReplayWindow_commit.
  destruct (s <? rw_base_seq w) eqn:E; cmp_facts; [done|].
  pose proof (rw_slide_wf w s Hwf Hs E) as (Hl & Hb & Hbase).
  pose proof (rw_slide_base w s E) as [_ Hoff].
  cbv zeta. split_if; [by unfold rw_wf|]. unfold rw_wf.
  split_and!; simpl; [unfold rw_set; by rewrite length_insert| |lia|lia].
  apply rw_set_wf; [done|lia].
Qed.

(** ** Refinement of [check] and [commit] to the abstract set *)

Lemma rw_new_abs : rw_abs ReplayWindow_new AntiReplay_new.
Proof.
  unfold rw_abs. split_and!; [done| |].
  - intros s Hs. by apply not_elem_of_empty in Hs.
  - intros p Hp. simpl. rewrite rw_bit_zero. symmetry. apply bool_decide_eq_false, not_elem_of_empty.
Qed.

Lemma rw_abs_bit w a s :
  rw_wf w -> rw_abs w a -> rw_base_seq w <= s ->
  ((s - rw_base_seq w <? 1024) && rw_test (rw_bitmap w) (s - rw_base_seq w))
    = bool_decide (s ∈ ar_seen a).
Proof.
  intros Hwf (Hb & Hhi & Hbit) Hle.
  destruct (s - rw_base_seq w <? 1024) eqn:E; cmp_facts; simpl.
  - rewrite rw_test_bit, Hbit by lia.
    by replace (rw_base_seq w + (s - rw_base_seq w)) with s by lia.
  - symmetry. apply bool_decide_eq_false. intros Hin. specialize (Hhi _ Hin). lia.
Qed.

Lemma rw_check_refines w a s :
  rw_wf w -> rw_abs w a -> ReplayWindow_check w s = snd (AntiReplay_accept a s).
Proof.
  intros Hwf Habs. unfold ReplayWindow_check, AntiReplay_accept.
  rewrite <- (proj1 Habs). destruct (s <? rw_base_seq w) eqn:E; cmp_facts; [done|].
  cbv zeta. rewrite <- (rw_abs_bit w a) by done. by destruct (_ <? 1024), (rw_test _ _).
Qed.

(** Sliding keeps the abstraction, with the floor moved up. *)
Lemma rw_slide_abs w a s :
  rw_wf w -> rw_abs w a -> rw_base_seq w <= s ->
  rw_abs (rw_slide w s) {| ar_seen := ar_seen a; ar_floor := rw_base_seq (rw_slide w s) |}.
Proof.
  intros (Hl & Hbm & Hbase) (Hf & Hhi & Hbit) Hle.
  unfold rw_slide. destruct (1024 <=? s - rw_base_seq w) eqn:E; cmp_facts.
  - unfold rw_abs. split_and!; [done| |]; simpl.
    + intros x Hx. specialize (Hhi _ Hx). lia.
    + intros p Hp. set (sl := s - rw_base_seq w - 1023) in *.
      assert (1024 <= p + sl -> rw_base_seq w + sl + p ∉ ar_seen a) as Hout.
      { intros Hge Hin. specialize (Hhi _ Hin). lia. }
      destruct (1024 <=? sl) eqn:E2; cmp_facts.
      * rewrite rw_bit_zero. symmetry. apply bool_decide_eq_false, Hout. lia.
      * rewrite rw_bit_shift by (done || lia).
        destruct (Z.lt_ge_cases (p + sl) 1024).
        -- rewrite Hbit by lia.
           by replace (rw_base_seq w + (p + sl)) with (rw_base_seq w + sl + p) by lia.
        -- rewrite rw_bit_out by done. symmetry. by apply bool_decide_eq_false, Hout.
  - unfold rw_abs. split_and!; done.
Qed.

Lemma rw_commit_refines w a s :
  rw_wf w -> is_u64 s -> rw_abs w a ->
  snd (ReplayWindow_commit w s) = snd (AntiReplay_accept a s) /\
  rw_abs (fst (ReplayWindow_commit w s)) (fst (AntiReplay_accept a s)).
Proof.
  intros Hwf Hs Habs. unfold ReplayWindow_commit, AntiReplay_accept.
  pose proof (proj1 Habs) as Hf. rewrite <- Hf.
  destruct (s <? rw_base_seq w) eqn:E; cmp_facts; [done|].
  pose proof (rw_slide_base w s E) as [Hb Hoff].
  pose proof (rw_slide_abs w a s Hwf Habs E) as Habs'.
  pose proof (rw_slide_wf w s Hwf Hs E) as Hwf'.
  pose proof (rw_abs_bit _ _ s Hwf' Habs' ltac:(lia)) as Hbit. simpl in Hbit.
  replace (s - rw_base_seq (rw_slide w s) <? 1024) with true in Hbit
    by (symmetry; apply Z.ltb_lt; lia). simpl in Hbit.
  cbv zeta. rewrite Hbit. destruct Habs' as (_ & Hhi & Hbits). simpl in Hhi, Hbits.
  destruct (bool_decide (s ∈ ar_seen a)) eqn:Es; simpl.
  - split; [done|]. apply bool_decide_eq_true in Es.
    pose proof (proj1 (proj2 Habs) s Es).
    unfold rw_slide. replace (1024 <=? s - rw_base_seq w) with false; [done|].
    symmetry. apply Z.leb_gt. lia.
  - split; [done|]. unfold rw_abs. split_and!; simpl; [lia| |].
    + intros x. rewrite elem_of_union, elem_of_singleton. intros [->|Hx]; [lia|auto].
    + intros p Hp. rewrite rw_bit_set by (try apply Hwf'; lia). rewrite Hbits by done.
      destruct (p =? s - rw_base_seq (rw_slide w s)) eqn:Ep; cmp_facts; simpl.
      * symmetry. apply bool_decide_eq_true, elem_of_union_l, elem_of_singleton. lia.
      * apply bool_decide_ext. rewrite elem_of_union, elem_of_singleton. intuition lia.
Qed.

Lemma rw_insert_refines w a s :
  rw_wf w -> is_u64 s -> rw_abs w a ->
  rw_wf (fst (ReplayWindow_check_and_insert w s)) /\
  snd (ReplayWindow_check_and_insert w s) = snd (AntiReplay_accept a s) /\
  rw_abs (fst (ReplayWindow_check_and_insert w s)) (fst (AntiReplay_accept a s)).
Proof.
  intros Hwf Hs Habs. unfold ReplayWindow_check_and_insert.
  pose proof (rw_check_refines w a s Hwf Habs) as Hc.
  destruct (ReplayWindow_check w s) as [[]|e] eqn:E.
  - pose proof (rw_commit_wf w s Hwf Hs). by pose proof (rw_commit_refines w a s Hwf Hs Habs).
  - split_and!; [done|done|]. simpl. revert Hc. unfold AntiReplay_accept.
    by repeat split_if.
Qed.

(** ** Whole runs *)

(** The packet numbers of [seqs] that were accepted when [seqs] is fed to [w]. *)
Fixpoint rw_accepted (w : ReplayWindow) (seqs : list Z) : list Z :=
  match seqs with
  | [] => []
  | s :: rest =>
      let '(w1, r) := ReplayWindow_check_and_insert w s in
      if is_ok r then s :: rw_accepted w1 rest else rw_accepted w1 rest
  end.

(** After a run the window still abstracts to a set: the accepted numbers, with
    the floor 1023 below the largest one. *)
Lemma rw_run_abs seqs : forall w a,
  rw_wf w -> rw_abs w a -> Forall is_u64 seqs ->
  exists a', rw_wf (fst (rw_run w seqs)) /\ rw_abs (fst (rw_run w seqs)) a' /\
    (forall x, x ∈ ar_seen a' <-> x ∈ rw_accepted w seqs \/ x ∈ ar_seen a) /\
    (forall f, ar_floor a' <= f <->
       ar_floor a <= f /\ forall x, x ∈ rw_accepted w seqs -> x - 1023 <= f).
Proof.
  induction seqs as [|s seqs IH]; intros w a Hwf Habs Hs.
  - exists a. split_and!; simpl; [done|done| |].
    + intros x. split; [by right|]. intros [Hx|Hx]; [by apply not_elem_of_nil in Hx|done].
    + intros f. split; [|by intros []]. intros; split; [done|]. intros x Hx.
      by apply not_elem_of_nil in Hx.
  - apply Forall_cons in Hs as [Hs0 Hs].
    pose proof (rw_insert_refines w a s Hwf Hs0 Habs) as (Hwf1 & Hr & Habs1).
    simpl. destruct (ReplayWindow_check_and_insert w s) as [w1 r]. simpl in *.
    destruct (IH w1 _ Hwf1 Habs1 Hs) as (a' & Hwf2 & Habs2 & Hseen & Hfl).
    destruct (rw_run w1 seqs) as [w2 rs]. simpl in *. exists a'. split_and!; [done|done| |].
    all: subst r; revert Hseen Hfl; unfold AntiReplay_accept; repeat split_if; simpl; try done.
    + intros Hseen _ x. rewrite Hseen, elem_of_cons, elem_of_union, elem_of_singleton. tauto.
    + intros _ Hfl f. rewrite Hfl. setoid_rewrite elem_of_cons.
      split.
      * intros [Hm Hx]. split; [lia|]. intros x [->|Hin]; [lia|auto].
      * intros [Hm Hx]. split; [|auto]. pose proof (Hx s (or_introl eq_refl)). lia.
Qed.

(** [check] decides what [commit] will answer: a packet that passed the
    pre-authentication check cannot fail the post-authentication commit. *)
Lemma rw_check_commit w s :
  rw_wf w -> is_u64 s -> (exists a, rw_abs w a) ->
  ReplayWindow_check w s = snd (ReplayWindow_commit w s).
Proof.
  intros Hwf Hs [a Habs].
  by rewrite (rw_check_refines w a) , (proj1 (rw_commit_refines w a s Hwf Hs Habs)).
Qed.

(** C5: exact acceptance. After any sequence [pre] of packet numbers has been
    fed to a fresh window, packet number [s] is accepted if and only if it was
    not accepted before and it is no more than 1023 below every accepted
    number: the bitmap neither admits a replay nor rejects a fresh packet that
    lies inside the 1024-packet window. *)
Theorem replay_accept_iff (pre : list Z) (s : Z) :
  Forall is_u64 pre -> is_u64 s ->
  snd (ReplayWindow_check_and_insert (fst (rw_run ReplayWindow_new pre)) s) = Ok tt <->
  (s ∉ rw_accepted ReplayWindow_new pre) /\
  (forall x, x ∈ rw_accepted ReplayWindow_new pre -> x - 1023 <= s).
Proof.
  intros Hpre Hs.
  destruct (rw_run_abs pre _ _ rw_new_wf rw_new_abs Hpre) as (a & Hwf & Habs & Hseen & Hfl).
  pose proof (rw_insert_refines _ _ s Hwf Hs Habs) as (_ & Hr & _). rewrite Hr.
  specialize (Hseen s). specialize (Hfl s). simpl in Hseen, Hfl.
  unfold AntiReplay_accept.
  destruct (s <? ar_floor a) eqn:E1; cmp_facts; simpl.
  { split; [done|]. intros [Hn Hx]. destruct Hs. assert (ar_floor a <= s) by (apply Hfl; auto). lia. }
  destruct (bool_decide (s ∈ ar_seen a)) eqn:E2; simpl.
  { apply bool_decide_eq_true, Hseen in E2 as [E2|E2]; [by split; [|intros []]|].
    by apply not_elem_of_empty in E2. }
  apply bool_decide_eq_false in E2. split; [intros _|done].
  split; [intros Hin; apply E2, Hseen; by left|]. apply Hfl. lia.
Qed.

(** Evaluation on a run with a slide of the bitmap and a replayed number. *)
Lemma replay_accept_iff_witness :
  snd (ReplayWindow_check_and_insert (fst (rw_run ReplayWindow_new [5; 2000; 1999])) 1999)
    <> Ok tt /\
  snd (ReplayWindow_check_and_insert (fst (rw_run ReplayWindow_new [5; 2000; 1999])) 977) = Ok tt.
Proof.
  assert (Forall is_u64 [5; 2000; 1999]) as Hpre.
  { repeat constructor; unfold is_u; lia. }
  split.
  - intros H. apply (replay_accept_iff [5; 2000; 1999] 1999 Hpre) in H; [|unfold is_u; lia].
    destruct H as [H _]. apply H. change (rw_accepted ReplayWindow_new [5; 2000; 1999]) with [5; 2000; 1999].
    set_unfold. lia.
  - apply (replay_accept_iff [5; 2000; 1999] 977 Hpre); [unfold is_u; lia|].
    change (rw_accepted ReplayWindow_new [5; 2000; 1999]) with [5; 2000; 1999].
    split; [|intros x Hx; set_unfold in Hx; lia].
    intros Hx. set_unfold in Hx. lia.
Defined.
