(* ===== verification/Crypto.v ===== *)
(** * Cryptographic interface, packet keys and the key schedule

    The primitives of the external crates ([chacha20poly1305], [aes_gcm],
    [chacha20], [blake3]) are the operations of the class [Crypto]; what the
    code relies on is the class [CryptoLaws].  On top of them: [CipherSuite]
    and the [AeadCipher] dispatch of src/src/crypto/mod.rs, header protection
    (src/src/crypto/header.rs), [PacketKeys] (src/src/crypto/keys.rs) and
    [KeySchedule] (src/src/crypto/rekey.rs). *)

From Stdlib Require Import ZArith Lia Bool List String.
From Stdlib Require Import Strings.Byte.
From stdpp Require Import base list numbers option.
From S2P Require Import Prelude Packet.

Open Scope Z_scope.

(** ** External primitives and their documented behaviour *)

Class Crypto : Type := {
  (** [encrypt_in_place(nonce, aad, buffer)] under a key: the buffer with the
      16-byte tag appended, or the crate's error. *)
  chacha_encrypt : list byte -> list byte -> list byte -> list byte -> option (list byte);
  chacha_decrypt : list byte -> list byte -> list byte -> list byte -> option (list byte);
  aes_encrypt : list byte -> list byte -> list byte -> list byte -> option (list byte);
  aes_decrypt : list byte -> list byte -> list byte -> list byte -> option (list byte);
  (** [n] bytes of the ChaCha20 key stream of (key, nonce) from position [pos]. *)
  chacha20_keystream : list byte -> list byte -> Z -> nat -> list byte;
  (** [blake3::derive_key(context, material)]. *)
  blake3_derive_key : string -> list byte -> list byte;
  (** [blake3::keyed_hash(key, input)]. *)
  blake3_keyed_hash : list byte -> list byte -> list byte
}.

(** The largest message both AEADs accept: the bound of AES-GCM, 2^36 - 32
    bytes; ChaCha20-Poly1305 allows more. *)
Definition AEAD_MAX_LEN : nat := Z.to_nat 68719476704.

Class CryptoLaws (C : Crypto) : Prop := {
  chacha_encrypt_total k n a p :
    length k = 32%nat -> length n = 12%nat -> (length p <= AEAD_MAX_LEN)%nat ->
    is_Some (chacha_encrypt k n a p);
  chacha_encrypt_len k n a p c :
    chacha_encrypt k n a p = Some c -> length c = (length p + 16)%nat;
  chacha_decrypt_len k n a c p :
    chacha_decrypt k n a c = Some p -> length c = (length p + 16)%nat;
  chacha_decrypt_encrypt k n a p c :
    chacha_encrypt k n a p = Some c -> chacha_decrypt k n a c = Some p;
  aes_encrypt_total k n a p :
    length k = 32%nat -> length n = 12%nat -> (length p <= AEAD_MAX_LEN)%nat ->
    is_Some (aes_encrypt k n a p);
  aes_encrypt_len k n a p c :
    aes_encrypt k n a p = Some c -> length c = (length p + 16)%nat;
  aes_decrypt_len k n a c p :
    aes_decrypt k n a c = Some p -> length c = (length p + 16)%nat;
  aes_decrypt_encrypt k n a p c :
    aes_encrypt k n a p = Some c -> aes_decrypt k n a c = Some p;
  chacha20_keystream_len k n pos m : length (chacha20_keystream k n pos m) = m;
  blake3_derive_key_len ctx s : length (blake3_derive_key ctx s) = 32%nat;
  blake3_keyed_hash_len k s : length (blake3_keyed_hash k s) = 32%nat
}.

(** ** Cipher suites *)

Inductive CipherSuite : Type := ChaCha20Poly1305 | Aes256Gcm.

#[export] Instance CipherSuite_eq_dec : EqDecision CipherSuite.
Proof. solve_decision. Defined.

Definition CipherSuite_default : CipherSuite := ChaCha20Poly1305.

Definition CipherSuite_parse (s : string) : option CipherSuite :=
  if String.eqb s "chacha20poly1305" || String.eqb s "chacha20-poly1305"
  then Some ChaCha20Poly1305
  else if String.eqb s "aes256gcm" || String.eqb s "aes-256-gcm"
  then Some Aes256Gcm
  else None.

Definition CipherSuite_as_str (c : CipherSuite) : string :=
  match c with
  | ChaCha20Poly1305 => "chacha20poly1305"
  | Aes256Gcm => "aes256gcm"
  end.

Lemma CipherSuite_parse_as_str c : CipherSuite_parse (CipherSuite_as_str c) = Some c.
Proof. by destruct c. Qed.

Section WithCrypto.
Context {C : Crypto}.

(** ** The [AeadCipher] trait and [make_cipher] *)

Record AeadCipher : Type := mkAeadCipher {
  cipher_suite_of : CipherSuite;
  cipher_key : list byte
}.

Definition make_cipher (suite : CipherSuite) (key : list byte) : AeadCipher :=
  match suite with
  | ChaCha20Poly1305 => {| cipher_suite_of := ChaCha20Poly1305; cipher_key := key |}
  | Aes256Gcm => {| cipher_suite_of := Aes256Gcm; cipher_key := key |}
  end.

(** Both implementations first convert the nonce slice to 12 bytes, and map
    that failure and the crate's failure to [AuthFailed]. *)
Definition encrypt_in_place (c : AeadCipher) (nonce aad buffer : list byte)
  : Result (list byte) SeamError :=
  if (length nonce =? 12)%nat then
    match cipher_suite_of c with
    | ChaCha20Poly1305 => ok_or (chacha_encrypt (cipher_key c) nonce aad buffer) AuthFailed
    | Aes256Gcm => ok_or (aes_encrypt (cipher_key c) nonce aad buffer) AuthFailed
    end
  else Err AuthFailed.

Definition decrypt_in_place (c : AeadCipher) (nonce aad buffer : list byte)
  : Result (list byte) SeamError :=
  if (length nonce =? 12)%nat then
    match cipher_suite_of c with
    | ChaCha20Poly1305 => ok_or (chacha_decrypt (cipher_key c) nonce aad buffer) AuthFailed
    | Aes256Gcm => ok_or (aes_decrypt (cipher_key c) nonce aad buffer) AuthFailed
    end
  else Err AuthFailed.

(** ** Header protection *)

(** [apply_header_protection]: nonce = first 12 sample bytes, block counter =
    last 4; the 32-byte header is XORed with the key stream. *)
Definition apply_header_protection (hp_key header sample : list byte) : list byte :=
  let nonce := slice sample 0 12 in
  let counter := from_le (slice sample 12 16) in
  let mask := chacha20_keystream hp_key nonce (counter * 64) 32 in
  xor_zip header mask.

(** ** Packet keys *)

Record PacketKeys : Type := mkPacketKeys {
  enc_key : list byte;      (* [u8; 32] *)
  hp_key : list byte;       (* [u8; 32] *)
  nonce_base : list byte;   (* [u8; 12] *)
  cipher_suite : CipherSuite
}.

Definition PacketKeys_new (ek hk nb : list byte) : PacketKeys :=
  {| enc_key := ek; hp_key := hk; nonce_base := nb; cipher_suite := CipherSuite_default |}.

Definition PacketKeys_new_with_cipher (ek hk nb : list byte) (cs : CipherSuite) : PacketKeys :=
  {| enc_key := ek; hp_key := hk; nonce_base := nb; cipher_suite := cs |}.

Definition derive_from_secret_with_cipher (secret : list byte) (cs : CipherSuite) : PacketKeys :=
  {| enc_key := blake3_derive_key "apex/payload-encryption/v1" secret;
     hp_key := blake3_derive_key "apex/header-protection/v1" secret;
     nonce_base := slice (blake3_derive_key "apex/nonce-base/v1" secret) 0 12;
     cipher_suite := cs |}.

Definition derive_from_secret (secret : list byte) : PacketKeys :=
  derive_from_secret_with_cipher secret CipherSuite_default.

Definition PacketKeys_to_bytes (k : PacketKeys) : list byte :=
  enc_key k ++ hp_key k ++ nonce_base k.

Definition PacketKeys_from_bytes (bytes : list byte) : option PacketKeys :=
  if (length bytes =? 76)%nat then
    Some {| enc_key := slice bytes 0 32; hp_key := slice bytes 32 64;
            nonce_base := slice bytes 64 76; cipher_suite := CipherSuite_default |}
  else None.

(** The array lengths of the Rust type. *)
Definition keys_wf (k : PacketKeys) : Prop :=
  length (enc_key k) = 32%nat /\ length (hp_key k) = 32%nat /\ length (nonce_base k) = 12%nat.

(** ** Key schedule *)

Record KeySchedule : Type := mkKeySchedule {
  current_secret : list byte;
  ks_cipher_suite : CipherSuite;
  ks_current : PacketKeys;
  ks_next : option PacketKeys;
  ks_epoch : Z                 (* u64 *)
}.

Definition KeySchedule_new_with_cipher (initial_secret : list byte) (cs : CipherSuite) : KeySchedule :=
  {| current_secret := initial_secret; ks_cipher_suite := cs;
     ks_current := derive_from_secret_with_cipher initial_secret cs;
     ks_next := None; ks_epoch := 0 |}.

Definition KeySchedule_new (initial_secret : list byte) : KeySchedule :=
  KeySchedule_new_with_cipher initial_secret CipherSuite_default.

Definition key_phase (k : KeySchedule) : bool := Z.land (ks_epoch k) 1 =? 1.

Definition key_update_secret (s : list byte) : list byte :=
  blake3_derive_key "apex/key-update/v1" s.

Definition prepare_next (k : KeySchedule) : KeySchedule :=
  match ks_next k with
  | Some _ => k
  | None =>
      {| current_secret := current_secret k; ks_cipher_suite := ks_cipher_suite k;
         ks_current := ks_current k;
         ks_next := Some (derive_from_secret_with_cipher
                            (key_update_secret (current_secret k)) (ks_cipher_suite k));
         ks_epoch := ks_epoch k |}
  end.

Definition rotate (k0 : KeySchedule) : KeySchedule :=
  let k := prepare_next k0 in
  let next_secret := key_update_secret (current_secret k) in
  {| current_secret := next_secret; ks_cipher_suite := ks_cipher_suite k;
     ks_current := match ks_next k with
                   | Some keys => keys
                   | None => derive_from_secret_with_cipher next_secret (ks_cipher_suite k)
                   end;
     ks_next := None;
     ks_epoch := wrapping_add 64 (ks_epoch k) 1 |}.

(** ** Lemmas *)

Context {L : CryptoLaws C}.

Lemma encrypt_in_place_len c n a p ct :
  encrypt_in_place c n a p = Ok ct -> length ct = (length p + 16)%nat.
Proof.
  unfold encrypt_in_place, ok_or. destruct (length n =? 12)%nat; [|done].
  destruct (cipher_suite_of c).
  - destruct (chacha_encrypt _ _ _ _) eqn:E; [|done]. intros [= <-]. by eapply chacha_encrypt_len.
  - destruct (aes_encrypt _ _ _ _) eqn:E; [|done]. intros [= <-]. by eapply aes_encrypt_len.
Qed.

Lemma decrypt_in_place_len c n a ct p :
  decrypt_in_place c n a ct = Ok p -> length ct = (length p + 16)%nat.
Proof.
  unfold decrypt_in_place, ok_or. destruct (length n =? 12)%nat; [|done].
  destruct (cipher_suite_of c).
  - destruct (chacha_decrypt _ _ _ _) eqn:E; [|done]. intros [= <-]. by eapply chacha_decrypt_len.
  - destruct (aes_decrypt _ _ _ _) eqn:E; [|done]. intros [= <-]. by eapply aes_decrypt_len.
Qed.

Lemma decrypt_encrypt c n a p ct :
  encrypt_in_place c n a p = Ok ct -> decrypt_in_place c n a ct = Ok p.
Proof.
  unfold encrypt_in_place, decrypt_in_place, ok_or. destruct (length n =? 12)%nat; [|done].
  destruct (cipher_suite_of c).
  - destruct (chacha_encrypt _ _ _ _) eqn:E; [|done]. intros [= <-].
    by rewrite (chacha_decrypt_encrypt _ _ _ _ _ E).
  - destruct (aes_encrypt _ _ _ _) eqn:E; [|done]. intros [= <-].
    by rewrite (aes_decrypt_encrypt _ _ _ _ _ E).
Qed.

Lemma encrypt_in_place_total c n a p :
  length (cipher_key c) = 32%nat -> length n = 12%nat -> (length p <= AEAD_MAX_LEN)%nat ->
  exists ct, encrypt_in_place c n a p = Ok ct.
Proof.
  intros Hk Hn Hp. unfold encrypt_in_place. rewrite Hn. simpl.
  destruct (cipher_suite_of c).
  - destruct (chacha_encrypt_total _ n a p Hk Hn Hp) as [ct ->]. by eexists.
  - destruct (aes_encrypt_total _ n a p Hk Hn Hp) as [ct ->]. by eexists.
Qed.

Lemma make_cipher_spec suite key :
  make_cipher suite key = {| cipher_suite_of := suite; cipher_key := key |}.
Proof. by destruct suite. Qed.

Lemma apply_header_protection_involutive hp h s :
  apply_header_protection hp (apply_header_protection hp h s) s = h.
Proof. apply xor_zip_involutive. Qed.

Lemma length_apply_header_protection hp h s :
  length (apply_header_protection hp h s) = length h.
Proof. apply length_xor_zip. Qed.

Lemma derive_keys_wf s cs : keys_wf (derive_from_secret_with_cipher s cs).
Proof.
  unfold keys_wf; simpl. rewrite !blake3_derive_key_len. split_and!; try done.
  rewrite length_slice; rewrite ?blake3_derive_key_len; lia.
Qed.

(** The prepared next keys, when present, are those of the next epoch. *)
Definition ks_wf (k : KeySchedule) : Prop :=
  ks_current k = derive_from_secret_with_cipher (current_secret k) (ks_cipher_suite k) /\
  (forall keys, ks_next k = Some keys ->
     keys = derive_from_secret_with_cipher (key_update_secret (current_secret k)) (ks_cipher_suite k)).

Lemma prepare_next_wf k : ks_wf k -> ks_wf (prepare_next k).
Proof.
  intros [Hc Hn]. unfold prepare_next. destruct (ks_next k) eqn:E; [split; [done|by rewrite E]|].
  split; [done|]. by intros keys [= <-].
Qed.

Lemma rotate_spec k : ks_wf k ->
  rotate k = {| current_secret := key_update_secret (current_secret k);
                ks_cipher_suite := ks_cipher_suite k;
                ks_current := derive_from_secret_with_cipher
                                (key_update_secret (current_secret k)) (ks_cipher_suite k);
                ks_next := None; ks_epoch := wrapping_add 64 (ks_epoch k) 1 |}.
Proof.
  intros [Hc Hn]. unfold rotate, prepare_next.
  destruct (ks_next k) as [keys|] eqn:E; simpl; rewrite ?E; [|done].
  by rewrite (Hn keys) by done.
Qed.

Lemma rotate_wf k : ks_wf k -> ks_wf (rotate k).
Proof. intros H. rewrite rotate_spec by done. by split. Qed.

(** The two operations of the schedule, as steps. *)
Inductive KeyOp : Type := Prepare | Rotate.

Definition key_step (k : KeySchedule) (o : KeyOp) : KeySchedule :=
  match o with Prepare => prepare_next k | Rotate => rotate k end.

Definition count_rotations (ops : list KeyOp) : nat :=
  length (List.filter (fun o => match o with Rotate => true | Prepare => false end) ops).

Lemma prepare_next_fields k :
  current_secret (prepare_next k) = current_secret k /\
  ks_cipher_suite (prepare_next k) = ks_cipher_suite k /\
  ks_epoch (prepare_next k) = ks_epoch k.
Proof. unfold prepare_next. by destruct (ks_next k). Qed.

Lemma key_steps_spec ops : forall k,
  ks_wf k -> is_u64 (ks_epoch k) ->
  let k' := fold_left key_step ops k in
  ks_wf k' /\ is_u64 (ks_epoch k') /\ ks_cipher_suite k' = ks_cipher_suite k /\
  current_secret k' = Nat.iter (count_rotations ops) key_update_secret (current_secret k) /\
  ks_epoch k' = wrap 64 (ks_epoch k + Z.of_nat (count_rotations ops)).
Proof.
  induction ops as [|o ops IH]; intros k Hk He k'; subst k'; simpl.
  - split_and!; try done. by rewrite Z.add_0_r, wrap_small.
  - destruct o; simpl.
    + destruct (prepare_next_fields k) as (Hs & Hcs & Hep).
      destruct (IH (prepare_next k) (prepare_next_wf k Hk)) as (Ha & Hb & Hc & Hd & Hf).
      { by rewrite Hep. }
      split_and!; [done|done|congruence| |].
      * rewrite Hd, Hs. done.
      * rewrite Hf, Hep. done.
    + destruct (IH (rotate k) (rotate_wf k Hk)) as (Ha & Hb & Hc & Hd & Hf).
      { rewrite rotate_spec by done. simpl. unfold wrapping_add. apply wrap_is_u. lia. }
      rewrite rotate_spec in Hc, Hd, Hf by done. simpl in Hc, Hd, Hf.
      split_and!; [by rewrite rotate_spec in * by done|done|by rewrite rotate_spec by done| |].
      * rewrite rotate_spec by done. rewrite Hd. unfold count_rotations. simpl.
        by rewrite <- Nat.iter_succ_r, Nat.iter_succ.
      * rewrite rotate_spec by done. rewrite Hf. unfold count_rotations, wrapping_add, wrap. simpl length.
        rewrite Zplus_mod_idemp_l. f_equal. lia.
Qed.

(** The key schedule is a one-way chain that preparation cannot disturb.
    After any interleaving of [prepare_next] and [rotate] on a fresh schedule,
    the active keys are those derived from the initial secret put through the
    key-update KDF once per rotation, the epoch is the number of rotations as a
    wrapping [u64], and the key phase is the parity of that number. *)
Theorem key_schedule_chain (secret : list byte) (cs : CipherSuite) (ops : list KeyOp) :
  let k := fold_left key_step ops (KeySchedule_new_with_cipher secret cs) in
  let n := count_rotations ops in
  ks_current k = derive_from_secret_with_cipher (Nat.iter n key_update_secret secret) cs /\
  ks_epoch k = wrap 64 (Z.of_nat n) /\
  key_phase k = Z.odd (Z.of_nat n).
Proof.
  intros k n.
  destruct (key_steps_spec ops (KeySchedule_new_with_cipher secret cs)) as (Hwf & _ & Hcs & Hs & He).
  { split; simpl; [done|]. intros keys [=]. }
  { unfold is_u. simpl. lia. }
  fold k in Hwf, Hcs, Hs, He. fold n in Hs, He. simpl in Hcs, Hs, He.
  split_and!; [|done|].
  - rewrite (proj1 Hwf), Hs, Hcs. done.
  - unfold key_phase. rewrite He. change 1 with (Z.ones 1) at 1. rewrite Z.land_ones by lia.
    change (2 ^ 1) with 2. unfold wrap.
    rewrite Z.mod_mod_divide by (exists (2 ^ 63); lia).
    rewrite Zmod_odd. by destruct (Z.odd _).
Qed.

(** Keys survive serialisation up to the documented loss of the suite:
    [from_bytes (to_bytes k)] restores the three key arrays and resets the
    cipher suite to the default. *)
Lemma packet_keys_roundtrip (k : PacketKeys) :
  keys_wf k ->
  PacketKeys_from_bytes (PacketKeys_to_bytes k)
    = Some (PacketKeys_new (enc_key k) (hp_key k) (nonce_base k)).
Proof.
  intros (He & Hh & Hn). unfold PacketKeys_from_bytes, PacketKeys_to_bytes, PacketKeys_new.
  autorewrite with len. rewrite He, Hh, Hn. simpl.
  repeat f_equal.
  - rewrite slice_app_l by lia. by apply slice_all.
  - rewrite slice_app_r, slice_app_l by lia. rewrite He. by apply slice_all.
  - rewrite !slice_app_r by lia. rewrite He, Hh. by apply slice_all.
Qed.

End WithCrypto.
