(* ===== verification/TestCrypto.v ===== *)
(** * A concrete instance of the cryptographic interface

    A small executable stand-in for the external primitives that satisfies
    [CryptoLaws]: it shows that the laws are satisfiable and lets the theorems
    stated against the interface be evaluated on concrete packets.  It makes no
    security claim and models no code of the repository. *)

From Stdlib Require Import ZArith Lia Bool List String.
From Stdlib Require Import Strings.Byte.
From stdpp Require Import base list numbers option.
From S2P Require Import Prelude Packet Crypto.

Open Scope Z_scope.

Definition digest (l : list byte) : byte := fold_right byte_xor x5a l.

Definition test_tag (k n a p : list byte) : list byte :=
  replicate 16 (byte_xor (digest (k ++ n)) (byte_xor (digest a) (digest p))).

Definition test_mask (k : list byte) (l : list byte) : list byte := map (byte_xor (digest k)) l.

Definition test_encrypt (k n a p : list byte) : option (list byte) :=
  Some (test_mask k p ++ test_tag k n a p).

Definition test_decrypt (k n a c : list byte) : option (list byte) :=
  if (length c <? 16)%nat then None
  else
    let p := test_mask k (take (length c - 16) c) in
    if bytes_eqb (drop (length c - 16) c) (test_tag k n a p) then Some p else None.

Definition test_keystream (k n : list byte) (pos : Z) (m : nat) : list byte :=
  replicate m (byte_xor (digest (k ++ n)) (byte_of pos)).

Definition string_bytes (s : string) : list byte := String.list_byte_of_string s.

Definition test_derive (ctx : string) (s : list byte) : list byte :=
  resize_bytes (digest (string_bytes ctx) :: rev s) 32.

#[export] Instance test_crypto : Crypto := {|
  chacha_encrypt := test_encrypt;
  chacha_decrypt := test_decrypt;
  aes_encrypt := test_encrypt;
  aes_decrypt := test_decrypt;
  chacha20_keystream := test_keystream;
  blake3_derive_key := test_derive;
  blake3_keyed_hash := fun k s => resize_bytes (digest s :: k) 32
|}.

Lemma test_mask_involutive k l : test_mask k (test_mask k l) = l.
Proof.
  unfold test_mask. rewrite map_map. rewrite <- (map_id l) at 2. apply map_ext. intros b.
  by rewrite <- byte_xor_assoc, byte_xor_nilpotent, byte_xor_0_l.
Qed.

Lemma length_test_mask k l : length (test_mask k l) = length l.
Proof. apply length_map. Qed.

Lemma test_encrypt_len k n a p c :
  test_encrypt k n a p = Some c -> length c = (length p + 16)%nat.
Proof.
  intros [= <-]. rewrite length_app, length_test_mask. unfold test_tag.
  by rewrite length_replicate.
Qed.

Lemma test_decrypt_len k n a c p :
  test_decrypt k n a c = Some p -> length c = (length p + 16)%nat.
Proof.
  unfold test_decrypt. destruct (length c <? 16)%nat eqn:E; cmp_facts; [done|].
  destruct (bytes_eqb _ _); [|done]. intros [= <-]. rewrite length_test_mask, length_take. lia.
Qed.

Lemma test_decrypt_encrypt k n a p c :
  test_encrypt k n a p = Some c -> test_decrypt k n a c = Some p.
Proof.
  intros H. pose proof (test_encrypt_len _ _ _ _ _ H) as Hl. revert H. intros [= <-].
  unfold test_decrypt. rewrite Hl.
  replace (length p + 16 <? 16)%nat with false by (symmetry; apply Nat.ltb_ge; lia).
  replace (length p + 16 - 16)%nat with (length (test_mask k p)) by (rewrite length_test_mask; lia).
  rewrite take_app_length, drop_app_length, test_mask_involutive.
  by rewrite bytes_eqb_refl.
Qed.

#[export] Instance test_crypto_laws : CryptoLaws test_crypto.
Proof.
  constructor; intros.
  - by eexists.
  - by eapply test_encrypt_len.
  - by eapply test_decrypt_len.
  - by eapply test_decrypt_encrypt.
  - by eexists.
  - by eapply test_encrypt_len.
  - by eapply test_decrypt_len.
  - by eapply test_decrypt_encrypt.
  - apply length_replicate.
  - apply length_resize_bytes.
  - apply length_resize_bytes.
Qed.

(** Keys used by the evaluations. *)
Definition test_keys : PacketKeys := derive_from_secret_with_cipher (replicate 32 x42) Aes256Gcm.

Lemma test_keys_wf : keys_wf test_keys.
Proof. apply derive_keys_wf. Qed.
