(* ===== verification/PacketCodec.v ===== *)
(** * Packet encoder and decoder

    [PacketEncoder] (src/src/crypto/encoder.rs) and [PacketDecoder]
    (src/src/crypto/decoder.rs): header layout, nonce construction, AEAD,
    header protection, and the check-authenticate-commit order of the replay
    window. *)

From Stdlib Require Import ZArith Lia Bool List.
From Stdlib Require Import Strings.Byte.
From stdpp Require Import base list numbers option gmap.
From S2P Require Import Prelude Packet Replay Crypto TestCrypto.

Open Scope Z_scope.

Section Codec.
Context {C : Crypto}.

(** ** Data *)

Record PacketEncoder : Type := mkPacketEncoder {
  pe_keys : PacketKeys;
  pe_session_id : Z;       (* u64 *)
  pe_next_pkt_num : Z      (* AtomicU64 *)
}.

Record PacketDecoder : Type := mkPacketDecoder {
  pd_keys : PacketKeys;
  pd_replay : ReplayWindow
}.

Definition PacketEncoder_new (keys : PacketKeys) (session_id : Z) : PacketEncoder :=
  {| pe_keys := keys; pe_session_id := session_id; pe_next_pkt_num := 0 |}.

Definition PacketDecoder_new (keys : PacketKeys) : PacketDecoder :=
  {| pd_keys := keys; pd_replay := ReplayWindow_new |}.

Definition peek_next_pkt_num (e : PacketEncoder) : Z := pe_next_pkt_num e.

(** [out[at..at + src.len()].copy_from_slice(src)]. *)
Definition copy_into (out : list byte) (pos : nat) (src : list byte) : list byte :=
  take pos out ++ src ++ drop (pos + length src) out.

(** The 32-byte plaintext header: version, type, flags and reserved bytes
    zero, session id and packet number little-endian. *)
Definition build_header (pkt_type : PktType) (session_id pkt_num : Z) : list byte :=
  [x01; PktType_as_u8 pkt_type] ++ replicate 6 x00 ++
  to_le 8 session_id ++ to_le 8 pkt_num ++ replicate 8 x00.

(** nonce = nonce_base XOR packet number, little-endian. *)
Definition build_nonce (base : list byte) (pkt_num : Z) : list byte :=
  xor_zip base (to_le 8 pkt_num).

(** [PacketEncoder::encode]: the encoder, the output buffer and the result.
    The packet number is consumed before the AEAD call, whose failure is
    propagated; the copies are in range because the AEAD appends 16 bytes. *)
Definition PacketEncoder_encode (e : PacketEncoder) (pkt_type : PktType)
    (plaintext out : list byte) : PacketEncoder * list byte * Result nat SeamError :=
  let needed := encode_buf_len (length plaintext) in
  if (length out <? needed)%nat then
    (e, out, Err (BufferTooSmall (Z.of_nat needed) (Z.of_nat (length out))))
  else
    let pkt_num := pe_next_pkt_num e in
    let e' := {| pe_keys := pe_keys e; pe_session_id := pe_session_id e;
                 pe_next_pkt_num := wrapping_add 64 pkt_num 1 |} in
    let header := build_header pkt_type (pe_session_id e) pkt_num in
    let out1 := copy_into (copy_into out 0 header) HEADER_LEN plaintext in
    let nonce := build_nonce (nonce_base (pe_keys e)) pkt_num in
    let cipher := make_cipher (cipher_suite (pe_keys e)) (enc_key (pe_keys e)) in
    let header_bytes := slice out1 0 HEADER_LEN in
    let payload_buf := slice out1 HEADER_LEN (HEADER_LEN + length plaintext) in
    match encrypt_in_place cipher nonce header_bytes payload_buf with
    | Err err => (e', out1, Err err)
    | Ok sealed =>
        let cipher_len := length plaintext in
        let out2 := copy_into out1 HEADER_LEN (take cipher_len sealed) in
        let out3 := copy_into out2 (HEADER_LEN + cipher_len) (drop cipher_len sealed) in
        let sample := slice out3 HEADER_LEN (HEADER_LEN + 16) in
        let hdr := apply_header_protection (hp_key (pe_keys e)) (slice out3 0 HEADER_LEN) sample in
        (e', copy_into out3 0 hdr, Ok needed)
    end.

(** [PacketDecoder::decode]: the decoder, the (unprotected, decrypted) buffer
    and the result [(pkt_type, pkt_num, plaintext)]. *)
Definition PacketDecoder_decode (d : PacketDecoder) (buf : list byte)
  : PacketDecoder * list byte * Result (PktType * Z * list byte) SeamError :=
  if MAX_PACKET_LEN <? Z.of_nat (length buf) then
    (d, buf, Err (PacketTooLarge (Z.of_nat (length buf)) MAX_PACKET_LEN))
  else if (length buf <? MIN_PACKET_LEN)%nat then
    (d, buf, Err (BufferTooSmall (Z.of_nat MIN_PACKET_LEN) (Z.of_nat (length buf))))
  else
    let sample := slice buf HEADER_LEN (HEADER_LEN + 16) in
    let header_arr :=
      apply_header_protection (hp_key (pd_keys d)) (slice buf 0 HEADER_LEN) sample in
    let buf1 := copy_into buf 0 header_arr in
    match PktType_try_from (at_ buf1 1) with
    | Err e => (d, buf1, Err e)
    | Ok pkt_type =>
        let pkt_num := from_le (slice buf1 16 24) in
        match ReplayWindow_check (pd_replay d) pkt_num with
        | Err e => (d, buf1, Err e)
        | Ok _ =>
            let nonce := build_nonce (nonce_base (pd_keys d)) pkt_num in
            let payload_end := (length buf1 - TAG_LEN)%nat in
            let header_bytes := slice buf1 0 HEADER_LEN in
            let ct_buf := drop HEADER_LEN buf1 in
            let cipher := make_cipher (cipher_suite (pd_keys d)) (enc_key (pd_keys d)) in
            match decrypt_in_place cipher nonce header_bytes ct_buf with
            | Err e => (d, buf1, Err e)
            | Ok plain =>
                let '(replay', committed) := ReplayWindow_commit (pd_replay d) pkt_num in
                let d' := {| pd_keys := pd_keys d; pd_replay := replay' |} in
                match committed with
                | Err e => (d', buf1, Err e)
                | Ok _ =>
                    let plaintext_len := (payload_end - HEADER_LEN)%nat in
                    let buf2 := copy_into buf1 HEADER_LEN (take plaintext_len plain) in
                    (d', buf2, Ok (pkt_type, pkt_num, slice buf2 HEADER_LEN payload_end))
                end
            end
        end
    end.

(** ** Lemmas on the buffer operations and the header *)

Lemma length_copy_into out pos src :
  (pos + length src <= length out)%nat -> length (copy_into out pos src) = length out.
Proof. intros. unfold copy_into. autorewrite with len. lia. Qed.

Lemma copy_into_app a b c src :
  length src = length b -> copy_into (a ++ b ++ c) (length a) src = a ++ src ++ c.
Proof.
  intros Hl. unfold copy_into. rewrite take_app_length. f_equal. f_equal.
  rewrite Hl, app_assoc, drop_app_length'; [done|]. by autorewrite with len.
Qed.

Lemma copy_into_head b c src : length src = length b -> copy_into (b ++ c) 0 src = src ++ c.
Proof. exact (copy_into_app [] b c src). Qed.

Lemma length_build_header t s p : length (build_header t s p) = 32%nat.
Proof. unfold build_header. autorewrite with len. simpl. done. Qed.

Lemma build_header_type t s p : at_ (build_header t s p) 1 = PktType_as_u8 t.
Proof. done. Qed.

Lemma build_header_num t s p :
  is_u64 p -> from_le (slice (build_header t s p) 16 24) = p.
Proof.
  intros Hp. unfold build_header.
  do 3 (rewrite slice_app_r by (autorewrite with len; simpl; lia)).
  rewrite slice_app_l by (autorewrite with len; simpl; lia).
  rewrite !length_replicate, !length_to_le.
  change (from_le (slice (to_le 8 p) 0 8) = p).
  rewrite slice_all by apply length_to_le. by apply (from_le_to_le_small 8).
Qed.

Lemma length_build_nonce b p : length (build_nonce b p) = length b.
Proof. apply length_xor_zip. Qed.

Lemma xor_zip_inj_r base a b :
  length a = length b -> (length a <= length base)%nat ->
  xor_zip base a = xor_zip base b -> a = b.
Proof.
  revert a b. induction base as [|x base IH]; intros [|y a] [|z b]; simpl; intros Hl Hle H;
    try done; try lia.
  injection H as Hh Ht. f_equal.
  - rewrite byte_xor_comm, (byte_xor_comm x z) in Hh.
    by rewrite <- (byte_xor_cancel y x), <- (byte_xor_cancel z x), Hh.
  - apply IH; [lia|lia|done].
Qed.

Lemma build_nonce_inj base a b :
  length base = 12%nat -> is_u64 a -> is_u64 b ->
  build_nonce base a = build_nonce base b -> a = b.
Proof.
  intros Hb Ha Hb' H. apply (to_le_inj 8); try done.
  apply (xor_zip_inj_r base); rewrite ?length_to_le; try done. lia.
Qed.

(** ** What a successful [encode] puts on the wire *)

Context {L : CryptoLaws C}.

Lemma encode_sealed e t p out e' out' r :
  (encode_buf_len (length p) <= length out)%nat ->
  PacketEncoder_encode e t p out = (e', out', r) ->
  let num := pe_next_pkt_num e in
  let hdr := build_header t (pe_session_id e) num in
  e' = {| pe_keys := pe_keys e; pe_session_id := pe_session_id e;
          pe_next_pkt_num := wrapping_add 64 num 1 |} /\
  match encrypt_in_place (make_cipher (cipher_suite (pe_keys e)) (enc_key (pe_keys e)))
          (build_nonce (nonce_base (pe_keys e)) num) hdr p with
  | Err err => r = Err err
  | Ok ct =>
      r = Ok (encode_buf_len (length p)) /\ length ct = (length p + 16)%nat /\
      out' = apply_header_protection (hp_key (pe_keys e)) hdr (slice ct 0 16) ++ ct ++
             drop (encode_buf_len (length p)) out
  end.
Proof.
  intros El. unfold PacketEncoder_encode. cbv zeta.
  set (num := pe_next_pkt_num e). set (hdr := build_header t (pe_session_id e) num).
  replace (length out <? encode_buf_len (length p))%nat with false by (symmetry; apply Nat.ltb_ge; lia).
  unfold encode_buf_len, HEADER_LEN, TAG_LEN in *.
  pose proof (length_build_header t (pe_session_id e) num) as Hh. fold hdr in Hh.
  clearbody hdr. set (rest := drop (32 + length p + 16) out).
  assert (exists o1 o2 o3, out = o1 ++ o2 ++ o3 ++ rest /\ length o1 = 32%nat /\
    length o2 = length p /\ length o3 = 16%nat) as (o1 & o2 & o3 & Ho & H1 & H2 & H3).
  { exists (take 32 out), (take (length p) (drop 32 out)), (take 16 (drop (32 + length p) out)).
    split_and!; autorewrite with len; try lia. unfold rest.
    rewrite <- (take_drop 32 out) at 1. f_equal.
    rewrite <- (take_drop (length p) (drop 32 out)) at 1. f_equal.
    rewrite drop_drop. rewrite <- (take_drop 16 (drop (32 + length p) out)) at 1.
    by rewrite drop_drop. }
  assert (copy_into (copy_into out 0 hdr) 32 p = hdr ++ p ++ o3 ++ rest) as ->.
  { rewrite Ho, copy_into_head by lia. rewrite <- Hh at 1. by apply copy_into_app. }
  assert (slice (hdr ++ p ++ o3 ++ rest) 0 32 = hdr) as ->.
  { rewrite slice_app_l by lia. by apply slice_all. }
  assert (slice (hdr ++ p ++ o3 ++ rest) 32 (32 + length p) = p) as ->.
  { rewrite slice_app_r by lia. rewrite Hh, slice_app_l by lia. apply slice_all. lia. }
  destruct (encrypt_in_place _ _ _ _) as [ct|err] eqn:Ee; [|by intros [= <- _ <-]].
  pose proof (encrypt_in_place_len _ _ _ _ _ Ee) as Hct.
  assert (copy_into (copy_into (hdr ++ p ++ o3 ++ rest) 32 (take (length p) ct)) (32 + length p)
            (drop (length p) ct) = hdr ++ ct ++ rest) as ->.
  { rewrite <- Hh at 1. rewrite copy_into_app by (rewrite length_take; lia).
    rewrite (app_assoc hdr).
    replace (32 + length p)%nat with (length (hdr ++ take (length p) ct))
      by (autorewrite with len; lia).
    rewrite copy_into_app by (rewrite length_drop; lia).
    by rewrite <- app_assoc, (app_assoc (take _ _)), take_drop. }
  assert (slice (hdr ++ ct ++ rest) 32 (32 + 16) = slice ct 0 16) as ->.
  { rewrite slice_app_r by lia. rewrite Hh, slice_app_l by lia. done. }
  assert (slice (hdr ++ ct ++ rest) 0 32 = hdr) as ->.
  { rewrite slice_app_l by lia. by apply slice_all. }
  intros [= <- <- <-]. split_and!; try done.
  apply copy_into_head, length_apply_header_protection.
Qed.

Lemma encode_Ok e t p out e' out' n :
  keys_wf (pe_keys e) ->
  PacketEncoder_encode e t p out = (e', out', Ok n) ->
  let num := pe_next_pkt_num e in
  let hdr := build_header t (pe_session_id e) num in
  exists ct,
    n = encode_buf_len (length p) /\ (n <= length out)%nat /\
    encrypt_in_place (make_cipher (cipher_suite (pe_keys e)) (enc_key (pe_keys e)))
      (build_nonce (nonce_base (pe_keys e)) num) hdr p = Ok ct /\
    length ct = (length p + 16)%nat /\
    out' = apply_header_protection (hp_key (pe_keys e)) hdr (slice ct 0 16) ++ ct ++ drop n out /\
    e' = {| pe_keys := pe_keys e; pe_session_id := pe_session_id e;
            pe_next_pkt_num := wrapping_add 64 num 1 |}.
Proof.
  intros _ H. destruct (length out <? encode_buf_len (length p))%nat eqn:El.
  { unfold PacketEncoder_encode in H. by rewrite El in H. }
  cmp_facts. destruct (encode_sealed _ _ _ _ _ _ _ El H) as [-> Hs].
  destruct (encrypt_in_place _ _ _ _) as [ct|err] eqn:Ee; [|done].
  destruct Hs as (Hn & Hct & ->). injection Hn as ->. by exists ct.
Qed.


(** [decode] of a well-formed packet [hp(hdr) ++ ct]. *)
Lemma decode_packet d t s num p ct :
  is_u64 num ->
  let hdr := build_header t s num in
  let cipher := make_cipher (cipher_suite (pd_keys d)) (enc_key (pd_keys d)) in
  let wire := apply_header_protection (hp_key (pd_keys d)) hdr (slice ct 0 16) ++ ct in
  (16 <= length ct)%nat -> Z.of_nat (length wire) <= MAX_PACKET_LEN ->
  ReplayWindow_check (pd_replay d) num = Ok tt ->
  snd (ReplayWindow_commit (pd_replay d) num) = Ok tt ->
  decrypt_in_place cipher (build_nonce (nonce_base (pd_keys d)) num) hdr ct = Ok p ->
  exists buf', PacketDecoder_decode d wire =
    ({| pd_keys := pd_keys d; pd_replay := fst (ReplayWindow_commit (pd_replay d) num) |},
     buf', Ok (t, num, p)).
Proof.
  intros Hn hdr cipher wire Hct Hw Hchk Hcom Hdec.
  pose proof (length_build_header t s num) as Hh. fold hdr in Hh.
  set (ph := apply_header_protection (hp_key (pd_keys d)) hdr (slice ct 0 16)) in wire.
  assert (length ph = 32%nat) as Hph.
  { unfold ph. rewrite length_apply_header_protection. done. }
  unfold PacketDecoder_decode, HEADER_LEN, TAG_LEN, MIN_PACKET_LEN in *. cbv zeta.
  assert (length wire = 32 + length ct)%nat as Hl by (unfold wire; autorewrite with len; lia).
  replace (MAX_PACKET_LEN <? _) with false by (symmetry; apply Z.ltb_ge; lia).
  replace (length wire <? _)%nat with false
    by (symmetry; apply Nat.ltb_ge; unfold HEADER_LEN, TAG_LEN; lia).
  assert (slice wire 32 (32 + 16) = slice ct 0 16) as ->.
  { unfold wire. rewrite slice_app_r by lia. by rewrite Hph. }
  assert (slice wire 0 32 = ph) as ->.
  { unfold wire. rewrite slice_app_l by lia. by apply slice_all. }
  assert (apply_header_protection (hp_key (pd_keys d)) ph (slice ct 0 16) = hdr) as ->.
  { apply apply_header_protection_involutive. }
  assert (copy_into wire 0 hdr = hdr ++ ct) as ->.
  { apply copy_into_head. lia. }
  assert (at_ (hdr ++ ct) 1 = PktType_as_u8 t) as -> by done.
  rewrite PktType_try_from_as_u8.
  assert (from_le (slice (hdr ++ ct) 16 24) = num) as ->.
  { rewrite slice_app_l by lia. by apply build_header_num. }
  rewrite Hchk.
  assert (slice (hdr ++ ct) 0 32 = hdr) as ->.
  { rewrite slice_app_l by lia. by apply slice_all. }
  assert (drop 32 (hdr ++ ct) = ct) as -> by (rewrite <- Hh; apply drop_app_length).
  fold cipher. rewrite Hdec. pose proof (decrypt_in_place_len _ _ _ _ _ Hdec) as Hp.
  destruct (ReplayWindow_commit (pd_replay d) num) as [w' r]. simpl in Hcom. subst r.
  eexists. f_equal. f_equal. f_equal.
  rewrite length_app, Hh. replace (32 + length ct - 16 - 32)%nat with (length p) by lia.
  rewrite (take_ge p) by lia. unfold copy_into. rewrite <- Hh at 1. rewrite take_app_length.
  rewrite slice_app_r by lia. rewrite Hh, slice_app_l by lia. apply slice_all. lia.
Qed.

Lemma encode_total e t p out :
  keys_wf (pe_keys e) -> (length p <= AEAD_MAX_LEN)%nat ->
  (encode_buf_len (length p) <= length out)%nat ->
  exists e' out', PacketEncoder_encode e t p out = (e', out', Ok (encode_buf_len (length p))).
Proof.
  intros (Hek & _ & Hnb) Hp Hout. unfold PacketEncoder_encode. cbv zeta.
  replace (length out <? _)%nat with false by (symmetry; apply Nat.ltb_ge; lia).
  set (out1 := copy_into (copy_into out 0 _) HEADER_LEN p).
  edestruct (encrypt_in_place_total
    (make_cipher (cipher_suite (pe_keys e)) (enc_key (pe_keys e)))
    (build_nonce (nonce_base (pe_keys e)) (pe_next_pkt_num e))
    (slice out1 0 HEADER_LEN) (slice out1 HEADER_LEN (HEADER_LEN + length p))) as [ct ->].
  - by rewrite make_cipher_spec.
  - by rewrite length_build_nonce.
  - unfold slice. rewrite length_take. lia.
  - by eexists _, _.
Qed.

(** ** Decoder invariant *)

Definition pd_wf (d : PacketDecoder) : Prop :=
  rw_wf (pd_replay d) /\ exists a, rw_abs (pd_replay d) a.

Lemma pd_new_wf keys : pd_wf (PacketDecoder_new keys).
Proof. split; [apply rw_new_wf|]. exists AntiReplay_new. apply rw_new_abs. Qed.

(** The packet number [decode] reads from a buffer, and the header it
    authenticates, before any authentication. *)
Definition wire_header (d : PacketDecoder) (buf : list byte) : list byte :=
  apply_header_protection (hp_key (pd_keys d)) (slice buf 0 HEADER_LEN)
    (slice buf HEADER_LEN (HEADER_LEN + 16)).
Definition wire_num (d : PacketDecoder) (buf : list byte) : Z :=
  from_le (slice (wire_header d buf) 16 24).

(** Case analysis of [decode]: either the decoder is unchanged and the result
    an error, or the AEAD accepted the packet and the result is that of the
    commit. *)
Lemma decode_cases d buf d' buf' r :
  PacketDecoder_decode d buf = (d', buf', r) ->
  (d' = d /\ exists e, r = Err e) \/
  exists t plain,
    (48 <= length buf)%nat /\
    PktType_try_from (at_ (wire_header d buf) 1) = Ok t /\
    is_u64 (wire_num d buf) /\
    ReplayWindow_check (pd_replay d) (wire_num d buf) = Ok tt /\
    decrypt_in_place (make_cipher (cipher_suite (pd_keys d)) (enc_key (pd_keys d)))
      (build_nonce (nonce_base (pd_keys d)) (wire_num d buf))
      (wire_header d buf) (drop HEADER_LEN buf) = Ok plain /\
    d' = {| pd_keys := pd_keys d;
            pd_replay := fst (ReplayWindow_commit (pd_replay d) (wire_num d buf)) |} /\
    match snd (ReplayWindow_commit (pd_replay d) (wire_num d buf)) with
    | Ok _ => r = Ok (t, wire_num d buf, plain)
    | Err e => r = Err e
    end.
Proof.
  unfold PacketDecoder_decode, MIN_PACKET_LEN, HEADER_LEN, TAG_LEN. cbv zeta.
  destruct (MAX_PACKET_LEN <? _); [intros [= <- _ <-]; eauto|].
  destruct (length buf <? _)%nat eqn:El; cmp_facts; [intros [= <- _ <-]; eauto|].
  change (apply_header_protection (hp_key (pd_keys d)) (slice buf 0 32) (slice buf 32 (32 + 16)))
    with (wire_header d buf). set (h := wire_header d buf).
  assert (length h = 32%nat) as Hh.
  { unfold h, wire_header, HEADER_LEN. rewrite length_apply_header_protection, length_slice; lia. }
  assert (copy_into buf 0 h = h ++ drop 32 buf) as Hc.
  { rewrite <- (take_drop 32 buf) at 1. apply copy_into_head. rewrite length_take. lia. }
  rewrite Hc.
  assert (at_ (h ++ drop 32 buf) 1 = at_ h 1) as -> by (apply app_nth1; lia).
  assert (from_le (slice (h ++ drop 32 buf) 16 24) = wire_num d buf) as ->.
  { rewrite slice_app_l by lia. done. }
  assert (is_u64 (wire_num d buf)) as Hu.
  { apply (from_le_is_u _ 8). rewrite length_slice; [done|lia|]. fold h. lia. }
  assert (slice (h ++ drop 32 buf) 0 32 = h) as ->.
  { rewrite slice_app_l by lia. by apply slice_all. }
  assert (drop 32 (h ++ drop 32 buf) = drop 32 buf) as -> by (rewrite <- Hh at 1; apply drop_app_length).
  destruct (PktType_try_from (at_ h 1)) as [t|e]; [|intros [= <- _ <-]; eauto].
  destruct (ReplayWindow_check _ _) as [[]|e] eqn:Ec; [|intros [= <- _ <-]; eauto].
  destruct (decrypt_in_place _ _ _ _) as [plain|e] eqn:Ed; [|intros [= <- _ <-]; eauto].
  pose proof (decrypt_in_place_len _ _ _ _ _ Ed) as Hl. rewrite length_drop in Hl.
  intros H. right. exists t, plain.
  destruct (ReplayWindow_commit _ _) as [w [[]|e]] eqn:Ew; injection H as <- _ <-;
    split_and!; try done; try lia.
  assert (length (h ++ drop 32 buf) - 16 - 32 = length plain)%nat as -> by (autorewrite with len; lia).
  rewrite (take_ge plain) by lia. unfold copy_into. rewrite take_app_length' by done.
  simpl. do 2 f_equal. rewrite slice_app_r by lia. rewrite slice_app_l by (autorewrite with len; lia).
  rewrite Hh. apply slice_all. autorewrite with len. lia.
Qed.

Lemma decode_spec d buf d' buf' r a :
  rw_wf (pd_replay d) -> rw_abs (pd_replay d) a ->
  PacketDecoder_decode d buf = (d', buf', r) ->
  match r with
  | Err _ => d' = d
  | Ok (_, num, _) =>
      num = wire_num d buf /\ (num ∉ ar_seen a) /\ pd_keys d' = pd_keys d /\
      rw_wf (pd_replay d') /\
      exists a', rw_abs (pd_replay d') a' /\ ar_seen a' = {[num]} ∪ ar_seen a
  end.
Proof.
  intros Hwf Habs H. destruct (decode_cases _ _ _ _ _ H) as [(-> & e & ->)|Hc]; [done|].
  destruct Hc as (t & plain & _ & _ & Hu & Hchk & _ & -> & Hr).
  pose proof (rw_commit_wf _ _ Hwf Hu) as Hwf'.
  pose proof (rw_commit_refines _ _ _ Hwf Hu Habs) as [Hcs Habs'].
  rewrite (rw_check_refines _ a) in Hchk by done.
  rewrite Hcs, Hchk in Hr. subst r. simpl.
  revert Hchk Habs'. unfold AntiReplay_accept. repeat split_if; simpl; try done.
  intros _ Habs'. apply bool_decide_eq_false in Eif0. split_and!; try done. by eexists.
Qed.

Lemma decode_wf d buf d' buf' r :
  pd_wf d -> PacketDecoder_decode d buf = (d', buf', r) -> pd_wf d'.
Proof.
  intros [Hwf [a Habs]] H. pose proof (decode_spec _ _ _ _ _ a Hwf Habs H) as Hs.
  destruct r as [[[t num] p]|e]; [|subst; split; eauto].
  destruct Hs as (_ & _ & _ & Hwf' & a' & Ha' & _). split; eauto.
Qed.

(** ** Runs of the decoder and of the encoder *)

Fixpoint pd_run (d : PacketDecoder) (bufs : list (list byte))
  : PacketDecoder * list (Result (PktType * Z * list byte) SeamError) :=
  match bufs with
  | [] => (d, [])
  | b :: rest =>
      let '(d1, _, r) := PacketDecoder_decode d b in
      let '(d2, rs) := pd_run d1 rest in (d2, r :: rs)
  end.

(** The packet numbers of the accepted packets. *)
Definition delivered (rs : list (Result (PktType * Z * list byte) SeamError)) : list Z :=
  omap (fun r => match r with Ok (_, num, _) => Some num | Err _ => None end) rs.

Lemma pd_run_delivered bufs : forall d a,
  rw_wf (pd_replay d) -> rw_abs (pd_replay d) a ->
  NoDup (delivered (snd (pd_run d bufs))) /\
  (forall x, x ∈ delivered (snd (pd_run d bufs)) -> x ∉ ar_seen a).
Proof.
  induction bufs as [|b bufs IH]; intros d a Hwf Habs; simpl.
  { split; [constructor|]. intros x Hx. by apply not_elem_of_nil in Hx. }
  destruct (PacketDecoder_decode d b) as [[d1 b1] r] eqn:E.
  pose proof (decode_spec _ _ _ _ _ a Hwf Habs E) as Hs.
  destruct r as [[[t num] p]|e].
  - destruct Hs as (_ & Hnew & _ & Hwf1 & a1 & Habs1 & Hseen).
    destruct (IH d1 a1 Hwf1 Habs1) as [Hnd Hfresh].
    destruct (pd_run d1 bufs) as [d2 rs]. simpl in *. split.
    + constructor; [|done]. intros Hin. apply (Hfresh _ Hin). rewrite Hseen.
      by apply elem_of_union_l, elem_of_singleton.
    + intros x [->|Hx]%elem_of_cons; [done|]. intros Hin. apply (Hfresh _ Hx).
      rewrite Hseen. by apply elem_of_union_r.
  - subst d1. destruct (IH d a Hwf Habs) as [Hnd Hfresh].
    destruct (pd_run d bufs) as [d2 rs]. simpl in *. by split.
Qed.

(** The AEAD primitive of a suite, before the dispatch of the code. *)
Definition raw_seal (keys : PacketKeys) (nonce aad p : list byte) : option (list byte) :=
  match cipher_suite keys with
  | ChaCha20Poly1305 => chacha_encrypt (enc_key keys) nonce aad p
  | Aes256Gcm => aes_encrypt (enc_key keys) nonce aad p
  end.

(** A call that wrote [out'] and returned [r] sealed [p] under the nonce [n]:
    what it put behind the header is what the primitive gives for the payload
    under [n], with the plain header of the type, the session and a packet
    number as associated data; when the primitive refuses, so does the call. *)
Definition sealed_by (keys : PacketKeys) (sid : Z) (t : PktType) (p n out' : list byte)
    (r : Result nat SeamError) : Prop :=
  exists pn, is_u64 pn /\
    match raw_seal keys n (build_header t sid pn) p with
    | Some ct => r = Ok (encode_buf_len (length p)) /\
                 slice out' HEADER_LEN (encode_buf_len (length p)) = ct
    | None => r = Err AuthFailed
    end.

(** A sequence of [encode] calls sealed its packets, in order, under the
    nonces [ns]; a call whose buffer is too small seals nothing. *)
Fixpoint seals_with (keys : PacketKeys) (sid : Z) (e : PacketEncoder)
    (calls : list (PktType * list byte * list byte)) (ns : list (list byte)) : Prop :=
  match calls with
  | [] => ns = []
  | (t, p, out) :: rest =>
      let '(e', out', r) := PacketEncoder_encode e t p out in
      if (length out <? encode_buf_len (length p))%nat then
        (exists a b, r = Err (BufferTooSmall a b)) /\ out' = out /\ seals_with keys sid e' rest ns
      else
        exists n ns', ns = n :: ns' /\ sealed_by keys sid t p n out' r /\
                      seals_with keys sid e' rest ns'
  end.

Lemma encode_sealed_by e t p out e' out' r :
  length (nonce_base (pe_keys e)) = 12%nat -> is_u64 (pe_next_pkt_num e) ->
  (encode_buf_len (length p) <= length out)%nat ->
  PacketEncoder_encode e t p out = (e', out', r) ->
  sealed_by (pe_keys e) (pe_session_id e) t p
    (build_nonce (nonce_base (pe_keys e)) (pe_next_pkt_num e)) out' r.
Proof.
  intros Hb Hu El H. exists (pe_next_pkt_num e). split; [done|].
  destruct (encode_sealed _ _ _ _ _ _ _ El H) as [_ Hs]. revert Hs.
  unfold encrypt_in_place, raw_seal. rewrite length_build_nonce, Hb, make_cipher_spec. cbn [Nat.eqb cipher_suite_of cipher_key].
  assert (forall o : option (list byte),
    match ok_or o AuthFailed with
    | Err err => r = Err err
    | Ok ct => r = Ok (encode_buf_len (length p)) /\ length ct = (length p + 16)%nat /\
        out' = apply_header_protection (hp_key (pe_keys e))
                 (build_header t (pe_session_id e) (pe_next_pkt_num e)) (slice ct 0 16) ++ ct ++
               drop (encode_buf_len (length p)) out
    end ->
    match o with
    | Some ct => r = Ok (encode_buf_len (length p)) /\
                 slice out' HEADER_LEN (encode_buf_len (length p)) = ct
    | None => r = Err AuthFailed
    end) as Ho.
  { intros [ct|]; [|done]. unfold ok_or. intros (-> & Hl & ->). split; [done|].
    unfold encode_buf_len, HEADER_LEN, TAG_LEN.
    rewrite slice_app_r by (rewrite length_apply_header_protection, length_build_header; lia).
    rewrite length_apply_header_protection, length_build_header, slice_app_l by lia.
    apply slice_all. lia. }
  destruct (cipher_suite (pe_keys e)); apply Ho.
Qed.

Lemma seals_fresh keys sid calls : forall e,
  length (nonce_base keys) = 12%nat -> pe_keys e = keys -> pe_session_id e = sid ->
  is_u64 (pe_next_pkt_num e) -> pe_next_pkt_num e + Z.of_nat (length calls) <= 2 ^ 64 ->
  exists ns, seals_with keys sid e calls ns /\ NoDup ns /\
  (forall n, n ∈ ns ->
     exists k, n = build_nonce (nonce_base keys) k /\ pe_next_pkt_num e <= k < 2 ^ 64).
Proof.
  induction calls as [|[[t p] out] calls IH]; intros e Hb Hk Hsid H0 Hlt; simpl length in Hlt.
  { exists []. split_and!; [done|constructor|]. intros n Hn. by apply not_elem_of_nil in Hn. }
  cbn [seals_with]. destruct (PacketEncoder_encode e t p out) as [[e' out'] r] eqn:He.
  destruct (length out <? encode_buf_len (length p))%nat eqn:El.
  { unfold PacketEncoder_encode in He. rewrite El in He. injection He as <- <- <-.
    destruct (IH e) as (ns & Hs & Hnd & Hfr); [done..|lia|]. exists ns. split_and!; eauto. }
  cmp_facts. destruct (encode_sealed _ _ _ _ _ _ _ El He) as [-> _].
  pose proof (encode_sealed_by _ _ _ _ _ _ _ ltac:(by rewrite Hk) H0 El He) as Hseal.
  rewrite Hk, Hsid in Hseal. unfold is_u in H0.
  set (n0 := build_nonce _ _) in Hseal.
  destruct (decide (pe_next_pkt_num e + 1 < 2 ^ 64)) as [Hs|Hs].
  - edestruct (IH {| pe_keys := pe_keys e; pe_session_id := pe_session_id e;
      pe_next_pkt_num := wrapping_add 64 (pe_next_pkt_num e) 1 |}) as (ns & Hrest & Hnd & Hfr);
      unfold wrapping_add in *; cbn [pe_keys pe_session_id pe_next_pkt_num] in *;
      rewrite ?wrap_small in * by (unfold is_u; lia); [done..|unfold is_u; lia|lia|].
    exists (n0 :: ns). split_and!; [by exists n0, ns| |].
    + constructor; [|done]. intros Hin. destruct (Hfr _ Hin) as (k & He' & Hge).
      apply build_nonce_inj in He'; unfold is_u; lia || done.
    + intros n [->|Hin]%elem_of_cons; [exists (pe_next_pkt_num e); split; [done|lia]|].
      destruct (Hfr _ Hin) as (k & -> & Hge). exists k. split; [done|lia].
  - destruct calls; [|simpl in Hlt; lia]. exists [n0]. split_and!; [by exists n0, []|apply NoDup_singleton|].
    intros n [->|Hin]%elem_of_cons; [exists (pe_next_pkt_num e); split; [done|lia]|].
    by apply not_elem_of_nil in Hin.
Qed.

(** ** Properties *)

(** C2: round trip. Encoding any payload that fits a datagram into a large
    enough buffer succeeds, and the peer's decoder, holding the same keys and
    a replay window that has not seen the packet number, returns exactly the
    packet type, number and payload, and records the number. *)
Theorem packet_roundtrip (e : PacketEncoder) (d : PacketDecoder) (t : PktType) (p out : list byte) :
  keys_wf (pe_keys e) -> pd_keys d = pe_keys e -> pd_wf d ->
  is_u64 (pe_next_pkt_num e) ->
  ReplayWindow_check (pd_replay d) (pe_next_pkt_num e) = Ok tt ->
  Z.of_nat (encode_buf_len (length p)) <= MAX_PACKET_LEN ->
  (encode_buf_len (length p) <= length out)%nat ->
  exists e' out' buf',
    PacketEncoder_encode e t p out = (e', out', Ok (encode_buf_len (length p))) /\
    PacketDecoder_decode d (take (encode_buf_len (length p)) out') =
      ({| pd_keys := pd_keys d;
          pd_replay := fst (ReplayWindow_commit (pd_replay d) (pe_next_pkt_num e)) |},
       buf', Ok (t, pe_next_pkt_num e, p)).
Proof.
  intros Hk Hkd [Hwf Habs] Hu Hchk Hmax Hout.
  unfold encode_buf_len, HEADER_LEN, TAG_LEN, MAX_PACKET_LEN in Hmax.
  destruct (encode_total e t p out Hk) as (e' & out' & He); [unfold AEAD_MAX_LEN; lia|done|].
  exists e', out'.
  destruct (encode_Ok _ _ _ _ _ _ _ Hk He) as (ct & _ & _ & Hc & Hlc & -> & ->).
  assert (take (encode_buf_len (length p))
    (apply_header_protection (hp_key (pe_keys e)) (build_header t (pe_session_id e) (pe_next_pkt_num e))
       (slice ct 0 16) ++ ct ++ drop (encode_buf_len (length p)) out)
    = apply_header_protection (hp_key (pd_keys d))
        (build_header t (pe_session_id e) (pe_next_pkt_num e)) (slice ct 0 16) ++ ct) as ->.
  { rewrite app_assoc, take_app_length', Hkd; [done|].
    autorewrite with len. rewrite length_apply_header_protection, length_build_header.
    unfold encode_buf_len, HEADER_LEN, TAG_LEN. lia. }
  edestruct (decode_packet d t (pe_session_id e) (pe_next_pkt_num e) p ct) as [buf' Hd];
    try done; try lia.
  - rewrite length_app, length_apply_header_protection, length_build_header.
    unfold MAX_PACKET_LEN. lia.
  - by rewrite <- (rw_check_commit (pd_replay d)).
  - rewrite Hkd. by apply decrypt_encrypt.
  - by exists buf'.
Qed.

(** C3: only authenticated packets move the decoder. Whatever bytes arrive, an
    error leaves the decoder (and so the replay window) exactly as it was, and
    a success means that the AEAD accepted the payload under the unprotected
    header as associated data, with the nonce of the packet number in that
    header, and that the reported type and number are the header's. *)
Theorem decode_authenticated (d : PacketDecoder) (buf : list byte) d' buf' r :
  pd_wf d -> PacketDecoder_decode d buf = (d', buf', r) ->
  match r with
  | Err _ => d' = d
  | Ok (t, num, plain) =>
      num = from_le (slice (wire_header d buf) 16 24) /\
      PktType_try_from (at_ (wire_header d buf) 1) = Ok t /\
      decrypt_in_place (make_cipher (cipher_suite (pd_keys d)) (enc_key (pd_keys d)))
        (build_nonce (nonce_base (pd_keys d)) num) (wire_header d buf) (drop HEADER_LEN buf) = Ok plain
  end.
Proof.
  intros [Hwf [a Habs]] H. pose proof (decode_spec _ _ _ _ _ a Hwf Habs H) as Hs.
  destruct (decode_cases _ _ _ _ _ H) as [(-> & e & ->)|Hc]; [done|].
  destruct Hc as (t & plain & _ & Ht & _ & _ & Hd & _ & Hr).
  destruct (snd (ReplayWindow_commit _ _)) as [[]|e]; subst r; [|done]. done.
Qed.

(** C4: at-most-once delivery. Over any sequence of datagrams, replayed,
    reordered or forged, a decoder never delivers two packets with the same
    packet number. *)
Theorem decode_at_most_once (keys : PacketKeys) (bufs : list (list byte)) :
  NoDup (delivered (snd (pd_run (PacketDecoder_new keys) bufs))).
Proof.
  apply (pd_run_delivered bufs _ AntiReplay_new); [apply rw_new_wf|apply rw_new_abs].
Qed.

(** C8: nonce uniqueness. Whatever packets a fresh encoder is asked to encode,
    and whichever of the calls fail, there are nonces, one for each call that
    reaches the AEAD and no two of them equal, such that the bytes each of
    those calls put behind the header are exactly what the AEAD primitive
    gives for the payload under that nonce (and the call fails where the
    primitive does), for up to 2^64 calls and a 12-byte nonce base. *)
Theorem encode_nonces_unique (keys : PacketKeys) (sid : Z)
    (calls : list (PktType * list byte * list byte)) :
  length (nonce_base keys) = 12%nat -> Z.of_nat (length calls) <= 2 ^ 64 ->
  exists ns, seals_with keys sid (PacketEncoder_new keys sid) calls ns /\ NoDup ns.
Proof.
  intros Hb Hl. destruct (seals_fresh keys sid calls (PacketEncoder_new keys sid)) as (ns & Hs & Hnd & _);
    [done..|]. by exists ns.
Qed.

End Codec.

(** ** Evaluations with the concrete cryptographic instance *)

Definition test_encoder : PacketEncoder := PacketEncoder_new test_keys 7.
Definition test_decoder : PacketDecoder := PacketDecoder_new test_keys.
Definition test_packet : list byte :=
  snd (fst (PacketEncoder_encode test_encoder Data [x68; x69] (replicate 50 x00))).

Lemma packet_roundtrip_witness :
  exists e' out' buf' d',
    PacketEncoder_encode test_encoder Data [x68; x69] (replicate 50 x00) = (e', out', Ok 50%nat) /\
    PacketDecoder_decode test_decoder (take 50 out') = (d', buf', Ok (Data, 0, [x68; x69])).
Proof.
  destruct (packet_roundtrip test_encoder test_decoder Data [x68; x69] (replicate 50 x00))
    as (e' & out' & buf' & He & Hd).
  - apply test_keys_wf.
  - reflexivity.
  - apply pd_new_wf.
  - simpl. unfold is_u. lia.
  - reflexivity.
  - vm_compute. discriminate.
  - vm_compute. lia.
  - eexists e', out', buf', _. split; [exact He | exact Hd].
Defined.

(** A forged packet (one flipped ciphertext bit) is rejected without effect. *)
Definition forged_packet : list byte :=
  <[33%nat := byte_xor (at_ test_packet 33) x01]> test_packet.

Lemma decode_authenticated_witness :
  snd (PacketDecoder_decode test_decoder forged_packet) = Err AuthFailed /\
  fst (fst (PacketDecoder_decode test_decoder forged_packet)) = test_decoder.
Proof.
  assert (snd (PacketDecoder_decode test_decoder forged_packet) = Err AuthFailed) as Hr
    by (vm_compute; reflexivity).
  destruct (PacketDecoder_decode test_decoder forged_packet) as [[d' buf'] r] eqn:E.
  simpl in Hr. subst r. split; [reflexivity|].
  exact (decode_authenticated test_decoder forged_packet d' buf' _ (pd_new_wf test_keys) E).
Defined.

(** A replayed packet is delivered once. *)
Lemma decode_at_most_once_witness :
  delivered (snd (pd_run test_decoder [test_packet; test_packet])) = [0] /\
  NoDup (delivered (snd (pd_run test_decoder [test_packet; test_packet]))).
Proof.
  split; [vm_compute; reflexivity|].
  apply (decode_at_most_once test_keys [test_packet; test_packet]).
Defined.

Lemma encode_nonces_unique_witness :
  length (nonce_base test_keys) = 12%nat /\
  exists n1 n2,
    seals_with test_keys 7 test_encoder
      [(Data, [], replicate 48 x00); (Ping, [], []); (Ack, [], replicate 48 x00)] [n1; n2] /\ n1 <> n2.
Proof.
  split; [vm_compute; reflexivity|].
  destruct (encode_nonces_unique test_keys 7
    [(Data, [], replicate 48 x00); (Ping, [], []); (Ack, [], replicate 48 x00)])
    as (ns & Hs & Hnd); [vm_compute; reflexivity | simpl; lia |].
  pose proof Hs as (n1 & ns1 & -> & _ & _ & _ & (n2 & ns2 & -> & _ & ->)).
  exists n1, n2. split; [exact Hs|]. intros ->. inversion Hnd as [|? ? Hin _]. apply Hin. left.
Defined.
