(* ===== verification/GF256.v ===== *)
(** * GF(2^8) arithmetic

    src/src/fec/gf.rs: the EXP/LOG tables built by [build_tables], table-driven
    multiplication, division and inverse, and the unrolled [mul_add_slice].
    The table-driven product is proved equal to polynomial multiplication
    modulo x^8 + x^4 + x^3 + x^2 + 1, and the operations to form a field. *)

From Stdlib Require Import ZArith Lia Bool List.
From Stdlib Require Import Strings.Byte.
From Stdlib Require Import Field_theory Ring_theory.
From stdpp Require Import base list numbers option.
From S2P Require Import Prelude.

Open Scope Z_scope.

(** ** Tables *)

Definition POLY : Z := 285. (* 0x11d *)

(** One round of the [while i < 255] loop. [x : u16] stays below 256 on entry. *)
Definition table_step (i : nat) (st : Z * list byte * list byte) : Z * list byte * list byte :=
  let '(x, exp, log) := st in
  let exp1 := <[i := byte_of x]> exp in
  let exp2 := <[(i + 255)%nat := byte_of x]> exp1 in
  let log1 := <[Z.to_nat x := byte_of (Z.of_nat i)]> log in
  let x1 := wrap 16 (Z.shiftl x 1) in
  let x2 := if Z.land x1 256 =? 0 then x1 else Z.lxor x1 POLY in
  (x2, exp2, log1).

Definition build_tables : list byte * list byte :=
  let '(_, exp, log) :=
    fold_left (fun st i => table_step i st) (seq 0 255)
      (1, replicate 512 x00, replicate 256 x00) in
  (<[510%nat := x01]> (<[255%nat := x01]> exp), log).

Definition EXP : list byte := Eval vm_compute in fst build_tables.
Definition LOG : list byte := Eval vm_compute in snd build_tables.

Definition idx (b : byte) : nat := Z.to_nat (byte_val b).

(** ** Field operations *)

Definition gf_add (a b : byte) : byte := byte_xor a b.

Definition gf_mul (a b : byte) : byte :=
  if (byte_val a =? 0) || (byte_val b =? 0) then x00
  else at_ EXP (idx (at_ LOG (idx a)) + idx (at_ LOG (idx b))).

(** [div] in a release build (the zero-divisor assertion is debug-only). *)
Definition gf_div (a b : byte) : byte :=
  if byte_val a =? 0 then x00
  else at_ EXP (idx (at_ LOG (idx a)) + 255 - idx (at_ LOG (idx b))).

Definition gf_inv (a : byte) : option byte :=
  if byte_val a =? 0 then None
  else Some (at_ EXP (255 - idx (at_ LOG (idx a)))).

(** ** Reference product: carry-less multiplication modulo [POLY] *)

(** Multiplication by x. *)
Definition xtime (a : Z) : Z :=
  let d := Z.shiftl a 1 in if Z.testbit d 8 then Z.lxor d POLY else d.

Fixpoint ref_mul_aux (n : nat) (a b : Z) : Z :=
  match n with
  | O => 0
  | S n' => Z.lxor (if Z.odd b then a else 0) (ref_mul_aux n' (xtime a) (Z.div2 b))
  end.

Definition ref_mul (a b : byte) : byte := byte_of (ref_mul_aux 8 (byte_val a) (byte_val b)).

(** ** Exhaustive checks over the 256 bytes *)

Definition all_bytes : list byte := Eval vm_compute in map (fun n => byte_of (Z.of_nat n)) (seq 0 256).

Lemma all_bytes_complete b : In b all_bytes.
Proof.
  assert (all_bytes = map (fun n => byte_of (Z.of_nat n)) (seq 0 256)) as -> by reflexivity.
  apply in_map_iff. exists (Z.to_nat (byte_val b)). pose proof (byte_val_bound b).
  split; [rewrite Z2Nat.id by lia; apply byte_of_val|]. apply in_seq. lia.
Qed.

Lemma forall_byte (f : byte -> bool) : forallb f all_bytes = true -> forall a, f a = true.
Proof. intros H a. rewrite forallb_forall in H. apply H, all_bytes_complete. Qed.

Lemma byte_eq_of_val a b : (byte_val a =? byte_val b) = true -> a = b.
Proof. intros H. by apply byte_val_inj, Z.eqb_eq. Qed.

Lemma byte_val_0 a : (byte_val a =? 0) = true <-> a = x00.
Proof.
  split; [|by intros ->]. intros H. apply byte_val_inj. by apply Z.eqb_eq in H.
Qed.

Lemma byte_val_n0 a : (byte_val a =? 0) = false <-> a <> x00.
Proof.
  rewrite <- not_true_iff_false, byte_val_0. done.
Qed.

Lemma gf_mul_comm a b : gf_mul a b = gf_mul b a.
Proof.
  unfold gf_mul. rewrite orb_comm. destruct (_ || _); [done|]. f_equal. lia.
Qed.

Lemma gf_mul_1_l a : gf_mul x01 a = a.
Proof.
  apply byte_eq_of_val. revert a.
  apply (forall_byte (fun a => byte_val (gf_mul x01 a) =? byte_val a)). vm_compute. reflexivity.
Qed.

Lemma gf_mul_0_l a : gf_mul x00 a = x00.
Proof. reflexivity. Qed.

Lemma gf_mul_0_r a : gf_mul a x00 = x00.
Proof. by rewrite gf_mul_comm. Qed.

Lemma gf_mul_1_r a : gf_mul a x01 = a.
Proof. rewrite gf_mul_comm. apply gf_mul_1_l. Qed.

(** *** The reference product is bilinear over XOR *)

Lemma lxor_4 a b c d : Z.lxor (Z.lxor a b) (Z.lxor c d) = Z.lxor (Z.lxor a c) (Z.lxor b d).
Proof.
  rewrite !Z.lxor_assoc. f_equal. rewrite <- !Z.lxor_assoc. f_equal. apply Z.lxor_comm.
Qed.

Lemma odd_lxor a b : Z.odd (Z.lxor a b) = xorb (Z.odd a) (Z.odd b).
Proof. rewrite <- !Z.bit0_odd. apply Z.lxor_spec. Qed.

Lemma div2_lxor a b : Z.div2 (Z.lxor a b) = Z.lxor (Z.div2 a) (Z.div2 b).
Proof. rewrite !Z.div2_spec. apply Z.shiftr_lxor. Qed.

Lemma if_lxor (p q : bool) a :
  (if xorb p q then a else 0) = Z.lxor (if p then a else 0) (if q then a else 0).
Proof. destruct p, q; simpl; by rewrite ?Z.lxor_nilpotent, ?Z.lxor_0_l, ?Z.lxor_0_r. Qed.

Lemma xtime_alt a : xtime a = Z.lxor (Z.shiftl a 1) (if Z.testbit (Z.shiftl a 1) 8 then POLY else 0).
Proof. unfold xtime. destruct (Z.testbit _ 8); [done|]. by rewrite Z.lxor_0_r. Qed.

Lemma xtime_lxor a b : xtime (Z.lxor a b) = Z.lxor (xtime a) (xtime b).
Proof. by rewrite !xtime_alt, Z.shiftl_lxor, Z.lxor_spec, if_lxor, lxor_4. Qed.

Lemma ref_mul_aux_lxor_r n : forall a b c,
  ref_mul_aux n a (Z.lxor b c) = Z.lxor (ref_mul_aux n a b) (ref_mul_aux n a c).
Proof.
  induction n as [|n IH]; intros a b c; [done|]. simpl.
  by rewrite odd_lxor, div2_lxor, IH, if_lxor, lxor_4.
Qed.

Lemma xtime_u8 a : is_u8 a -> is_u8 (xtime a).
Proof.
  intros Ha. rewrite xtime_alt.
  set (s := Z.shiftl a 1). assert (is_u 9 s) as Hs.
  { unfold s, is_u in *. rewrite Z.shiftl_mul_pow2 by lia. lia. }
  assert (is_u 9 (if Z.testbit s 8 then POLY else 0)) as Hp.
  { unfold is_u, POLY. destruct (Z.testbit s 8); lia. }
  pose proof (lxor_bound 9 _ _ ltac:(lia) Hs Hp) as Hl.
  rewrite <- (wrap_small 9 _ Hl).
  replace (wrap 9 (Z.lxor s (if Z.testbit s 8 then POLY else 0)))
    with (wrap 8 (Z.lxor s (if Z.testbit s 8 then POLY else 0))); [apply wrap_is_u; lia|].
  apply Z.bits_inj'. intros n Hn. rewrite !testbit_wrap by lia.
  destruct (n <? 8) eqn:E8, (n <? 9) eqn:E9; cmp_facts; try lia; try done. cbn [andb].
  assert (n = 8) as -> by lia. rewrite Z.lxor_spec. by destruct (Z.testbit s 8).
Qed.

Lemma ref_mul_aux_u8 n : forall a b, is_u8 a -> is_u8 (ref_mul_aux n a b).
Proof.
  induction n as [|n IH]; intros a b Ha; simpl; [unfold is_u; lia|].
  apply lxor_bound; [lia| |apply IH, xtime_u8, Ha]. destruct (Z.odd b); [done|unfold is_u; lia].
Qed.

(** A byte is the XOR of its bits, so an XOR-linear equation holds for all
    bytes once it holds for the eight powers of two. *)
Definition bit_part (b : Z) (i : nat) : Z := if Z.testbit b (Z.of_nat i) then 2 ^ Z.of_nat i else 0.

Lemma bits_of_byte b :
  fold_right Z.lxor 0 (map (bit_part (byte_val b)) (seq 0 8)) = byte_val b.
Proof.
  apply Z.eqb_eq. revert b.
  apply (forall_byte (fun b => fold_right Z.lxor 0 (map (bit_part (byte_val b)) (seq 0 8)) =? byte_val b)).
  vm_compute. reflexivity.
Qed.

Lemma linear_ext (f g : Z -> Z) :
  (forall a b, f (Z.lxor a b) = Z.lxor (f a) (f b)) ->
  (forall a b, g (Z.lxor a b) = Z.lxor (g a) (g b)) ->
  (forall i, (i < 8)%nat -> f (2 ^ Z.of_nat i) = g (2 ^ Z.of_nat i)) ->
  forall b : byte, f (byte_val b) = g (byte_val b).
Proof.
  intros Hf Hg Hi b. rewrite <- (bits_of_byte b).
  assert (f 0 = 0) as Hf0 by (pose proof (Hf 0 0) as H; by rewrite !Z.lxor_nilpotent in H).
  assert (g 0 = 0) as Hg0 by (pose proof (Hg 0 0) as H; by rewrite !Z.lxor_nilpotent in H).
  assert (forall l, (forall i, In i l -> (i < 8)%nat) ->
    f (fold_right Z.lxor 0 (map (bit_part (byte_val b)) l)) =
    g (fold_right Z.lxor 0 (map (bit_part (byte_val b)) l))) as H.
  { induction l as [|i l IH]; intros Hl; simpl; [congruence|].
    rewrite Hf, Hg, IH by (intros; apply Hl; by right). f_equal.
    unfold bit_part. destruct (Z.testbit _ _); [apply Hi, Hl; by left|congruence]. }
  apply H. intros i Hin. apply in_seq in Hin. lia.
Qed.

Lemma ref_mul_xtime (a b : byte) :
  ref_mul_aux 8 (byte_val a) (xtime (byte_val b)) = xtime (ref_mul_aux 8 (byte_val a) (byte_val b)).
Proof.
  apply (linear_ext (fun b => ref_mul_aux 8 (byte_val a) (xtime b))
                    (fun b => xtime (ref_mul_aux 8 (byte_val a) b))).
  - intros. by rewrite xtime_lxor, ref_mul_aux_lxor_r.
  - intros. by rewrite ref_mul_aux_lxor_r, xtime_lxor.
  - intros i Hi.
    assert (forallb (fun i => ref_mul_aux 8 (byte_val a) (xtime (2 ^ Z.of_nat i)) =?
                              xtime (ref_mul_aux 8 (byte_val a) (2 ^ Z.of_nat i))) (seq 0 8) = true) as H.
    { revert a. apply forall_byte. vm_compute. reflexivity. }
    rewrite forallb_forall in H. apply Z.eqb_eq, H, in_seq. lia.
Qed.

(** *** The tables hold the powers of x and their logarithms *)

Definition ilog (a : byte) : nat := idx (at_ LOG (idx a)).

Lemma ilog_bound a : (ilog a <= 254)%nat.
Proof.
  apply Nat.leb_le. revert a. apply (forall_byte (fun a => (ilog a <=? 254)%nat)).
  vm_compute. reflexivity.
Qed.

Lemma exp_ilog a : a <> x00 -> at_ EXP (ilog a) = a.
Proof.
  intros Ha. assert ((byte_val a =? 0) || (byte_val (at_ EXP (ilog a)) =? byte_val a) = true) as H.
  { clear Ha. revert a.
    apply (forall_byte (fun a => (byte_val a =? 0) || (byte_val (at_ EXP (ilog a)) =? byte_val a))).
    vm_compute. reflexivity. }
  apply byte_val_n0 in Ha. rewrite Ha in H. by apply byte_eq_of_val.
Qed.

(** One evaluation for the three facts about the EXP table. *)
Lemma exp_table i : (i <= 509)%nat ->
  byte_val (at_ EXP (S i)) = xtime (byte_val (at_ EXP i)) /\
  at_ EXP i <> x00 /\ ilog (at_ EXP i) = (i mod 255)%nat.
Proof.
  intros Hi.
  assert (forallb (fun i => (byte_val (at_ EXP (S i)) =? xtime (byte_val (at_ EXP i))) &&
     (negb (byte_val (at_ EXP i) =? 0) && (ilog (at_ EXP i) =? i mod 255)%nat)) (seq 0 510) = true) as H
    by (vm_compute; reflexivity).
  rewrite forallb_forall in H. specialize (H i ltac:(apply in_seq; lia)). cmp_facts.
  split_and!; [done| |done]. by apply byte_val_n0, Z.eqb_neq.
Qed.

Lemma exp_add i j : (i + j <= 509)%nat ->
  ref_mul_aux 8 (byte_val (at_ EXP i)) (byte_val (at_ EXP j)) = byte_val (at_ EXP (i + j)).
Proof.
  revert i. induction j as [|j IH]; intros i Hij.
  - rewrite Nat.add_0_r. change (byte_val (at_ EXP 0)) with 1.
    cbn -[Z.lxor xtime]. by rewrite !Z.lxor_0_r.
  - rewrite (proj1 (exp_table j ltac:(lia))), ref_mul_xtime, IH by lia.
    rewrite Nat.add_succ_r. symmetry. apply exp_table. lia.
Qed.

Lemma ref_mul_aux_0_r n a : ref_mul_aux n a 0 = 0.
Proof. revert a. induction n as [|n IH]; intros a; simpl; [done|]. by rewrite IH. Qed.

Lemma ref_mul_aux_0_l n b : ref_mul_aux n 0 b = 0.
Proof.
  revert b. induction n as [|n IH]; intros b; [done|]. simpl.
  change (xtime 0) with 0. rewrite IH. by destruct (Z.odd b).
Qed.

Lemma gf_mul_ref a b : gf_mul a b = ref_mul a b.
Proof.
  unfold gf_mul, ref_mul.
  destruct (byte_val a =? 0) eqn:Ea; simpl orb.
  { apply Z.eqb_eq in Ea. rewrite Ea, ref_mul_aux_0_l. done. }
  destruct (byte_val b =? 0) eqn:Eb.
  { apply Z.eqb_eq in Eb. rewrite Eb, ref_mul_aux_0_r. done. }
  apply byte_val_n0 in Ea, Eb.
  rewrite <- (exp_ilog a Ea) at 2. rewrite <- (exp_ilog b Eb) at 2.
  pose proof (ilog_bound a). pose proof (ilog_bound b).
  rewrite exp_add, byte_of_val by lia. done.
Qed.

Lemma gf_mul_add_r a b c : gf_mul a (gf_add b c) = gf_add (gf_mul a b) (gf_mul a c).
Proof.
  pose proof (ref_mul_aux_u8 8 (byte_val a) (byte_val b) (byte_val_bound a)) as Hb.
  pose proof (ref_mul_aux_u8 8 (byte_val a) (byte_val c) (byte_val_bound a)) as Hc.
  pose proof (lxor_bound 8 _ _ ltac:(lia) Hb Hc) as Hbc.
  rewrite !gf_mul_ref. unfold gf_add. apply byte_val_inj.
  rewrite byte_val_xor. unfold ref_mul. rewrite byte_val_xor, ref_mul_aux_lxor_r.
  by rewrite !byte_of_small.
Qed.

(** *** Associativity, through the logarithms *)

Lemma gf_mul_exp a b : a <> x00 -> b <> x00 -> gf_mul a b = at_ EXP (ilog a + ilog b).
Proof.
  intros Ha Hb. apply byte_val_n0 in Ha, Hb. unfold gf_mul. by rewrite Ha, Hb.
Qed.

Lemma ilog_mul a b : a <> x00 -> b <> x00 ->
  gf_mul a b <> x00 /\ ilog (gf_mul a b) = ((ilog a + ilog b) mod 255)%nat.
Proof.
  intros Ha Hb. rewrite gf_mul_exp by done.
  pose proof (ilog_bound a). pose proof (ilog_bound b). apply exp_table. lia.
Qed.

Lemma ilog_inj a b : a <> x00 -> b <> x00 -> ilog a = ilog b -> a = b.
Proof. intros Ha Hb H. rewrite <- (exp_ilog a Ha), <- (exp_ilog b Hb). by rewrite H. Qed.

Lemma gf_mul_assoc a b c : gf_mul (gf_mul a b) c = gf_mul a (gf_mul b c).
Proof.
  destruct (decide (a = x00)) as [->|Ha]; [done|].
  destruct (decide (b = x00)) as [->|Hb]; [by rewrite !gf_mul_0_r|].
  destruct (decide (c = x00)) as [->|Hc]; [by rewrite !gf_mul_0_r|].
  destruct (ilog_mul a b Ha Hb) as [Hab Lab]. destruct (ilog_mul b c Hb Hc) as [Hbc Lbc].
  destruct (ilog_mul (gf_mul a b) c Hab Hc) as [H1 L1].
  destruct (ilog_mul a (gf_mul b c) Ha Hbc) as [H2 L2].
  apply ilog_inj; [done|done|].
  rewrite L1, L2, Lab, Lbc, Nat.Div0.add_mod_idemp_l, Nat.Div0.add_mod_idemp_r. f_equal. lia.
Qed.

(** *** Inverse and division *)

(** The inverse as a total function, for the field structure. *)
Definition finv (a : byte) : byte := default x00 (gf_inv a).
Definition fdiv (a b : byte) : byte := gf_mul a (finv b).

Lemma gf_inv_Some a : a <> x00 -> gf_inv a = Some (finv a) /\ gf_mul (finv a) a = x01.
Proof.
  intros Ha. split.
  - unfold finv, gf_inv. apply byte_val_n0 in Ha. by rewrite Ha.
  - assert ((byte_val a =? 0) || (byte_val (gf_mul (finv a) a) =? 1) = true) as H.
    { clear Ha. revert a. apply forall_byte. vm_compute. reflexivity. }
    apply byte_val_n0 in Ha. rewrite Ha in H. simpl in H. by apply (byte_eq_of_val _ x01).
Qed.

Lemma gf_inv_None a : gf_inv a = None <-> a = x00.
Proof. unfold gf_inv. rewrite <- byte_val_0. by destruct (byte_val a =? 0). Qed.

Lemma gf_field : field_theory x00 x01 gf_add gf_mul gf_add (fun x => x) fdiv finv (@eq byte).
Proof.
  constructor; [constructor| | |].
  - apply byte_xor_0_l.
  - apply byte_xor_comm.
  - intros. symmetry. apply byte_xor_assoc.
  - apply gf_mul_1_l.
  - apply gf_mul_comm.
  - intros. symmetry. apply gf_mul_assoc.
  - intros x y z. rewrite !(gf_mul_comm _ z). apply gf_mul_add_r.
  - done.
  - intros. apply byte_xor_nilpotent.
  - done.
  - done.
  - intros p Hp. by apply gf_inv_Some.
Qed.

Add Field gf256 : gf_field.

Lemma gf_mul_nonzero a b : a <> x00 -> b <> x00 -> gf_mul a b <> x00.
Proof. intros Ha Hb. by apply ilog_mul. Qed.

Lemma gf_mul_eq_0 a b : gf_mul a b = x00 -> a = x00 \/ b = x00.
Proof.
  intros H. destruct (decide (a = x00)); [by left|]. destruct (decide (b = x00)); [by right|].
  by destruct (gf_mul_nonzero a b).
Qed.

Lemma gf_add_eq_0 a b : gf_add a b = x00 <-> a = b.
Proof.
  split; [|intros ->; apply byte_xor_nilpotent].
  intros H. unfold gf_add in H. by rewrite <- (byte_xor_cancel a b), H, byte_xor_0_l.
Qed.

Lemma gf_div_spec a b : b <> x00 -> gf_div a b = gf_mul a (finv b).
Proof.
  intros Hb. destruct (decide (a = x00)) as [->|Ha]; [done|].
  destruct (gf_inv_Some b Hb) as [Hi Hm].
  assert (finv b <> x00) as Hfb. { intros E. by rewrite E in Hm. }
  destruct (ilog_mul a (finv b) Ha Hfb) as [Hn Hl].
  unfold gf_div. rewrite (proj2 (byte_val_n0 a) Ha). fold (ilog a). fold (ilog b).
  pose proof (ilog_bound a). pose proof (ilog_bound b).
  destruct (exp_table (ilog a + 255 - ilog b) ltac:(lia)) as (_ & Hnz & Hlog).
  apply ilog_inj; [done|done|]. rewrite Hlog, Hl.
  assert (ilog (finv b) = ((255 - ilog b) mod 255)%nat) as ->.
  { unfold finv, gf_inv. rewrite (proj2 (byte_val_n0 b) Hb). apply exp_table. lia. }
  rewrite Nat.Div0.add_mod_idemp_r. f_equal. lia.
Qed.

(** ** [mul_add_slice]: dst[i] ^= scalar * src[i], unrolled by eight *)

(** The factor applied to a source byte on the two paths: XOR only when the
    scalar is one, table lookup otherwise. *)
Definition mas_term (scalar s : byte) : byte :=
  if byte_val scalar =? 1 then s
  else if byte_val s =? 0 then x00
  else at_ EXP (idx (at_ LOG (idx scalar)) + idx (at_ LOG (idx s))).

(** [dst[i] ^= term(src[i])]; [None] when [src[i]] is out of bounds (panic). *)
Definition mas_step (scalar : byte) (src dst : list byte) (i : nat) : option (list byte) :=
  match src !! i with
  | Some s => Some (<[i := byte_xor (at_ dst i) (mas_term scalar s)]> dst)
  | None => None
  end.

Fixpoint mas_steps (scalar : byte) (src dst : list byte) (ix : list nat) : option (list byte) :=
  match ix with
  | [] => Some dst
  | i :: rest =>
      match mas_step scalar src dst i with
      | Some dst' => mas_steps scalar src dst' rest
      | None => None
      end
  end.

(** The indices in the order the two loops visit them. *)
Definition mas_indices (len : nat) : list nat :=
  let chunks := (len / 8)%nat in
  let rem := (len mod 8)%nat in
  flat_map (fun i => let b := (i * 8)%nat in
              [b; b + 1; b + 2; b + 3; b + 4; b + 5; b + 6; b + 7]%nat) (seq 0 chunks)
  ++ map (fun i => chunks * 8 + i)%nat (seq 0 rem).

Definition mul_add_slice (dst src : list byte) (scalar : byte) : option (list byte) :=
  if byte_val scalar =? 0 then Some dst
  else mas_steps scalar src dst (mas_indices (length dst)).

Lemma mas_indices_seq len : mas_indices len = seq 0 len.
Proof.
  unfold mas_indices.
  assert (forall m, flat_map (fun i => let b := (i * 8)%nat in
     [b; b + 1; b + 2; b + 3; b + 4; b + 5; b + 6; b + 7]%nat) (seq 0 m) = seq 0 (m * 8)) as ->.
  { induction m as [|m IH]; [done|]. rewrite seq_S, flat_map_app, IH.
    replace (S m * 8)%nat with (m * 8 + 8)%nat by lia. rewrite seq_app. f_equal.
    cbn [flat_map app seq Nat.add]. repeat f_equal; lia. }
  assert (map (fun i => len / 8 * 8 + i)%nat (seq 0 (len mod 8)) = seq (0 + len / 8 * 8) (len mod 8)) as ->.
  { rewrite (Nat.add_comm 0). apply (fmap_add_seq (len / 8 * 8) 0). }
  rewrite <- seq_app. f_equal. rewrite (Nat.div_mod_eq len 8) at 3. lia.
Qed.

Lemma mas_term_mul scalar s : scalar <> x00 -> mas_term scalar s = gf_mul scalar s.
Proof.
  intros Hs. unfold mas_term, gf_mul. rewrite (proj2 (byte_val_n0 _) Hs). simpl.
  destruct (byte_val scalar =? 1) eqn:E1; [|done].
  apply (byte_eq_of_val scalar x01) in E1. subst scalar.
  destruct (byte_val s =? 0) eqn:E0; [by apply byte_val_0 in E0|].
  apply byte_val_n0 in E0. rewrite <- (exp_ilog s E0) at 1. done.
Qed.

(** The visited prefix [0, i) holds the new bytes, the rest the old ones. *)
Lemma mas_steps_spec scalar src : forall dst i n,
  (i + n = length dst)%nat -> (length dst <= length src)%nat ->
  exists dst', mas_steps scalar src dst (seq i n) = Some dst' /\ length dst' = length dst /\
    forall j, at_ dst' j = if (i <=? j)%nat && (j <? i + n)%nat
                           then byte_xor (at_ dst j) (mas_term scalar (at_ src j)) else at_ dst j.
Proof.
  intros dst i n. revert dst i. induction n as [|n IH]; intros dst i Hn Hl; simpl.
  - exists dst. split_and!; try done. intros j.
    destruct ((i <=? j)%nat && (j <? i + 0)%nat) eqn:E; [|done]. cmp_facts. lia.
  - unfold mas_step. destruct (lookup_lt_is_Some_2 src i ltac:(lia)) as [s Hs]. rewrite Hs.
    destruct (IH (<[i:=byte_xor (at_ dst i) (mas_term scalar s)]> dst) (S i)) as (d' & He & Hl' & Hj).
    { rewrite length_insert. lia. } { rewrite length_insert. lia. }
    rewrite length_insert in Hl'. exists d'. split_and!; [done|done|]. intros j. rewrite Hj.
    assert (at_ src i = s) as Hsi. { unfold at_. rewrite nth_lookup, Hs. done. }
    assert (forall x, at_ (<[i:=x]> dst) j = if (j =? i)%nat then x else at_ dst j) as Hat.
    { intros x. unfold at_. rewrite !nth_lookup. destruct (j =? i)%nat eqn:E; cmp_facts.
      - subst j. rewrite list_lookup_insert_eq by lia. done.
      - by rewrite list_lookup_insert_ne by lia. }
    rewrite Hat. destruct (j =? i)%nat eqn:E; cmp_facts.
    + subst j. replace (S i <=? i)%nat with false by (symmetry; apply Nat.leb_gt; lia).
      replace (i <=? i)%nat with true by (symmetry; apply Nat.leb_le; lia).
      replace (i <? i + S n)%nat with true by (symmetry; apply Nat.ltb_lt; lia). simpl. by rewrite Hsi.
    + replace (S i <=? j)%nat with (i <=? j)%nat by (destruct (Nat.leb_spec i j), (Nat.leb_spec (S i) j); lia).
      by replace (i + S n)%nat with (S i + n)%nat by lia.
Qed.

Lemma mul_add_slice_acc (dst src : list byte) (scalar : byte) :
  (length dst <= length src)%nat ->
  exists dst', mul_add_slice dst src scalar = Some dst' /\ length dst' = length dst /\
    forall j, (j < length dst)%nat ->
      at_ dst' j = gf_add (at_ dst j) (gf_mul scalar (at_ src j)).
Proof.
  intros Hl. unfold mul_add_slice. destruct (byte_val scalar =? 0) eqn:E.
  - apply byte_val_0 in E. subst. exists dst. split_and!; try done. intros j Hj.
    rewrite gf_mul_0_l. symmetry. apply byte_xor_0_r.
  - apply byte_val_n0 in E. rewrite mas_indices_seq.
    destruct (mas_steps_spec scalar src dst 0 (length dst) eq_refl Hl) as (d & -> & Hd & Hj).
    exists d. split_and!; try done. intros j Hlt. rewrite Hj. simpl.
    replace (j <? length dst)%nat with true by (symmetry; apply Nat.ltb_lt; lia).
    by rewrite mas_term_mul.
Qed.

(** The unrolled, table-driven [mul_add_slice] computes the scalar
    multiply-accumulate of the field: for a source at least as long as the
    destination it never indexes out of bounds, keeps the length, and sets
    every byte to dst[j] + scalar * src[j] in GF(2^8). *)
Theorem mul_add_slice_spec (dst src : list byte) (scalar : byte) :
  (length dst <= length src)%nat ->
  exists dst', mul_add_slice dst src scalar = Some dst' /\ length dst' = length dst /\
    forall j, (j < length dst)%nat ->
      at_ dst' j = gf_add (at_ dst j) (ref_mul scalar (at_ src j)).
Proof.
  intros Hl. destruct (mul_add_slice_acc dst src scalar Hl) as (d & He & Hd & Hj).
  exists d. split_and!; try done. intros j Hlt. by rewrite <- gf_mul_ref, Hj.
Qed.

Lemma mul_add_slice_spec_witness :
  mul_add_slice [x01; x02; x03; x04; x05; x06; x07; x08; x09]
    [x10; x20; x30; x40; x50; x60; x70; x80; x90] x02 =
    Some [x21; x42; x63; x84; xa5; xc6; xe7; x15; x34] /\
  at_ [x21; x42; x63; x84; xa5; xc6; xe7; x15; x34] 8 = gf_add x09 (ref_mul x02 x90).
Proof.
  split; [vm_compute; reflexivity|].
  destruct (mul_add_slice_spec [x01; x02; x03; x04; x05; x06; x07; x08; x09]
    [x10; x20; x30; x40; x50; x60; x70; x80; x90] x02) as (d & He & _ & Hj).
  - simpl. lia.
  - vm_compute in He. injection He as <-. apply (Hj 8%nat). simpl. lia.
Defined.

(** C35: the table-driven operations are exactly GF(2^8) = GF(2)[x] / 0x11d:
    the product is carry-less multiplication modulo the primitive polynomial,
    [inv] fails on zero only and is otherwise the multiplicative inverse,
    [div] multiplies by that inverse, and the operations satisfy the field
    laws. *)
Theorem gf256_is_field :
  (forall a b, gf_mul a b = ref_mul a b) /\
  (forall a, gf_inv a = None <-> a = x00) /\
  (forall a i, gf_inv a = Some i -> gf_mul i a = x01) /\
  (forall a b i, gf_inv b = Some i -> gf_div a b = gf_mul a i) /\
  field_theory x00 x01 gf_add gf_mul gf_add (fun x => x) fdiv finv (@eq byte).
Proof.
  split_and!.
  - apply gf_mul_ref.
  - apply gf_inv_None.
  - intros a i Hi. destruct (decide (a = x00)) as [->|Ha]; [done|].
    destruct (gf_inv_Some a Ha) as [He Hm]. rewrite Hi in He. injection He as ->. done.
  - intros a b i Hi. destruct (decide (b = x00)) as [->|Hb]; [done|].
    rewrite gf_div_spec by done. destruct (gf_inv_Some b Hb) as [He _].
    rewrite Hi in He. by injection He as ->.
  - apply gf_field.
Qed.
