(* ===== verification/Gauss.v ===== *)
(** * Linear algebra over GF(2^8)

    [gauss_rhs] of src/src/fec/codec.rs, with the facts the Reed-Solomon decoder
    rests on: elimination preserves the solutions, succeeds on every nonsingular
    matrix, and Cauchy systems are nonsingular; and [invert_matrix] of
    src/src/fec/gf.rs, which the same row operations prove correct. *)

From Stdlib Require Import ZArith Lia Bool List.
From Stdlib Require Import Strings.Byte.
From Stdlib Require Import Field.
From stdpp Require Import base list numbers option.
From S2P Require Import Prelude GF256.

Open Scope nat_scope.

Abbreviation zero := x00.
Abbreviation one := x01.
#[local] Infix "+f" := gf_add (at level 50, left associativity).
#[local] Infix "*f" := gf_mul (at level 40, left associativity).

Lemma gf_add_self a : a +f a = zero.
Proof. apply byte_xor_nilpotent. Qed.

Lemma gf_add_0_l a : zero +f a = a.
Proof. apply byte_xor_0_l. Qed.

Lemma gf_add_0_r a : a +f zero = a.
Proof. apply byte_xor_0_r. Qed.

(** ** Finite sums *)

Definition fsum_l {A} (f : A -> byte) (l : list A) : byte := fold_right gf_add zero (map f l).
Definition fsum (n : nat) (f : nat -> byte) : byte := fsum_l f (seq 0 n).

Lemma fsum_l_ext {A} (f g : A -> byte) l : (forall x, In x l -> f x = g x) -> fsum_l f l = fsum_l g l.
Proof.
  unfold fsum_l. induction l as [|x l IH]; intros H; simpl; [done|].
  rewrite H by (by left). f_equal. apply IH. intros y Hy. apply H. by right.
Qed.

Lemma fsum_l_add {A} (f g : A -> byte) l :
  fsum_l (fun x => f x +f g x) l = fsum_l f l +f fsum_l g l.
Proof.
  unfold fsum_l. induction l as [|x l IH]; simpl; [done|]. rewrite IH. ring.
Qed.

Lemma fsum_l_mul {A} c (f : A -> byte) l : fsum_l (fun x => c *f f x) l = c *f fsum_l f l.
Proof.
  unfold fsum_l. induction l as [|x l IH]; simpl; [symmetry; apply gf_mul_0_r|]. rewrite IH. ring.
Qed.

Lemma fsum_l_zero {A} (f : A -> byte) l : (forall x, In x l -> f x = zero) -> fsum_l f l = zero.
Proof.
  intros H. rewrite (fsum_l_ext f (fun _ => zero) l H). clear H.
  unfold fsum_l. induction l as [|x l IH]; simpl; [done|]. by rewrite IH.
Qed.

(** Only the terms of a sublist contribute. *)
Lemma fsum_l_filter {A} (f : A -> byte) (P : A -> bool) l :
  (forall x, In x l -> P x = false -> f x = zero) ->
  fsum_l f l = fsum_l f (List.filter P l).
Proof.
  unfold fsum_l. induction l as [|x l IH]; intros H; simpl; [done|].
  rewrite IH by (intros y Hy; apply H; by right).
  destruct (P x) eqn:E; [done|]. rewrite H by (done || by left). apply gf_add_0_l.
Qed.

Lemma fsum_ext n f g : (forall j, j < n -> f j = g j) -> fsum n f = fsum n g.
Proof. intros H. apply fsum_l_ext. intros j Hj. apply H. apply in_seq in Hj. lia. Qed.

Lemma fsum_add n f g : fsum n (fun j => f j +f g j) = fsum n f +f fsum n g.
Proof. apply fsum_l_add. Qed.

Lemma fsum_mul n c f : fsum n (fun j => c *f f j) = c *f fsum n f.
Proof. apply fsum_l_mul. Qed.

Lemma fsum_single n i a : i < n -> fsum n (fun j => if j =? i then a else zero) = a.
Proof.
  intros Hi. unfold fsum. rewrite (fsum_l_filter _ (fun j => j =? i)).
  2: { intros x _ Hx. by rewrite Hx. }
  assert (forall m s, s <= i < s + m -> List.filter (fun j => j =? i) (seq s m) = [i]) as Hf.
  { induction m as [|m IH]; intros s Hs; [lia|]. simpl. destruct (s =? i) eqn:E; cmp_facts.
    - subst. f_equal. apply filter_none. intros x Hx. apply in_seq in Hx.
      apply Nat.eqb_neq. lia.
    - apply IH. lia. }
  rewrite Hf by lia. unfold fsum_l. simpl. rewrite Nat.eqb_refl. apply gf_add_0_r.
Qed.

(** ** Cauchy systems are nonsingular *)

Lemma cauchy_term a a0 b b0 :
  a +f b <> zero -> a0 +f b <> zero ->
  (a +f a0) *f ((b +f b0) *f finv (a0 +f b) *f finv (a +f b)) =
  (a +f b0) *f finv (a +f b) +f (a0 +f b0) *f finv (a0 +f b).
Proof.
  intros H1 H2.
  destruct (gf_inv_Some _ H1) as [_ E1]. destruct (gf_inv_Some _ H2) as [_ E2].
  set (u := finv (a +f b)) in *. set (v := finv (a0 +f b)) in *.
  transitivity ((a +f b0) *f u *f (v *f (a0 +f b)) +f (a0 +f b0) *f v *f (u *f (a +f b))).
  2: { rewrite E1, E2. ring. }
  transitivity (u *f v *f ((a +f a0) *f (b +f b0)
                 +f ((a *f a0 +f b *f b0) +f (a *f a0 +f b *f b0)))).
  - rewrite gf_add_self, gf_add_0_r. ring.
  - ring.
Qed.

Definition cauchy_sum (a : byte) (bs : list (byte * byte)) : byte :=
  fsum_l (fun bx => snd bx *f finv (a +f fst bx)) bs.

(** A vector [x] orthogonal to as many Cauchy rows (distinct [a]s, distinct
    [b]s, no [a] among the [b]s) as it has entries is zero. *)
Lemma cauchy_nonsingular : forall (bs : list (byte * byte)) (al : list byte),
  NoDup al -> NoDup (map fst bs) -> length al = length bs ->
  (forall a b, In a al -> In b (map fst bs) -> a <> b) ->
  (forall a, In a al -> cauchy_sum a bs = zero) ->
  forall b x, In (b, x) bs -> x = zero.
Proof.
  intros bs. remember (length bs) as n eqn:Hn. revert bs Hn.
  induction n as [|n IH]; intros [|[b0 x0] bs] Hn [|a0 al] Hal Hbs Hlen Hdisj Hz; try done.
  simpl in Hn, Hlen. injection Hn as Hn. injection Hlen as Hlen.
  inversion_clear Hal as [|? ? Ha0 Hal']. rename Hal' into Hal.
  simpl in Hbs. inversion_clear Hbs as [|? ? Hb0 Hbs']. rename Hbs' into Hbs.
  rewrite list_elem_of_In in Ha0. rewrite list_elem_of_In in Hb0.
  assert (forall a b, In a (a0 :: al) -> In b (b0 :: map fst bs) -> a +f b <> zero) as Hne.
  { intros a b Ha Hb E. apply (proj1 (gf_add_eq_0 _ _)) in E. exact (Hdisj a b Ha Hb E). }
  assert (forall a, In a (a0 :: al) -> (a +f b0) *f cauchy_sum a bs = x0) as Hrow.
  { intros a Ha. pose proof (Hz a Ha) as E. unfold cauchy_sum, fsum_l in E. simpl in E.
    fold (fsum_l (fun bx : byte * byte => snd bx *f finv (a +f fst bx)) bs) in E.
    fold (cauchy_sum a bs) in E. apply (proj1 (gf_add_eq_0 _ _)) in E. rewrite <- E.
    destruct (gf_inv_Some (a +f b0)) as [_ Hi]; [apply Hne; [done|by left]|].
    transitivity (x0 *f (finv (a +f b0) *f (a +f b0))); [ring|]. rewrite Hi. ring. }
  set (bs' := map (fun bx => (fst bx, snd bx *f (fst bx +f b0) *f finv (a0 +f fst bx))) bs).
  assert (map fst bs' = map fst bs) as Hfst.
  { unfold bs'. rewrite map_map. done. }
  assert (forall b x, In (b, x) bs' -> x = zero) as Hy.
  { apply (IH bs') with al.
    - unfold bs'. by rewrite length_map.
    - done.
    - by rewrite Hfst.
    - lia.
    - rewrite Hfst. intros a b Ha Hb. apply Hdisj; by right.
    - intros a Ha. assert (a +f a0 <> zero) as Haa0.
      { rewrite gf_add_eq_0. intros ->. done. }
      destruct (gf_mul_eq_0 (a +f a0) (cauchy_sum a bs')) as [?|?]; [|done|done].
      rewrite <- (gf_add_self x0). rewrite <- (Hrow a) at 1 by (by right).
      rewrite <- (Hrow a0) by (by left).
      unfold cauchy_sum. rewrite <- !fsum_l_mul, <- fsum_l_add.
      unfold fsum_l, bs'. rewrite map_map. f_equal. apply map_ext_in. intros [b x] Hin. simpl.
      assert (In b (b0 :: map fst bs)) as Hb by (right; by apply (in_map fst bs (b, x))).
      pose proof (cauchy_term a a0 b b0 (Hne a b ltac:(by right) Hb) (Hne a0 b ltac:(by left) Hb)) as E.
      transitivity (x *f ((a +f b0) *f finv (a +f b) +f (a0 +f b0) *f finv (a0 +f b))); [|ring].
      rewrite <- E. ring. }
  assert (forall b x, In (b, x) bs -> x = zero) as Hx.
  { intros b x Hin. pose proof (in_map (fun bx => (fst bx, snd bx *f (fst bx +f b0) *f finv (a0 +f fst bx))) bs _ Hin) as H.
    apply Hy in H. apply gf_mul_eq_0 in H as [H|H].
    - apply gf_mul_eq_0 in H as [H|H]; [done|]. apply (proj1 (gf_add_eq_0 _ _)) in H. simpl in H. subst b.
      destruct Hb0. by apply (in_map fst bs (b0, x)).
    - destruct (gf_inv_Some (a0 +f b)) as [_ Hi].
      { apply Hne; [by left|]. right. by apply (in_map fst bs (b, x)). }
      simpl in H. rewrite H in Hi. done. }
  intros b x [[= -> ->]|Hin]; [|by apply (Hx b)].
  rewrite <- (Hrow a0) by (by left). unfold cauchy_sum.
  rewrite (fsum_l_zero _ bs); [apply gf_mul_0_r|]. intros [b' x'] Hin. simpl.
  by rewrite (Hx b' x' Hin).
Qed.

(** ** The elimination of [gauss_rhs] *)

Abbreviation matrix := (list (list byte)).

Definition row (m : matrix) (i : nat) : list byte := nth i m [].
Definition get (m : matrix) (i j : nat) : byte := at_ (row m i) j.

Definition is_zero (b : byte) : bool := (byte_val b =? 0)%Z.

(** [mat.swap(i, j)]. *)
Definition swap_rows (m : matrix) (i j : nat) : matrix :=
  <[i := row m j]> (<[j := row m i]> m).

(** Scale every entry of a row by [c], in place. *)
Definition scale_row (c : byte) (l : list byte) : list byte := map (fun v => gf_mul v c) l.

(** Add [factor] times the pivot row to a row, position by position ([zip]). *)
Fixpoint axpy_zip (factor : byte) (dst src : list byte) : list byte :=
  match dst, src with
  | d :: dst', s :: src' => byte_xor d (gf_mul factor s) :: axpy_zip factor dst' src'
  | _, _ => dst
  end.

Inductive GaussOut : Type :=
  | GPanic                           (* out-of-bounds index or failed [expect] *)
  | GSingular                        (* returns false *)
  | GDone (mat rhs : matrix).        (* returns true *)

(** The body of [for r in 0..k]; [None] is a panic inside [mul_add_slice]. *)
Definition elim_row (col : nat) (st : matrix * matrix) (r : nat) : option (matrix * matrix) :=
  let '(mat, rhs) := st in
  if r =? col then Some st
  else
    let factor := get mat r col in
    if is_zero factor then Some st
    else
      let mat' := <[r := axpy_zip factor (row mat r) (row mat col)]> mat in
      match mul_add_slice (row rhs r) (row rhs col) factor with
      | Some rr => Some (mat', <[r := rr]> rhs)
      | None => None
      end.

Fixpoint elim_rows (col : nat) (st : matrix * matrix) (rs : list nat) : option (matrix * matrix) :=
  match rs with
  | [] => Some st
  | r :: rest =>
      match elim_row col st r with
      | Some st' => elim_rows col st' rest
      | None => None
      end
  end.

(** [(col..k).find(|&r| mat[r][col] != 0)]. *)
Definition find_pivot (mat : matrix) (col k : nat) : option nat :=
  find (fun r => negb (is_zero (get mat r col))) (seq col (k - col)).

(** One column: pivot, swap, scale by the pivot's inverse, eliminate. *)
Definition gauss_col (k col : nat) (mat rhs : matrix) : GaussOut :=
  match find_pivot mat col k with
  | None => GSingular
  | Some pivot =>
      let mat1 := swap_rows mat col pivot in
      let rhs1 := swap_rows rhs col pivot in
      match gf_inv (get mat1 col col) with
      | None => GPanic
      | Some piv_inv =>
          let mat2 := <[col := scale_row piv_inv (row mat1 col)]> mat1 in
          let rhs2 := <[col := scale_row piv_inv (row rhs1 col)]> rhs1 in
          match elim_rows col (mat2, rhs2) (seq 0 k) with
          | Some (mat3, rhs3) => GDone mat3 rhs3
          | None => GPanic
          end
      end
  end.

Fixpoint gauss_loop (k : nat) (mat rhs : matrix) (cols : list nat) : GaussOut :=
  match cols with
  | [] => GDone mat rhs
  | col :: rest =>
      match gauss_col k col mat rhs with
      | GDone mat' rhs' => gauss_loop k mat' rhs' rest
      | out => out
      end
  end.

Definition gauss_rhs (mat rhs : matrix) (k : nat) : GaussOut :=
  gauss_loop k mat rhs (seq 0 k).

(** ** [invert_matrix] *)

(** [Vec::resize]. *)
Definition resize (l : list byte) (n : nat) : list byte := take n l ++ replicate (n - length l) x00.

(** The rows with the identity beside them; [None] when a row is missing. *)
Definition augment (mat : matrix) (k : nat) : option matrix :=
  mapM (fun i => (fun r => <[k + i := x01]> (resize r (2 * k))) <$> mat !! i) (seq 0 k).

Definition invert_row (col : nat) (aug : matrix) (r : nat) : matrix :=
  if r =? col then aug
  else
    let factor := get aug r col in
    if is_zero factor then aug else <[r := axpy_zip factor (row aug r) (row aug col)]> aug.

Inductive InvertOut : Type :=
  | IPanic
  | ISingular
  | IDone (aug : matrix).

Definition invert_col (k col : nat) (aug : matrix) : InvertOut :=
  match find_pivot aug col k with
  | None => ISingular
  | Some pivot =>
      let aug1 := swap_rows aug col pivot in
      match gf_inv (get aug1 col col) with
      | None => IPanic
      | Some pivot_inv =>
          let aug2 := <[col := scale_row pivot_inv (row aug1 col)]> aug1 in
          IDone (fold_left (invert_row col) (seq 0 k) aug2)
      end
  end.

Fixpoint invert_loop (k : nat) (aug : matrix) (cols : list nat) : InvertOut :=
  match cols with
  | [] => IDone aug
  | col :: rest =>
      match invert_col k col aug with
      | IDone aug => invert_loop k aug rest
      | out => out
      end
  end.

(** The result and the matrix after the call; [None] is a panic. *)
Definition invert_matrix (mat : matrix) (k : nat) : option (bool * matrix) :=
  aug ← augment mat k;
  match invert_loop k aug (seq 0 k) with
  | IPanic => None
  | ISingular => Some (false, mat)
  | IDone aug => Some (true, map (drop k) aug ++ drop k mat)
  end.

(** ** Shapes and entries *)

Definition shape (m : matrix) (h w : nat) : Prop :=
  length m = h /\ forall i, i < h -> length (row m i) = w.

Lemma row_insert m i j (x : list byte) :
  j < length m -> row (<[j := x]> m) i = if i =? j then x else row m i.
Proof.
  intros Hj. unfold row. rewrite !nth_lookup. destruct (i =? j) eqn:E; cmp_facts.
  - subst. by rewrite list_lookup_insert_eq.
  - by rewrite list_lookup_insert_ne by lia.
Qed.

Lemma shape_insert m h w i x :
  shape m h w -> i < h -> length x = w -> shape (<[i := x]> m) h w.
Proof.
  intros [Hl Hr] Hi Hx. split; [by rewrite length_insert|]. intros j Hj.
  rewrite row_insert by lia. destruct (j =? i); auto.
Qed.

Lemma row_swap m i j p : i < length m -> j < length m ->
  row (swap_rows m i j) p = if p =? i then row m j else if p =? j then row m i else row m p.
Proof.
  intros Hi Hj. unfold swap_rows. rewrite row_insert by (by rewrite length_insert).
  by rewrite row_insert.
Qed.

Lemma shape_swap m h w i j : shape m h w -> i < h -> j < h -> shape (swap_rows m i j) h w.
Proof.
  intros [Hl Hr] Hi Hj. split; [unfold swap_rows; by rewrite !length_insert|]. intros p Hp.
  rewrite row_swap by lia. repeat split_if; auto.
Qed.

Lemma at_scale_row c l j : at_ (scale_row c l) j = gf_mul (at_ l j) c.
Proof.
  unfold at_, scale_row. apply (map_nth (fun v => gf_mul v c) l x00 j).
Qed.

Lemma length_axpy_zip f d s : length (axpy_zip f d s) = length d.
Proof. revert s. induction d as [|x d IH]; intros [|y s]; simpl; auto. Qed.

Lemma at_axpy_zip f d s j : length d = length s ->
  at_ (axpy_zip f d s) j = at_ d j +f f *f at_ s j.
Proof.
  unfold at_. revert s j. induction d as [|x d IH]; intros [|y s] j Hl; simpl in *; try done.
  - destruct j; simpl; by rewrite gf_mul_0_r.
  - destruct j; simpl; [done|]. apply IH. lia.
Qed.

Lemma is_zero_spec b : is_zero b = true <-> b = zero.
Proof. apply byte_val_0. Qed.

(** The transposition a swap applies to the row indices. *)
Definition transp (c p i : nat) : nat := if i =? c then p else if i =? p then c else i.

Ltac transp_cases :=
  unfold transp;
  repeat match goal with
  | |- context [?a =? ?b] => is_var a; is_var b; destruct (Nat.eqb_spec a b)
  end; try done; try lia.

Lemma transp_invol c p i : transp c p (transp c p i) = i.
Proof. transp_cases. Qed.

Lemma transp_lt c p i k : c < k -> p < k -> i < k -> transp c p i < k.
Proof. transp_cases. Qed.

Lemma row_swap_transp m c p i : c < length m -> p < length m ->
  row (swap_rows m c p) i = row m (transp c p i).
Proof. intros. rewrite row_swap by done. transp_cases. Qed.

(** ** The system and its invariants *)

Section System.
Context (k n : nat) (D : nat -> nat -> byte).   (* the unknown k x n data *)

Definition dot (m : matrix) (i : nat) (x : nat -> byte) : byte := fsum k (fun j => get m i j *f x j).

(** Every row equation [mat * D = rhs] holds. *)
Definition solves (mat rhs : matrix) : Prop :=
  forall i p, i < k -> p < n -> get rhs i p = dot mat i (fun j => D j p).

Definition nonsingular (mat : matrix) : Prop :=
  forall x, (forall i, i < k -> dot mat i x = zero) -> forall j, j < k -> x j = zero.

(** The first [c] columns are those of the identity. *)
Definition unit_cols (mat : matrix) (c : nat) : Prop :=
  forall i j, i < k -> j < c -> get mat i j = if i =? j then one else zero.

Record ginv (c : nat) (mat rhs : matrix) : Prop := {
  gi_mat : shape mat k k;
  gi_rhs : shape rhs k n;
  gi_sol : solves mat rhs;
  gi_ns : nonsingular mat;
  gi_unit : unit_cols mat c
}.

(** Row operations act on [dot] as on the entries. *)
Lemma dot_comb m m' i i1 i2 a b x :
  (forall j, j < k -> get m' i j = a *f get m i1 j +f b *f get m i2 j) ->
  dot m' i x = a *f dot m i1 x +f b *f dot m i2 x.
Proof.
  intros H. unfold dot. rewrite <- !fsum_mul, <- fsum_add. apply fsum_ext. intros j Hj.
  rewrite H by done. ring.
Qed.

Lemma dot_swap mat c p i x : c < length mat -> p < length mat ->
  dot (swap_rows mat c p) i x = dot mat (transp c p i) x.
Proof. intros Hc Hp. unfold dot, get. by rewrite row_swap_transp. Qed.

Lemma nonsingular_swap mat c p : length mat = k -> c < k -> p < k ->
  nonsingular mat -> nonsingular (swap_rows mat c p).
Proof.
  intros Lm Hc Hp Hn x Hx. apply Hn. intros i Hi.
  rewrite <- (transp_invol c p i), <- dot_swap by lia. by apply Hx, transp_lt.
Qed.

Lemma unit_swap mat c p : length mat = k -> c <= p < k -> unit_cols mat c -> unit_cols (swap_rows mat c p) c.
Proof.
  intros Lm Hp Hu i j Hi Hj. unfold get. rewrite row_swap_transp by lia.
  change (get mat (transp c p i) j = if i =? j then one else zero).
  rewrite Hu by (done || apply transp_lt; lia). transp_cases.
Qed.

(** Scaling row [c] by [v]. *)
Definition scale_at (c : nat) (v : byte) (i : nat) : byte := if i =? c then v else one.

Lemma scale_at_nonzero c v i : v <> zero -> scale_at c v i <> zero.
Proof. intros Hv. unfold scale_at. by destruct (i =? c). Qed.

Lemma get_scaled m c v i j : c < length m ->
  get (<[c := scale_row v (row m c)]> m) i j = scale_at c v i *f get m i j.
Proof.
  intros Hl. unfold get. rewrite row_insert by done. unfold scale_at.
  destruct (i =? c) eqn:E; cmp_facts; [subst; rewrite at_scale_row|]; ring.
Qed.

Lemma dot_scaled m c v i x : c < length m ->
  dot (<[c := scale_row v (row m c)]> m) i x = scale_at c v i *f dot m i x.
Proof.
  intros Hl. rewrite (dot_comb m _ i i i (scale_at c v i) zero); [ring|].
  intros j _. rewrite get_scaled by done. ring.
Qed.

Lemma nonsingular_scaled m c v : c < length m -> v <> zero ->
  nonsingular m -> nonsingular (<[c := scale_row v (row m c)]> m).
Proof.
  intros Hl Hv Hn x Hx. apply Hn. intros i Hi. specialize (Hx i Hi). rewrite dot_scaled in Hx by done.
  apply gf_mul_eq_0 in Hx as [Hx|Hx]; [by destruct (scale_at_nonzero c v i Hv)|done].
Qed.

Lemma unit_scaled m c v : c < length m -> unit_cols m c -> unit_cols (<[c := scale_row v (row m c)]> m) c.
Proof.
  intros Hl Hu i j Hi Hj. rewrite get_scaled, Hu by done. unfold scale_at.
  destruct (i =? c) eqn:E, (i =? j) eqn:E2; cmp_facts; subst; try ring. lia.
Qed.

Lemma ginv_swap c mat rhs p : ginv c mat rhs -> c <= p < k ->
  ginv c (swap_rows mat c p) (swap_rows rhs c p).
Proof.
  intros [Hm Hr Hs Hn Hu] Hp. pose proof (proj1 Hm) as Lm. pose proof (proj1 Hr) as Lr.
  constructor.
  - apply shape_swap; [done|lia|lia].
  - apply shape_swap; [done|lia|lia].
  - intros i q Hi Hq. unfold get at 1. rewrite row_swap_transp, dot_swap by lia.
    apply Hs; [apply transp_lt; lia|done].
  - apply nonsingular_swap; [done|lia|lia|done].
  - by apply unit_swap.
Qed.

Lemma ginv_scale c mat rhs v : ginv c mat rhs -> c < k -> v <> zero ->
  ginv c (<[c := scale_row v (row mat c)]> mat) (<[c := scale_row v (row rhs c)]> rhs).
Proof.
  intros [Hm Hr Hs Hn Hu] Hc Hv. pose proof (proj1 Hm) as Lm. pose proof (proj1 Hr) as Lr.
  constructor.
  - apply shape_insert; [done|done|]. unfold scale_row. rewrite length_map. by apply Hm.
  - apply shape_insert; [done|done|]. unfold scale_row. rewrite length_map. by apply Hr.
  - intros i p Hi Hp. rewrite get_scaled, dot_scaled by lia. f_equal. by apply Hs.
  - apply nonsingular_scaled; [lia|done|done].
  - apply unit_scaled; [lia|done].
Qed.

(** *** Elimination *)

Lemma get_insert m i r j x : r < length m ->
  get (<[r := x]> m) i j = if i =? r then at_ x j else get m i j.
Proof. intros Hr. unfold get. rewrite row_insert by done. by destruct (i =? r). Qed.

(** [m'] is [m] with [g i] times row [col] added to every row [i]. *)
Definition added (w col : nat) (g : nat -> byte) (m m' : matrix) : Prop :=
  forall i j, i < k -> j < w -> get m' i j = get m i j +f g i *f get m col j.

Lemma added_zero w col g m : (forall i, i < k -> g i = zero) -> added w col g m m.
Proof. intros H i j Hi _. rewrite H by done. ring. Qed.

Lemma added_trans w col g1 g2 m1 m2 m3 : col < k -> g1 col = zero ->
  added w col g1 m1 m2 -> added w col g2 m2 m3 -> added w col (fun i => g1 i +f g2 i) m1 m3.
Proof.
  intros Hc Hg H1 H2 i j Hi Hj. rewrite H2, (H1 i), (H1 col), Hg by done. ring.
Qed.

Lemma added_ext w col g1 g2 m m' : (forall i, i < k -> g1 i = g2 i) ->
  added w col g1 m m' -> added w col g2 m m'.
Proof. intros He H i j Hi Hj. rewrite H, He by done. done. Qed.

(** The factors one body of [for r in 0..k] applies. *)
Definition factor_at (mat : matrix) (col r i : nat) : byte :=
  if i =? r then (if r =? col then zero else get mat r col) else zero.

Lemma elim_row_spec w col mat rhs r :
  shape mat k w -> shape rhs k n -> col < k -> r < k ->
  exists mat' rhs', elim_row col (mat, rhs) r = Some (mat', rhs') /\
    shape mat' k w /\ shape rhs' k n /\
    added w col (factor_at mat col r) mat mat' /\ added n col (factor_at mat col r) rhs rhs'.
Proof.
  intros Hm Hr Hc Hrk. unfold elim_row.
  assert ((r =? col) = true \/ get mat r col = zero -> forall i, i < k -> factor_at mat col r i = zero) as Hnil.
  { unfold factor_at. intros [H|H] i _; destruct (i =? r), (r =? col); done. }
  destruct (r =? col) eqn:Erc.
  { exists mat, rhs. split_and!; try done; apply added_zero; auto. }
  destruct (is_zero (get mat r col)) eqn:Ez.
  { apply is_zero_spec in Ez. exists mat, rhs. split_and!; try done; apply added_zero; auto. }
  destruct Hm as [Lm Rm]. destruct Hr as [Lr Rr].
  destruct (mul_add_slice_acc (row rhs r) (row rhs col) (get mat r col)) as (d & -> & Ld & Hd).
  { by rewrite !Rr. }
  eexists _, _. split; [done|]. split_and!.
  - apply shape_insert; [done|done|]. rewrite length_axpy_zip. auto.
  - apply shape_insert; [done|done|]. rewrite Ld. auto.
  - intros i j Hi Hj. rewrite get_insert by lia. unfold factor_at. rewrite Erc.
    destruct (i =? r) eqn:E; cmp_facts; [|ring]. subst. rewrite at_axpy_zip; [done|]. by rewrite !Rm.
  - intros i j Hi Hj. rewrite get_insert by lia. unfold factor_at. rewrite Erc.
    destruct (i =? r) eqn:E; cmp_facts; [|ring]. subst. apply Hd. by rewrite Rr.
Qed.

(** The factors of the whole inner loop over the rows [rs]. *)
Definition factors (mat : matrix) (col : nat) (rs : list nat) (i : nat) : byte :=
  if existsb (Nat.eqb i) rs then (if i =? col then zero else get mat i col) else zero.

Lemma elim_rows_spec w col : k <= w -> forall rs mat rhs,
  NoDup rs -> (forall r, In r rs -> r < k) ->
  shape mat k w -> shape rhs k n -> col < k ->
  exists mat' rhs', elim_rows col (mat, rhs) rs = Some (mat', rhs') /\
    shape mat' k w /\ shape rhs' k n /\
    added w col (factors mat col rs) mat mat' /\ added n col (factors mat col rs) rhs rhs'.
Proof.
  intros Hw. induction rs as [|r rs IH]; intros mat rhs Hnd Hrs Hm Hr Hc; cbn [elim_rows].
  { exists mat, rhs. split_and!; try done; by apply added_zero. }
  inversion_clear Hnd as [|? ? Hnin Hnd']. rewrite list_elem_of_In in Hnin.
  destruct (elim_row_spec w col mat rhs r Hm Hr Hc) as (m1 & r1 & -> & Hm1 & Hr1 & Am & Ar).
  { apply Hrs. by left. }
  destruct (IH m1 r1 Hnd') as (m2 & r2 & -> & Hm2 & Hr2 & Bm & Br);
    [intros; apply Hrs; by right|done|done|done|].
  exists m2, r2.
  assert (factor_at mat col r col = zero) as Hf.
  { unfold factor_at. rewrite (Nat.eqb_sym col). by destruct (r =? col). }
  assert (forall i, i < k ->
    factor_at mat col r i +f factors m1 col rs i = factors mat col (r :: rs) i) as He.
  { intros i Hi. unfold factors. simpl. rewrite (Am i col Hi ltac:(lia)). unfold factor_at at 1 2.
    destruct (i =? r) eqn:E; cmp_facts; simpl.
    - subst i. assert (existsb (Nat.eqb r) rs = false) as ->; [|apply gf_add_0_r].
      apply not_true_is_false. intros Hx. apply existsb_exists in Hx as (y & Hy & Ey).
      apply Nat.eqb_eq in Ey. by subst.
    - rewrite gf_add_0_l, gf_mul_0_l, gf_add_0_r. done. }
  split_and!; [done|done|done| |].
  - eapply added_ext; [exact He|]. by eapply added_trans.
  - eapply added_ext; [exact He|]. by eapply added_trans.
Qed.

(** Adding multiples of row [c] to the others. *)
Lemma dot_added c f mat mat' i x : added k c f mat mat' -> i < k ->
  dot mat' i x = dot mat i x +f f i *f dot mat c x.
Proof.
  intros Am Hi. rewrite (dot_comb mat mat' i i c one (f i)); [ring|].
  intros j Hj. rewrite Am by done. ring.
Qed.

Lemma nonsingular_added c f mat mat' : added k c f mat mat' -> c < k -> f c = zero ->
  nonsingular mat -> nonsingular mat'.
Proof.
  intros Am Hc Hf Hn x Hx. apply Hn. intros i Hi.
  pose proof (Hx c Hc) as H0. rewrite (dot_added c f mat), Hf, gf_mul_0_l, gf_add_0_r in H0 by done.
  pose proof (Hx i Hi) as H1. rewrite (dot_added c f mat), H0, gf_mul_0_r, gf_add_0_r in H1 by done. done.
Qed.

Definition clears (mat : matrix) (c i : nat) : byte := if i =? c then zero else get mat i c.

Lemma clears_self mat c : clears mat c c = zero.
Proof. unfold clears. by rewrite Nat.eqb_refl. Qed.

Lemma unit_added c mat mat' : added k c (clears mat c) mat mat' -> c < k -> get mat c c = one ->
  unit_cols mat c -> unit_cols mat' (S c).
Proof.
  intros Am Hc Hp Hu i j Hi Hj. rewrite Am by lia. destruct (decide (j = c)) as [->|Hjc].
  - unfold clears. destruct (i =? c) eqn:E; cmp_facts.
    + subst. rewrite Hp. ring.
    + rewrite Hp, gf_mul_1_r. apply gf_add_self.
  - rewrite (Hu i j), (Hu c j) by lia. destruct (c =? j) eqn:E; cmp_facts; [lia|]. ring.
Qed.

Lemma factors_all mat c i : i < k -> factors mat c (seq 0 k) i = clears mat c i.
Proof.
  intros Hi. unfold factors. assert (existsb (Nat.eqb i) (seq 0 k) = true) as ->; [|done].
  apply existsb_exists. exists i. rewrite in_seq, Nat.eqb_refl. split; [lia|done].
Qed.

Lemma ginv_elim c mat rhs mat' rhs' :
  ginv c mat rhs -> c < k -> get mat c c = one ->
  shape mat' k k -> shape rhs' k n ->
  added k c (factors mat c (seq 0 k)) mat mat' -> added n c (factors mat c (seq 0 k)) rhs rhs' ->
  ginv (S c) mat' rhs'.
Proof.
  intros [Hm Hr Hs Hn Hu] Hc Hp Hm' Hr' Am Ar.
  eapply added_ext in Am; [|apply factors_all]. eapply added_ext in Ar; [|apply factors_all].
  constructor; [done|done| | |].
  - intros i p Hi Hq. rewrite Ar, (dot_added _ _ _ _ _ _ Am) by done. by rewrite !Hs.
  - apply (nonsingular_added c (clears mat c) mat); [done|done|apply clears_self|done].
  - by apply (unit_added c mat).
Qed.

(** *** Pivots *)

Lemma pivot_exists c mat : nonsingular mat -> unit_cols mat c -> c < k ->
  exists p, find_pivot mat c k = Some p /\ c <= p < k /\ get mat p c <> zero.
Proof.
  intros Hn Hu Hc. destruct (find_pivot mat c k) as [p|] eqn:E; unfold find_pivot in E.
  { apply find_some in E as [Hin Hz]. apply in_seq in Hin. exists p. split_and!; [done|lia|lia|].
    intros H0. rewrite H0 in Hz. done. }
  exfalso. assert (forall i, c <= i < k -> get mat i c = zero) as Hz.
  { intros i Hi. apply (find_none _ _ E i) in Hi as H || pose proof (find_none _ _ E i ltac:(apply in_seq; lia)) as H.
    apply negb_false_iff in H. by apply is_zero_spec. }
  set (x := fun j => if j <? c then get mat j c else if j =? c then one else zero).
  assert (x c = one) as Hxc. { unfold x. by rewrite Nat.ltb_irrefl, Nat.eqb_refl. }
  enough (x c = zero) by congruence. apply Hn; [|done]. intros i Hi.
  destruct (decide (i < c)) as [Hic|Hic].
  - unfold dot. rewrite (fsum_ext k _ (fun j => (if j =? i then get mat i c else zero) +f
                                        (if j =? c then get mat i c else zero))).
    { rewrite fsum_add, !fsum_single by lia. apply gf_add_self. }
    intros j Hj. unfold x. destruct (j <? c) eqn:Ejc; cmp_facts.
    + rewrite Hu by lia. rewrite (Nat.eqb_sym j i). destruct (j =? c) eqn:E2; cmp_facts; [lia|].
      destruct (i =? j) eqn:E3; cmp_facts; [subst|]; ring.
    + destruct (j =? i) eqn:E3; cmp_facts; [lia|].
      destruct (j =? c) eqn:E2; cmp_facts; [subst|]; ring.
  - unfold dot, fsum. apply fsum_l_zero. intros j Hj. apply in_seq in Hj. unfold x.
    destruct (j <? c) eqn:Ejc; cmp_facts.
    + rewrite Hu by lia. destruct (i =? j) eqn:E3; cmp_facts; [lia|]. ring.
    + destruct (j =? c) eqn:E2; cmp_facts; [|ring]. subst. rewrite Hz by lia. ring.
Qed.

Lemma gauss_col_spec c mat rhs : ginv c mat rhs -> c < k ->
  exists mat' rhs', gauss_col k c mat rhs = GDone mat' rhs' /\ ginv (S c) mat' rhs'.
Proof.
  intros Hg Hc. destruct (pivot_exists c mat (gi_ns _ _ _ Hg) (gi_unit _ _ _ Hg) Hc) as (p & Ep & Hp & Hnz).
  unfold gauss_col. rewrite Ep. set (mat1 := swap_rows mat c p). set (rhs1 := swap_rows rhs c p).
  pose proof (ginv_swap c mat rhs p Hg Hp) as Hg1. fold mat1 rhs1 in Hg1.
  assert (get mat1 c c = get mat p c) as Hcc.
  { unfold mat1, get. rewrite row_swap by (rewrite (proj1 (gi_mat _ _ _ Hg)); lia). by rewrite Nat.eqb_refl. }
  rewrite Hcc. destruct (gf_inv_Some _ Hnz) as [-> Hinv]. set (v := finv (get mat p c)) in *.
  assert (v <> zero) as Hv. { intros E. rewrite E in Hinv. done. }
  pose proof (ginv_scale c mat1 rhs1 v Hg1 Hc Hv) as Hg2.
  set (mat2 := <[c := _]> mat1) in *. set (rhs2 := <[c := _]> rhs1) in *.
  assert (get mat2 c c = one) as H1.
  { unfold mat2. rewrite get_insert by (rewrite (proj1 (gi_mat _ _ _ Hg1)); lia).
    rewrite Nat.eqb_refl, at_scale_row. change (at_ (row mat1 c) c) with (get mat1 c c).
    by rewrite Hcc, gf_mul_comm. }
  destruct (elim_rows_spec k c ltac:(lia) (seq 0 k) mat2 rhs2) as (m3 & r3 & -> & Hm3 & Hr3 & Am & Ar).
  { apply NoDup_seq. } { intros r Hr. apply in_seq in Hr. lia. }
  { apply Hg2. } { apply Hg2. } { done. }
  exists m3, r3. split; [done|]. by eapply ginv_elim.
Qed.

Lemma gauss_loop_spec : forall m c mat rhs, c + m = k -> ginv c mat rhs ->
  exists mat' rhs', gauss_loop k mat rhs (seq c m) = GDone mat' rhs' /\ ginv k mat' rhs'.
Proof.
  induction m as [|m IH]; intros c mat rhs Hk Hg; cbn [gauss_loop seq].
  - rewrite Nat.add_0_r in Hk. subst c. eauto.
  - destruct (gauss_col_spec c mat rhs Hg ltac:(lia)) as (m' & r' & -> & Hg').
    apply IH; [lia|done].
Qed.

Lemma gauss_rhs_ok mat rhs :
  shape mat k k -> shape rhs k n -> solves mat rhs -> nonsingular mat ->
  exists mat' rhs', gauss_rhs mat rhs k = GDone mat' rhs' /\ shape rhs' k n /\
    forall i p, i < k -> p < n -> get rhs' i p = D i p.
Proof.
  intros Hm Hr Hs Hn.
  destruct (gauss_loop_spec k 0 mat rhs eq_refl) as (m' & r' & E & [_ Hr' Hs' _ Hu]).
  { constructor; [done|done|done|done|]. intros i j _ Hj. lia. }
  exists m', r'. split_and!; [done|done|]. intros i p Hi Hp. rewrite Hs' by done. unfold dot.
  rewrite (fsum_ext k _ (fun j => if j =? i then D i p else zero)); [by apply fsum_single|].
  intros j Hj. rewrite Hu by done. rewrite (Nat.eqb_sym j i).
  destruct (i =? j) eqn:E2; cmp_facts; [subst|]; ring.
Qed.
End System.

(** ** Inversion *)

Lemma resize_row l n : length l <= n -> resize l n = l ++ replicate (n - length l) x00.
Proof. intros Hl. unfold resize. by rewrite take_ge. Qed.

(** Eliminating in the augmented matrix is eliminating with nothing beside it. *)
Lemma invert_rows_elim col : forall rs aug,
  (forall r, In r rs -> r < length aug) ->
  elim_rows col (aug, replicate (length aug) []) rs
  = Some (fold_left (invert_row col) rs aug, replicate (length aug) []).
Proof.
  induction rs as [|r rs IH]; intros aug Hrs; cbn [elim_rows fold_left]; [done|].
  assert (Hl : length (invert_row col aug r) = length aug).
  { unfold invert_row. repeat split_if; rewrite ?length_insert; done. }
  assert (elim_row col (aug, replicate (length aug) []) r = Some (invert_row col aug r, replicate (length aug) [])) as ->.
  { unfold elim_row, invert_row. destruct (r =? col); [done|]. destruct (is_zero _); [done|].
    assert (Hrow : forall i, row (replicate (length aug) []) i = []).
    { intros i. unfold row. rewrite nth_lookup. destruct (_ !! i) eqn:E; [|done]. by apply lookup_replicate in E as [-> _]. }
    rewrite !Hrow. destruct (mul_add_slice_acc [] [] (get aug r col) (le_n 0)) as (d & -> & Ld & _).
    apply nil_length_inv in Ld as ->. do 2 f_equal. apply list_insert_id. apply lookup_replicate. split; [done|apply Hrs; by left]. }
  rewrite <- Hl at 1. rewrite IH; [by rewrite Hl|]. intros r' Hr'. rewrite Hl. apply Hrs. by right.
Qed.

Section Inversion.
Context (k : nat) (M : matrix).

(** The left half of each row is the right half times [M]. *)
Definition combines (aug : matrix) : Prop :=
  forall i j, i < k -> j < k -> get aug i j = fsum k (fun l => get aug i (k + l) *f get M l j).

Record iinv (c : nat) (aug : matrix) : Prop := {
  ii_shape : shape aug k (2 * k);
  ii_comb : combines aug;
  ii_ns : nonsingular k M -> nonsingular k aug;
  ii_unit : unit_cols k aug c
}.

Lemma iinv_swap c aug p : iinv c aug -> c <= p < k -> iinv c (swap_rows aug c p).
Proof.
  intros [Hs Hc Hn Hu] Hp. pose proof (proj1 Hs) as Ll. constructor.
  - apply shape_swap; [done|lia|lia].
  - intros i j Hi Hj. unfold get at 1 2. rewrite row_swap_transp by lia. apply Hc; [apply transp_lt; lia|done].
  - intros HM. apply nonsingular_swap; [done|lia|lia|auto].
  - by apply unit_swap.
Qed.

Lemma iinv_scale c aug v : iinv c aug -> c < k -> v <> zero -> iinv c (<[c := scale_row v (row aug c)]> aug).
Proof.
  intros [Hs Hc Hn Hu] Hk Hv. pose proof (proj1 Hs) as Ll. constructor.
  - apply shape_insert; [done|done|]. unfold scale_row. rewrite length_map. by apply Hs.
  - intros i j Hi Hj. rewrite get_scaled, Hc, <- fsum_mul by lia. apply fsum_ext. intros l Hl.
    rewrite get_scaled by lia. ring.
  - intros HM. apply nonsingular_scaled; [lia|done|auto].
  - apply unit_scaled; [lia|done].
Qed.

Lemma iinv_added c aug aug' : iinv c aug -> c < k -> get aug c c = one -> shape aug' k (2 * k) ->
  added k (2 * k) c (clears aug c) aug aug' -> iinv (S c) aug'.
Proof.
  intros [Hs Hc Hn Hu] Hk Hp Hs' Am.
  assert (Amk : added k k c (clears aug c) aug aug') by (intros i j Hi Hj; apply Am; lia).
  constructor; [done| | |].
  - intros i j Hi Hj. rewrite (Am i j), !Hc, <- fsum_mul, <- fsum_add by lia. apply fsum_ext. intros l Hl.
    rewrite (Am i (k + l)) by lia. ring.
  - intros HM. apply (nonsingular_added k c (clears aug c) aug); [done|done|apply clears_self|auto].
  - by apply (unit_added k c aug).
Qed.

Lemma invert_col_spec c aug : iinv c aug -> c < k ->
  (exists aug', invert_col k c aug = IDone aug' /\ iinv (S c) aug')
  \/ (invert_col k c aug = ISingular /\ ~ nonsingular k M).
Proof.
  intros Hi Hk. destruct (find_pivot aug c k) as [p|] eqn:Ep; unfold invert_col; rewrite Ep.
  2: { right. split; [done|]. intros HM.
       destruct (pivot_exists k c aug (ii_ns _ _ Hi HM) (ii_unit _ _ Hi) Hk) as (p & E & _). by rewrite Ep in E. }
  left. apply find_some in Ep as [Hin Hz]. apply in_seq in Hin. apply negb_true_iff in Hz.
  assert (Hnz : get aug p c <> zero) by (intros E; apply is_zero_spec in E; congruence).
  set (aug1 := swap_rows aug c p). assert (Hp : c <= p < k) by lia.
  pose proof (iinv_swap c aug p Hi Hp) as Hi1. fold aug1 in Hi1. pose proof (proj1 (ii_shape _ _ Hi)) as Ll.
  assert (Hcc : get aug1 c c = get aug p c).
  { unfold aug1, get. rewrite row_swap by lia. by rewrite Nat.eqb_refl. }
  rewrite Hcc. destruct (gf_inv_Some _ Hnz) as [-> Hinv]. set (v := finv (get aug p c)) in *.
  assert (Hv : v <> zero) by (intros E; by rewrite E in Hinv).
  pose proof (iinv_scale c aug1 v Hi1 Hk Hv) as Hi2. set (aug2 := <[c := _]> aug1) in *.
  pose proof (proj1 (ii_shape _ _ Hi1)) as Ll1. pose proof (proj1 (ii_shape _ _ Hi2)) as Ll2.
  assert (H1 : get aug2 c c = one).
  { unfold aug2. rewrite get_insert by lia. rewrite Nat.eqb_refl, at_scale_row.
    change (at_ (row aug1 c) c) with (get aug1 c c). by rewrite Hcc, gf_mul_comm. }
  assert (Hrs : forall r, In r (seq 0 k) -> r < k) by (intros r Hr; apply in_seq in Hr; lia).
  destruct (elim_rows_spec k 0 (2 * k) c ltac:(lia) (seq 0 k) aug2 (replicate (length aug2) [])) as (m3 & r3 & E & Hm3 & _ & Am & _).
  { apply NoDup_seq. } { done. } { apply Hi2. }
  { rewrite Ll2. split; [apply length_replicate|]. intros i Hik. unfold row. rewrite nth_lookup, lookup_replicate_2 by done. done. }
  { done. }
  rewrite invert_rows_elim in E by (by rewrite Ll2). injection E as E _. rewrite E.
  exists m3. split; [done|]. apply (iinv_added c aug2); [done..|]. eapply added_ext; [apply factors_all|done].
Qed.

Lemma invert_loop_spec : forall m c aug, c + m = k -> iinv c aug ->
  (exists aug', invert_loop k aug (seq c m) = IDone aug' /\ iinv k aug')
  \/ (invert_loop k aug (seq c m) = ISingular /\ ~ nonsingular k M).
Proof.
  induction m as [|m IH]; intros c aug Hk Hi; cbn [invert_loop seq].
  - rewrite Nat.add_0_r in Hk. subst c. eauto.
  - destruct (invert_col_spec c aug Hi ltac:(lia)) as [(aug' & -> & Hi')|[-> Hn]]; [|by right].
    apply IH; [lia|done].
Qed.

End Inversion.

Lemma nth_error_lookup_rows (mat : matrix) i : i < length mat -> mat !! i = Some (row mat i).
Proof. intros Hi. unfold row. rewrite nth_lookup. by destruct (lookup_lt_is_Some_2 mat i Hi) as [r ->]. Qed.

Lemma augment_spec k mat : shape mat k k ->
  exists aug, augment mat k = Some aug /\ iinv k mat 0 aug.
Proof.
  intros [Ll Hr]. set (f := fun i => <[k + i := one]> (row mat i ++ replicate k zero)).
  assert (E : augment mat k = Some (map f (seq 0 k))).
  { unfold augment. apply mapM_Some. rewrite Forall2_fmap_r. apply Forall_Forall2_diag, List.Forall_forall.
    intros i Hi. apply in_seq in Hi. rewrite nth_error_lookup_rows by lia. cbn [fmap option_fmap option_map]. unfold f.
    rewrite resize_row, Hr by (rewrite ?Hr; lia). do 4 f_equal. lia. }
  exists (map f (seq 0 k)). split; [done|].
  assert (Hrow : forall i, i < k -> row (map f (seq 0 k)) i = f i).
  { intros i Hi. unfold row. rewrite (nth_indep _ [] (f 0)) by (rewrite length_map, length_seq; lia).
    rewrite map_nth, seq_nth by lia. done. }
  assert (Hlen : forall i, i < k -> length (f i) = 2 * k).
  { intros i Hi. unfold f. rewrite length_insert, length_app, length_replicate, Hr by done. lia. }
  assert (Hleft : forall i j, i < k -> j < k -> get (map f (seq 0 k)) i j = get mat i j).
  { intros i j Hi Hj. unfold get, at_. rewrite Hrow by done. unfold f.
    rewrite !nth_lookup, list_lookup_insert_ne, lookup_app_l by (rewrite ?Hr; lia). done. }
  assert (Hright : forall i l, i < k -> l < k -> get (map f (seq 0 k)) i (k + l) = if l =? i then one else zero).
  { intros i l Hi Hl. unfold get, at_. rewrite Hrow by done. unfold f. rewrite nth_lookup.
    destruct (l =? i) eqn:El; cmp_facts.
    - subst. rewrite list_lookup_insert_eq by (rewrite length_app, length_replicate, Hr; lia). done.
    - rewrite list_lookup_insert_ne, lookup_app_r by (rewrite ?Hr; lia). rewrite Hr, lookup_replicate_2 by lia. done. }
  constructor.
  - split; [by rewrite length_map, length_seq|]. intros i Hi. rewrite Hrow by done. auto.
  - intros i j Hi Hj. rewrite Hleft by done.
    rewrite (fsum_ext k _ (fun l => if l =? i then get mat i j else zero)); [by rewrite fsum_single|].
    intros l Hl. rewrite Hright by done. destruct (l =? i) eqn:El; cmp_facts; [subst|]; ring.
  - intros HM x Hx. apply HM. intros i Hi. rewrite <- (Hx i Hi). apply fsum_ext. intros j Hj. by rewrite Hleft.
  - intros i j _ Hj. lia.
Qed.

Lemma fsum_swap n m (f : nat -> nat -> byte) :
  fsum n (fun i => fsum m (fun j => f i j)) = fsum m (fun j => fsum n (fun i => f i j)).
Proof.
  unfold fsum. generalize (seq 0 n) as l. induction l as [|i l IH].
  - symmetry. by apply fsum_l_zero.
  - transitivity (fsum_l (fun j => f i j) (seq 0 m) +f fsum_l (fun i => fsum_l (fun j => f i j) (seq 0 m)) l); [done|].
    rewrite IH, <- fsum_l_add. done.
Qed.

(** [R * M] is the identity. *)
Definition left_inverse (k : nat) (R M : matrix) : Prop :=
  forall i j, i < k -> j < k -> fsum k (fun l => get R i l *f get M l j) = if i =? j then one else zero.

Lemma left_inverse_nonsingular k R M : left_inverse k R M -> nonsingular k M.
Proof.
  intros H x Hx j Hj. transitivity (fsum k (fun i => if i =? j then x j else zero)); [by rewrite fsum_single|].
  rewrite (fsum_ext k _ (fun i => fsum k (fun l => get R j l *f (get M l i *f x i)))).
  - rewrite fsum_swap. unfold fsum at 1. apply fsum_l_zero. intros l Hl. apply in_seq in Hl.
    rewrite fsum_mul. fold (dot k M l x). rewrite (Hx l) by lia. ring.
  - intros i Hi. rewrite (fsum_ext k _ (fun l => x i *f (get R j l *f get M l i))) by (intros; ring).
    rewrite fsum_mul, H by done. rewrite (Nat.eqb_sym j i). destruct (i =? j) eqn:E; cmp_facts; [subst|]; ring.
Qed.

(** Inverting a square matrix does not panic; it succeeds exactly on the
    nonsingular matrices, with the inverse in place of the matrix, and reports the
    singular ones, which it leaves as they were. *)
Theorem invert_matrix_correct k mat : shape mat k k ->
  exists ok mat', invert_matrix mat k = Some (ok, mat')
    /\ (ok = true <-> nonsingular k mat)
    /\ (if ok then shape mat' k k /\ left_inverse k mat' mat else mat' = mat).
Proof.
  intros Hs. destruct (augment_spec k mat Hs) as (aug & Ea & Hi). unfold invert_matrix. rewrite Ea. cbn [mbind option_bind].
  destruct (invert_loop_spec k mat k 0 aug eq_refl Hi) as [(aug' & -> & [Hs' Hc _ Hu])|[-> Hn]].
  2: { exists false, mat. split; [done|]. split; [|done]. split; [done|]. intros H. by destruct (Hn H). }
  rewrite drop_ge, app_nil_r by (by rewrite (proj1 Hs)).
  assert (Hrow : forall i, i < k -> row (map (drop k) aug') i = drop k (row aug' i)).
  { intros i _. unfold row. rewrite <- (map_nth (drop k)). by rewrite drop_nil. }
  assert (Hinv : left_inverse k (map (drop k) aug') mat).
  { intros i j Hi' Hj. rewrite <- (Hu i j), (Hc i j) by done. apply fsum_ext. intros l Hl. f_equal.
    unfold get. rewrite Hrow by done. unfold at_. by rewrite !nth_lookup, lookup_drop. }
  exists true, (map (drop k) aug'). split; [done|]. split; [|split; [|done]].
  - split; [|done]. intros _. by apply left_inverse_nonsingular in Hinv.
  - split; [by rewrite length_map, (proj1 Hs')|]. intros i Hik. rewrite Hrow, length_drop, (proj2 Hs') by done. lia.
Qed.

Lemma invert_matrix_correct_witness :
  let m := [[x01; x02]; [x03; x04]] in
  shape m 2 2 /\ exists ok mat', invert_matrix m 2 = Some (ok, mat')
    /\ (ok = true <-> nonsingular 2 m) /\ (if ok then shape mat' 2 2 /\ left_inverse 2 mat' m else mat' = m).
Proof.
  intros m. assert (H : shape m 2 2) by (split; [done|]; intros [|[|i]] Hi; [done|done|lia]).
  split; [exact H|]. exact (invert_matrix_correct 2 m H).
Defined.
