(* ===== verification/Fec.v ===== *)
(** * Systematic Reed-Solomon erasure coding

    src/src/fec/codec.rs: the Cauchy parity matrix, the repair-symbol wire
    format, the group encoder, and the group decoder with its recovery by
    Gaussian elimination ([gauss_rhs] and its correctness are in Gauss).
    A [None] at the outermost level of an operation's result is a panic. *)

From Stdlib Require Import ZArith Lia Bool List.
From Stdlib Require Import Strings.Byte.
From Stdlib Require Import Field.
From stdpp Require Import base list numbers option gmap.
From S2P Require Import Prelude GF256 Gauss.

Open Scope Z_scope.

Definition FEC_SOURCE_HDR : nat := 7.
Definition FEC_REPAIR_HDR : nat := 9.

(** C[i][j] = 1 / (i XOR (r + j)); [None] when the denominator is zero. *)
Definition cauchy (i j r : Z) : option byte :=
  gf_inv (byte_of (Z.lxor i (wrapping_add 8 r j))).

(** ** Repair symbols on the wire *)

Record FecRepairData : Type := mkFecRepairData {
  fr_group_id : Z;       (* u32 *)
  fr_repair_idx : Z;     (* u8 *)
  fr_k : Z;              (* u8 *)
  fr_r : Z;              (* u8 *)
  fr_padded_len : Z;     (* u16 *)
  fr_data : list byte
}.

Definition FecRepairData_to_bytes (p : FecRepairData) : list byte :=
  to_le 4 (fr_group_id p) ++ [byte_of (fr_repair_idx p); byte_of (fr_k p); byte_of (fr_r p)]
  ++ to_le 2 (fr_padded_len p) ++ fr_data p.

Definition FecRepairData_from_bytes (buf : list byte) : option FecRepairData :=
  if (length buf <? FEC_REPAIR_HDR)%nat then None
  else
    let group_id := from_le (slice buf 0 4) in
    let repair_idx := byte_val (at_ buf 4) in
    let k := byte_val (at_ buf 5) in
    let r := byte_val (at_ buf 6) in
    let padded_len := from_le (slice buf 7 9) in
    if (length buf <? FEC_REPAIR_HDR + Z.to_nat padded_len)%nat then None
    else Some (mkFecRepairData group_id repair_idx k r padded_len
                 (slice buf FEC_REPAIR_HDR (FEC_REPAIR_HDR + Z.to_nat padded_len))).

(** ** Encoder *)

Record FecEncoder : Type := mkFecEncoder {
  fe_group_id : Z;
  fe_k : Z;
  fe_r : Z;
  fe_sources : list (list byte);
  fe_padded_len : nat;
  fe_source_idx : Z
}.

Definition FecEncoder_new (group_id k r : Z) : FecEncoder :=
  mkFecEncoder group_id k r [] 0 0.

Definition FecEncoder_source_envelope (e : FecEncoder) : list byte :=
  to_le 4 (fe_group_id e) ++ [byte_of (fe_source_idx e); byte_of (fe_k e); byte_of (fe_r e)].

(** The inner loop [for j in 0..actual_k] of [emit_repairs]. *)
Fixpoint repair_symbol (sources : list (list byte)) (i r : Z) (js : list Z) (sym : list byte)
  : option (list byte) :=
  match js with
  | [] => Some sym
  | j :: rest =>
      match cauchy i j r with
      | None => None                       (* expect *)
      | Some c =>
          match sources !! Z.to_nat j with
          | None => None                   (* index out of bounds *)
          | Some s =>
              match mul_add_slice sym s c with
              | None => None
              | Some sym' => repair_symbol sources i r rest sym'
              end
          end
      end
  end.

(** The outer loop [for i in 0..r]. *)
Fixpoint emit_loop (group_id actual_k r : Z) (sources : list (list byte)) (len : nat) (is_ : list Z)
  : option (list FecRepairData) :=
  match is_ with
  | [] => Some []
  | i :: rest =>
      match repair_symbol sources i r (seqZ 0 actual_k) (replicate len x00) with
      | None => None
      | Some sym =>
          match emit_loop group_id actual_k r sources len rest with
          | None => None
          | Some l => Some (mkFecRepairData group_id i actual_k r (wrap 16 (Z.of_nat len)) sym :: l)
          end
      end
  end.

Definition FecEncoder_emit_repairs (e : FecEncoder) (actual_k : Z)
  : option (FecEncoder * list FecRepairData) :=
  let len := fe_padded_len e in
  let sources := map (fun s => resize_bytes s len) (fe_sources e) in
  match emit_loop (fe_group_id e) actual_k (fe_r e) sources len (seqZ 0 (fe_r e)) with
  | None => None
  | Some repairs =>
      Some (mkFecEncoder (wrapping_add 32 (fe_group_id e) 1) (fe_k e) (fe_r e) [] 0 0, repairs)
  end.

Definition FecEncoder_push_source (e : FecEncoder) (payload : list byte)
  : option (FecEncoder * option (list FecRepairData)) :=
  let e1 := mkFecEncoder (fe_group_id e) (fe_k e) (fe_r e) (fe_sources e ++ [payload])
              (Nat.max (fe_padded_len e) (length payload)) (wrapping_add 8 (fe_source_idx e) 1) in
  if Z.of_nat (length (fe_sources e1)) =? fe_k e1 then
    match FecEncoder_emit_repairs e1 (fe_k e1) with
    | None => None
    | Some (e2, reps) => Some (e2, Some reps)
    end
  else Some (e1, None).

Definition FecEncoder_flush (e : FecEncoder) : option (FecEncoder * option (list FecRepairData)) :=
  match fe_sources e with
  | [] => Some (e, None)
  | _ =>
      let actual_k := wrap 8 (Z.of_nat (length (fe_sources e))) in
      match FecEncoder_emit_repairs e actual_k with
      | None => None
      | Some (e2, reps) => Some (e2, Some reps)
      end
  end.

(** ** Decoder *)

Record GroupState : Type := mkGroupState {
  gs_k : Z;
  gs_r : Z;
  gs_padded_len : nat;
  gs_sources : gmap Z (list byte);
  gs_repairs : gmap Z (list byte);
  gs_recovered : bool
}.

Definition GroupState_new (k r : Z) (padded_len : nat) : GroupState :=
  mkGroupState k r padded_len ∅ ∅ false.

Definition contains_key {A} (m : gmap Z A) (i : Z) : bool := bool_decide (is_Some (m !! i)).

(** The keys of a [HashMap<u8, _>], collected and sorted. *)
Definition sorted_keys {A} (m : gmap Z A) : list Z := List.filter (contains_key m) (seqZ 0 256).

Inductive BuildOut : Type :=
  | BPanic
  | BReject                              (* a Cauchy denominator is zero: [?] returns None *)
  | BRows (mat rhs : list (list byte)).

(** The Cauchy row of repair [ri]. *)
Definition cauchy_row (ri k r : Z) : option (list byte) := mapM (fun j => cauchy ri j r) (seqZ 0 k).

(** [let mut row = vec![0u8; k]; row[col] = 1]. *)
Definition unit_row (col k : Z) : list byte := <[Z.to_nat col := x01]> (replicate (Z.to_nat k) x00).

(** The loop [for col in 0..self.k] that gathers one row per column. *)
Fixpoint build_rows (g : GroupState) (cols : list Z) (reps : list Z) : BuildOut :=
  match cols with
  | [] => BRows [] []
  | col :: rest =>
      let next row d reps' :=
        match build_rows g rest reps' with
        | BRows mat rhs => BRows (row :: mat) (d :: rhs)
        | out => out
        end in
      match gs_sources g !! col with
      | Some d => next (unit_row col (gs_k g)) d reps
      | None =>
          match reps with
          | [] => BPanic
          | ri :: reps' =>
              match cauchy_row ri (gs_k g) (gs_r g) with
              | None => BReject
              | Some row =>
                  match gs_repairs g !! ri with
                  | None => BPanic
                  | Some d => next row d reps'
                  end
              end
          end
      end
  end.

Definition set_recovered (g : GroupState) : GroupState :=
  mkGroupState (gs_k g) (gs_r g) (gs_padded_len g) (gs_sources g) (gs_repairs g) true.

Definition missing_sources (g : GroupState) : list Z :=
  List.filter (fun i => negb (contains_key (gs_sources g) i)) (seqZ 0 (gs_k g)).

Definition GroupState_try_recover (g : GroupState)
  : option (GroupState * option (list (Z * list byte))) :=
  if gs_recovered g then Some (g, None)
  else
    let have_src := wrap 8 (Z.of_nat (size (gs_sources g))) in
    let have_rep := wrap 8 (Z.of_nat (size (gs_repairs g))) in
    if have_src =? gs_k g then Some (set_recovered g, Some [])
    else if wrapping_add 8 have_src have_rep <? gs_k g then Some (g, None)
    else
      let missing := missing_sources g in
      let n_missing := length missing in
      if have_rep <? wrap 8 (Z.of_nat n_missing) then Some (g, None)
      else
        let avail_rep := take n_missing (sorted_keys (gs_repairs g)) in
        match build_rows g (seqZ 0 (gs_k g)) avail_rep with
        | BPanic => None
        | BReject => Some (g, None)
        | BRows mat rhs =>
            match gauss_rhs mat rhs (Z.to_nat (gs_k g)) with
            | GPanic => None
            | GSingular => Some (g, None)
            | GDone _ rhs' =>
                Some (set_recovered g,
                      Some (map (fun mi => (mi, row rhs' (Z.to_nat mi))) missing))
            end
        end.

Definition FecDecoder : Type := gmap Z GroupState.
Definition FecDecoder_new : FecDecoder := ∅.

(** [group.padded_len = max(..)], then the symbol resized to it and inserted. *)
Definition store_source (g : GroupState) (source_idx : Z) (data : list byte) : GroupState :=
  let pl := Nat.max (gs_padded_len g) (length data) in
  mkGroupState (gs_k g) (gs_r g) pl (<[source_idx := resize_bytes data pl]> (gs_sources g))
    (gs_repairs g) (gs_recovered g).

Definition store_repair (g : GroupState) (repair : FecRepairData) : GroupState :=
  let pl := Nat.max (gs_padded_len g) (Z.to_nat (fr_padded_len repair)) in
  mkGroupState (gs_k g) (gs_r g) pl (gs_sources g)
    (<[fr_repair_idx repair := resize_bytes (fr_data repair) pl]> (gs_repairs g)) (gs_recovered g).

Definition FecDecoder_add_source (d : FecDecoder) (group_id source_idx k r : Z) (data : list byte)
  : option (FecDecoder * option (list (Z * list byte))) :=
  let g := default (GroupState_new k r (length data)) (d !! group_id) in
  match GroupState_try_recover (store_source g source_idx data) with
  | None => None
  | Some (g', out) => Some (<[group_id := g']> d, out)
  end.

Definition FecDecoder_add_repair (d : FecDecoder) (repair : FecRepairData)
  : option (FecDecoder * option (list (Z * list byte))) :=
  let g := default (GroupState_new (fr_k repair) (fr_r repair) (Z.to_nat (fr_padded_len repair)))
             (d !! fr_group_id repair) in
  match GroupState_try_recover (store_repair g repair) with
  | None => None
  | Some (g', out) => Some (<[fr_group_id repair := g']> d, out)
  end.

Definition FecDecoder_cleanup_group (d : FecDecoder) (group_id : Z) : FecDecoder := delete group_id d.

Definition parse_source_envelope (buf : list byte) : option (Z * Z * Z * Z * list byte) :=
  if (length buf <? FEC_SOURCE_HDR)%nat then None
  else Some (from_le (slice buf 0 4), byte_val (at_ buf 4), byte_val (at_ buf 5),
             byte_val (at_ buf 6), drop FEC_SOURCE_HDR buf).

(** ** The code: symbols of an honest group *)

#[local] Infix "+f" := gf_add (at level 50, left associativity).
#[local] Infix "*f" := gf_mul (at level 40, left associativity).

Lemma byte_of_lxor a b : is_u8 a -> is_u8 b -> byte_of (Z.lxor a b) = byte_of a +f byte_of b.
Proof.
  intros Ha Hb. apply byte_val_inj. unfold gf_add. rewrite byte_val_xor, !byte_of_small; try done.
  by apply (lxor_bound 8).
Qed.

Lemma byte_of_inj a b : is_u8 a -> is_u8 b -> byte_of a = byte_of b -> a = b.
Proof.
  intros Ha Hb H. apply (f_equal byte_val) in H. by rewrite !byte_of_small in H.
Qed.

Lemma at_map_seq (f : nat -> byte) n p : (p < n)%nat -> at_ (map f (seq 0 n)) p = f p.
Proof.
  intros Hp. unfold at_. rewrite nth_lookup. change (map f (seq 0 n)) with (f <$> seq 0 n).
  by rewrite list_lookup_fmap, lookup_seq_lt.
Qed.

Lemma at_replicate n p : at_ (replicate n x00) p = x00.
Proof. unfold at_. revert p. induction n as [|n IH]; intros [|p]; simpl; auto. Qed.

Lemma bytes_ext (a b : list byte) :
  length a = length b -> (forall p, (p < length a)%nat -> at_ a p = at_ b p) -> a = b.
Proof.
  intros Hl H. apply (nth_ext _ _ x00 x00); [done|exact H].
Qed.

Lemma contains_key_lookup {A} (m : gmap Z A) i :
  contains_key m i = match m !! i with Some _ => true | None => false end.
Proof.
  unfold contains_key. destruct (m !! i) eqn:E.
  - by rewrite bool_decide_true by eauto.
  - rewrite bool_decide_false; [done|]. by intros [? ?].
Qed.

(** The keys of a map, sorted, are its keys without repetition. *)
Lemma filter_keys_size {A} (m : gmap Z A) (lo n : Z) :
  (forall i, is_Some (m !! i) -> lo <= i < lo + n) ->
  length (List.filter (contains_key m) (seqZ lo n)) = size m.
Proof.
  intros H. rewrite <- size_dom. 
  assert (dom m = list_to_set (List.filter (contains_key m) (seqZ lo n))) as ->.
  { apply set_eq. intros i. rewrite elem_of_dom, elem_of_list_to_set, list_elem_of_In, filter_In.
    rewrite <- list_elem_of_In, elem_of_seqZ. unfold contains_key. rewrite bool_decide_eq_true.
    split; [|tauto]. intros Hi. split; [|done]. by apply H. }
  rewrite size_list_to_set; [done|]. apply NoDup_ListNoDup, List.NoDup_filter, NoDup_ListNoDup, NoDup_seqZ.
Qed.

Lemma filter_seqZ_NoDup P lo n : NoDup (List.filter P (seqZ lo n)).
Proof. apply NoDup_ListNoDup, List.NoDup_filter, NoDup_ListNoDup, NoDup_seqZ. Qed.

Lemma filter_seqZ_In P lo n i : In i (List.filter P (seqZ lo n)) <-> lo <= i < lo + n /\ P i = true.
Proof. by rewrite filter_In, <- list_elem_of_In, elem_of_seqZ. Qed.

Lemma sorted_keys_In {A} (m : gmap Z A) i : In i (sorted_keys m) -> is_Some (m !! i).
Proof.
  unfold sorted_keys. rewrite filter_seqZ_In, contains_key_lookup. intros [_ H].
  destruct (m !! i); [eauto|done].
Qed.

Lemma sorted_keys_NoDup {A} (m : gmap Z A) : NoDup (sorted_keys m).
Proof. unfold sorted_keys. apply filter_seqZ_NoDup. Qed.

Lemma filter_length_split {A} (P : A -> bool) l :
  (length (List.filter P l) + length (List.filter (fun x => negb (P x)) l) = length l)%nat.
Proof. induction l as [|x l IH]; simpl; [done|]. destruct (P x); simpl; lia. Qed.

Section Group.
Context (k r : Z) (Hk : 0 < k) (Hk8 : k <= 255) (Hr : 0 <= r) (Hkr : k + r <= 256).
Context (n : nat) (D : nat -> nat -> byte).

Let kn : nat := Z.to_nat k.

Definition crow (i : Z) (j : nat) : byte := finv (byte_of i +f byte_of (r + Z.of_nat j)).
Definition src_sym (i : Z) : list byte := map (D (Z.to_nat i)) (seq 0 n).
Definition rep_sym (i : Z) : list byte :=
  map (fun p => fsum kn (fun j => crow i j *f D j p)) (seq 0 n).

Lemma crow_denom i j : 0 <= i < r -> 0 <= j < k -> byte_of i +f byte_of (r + j) <> x00.
Proof.
  intros Hi Hj E. apply (proj1 (gf_add_eq_0 _ _)) in E.
  apply byte_of_inj in E; unfold is_u; lia.
Qed.

Lemma cauchy_crow i j : 0 <= i < r -> 0 <= j < k -> cauchy i j r = Some (crow i (Z.to_nat j)).
Proof.
  intros Hi Hj. unfold cauchy, crow, wrapping_add. rewrite wrap_small by (unfold is_u; lia).
  rewrite byte_of_lxor, Z2Nat.id by (unfold is_u; lia).
  apply gf_inv_Some, crow_denom; lia.
Qed.

Lemma cauchy_row_crow i : 0 <= i < r -> cauchy_row i k r = Some (map (crow i) (seq 0 kn)).
Proof.
  intros Hi. unfold cauchy_row. apply mapM_Some_2. apply Forall2_same_length_lookup_2.
  { rewrite length_seqZ, length_map, length_seq. done. }
  intros p j c Hj Hc. apply lookup_seqZ in Hj as [-> Hp].
  rewrite (list_lookup_fmap (crow i)), lookup_seq_lt in Hc by (unfold kn; lia).
  injection Hc as <-. rewrite cauchy_crow by lia. do 2 f_equal. lia.
Qed.

(** *** Encoding *)

Lemma repair_symbol_acc sources i : 0 <= i < r ->
  (forall j, 0 <= j < k -> sources !! Z.to_nat j = Some (src_sym j)) ->
  forall js sym, (forall j, In j js -> 0 <= j < k) -> length sym = n ->
  exists sym', repair_symbol sources i r js sym = Some sym' /\ length sym' = n /\
    forall p, (p < n)%nat -> at_ sym' p =
      at_ sym p +f fsum_l (fun j => crow i (Z.to_nat j) *f D (Z.to_nat j) p) js.
Proof.
  intros Hi Hs. induction js as [|j js IH]; intros sym Hjs Hl; cbn [repair_symbol].
  - exists sym. split_and!; [done|done|]. intros p _. symmetry. apply gf_add_0_r.
  - assert (0 <= j < k) as Hj by (apply Hjs; by left).
    rewrite cauchy_crow, Hs by done.
    assert (length (src_sym j) = n) as Hlj. { unfold src_sym. by rewrite length_map, length_seq. }
    destruct (mul_add_slice_acc sym (src_sym j) (crow i (Z.to_nat j))) as (s1 & -> & Hl1 & H1); [lia|].
    destruct (IH s1) as (s2 & -> & Hl2 & H2); [intros; apply Hjs; by right|lia|].
    exists s2. split_and!; [done|done|]. intros p Hp. rewrite H2, H1 by lia.
    unfold src_sym. rewrite at_map_seq by done. unfold fsum_l. simpl. ring.
Qed.

Lemma fsum_l_seqZ f m : 0 <= m ->
  fsum_l (fun j => f (Z.to_nat j)) (seqZ 0 m) = fsum (Z.to_nat m) f.
Proof.
  intros Hm. unfold fsum, fsum_l, seqZ. f_equal.
  change (map (fun j => f (Z.to_nat j)) ((fun i : nat => Z.of_nat i + 0) <$> seq 0 (Z.to_nat m)))
    with ((fun j => f (Z.to_nat j)) <$> ((fun i : nat => Z.of_nat i + 0) <$> seq 0 (Z.to_nat m))).
  rewrite <- list_fmap_compose. apply list_fmap_ext. intros p x _. simpl. f_equal. lia.
Qed.

Lemma repair_symbol_spec sources i : 0 <= i < r ->
  (forall j, 0 <= j < k -> sources !! Z.to_nat j = Some (src_sym j)) ->
  repair_symbol sources i r (seqZ 0 k) (replicate n x00) = Some (rep_sym i).
Proof.
  intros Hi Hs. destruct (repair_symbol_acc sources i Hi Hs (seqZ 0 k) (replicate n x00))
    as (s & -> & Hl & Hp).
  { intros j Hj. rewrite <- list_elem_of_In, elem_of_seqZ in Hj. lia. } { apply length_replicate. }
  f_equal. apply bytes_ext; [unfold rep_sym; by rewrite length_map, length_seq|].
  intros p Hlt. rewrite Hp by lia. unfold rep_sym. rewrite at_map_seq by lia.
  rewrite (fsum_l_seqZ (fun j => crow i j *f D j p)) by lia.
  rewrite at_replicate. apply gf_add_0_l.
Qed.

Lemma emit_loop_spec gid sources is_ :
  (forall i, In i is_ -> 0 <= i < r) ->
  (forall j, 0 <= j < k -> sources !! Z.to_nat j = Some (src_sym j)) ->
  emit_loop gid k r sources n is_ =
    Some (map (fun i => mkFecRepairData gid i k r (wrap 16 (Z.of_nat n)) (rep_sym i)) is_).
Proof.
  intros Hi Hs. induction is_ as [|i is_ IH]; cbn [emit_loop]; [done|].
  rewrite repair_symbol_spec by (done || apply Hi; by left).
  rewrite IH by (intros; apply Hi; by right). done.
Qed.

(** *** Recovery *)

Record honest (g : GroupState) : Prop := {
  ho_k : gs_k g = k;
  ho_r : gs_r g = r;
  ho_src : forall i d, gs_sources g !! i = Some d -> 0 <= i < k /\ d = src_sym i;
  ho_rep : forall i d, gs_repairs g !! i = Some d -> 0 <= i < r /\ d = rep_sym i
}.

Lemma get_unit_row m i c j : row m i = unit_row c k -> 0 <= c < k ->
  get m i j = if (j =? Z.to_nat c)%nat then x01 else x00.
Proof.
  intros Hrow Hc. unfold get, at_. rewrite Hrow. unfold unit_row. rewrite nth_lookup.
  destruct (j =? Z.to_nat c)%nat eqn:E; cmp_facts.
  - subst. rewrite list_lookup_insert_eq; [done|]. rewrite length_replicate. lia.
  - rewrite list_lookup_insert_ne by lia. destruct (_ !! j) eqn:E2; [|done].
    apply lookup_replicate in E2 as [-> _]. done.
Qed.

Lemma dot_unit_row m i c x : row m i = unit_row c k -> 0 <= c < k -> dot kn m i x = x (Z.to_nat c).
Proof.
  intros Hrow Hc. unfold dot.
  rewrite (fsum_ext kn _ (fun j => if (j =? Z.to_nat c)%nat then x (Z.to_nat c) else x00)).
  { apply fsum_single. unfold kn. lia. }
  intros j Hj. rewrite (get_unit_row m i c j Hrow Hc).
  destruct (j =? Z.to_nat c)%nat eqn:E; cmp_facts; [subst; apply gf_mul_1_l|done].
Qed.

Lemma dot_cauchy_row m i ri x : row m i = map (crow ri) (seq 0 kn) ->
  dot kn m i x = fsum kn (fun j => crow ri j *f x j).
Proof.
  intros Hrow. unfold dot. apply fsum_ext. intros j Hj. unfold get. by rewrite Hrow, at_map_seq.
Qed.

(** One matrix row with its right-hand side: a unit row for a received source
    or the Cauchy row of a received repair. *)
Inductive good_row (g : GroupState) (col : Z) : list byte -> list byte -> Prop :=
  | good_src d : gs_sources g !! col = Some d -> good_row g col (unit_row col k) (src_sym col)
  | good_rep ri : gs_sources g !! col = None -> 0 <= ri < r ->
      good_row g col (map (crow ri) (seq 0 kn)) (rep_sym ri).

Lemma build_rows_spec g : honest g -> forall cols reps,
  length (List.filter (fun c => negb (contains_key (gs_sources g) c)) cols) = length reps ->
  (forall ri, In ri reps -> is_Some (gs_repairs g !! ri)) ->
  exists mat rhs, build_rows g cols reps = BRows mat rhs /\
    length mat = length cols /\ length rhs = length cols /\
    (forall p c, cols !! p = Some c -> good_row g c (row mat p) (row rhs p)) /\
    (forall ri, In ri reps -> exists p, (p < length cols)%nat /\ row mat p = map (crow ri) (seq 0 kn)).
Proof.
  intros Hg. induction cols as [|c cols IH]; intros reps Hlen Hreps; cbn [build_rows].
  { exists [], []. destruct reps; [|done]. split_and!; try done. }
  cbn [List.filter] in Hlen. rewrite contains_key_lookup in Hlen.
  destruct (gs_sources g !! c) as [d|] eqn:Ec; cbn [negb] in Hlen.
  - destruct (IH reps Hlen Hreps) as (mat & rhs & -> & Lm & Lr & Hrow & Hrep).
    rewrite (ho_k g Hg). exists (unit_row c k :: mat), (d :: rhs).
    destruct (ho_src g Hg c d Ec) as [_ ->].
    split_and!; [done|simpl; lia|simpl; lia| |].
    + intros [|p] c' Hp; simpl in Hp; [injection Hp as <-; by econstructor|by apply Hrow].
    + intros ri Hri. destruct (Hrep ri Hri) as (p & Hp & E). exists (S p). split; [simpl; lia|done].
  - destruct reps as [|ri reps]; [done|]. cbn [length] in Hlen.
    destruct (Hreps ri ltac:(by left)) as [d Hd]. destruct (ho_rep g Hg ri d Hd) as [Hri ->].
    rewrite (ho_k g Hg), (ho_r g Hg), cauchy_row_crow, Hd by done.
    destruct (IH reps) as (mat & rhs & -> & Lm & Lr & Hrow & Hrep); [lia|intros; apply Hreps; by right|].
    exists (map (crow ri) (seq 0 kn) :: mat), (rep_sym ri :: rhs).
    split_and!; [done|simpl; lia|simpl; lia| |].
    + intros [|p] c' Hp; simpl in Hp; [injection Hp as <-; by constructor|by apply Hrow].
    + intros ri' [<-|Hri']; [exists 0%nat; split; [simpl; lia|done]|].
      destruct (Hrep ri' Hri') as (p & Hp & E). exists (S p). split; [simpl; lia|done].
Qed.

Lemma rows_nonsingular g mat reps :
  honest g -> NoDup reps -> (forall ri, In ri reps -> 0 <= ri < r) ->
  length (missing_sources g) = length reps ->
  (forall c d, gs_sources g !! c = Some d -> row mat (Z.to_nat c) = unit_row c k) ->
  (forall ri, In ri reps -> exists p, (p < kn)%nat /\ row mat p = map (crow ri) (seq 0 kn)) ->
  nonsingular kn mat.
Proof.
  intros Hg Hnd Hri Hlen Hsrc Hrep x Hx.
  assert (forall c d, gs_sources g !! c = Some d -> x (Z.to_nat c) = x00) as Hpres.
  { intros c d Hd. destruct (ho_src g Hg c d Hd) as [Hc _].
    rewrite <- (dot_unit_row mat _ c x (Hsrc c d Hd) Hc). apply Hx. unfold kn. lia. }
  assert (forall c, In c (missing_sources g) -> 0 <= c < k) as Hmis.
  { intros c Hc. apply filter_In in Hc as [Hc _]. rewrite <- list_elem_of_In, elem_of_seqZ in Hc.
    rewrite (ho_k g Hg) in Hc. lia. }
  set (bs := map (fun c => (byte_of (r + c), x (Z.to_nat c))) (missing_sources g)).
  assert (map fst bs = map (fun c => byte_of (r + c)) (missing_sources g)) as Hfst.
  { unfold bs. by rewrite map_map. }
  assert (forall b y, In (b, y) bs -> y = x00) as Hz.
  { apply (cauchy_nonsingular bs (map byte_of reps)).
    - apply NoDup_ListNoDup, NoDup_map_NoDup_ForallPairs; [|by apply NoDup_ListNoDup].
      intros a b Ha Hb E. apply byte_of_inj in E; [done| |]; unfold is_u;
        [pose proof (Hri a Ha)|pose proof (Hri b Hb)]; lia.
    - rewrite Hfst. apply NoDup_ListNoDup, NoDup_map_NoDup_ForallPairs.
      + intros a b Ha Hb E. apply Hmis in Ha, Hb. apply byte_of_inj in E; unfold is_u; lia.
      + apply List.NoDup_filter, NoDup_ListNoDup, NoDup_seqZ.
    - unfold bs. rewrite !length_map. lia.
    - rewrite Hfst. intros a b Ha Hb ->. apply in_map_iff in Ha as (ri & E & Ha).
      apply in_map_iff in Hb as (c & E' & Hb). apply Hri in Ha. apply Hmis in Hb.
      rewrite <- E' in E. apply byte_of_inj in E; unfold is_u; lia.
    - intros a Ha. apply in_map_iff in Ha as (ri & <- & Ha).
      destruct (Hrep ri Ha) as (p & Hp & Erow). pose proof (Hx p Hp) as H0.
      rewrite (dot_cauchy_row mat p ri x Erow) in H0. rewrite <- H0.
      unfold kn. rewrite <- (fsum_l_seqZ (fun j => crow ri j *f x j)) by lia.
      rewrite (fsum_l_filter _ (fun c => negb (contains_key (gs_sources g) c)) (seqZ 0 k)).
      2: { intros c _ Hc. rewrite contains_key_lookup in Hc.
           destruct (gs_sources g !! c) eqn:E; [|done]. rewrite (Hpres c _ E). apply gf_mul_0_r. }
      unfold cauchy_sum, bs, missing_sources. rewrite (ho_k g Hg). unfold fsum_l.
      rewrite map_map. f_equal. apply map_ext_in. intros c Hc. simpl. rewrite gf_mul_comm.
      unfold crow. do 4 f_equal. apply filter_In in Hc as [Hc _].
      rewrite <- list_elem_of_In, elem_of_seqZ in Hc. lia. }
  intros j Hj. destruct (gs_sources g !! Z.of_nat j) as [d|] eqn:E.
  { rewrite <- (Nat2Z.id j). by apply (Hpres _ d). }
  apply (Hz (byte_of (r + Z.of_nat j))). unfold bs. apply in_map_iff. exists (Z.of_nat j).
  rewrite Nat2Z.id. split; [done|]. apply filter_In. split.
  - apply list_elem_of_In, elem_of_seqZ. rewrite (ho_k g Hg). unfold kn in Hj. lia.
  - by rewrite contains_key_lookup, E.
Qed.

Lemma length_src_sym i : length (src_sym i) = n.
Proof. unfold src_sym. by rewrite length_map, length_seq. Qed.

Lemma length_rep_sym i : length (rep_sym i) = n.
Proof. unfold rep_sym. by rewrite length_map, length_seq. Qed.

Lemma length_unit_row c : length (unit_row c k) = kn.
Proof. unfold unit_row. by rewrite length_insert, length_replicate. Qed.

(** The gathered rows form the system whose solution is the group's data. *)
Lemma rows_solve g mat rhs :
  length mat = kn -> length rhs = kn ->
  (forall c, 0 <= c < k -> good_row g c (row mat (Z.to_nat c)) (row rhs (Z.to_nat c))) ->
  shape mat kn kn /\ shape rhs kn n /\ solves kn n D mat rhs.
Proof.
  intros Lm Lr H.
  assert (forall i, (i < kn)%nat -> good_row g (Z.of_nat i) (row mat i) (row rhs i)) as Hi.
  { intros i Hi. specialize (H (Z.of_nat i)). rewrite Nat2Z.id in H. apply H. unfold kn in Hi. lia. }
  split_and!.
  - split; [done|]. intros i Hlt. destruct (Hi i Hlt).
    + apply length_unit_row. + by rewrite length_map, length_seq.
  - split; [done|]. intros i Hlt. destruct (Hi i Hlt).
    + apply length_src_sym. + apply length_rep_sym.
  - intros i p Hlt Hp. specialize (Hi i Hlt).
    inversion Hi as [d Hd Em Er|ri Hn Hri Em Er]; unfold get at 1; rewrite <- Er.
    + rewrite (dot_unit_row mat i (Z.of_nat i)) by (done || unfold kn in Hlt; lia).
      unfold src_sym. by rewrite at_map_seq, Nat2Z.id.
    + rewrite (dot_cauchy_row mat i ri) by done. unfold rep_sym. by rewrite at_map_seq.
Qed.

Lemma honest_counts g : honest g ->
  (length (missing_sources g) + size (gs_sources g) = kn)%nat /\
  length (sorted_keys (gs_repairs g)) = size (gs_repairs g).
Proof.
  intros Hg. split.
  - unfold missing_sources. rewrite (ho_k g Hg).
    pose proof (filter_length_split (contains_key (gs_sources g)) (seqZ 0 k)) as H.
    rewrite filter_keys_size, length_seqZ in H; [unfold kn; lia|].
    intros i [d Hd]. apply (ho_src g Hg) in Hd. lia.
  - apply filter_keys_size. intros i [d Hd]. apply (ho_rep g Hg) in Hd. lia.
Qed.

Lemma u8_small z : 0 <= z <= 255 -> wrap 8 z = z.
Proof. intros H. apply wrap_small. unfold is_u. lia. Qed.

Lemma try_recover_waits g : honest g -> gs_recovered g = false ->
  (size (gs_sources g) + size (gs_repairs g) < kn)%nat ->
  GroupState_try_recover g = Some (g, None).
Proof.
  intros Hg Hrec Hsz. unfold GroupState_try_recover, wrapping_add. rewrite Hrec, (ho_k g Hg).
  rewrite (u8_small (Z.of_nat (size (gs_sources g)))), (u8_small (Z.of_nat (size (gs_repairs g)))),
    u8_small by (unfold kn in Hsz; lia).
  destruct (_ =? k) eqn:E; cmp_facts; [unfold kn in Hsz; lia|].
  destruct (_ <? k) eqn:E2; cmp_facts; [done|unfold kn in Hsz; lia].
Qed.

(** Building and solving the system of a group with exactly enough symbols. *)
Lemma solve_group g : honest g ->
  (size (gs_sources g) + size (gs_repairs g) = kn)%nat ->
  exists mat rhs mat' rhs',
    build_rows g (seqZ 0 k) (sorted_keys (gs_repairs g)) = BRows mat rhs /\
    gauss_rhs mat rhs kn = GDone mat' rhs' /\
    forall c, 0 <= c < k -> row rhs' (Z.to_nat c) = src_sym c.
Proof.
  intros Hg Hsz. destruct (honest_counts g Hg) as [Hmis Hreps].
  pose proof (sorted_keys_In (gs_repairs g)) as Hin. pose proof (sorted_keys_NoDup (gs_repairs g)) as Hnd.
  set (reps := sorted_keys (gs_repairs g)) in *. clearbody reps.
  destruct (build_rows_spec g Hg (seqZ 0 k) reps)
    as (mat & rhs & Eb & Lm & Lr & Hrow & Hrep); [|exact Hin|].
  { unfold missing_sources in Hmis. rewrite (ho_k g Hg) in Hmis. lia. }
  rewrite length_seqZ in Lm, Lr, Hrep.
  assert (forall c, 0 <= c < k -> good_row g c (row mat (Z.to_nat c)) (row rhs (Z.to_nat c))) as Hgood.
  { intros c Hc. apply Hrow, lookup_seqZ. lia. }
  destruct (rows_solve g mat rhs Lm Lr Hgood) as (Sm & Sr & Hs).
  assert (nonsingular kn mat) as Hns.
  { apply (rows_nonsingular g mat reps); [done|done| | | |exact Hrep].
    - intros ri Hri. destruct (Hin ri Hri) as [d Hd]. exact (proj1 (ho_rep g Hg _ _ Hd)).
    - lia.
    - intros c d Hd. destruct (ho_src g Hg c d Hd) as [Hc _].
      pose proof (Hgood c Hc) as Hg'. inversion Hg' as [? ? Em|ri Hn]; [done|congruence]. }
  destruct (gauss_rhs_ok kn n D mat rhs Sm Sr Hs Hns) as (m' & r' & Eg & Sr' & Hr').
  exists mat, rhs, m', r'. split_and!; [done|done|]. intros c Hc.
  assert (Z.to_nat c < kn)%nat as Hck by (unfold kn; lia).
  apply bytes_ext; [rewrite length_src_sym; by apply Sr'|].
  intros p Hp. rewrite (proj2 Sr' _ Hck) in Hp. unfold src_sym. rewrite at_map_seq by done. by apply Hr'.
Qed.

Lemma try_recover_exact g : honest g -> gs_recovered g = false ->
  (size (gs_sources g) + size (gs_repairs g) = kn)%nat ->
  GroupState_try_recover g =
    Some (set_recovered g, Some (map (fun i => (i, src_sym i)) (missing_sources g))).
Proof.
  intros Hg Hrec Hsz. destruct (honest_counts g Hg) as [Hmis Hreps].
  destruct (solve_group g Hg Hsz) as (mat & rhs & m' & r' & Eb & Eg & Hr').
  unfold kn in *. unfold GroupState_try_recover, wrapping_add. rewrite Hrec, (ho_k g Hg).
  rewrite (u8_small (Z.of_nat (size (gs_sources g)))), (u8_small (Z.of_nat (size (gs_repairs g)))),
    u8_small, (u8_small (Z.of_nat (length _))) by lia.
  destruct (_ =? k) eqn:E; cmp_facts.
  { assert (missing_sources g = []) as -> by (apply length_zero_iff_nil; lia). done. }
  destruct (_ <? k) eqn:E2; cmp_facts; [lia|].
  destruct (_ <? _) eqn:E3; cmp_facts; [lia|].
  rewrite take_ge by lia. rewrite Eb, Eg. do 3 f_equal. apply map_ext_in. intros c Hc.
  unfold missing_sources in Hc. apply filter_seqZ_In in Hc as [Hc _]. rewrite (ho_k g Hg) in Hc.
  rewrite Hr' by lia. done.
Qed.
End Group.

(** ** Whole groups: encoding k payloads and delivering any k symbols *)

Fixpoint FecEncoder_run (e : FecEncoder) (ps : list (list byte))
  : option (FecEncoder * list (option (list FecRepairData))) :=
  match ps with
  | [] => Some (e, [])
  | p :: rest =>
      match FecEncoder_push_source e p with
      | None => None
      | Some (e', o) =>
          match FecEncoder_run e' rest with
          | None => None
          | Some (e'', os) => Some (e'', o :: os)
          end
      end
  end.

(** A symbol of the group that reaches the receiver. *)
Inductive Arrival : Type := ASource (i : Z) | ARepair (i : Z).

#[export] Instance Arrival_eq_dec : EqDecision Arrival.
Proof. solve_decision. Defined.

Definition arrival_valid (k r : Z) (a : Arrival) : Prop :=
  match a with ASource i => 0 <= i < k | ARepair i => 0 <= i < r end.

Definition received (arr : list Arrival) (i : Z) : bool := bool_decide (ASource i ∈ arr).

Definition payload (ps : list (list byte)) (i : Z) : list byte := nth (Z.to_nat i) ps [].
Definition max_len (ps : list (list byte)) : nat := list_max (map length ps).

Definition deliver (gid k r : Z) (ps : list (list byte)) (reps : list FecRepairData)
  (d : FecDecoder) (a : Arrival) : option (FecDecoder * option (list (Z * list byte))) :=
  match a with
  | ASource i => FecDecoder_add_source d gid i k r (payload ps i)
  | ARepair i => match reps !! Z.to_nat i with
                 | Some rp => FecDecoder_add_repair d rp
                 | None => None
                 end
  end.

Fixpoint FecDecoder_run (gid k r : Z) (ps : list (list byte)) (reps : list FecRepairData)
  (d : FecDecoder) (arr : list Arrival) : option (FecDecoder * list (option (list (Z * list byte)))) :=
  match arr with
  | [] => Some (d, [])
  | a :: rest =>
      match deliver gid k r ps reps d a with
      | None => None
      | Some (d', o) =>
          match FecDecoder_run gid k r ps reps d' rest with
          | None => None
          | Some (d'', os) => Some (d'', o :: os)
          end
      end
  end.

(** The symbol that fixes the group's padded length is not shorter than the rest. *)
Definition full_length (ps : list (list byte)) (a : Arrival) : Prop :=
  match a with ASource i => length (payload ps i) = max_len ps | ARepair _ => True end.

Lemma max_len_ge ps i : (length (payload ps i) <= max_len ps)%nat.
Proof.
  unfold payload, max_len. generalize (Z.to_nat i). clear i.
  induction ps as [|p ps IH]; intros [|m]; simpl; try lia. specialize (IH m). lia.
Qed.

Lemma max_len_snoc ps p : max_len (ps ++ [p]) = Nat.max (max_len ps) (length p).
Proof. unfold max_len. rewrite map_app, list_max_app. simpl. lia. Qed.

Section Roundtrip.
Context (gid k r : Z) (Hk : 0 < k) (Hk8 : k <= 255) (Hr : 0 <= r) (Hkr : k + r <= 256).
Context (ps : list (list byte)) (Hps : length ps = Z.to_nat k) (Hlen : Z.of_nat (max_len ps) < 65536).

Let n : nat := max_len ps.
Let D (j p : nat) : byte := at_ (nth j ps []) p.

Lemma src_sym_payload i : src_sym n D i = resize_bytes (payload ps i) n.
Proof.
  pose proof (max_len_ge ps i) as Hle. fold n in Hle.
  apply bytes_ext; [by rewrite length_src_sym, length_resize_bytes|].
  intros p Hp. rewrite length_src_sym in Hp. unfold src_sym. rewrite at_map_seq by done.
  rewrite resize_bytes_ge by done. unfold D, payload in *. unfold at_.
  destruct (decide (p < length (nth (Z.to_nat i) ps []))%nat).
  - by rewrite app_nth1.
  - rewrite app_nth2, nth_overflow by lia. symmetry. apply at_replicate.
Qed.

Definition group_repairs : list FecRepairData :=
  map (fun i => mkFecRepairData gid i k r (Z.of_nat n) (rep_sym k r n D i)) (seqZ 0 r).

Lemma push_last e p :
  fe_group_id e = gid -> fe_k e = k -> fe_r e = r -> fe_sources e ++ [p] = ps ->
  fe_padded_len e = max_len (fe_sources e) ->
  FecEncoder_push_source e p =
    Some (FecEncoder_new (wrapping_add 32 gid 1) k r, Some group_repairs).
Proof.
  intros Hg Hk' Hr' Hs Hl. unfold FecEncoder_push_source. simpl. rewrite Hg, Hk', Hr', Hs, Hl.
  rewrite Hps, Z2Nat.id, Z.eqb_refl by lia. unfold FecEncoder_emit_repairs. simpl.
  rewrite <- max_len_snoc, Hs. fold n.
  rewrite (emit_loop_spec k r Hk Hkr n D).
  - rewrite wrap_small by (unfold is_u; lia). done.
  - intros i Hi. rewrite <- list_elem_of_In, elem_of_seqZ in Hi. lia.
  - intros j Hj. rewrite src_sym_payload. unfold payload.
    change (map (fun s => resize_bytes s n) ps) with ((fun s => resize_bytes s n) <$> ps).
    rewrite list_lookup_fmap, (nth_lookup ps).
    destruct (lookup_lt_is_Some_2 ps (Z.to_nat j)) as [x ->]; [lia|done].
Qed.

Lemma encoder_run_from : forall rest e,
  fe_group_id e = gid -> fe_k e = k -> fe_r e = r -> fe_sources e ++ rest = ps ->
  fe_padded_len e = max_len (fe_sources e) -> rest <> [] ->
  FecEncoder_run e rest =
    Some (FecEncoder_new (wrapping_add 32 gid 1) k r,
          replicate (length rest - 1) None ++ [Some group_repairs]).
Proof.
  induction rest as [|p rest IH]; intros e Hg Hk' Hr' Hs Hl Hne; [done|]. cbn [FecEncoder_run].
  destruct rest as [|p' rest].
  - rewrite (push_last e p Hg Hk' Hr' Hs Hl). done.
  - assert (length (fe_sources e) + 2 + length rest = Z.to_nat k)%nat as Hcount.
    { rewrite <- Hps, <- Hs, length_app. simpl. lia. }
    unfold FecEncoder_push_source. cbn [fe_sources fe_k]. rewrite length_app, Hk'.
    cbn [length]. destruct (_ =? k) eqn:E; cmp_facts; [lia|].
    rewrite IH; [|done|done|done| | |done].
    + simpl. rewrite Nat.sub_0_r. done.
    + simpl. by rewrite <- app_assoc.
    + simpl. by rewrite Hl, max_len_snoc.
Qed.

Lemma encoder_run_group :
  FecEncoder_run (FecEncoder_new gid k r) ps =
    Some (FecEncoder_new (wrapping_add 32 gid 1) k r,
          replicate (Z.to_nat k - 1) None ++ [Some group_repairs]).
Proof.
  rewrite <- Hps. apply encoder_run_from; try done. intros E. rewrite E in Hps. simpl in Hps. lia.
Qed.

(** *** The decoder's group after the symbols [dn] *)

Record group_ok (g : GroupState) (dn : list Arrival) : Prop := {
  ok_k : gs_k g = k;
  ok_r : gs_r g = r;
  ok_len : gs_padded_len g = n;
  ok_rec : gs_recovered g = false;
  ok_src : forall i, gs_sources g !! i = if bool_decide (ASource i ∈ dn) then Some (src_sym n D i) else None;
  ok_rep : forall i, gs_repairs g !! i = if bool_decide (ARepair i ∈ dn) then Some (rep_sym k r n D i) else None;
  ok_size : (size (gs_sources g) + size (gs_repairs g) = length dn)%nat
}.

Definition store (g : GroupState) (a : Arrival) : GroupState :=
  match a with
  | ASource i => store_source g i (payload ps i)
  | ARepair i => store_repair g (mkFecRepairData gid i k r (Z.of_nat n) (rep_sym k r n D i))
  end.

Lemma group_ok_new : group_ok (GroupState_new k r n) [].
Proof. constructor; try done. Qed.

Lemma bool_decide_cons_ne (a b : Arrival) dn : a <> b ->
  bool_decide (a ∈ b :: dn) = bool_decide (a ∈ dn).
Proof. intros H. apply bool_decide_ext. rewrite elem_of_cons. tauto. Qed.

Lemma bool_decide_cons_eq (a : Arrival) dn : bool_decide (a ∈ a :: dn) = true.
Proof. apply bool_decide_true, elem_of_cons. by left. Qed.

Lemma group_ok_store g dn a : group_ok g dn -> a ∉ dn -> group_ok (store g a) (a :: dn).
Proof.
  intros [H1 H2 H3 H4 H5 H6 H7] Hnin. destruct a as [i|i]; cbn [store].
  - unfold store_source. pose proof (max_len_ge ps i) as Hle. fold n in Hle.
    rewrite H3, Nat.max_l by done. rewrite <- src_sym_payload. constructor; simpl; try done.
    + intros j. destruct (decide (i = j)) as [->|Hne].
      * by rewrite lookup_insert_eq, bool_decide_cons_eq.
      * rewrite lookup_insert_ne, H5, bool_decide_cons_ne by congruence. done.
    + intros j. by rewrite H6, bool_decide_cons_ne.
    + rewrite map_size_insert_None; [lia|]. by rewrite H5, bool_decide_false.
  - unfold store_repair. simpl fr_padded_len. rewrite Nat2Z.id, H3, Nat.max_id. simpl.
    assert (resize_bytes (rep_sym k r n D i) n = rep_sym k r n D i) as ->.
    { rewrite resize_bytes_ge by (by rewrite length_rep_sym).
      rewrite length_rep_sym, Nat.sub_diag. apply app_nil_r. }
    constructor; simpl; try done.
    + intros j. by rewrite H5, bool_decide_cons_ne.
    + intros j. destruct (decide (i = j)) as [->|Hne].
      * by rewrite lookup_insert_eq, bool_decide_cons_eq.
      * rewrite lookup_insert_ne, H6, bool_decide_cons_ne by congruence. done.
    + rewrite map_size_insert_None; [lia|]. by rewrite H6, bool_decide_false.
Qed.

Lemma group_ok_honest g dn : group_ok g dn -> Forall (arrival_valid k r) dn -> honest k r n D g.
Proof.
  intros [H1 H2 H3 H4 H5 H6 H7] Hv. rewrite Forall_forall in Hv. constructor; [done|done| |].
  - intros i d. rewrite H5. case_bool_decide as Hin; [|done]. intros [= <-]. by apply Hv in Hin.
  - intros i d. rewrite H6. case_bool_decide as Hin; [|done]. intros [= <-]. by apply Hv in Hin.
Qed.

Lemma missing_group g dn : group_ok g dn ->
  missing_sources g = List.filter (fun i => negb (received dn i)) (seqZ 0 k).
Proof.
  intros Hg. unfold missing_sources. rewrite (ok_k g dn Hg). apply filter_ext. intros i.
  rewrite contains_key_lookup, (ok_src g dn Hg). unfold received. by destruct (bool_decide _).
Qed.

(** The group a decoder holds before the next arrival. *)
Definition holds (d : FecDecoder) (g : GroupState) (a : Arrival) : Prop :=
  d !! gid = Some g \/ (d !! gid = None /\ g = GroupState_new k r n /\ full_length ps a).

Lemma deliver_store d g a : holds d g a -> arrival_valid k r a ->
  deliver gid k r ps group_repairs d a =
    match GroupState_try_recover (store g a) with
    | None => None
    | Some (g', out) => Some (<[gid := g']> d, out)
    end.
Proof.
  intros Hh Hv. destruct a as [i|i]; simpl in Hv; cbn [deliver].
  - unfold FecDecoder_add_source. destruct Hh as [->|(-> & -> & Hl)]; [done|].
    simpl in Hl. simpl default. rewrite Hl. fold n. done.
  - unfold group_repairs at 1.
    change (map ?f (seqZ 0 r)) with (f <$> seqZ 0 r).
    rewrite list_lookup_fmap, lookup_seqZ_lt by lia. cbn [fmap option_fmap option_map].
    rewrite Z.add_0_l, Z2Nat.id by lia. unfold FecDecoder_add_repair. cbn [fr_group_id fr_k fr_r fr_padded_len].
    destruct Hh as [->|(-> & -> & _)]; [done|]. simpl default. rewrite Nat2Z.id. done.
Qed.

Lemma decoder_run_from : forall arr d g dn,
  group_ok g dn -> (forall a, head arr = Some a -> holds d g a) ->
  NoDup (arr ++ dn) -> Forall (arrival_valid k r) (arr ++ dn) ->
  (length dn + length arr = Z.to_nat k)%nat -> arr <> [] ->
  exists d', FecDecoder_run gid k r ps group_repairs d arr =
    Some (d', replicate (length arr - 1) None ++
      [Some (map (fun i => (i, resize_bytes (payload ps i) n))
               (List.filter (fun i => negb (received (rev arr ++ dn) i)) (seqZ 0 k)))]).
Proof.
  induction arr as [|a arr IH]; intros d g dn Hg Hh Hnd Hv Hc Hne; [done|].
  cbn [FecDecoder_run]. simpl in Hnd, Hv. inversion_clear Hnd as [|? ? Hnin Hnd'].
  apply Forall_cons in Hv as [Hva Hv].
  rewrite (deliver_store d g a) by (done || by apply Hh).
  assert (group_ok (store g a) (a :: dn)) as Hg'.
  { apply group_ok_store; [done|]. intros Hin. apply Hnin, elem_of_app. by right. }
  assert (honest k r n D (store g a)) as Hho.
  { apply (group_ok_honest _ (a :: dn) Hg'). constructor; [done|]. by apply Forall_app in Hv as [_ Hv]. }
  pose proof (ok_size _ _ Hg') as Hsz. simpl in Hsz, Hc. destruct arr as [|a' arr].
  - rewrite (try_recover_exact k r Hk Hk8 Hr Hkr n D _ Hho (ok_rec _ _ Hg')) by (simpl in Hc; lia).
    exists (<[gid := set_recovered (store g a)]> d). cbn [FecDecoder_run length Nat.sub replicate app rev].
    rewrite (missing_group _ (a :: dn) Hg'). do 4 f_equal. apply map_ext. intros i. by rewrite src_sym_payload.
  - rewrite (try_recover_waits k r Hk Hk8 n D _ Hho (ok_rec _ _ Hg')) by (simpl in Hc; lia).
    destruct (IH (<[gid := store g a]> d) (store g a) (a :: dn) Hg') as [d' Hrun].
    + intros b _. left. apply lookup_insert_eq.
    + rewrite <- Permutation_middle. by constructor.
    + rewrite <- Permutation_middle. apply Forall_cons. done.
    + simpl in *. lia.
    + done.
    + rewrite Hrun. exists d'. simpl. rewrite Nat.sub_0_r, <- !app_assoc. done.
Qed.
End Roundtrip.

(** C6: any [k] distinct symbols of a group recover it, if the first to arrive is
    of full length. For every group geometry with [0 < k <= 255] and
    [k + r <= 256], and payloads shorter than 65536 bytes, the encoder accepts the k payloads without
    panicking and emits r repair symbols with the last one; and when any k
    distinct symbols of the group reach a decoder, the first of them not
    shorter than the longest payload, the decoder returns nothing until the
    k-th and then exactly the payloads that did not arrive, zero-padded to the
    longest. (With a shorter first symbol the decoder can panic:
    [fec_mixed_lengths_panic].) *)
Theorem fec_recovers_any_k (gid k r : Z) (ps : list (list byte)) (a : Arrival) (arr : list Arrival) :
  0 < k -> k <= 255 -> 0 <= r -> k + r <= 256 ->
  length ps = Z.to_nat k -> Z.of_nat (max_len ps) < 65536 ->
  NoDup (a :: arr) -> Forall (arrival_valid k r) (a :: arr) ->
  length (a :: arr) = Z.to_nat k -> full_length ps a ->
  exists reps d',
    FecEncoder_run (FecEncoder_new gid k r) ps =
      Some (FecEncoder_new (wrapping_add 32 gid 1) k r,
            replicate (Z.to_nat k - 1) None ++ [Some reps]) /\
    length reps = Z.to_nat r /\
    FecDecoder_run gid k r ps reps FecDecoder_new (a :: arr) =
      Some (d', replicate (Z.to_nat k - 1) None ++
        [Some (map (fun i => (i, resize_bytes (payload ps i) (max_len ps)))
                 (List.filter (fun i => negb (received (a :: arr) i)) (seqZ 0 k)))]).
Proof.
  intros Hk Hk8 Hr Hkr Hps Hlen Hnd Hv Hc Hfull.
  destruct (decoder_run_from gid k r Hk Hk8 Hr Hkr ps Hps (a :: arr) FecDecoder_new
    (GroupState_new k r (max_len ps)) [] (group_ok_new k r ps)) as [d' Hd'].
  - intros b [= <-]. right. split_and!; done.
  - by rewrite app_nil_r.
  - by rewrite app_nil_r.
  - done.
  - done.
  - exists (group_repairs gid k r ps), d'. split_and!.
    + by apply encoder_run_group.
    + unfold group_repairs. by rewrite length_map, length_seqZ.
    + rewrite Hd', Hc. do 6 f_equal. apply filter_ext. intros i. f_equal. unfold received.
      apply bool_decide_ext. rewrite app_nil_r, !list_elem_of_In. symmetry. apply in_rev.
Qed.

Lemma fec_recovers_any_k_witness :
  let ps := [[x01; x02; x03]; [x10]; [x20; x21]] in
  let arr := [ARepair 1; ASource 1; ARepair 0] in
  exists reps d',
    FecEncoder_run (FecEncoder_new 7 3 2) ps = Some (FecEncoder_new 8 3 2, [None; None; Some reps]) /\
    length reps = 2%nat /\
    FecDecoder_run 7 3 2 ps reps FecDecoder_new arr =
      Some (d', [None; None; Some [(0, [x01; x02; x03]); (2, [x20; x21; x00])]]).
Proof.
  intros ps arr.
  apply (fec_recovers_any_k 7 3 2 ps (ARepair 1) [ASource 1; ARepair 0]); try lia; try done.
  - apply (bool_decide_unpack _). vm_compute. exact I.
  - repeat constructor; simpl; lia.
Defined.

(** ** Arbitrary peers: recovery cannot panic on symbols of one length *)

Definition uniform (len : nat) (g : GroupState) : Prop :=
  (forall i d, gs_sources g !! i = Some d -> length d = len) /\
  (forall i d, gs_repairs g !! i = Some d -> length d = len).

Lemma length_mapM {A B} (f : A -> option B) l l' : mapM f l = Some l' -> length l' = length l.
Proof. intros H. apply mapM_Some in H. symmetry. by eapply Forall2_length. Qed.

Lemma shape_cons (x : list byte) m h w : length x = w -> shape m h w -> shape (x :: m) (S h) w.
Proof.
  intros Hx [Hl Hr]. split; [simpl; lia|]. intros [|i] Hi; [done|]. apply Hr. lia.
Qed.

Lemma build_rows_shape len g : uniform len g -> 0 <= gs_k g -> forall cols reps,
  (length (List.filter (fun c => negb (contains_key (gs_sources g) c)) cols) <= length reps)%nat ->
  (forall ri, In ri reps -> is_Some (gs_repairs g !! ri)) ->
  build_rows g cols reps = BReject \/
  exists mat rhs, build_rows g cols reps = BRows mat rhs /\
    shape mat (length cols) (Z.to_nat (gs_k g)) /\ shape rhs (length cols) len.
Proof.
  intros [Hus Hur] Hk. induction cols as [|c cols IH]; intros reps Hlen Hreps; cbn [build_rows].
  { right. exists [], []. split_and!; [done|split; [done|simpl; lia]..]. }
  cbn [List.filter] in Hlen. rewrite contains_key_lookup in Hlen.
  destruct (gs_sources g !! c) as [d|] eqn:Ec; cbn [negb] in Hlen.
  - destruct (IH reps Hlen Hreps) as [->|(mat & rhs & -> & Sm & Sr)]; [by left|right].
    eexists _, _. split; [done|]. split; apply shape_cons; try done.
    + unfold unit_row. by rewrite length_insert, length_replicate.
    + by apply (Hus c).
  - destruct reps as [|ri reps]; cbn [length] in Hlen; [lia|].
    destruct (Hreps ri ltac:(by left)) as [d Hd]. rewrite Hd.
    destruct (cauchy_row ri _ _) as [rw|] eqn:Er; [|by left].
    destruct (IH reps ltac:(lia)) as [->|(mat & rhs & -> & Sm & Sr)];
      [intros; apply Hreps; by right|by left|right].
    eexists _, _. split; [done|]. split; apply shape_cons; try done.
    + apply length_mapM in Er. rewrite Er, length_seqZ. lia.
    + by apply (Hur ri).
Qed.

Lemma gauss_rhs_no_panic k n mat rhs : shape mat k k -> shape rhs k n -> gauss_rhs mat rhs k <> GPanic.
Proof.
  intros Hm Hr. unfold gauss_rhs.
  assert (forall cols mat rhs, (forall c, In c cols -> (c < k)%nat) ->
    shape mat k k -> shape rhs k n -> gauss_loop k mat rhs cols <> GPanic) as H.
  { clear. induction cols as [|c cols IH]; intros mat rhs Hc Hm Hr; cbn [gauss_loop]; [done|].
    assert (c < k)%nat as Hck by (apply Hc; by left).
    unfold gauss_col. destruct (find_pivot mat c k) as [p|] eqn:Ep; [|done].
    apply find_some in Ep as [Hp Hz]. apply in_seq in Hp.
    destruct (gf_inv _) as [v|] eqn:Ei.
    2: { apply gf_inv_None in Ei. unfold get in Ei. destruct Hm as [Lm _].
         rewrite row_swap, Nat.eqb_refl in Ei by lia. unfold get in Hz. by rewrite Ei in Hz. }
    set (m1 := swap_rows mat c p). set (r1 := swap_rows rhs c p).
    assert (shape m1 k k) as Hm1 by (apply shape_swap; [done|lia|lia]).
    assert (shape r1 k n) as Hr1 by (apply shape_swap; [done|lia|lia]).
    destruct (elim_rows_spec k n k c (le_n k) (seq 0 k) (<[c := scale_row v (row m1 c)]> m1)
                (<[c := scale_row v (row r1 c)]> r1)) as (m2 & r2 & -> & Hm2 & Hr2 & _).
    - apply NoDup_seq.
    - intros i Hi. apply in_seq in Hi. lia.
    - apply shape_insert; [done|done|]. unfold scale_row. rewrite length_map. by apply Hm1.
    - apply shape_insert; [done|done|]. unfold scale_row. rewrite length_map. by apply Hr1.
    - done.
    - apply IH; [|done|done]. intros; apply Hc; by right. }
  apply H; [|done|done]. intros c Hc. apply in_seq in Hc. lia.
Qed.

(** Recovery is safe against any peer that keeps symbol lengths equal:
    whatever the wire-supplied k, r and indices, [try_recover] on a group
    whose stored symbols all have one length returns (possibly rejecting a
    degenerate Cauchy denominator or a singular system) and never panics. *)
Theorem try_recover_total (len : nat) (g : GroupState) :
  is_u8 (gs_k g) -> uniform len g -> (forall i, is_Some (gs_repairs g !! i) -> is_u8 i) ->
  exists g' out, GroupState_try_recover g = Some (g', out).
Proof.
  intros Hk Hu H8. unfold GroupState_try_recover.
  destruct (gs_recovered g); [eauto|]. destruct (_ =? gs_k g); [eauto|].
  destruct (_ <? gs_k g); [eauto|]. destruct (_ <? _) eqn:E; [eauto|]. cmp_facts.
  assert (length (missing_sources g) <= Z.to_nat (gs_k g))%nat as Hm.
  { unfold missing_sources. rewrite filter_length_le, length_seqZ. done. }
  assert (length (sorted_keys (gs_repairs g)) = size (gs_repairs g)) as Hs.
  { apply filter_keys_size. intros i Hi. apply H8 in Hi. unfold is_u in Hi. lia. }
  rewrite (wrap_small 8 (Z.of_nat (length _))) in E by (unfold is_u in *; lia).
  assert (wrap 8 (Z.of_nat (size (gs_repairs g))) <= Z.of_nat (size (gs_repairs g))) as Hw.
  { apply Z.mod_le; lia. }
  destruct (build_rows_shape len g Hu ltac:(unfold is_u in Hk; lia) (seqZ 0 (gs_k g))
              (take (length (missing_sources g)) (sorted_keys (gs_repairs g))))
    as [->|(mat & rhs & -> & Sm & Sr)]; [| |eauto|].
  - rewrite length_take, Hs. unfold missing_sources in *. lia.
  - intros ri Hri. apply sorted_keys_In. rewrite <- list_elem_of_In in Hri.
    apply list_elem_of_In. eapply subseteq_take. exact Hri.
  - rewrite length_seqZ in Sm, Sr.
    pose proof (gauss_rhs_no_panic _ _ _ _ Sm Sr) as Hg.
    destruct (gauss_rhs mat rhs _); [done|eauto|eauto].
Qed.

(** A repair whose index collides with a Cauchy column (3 = 1 + 2). *)
Definition degenerate_group : GroupState :=
  mkGroupState 3 1 1 {[ 0 := [x05]; 1 := [x06] ]} {[ 3 := [x07] ]} false.

Lemma try_recover_total_witness :
  GroupState_try_recover degenerate_group = Some (degenerate_group, None) /\
  exists g' out, GroupState_try_recover degenerate_group = Some (g', out).
Proof.
  split; [vm_compute; reflexivity|]. apply (try_recover_total 1).
  - split; vm_compute; congruence.
  - split; intros i d H; unfold degenerate_group in H; simpl in H;
      repeat (apply lookup_insert_Some in H as [[_ <-]|[_ H]]; [done|]);
      apply lookup_singleton_Some in H as [_ <-]; done.
  - intros i [d H]. unfold degenerate_group in H. simpl in H.
    apply lookup_singleton_Some in H as [<- _]. split; vm_compute; congruence.
Defined.

(** An honest group whose payloads differ in length can panic the decoder:
    with k = 2 and r = 1, after the one-byte source 0 the honest two-byte
    repair makes the elimination index past the shorter row, although the two
    symbols determine the lost source. *)
Theorem fec_mixed_lengths_panic :
  exists reps d,
    FecEncoder_run (FecEncoder_new 1 2 1) [[x41]; [x42; x43]] =
      Some (FecEncoder_new 2 2 1, [None; Some [reps]]) /\
    FecDecoder_add_source FecDecoder_new 1 0 2 1 [x41] = Some (d, None) /\
    FecDecoder_add_repair d reps = None.
Proof.
  exists (mkFecRepairData 1 0 2 1 2 [x60; xaf]).
  exists {[ 1 := mkGroupState 2 1 1 {[ 0 := [x41] ]} ∅ false ]}.
  split_and!; vm_compute; reflexivity.
Qed.

(** ** Wire formats *)

Record fr_wf (p : FecRepairData) : Prop := {
  frw_gid : is_u32 (fr_group_id p);
  frw_idx : is_u8 (fr_repair_idx p);
  frw_k : is_u8 (fr_k p);
  frw_r : is_u8 (fr_r p);
  frw_len : is_u16 (fr_padded_len p);
  frw_data : Z.of_nat (length (fr_data p)) = fr_padded_len p
}.

(** Repair symbols survive the wire: a well-formed repair parses back
    from its encoding, also when followed by other bytes; and whatever a
    parser accepts is well formed and is the prefix its encoding spells. *)
Theorem fec_repair_wire (p : FecRepairData) (trail buf : list byte) :
  fr_wf p ->
  FecRepairData_from_bytes (FecRepairData_to_bytes p ++ trail) = Some p /\
  (forall q, FecRepairData_from_bytes buf = Some q ->
     fr_wf q /\ FecRepairData_to_bytes q = take (length (FecRepairData_to_bytes q)) buf).
Proof.
  intros [Hg Hi Hk Hr Hl Hd]. split.
  - unfold FecRepairData_from_bytes, FecRepairData_to_bytes.
    pose proof (length_to_le 4 (fr_group_id p)) as L4. pose proof (length_to_le 2 (fr_padded_len p)) as L2.
    pose proof (from_le_to_le_small 4 (fr_group_id p) Hg) as F4.
    pose proof (from_le_to_le_small 2 (fr_padded_len p) Hl) as F2.
    destruct (to_le 4 (fr_group_id p)) as [|a [|b [|c [|d [|]]]]]; try done.
    destruct (to_le 2 (fr_padded_len p)) as [|e [|f [|]]]; try done.
    cbn [app]. change (slice (?a :: ?b :: ?c :: ?d :: ?l) 0 4) with [a; b; c; d].
    change (slice (a :: b :: c :: d :: ?x :: ?y :: ?z :: e :: f :: ?l) 7 9) with [e; f].
    rewrite F4, F2. unfold FEC_REPAIR_HDR. cbn [length].
    rewrite length_app. destruct (_ <? 9)%nat eqn:E1; cmp_facts; [lia|].
    destruct (_ <? 9 + _)%nat eqn:E2; cmp_facts; [lia|].
    unfold at_, slice. cbn [nth skipn]. rewrite !byte_of_small by done.
    rewrite drop_0, take_app_length' by lia. by destruct p.
  - intros q. unfold FecRepairData_from_bytes, FEC_REPAIR_HDR.
    destruct (_ <? 9)%nat eqn:E1; [done|]. cmp_facts.
    destruct buf as [|a [|b [|c [|d [|x [|y [|z [|e [|f l]]]]]]]]]; simpl in E1; try lia.
    change (slice (a :: b :: c :: d :: ?l) 0 4) with [a; b; c; d].
    change (slice (a :: b :: c :: d :: x :: y :: z :: e :: f :: l) 7 9) with [e; f].
    set (pl := from_le [e; f]). pose proof (from_le_is_u [e; f] 2 eq_refl) as Hpl. fold pl in Hpl.
    destruct (_ <? 9 + _)%nat eqn:E2; [done|]. cmp_facts. cbn [length] in E2.
    assert (slice (a :: b :: c :: d :: x :: y :: z :: e :: f :: l) 9 (9 + Z.to_nat pl) = take (Z.to_nat pl) l) as ->.
    { unfold slice. cbn [skipn]. rewrite drop_0. f_equal. lia. }
    intros H. apply (inj Some) in H. subst q.
    unfold FecRepairData_to_bytes. cbn [fr_group_id fr_repair_idx fr_k fr_r fr_padded_len fr_data]. split.
    + constructor; simpl; try apply byte_val_bound; [apply (from_le_is_u [a; b; c; d] 4 eq_refl)|done|].
      rewrite length_take. unfold is_u in Hpl. lia.
    + rewrite (to_le_from_le [a; b; c; d] 4 eq_refl), (to_le_from_le [e; f] 2 eq_refl : to_le 2 pl = _).
      cbn [at_ nth app fr_repair_idx fr_k fr_r fr_data].
      unfold at_. cbn [nth]. rewrite !byte_of_val. cbn [length take]. do 9 f_equal.
      rewrite length_take. by rewrite Nat.min_l by lia.
Qed.

Lemma fec_repair_wire_witness :
  let p := mkFecRepairData 305419896 1 8 3 2 [xaa; xbb] in
  FecRepairData_from_bytes (FecRepairData_to_bytes p ++ [x00]) = Some p.
Proof.
  intros p. apply (fec_repair_wire p [x00] []). constructor; unfold is_u; simpl; lia.
Defined.

Lemma source_envelope_parses (e : FecEncoder) (payload : list byte) :
  is_u32 (fe_group_id e) -> is_u8 (fe_source_idx e) -> is_u8 (fe_k e) -> is_u8 (fe_r e) ->
  parse_source_envelope (FecEncoder_source_envelope e ++ payload) =
    Some (fe_group_id e, fe_source_idx e, fe_k e, fe_r e, payload).
Proof.
  intros Hg Hi Hk Hr. unfold parse_source_envelope, FecEncoder_source_envelope, FEC_SOURCE_HDR.
  pose proof (length_to_le 4 (fe_group_id e)) as L4.
  pose proof (from_le_to_le_small 4 (fe_group_id e) Hg) as F4.
  destruct (to_le 4 (fe_group_id e)) as [|a [|b [|c [|d [|]]]]]; try done.
  cbn [app]. change (slice (?a :: ?b :: ?c :: ?d :: ?l) 0 4) with [a; b; c; d]. rewrite F4.
  cbn [length Nat.ltb Nat.leb]. unfold at_. cbn [nth skipn]. by rewrite drop_0, !byte_of_small.
Qed.
