(* ===== verification/Ordered.v ===== *)
(** * Ordered containers

    [BTreeSet<u64>] and [BTreeMap<u64, V>] as the session layer uses them:
    strictly ascending lists, iterated in key order. *)

From Stdlib Require Import ZArith Lia Bool List Sorting.Sorted.
From stdpp Require Import base list numbers option.
From S2P Require Import Prelude.

Open Scope Z_scope.

(** ** Sets *)

Fixpoint bset_insert (x : Z) (l : list Z) : list Z :=
  match l with
  | [] => [x]
  | y :: l' => if x <? y then x :: l else if x =? y then l else y :: bset_insert x l'
  end.

(** [set.split_off(&t)]: the elements at or above [t]. *)
Definition bset_split_off (t : Z) (l : list Z) : list Z := List.filter (fun x => t <=? x) l.

Abbreviation ascending := (StronglySorted Z.lt).
Abbreviation descending := (StronglySorted (fun a b : Z => b < a)).

Lemma bset_insert_In x y l : In y (bset_insert x l) <-> y = x \/ In y l.
Proof.
  induction l as [|z l IH]; simpl; [intuition|].
  destruct (x <? z) eqn:E1; [simpl; intuition|].
  destruct (x =? z) eqn:E2; cmp_facts; [subst; simpl; intuition|].
  simpl. rewrite IH. intuition.
Qed.

Lemma bset_insert_ascending x l : ascending l -> ascending (bset_insert x l).
Proof.
  induction l as [|z l IH]; intros Hs; simpl; [repeat constructor|].
  inversion_clear Hs as [|? ? Hl Hz]. rewrite List.Forall_forall in Hz.
  destruct (x <? z) eqn:E1; cmp_facts.
  { constructor; [constructor; [done|by apply List.Forall_forall]|].
    apply List.Forall_forall. intros y [<-|Hy]; [done|]. pose proof (Hz y Hy). lia. }
  destruct (x =? z) eqn:E2; cmp_facts.
  { constructor; [done|by apply List.Forall_forall]. }
  constructor; [by apply IH|]. apply List.Forall_forall. intros y Hy.
  apply bset_insert_In in Hy as [->|Hy]; [lia|auto].
Qed.

Lemma ascending_filter P l : ascending l -> ascending (List.filter P l).
Proof.
  induction 1 as [|x l Hl IH Hx]; simpl; [constructor|].
  destruct (P x); [|done]. constructor; [done|]. rewrite List.Forall_forall in *.
  intros y Hy. apply filter_In in Hy as [Hy _]. auto.
Qed.

Lemma ascending_bound_length l lo hi :
  ascending l -> (forall x, In x l -> lo <= x <= hi) -> l <> [] ->
  Z.of_nat (length l) <= hi - lo + 1.
Proof.
  intros Hs. revert lo. induction Hs as [|x l Hl IH Hx]; intros lo Hb Hne; [done|].
  rewrite List.Forall_forall in Hx. simpl length.
  destruct l as [|y l]; [pose proof (Hb x ltac:(by left)); simpl; lia|].
  assert (Z.of_nat (length (y :: l)) <= hi - (x + 1) + 1); [|pose proof (Hb x ltac:(by left)); lia].
  apply IH; [|done]. intros z Hz. pose proof (Hx z Hz). pose proof (Hb z ltac:(by right)). lia.
Qed.

Lemma ascending_rev l : ascending l -> descending (rev l).
Proof.
  induction 1 as [|x l Hl IH Hx]; simpl; [constructor|].
  rewrite List.Forall_forall in Hx.
  assert (forall a b, descending a -> (forall y, In y a -> b < y) -> descending (a ++ [b])) as H.
  { intros a b Ha Hb. induction Ha as [|z a Ha IHa Hz]; simpl; [repeat constructor|].
    constructor; [apply IHa; intros; apply Hb; by right|]. rewrite List.Forall_forall in *.
    intros y Hy. apply in_app_or in Hy as [Hy|[<-|[]]]; [auto|]. apply Hb. by left. }
  apply H; [done|]. intros y Hy. apply in_rev in Hy. auto.
Qed.

(** ** Maps *)

Section OMap.
Context {V : Type}.

Definition OMap : Type := list (Z * V).

Fixpoint om_lookup (k : Z) (m : OMap) : option V :=
  match m with
  | [] => None
  | (j, v) :: m' => if k =? j then Some v else om_lookup k m'
  end.

Fixpoint om_insert (k : Z) (v : V) (m : OMap) : OMap :=
  match m with
  | [] => [(k, v)]
  | (j, w) :: m' => if k <? j then (k, v) :: m
                    else if k =? j then (k, v) :: m'
                    else (j, w) :: om_insert k v m'
  end.

Definition om_remove (k : Z) (m : OMap) : OMap := List.filter (fun kv => negb (fst kv =? k)) m.

Definition om_wf (m : OMap) : Prop := ascending (map fst m).

Lemma om_insert_keys k v m : map fst (om_insert k v m) = bset_insert k (map fst m).
Proof.
  induction m as [|[j w] m IH]; simpl; [done|].
  destruct (k <? j); [done|]. destruct (k =? j) eqn:E; simpl; [|by rewrite IH].
  apply Z.eqb_eq in E. by subst.
Qed.

Lemma om_insert_wf k v m : om_wf m -> om_wf (om_insert k v m).
Proof. unfold om_wf. rewrite om_insert_keys. apply bset_insert_ascending. Qed.

Lemma om_filter_keys (P : Z -> bool) m :
  map fst (List.filter (fun kv : Z * V => P (fst kv)) m) = List.filter P (map fst m).
Proof. induction m as [|[j w] m IH]; simpl; [done|]. destruct (P j); simpl; by rewrite IH. Qed.

Lemma om_remove_wf k m : om_wf m -> om_wf (om_remove k m).
Proof.
  unfold om_wf, om_remove. rewrite (om_filter_keys (fun j => negb (j =? k))). apply ascending_filter.
Qed.

Lemma om_lookup_In k v m : om_lookup k m = Some v -> In (k, v) m.
Proof.
  induction m as [|[j w] m IH]; simpl; [done|].
  destruct (k =? j) eqn:E; [|by right; auto]. apply Z.eqb_eq in E. intros [= <-]. subst. by left.
Qed.

Lemma om_lookup_None k m : om_lookup k m = None <-> (~ In k (map fst m)).
Proof.
  induction m as [|[j w] m IH]; simpl; [tauto|].
  destruct (k =? j) eqn:E; cmp_facts; [split; [done|]; subst; tauto|].
  rewrite IH. split; intros H; [intros [?|?]; [congruence|tauto]|tauto].
Qed.

Lemma om_In_lookup k v m : om_wf m -> In (k, v) m -> om_lookup k m = Some v.
Proof.
  unfold om_wf. induction m as [|[j w] m IH]; simpl; intros Hs Hin; [done|].
  inversion_clear Hs as [|? ? Hs' Hj]. rewrite List.Forall_forall in Hj.
  destruct Hin as [[= -> ->]|Hin]; [by rewrite Z.eqb_refl|].
  destruct (k =? j) eqn:E; cmp_facts; [|auto].
  subst. pose proof (Hj j (in_map fst _ _ Hin)). lia.
Qed.

Lemma om_lookup_insert k v m j :
  om_lookup j (om_insert k v m) = if j =? k then Some v else om_lookup j m.
Proof.
  induction m as [|[i w] m IH]; simpl; [done|].
  destruct (k <? i) eqn:E1; simpl; [done|].
  destruct (k =? i) eqn:E2; simpl; cmp_facts.
  - subst. by destruct (j =? i).
  - rewrite IH. destruct (j =? i) eqn:E3, (j =? k) eqn:E4; cmp_facts; try done. lia.
Qed.

Lemma om_lookup_remove k m j :
  om_lookup j (om_remove k m) = if j =? k then None else om_lookup j m.
Proof.
  unfold om_remove. induction m as [|[i w] m IH]; simpl; [by destruct (j =? k)|].
  destruct (i =? k) eqn:E1; simpl; cmp_facts.
  - rewrite IH. destruct (j =? k) eqn:E2, (j =? i) eqn:E3; cmp_facts; try done; lia.
  - rewrite IH. destruct (j =? i) eqn:E3, (j =? k) eqn:E2; cmp_facts; try done; lia.
Qed.

Lemma om_insert_In k v m j w : om_wf m ->
  In (j, w) (om_insert k v m) <-> (j = k /\ w = v) \/ (j <> k /\ In (j, w) m).
Proof.
  intros Hm. split.
  - intros Hin. apply om_In_lookup in Hin; [|by apply om_insert_wf].
    rewrite om_lookup_insert in Hin. destruct (j =? k) eqn:E; cmp_facts.
    + injection Hin as ->. by left.
    + right. split; [done|by apply om_lookup_In].
  - intros H. apply om_lookup_In. rewrite om_lookup_insert.
    destruct H as [[-> ->]|[Hne Hin]]; [by rewrite Z.eqb_refl|].
    apply Z.eqb_neq in Hne. rewrite Hne. by apply om_In_lookup.
Qed.

Lemma om_remove_In k m j w : In (j, w) (om_remove k m) <-> j <> k /\ In (j, w) m.
Proof.
  unfold om_remove. rewrite filter_In. simpl. rewrite negb_true_iff, Z.eqb_neq. tauto.
Qed.

(** In-place update of the values. *)
Definition om_map (f : Z -> V -> V) (m : OMap) : OMap := map (fun kv => (fst kv, f (fst kv) (snd kv))) m.

Lemma om_map_keys f m : map fst (om_map f m) = map fst m.
Proof. unfold om_map. by rewrite map_map. Qed.

Lemma om_lookup_map f m k : om_lookup k (om_map f m) = option_map (f k) (om_lookup k m).
Proof.
  induction m as [|[i w] m IH]; simpl; [done|]. destruct (k =? i) eqn:E; [|done].
  apply Z.eqb_eq in E. by subst.
Qed.

Lemma om_head_least k v m : om_wf ((k, v) :: m) -> forall j w, In (j, w) m -> k < j.
Proof.
  unfold om_wf. simpl. intros Hs j w Hin. inversion_clear Hs as [|? ? _ Hk].
  rewrite List.Forall_forall in Hk. apply (Hk j), (in_map fst m (j, w) Hin).
Qed.

Lemma om_remove_head k v m : om_wf ((k, v) :: m) -> om_remove k ((k, v) :: m) = m.
Proof.
  intros Hwf. unfold om_remove. simpl. rewrite Z.eqb_refl. simpl.
  pose proof (om_head_least k v m Hwf) as H. clear Hwf.
  induction m as [|[j w] m IH]; [done|]. simpl.
  destruct (j =? k) eqn:E; cmp_facts; [pose proof (H j w ltac:(by left)); lia|]. simpl. f_equal.
  apply IH. intros j' w' Hin. apply (H j' w'). by right.
Qed.
End OMap.
Arguments OMap V : clear implicits.

#[export] Hint Resolve om_insert_wf om_remove_wf bset_insert_ascending ascending_filter : seam.
