(* ===== verification/Float.v ===== *)
(** * IEEE-754 arithmetic

    The [f64] and [f32] operations the congestion controllers, estimators and
    the FEC arbiter use, as the Standard Library's executable specification of
    binary floating point at precision 53 and 24, with the conversions of
    Rust's [as] operator, [max], [min], [ceil], [round] and the [Duration]
    conversions.  Lemmas: [<=] is a total preorder on the values that are not
    NaN, and [max] and [min] are its bounds. *)

From Stdlib Require Import ZArith Lia Bool List.
From Stdlib Require Import Floats.SpecFloat.
From stdpp Require Import base list numbers option.
From S2P Require Import Prelude.

Open Scope Z_scope.

(** ** Operations, at any precision *)

Section Ops.
Context (prec emax : Z).

(** [v as f64] for an integer [v]. *)
Definition float_of_Z (v : Z) : spec_float := binary_normalize prec emax v 0 false.

(** The decimal literal [n / d], correctly rounded. *)
Definition float_lit (n d : Z) : spec_float := SFdiv prec emax (float_of_Z n) (float_of_Z d).

End Ops.

(** Integer part of a finite magnitude, rounded down, up and to nearest with
    ties away from zero or to even. *)
Definition mag_floor (m : positive) (e : Z) : Z := Z.shiftl (Zpos m) e.
Definition mag_ceil (m : positive) (e : Z) : Z := - Z.shiftl (- Zpos m) e.
Definition mag_round (m : positive) (e : Z) : Z :=
  if 0 <=? e then Z.shiftl (Zpos m) e else (Zpos m + 2 ^ (- e - 1)) / 2 ^ (- e).
Definition half_even (n d : Z) : Z :=
  let q := n / d in
  let r := n mod d in
  if 2 * r <? d then q else if d <? 2 * r then q + 1 else if Z.even q then q else q + 1.

(** [x as uN]: truncation, saturating at both ends; NaN is 0. *)
Definition float_to_u (w : Z) (x : spec_float) : Z :=
  match x with
  | S754_nan | S754_zero _ => 0
  | S754_infinity s => if s then 0 else 2 ^ w - 1
  | S754_finite s m e => if s then 0 else Z.min (2 ^ w - 1) (mag_floor m e)
  end.

(** [a.max(b)] and [a.min(b)]: a NaN operand is ignored. *)
Definition float_max (a b : spec_float) : spec_float :=
  match SFcompare a b with
  | Some Lt => b
  | Some _ => a
  | None => match a with S754_nan => b | _ => a end
  end.

Definition float_min (a b : spec_float) : spec_float :=
  match SFcompare a b with
  | Some Gt => b
  | Some _ => a
  | None => match a with S754_nan => b | _ => a end
  end.

(** ** [f64] *)

Abbreviation f64 := spec_float.
Definition f64_of (v : Z) : f64 := float_of_Z 53 1024 v.
Definition f64_lit (n d : Z) : f64 := float_lit 53 1024 n d.
Definition f64_add : f64 -> f64 -> f64 := SFadd 53 1024.
Definition f64_sub : f64 -> f64 -> f64 := SFsub 53 1024.
Definition f64_mul : f64 -> f64 -> f64 := SFmul 53 1024.
Definition f64_div : f64 -> f64 -> f64 := SFdiv 53 1024.
Definition f64_MAX : f64 := SFmax_float 53 1024.
Definition f64_zero : f64 := S754_zero false.

Definition f64_ceil (x : f64) : f64 :=
  match x with
  | S754_finite s m e =>
      if 0 <=? e then x
      else if s then SFopp (f64_of (mag_floor m e)) else f64_of (mag_ceil m e)
  | _ => x
  end.

Definition f64_round (x : f64) : f64 :=
  match x with
  | S754_finite s m e =>
      if 0 <=? e then x
      else if s then SFopp (f64_of (mag_round m e)) else f64_of (mag_round m e)
  | _ => x
  end.

(** [x.clamp(lo, hi)] for [lo <= hi]. *)
Definition f64_clamp (x lo hi : f64) : f64 :=
  if SFltb x lo then lo else if SFltb hi x then hi else x.

(** [Duration::as_secs_f64] of a duration in nanoseconds. *)
Definition as_secs_f64 (d : Z) : f64 :=
  f64_add (f64_of (d / 1000000000)) (f64_div (f64_of (d mod 1000000000)) (f64_of 1000000000)).

(** [Duration::from_secs_f64]: nearest nanosecond, ties to even; [None] is the
    panic on a negative, NaN or too large argument. *)
Definition from_secs_f64 (x : f64) : option Z :=
  match x with
  | S754_zero _ => Some 0
  | S754_finite false m e =>
      let ns := if 0 <=? e then Z.shiftl (Zpos m) e * 1000000000
                else half_even (Zpos m * 1000000000) (2 ^ (- e)) in
      if ns / 1000000000 <? 2 ^ 64 then Some ns else None
  | _ => None
  end.

(** ** [f32] *)

Abbreviation f32 := spec_float.
Definition f32_of (v : Z) : f32 := float_of_Z 24 128 v.
Definition f32_lit (n d : Z) : f32 := float_lit 24 128 n d.
Definition f32_add : f32 -> f32 -> f32 := SFadd 24 128.
Definition f32_sub : f32 -> f32 -> f32 := SFsub 24 128.
Definition f32_mul : f32 -> f32 -> f32 := SFmul 24 128.
Definition f32_div : f32 -> f32 -> f32 := SFdiv 24 128.

(** ** Order *)

Definition is_nan (x : spec_float) : bool := match x with S754_nan => true | _ => false end.

Definition fle (a b : spec_float) : Prop := SFleb a b = true.
Definition flt (a b : spec_float) : Prop := SFltb a b = true.

(** A key whose lexicographic order is the order of the values: class, then
    signed exponent, then signed mantissa. *)
Definition fkey (x : spec_float) : Z * Z * Z :=
  match x with
  | S754_infinity true => (-2, 0, 0)
  | S754_finite true m e => (-1, - e, - Zpos m)
  | S754_zero _ => (0, 0, 0)
  | S754_finite false m e => (1, e, Zpos m)
  | S754_infinity false => (2, 0, 0)
  | S754_nan => (3, 0, 0)
  end.

Definition key_compare (a b : Z * Z * Z) : comparison :=
  match a.1.1 ?= b.1.1 with
  | Eq => match a.1.2 ?= b.1.2 with
          | Eq => a.2 ?= b.2
          | c => c
          end
  | c => c
  end.

Lemma Zcompare_opp_opp a b : (- a ?= - b) = CompOpp (a ?= b).
Proof. rewrite Z.compare_opp. apply Z.compare_antisym. Qed.

Lemma SFcompare_key a b :
  is_nan a = false -> is_nan b = false -> SFcompare a b = Some (key_compare (fkey a) (fkey b)).
Proof.
  destruct a as [sa|[]| |[] ma ea], b as [sb|[]| |[] mb eb]; intros Ha Hb;
    try discriminate; try reflexivity; unfold SFcompare, key_compare, fkey; cbn [fst snd].
  rewrite !Zcompare_opp_opp. cbn [Z.compare]. destruct (ea ?= eb); reflexivity.
Qed.

Lemma key_compare_le a b :
  key_compare a b <> Gt <->
  a.1.1 < b.1.1 \/ (a.1.1 = b.1.1 /\ (a.1.2 < b.1.2 \/ (a.1.2 = b.1.2 /\ a.2 <= b.2))).
Proof.
  unfold key_compare.
  destruct (Z.compare_spec a.1.1 b.1.1); [|split; [lia|done]|split; [done|lia]].
  destruct (Z.compare_spec a.1.2 b.1.2); [|split; [lia|done]|split; [done|lia]].
  destruct (Z.compare_spec a.2 b.2); split; (done || lia).
Qed.

Lemma key_compare_lt a b :
  key_compare a b = Lt <->
  a.1.1 < b.1.1 \/ (a.1.1 = b.1.1 /\ (a.1.2 < b.1.2 \/ (a.1.2 = b.1.2 /\ a.2 < b.2))).
Proof.
  unfold key_compare.
  destruct (Z.compare_spec a.1.1 b.1.1); [|split; [lia|done]|split; [done|lia]].
  destruct (Z.compare_spec a.1.2 b.1.2); [|split; [lia|done]|split; [done|lia]].
  destruct (Z.compare_spec a.2 b.2); split; (done || lia).
Qed.

Lemma SFcompare_nan a b :
  is_nan a = true \/ is_nan b = true -> SFcompare a b = None.
Proof. destruct a as [|[]| |[]], b as [|[]| |[]]; intros [H|H]; done. Qed.

Definition key_le (a b : Z * Z * Z) : Prop :=
  a.1.1 < b.1.1 \/ (a.1.1 = b.1.1 /\ (a.1.2 < b.1.2 \/ (a.1.2 = b.1.2 /\ a.2 <= b.2))).

Lemma fle_key a b :
  fle a b <-> is_nan a = false /\ is_nan b = false /\ key_le (fkey a) (fkey b).
Proof.
  unfold fle, SFleb, key_le. destruct (is_nan a) eqn:Ha; [rewrite SFcompare_nan by auto; intuition congruence|].
  destruct (is_nan b) eqn:Hb; [rewrite SFcompare_nan by auto; intuition congruence|].
  rewrite SFcompare_key by done. rewrite <- key_compare_le.
  destruct (key_compare _ _); intuition congruence.
Qed.

Lemma flt_key a b :
  flt a b <-> is_nan a = false /\ is_nan b = false /\ ~ key_le (fkey b) (fkey a).
Proof.
  unfold flt, SFltb. destruct (is_nan a) eqn:Ha; [rewrite SFcompare_nan by auto; intuition congruence|].
  destruct (is_nan b) eqn:Hb; [rewrite SFcompare_nan by auto; intuition congruence|].
  rewrite SFcompare_key by done.
  assert (HL := key_compare_lt (fkey a) (fkey b)). unfold key_le.
  destruct (key_compare _ _) eqn:E.
  - split; [done|]. intros (_ & _ & Hn). exfalso.
    assert (~ (key_compare (fkey a) (fkey b) = Lt)) as Hlt by congruence.
    rewrite key_compare_lt in Hlt.
    assert (Hge : key_compare (fkey a) (fkey b) <> Gt) by congruence.
    apply key_compare_le in Hge. apply Hn. lia.
  - split; [intros _|done]. destruct HL as [HL _]. specialize (HL eq_refl). lia.
  - split; [done|]. intros (_ & _ & Hn). exfalso. destruct HL as [_ HL].
    assert (~ (key_compare (fkey a) (fkey b) <> Gt)) as Hg by congruence.
    rewrite key_compare_le in Hg. lia.
Qed.

Lemma fle_refl a : is_nan a = false -> fle a a.
Proof. intros. apply fle_key. unfold key_le. do 2 (split; [done|]). lia. Qed.

Lemma fle_trans a b c : fle a b -> fle b c -> fle a c.
Proof.
  rewrite !fle_key. unfold key_le. intros (Ha & Hb & H1) (_ & Hc & H2).
  do 2 (split; [done|]). lia.
Qed.

Lemma flt_fle a b : flt a b -> fle a b.
Proof.
  rewrite flt_key, fle_key. unfold key_le. intros (Ha & Hb & H). do 2 (split; [done|]). lia.
Qed.

Lemma not_fle_flt a b :
  is_nan a = false -> is_nan b = false -> SFleb a b = false -> flt b a.
Proof.
  intros Ha Hb H. apply flt_key. do 2 (split; [done|]). intros Hk.
  assert (fle a b) as Hl by (by apply fle_key). unfold fle in Hl. congruence.
Qed.

Lemma fle_flt_false a b : fle a b -> SFltb b a = false.
Proof.
  rewrite fle_key. intros (Ha & Hb & H). destruct (SFltb b a) eqn:E; [|done].
  apply flt_key in E as (_ & _ & E). done.
Qed.

Lemma float_max_cases a b : float_max a b = a \/ float_max a b = b.
Proof. unfold float_max. destruct (SFcompare a b) as [[]|]; auto. destruct a; auto. Qed.

Lemma float_max_nan a b : is_nan b = false -> is_nan (float_max a b) = false.
Proof.
  intros Hb. unfold float_max. destruct (is_nan a) eqn:Ha.
  - rewrite SFcompare_nan by auto. by destruct a.
  - destruct (SFcompare a b) as [[]|]; auto. by destruct a.
Qed.

Lemma float_max_ge_r a b : is_nan b = false -> fle b (float_max a b).
Proof.
  intros Hb. unfold float_max. destruct (is_nan a) eqn:Ha.
  - rewrite SFcompare_nan by auto. destruct a; try done. by apply fle_refl.
  - rewrite SFcompare_key by done. pose proof (key_compare_le (fkey a) (fkey b)) as H1.
    pose proof (key_compare_lt (fkey a) (fkey b)) as H2.
    destruct (key_compare (fkey a) (fkey b)) eqn:E; [|by apply fle_refl|];
      apply fle_key; do 2 (split; [done|]); unfold key_le.
    + destruct H1 as [H1 _], H2 as [_ H2]. specialize (H1 ltac:(done)).
      assert (~ (key_compare (fkey a) (fkey b) = Lt)) as Hn by congruence.
      rewrite key_compare_lt in Hn. lia.
    + assert (~ (key_compare (fkey a) (fkey b) <> Gt)) as Hn by congruence.
      rewrite key_compare_le in Hn. lia.
Qed.

Lemma float_max_ge_l a b : is_nan a = false -> fle a (float_max a b).
Proof.
  intros Ha. unfold float_max. destruct (is_nan b) eqn:Hb.
  - rewrite SFcompare_nan by auto. destruct a; try done; by apply fle_refl.
  - rewrite SFcompare_key by done. pose proof (key_compare_le (fkey a) (fkey b)) as H1.
    destruct (key_compare (fkey a) (fkey b)) eqn:E; [by apply fle_refl| |by apply fle_refl].
    apply fle_key; do 2 (split; [done|]). by apply H1.
Qed.

Lemma float_min_le_r a b : is_nan b = false -> fle (float_min a b) b.
Proof.
  intros Hb. unfold float_min. destruct (is_nan a) eqn:Ha.
  - rewrite SFcompare_nan by auto. destruct a; try done. by apply fle_refl.
  - rewrite SFcompare_key by done. pose proof (key_compare_le (fkey a) (fkey b)) as H1.
    destruct (key_compare (fkey a) (fkey b)) eqn:E; [| |by apply fle_refl];
      apply fle_key; do 2 (split; [done|]); by apply H1.
Qed.

Lemma float_to_u_range w x : 0 <= w -> is_u w (float_to_u w x).
Proof.
  intros Hw. assert (0 < 2 ^ w) by (apply Z.pow_pos_nonneg; lia). unfold is_u.
  destruct x as [| [] | | [] m e]; cbn; try lia.
  assert (0 <= mag_floor m e) by (unfold mag_floor; apply Z.shiftl_nonneg; lia). lia.
Qed.

(** ** Rounding keeps positive integers positive *)

Lemma shr_1_m r : 0 <= shr_m r -> shr_m (shr_1 r) = shr_m r / 2.
Proof.
  destruct r as [m rr s]. cbn [shr_m]. intros H. destruct m as [|p|p]; [done| |lia].
  destruct p; cbn [shr_1 shr_m].
  - rewrite Pos2Z.inj_xI, (Z.mul_comm 2), Z.div_add_l by lia. change (1 / 2) with 0. lia.
  - rewrite Pos2Z.inj_xO, (Z.mul_comm 2), Z.div_mul; lia.
  - done.
Qed.

Lemma shr_iter_m p r : 0 <= shr_m r -> shr_m (SpecFloat.iter_pos shr_1 p r) = shr_m r / 2 ^ Zpos p.
Proof.
  revert r. induction p as [p IH|p IH|]; intros r Hr; cbn [SpecFloat.iter_pos].
  - assert (H1 : shr_m (shr_1 r) = shr_m r / 2) by (by apply shr_1_m).
    assert (0 <= shr_m r / 2) by (apply Z.div_pos; lia).
    rewrite IH, IH, H1; [|lia|rewrite IH, H1 by lia; apply Z.div_pos; lia].
    rewrite !Z.div_div by lia. f_equal.
    rewrite Pos2Z.inj_xI, <- Z.pow_add_r, <- Z.pow_succ_r by lia. f_equal. lia.
  - rewrite IH, IH; [|done|rewrite IH by done; apply Z.div_pos; lia].
    rewrite Z.div_div by lia. f_equal. rewrite <- Z.pow_add_r by lia. f_equal. lia.
  - by rewrite shr_1_m.
Qed.

Lemma digits2_bounds p : 2 ^ (Zpos (digits2_pos p) - 1) <= Zpos p < 2 ^ Zpos (digits2_pos p).
Proof.
  induction p as [p IH|p IH|]; cbn [digits2_pos]; [| |done].
  all: rewrite Pos2Z.inj_succ, Z.pow_succ_r by lia;
    replace (Z.succ (Zpos (digits2_pos p)) - 1) with (Z.succ (Zpos (digits2_pos p) - 1)) by lia;
    rewrite Z.pow_succ_r by lia; lia.
Qed.

Section Positive.
Context (prec emax : Z) (Hprec : 1 <= prec).

(** A shift to the target exponent leaves a positive mantissa when the number
    is at least the smallest representable one. *)
Lemma shr_fexp_pos m e l :
  0 < m -> emin prec emax < Zdigits2 m + e ->
  let r := shr_fexp prec emax m e l in
  0 < shr_m r.1 /\ Zdigits2 m + e <= Zdigits2 (shr_m r.1) + r.2.
Proof.
  intros Hm He. destruct m as [|p|p]; try lia. cbn [Zdigits2] in *. unfold shr_fexp.
  pose proof (digits2_bounds p) as Hd.
  assert (Hr : shr_m (shr_record_of_loc (Zpos p) l) = Zpos p) by (destruct l as [|[]]; done).
  destruct (fexp prec emax (Zdigits2 (Zpos p) + e) - e) as [|n|n] eqn:En; cbn [shr fst snd].
  1,3: rewrite Hr; cbn [Zdigits2]; lia.
  rewrite shr_iter_m, Hr by (rewrite Hr; lia). unfold fexp in En. cbn [Zdigits2] in En.
  set (d := Zpos (digits2_pos p)) in *.
  assert (Hn : Zpos n <= d - 1) by lia.
  assert (Hq : 2 ^ (d - 1 - Zpos n) <= Zpos p / 2 ^ Zpos n).
  { apply Z.div_le_lower_bound; [lia|]. rewrite <- Z.pow_add_r by lia.
    replace (Zpos n + (d - 1 - Zpos n)) with (d - 1) by lia. lia. }
  assert (0 < 2 ^ (d - 1 - Zpos n)) by (apply Z.pow_pos_nonneg; lia).
  split; [lia|].
  destruct (Zpos p / 2 ^ Zpos n) as [|q|q] eqn:Eq; try lia. cbn [Zdigits2].
  pose proof (digits2_bounds q) as [_ Hdq].
  assert (2 ^ (d - 1 - Zpos n) < 2 ^ Zpos (digits2_pos q)) as Hlt by lia.
  apply Z.pow_lt_mono_r_iff in Hlt; lia.
Qed.

Lemma round_aux_pos s m e l :
  0 < m -> emin prec emax < Zdigits2 m + e ->
  match binary_round_aux prec emax s m e l with
  | S754_finite _ _ _ | S754_infinity _ => True
  | _ => False
  end.
Proof.
  intros Hm He. unfold binary_round_aux.
  destruct (shr_fexp_pos m e l Hm He) as [H1 H2].
  destruct (shr_fexp prec emax m e l) as [r1 e1]. cbn [fst snd] in *.
  set (m2 := round_nearest_even (shr_m r1) (loc_of_shr_record r1)).
  assert (Hm2 : shr_m r1 <= m2)
    by (unfold m2, round_nearest_even; repeat case_match; lia).
  assert (Hdm : Zdigits2 (shr_m r1) <= Zdigits2 m2).
  { destruct (shr_m r1) as [|a|a]; try lia. destruct m2 as [|b|b]; try lia. cbn [Zdigits2].
    pose proof (digits2_bounds a). pose proof (digits2_bounds b).
    assert (2 ^ (Zpos (digits2_pos a) - 1) < 2 ^ Zpos (digits2_pos b)) as Hlt by lia.
    apply Z.pow_lt_mono_r_iff in Hlt; lia. }
  destruct (shr_fexp_pos m2 e1 loc_Exact ltac:(lia) ltac:(lia)) as [H3 _].
  destruct (shr_fexp prec emax m2 e1 loc_Exact) as [r2 e2]. cbn [fst snd] in *.
  destruct (shr_m r2); [lia| |lia]. destruct (Z.leb _ _); exact I.
Qed.

(** A positive integer converts to a positive number, never to zero or NaN. *)
Lemma float_of_Z_pos v :
  0 < v -> emin prec emax < 1 ->
  match float_of_Z prec emax v with
  | S754_finite _ _ _ | S754_infinity _ => True
  | _ => False
  end.
Proof.
  intros Hv He. destruct v as [|p|p]; try lia. unfold float_of_Z, binary_normalize, binary_round.
  rewrite Z.add_0_r. set (d := Zpos (digits2_pos p)). unfold shl_align. rewrite Z.sub_0_r.
  destruct (fexp prec emax d) as [|n|n] eqn:En.
  1,2: apply round_aux_pos; cbn [Zdigits2]; lia.
  apply round_aux_pos; [lia|]. cbn [Zdigits2]. unfold fexp in En.
  assert (Hit : forall k, Zpos (digits2_pos (Pos.iter xO p k)) = Zpos (digits2_pos p) + Zpos k).
  { intros k. induction k as [|k IH] using Pos.peano_ind.
    - change (Pos.iter xO p 1) with (xO p). cbn [digits2_pos]. lia.
    - rewrite Pos.iter_succ. cbn [digits2_pos]. lia. }
  rewrite Hit. lia.
Qed.

End Positive.
