(* ===== verification/Cc.v ===== *)
(** * Congestion control

    src/src/transport/cc.rs (the [CongestionControl] trait, [Cubic], [Aimd])
    and src/src/transport/bbr.rs ([Bbr]).  The trait is the class
    [CongestionControl]; its contract towards the connection - how the bytes in
    flight are counted and what is available - is [CongestionControlLaws],
    which the three controllers discharge.  [cbrt] and [powi], whose precision
    Rust leaves open, are the class [Libm]. *)

From Stdlib Require Import ZArith Lia Bool List.
From Stdlib Require Import Floats.SpecFloat.
From stdpp Require Import base list numbers option.
From S2P Require Import Prelude Float.

Open Scope Z_scope.

Class Libm : Type := {
  f64_cbrt : f64 -> f64;
  f64_powi : f64 -> Z -> f64;
  f64_ln : f64 -> f64
}.

Definition MSS : Z := 1400.

(** ** The trait *)

Class CongestionControl (T : Type) : Type := {
  cc_available : T -> Z;
  cc_cwnd : T -> Z;
  cc_bytes_in_flight : T -> Z;
  cc_on_send : T -> Z -> T;
  cc_on_ack : T -> Z -> Z -> Z -> T;      (* bytes, rtt, now *)
  cc_on_loss : T -> Z -> T;               (* now *)
  cc_on_timeout : T -> T
}.

(** What every controller promises the connection. *)
Class CongestionControlLaws (T : Type) {CC : CongestionControl T} : Prop := {
  cc_available_eq c : cc_available c = saturating_sub (cc_cwnd c) (cc_bytes_in_flight c);
  cc_on_send_flight c b :
    cc_bytes_in_flight (cc_on_send c b) = saturating_add 64 (cc_bytes_in_flight c) b;
  cc_on_send_cwnd c b : cc_cwnd (cc_on_send c b) = cc_cwnd c;
  cc_on_ack_flight c b rtt now :
    cc_bytes_in_flight (cc_on_ack c b rtt now) = saturating_sub (cc_bytes_in_flight c) b;
  cc_on_timeout_flight c : cc_bytes_in_flight (cc_on_timeout c) = 0
}.

(** ** AIMD *)

Record Aimd : Type := mkAimd {
  am_cwnd : Z;                 (* u64 *)
  am_ssthresh : Z;             (* u64 *)
  am_bytes_in_flight : Z;      (* u64 *)
  am_last_loss : option Z      (* Option<Instant> *)
}.

Definition Aimd_new : Aimd := mkAimd (10 * MSS) U64_MAX 0 None.

Definition Aimd_on_send (c : Aimd) (bytes : Z) : Aimd :=
  mkAimd (am_cwnd c) (am_ssthresh c) (saturating_add 64 (am_bytes_in_flight c) bytes)
    (am_last_loss c).

(** [MSS * bytes] is an unchecked product: it wraps in a release build. *)
Definition Aimd_on_ack (c : Aimd) (bytes : Z) : Aimd :=
  let cwnd :=
    if am_cwnd c <? am_ssthresh c then saturating_add 64 (am_cwnd c) bytes
    else
      let inc := wrapping_mul 64 MSS bytes / Z.max (am_cwnd c) 1 in
      saturating_add 64 (am_cwnd c) (Z.max inc 1) in
  mkAimd cwnd (am_ssthresh c) (saturating_sub (am_bytes_in_flight c) bytes) (am_last_loss c).

Definition LOSS_GUARD : Z := from_millis 200.

Definition Aimd_on_loss (c : Aimd) (now : Z) : Aimd :=
  let recent := match am_last_loss c with
                | Some last => duration_since now last <? LOSS_GUARD
                | None => false
                end in
  if recent then c
  else
    let ssthresh := Z.max (am_cwnd c / 2) (2 * MSS) in
    mkAimd ssthresh ssthresh (am_bytes_in_flight c) (Some now).

Definition Aimd_on_timeout (c : Aimd) : Aimd :=
  mkAimd (2 * MSS) (Z.max (am_cwnd c / 2) (2 * MSS)) 0 (am_last_loss c).

#[export] Instance Aimd_cc : CongestionControl Aimd := {|
  cc_available := fun c => saturating_sub (am_cwnd c) (am_bytes_in_flight c);
  cc_cwnd := am_cwnd;
  cc_bytes_in_flight := am_bytes_in_flight;
  cc_on_send := Aimd_on_send;
  cc_on_ack := fun c b _ _ => Aimd_on_ack c b;
  cc_on_loss := Aimd_on_loss;
  cc_on_timeout := Aimd_on_timeout
|}.

#[export] Instance Aimd_laws : CongestionControlLaws Aimd.
Proof. by constructor. Qed.

(** ** CUBIC *)

Definition CUBIC_C : f64 := f64_lit 4 10.
Definition CUBIC_BETA : f64 := f64_lit 7 10.
Definition ALPHA_CUBIC : f64 :=
  f64_div (f64_mul (f64_of 3) CUBIC_BETA) (f64_sub (f64_of 2) CUBIC_BETA).
Definition MSS_f64 : f64 := f64_of MSS.

Record Cubic : Type := mkCubic {
  cb_cwnd : f64;
  cb_ssthresh : f64;
  cb_bytes_in_flight : Z;      (* u64 *)
  cb_w_max : f64;
  cb_w_last_max : f64;
  cb_epoch_start : option Z;   (* Option<Instant> *)
  cb_epoch_cwnd : f64;
  cb_w_est : f64;
  cb_last_rtt : Z              (* Duration *)
}.

Definition Cubic_new : Cubic :=
  let init := f64_mul (f64_of 10) MSS_f64 in
  mkCubic init f64_MAX 0 init init None init init (from_millis 100).

Section CubicCode.
Context {M : Libm}.

Definition cubic_window (c : Cubic) (t_secs : f64) : f64 :=
  let k := f64_cbrt (f64_div (f64_mul (cb_w_max c) (f64_sub (f64_of 1) CUBIC_BETA)) CUBIC_C) in
  f64_add (f64_mul CUBIC_C (f64_powi (f64_sub t_secs k) 3)) (cb_w_max c).

Definition tcp_friendly_window (c : Cubic) (acked : f64) : f64 :=
  f64_add (cb_w_est c) (f64_div (f64_mul (f64_mul ALPHA_CUBIC MSS_f64) acked) (cb_cwnd c)).

Definition Cubic_cwnd (c : Cubic) : Z := float_to_u 64 (cb_cwnd c).

Definition Cubic_on_send (c : Cubic) (bytes : Z) : Cubic :=
  mkCubic (cb_cwnd c) (cb_ssthresh c) (saturating_add 64 (cb_bytes_in_flight c) bytes)
    (cb_w_max c) (cb_w_last_max c) (cb_epoch_start c) (cb_epoch_cwnd c) (cb_w_est c)
    (cb_last_rtt c).

Definition Cubic_on_ack (c : Cubic) (bytes rtt now : Z) : Cubic :=
  let in_flight := saturating_sub (cb_bytes_in_flight c) bytes in
  let acked := f64_of bytes in
  if SFltb (cb_cwnd c) (cb_ssthresh c) then
    (* slow start *)
    let cwnd := f64_add (cb_cwnd c) acked in
    let leave := SFleb (cb_ssthresh c) cwnd in
    mkCubic cwnd (cb_ssthresh c) in_flight (cb_w_max c) (cb_w_last_max c)
      (if leave then Some now else cb_epoch_start c)
      (if leave then cwnd else cb_epoch_cwnd c) cwnd rtt
  else
    (* congestion avoidance *)
    let epoch_start := default now (cb_epoch_start c) in
    let t := as_secs_f64 (duration_since now epoch_start) in
    let w_cubic := cubic_window c t in
    let w_est := tcp_friendly_window c acked in
    let target := float_max w_cubic w_est in
    let cwnd :=
      if SFltb (cb_cwnd c) target then
        let inc := float_min (f64_sub target (cb_cwnd c)) MSS_f64 in
        f64_add (cb_cwnd c) (f64_div (f64_mul inc acked) (cb_cwnd c))
      else cb_cwnd c in
    mkCubic (float_max cwnd MSS_f64) (cb_ssthresh c) in_flight (cb_w_max c) (cb_w_last_max c)
      (Some epoch_start) (cb_epoch_cwnd c) w_est rtt.

Definition Cubic_on_loss (c : Cubic) : Cubic :=
  let '(w_last_max, w_max) :=
    if SFltb (cb_cwnd c) (cb_w_last_max c)
    then (cb_cwnd c, f64_div (f64_mul (cb_cwnd c) (f64_sub (f64_of 2) CUBIC_BETA)) (f64_of 2))
    else (cb_cwnd c, cb_cwnd c) in
  let ssthresh := float_max (f64_mul (cb_cwnd c) CUBIC_BETA) (f64_mul (f64_of 2) MSS_f64) in
  mkCubic ssthresh ssthresh (Z.min (cb_bytes_in_flight c) (float_to_u 64 ssthresh))
    w_max w_last_max None (cb_epoch_cwnd c) ssthresh (cb_last_rtt c).

Definition Cubic_on_timeout (c : Cubic) : Cubic :=
  let ssthresh := float_max (f64_mul (cb_cwnd c) CUBIC_BETA) (f64_mul (f64_of 2) MSS_f64) in
  mkCubic MSS_f64 ssthresh 0 (cb_cwnd c) (cb_w_last_max c) None (cb_epoch_cwnd c) MSS_f64
    (cb_last_rtt c).

#[export] Instance Cubic_cc : CongestionControl Cubic := {|
  cc_available := fun c => saturating_sub (Cubic_cwnd c) (cb_bytes_in_flight c);
  cc_cwnd := Cubic_cwnd;
  cc_bytes_in_flight := cb_bytes_in_flight;
  cc_on_send := Cubic_on_send;
  cc_on_ack := Cubic_on_ack;
  cc_on_loss := fun c _ => Cubic_on_loss c;
  cc_on_timeout := Cubic_on_timeout
|}.

#[export] Instance Cubic_laws : CongestionControlLaws Cubic.
Proof.
  constructor; try done. intros c b rtt now. cbn. unfold Cubic_on_ack.
  by destruct (SFltb (cb_cwnd c) (cb_ssthresh c)).
Qed.

End CubicCode.

(** ** BBR (trait implementation) *)

Inductive BbrState : Type := Startup | Drain | ProbeBW | ProbeRTT.

#[export] Instance BbrState_eq_dec : EqDecision BbrState.
Proof. solve_decision. Defined.

Definition STARTUP_GAIN : f64 := f64_lit 289 100.
Definition DRAIN_GAIN : f64 := f64_div (f64_of 1) STARTUP_GAIN.
Definition PROBE_GAINS : list f64 :=
  [f64_lit 125 100; f64_lit 75 100; f64_of 1; f64_of 1; f64_of 1; f64_of 1; f64_of 1; f64_of 1].
Definition BW_WINDOW_RTTS : nat := 10.
Definition RTPROP_WINDOW : Z := from_secs 10.
Definition PROBE_RTT_DURATION : Z := from_millis 200.
Definition MIN_PIPE_CWND : Z := 4 * MSS.

(** [PROBE_GAINS[i]]. *)
Definition probe_gain (i : nat) : f64 := nth i PROBE_GAINS f64_zero.

Record Bbr : Type := mkBbr {
  bb_state : BbrState;
  bb_btl_bw : f64;
  bb_bw_samples : list f64;            (* [f64; 10] *)
  bb_bw_sample_idx : nat;
  bb_rtprop : Z;
  bb_rtprop_stamp : Z;
  bb_pacing_gain : f64;
  bb_cwnd_gain : f64;
  bb_probe_cycle_idx : nat;
  bb_cycle_stamp : Z;
  bb_probe_rtt_done_stamp : option Z;
  bb_cwnd : Z;                         (* u64 *)
  bb_bytes_in_flight : Z;              (* u64 *)
  bb_delivered : Z;                    (* u64 *)
  bb_delivered_time : Z;
  bb_round_count : Z;                  (* u32 *)
  bb_full_pipe : bool;
  bb_prior_bw : f64;
  bb_full_pipe_count : Z               (* u32 *)
}.

Definition Bbr_new (now : Z) : Bbr :=
  mkBbr Startup f64_zero (replicate BW_WINDOW_RTTS f64_zero) 0 (from_secs 1) now STARTUP_GAIN
    STARTUP_GAIN 0 now None (10 * MSS) 0 0 now 0 false f64_zero 0.

Definition Bbr_update_bw (b : Bbr) (sample : f64) : Bbr :=
  let samples := <[bb_bw_sample_idx b := sample]> (bb_bw_samples b) in
  mkBbr (bb_state b) (fold_left float_max samples f64_zero) samples
    ((bb_bw_sample_idx b + 1) mod BW_WINDOW_RTTS) (bb_rtprop b) (bb_rtprop_stamp b)
    (bb_pacing_gain b) (bb_cwnd_gain b) (bb_probe_cycle_idx b) (bb_cycle_stamp b)
    (bb_probe_rtt_done_stamp b) (bb_cwnd b) (bb_bytes_in_flight b) (bb_delivered b)
    (bb_delivered_time b) (bb_round_count b) (bb_full_pipe b) (bb_prior_bw b)
    (bb_full_pipe_count b).

Definition Bbr_update_rtprop (b : Bbr) (rtt now : Z) : Bbr :=
  let expired := RTPROP_WINDOW <=? duration_since now (bb_rtprop_stamp b) in
  if (rtt <? bb_rtprop b) || expired || (bb_rtprop b =? from_secs 1) then
    mkBbr (bb_state b) (bb_btl_bw b) (bb_bw_samples b) (bb_bw_sample_idx b) rtt now
      (bb_pacing_gain b) (bb_cwnd_gain b) (bb_probe_cycle_idx b) (bb_cycle_stamp b)
      (bb_probe_rtt_done_stamp b) (bb_cwnd b) (bb_bytes_in_flight b) (bb_delivered b)
      (bb_delivered_time b) (bb_round_count b) (bb_full_pipe b) (bb_prior_bw b)
      (bb_full_pipe_count b)
  else b.

Definition Bbr_target_cwnd (b : Bbr) (gain : f64) : Z :=
  let bdp := f64_mul (bb_btl_bw b) (as_secs_f64 (bb_rtprop b)) in
  Z.max (float_to_u 64 (f64_mul bdp gain)) MIN_PIPE_CWND.

(** The fields the state machine of [on_ack] changes. *)
Definition Bbr_set_mode (b : Bbr) (st : BbrState) (pacing cwnd_gain : f64) (idx : nat)
  (cycle_stamp : Z) (done_stamp : option Z) (rtprop_stamp : Z) (full : bool) (prior : f64)
  (full_count : Z) : Bbr :=
  mkBbr st (bb_btl_bw b) (bb_bw_samples b) (bb_bw_sample_idx b) (bb_rtprop b) rtprop_stamp
    pacing cwnd_gain idx cycle_stamp done_stamp (bb_cwnd b) (bb_bytes_in_flight b)
    (bb_delivered b) (bb_delivered_time b) (bb_round_count b) full prior full_count.

Definition Bbr_advance_probe_bw (b : Bbr) (now : Z) : Bbr :=
  if bb_rtprop b <=? duration_since now (bb_cycle_stamp b) then
    let idx := ((bb_probe_cycle_idx b + 1) mod length PROBE_GAINS)%nat in
    Bbr_set_mode b (bb_state b) (probe_gain idx) (f64_of 2) idx now (bb_probe_rtt_done_stamp b)
      (bb_rtprop_stamp b) (bb_full_pipe b) (bb_prior_bw b) (bb_full_pipe_count b)
  else b.

Definition Bbr_set_full_pipe (b : Bbr) (full : bool) (prior : f64) (count : Z) : Bbr :=
  Bbr_set_mode b (bb_state b) (bb_pacing_gain b) (bb_cwnd_gain b) (bb_probe_cycle_idx b)
    (bb_cycle_stamp b) (bb_probe_rtt_done_stamp b) (bb_rtprop_stamp b) full prior count.

(** [full_pipe_count += 1] is below its width: it stops at 3. *)
Definition Bbr_check_full_pipe (b : Bbr) : Bbr :=
  if bb_full_pipe b || bool_decide (bb_state b <> Startup) then b
  else if SFleb (f64_mul (bb_prior_bw b) (f64_lit 125 100)) (bb_btl_bw b)
  then Bbr_set_full_pipe b (bb_full_pipe b) (bb_btl_bw b) 0
  else
    let count := wrapping_add 32 (bb_full_pipe_count b) 1 in
    Bbr_set_full_pipe b ((3 <=? count) || bb_full_pipe b) (bb_prior_bw b) count.

Definition Bbr_enter_drain (b : Bbr) : Bbr :=
  Bbr_set_mode b Drain DRAIN_GAIN STARTUP_GAIN (bb_probe_cycle_idx b) (bb_cycle_stamp b)
    (bb_probe_rtt_done_stamp b) (bb_rtprop_stamp b) (bb_full_pipe b) (bb_prior_bw b)
    (bb_full_pipe_count b).

Definition Bbr_enter_probe_bw (b : Bbr) (now : Z) : Bbr :=
  Bbr_set_mode b ProbeBW (probe_gain 0) (f64_of 2) 0 now (bb_probe_rtt_done_stamp b)
    (bb_rtprop_stamp b) (bb_full_pipe b) (bb_prior_bw b) (bb_full_pipe_count b).

Definition Bbr_maybe_enter_probe_rtt (b : Bbr) (now : Z) : Bbr :=
  if (RTPROP_WINDOW <=? duration_since now (bb_rtprop_stamp b))
     && bool_decide (bb_state b <> ProbeRTT)
  then Bbr_set_mode b ProbeRTT (bb_pacing_gain b) (bb_cwnd_gain b) (bb_probe_cycle_idx b)
         (bb_cycle_stamp b) (Some (now + PROBE_RTT_DURATION)) (bb_rtprop_stamp b)
         (bb_full_pipe b) (bb_prior_bw b) (bb_full_pipe_count b)
  else b.

Definition Bbr_maybe_exit_probe_rtt (b : Bbr) (now : Z) : Bbr :=
  if bool_decide (bb_state b = ProbeRTT) then
    match bb_probe_rtt_done_stamp b with
    | Some done_at =>
        if done_at <=? now then
          Bbr_enter_probe_bw
            (Bbr_set_mode b (bb_state b) (bb_pacing_gain b) (bb_cwnd_gain b)
               (bb_probe_cycle_idx b) (bb_cycle_stamp b) (bb_probe_rtt_done_stamp b) now
               (bb_full_pipe b) (bb_prior_bw b) (bb_full_pipe_count b)) now
        else b
    | None => b
    end
  else b.

Definition Bbr_on_send (b : Bbr) (bytes : Z) : Bbr :=
  mkBbr (bb_state b) (bb_btl_bw b) (bb_bw_samples b) (bb_bw_sample_idx b) (bb_rtprop b)
    (bb_rtprop_stamp b) (bb_pacing_gain b) (bb_cwnd_gain b) (bb_probe_cycle_idx b)
    (bb_cycle_stamp b) (bb_probe_rtt_done_stamp b) (bb_cwnd b)
    (saturating_add 64 (bb_bytes_in_flight b) bytes) (bb_delivered b) (bb_delivered_time b)
    (bb_round_count b) (bb_full_pipe b) (bb_prior_bw b) (bb_full_pipe_count b).

(** The counters [on_ack] updates before the bandwidth sample ... *)
Definition Bbr_account_ack (b : Bbr) (bytes : Z) : Bbr :=
  mkBbr (bb_state b) (bb_btl_bw b) (bb_bw_samples b) (bb_bw_sample_idx b) (bb_rtprop b)
    (bb_rtprop_stamp b) (bb_pacing_gain b) (bb_cwnd_gain b) (bb_probe_cycle_idx b)
    (bb_cycle_stamp b) (bb_probe_rtt_done_stamp b) (bb_cwnd b)
    (saturating_sub (bb_bytes_in_flight b) bytes) (saturating_add 64 (bb_delivered b) bytes)
    (bb_delivered_time b) (bb_round_count b) (bb_full_pipe b) (bb_prior_bw b)
    (bb_full_pipe_count b).

(** ... the time stamp after it ... *)
Definition Bbr_set_delivered_time (b : Bbr) (now : Z) : Bbr :=
  mkBbr (bb_state b) (bb_btl_bw b) (bb_bw_samples b) (bb_bw_sample_idx b) (bb_rtprop b)
    (bb_rtprop_stamp b) (bb_pacing_gain b) (bb_cwnd_gain b) (bb_probe_cycle_idx b)
    (bb_cycle_stamp b) (bb_probe_rtt_done_stamp b) (bb_cwnd b) (bb_bytes_in_flight b)
    (bb_delivered b) now (bb_round_count b) (bb_full_pipe b) (bb_prior_bw b)
    (bb_full_pipe_count b).

(** ... and the window with the round counter at its end. *)
Definition Bbr_set_cwnd (b : Bbr) (cwnd round_count : Z) : Bbr :=
  mkBbr (bb_state b) (bb_btl_bw b) (bb_bw_samples b) (bb_bw_sample_idx b) (bb_rtprop b)
    (bb_rtprop_stamp b) (bb_pacing_gain b) (bb_cwnd_gain b) (bb_probe_cycle_idx b)
    (bb_cycle_stamp b) (bb_probe_rtt_done_stamp b) cwnd (bb_bytes_in_flight b)
    (bb_delivered b) (bb_delivered_time b) round_count (bb_full_pipe b) (bb_prior_bw b)
    (bb_full_pipe_count b).

(** The state machine of [on_ack]. *)
Definition Bbr_transition (b : Bbr) (now : Z) : Bbr :=
  match bb_state b with
  | Startup =>
      let b1 := Bbr_check_full_pipe b in
      if bb_full_pipe b1 then Bbr_enter_drain b1 else b1
  | Drain =>
      if bb_bytes_in_flight b <=? Bbr_target_cwnd b (f64_of 1) then Bbr_enter_probe_bw b now else b
  | ProbeBW => Bbr_maybe_enter_probe_rtt (Bbr_advance_probe_bw b now) now
  | ProbeRTT => Bbr_maybe_exit_probe_rtt b now
  end.

Definition Bbr_on_ack (b0 : Bbr) (bytes rtt now : Z) : Bbr :=
  let b1 := Bbr_account_ack b0 bytes in
  let interval := float_max (as_secs_f64 (duration_since now (bb_delivered_time b1)))
                    (f64_lit 1 1000000) in
  let sample_bw := f64_div (f64_of bytes) interval in
  let b2 := Bbr_set_delivered_time (Bbr_update_bw b1 sample_bw) now in
  let b3 := Bbr_update_rtprop b2 rtt now in
  let b4 := Bbr_transition b3 now in
  let cwnd := if bool_decide (bb_state b4 = ProbeRTT) then MIN_PIPE_CWND
              else Bbr_target_cwnd b4 (bb_cwnd_gain b4) in
  Bbr_set_cwnd b4 cwnd (wrapping_add 32 (bb_round_count b4) 1).

Definition Bbr_on_loss (b : Bbr) : Bbr :=
  let new_cwnd := float_to_u 64 (f64_mul (f64_of (bb_cwnd b)) (f64_lit 85 100)) in
  Bbr_set_cwnd b (Z.max new_cwnd MIN_PIPE_CWND) (bb_round_count b).

Definition Bbr_on_timeout (b : Bbr) : Bbr :=
  mkBbr Startup (bb_btl_bw b) (bb_bw_samples b) (bb_bw_sample_idx b) (bb_rtprop b)
    (bb_rtprop_stamp b) STARTUP_GAIN STARTUP_GAIN (bb_probe_cycle_idx b) (bb_cycle_stamp b)
    (bb_probe_rtt_done_stamp b) MIN_PIPE_CWND 0 (bb_delivered b) (bb_delivered_time b)
    (bb_round_count b) false (bb_prior_bw b) 0.

#[export] Instance Bbr_cc : CongestionControl Bbr := {|
  cc_available := fun b => saturating_sub (bb_cwnd b) (bb_bytes_in_flight b);
  cc_cwnd := bb_cwnd;
  cc_bytes_in_flight := bb_bytes_in_flight;
  cc_on_send := Bbr_on_send;
  cc_on_ack := Bbr_on_ack;
  cc_on_loss := fun b _ => Bbr_on_loss b;
  cc_on_timeout := Bbr_on_timeout
|}.

(** ** Operation sequences, for any controller *)

Inductive CcOp : Type :=
  | CcSend (bytes : Z)
  | CcAck (bytes rtt now : Z)
  | CcLoss (now : Z)
  | CcTimeout.

Definition cc_step {T} {CC : CongestionControl T} (c : T) (op : CcOp) : T :=
  match op with
  | CcSend b => cc_on_send c b
  | CcAck b rtt now => cc_on_ack c b rtt now
  | CcLoss now => cc_on_loss c now
  | CcTimeout => cc_on_timeout c
  end.

Definition cc_run {T} {CC : CongestionControl T} (c : T) (ops : list CcOp) : T :=
  fold_left cc_step ops c.

(** Bytes outstanding in a history: sent and not yet acknowledged. *)
Fixpoint outstanding (n : Z) (ops : list CcOp) : option Z :=
  match ops with
  | [] => Some n
  | CcSend b :: r => if (0 <=? b) && (n + b <? 2 ^ 64) then outstanding (n + b) r else None
  | CcAck b _ _ :: r => if (0 <=? b) && (b <=? n) then outstanding (n - b) r else None
  | CcTimeout :: r => outstanding 0 r
  | CcLoss _ :: _ => None
  end.

Section Client.
Context {T : Type} {CC : CongestionControl T} {L : CongestionControlLaws T}.

(** Against the interface alone: in a history in which every acknowledgement
    covers bytes that were sent, the controller's count of bytes in flight is
    the number of bytes sent and not acknowledged since the last timeout. *)
Lemma cc_in_flight_exact c ops n :
  outstanding (cc_bytes_in_flight c) ops = Some n -> cc_bytes_in_flight (cc_run c ops) = n.
Proof.
  revert c. induction ops as [|op ops IH]; intros c; simpl; [congruence|].
  destruct op as [b|b rtt now|now|]; [| |done|].
  - destruct (_ && _) eqn:E; [|done]. cmp_facts. intros Hr. apply IH. cbn [cc_step].
    rewrite cc_on_send_flight. unfold saturating_add. rewrite Z.min_r by lia. done.
  - destruct (_ && _) eqn:E; [|done]. cmp_facts. intros Hr. apply IH. cbn [cc_step].
    rewrite cc_on_ack_flight, saturating_sub_le by lia. done.
  - intros Hr. apply IH. cbn [cc_step]. by rewrite cc_on_timeout_flight.
Qed.

(** A sender that sends only what is available stays inside the window. *)
Lemma cc_send_within_window c size :
  0 < size -> size <= cc_available c -> cc_cwnd c < 2 ^ 64 ->
  cc_bytes_in_flight (cc_on_send c size) <= cc_cwnd (cc_on_send c size).
Proof.
  rewrite cc_available_eq, cc_on_send_flight, cc_on_send_cwnd.
  unfold saturating_sub, saturating_add. lia.
Qed.

End Client.

(** ** AIMD *)

Record aimd_inv (c : Aimd) : Prop := {
  ai_cwnd : 2 * MSS <= am_cwnd c <= U64_MAX;
  ai_ssthresh : 2 * MSS <= am_ssthresh c <= U64_MAX;
  ai_flight : 0 <= am_bytes_in_flight c <= U64_MAX
}.

Lemma aimd_inv_new : aimd_inv Aimd_new.
Proof. by constructor; cbn; unfold MSS, U64_MAX. Qed.

(** The byte counts of the operations are [u64] values. *)
Definition cc_op_ok (op : CcOp) : Prop :=
  match op with CcSend b | CcAck b _ _ => is_u 64 b | _ => True end.

Lemma aimd_ack_grows c bytes : aimd_inv c -> is_u 64 bytes -> am_cwnd c <= am_cwnd (Aimd_on_ack c bytes).
Proof.
  intros [H1 H2 H3] Hb. unfold is_u in Hb. unfold Aimd_on_ack, saturating_add, U64_MAX in *.
  cbn [am_cwnd]. destruct (am_cwnd c <? am_ssthresh c); lia.
Qed.

Lemma aimd_step_inv c op : cc_op_ok op -> aimd_inv c -> aimd_inv (cc_step c op).
Proof.
  intros Hop Hinv. destruct Hinv as [H1 H2 H3]. unfold MSS, U64_MAX in *.
  destruct op as [b|b rtt now|now|]; cbn [cc_step Aimd_cc cc_on_send cc_on_ack cc_on_loss cc_on_timeout].
  - unfold cc_op_ok, is_u in Hop. constructor; cbn; unfold MSS, U64_MAX, saturating_add; lia.
  - pose proof (aimd_ack_grows c b ltac:(by constructor) Hop) as Hg.
    unfold cc_op_ok, is_u in Hop.
    assert (am_cwnd (Aimd_on_ack c b) <= 2 ^ 64 - 1)
      by (unfold Aimd_on_ack, saturating_add; cbn [am_cwnd]; destruct (_ <? _); lia).
    constructor; unfold MSS, U64_MAX; [lia|cbn; lia|cbn; unfold saturating_sub; lia].
  - unfold Aimd_on_loss. assert (am_cwnd c / 2 <= am_cwnd c) by (apply Z.div_le_upper_bound; lia).
    case_match; constructor; cbn; unfold MSS, U64_MAX; lia.
  - assert (am_cwnd c / 2 <= am_cwnd c) by (apply Z.div_le_upper_bound; lia).
    constructor; cbn; unfold MSS, U64_MAX; lia.
Qed.

Lemma aimd_run_inv ops : Forall cc_op_ok ops -> forall c, aimd_inv c -> aimd_inv (cc_run c ops).
Proof.
  induction 1 as [|op ops Hop _ IH]; intros c Hc; [done|]. cbn. apply IH. by apply aimd_step_inv.
Qed.

(** However many losses are reported within 200 ms of the one that was acted
    on, the window is halved once. *)
Lemma aimd_loss_once c t ts :
  (forall l, am_last_loss c = Some l -> LOSS_GUARD <= duration_since t l) ->
  Forall (fun t' => duration_since t' t < LOSS_GUARD) ts ->
  cc_run c (map CcLoss (t :: ts)) = Aimd_on_loss c t
  /\ am_cwnd (Aimd_on_loss c t) = Z.max (am_cwnd c / 2) (2 * MSS).
Proof.
  intros Hl Hts. cbn [map cc_run fold_left]. cbn [cc_step Aimd_cc cc_on_loss].
  assert (E : Aimd_on_loss c t = mkAimd (Z.max (am_cwnd c / 2) (2 * MSS))
                (Z.max (am_cwnd c / 2) (2 * MSS)) (am_bytes_in_flight c) (Some t)).
  { unfold Aimd_on_loss. destruct (am_last_loss c) as [l|]; [|done].
    specialize (Hl l eq_refl). destruct (_ <? _) eqn:E; [cmp_facts; lia|done]. }
  rewrite E. split; [|done]. induction Hts as [|t' ts Ht _ IH]; [done|].
  cbn [map fold_left]. cbn [cc_step Aimd_cc cc_on_loss]. rewrite <- IH at 2. f_equal.
  unfold Aimd_on_loss. cbn [am_last_loss]. apply Z.ltb_lt in Ht. by rewrite Ht.
Qed.

(** ** CUBIC *)

(** Outside slow start the window never drops below one segment, and it is a
    number: no NaN survives the update. *)
Lemma cubic_avoidance_floor {M : Libm} c bytes rtt now :
  SFltb (cb_cwnd c) (cb_ssthresh c) = false -> fle MSS_f64 (cb_cwnd (Cubic_on_ack c bytes rtt now)).
Proof. intros H. unfold Cubic_on_ack. rewrite H. cbn [cb_cwnd]. by apply float_max_ge_r. Qed.

(** After a loss the window is at least two segments and slow start is over. *)
Lemma cubic_loss_floor c :
  fle (f64_mul (f64_of 2) MSS_f64) (cb_cwnd (Cubic_on_loss c))
  /\ SFltb (cb_cwnd (Cubic_on_loss c)) (cb_ssthresh (Cubic_on_loss c)) = false
  /\ cb_bytes_in_flight (Cubic_on_loss c) <= Cubic_cwnd (Cubic_on_loss c).
Proof.
  unfold Cubic_on_loss. destruct (SFltb (cb_cwnd c) (cb_w_last_max c)); cbn -[f64_mul f64_of].
  all: set (s := float_max _ _); assert (Hs : fle (f64_mul (f64_of 2) MSS_f64) s)
    by (by apply float_max_ge_r).
  all: split; [done|]; split; [apply fle_flt_false, fle_refl; by apply float_max_nan
                              |unfold Cubic_cwnd; cbn; lia].
Qed.

(** A timeout leaves one segment, below the slow-start threshold. *)
Lemma cubic_timeout_slow_start c :
  Cubic_cwnd (Cubic_on_timeout c) = MSS
  /\ SFltb (cb_cwnd (Cubic_on_timeout c)) (cb_ssthresh (Cubic_on_timeout c)) = true.
Proof.
  split; [vm_compute; reflexivity|]. cbn -[f64_mul f64_of].
  set (s := float_max _ _). assert (Hs : fle (f64_mul (f64_of 2) MSS_f64) s)
    by (by apply float_max_ge_r).
  apply flt_key. apply fle_key in Hs as (_ & Hn & Hk). split; [done|]. split; [done|].
  revert Hk. unfold key_le. change (fkey (f64_mul (f64_of 2) MSS_f64)) with (1, -41, 6157265115545600).
  change (fkey MSS_f64) with (1, -42, 6157265115545600). cbn [fst snd]. lia.
Qed.

(** ** BBR *)

#[export] Instance Bbr_laws : CongestionControlLaws Bbr.
Proof.
  constructor; try done. intros b bytes rtt now. cbn [cc_bytes_in_flight cc_on_ack Bbr_cc].
  unfold Bbr_on_ack. cbn [Bbr_set_cwnd bb_bytes_in_flight].
  set (b1 := Bbr_set_delivered_time _ _).
  assert (E1 : bb_bytes_in_flight b1 = saturating_sub (bb_bytes_in_flight b) bytes) by done.
  rewrite <- E1. clearbody b1. clear E1 b.
  assert (E2 : bb_bytes_in_flight (Bbr_update_rtprop b1 rtt now) = bb_bytes_in_flight b1)
    by (unfold Bbr_update_rtprop; by case_match).
  rewrite <- E2. generalize (Bbr_update_rtprop b1 rtt now). intros b.
  unfold Bbr_transition, Bbr_check_full_pipe, Bbr_maybe_enter_probe_rtt, Bbr_advance_probe_bw,
    Bbr_maybe_exit_probe_rtt. repeat case_match; done.
Qed.

Record bbr_inv (b : Bbr) : Prop := {
  bi_cwnd : MIN_PIPE_CWND <= bb_cwnd b < 2 ^ 64;
  bi_samples : length (bb_bw_samples b) = BW_WINDOW_RTTS;
  bi_sample_idx : (bb_bw_sample_idx b < BW_WINDOW_RTTS)%nat;
  bi_cycle_idx : (bb_probe_cycle_idx b < length PROBE_GAINS)%nat;
  bi_state : bb_state b <> ProbeRTT;
  bi_full_count : 0 <= bb_full_pipe_count b <= 3;
  bi_full : bb_full_pipe b = false -> bb_full_pipe_count b < 3;
  bi_startup : bb_state b = Startup -> bb_full_pipe b = false
}.

Lemma bbr_inv_new now : bbr_inv (Bbr_new now).
Proof. constructor; cbn; unfold MIN_PIPE_CWND, MSS, BW_WINDOW_RTTS; try done; lia. Qed.

(** The invariant does not mention the fields these updates change. *)
Lemma bbr_inv_account b bytes : bbr_inv b -> bbr_inv (Bbr_account_ack b bytes).
Proof. by intros []; constructor. Qed.

Lemma bbr_inv_delivered b now : bbr_inv b -> bbr_inv (Bbr_set_delivered_time b now).
Proof. by intros []; constructor. Qed.

Lemma bbr_inv_update_bw b s : bbr_inv b -> bbr_inv (Bbr_update_bw b s).
Proof.
  intros []; constructor; cbn [Bbr_update_bw bb_cwnd bb_bw_samples bb_bw_sample_idx
    bb_probe_cycle_idx bb_state bb_full_pipe_count bb_full_pipe]; try done.
  - by rewrite length_insert.
  - apply Nat.mod_upper_bound. done.
Qed.

(** The refresh of the round-trip estimate leaves a time stamp younger than
    the window: the condition for probing is gone. *)
Lemma bbr_rtprop_fresh b rtt now :
  duration_since now (bb_rtprop_stamp (Bbr_update_rtprop b rtt now)) < RTPROP_WINDOW.
Proof.
  unfold Bbr_update_rtprop. destruct (_ || _ || _) eqn:E; cbn [bb_rtprop_stamp].
  - unfold duration_since, saturating_sub, RTPROP_WINDOW, from_secs. lia.
  - apply orb_false_iff in E as [E _]. apply orb_false_iff in E as [_ E]. by cmp_facts.
Qed.

Lemma bbr_inv_update_rtprop b rtt now : bbr_inv b -> bbr_inv (Bbr_update_rtprop b rtt now).
Proof. intros Hb. unfold Bbr_update_rtprop. case_match; [|done]. by destruct Hb; constructor. Qed.

Lemma bbr_inv_transition b now :
  bbr_inv b -> duration_since now (bb_rtprop_stamp b) < RTPROP_WINDOW ->
  bbr_inv (Bbr_transition b now).
Proof.
  intros Hb Hf. pose proof Hb as [Hc Hs Hi Hy Hst Hn Hfu Hsu].
  assert (Hprobe : forall b', bb_rtprop_stamp b' = bb_rtprop_stamp b ->
                     Bbr_maybe_enter_probe_rtt b' now = b').
  { intros b' E. unfold Bbr_maybe_enter_probe_rtt. rewrite E.
    replace (RTPROP_WINDOW <=? _) with false by (symmetry; apply Z.leb_gt; lia). done. }
  unfold Bbr_transition. destruct (bb_state b) eqn:Es; [| | |done].
  - unfold Bbr_check_full_pipe. rewrite Es, (Hsu eq_refl). cbn [orb].
    rewrite bool_decide_eq_false_2 by (intros Hne; by apply Hne).
    specialize (Hfu (Hsu eq_refl)).
    destruct (SFleb _ _).
    + cbn. constructor; cbn; rewrite ?Es; try done; lia.
    + assert (Ew : wrapping_add 32 (bb_full_pipe_count b) 1 = bb_full_pipe_count b + 1)
        by (unfold wrapping_add; apply wrap_small; unfold is_u; lia).
      rewrite Ew. cbn [Bbr_set_full_pipe Bbr_set_mode bb_full_pipe]. rewrite orb_false_r.
      destruct (3 <=? _) eqn:E3; cmp_facts; constructor; cbn; rewrite ?Es; try done; lia.
  - destruct (_ <=? _); [|done].
    constructor; cbn [Bbr_enter_probe_bw Bbr_set_mode bb_cwnd bb_bw_samples bb_bw_sample_idx
      bb_probe_cycle_idx bb_state bb_full_pipe_count bb_full_pipe]; try done. cbn; lia.
  - unfold Bbr_advance_probe_bw. destruct (_ <=? _).
    + rewrite Hprobe by done. constructor; cbn [Bbr_set_mode bb_cwnd bb_bw_samples
        bb_bw_sample_idx bb_probe_cycle_idx bb_state bb_full_pipe_count bb_full_pipe]; try done.
      * apply Nat.mod_upper_bound. done.
      * by rewrite Es.
      * by rewrite Es.
    + by rewrite Hprobe.
Qed.

Lemma bbr_inv_set_cwnd b c r :
  MIN_PIPE_CWND <= c < 2 ^ 64 -> bbr_inv b -> bbr_inv (Bbr_set_cwnd b c r).
Proof. by intros Hc []; constructor. Qed.

Lemma bbr_target_bound b g : MIN_PIPE_CWND <= Bbr_target_cwnd b g < 2 ^ 64.
Proof.
  unfold Bbr_target_cwnd. pose proof (float_to_u_range 64
    (f64_mul (f64_mul (bb_btl_bw b) (as_secs_f64 (bb_rtprop b))) g) ltac:(lia)) as H.
  unfold is_u in H. unfold MIN_PIPE_CWND, MSS in *. lia.
Qed.

Lemma bbr_step_inv b op : bbr_inv b -> bbr_inv (cc_step b op).
Proof.
  intros Hb. destruct op as [n|n rtt now|now|]; cbn [cc_step Bbr_cc cc_on_send cc_on_ack cc_on_loss cc_on_timeout].
  - by destruct Hb; constructor.
  - unfold Bbr_on_ack. cbv zeta. apply bbr_inv_set_cwnd.
    + case_match; [unfold MIN_PIPE_CWND, MSS; lia|apply bbr_target_bound].
    + apply bbr_inv_transition; [|apply bbr_rtprop_fresh].
      by apply bbr_inv_update_rtprop, bbr_inv_delivered, bbr_inv_update_bw, bbr_inv_account.
  - unfold Bbr_on_loss. apply bbr_inv_set_cwnd; [|done].
    pose proof (float_to_u_range 64 (f64_mul (f64_of (bb_cwnd b)) (f64_lit 85 100)) ltac:(lia)) as H.
    unfold is_u in H. unfold MIN_PIPE_CWND, MSS in *. lia.
  - destruct Hb. constructor; cbn; try done; unfold MIN_PIPE_CWND, MSS; lia.
Qed.

(** Whatever sequence of sends, acknowledgements, losses and timeouts a
    [Bbr] controller goes through, its window stays at or above four segments
    and its sample ring and gain cycle stay in range; and it never enters
    ProbeRTT, because [on_ack] refreshes the round-trip time stamp whenever
    the ten-second window has passed, just before it tests that window. *)
Theorem bbr_never_probes_rtt now0 ops :
  let b := cc_run (Bbr_new now0) ops in
  bb_state b <> ProbeRTT
  /\ MIN_PIPE_CWND <= cc_cwnd b < 2 ^ 64
  /\ length (bb_bw_samples b) = BW_WINDOW_RTTS /\ (bb_bw_sample_idx b < BW_WINDOW_RTTS)%nat
  /\ (bb_probe_cycle_idx b < length PROBE_GAINS)%nat.
Proof.
  assert (H : bbr_inv (cc_run (Bbr_new now0) ops)).
  { generalize (Bbr_new now0) (bbr_inv_new now0). unfold cc_run.
    induction ops as [|op ops IH]; intros b Hb; [done|]. cbn. apply IH. by apply bbr_step_inv. }
  destruct H. done.
Qed.
