(* ===== verification/Congestion.v ===== *)
(** * The advisory BBR controller

    src/src/transport/congestion.rs: [WindowedMaxFilter], the monotone-deque
    sliding maximum, and [BbrController], which the connection consults beside
    its trait-based controller.  The filter is proved to refine its
    specification, the maximum of all samples of the last [window_size]
    rounds. *)

From Stdlib Require Import ZArith Lia Bool List Sorting.
From Stdlib Require Import Floats.SpecFloat.
From stdpp Require Import base list numbers option.
From S2P Require Import Prelude Float Cc.

Open Scope Z_scope.

(** ** [WindowedMaxFilter] *)

Record WindowedMaxFilter : Type := mkFilter {
  wf_window : list (Z * f64);      (* front first *)
  wf_window_size : Z               (* u64 *)
}.

Definition WindowedMaxFilter_new (window_size : Z) : WindowedMaxFilter := mkFilter [] window_size.

(** The [while let] loop on one end of the deque. *)
Fixpoint drop_while {A} (p : A -> bool) (l : list A) : list A :=
  match l with
  | [] => []
  | x :: l' => if p x then drop_while p l' else l
  end.

Definition stale (size round : Z) (e : Z * f64) : bool := size <=? saturating_sub round e.1.
Definition dominated (value : f64) (e : Z * f64) : bool := SFleb e.2 value.

Definition WindowedMaxFilter_update (f : WindowedMaxFilter) (round : Z) (value : f64)
  : WindowedMaxFilter :=
  let w1 := drop_while (stale (wf_window_size f) round) (wf_window f) in
  let w2 := rev (drop_while (dominated value) (rev w1)) in
  mkFilter (w2 ++ [(round, value)]) (wf_window_size f).

Definition WindowedMaxFilter_max (f : WindowedMaxFilter) : f64 :=
  match wf_window f with
  | [] => f64_zero
  | e :: _ => e.2
  end.

(** ** [BbrController] *)

Definition BW_WINDOW_ROUNDS : Z := 10.
Definition MIN_CWND : Z := 4 * 1400.

Record BbrController : Type := mkBbrController {
  bc_btl_bw : f64;
  bc_min_rtt : Z;
  bc_min_rtt_stamp : Z;
  bc_pacing_rate : f64;
  bc_state : BbrState;
  bc_bw_filter : WindowedMaxFilter;
  bc_inflight : Z;                       (* usize *)
  bc_cycle_idx : nat;                    (* u8 *)
  bc_cycle_stamp : Z;
  bc_round : Z;                          (* u64 *)
  bc_full_pipe : bool;
  bc_prior_bw : f64;
  bc_full_pipe_count : Z;                (* u32 *)
  bc_probe_rtt_done_stamp : option Z;
  bc_state_before_probe_rtt : BbrState
}.

Definition BbrController_new (now : Z) : BbrController :=
  mkBbrController f64_zero (from_secs 1) now f64_zero Startup
    (WindowedMaxFilter_new BW_WINDOW_ROUNDS) 0 0 now 0 false f64_zero 0 None ProbeBW.

Definition bc_bdp (c : BbrController) : Z :=
  if SFeqb (bc_btl_bw c) f64_zero then MIN_CWND
  else float_to_u 64 (f64_ceil (f64_mul (bc_btl_bw c) (as_secs_f64 (bc_min_rtt c)))).

Definition bc_cwnd (c : BbrController) : Z :=
  if bool_decide (bc_state c = ProbeRTT) then MIN_CWND
  else
    let gain := match bc_state c with
                | Startup => STARTUP_GAIN
                | Drain => DRAIN_GAIN
                | ProbeBW => f64_of 2
                | ProbeRTT => f64_of 1
                end in
    float_to_u 64 (f64_ceil (f64_mul (f64_of (bc_bdp c)) gain)).

Definition bc_should_send (c : BbrController) (inflight : Z) : bool :=
  inflight <? Z.max (bc_cwnd c) MIN_CWND.

Definition bc_set_inflight (c : BbrController) (v : Z) : BbrController :=
  mkBbrController (bc_btl_bw c) (bc_min_rtt c) (bc_min_rtt_stamp c) (bc_pacing_rate c)
    (bc_state c) (bc_bw_filter c) v (bc_cycle_idx c) (bc_cycle_stamp c) (bc_round c)
    (bc_full_pipe c) (bc_prior_bw c) (bc_full_pipe_count c) (bc_probe_rtt_done_stamp c)
    (bc_state_before_probe_rtt c).

Definition bc_on_send (c : BbrController) (bytes : Z) : BbrController :=
  bc_set_inflight c (saturating_add 64 (bc_inflight c) bytes).

Definition bc_update_pacing_rate (c : BbrController) : BbrController :=
  let gain := match bc_state c with
              | Startup => STARTUP_GAIN
              | Drain => DRAIN_GAIN
              | ProbeBW => probe_gain (bc_cycle_idx c)
              | ProbeRTT => f64_of 1
              end in
  mkBbrController (bc_btl_bw c) (bc_min_rtt c) (bc_min_rtt_stamp c)
    (f64_mul (bc_btl_bw c) gain) (bc_state c) (bc_bw_filter c) (bc_inflight c)
    (bc_cycle_idx c) (bc_cycle_stamp c) (bc_round c) (bc_full_pipe c) (bc_prior_bw c)
    (bc_full_pipe_count c) (bc_probe_rtt_done_stamp c) (bc_state_before_probe_rtt c).

Definition bc_update_min_rtt (c : BbrController) (rtt now : Z) : BbrController :=
  let expired := RTPROP_WINDOW <=? duration_since now (bc_min_rtt_stamp c) in
  if (rtt <=? bc_min_rtt c) || expired || (bc_min_rtt c =? from_secs 1) then
    mkBbrController (bc_btl_bw c) rtt now (bc_pacing_rate c) (bc_state c) (bc_bw_filter c)
      (bc_inflight c) (bc_cycle_idx c) (bc_cycle_stamp c) (bc_round c) (bc_full_pipe c)
      (bc_prior_bw c) (bc_full_pipe_count c) (bc_probe_rtt_done_stamp c)
      (bc_state_before_probe_rtt c)
  else c.

(** The state-machine fields. *)
Definition bc_set_mode (c : BbrController) (st : BbrState) (idx : nat) (cycle_stamp rtt_stamp : Z)
  (done_at : option Z) (before : BbrState) : BbrController :=
  mkBbrController (bc_btl_bw c) (bc_min_rtt c) rtt_stamp (bc_pacing_rate c) st (bc_bw_filter c)
    (bc_inflight c) idx cycle_stamp (bc_round c) (bc_full_pipe c) (bc_prior_bw c)
    (bc_full_pipe_count c) done_at before.

Definition bc_set_full_pipe (c : BbrController) (full : bool) (prior : f64) (count : Z)
  : BbrController :=
  mkBbrController (bc_btl_bw c) (bc_min_rtt c) (bc_min_rtt_stamp c) (bc_pacing_rate c)
    (bc_state c) (bc_bw_filter c) (bc_inflight c) (bc_cycle_idx c) (bc_cycle_stamp c)
    (bc_round c) full prior count (bc_probe_rtt_done_stamp c) (bc_state_before_probe_rtt c).

Definition bc_check_full_pipe (c : BbrController) (prev_bw : f64) : BbrController :=
  if bc_full_pipe c then c
  else if SFleb (f64_mul prev_bw (f64_lit 125 100)) (bc_btl_bw c)
  then bc_set_full_pipe c (bc_full_pipe c) (bc_btl_bw c) 0
  else
    let count := wrapping_add 32 (bc_full_pipe_count c) 1 in
    bc_set_full_pipe c (3 <=? count) (bc_prior_bw c) count.

Definition bc_enter_probe_bw (c : BbrController) (now : Z) : BbrController :=
  bc_update_pacing_rate
    (bc_set_mode c ProbeBW 0 now (bc_min_rtt_stamp c) (bc_probe_rtt_done_stamp c)
       (bc_state_before_probe_rtt c)).

Definition bc_advance_probe_bw (c : BbrController) (now : Z) : BbrController :=
  if bc_min_rtt c <=? duration_since now (bc_cycle_stamp c) then
    bc_update_pacing_rate
      (bc_set_mode c (bc_state c) ((bc_cycle_idx c + 1) mod length PROBE_GAINS) now
         (bc_min_rtt_stamp c) (bc_probe_rtt_done_stamp c) (bc_state_before_probe_rtt c))
  else c.

Definition bc_maybe_enter_probe_rtt (c : BbrController) (now : Z) : BbrController :=
  if (RTPROP_WINDOW <=? duration_since now (bc_min_rtt_stamp c))
     && bool_decide (bc_state c <> ProbeRTT)
  then bc_set_mode c ProbeRTT (bc_cycle_idx c) (bc_cycle_stamp c) (bc_min_rtt_stamp c)
         (Some (now + PROBE_RTT_DURATION)) (bc_state c)
  else c.

Definition bc_maybe_exit_probe_rtt (c : BbrController) (now : Z) : BbrController :=
  match bc_probe_rtt_done_stamp c with
  | Some done_at =>
      if done_at <=? now then
        bc_update_pacing_rate
          (bc_set_mode c ProbeBW 0 now now None (bc_state_before_probe_rtt c))
      else c
  | None => c
  end.

(** The transitions of [on_ack]; [prev_bw] is the estimate before this ACK. *)
Definition bc_transition (c : BbrController) (prev_bw : f64) (now : Z) : BbrController :=
  match bc_state c with
  | Startup =>
      let c1 := bc_check_full_pipe c prev_bw in
      if bc_full_pipe c1
      then bc_set_mode c1 Drain (bc_cycle_idx c1) (bc_cycle_stamp c1) (bc_min_rtt_stamp c1)
             (bc_probe_rtt_done_stamp c1) (bc_state_before_probe_rtt c1)
      else c1
  | Drain => if bc_inflight c <=? bc_bdp c then bc_enter_probe_bw c now else c
  | ProbeBW => bc_maybe_enter_probe_rtt (bc_advance_probe_bw c now) now
  | ProbeRTT => bc_maybe_exit_probe_rtt c now
  end.

(** The round counter and bytes in flight. *)
Definition bc_begin_ack (c : BbrController) (bytes_acked : Z) : BbrController :=
  mkBbrController (bc_btl_bw c) (bc_min_rtt c) (bc_min_rtt_stamp c) (bc_pacing_rate c)
    (bc_state c) (bc_bw_filter c) (saturating_sub (bc_inflight c) bytes_acked)
    (bc_cycle_idx c) (bc_cycle_stamp c) (wrapping_add 64 (bc_round c) 1) (bc_full_pipe c)
    (bc_prior_bw c) (bc_full_pipe_count c) (bc_probe_rtt_done_stamp c)
    (bc_state_before_probe_rtt c).

(** The bandwidth filter and the estimate taken from it. *)
Definition bc_sample_bw (c : BbrController) (delivery_rate : f64) : BbrController :=
  let f := WindowedMaxFilter_update (bc_bw_filter c) (bc_round c) delivery_rate in
  mkBbrController (WindowedMaxFilter_max f) (bc_min_rtt c) (bc_min_rtt_stamp c)
    (bc_pacing_rate c) (bc_state c) f (bc_inflight c) (bc_cycle_idx c) (bc_cycle_stamp c)
    (bc_round c) (bc_full_pipe c) (bc_prior_bw c) (bc_full_pipe_count c)
    (bc_probe_rtt_done_stamp c) (bc_state_before_probe_rtt c).

Definition bc_on_ack (c0 : BbrController) (bytes_acked rtt timestamp : Z) : BbrController :=
  let c1 := bc_update_min_rtt (bc_begin_ack c0 bytes_acked) rtt timestamp in
  let elapsed := float_max (as_secs_f64 rtt) (f64_lit 1 1000000) in
  let delivery_rate := f64_div (f64_of bytes_acked) elapsed in
  let prev_bw := bc_btl_bw c1 in
  let c2 := bc_update_pacing_rate (bc_sample_bw c1 delivery_rate) in
  bc_transition c2 prev_bw timestamp.

(** ** The filter refines the windowed maximum *)

Lemma drop_while_split {A} (p : A -> bool) l :
  exists l1, l = l1 ++ drop_while p l /\ Forall (fun x => p x = true) l1
    /\ (forall x r, drop_while p l = x :: r -> p x = false).
Proof.
  induction l as [|a l (l1 & E & Hp & Hh)]; simpl.
  - exists []. split; [done|]. split; [constructor|done].
  - destruct (p a) eqn:Ha.
    + exists (a :: l1). split; [by rewrite <- app_comm_cons, <- E|]. split; [by constructor|done].
    + exists []. split; [done|]. split; [constructor|]. by intros x r [= <- <-].
Qed.

(** Samples of the last [size] rounds, [c] being the current one. *)
Definition in_window (size c : Z) (e : Z * f64) : Prop := c - e.1 < size.

(** Later entries have later rounds and strictly smaller values. *)
Definition entry_lt (a b : Z * f64) : Prop := a.1 < b.1 /\ flt b.2 a.2.

Record filter_inv (size c : Z) (hist w : list (Z * f64)) : Prop := {
  fi_in : forall e, e ∈ w -> e ∈ hist /\ in_window size c e;
  fi_sorted : StronglySorted entry_lt w;
  fi_dom : forall e, e ∈ hist -> in_window size c e -> exists e', e' ∈ w /\ e.1 <= e'.1 /\ fle e.2 e'.2
}.

Lemma StronglySorted_app {A} (R : A -> A -> Prop) l1 l2 :
  StronglySorted R (l1 ++ l2) ->
  StronglySorted R l1 /\ StronglySorted R l2 /\ (forall x y, x ∈ l1 -> y ∈ l2 -> R x y).
Proof.
  induction l1 as [|a l1 IH]; simpl; intros H.
  - split; [constructor|]. split; [done|]. intros x y Hx. by apply not_elem_of_nil in Hx.
  - apply StronglySorted_inv in H as [H Ha]. destruct (IH H) as (H1 & H2 & H3).
    rewrite List.Forall_app in Ha. destruct Ha as [Ha1 Ha2]. split; [by constructor|]. split; [done|].
    intros x y [->|Hx]%elem_of_cons Hy; [|auto].
    rewrite List.Forall_forall in Ha2. apply Ha2. by apply list_elem_of_In.
Qed.

Lemma StronglySorted_snoc {A} (R : A -> A -> Prop) l x :
  StronglySorted R l -> (forall y, y ∈ l -> R y x) -> StronglySorted R (l ++ [x]).
Proof.
  induction l as [|a l IH]; simpl; intros H Hx; [repeat constructor|].
  apply StronglySorted_inv in H as [H Ha]. constructor.
  - apply IH; [done|]. intros y Hy. apply Hx. by right.
  - rewrite List.Forall_app. split; [done|]. constructor; [|constructor]. apply Hx. by left.
Qed.

(** Eviction removes exactly the stale prefix. *)
Lemma evict_inv size c c' hist w :
  0 < size -> (forall e, e ∈ hist -> e.1 <= c) -> c < c' ->
  filter_inv size c hist w -> filter_inv size c' hist (drop_while (stale size c') w).
Proof.
  intros Hs Hc Hcc [Hin Hso Hdom].
  destruct (drop_while_split (stale size c') w) as (l1 & E & Hp & Hh).
  set (w' := drop_while (stale size c') w) in *. rewrite E in Hso.
  destruct (StronglySorted_app _ _ _ Hso) as (_ & Hso' & _).
  assert (Hst : forall e, e ∈ w -> stale size c' e = false <-> in_window size c' e).
  { intros e He. destruct (Hin e He) as [Hh' _]. specialize (Hc e Hh').
    unfold stale, in_window, saturating_sub. rewrite Z.leb_gt. lia. }
  assert (Hw' : forall e, e ∈ w' -> in_window size c' e).
  { intros e He. destruct w' as [|x r] eqn:Ew; [by apply not_elem_of_nil in He|].
    pose proof (Hh x r eq_refl) as Hx.
    assert (Hxw : x ∈ w) by (rewrite E; apply elem_of_app; right; by left).
    apply (Hst x Hxw) in Hx. apply elem_of_cons in He as [->|He]; [done|].
    apply StronglySorted_inv in Hso' as [_ Hf]. rewrite List.Forall_forall in Hf.
    destruct (Hf e ltac:(by apply list_elem_of_In)) as [Hlt _]. unfold in_window in *. lia. }
  constructor.
  - intros e He. split; [|by apply Hw']. apply Hin. rewrite E. apply elem_of_app. by right.
  - done.
  - intros e He Hiw. destruct (Hdom e He) as (e' & He' & Hr & Hle); [unfold in_window in *; lia|].
    assert (He'w : e' ∈ w) by done.
    rewrite E in He'. apply elem_of_app in He' as [He'|He']; [|by exists e'].
    rewrite List.Forall_forall in Hp.
    assert (Hst' : stale size c' e' = true) by (apply Hp; by apply list_elem_of_In).
    assert (in_window size c' e') as Hiw' by (unfold in_window in *; lia).
    apply Hst in Hiw'; [congruence|done].
Qed.

(** Popping the dominated suffix and pushing the new sample. *)
Lemma push_inv size c hist w v :
  0 < size -> is_nan v = false -> (forall e, e ∈ hist -> e.1 < c) ->
  Forall (fun e => is_nan e.2 = false) hist ->
  filter_inv size c hist w ->
  filter_inv size c ((c, v) :: hist) (rev (drop_while (dominated v) (rev w)) ++ [(c, v)]).
Proof.
  intros Hs Hv Hc Hn [Hin Hso Hdom].
  destruct (drop_while_split (dominated v) (rev w)) as (l1 & E & Hp & Hh).
  set (k := drop_while (dominated v) (rev w)) in *.
  assert (Ew : w = rev k ++ rev l1) by (rewrite <- rev_app_distr, <- E; by rewrite rev_involutive).
  rewrite Ew in Hso. destruct (StronglySorted_app _ _ _ Hso) as (Hsk & _ & _).
  assert (Hgt : forall e, e ∈ rev k -> flt v e.2).
  { intros e He. destruct k as [|x r] eqn:Ek; [by apply not_elem_of_nil in He|].
    pose proof (Hh x r eq_refl) as Hx. cbn [rev] in *.
    assert (Hnan : forall e', e' ∈ rev r ++ [x] -> is_nan e'.2 = false).
    { intros e' He'. destruct (Hin e') as [Hi _]; [rewrite Ew; apply elem_of_app; by left|].
      rewrite List.Forall_forall in Hn. apply Hn. by apply list_elem_of_In. }
    assert (Hvx : flt v x.2).
    { apply not_fle_flt; [|done|exact Hx]. apply Hnan. apply elem_of_app; right; by left. }
    apply StronglySorted_app in Hsk as (_ & _ & Hlast).
    apply elem_of_app in He as [He|He]; [|apply list_elem_of_singleton in He; by subst].
    destruct (Hlast e x He ltac:(by left)) as [_ Hex].
    apply flt_key in Hvx as (? & ? & Hk1). apply flt_key in Hex as (? & ? & Hk2).
    apply flt_key. do 2 (split; [done|]). unfold key_le in *. lia. }
  constructor.
  - intros e [He|He]%elem_of_app.
    + destruct (Hin e) as [? ?]; [rewrite Ew; apply elem_of_app; by left|]. split; [by right|done].
    + apply list_elem_of_singleton in He as ->. split; [by left|]. unfold in_window. cbn. lia.
  - apply StronglySorted_snoc; [done|]. intros y Hy. split; [|by apply Hgt].
    destruct (Hin y) as [Hy' _]; [rewrite Ew; apply elem_of_app; by left|]. by apply Hc.
  - intros e [->|He]%elem_of_cons Hiw.
    + exists (c, v). split; [apply elem_of_app; right; by left|]. split; [done|]. by apply fle_refl.
    + destruct (Hdom e He Hiw) as (e' & He' & Hr & Hle).
      rewrite Ew in He'. apply elem_of_app in He' as [He'|He'].
      * exists e'. split; [apply elem_of_app; by left|done].
      * exists (c, v). split; [apply elem_of_app; right; by left|].
        split; [specialize (Hc e He); cbn; lia|].
        apply fle_trans with e'.2; [done|]. rewrite List.Forall_forall in Hp.
        apply (Hp e'). apply in_rev. by apply list_elem_of_In.
Qed.

(** A run of the filter over samples (round, value), newest last. *)
Definition filter_run (size : Z) (samples : list (Z * f64)) : WindowedMaxFilter :=
  fold_left (fun f s => WindowedMaxFilter_update f s.1 s.2) samples (WindowedMaxFilter_new size).

(** Rounds increase and the rates are numbers. *)
Fixpoint samples_ok (lo : Z) (samples : list (Z * f64)) : Prop :=
  match samples with
  | [] => True
  | s :: r => lo < s.1 /\ is_nan s.2 = false /\ samples_ok s.1 r
  end.

Lemma filter_run_inv size samples :
  0 < size -> forall c hist f,
    (forall e, e ∈ hist -> e.1 <= c) -> Forall (fun e => is_nan e.2 = false) hist ->
    wf_window_size f = size -> filter_inv size c hist (wf_window f) -> samples_ok c samples ->
    filter_inv size (List.last (map fst samples) c) (rev samples ++ hist)
      (wf_window (fold_left (fun f s => WindowedMaxFilter_update f s.1 s.2) samples f)).
Proof.
  intros Hs. induction samples as [|[c' v] samples IH]; intros c hist f Hc Hn Hf Hinv Hok; [done|].
  destruct Hok as (Hlt & Hv & Hok). cbn [fst snd] in *.
  cbn [fold_left]. replace (List.last (map fst ((c', v) :: samples)) c)
    with (List.last (map fst samples) c').
  2:{ destruct samples as [|s r]; [done|]. cbn. generalize (map fst r). intros l.
      destruct l as [|z l]; [done|]. clear. revert z. by induction l; intros; cbn in *. }
  cbn [rev]. rewrite <- app_assoc. cbn [app]. apply IH; try done.
  - intros e [->|He]%elem_of_cons; [done|]. specialize (Hc e He). lia.
  - by constructor.
  - unfold WindowedMaxFilter_update. cbn [wf_window fst snd]. rewrite Hf.
    apply push_inv; try done.
    + intros e He. specialize (Hc e He). lia.
    + by apply evict_inv with c.
Qed.

(** The monotone deque computes the sliding maximum: after any run of
    samples with increasing round numbers, [max] is the rate of one of the
    samples of the last [window_size] rounds, and no sample of those rounds
    exceeds it. *)
Theorem windowed_max_correct size samples :
  0 < size -> samples <> [] -> samples_ok 0 samples ->
  let now := List.last (map fst samples) 0 in
  let m := WindowedMaxFilter_max (filter_run size samples) in
  (exists e, e ∈ samples /\ in_window size now e /\ e.2 = m)
  /\ (forall e, e ∈ samples -> in_window size now e -> fle e.2 m).
Proof.
  intros Hs Hne Hok now m.
  assert (Hinv : filter_inv size now (rev samples ++ []) (wf_window (filter_run size samples))).
  { apply filter_run_inv; try done; [intros e He; by apply not_elem_of_nil in He|].
    split; [intros e He; by apply not_elem_of_nil in He|constructor|].
    intros e He. by apply not_elem_of_nil in He. }
  rewrite app_nil_r in Hinv. destruct Hinv as [Hin Hso Hdom].
  assert (Hnow : exists e, e ∈ samples /\ e.1 = now).
  { unfold now. destruct (exists_last Hne) as (l & x & ->). exists x.
    split; [apply elem_of_app; right; by left|]. rewrite map_app. cbn [map]. by rewrite List.last_last. }
  destruct Hnow as (e0 & He0 & Hr0).
  destruct (Hdom e0) as (e' & He' & _); [by apply list_elem_of_In, (proj1 (in_rev _ _)), list_elem_of_In
    |unfold in_window; rewrite Hr0; lia|].
  unfold m, WindowedMaxFilter_max. destruct (wf_window (filter_run size samples)) as [|f w] eqn:Ew;
    [by apply not_elem_of_nil in He'|].
  assert (Hf : f ∈ f :: w) by (by left). destruct (Hin f Hf) as [Hfh Hfw].
  split.
  - exists f. split; [|done]. apply list_elem_of_In, in_rev. by apply list_elem_of_In.
  - intros e He Hiw. destruct (Hdom e) as (d & Hd & _ & Hle);
      [by apply list_elem_of_In, (proj1 (in_rev _ _)), list_elem_of_In|done|].
    apply elem_of_cons in Hd as [->|Hd]; [done|].
    apply StronglySorted_inv in Hso as [_ Hall]. rewrite List.Forall_forall in Hall.
    destruct (Hall d ltac:(by apply list_elem_of_In)) as [_ Hlt].
    apply fle_trans with d.2; [done|]. by apply flt_fle.
Qed.

(** ** Runs of the controller *)

Inductive BcOp : Type :=
  | BcSend (bytes : Z)
  | BcAck (bytes rtt now : Z).

Definition bc_step (c : BbrController) (op : BcOp) : BbrController :=
  match op with
  | BcSend b => bc_on_send c b
  | BcAck b rtt now => bc_on_ack c b rtt now
  end.

Definition bc_run (c : BbrController) (ops : list BcOp) : BbrController := fold_left bc_step ops c.

(** The delivery rate an acknowledgement reports. *)
Definition ack_rate (bytes rtt : Z) : f64 :=
  f64_div (f64_of bytes) (float_max (as_secs_f64 rtt) (f64_lit 1 1000000)).

(** The samples of a run, numbered from [r + 1]. *)
Fixpoint ack_samples (r : Z) (ops : list BcOp) : list (Z * f64) :=
  match ops with
  | [] => []
  | BcSend _ :: ops' => ack_samples r ops'
  | BcAck b rtt _ :: ops' => (wrapping_add 64 r 1, ack_rate b rtt)
                               :: ack_samples (wrapping_add 64 r 1) ops'
  end.

(** The estimation part of the state, untouched by the state machine. *)
Definition bc_est (c : BbrController) : f64 * WindowedMaxFilter * Z :=
  (bc_btl_bw c, bc_bw_filter c, bc_round c).

Lemma bc_transition_est c prev now : bc_est (bc_transition c prev now) = bc_est c.
Proof.
  unfold bc_transition, bc_check_full_pipe, bc_maybe_enter_probe_rtt, bc_advance_probe_bw,
    bc_maybe_exit_probe_rtt, bc_enter_probe_bw. repeat case_match; done.
Qed.

Lemma bc_transition_inflight c prev now : bc_inflight (bc_transition c prev now) = bc_inflight c.
Proof.
  unfold bc_transition, bc_check_full_pipe, bc_maybe_enter_probe_rtt, bc_advance_probe_bw,
    bc_maybe_exit_probe_rtt, bc_enter_probe_bw. repeat case_match; done.
Qed.

Lemma bc_update_min_rtt_est c rtt now : bc_est (bc_update_min_rtt c rtt now) = bc_est c.
Proof. unfold bc_update_min_rtt. by case_match. Qed.

Lemma bc_on_ack_est c b rtt now :
  bc_est (bc_on_ack c b rtt now)
  = (let f := WindowedMaxFilter_update (bc_bw_filter c) (wrapping_add 64 (bc_round c) 1)
                (ack_rate b rtt) in
     (WindowedMaxFilter_max f, f, wrapping_add 64 (bc_round c) 1)).
Proof.
  unfold bc_on_ack. rewrite bc_transition_est.
  pose proof (bc_update_min_rtt_est (bc_begin_ack c b) rtt now) as E.
  destruct (bc_update_min_rtt (bc_begin_ack c b) rtt now). unfold bc_est in E. cbn in E.
  injection E as -> -> ->. done.
Qed.

(** Acknowledgements release exactly the bytes they name. *)
Lemma bc_on_ack_inflight c b rtt now :
  bc_inflight (bc_on_ack c b rtt now) = saturating_sub (bc_inflight c) b.
Proof.
  unfold bc_on_ack. rewrite bc_transition_inflight. cbn. unfold bc_update_min_rtt. by case_match.
Qed.

Lemma bc_run_filter ops c :
  let c' := bc_run c ops in
  bc_bw_filter c' = fold_left (fun f s => WindowedMaxFilter_update f s.1 s.2)
                      (ack_samples (bc_round c) ops) (bc_bw_filter c)
  /\ (bc_btl_bw c = WindowedMaxFilter_max (bc_bw_filter c) ->
      bc_btl_bw c' = WindowedMaxFilter_max (bc_bw_filter c')).
Proof.
  revert c. induction ops as [|[b|b rtt now] ops IH]; intros c; [done| |].
  - apply (IH (bc_on_send c b)).
  - cbn [bc_run fold_left bc_step ack_samples].
    pose proof (bc_on_ack_est c b rtt now) as E. cbv zeta in E. unfold bc_est in E.
    injection E as E1 E2 E3. destruct (IH (bc_on_ack c b rtt now)) as [H1 H2].
    unfold bc_run in H1, H2. rewrite E3, E2 in H1. split; [exact H1|]. intros _. apply H2.
    by rewrite E1, E2.
Qed.

Record bc_inv (c : BbrController) : Prop := {
  bv_state : bc_state c <> ProbeRTT;
  bv_cycle : (bc_cycle_idx c < length PROBE_GAINS)%nat;
  bv_inflight : is_u 64 (bc_inflight c)
}.

Lemma bc_min_rtt_fresh c rtt now :
  duration_since now (bc_min_rtt_stamp (bc_update_min_rtt c rtt now)) < RTPROP_WINDOW.
Proof.
  unfold bc_update_min_rtt. destruct (_ || _ || _) eqn:E; cbn [bc_min_rtt_stamp].
  - unfold duration_since, saturating_sub, RTPROP_WINDOW, from_secs. lia.
  - apply orb_false_iff in E as [E _]. apply orb_false_iff in E as [_ E]. by cmp_facts.
Qed.

Lemma bc_transition_inv c prev now :
  bc_inv c -> duration_since now (bc_min_rtt_stamp c) < RTPROP_WINDOW ->
  bc_inv (bc_transition c prev now).
Proof.
  intros [Hs Hi Hf] Hfr. unfold bc_transition. destruct (bc_state c) eqn:Es; [| | |done].
  - unfold bc_check_full_pipe. repeat case_match; by constructor; cbn; rewrite ?Es.
  - case_match; [|by constructor; rewrite ?Es]. constructor; cbn; try done. lia.
  - assert (Hprobe : forall c', bc_min_rtt_stamp c' = bc_min_rtt_stamp c ->
                       bc_maybe_enter_probe_rtt c' now = c').
    { intros c' E. unfold bc_maybe_enter_probe_rtt. rewrite E.
      replace (RTPROP_WINDOW <=? _) with false by (symmetry; apply Z.leb_gt; lia). done. }
    unfold bc_advance_probe_bw. case_match; rewrite Hprobe by done.
    + constructor; cbn [bc_update_pacing_rate bc_set_mode bc_state bc_cycle_idx bc_inflight];
        rewrite ?Es; try done. by apply Nat.mod_upper_bound.
    + by constructor; rewrite ?Es.
Qed.

Definition bc_op_ok (op : BcOp) : Prop := match op with BcSend b | BcAck b _ _ => 0 <= b end.

Lemma bc_step_inv c op : bc_op_ok op -> bc_inv c -> bc_inv (bc_step c op).
Proof.
  intros Hop [Hs Hi Hf]. unfold is_u in Hf. destruct op as [b|b rtt now]; cbn [bc_step].
  - constructor; cbn; try done. cbn in Hop. unfold is_u, saturating_add. lia.
  - unfold bc_on_ack. apply bc_transition_inv.
    + cbn in Hop. constructor; cbn; unfold bc_update_min_rtt, is_u; case_match; cbn; try done;
        unfold saturating_sub; lia.
    + apply bc_min_rtt_fresh.
Qed.

(** In every run of the advisory controller the bottleneck-bandwidth
    estimate is the windowed maximum of the delivery rates of the last ten
    acknowledgements: it is one of those rates and none of them exceeds it.
    The controller never reaches ProbeRTT, its gain index stays in range, and
    it always lets a sender with less than four segments in flight proceed. *)
Theorem bbr_controller_run now0 ops :
  Forall bc_op_ok ops -> ack_samples 0 ops <> [] -> samples_ok 0 (ack_samples 0 ops) ->
  let c := bc_run (BbrController_new now0) ops in
  let samples := ack_samples 0 ops in
  let now := List.last (map fst samples) 0 in
  (exists e, e ∈ samples /\ in_window BW_WINDOW_ROUNDS now e /\ e.2 = bc_btl_bw c)
  /\ (forall e, e ∈ samples -> in_window BW_WINDOW_ROUNDS now e -> fle e.2 (bc_btl_bw c))
  /\ bc_state c <> ProbeRTT /\ (bc_cycle_idx c < length PROBE_GAINS)%nat
  /\ (forall n, n < MIN_CWND -> bc_should_send c n = true).
Proof.
  intros Hops Hne Hok c samples now.
  destruct (bc_run_filter ops (BbrController_new now0)) as [Ef Eb]. fold c in Ef, Eb.
  specialize (Eb eq_refl). rewrite Ef in Eb.
  destruct (windowed_max_correct BW_WINDOW_ROUNDS samples ltac:(done) Hne Hok) as [H1 H2].
  cbv zeta in H1, H2. unfold filter_run, WindowedMaxFilter_new in H1, H2.
  cbn [bc_bw_filter bc_round BbrController_new] in Eb. unfold WindowedMaxFilter_new in Eb.
  fold samples in Eb. rewrite <- Eb in H1, H2.
  assert (Hinv : bc_inv c).
  { unfold c, bc_run. assert (H0 : bc_inv (BbrController_new now0)) by (constructor; cbn; [done|lia|done]).
    clear -Hops H0. revert H0. generalize (BbrController_new now0).
    induction Hops as [|op ops Hop _ IH]; intros b Hb; [done|]. cbn. apply IH. by apply bc_step_inv. }
  destruct Hinv. do 4 (split; [done|]). intros n Hn. unfold bc_should_send. apply Z.ltb_lt. lia.
Qed.

Lemma windowed_max_correct_witness :
  let s := [(1, f64_of 5); (2, f64_of 9); (3, f64_of 4); (13, f64_of 6); (14, f64_of 2)] in
  (exists e, e ∈ s /\ in_window 10 14 e /\ e.2 = f64_of 6)
  /\ WindowedMaxFilter_max (filter_run 10 s) = f64_of 6.
Proof.
  intros s. split; [|vm_compute; reflexivity].
  destruct (windowed_max_correct 10 s ltac:(lia) ltac:(discriminate)
              ltac:(repeat split; vm_compute; reflexivity)) as [H _].
  exact H.
Defined.

Lemma bbr_controller_run_witness :
  bc_state (bc_run (BbrController_new 0)
              [BcSend 14000; BcAck 1400 (from_millis 20) (from_millis 20);
               BcAck 2800 (from_millis 25) (from_secs 11)]) <> ProbeRTT.
Proof.
  refine (proj1 (proj2 (proj2 (bbr_controller_run 0
    [BcSend 14000; BcAck 1400 (from_millis 20) (from_millis 20);
     BcAck 2800 (from_millis 25) (from_secs 11)] _ _ _)))).
  - repeat constructor; cbn; lia.
  - discriminate.
  - repeat split; vm_compute; reflexivity.
Defined.
