(* ===== verification/Estimators.v ===== *)
(** * Round-trip, pacing and bandwidth estimation, statistics

    src/src/transport/rtt.rs ([RttEstimator]), src/src/transport/pacer.rs
    ([Pacer]), src/src/transport/bandwidth.rs ([BandwidthEstimator]) and
    src/src/transport/stats.rs ([ConnectionStats]).  Times are nanoseconds; an
    operation that reads the clock takes the reading as an argument. *)

From Stdlib Require Import ZArith Lia Bool List Sorting.
From Stdlib Require Import Floats.SpecFloat.
From stdpp Require Import base list numbers option.
From S2P Require Import Prelude Float Cc.

Open Scope Z_scope.

Module Rtt.

Definition ALPHA : f64 := f64_lit 125 1000.
Definition BETA : f64 := f64_lit 25 100.
Definition MIN_RTO : Z := from_millis 200.
Definition NO_SAMPLE : Z := from_secs U64_MAX.

Record RttEstimator : Type := mkRttEstimator {
  re_srtt : Z;
  re_rttvar : Z;
  re_min_rtt : Z;
  re_last_updated : Z;
  re_initialized : bool
}.

Definition RttEstimator_new (now : Z) : RttEstimator :=
  mkRttEstimator (from_millis 100) (from_millis 50) NO_SAMPLE now false.

(** [d.as_micros() as f64]. *)
Definition micros_f64 (d : Z) : f64 := f64_of (d / 1000).

Definition RttEstimator_update (e : RttEstimator) (rtt_sample now : Z) : RttEstimator :=
  let min_rtt := if rtt_sample <? re_min_rtt e then rtt_sample else re_min_rtt e in
  if negb (re_initialized e) then
    mkRttEstimator rtt_sample (rtt_sample / 2) min_rtt now true
  else
    let srtt_us := micros_f64 (re_srtt e) in
    let sample_us := micros_f64 rtt_sample in
    let diff := SFabs (f64_sub srtt_us sample_us) in
    let rttvar_us := micros_f64 (re_rttvar e) in
    let new_rttvar := f64_add (f64_mul (f64_sub (f64_of 1) BETA) rttvar_us) (f64_mul BETA diff) in
    let new_srtt := f64_add (f64_mul (f64_sub (f64_of 1) ALPHA) srtt_us) (f64_mul ALPHA sample_us) in
    mkRttEstimator (from_micros (float_to_u 64 (float_max new_srtt (f64_of 1))))
      (from_micros (float_to_u 64 (float_max new_rttvar (f64_of 1)))) min_rtt now true.

Definition RttEstimator_rto (e : RttEstimator) : Z :=
  Z.max (re_srtt e + 4 * re_rttvar e) MIN_RTO.

Definition RttEstimator_min_rtt (e : RttEstimator) : Z :=
  if re_min_rtt e =? NO_SAMPLE then re_srtt e else re_min_rtt e.

Definition RttEstimator_has_sample (e : RttEstimator) : bool := re_initialized e.

Definition RttEstimator_time_since_update (e : RttEstimator) (now : Z) : Z :=
  duration_since now (re_last_updated e).

(** A run over samples (rtt, time). *)
Definition rtt_run (now0 : Z) (l : list (Z * Z)) : RttEstimator :=
  fold_left (fun e s => RttEstimator_update e s.1 s.2) l (RttEstimator_new now0).

Lemma update_min e s now :
  re_min_rtt (RttEstimator_update e s now) = Z.min s (re_min_rtt e).
Proof.
  unfold RttEstimator_update. destruct (negb _); cbn [re_min_rtt];
    destruct (s <? re_min_rtt e) eqn:E; cmp_facts; lia.
Qed.

Lemma update_initialized e s now : re_initialized (RttEstimator_update e s now) = true.
Proof. unfold RttEstimator_update. by destruct (negb _). Qed.

Lemma rtt_run_snoc now0 l s :
  rtt_run now0 (l ++ [s]) = RttEstimator_update (rtt_run now0 l) s.1 s.2.
Proof. unfold rtt_run. by rewrite fold_left_app. Qed.

(** The reported minimum is the smallest sample seen: it is below each of
    them, and it is one of them. *)
Lemma rtt_min_is_minimum now0 l :
  l <> [] -> Forall (fun s => 0 <= s.1 < NO_SAMPLE) l ->
  let m := RttEstimator_min_rtt (rtt_run now0 l) in
  (exists s, s ∈ l /\ s.1 = m) /\ (forall s, s ∈ l -> m <= s.1).
Proof.
  intros Hne Hok.
  assert (H : l = [] /\ re_min_rtt (rtt_run now0 l) = NO_SAMPLE
    \/ (exists s, s ∈ l /\ s.1 = re_min_rtt (rtt_run now0 l))
       /\ (forall s, s ∈ l -> re_min_rtt (rtt_run now0 l) <= s.1)).
  { clear Hne. induction l as [|s l IH] using rev_ind; [by left|right].
    apply Forall_app in Hok as [Hl Hs]. apply List.Forall_inv in Hs.
    rewrite rtt_run_snoc, update_min. destruct (IH Hl) as [[-> ->]|[(s0 & Hs0 & E0) Hle]].
    - split; [exists s; split; [by left|lia]|].
      intros s' Hs'. apply list_elem_of_singleton in Hs' as ->. lia.
    - split.
      + destruct (Z.min_spec s.1 (re_min_rtt (rtt_run now0 l))) as [[? ->]|[? ->]].
        * exists s. split; [apply elem_of_app; right; by left|done].
        * exists s0. split; [apply elem_of_app; by left|done].
      + intros s' [Hs'|Hs']%elem_of_app; [specialize (Hle s' Hs'); lia|].
        apply list_elem_of_singleton in Hs' as ->. lia. }
  destruct H as [[-> _]|[(s0 & Hs0 & E0) Hle]]; [done|].
  unfold RttEstimator_min_rtt. rewrite Forall_forall in Hok. specialize (Hok s0 (proj1 (list_elem_of_In _ _) Hs0)).
  destruct (_ =? NO_SAMPLE) eqn:E; cmp_facts; [lia|]. split; [by exists s0|done].
Qed.

Lemma rto_floor e : MIN_RTO <= RttEstimator_rto e.
Proof. unfold RttEstimator_rto. lia. Qed.

End Rtt.

(** ** Pacer *)

Module Pacing.

Definition DEFAULT_MAX_BURST : Z := 16 * 1400.
Definition MIN_RATE_BYTES_PER_SEC : Z := 32 * 1024.

Record Pacer : Type := mkPacer {
  pc_tokens : f64;
  pc_rate : f64;
  pc_max_burst : f64;
  pc_last_refill : Z
}.

Definition Pacer_new (now : Z) : Pacer :=
  mkPacer (f64_of DEFAULT_MAX_BURST) (f64_of MIN_RATE_BYTES_PER_SEC) (f64_of DEFAULT_MAX_BURST) now.

Definition Pacer_update_rate (p : Pacer) (cwnd_bytes srtt : Z) : Pacer :=
  let srtt_secs := float_max (as_secs_f64 srtt) (f64_lit 1 1000) in
  let rate := f64_div (f64_of cwnd_bytes) srtt_secs in
  mkPacer (pc_tokens p) (float_max rate (f64_of MIN_RATE_BYTES_PER_SEC))
    (float_max (f64_of cwnd_bytes) (f64_of DEFAULT_MAX_BURST)) (pc_last_refill p).

Definition Pacer_refill (p : Pacer) (now : Z) : Pacer :=
  let elapsed := as_secs_f64 (duration_since now (pc_last_refill p)) in
  mkPacer (float_min (f64_add (pc_tokens p) (f64_mul (pc_rate p) elapsed)) (pc_max_burst p))
    (pc_rate p) (pc_max_burst p) now.

Definition Pacer_available (p : Pacer) (now : Z) : Z * Pacer :=
  let p' := Pacer_refill p now in (float_to_u 64 (pc_tokens p'), p').

Definition Pacer_consume (p : Pacer) (bytes : Z) : Pacer :=
  mkPacer (float_max (f64_sub (pc_tokens p) (f64_of bytes)) f64_zero) (pc_rate p)
    (pc_max_burst p) (pc_last_refill p).

(** [None] is the panic of [Duration::from_secs_f64]. *)
Definition Pacer_time_until_available (p : Pacer) (bytes now : Z) : option Z * Pacer :=
  let p' := Pacer_refill p now in
  if SFleb (f64_of bytes) (pc_tokens p') then (Some 0, p')
  else
    let deficit := f64_sub (f64_of bytes) (pc_tokens p') in
    (from_secs_f64 (f64_div deficit (float_max (pc_rate p') (f64_of 1))), p').

Definition Pacer_rate_bytes_per_sec (p : Pacer) : Z := float_to_u 64 (pc_rate p).

Inductive PacerOp : Type :=
  | PUpdate (cwnd srtt : Z)
  | PAvailable (now : Z)
  | PConsume (bytes : Z)
  | PWait (bytes now : Z).

Definition pacer_step (p : Pacer) (op : PacerOp) : Pacer :=
  match op with
  | PUpdate cwnd srtt => Pacer_update_rate p cwnd srtt
  | PAvailable now => (Pacer_available p now).2
  | PConsume b => Pacer_consume p b
  | PWait b now => (Pacer_time_until_available p b now).2
  end.

(** The bucket bounds: the rate and the capacity never fall below their
    floors, and none of them is NaN. *)
Record pacer_inv (p : Pacer) : Prop := {
  pi_rate : fle (f64_of MIN_RATE_BYTES_PER_SEC) (pc_rate p);
  pi_burst : fle (f64_of DEFAULT_MAX_BURST) (pc_max_burst p)
}.

Lemma wait_refills p b now : (Pacer_time_until_available p b now).2 = Pacer_refill p now.
Proof. unfold Pacer_time_until_available. by case_match. Qed.

Lemma pacer_step_inv p op : pacer_inv p -> pacer_inv (pacer_step p op).
Proof.
  intros [Hr Hb]. destruct op as [cwnd srtt|now|b|b now]; cbn [pacer_step].
  - constructor; cbn [Pacer_update_rate pc_rate pc_max_burst]; by apply float_max_ge_r.
  - by constructor.
  - by constructor.
  - rewrite wait_refills. by constructor.
Qed.

(** In every reachable state the pacing rate is at least 32 KiB/s and the
    bucket at least 16 segments; a refill never fills past the capacity and a
    debit never leaves a negative fill. *)
Lemma pacer_bounds now0 ops now b :
  let p := fold_left pacer_step ops (Pacer_new now0) in
  fle (f64_of MIN_RATE_BYTES_PER_SEC) (pc_rate p)
  /\ fle (f64_of DEFAULT_MAX_BURST) (pc_max_burst p)
  /\ fle (pc_tokens (Pacer_refill p now)) (pc_max_burst p)
  /\ fle f64_zero (pc_tokens (Pacer_consume p b)).
Proof.
  intros p. assert (H : pacer_inv p).
  { unfold p. assert (H0 : pacer_inv (Pacer_new now0)) by (constructor; vm_compute; reflexivity).
    revert H0. generalize (Pacer_new now0). induction ops as [|op ops IH]; intros q Hq; [done|].
    cbn. apply IH. by apply pacer_step_inv. }
  destruct H as [Hr Hb]. do 2 (split; [done|]). split.
  - apply float_min_le_r. by apply fle_key in Hb as (_ & ? & _).
  - by apply float_max_ge_r.
Qed.

End Pacing.

(** ** Bandwidth *)

Module Bandwidth.

Record BandwidthEstimator : Type := mkBandwidthEstimator {
  be_samples : list (f64 * Z);
  be_window : Z
}.

Definition BandwidthEstimator_new (window : Z) : BandwidthEstimator := mkBandwidthEstimator [] window.

Fixpoint evict_before (cutoff : Z) (l : list (f64 * Z)) : list (f64 * Z) :=
  match l with
  | [] => []
  | (r, ts) :: l' => if ts <? cutoff then evict_before cutoff l' else l
  end.

(** [None] is the panic of [Instant::now() - window] before the clock's zero. *)
Definition BandwidthEstimator_evict (b : BandwidthEstimator) (now : Z) : option BandwidthEstimator :=
  match checked_sub now (be_window b) with
  | None => None
  | Some cutoff => Some (mkBandwidthEstimator (evict_before cutoff (be_samples b)) (be_window b))
  end.

Definition BandwidthEstimator_record_delivery (b : BandwidthEstimator) (bytes elapsed now : Z)
  : option BandwidthEstimator :=
  let elapsed_secs := as_secs_f64 elapsed in
  if SFleb elapsed_secs f64_zero then Some b
  else
    let rate := f64_div (f64_of bytes) elapsed_secs in
    BandwidthEstimator_evict
      (mkBandwidthEstimator (be_samples b ++ [(rate, now)]) (be_window b)) now.

Definition BandwidthEstimator_estimate (b : BandwidthEstimator) : f64 :=
  fold_left float_max (map fst (be_samples b)) f64_zero.

(** [sort_by(partial_cmp().unwrap())]: a stable insertion; [None] is the panic
    on an incomparable pair. *)
Fixpoint insert_rate (x : f64) (l : list f64) : list f64 :=
  match l with
  | [] => [x]
  | y :: l' => if SFltb x y then x :: l else y :: insert_rate x l'
  end.

Definition sort_rates (l : list f64) : list f64 := fold_left (fun acc x => insert_rate x acc) l [].

Definition BandwidthEstimator_percentile (b : BandwidthEstimator) (p : f64) : option f64 :=
  if bool_decide (be_samples b = []) then Some f64_zero
  else if existsb is_nan (map fst (be_samples b)) && (1 <? length (be_samples b))%nat then None
  else
    let rates := sort_rates (map fst (be_samples b)) in
    let idx := float_to_u 64
                 (f64_round (f64_mul (f64_sub (f64_of (Z.of_nat (length rates))) (f64_of 1))
                               (f64_clamp p f64_zero (f64_of 1)))) in
    nth_error rates (Nat.min (Z.to_nat idx) (length rates - 1)).

Definition BandwidthEstimator_sample_count (b : BandwidthEstimator) : nat := length (be_samples b).

Lemma insert_rate_perm x l : Permutation (insert_rate x l) (x :: l).
Proof.
  induction l as [|y l IH]; simpl; [done|]. case_match; [done|].
  rewrite IH. apply Permutation_swap.
Qed.

Lemma sort_rates_perm l : Permutation (sort_rates l) l.
Proof.
  unfold sort_rates. assert (H : forall acc, Permutation (fold_left (fun acc x => insert_rate x acc) l acc) (l ++ acc)).
  { induction l as [|x l IH]; intros acc; simpl; [done|]. rewrite IH, insert_rate_perm.
    by rewrite Permutation_middle. }
  rewrite H. by rewrite app_nil_r.
Qed.

Lemma insert_rate_sorted x l :
  is_nan x = false -> Forall (fun y => is_nan y = false) l ->
  Sorted fle l -> Sorted fle (insert_rate x l).
Proof.
  intros Hx Hn Hs. induction l as [|y l IH]; simpl; [repeat constructor|].
  apply List.Forall_cons_iff in Hn as [Hy Hn]. destruct (SFltb x y) eqn:E.
  - constructor; [done|]. constructor. by apply flt_fle.
  - apply Sorted_inv in Hs as [Hs Hh]. constructor; [auto|].
    assert (Hyx : fle y x).
    { apply fle_key. do 2 (split; [done|]).
      assert (~ flt x y) as Hnl by (unfold flt; by rewrite E).
      rewrite flt_key in Hnl.
      assert (key_le (fkey y) (fkey x) \/ ~ key_le (fkey y) (fkey x)) as [?|?]
        by (unfold key_le; lia); [done|]. by destruct Hnl. }
    destruct l as [|z l]; simpl; [by repeat constructor|].
    apply HdRel_inv in Hh. case_match; by constructor.
Qed.

Lemma sort_rates_sorted l :
  Forall (fun y => is_nan y = false) l -> Sorted fle (sort_rates l).
Proof.
  intros Hl. unfold sort_rates. assert (H : forall acc, Forall (fun y => is_nan y = false) acc ->
    Sorted fle acc -> Sorted fle (fold_left (fun acc x => insert_rate x acc) l acc)).
  { induction Hl as [|x l Hx _ IH]; intros acc Hn Hs; [done|]. simpl. apply IH.
    - rewrite insert_rate_perm. by constructor.
    - by apply insert_rate_sorted. }
  apply H; constructor.
Qed.

Lemma fold_max_ge l a x : is_nan a = false -> Forall (fun y => is_nan y = false) l ->
  x = a \/ x ∈ l -> fle x (fold_left float_max l a).
Proof.
  intros Ha Hl. revert a Ha x. induction Hl as [|y l Hy _ IH]; intros a Ha x Hx; simpl.
  - destruct Hx as [->|Hx]; [by apply fle_refl|by apply not_elem_of_nil in Hx].
  - assert (Hm : is_nan (float_max a y) = false) by (by apply float_max_nan).
    destruct Hx as [->|[->|Hx]%elem_of_cons].
    + apply fle_trans with (float_max a y); [by apply float_max_ge_l|]. apply IH; auto.
    + apply fle_trans with (float_max a y); [by apply float_max_ge_r|]. apply IH; auto.
    + apply IH; auto.
Qed.

(** Any percentile of numbers is the rate of a sample of the window - the
    index stays in range whatever [p] is - and none exceeds the estimate. *)
Lemma percentile_bounded b p :
  be_samples b <> [] -> Forall (fun y => is_nan y = false) (map fst (be_samples b)) ->
  exists r, BandwidthEstimator_percentile b p = Some r /\ r ∈ map fst (be_samples b)
    /\ fle r (BandwidthEstimator_estimate b).
Proof.
  intros Hne Hn. unfold BandwidthEstimator_percentile. rewrite bool_decide_eq_false_2 by done.
  replace (existsb is_nan (map fst (be_samples b))) with false.
  2:{ symmetry. induction Hn as [|y l Hy _ IH]; [done|]. simpl. by rewrite Hy, IH. }
  cbn [andb]. set (rates := sort_rates _). set (i := Nat.min _ _).
  assert (Hl : length rates = length (be_samples b))
    by (unfold rates; rewrite sort_rates_perm; apply length_map).
  assert (Hi : (i < length rates)%nat).
  { unfold i. destruct (be_samples b); [done|]. simpl in Hl. lia. }
  destruct (nth_error rates i) as [r|] eqn:E; [|apply nth_error_None in E; lia].
  exists r. split; [done|]. apply nth_error_In, list_elem_of_In in E.
  unfold rates in E. rewrite sort_rates_perm in E. split; [done|].
  unfold BandwidthEstimator_estimate. apply fold_max_ge; auto.
Qed.

(** The window: after a delivery is recorded every sample is at most [window]
    old, provided the clock does not run backwards. *)
Lemma evict_before_window cutoff l :
  Sorted (fun a b => a.2 <= b.2) l -> Forall (fun s => cutoff <= s.2) (evict_before cutoff l).
Proof.
  intros Hs. apply Sorted_StronglySorted in Hs; [|intros a b c; lia].
  induction Hs as [|[r ts] l _ IH Hf]; simpl; [constructor|].
  destruct (ts <? cutoff) eqn:E; cmp_facts; [done|]. constructor; [done|].
  eapply List.Forall_impl; [|exact Hf]. intros [r' t'] Hle. cbn in *. lia.
Qed.

End Bandwidth.

(** ** Statistics *)

Module Stats.

(** The counters of [ConnectionStats] its methods use. *)
Record ConnectionStats : Type := mkConnectionStats {
  cs_bytes_sent : Z;
  cs_packets_sent : Z;
  cs_packets_lost : Z;
  cs_retransmits : Z;
  cs_min_rtt : Z;
  cs_max_rtt : Z
}.

Definition ConnectionStats_new : ConnectionStats := mkConnectionStats 0 0 0 0 0 0.

Definition record_rtt (s : ConnectionStats) (rtt : Z) : ConnectionStats :=
  mkConnectionStats (cs_bytes_sent s) (cs_packets_sent s) (cs_packets_lost s) (cs_retransmits s)
    (if (cs_min_rtt s =? 0) || (rtt <? cs_min_rtt s) then rtt else cs_min_rtt s)
    (if cs_max_rtt s <? rtt then rtt else cs_max_rtt s).

Definition loss_rate (s : ConnectionStats) : f32 :=
  f32_div (f32_of (cs_packets_lost s)) (f32_of (Z.max (cs_packets_sent s) 1)).

Definition retransmit_rate (s : ConnectionStats) : f32 :=
  f32_div (f32_of (cs_retransmits s)) (f32_of (Z.max (cs_packets_sent s) 1)).

Definition goodput_bytes (s : ConnectionStats) : Z :=
  saturating_sub (cs_bytes_sent s) (saturating_mul 64 (cs_retransmits s) 1400).

(** Positive samples: the two extremes bracket every sample recorded. *)
Lemma record_rtt_brackets rs r :
  Forall (fun x => 0 < x) rs -> r ∈ rs ->
  let s := fold_left record_rtt rs ConnectionStats_new in
  0 < cs_min_rtt s <= r /\ r <= cs_max_rtt s.
Proof.
  intros Hp. revert r. induction rs as [|x rs IH] using rev_ind; intros r Hr;
    [by apply not_elem_of_nil in Hr|].
  apply Forall_app in Hp as [Hp Hx]. apply List.Forall_inv in Hx.
  rewrite fold_left_app. cbn [fold_left record_rtt cs_min_rtt cs_max_rtt].
  set (s := fold_left record_rtt rs ConnectionStats_new) in *.
  assert (H0 : 0 <= cs_min_rtt s /\ 0 <= cs_max_rtt s).
  { destruct rs as [|y rs']; [done|]. specialize (IH Hp y ltac:(by left)).
    apply List.Forall_inv in Hp. cbv zeta in IH. lia. }
  apply elem_of_app in Hr as [Hr|Hr].
  - specialize (IH Hp r Hr). cbv zeta in IH.
    destruct (cs_min_rtt s =? 0) eqn:E1, (x <? cs_min_rtt s) eqn:E2, (cs_max_rtt s <? x) eqn:E3;
      cbn [orb]; cmp_facts; lia.
  - apply list_elem_of_singleton in Hr as ->.
    destruct (cs_min_rtt s =? 0) eqn:E1, (x <? cs_min_rtt s) eqn:E2, (cs_max_rtt s <? x) eqn:E3;
      cbn [orb]; cmp_facts; lia.
Qed.

End Stats.
