(* ===== verification/Arbiter.v ===== *)
(** * FEC arbiter, chaff scheduler, buffer pools

    src/src/fec/arbiter.rs ([EwmaLoss], [ArbiterMode], [FecArbiter]),
    src/src/transport/chaff.rs ([ChaffScheduler]), src/src/transport/pool.rs
    and src/src/bufpool.rs (the two buffer pools). *)

From Stdlib Require Import ZArith Lia Bool List.
From Stdlib Require Import Strings.Byte.
From Stdlib Require Import Floats.SpecFloat.
From stdpp Require Import base list numbers option.
From S2P Require Import Prelude Float Cc.

Open Scope Z_scope.

(** ** FEC arbiter *)

Definition THRESHOLD_LOW : f32 := f32_lit 5 1000.
Definition THRESHOLD_HIGH : f32 := f32_lit 15 100.
Definition HIGH_LATENCY_US : Z := 100000.
Definition f32_zero : f32 := S754_zero false.

Record EwmaLoss : Type := mkEwmaLoss { ew_value : f32 }.

Definition EwmaLoss_new : EwmaLoss := mkEwmaLoss f32_zero.

Definition EwmaLoss_update (e : EwmaLoss) (lost total : Z) : EwmaLoss * f32 :=
  let sample := if total =? 0 then f32_zero else f32_div (f32_of lost) (f32_of total) in
  let v :=
    if SFeqb (ew_value e) f32_zero then sample
    else
      let alpha := if SFltb (f32_mul (ew_value e) (f32_of 2)) sample
                   then f32_lit 1 2 else f32_lit 125 1000 in
      f32_add (f32_mul (f32_sub (f32_of 1) alpha) (ew_value e)) (f32_mul alpha sample) in
  (mkEwmaLoss v, v).

Inductive ArbiterMode : Type :=
  | PureArq
  | HybridFecArq (k r : Z)      (* u8, u8 *)
  | PureFec (k r : Z).

#[export] Instance ArbiterMode_eq_dec : EqDecision ArbiterMode.
Proof. solve_decision. Defined.

Definition fec_overhead (m : ArbiterMode) : f32 :=
  match m with
  | PureArq => f32_zero
  | HybridFecArq k r | PureFec k r => f32_div (f32_of r) (f32_of k)
  end.

Definition uses_fec (m : ArbiterMode) : bool :=
  match m with PureArq => false | _ => true end.

Record FecArbiter : Type := mkFecArbiter {
  fa_mode : ArbiterMode;
  fa_loss : EwmaLoss;
  fa_rtt_us : Z
}.

Definition FecArbiter_new : FecArbiter := mkFecArbiter PureArq EwmaLoss_new 0.

(** The mode the measurements call for. *)
Definition target_mode (loss_rate : f32) (rtt_us : Z) : ArbiterMode :=
  if SFltb loss_rate THRESHOLD_LOW then
    if HIGH_LATENCY_US <=? rtt_us then HybridFecArq 10 1 else PureArq
  else if SFltb loss_rate THRESHOLD_HIGH then
    let scaled := f32_mul (f32_div (f32_sub loss_rate THRESHOLD_LOW)
                             (f32_sub THRESHOLD_HIGH THRESHOLD_LOW)) (f32_of 2) in
    HybridFecArq 8 (wrapping_add 8 1 (float_to_u 8 scaled))
  else PureFec 8 4.

Definition same_class (a b : ArbiterMode) : bool :=
  match a, b with
  | PureArq, PureArq | HybridFecArq _ _, HybridFecArq _ _ | PureFec _ _, PureFec _ _ => true
  | _, _ => false
  end.

Definition on_ack_epoch (a : FecArbiter) (lost total rtt_us : Z) : FecArbiter :=
  let '(loss, loss_rate) := EwmaLoss_update (fa_loss a) lost total in
  let new_mode := target_mode loss_rate rtt_us in
  let changed := negb (same_class (fa_mode a) new_mode) in
  mkFecArbiter (if changed then new_mode else fa_mode a) loss rtt_us.

(** [(source_count as f32 / k as f32 * r as f32) as u8]. *)
Definition scaled_repairs (source_count k r : Z) : Z :=
  if k <=? source_count then r
  else float_to_u 8 (f32_mul (f32_div (f32_of source_count) (f32_of k)) (f32_of r)).

Definition repair_count (a : FecArbiter) (source_count : Z) : Z :=
  match fa_mode a with
  | PureArq => 0
  | HybridFecArq k r | PureFec k r => scaled_repairs source_count k r
  end.

Definition arbiter_run (epochs : list (Z * Z * Z)) : FecArbiter :=
  fold_left (fun a e => on_ack_epoch a e.1.1 e.1.2 e.2) epochs FecArbiter_new.

(** Hysteresis as coded: while the class of the mode called for stays the
    same, the parameters chosen at the last change of class stay, whatever the
    loss rate does within the class. *)
Lemma arbiter_keeps_parameters a lost total rtt :
  same_class (fa_mode a) (target_mode (EwmaLoss_update (fa_loss a) lost total).2 rtt) = true ->
  fa_mode (on_ack_epoch a lost total rtt) = fa_mode a.
Proof.
  unfold on_ack_epoch. destruct (EwmaLoss_update _ _ _) as [l v]. cbn [fst snd]. by intros ->.
Qed.

Lemma zero_loss_sample total : 0 < total -> f32_div (f32_of 0) (f32_of total) = f32_zero.
Proof.
  intros Ht. unfold f32_div, f32_of. pose proof (float_of_Z_pos 24 128 ltac:(lia) total Ht ltac:(done)).
  change (float_of_Z 24 128 0) with (S754_zero false).
  destruct (float_of_Z 24 128 total) as [s|s| |s m e] eqn:E; try done.
  - assert (s = false) as ->; [|done]. revert E. unfold float_of_Z, binary_normalize.
    destruct total; try lia. unfold binary_round, binary_round_aux.
    repeat (case_match; try done); congruence.
  - assert (s = false) as ->; [|done]. revert E. unfold float_of_Z, binary_normalize.
    destruct total; try lia. unfold binary_round, binary_round_aux.
    repeat (case_match; try done); congruence.
Qed.

(** Without a reported loss the estimate stays zero, and the arbiter only ever
    chooses between no FEC and the light code for long paths. *)
Lemma arbiter_no_loss epochs :
  Forall (fun e => e.1.1 = 0 /\ 0 <= e.1.2) epochs ->
  ew_value (fa_loss (arbiter_run epochs)) = f32_zero
  /\ (fa_mode (arbiter_run epochs) = PureArq \/ fa_mode (arbiter_run epochs) = HybridFecArq 10 1).
Proof.
  induction epochs as [|[[lost total] rtt] epochs IH] using rev_ind; [by split; [|left]|].
  intros H. apply Forall_app in H as [He Hl]. apply List.Forall_inv in Hl as [E0 Ht]. cbn in E0, Ht.
  destruct (IH He) as [Hv Hm]. unfold arbiter_run in *. rewrite fold_left_app.
  cbn [fold_left fst snd]. set (a := fold_left _ epochs FecArbiter_new) in *.
  unfold on_ack_epoch, EwmaLoss_update. rewrite Hv, E0.
  replace (if total =? 0 then f32_zero else f32_div (f32_of 0) (f32_of total)) with f32_zero
    by (destruct (total =? 0) eqn:E; cmp_facts; [done|rewrite zero_loss_sample; [done|lia]]).
  change (SFeqb f32_zero f32_zero) with true. cbn [fa_loss ew_value fa_mode]. split; [done|].
  unfold target_mode. change (SFltb f32_zero THRESHOLD_LOW) with true.
  destruct (HIGH_LATENCY_US <=? rtt), Hm as [->| ->]; cbn; auto.
Qed.

(** The comment promises three repair symbols at 15% loss; just below the
    threshold the code computes two. *)
Lemma arbiter_r_at_high_loss :
  target_mode (SFpred 24 128 THRESHOLD_HIGH) 0 = HybridFecArq 8 2.
Proof. vm_compute. reflexivity. Qed.

(** ** Chaff scheduler *)

Definition MAX_CHAFF_BYTES : Z := 1400.
Definition MIN_CHAFF_BYTES : Z := 16.
Definition MEAN_INTERVAL_MS : Z := 50.
Definition CHAFF_MUL : Z := 6364136223846793005.

Record ChaffScheduler : Type := mkChaffScheduler {
  ch_next_send : Z;
  ch_enabled : bool;
  ch_lcg : Z         (* u64 *)
}.

Definition ChaffScheduler_new (now : Z) : ChaffScheduler :=
  mkChaffScheduler now false 0xdeadbeefcafebabe.

Definition ChaffScheduler_enable (c : ChaffScheduler) : ChaffScheduler :=
  mkChaffScheduler (ch_next_send c) true (ch_lcg c).

Definition ChaffScheduler_disable (c : ChaffScheduler) : ChaffScheduler :=
  mkChaffScheduler (ch_next_send c) false (ch_lcg c).

Definition chaff_should_send (c : ChaffScheduler) (now : Z) : bool :=
  ch_enabled c && (ch_next_send c <=? now).

(** [Duration::MAX] is [None]. *)
Definition chaff_time_until_next (c : ChaffScheduler) (now : Z) : option Z :=
  if negb (ch_enabled c) then None else Some (saturating_sub (ch_next_send c) now).

Definition pseudo_exp {M : Libm} (seed mean_ms : Z) : Z :=
  let u := f64_div (f64_of (Z.shiftr seed 33)) (f64_add (f64_of U32_MAX) (f64_of 1)) in
  let sample := f64_mul (SFopp (f64_ln (f64_sub (f64_of 1) u))) (f64_of mean_ms) in
  Z.min (Z.max (float_to_u 64 sample) (mean_ms / 4)) (mean_ms * 4).

Definition chaff_mark_sent {M : Libm} (c : ChaffScheduler) (send_counter now : Z) : ChaffScheduler :=
  let lcg := wrapping_add 64 (wrapping_mul 64 (ch_lcg c) CHAFF_MUL)
               (wrapping_add 64 send_counter 1) in
  mkChaffScheduler (now + from_millis (pseudo_exp lcg MEAN_INTERVAL_MS)) (ch_enabled c) lcg.

Definition chaff_payload (seed : Z) : list byte :=
  replicate (Z.to_nat (MIN_CHAFF_BYTES + seed mod (MAX_CHAFF_BYTES - MIN_CHAFF_BYTES + 1))) x00.

Definition pad_to_mtu (payload : list byte) (path_mtu : Z) : list byte :=
  let target_payload := saturating_sub path_mtu (32 + 16) in
  if target_payload <=? Z.of_nat (length payload) then payload
  else resize_bytes payload (Z.to_nat target_payload).

Definition chaff_jitter_delay (c : ChaffScheduler) : Z * ChaffScheduler :=
  if negb (ch_enabled c) then (0, c)
  else
    let lcg := wrapping_add 64 (wrapping_mul 64 (ch_lcg c) CHAFF_MUL) 1 in
    (from_micros (Z.shiftr lcg 32 mod 5000), mkChaffScheduler (ch_next_send c) (ch_enabled c) lcg).

Lemma chaff_interval_bounds {M : Libm} seed : 12 <= pseudo_exp seed MEAN_INTERVAL_MS <= 200.
Proof. unfold pseudo_exp, MEAN_INTERVAL_MS. change (50 / 4) with 12. lia. Qed.

(** The next chaff packet is due 12 to 200 ms after the last one. *)
Lemma chaff_spacing {M : Libm} c n now :
  ch_enabled c = true ->
  chaff_should_send (chaff_mark_sent c n now) (now + from_millis 11) = false
  /\ chaff_should_send (chaff_mark_sent c n now) (now + from_millis 200) = true.
Proof.
  intros He. unfold chaff_should_send, chaff_mark_sent. cbn [ch_enabled ch_next_send]. rewrite He.
  set (l := wrapping_add _ _ _). pose proof (chaff_interval_bounds l). unfold from_millis.
  split; cbn [andb]; [apply Z.leb_gt|apply Z.leb_le]; lia.
Qed.

(** The variate is drawn from 31 bits over 2^32: it stays below one half, not
    below one as the comment says. *)
Lemma chaff_variate_half seed : is_u 64 seed -> 2 * Z.shiftr seed 33 < U32_MAX + 1.
Proof.
  intros H. unfold is_u in H. rewrite Z.shiftr_div_pow2 by lia. unfold U32_MAX.
  assert (seed / 2 ^ 33 < 2 ^ 31) by (apply Z.div_lt_upper_bound; lia). lia.
Qed.

Lemma chaff_payload_length seed :
  0 <= seed -> MIN_CHAFF_BYTES <= Z.of_nat (length (chaff_payload seed)) <= MAX_CHAFF_BYTES.
Proof.
  intros Hs. unfold chaff_payload. rewrite length_replicate. unfold MIN_CHAFF_BYTES, MAX_CHAFF_BYTES.
  pose proof (Z.mod_pos_bound seed (1400 - 16 + 1) ltac:(lia)). lia.
Qed.

(** A padded payload fills the path MTU exactly, unless it was larger. *)
Lemma pad_to_mtu_length p mtu :
  48 <= mtu -> Z.of_nat (length (pad_to_mtu p mtu)) = Z.max (Z.of_nat (length p)) (mtu - 48).
Proof.
  intros Hm. unfold pad_to_mtu, saturating_sub. split_if; cmp_facts; [lia|].
  rewrite length_resize_bytes. lia.
Qed.

(** At the initial path MTU of 1280 bytes a chaff packet can exceed it on the
    wire: header, payload and tag make 1448 bytes for send counter 1384. *)
Lemma chaff_exceeds_mtu :
  32 + Z.of_nat (length (pad_to_mtu (chaff_payload 1384) 1280)) + 16 = 1448.
Proof. vm_compute. reflexivity. Qed.

(** ** Buffer pools *)

Module Pool.

(** A [Vec<u8>]: its content and its capacity. *)
Record Buf : Type := mkBuf { buf_data : list byte; buf_cap : nat }.

Record BufferPool : Type := mkBufferPool {
  bp_free : list Buf;          (* last in, first out: the head is the top *)
  bp_buf_capacity : nat;
  bp_max_pool_size : nat
}.

Definition BufferPool_new (cap max : nat) : BufferPool := mkBufferPool [] cap max.

Definition BufferPool_acquire (p : BufferPool) : Buf * BufferPool :=
  let fresh := mkBuf [] (bp_buf_capacity p) in
  match bp_free p with
  | b :: rest =>
      let p' := mkBufferPool rest (bp_buf_capacity p) (bp_max_pool_size p) in
      if (bp_buf_capacity p <=? buf_cap b)%nat then (mkBuf [] (buf_cap b), p') else (fresh, p')
  | [] => (fresh, p)
  end.

Definition BufferPool_release (p : BufferPool) (b : Buf) : BufferPool :=
  if (buf_cap b <? bp_buf_capacity p)%nat then p
  else if (length (bp_free p) <? bp_max_pool_size p)%nat
  then mkBufferPool (b :: bp_free p) (bp_buf_capacity p) (bp_max_pool_size p)
  else p.

Definition BufferPool_len (p : BufferPool) : nat := length (bp_free p).

(** The pool invariant: never more than the maximum, and every pooled buffer
    large enough. *)
Record pool_inv (p : BufferPool) : Prop := {
  po_len : (length (bp_free p) <= bp_max_pool_size p)%nat;
  po_caps : Forall (fun b => (bp_buf_capacity p <= buf_cap b)%nat) (bp_free p)
}.

Inductive PoolOp : Type := PAcquire | PRelease (b : Buf).

Definition pool_step (p : BufferPool) (op : PoolOp) : BufferPool :=
  match op with
  | PAcquire => (BufferPool_acquire p).2
  | PRelease b => BufferPool_release p b
  end.

Lemma acquire_caps p :
  bp_buf_capacity (BufferPool_acquire p).2 = bp_buf_capacity p
  /\ bp_max_pool_size (BufferPool_acquire p).2 = bp_max_pool_size p.
Proof. unfold BufferPool_acquire. destruct (bp_free p); [done|]. by case_match. Qed.

Lemma pool_step_inv p op : pool_inv p -> pool_inv (pool_step p op).
Proof.
  intros [Hl Hc]. destruct op as [|b]; cbn [pool_step].
  - unfold BufferPool_acquire. destruct (bp_free p) as [|b r] eqn:E; [by cbn [snd]; constructor; rewrite E|].
    apply List.Forall_cons_iff in Hc as [_ Hc]. cbn in Hl.
    case_match; (constructor; cbn; [lia|done]).
  - unfold BufferPool_release. split_if; [by constructor|]. split_if; [|by constructor].
    cmp_facts. constructor; cbn; [lia|]. by constructor.
Qed.

(** In every reachable pool, an acquired buffer is empty and has at least the
    configured capacity, and the pool holds at most its maximum. *)
Lemma pool_run_ok cap max ops :
  let p := fold_left pool_step ops (BufferPool_new cap max) in
  (BufferPool_len p <= max)%nat
  /\ buf_data (BufferPool_acquire p).1 = []
  /\ (cap <= buf_cap (BufferPool_acquire p).1)%nat.
Proof.
  intros p. assert (H : pool_inv p /\ bp_buf_capacity p = cap /\ bp_max_pool_size p = max).
  { unfold p. induction ops as [|op ops IH] using rev_ind; [by repeat split; cbn; [lia|constructor]|].
    rewrite fold_left_app. cbn [fold_left].
    set (q := fold_left pool_step ops (BufferPool_new cap max)) in *.
    destruct IH as (Hi & Ec & Em). split; [by apply pool_step_inv|].
    destruct op; cbn [pool_step]; [destruct (acquire_caps q) as [-> ->]; done|].
    unfold BufferPool_release. by repeat case_match. }
  destruct H as ([Hl Hc] & Ec & Em). unfold BufferPool_len. split; [lia|].
  unfold BufferPool_acquire. destruct (bp_free p) as [|b r]; cbn; [split; [done|lia]|].
  apply List.Forall_cons_iff in Hc as [Hb _]. split_if; cbn; cmp_facts; split; (done || lia).
Qed.

End Pool.

(** The packet buffer pool: a bounded channel of 1500-byte boxes. *)
Module BufPool.

Definition POOL_SIZE : nat := 256.
Definition BUF_SIZE : nat := 1500.

(** The channel's content, oldest first. *)
Record BufferPool : Type := mkBufferPool { bq_channel : list (list byte) }.

Definition BufferPool_new : BufferPool :=
  mkBufferPool (replicate POOL_SIZE (replicate BUF_SIZE x00)).

Definition BufferPool_get (p : BufferPool) : list byte * BufferPool :=
  match bq_channel p with
  | b :: rest => (b, mkBufferPool rest)
  | [] => (replicate BUF_SIZE x00, p)
  end.

(** [Drop for PooledBuf]: [try_send], so a full channel drops the box. *)
Definition PooledBuf_drop (p : BufferPool) (b : list byte) : BufferPool :=
  if (length (bq_channel p) <? POOL_SIZE)%nat then mkBufferPool (bq_channel p ++ [b]) else p.

Record bufpool_inv (p : BufferPool) : Prop := {
  bq_len : (length (bq_channel p) <= POOL_SIZE)%nat;
  bq_sizes : Forall (fun b => length b = BUF_SIZE) (bq_channel p)
}.

Lemma get_inv p : bufpool_inv p -> bufpool_inv (BufferPool_get p).2 /\ length (BufferPool_get p).1 = BUF_SIZE.
Proof.
  intros [Hl Hs]. unfold BufferPool_get. destruct (bq_channel p) as [|b r] eqn:E; cbn [fst snd].
  - split; [constructor; by rewrite E|]. apply length_replicate.
  - apply List.Forall_cons_iff in Hs as [Hb Hr]. cbn in Hl. split; [constructor; cbn; [lia|done]|done].
Qed.

Lemma drop_inv p b : bufpool_inv p -> length b = BUF_SIZE -> bufpool_inv (PooledBuf_drop p b).
Proof.
  intros [Hl Hs] Hb. unfold PooledBuf_drop. split_if; [|by constructor]. cmp_facts.
  constructor; cbn [bq_channel]; [rewrite length_app; cbn; lia|].
  apply Forall_app. split; [done|]. by constructor.
Qed.

(** A recycled buffer keeps the bytes its last holder left in it. *)
Lemma buffer_not_cleared p b :
  bq_channel p = [] -> (BufferPool_get (PooledBuf_drop p b)).1 = b.
Proof. intros E. unfold PooledBuf_drop. by rewrite E. Qed.

End BufPool.
