(* ===== verification/Ack.v ===== *)
(** * Range-based acknowledgements

    src/src/session/ack.rs: the receive-side set of packet numbers with its
    retention window, the ACK frame built from it, and the parser of such
    frames. An [Instant] is a number of nanoseconds passed to the operations
    that read the clock. *)

From Stdlib Require Import ZArith Lia Bool List Sorting.Sorted.
From Stdlib Require Import Strings.Byte.
From stdpp Require Import base list numbers option.
From S2P Require Import Prelude Ordered.

Open Scope Z_scope.

Definition ACK_RETAIN_WINDOW : Z := 8192.

Record AckRanges : Type := mkAckRanges {
  ar_received : list Z;                    (* BTreeSet<u64>, ascending *)
  ar_largest_received_at : option Z;       (* Option<Instant> *)
  ar_largest_received : Z;
  ar_ack_pending : bool
}.

Definition AckRanges_new : AckRanges := mkAckRanges [] None 0 false.

Definition AckRanges_prune_below (a : AckRanges) (threshold : Z) : AckRanges :=
  mkAckRanges (bset_split_off threshold (ar_received a)) (ar_largest_received_at a)
    (ar_largest_received a) (ar_ack_pending a).

Definition AckRanges_is_empty (a : AckRanges) : bool :=
  match ar_received a with [] => true | _ => false end.

Definition AckRanges_has_pending_ack (a : AckRanges) : bool := ar_ack_pending a.

Definition AckRanges_on_received (a : AckRanges) (now pn : Z) (ack_eliciting : bool) : AckRanges :=
  let advance := (ar_largest_received a <? pn) || AckRanges_is_empty a in
  let largest := if advance then pn else ar_largest_received a in
  let at_time := if advance then Some now else ar_largest_received_at a in
  let a1 := mkAckRanges (bset_insert pn (ar_received a)) at_time largest
              (if ack_eliciting then true else ar_ack_pending a) in
  AckRanges_prune_below a1 (saturating_sub largest ACK_RETAIN_WINDOW).

(** The walk downward from the largest number: [cur_start..=cur_end] is the
    open range, [pns] the numbers still to visit. *)
Fixpoint build_ranges (cur_start cur_end : Z) (pns : list Z) : list (Z * Z) :=
  match pns with
  | [] => [(cur_start, cur_end)]
  | pn :: rest =>
      if wrapping_add 64 pn 1 =? cur_start then build_ranges pn cur_end rest
      else (cur_start, cur_end) :: build_ranges pn pn rest
  end.

(** The (gap, length) pairs after the first range. *)
Fixpoint extra_ranges_bytes (prev_start : Z) (rs : list (Z * Z)) : list byte :=
  match rs with
  | [] => []
  | (start, end_) :: rest =>
      to_le 8 (prev_start - end_ - 1) ++ to_le 8 (end_ - start) ++ extra_ranges_bytes start rest
  end.

(** Microseconds since [t]: [t.elapsed().as_micros() as u64]. *)
Definition elapsed_us (now t : Z) : Z := wrap 64 (saturating_sub now t / 1000).

Definition clear_pending (a : AckRanges) : AckRanges :=
  mkAckRanges (ar_received a) (ar_largest_received_at a) (ar_largest_received a) false.

Definition AckRanges_build_frame (a : AckRanges) (now : Z) : AckRanges * list byte :=
  match rev (ar_received a) with
  | [] => (clear_pending a, to_le 8 0 ++ to_le 8 0 ++ to_le 2 0 ++ to_le 8 0)
  | largest :: below =>
      let ack_delay_us := match ar_largest_received_at a with
                          | Some t => elapsed_us now t
                          | None => 0
                          end in
      match build_ranges largest largest below with
      | [] => (clear_pending a, [])            (* the walk yields at least one range *)
      | (start0, end0) :: extra =>
          (clear_pending a,
           to_le 8 largest ++ to_le 8 ack_delay_us ++ to_le 2 (Z.of_nat (length extra))
           ++ to_le 8 (end0 - start0) ++ extra_ranges_bytes start0 extra)
      end
  end.

(** [for _ in 0..range_count]: reads at [off], continues below [cur_start]. *)
Fixpoint parse_extra (frame : list byte) (count : nat) (off : nat) (cur_start : Z)
  : option (list (Z * Z)) :=
  match count with
  | O => Some []
  | S count' =>
      if (length frame <? off + 16)%nat then None
      else
        let gap := from_le (slice frame off (off + 8)) in
        let len := from_le (slice frame (off + 8) (off + 16)) in
        match checked_sub cur_start (wrapping_add 64 gap 1) with
        | None => None
        | Some cur_end =>
            match checked_sub cur_end len with
            | None => None
            | Some start =>
                match parse_extra frame count' (off + 16) start with
                | None => None
                | Some l => Some ((start, cur_end) :: l)
                end
            end
        end
  end.

Definition parse_ack_frame (frame : list byte) : option (Z * Z * list (Z * Z)) :=
  if (length frame <? 26)%nat then None
  else
    let largest := from_le (slice frame 0 8) in
    let ack_delay_us := from_le (slice frame 8 16) in
    let range_count := Z.to_nat (from_le (slice frame 16 18)) in
    let first_range_len := from_le (slice frame 18 26) in
    let cur_start := saturating_sub largest first_range_len in
    match parse_extra frame range_count 26 cur_start with
    | None => None
    | Some l => Some (largest, ack_delay_us, (cur_start, largest) :: l)
    end.

(** ** Ranges and the set they cover *)

Definition covered (pn : Z) (rs : list (Z * Z)) : Prop :=
  exists s e, In (s, e) rs /\ s <= pn <= e.

(** Ranges of 64-bit numbers, each at least two below the start of the one
    before it. *)
Fixpoint separated (rs : list (Z * Z)) : Prop :=
  match rs with
  | [] => True
  | (s, e) :: rest =>
      0 <= s <= e /\ e < 2 ^ 64 /\
      match rest with [] => True | (_, e') :: _ => e' + 1 < s end /\ separated rest
  end.

Lemma covered_cons pn s e rs : covered pn ((s, e) :: rs) <-> s <= pn <= e \/ covered pn rs.
Proof.
  unfold covered. split.
  - intros (s' & e' & [Heq|Hin] & Hb); [injection Heq as -> ->; by left|right; eauto].
  - intros [Hb|(s' & e' & Hin & Hb)]; [exists s, e; split; [by left|done]|].
    exists s', e'. split; [by right|done].
Qed.

Lemma build_ranges_spec pns : forall cur_start cur_end,
  descending (cur_start :: pns) -> (forall pn, In pn pns -> is_u64 pn) ->
  0 <= cur_start <= cur_end -> cur_end < 2 ^ 64 ->
  separated (build_ranges cur_start cur_end pns) /\
  (forall pn, covered pn (build_ranges cur_start cur_end pns) <-> cur_start <= pn <= cur_end \/ In pn pns) /\
  (exists s rest, build_ranges cur_start cur_end pns = (s, cur_end) :: rest) /\
  (length (build_ranges cur_start cur_end pns) <= S (length pns))%nat.
Proof.
  induction pns as [|p pns IH]; intros cs ce Hd Hu Hc He; simpl build_ranges.
  - split_and!; [simpl; lia| |eauto|simpl; lia]. intros pn. rewrite covered_cons.
    split; [intros [?|(? & ? & [] & _)]; by left|intros [?|[]]; by left].
  - inversion_clear Hd as [|? ? Hd' Hcs]. rewrite List.Forall_forall in Hcs.
    assert (p < cs) as Hp by (apply Hcs; by left).
    assert (is_u64 p) as Hpu by (apply Hu; by left). unfold is_u in Hpu.
    assert (forall pn, In pn pns -> is_u64 pn) as Hu' by (intros; apply Hu; by right).
    unfold wrapping_add. rewrite wrap_small by (unfold is_u; lia).
    destruct (p + 1 =? cs) eqn:E; cmp_facts.
    + destruct (IH p ce Hd' Hu' ltac:(lia) He) as (H1 & H2 & H3 & H4).
      split_and!; [done| |done|simpl; lia]. intros pn. rewrite H2. simpl. intuition lia.
    + destruct (IH p p Hd' Hu' ltac:(lia) ltac:(lia)) as (H1 & H2 & (s & rest & Er) & H4).
      split_and!; [| |eauto|simpl; lia].
      * rewrite Er in *. simpl. simpl in H1. split_and!; try lia; tauto.
      * intros pn. rewrite covered_cons, H2. simpl. intuition lia.
Qed.

(** ** Parsing what was built *)

Lemma slice_at (pre x post : list byte) i j :
  i = length pre -> j = (i + length x)%nat -> slice (pre ++ x ++ post) i j = x.
Proof.
  intros -> ->. rewrite slice_app_r by done. rewrite Nat.sub_diag.
  replace (length pre + length x - length pre)%nat with (length x) by lia.
  rewrite slice_app_l by done. by apply slice_all.
Qed.

Lemma length_extra_ranges prev rs : length (extra_ranges_bytes prev rs) = (16 * length rs)%nat.
Proof.
  revert prev. induction rs as [|[s e] rs IH]; intros prev; [done|]. cbn [extra_ranges_bytes length].
  rewrite !length_app, !length_to_le, IH. lia.
Qed.

Lemma parse_extra_built rs : forall pre s e post,
  separated ((s, e) :: rs) ->
  parse_extra (pre ++ extra_ranges_bytes s rs ++ post) (length rs) (length pre) s = Some rs.
Proof.
  induction rs as [|[s' e'] rs IH]; intros pre s e post Hsep; [done|].
  cbn [length parse_extra extra_ranges_bytes].
  destruct Hsep as (Hs & He & Hgap & Hsep'). pose proof Hsep' as Hsep2.
  destruct Hsep' as (Hs' & He' & _ & _).
  rewrite !length_app, !length_to_le.
  destruct (_ <? _)%nat eqn:E; cmp_facts; [lia|]. clear E.
  rewrite <- !(app_assoc (to_le 8 _)).
  rewrite (slice_at pre (to_le 8 (s - e' - 1))) by (rewrite ?length_to_le; lia).
  rewrite (from_le_to_le_small 8) by (unfold is_u; lia).
  rewrite (app_assoc pre (to_le 8 (s - e' - 1))).
  rewrite (slice_at (pre ++ to_le 8 (s - e' - 1)) (to_le 8 (e' - s')))
    by (rewrite ?length_app, ?length_to_le; lia).
  rewrite (from_le_to_le_small 8) by (unfold is_u; lia).
  unfold wrapping_add. rewrite wrap_small by (unfold is_u; lia).
  rewrite (proj2 (checked_sub_Some s _ e')) by lia.
  rewrite (proj2 (checked_sub_Some e' _ s')) by lia.
  rewrite (app_assoc _ (to_le 8 (e' - s'))).
  replace (length pre + 16)%nat with (length ((pre ++ to_le 8 (s - e' - 1)) ++ to_le 8 (e' - s'))).
  2: { rewrite !length_app, !length_to_le. lia. }
  by rewrite (IH _ s' e' post Hsep2).
Qed.

Lemma parse_built largest delay s extra post :
  is_u64 delay -> separated ((s, largest) :: extra) -> Z.of_nat (length extra) < 2 ^ 16 ->
  parse_ack_frame (to_le 8 largest ++ to_le 8 delay ++ to_le 2 (Z.of_nat (length extra))
    ++ to_le 8 (largest - s) ++ extra_ranges_bytes s extra ++ post) =
    Some (largest, delay, (s, largest) :: extra).
Proof.
  intros Hd Hsep Hlen. unfold parse_ack_frame.
  pose proof (length_to_le 8 largest) as L1. pose proof (length_to_le 8 delay) as L2.
  pose proof (length_to_le 2 (Z.of_nat (length extra))) as L3.
  pose proof (length_to_le 8 (largest - s)) as L4.
  destruct Hsep as (Hs & He & Hg & Hsep).
  pose proof (from_le_to_le_small 8 largest ltac:(unfold is_u; lia)) as F1.
  pose proof (from_le_to_le_small 8 delay Hd) as F2.
  pose proof (from_le_to_le_small 2 (Z.of_nat (length extra)) ltac:(unfold is_u; lia)) as F3.
  pose proof (from_le_to_le_small 8 (largest - s) ltac:(unfold is_u; lia)) as F4.
  set (b1 := to_le 8 largest) in *. set (b2 := to_le 8 delay) in *.
  set (b3 := to_le 2 _) in *. set (b4 := to_le 8 (largest - s)) in *.
  clearbody b1 b2 b3 b4.
  rewrite !length_app. destruct (_ <? 26)%nat eqn:E; cmp_facts; [lia|]. clear E.
  rewrite (slice_app_l b1 _ 0 8), (slice_all b1 8) by lia. rewrite F1.
  rewrite (slice_at b1 b2 _ 8 16) by lia. rewrite F2.
  rewrite (app_assoc b1 b2), (slice_at (b1 ++ b2) b3 _ 16 18) by (rewrite ?length_app; lia). rewrite F3, Nat2Z.id.
  rewrite (app_assoc _ b3), (slice_at ((b1 ++ b2) ++ b3) b4 _ 18 26) by (rewrite ?length_app; lia). rewrite F4.
  rewrite saturating_sub_le by lia. replace (largest - (largest - s)) with s by lia.
  rewrite (app_assoc _ b4).
  replace 26%nat with (length (((b1 ++ b2) ++ b3) ++ b4)) by (rewrite !length_app; lia).
  rewrite (parse_extra_built extra _ s largest); [done|]. split_and!; try lia; done.
Qed.

(** ** The tracked set against the history of received numbers *)

(** A received packet: arrival time, number, whether it elicits an ACK. *)
Record Recv : Type := mkRecv { rv_now : Z; rv_pn : Z; rv_eliciting : bool }.

Definition ack_run (a : AckRanges) (hist : list Recv) : AckRanges :=
  fold_left (fun a r => AckRanges_on_received a (rv_now r) (rv_pn r) (rv_eliciting r)) hist a.

Definition pn_max (hist : list Recv) : Z := fold_right (fun r m => Z.max (rv_pn r) m) 0 hist.

(** The abstract content: the numbers within the window below the largest. *)
Definition ack_spec (hist : list Recv) (pn : Z) : Prop :=
  In pn (map rv_pn hist) /\ pn_max hist - ACK_RETAIN_WINDOW <= pn.

Record ack_inv (hist : list Recv) (a : AckRanges) : Prop := {
  ai_asc : ascending (ar_received a);
  ai_set : forall pn, In pn (ar_received a) <-> ack_spec hist pn;
  ai_max : hist <> [] -> ar_largest_received a = pn_max hist;
  ai_nil : hist = [] -> ar_received a = []
}.

Lemma pn_max_ge hist r : In r hist -> rv_pn r <= pn_max hist.
Proof.
  induction hist as [|x hist IH]; simpl; [done|]. intros [->|Hin]; [lia|]. specialize (IH Hin). lia.
Qed.

Lemma pn_max_nonneg hist : 0 <= pn_max hist.
Proof. induction hist; simpl; lia. Qed.

Lemma pn_max_app h1 h2 : pn_max (h1 ++ h2) = Z.max (pn_max h1) (pn_max h2).
Proof. induction h1 as [|x h1 IH]; simpl; [pose proof (pn_max_nonneg h2); lia|]. rewrite IH. lia. Qed.

Lemma pn_max_In hist : (forall r, In r hist -> is_u64 (rv_pn r)) -> hist <> [] ->
  In (pn_max hist) (map rv_pn hist).
Proof.
  induction hist as [|x hist IH]; intros Hu Hne; [done|]. simpl.
  destruct hist as [|y hist].
  - left. pose proof (Hu x ltac:(by left)) as H. unfold is_u in H. simpl. lia.
  - destruct (Z.max_spec (rv_pn x) (pn_max (y :: hist))) as [[_ ->]|[_ ->]]; [|by left].
    right. apply IH; [intros; apply Hu; by right|done].
Qed.

Lemma ack_step hist a r :
  (forall x, In x hist -> is_u64 (rv_pn x)) -> is_u64 (rv_pn r) -> ack_inv hist a ->
  ack_inv (hist ++ [r]) (AckRanges_on_received a (rv_now r) (rv_pn r) (rv_eliciting r)).
Proof.
  intros Hu Hr [Hasc Hset Hmax Hnil]. unfold is_u in Hr.
  unfold AckRanges_on_received, AckRanges_prune_below. simpl.
  set (largest := if _ || _ then rv_pn r else _).
  assert (largest = pn_max (hist ++ [r])) as Hl.
  { unfold largest. rewrite pn_max_app. simpl. rewrite (Z.max_l (rv_pn r) 0) by lia.
    destruct hist as [|x h].
    - unfold AckRanges_is_empty. rewrite (Hnil eq_refl), orb_true_r. simpl. lia.
    - rewrite (Hmax ltac:(done)).
      assert (AckRanges_is_empty a = false) as ->.
      { unfold AckRanges_is_empty. destruct (ar_received a) eqn:E; [|done].
        exfalso. apply (proj2 (Hset (pn_max (x :: h)))).
        split; [by apply pn_max_In|]. unfold ACK_RETAIN_WINDOW. lia. }
      rewrite orb_false_r. clear largest. split_if; cmp_facts; lia. }
  constructor; simpl.
  - apply ascending_filter, bset_insert_ascending, Hasc.
  - intros pn. unfold bset_split_off. rewrite filter_In, bset_insert_In, Hset, Hl, Z.leb_le.
    unfold ack_spec, saturating_sub, ACK_RETAIN_WINDOW. rewrite map_app, in_app_iff, pn_max_app. simpl.
    assert (In pn (map rv_pn hist) -> 0 <= pn) as H0.
    { intros Hin. apply in_map_iff in Hin as (x & <- & Hx). apply Hu in Hx. unfold is_u in Hx. lia. }
    pose proof (pn_max_nonneg hist). split.
    + intros [[->|[Hin Hge]] Ht]; (split; [auto|lia]).
    + intros [[Hin|[<-|[]]] Hge]; [pose proof (H0 Hin)|]; (split; [|lia]);
        [right; split; [done|lia]|by left].
  - intros _. exact Hl.
  - intros E. by destruct hist.
Qed.

Lemma ack_run_inv hist :
  (forall r, In r hist -> is_u64 (rv_pn r)) -> ack_inv hist (ack_run AckRanges_new hist).
Proof.
  induction hist as [|r hist IH] using rev_ind; intros Hu.
  - constructor; [constructor| |done|done]. intros pn. simpl. split; [done|by intros [[] _]].
  - unfold ack_run. rewrite fold_left_app. simpl. apply ack_step.
    + intros x Hx. apply Hu, in_or_app. by left.
    + apply Hu, in_or_app. right. by left.
    + apply IH. intros x Hx. apply Hu, in_or_app. by left.
Qed.

Lemma ack_inv_bound hist a : (forall r, In r hist -> is_u64 (rv_pn r)) -> ack_inv hist a ->
  Z.of_nat (length (ar_received a)) <= ACK_RETAIN_WINDOW + 1.
Proof.
  intros Hu [Hasc Hset _ _]. destruct (ar_received a) as [|x l] eqn:E; [simpl; unfold ACK_RETAIN_WINDOW; lia|].
  rewrite <- E in *. transitivity (pn_max hist - (pn_max hist - ACK_RETAIN_WINDOW) + 1); [|lia].
  apply ascending_bound_length; [done| |by rewrite E].
  intros y Hy. apply Hset in Hy as [Hin Hge]. split; [done|].
  apply in_map_iff in Hin as (r & <- & Hr). by apply pn_max_ge.
Qed.

(** C31: after any non-empty history of received packet numbers, the ACK frame
    parses back, whatever bytes follow it, to ranges headed by the largest
    number and covering exactly the received numbers of the retention window,
    the tracked set holds at most 8193 numbers, and building the frame clears
    the pending flag and keeps the set. *)
Theorem ack_frame_covers_history (hist : list Recv) (now : Z) (trail : list byte) :
  hist <> [] -> (forall r, In r hist -> is_u64 (rv_pn r)) ->
  let a := ack_run AckRanges_new hist in
  let '(a', frame) := AckRanges_build_frame a now in
  exists delay ranges,
    parse_ack_frame (frame ++ trail) = Some (pn_max hist, delay, ranges) /\
    (exists s rest, ranges = (s, pn_max hist) :: rest) /\
    (forall pn, covered pn ranges <-> ack_spec hist pn) /\
    Z.of_nat (length (ar_received a)) <= ACK_RETAIN_WINDOW + 1 /\
    ar_ack_pending a' = false /\ ar_received a' = ar_received a.
Proof.
  intros Hne Hu a. pose proof (ack_run_inv hist Hu) as Hinv. fold a in Hinv.
  pose proof (ack_inv_bound hist a Hu Hinv) as Hb. destruct Hinv as [Hasc Hset Hmax _].
  assert (ack_spec hist (pn_max hist)) as Hm.
  { split; [by apply pn_max_In|unfold ACK_RETAIN_WINDOW; lia]. }
  unfold AckRanges_build_frame. pose proof (ascending_rev _ Hasc) as Hd.
  assert (forall x, In x (rev (ar_received a)) <-> ack_spec hist x) as Hin.
  { intros x. rewrite <- in_rev. apply Hset. }
  assert (length (rev (ar_received a)) = length (ar_received a)) as Hlr by apply length_rev.
  destruct (rev (ar_received a)) as [|largest below].
  { by apply Hin in Hm. }
  assert (forall x, In x (largest :: below) -> is_u64 x /\ x <= pn_max hist) as Hux.
  { intros x Hx. apply Hin in Hx as [Hx _]. apply in_map_iff in Hx as (r & <- & Hr).
    split; [by apply Hu|by apply pn_max_ge]. }
  assert (largest = pn_max hist) as ->.
  { destruct (proj2 (Hin _) Hm) as [Heq|Hbelow]; [done|]. inversion_clear Hd as [|? ? _ Hlt].
    rewrite List.Forall_forall in Hlt. apply Hlt in Hbelow.
    pose proof (Hux largest ltac:(by left)) as [_ ?]. lia. }
  pose proof (Hux (pn_max hist) ltac:(by left)) as [Hmu _]. unfold is_u in Hmu.
  destruct (build_ranges_spec below (pn_max hist) (pn_max hist) Hd) as (Hsep & Hcov & (s & rest & Er) & Hlen);
    [intros; apply Hux; by right|lia|lia|].
  rewrite Er in *. set (delay := match ar_largest_received_at a with Some _ => _ | None => _ end).
  exists delay, ((s, pn_max hist) :: rest). split_and!; [|eauto| |done|done|done].
  - rewrite <- !app_assoc. apply parse_built; [|done|].
    + unfold delay, elapsed_us. destruct (ar_largest_received_at a); [apply wrap_is_u; lia|unfold is_u; lia].
    + simpl in Hlen, Hlr. unfold ACK_RETAIN_WINDOW in Hb. lia.
  - intros pn. rewrite Hcov, <- Hin. simpl. intuition lia.
Qed.

Lemma ack_frame_covers_history_witness :
  let hist := [mkRecv 1000 5 true; mkRecv 2000 7 true; mkRecv 3000 6 false; mkRecv 4000 9 true] in
  exists delay,
    parse_ack_frame (snd (AckRanges_build_frame (ack_run AckRanges_new hist) 9000) ++ []) =
      Some (9, delay, [(9, 9); (5, 7)]) /\ delay = 5 /\ pn_max hist = 9.
Proof.
  intros hist.
  pose proof (ack_frame_covers_history hist 9000 []) as H.
  assert (hist <> []) as H1 by done.
  assert (forall r, In r hist -> is_u64 (rv_pn r)) as H2.
  { intros r Hr. repeat destruct Hr as [<-|Hr]; try done; unfold is_u; simpl; lia. }
  specialize (H H1 H2). destruct (AckRanges_build_frame _ _) as [a' frame] eqn:E.
  destruct H as (delay & ranges & Hp & _). vm_compute in E. injection E as <- <-.
  vm_compute in Hp. injection Hp as <- <-. exists 5. split_and!; vm_compute; reflexivity.
Defined.

(** ** Arbitrary frames *)

(** Each range is non-empty and ends no higher than the start before it. *)
Fixpoint chained (hi : Z) (rs : list (Z * Z)) : Prop :=
  match rs with
  | [] => True
  | (s, e) :: rest => 0 <= s <= e /\ e <= hi /\ chained s rest
  end.

Lemma from_le_nonneg l : 0 <= from_le l.
Proof. apply from_le_bound. Qed.

Lemma parse_extra_chained frame count : forall off hi rs,
  0 <= hi -> parse_extra frame count off hi = Some rs -> chained hi rs /\ length rs = count.
Proof.
  induction count as [|count IH]; intros off hi rs Hhi; cbn [parse_extra]; [by intros [= <-]|].
  destruct (_ <? _)%nat; [done|].
  destruct (checked_sub hi _) as [e|] eqn:E1; [|done].
  destruct (checked_sub e _) as [s|] eqn:E2; [|done].
  destruct (parse_extra frame count _ s) as [l|] eqn:E3; [|done]. intros [= <-].
  apply checked_sub_Some in E1 as [H1 ->]. apply checked_sub_Some in E2 as [H2 ->].
  pose proof (from_le_nonneg (slice frame (off + 8) (off + 16))) as Hlen.
  assert (0 <= wrapping_add 64 (from_le (slice frame off (off + 8))) 1) as Hgap.
  { apply (wrap_is_u 64). lia. }
  apply IH in E3 as [Hc Hl]; [|lia]. simpl. split_and!; try lia. done.
Qed.

Lemma parse_extra_length frame m : forall l off hi,
  (off <= length frame)%nat -> parse_extra frame m off hi = Some l ->
  (off + 16 * length l <= length frame)%nat.
Proof.
  induction m as [|m IH]; intros l off hi Hoff; cbn [parse_extra]; [intros [= <-]; simpl; lia|].
  destruct (_ <? _)%nat eqn:E; [done|]. cmp_facts.
  destruct (checked_sub hi _) as [e|]; [|done]. destruct (checked_sub e _) as [s|]; [|done].
  destruct (parse_extra frame m _ s) as [l'|] eqn:E3; [|done]. intros [= <-].
  apply IH in E3; simpl; lia.
Qed.

(** Whatever frame a peer sends, an accepted ACK frame yields one range
    per announced entry plus the first, the first ending at the largest
    acknowledged number, every range non-empty, and each ending at or below the
    start of the previous one. *)
Theorem parse_ack_frame_sound (frame : list byte) (largest delay : Z) (ranges : list (Z * Z)) :
  parse_ack_frame frame = Some (largest, delay, ranges) ->
  is_u64 largest /\ is_u64 delay /\ chained largest ranges /\
  (exists s rest, ranges = (s, largest) :: rest) /\ Z.of_nat (length ranges) <= 65536 /\
  (26 + 16 * (length ranges - 1) <= length frame)%nat.
Proof.
  unfold parse_ack_frame. destruct (_ <? 26)%nat eqn:E; [done|]. cmp_facts.
  destruct (parse_extra frame _ 26 _) as [l|] eqn:Ep; [|done]. intros [= <- <- <-].
  assert (is_u64 (from_le (slice frame 0 8))) as Hl.
  { apply (from_le_is_u _ 8), length_slice; lia. }
  assert (is_u64 (from_le (slice frame 8 16))) as Hd.
  { apply (from_le_is_u _ 8), length_slice; lia. }
  assert (is_u16 (from_le (slice frame 16 18))) as Hc.
  { apply (from_le_is_u _ 2), length_slice; lia. }
  pose proof (from_le_nonneg (slice frame 18 26)) as Hf.
  pose proof (parse_extra_length frame _ l 26 _ E Ep) as Hlen.
  apply parse_extra_chained in Ep as [Hch Hn]; [|unfold saturating_sub; lia].
  unfold is_u in *. split_and!; try lia; [|eauto| |].
  - simpl. split_and!; [unfold saturating_sub; lia|unfold saturating_sub; lia|lia|done].
  - simpl. lia.
  - simpl. lia.
Qed.

Lemma parse_ack_frame_sound_witness :
  chained 9 [(7, 9); (3, 5)].
Proof.
  apply (parse_ack_frame_sound
    (to_le 8 9 ++ to_le 8 4 ++ to_le 2 1 ++ to_le 8 2 ++ to_le 8 1 ++ to_le 8 2) 9 4).
  vm_compute. reflexivity.
Defined.

(** A gap of 2^64 - 1 is not rejected: its increment wraps to zero and the
    second range starts again at the first one's start, so the two ranges
    overlap although the format separates ranges by at least one packet. *)
Theorem ack_gap_overflow_overlaps :
  parse_ack_frame (to_le 8 9 ++ to_le 8 0 ++ to_le 2 1 ++ to_le 8 2 ++ to_le 8 U64_MAX ++ to_le 8 0) =
    Some (9, 0, [(7, 9); (7, 7)]).
Proof. vm_compute. reflexivity. Qed.
