(* ===== verification/Stream.v ===== *)
(** * Reliable ordered byte streams

    src/src/session/stream.rs: the send buffer with its offsets and window, the
    out-of-order receive buffer and in-order reading. *)

From Stdlib Require Import ZArith Lia Bool List Sorting.Sorted.
From Stdlib Require Import Strings.Byte.
From stdpp Require Import base list numbers option.
From S2P Require Import Prelude Packet Ordered.

Open Scope Z_scope.

Definition PRIORITY_HIGH : Z := 0.
Definition PRIORITY_DEFAULT : Z := 4.
Definition PRIORITY_LOW : Z := 7.

Record Stream : Type := mkStream {
  st_id : Z;                         (* u32 *)
  st_priority : Z;                   (* u8 *)
  st_send_buf : list byte;
  st_send_offset : Z;
  st_send_unacked_offset : Z;
  st_send_max_data : Z;
  st_recv_offset : Z;
  st_recv_buf : OMap (list byte);    (* BTreeMap<u64, Bytes> *)
  st_recv_max_data : Z;
  st_recv_buffered : Z;
  st_fin_received : option Z;
  st_fin_sent : bool;
  st_fin_flushed : bool
}.

(** [Stream::DEFAULT_WINDOW]. *)
Definition DEFAULT_WINDOW : Z := 16 * 1024 * 1024.

Definition Stream_new (id : Z) : Stream :=
  mkStream id PRIORITY_DEFAULT [] 0 0 DEFAULT_WINDOW 0 [] DEFAULT_WINDOW 0 None false false.

Definition set_send_max (s : Stream) (v : Z) : Stream :=
  mkStream (st_id s) (st_priority s) (st_send_buf s) (st_send_offset s) (st_send_unacked_offset s) v
    (st_recv_offset s) (st_recv_buf s) (st_recv_max_data s) (st_recv_buffered s) (st_fin_received s)
    (st_fin_sent s) (st_fin_flushed s).

Definition Stream_extend_send_window (s : Stream) (new_limit : Z) : Stream :=
  if st_send_max_data s <? new_limit then set_send_max s new_limit else s.

Definition Stream_send_window_remaining (s : Stream) : Z :=
  saturating_sub (st_send_max_data s) (st_send_offset s).

Definition Stream_set_recv_limit (s : Stream) (limit : Z) : Stream :=
  mkStream (st_id s) (st_priority s) (st_send_buf s) (st_send_offset s) (st_send_unacked_offset s)
    (st_send_max_data s) (st_recv_offset s) (st_recv_buf s) limit (st_recv_buffered s)
    (st_fin_received s) (st_fin_sent s) (st_fin_flushed s).

Definition set_send (s : Stream) (buf : list byte) (off : Z) : Stream :=
  mkStream (st_id s) (st_priority s) buf off (st_send_unacked_offset s) (st_send_max_data s)
    (st_recv_offset s) (st_recv_buf s) (st_recv_max_data s) (st_recv_buffered s) (st_fin_received s)
    (st_fin_sent s) (st_fin_flushed s).

(** ** Send side *)

Definition Stream_write (s : Stream) (data : list byte) : Result (Stream * Z) SeamError :=
  let n := Z.of_nat (length data) in
  if st_fin_sent s then Err (StreamFinished (st_id s))
  else if st_send_max_data s <? saturating_add 64 (st_send_offset s) n then
    Err (FlowControlBlocked (saturating_sub (st_send_max_data s) (st_send_offset s)) n)
  else
    Ok (set_send s (st_send_buf s ++ data) (wrapping_add 64 (st_send_offset s) n), st_send_offset s).

Definition set_fin_flags (s : Stream) (sent flushed : bool) : Stream :=
  mkStream (st_id s) (st_priority s) (st_send_buf s) (st_send_offset s) (st_send_unacked_offset s)
    (st_send_max_data s) (st_recv_offset s) (st_recv_buf s) (st_recv_max_data s) (st_recv_buffered s)
    (st_fin_received s) sent flushed.

Definition Stream_finish (s : Stream) : Stream := set_fin_flags s true (st_fin_flushed s).

Definition send_buf_is_empty (s : Stream) : bool :=
  match st_send_buf s with [] => true | _ => false end.

Definition Stream_should_send_fin (s : Stream) : bool :=
  st_fin_sent s && negb (st_fin_flushed s) && send_buf_is_empty s.

Definition Stream_mark_fin_flushed (s : Stream) : Stream := set_fin_flags s (st_fin_sent s) true.

Definition Stream_poll_send (s : Stream) (max_bytes : nat) : option (Stream * (Z * list byte)) :=
  if send_buf_is_empty s then None
  else
    let n := Nat.min (length (st_send_buf s)) max_bytes in
    let offset := wrap 64 (st_send_offset s - Z.of_nat (length (st_send_buf s))) in
    Some (set_send s (drop n (st_send_buf s)) (st_send_offset s), (offset, take n (st_send_buf s))).

Definition Stream_on_ack (s : Stream) (acked_offset : Z) : Stream :=
  if st_send_unacked_offset s <? acked_offset then
    mkStream (st_id s) (st_priority s) (st_send_buf s) (st_send_offset s) acked_offset
      (st_send_max_data s) (st_recv_offset s) (st_recv_buf s) (st_recv_max_data s)
      (st_recv_buffered s) (st_fin_received s) (st_fin_sent s) (st_fin_flushed s)
  else s.

(** ** Receive side *)

Definition set_recv (s : Stream) (off : Z) (buf : OMap (list byte)) (buffered : Z) (fin : option Z)
  : Stream :=
  mkStream (st_id s) (st_priority s) (st_send_buf s) (st_send_offset s) (st_send_unacked_offset s)
    (st_send_max_data s) off buf (st_recv_max_data s) buffered fin (st_fin_sent s) (st_fin_flushed s).

(** The FIN offset is recorded before the segment is checked, so the state is
    returned on the error path too. *)
Definition Stream_receive (s : Stream) (offset : Z) (data : list byte) (is_fin : bool)
  : Stream * Result unit SeamError :=
  let n := Z.of_nat (length data) in
  let high_offset := wrapping_add 64 offset n in
  let s1 := if is_fin then set_recv s (st_recv_offset s) (st_recv_buf s) (st_recv_buffered s) (Some high_offset)
            else s in
  match data with
  | [] => (s1, Ok tt)
  | _ =>
      if high_offset <=? st_recv_offset s1 then (s1, Ok tt)
      else if st_recv_max_data s1 <? high_offset then
        (s1, Err (FlowControlBlocked (saturating_sub (st_recv_max_data s1) (st_recv_offset s1))
                    (saturating_sub high_offset (st_recv_offset s1))))
      else
        (set_recv s1 (st_recv_offset s1) (om_insert offset data (st_recv_buf s1))
           (saturating_add 64 (st_recv_buffered s1) n) (st_fin_received s1), Ok tt)
  end.

(** The [while read < max_bytes] loop: every round removes the first segment.
    [None] is the panic of [&data[skip..]] when [skip] exceeds the segment. *)
Fixpoint read_loop (buf : OMap (list byte)) (recv_offset : Z) (read max_bytes : nat) (out : list byte)
  : option (OMap (list byte) * Z * nat * list byte) :=
  if (read <? max_bytes)%nat then
    match buf with
    | [] => Some (buf, recv_offset, read, out)
    | (offset, data) :: rest =>
        if recv_offset <? offset then Some (buf, recv_offset, read, out)
        else
          let skip := Z.to_nat (recv_offset - offset) in
          if (length data <? skip)%nat then None
          else
            let slice := drop skip data in
            let n := Nat.min (length slice) (max_bytes - read) in
            read_loop rest (wrapping_add 64 recv_offset (Z.of_nat n)) (read + n) max_bytes
              (out ++ take n slice)
    end
  else Some (buf, recv_offset, read, out).

Definition Stream_read (s : Stream) (out : list byte) (max_bytes : nat)
  : option (Stream * list byte * nat) :=
  match read_loop (st_recv_buf s) (st_recv_offset s) 0 max_bytes out with
  | None => None
  | Some (buf, off, read, out') =>
      Some (set_recv s off buf (st_recv_buffered s) (st_fin_received s), out', read)
  end.

Definition Stream_is_recv_finished (s : Stream) : bool :=
  match st_fin_received s with
  | Some fin_off => fin_off <=? st_recv_offset s
  | None => false
  end.

Definition Stream_is_send_finished (s : Stream) : bool :=
  st_fin_sent s && (st_send_offset s <=? st_send_unacked_offset s).

(** ** Sending: the chunks handed to the packetiser spell the written bytes *)

Inductive SendOp : Type := SWrite (data : list byte) | SPoll (max_bytes : nat).

(** [acc] is what was accepted, [chunks] what was polled, in order. *)
Record SendTrace : Type := mkSendTrace {
  tr_stream : Stream;
  tr_acc : list byte;
  tr_chunks : list (Z * list byte)
}.

Definition send_step (t : SendTrace) (op : SendOp) : SendTrace :=
  match op with
  | SWrite data =>
      match Stream_write (tr_stream t) data with
      | Ok (s, _) => mkSendTrace s (tr_acc t ++ data) (tr_chunks t)
      | Err _ => t
      end
  | SPoll max =>
      match Stream_poll_send (tr_stream t) max with
      | Some (s, c) => mkSendTrace s (tr_acc t) (tr_chunks t ++ [c])
      | None => t
      end
  end.

Definition send_run (id : Z) (ops : list SendOp) : SendTrace :=
  fold_left send_step ops (mkSendTrace (Stream_new id) [] []).

(** The chunks are consecutive from [off]. *)
Fixpoint consecutive (off : Z) (chunks : list (Z * list byte)) : Prop :=
  match chunks with
  | [] => True
  | (o, d) :: rest => o = off /\ consecutive (off + Z.of_nat (length d)) rest
  end.

Definition chunk_bytes (chunks : list (Z * list byte)) : list byte := concat (map snd chunks).

Lemma consecutive_snoc chunks : forall off o d,
  consecutive off chunks -> o = off + Z.of_nat (length (chunk_bytes chunks)) ->
  consecutive off (chunks ++ [(o, d)]).
Proof.
  unfold chunk_bytes. induction chunks as [|[o' d'] chunks IH]; intros off o d Hc Ho; simpl in *.
  - split; [lia|done].
  - destruct Hc as [-> Hc]. split; [done|]. apply IH; [done|]. rewrite length_app in Ho. lia.
Qed.

Lemma chunk_bytes_snoc chunks o d : chunk_bytes (chunks ++ [(o, d)]) = chunk_bytes chunks ++ d.
Proof. unfold chunk_bytes. rewrite map_app, concat_app. simpl. by rewrite app_nil_r. Qed.

Record send_inv (t : SendTrace) : Prop := {
  si_bytes : chunk_bytes (tr_chunks t) ++ st_send_buf (tr_stream t) = tr_acc t;
  si_off : st_send_offset (tr_stream t) = Z.of_nat (length (tr_acc t));
  si_max : st_send_offset (tr_stream t) <= st_send_max_data (tr_stream t);
  si_lim : st_send_max_data (tr_stream t) = DEFAULT_WINDOW;
  si_cons : consecutive 0 (tr_chunks t)
}.

Lemma send_step_inv t op : send_inv t -> send_inv (send_step t op).
Proof.
  intros Ht. pose proof Ht as [Hb Ho Hm Hl Hc]. destruct op as [data|max]; simpl.
  - unfold Stream_write. destruct (st_fin_sent _); [done|].
    destruct (_ <? _) eqn:E; [done|]. cmp_facts.
    assert (wrapping_add 64 (st_send_offset (tr_stream t)) (Z.of_nat (length data)) =
            st_send_offset (tr_stream t) + Z.of_nat (length data)) as Hw.
    { apply wrap_small. unfold is_u, saturating_add, DEFAULT_WINDOW in *. lia. }
    unfold saturating_add, DEFAULT_WINDOW in *.
    constructor; simpl; rewrite ?Hw, ?length_app; try done; try lia. by rewrite app_assoc, Hb.
  - unfold Stream_poll_send, send_buf_is_empty.
    destruct (st_send_buf (tr_stream t)) as [|b buf] eqn:Eb; [done|]. rewrite <- Eb in *.
    constructor; simpl; try done.
    + rewrite chunk_bytes_snoc, <- app_assoc. by rewrite firstn_skipn.
    + apply consecutive_snoc; [done|]. rewrite Ho, <- Hb, length_app.
      rewrite wrap_small; [lia|]. unfold is_u. rewrite <- Hb, length_app in Ho.
      unfold DEFAULT_WINDOW in *. lia.
Qed.

(** Stream sending is a lossless FIFO: after any interleaving of writes
    and polls, the polled chunks carry consecutive stream offsets from zero,
    and their bytes followed by the still-buffered ones are exactly the
    accepted writes, which never exceed the send window. *)
Theorem stream_send_fifo (id : Z) (ops : list SendOp) :
  let t := send_run id ops in
  consecutive 0 (tr_chunks t) /\
  chunk_bytes (tr_chunks t) ++ st_send_buf (tr_stream t) = tr_acc t /\
  st_send_offset (tr_stream t) = Z.of_nat (length (tr_acc t)) /\
  st_send_offset (tr_stream t) <= st_send_max_data (tr_stream t).
Proof.
  assert (forall ops t, send_inv t -> send_inv (fold_left send_step ops t)) as H.
  { intros l. induction l as [|op l IH]; intros t Ht; simpl; [done|]. by apply IH, send_step_inv. }
  specialize (H ops (mkSendTrace (Stream_new id) [] [])).
  destruct H as [Hb Ho Hm _ Hc]; [|by unfold send_run].
  constructor; simpl; try done; unfold DEFAULT_WINDOW; lia.
Qed.

(** ** Receiving *)

(** A peer's segments of the byte string [B], and the reads between them. *)
Inductive RecvOp : Type := RDeliver (off len : nat) (fin : bool) | RRead (max_bytes : nat).

Definition recv_step (B : list byte) (st : Stream * list byte) (op : RecvOp) : option (Stream * list byte) :=
  let '(s, out) := st in
  match op with
  | RDeliver off len fin =>
      Some (fst (Stream_receive s (Z.of_nat off) (slice B off (off + len)) fin), out)
  | RRead max => match Stream_read s out max with
                 | Some (s', out', _) => Some (s', out')
                 | None => None
                 end
  end.

Fixpoint recv_run (B : list byte) (st : Stream * list byte) (ops : list RecvOp) : option (Stream * list byte) :=
  match ops with
  | [] => Some st
  | op :: rest => match recv_step B st op with
                  | Some st' => recv_run B st' rest
                  | None => None
                  end
  end.

Definition op_within (B : list byte) (op : RecvOp) : Prop :=
  match op with RDeliver off len _ => (off + len <= length B)%nat | RRead _ => True end.

(** Segments held in the buffer agree with [B]. *)
Definition segs_ok (B : list byte) (buf : OMap (list byte)) : Prop :=
  forall o d, In (o, d) buf ->
    exists p, o = Z.of_nat p /\ (p + length d <= length B)%nat /\ d = slice B p (p + length d).

Definition prefix_ok (B : list byte) (off : Z) (out : list byte) : Prop :=
  0 <= off <= Z.of_nat (length B) /\ out = take (Z.to_nat off) B.

Lemma slice_extend {A} (B : list A) i n :
  (i + n <= length B)%nat -> take i B ++ take n (drop i B) = take (i + n) B.
Proof. intros _. by rewrite take_take_drop. Qed.

Lemma read_loop_prefix B max : Z.of_nat (length B) < 2 ^ 64 -> forall buf off read out buf' off' read' out',
  segs_ok B buf -> prefix_ok B off out ->
  read_loop buf off read max out = Some (buf', off', read', out') ->
  segs_ok B buf' /\ prefix_ok B off' out'.
Proof.
  intros HB. induction buf as [|[o d] buf IH]; intros off read out buf' off' read' out' Hs Hp H;
    cbn [read_loop] in H.
  { split_if_in H; injection H as <- <- <- <-; done. }
  split_if_in H; [|injection H as <- <- <- <-; done].
  destruct (off <? o) eqn:Eo; [injection H as <- <- <- <-; done|].
  destruct (_ <? _)%nat eqn:El in H; [done|]. cmp_facts.
  destruct (Hs o d ltac:(by left)) as (p & -> & Hb & Hd). destruct Hp as [Hoff ->].
  set (skip := Z.to_nat (off - Z.of_nat p)) in *. set (n := Nat.min _ _) in H.
  assert (n <= length d - skip)%nat as Hn. { unfold n. rewrite length_drop. lia. }
  assert (wrapping_add 64 off (Z.of_nat n) = off + Z.of_nat n) as Hw.
  { apply wrap_small. unfold is_u. lia. }
  rewrite Hw in H. apply IH in H; [done|intros o' d' Hin; apply Hs; by right|].
  split; [lia|]. replace (Z.to_nat (off + Z.of_nat n)) with (Z.to_nat off + n)%nat by lia.
  rewrite <- take_take_drop. f_equal. rewrite Hd. unfold slice.
  replace (p + length d - p)%nat with (length d) by lia.
  rewrite skipn_firstn_comm, take_take, skipn_skipn.
  rewrite Nat.min_l by lia. f_equal. f_equal. unfold skip. lia.
Qed.

Lemma read_loop_wf max : forall buf off read out buf' off' read' out',
  om_wf buf -> read_loop buf off read max out = Some (buf', off', read', out') -> om_wf buf'.
Proof.
  induction buf as [|[o d] buf IH]; intros off rd o0 buf' off' rd' o' Hwf E; cbn [read_loop] in E.
  { split_if_in E; by injection E as <- _ _ _. }
  split_if_in E; [|by injection E as <- _ _ _].
  destruct (off <? o); [by injection E as <- _ _ _|]. destruct (_ <? _)%nat in E; [done|].
  apply IH in E; [done|]. by inversion_clear Hwf.
Qed.

Lemma om_wf_nil {V} : om_wf (@nil (Z * V)).
Proof. constructor. Qed.

Lemma slice_self {A} (B : list A) p n : (p + n <= length B)%nat ->
  length (slice B p (p + n)) = n.
Proof. intros H. rewrite length_slice by lia. lia. Qed.

Lemma receive_cases s o d fin :
  st_recv_offset (fst (Stream_receive s o d fin)) = st_recv_offset s /\
  st_recv_max_data (fst (Stream_receive s o d fin)) = st_recv_max_data s /\
  (st_recv_buf (fst (Stream_receive s o d fin)) = st_recv_buf s \/
   st_recv_buf (fst (Stream_receive s o d fin)) = om_insert o d (st_recv_buf s)).
Proof.
  unfold Stream_receive. destruct d as [|b d]; [by destruct fin; simpl; auto|].
  destruct fin; repeat split_if; simpl; auto.
Qed.

(** Stream reads never corrupt, reorder or invent data: whatever
    (overlapping, duplicated, reordered) segments of the sender's bytes arrive
    and whatever sizes are read between them, as long as no read panics the
    bytes handed to the application are exactly the first [recv_offset] bytes
    the sender wrote. *)
Theorem stream_read_is_prefix (id : Z) (B : list byte) (ops : list RecvOp) (s : Stream) (out : list byte) :
  Z.of_nat (length B) < 2 ^ 64 -> Forall (op_within B) ops ->
  recv_run B (Stream_new id, []) ops = Some (s, out) ->
  st_recv_offset s <= Z.of_nat (length B) /\ out = take (Z.to_nat (st_recv_offset s)) B.
Proof.
  intros HB Hops.
  assert (forall ops s0 out0, Forall (op_within B) ops ->
    om_wf (st_recv_buf s0) -> segs_ok B (st_recv_buf s0) -> prefix_ok B (st_recv_offset s0) out0 ->
    recv_run B (s0, out0) ops = Some (s, out) -> prefix_ok B (st_recv_offset s) out) as H.
  { clear Hops ops. induction ops as [|op ops IH]; intros s0 out0 Hops Hwf Hs Hp Hrun; cbn [recv_run] in Hrun.
    { by injection Hrun as <- <-. }
    inversion_clear Hops as [|? ? Hop Hops']. destruct op as [off len fin|max]; cbn [recv_step] in Hrun.
    - destruct (receive_cases s0 (Z.of_nat off) (slice B off (off + len)) fin) as (Ho & _ & Hbuf).
      apply IH in Hrun; [done|done| | |by rewrite Ho].
      + destruct Hbuf as [->| ->]; [done|by apply om_insert_wf].
      + destruct Hbuf as [->| ->]; [done|]. intros o d Hin.
        apply om_insert_In in Hin as [[-> ->]|[_ Hin]]; [|by apply Hs|done].
        simpl in Hop. exists off. rewrite slice_self by done. done.
    - unfold Stream_read in Hrun.
      destruct (read_loop _ _ _ _ _) as [[[[buf' off'] read'] out']|] eqn:E; [|done].
      pose proof (read_loop_wf max _ _ _ _ _ _ _ _ Hwf E) as Hwf'.
      apply (read_loop_prefix B max HB) in E as [Hs' Hp']; [|done|done].
      apply IH in Hrun; done. }
  intros Hrun. apply H in Hrun as [? ->]; [|done|apply om_wf_nil|by intros ? ? []|split; simpl; [lia|done]]. split; [lia|done].
Qed.

Lemma stream_read_is_prefix_witness :
  exists s, recv_run [x61; x62; x63; x64; x65] (Stream_new 1, [])
    [RDeliver 3 2 true; RDeliver 0 2 false; RRead 10; RDeliver 1 3 false; RRead 10] =
    Some (s, [x61; x62; x63; x64; x65]) /\
  [x61; x62; x63; x64; x65] = take (Z.to_nat (st_recv_offset s)) [x61; x62; x63; x64; x65].
Proof.
  eexists. split; [vm_compute; reflexivity|].
  eapply (stream_read_is_prefix 1 [x61; x62; x63; x64; x65]
    [RDeliver 3 2 true; RDeliver 0 2 false; RRead 10; RDeliver 1 3 false; RRead 10]).
  - simpl. lia.
  - repeat constructor; simpl; lia.
  - vm_compute. reflexivity.
Defined.

(** *** Segments that follow the sender's chunking *)

Section Chunks.
Context (cs : list (list byte)) (Hne : Forall (fun c => c <> []) cs).
Context (HB : Z.of_nat (length (concat cs)) <= DEFAULT_WINDOW).

Definition off_of (i : nat) : nat := length (concat (take i cs)).

Lemma off_of_S i c : cs !! i = Some c -> off_of (S i) = (off_of i + length c)%nat.
Proof.
  intros Hc. unfold off_of. rewrite (take_S_r cs i c Hc), concat_app, length_app. simpl.
  rewrite app_nil_r. done.
Qed.

Lemma chunk_nonempty i c : cs !! i = Some c -> (0 < length c)%nat.
Proof.
  intros Hc. rewrite Forall_forall in Hne. destruct c; [|simpl; lia].
  destruct (Hne []); [|done]. apply list_elem_of_In, list_elem_of_lookup. eauto.
Qed.

Lemma off_of_mono i j : (i <= j)%nat -> (off_of i <= off_of j)%nat.
Proof.
  induction 1 as [|j Hij IH]; [done|]. destruct (cs !! j) as [c|] eqn:E.
  - rewrite (off_of_S j c E). lia.
  - apply lookup_ge_None in E. unfold off_of in *. rewrite (take_ge cs (S j)) by lia.
    rewrite (take_ge cs j) in IH by lia. done.
Qed.

Lemma off_of_total i : (off_of i <= length (concat cs))%nat.
Proof.
  unfold off_of. rewrite <- (take_drop i cs) at 2. rewrite concat_app, length_app. lia.
Qed.

Lemma off_of_lt i j c : cs !! i = Some c -> (i < j)%nat -> (off_of i + length c <= off_of j)%nat.
Proof. intros Hc Hij. rewrite <- (off_of_S i c Hc). by apply off_of_mono. Qed.

Lemma off_of_inj i j c d : cs !! i = Some c -> cs !! j = Some d -> off_of i = off_of j -> i = j.
Proof.
  intros Hc Hd E. pose proof (chunk_nonempty i c Hc). pose proof (chunk_nonempty j d Hd).
  destruct (Nat.lt_trichotomy i j) as [H1|[H1|H1]]; [|done|].
  - pose proof (off_of_lt i j c Hc H1). lia.
  - pose proof (off_of_lt j i d Hd H1). lia.
Qed.

Inductive ChunkOp : Type := CDeliver (i : nat) (fin : bool) | CRead (max_bytes : nat).

Definition chunk_step (st : Stream * list byte) (op : ChunkOp) : option (Stream * list byte) :=
  let '(s, out) := st in
  match op with
  | CDeliver i fin =>
      Some (fst (Stream_receive s (Z.of_nat (off_of i)) (nth i cs []) fin), out)
  | CRead max => match Stream_read s out max with
                 | Some (s', out', _) => Some (s', out')
                 | None => None
                 end
  end.

Fixpoint chunk_run (st : Stream * list byte) (ops : list ChunkOp) : option (Stream * list byte) :=
  match ops with
  | [] => Some st
  | op :: rest => match chunk_step st op with
                  | Some st' => chunk_run st' rest
                  | None => None
                  end
  end.

(** Chunks in range, and reads with room for the whole stream. *)
Definition chunk_op_ok (op : ChunkOp) : Prop :=
  match op with
  | CDeliver i _ => (i < length cs)%nat
  | CRead max => (length (concat cs) <= max)%nat
  end.

Fixpoint chunk_delivered (ops : list ChunkOp) (i : nat) : Prop :=
  match ops with
  | [] => False
  | CDeliver j _ :: rest => i = j \/ chunk_delivered rest i
  | CRead _ :: rest => chunk_delivered rest i
  end.

(** After chunks [0, m) were read: the buffer holds the later ones of [seen]. *)
Record buf_inv (seen : nat -> Prop) (m : nat) (buf : OMap (list byte)) : Prop := {
  bi_wf : om_wf buf;
  bi_buf : forall o d, In (o, d) buf <->
    exists i, (m <= i)%nat /\ seen i /\ o = Z.of_nat (off_of i) /\ cs !! i = Some d;
  bi_seen : forall i, (i < m)%nat -> seen i;
  bi_m : (m <= length cs)%nat
}.

(** The first chunk still missing after a read. *)
Definition first_gap (seen : nat -> Prop) (m : nat) : Prop :=
  (forall i, (i < m)%nat -> seen i) /\ (m < length cs -> ~ seen m)%nat.

Lemma buf_inv_head seen m o d buf : buf_inv seen m ((o, d) :: buf) -> o <= Z.of_nat (off_of m) ->
  o = Z.of_nat (off_of m) /\ cs !! m = Some d /\ buf_inv seen (S m) buf.
Proof.
  intros [Hwf Hbuf Hseen Hm] Ho.
  destruct (proj1 (Hbuf o d) ltac:(by left)) as (i & Hi & Hsi & -> & Hd).
  assert (i = m) as ->.
  { destruct (decide (i = m)) as [|Hn]; [done|]. exfalso.
    assert (m < length cs)%nat as Hml by (apply lookup_lt_Some in Hd; lia).
    destruct (lookup_lt_is_Some_2 cs m Hml) as [c Hc].
    pose proof (chunk_nonempty m c Hc). pose proof (off_of_lt m i c Hc ltac:(lia)). lia. }
  split_and!; [done|done|]. pose proof (om_head_least _ _ _ Hwf) as Hleast.
  constructor.
  - by inversion_clear Hwf.
  - intros o' d'. split.
    + intros Hin. destruct (proj1 (Hbuf o' d') ltac:(by right)) as (j & Hj & Hsj & -> & Hd').
      exists j. split_and!; try done. destruct (decide (j = m)) as [->|]; [|lia].
      pose proof (Hleast _ _ Hin). lia.
    + intros (j & Hj & Hsj & -> & Hd').
      destruct (proj2 (Hbuf (Z.of_nat (off_of j)) d') ltac:(exists j; split_and!; [lia|done..])) as [E|Hin]; [|done].
      injection E as E _. apply Nat2Z.inj in E. pose proof (off_of_inj m j d d' Hd Hd' E). lia.
  - intros j Hj. destruct (decide (j = m)) as [->|]; [done|]. apply Hseen. lia.
  - apply lookup_lt_Some in Hd. lia.
Qed.

Lemma read_loop_chunks seen max m0 : (length (concat cs) <= max)%nat -> forall buf m out,
  buf_inv seen m buf -> (m0 <= m)%nat -> out = concat (take m cs) ->
  exists m' buf' read', (m <= m')%nat /\
    read_loop buf (Z.of_nat (off_of m)) (off_of m - off_of m0) max out =
      Some (buf', Z.of_nat (off_of m'), read', concat (take m' cs)) /\
    buf_inv seen m' buf' /\ first_gap seen m'.
Proof.
  intros Hmax. induction buf as [|[o d] buf IH]; intros m out Hinv Hm0 ->.
  - exists m, [], (off_of m - off_of m0)%nat. cbn [read_loop].
    split_and!; [done|by destruct (_ <? _)%nat|done|]. split; [apply Hinv|].
    intros Hm Hs. destruct (lookup_lt_is_Some_2 cs m Hm) as [c Hc].
    apply (bi_buf _ _ _ Hinv (Z.of_nat (off_of m)) c). exists m. split_and!; done.
  - cbn [read_loop]. pose proof (off_of_total m) as Ht.
    destruct (Z.of_nat (off_of m) <? o) eqn:Eo; cmp_facts.
    + (* the next chunk is missing *)
      exists m, ((o, d) :: buf), (off_of m - off_of m0)%nat.
      split_and!; [done|by destruct (_ <? _)%nat|done|]. split; [apply Hinv|].
      intros Hm Hs. destruct (lookup_lt_is_Some_2 cs m Hm) as [c Hc].
      assert (In (Z.of_nat (off_of m), c) ((o, d) :: buf)) as [E|Hin].
      { apply (bi_buf _ _ _ Hinv). exists m. split_and!; done. }
      * injection E as -> _. lia.
      * pose proof (om_head_least _ _ _ (bi_wf _ _ _ Hinv) _ _ Hin). lia.
    + destruct (buf_inv_head seen m o d buf Hinv Eo) as (-> & Hd & Hinv').
      pose proof (off_of_S m d Hd) as HS. pose proof (off_of_total (S m)) as Ht'.
      pose proof (chunk_nonempty m d Hd) as Hpos. pose proof (off_of_mono m0 m Hm0) as Hmono.
      destruct (_ <? max)%nat eqn:Er; cmp_facts; [|lia].
      rewrite Z.sub_diag. change (Z.to_nat 0) with 0%nat. cbn [Nat.ltb Nat.leb]. rewrite drop_0.
      destruct (length d <? 0)%nat eqn:El; cmp_facts; [lia|].
      rewrite Nat.min_l by lia. rewrite firstn_all.
      unfold wrapping_add. rewrite wrap_small by (unfold is_u, DEFAULT_WINDOW in *; lia).
      replace (Z.of_nat (off_of m) + Z.of_nat (length d)) with (Z.of_nat (off_of (S m))) by lia.
      replace (off_of m - off_of m0 + length d)%nat with (off_of (S m) - off_of m0)%nat by lia.
      destruct (IH (S m) (concat (take m cs) ++ d) Hinv') as (m' & buf' & rd' & Hle & He & Hi & Hg).
      { lia. }
      { rewrite (take_S_r cs m d Hd), concat_app. simpl. by rewrite app_nil_r. }
      exists m', buf', rd'. split_and!; [lia|done|done|done].
Qed.

Record chunk_inv (seen : nat -> Prop) (m : nat) (st : Stream * list byte) : Prop := {
  ci_buf : buf_inv seen m (st_recv_buf (fst st));
  ci_off : st_recv_offset (fst st) = Z.of_nat (off_of m);
  ci_max : st_recv_max_data (fst st) = DEFAULT_WINDOW;
  ci_out : snd st = concat (take m cs)
}.

Lemma chunk_deliver seen m s out i fin : chunk_inv seen m (s, out) -> (i < length cs)%nat ->
  chunk_inv (fun j => seen j \/ j = i) m
    (fst (Stream_receive s (Z.of_nat (off_of i)) (nth i cs []) fin), out).
Proof.
  intros [[Hwf Hbuf Hseen Hm] Hoff Hmax Hout] Hi. simpl in *.
  destruct (lookup_lt_is_Some_2 cs i Hi) as [c Hc].
  assert (nth i cs [] = c) as -> by (by rewrite nth_lookup, Hc).
  pose proof (chunk_nonempty i c Hc) as Hpos. pose proof (off_of_S i c Hc) as HS.
  pose proof (off_of_total (S i)) as Ht.
  destruct (receive_cases s (Z.of_nat (off_of i)) c fin) as (Ho & Hmx & _).
  assert (st_recv_buf (fst (Stream_receive s (Z.of_nat (off_of i)) c fin)) =
    if decide (i < m)%nat then st_recv_buf s else om_insert (Z.of_nat (off_of i)) c (st_recv_buf s)) as Hb.
  { unfold Stream_receive. destruct c as [|b c]; [simpl in Hpos; lia|].
    unfold wrapping_add. rewrite wrap_small by (unfold is_u, DEFAULT_WINDOW in *; lia).
    destruct (decide (i < m)%nat) as [Him|Him].
    - pose proof (off_of_lt i m _ Hc Him). destruct fin; simpl st_recv_offset; split_if; cmp_facts; try done; lia.
    - pose proof (off_of_mono m i ltac:(lia)).
      destruct fin; simpl st_recv_offset; simpl st_recv_max_data; rewrite ?Hoff, ?Hmax;
        (split_if; cmp_facts; [lia|]); (split_if; cmp_facts; [lia|done]). }
  constructor; simpl; [|by rewrite Ho|by rewrite Hmx|done].
  constructor; [| | |done].
  - rewrite Hb. destruct (decide _); [done|by apply om_insert_wf].
  - intros o d. rewrite Hb. destruct (decide (i < m)%nat) as [Him|Him].
    + rewrite Hbuf. split.
      * intros (j & ? & ? & ? & ?). exists j. split_and!; auto.
      * intros (j & ? & [?| ->] & ? & ?); [exists j; split_and!; auto|lia].
    + rewrite om_insert_In by done. rewrite Hbuf. split.
      * intros [[-> ->]|[_ (j & ? & ? & ? & ?)]]; [exists i; split_and!; auto; lia|exists j; split_and!; auto].
      * intros (j & Hj & Hsj & -> & Hd). destruct (decide (j = i)) as [->|Hji].
        { left. split; [done|congruence]. }
        right. split; [|exists j; destruct Hsj; [split_and!; auto|done]].
        intros E. apply Nat2Z.inj in E. by apply (off_of_inj j i d c Hd Hc) in E.
  - intros j Hj. left. auto.
Qed.

Lemma chunk_inv_ext seen1 seen2 m st : (forall i, seen1 i <-> seen2 i) ->
  chunk_inv seen1 m st -> chunk_inv seen2 m st.
Proof.
  intros He [[Hwf Hbuf Hseen Hm] Hoff Hmax Hout]. constructor; [|done|done|done].
  constructor; [done| | |done].
  - intros o d. rewrite Hbuf. split; intros (j & H1 & H2 & H3 & H4); exists j; split_and!; try done; by apply He.
  - intros i Hi. by apply He, Hseen.
Qed.

Lemma chunk_run_inv ops : forall seen m st, chunk_inv seen m st -> Forall chunk_op_ok ops ->
  exists m' st', chunk_run st ops = Some st' /\ chunk_inv (fun i => seen i \/ chunk_delivered ops i) m' st' /\
    (forall ops' max, ops = ops' ++ [CRead max] -> first_gap (fun i => seen i \/ chunk_delivered ops i) m').
Proof.
  induction ops as [|op ops IH]; intros seen m [s out] Hinv Hops; cbn [chunk_run].
  { exists m, (s, out). split_and!; [done| |intros [|? ?] ? ?; done].
    eapply chunk_inv_ext; [|exact Hinv]. simpl. tauto. }
  inversion_clear Hops as [|? ? Hop Hops']. destruct op as [i fin|max]; simpl chunk_step.
  - destruct (IH _ _ _ (chunk_deliver _ _ _ _ i fin Hinv Hop) Hops') as (m' & st' & He & Hi & Hg).
    exists m', st'. split_and!; [done| |].
    + eapply chunk_inv_ext; [|exact Hi]. simpl. intros j. tauto.
    + intros [|op' ops'] mx E; [done|]. injection E as _ E. destruct (Hg ops' mx E) as [G1 G2].
      split; [intros j Hj; specialize (G1 j Hj); simpl; tauto|]. intros Hm Hs. apply (G2 Hm). simpl in Hs. tauto.
  - destruct Hinv as [Hbuf Hoff Hmx Hout]. simpl in *. unfold Stream_read.
    destruct (read_loop_chunks seen max m Hop (st_recv_buf s) m out Hbuf ltac:(lia) Hout)
      as (m1 & buf1 & rd1 & Hle & Er & Hb1 & Hg1).
    rewrite Nat.sub_diag in Er. rewrite Hoff, Er.
    destruct (IH seen m1 (set_recv s (Z.of_nat (off_of m1)) buf1 (st_recv_buffered s) (st_fin_received s),
                concat (take m1 cs))) as (m' & st' & He & Hi & Hg); [by constructor|done|].
    exists m', st'. split_and!; [done|done|].
    intros [|op' ops'] mx E.
    + injection E as _ ->. simpl in He. injection He as <-.
      assert (m' = m1) as ->; [|destruct Hg1 as [G1 G2]; split;
        [intros j Hj; left; by apply G1|intros Hmm Hs; apply (G2 Hmm); simpl in Hs; tauto]].
      pose proof (ci_out _ _ _ Hi) as E. pose proof (bi_m _ _ _ (ci_buf _ _ _ Hi)) as Hm'. simpl in E.
      pose proof (bi_m _ _ _ Hb1) as Hm1. pose proof (f_equal length E) as El. fold (off_of m1) in El. fold (off_of m') in El.
      destruct (Nat.lt_trichotomy m1 m') as [H1|[H1|H1]]; [|done|].
      * destruct (lookup_lt_is_Some_2 cs m1 ltac:(lia)) as [c Hc].
        pose proof (chunk_nonempty m1 c Hc). pose proof (off_of_lt m1 m' c Hc H1). lia.
      * destruct (lookup_lt_is_Some_2 cs m' ltac:(lia)) as [c Hc].
        pose proof (chunk_nonempty m' c Hc). pose proof (off_of_lt m' m1 c Hc H1). lia.
    + injection E as _ E. exact (Hg ops' mx E).
Qed.
End Chunks.

(** C7: reassembly is complete for reads that take everything: let a stream of at
    most 16 MiB (the receive window) be cut into non-empty chunks that arrive in any order, with
    repetitions and with reads in between, each read with a limit of at least
    the whole stream's length. Then no read panics, and a final such read leaves
    the application with exactly the chunks up to the first one that never
    arrived, and with the whole stream if all of them did. A read with a smaller
    limit can lose bytes ([stream_partial_read_drops_tail]). *)
Theorem stream_reassembles (id : Z) (cs : list (list byte)) (ops : list ChunkOp) (max : nat) :
  Forall (fun c => c <> []) cs -> Z.of_nat (length (concat cs)) <= DEFAULT_WINDOW ->
  Forall (chunk_op_ok cs) ops -> (length (concat cs) <= max)%nat ->
  exists s out m,
    chunk_run cs (Stream_new id, []) (ops ++ [CRead max]) = Some (s, out) /\
    out = concat (take m cs) /\ st_recv_offset s = Z.of_nat (length out) /\
    (forall i, (i < m)%nat -> chunk_delivered ops i) /\ (m < length cs -> ~ chunk_delivered ops m)%nat /\
    ((forall i, (i < length cs)%nat -> chunk_delivered ops i) -> out = concat cs).
Proof.
  intros Hne HB Hops Hmax.
  assert (forall i, False \/ chunk_delivered (ops ++ [CRead max]) i <-> chunk_delivered ops i) as Hdel.
  { intros i. induction ops as [|[j f|mx] ops IH]; simpl; [tauto| |];
      (inversion_clear Hops as [|? ? _ Hops']; specialize (IH Hops'); tauto). }
  destruct (chunk_run_inv cs Hne HB (ops ++ [CRead max]) (fun _ => False) 0 (Stream_new id, []))
    as (m & [s out] & He & Hi & Hg).
  - constructor; simpl; try done. constructor; [apply om_wf_nil| |lia|lia].
    intros o d. split; [done|]. intros (i & _ & [] & _).
  - apply Forall_app. split; [done|]. repeat constructor. done.
  - destruct (Hg ops max eq_refl) as [Hg1 Hg2]. destruct Hi as [Hbuf Hoff _ Hout]. simpl in Hoff, Hout.
    exists s, out, m. split_and!; [done|done|by rewrite Hout| | |].
    + intros i Hlt. by apply Hdel, Hg1.
    + intros Hlt Hd. apply (Hg2 Hlt). by apply Hdel.
    + intros Hall. pose proof (bi_m _ _ _ _ Hbuf) as Hm.
      destruct (decide (m < length cs)%nat) as [Hlt|]; [|by rewrite Hout, take_ge by lia].
      destruct (Hg2 Hlt). apply Hdel. by apply Hall.
Qed.

Lemma stream_reassembles_witness :
  exists s out m,
    chunk_run [[x61; x62]; [x63]; [x64; x65]] (Stream_new 3, [])
      ([CDeliver 2 true; CRead 9; CDeliver 0 false; CRead 9; CDeliver 1 false; CDeliver 0 false] ++ [CRead 9]) =
      Some (s, out) /\
    out = concat (take m [[x61; x62]; [x63]; [x64; x65]]).
Proof.
  destruct (stream_reassembles 3 [[x61; x62]; [x63]; [x64; x65]]
    [CDeliver 2 true; CRead 9; CDeliver 0 false; CRead 9; CDeliver 1 false; CDeliver 0 false] 9)
    as (s & out & m & H1 & H2 & _).
  - repeat constructor; done.
  - unfold DEFAULT_WINDOW. simpl. lia.
  - repeat constructor; simpl; lia.
  - simpl. lia.
  - exists s, out, m. split; [exact H1|exact H2].
Defined.

(** A bounded read of a longer segment loses its tail: after receiving
    five bytes and reading two of them, the remaining three are gone from the
    buffer and later reads return nothing. *)
Theorem stream_partial_read_drops_tail :
  exists s1 s2,
    Stream_read (fst (Stream_receive (Stream_new 1) 0 [x61; x62; x63; x64; x65] false)) [] 2 =
      Some (s1, [x61; x62], 2%nat) /\
    st_recv_buf s1 = [] /\ st_recv_offset s1 = 2 /\
    Stream_read s1 [x61; x62] 10 = Some (s2, [x61; x62], 0%nat).
Proof.
  set (s1 := mkStream 1 4 [] 0 0 DEFAULT_WINDOW 2 [] DEFAULT_WINDOW 5 None false false).
  exists s1, s1. split_and!; vm_compute; reflexivity.
Qed.

(** Overlapping retransmissions can panic the reader: ten bytes at offset
    0 followed by three of them again at offset 2 make the next read slice past
    the second segment. *)
Theorem stream_overlap_read_panics :
  let B := [x30; x31; x32; x33; x34; x35; x36; x37; x38; x39] in
  recv_run B (Stream_new 1, []) [RDeliver 0 10 false; RDeliver 2 3 false; RRead 100] = None.
Proof. vm_compute. reflexivity. Qed.
