(* ===== verification/Flow.v ===== *)
(** * Credit-based flow control

    src/src/session/flow.rs: the window a peer grants and the bytes reserved
    against it. *)

From Stdlib Require Import ZArith Lia Bool List.
From stdpp Require Import base list numbers option.
From S2P Require Import Prelude Packet.

Open Scope Z_scope.

Record FlowWindow : Type := mkFlowWindow { fw_limit : Z; fw_consumed : Z }.

Definition FlowWindow_new (initial_limit : Z) : FlowWindow := mkFlowWindow initial_limit 0.

Definition FlowWindow_reserve (w : FlowWindow) (n : Z) : Result FlowWindow SeamError :=
  if fw_limit w <? wrapping_add 64 (fw_consumed w) n then
    Err (FlowControlBlocked (saturating_sub (fw_limit w) (fw_consumed w)) n)
  else Ok (mkFlowWindow (fw_limit w) (wrapping_add 64 (fw_consumed w) n)).

Definition FlowWindow_update_limit (w : FlowWindow) (new_limit : Z) : FlowWindow :=
  if fw_limit w <? new_limit then mkFlowWindow new_limit (fw_consumed w) else w.

Definition FlowWindow_available (w : FlowWindow) : Z := saturating_sub (fw_limit w) (fw_consumed w).

(** The operations a window sees. *)
Inductive FlowOp : Type := FReserve (n : Z) | FUpdate (limit : Z).

(** [granted] sums the reservations that succeeded. *)
Definition flow_step (st : FlowWindow * Z) (op : FlowOp) : FlowWindow * Z :=
  let '(w, granted) := st in
  match op with
  | FReserve n => match FlowWindow_reserve w n with
                  | Ok w' => (w', granted + n)
                  | Err _ => st
                  end
  | FUpdate l => (FlowWindow_update_limit w l, granted)
  end.

Definition flow_run (init : Z) (ops : list FlowOp) : FlowWindow * Z :=
  fold_left flow_step ops (FlowWindow_new init, 0).

(** Requests a caller can make: lengths of buffers in memory. *)
Definition flow_op_ok (op : FlowOp) : Prop :=
  match op with FReserve n => 0 <= n < 2 ^ 63 | FUpdate l => is_u64 l end.

(** The largest limit ever granted. *)
Definition limits_max (init : Z) (ops : list FlowOp) : Z :=
  fold_left (fun m op => match op with FUpdate l => Z.max m l | FReserve _ => m end) ops init.

Record flow_wf (w : FlowWindow) : Prop := {
  fwf_limit : is_u64 (fw_limit w);
  fwf_consumed : 0 <= fw_consumed w;
  fwf_le : fw_consumed w <= fw_limit w
}.

Lemma reserve_spec w n : flow_wf w -> fw_limit w < 2 ^ 63 \/ n = 0 \/ fw_consumed w + n < 2 ^ 64 ->
  0 <= n < 2 ^ 63 ->
  FlowWindow_reserve w n =
    if n <=? FlowWindow_available w then Ok (mkFlowWindow (fw_limit w) (fw_consumed w + n))
    else Err (FlowControlBlocked (FlowWindow_available w) n).
Proof.
  intros [Hl Hc Hle] Hcase Hn. unfold FlowWindow_reserve, FlowWindow_available.
  rewrite saturating_sub_le by done. unfold is_u in Hl.
  unfold wrapping_add. rewrite wrap_small by (unfold is_u; lia).
  destruct (fw_limit w <? _) eqn:E1, (n <=? _) eqn:E2; cmp_facts; try done; lia.
Qed.

(** Flow control is exact: over any sequence of reservations and limit
    updates with limits below 2^63, the bytes granted are the bytes consumed,
    they never exceed the largest limit the peer ever granted, the limit never
    shrinks, and a reservation succeeds exactly when it fits what is available. *)
Theorem flow_control_exact (init : Z) (ops : list FlowOp) :
  0 <= init < 2 ^ 63 -> Forall flow_op_ok ops -> limits_max init ops < 2 ^ 63 ->
  let '(w, granted) := flow_run init ops in
  fw_consumed w = granted /\ granted <= fw_limit w /\ fw_limit w = limits_max init ops /\
  (forall n, 0 <= n < 2 ^ 63 ->
     (exists w', FlowWindow_reserve w n = Ok w') <-> n <= FlowWindow_available w) /\
  FlowWindow_available w = fw_limit w - granted.
Proof.
  intros Hi Hops Hmax. destruct (flow_run init ops) as [w granted] eqn:Er.
  assert (flow_wf w /\ fw_consumed w = granted /\ fw_limit w = limits_max init ops) as (Hwf & Hc & Hl).
  { revert w granted Er. induction ops as [|op ops IH] using rev_ind; intros w granted Er.
    { injection Er as <- <-. split_and!; try done. constructor; simpl; unfold is_u; lia. }
    apply Forall_app in Hops as [Hops Hop]. inversion_clear Hop as [|? ? Hop' _].
    unfold flow_run, limits_max in *. rewrite fold_left_app in *. cbn [fold_left] in *.
    destruct (fold_left flow_step ops (FlowWindow_new init, 0)) as [w0 g0].
    set (m := fold_left _ ops init) in *.
    assert (m < 2 ^ 63) as Hm by (destruct op; lia).
    destruct (IH Hops Hm w0 g0 eq_refl) as (Hwf & Hc & Hl). destruct op as [n|l]; simpl in Er, Hop'.
    - rewrite reserve_spec in Er by (done || lia). destruct (n <=? _) eqn:E; injection Er as <- <-; cmp_facts.
      + destruct Hwf as [H1 H2 H3]. unfold FlowWindow_available in E. rewrite saturating_sub_le in E by done.
        split_and!; simpl; try lia. constructor; simpl; [done|lia|lia].
      + split_and!; done.
    - injection Er as <- <-. unfold FlowWindow_update_limit. destruct Hwf as [H1 H2 H3]. unfold is_u in *.
      destruct (_ <? l) eqn:E; cmp_facts; (split_and!; simpl; [constructor; unfold is_u; simpl; lia|lia|lia]). }
  pose proof Hwf as [H1 H2 H3]. split_and!; [done|lia|done| |].
  - intros n Hn. rewrite reserve_spec by (done || lia).
    destruct (n <=? _) eqn:E; cmp_facts; split; intros H; try done; [eauto|by destruct H|lia].
  - unfold FlowWindow_available. rewrite saturating_sub_le by done. lia.
Qed.

Lemma flow_control_exact_witness :
  flow_run 100 [FReserve 40; FReserve 70; FUpdate 150; FReserve 70] = (mkFlowWindow 150 110, 110) /\
  110 <= limits_max 100 [FReserve 40; FReserve 70; FUpdate 150; FReserve 70].
Proof.
  split; [reflexivity|].
  pose proof (flow_control_exact 100 [FReserve 40; FReserve 70; FUpdate 150; FReserve 70]) as H.
  assert (0 <= 100 < 2 ^ 63) as H1 by lia.
  assert (Forall flow_op_ok [FReserve 40; FReserve 70; FUpdate 150; FReserve 70]) as H2.
  { repeat constructor; simpl; unfold is_u; lia. }
  assert (limits_max 100 [FReserve 40; FReserve 70; FUpdate 150; FReserve 70] < 2 ^ 63) as H3.
  { vm_compute. reflexivity. }
  specialize (H H1 H2 H3). simpl in H. destruct H as (_ & H & HL & _). simpl in *. lia.
Defined.

(** At the top of the 64-bit range the check wraps: a window whose limit
    is 2^64 - 1 and that has consumed 10 bytes grants a reservation of
    2^64 - 5 bytes, and its consumption goes down to 5. *)
Theorem flow_reserve_wraps :
  FlowWindow_reserve (mkFlowWindow U64_MAX 10) (U64_MAX - 4) = Ok (mkFlowWindow U64_MAX 5).
Proof. vm_compute. reflexivity. Qed.
