(* ===== verification/Datagram.v ===== *)
(** * Unreliable datagrams

    src/src/session/datagram.rs: the bounded send and receive queues that drop
    their oldest entry when full. *)

From Stdlib Require Import ZArith Lia Bool List.
From Stdlib Require Import Strings.Byte.
From stdpp Require Import base list numbers option.
From S2P Require Import Prelude.

Open Scope Z_scope.

Definition MAX_DATAGRAM_SIZE : nat := 1200.
Definition DEFAULT_QUEUE_DEPTH : nat := 64.

Record DatagramQueue : Type := mkDatagramQueue {
  dq_send_queue : list (list byte);
  dq_recv_queue : list (list byte);
  dq_max_size : nat;
  dq_max_queue_depth : nat;
  dq_dropped : Z
}.

Definition DatagramQueue_new : DatagramQueue :=
  mkDatagramQueue [] [] MAX_DATAGRAM_SIZE DEFAULT_QUEUE_DEPTH 0.

Definition DatagramQueue_with_limits (max_size max_queue_depth : nat) : DatagramQueue :=
  mkDatagramQueue [] [] max_size max_queue_depth 0.

(** [while q.len() >= depth { q.pop_front(); dropped += 1 }]. With a zero depth
    the condition holds for the empty queue too and the loop never ends:
    [None]. *)
Fixpoint drop_oldest (q : list (list byte)) (depth : nat) (dropped : Z)
  : option (list (list byte) * Z) :=
  if (length q <? depth)%nat then Some (q, dropped)
  else match q with
       | [] => None
       | _ :: q' => drop_oldest q' depth (wrapping_add 64 dropped 1)
       end.

Definition DatagramQueue_send (d : DatagramQueue) (data : list byte)
  : option (DatagramQueue * Result unit nat) :=
  if (dq_max_size d <? length data)%nat then Some (d, Err (length data))
  else match drop_oldest (dq_send_queue d) (dq_max_queue_depth d) (dq_dropped d) with
       | None => None
       | Some (q, dropped) =>
           Some (mkDatagramQueue (q ++ [data]) (dq_recv_queue d) (dq_max_size d)
                   (dq_max_queue_depth d) dropped, Ok tt)
       end.

Definition DatagramQueue_poll_send (d : DatagramQueue) : DatagramQueue * option (list byte) :=
  match dq_send_queue d with
  | [] => (d, None)
  | x :: q => (mkDatagramQueue q (dq_recv_queue d) (dq_max_size d) (dq_max_queue_depth d) (dq_dropped d),
               Some x)
  end.

Definition DatagramQueue_receive (d : DatagramQueue) (data : list byte) : option DatagramQueue :=
  if (dq_max_size d <? length data)%nat then Some d
  else match drop_oldest (dq_recv_queue d) (dq_max_queue_depth d) (dq_dropped d) with
       | None => None
       | Some (q, dropped) =>
           Some (mkDatagramQueue (dq_send_queue d) (q ++ [data]) (dq_max_size d)
                   (dq_max_queue_depth d) dropped)
       end.

Definition DatagramQueue_recv (d : DatagramQueue) : DatagramQueue * option (list byte) :=
  match dq_recv_queue d with
  | [] => (d, None)
  | x :: q => (mkDatagramQueue (dq_send_queue d) q (dq_max_size d) (dq_max_queue_depth d) (dq_dropped d),
               Some x)
  end.

Definition DatagramQueue_send_pending (d : DatagramQueue) : nat := length (dq_send_queue d).
Definition DatagramQueue_recv_pending (d : DatagramQueue) : nat := length (dq_recv_queue d).

(** ** Bounded, suffix-keeping queues *)

Lemma drop_oldest_exact depth q dropped : (0 < depth)%nat -> is_u64 dropped ->
  drop_oldest q depth dropped =
    Some (drop (length q + 1 - depth) q, wrap 64 (dropped + Z.of_nat (length q + 1 - depth))).
Proof.
  intros Hd. revert dropped. induction q as [|x q IH]; intros dropped Hu; cbn [drop_oldest length].
  - destruct (_ <? _)%nat eqn:E; cmp_facts; [|simpl in *; lia].
    replace (0 + 1 - depth)%nat with 0%nat by lia. simpl. by rewrite Z.add_0_r, wrap_small.
  - destruct (_ <? _)%nat eqn:E; cmp_facts.
    + replace (S (length q) + 1 - depth)%nat with 0%nat by lia. simpl. by rewrite Z.add_0_r, wrap_small.
    + rewrite IH by (apply wrap_is_u; lia).
      replace (S (length q) + 1 - depth)%nat with (S (length q + 1 - depth)) by lia. simpl.
      do 2 f_equal. unfold wrapping_add, wrap. rewrite Zplus_mod_idemp_l. f_equal. lia.
Qed.

(** A bounded queue keeping the newest [depth] entries. *)
Definition push_bounded (depth : nat) (q : list (list byte)) (x : list byte) : list (list byte) :=
  let q' := q ++ [x] in drop (length q' - depth) q'.

(** The receive queue is a bounded FIFO that keeps the newest datagrams:
    for a positive depth every receive terminates; an oversized datagram
    changes nothing; any other becomes the newest entry of the queue cut to its
    newest [depth] entries, with the drop counter advanced by the number cut;
    reading removes the oldest; and the queue never exceeds its depth. *)
Theorem datagram_recv_bounded_fifo (d : DatagramQueue) (data : list byte) :
  (0 < dq_max_queue_depth d)%nat -> is_u64 (dq_dropped d) ->
  (length (dq_recv_queue d) <= dq_max_queue_depth d)%nat ->
  exists d',
    DatagramQueue_receive d data = Some d' /\
    (length (dq_recv_queue d') <= dq_max_queue_depth d)%nat /\
    dq_send_queue d' = dq_send_queue d /\
    (if (dq_max_size d <? length data)%nat then d' = d
     else dq_recv_queue d' = push_bounded (dq_max_queue_depth d) (dq_recv_queue d) data /\
          dq_dropped d' = wrap 64 (dq_dropped d + Z.of_nat (length (dq_recv_queue d) + 1 - dq_max_queue_depth d)) /\
          snd (DatagramQueue_recv d') =
            head (push_bounded (dq_max_queue_depth d) (dq_recv_queue d) data)).
Proof.
  intros Hd Hu Hq. unfold DatagramQueue_receive. destruct (_ <? _)%nat eqn:E.
  - exists d. split_and!; done.
  - rewrite drop_oldest_exact by done. eexists. split; [done|]. simpl.
    assert (drop (length (dq_recv_queue d) + 1 - dq_max_queue_depth d) (dq_recv_queue d) ++ [data] =
            push_bounded (dq_max_queue_depth d) (dq_recv_queue d) data) as Hpb.
    { unfold push_bounded. rewrite length_app. cbn [length]. symmetry. apply drop_app_le. lia. }
    rewrite Hpb. split_and!; try done.
    + unfold push_bounded. rewrite length_drop, length_app. simpl. lia.
    + unfold DatagramQueue_recv. simpl. by destruct (push_bounded _ _ _).
Qed.

Lemma datagram_recv_bounded_fifo_witness :
  exists d',
    DatagramQueue_receive (mkDatagramQueue [] [[x01]; [x02]] 4 2 7) [x03] = Some d' /\
    dq_recv_queue d' = [[x02]; [x03]] /\ dq_dropped d' = 8.
Proof.
  destruct (datagram_recv_bounded_fifo (mkDatagramQueue [] [[x01]; [x02]] 4 2 7) [x03])
    as (d' & He & _ & _ & Hq & Hd & _).
  - simpl. lia.
  - unfold is_u. simpl. lia.
  - simpl. lia.
  - exists d'. split; [exact He|]. split; [exact Hq|exact Hd].
Defined.

(** A queue depth of zero makes the eviction loop spin forever: its
    condition [len >= 0] still holds on the empty queue, so sending any
    datagram that is not oversized never returns. *)
Theorem datagram_zero_depth_diverges (max_size : nat) (data : list byte) :
  (length data <= max_size)%nat ->
  DatagramQueue_send (DatagramQueue_with_limits max_size 0) data = None.
Proof.
  intros H. unfold DatagramQueue_send. simpl. destruct (_ <? _)%nat eqn:E; [|done]. cmp_facts. lia.
Qed.

Lemma datagram_zero_depth_diverges_witness :
  DatagramQueue_send (DatagramQueue_with_limits 10 0) [x01] = None.
Proof. apply (datagram_zero_depth_diverges 10 [x01]). simpl. lia. Defined.
