(* ===== verification/Arq.v ===== *)
(** * Selective retransmission

    src/src/session/arq.rs: in-flight packets, RTT estimation with Karn's rule,
    and the retransmission timeout. Instants and durations are nanoseconds. *)

From Stdlib Require Import ZArith Lia Bool List Sorting.Sorted.
From Stdlib Require Import Strings.Byte.
From stdpp Require Import base list numbers option.
From S2P Require Import Prelude Ordered.

Open Scope Z_scope.

Record InFlight : Type := mkInFlight { if_data : list byte; if_sent_at : Z; if_retransmits : Z }.

Record ArqTracker : Type := mkArqTracker {
  aq_in_flight : OMap InFlight;
  aq_rto : Z;
  aq_srtt_us : Z;
  aq_rttvar_us : Z
}.

Definition ArqTracker_new : ArqTracker := mkArqTracker [] (from_millis 300) 0 0.

Definition ArqTracker_on_sent (a : ArqTracker) (now pkt_num : Z) (data : list byte) : ArqTracker :=
  mkArqTracker (om_insert pkt_num (mkInFlight data now 0) (aq_in_flight a))
    (aq_rto a) (aq_srtt_us a) (aq_rttvar_us a).

(** The RFC 6298 update of (srtt, rttvar), at the code's 64-bit width. *)
Definition rtt_ewma (srtt_us rttvar_us rtt_us : Z) : Z * Z :=
  if srtt_us =? 0 then (rtt_us, rtt_us / 2)
  else
    let diff := Z.abs (srtt_us - rtt_us) in
    let rttvar' := wrapping_add 64 (wrapping_mul 64 3 rttvar_us / 4) (diff / 4) in
    let srtt' := wrapping_add 64 (wrapping_mul 64 7 srtt_us / 8) (rtt_us / 8) in
    (srtt', rttvar').

Definition ArqTracker_update_rtt (a : ArqTracker) (rtt : Z) : ArqTracker :=
  let '(srtt', rttvar') := rtt_ewma (aq_srtt_us a) (aq_rttvar_us a) (as_micros_u64 rtt) in
  let rto_us := wrapping_add 64 srtt' (wrapping_mul 64 4 rttvar') in
  let rto := Z.min (Z.max (from_micros rto_us) (from_millis 200)) (from_secs 60) in
  mkArqTracker (aq_in_flight a) rto srtt' rttvar'.

Definition ArqTracker_on_ack (a : ArqTracker) (now pkt_num : Z) : ArqTracker * option (Z * nat) :=
  match om_lookup pkt_num (aq_in_flight a) with
  | Some pkt =>
      let a1 := mkArqTracker (om_remove pkt_num (aq_in_flight a)) (aq_rto a) (aq_srtt_us a) (aq_rttvar_us a) in
      let bytes := length (if_data pkt) in
      if if_retransmits pkt =? 0 then
        let rtt := duration_since now (if_sent_at pkt) in
        (ArqTracker_update_rtt a1 rtt, Some (rtt, bytes))
      else (a1, Some (0, bytes))
  | None => (a, None)
  end.

Definition is_expired (now rto : Z) (p : InFlight) : bool := rto <=? duration_since now (if_sent_at p).

Definition ArqTracker_drain_expired (a : ArqTracker) (now : Z) : ArqTracker * list (Z * list byte) :=
  let rto := aq_rto a in
  let expired := map (fun kv => (fst kv, if_data (snd kv)))
                   (List.filter (fun kv => is_expired now rto (snd kv)) (aq_in_flight a)) in
  let in_flight' := om_map (fun _ p => if is_expired now rto p
                                       then mkInFlight (if_data p) now (wrapping_add 32 (if_retransmits p) 1)
                                       else p) (aq_in_flight a) in
  let rto' := match expired with [] => rto | _ => Z.min (rto * 2) (from_secs 60) end in
  (mkArqTracker in_flight' rto' (aq_srtt_us a) (aq_rttvar_us a), expired).

Definition ArqTracker_in_flight_count (a : ArqTracker) : nat := length (aq_in_flight a).
Definition ArqTracker_srtt (a : ArqTracker) : Z := from_micros (aq_srtt_us a).

(** ** Runs *)

Inductive ArqOp : Type :=
  | QSent (now pn : Z) (data : list byte)
  | QAck (now pn : Z)
  | QDrain (now : Z).

Definition arq_step (a : ArqTracker) (op : ArqOp) : ArqTracker :=
  match op with
  | QSent now pn data => ArqTracker_on_sent a now pn data
  | QAck now pn => fst (ArqTracker_on_ack a now pn)
  | QDrain now => fst (ArqTracker_drain_expired a now)
  end.

Definition arq_run (ops : list ArqOp) : ArqTracker := fold_left arq_step ops ArqTracker_new.

(** What must be retransmittable: the packets sent and not acknowledged since. *)
Fixpoint unacked (ops : list ArqOp) (pn : Z) : option (list byte) :=
  match ops with
  | [] => None
  | QSent _ p data :: older => if pn =? p then Some data else unacked older pn
  | QAck _ p :: older => if pn =? p then None else unacked older pn
  | QDrain _ :: older => unacked older pn
  end.

Record arq_inv (hist : list ArqOp) (a : ArqTracker) : Prop := {
  qi_wf : om_wf (aq_in_flight a);
  qi_data : forall pn, option_map if_data (om_lookup pn (aq_in_flight a)) = unacked (rev hist) pn;
  qi_rto : from_millis 200 <= aq_rto a <= from_secs 60
}.

Lemma update_rtt_in_flight a rtt : aq_in_flight (ArqTracker_update_rtt a rtt) = aq_in_flight a.
Proof. unfold ArqTracker_update_rtt. by destruct (rtt_ewma _ _ _). Qed.

Lemma update_rtt_rto a rtt : from_millis 200 <= aq_rto (ArqTracker_update_rtt a rtt) <= from_secs 60.
Proof.
  unfold ArqTracker_update_rtt. destruct (rtt_ewma _ _ _). simpl. unfold from_millis, from_secs. lia.
Qed.

Lemma on_ack_in_flight a now pn :
  aq_in_flight (fst (ArqTracker_on_ack a now pn)) =
    match om_lookup pn (aq_in_flight a) with
    | Some _ => om_remove pn (aq_in_flight a)
    | None => aq_in_flight a
    end.
Proof.
  unfold ArqTracker_on_ack. destruct (om_lookup pn _) as [p|]; [|done].
  destruct (if_retransmits p =? 0); simpl; [apply update_rtt_in_flight|done].
Qed.

Lemma on_ack_rto a now pn : from_millis 200 <= aq_rto a <= from_secs 60 ->
  from_millis 200 <= aq_rto (fst (ArqTracker_on_ack a now pn)) <= from_secs 60.
Proof.
  intros H. unfold ArqTracker_on_ack. destruct (om_lookup pn _) as [p|]; [|done].
  destruct (if_retransmits p =? 0); simpl; [apply update_rtt_rto|done].
Qed.

Lemma arq_step_inv hist a op : arq_inv hist a -> arq_inv (hist ++ [op]) (arq_step a op).
Proof.
  intros [Hwf Hdata Hrto]. destruct op as [now pn data|now pn|now]; simpl.
  - constructor; simpl; [by apply om_insert_wf| |done].
    intros q. rewrite om_lookup_insert, rev_app_distr. simpl. destruct (q =? pn); [done|apply Hdata].
  - constructor; [| |by apply on_ack_rto]; rewrite on_ack_in_flight.
    + destruct (om_lookup pn _); [by apply om_remove_wf|done].
    + intros q. rewrite rev_app_distr. simpl. rewrite <- Hdata. destruct (om_lookup pn _) eqn:E.
      * rewrite om_lookup_remove. by destruct (q =? pn).
      * destruct (q =? pn) eqn:Eq; [|done]. apply Z.eqb_eq in Eq. subst. by rewrite E.
  - constructor; simpl.
    + unfold om_wf. by rewrite om_map_keys.
    + intros q. rewrite om_lookup_map, rev_app_distr. simpl. rewrite <- Hdata.
      destruct (om_lookup q _) as [p|]; [|done]. simpl. by destruct (is_expired _ _ p).
    + destruct (map _ _); [done|]. unfold from_millis, from_secs in *. lia.
Qed.

Lemma arq_run_inv ops : arq_inv ops (arq_run ops).
Proof.
  induction ops as [|op ops IH] using rev_ind.
  - constructor; [constructor|done|]. simpl. unfold from_millis, from_secs. lia.
  - unfold arq_run. rewrite fold_left_app. by apply arq_step_inv.
Qed.

(** Retransmission is complete and sound: after any history of sends,
    acknowledgements and timer drains, a packet is in flight exactly when it
    was sent and not acknowledged since; the next drain returns exactly the
    in-flight packets whose timer has run for at least the RTO, each with the
    bytes last sent under its number, and keeps all of them in flight; the RTO
    stays within 200 ms and 60 s, and is doubled up to that cap by a drain that
    returned something. *)
Theorem arq_retransmits_unacked (ops : list ArqOp) (now : Z) :
  let a := arq_run ops in
  let '(a', expired) := ArqTracker_drain_expired a now in
  (forall pn data, In (pn, data) expired <->
     unacked (rev ops) pn = Some data /\
     exists p, om_lookup pn (aq_in_flight a) = Some p /\ aq_rto a <= duration_since now (if_sent_at p)) /\
  (forall pn, option_map if_data (om_lookup pn (aq_in_flight a')) = unacked (rev ops) pn) /\
  from_millis 200 <= aq_rto a <= from_secs 60 /\
  aq_rto a' = (if (0 <? length expired)%nat then Z.min (aq_rto a * 2) (from_secs 60) else aq_rto a).
Proof.
  intros a. destruct (arq_run_inv ops) as [Hwf Hdata Hrto]. fold a in Hwf, Hdata, Hrto.
  unfold ArqTracker_drain_expired. split_and!; [| |apply Hrto|apply Hrto|].
  - intros pn data. rewrite in_map_iff. split.
    + intros ([q p] & [= <- <-] & Hin). simpl. apply filter_In in Hin as [Hin He]. simpl in He.
      apply (om_In_lookup _ _ _ Hwf) in Hin. rewrite <- Hdata, Hin. split; [done|].
      exists p. split; [done|]. by apply Z.leb_le.
    + intros [Hu (p & Hp & He)]. rewrite <- Hdata, Hp in Hu. injection Hu as <-.
      exists (pn, p). split; [done|]. apply filter_In. split; [by apply om_lookup_In|].
      by apply Z.leb_le.
  - intros pn. simpl. rewrite om_lookup_map, <- Hdata. destruct (om_lookup pn _) as [p|]; [|done].
    simpl. by destruct (is_expired _ _ p).
  - simpl. by destruct (map _ _).
Qed.

(** Karn's rule: acknowledging an in-flight packet always removes it and
    reports its byte count; the RTT estimate and the RTO change only if the
    packet was never retransmitted; a second acknowledgement reports nothing. *)
Theorem arq_karn (ops : list ArqOp) (now pn now' : Z) (p : InFlight) :
  let a := arq_run ops in
  om_lookup pn (aq_in_flight a) = Some p ->
  let '(a', r) := ArqTracker_on_ack a now pn in
  om_lookup pn (aq_in_flight a') = None /\
  snd (ArqTracker_on_ack a' now' pn) = None /\
  (if if_retransmits p =? 0
   then r = Some (duration_since now (if_sent_at p), length (if_data p))
   else r = Some (0, length (if_data p)) /\ aq_srtt_us a' = aq_srtt_us a /\
        aq_rttvar_us a' = aq_rttvar_us a /\ aq_rto a' = aq_rto a).
Proof.
  intros a Hp. pose proof (on_ack_in_flight a now pn) as Hfl.
  unfold ArqTracker_on_ack in *. rewrite Hp in *.
  destruct (if_retransmits p =? 0); simpl in Hfl |- *.
  - assert (om_lookup pn (aq_in_flight (ArqTracker_update_rtt
      (mkArqTracker (om_remove pn (aq_in_flight a)) (aq_rto a) (aq_srtt_us a) (aq_rttvar_us a))
      (duration_since now (if_sent_at p)))) = None) as Hn.
    { rewrite update_rtt_in_flight. simpl. by rewrite om_lookup_remove, Z.eqb_refl. }
    rewrite Hn. done.
  - by rewrite om_lookup_remove, Z.eqb_refl.
Qed.

Lemma arq_karn_witness :
  ArqTracker_on_ack (arq_run [QSent 0 7 [x61; x62]; QDrain 400000000]) 500000000 7 =
    (mkArqTracker [] 600000000 0 0, Some (0, 2%nat)) /\
  snd (ArqTracker_on_ack (mkArqTracker [] 600000000 0 0) 500000000 7) = None.
Proof.
  pose proof (arq_karn [QSent 0 7 [x61; x62]; QDrain 400000000] 500000000 7 500000000
    (mkInFlight [x61; x62] 400000000 1) ltac:(vm_compute; reflexivity)) as H.
  split; [vm_compute; reflexivity|].
  destruct (ArqTracker_on_ack _ _ _) as [a' r] eqn:E in H. vm_compute in E. injection E as <- <-.
  exact (proj1 (proj2 H)).
Defined.
