(* ===== verification/Rack.v ===== *)
(** * RACK-TLP loss detection

    src/src/session/rack.rs: time-based loss detection over the in-flight
    packets, with the RTT estimator it shares with the ARQ. *)

From Stdlib Require Import ZArith Lia Bool List Sorting.Sorted.
From Stdlib Require Import Strings.Byte.
From stdpp Require Import base list numbers option.
From S2P Require Import Prelude Ordered Arq.

Open Scope Z_scope.

Definition RACK_REORDER_FRAC_NUM : Z := 1.
Definition RACK_REORDER_FRAC_DEN : Z := 4.

Record InFlightPacket : Type := mkInFlightPacket {
  ip_data : list byte;
  ip_sent_at : Z;
  ip_size : Z;
  ip_retransmits : Z
}.

Record RackTracker : Type := mkRackTracker {
  rk_in_flight : OMap InFlightPacket;
  rk_xmit_time : option Z;
  rk_end_seq : Z;
  rk_reorder_window : Z;
  rk_srtt_us : Z;
  rk_rttvar_us : Z;
  rk_min_rtt : Z;
  rk_losses_detected : Z;
  rk_acks_received : Z
}.

Definition RackTracker_new : RackTracker :=
  mkRackTracker [] None 0 (from_millis 5) 0 0 (from_secs 1) 0 0.

Definition RackTracker_on_sent (r : RackTracker) (now pkt_num : Z) (data : list byte) (size : Z)
  : RackTracker :=
  mkRackTracker (om_insert pkt_num (mkInFlightPacket data now size 0) (rk_in_flight r))
    (rk_xmit_time r) (rk_end_seq r) (rk_reorder_window r) (rk_srtt_us r) (rk_rttvar_us r)
    (rk_min_rtt r) (rk_losses_detected r) (rk_acks_received r).

(** [instant.checked_sub(d)]: an instant holds a signed 64-bit second count. *)
Definition instant_checked_sub (t d : Z) : option Z :=
  if t - d <? - 2 ^ 63 * 1000000000 then None else Some (t - d).

Definition lost_entry (kv : Z * InFlightPacket) : Z * list byte * Z :=
  (fst kv, ip_data (snd kv), ip_size (snd kv)).

(** Collect the packets a predicate selects, then remove them. *)
Definition take_lost (sel : Z * InFlightPacket -> bool) (m : OMap InFlightPacket)
  : OMap InFlightPacket * list (Z * list byte * Z) :=
  let hit := List.filter sel m in
  (fold_left (fun m k => om_remove k m) (map fst hit) m, map lost_entry hit).

Definition set_in_flight (r : RackTracker) (m : OMap InFlightPacket) : RackTracker :=
  mkRackTracker m (rk_xmit_time r) (rk_end_seq r) (rk_reorder_window r) (rk_srtt_us r)
    (rk_rttvar_us r) (rk_min_rtt r) (rk_losses_detected r) (rk_acks_received r).

Definition add_losses (r : RackTracker) (n : nat) : RackTracker :=
  mkRackTracker (rk_in_flight r) (rk_xmit_time r) (rk_end_seq r) (rk_reorder_window r) (rk_srtt_us r)
    (rk_rttvar_us r) (rk_min_rtt r) (saturating_add 64 (rk_losses_detected r) (Z.of_nat n))
    (rk_acks_received r).

Definition RackTracker_detect_losses (r : RackTracker) : RackTracker * list (Z * list byte * Z) :=
  match rk_xmit_time r with
  | None => (r, [])
  | Some reference =>
      match instant_checked_sub reference (rk_reorder_window r) with
      | None => (r, [])
      | Some threshold =>
          let '(m, lost) := take_lost
            (fun kv => (fst kv <? rk_end_seq r) && (ip_sent_at (snd kv) <? threshold)) (rk_in_flight r) in
          (set_in_flight r m, lost)
      end
  end.

Definition RackTracker_update_rtt (r : RackTracker) (rtt : Z) : RackTracker :=
  let min_rtt := if (rtt <? rk_min_rtt r) || (rk_min_rtt r =? from_secs 1) then rtt else rk_min_rtt r in
  let '(srtt', rttvar') := rtt_ewma (rk_srtt_us r) (rk_rttvar_us r) (as_micros_u64 rtt) in
  mkRackTracker (rk_in_flight r) (rk_xmit_time r) (rk_end_seq r) (rk_reorder_window r) srtt' rttvar'
    min_rtt (rk_losses_detected r) (rk_acks_received r).

(** The RACK reference moves with acknowledgements at or above the highest. *)
Definition advance_reference (r : RackTracker) (pkt_num sent_at : Z) : RackTracker :=
  if rk_end_seq r <=? pkt_num then
    mkRackTracker (rk_in_flight r) (Some sent_at) pkt_num (rk_reorder_window r) (rk_srtt_us r)
      (rk_rttvar_us r) (rk_min_rtt r) (rk_losses_detected r) (rk_acks_received r)
  else r.

Definition update_window (r : RackTracker) : RackTracker :=
  if 0 <? rk_srtt_us r then
    let frac_us := wrapping_mul 64 (rk_srtt_us r) RACK_REORDER_FRAC_NUM / RACK_REORDER_FRAC_DEN in
    mkRackTracker (rk_in_flight r) (rk_xmit_time r) (rk_end_seq r)
      (Z.max (from_micros frac_us) (from_millis 1)) (rk_srtt_us r) (rk_rttvar_us r) (rk_min_rtt r)
      (rk_losses_detected r) (rk_acks_received r)
  else r.

Definition count_ack (r : RackTracker) : RackTracker :=
  mkRackTracker (rk_in_flight r) (rk_xmit_time r) (rk_end_seq r) (rk_reorder_window r) (rk_srtt_us r)
    (rk_rttvar_us r) (rk_min_rtt r) (rk_losses_detected r) (saturating_add 64 (rk_acks_received r) 1).

Definition RackTracker_on_ack (r : RackTracker) (now pkt_num : Z)
  : RackTracker * (option Z * list (Z * list byte * Z)) :=
  let r0 := count_ack r in
  match om_lookup pkt_num (rk_in_flight r0) with
  | None => (r0, (None, []))
  | Some pkt =>
      let r1 := set_in_flight r0 (om_remove pkt_num (rk_in_flight r0)) in
      let rtt := duration_since now (ip_sent_at pkt) in
      let r2 := advance_reference r1 pkt_num (ip_sent_at pkt) in
      let '(r3, sample) := if ip_retransmits pkt =? 0 then (RackTracker_update_rtt r2 rtt, Some rtt)
                           else (r2, None) in
      let r4 := update_window r3 in
      let '(r5, losses) := RackTracker_detect_losses r4 in
      (add_losses r5 (length losses), (sample, losses))
  end.

Definition RackTracker_detect_tail_loss (r : RackTracker) (now pto : Z)
  : RackTracker * list (Z * list byte * Z) :=
  let '(m, lost) := take_lost (fun kv => pto <? duration_since now (ip_sent_at (snd kv))) (rk_in_flight r) in
  (add_losses (set_in_flight r m) (length lost), lost).

Definition RackTracker_in_flight_count (r : RackTracker) : nat := length (rk_in_flight r).

(** [.sum()] over the sizes, wrapping at 64 bits. *)
Definition RackTracker_in_flight_bytes (r : RackTracker) : Z :=
  fold_left (fun acc kv => wrapping_add 64 acc (ip_size (snd kv))) (rk_in_flight r) 0.

Definition RackTracker_pto (r : RackTracker) : Z :=
  let pto_us := wrapping_add 64 (wrapping_add 64 (rk_srtt_us r) (wrapping_mul 64 4 (rk_rttvar_us r))) 25000 in
  Z.min (from_micros (Z.max pto_us 200000)) (from_secs 60).

(** ** Loss detection *)

Lemma remove_all_filter {V} (ks : list Z) (m : OMap V) :
  fold_left (fun m k => om_remove k m) ks m =
    List.filter (fun kv => negb (existsb (Z.eqb (fst kv)) ks)) m.
Proof.
  revert m. induction ks as [|k ks IH]; intros m; simpl.
  - by rewrite filter_true_all.
  - rewrite IH. unfold om_remove. rewrite filter_filter_and. apply filter_ext.
    intros kv. rewrite negb_orb. by rewrite andb_comm.
Qed.

Lemma take_lost_spec sel m : om_wf m ->
  take_lost sel m = (List.filter (fun kv => negb (sel kv)) m, map lost_entry (List.filter sel m)).
Proof.
  intros Hwf. unfold take_lost. rewrite remove_all_filter. f_equal. apply filter_ext_in.
  intros [k p] Hin. f_equal. simpl. destruct (sel (k, p)) eqn:E.
  - apply existsb_exists. exists k. rewrite Z.eqb_refl. split; [|done].
    apply in_map_iff. exists (k, p). rewrite filter_In. done.
  - apply not_true_is_false. intros Hx. apply existsb_exists in Hx as (j & Hj & Ejk).
    apply Z.eqb_eq in Ejk. subst j. apply in_map_iff in Hj as ([k' p'] & Hk & Hin').
    simpl in Hk. subst k'. apply filter_In in Hin' as [Hin' Es].
    apply (om_In_lookup _ _ _ Hwf) in Hin. apply (om_In_lookup _ _ _ Hwf) in Hin'. congruence.
Qed.

Lemma om_filter_wf {V} (P : Z * V -> bool) m : om_wf m -> om_wf (List.filter P m).
Proof.
  unfold om_wf. induction m as [|[k p] m IH]; intros Hwf; simpl in *; [done|].
  inversion_clear Hwf as [|? ? Hm Hk]. specialize (IH Hm). destruct (P (k, p)); [|done]. simpl.
  constructor; [done|]. rewrite List.Forall_forall in *. intros x Hx. apply Hk.
  apply in_map_iff in Hx as ([k' p'] & <- & Hx). apply filter_In in Hx as [Hx _].
  apply in_map_iff. by exists (k', p').
Qed.

(** The RACK rule: sent before the reference by more than the reorder window,
    with a number below the highest acknowledged. *)
Definition rack_lost (r : RackTracker) (kv : Z * InFlightPacket) : bool :=
  match rk_xmit_time r with
  | None => false
  | Some t => (fst kv <? rk_end_seq r) && (ip_sent_at (snd kv) + rk_reorder_window r <? t)
  end.

Record rack_inv (r : RackTracker) : Prop := {
  ri_wf : om_wf (rk_in_flight r);
  ri_sent : forall pn p, In (pn, p) (rk_in_flight r) -> 0 <= ip_sent_at p;
  ri_time : forall t, rk_xmit_time r = Some t -> 0 <= t;
  ri_win : 0 <= rk_reorder_window r < 2 ^ 63 * 1000000000;
  ri_srtt : is_u64 (rk_srtt_us r)
}.

Lemma detect_losses_eq r : rack_inv r ->
  RackTracker_detect_losses r =
    (set_in_flight r (List.filter (fun kv => negb (rack_lost r kv)) (rk_in_flight r)),
     map lost_entry (List.filter (rack_lost r) (rk_in_flight r))).
Proof.
  intros [Hwf _ Ht Hw _]. unfold RackTracker_detect_losses, rack_lost.
  destruct (rk_xmit_time r) as [t|].
  2: { rewrite filter_true_all by done. rewrite filter_none by done. by destruct r. }
  specialize (Ht t eq_refl). unfold instant_checked_sub.
  destruct (_ <? - 2 ^ 63 * 1000000000) eqn:E; cmp_facts; [lia|].
  rewrite take_lost_spec by done.
  assert (forall kv : Z * InFlightPacket,
    (fst kv <? rk_end_seq r) && (ip_sent_at (snd kv) <? t - rk_reorder_window r) =
    (fst kv <? rk_end_seq r) && (ip_sent_at (snd kv) + rk_reorder_window r <? t)) as He.
  { intros kv. f_equal. destruct (_ <? _) eqn:E1, (_ + _ <? _) eqn:E2; cmp_facts; try done; lia. }
  f_equal; [f_equal|f_equal]; apply filter_ext; intros kv; by rewrite He.
Qed.

(** ** Runs *)

Inductive RackOp : Type :=
  | KSent (now pn : Z) (data : list byte) (size : Z)
  | KAck (now pn : Z)
  | KTail (now pto : Z).

Definition rack_step (r : RackTracker) (op : RackOp) : RackTracker :=
  match op with
  | KSent now pn data size => RackTracker_on_sent r now pn data size
  | KAck now pn => fst (RackTracker_on_ack r now pn)
  | KTail now pto => fst (RackTracker_detect_tail_loss r now pto)
  end.

Definition rack_run (ops : list RackOp) : RackTracker := fold_left rack_step ops RackTracker_new.

Definition rack_op_ok (op : RackOp) : Prop :=
  match op with KSent now _ _ _ => 0 <= now | _ => True end.

Lemma rtt_ewma_u64 s v x : is_u64 x -> is_u64 (fst (rtt_ewma s v x)).
Proof.
  intros Hx. unfold rtt_ewma. destruct (s =? 0); [done|]. apply wrap_is_u. lia.
Qed.

Lemma update_window_inv r : rack_inv r -> rack_inv (update_window r).
Proof.
  intros [Hwf Hs Ht Hw Hu]. unfold update_window. destruct (0 <? _); [|by constructor].
  constructor; simpl; try done. unfold from_micros, from_millis, wrapping_mul, RACK_REORDER_FRAC_DEN.
  pose proof (wrap_is_u 64 (rk_srtt_us r * RACK_REORDER_FRAC_NUM) ltac:(lia)) as H. unfold is_u in H.
  assert (0 <= wrap 64 (rk_srtt_us r * RACK_REORDER_FRAC_NUM) / 4 < 2 ^ 62) as Hd.
  { split; [apply Z.div_pos; lia|]. apply Z.div_lt_upper_bound; lia. }
  lia.
Qed.

Lemma om_remove_sent pn r : rack_inv r -> forall q p,
  In (q, p) (om_remove pn (rk_in_flight r)) -> 0 <= ip_sent_at p.
Proof. intros Hi q p Hin. apply om_remove_In in Hin as [_ Hin]. by apply (ri_sent r Hi q). Qed.

(** The state after an acknowledgement, just before losses are collected. *)
Definition acked_state (r : RackTracker) (now pn : Z) (pkt : InFlightPacket) : RackTracker :=
  let r2 := advance_reference (set_in_flight (count_ack r) (om_remove pn (rk_in_flight r))) pn (ip_sent_at pkt) in
  update_window (if ip_retransmits pkt =? 0
                 then RackTracker_update_rtt r2 (duration_since now (ip_sent_at pkt)) else r2).

Lemma acked_state_inv r now pn pkt : rack_inv r -> In (pn, pkt) (rk_in_flight r) ->
  rack_inv (acked_state r now pn pkt) /\
  rk_in_flight (acked_state r now pn pkt) = om_remove pn (rk_in_flight r) /\
  rk_end_seq (acked_state r now pn pkt) = Z.max (rk_end_seq r) pn /\
  rk_losses_detected (acked_state r now pn pkt) = rk_losses_detected r.
Proof.
  intros Hi Hin. pose proof Hi as [Hwf Hs Ht Hw Hu]. unfold acked_state.
  set (r2 := advance_reference _ pn _).
  assert (rack_inv r2 /\ rk_in_flight r2 = om_remove pn (rk_in_flight r) /\
    rk_end_seq r2 = Z.max (rk_end_seq r) pn /\ rk_losses_detected r2 = rk_losses_detected r) as (H2 & F2 & E2 & L2).
  { unfold r2, advance_reference. simpl. destruct (_ <=? pn) eqn:E; cmp_facts; simpl; split_and!; try done; try lia.
    - constructor; simpl; try done; [by apply om_remove_wf|by apply om_remove_sent|].
      intros t [= <-]. by apply (Hs pn pkt).
    - constructor; simpl; try done; [by apply om_remove_wf|by apply om_remove_sent]. }
  set (r3 := if ip_retransmits pkt =? 0 then RackTracker_update_rtt r2 _ else r2).
  assert (rack_inv r3 /\ rk_in_flight r3 = rk_in_flight r2 /\ rk_end_seq r3 = rk_end_seq r2 /\
    rk_losses_detected r3 = rk_losses_detected r2) as (H3 & F3 & E3 & L3).
  { unfold r3. destruct (_ =? 0); [|done]. unfold RackTracker_update_rtt.
    destruct H2 as [W S T N U].
    pose proof (rtt_ewma_u64 (rk_srtt_us r2) (rk_rttvar_us r2)
      (as_micros_u64 (duration_since now (ip_sent_at pkt))) ltac:(apply wrap_is_u; lia)) as Hu'.
    destruct (rtt_ewma _ _ _). split; [by constructor|done]. }
  pose proof (update_window_inv r3 H3) as H4. split; [done|].
  rewrite <- F2, <- E2, <- L2, <- F3, <- E3, <- L3. unfold update_window. by destruct (0 <? _).
Qed.

Lemma on_ack_eq r now pn pkt : om_lookup pn (rk_in_flight r) = Some pkt ->
  RackTracker_on_ack r now pn =
    let '(r5, losses) := RackTracker_detect_losses (acked_state r now pn pkt) in
    (add_losses r5 (length losses),
     (if ip_retransmits pkt =? 0 then Some (duration_since now (ip_sent_at pkt)) else None, losses)).
Proof.
  intros Hp. unfold RackTracker_on_ack. simpl. rewrite Hp. unfold acked_state.
  destruct (ip_retransmits pkt =? 0); by destruct (RackTracker_detect_losses _).
Qed.

Lemma rack_step_inv r op : rack_inv r -> rack_op_ok op -> rack_inv (rack_step r op).
Proof.
  intros Hi Hop. pose proof Hi as [Hwf Hs Ht Hw Hu]. destruct op as [now pn data size|now pn|now pto]; cbn [rack_step].
  - constructor; simpl; try done; [by apply om_insert_wf|].
    intros q p Hin. apply om_insert_In in Hin as [[_ ->]|[_ Hin]]; [done|by apply (Hs q)|done].
  - destruct (om_lookup pn (rk_in_flight r)) as [pkt|] eqn:E.
    + rewrite (on_ack_eq r now pn pkt E).
      destruct (acked_state_inv r now pn pkt Hi (om_lookup_In _ _ _ E)) as (Hi' & _).
      rewrite detect_losses_eq by done. destruct Hi' as [W S T N U].
      constructor; simpl; try done; [by apply om_filter_wf|].
      intros q p Hin. apply filter_In in Hin as [Hin _]. by apply (S q).
    + unfold RackTracker_on_ack. simpl. rewrite E. by constructor.
  - unfold RackTracker_detect_tail_loss. rewrite take_lost_spec by done. simpl.
    constructor; simpl; try done; [by apply om_filter_wf|].
    intros q p Hin. apply filter_In in Hin as [Hin _]. by apply (Hs q).
Qed.

Lemma rack_run_inv ops : Forall rack_op_ok ops -> rack_inv (rack_run ops).
Proof.
  induction ops as [|op ops IH] using rev_ind; intros Hops.
  - constructor; simpl; [constructor|done|done|unfold from_millis; lia|unfold is_u; lia].
  - apply Forall_app in Hops as [Hops Hop]. inversion_clear Hop as [|? ? Hop' _].
    unfold rack_run. rewrite fold_left_app. by apply rack_step_inv; [apply IH|].
Qed.

(** RACK declares losses by send time only: when an in-flight packet is
    acknowledged, the packets declared lost are exactly those still in flight
    with a number below the highest acknowledged and sent more than the
    reorder window before the reference packet; they leave the in-flight set
    with their bytes reported and counted, the acknowledged packet leaves it
    too, every other packet stays; and an RTT sample is taken exactly for a
    packet that was not retransmitted. *)
Theorem rack_ack_losses (ops : list RackOp) (now pn : Z) (pkt : InFlightPacket) :
  Forall rack_op_ok ops ->
  let r := rack_run ops in
  om_lookup pn (rk_in_flight r) = Some pkt ->
  let '(r', (sample, lost)) := RackTracker_on_ack r now pn in
  let rest := om_remove pn (rk_in_flight r) in
  lost = map lost_entry (List.filter (rack_lost r') rest) /\
  rk_in_flight r' = List.filter (fun kv => negb (rack_lost r' kv)) rest /\
  rk_end_seq r' = Z.max (rk_end_seq r) pn /\
  rk_losses_detected r' = saturating_add 64 (rk_losses_detected r) (Z.of_nat (length lost)) /\
  sample = if ip_retransmits pkt =? 0 then Some (duration_since now (ip_sent_at pkt)) else None.
Proof.
  intros Hops r Hp. pose proof (rack_run_inv ops Hops) as Hi. fold r in Hi.
  rewrite (on_ack_eq r now pn pkt Hp).
  destruct (acked_state_inv r now pn pkt Hi (om_lookup_In _ _ _ Hp)) as (Hi' & Hf & He & Hl).
  rewrite detect_losses_eq by done. rewrite Hf. simpl.
  split_and!; try done. by rewrite Hl.
Qed.

Lemma rack_ack_losses_witness :
  let ops := [KSent 0 1 [x61] 10; KSent 100000000 2 [x62] 20; KSent 101000000 3 [x63] 30] in
  snd (RackTracker_on_ack (rack_run ops) 150000000 3) = (Some 49000000, [(1, [x61], 10)]) /\
  rk_end_seq (fst (RackTracker_on_ack (rack_run ops) 150000000 3)) = 3.
Proof.
  intros ops.
  pose proof (rack_ack_losses ops 150000000 3 (mkInFlightPacket [x63] 101000000 30 0)) as H.
  assert (Forall rack_op_ok ops) as H1 by (repeat constructor; simpl; lia).
  specialize (H H1 ltac:(vm_compute; reflexivity)).
  split; [vm_compute; reflexivity|].
  destruct (RackTracker_on_ack (rack_run ops) 150000000 3) as [r' [sample lost]].
  destruct H as (_ & _ & He & _). simpl. rewrite He. vm_compute. reflexivity.
Defined.
