(* ===== verification/Session.v ===== *)
(** * Sessions

    src/src/session/mod.rs: stream management, sending and packetisation,
    packet reception, acknowledgement handling and flow control, composed from
    the packet codec, the streams, the ARQ, the ACK ranges and the datagram
    queue. A [None] result is a call that does not return (the eviction loop of
    a zero-depth datagram queue) or a panic. *)

From Stdlib Require Import ZArith Lia Bool List String Sorting.Sorted.
From Stdlib Require Import Strings.Byte.
From stdpp Require Import base list numbers option gmap pretty.
From S2P Require Import Prelude Packet Replay Crypto TestCrypto PacketCodec Ordered Ack Stream Flow Datagram Arq.

Open Scope Z_scope.

Inductive Role : Type := Client | Server.

#[export] Instance Role_eq_dec : EqDecision Role.
Proof. solve_decision. Defined.

Definition Role_local_parity (r : Role) : Z := match r with Client => 1 | Server => 0 end.
Definition Role_debug (r : Role) : string := match r with Client => "Client" | Server => "Server" end.

Record SessionLimits : Type := mkSessionLimits {
  sl_max_streams : Z;
  sl_max_datagram_size : nat;
  sl_max_datagram_queue : nat;
  sl_max_in_flight_packets : nat;
  sl_max_recv_buffer_per_stream : Z
}.

Definition SessionLimits_default : SessionLimits :=
  mkSessionLimits 1024 1200 64 (Z.to_nat 10000) (4 * 1024 * 1024).

(** The session's initial windows, 16 << 20, and the payload of one packet. *)
Definition SESSION_WINDOW : Z := Z.shiftl 16 20.
Definition MAX_PAYLOAD : nat := 1400.

Inductive SessionEvent : Type :=
  | EvNewStream (id : Z)
  | EvDataAvailable (id : Z)
  | EvStreamFinished (id : Z)
  | EvDatagramReceived
  | EvSessionTicket (ticket : list byte)
  | EvClosed
  | EvPathChallengeReceived (nonce : Z)
  | EvPathResponseReceived (nonce : Z).

Record TaggedPacket : Type := mkTaggedPacket { tp_is_control : bool; tp_bytes : list byte }.

Section SessionModel.
Context {C : Crypto}.

Record Session : Type := mkSession {
  ss_id : Z;
  ss_role : Role;
  ss_encoder : PacketEncoder;
  ss_decoder : PacketDecoder;
  ss_streams : gmap Z Stream;
  ss_next_stream_id : Z;
  ss_send_window : FlowWindow;
  ss_recv_window : FlowWindow;
  ss_recv_consumed : Z;
  ss_pending_max_data : option Z;
  ss_pending_pong : bool;
  ss_pending_ping : bool;
  ss_arq : ArqTracker;
  ss_datagrams : DatagramQueue;
  ss_limits : SessionLimits;
  ss_ack_ranges : AckRanges;
  ss_pending_cc_ack : option (Z * Z)
}.

Definition set_ss_encoder (s : Session) (v : PacketEncoder) : Session :=
  mkSession (ss_id s) (ss_role s) v (ss_decoder s) (ss_streams s) (ss_next_stream_id s)
    (ss_send_window s) (ss_recv_window s) (ss_recv_consumed s) (ss_pending_max_data s)
    (ss_pending_pong s) (ss_pending_ping s) (ss_arq s) (ss_datagrams s) (ss_limits s)
    (ss_ack_ranges s) (ss_pending_cc_ack s).
Definition set_ss_decoder (s : Session) (v : PacketDecoder) : Session :=
  mkSession (ss_id s) (ss_role s) (ss_encoder s) v (ss_streams s) (ss_next_stream_id s)
    (ss_send_window s) (ss_recv_window s) (ss_recv_consumed s) (ss_pending_max_data s)
    (ss_pending_pong s) (ss_pending_ping s) (ss_arq s) (ss_datagrams s) (ss_limits s)
    (ss_ack_ranges s) (ss_pending_cc_ack s).
Definition set_ss_streams (s : Session) (v : gmap Z Stream) : Session :=
  mkSession (ss_id s) (ss_role s) (ss_encoder s) (ss_decoder s) v (ss_next_stream_id s)
    (ss_send_window s) (ss_recv_window s) (ss_recv_consumed s) (ss_pending_max_data s)
    (ss_pending_pong s) (ss_pending_ping s) (ss_arq s) (ss_datagrams s) (ss_limits s)
    (ss_ack_ranges s) (ss_pending_cc_ack s).
Definition set_ss_next_stream_id (s : Session) (v : Z) : Session :=
  mkSession (ss_id s) (ss_role s) (ss_encoder s) (ss_decoder s) (ss_streams s) v (ss_send_window s)
    (ss_recv_window s) (ss_recv_consumed s) (ss_pending_max_data s) (ss_pending_pong s)
    (ss_pending_ping s) (ss_arq s) (ss_datagrams s) (ss_limits s) (ss_ack_ranges s)
    (ss_pending_cc_ack s).
Definition set_ss_send_window (s : Session) (v : FlowWindow) : Session :=
  mkSession (ss_id s) (ss_role s) (ss_encoder s) (ss_decoder s) (ss_streams s) (ss_next_stream_id s)
    v (ss_recv_window s) (ss_recv_consumed s) (ss_pending_max_data s) (ss_pending_pong s)
    (ss_pending_ping s) (ss_arq s) (ss_datagrams s) (ss_limits s) (ss_ack_ranges s)
    (ss_pending_cc_ack s).
Definition set_ss_recv_window (s : Session) (v : FlowWindow) : Session :=
  mkSession (ss_id s) (ss_role s) (ss_encoder s) (ss_decoder s) (ss_streams s) (ss_next_stream_id s)
    (ss_send_window s) v (ss_recv_consumed s) (ss_pending_max_data s) (ss_pending_pong s)
    (ss_pending_ping s) (ss_arq s) (ss_datagrams s) (ss_limits s) (ss_ack_ranges s)
    (ss_pending_cc_ack s).
Definition set_ss_recv_consumed (s : Session) (v : Z) : Session :=
  mkSession (ss_id s) (ss_role s) (ss_encoder s) (ss_decoder s) (ss_streams s) (ss_next_stream_id s)
    (ss_send_window s) (ss_recv_window s) v (ss_pending_max_data s) (ss_pending_pong s)
    (ss_pending_ping s) (ss_arq s) (ss_datagrams s) (ss_limits s) (ss_ack_ranges s)
    (ss_pending_cc_ack s).
Definition set_ss_pending_max_data (s : Session) (v : option Z) : Session :=
  mkSession (ss_id s) (ss_role s) (ss_encoder s) (ss_decoder s) (ss_streams s) (ss_next_stream_id s)
    (ss_send_window s) (ss_recv_window s) (ss_recv_consumed s) v (ss_pending_pong s)
    (ss_pending_ping s) (ss_arq s) (ss_datagrams s) (ss_limits s) (ss_ack_ranges s)
    (ss_pending_cc_ack s).
Definition set_ss_pending_pong (s : Session) (v : bool) : Session :=
  mkSession (ss_id s) (ss_role s) (ss_encoder s) (ss_decoder s) (ss_streams s) (ss_next_stream_id s)
    (ss_send_window s) (ss_recv_window s) (ss_recv_consumed s) (ss_pending_max_data s) v
    (ss_pending_ping s) (ss_arq s) (ss_datagrams s) (ss_limits s) (ss_ack_ranges s)
    (ss_pending_cc_ack s).
Definition set_ss_pending_ping (s : Session) (v : bool) : Session :=
  mkSession (ss_id s) (ss_role s) (ss_encoder s) (ss_decoder s) (ss_streams s) (ss_next_stream_id s)
    (ss_send_window s) (ss_recv_window s) (ss_recv_consumed s) (ss_pending_max_data s)
    (ss_pending_pong s) v (ss_arq s) (ss_datagrams s) (ss_limits s) (ss_ack_ranges s)
    (ss_pending_cc_ack s).
Definition set_ss_arq (s : Session) (v : ArqTracker) : Session :=
  mkSession (ss_id s) (ss_role s) (ss_encoder s) (ss_decoder s) (ss_streams s) (ss_next_stream_id s)
    (ss_send_window s) (ss_recv_window s) (ss_recv_consumed s) (ss_pending_max_data s)
    (ss_pending_pong s) (ss_pending_ping s) v (ss_datagrams s) (ss_limits s) (ss_ack_ranges s)
    (ss_pending_cc_ack s).
Definition set_ss_datagrams (s : Session) (v : DatagramQueue) : Session :=
  mkSession (ss_id s) (ss_role s) (ss_encoder s) (ss_decoder s) (ss_streams s) (ss_next_stream_id s)
    (ss_send_window s) (ss_recv_window s) (ss_recv_consumed s) (ss_pending_max_data s)
    (ss_pending_pong s) (ss_pending_ping s) (ss_arq s) v (ss_limits s) (ss_ack_ranges s)
    (ss_pending_cc_ack s).
Definition set_ss_ack_ranges (s : Session) (v : AckRanges) : Session :=
  mkSession (ss_id s) (ss_role s) (ss_encoder s) (ss_decoder s) (ss_streams s) (ss_next_stream_id s)
    (ss_send_window s) (ss_recv_window s) (ss_recv_consumed s) (ss_pending_max_data s)
    (ss_pending_pong s) (ss_pending_ping s) (ss_arq s) (ss_datagrams s) (ss_limits s) v
    (ss_pending_cc_ack s).
Definition set_ss_pending_cc_ack (s : Session) (v : option (Z * Z)) : Session :=
  mkSession (ss_id s) (ss_role s) (ss_encoder s) (ss_decoder s) (ss_streams s) (ss_next_stream_id s)
    (ss_send_window s) (ss_recv_window s) (ss_recv_consumed s) (ss_pending_max_data s)
    (ss_pending_pong s) (ss_pending_ping s) (ss_arq s) (ss_datagrams s) (ss_limits s)
    (ss_ack_ranges s) v.

Definition Session_with_limits (id : Z) (role : Role) (encoder : PacketEncoder) (decoder : PacketDecoder)
    (limits : SessionLimits) : Session :=
  mkSession id role encoder decoder ∅ (match role with Client => 1 | Server => 2 end)
    (FlowWindow_new SESSION_WINDOW) (FlowWindow_new SESSION_WINDOW) 0 None false false ArqTracker_new
    (DatagramQueue_with_limits (sl_max_datagram_size limits) (sl_max_datagram_queue limits))
    limits AckRanges_new None.

Definition Session_with_role (id : Z) (role : Role) (encoder : PacketEncoder) (decoder : PacketDecoder)
  : Session := Session_with_limits id role encoder decoder SessionLimits_default.

Definition Session_new (id : Z) (encoder : PacketEncoder) (decoder : PacketDecoder) : Session :=
  Session_with_limits id Client encoder decoder SessionLimits_default.

(** ** Stream management *)

Definition set_priority (st : Stream) (p : Z) : Stream :=
  mkStream (st_id st) p (st_send_buf st) (st_send_offset st) (st_send_unacked_offset st)
    (st_send_max_data st) (st_recv_offset st) (st_recv_buf st) (st_recv_max_data st)
    (st_recv_buffered st) (st_fin_received st) (st_fin_sent st) (st_fin_flushed st).

(** [self.streams.len() as u32 >= self.limits.max_streams]. *)
Definition streams_full (s : Session) : bool :=
  sl_max_streams (ss_limits s) <=? wrap 32 (Z.of_nat (size (ss_streams s))).

Definition Session_try_open_stream_with_priority (s : Session) (priority : Z) : Session * option Z :=
  if streams_full s then (s, None)
  else
    let id := ss_next_stream_id s in
    let s1 := set_ss_next_stream_id s (wrapping_add 32 id 2) in
    (set_ss_streams s1 (<[id := set_priority (Stream_new id) priority]> (ss_streams s1)), Some id).

(** [expect]: a panic at the stream limit. *)
Definition Session_open_stream_with_priority (s : Session) (priority : Z) : option (Session * Z) :=
  match Session_try_open_stream_with_priority s priority with
  | (s', Some id) => Some (s', id)
  | (_, None) => None
  end.

Definition Session_open_stream (s : Session) : option (Session * Z) :=
  Session_open_stream_with_priority s PRIORITY_DEFAULT.

Definition Session_push_stream (s : Session) : option (Session * Z) := Session_open_stream s.

(** ** Datagrams *)

Definition Session_send_datagram (s : Session) (data : list byte) : option (Session * Result unit SeamError) :=
  match DatagramQueue_send (ss_datagrams s) data with
  | None => None
  | Some (d, Ok _) => Some (set_ss_datagrams s d, Ok tt)
  | Some (d, Err sz) =>
      Some (set_ss_datagrams s d,
            Err (BufferTooSmall (Z.of_nat sz) (Z.of_nat (sl_max_datagram_size (ss_limits s)))))
  end.

Definition Session_recv_datagram (s : Session) : Session * option (list byte) :=
  let '(d, o) := DatagramQueue_recv (ss_datagrams s) in (set_ss_datagrams s d, o).

(** (queued to send, queued to read, dropped). *)
Definition Session_datagram_stats (s : Session) : nat * nat * Z :=
  (DatagramQueue_send_pending (ss_datagrams s), DatagramQueue_recv_pending (ss_datagrams s),
   dq_dropped (ss_datagrams s)).

(** ** Sending *)

(** The connection window is reserved before the stream is looked up. *)
Definition Session_send (s : Session) (stream_id : Z) (data : list byte) : Session * Result unit SeamError :=
  match FlowWindow_reserve (ss_send_window s) (Z.of_nat (length data)) with
  | Err e => (s, Err e)
  | Ok w =>
      let s1 := set_ss_send_window s w in
      match ss_streams s1 !! stream_id with
      | None => (s1, Err (UnknownStream stream_id))
      | Some st =>
          match Stream_write st data with
          | Err e => (s1, Err e)
          | Ok (st', _) => (set_ss_streams s1 (<[stream_id := st']> (ss_streams s1)), Ok tt)
          end
      end
  end.

Definition Session_finish_stream (s : Session) (stream_id : Z) : Session :=
  match ss_streams s !! stream_id with
  | Some st => set_ss_streams s (<[stream_id := Stream_finish st]> (ss_streams s))
  | None => s
  end.

Definition Session_ping (s : Session) : Session := set_ss_pending_ping s true.
Definition Session_has_pending_ack (s : Session) : bool := AckRanges_has_pending_ack (ss_ack_ranges s).
Definition Session_has_pending_max_data (s : Session) : bool :=
  match ss_pending_max_data s with Some _ => true | None => false end.

(** [vec![0; 32 + n + 16]], [encode], [truncate(n)]. *)
Definition encode_packet (s : Session) (t : PktType) (payload : list byte)
  : Session * Result (list byte) SeamError :=
  let '(e, out, r) := PacketEncoder_encode (ss_encoder s) t payload (replicate (32 + length payload + 16) x00) in
  (set_ss_encoder s e, match r with Ok n => Ok (take n out) | Err err => Err err end).

(** type(1) flags(1) len(2) stream_id(4) offset(8) data. *)
Definition stream_frame (fin : bool) (sid offset : Z) (chunk : list byte) : list byte :=
  [x01; if fin then x01 else x00] ++ to_le 2 (Z.of_nat (length chunk)) ++ to_le 4 sid ++ to_le 8 offset ++ chunk.

(** Encode a stream frame and hand the wire bytes to the ARQ under the packet
    number they were encoded with. *)
Definition emit_data (s : Session) (now : Z) (frame : list byte) : Session * Result TaggedPacket SeamError :=
  let pkt_num := peek_next_pkt_num (ss_encoder s) in
  match encode_packet s Data frame with
  | (s1, Err e) => (s1, Err e)
  | (s1, Ok out) =>
      (set_ss_arq s1 (ArqTracker_on_sent (ss_arq s1) now pkt_num out), Ok (mkTaggedPacket false out))
  end.

(** The inner [loop] of [flush] for one stream; [fuel] bounds the polls, each
    of which takes at least one byte. *)
Fixpoint drain_stream (fuel : nat) (s : Session) (now sid : Z) : Session * Result (list TaggedPacket) SeamError :=
  match fuel with
  | O => (s, Ok [])
  | S fuel' =>
      match ss_streams s !! sid with
      | None => (s, Ok [])                                   (* every id comes from the map *)
      | Some st =>
          match Stream_poll_send st (MAX_PAYLOAD - 14) with
          | None => (s, Ok [])
          | Some (st', (offset, chunk)) =>
              let s1 := set_ss_streams s (<[sid := st']> (ss_streams s)) in
              match emit_data s1 now (stream_frame false sid offset chunk) with
              | (s2, Err e) => (s2, Err e)
              | (s2, Ok p) =>
                  match drain_stream fuel' s2 now sid with
                  | (s3, Ok ps) => (s3, Ok (p :: ps))
                  | (s3, Err e) => (s3, Err e)
                  end
              end
          end
      end
  end.

Definition drain_fuel (s : Session) (sid : Z) : nat :=
  match ss_streams s !! sid with Some st => S (length (st_send_buf st)) | None => 0 end.

(** The zero-byte FIN frame after the data. *)
Definition flush_fin (s : Session) (now sid : Z) : Session * Result (list TaggedPacket) SeamError :=
  match ss_streams s !! sid with
  | None => (s, Ok [])
  | Some st =>
      if Stream_should_send_fin st then
        let s1 := set_ss_streams s (<[sid := Stream_mark_fin_flushed st]> (ss_streams s)) in
        match emit_data s1 now (stream_frame true sid (st_send_offset st) []) with
        | (s2, Ok p) => (s2, Ok [p])
        | (s2, Err e) => (s2, Err e)
        end
      else (s, Ok [])
  end.

Fixpoint flush_streams (s : Session) (now : Z) (ids : list Z) : Session * Result (list TaggedPacket) SeamError :=
  match ids with
  | [] => (s, Ok [])
  | sid :: rest =>
      match drain_stream (drain_fuel s sid) s now sid with
      | (s1, Err e) => (s1, Err e)
      | (s1, Ok ps) =>
          match flush_fin s1 now sid with
          | (s2, Err e) => (s2, Err e)
          | (s2, Ok fs) =>
              match flush_streams s2 now rest with
              | (s3, Err e) => (s3, Err e)
              | (s3, Ok qs) => (s3, Ok (ps ++ fs ++ qs))
              end
          end
      end
  end.

(** [while let Some(dg) = self.datagrams.poll_send()]. *)
Fixpoint flush_datagrams (fuel : nat) (s : Session) : Session * Result (list TaggedPacket) SeamError :=
  match fuel with
  | O => (s, Ok [])
  | S fuel' =>
      let '(d, o) := DatagramQueue_poll_send (ss_datagrams s) in
      let s1 := set_ss_datagrams s d in
      match o with
      | None => (s1, Ok [])
      | Some dg =>
          match encode_packet s1 Datagram dg with
          | (s2, Err e) => (s2, Err e)
          | (s2, Ok out) =>
              match flush_datagrams fuel' s2 with
              | (s3, Ok ps) => (s3, Ok (mkTaggedPacket false out :: ps))
              | (s3, Err e) => (s3, Err e)
              end
          end
      end
  end.

(** A control packet of one of the four kinds at the end of [flush]. *)
Definition emit_control (s : Session) (t : PktType) (payload : list byte)
  : Session * Result (list TaggedPacket) SeamError :=
  match encode_packet s t payload with
  | (s1, Ok out) => (s1, Ok [mkTaggedPacket true out])
  | (s1, Err e) => (s1, Err e)
  end.

Definition flush_ack (s : Session) (now : Z) : Session * Result (list TaggedPacket) SeamError :=
  if Session_has_pending_ack s then
    let '(a, frame) := AckRanges_build_frame (ss_ack_ranges s) now in
    emit_control (set_ss_ack_ranges s a) Ack frame
  else (s, Ok []).

(** [take()] clears the request before the packet is encoded; the local window
    moves only after. *)
Definition flush_max_data (s : Session) : Session * Result (list TaggedPacket) SeamError :=
  match ss_pending_max_data s with
  | None => (s, Ok [])
  | Some new_limit =>
      match emit_control (set_ss_pending_max_data s None) MaxData (to_be 8 new_limit) with
      | (s1, Ok ps) => (set_ss_recv_window s1 (FlowWindow_update_limit (ss_recv_window s1) new_limit), Ok ps)
      | (s1, Err e) => (s1, Err e)
      end
  end.

Definition flush_pong (s : Session) : Session * Result (list TaggedPacket) SeamError :=
  if ss_pending_pong s then emit_control (set_ss_pending_pong s false) Pong [] else (s, Ok []).

Definition flush_ping (s : Session) : Session * Result (list TaggedPacket) SeamError :=
  if ss_pending_ping s then emit_control (set_ss_pending_ping s false) Ping [] else (s, Ok []).

(** Sequencing of the stages of [flush] with [?]. *)
Definition then_flush (r : Session * Result (list TaggedPacket) SeamError)
    (k : Session -> Session * Result (list TaggedPacket) SeamError)
  : Session * Result (list TaggedPacket) SeamError :=
  match r with
  | (s, Err e) => (s, Err e)
  | (s, Ok ps) => match k s with
                  | (s', Ok qs) => (s', Ok (ps ++ qs))
                  | (s', Err e) => (s', Err e)
                  end
  end.

(** Stable sort by priority. *)
Fixpoint insert_by_priority (prio : Z -> Z) (x : Z) (l : list Z) : list Z :=
  match l with
  | [] => [x]
  | y :: l' => if prio x <=? prio y then x :: l else y :: insert_by_priority prio x l'
  end.

Definition sort_by_priority (prio : Z -> Z) (l : list Z) : list Z :=
  fold_right (insert_by_priority prio) [] l.

Definition stream_priority (s : Session) (id : Z) : Z :=
  match ss_streams s !! id with Some st => st_priority st | None => 0 end.

(** [order] is the order in which the hash map yields its keys. *)
Definition Session_flush (s : Session) (now : Z) (order : list Z)
  : Session * Result (list TaggedPacket) SeamError :=
  then_flush (then_flush (then_flush (then_flush (then_flush
    (flush_streams s now (sort_by_priority (stream_priority s) order))
    (fun s => flush_datagrams (S (length (dq_send_queue (ss_datagrams s)))) s))
    (fun s => flush_ack s now))
    flush_max_data)
    flush_pong)
    flush_ping.

(** ** Receiving *)

Definition parity_violation (s : Session) (stream_id : Z) : SeamError :=
  ProtocolViolation ("stream " ++ pretty stream_id ++ " parity matches local role " ++
    Role_debug (ss_role s) ++ "; remote must use opposite parity")%string.

Definition stream_limit_violation (s : Session) (stream_id : Z) : SeamError :=
  ProtocolViolation ("peer opened stream " ++ pretty stream_id ++ ", exceeding max_streams=" ++
    pretty (sl_max_streams (ss_limits s)))%string.

(** Receive accounting: schedule a MaxData once half the window is consumed. *)
Definition note_consumed (s : Session) (data_len : Z) : Session :=
  let consumed := wrapping_add 64 (ss_recv_consumed s) data_len in
  let s1 := set_ss_recv_consumed s consumed in
  if (fw_limit (ss_recv_window s1) <? wrapping_mul 64 consumed 2) && negb (Session_has_pending_max_data s1)
  then set_ss_pending_max_data s1 (Some (wrapping_add 64 consumed SESSION_WINDOW))
  else s1.

Definition Session_handle_data_frame (s : Session) (frame : list byte)
  : Session * Result (list SessionEvent) SeamError :=
  if (length frame <? 16)%nat then (s, Ok [])
  else
    let data_len := Z.to_nat (from_le (slice frame 2 4)) in
    let stream_id := from_le (slice frame 4 8) in
    let offset := from_le (slice frame 8 16) in
    let is_fin := negb (Z.land (byte_val (at_ frame 1)) 1 =? 0) in
    if (length frame <? 16 + data_len)%nat then (s, Ok [])
    else
      let data := slice frame 16 (16 + data_len) in
      let is_new := match ss_streams s !! stream_id with Some _ => false | None => true end in
      if is_new && (stream_id mod 2 =? Role_local_parity (ss_role s)) then (s, Err (parity_violation s stream_id))
      else if is_new && streams_full s then (s, Err (stream_limit_violation s stream_id))
      else
        let events := if is_new then [EvNewStream stream_id] else [] in
        let s1 := note_consumed s (Z.of_nat data_len) in
        let st := default (Stream_new stream_id) (ss_streams s1 !! stream_id) in
        let '(st', r) := Stream_receive st offset data is_fin in
        let s2 := set_ss_streams s1 (<[stream_id := st']> (ss_streams s1)) in
        match r with
        | Err e => (s2, Err e)
        | Ok _ =>
            (s2, Ok (events ++ [EvDataAvailable stream_id] ++
                     if is_fin || Stream_is_recv_finished st' then [EvStreamFinished stream_id] else []))
        end.

(** The two nested loops over the acknowledged ranges: total bytes and the
    last non-zero RTT sample. *)
Definition ack_one (now : Z) (acc : ArqTracker * Z * option Z) (pn : Z) : ArqTracker * Z * option Z :=
  let '(arq, total, sample) := acc in
  match ArqTracker_on_ack arq now pn with
  | (arq', Some (rtt, bytes)) =>
      (arq', wrapping_add 64 total (Z.of_nat bytes), if 0 <? rtt then Some rtt else sample)
  | (arq', None) => (arq', total, sample)
  end.

Definition ack_all_ranges (now : Z) (acc : ArqTracker * Z * option Z) (ranges : list (Z * Z))
  : ArqTracker * Z * option Z :=
  fold_left (fun acc r => fold_left (ack_one now) (seqZ (fst r) (snd r - fst r + 1)) acc) ranges acc.

Definition Session_handle_ack_frame (s : Session) (now : Z) (frame : list byte) : Session :=
  match parse_ack_frame frame with
  | None => s
  | Some (_, _, ranges) =>
      let '(arq', total, sample) := ack_all_ranges now (ss_arq s, 0, None) ranges in
      let s1 := set_ss_arq s arq' in
      if 0 <? total then
        let rtt := default (from_millis 100) sample in
        set_ss_pending_cc_ack s1
          (Some (match ss_pending_cc_ack s1 with
                 | Some (prev_bytes, prev_rtt) => (wrapping_add 64 prev_bytes total, Z.min prev_rtt rtt)
                 | None => (total, rtt)
                 end))
      else s1
  end.

Definition is_ack_eliciting (t : PktType) : bool :=
  match t with
  | Ack | Chaff | PathProbe | PathChallenge | PathResponse | MaxData | Pong => false
  | _ => true
  end.

(** Dispatch on an authenticated payload. *)
Definition Session_dispatch (s : Session) (now : Z) (t : PktType) (payload : list byte)
  : option (Session * Result (list SessionEvent) SeamError) :=
  match t with
  | Data => Some (Session_handle_data_frame s payload)
  | Ack => Some (Session_handle_ack_frame s now payload, Ok [])
  | MaxData =>
      if (8 <=? length payload)%nat then
        Some (set_ss_send_window s (FlowWindow_update_limit (ss_send_window s) (from_be (take 8 payload))), Ok [])
      else Some (s, Ok [])
  | Ping => Some (set_ss_pending_pong s true, Ok [])
  | Pong => Some (s, Ok [])
  | SessionTicketPkt => Some (s, Ok [EvSessionTicket payload])
  | Close => Some (s, Ok [EvClosed])
  | Datagram =>
      match DatagramQueue_receive (ss_datagrams s) payload with
      | None => None
      | Some d => Some (set_ss_datagrams s d, Ok [EvDatagramReceived])
      end
  | PathChallenge =>
      if (8 <=? length payload)%nat then Some (s, Ok [EvPathChallengeReceived (from_le (take 8 payload))])
      else Some (s, Ok [])
  | PathResponse =>
      if (8 <=? length payload)%nat then Some (s, Ok [EvPathResponseReceived (from_le (take 8 payload))])
      else Some (s, Ok [])
  | _ => Some (s, Ok [])
  end.

Definition Session_receive_packet (s : Session) (now : Z) (buf : list byte)
  : option (Session * Result (list SessionEvent) SeamError) :=
  let '(d, _, r) := PacketDecoder_decode (ss_decoder s) buf in
  let s1 := set_ss_decoder s d in
  match r with
  | Err e => Some (s1, Err e)
  | Ok (pkt_type, pkt_num, payload) =>
      let s2 := set_ss_ack_ranges s1
                  (AckRanges_on_received (ss_ack_ranges s1) now pkt_num (is_ack_eliciting pkt_type)) in
      Session_dispatch s2 now pkt_type payload
  end.

Definition Session_drain_cc_ack (s : Session) : Session * option (Z * Z) :=
  (set_ss_pending_cc_ack s None, ss_pending_cc_ack s).

(** [None] is the slice panic inside [Stream::read]. *)
Definition Session_read (s : Session) (stream_id : Z) (out : list byte) (max : nat)
  : option (Session * Result (list byte * nat) SeamError) :=
  match ss_streams s !! stream_id with
  | None => Some (s, Err (UnknownStream stream_id))
  | Some st =>
      match Stream_read st out max with
      | None => None
      | Some (st', out', n) => Some (set_ss_streams s (<[stream_id := st']> (ss_streams s)), Ok (out', n))
      end
  end.

Definition Session_encode_raw (s : Session) (t : PktType) (payload out : list byte)
  : Session * list byte * Result nat SeamError :=
  let '(e, out', r) := PacketEncoder_encode (ss_encoder s) t payload out in
  (set_ss_encoder s e, out', r).

Definition Session_arq_in_flight (s : Session) : nat := ArqTracker_in_flight_count (ss_arq s).

Definition Session_srtt_us (s : Session) : Z := as_micros_u64 (ArqTracker_srtt (ss_arq s)).

Definition Session_drain_retransmits (s : Session) (now : Z) : Session * list (Z * list byte) :=
  let '(a, l) := ArqTracker_drain_expired (ss_arq s) now in (set_ss_arq s a, l).

(** ** Reachable sessions *)

Inductive SessionOp : Type :=
  | OpOpen (priority : Z)
  | OpSendDatagram (data : list byte)
  | OpRecvDatagram
  | OpSend (sid : Z) (data : list byte)
  | OpFinish (sid : Z)
  | OpPing
  | OpFlush (now : Z) (order : list Z)
  | OpReceive (now : Z) (buf : list byte)
  | OpRead (sid : Z) (max : nat)
  | OpEncodeRaw (t : PktType) (payload out : list byte)
  | OpDrainCc
  | OpDrainRetransmits (now : Z).

Definition session_step (s : Session) (op : SessionOp) : option Session :=
  match op with
  | OpOpen p => Some (fst (Session_try_open_stream_with_priority s p))
  | OpSendDatagram d => option_map fst (Session_send_datagram s d)
  | OpRecvDatagram => Some (fst (Session_recv_datagram s))
  | OpSend sid d => Some (fst (Session_send s sid d))
  | OpFinish sid => Some (Session_finish_stream s sid)
  | OpPing => Some (Session_ping s)
  | OpFlush now order => Some (fst (Session_flush s now order))
  | OpReceive now buf => option_map fst (Session_receive_packet s now buf)
  | OpRead sid max => option_map fst (Session_read s sid [] max)
  | OpEncodeRaw t p out => Some (fst (fst (Session_encode_raw s t p out)))
  | OpDrainCc => Some (fst (Session_drain_cc_ack s))
  | OpDrainRetransmits now => Some (fst (Session_drain_retransmits s now))
  end.

(** A session reached from its initial state by any sequence of operations,
    with arbitrary bytes received. *)
Inductive reachable (s0 : Session) : Session -> Prop :=
  | reach_init : reachable s0 s0
  | reach_step s op s' : reachable s0 s -> session_step s op = Some s' -> reachable s0 s'.

(** ** Stream bookkeeping invariant *)

Section Invariant.
Context (limits : SessionLimits) (role : Role).
Context (Hmax : 0 <= sl_max_streams limits < 2 ^ 31 - 2).

(** The fields of a stream no session operation changes. *)
Definition stream_ok (id : Z) (st : Stream) : Prop :=
  st_id st = id /\ st_send_max_data st = DEFAULT_WINDOW /\ st_recv_max_data st = DEFAULT_WINDOW.

Definition first_id : Z := match role with Client => 1 | Server => 2 end.

Record sess_inv (s : Session) : Prop := {
  sv_limits : ss_limits s = limits;
  sv_role : ss_role s = role;
  sv_size : Z.of_nat (size (ss_streams s)) <= sl_max_streams limits;
  sv_streams : forall id st, ss_streams s !! id = Some st -> stream_ok id st;
  sv_local : forall id st, ss_streams s !! id = Some st -> id mod 2 = Role_local_parity role ->
               id < ss_next_stream_id s;
  sv_next : first_id <= ss_next_stream_id s <= first_id + 2 * Z.of_nat (size (ss_streams s));
  sv_parity : ss_next_stream_id s mod 2 = Role_local_parity role
}.

Definition same_core (s s' : Session) : Prop :=
  ss_streams s' = ss_streams s /\ ss_next_stream_id s' = ss_next_stream_id s /\
  ss_limits s' = ss_limits s /\ ss_role s' = ss_role s.

Lemma same_core_refl s : same_core s s.
Proof. done. Qed.

Lemma same_core_trans s1 s2 s3 : same_core s1 s2 -> same_core s2 s3 -> same_core s1 s3.
Proof. unfold same_core. intros (? & ? & ? & ?) (? & ? & ? & ?). split_and!; congruence. Qed.

Lemma inv_same s s' : same_core s s' -> sess_inv s -> sess_inv s'.
Proof.
  intros (E1 & E2 & E3 & E4) [H1 H2 H3 H4 H5 H6 H7].
  constructor; rewrite ?E1, ?E2, ?E3, ?E4; done.
Qed.

Lemma inv_update s sid st st' : sess_inv s -> ss_streams s !! sid = Some st -> stream_ok sid st' ->
  sess_inv (set_ss_streams s (<[sid := st']> (ss_streams s))).
Proof.
  intros [H1 H2 H3 H4 H5 H6 H7] Hst Hok.
  assert (size (<[sid := st']> (ss_streams s)) = size (ss_streams s)) as Hsz.
  { apply map_size_insert_Some. by exists st. }
  constructor; simpl; rewrite ?Hsz; try done.
  - intros id x Hx. apply lookup_insert_Some in Hx as [[<- <-]|[_ Hx]]; [done|by apply H4].
  - intros id x Hx Hp. apply lookup_insert_Some in Hx as [[<- <-]|[_ Hx]]; [|by apply (H5 id x)].
    by apply (H5 sid st).
Qed.

(** Stream operations keep the fixed fields. *)
Lemma write_ok id st data st' o : stream_ok id st -> Stream_write st data = Ok (st', o) -> stream_ok id st'.
Proof.
  intros H. unfold Stream_write. repeat split_if; try done. by intros [= <- _].
Qed.

Lemma poll_ok id st n st' c : stream_ok id st -> Stream_poll_send st n = Some (st', c) -> stream_ok id st'.
Proof. intros H. unfold Stream_poll_send. split_if; [done|]. by intros [= <- _]. Qed.

Lemma receive_ok id st o d f : stream_ok id st -> stream_ok id (fst (Stream_receive st o d f)).
Proof.
  intros H. unfold Stream_receive. destruct d as [|b d]; [by destruct f|]. destruct f; by repeat split_if.
Qed.

Lemma read_ok id st out n st' r : stream_ok id st -> Stream_read st out n = Some (st', out, r) \/
  (exists o, Stream_read st out n = Some (st', o, r)) -> stream_ok id st'.
Proof.
  intros H [E|[o E]]; unfold Stream_read in E;
    destruct (read_loop _ _ _ _ _) as [[[[b f] g] h]|]; try done; by injection E as <- _ _.
Qed.

Lemma inv_new_stream s id st : sess_inv s -> ss_streams s !! id = None -> stream_ok id st ->
  Z.of_nat (size (ss_streams s)) < sl_max_streams limits -> id mod 2 <> Role_local_parity role ->
  sess_inv (set_ss_streams s (<[id := st]> (ss_streams s))).
Proof.
  intros [H1 H2 H3 H4 H5 H6 H7] Hn Hok Hlt Hpar.
  assert (size (<[id := st]> (ss_streams s)) = S (size (ss_streams s))) as Hsz by (by apply map_size_insert_None).
  constructor; simpl; rewrite ?Hsz; try done; try lia.
  - intros i x Hx. apply lookup_insert_Some in Hx as [[<- <-]|[_ Hx]]; [done|by apply H4].
  - intros i x Hx Hp. apply lookup_insert_Some in Hx as [[<- <-]|[_ Hx]]; [done|by apply (H5 i x)].
Qed.

Lemma not_full s : sess_inv s -> streams_full s = false ->
  Z.of_nat (size (ss_streams s)) < sl_max_streams limits.
Proof.
  intros [H1 _ H3 _ _ _ _]. unfold streams_full. rewrite H1, wrap_small by (unfold is_u; lia).
  intros E. cmp_facts. lia.
Qed.

Lemma next_fresh s : sess_inv s -> ss_streams s !! ss_next_stream_id s = None.
Proof.
  intros [_ _ _ _ H5 _ H7]. destruct (ss_streams s !! _) as [st|] eqn:E; [|done].
  pose proof (H5 _ _ E H7). lia.
Qed.

Lemma inv_open s p : sess_inv s -> sess_inv (fst (Session_try_open_stream_with_priority s p)).
Proof.
  intros Hi. unfold Session_try_open_stream_with_priority. destruct (streams_full s) eqn:Ef; [done|]. simpl.
  pose proof (not_full s Hi Ef) as Hlt. pose proof (next_fresh s Hi) as Hfresh.
  destruct Hi as [H1 H2 H3 H4 H5 H6 H7]. unfold first_id in *.
  assert (wrapping_add 32 (ss_next_stream_id s) 2 = ss_next_stream_id s + 2) as Hw.
  { apply wrap_small. unfold is_u. destruct role; lia. }
  assert (forall st, size (<[ss_next_stream_id s := st]> (ss_streams s)) = S (size (ss_streams s))) as Hsz
    by (intros; by apply map_size_insert_None).
  constructor; simpl; rewrite ?Hsz, ?Hw; try done; unfold first_id; try lia.
  - intros i x Hx. apply lookup_insert_Some in Hx as [[<- <-]|[_ Hx]]; [done|by apply H4].
  - intros i x Hx Hp. apply lookup_insert_Some in Hx as [[<- <-]|[_ Hx]]; [lia|].
    pose proof (H5 i x Hx Hp). lia.
  - rewrite Z.add_mod, H7 by lia. by destruct role.
Qed.

(** *** Flushing *)

Lemma encode_packet_same s t p : same_core s (fst (encode_packet s t p)).
Proof. unfold encode_packet. destruct (PacketEncoder_encode _ _ _ _) as [[e o] r]. done. Qed.

Lemma emit_data_same s now f : same_core s (fst (emit_data s now f)).
Proof.
  unfold emit_data. pose proof (encode_packet_same s Data f) as H.
  destruct (encode_packet s Data f) as [s1 [o|e]]; done.
Qed.

Lemma emit_control_same s t p : same_core s (fst (emit_control s t p)).
Proof.
  unfold emit_control. pose proof (encode_packet_same s t p) as H.
  destruct (encode_packet s t p) as [s1 [o|e]]; done.
Qed.

Lemma drain_stream_inv fuel : forall s now sid, sess_inv s -> sess_inv (fst (drain_stream fuel s now sid)).
Proof.
  induction fuel as [|fuel IH]; intros s now sid Hi; cbn [drain_stream]; [done|].
  destruct (ss_streams s !! sid) as [st|] eqn:Es; [|done].
  destruct (Stream_poll_send st _) as [[st' [o c]]|] eqn:Ep; [|done].
  assert (sess_inv (set_ss_streams s (<[sid := st']> (ss_streams s)))) as Hi1.
  { apply (inv_update s sid st); [done|done|]. eapply poll_ok; [|exact Ep]. by apply (sv_streams s Hi). }
  pose proof (emit_data_same (set_ss_streams s (<[sid := st']> (ss_streams s))) now (stream_frame false sid o c)) as Hsame.
  destruct (emit_data _ _ _) as [s2 [p|e]]; simpl in Hsame.
  - pose proof (IH s2 now sid (inv_same _ _ Hsame Hi1)) as H2.
    destruct (drain_stream fuel s2 now sid) as [s3 [ps|e]]; done.
  - by apply (inv_same _ _ Hsame).
Qed.

Lemma flush_fin_inv s now sid : sess_inv s -> sess_inv (fst (flush_fin s now sid)).
Proof.
  intros Hi. unfold flush_fin. destruct (ss_streams s !! sid) as [st|] eqn:Es; [|done].
  destruct (Stream_should_send_fin st); [|done].
  pose proof (emit_data_same (set_ss_streams s (<[sid := Stream_mark_fin_flushed st]> (ss_streams s))) now
    (stream_frame true sid (st_send_offset st) [])) as Hsame.
  assert (sess_inv (set_ss_streams s (<[sid := Stream_mark_fin_flushed st]> (ss_streams s)))) as Hi1.
  { apply (inv_update s sid st); [done|done|]. exact (sv_streams s Hi sid st Es). }
  destruct (emit_data _ _ _) as [s2 [p|e]]; simpl in *; by apply (inv_same _ _ Hsame).
Qed.

Lemma flush_streams_inv ids : forall s now, sess_inv s -> sess_inv (fst (flush_streams s now ids)).
Proof.
  induction ids as [|sid ids IH]; intros s now Hi; cbn [flush_streams]; [done|].
  pose proof (drain_stream_inv (drain_fuel s sid) s now sid Hi) as H1.
  destruct (drain_stream _ s now sid) as [s1 [ps|e]]; [|done].
  pose proof (flush_fin_inv s1 now sid H1) as H2. destruct (flush_fin s1 now sid) as [s2 [fs|e]]; [|done].
  pose proof (IH s2 now H2) as H3. by destruct (flush_streams s2 now ids) as [s3 [qs|e]].
Qed.

Lemma flush_datagrams_same fuel : forall s, same_core s (fst (flush_datagrams fuel s)).
Proof.
  induction fuel as [|fuel IH]; intros s; cbn [flush_datagrams]; [done|].
  destruct (DatagramQueue_poll_send _) as [d [dg|]]; [|done].
  pose proof (encode_packet_same (set_ss_datagrams s d) Datagram dg) as H.
  destruct (encode_packet _ _ _) as [s2 [out|e]]; simpl in H; [|done].
  pose proof (IH s2) as H2. destruct (flush_datagrams fuel s2) as [s3 [ps|e]]; simpl in *;
    by apply (same_core_trans _ s2).
Qed.

Lemma flush_ack_same s now : same_core s (fst (flush_ack s now)).
Proof.
  unfold flush_ack. destruct (Session_has_pending_ack s); [|done].
  destruct (AckRanges_build_frame _ _) as [a f].
  exact (emit_control_same (set_ss_ack_ranges s a) Ack f).
Qed.

Lemma flush_max_data_same s : same_core s (fst (flush_max_data s)).
Proof.
  unfold flush_max_data. destruct (ss_pending_max_data s) as [l|]; [|done].
  pose proof (emit_control_same (set_ss_pending_max_data s None) MaxData (to_be 8 l)) as H.
  by destruct (emit_control _ _ _) as [s1 [ps|e]].
Qed.

Lemma flush_pong_same s : same_core s (fst (flush_pong s)).
Proof.
  unfold flush_pong. destruct (ss_pending_pong s); [|done].
  exact (emit_control_same (set_ss_pending_pong s false) Pong []).
Qed.

Lemma flush_ping_same s : same_core s (fst (flush_ping s)).
Proof.
  unfold flush_ping. destruct (ss_pending_ping s); [|done].
  exact (emit_control_same (set_ss_pending_ping s false) Ping []).
Qed.

Lemma then_flush_inv r k : sess_inv (fst r) -> (forall s, same_core s (fst (k s))) -> sess_inv (fst (then_flush r k)).
Proof.
  intros Hi Hk. destruct r as [s [ps|e]]; simpl in *; [|done]. pose proof (Hk s) as H.
  destruct (k s) as [s' [qs|e]]; simpl in *; by apply (inv_same s).
Qed.

Lemma flush_inv s now order : sess_inv s -> sess_inv (fst (Session_flush s now order)).
Proof.
  intros Hi. unfold Session_flush.
  repeat apply then_flush_inv.
  - by apply flush_streams_inv.
  - intros s'. apply flush_datagrams_same.
  - intros s'. apply flush_ack_same.
  - apply flush_max_data_same.
  - apply flush_pong_same.
  - apply flush_ping_same.
Qed.

(** *** Receiving *)

Lemma note_consumed_same s n : same_core s (note_consumed s n).
Proof. unfold note_consumed. by split_if. Qed.

Lemma handle_data_inv s frame : sess_inv s -> sess_inv (fst (Session_handle_data_frame s frame)).
Proof.
  intros Hi. unfold Session_handle_data_frame.
  destruct (_ <? 16)%nat; [done|]. set (n := Z.to_nat _). set (sid := from_le (slice frame 4 8)).
  destruct (_ <? 16 + n)%nat; [done|].
  pose proof (note_consumed_same s (Z.of_nat n)) as Hsame. pose proof Hsame as (Est & _).
  pose proof (inv_same _ _ Hsame Hi) as Hi1. rewrite Est.
  set (fin := negb _). set (data := slice frame 16 _). set (off := from_le (slice frame 8 16)).
  destruct (ss_streams s !! sid) as [st|] eqn:Es.
  - simpl. destruct (Stream_receive st off data fin) as [st' r] eqn:Er.
    assert (sess_inv (set_ss_streams (note_consumed s (Z.of_nat n)) (<[sid := st']> (ss_streams s)))) as Hg.
    { rewrite <- Est. apply (inv_update _ sid st); [done|by rewrite Est|].
      change st' with (fst (st', r)). rewrite <- Er. apply receive_ok. by apply (sv_streams s Hi). }
    by destruct r.
  - cbn [andb]. destruct (_ =? Role_local_parity _) eqn:Ep; [done|]. destruct (streams_full s) eqn:Ef; [done|].
    cbn [default]. destruct (Stream_receive _ off data fin) as [st' r] eqn:Er.
    assert (sess_inv (set_ss_streams (note_consumed s (Z.of_nat n)) (<[sid := st']> (ss_streams s)))) as Hg.
    { rewrite <- Est. apply inv_new_stream; rewrite ?Est; try done.
      - change st' with (fst (st', r)). rewrite <- Er. by apply receive_ok.
      - by apply not_full.
      - cmp_facts. by rewrite <- (sv_role s Hi). }
    by destruct r.
Qed.

Lemma handle_ack_same s now frame : same_core s (Session_handle_ack_frame s now frame).
Proof.
  unfold Session_handle_ack_frame. destruct (parse_ack_frame frame) as [[[l d] rs]|]; [|done].
  destruct (ack_all_ranges _ _ _) as [[a t] sm]. by split_if.
Qed.

Lemma dispatch_inv s now t p s' r : sess_inv s -> Session_dispatch s now t p = Some (s', r) -> sess_inv s'.
Proof.
  intros Hi H. destruct (decide (t = Data)) as [->|Hn].
  { injection H as H. pose proof (handle_data_inv s p Hi) as H1. by rewrite H in H1. }
  destruct t; try done; simpl in H;
    repeat match type of H with
    | context [if ?b then _ else _] => destruct b
    | context [match ?x with Some _ => _ | None => _ end] => destruct x
    end; try done; injection H as <- _; try done;
    (apply (inv_same s); [first [apply handle_ack_same|done]|done]).
Qed.

Lemma session_step_inv s op s' : sess_inv s -> session_step s op = Some s' -> sess_inv s'.
Proof.
  intros Hi Hs. destruct op; cbn [session_step] in Hs.
  - injection Hs as <-. by apply inv_open.
  - unfold Session_send_datagram in Hs. destruct (DatagramQueue_send _ _) as [[d [u|n]]|]; [| |done];
      injection Hs as <-; by apply (inv_same s).
  - unfold Session_recv_datagram in Hs. destruct (DatagramQueue_recv _) as [d o].
    injection Hs as <-. by apply (inv_same s).
  - injection Hs as <-. unfold Session_send. destruct (FlowWindow_reserve _ _) as [w|e]; [|done].
    cbn [ss_streams set_ss_send_window]. destruct (ss_streams s !! sid) as [st|] eqn:Es; [|by apply (inv_same s)].
    destruct (Stream_write st data) as [[st' o]|e] eqn:Ew; [|by apply (inv_same s)]. simpl.
    apply (inv_update (set_ss_send_window s w) sid st st'); [by apply (inv_same s)|done|].
    eapply write_ok; [|exact Ew]. by apply (sv_streams s Hi).
  - injection Hs as <-. unfold Session_finish_stream. destruct (ss_streams s !! sid) as [st|] eqn:Es; [|done].
    apply (inv_update s sid st); [done|done|]. exact (sv_streams s Hi sid st Es).
  - injection Hs as <-. by apply (inv_same s).
  - injection Hs as <-. by apply flush_inv.
  - unfold Session_receive_packet in Hs. destruct (PacketDecoder_decode _ _) as [[d b] [[[t n] p]|e]].
    + destruct (Session_dispatch _ _ _ _) as [[s2 r]|] eqn:Ed; [|done]. simpl in Hs. injection Hs as <-.
      eapply dispatch_inv; [|exact Ed]. by apply (inv_same s).
    + injection Hs as <-. by apply (inv_same s).
  - unfold Session_read in Hs. destruct (ss_streams s !! sid) as [st|] eqn:Es; [|by injection Hs as <-].
    destruct (Stream_read st [] max) as [[[st' o] n]|] eqn:Er; [|done]. injection Hs as <-.
    apply (inv_update s sid st); [done|done|]. eapply read_ok; [by apply (sv_streams s Hi)|]. right. eauto.
  - injection Hs as <-. unfold Session_encode_raw. destruct (PacketEncoder_encode _ _ _ _) as [[e o] r].
    by apply (inv_same s).
  - injection Hs as <-. by apply (inv_same s).
  - injection Hs as <-. by apply (inv_same s).
Qed.

Lemma session_reachable_inv id enc dec s :
  reachable (Session_with_limits id role enc dec limits) s -> sess_inv s.
Proof.
  induction 1 as [|s op s' _ IH Hs]; [|by eapply session_step_inv].
  constructor; simpl; try done; unfold first_id; rewrite ?map_size_empty; destruct role; simpl; try lia; done.
Qed.
End Invariant.
End SessionModel.
