(* ===== verification/Delivery.v ===== *)
(** * Sessions end to end

    The properties of src/src/session/mod.rs that cross its components: the
    stream frames of [flush] reach the peer's stream through the packet codec
    (src/src/crypto), whatever the network reorders or duplicates. *)

From Stdlib Require Import ZArith Lia Bool List String Sorting.Sorted.
From Stdlib Require Import Strings.Byte.
From stdpp Require Import base list numbers option gmap.
From S2P Require Import Prelude Packet Replay Crypto TestCrypto PacketCodec Ordered Ack Stream Flow.
From S2P Require Import Datagram Arq Session.

Open Scope Z_scope.

Section Delivery.
Context {C : Crypto} {L : CryptoLaws C}.

(** ** Sealed packets *)

(** [wire] is what an encoder with these keys emits for packet [num]. *)
Definition sealed (keys : PacketKeys) (sess num : Z) (t : PktType) (p wire : list byte) : Prop :=
  exists ct,
    encrypt_in_place (make_cipher (cipher_suite keys) (enc_key keys)) (build_nonce (nonce_base keys) num)
      (build_header t sess num) p = Ok ct /\
    length ct = (length p + 16)%nat /\
    wire = apply_header_protection (hp_key keys) (build_header t sess num) (slice ct 0 16) ++ ct.

Lemma encode_packet_sealed s t p :
  keys_wf (pe_keys (ss_encoder s)) -> Z.of_nat (length p) <= 65000 ->
  exists wire, encode_packet s t p =
    (set_ss_encoder s (mkPacketEncoder (pe_keys (ss_encoder s)) (pe_session_id (ss_encoder s))
       (wrapping_add 64 (pe_next_pkt_num (ss_encoder s)) 1)), Ok wire) /\
    sealed (pe_keys (ss_encoder s)) (pe_session_id (ss_encoder s)) (pe_next_pkt_num (ss_encoder s)) t p wire.
Proof.
  intros Hk Hp. unfold encode_packet. set (out := replicate _ x00).
  assert (length out = (32 + length p + 16)%nat) as Hout by apply length_replicate.
  destruct (encode_total (ss_encoder s) t p out Hk) as (e' & out' & He);
    [unfold AEAD_MAX_LEN; lia|unfold encode_buf_len, HEADER_LEN, TAG_LEN; lia|].
  destruct (encode_Ok _ _ _ _ _ _ _ Hk He) as (ct & _ & _ & Hc & Hlc & Ho & He'). rewrite He.
  eexists. split; [by rewrite He'|]. exists ct. split_and!; [done|done|].
  rewrite Ho, app_assoc, take_app_length'; [done|].
  rewrite length_app, length_apply_header_protection, length_build_header, Hlc.
  unfold encode_buf_len, HEADER_LEN, TAG_LEN. lia.
Qed.

Lemma sealed_wire_num d sess num t p wire :
  is_u64 num -> sealed (pd_keys d) sess num t p wire -> wire_num d wire = num.
Proof.
  intros Hn (ct & _ & Hl & ->). unfold wire_num, wire_header, HEADER_LEN.
  set (hp := apply_header_protection _ (build_header _ _ _) _).
  assert (length hp = 32%nat) as Hhp.
  { unfold hp. rewrite length_apply_header_protection. apply length_build_header. }
  assert (slice (hp ++ ct) 0 32 = hp) as ->. { rewrite slice_app_l by lia. by apply slice_all. }
  assert (slice (hp ++ ct) 32 (32 + 16) = slice ct 0 16) as ->.
  { rewrite slice_app_r by lia. by rewrite Hhp. }
  unfold hp. rewrite apply_header_protection_involutive. by apply build_header_num.
Qed.

(** A decoder that accepted exactly the numbers [seen], with floor [fl]. *)
Definition decoder_at (d : PacketDecoder) (seen : gset Z) (fl : Z) : Prop :=
  rw_wf (pd_replay d) /\ rw_abs (pd_replay d) (mkAntiReplay seen fl).

Lemma decode_sealed d sess num t p wire seen :
  is_u64 num -> num < 1024 -> decoder_at d seen 0 ->
  sealed (pd_keys d) sess num t p wire -> Z.of_nat (length p) <= 65000 ->
  if bool_decide (num ∈ seen)
  then exists buf e, PacketDecoder_decode d wire = (d, buf, Err e)
  else exists d' buf, PacketDecoder_decode d wire = (d', buf, Ok (t, num, p)) /\
         pd_keys d' = pd_keys d /\ decoder_at d' ({[num]} ∪ seen) 0.
Proof.
  intros Hn H1024 [Hwf Habs] Hs Hp. pose proof (sealed_wire_num d _ _ _ _ _ Hn Hs) as Hw.
  case_bool_decide as Hin.
  - destruct (PacketDecoder_decode d wire) as [[d' buf] r] eqn:E.
    pose proof (decode_spec _ _ _ _ _ _ Hwf Habs E) as H. destruct r as [[[t' n'] p']|e].
    + destruct H as (-> & Hni & _). rewrite Hw in Hni. done.
    + subst. eauto.
  - destruct Hs as (ct & Hc & Hl & ->).
    pose proof (rw_check_refines _ _ num Hwf Habs) as Hchk.
    pose proof (rw_commit_refines _ _ num Hwf Hn Habs) as [Hcom Habs'].
    pose proof (rw_commit_wf _ _ Hwf Hn) as Hwf'. unfold is_u in Hn.
    unfold AntiReplay_accept in *. simpl in *.
    rewrite (proj2 (Z.ltb_ge num 0)) in * by lia. rewrite bool_decide_false in * by done. simpl in *.
    destruct (decode_packet d t sess num p ct) as [buf' Hd]; [done|lia| |done|done| |].
    { rewrite length_app, length_apply_header_protection, length_build_header. unfold MAX_PACKET_LEN. lia. }
    { by apply decrypt_encrypt. }
    exists (mkPacketDecoder (pd_keys d) (fst (ReplayWindow_commit (pd_replay d) num))), buf'.
    split_and!; [done|done|]. split; [done|]. simpl.
    replace (Z.max 0 (num - 1023)) with 0 in Habs' by lia. done.
Qed.

(** ** Stream frames *)

Lemma frame_fields fin sid off chunk :
  is_u32 sid -> is_u64 off -> Z.of_nat (length chunk) < 2 ^ 16 ->
  let f := stream_frame fin sid off chunk in
  length f = (16 + length chunk)%nat /\ from_le (slice f 2 4) = Z.of_nat (length chunk) /\
  from_le (slice f 4 8) = sid /\ from_le (slice f 8 16) = off /\
  at_ f 1 = (if fin then x01 else x00) /\ slice f 16 (16 + length chunk) = chunk.
Proof.
  intros Hs Ho Hc f. unfold f, stream_frame.
  set (h := [x01; if fin then x01 else x00]). set (b2 := to_le 2 _). set (b4 := to_le 4 sid). set (b8 := to_le 8 off).
  assert (length h = 2%nat) as Lh by done.
  assert (length b2 = 2%nat) as L2 by apply length_to_le. assert (length b4 = 4%nat) as L4 by apply length_to_le.
  assert (length b8 = 8%nat) as L8 by apply length_to_le.
  assert (from_le b2 = Z.of_nat (length chunk)) as F2 by (apply from_le_to_le_small; unfold is_u; lia).
  assert (from_le b4 = sid) as F4 by (by apply from_le_to_le_small).
  assert (from_le b8 = off) as F8 by (by apply from_le_to_le_small).
  clearbody b2 b4 b8. split_and!.
  - rewrite !length_app. lia.
  - rewrite (slice_at h b2) by lia. done.
  - rewrite (app_assoc h b2), (slice_at (h ++ b2) b4) by (rewrite ?length_app; lia). done.
  - rewrite (app_assoc h b2), (app_assoc _ b4), (slice_at _ b8) by (rewrite ?length_app; lia). done.
  - done.
  - rewrite (app_assoc h b2), (app_assoc _ b4), (app_assoc _ b8).
    rewrite <- (app_nil_r chunk) at 1. apply slice_at; rewrite ?length_app; lia.
Qed.

(** What a stream frame makes the session report. *)
Definition frame_events (s : Session) (fin : bool) (sid : Z) (st' : Stream) : list SessionEvent :=
  match ss_streams s !! sid with Some _ => [] | None => [EvNewStream sid] end ++ [EvDataAvailable sid] ++
  (if fin || Stream_is_recv_finished st' then [EvStreamFinished sid] else []).

(** Handling a frame built by [flush] is delivering its chunk to the stream. *)
Lemma handle_stream_frame_events s fin sid off chunk :
  is_u32 sid -> is_u64 off -> Z.of_nat (length chunk) < 2 ^ 16 ->
  match ss_streams s !! sid with
  | Some _ => True
  | None => sid mod 2 <> Role_local_parity (ss_role s) /\ streams_full s = false
  end ->
  let '(st', r) := Stream_receive (default (Stream_new sid) (ss_streams s !! sid)) off chunk fin in
  Session_handle_data_frame s (stream_frame fin sid off chunk) =
    (set_ss_streams (note_consumed s (Z.of_nat (length chunk))) (<[sid := st']> (ss_streams s)),
     match r with Ok _ => Ok (frame_events s fin sid st') | Err e => Err e end).
Proof.
  intros Hs Ho Hc Hnew. destruct (frame_fields fin sid off chunk Hs Ho Hc) as (Hl & F2 & F4 & F8 & F1 & Fd).
  destruct (Stream_receive _ off chunk fin) as [st' r] eqn:Er.
  unfold Session_handle_data_frame. rewrite F2, F4, F8, F1, Nat2Z.id, Hl, Fd.
  destruct (_ <? 16)%nat eqn:E1; cmp_facts; [lia|]. destruct (_ <? 16 + _)%nat eqn:E2; cmp_facts; [lia|].
  rewrite (proj1 (note_consumed_same s (Z.of_nat (length chunk)))).
  assert (negb (Z.land (byte_val (if fin then x01 else x00)) 1 =? 0) = fin) as -> by (by destruct fin).
  unfold frame_events. destruct (ss_streams s !! sid) as [st|] eqn:Es; cbn [andb default] in *.
  - rewrite Er. by destruct r.
  - destruct Hnew as [Hp Hf]. apply Z.eqb_neq in Hp. rewrite Hp, Hf, Er. by destruct r.
Qed.

Lemma handle_stream_frame s fin sid off chunk :
  is_u32 sid -> is_u64 off -> Z.of_nat (length chunk) < 2 ^ 16 ->
  match ss_streams s !! sid with
  | Some _ => True
  | None => sid mod 2 <> Role_local_parity (ss_role s) /\ streams_full s = false
  end ->
  let '(st', r) := Stream_receive (default (Stream_new sid) (ss_streams s !! sid)) off chunk fin in
  exists evs, Session_handle_data_frame s (stream_frame fin sid off chunk) =
    (set_ss_streams (note_consumed s (Z.of_nat (length chunk))) (<[sid := st']> (ss_streams s)),
     match r with Ok _ => Ok evs | Err e => Err e end).
Proof.
  intros Hs Ho Hc Hnew. pose proof (handle_stream_frame_events s fin sid off chunk Hs Ho Hc Hnew) as He.
  destruct (Stream_receive _ off chunk fin) as [st' r]. by eexists.
Qed.

(** ** The sender: chunks and their packets *)

Definition CHUNK : nat := MAX_PAYLOAD - 14.

(** The payloads [poll_send] cuts a buffer into. *)
Fixpoint chunk_list (fuel : nat) (l : list byte) : list (list byte) :=
  match fuel with
  | O => []
  | S fuel' => match l with
               | [] => []
               | _ => take (Nat.min (length l) CHUNK) l :: chunk_list fuel' (drop (Nat.min (length l) CHUNK) l)
               end
  end.

Lemma chunk_list_spec fuel : forall l, (length l < fuel)%nat ->
  concat (chunk_list fuel l) = l /\ Forall (fun c => c <> [] /\ Z.of_nat (length c) <= 1386) (chunk_list fuel l) /\
  Z.of_nat (length (chunk_list fuel l)) <= (Z.of_nat (length l) + 1385) / 1386.
Proof.
  induction fuel as [|fuel IH]; intros l Hl; [lia|]. cbn [chunk_list]. destruct l as [|b l]; [done|].
  set (x := b :: l) in *. set (n := Nat.min (length x) CHUNK).
  assert (1 <= n <= 1386)%nat as Hn. { unfold n, CHUNK, MAX_PAYLOAD, x. simpl. lia. }
  destruct (IH (drop n x)) as (H1 & H2 & H3). { rewrite length_drop. lia. }
  split_and!.
  - cbn [concat]. by rewrite H1, take_drop.
  - constructor; [|done]. split; [|rewrite length_take; lia]. intros E.
    apply (f_equal length) in E. rewrite length_take in E. cbn [length] in E.
    assert (1 <= length x)%nat by (unfold x; simpl; lia). lia.
  - cbn [length]. rewrite length_drop in H3. rewrite Nat2Z.inj_succ.
    set (q := length (chunk_list fuel (drop n x))) in *. clearbody q.
    assert (n = length x \/ n = 1386%nat) as [E|E] by (unfold n, CHUNK, MAX_PAYLOAD; lia).
    + rewrite E, Nat.sub_diag in H3. change (Z.of_nat 0 + 1385) with 1385 in H3. change (1385 / 1386) with 0 in H3.
      assert (1 <= (Z.of_nat (length x) + 1385) / 1386) by (apply Z.div_le_lower_bound; lia). lia.
    + rewrite E in H3. rewrite Nat2Z.inj_sub in H3 by (unfold n in *; lia).
      replace (Z.of_nat (length x) + 1385) with (Z.of_nat (length x) - Z.of_nat 1386 + 1385 + 1 * 1386) by lia.
      rewrite Z.div_add by lia. lia.
Qed.

(** Packet [n + i] carries chunk [i] at its stream offset. *)
Fixpoint sealed_chunks (keys : PacketKeys) (sess sid n off : Z) (cs : list (list byte)) (ps : list TaggedPacket) : Prop :=
  match cs, ps with
  | [], [] => True
  | c :: cs', p :: ps' =>
      sealed keys sess n Data (stream_frame false sid off c) (tp_bytes p) /\
      sealed_chunks keys sess sid (n + 1) (off + Z.of_nat (length c)) cs' ps'
  | _, _ => False
  end.

Lemma sealed_chunks_lookup keys sess sid cs : forall n off ps i c,
  sealed_chunks keys sess sid n off cs ps -> cs !! i = Some c ->
  exists p, ps !! i = Some p /\
    sealed keys sess (n + Z.of_nat i) Data
      (stream_frame false sid (off + Z.of_nat (off_of cs i)) c) (tp_bytes p).
Proof.
  induction cs as [|c0 cs IH]; intros n off [|p0 ps] i c Hs Hi; try done.
  destruct Hs as [H0 Hs]. destruct i as [|i].
  - injection Hi as <-. exists p0. split; [done|]. simpl. by rewrite !Z.add_0_r.
  - simpl in Hi. destruct (IH _ _ _ _ _ Hs Hi) as (p & Hp & Hse). exists p. split; [done|].
    replace (n + Z.of_nat (S i)) with (n + 1 + Z.of_nat i) by lia.
    replace (off + Z.of_nat (off_of (c0 :: cs) (S i)))
      with (off + Z.of_nat (length c0) + Z.of_nat (off_of cs i)); [done|].
    unfold off_of. cbn [take concat]. rewrite length_app. lia.
Qed.

Lemma sealed_chunks_length keys sess sid cs : forall n off ps,
  sealed_chunks keys sess sid n off cs ps -> length ps = length cs.
Proof.
  induction cs as [|c cs IH]; intros n off [|p ps] H; try done. simpl. f_equal. by eapply IH, H.
Qed.

(** The fields of the session that [emit_data] leaves alone. *)
Lemma emit_data_sealed s now frame :
  keys_wf (pe_keys (ss_encoder s)) -> Z.of_nat (length frame) <= 65000 ->
  exists wire, emit_data s now frame =
    (set_ss_arq (set_ss_encoder s (mkPacketEncoder (pe_keys (ss_encoder s)) (pe_session_id (ss_encoder s))
       (wrapping_add 64 (pe_next_pkt_num (ss_encoder s)) 1)))
       (ArqTracker_on_sent (ss_arq s) now (pe_next_pkt_num (ss_encoder s)) wire),
     Ok (mkTaggedPacket false wire)) /\
    sealed (pe_keys (ss_encoder s)) (pe_session_id (ss_encoder s)) (pe_next_pkt_num (ss_encoder s)) Data frame wire.
Proof.
  intros Hk Hl. destruct (encode_packet_sealed s Data frame Hk Hl) as (wire & He & Hs).
  exists wire. split; [|done]. unfold emit_data. by rewrite He.
Qed.

(** Everything but the encoder, the ARQ and the streams is unchanged. *)
Definition same_rest (s s' : Session) : Prop :=
  ss_datagrams s' = ss_datagrams s /\ ss_ack_ranges s' = ss_ack_ranges s /\
  ss_pending_max_data s' = ss_pending_max_data s /\ ss_pending_pong s' = ss_pending_pong s /\
  ss_pending_ping s' = ss_pending_ping s.

Lemma drain_stream_sealed fuel : forall s now sid st,
  ss_streams s !! sid = Some st -> (length (st_send_buf st) < fuel)%nat ->
  keys_wf (pe_keys (ss_encoder s)) ->
  0 <= pe_next_pkt_num (ss_encoder s) -> pe_next_pkt_num (ss_encoder s) + Z.of_nat fuel < 2 ^ 64 ->
  Z.of_nat (length (st_send_buf st)) <= st_send_offset st -> is_u64 (st_send_offset st) ->
  exists s' ps st',
    drain_stream fuel s now sid = (s', Ok ps) /\
    sealed_chunks (pe_keys (ss_encoder s)) (pe_session_id (ss_encoder s)) sid (pe_next_pkt_num (ss_encoder s))
      (st_send_offset st - Z.of_nat (length (st_send_buf st))) (chunk_list fuel (st_send_buf st)) ps /\
    ss_streams s' !! sid = Some st' /\ st_fin_sent st' = st_fin_sent st /\
    same_rest s s'.
Proof.
  induction fuel as [|fuel IH]; intros s now sid st Hst Hf Hk Hn0 Hn Hoff Hu; [lia|].
  cbn [drain_stream chunk_list]. rewrite Hst. unfold Stream_poll_send, send_buf_is_empty.
  destruct (st_send_buf st) as [|b buf0] eqn:Eb.
  { exists s, [], st. split_and!; done. }
  assert (1 <= length (st_send_buf st))%nat as Hpos by (rewrite Eb; simpl; lia).
  rewrite <- Eb in *. clear Eb. set (buf := st_send_buf st) in *. fold CHUNK.
  set (n := Nat.min (length buf) CHUNK). unfold is_u in Hu.
  rewrite (wrap_small 64 (st_send_offset st - Z.of_nat (length buf))) by (unfold is_u; lia).
  set (off := st_send_offset st - Z.of_nat (length buf)). set (c := take n buf).
  set (st1 := set_send st (drop n buf) (st_send_offset st)).
  set (s1 := set_ss_streams s (<[sid := st1]> (ss_streams s))).
  assert (length c = n) as Hlc. { unfold c. rewrite length_take. unfold n. lia. }
  assert (n <= 1386)%nat as Hn1386. { unfold n, CHUNK, MAX_PAYLOAD. lia. }
  destruct (emit_data_sealed s1 now (stream_frame false sid off c)) as (wire & He & Hse).
  { done. } { unfold stream_frame. rewrite !length_app, !length_to_le, Hlc. simpl. lia. }
  rewrite He. set (s2 := set_ss_arq _ _).
  assert (1 <= n)%nat as Hn1. { unfold n, CHUNK, MAX_PAYLOAD. lia. }
  destruct (IH s2 now sid st1) as (s3 & ps & st3 & Hd & Hsc & Hst3 & Hfin & Hsame).
  - unfold s2, s1. simpl. apply lookup_insert_eq.
  - simpl. rewrite length_drop. lia.
  - done.
  - simpl. unfold wrapping_add. rewrite wrap_small by (unfold is_u; lia). lia.
  - simpl. unfold wrapping_add. rewrite wrap_small by (unfold is_u; lia). lia.
  - simpl. rewrite length_drop. lia.
  - simpl. unfold is_u. lia.
  - rewrite Hd. exists s3, (mkTaggedPacket false wire :: ps), st3. split_and!; try done; [].
    cbn [sealed_chunks]. split; [done|].
    unfold s2, s1, st1 in Hsc. simpl in Hsc. unfold wrapping_add in Hsc.
    rewrite wrap_small in Hsc by (unfold is_u; lia). rewrite length_drop in Hsc.
    rewrite Hlc. replace (off + Z.of_nat n) with (st_send_offset st - Z.of_nat (length buf - n)); [done|].
    unfold off. unfold n in *. lia.
Qed.

(** ** A client that opens a stream, writes and flushes *)

Definition client (sess : Z) (keys rkeys : PacketKeys) : Session :=
  Session_new sess (PacketEncoder_new keys sess) (PacketDecoder_new rkeys).

Definition server (sess : Z) (keys rkeys : PacketKeys) : Session :=
  Session_with_role sess Server (PacketEncoder_new rkeys sess) (PacketDecoder_new keys).

(** Open stream 1, write [data], flush. *)
Definition client_send (sess : Z) (keys rkeys : PacketKeys) (data : list byte) (now : Z)
  : option (Result (list TaggedPacket) SeamError) :=
  match Session_open_stream (client sess keys rkeys) with
  | None => None
  | Some (a1, sid) =>
      match Session_send a1 sid data with
      | (_, Err e) => Some (Err e)
      | (a2, Ok _) => Some (snd (Session_flush a2 now [sid]))
      end
  end.

Definition pieces (data : list byte) : list (list byte) := chunk_list (S (length data)) data.

Lemma then_flush_ok s s' ps k : k s = (s', Ok []) -> then_flush (s, Ok ps) k = (s', Ok ps).
Proof. intros H. simpl. by rewrite H, app_nil_r. Qed.

Lemma client_open sess keys rkeys :
  exists a1, Session_open_stream (client sess keys rkeys) = Some (a1, 1) /\
    ss_streams a1 = {[1 := Stream_new 1]} /\ ss_send_window a1 = FlowWindow_new DEFAULT_WINDOW /\
    ss_encoder a1 = PacketEncoder_new keys sess /\ same_rest (client sess keys rkeys) a1.
Proof.
  unfold Session_open_stream, Session_open_stream_with_priority, Session_try_open_stream_with_priority.
  assert (streams_full (client sess keys rkeys) = false) as ->.
  { unfold streams_full. simpl. by rewrite map_size_empty. }
  eexists. split; [done|]. split_and!; try done.
Qed.

Lemma session_send_ok s sid st data :
  ss_streams s !! sid = Some st -> st_fin_sent st = false ->
  fw_consumed (ss_send_window s) = 0 -> fw_limit (ss_send_window s) = DEFAULT_WINDOW ->
  st_send_offset st = 0 -> st_send_max_data st = DEFAULT_WINDOW ->
  Z.of_nat (length data) <= DEFAULT_WINDOW ->
  exists s', Session_send s sid data = (s', Ok tt) /\
    ss_streams s' = <[sid := set_send st (st_send_buf st ++ data) (Z.of_nat (length data))]> (ss_streams s) /\
    ss_encoder s' = ss_encoder s /\ same_rest s s'.
Proof.
  intros Hst Hfin Hc Hl Ho Hm Hd. unfold Session_send, FlowWindow_reserve, wrapping_add.
  rewrite Hc, Hl, Z.add_0_l, wrap_small by (unfold is_u, DEFAULT_WINDOW in *; lia).
  rewrite (proj2 (Z.ltb_ge _ _)) by done. simpl. rewrite Hst.
  unfold Stream_write, saturating_add, wrapping_add. rewrite Hfin, Ho, Hm, Z.add_0_l.
  rewrite (proj2 (Z.ltb_ge _ _)) by lia.
  rewrite wrap_small by (unfold is_u, DEFAULT_WINDOW in *; lia).
  eexists. split; [done|]. split_and!; done.
Qed.

Lemma client_send_sealed sess keys rkeys data now :
  keys_wf keys -> Z.of_nat (length data) <= DEFAULT_WINDOW ->
  exists ps, client_send sess keys rkeys data now = Some (Ok ps) /\
    sealed_chunks keys sess 1 0 0 (pieces data) ps.
Proof.
  intros Hk Hl. unfold client_send.
  destruct (client_open sess keys rkeys) as (a1 & -> & Hs1 & Hw1 & He1 & Hr1).
  destruct (session_send_ok a1 1 (Stream_new 1) data) as (a2 & -> & Hs2 & He2 & Hr2);
    rewrite ?Hs1, ?Hw1; try done; [].
  set (st := set_send (Stream_new 1) _ _) in Hs2.
  assert (ss_streams a2 !! 1 = Some st) as Hst by (rewrite Hs2; apply lookup_insert_eq).
  assert (ss_encoder a2 = PacketEncoder_new keys sess) as Hea by congruence.
  destruct (drain_stream_sealed (S (length data)) a2 now 1 st Hst) as (s1 & ps & st1 & Hd & Hsc & Hst1 & Hfin & Hrest).
  { simpl. lia. } { by rewrite Hea. } { rewrite Hea. simpl. lia. }
  { rewrite Hea. simpl. unfold DEFAULT_WINDOW in Hl. lia. }
  { simpl. lia. } { simpl. unfold is_u, DEFAULT_WINDOW in *. lia. }
  exists ps. split.
  2: { rewrite Hea in Hsc. simpl in Hsc. rewrite Z.sub_diag in Hsc. exact Hsc. }
  assert (flush_streams a2 now (sort_by_priority (stream_priority a2) [1]) = (s1, Ok ps)) as Hfs.
  { cbn [sort_by_priority fold_right insert_by_priority flush_streams]. unfold drain_fuel. rewrite Hst.
    change (length (st_send_buf st)) with (length data). rewrite Hd. unfold flush_fin. rewrite Hst1.
    unfold Stream_should_send_fin. rewrite Hfin. cbn [st_fin_sent st set_send set_priority Stream_new andb app].
    simpl. by rewrite app_nil_r. }
  assert (same_rest (client sess keys rkeys) s1) as (R1 & R2 & R3 & R4 & R5).
  { destruct Hr1 as (? & ? & ? & ? & ?), Hr2 as (? & ? & ? & ? & ?), Hrest as (? & ? & ? & ? & ?).
    split_and!; congruence. }
  do 2 f_equal. unfold Session_flush. rewrite Hfs.
  assert (flush_datagrams (S (length (dq_send_queue (ss_datagrams s1)))) s1 = (set_ss_datagrams s1 (ss_datagrams s1), Ok [])) as Hdg.
  { rewrite R1. cbn [flush_datagrams]. rewrite R1. done. }
  set (s2 := set_ss_datagrams s1 (ss_datagrams s1)) in *.
  rewrite (then_flush_ok s1 s2 ps
    (fun s => flush_datagrams (S (length (dq_send_queue (ss_datagrams s)))) s) Hdg).
  rewrite (then_flush_ok s2 s2 ps (fun s => flush_ack s now)).
  2: { unfold flush_ack, Session_has_pending_ack, AckRanges_has_pending_ack. simpl. by rewrite R2. }
  rewrite (then_flush_ok s2 s2 ps flush_max_data). 2: { unfold flush_max_data. simpl. by rewrite R3. }
  rewrite (then_flush_ok s2 s2 ps flush_pong). 2: { unfold flush_pong. simpl. by rewrite R4. }
  rewrite (then_flush_ok s2 s2 ps flush_ping). 2: { unfold flush_ping. simpl. by rewrite R5. }
  done.
Qed.

(** ** The receiver *)

(** Feed packets by index, keeping the results out of the way. *)
Fixpoint receive_all (b : Session) (now : Z) (ps : list TaggedPacket) (order : list nat) : option Session :=
  match order with
  | [] => Some b
  | i :: rest =>
      match ps !! i with
      | None => receive_all b now ps rest
      | Some p => match Session_receive_packet b now (tp_bytes p) with
                  | None => None
                  | Some (b', _) => receive_all b' now ps rest
                  end
      end
  end.

Record receiver_at (keys : PacketKeys) (cs : list (list byte)) (dn : list nat) (b : Session) : Prop := {
  rc_role : ss_role b = Server;
  rc_limits : ss_limits b = SessionLimits_default;
  rc_keys : pd_keys (ss_decoder b) = keys;
  rc_dec : decoder_at (ss_decoder b) (list_to_set (map Z.of_nat dn)) 0;
  rc_streams : (dn = [] /\ ss_streams b = ∅) \/ (exists st, ss_streams b = {[1 := st]});
  rc_chunks : chunk_inv cs (fun i => In i dn) 0 (default (Stream_new 1) (ss_streams b !! 1), [])
}.

Lemma receiver_step keys sess cs dn b now i c p :
  Forall (fun c => c <> []) cs -> Z.of_nat (length (concat cs)) <= DEFAULT_WINDOW ->
  Z.of_nat (length cs) <= 1024 -> Z.of_nat (length c) <= 1386 ->
  receiver_at keys cs dn b -> cs !! i = Some c ->
  sealed keys sess (Z.of_nat i) Data (stream_frame false 1 (Z.of_nat (off_of cs i)) c) (tp_bytes p) ->
  exists b' r, Session_receive_packet b now (tp_bytes p) = Some (b', r) /\
    (receiver_at keys cs (i :: dn) b' \/ (In i dn /\ receiver_at keys cs dn b')).
Proof.
  intros Hne HB Hcnt Hc [H1 H2 H3 H4 H5 H6] Hi Hse.
  pose proof (lookup_lt_Some _ _ _ Hi) as Hlt. pose proof (off_of_total cs i) as Hoff.
  assert (is_u64 (Z.of_nat i)) as Hiu by (unfold is_u; lia).
  rewrite <- H3 in Hse.
  assert (Z.of_nat (length (stream_frame false 1 (Z.of_nat (off_of cs i)) c)) <= 65000) as Hfl.
  { unfold stream_frame. rewrite !length_app, !length_to_le. simpl. lia. }
  pose proof (decode_sealed (ss_decoder b) sess (Z.of_nat i) Data _ _ _ Hiu ltac:(lia) H4 Hse Hfl) as Hdec.
  unfold Session_receive_packet. case_bool_decide as Hin.
  - destruct Hdec as (buf & e & ->). eexists _, _. split; [done|]. right.
    assert (In i dn) as Hin'.
    { rewrite elem_of_list_to_set, list_elem_of_In, in_map_iff in Hin. destruct Hin as (j & Ej & Hj).
      apply Nat2Z.inj in Ej. by subst. }
    split; [done|]. constructor; simpl; done.
  - destruct Hdec as (d' & buf & -> & Hkd & Hd').
    set (b2 := set_ss_ack_ranges _ _). cbn [Session_dispatch].
    pose proof (handle_stream_frame b2 false 1 (Z.of_nat (off_of cs i)) c) as Hh.
    destruct (Stream_receive (default (Stream_new 1) (ss_streams b2 !! 1)) (Z.of_nat (off_of cs i)) c false) as [st' r] eqn:Er.
    destruct Hh as (evs & ->).
    { unfold is_u. lia. } { unfold is_u, DEFAULT_WINDOW in *. lia. } { lia. }
    { simpl. destruct H5 as [[_ E]|(st & E)]; rewrite E.
      - rewrite lookup_empty, H1. split; [done|]. unfold streams_full. simpl.
        by rewrite H2, E, map_size_empty.
      - by rewrite lookup_singleton_eq. }
    eexists _, _. split; [done|]. left.
    pose proof (note_consumed_same b2 (Z.of_nat (length c))) as (Ns & _ & Nl & Nr).
    constructor; simpl.
    + by rewrite Nr.
    + by rewrite Nl.
    + unfold note_consumed. split_if; simpl; congruence.
    + assert (ss_decoder (note_consumed b2 (Z.of_nat (length c))) = d') as ->.
      { unfold note_consumed. by split_if. }
      done.
    + right. exists st'. destruct H5 as [[_ ->]|(st & ->)]; [apply insert_empty|apply insert_singleton_eq].
    + rewrite lookup_insert_eq. simpl.
      assert (st' = fst (Stream_receive (default (Stream_new 1) (ss_streams b !! 1)) (Z.of_nat (off_of cs i)) (nth i cs []) false)) as ->.
      { assert (nth i cs [] = c) as -> by (by rewrite nth_lookup, Hi).
        change (ss_streams b) with (ss_streams b2). by rewrite Er. }
      eapply chunk_inv_ext; [|by apply (chunk_deliver cs Hne HB)]. simpl. intros j. intuition.
Qed.

Lemma receiver_run keys sess cs ps now :
  Forall (fun c => c <> [] /\ Z.of_nat (length c) <= 1386) cs -> Z.of_nat (length (concat cs)) <= DEFAULT_WINDOW ->
  Z.of_nat (length cs) <= 1024 -> sealed_chunks keys sess 1 0 0 cs ps ->
  forall order dn b, Forall (fun i => (i < length cs)%nat) order -> receiver_at keys cs dn b ->
  exists b' dn', receive_all b now ps order = Some b' /\ receiver_at keys cs dn' b' /\
    (forall i, In i dn' <-> In i dn \/ In i order).
Proof.
  intros Hcs HB Hcnt Hsc. induction order as [|i order IH]; intros dn b Hord Hr; cbn [receive_all].
  { exists b, dn. split_and!; [done|done|]. intros i. simpl. tauto. }
  inversion_clear Hord as [|? ? Hi Hord']. destruct (lookup_lt_is_Some_2 cs i Hi) as [c Hc].
  destruct (sealed_chunks_lookup _ _ _ _ _ _ _ _ _ Hsc Hc) as (p & Hp & Hse). rewrite Hp.
  rewrite !Z.add_0_l in Hse.
  assert (Forall (fun c => c <> []) cs) as Hne. { eapply Forall_impl; [exact Hcs|]. by intros ? [? _]. }
  rewrite Forall_forall in Hcs.
  assert (Z.of_nat (length c) <= 1386) as Hlc. { apply Hcs. apply list_elem_of_lookup. eauto. }
  destruct (receiver_step keys sess cs dn b now i c p Hne HB Hcnt Hlc Hr Hc Hse) as (b1 & r & -> & Hnext).
  assert (exists dn1, receiver_at keys cs dn1 b1 /\ (forall j, In j dn1 <-> In j dn \/ j = i)) as (dn1 & Hr1 & Hdn1).
  { destruct Hnext as [Hr1|[Hin Hr1]]; [exists (i :: dn)|exists dn]; (split; [done|]);
      intros j; simpl; intuition congruence. }
  destruct (IH dn1 b1 Hord' Hr1) as (b' & dn' & He & Hr' & Hdn').
  exists b', dn'. split_and!; [done|done|]. intros j. rewrite Hdn', Hdn1. simpl. intuition congruence.
Qed.

(** C1: one flushed write is delivered, whatever the network does short of
    losing packets for good. A client opens a stream, makes one write of at most
    1024 * 1386 bytes (1.4 MB) and flushes once; the flush succeeds. When the
    packets reach the server in any order, with any repetitions and omissions,
    processing them always returns, and then one read of the stream, whose
    limit is at least the whole length of the data, yields a prefix of the
    written bytes, and all of them if every packet has arrived at least once.
    Nothing is said of reads with a smaller limit: they can lose the tail of a
    segment ([stream_partial_read_drops_tail]). *)
Theorem stream_delivery (sess now : Z) (keys rkeys : PacketKeys) (data : list byte)
    (order : list nat) (max : nat) :
  keys_wf keys -> Z.of_nat (length data) <= 1024 * 1386 -> (length data <= max)%nat ->
  exists ps,
    client_send sess keys rkeys data now = Some (Ok ps) /\
    (order <> [] -> Forall (fun i => (i < length ps)%nat) order ->
     exists b b' out n,
       receive_all (server sess keys rkeys) now ps order = Some b /\
       Session_read b 1 [] max = Some (b', Ok (out, n)) /\
       out = take (length out) data /\
       ((forall i, (i < length ps)%nat -> In i order) -> out = data)).
Proof.
  intros Hk Hlen Hmax.
  destruct (client_send_sealed sess keys rkeys data now Hk) as (ps & Hcs & Hsc).
  { unfold DEFAULT_WINDOW. lia. }
  exists ps. split; [done|]. intros Hord Hall.
  destruct (chunk_list_spec (S (length data)) data ltac:(lia)) as (Hcat & Hpieces & Hcnt).
  fold (pieces data) in Hcat, Hpieces, Hcnt.
  assert (Z.of_nat (length (pieces data)) <= 1024) as Hc1024.
  { etransitivity; [exact Hcnt|]. apply Z.lt_succ_r, Z.div_lt_upper_bound; lia. }
  rewrite (sealed_chunks_length _ _ _ _ _ _ _ Hsc) in *.
  assert (Z.of_nat (length (concat (pieces data))) <= DEFAULT_WINDOW) as HB.
  { rewrite Hcat. unfold DEFAULT_WINDOW. lia. }
  destruct (receiver_run keys sess (pieces data) ps now Hpieces HB Hc1024 Hsc order [] (server sess keys rkeys))
    as (b & dn & Hrun & Hrc & Hdn); [done| |].
  { constructor; simpl; try done; [split; [apply rw_new_wf|apply rw_new_abs]|by left|].
    constructor; simpl; try done. constructor; [apply om_wf_nil| |lia|lia].
    intros o d. split; [done|]. by intros (i & _ & [] & _). }
  destruct Hrc as [R1 R2 R3 R4 R5 [R6 R7 R8 R9]]. simpl in *.
  destruct R5 as [[-> _]|(st & Est)].
  { exfalso. destruct order as [|i order]; [done|]. apply (Hdn i). right. by left. }
  rewrite Est, lookup_singleton_eq in *. simpl in *.
  assert (Forall (fun c => c <> []) (pieces data)) as Hne. { eapply Forall_impl; [exact Hpieces|]. by intros ? [? _]. }
  destruct (read_loop_chunks (pieces data) Hne HB (fun i => In i dn) max 0) with (buf := st_recv_buf st) (m := 0%nat) (out := @nil byte)
    as (m & buf' & rd & _ & Hread & Hbuf & Hg1 & Hg2); [by rewrite Hcat|done|lia|done|].
  rewrite Nat.sub_diag in Hread. exists b. eexists _, _, _. split; [done|]. split.
  { unfold Session_read. rewrite Est, lookup_singleton_eq. unfold Stream_read. rewrite R7, Hread. done. }
  split.
  - assert (data = concat (take m (pieces data)) ++ concat (drop m (pieces data))) as Hd.
    { by rewrite <- concat_app, take_drop. }
    symmetry. etransitivity; [exact (f_equal (take (length (concat (take m (pieces data))))) Hd)|].
    apply take_app_length.
  - intros Hevery. pose proof (bi_m _ _ _ _ Hbuf) as Hm.
    destruct (decide (m < length (pieces data))%nat) as [Hlt|Hge].
    + destruct (Hg2 Hlt). apply Hdn. right. by apply Hevery.
    + rewrite take_ge by lia. done.
Qed.
End Delivery.

Lemma stream_delivery_witness :
  exists ps b b' out n,
    client_send 7 test_keys test_keys [x68; x69] 0 = Some (Ok ps) /\
    receive_all (server 7 test_keys test_keys) 0 ps [0%nat; 0%nat] = Some b /\
    Session_read b 1 [] 10 = Some (b', Ok (out, n)) /\ out = [x68; x69].
Proof.
  destruct (stream_delivery 7 0 test_keys test_keys [x68; x69] [0%nat; 0%nat] 10) as (ps & Hs & Hr).
  - exact test_keys_wf.
  - simpl. lia.
  - simpl. lia.
  - assert (length ps = 1%nat) as Hl.
    { destruct (client_send _ _ _ _ _) as [[ps'|]|] eqn:E in Hs; [|done|done]. injection Hs as <-.
      vm_compute in E. injection E as <-. reflexivity. }
    destruct Hr as (b & b' & out & n & H1 & H2 & _ & H3).
    + discriminate.
    + rewrite Hl. repeat constructor.
    + exists ps, b, b', out, n. split_and!; [done|done|done|apply H3].
      intros i Hi. rewrite Hl in Hi. left. lia.
Defined.
