(* ===== verification/SessionProps.v ===== *)
(** * Properties of sessions

    src/src/session/mod.rs over any sequence of operations: stream limits and
    identifiers, what a flush leaves behind, acknowledgement handling, and the
    send-window accounting. *)

From Stdlib Require Import ZArith Lia Bool List String Sorting.Sorted.
From Stdlib Require Import Strings.Byte.
From stdpp Require Import base list numbers option gmap.
From S2P Require Import Prelude Packet Replay Crypto TestCrypto PacketCodec Ordered Ack Stream Flow.
From S2P Require Import Datagram Arq Session Delivery.

Open Scope Z_scope.

Section Props.
Context {C : Crypto}.

(** Stream limits hold against any peer. In every session reachable by any
    sequence of application calls and any received bytes, the number of
    streams stays within [max_streams], every stream of the local parity was
    opened locally (its id is below the next one), and the next local id is
    free, so that opening a stream never replaces one. *)
Theorem session_streams_bounded (id : Z) (role : Role) (enc : PacketEncoder) (dec : PacketDecoder)
    (limits : SessionLimits) (s : Session) :
  0 <= sl_max_streams limits < 2 ^ 31 - 2 ->
  reachable (Session_with_limits id role enc dec limits) s ->
  Z.of_nat (size (ss_streams s)) <= sl_max_streams limits /\
  ss_streams s !! ss_next_stream_id s = None /\
  (forall sid st, ss_streams s !! sid = Some st -> st_id st = sid /\
     (sid mod 2 = Role_local_parity role -> sid < ss_next_stream_id s)).
Proof.
  intros Hmax Hr. pose proof (session_reachable_inv limits role Hmax id enc dec s Hr) as Hi.
  pose proof (next_fresh limits role s Hi) as Hf. destruct Hi as [_ _ H3 H4 H5 _ _].
  split_and!; [done|done|]. intros sid st Hst. split; [by apply (H4 sid)|by apply (H5 sid st)].
Qed.

(** A stream's window never grows. In every reachable session both limits
    of every stream are still the initial 16 MiB, so a write that would take
    the stream past 16 MiB in total is refused, now and after any further
    traffic: nothing in the session raises the per-stream limits. *)
Theorem session_stream_window_fixed (id : Z) (role : Role) (enc : PacketEncoder) (dec : PacketDecoder)
    (limits : SessionLimits) (s : Session) (sid : Z) (st : Stream) (data : list byte) :
  0 <= sl_max_streams limits < 2 ^ 31 - 2 ->
  reachable (Session_with_limits id role enc dec limits) s ->
  ss_streams s !! sid = Some st ->
  0 <= st_send_offset st -> DEFAULT_WINDOW < st_send_offset st + Z.of_nat (length data) ->
  exists e, snd (Session_send s sid data) = Err e.
Proof.
  intros Hmax Hr Hst Ho Hd. pose proof (session_reachable_inv limits role Hmax id enc dec s Hr) as Hi.
  destruct (sv_streams limits role s Hi sid st Hst) as (_ & Hm & _).
  unfold Session_send. destruct (FlowWindow_reserve _ _) as [w|e]; [|by eexists]. simpl. rewrite Hst.
  unfold Stream_write. destruct (st_fin_sent st); [by eexists|]. rewrite Hm.
  rewrite (proj2 (Z.ltb_lt _ _)); [by eexists|]. unfold saturating_add, DEFAULT_WINDOW in *. lia.
Qed.

(** A failed send still consumes connection credit: writing to a stream
    that does not exist fails, but the bytes stay reserved in the connection's
    send window. *)
Theorem session_send_leaks_credit (s : Session) (sid : Z) (data : list byte) (w : FlowWindow) :
  ss_streams s !! sid = None ->
  FlowWindow_reserve (ss_send_window s) (Z.of_nat (length data)) = Ok w ->
  let '(s', r) := Session_send s sid data in
  r = Err (UnknownStream sid) /\ ss_send_window s' = w /\
  fw_consumed w = wrapping_add 64 (fw_consumed (ss_send_window s)) (Z.of_nat (length data)).
Proof.
  intros Hn Hw. unfold Session_send. rewrite Hw. simpl. rewrite Hn. split_and!; [done|done|].
  unfold FlowWindow_reserve in Hw. destruct (_ <? _); [done|]. by injection Hw as <-.
Qed.

(** ** Acknowledgement frames *)

Lemma ack_one_lookup now acc pn q :
  om_lookup q (aq_in_flight (fst (fst (ack_one now acc pn)))) =
    if q =? pn then None else om_lookup q (aq_in_flight (fst (fst acc))).
Proof.
  destruct acc as [[arq total] sample]. unfold ack_one. simpl.
  pose proof (on_ack_in_flight arq now pn) as H.
  assert (aq_in_flight (fst (fst (let '(arq', o) := ArqTracker_on_ack arq now pn in
    match o with
    | Some (rtt, bytes) => (arq', wrapping_add 64 total (Z.of_nat bytes), if 0 <? rtt then Some rtt else sample)
    | None => (arq', total, sample)
    end))) = aq_in_flight (fst (ArqTracker_on_ack arq now pn))) as E.
  { by destruct (ArqTracker_on_ack arq now pn) as [arq' [[rtt bytes]|]]. }
  transitivity (om_lookup q (aq_in_flight (fst (ArqTracker_on_ack arq now pn)))).
  { f_equal. rewrite <- E. by destruct (ArqTracker_on_ack arq now pn) as [arq' [[rtt bytes]|]]. }
  rewrite H. destruct (om_lookup pn _) eqn:Ep; [apply om_lookup_remove|].
  destruct (q =? pn) eqn:Eq; [|done]. apply Z.eqb_eq in Eq. by subst.
Qed.

Lemma ack_fold_lookup now pns : forall acc q,
  om_lookup q (aq_in_flight (fst (fst (fold_left (ack_one now) pns acc)))) =
    if existsb (Z.eqb q) pns then None else om_lookup q (aq_in_flight (fst (fst acc))).
Proof.
  induction pns as [|pn pns IH]; intros acc q; simpl; [done|]. rewrite IH, ack_one_lookup.
  destruct (q =? pn); simpl; [by destruct (existsb _ _)|done].
Qed.

Definition in_range (q : Z) (r : Z * Z) : bool := (fst r <=? q) && (q <=? snd r).

Lemma existsb_seqZ q lo n : existsb (Z.eqb q) (seqZ lo n) = (lo <=? q) && (q <? lo + n).
Proof.
  apply eq_true_iff_eq. rewrite existsb_exists, andb_true_iff, Z.leb_le, Z.ltb_lt. split.
  - intros (x & Hx & E). apply Z.eqb_eq in E. subst. by rewrite <- list_elem_of_In, elem_of_seqZ in Hx.
  - intros H. exists q. rewrite Z.eqb_refl, <- list_elem_of_In, elem_of_seqZ. split; [lia|done].
Qed.

Lemma ack_all_lookup now ranges : forall acc q,
  om_lookup q (aq_in_flight (fst (fst (ack_all_ranges now acc ranges)))) =
    if existsb (in_range q) ranges then None else om_lookup q (aq_in_flight (fst (fst acc))).
Proof.
  unfold ack_all_ranges. induction ranges as [|[a b] ranges IH]; intros acc q; simpl; [done|].
  rewrite IH, ack_fold_lookup, existsb_seqZ. unfold in_range at 2. simpl.
  replace (q <? a + (b - a + 1)) with (q <=? b) by (destruct (Z.leb_spec q b), (Z.ltb_spec q (a + (b - a + 1))); lia).
  destruct ((a <=? q) && (q <=? b)); simpl; [by destruct (existsb _ _)|done].
Qed.

(** C10: an ACK frame stops retransmission of exactly what it covers: after
    handling any frame, a packet is in flight iff it was and no range of the
    frame covers it; a frame that does not parse changes nothing; and streams,
    windows and receive state are untouched. *)
Theorem session_ack_clears_exactly (s : Session) (now : Z) (frame : list byte) :
  let s' := Session_handle_ack_frame s now frame in
  match parse_ack_frame frame with
  | None => s' = s
  | Some (_, _, ranges) =>
      (forall pn, om_lookup pn (aq_in_flight (ss_arq s')) =
         if existsb (in_range pn) ranges then None else om_lookup pn (aq_in_flight (ss_arq s))) /\
      ss_streams s' = ss_streams s /\ ss_send_window s' = ss_send_window s /\
      ss_recv_window s' = ss_recv_window s /\ ss_ack_ranges s' = ss_ack_ranges s
  end.
Proof.
  unfold Session_handle_ack_frame. destruct (parse_ack_frame frame) as [[[l d] ranges]|]; [|done].
  pose proof (ack_all_lookup now ranges (ss_arq s, 0, None)) as H.
  destruct (ack_all_ranges now _ ranges) as [[arq' total] sample]. simpl in H.
  destruct (0 <? total); simpl; split_and!; done.
Qed.

(** ** What a flush leaves behind *)

Definition stream_drained (st : Stream) : Prop := st_send_buf st = [] /\ Stream_should_send_fin st = false.

(** The packets [ps] are tracked with their wire bytes under the numbers that
    end at [n], in order. *)
Definition tracked (now : Z) (a : ArqTracker) (ps : list TaggedPacket) (n : Z) : Prop :=
  forall i p, ps !! i = Some p -> tp_is_control p = false /\
    om_lookup (n - Z.of_nat (length ps) + Z.of_nat i) (aq_in_flight a) =
      Some (mkInFlight (tp_bytes p) now 0).

Lemma encode_packet_num s t p s' r :
  encode_packet s t p = (s', Ok r) ->
  pe_next_pkt_num (ss_encoder s') = wrapping_add 64 (pe_next_pkt_num (ss_encoder s)) 1 /\
  ss_arq s' = ss_arq s /\ ss_streams s' = ss_streams s.
Proof.
  unfold encode_packet. unfold PacketEncoder_encode. cbv zeta.
  destruct (_ <? _)%nat; [done|]. destruct (encrypt_in_place _ _ _ _); intros [= <- _]. done.
Qed.

Lemma emit_data_spec s now f s' p :
  emit_data s now f = (s', Ok p) ->
  pe_next_pkt_num (ss_encoder s') = wrapping_add 64 (pe_next_pkt_num (ss_encoder s)) 1 /\
  ss_streams s' = ss_streams s /\ tp_is_control p = false /\
  ss_arq s' = ArqTracker_on_sent (ss_arq s) now (pe_next_pkt_num (ss_encoder s)) (tp_bytes p).
Proof.
  unfold emit_data. destruct (encode_packet s Data f) as [s1 [out|e]] eqn:E; [|done].
  intros [= <- <-]. destruct (encode_packet_num _ _ _ _ _ E) as (H1 & H2 & H3). simpl.
  rewrite H2. done.
Qed.

Lemma tracked_sent now a ps n p :
  tracked now a ps n -> tp_is_control p = false ->
  tracked now (ArqTracker_on_sent a now n (tp_bytes p)) (ps ++ [p]) (n + 1).
Proof.
  intros Ht Hp i q Hq. rewrite length_app. cbn [length ArqTracker_on_sent aq_in_flight].
  rewrite om_lookup_insert. apply lookup_app_Some in Hq as [Hq|[Hi Hq]].
  - pose proof (lookup_lt_Some _ _ _ Hq). destruct (Ht _ _ Hq) as [Hc Hl]. split; [done|].
    destruct (_ =? n) eqn:E; cmp_facts; [lia|]. rewrite <- Hl. f_equal. lia.
  - apply list_lookup_singleton_Some in Hq as [Hi0 <-]. split; [done|].
    destruct (_ =? n) eqn:E; cmp_facts; [done|lia].
Qed.

(** One stage of the flush from [s] with the packets [acc] already emitted. *)
Definition stage (now : Z) (acc : list TaggedPacket) (s s' : Session) (ps : list TaggedPacket) : Prop :=
  let n := pe_next_pkt_num (ss_encoder s) in
  0 <= n -> n + Z.of_nat (length ps) < 2 ^ 64 -> tracked now (ss_arq s) acc n ->
  pe_next_pkt_num (ss_encoder s') = n + Z.of_nat (length ps) /\
  tracked now (ss_arq s') (acc ++ ps) (n + Z.of_nat (length ps)).

Lemma stage_nil now acc s : stage now acc s s [].
Proof. unfold stage. intros Hn Hlt Ht. simpl. by rewrite app_nil_r, Z.add_0_r. Qed.

Lemma stage_app now acc s1 s2 s3 ps qs :
  stage now acc s1 s2 ps -> stage now (acc ++ ps) s2 s3 qs -> stage now acc s1 s3 (ps ++ qs).
Proof.
  intros H1 H2. unfold stage. set (n := pe_next_pkt_num (ss_encoder s1)). intros Hn Hlt Ht. rewrite length_app in *. destruct (H1 Hn ltac:(lia) Ht) as [E1 T1].
  fold n in E1, T1. unfold stage in H2. rewrite E1 in H2. destruct (H2 ltac:(lia) ltac:(lia) T1) as [E2 T2].
  rewrite app_assoc. replace (n + Z.of_nat (length ps + length qs))
    with (n + Z.of_nat (length ps) + Z.of_nat (length qs)) by lia. done.
Qed.

Lemma stage_emit now acc s s1 f s2 p :
  pe_next_pkt_num (ss_encoder s1) = pe_next_pkt_num (ss_encoder s) -> ss_arq s1 = ss_arq s ->
  emit_data s1 now f = (s2, Ok p) -> stage now acc s s2 [p].
Proof.
  intros En Ea He. unfold stage. set (n := pe_next_pkt_num (ss_encoder s)) in *. intros Hn Hlt Ht. apply emit_data_spec in He as (H1 & _ & Hc & H4).
  rewrite En in H1, H4. rewrite Ea in H4. fold n in H1, H4. simpl in *.
  unfold wrapping_add in H1. rewrite wrap_small in H1 by (unfold is_u; lia).
  split; [done|]. rewrite H4. by apply tracked_sent.
Qed.

Lemma drain_stage fuel : forall s now sid s' ps acc,
  drain_stream fuel s now sid = (s', Ok ps) ->
  stage now acc s s' ps /\
  (forall id, id <> sid -> ss_streams s' !! id = ss_streams s !! id) /\
  (forall st, ss_streams s !! sid = Some st -> (length (st_send_buf st) < fuel)%nat ->
     exists st', ss_streams s' !! sid = Some st' /\ st_send_buf st' = []) /\
  (ss_streams s !! sid = None -> ss_streams s' !! sid = None).
Proof.
  induction fuel as [|fuel IH]; intros s now sid s' ps acc; cbn [drain_stream].
  { intros [= <- <-]. split_and!; [apply stage_nil|done|intros; lia|done]. }
  destruct (ss_streams s !! sid) as [st|] eqn:Es.
  2: { intros [= <- <-]. split_and!; [apply stage_nil|done|done|done]. }
  destruct (Stream_poll_send st _) as [[st' [o c]]|] eqn:Ep.
  2: { intros [= <- <-]. split_and!; [apply stage_nil|done| |congruence].
       intros st0 [= <-] _. exists st. split; [done|]. unfold Stream_poll_send, send_buf_is_empty in Ep.
       by destruct (st_send_buf st). }
  set (s1 := set_ss_streams s (<[sid := st']> (ss_streams s))).
  destruct (emit_data s1 now _) as [s2 [p|e]] eqn:Ee; [|done].
  destruct (drain_stream fuel s2 now sid) as [s3 [ps'|e]] eqn:Ed; [|done]. intros [= <- <-].
  pose proof (emit_data_spec _ _ _ _ _ Ee) as (_ & Hs2 & _ & _).
  destruct (IH _ _ _ _ _ (acc ++ [p]) Ed) as (H1 & H2 & H3 & H4).
  split_and!; [| | |done].
  - apply (stage_app now acc s s2 s3 [p] ps'); [|done]. by apply (stage_emit now acc s s1 _ s2 p eq_refl eq_refl Ee).
  - intros id Hid. rewrite H2, Hs2 by done. simpl. by rewrite lookup_insert_ne.
  - intros st0 [= <-] Hf. apply (H3 st').
    + rewrite Hs2. simpl. apply lookup_insert_eq.
    + unfold Stream_poll_send, send_buf_is_empty in Ep. destruct (st_send_buf st) as [|b buf] eqn:Eb; [done|].
      rewrite <- Eb in *. injection Ep as <- _ _. simpl. rewrite length_drop.
      assert (1 <= length (st_send_buf st))%nat by (rewrite Eb; simpl; lia). unfold MAX_PAYLOAD. lia.
Qed.

Lemma fin_stage s now sid s' ps acc :
  flush_fin s now sid = (s', Ok ps) ->
  stage now acc s s' ps /\
  (forall id, id <> sid -> ss_streams s' !! id = ss_streams s !! id) /\
  (forall st, ss_streams s !! sid = Some st -> st_send_buf st = [] ->
     exists st', ss_streams s' !! sid = Some st' /\ stream_drained st') /\
  (ss_streams s !! sid = None -> ss_streams s' !! sid = None).
Proof.
  unfold flush_fin. destruct (ss_streams s !! sid) as [st|] eqn:Es.
  2: { intros [= <- <-]. split_and!; [apply stage_nil|done|done|done]. }
  destruct (Stream_should_send_fin st) eqn:Ef.
  - set (s1 := set_ss_streams s _). destruct (emit_data s1 now _) as [s2 [p|e]] eqn:Ee; [|done].
    intros [= <- <-]. pose proof (emit_data_spec _ _ _ _ _ Ee) as (_ & Hs2 & _ & _).
    split_and!; [by apply (stage_emit now acc s s1 _ s2 p eq_refl eq_refl Ee)| | |done].
    + intros id Hid. rewrite Hs2. simpl. by rewrite lookup_insert_ne.
    + intros st0 [= <-] Hb. exists (Stream_mark_fin_flushed st). rewrite Hs2. simpl.
      rewrite lookup_insert_eq. split; [done|]. split; [done|]. unfold Stream_should_send_fin. simpl.
      by rewrite andb_false_r.
  - intros [= <- <-]. split_and!; [apply stage_nil|done| |congruence].
    intros st0 [= <-] Hb. exists st. done.
Qed.

Lemma streams_stage ids : forall s now s' ps acc,
  flush_streams s now ids = (s', Ok ps) ->
  stage now acc s s' ps /\
  (forall id, ~ In id ids -> ss_streams s' !! id = ss_streams s !! id) /\
  (forall id st, In id ids -> ss_streams s' !! id = Some st -> stream_drained st).
Proof.
  induction ids as [|sid ids IH]; intros s now s' ps acc; cbn [flush_streams].
  { intros [= <- <-]. split_and!; [apply stage_nil|done|done]. }
  destruct (drain_stream _ s now sid) as [s1 [ps1|e]] eqn:E1; [|done].
  destruct (flush_fin s1 now sid) as [s2 [ps2|e]] eqn:E2; [|done].
  destruct (flush_streams s2 now ids) as [s3 [ps3|e]] eqn:E3; [|done]. intros [= <- <-].
  destruct (drain_stage _ _ _ _ _ _ acc E1) as (A1 & A2 & A3 & A4).
  destruct (fin_stage _ _ _ _ _ (acc ++ ps1) E2) as (B1 & B2 & B3 & B4).
  destruct (IH _ _ _ _ (acc ++ ps1 ++ ps2) E3) as (C1 & C2 & C3).
  split_and!.
  - rewrite (app_assoc ps1). apply (stage_app now acc s s2 s3); [|done]. by apply (stage_app now acc s s1 s2).
  - intros id Hni. rewrite C2, B2, A2; [done|..]; intros Hx; apply Hni; [by left|by left|by right].
  - intros id st Hin Hst. destruct (in_dec Z.eq_dec id ids) as [Hr|Hr]; [by apply (C3 id)|].
    destruct Hin as [<-|Hin]; [|done]. rewrite C2 in Hst by done.
    destruct (ss_streams s !! sid) as [st0|] eqn:Es.
    + destruct (A3 st0 eq_refl) as (st1 & Hs1 & Hb1); [unfold drain_fuel; rewrite Es; lia|].
      destruct (B3 st1 Hs1 Hb1) as (st2 & Hs2 & Hd2). congruence.
    + rewrite B4 in Hst; [done|]. by apply A4.
Qed.

(** The later stages keep streams and the ARQ. *)
Definition keeps (s s' : Session) : Prop := ss_streams s' = ss_streams s /\ ss_arq s' = ss_arq s.

Lemma control_keeps s t p s' ps : emit_control s t p = (s', Ok ps) ->
  keeps s s' /\ (exists w, ps = [mkTaggedPacket true w]) /\
  ss_datagrams s' = ss_datagrams s /\ ss_ack_ranges s' = ss_ack_ranges s /\
  ss_pending_max_data s' = ss_pending_max_data s /\ ss_pending_pong s' = ss_pending_pong s /\
  ss_pending_ping s' = ss_pending_ping s.
Proof.
  unfold emit_control, encode_packet. destruct (PacketEncoder_encode _ _ _ _) as [[e o] [n|err]]; [|done].
  intros [= <- <-]. split_and!; try done. eauto.
Qed.

Lemma datagrams_keeps fuel : forall s s' ps,
  (length (dq_send_queue (ss_datagrams s)) < fuel)%nat ->
  flush_datagrams fuel s = (s', Ok ps) ->
  keeps s s' /\ dq_send_queue (ss_datagrams s') = [] /\
  Forall (fun p => tp_is_control p = false) ps /\ length ps = length (dq_send_queue (ss_datagrams s)) /\
  ss_ack_ranges s' = ss_ack_ranges s /\ ss_pending_max_data s' = ss_pending_max_data s /\
  ss_pending_pong s' = ss_pending_pong s /\ ss_pending_ping s' = ss_pending_ping s.
Proof.
  induction fuel as [|fuel IH]; intros s s' ps Hf; [lia|]. cbn [flush_datagrams].
  unfold DatagramQueue_poll_send. destruct (dq_send_queue (ss_datagrams s)) as [|x q] eqn:Eq.
  { intros [= <- <-]. split_and!; try done. }
  destruct (encode_packet _ Datagram x) as [s2 [out|e]] eqn:Ee; [|done].
  destruct (flush_datagrams fuel s2) as [s3 [ps'|e]] eqn:Ed; [|done]. intros [= <- <-].
  assert (ss_streams s2 = ss_streams s /\ ss_arq s2 = ss_arq s /\ dq_send_queue (ss_datagrams s2) = q /\
    ss_ack_ranges s2 = ss_ack_ranges s /\ ss_pending_max_data s2 = ss_pending_max_data s /\
    ss_pending_pong s2 = ss_pending_pong s /\ ss_pending_ping s2 = ss_pending_ping s) as (K1 & K2 & K3 & K4 & K5 & K6 & K7).
  { unfold encode_packet in Ee. destruct (PacketEncoder_encode _ _ _ _) as [[en o] r]. injection Ee as <- _. done. }
  destruct (IH s2 s3 ps') as ((H1 & H2) & H3 & H4 & H5 & H6 & H7 & H8 & H9); [rewrite K3; simpl in Hf; lia|done|].
  unfold keeps. split_and!; try congruence; [by constructor|]. simpl. rewrite H5, K3. done.
Qed.

(** The state after the final, control stages. *)
Lemma control_stages s now s' ps :
  then_flush (then_flush (then_flush (flush_ack s now) flush_max_data) flush_pong) flush_ping = (s', Ok ps) ->
  keeps s s' /\ Forall (fun p => tp_is_control p = true) ps /\ (length ps <= 4)%nat /\
  ss_datagrams s' = ss_datagrams s /\ ar_ack_pending (ss_ack_ranges s') = false /\
  ss_pending_max_data s' = None /\ ss_pending_pong s' = false /\ ss_pending_ping s' = false.
Proof.
  destruct (flush_ack s now) as [s1 [p1|]] eqn:E1; [|done]. cbn [then_flush].
  destruct (flush_max_data s1) as [s2 [p2|]] eqn:E2; [|done]. cbn [then_flush].
  destruct (flush_pong s2) as [s3 [p3|]] eqn:E3; [|done]. cbn [then_flush].
  destruct (flush_ping s3) as [s4 [p4|]] eqn:E4; [|done]. intros [= <- <-].
  unfold flush_ack in E1. unfold flush_max_data in E2. unfold flush_pong in E3. unfold flush_ping in E4.
  assert (keeps s s1 /\ (length p1 <= 1)%nat /\ Forall (fun p => tp_is_control p = true) p1 /\
    ss_datagrams s1 = ss_datagrams s /\ ar_ack_pending (ss_ack_ranges s1) = false) as (A1 & A2 & A3 & A4 & A5).
  { destruct (Session_has_pending_ack s) eqn:Ep.
    - destruct (AckRanges_build_frame _ _) as [a f] eqn:Ef.
      destruct (control_keeps _ _ _ _ _ E1) as (K & (w & ->) & D & Ak & _).
      split_and!; try done; [by repeat constructor|]. rewrite Ak. simpl.
      unfold AckRanges_build_frame in Ef. destruct (rev _); [by injection Ef as <- _|].
      destruct (build_ranges _ _ _) as [|[? ?] ?]; by injection Ef as <- _.
    - injection E1 as <- <-. split_and!; try done; try (simpl; lia); by repeat constructor. }
  assert (keeps s1 s2 /\ (length p2 <= 1)%nat /\ Forall (fun p => tp_is_control p = true) p2 /\
    ss_datagrams s2 = ss_datagrams s1 /\ ss_ack_ranges s2 = ss_ack_ranges s1 /\
    ss_pending_max_data s2 = None) as (B1 & B2 & B3 & B4 & B5 & B6).
  { destruct (ss_pending_max_data s1) as [l|] eqn:Ep.
    - destruct (emit_control _ _ _) as [t [q|]] eqn:Ec; [|done]. injection E2 as <- <-.
      destruct (control_keeps _ _ _ _ _ Ec) as (K & (w & ->) & D & Ak & M & _).
      split_and!; try done; try (simpl; lia); by repeat constructor.
    - injection E2 as <- <-. split_and!; try done; try (simpl; lia); by repeat constructor. }
  assert (keeps s2 s3 /\ (length p3 <= 1)%nat /\ Forall (fun p => tp_is_control p = true) p3 /\
    ss_datagrams s3 = ss_datagrams s2 /\ ss_ack_ranges s3 = ss_ack_ranges s2 /\
    ss_pending_max_data s3 = ss_pending_max_data s2 /\ ss_pending_pong s3 = false) as (C1 & C2 & C3 & C4 & C5 & C6 & C7).
  { destruct (ss_pending_pong s2) eqn:Ep.
    - destruct (control_keeps _ _ _ _ _ E3) as (K & (w & ->) & D & Ak & M & Po & _).
      split_and!; try done; try (simpl; lia); by repeat constructor.
    - injection E3 as <- <-. split_and!; try done; try (simpl; lia); by repeat constructor. }
  assert (keeps s3 s4 /\ (length p4 <= 1)%nat /\ Forall (fun p => tp_is_control p = true) p4 /\
    ss_datagrams s4 = ss_datagrams s3 /\ ss_ack_ranges s4 = ss_ack_ranges s3 /\
    ss_pending_max_data s4 = ss_pending_max_data s3 /\ ss_pending_pong s4 = ss_pending_pong s3 /\
    ss_pending_ping s4 = false) as (D1 & D2 & D3 & D4 & D5 & D6 & D7 & D8).
  { destruct (ss_pending_ping s3) eqn:Ep.
    - destruct (control_keeps _ _ _ _ _ E4) as (K & (w & ->) & D & Ak & M & Po & Pi).
      split_and!; try done; try (simpl; lia); by repeat constructor.
    - injection E4 as <- <-. split_and!; try done; try (simpl; lia); by repeat constructor. }
  unfold keeps in *. destruct A1, B1, C1, D1. split_and!; try congruence.
  - repeat (apply Forall_app; split); done.
  - rewrite !length_app. lia.
Qed.

Lemma then_flush_inv_ok r k s' ps : then_flush r k = (s', Ok ps) ->
  exists s1 p1 p2, r = (s1, Ok p1) /\ k s1 = (s', Ok p2) /\ ps = p1 ++ p2.
Proof.
  destruct r as [s1 [p1|e]]; simpl; [|done]. destruct (k s1) as [s2 [p2|e]] eqn:E; [|done].
  intros [= <- <-]. eauto 6.
Qed.

Lemma sort_In prio l x : In x (sort_by_priority prio l) <-> In x l.
Proof.
  assert (forall y m, In x (insert_by_priority prio y m) <-> x = y \/ In x m) as H.
  { intros y m. induction m as [|z m IH]; simpl; [intuition|]. destruct (_ <=? _); simpl; [intuition|].
    rewrite IH. intuition. }
  unfold sort_by_priority. induction l as [|y l IH]; simpl; [done|]. rewrite H, IH. intuition.
Qed.

(** ** A flush never fails *)

Section Success.
Context {L : CryptoLaws C}.

(** Nothing the later stages read has changed but the packet counter. *)
Definition same_inputs (s s' : Session) : Prop :=
  pe_keys (ss_encoder s') = pe_keys (ss_encoder s) /\ ss_datagrams s' = ss_datagrams s /\
  ss_ack_ranges s' = ss_ack_ranges s.

Lemma same_inputs_refl s : same_inputs s s.
Proof. done. Qed.
#[local] Hint Resolve same_inputs_refl : core.

Lemma same_inputs_trans s1 s2 s3 : same_inputs s1 s2 -> same_inputs s2 s3 -> same_inputs s1 s3.
Proof. unfold same_inputs. intros (-> & -> & ->) (-> & -> & ->). done. Qed.

Lemma encode_packet_succeeds s t p :
  keys_wf (pe_keys (ss_encoder s)) -> (length p <= AEAD_MAX_LEN)%nat ->
  exists s' out, encode_packet s t p = (s', Ok out) /\ same_inputs s s'.
Proof.
  intros Hk Hp. unfold encode_packet. set (out := replicate _ x00).
  destruct (encode_total (ss_encoder s) t p out Hk Hp) as (e' & out' & He).
  { unfold out. rewrite length_replicate. unfold encode_buf_len, HEADER_LEN, TAG_LEN. lia. }
  destruct (encode_Ok _ _ _ _ _ _ _ Hk He) as (ct & _ & _ & _ & _ & _ & He'). rewrite He.
  eexists _, _. split; [done|]. by rewrite He'.
Qed.

Lemma emit_data_succeeds s now f :
  keys_wf (pe_keys (ss_encoder s)) -> (length f <= AEAD_MAX_LEN)%nat ->
  exists s' p, emit_data s now f = (s', Ok p) /\ same_inputs s s'.
Proof.
  intros Hk Hf. destruct (encode_packet_succeeds s Data f Hk Hf) as (s1 & out & He & Hs).
  unfold emit_data. rewrite He. eauto.
Qed.

Lemma length_stream_frame fin sid off c : length (stream_frame fin sid off c) = (16 + length c)%nat.
Proof. unfold stream_frame. rewrite !length_app, !length_to_le. done. Qed.

Lemma drain_succeeds fuel : forall s now sid, keys_wf (pe_keys (ss_encoder s)) ->
  exists s' ps, drain_stream fuel s now sid = (s', Ok ps) /\ same_inputs s s'.
Proof.
  induction fuel as [|fuel IH]; intros s now sid Hk; cbn [drain_stream]; [by eauto 6|].
  destruct (ss_streams s !! sid) as [st|]; [|by eauto 6].
  destruct (Stream_poll_send st (MAX_PAYLOAD - 14)) as [[st' [o c]]|] eqn:Ep; [|by eauto 6].
  assert (length c <= 1386)%nat as Hc.
  { unfold Stream_poll_send in Ep. destruct (send_buf_is_empty st); [done|]. injection Ep as _ _ <-.
    rewrite length_take. unfold MAX_PAYLOAD. lia. }
  destruct (emit_data_succeeds (set_ss_streams s (<[sid:=st']> (ss_streams s))) now
              (stream_frame false sid o c) Hk) as (s2 & p & -> & H2).
  { rewrite length_stream_frame. unfold AEAD_MAX_LEN. lia. }
  destruct (IH s2 now sid) as (s3 & ps & -> & H3); [by rewrite (proj1 H2)|].
  eexists _, _. split; [done|]. by apply (same_inputs_trans _ s2).
Qed.

Lemma streams_succeed ids : forall s now, keys_wf (pe_keys (ss_encoder s)) ->
  exists s' ps, flush_streams s now ids = (s', Ok ps) /\ same_inputs s s'.
Proof.
  induction ids as [|sid ids IH]; intros s now Hk; cbn [flush_streams]; [by eauto 6|].
  destruct (drain_succeeds (drain_fuel s sid) s now sid Hk) as (s1 & p1 & -> & H1).
  assert (keys_wf (pe_keys (ss_encoder s1))) as Hk1 by by rewrite (proj1 H1).
  assert (exists s2 p2, flush_fin s1 now sid = (s2, Ok p2) /\ same_inputs s1 s2) as (s2 & p2 & -> & H2).
  { unfold flush_fin. destruct (ss_streams s1 !! sid) as [st|]; [|by eauto 6].
    destruct (Stream_should_send_fin st); [|by eauto 6].
    destruct (emit_data_succeeds (set_ss_streams s1 (<[sid:=Stream_mark_fin_flushed st]> (ss_streams s1))) now
                (stream_frame true sid (st_send_offset st) []) Hk1) as (s2 & p & -> & H2); [|by eauto 6].
    rewrite length_stream_frame. unfold AEAD_MAX_LEN. simpl. lia. }
  destruct (IH s2 now) as (s3 & p3 & -> & H3); [by rewrite (proj1 H2)|].
  eexists _, _. split; [done|]. apply (same_inputs_trans _ s1); [done|]. by apply (same_inputs_trans _ s2).
Qed.

Lemma datagrams_succeed fuel : forall s, keys_wf (pe_keys (ss_encoder s)) ->
  Forall (fun d => length d <= AEAD_MAX_LEN)%nat (dq_send_queue (ss_datagrams s)) ->
  exists s' ps, flush_datagrams fuel s = (s', Ok ps) /\
    pe_keys (ss_encoder s') = pe_keys (ss_encoder s) /\ ss_ack_ranges s' = ss_ack_ranges s.
Proof.
  induction fuel as [|fuel IH]; intros s Hk Hd; cbn [flush_datagrams]; [by eauto 6|].
  unfold DatagramQueue_poll_send. destruct (dq_send_queue (ss_datagrams s)) as [|d q] eqn:Eq; [by eauto 6|].
  inversion_clear Hd as [|? ? Hd1 Hd2].
  match goal with |- context [encode_packet ?s1 Datagram d] =>
    destruct (encode_packet_succeeds s1 Datagram d Hk Hd1) as (s2 & out & -> & K1 & K2 & K3) end.
  destruct (IH s2) as (s3 & ps & -> & H3 & H4).
  - by rewrite K1.
  - by rewrite K2.
  - eexists _, _. split; [done|]. by rewrite H3, H4, K1, K3.
Qed.

Lemma control_succeeds s t p : keys_wf (pe_keys (ss_encoder s)) -> (length p <= AEAD_MAX_LEN)%nat ->
  exists s' ps, emit_control s t p = (s', Ok ps) /\ pe_keys (ss_encoder s') = pe_keys (ss_encoder s).
Proof.
  intros Hk Hp. destruct (encode_packet_succeeds s t p Hk Hp) as (s1 & out & He & H & _).
  unfold emit_control. rewrite He. eauto.
Qed.

Lemma length_build_ranges pns : forall a b, (length (build_ranges a b pns) <= S (length pns))%nat.
Proof.
  induction pns as [|x pns IH]; intros a b; simpl; [lia|]. destruct (_ =? _); simpl.
  - pose proof (IH x b). lia.
  - pose proof (IH x x). lia.
Qed.

Lemma length_extra rs : forall q, length (extra_ranges_bytes q rs) = (16 * length rs)%nat.
Proof.
  induction rs as [|[a b] rs IH]; intros q; cbn [extra_ranges_bytes]; [done|].
  rewrite !length_app, !length_to_le, IH. simpl length. lia.
Qed.

Lemma length_ack_frame a now :
  (length (snd (AckRanges_build_frame a now)) <= 26 + 16 * length (ar_received a))%nat.
Proof.
  unfold AckRanges_build_frame. rewrite <- (length_rev (ar_received a)).
  destruct (rev (ar_received a)) as [|x l]; [cbn [snd]; rewrite !length_app, !length_to_le; simpl; lia|].
  pose proof (length_build_ranges l x x) as H. destruct (build_ranges x x l) as [|[a0 b0] e]; [simpl; lia|].
  cbn [snd]. rewrite !length_app, !length_to_le, length_extra. simpl length in *. lia.
Qed.

Lemma flush_succeeds s now order :
  keys_wf (pe_keys (ss_encoder s)) ->
  Forall (fun d => length d <= AEAD_MAX_LEN)%nat (dq_send_queue (ss_datagrams s)) ->
  Z.of_nat (length (ar_received (ss_ack_ranges s))) <= ACK_RETAIN_WINDOW + 1 ->
  exists s' ps, Session_flush s now order = (s', Ok ps).
Proof.
  intros Hk Hd Ha. unfold Session_flush.
  destruct (streams_succeed (sort_by_priority (stream_priority s) order) s now Hk)
    as (s1 & p1 & -> & K1 & D1 & A1). cbn [then_flush].
  destruct (datagrams_succeed (S (length (dq_send_queue (ss_datagrams s1)))) s1) as (s2 & p2 & -> & K2 & A2).
  { by rewrite K1. } { by rewrite D1. }
  cbn [then_flush]. assert (keys_wf (pe_keys (ss_encoder s2))) as Hk2 by by rewrite K2, K1.
  assert (exists s3 p3, flush_ack s2 now = (s3, Ok p3) /\ pe_keys (ss_encoder s3) = pe_keys (ss_encoder s2))
    as (s3 & p3 & -> & K3).
  { unfold flush_ack. destruct (Session_has_pending_ack s2); [|by eauto 6].
    pose proof (length_ack_frame (ss_ack_ranges s2) now) as Hf.
    destruct (AckRanges_build_frame (ss_ack_ranges s2) now) as [a f]. cbn [snd] in Hf.
    apply (control_succeeds (set_ss_ack_ranges s2 a)); [done|]. rewrite A2, A1 in Hf. unfold AEAD_MAX_LEN, ACK_RETAIN_WINDOW in *. lia. }
  cbn [then_flush]. assert (keys_wf (pe_keys (ss_encoder s3))) as Hk3 by by rewrite K3.
  assert (exists s4 p4, flush_max_data s3 = (s4, Ok p4) /\ pe_keys (ss_encoder s4) = pe_keys (ss_encoder s3))
    as (s4 & p4 & -> & K4).
  { unfold flush_max_data. destruct (ss_pending_max_data s3) as [l|]; [|by eauto 6].
    destruct (control_succeeds (set_ss_pending_max_data s3 None) MaxData (to_be 8 l) Hk3) as (s4 & p4 & -> & K4).
    - rewrite length_to_be. unfold AEAD_MAX_LEN. lia.
    - eauto. }
  cbn [then_flush]. assert (keys_wf (pe_keys (ss_encoder s4))) as Hk4 by by rewrite K4.
  assert (exists s5 p5, flush_pong s4 = (s5, Ok p5) /\ pe_keys (ss_encoder s5) = pe_keys (ss_encoder s4))
    as (s5 & p5 & -> & K5).
  { unfold flush_pong. destruct (ss_pending_pong s4); [|by eauto 6].
    apply (control_succeeds (set_ss_pending_pong s4 false)); [done|simpl; lia]. }
  cbn [then_flush]. assert (keys_wf (pe_keys (ss_encoder s5))) as Hk5 by by rewrite K5.
  unfold flush_ping. destruct (ss_pending_ping s5); [|by eauto 6].
  destruct (control_succeeds (set_ss_pending_ping s5 false) Ping []) as (s6 & p6 & -> & _); [done|simpl; lia|].
  eauto.
Qed.
End Success.

(** What a flush that returned packets leaves behind. *)
Lemma flush_leaves (s s' : Session) (now : Z) (order : list Z) (ps : list TaggedPacket) :
  (forall id, is_Some (ss_streams s !! id) -> In id order) ->
  Session_flush s now order = (s', Ok ps) ->
  0 <= pe_next_pkt_num (ss_encoder s) -> pe_next_pkt_num (ss_encoder s) + Z.of_nat (length ps) < 2 ^ 64 ->
  (forall id st, ss_streams s' !! id = Some st -> stream_drained st) /\
  dq_send_queue (ss_datagrams s') = [] /\ ar_ack_pending (ss_ack_ranges s') = false /\
  ss_pending_max_data s' = None /\ ss_pending_pong s' = false /\ ss_pending_ping s' = false /\
  exists s1 data rest,
    flush_streams s now (sort_by_priority (stream_priority s) order) = (s1, Ok data) /\
    ps = data ++ rest /\
    tracked now (ss_arq s') data (pe_next_pkt_num (ss_encoder s) + Z.of_nat (length data)).
Proof.
  intros Hord Hfl Hn Hlt. unfold Session_flush in Hfl.
  apply then_flush_inv_ok in Hfl as (s6 & p6 & p7 & Hfl & Eping & ->).
  apply then_flush_inv_ok in Hfl as (s5 & p5 & p8 & Hfl & Epong & ->).
  apply then_flush_inv_ok in Hfl as (s4 & p4 & p9 & Hfl & Emax & ->).
  apply then_flush_inv_ok in Hfl as (s2 & p3 & p10 & Hfl & Eack & ->).
  apply then_flush_inv_ok in Hfl as (s1 & data & dgs & E1 & E2 & ->).
  set (fuel := S (length (dq_send_queue (ss_datagrams s1)))) in E2.
  set (ctl := p10 ++ p9 ++ p8 ++ p7).
  assert (then_flush (then_flush (then_flush (flush_ack s2 now) flush_max_data) flush_pong) flush_ping =
    (s', Ok ctl)) as E3.
  { rewrite Eack. cbn [then_flush]. rewrite Emax. cbn [then_flush]. rewrite Epong. cbn [then_flush].
    rewrite Eping. unfold ctl. by rewrite <- !app_assoc. }
  rewrite <- !app_assoc in *. fold ctl in Hlt |- *.
  destruct (streams_stage _ _ _ _ _ [] E1) as (S1 & S2 & S3).
  destruct (datagrams_keeps fuel s1 s2 dgs ltac:(unfold fuel; lia) E2) as ((D1 & D1') & D2 & D3 & _).
  destruct (control_stages s2 now s' ctl E3) as ((K1 & K1') & K2 & K3 & K4 & K5 & K6 & K7 & K8).
  rewrite !length_app in Hlt.
  destruct (S1 Hn ltac:(lia)) as [_ T]; [by intros i p|]. cbn [app] in T.
  split_and!; try done; [|by rewrite K4|].
  - intros id st. rewrite K1, D1. intros Hst. destruct (in_dec Z.eq_dec id (sort_by_priority (stream_priority s) order)) as [Hin|Hni].
    + by apply (S3 id).
    + rewrite S2 in Hst by done. destruct Hni. apply sort_In, Hord. by exists st.
  - exists s1, data, (dgs ++ ctl). split_and!; try done. by rewrite K1', D1'.
Qed.

(** ** What a flush puts on the wire *)

Section Contents.
Context {L : CryptoLaws C}.

(** A stream frame: type, FIN flag, length, stream, offset, bytes. *)
Definition data_frame (fin : bool) (sid off : Z) (c : list byte) : list byte :=
  [x01; if fin then x01 else x00] ++ to_le 2 (Z.of_nat (length c)) ++ to_le 4 sid ++ to_le 8 off ++ c.

(** The frames of consecutive pieces of a stream, of which the last one ends
    at the offset [last]. *)
Fixpoint data_frames (sid last : Z) (cs : list (list byte)) : list (list byte) :=
  match cs with
  | [] => []
  | c :: cs' =>
      data_frame false sid (wrap 64 (last - Z.of_nat (length (concat cs)))) c :: data_frames sid last cs'
  end.

(** The frames a stream owes: its buffered bytes, cut into non-empty pieces of
    at most 1386 bytes, the last of which ends at the send offset, then the FIN
    if one was asked for and not sent yet. *)
Definition stream_frames (sid : Z) (st : Stream) (fs : list (list byte)) : Prop :=
  exists cs, concat cs = st_send_buf st /\ Forall (fun c => 0 < length c <= 1386)%nat cs /\
    fs = data_frames sid (st_send_offset st) cs ++
      (if st_fin_sent st && negb (st_fin_flushed st) then [data_frame true sid (st_send_offset st) []] else []).

(** The control packets owed, in the order in which they are sent. *)
Definition owed_control (s : Session) (now : Z) : list (PktType * list byte) :=
  (if ar_ack_pending (ss_ack_ranges s)
   then [(Ack, snd (AckRanges_build_frame (ss_ack_ranges s) now))] else []) ++
  (match ss_pending_max_data s with Some l => [(MaxData, to_be 8 l)] | None => [] end) ++
  (if ss_pending_pong s then [(Pong, [])] else []) ++
  (if ss_pending_ping s then [(Ping, [])] else []).

Definition is_payload (t : PktType) : bool :=
  match t with Data | Datagram => true | _ => false end.

(** The packets [ps], numbered from [n], carry the payloads [pl]. *)
Fixpoint carries (keys : PacketKeys) (sess n : Z) (pl : list (PktType * list byte))
    (ps : list TaggedPacket) : Prop :=
  match pl, ps with
  | [], [] => True
  | (t, p) :: pl', k :: ps' =>
      (tp_is_control k = negb (is_payload t) /\ sealed keys sess n t p (tp_bytes k)) /\
      carries keys sess (wrapping_add 64 n 1) pl' ps'
  | _, _ => False
  end.

(** From [s] to [s'] exactly the payloads [pl] were sent, as [ps]. *)
Definition sends (s s' : Session) (pl : list (PktType * list byte)) (ps : list TaggedPacket) : Prop :=
  pe_keys (ss_encoder s') = pe_keys (ss_encoder s) /\
  pe_session_id (ss_encoder s') = pe_session_id (ss_encoder s) /\
  pe_next_pkt_num (ss_encoder s') =
    Nat.iter (length pl) (fun n => wrapping_add 64 n 1) (pe_next_pkt_num (ss_encoder s)) /\
  carries (pe_keys (ss_encoder s)) (pe_session_id (ss_encoder s)) (pe_next_pkt_num (ss_encoder s)) pl ps.

Lemma carries_app keys sess pl1 : forall n pl2 ps1 ps2,
  carries keys sess n pl1 ps1 ->
  carries keys sess (Nat.iter (length pl1) (fun n => wrapping_add 64 n 1) n) pl2 ps2 ->
  carries keys sess n (pl1 ++ pl2) (ps1 ++ ps2).
Proof.
  induction pl1 as [|[t p] pl1 IH]; intros n pl2 [|k ps1] ps2 H1 H2; try done.
  destruct H1 as [Hk H1]. cbn [app carries]. split; [done|]. apply IH; [done|].
  cbn [length] in H2. by rewrite Nat.iter_succ_r in H2.
Qed.

Lemma sends_nil s : sends s s [] [].
Proof. done. Qed.

Lemma sends_app s1 s2 s3 pl1 pl2 ps1 ps2 :
  sends s1 s2 pl1 ps1 -> sends s2 s3 pl2 ps2 -> sends s1 s3 (pl1 ++ pl2) (ps1 ++ ps2).
Proof.
  intros (K1 & I1 & N1 & C1) (K2 & I2 & N2 & C2). rewrite K1, I1, N1 in *.
  split_and!; try congruence; [|by apply carries_app].
  rewrite N2, length_app, Nat.add_comm. by rewrite Nat.iter_add.
Qed.

(** Only the encoder counts. *)
Lemma sends_encoder s0 s s' s1 pl ps :
  ss_encoder s0 = ss_encoder s -> ss_encoder s1 = ss_encoder s' -> sends s0 s1 pl ps -> sends s s' pl ps.
Proof. unfold sends. by intros -> ->. Qed.

Lemma encode_packet_sends s t p s' wire k :
  encode_packet s t p = (s', Ok wire) -> tp_bytes k = wire -> tp_is_control k = negb (is_payload t) ->
  sends s s' [(t, p)] [k].
Proof.
  unfold encode_packet. destruct (PacketEncoder_encode _ _ _ _) as [[e out] r] eqn:He.
  intros [= <- Hr] Hw Hc. destruct r as [n|err]; [|done]. injection Hr as Hr.
  eapply encode_sealed in He as [-> Hs].
  2: { rewrite length_replicate. unfold encode_buf_len, HEADER_LEN, TAG_LEN. lia. }
  destruct (encrypt_in_place _ _ _ _) as [ct|err] eqn:Ee; [|done]. destruct Hs as (Hn & Hl & Ho).
  injection Hn as ->. split_and!; [done..|]. split; [|done]. split; [done|].
  exists ct. split_and!; [done|done|]. rewrite Hw, <- Hr, Ho, app_assoc, take_app_length'; [done|].
  rewrite length_app, length_apply_header_protection, length_build_header, Hl.
  unfold encode_buf_len, HEADER_LEN, TAG_LEN. lia.
Qed.

Lemma emit_data_sends s now f s' p : emit_data s now f = (s', Ok p) -> sends s s' [(Data, f)] [p].
Proof.
  unfold emit_data. destruct (encode_packet s Data f) as [s1 [out|e]] eqn:E; [|done].
  intros [= <- <-]. apply (sends_encoder s s _ s1); [done|done|]. by eapply encode_packet_sends.
Qed.

Lemma emit_control_sends s t p s' ps :
  is_payload t = false -> emit_control s t p = (s', Ok ps) -> sends s s' [(t, p)] ps.
Proof.
  intros Ht. unfold emit_control. destruct (encode_packet s t p) as [s1 [out|e]] eqn:E; [|done].
  intros [= <- <-]. eapply encode_packet_sends; [done|done|by rewrite Ht].
Qed.

Lemma drain_sends fuel : forall s now sid s' ps st,
  drain_stream fuel s now sid = (s', Ok ps) ->
  ss_streams s !! sid = Some st -> (length (st_send_buf st) < fuel)%nat ->
  exists cs, concat cs = st_send_buf st /\ Forall (fun c => 0 < length c <= 1386)%nat cs /\
    sends s s' (map (pair Data) (data_frames sid (st_send_offset st) cs)) ps /\
    ss_streams s' !! sid = Some (set_send st [] (st_send_offset st)) /\ same_rest s s'.
Proof.
  induction fuel as [|fuel IH]; intros s now sid s' ps st H Hst Hf; [lia|].
  cbn [drain_stream] in H. rewrite Hst in H. unfold Stream_poll_send, send_buf_is_empty in H.
  destruct (st_send_buf st) as [|b buf] eqn:Eb.
  { injection H as <- <-. exists []. split_and!; try done. by destruct st; cbn in *; subst. }
  assert (1 <= length (st_send_buf st))%nat as Hpos by (rewrite Eb; simpl; lia).
  rewrite <- Eb in *. clear Eb.
  set (n := Nat.min _ _) in H. assert (1 <= n <= 1386)%nat as Hn by (unfold n, MAX_PAYLOAD; lia).
  set (st1 := set_send st (drop n (st_send_buf st)) (st_send_offset st)) in H.
  set (s1 := set_ss_streams s _) in H. set (c := take n (st_send_buf st)) in H.
  destruct (emit_data s1 now _) as [s2 [p|e]] eqn:Ee; [|done].
  destruct (drain_stream fuel s2 now sid) as [s3 [ps'|e]] eqn:Ed; [|done]. injection H as <- <-.
  assert (same_rest s s2 /\ ss_streams s2 = ss_streams s1) as [Hsame Hstr].
  { clear -Ee. unfold emit_data, encode_packet in Ee. destruct (PacketEncoder_encode _ _ _ _) as [[? ?] [?|?]]; [|done].
    by injection Ee as <- _. }
  destruct (IH s2 now sid s3 ps' st1 Ed) as (cs & Hcs & Hall & Hs & Hst3 & Hsame3).
  { rewrite Hstr. apply lookup_insert_eq. } { cbn. rewrite length_drop. lia. }
  cbn [st1 set_send st_send_buf st_send_offset] in *.
  exists (c :: cs). assert (concat (c :: cs) = st_send_buf st) as Hc.
  { cbn [concat]. rewrite Hcs. apply take_drop. }
  split_and!; [done| | |done|].
  - constructor; [|done]. unfold c. rewrite length_take. lia.
  - cbn [data_frames map]. rewrite Hc. apply (sends_app s s2 s3 [_] _ [p] ps'); [|done].
    by apply (sends_encoder s1 s s2 s2), (emit_data_sends _ now).
  - unfold same_rest in *. destruct Hsame as (? & ? & ? & ? & ?), Hsame3 as (? & ? & ? & ? & ?). split_and!; congruence.
Qed.

Lemma fin_sends s now sid s' ps st :
  flush_fin s now sid = (s', Ok ps) -> ss_streams s !! sid = Some st ->
  sends s s' (map (pair Data)
    (if Stream_should_send_fin st then [data_frame true sid (st_send_offset st) []] else [])) ps /\
  same_rest s s'.
Proof.
  unfold flush_fin. intros H Hst. rewrite Hst in H.
  destruct (Stream_should_send_fin st); [|by injection H as <- <-].
  destruct (emit_data _ now _) as [s2 [p|e]] eqn:Ee; [|done]. injection H as <- <-. split.
  - eapply sends_encoder; [| |by eapply emit_data_sends]; done.
  - unfold emit_data, encode_packet in Ee. destruct (PacketEncoder_encode _ _ _ _) as [[? ?] [?|?]]; [|done].
    by injection Ee as <- _.
Qed.

(** What the stream [id] of [s] owes. *)
Definition owes (s : Session) (id : Z) (fs : list (list byte)) : Prop :=
  match ss_streams s !! id with Some st => stream_frames id st fs | None => fs = [] end.

Lemma streams_send ids : forall s now s' ps, List.NoDup ids ->
  flush_streams s now ids = (s', Ok ps) ->
  exists frames, Forall2 (owes s) ids frames /\ sends s s' (map (pair Data) (concat frames)) ps /\ same_rest s s'.
Proof.
  induction ids as [|sid ids IH]; intros s now s' ps Hnd H; cbn [flush_streams] in H.
  { injection H as <- <-. by exists []. }
  destruct (drain_stream _ s now sid) as [s1 [ps1|e]] eqn:E1; [|done].
  destruct (flush_fin s1 now sid) as [s2 [ps2|e]] eqn:E2; [|done].
  destruct (flush_streams s2 now ids) as [s3 [ps3|e]] eqn:E3; [|done]. injection H as <- <-.
  inversion_clear Hnd as [|? ? Hni Hnd']. destruct (IH _ _ _ _ Hnd' E3) as (frames & Hf & Hs & Hr).
  destruct (drain_stage _ _ _ _ _ _ [] E1) as (_ & A2 & _ & A4).
  destruct (fin_stage _ _ _ _ _ [] E2) as (_ & B2 & _ & B4).
  assert (Forall2 (owes s) ids frames) as Hf'.
  { clear -Hf Hni A2 B2. revert Hni. induction Hf as [|id fs ids frames Ho Hf IHf]; intros Hni; constructor.
    - unfold owes in *. cbn in Hni. rewrite B2, A2 in Ho by tauto. done.
    - apply IHf. cbn in Hni. tauto. }
  destruct (ss_streams s !! sid) as [st|] eqn:Es.
  - destruct (drain_sends _ _ _ _ _ _ st E1 Es) as (cs & Hc & Hall & Hd & Hst1 & Hr1).
    { unfold drain_fuel. rewrite Es. lia. }
    destruct (fin_sends _ _ _ _ _ _ E2 Hst1) as [Hfin Hr2]. exists ((data_frames sid (st_send_offset st) cs ++
      (if st_fin_sent st && negb (st_fin_flushed st) then [data_frame true sid (st_send_offset st) []] else [])) :: frames).
    split_and!.
    + constructor; [|done]. unfold owes. rewrite Es. by exists cs.
    + cbn [concat]. rewrite !map_app, <- app_assoc. eapply sends_app; [exact Hd|]. eapply sends_app; [|exact Hs].
      unfold Stream_should_send_fin in Hfin. cbn in Hfin. by rewrite andb_true_r in Hfin.
    + unfold same_rest in *. destruct Hr as (? & ? & ? & ? & ?), Hr1 as (? & ? & ? & ? & ?), Hr2 as (? & ? & ? & ? & ?).
      split_and!; congruence.
  - unfold drain_fuel in E1. rewrite Es in E1. cbn [drain_stream] in E1. injection E1 as <- <-.
    unfold flush_fin in E2. rewrite Es in E2. injection E2 as <- <-.
    exists ([] :: frames). split_and!; [|done|done]. constructor; [|done]. unfold owes. by rewrite Es.
Qed.

Lemma datagrams_send fuel : forall s s' ps,
  (length (dq_send_queue (ss_datagrams s)) < fuel)%nat -> flush_datagrams fuel s = (s', Ok ps) ->
  sends s s' (map (pair Datagram) (dq_send_queue (ss_datagrams s))) ps.
Proof.
  induction fuel as [|fuel IH]; intros s s' ps Hf; [lia|]. cbn [flush_datagrams].
  unfold DatagramQueue_poll_send. destruct (dq_send_queue (ss_datagrams s)) as [|x q] eqn:Eq.
  { intros [= <- <-]. by eapply sends_encoder; [..|apply (sends_nil s)]. }
  destruct (encode_packet _ Datagram x) as [s2 [out|e]] eqn:Ee; [|done].
  destruct (flush_datagrams fuel s2) as [s3 [ps'|e]] eqn:Ed; [|done]. intros [= <- <-].
  assert (dq_send_queue (ss_datagrams s2) = q) as Hq.
  { unfold encode_packet in Ee. destruct (PacketEncoder_encode _ _ _ _) as [[en o] r]. by injection Ee as <- _. }
  specialize (IH s2 s3 ps'). rewrite Hq in IH. cbn [map].
  eapply (sends_app s s2 s3 [_] _ [_] ps'); [|apply IH; [cbn in Hf; lia|done]].
  eapply sends_encoder; [| |by eapply encode_packet_sends]; done.
Qed.

Lemma control_send s now s' ps :
  then_flush (then_flush (then_flush (flush_ack s now) flush_max_data) flush_pong) flush_ping = (s', Ok ps) ->
  sends s s' (owed_control s now) ps.
Proof.
  intros H. apply then_flush_inv_ok in H as (s3 & p3 & p4 & H & E4 & ->).
  apply then_flush_inv_ok in H as (s2 & p2 & p3' & H & E3 & ->).
  apply then_flush_inv_ok in H as (s1 & p1 & p2' & E1 & E2 & ->). rewrite <- !app_assoc. unfold owed_control.
  unfold flush_ack, Session_has_pending_ack, AckRanges_has_pending_ack in E1.
  unfold flush_max_data in E2. unfold flush_pong in E3. unfold flush_ping in E4.
  assert (forall s t p s' ps, emit_control s t p = (s', Ok ps) ->
    ss_pending_max_data s' = ss_pending_max_data s /\ ss_pending_pong s' = ss_pending_pong s /\
    ss_pending_ping s' = ss_pending_ping s) as Hkeep.
  { intros ????? Hc. by destruct (control_keeps _ _ _ _ _ Hc) as (_ & _ & _ & _ & ?). }
  eapply (sends_app s s1); [|eapply (sends_app s1 s2); [|eapply (sends_app s2 s3)]].
  - destruct (ar_ack_pending (ss_ack_ranges s)); [|by injection E1 as <- <-].
    destruct (AckRanges_build_frame _ _) as [a f].
    by eapply sends_encoder; [| |by eapply emit_control_sends].
  - assert (ss_pending_max_data s1 = ss_pending_max_data s) as Hm.
    { destruct (ar_ack_pending _); [|by injection E1 as <- <-].
      destruct (AckRanges_build_frame _ _) as [a f]. by destruct (Hkeep _ _ _ _ _ E1). }
    rewrite Hm in E2. destruct (ss_pending_max_data s) as [l|]; [|by injection E2 as <- <-].
    destruct (emit_control _ _ _) as [t [q|]] eqn:Ec; [|done]. injection E2 as <- <-.
    by eapply sends_encoder; [| |by eapply emit_control_sends].
  - assert (ss_pending_pong s2 = ss_pending_pong s) as Hm.
    { transitivity (ss_pending_pong s1).
      - destruct (ss_pending_max_data s1); [|by injection E2 as <- <-].
        destruct (emit_control _ _ _) as [t [q|]] eqn:Ec; [|done]. injection E2 as <- <-.
        by destruct (Hkeep _ _ _ _ _ Ec) as (_ & ? & _).
      - destruct (ar_ack_pending _); [|by injection E1 as <- <-].
        destruct (AckRanges_build_frame _ _) as [a f]. by destruct (Hkeep _ _ _ _ _ E1) as (_ & ? & _). }
    rewrite Hm in E3. destruct (ss_pending_pong s); [|by injection E3 as <- <-].
    by eapply sends_encoder; [| |by eapply emit_control_sends].
  - assert (ss_pending_ping s3 = ss_pending_ping s) as Hm.
    { transitivity (ss_pending_ping s2); [|transitivity (ss_pending_ping s1)].
      - destruct (ss_pending_pong s2); [|by injection E3 as <- <-].
        by destruct (Hkeep _ _ _ _ _ E3) as (_ & _ & ?).
      - destruct (ss_pending_max_data s1); [|by injection E2 as <- <-].
        destruct (emit_control _ _ _) as [t [q|]] eqn:Ec; [|done]. injection E2 as <- <-.
        by destruct (Hkeep _ _ _ _ _ Ec) as (_ & _ & ?).
      - destruct (ar_ack_pending _); [|by injection E1 as <- <-].
        destruct (AckRanges_build_frame _ _) as [a f]. by destruct (Hkeep _ _ _ _ _ E1) as (_ & _ & ?). }
    rewrite Hm in E4. destruct (ss_pending_ping s); [|by injection E4 as <- <-].
    by eapply sends_encoder; [| |by eapply emit_control_sends].
Qed.

Lemma sort_perm prio l : Permutation (sort_by_priority prio l) l.
Proof.
  assert (forall y m, Permutation (insert_by_priority prio y m) (y :: m)) as H.
  { intros y m. induction m as [|z m IH]; simpl; [done|]. destruct (_ <=? _); [done|].
    rewrite IH. apply perm_swap. }
  unfold sort_by_priority. induction l as [|y l IH]; simpl; [done|]. by rewrite H, IH.
Qed.

Lemma sort_sorted prio l : Sorted (fun a b => prio a <= prio b) (sort_by_priority prio l).
Proof.
  assert (forall y m, Sorted (fun a b => prio a <= prio b) m ->
    Sorted (fun a b => prio a <= prio b) (insert_by_priority prio y m)) as H.
  { intros y m Hm. induction Hm as [|z m Hm IH Hz]; simpl; [by repeat constructor|].
    destruct (prio y <=? prio z) eqn:E; cmp_facts; [by repeat constructor|]. constructor; [done|].
    destruct Hz as [|w m Hw]; simpl; [constructor; lia|]. destruct (prio y <=? prio w); constructor; lia. }
  unfold sort_by_priority. induction l as [|y l IH]; simpl; [constructor|]. by apply H.
Qed.

Lemma carries_length keys sess pl : forall n ps, carries keys sess n pl ps -> length ps = length pl.
Proof.
  induction pl as [|[t p] pl IH]; intros n [|k ps] H; try done. cbn. f_equal. exact (IH _ _ (proj2 H)).
Qed.

(** Everything a flush sends. *)
Lemma flush_sends s now order s' ps :
  List.NoDup order -> Session_flush s now order = (s', Ok ps) ->
  exists s1 data rest frames,
    flush_streams s now (sort_by_priority (stream_priority s) order) = (s1, Ok data) /\ ps = data ++ rest /\
    Forall2 (owes s) (sort_by_priority (stream_priority s) order) frames /\
    length data = length (concat frames) /\
    sends s s' (map (pair Data) (concat frames) ++ map (pair Datagram) (dq_send_queue (ss_datagrams s)) ++
      owed_control s now) ps.
Proof.
  intros Hnd Hfl. unfold Session_flush in Hfl.
  apply then_flush_inv_ok in Hfl as (s6 & p6 & p7 & Hfl & Eping & ->).
  apply then_flush_inv_ok in Hfl as (s5 & p5 & p8 & Hfl & Epong & ->).
  apply then_flush_inv_ok in Hfl as (s4 & p4 & p9 & Hfl & Emax & ->).
  apply then_flush_inv_ok in Hfl as (s2 & p3 & p10 & Hfl & Eack & ->).
  apply then_flush_inv_ok in Hfl as (s1 & data & dgs & E1 & E2 & ->).
  assert (then_flush (then_flush (then_flush (flush_ack s2 now) flush_max_data) flush_pong) flush_ping =
    (s', Ok (p10 ++ p9 ++ p8 ++ p7))) as E3.
  { rewrite Eack. cbn [then_flush]. rewrite Emax. cbn [then_flush]. rewrite Epong. cbn [then_flush].
    rewrite Eping. by rewrite <- !app_assoc. }
  rewrite <- !app_assoc in *.
  destruct (streams_send _ _ _ _ _ (Permutation_NoDup (Permutation_sym (sort_perm _ _)) Hnd) E1)
    as (frames & Hf & Hs1 & (D & A & M & Po & Pi)).
  pose proof E2 as Hs2. apply datagrams_send in Hs2; [|lia].
  apply datagrams_keeps in E2 as (_ & _ & _ & _ & A2 & M2 & Po2 & Pi2); [|lia].
  pose proof (control_send _ _ _ _ E3) as Hs3.
  assert (owed_control s2 now = owed_control s now) as Ho.
  { unfold owed_control. by rewrite A2, M2, Po2, Pi2, A, M, Po, Pi. }
  rewrite D in Hs2. rewrite Ho in Hs3.
  exists s1, data, (dgs ++ p10 ++ p9 ++ p8 ++ p7), frames. split_and!; [done..| |].
  - destruct Hs1 as (_ & _ & _ & Hc). apply carries_length in Hc. by rewrite length_map in Hc.
  - eapply sends_app; [exact Hs1|]. by eapply sends_app.
Qed.

(** A datagram that any decoder of the peer that has not seen the number yet
    opens as this packet, if it has the size of a datagram. *)
Definition opens_as (keys : PacketKeys) (num : Z) (t : PktType) (p wire : list byte) : Prop :=
  forall d, pd_keys d = keys -> pd_wf d -> ReplayWindow_check (pd_replay d) num = Ok tt ->
    Z.of_nat (length wire) <= MAX_PACKET_LEN ->
    exists d' buf, PacketDecoder_decode d wire = (d', buf, Ok (t, num, p)).

Lemma sealed_opens keys sess num t p wire : is_u64 num -> sealed keys sess num t p wire -> opens_as keys num t p wire.
Proof.
  intros Hn (ct & Hc & Hl & ->) d <- [Hwf Habs] Hchk Hmax.
  destruct (decode_packet d t sess num p ct) as [buf Hd]; [done|lia|done|done| | |].
  - by rewrite <- (rw_check_commit (pd_replay d)).
  - by apply decrypt_encrypt.
  - eauto.
Qed.

Lemma carries_lookup keys sess pl : forall n ps,
  carries keys sess n pl ps -> 0 <= n -> n + Z.of_nat (length ps) < 2 ^ 64 ->
  length ps = length pl /\
  forall i t p, pl !! i = Some (t, p) -> exists k, ps !! i = Some k /\
    tp_is_control k = negb (is_payload t) /\ opens_as keys (n + Z.of_nat i) t p (tp_bytes k).
Proof.
  induction pl as [|[t0 p0] pl IH]; intros n [|k ps] H H0 Hlt; try done.
  destruct H as [[Hk Hs] H]. cbn [length] in *. unfold wrapping_add in H.
  rewrite wrap_small in H by (unfold is_u; lia).
  destruct (IH (n + 1) ps H ltac:(lia) ltac:(lia)) as [Hl Hi]. split; [lia|].
  intros [|i] t p; cbn [lookup list_lookup].
  - intros [= <- <-]. exists k. split_and!; [done|done|]. rewrite Z.add_0_r.
    apply (sealed_opens keys sess); [unfold is_u; lia|done].
  - intros Hp. destruct (Hi i t p Hp) as (q & Hq & Hc & Ho). exists q. split_and!; [done|done|].
    by replace (n + Z.of_nat (S i)) with (n + 1 + Z.of_nat i) by lia.
Qed.

Lemma owed_control_no_data s now p : (Data, p) ∉ owed_control s now.
Proof.
  unfold owed_control. rewrite !elem_of_app, !list_elem_of_In.
  destruct (ar_ack_pending _), (ss_pending_max_data s), (ss_pending_pong s), (ss_pending_ping s);
    cbn; intuition discriminate.
Qed.

(** The number [n + i] of the packet at [i] is its own. *)
Lemma flush_contents s now order s' ps :
  List.NoDup order -> (forall id, is_Some (ss_streams s !! id) -> In id order) ->
  Session_flush s now order = (s', Ok ps) ->
  let n := pe_next_pkt_num (ss_encoder s) in
  0 <= n -> n + Z.of_nat (length ps) < 2 ^ 64 ->
  exists ids frames, Permutation ids order /\
    Sorted (fun a b => stream_priority s a <= stream_priority s b) ids /\ Forall2 (owes s) ids frames /\
    let pl := map (pair Data) (concat frames) ++ map (pair Datagram) (dq_send_queue (ss_datagrams s)) ++
              owed_control s now in
    length ps = length pl /\
    forall i t p, pl !! i = Some (t, p) -> exists k, ps !! i = Some k /\
      tp_is_control k = negb (is_payload t) /\
      opens_as (pe_keys (ss_encoder s)) (n + Z.of_nat i) t p (tp_bytes k) /\
      (t = Data -> om_lookup (n + Z.of_nat i) (aq_in_flight (ss_arq s')) =
                     Some (mkInFlight (tp_bytes k) now 0)).
Proof.
  intros Hnd Hord Hfl n Hn Hlt.
  destruct (flush_leaves s s' now order ps Hord Hfl Hn Hlt) as (_ & _ & _ & _ & _ & _ & s1 & data & rest & E1 & -> & Ht).
  destruct (flush_sends s now order s' _ Hnd Hfl) as (s1' & data' & rest' & frames & E1' & Hps & Hf & Hlen & Hs).
  rewrite E1 in E1'. injection E1' as <- <-. destruct Hs as (_ & _ & _ & Hc).
  destruct (carries_lookup _ _ _ _ _ Hc Hn Hlt) as [Hl Hi].
  exists (sort_by_priority (stream_priority s) order), frames. split_and!; [apply sort_perm|apply sort_sorted|done|].
  split; [done|]. intros i t p Hp. destruct (Hi i t p Hp) as (k & Hk & Hctl & Ho).
  exists k. split_and!; [done..|]. intros ->.
  assert (i < length data)%nat as Hlt'.
  { destruct (decide (i < length data)%nat) as [|Hge]; [done|].
    rewrite lookup_app_r in Hp by (rewrite length_map; lia). apply list_elem_of_lookup_2 in Hp.
    apply elem_of_app in Hp as [(? & [=] & _)%list_elem_of_fmap|Hp].
    by apply owed_control_no_data in Hp. }
  rewrite lookup_app_l in Hk by done. destruct (Ht i k Hk) as [_ Hlook]. rewrite <- Hlook. f_equal. unfold n. lia.
Qed.

(** C9: a flush succeeds, sends exactly what is owed and leaves nothing
    behind. The iteration order names the streams of the session, each once.
    As long as the packet counter does not wrap, the packets are, in order of
    stream priority, for every stream the frames of its buffered bytes cut
    into consecutive pieces at their stream offsets, with its FIN if one is
    due, then the queued datagrams, then the owed ACK, MaxData, Pong and Ping,
    and only the last four are tagged as control. The packet at place i is
    numbered n + i, n being the next number before the flush: the peer's
    decoder opens it as that number, type and payload, and the ARQ holds the
    wire bytes of a stream packet under that number. Afterwards every send
    buffer is empty, no FIN is due, the datagram queue is empty and no control
    packet is owed. *)
Theorem session_flush_complete (s : Session) (now : Z) (order : list Z) :
  keys_wf (pe_keys (ss_encoder s)) ->
  Forall (fun d => length d <= AEAD_MAX_LEN)%nat (dq_send_queue (ss_datagrams s)) ->
  Z.of_nat (length (ar_received (ss_ack_ranges s))) <= ACK_RETAIN_WINDOW + 1 ->
  List.NoDup order -> (forall id, is_Some (ss_streams s !! id) -> In id order) ->
  let n := pe_next_pkt_num (ss_encoder s) in
  exists s' ps, Session_flush s now order = (s', Ok ps) /\
  (0 <= n -> n + Z.of_nat (length ps) < 2 ^ 64 ->
   (exists ids frames, Permutation ids order /\
      Sorted (fun a b => stream_priority s a <= stream_priority s b) ids /\ Forall2 (owes s) ids frames /\
      let pl := map (pair Data) (concat frames) ++ map (pair Datagram) (dq_send_queue (ss_datagrams s)) ++
                owed_control s now in
      length ps = length pl /\
      forall i t p, pl !! i = Some (t, p) -> exists k, ps !! i = Some k /\
        tp_is_control k = negb (is_payload t) /\
        opens_as (pe_keys (ss_encoder s)) (n + Z.of_nat i) t p (tp_bytes k) /\
        (t = Data -> om_lookup (n + Z.of_nat i) (aq_in_flight (ss_arq s')) =
                       Some (mkInFlight (tp_bytes k) now 0))) /\
   (forall id st, ss_streams s' !! id = Some st -> stream_drained st) /\
   dq_send_queue (ss_datagrams s') = [] /\ ar_ack_pending (ss_ack_ranges s') = false /\
   ss_pending_max_data s' = None /\ ss_pending_pong s' = false /\ ss_pending_ping s' = false).
Proof.
  intros Hk Hd Ha Hnd Hord n. destruct (flush_succeeds s now order Hk Hd Ha) as (s' & ps & E).
  exists s', ps. split; [done|]. intros Hn Hlt. split; [by apply flush_contents|].
  destruct (flush_leaves s s' now order ps) as (? & ? & ? & ? & ? & ? & _); done.
Qed.
End Contents.
End Props.

(** ** Concrete sessions *)

Definition demo_session : Session :=
  Session_new 7 (PacketEncoder_new test_keys 7) (PacketDecoder_new test_keys).

Definition demo_open : Session := fst (Session_try_open_stream_with_priority demo_session 2).

Lemma demo_open_reachable :
  reachable (Session_with_limits 7 Client (PacketEncoder_new test_keys 7) (PacketDecoder_new test_keys)
    SessionLimits_default) demo_open.
Proof. apply (reach_step _ demo_session (OpOpen 2)); [apply reach_init|reflexivity]. Qed.

Lemma session_streams_bounded_witness :
  Z.of_nat (size (ss_streams demo_open)) <= 1024 /\ ss_streams demo_open !! 3 = None.
Proof.
  destruct (session_streams_bounded 7 Client (PacketEncoder_new test_keys 7) (PacketDecoder_new test_keys)
    SessionLimits_default demo_open) as (H1 & H2 & _).
  - simpl. lia.
  - exact demo_open_reachable.
  - split; [exact H1|exact H2].
Defined.

Lemma session_stream_window_fixed_witness :
  exists e, snd (Session_send demo_open 1 (replicate (Z.to_nat (DEFAULT_WINDOW + 1)) x00)) = Err e.
Proof.
  apply (session_stream_window_fixed 7 Client (PacketEncoder_new test_keys 7) (PacketDecoder_new test_keys)
    SessionLimits_default demo_open 1 (set_priority (Stream_new 1) 2)).
  - simpl. lia.
  - exact demo_open_reachable.
  - vm_compute. reflexivity.
  - simpl. lia.
  - rewrite length_replicate, Z2Nat.id; unfold DEFAULT_WINDOW; simpl; lia.
Defined.

Lemma session_send_leaks_credit_witness :
  snd (Session_send demo_session 9 [x01; x02; x03]) = Err (UnknownStream 9) /\
  fw_consumed (ss_send_window (fst (Session_send demo_session 9 [x01; x02; x03]))) = 3.
Proof.
  pose proof (session_send_leaks_credit demo_session 9 [x01; x02; x03] (mkFlowWindow SESSION_WINDOW 3)) as H.
  assert (ss_streams demo_session !! 9 = None) as H1 by (vm_compute; reflexivity).
  assert (FlowWindow_reserve (ss_send_window demo_session) (Z.of_nat (length [x01; x02; x03])) =
    Ok (mkFlowWindow SESSION_WINDOW 3)) as H2 by (vm_compute; reflexivity).
  specialize (H H1 H2). destruct (Session_send demo_session 9 [x01; x02; x03]) as [s' r].
  destruct H as (Hr & Hw & _). simpl. split; [exact Hr|]. rewrite Hw. reflexivity.
Defined.

Definition demo_written : Session := fst (Session_send (Session_ping demo_open) 1 [x68; x69]).

Lemma session_flush_complete_witness :
  exists s' ps, Session_flush demo_written 0 [1] = (s', Ok ps) /\ length ps = 2%nat /\
    ss_pending_ping s' = false /\ (forall id st, ss_streams s' !! id = Some st -> stream_drained st).
Proof.
  assert (forall id, is_Some (ss_streams demo_written !! id) -> In id [1]) as Hord.
  { intros id [st Hst]. left. destruct (decide (1 = id)) as [|Hne]; [done|].
    assert (ss_streams demo_written = {[1 := set_send (set_priority (Stream_new 1) 2) [x68; x69] 2]}) as E
      by (vm_compute; reflexivity).
    rewrite E, lookup_singleton_ne in Hst by done. done. }
  destruct (session_flush_complete demo_written 0 [1]) as (s' & ps & E & H).
  - apply test_keys_wf.
  - assert (dq_send_queue (ss_datagrams demo_written) = []) as -> by (vm_compute; reflexivity).
    constructor.
  - vm_compute. discriminate.
  - repeat constructor. intros [].
  - exact Hord.
  - assert (length ps = 2%nat) as Hl.
    { assert (match snd (Session_flush demo_written 0 [1]) with Ok l => length l | Err _ => 0%nat end = 2%nat) as Hc
        by (vm_compute; reflexivity).
      rewrite E in Hc. exact Hc. }
    destruct H as (_ & H1 & _ & _ & _ & _ & H2).
    + vm_compute. discriminate.
    + rewrite Hl. vm_compute. reflexivity.
    + exists s', ps. split; [exact E|]. split; [exact Hl|]. split; [exact H2|exact H1].
Defined.
