(* ===== verification/Ratchet.v ===== *)
(** * The double ratchet (src/src/crypto/ratchet.rs, src/src/session/ratchet_session.rs)

    [DoubleRatchet]: a hash chain of message keys per direction, a bounded
    window of skipped keys for packets that arrive out of order, and the X25519
    step between epochs; [SessionRatchet] wraps it with its configuration and
    wire frames.  X25519 is the interface [X25519]; the clock (nanoseconds) and
    the random bytes are arguments, one clock reading standing for the
    readings of one call. *)

From Stdlib Require Import ZArith Lia Bool List String Ascii.
From Stdlib Require Import Strings.Byte.
From stdpp Require Import base list numbers option countable gmap.
From S2P Require Import Prelude Packet Crypto TestCrypto.

Open Scope Z_scope.

(** ** X25519 *)

Class X25519 : Type := {
  x25519_public : list byte -> list byte;
  x25519_dh : list byte -> list byte -> list byte
}.

(** Documented behaviour the code meets: 32-byte public keys, and the all-zero
    shared secret for the all-zero public key (a point of low order). *)
Class X25519Laws (X : X25519) : Prop := {
  x25519_public_len a : length a = 32%nat -> length (x25519_public a) = 32%nat;
  x25519_dh_zero a : length a = 32%nat -> x25519_dh a (replicate 32 x00) = replicate 32 x00
}.

(** ** Constants, frames, state *)

Definition MAX_SKIP : nat := 50.
Definition SKIP_KEY_TTL : Z := from_secs 30.
Definition DEFAULT_EPOCH_PACKET_LIMIT : Z := 1000.
Definition DEFAULT_EPOCH_TIME_LIMIT : Z := from_secs 30.

Record RatchetStep : Type := mkRatchetStep {
  new_ephemeral_public : list byte;   (* [u8; 32] *)
  step_epoch : Z                      (* u64 *)
}.

Definition RatchetStep_encode (s : RatchetStep) : list byte :=
  new_ephemeral_public s ++ to_le 8 (step_epoch s).

Definition RatchetStep_decode (bytes : list byte) : option RatchetStep :=
  if (length bytes <? 40)%nat then None
  else Some {| new_ephemeral_public := slice bytes 0 32;
               step_epoch := from_le (slice bytes 32 40) |}.

Record SkipEntry : Type := mkSkipEntry { skip_key : list byte; inserted_at : Z }.

Record DoubleRatchet : Type := mkDoubleRatchet {
  root_key : list byte;
  send_chain_key : list byte;
  recv_chain_key : list byte;
  send_epoch : Z;
  recv_epoch : Z;
  packets_in_epoch : Z;
  epoch_packet_limit : Z;
  epoch_time_limit : Z;
  last_ratchet : Z;
  our_ephemeral : list byte;
  their_ephemeral : list byte;
  skipped : gmap (Z * Z) SkipEntry
}.

Definition set_recv_chain (r : DoubleRatchet) (ck : list byte) (sk : gmap (Z * Z) SkipEntry)
  : DoubleRatchet :=
  mkDoubleRatchet (root_key r) (send_chain_key r) ck (send_epoch r) (recv_epoch r)
    (packets_in_epoch r) (epoch_packet_limit r) (epoch_time_limit r) (last_ratchet r)
    (our_ephemeral r) (their_ephemeral r) sk.

(** ** Operations *)

Section WithCrypto.
Context {C : Crypto} {X : X25519}.

(** [ratchet_step]: (new chain key, message key). *)
Definition ratchet_step (chain_key : list byte) : list byte * list byte :=
  (blake3_derive_key "seam ratchet chain 2026" (chain_key ++ [x01]),
   blake3_derive_key "seam ratchet message 2026" (chain_key ++ [x02])).

Definition derive_new_root (old_root dh_output : list byte) : list byte :=
  blake3_derive_key "seam ratchet root 2026" (old_root ++ dh_output).

(** The RFC 7748 clamp of 32 random bytes. *)
Definition generate_ephemeral (random : list byte) : list byte :=
  <[0%nat := byte_of (Z.land (byte_val (at_ random 0)) 248)]>
  (<[31%nat := byte_of (Z.lor (Z.land (byte_val (at_ random 31)) 127) 64)]> random).

Definition ephemeral_public (secret : list byte) : list byte := x25519_public secret.

Definition dh_exchange (our_secret their_public : list byte) : list byte :=
  x25519_dh our_secret their_public.

Definition DoubleRatchet_new (root_secret : list byte) (is_initiator : bool)
    (random : list byte) (now : Z) : DoubleRatchet :=
  let send_ck := if is_initiator
    then blake3_derive_key "seam ratchet initiator-send 2026" root_secret
    else blake3_derive_key "seam ratchet responder-send 2026" root_secret in
  let recv_ck := if is_initiator
    then blake3_derive_key "seam ratchet responder-send 2026" root_secret
    else blake3_derive_key "seam ratchet initiator-send 2026" root_secret in
  mkDoubleRatchet root_secret send_ck recv_ck 0 0 0 DEFAULT_EPOCH_PACKET_LIMIT
    DEFAULT_EPOCH_TIME_LIMIT now (generate_ephemeral random) (replicate 32 x00) ∅.

Definition DoubleRatchet_new_with_limits (root_secret : list byte) (is_initiator : bool)
    (packet_limit time_limit : Z) (random : list byte) (now : Z) : DoubleRatchet :=
  let r := DoubleRatchet_new root_secret is_initiator random now in
  mkDoubleRatchet (root_key r) (send_chain_key r) (recv_chain_key r) (send_epoch r)
    (recv_epoch r) (packets_in_epoch r) packet_limit time_limit (last_ratchet r)
    (our_ephemeral r) (their_ephemeral r) (skipped r).

Definition should_ratchet (r : DoubleRatchet) (now : Z) : bool :=
  (epoch_packet_limit r <=? packets_in_epoch r)
  || (epoch_time_limit r <=? duration_since now (last_ratchet r)).

Definition next_send_key (r : DoubleRatchet) : list byte * DoubleRatchet :=
  let '(new_ck, msg_key) := ratchet_step (send_chain_key r) in
  (msg_key,
   mkDoubleRatchet (root_key r) new_ck (recv_chain_key r) (send_epoch r) (recv_epoch r)
     (wrapping_add 64 (packets_in_epoch r) 1) (epoch_packet_limit r) (epoch_time_limit r)
     (last_ratchet r) (our_ephemeral r) (their_ephemeral r) (skipped r)).

Definition purge_expired_skip_keys (r : DoubleRatchet) (now : Z) : DoubleRatchet :=
  set_recv_chain r (recv_chain_key r)
    (filter (fun kv => duration_since now (inserted_at kv.2) < SKIP_KEY_TTL) (skipped r)).

(** The function returns the constant 0. *)
Definition recv_packet_index_in_epoch (r : DoubleRatchet) : Z := 0.

(** [for i in current_pos..packet_index], [n] iterations from index [i]. *)
Fixpoint skip_ahead (n : nat) (r : DoubleRatchet) (epoch i now : Z) : DoubleRatchet :=
  match n with
  | O => r
  | S n =>
      let '(new_ck, msg_key) := ratchet_step (recv_chain_key r) in
      let sk := if (size (skipped r) <? MAX_SKIP)%nat
                then <[(epoch, i) := mkSkipEntry msg_key now]> (skipped r)
                else skipped r in
      skip_ahead n (set_recv_chain r new_ck sk) epoch (i + 1) now
  end.

Definition next_recv_key (r : DoubleRatchet) (epoch packet_index now : Z)
  : option (list byte) * DoubleRatchet :=
  let r := purge_expired_skip_keys r now in
  match skipped r !! (epoch, packet_index) with
  | Some entry =>
      (Some (skip_key entry),
       set_recv_chain r (recv_chain_key r) (delete (epoch, packet_index) (skipped r)))
  | None =>
      if negb (epoch =? recv_epoch r) then (None, r)
      else
        let current_pos := recv_packet_index_in_epoch r in
        if packet_index <? current_pos then (None, r)
        else
          let skip_count := saturating_sub packet_index current_pos in
          if Z.of_nat MAX_SKIP <? skip_count then (None, r)
          else
            let r := skip_ahead (Z.to_nat (packet_index - current_pos)) r epoch current_pos now in
            let '(new_ck, msg_key) := ratchet_step (recv_chain_key r) in
            (Some msg_key, set_recv_chain r new_ck (skipped r))
  end.

Definition apply_peer_ratchet_step (r : DoubleRatchet) (step : RatchetStep) : DoubleRatchet :=
  let their := new_ephemeral_public step in
  let dh_out := dh_exchange (our_ephemeral r) their in
  let new_root := derive_new_root (root_key r) dh_out in
  let new_recv_ck := blake3_derive_key "seam ratchet recv-chain 2026" new_root in
  mkDoubleRatchet new_root (send_chain_key r) new_recv_ck (send_epoch r) (step_epoch step)
    (packets_in_epoch r) (epoch_packet_limit r) (epoch_time_limit r) (last_ratchet r)
    (our_ephemeral r) their (skipped r).

Definition advance_send_ratchet (r : DoubleRatchet) (random : list byte) (now : Z)
  : RatchetStep * DoubleRatchet :=
  let new_ephemeral := generate_ephemeral random in
  let new_pub := ephemeral_public new_ephemeral in
  let dh_out := dh_exchange new_ephemeral (their_ephemeral r) in
  let new_root := derive_new_root (root_key r) dh_out in
  let new_send_ck := blake3_derive_key "seam ratchet send-chain 2026" new_root in
  let epoch := wrapping_add 64 (send_epoch r) 1 in
  ({| new_ephemeral_public := new_pub; step_epoch := epoch |},
   mkDoubleRatchet new_root new_send_ck (recv_chain_key r) epoch (recv_epoch r) 0
     (epoch_packet_limit r) (epoch_time_limit r) now new_ephemeral (their_ephemeral r)
     (skipped r)).

(** ** The session wrapper *)

Record RatchetConfig : Type := mkRatchetConfig {
  cfg_packet_limit : Z;   (* u64 *)
  cfg_time_secs : Z       (* u64 *)
}.

Definition RatchetConfig_default : RatchetConfig := mkRatchetConfig 1000 30.

(** [str::parse::<u64>]: an optional [+], then at least one decimal digit, and
    the value must fit the width. *)
Fixpoint parse_digits (acc : Z) (s : string) : option Z :=
  match s with
  | EmptyString => Some acc
  | String c s =>
      let d := Z.of_N (N_of_ascii c) - 48 in
      if (0 <=? d) && (d <=? 9) then
        let v := acc * 10 + d in
        if v <=? U64_MAX then parse_digits v s else None
      else None
  end.

Definition parse_u64 (s : string) : option Z :=
  match s with
  | EmptyString => None
  | String "+"%char EmptyString => None
  | String "+"%char s' => parse_digits 0 s'
  | _ => parse_digits 0 s
  end.

(** [apply_config_key]: the answer and the configuration after the call. *)
Definition apply_config_key (c : RatchetConfig) (key value : string)
  : Result bool string * RatchetConfig :=
  if String.eqb key "ratchet_epoch_packets" then
    match parse_u64 value with
    | None => (Err "ratchet_epoch_packets must be a positive integer"%string, c)
    | Some n =>
        if n =? 0 then (Err "ratchet_epoch_packets must be ≥ 1"%string, c)
        else (Ok true, mkRatchetConfig n (cfg_time_secs c))
    end
  else if String.eqb key "ratchet_epoch_seconds" then
    match parse_u64 value with
    | None => (Err "ratchet_epoch_seconds must be a positive integer"%string, c)
    | Some n =>
        if n =? 0 then (Err "ratchet_epoch_seconds must be ≥ 1"%string, c)
        else (Ok true, mkRatchetConfig (cfg_packet_limit c) n)
    end
  else (Ok false, c).

Record SessionRatchet : Type := mkSessionRatchet { inner : DoubleRatchet }.

Definition SessionRatchet_new (handshake_hash : list byte) (is_initiator : bool)
    (config : RatchetConfig) (random : list byte) (now : Z) : SessionRatchet :=
  {| inner := DoubleRatchet_new_with_limits handshake_hash is_initiator
       (cfg_packet_limit config) (from_secs (cfg_time_secs config)) random now |}.

Definition SessionRatchet_next_send_key (s : SessionRatchet) : list byte * SessionRatchet :=
  let '(k, r) := next_send_key (inner s) in (k, {| inner := r |}).

Definition SessionRatchet_next_recv_key (s : SessionRatchet) (epoch packet_index now : Z)
  : option (list byte) * SessionRatchet :=
  let '(k, r) := next_recv_key (inner s) epoch packet_index now in (k, {| inner := r |}).

Definition SessionRatchet_should_ratchet (s : SessionRatchet) (now : Z) : bool :=
  should_ratchet (inner s) now.

Definition maybe_advance_send (s : SessionRatchet) (random : list byte) (now : Z)
  : option (list byte) * SessionRatchet :=
  if negb (should_ratchet (inner s) now) then (None, s)
  else
    let '(step, r) := advance_send_ratchet (inner s) random now in
    (Some (RatchetStep_encode step), {| inner := r |}).

Definition apply_peer_step_bytes (s : SessionRatchet) (frame_bytes : list byte)
  : Result SessionRatchet SeamError :=
  try step := ok_or (RatchetStep_decode frame_bytes)
                (ProtocolViolation "malformed RatchetStep frame") in
  Ok {| inner := apply_peer_ratchet_step (inner s) step |}.

(** ** The chain of message keys *)

Definition chain_key_at (ck : list byte) (n : nat) : list byte :=
  Nat.iter n (fun k => fst (ratchet_step k)) ck.

Definition msg_key_at (ck : list byte) (n : nat) : list byte :=
  snd (ratchet_step (chain_key_at ck n)).

Lemma chain_key_succ ck n : chain_key_at (fst (ratchet_step ck)) n = chain_key_at ck (S n).
Proof. unfold chain_key_at. by rewrite Nat.iter_succ_r. Qed.

Lemma msg_key_succ ck n : msg_key_at (fst (ratchet_step ck)) n = msg_key_at ck (S n).
Proof. unfold msg_key_at. by rewrite chain_key_succ. Qed.

(** The keys of [n] consecutive sends. *)
Fixpoint send_keys (n : nat) (r : DoubleRatchet) : list (list byte) :=
  match n with
  | O => []
  | S n => let '(k, r) := next_send_key r in k :: send_keys n r
  end.

Lemma send_keys_chain n : forall r, send_keys n r = map (msg_key_at (send_chain_key r)) (seq 0 n).
Proof.
  induction n as [|n IH]; intros r; simpl; [done|]. f_equal. rewrite IH. simpl.
  rewrite <- seq_shift, map_map. apply map_ext. intros i. by rewrite <- msg_key_succ.
Qed.

(** Answers to a sequence of requests (epoch, index, time). *)
Fixpoint recv_run (r : DoubleRatchet) (reqs : list (Z * Z * Z))
  : list (option (list byte)) * DoubleRatchet :=
  match reqs with
  | [] => ([], r)
  | (e, i, t) :: reqs =>
      let '(k, r) := next_recv_key r e i t in
      let '(ks, r) := recv_run r reqs in (k :: ks, r)
  end.

Lemma skip_ahead_spec n : forall r e i t,
  (size (skipped r) + n <= MAX_SKIP)%nat ->
  (forall j, i <= j -> skipped r !! (e, j) = None) ->
  let r' := skip_ahead n r e i t in
  recv_epoch r' = recv_epoch r /\
  recv_chain_key r' = chain_key_at (recv_chain_key r) n /\
  size (skipped r') = (size (skipped r) + n)%nat /\
  forall e' j, skipped r' !! (e', j) =
    if decide (e' = e /\ i <= j < i + Z.of_nat n)
    then Some (mkSkipEntry (msg_key_at (recv_chain_key r) (Z.to_nat (j - i))) t)
    else skipped r !! (e', j).
Proof.
  induction n as [|n IH]; intros r e i t Hs Hn; cbn [skip_ahead].
  { cbv zeta. split_and!; [done|done|lia|]. intros e' j. case_decide; [lia|done]. }
  destruct (ratchet_step (recv_chain_key r)) as [ck mk] eqn:Er.
  replace (size (skipped r) <? MAX_SKIP)%nat with true by (symmetry; apply Nat.ltb_lt; lia).
  specialize (IH (set_recv_chain r ck (<[(e, i):=mkSkipEntry mk t]> (skipped r))) e (i + 1) t).
  cbn [set_recv_chain skipped recv_epoch recv_chain_key] in IH. cbv zeta in IH.
  rewrite map_size_insert_None in IH by (apply Hn; lia).
  destruct IH as (H1 & H2 & H3 & H4); [lia| |].
  { intros j Hj. rewrite lookup_insert_ne by (intros [= ?]; lia). apply Hn. lia. }
  cbv zeta. assert (ck = fst (ratchet_step (recv_chain_key r))) as Eck by by rewrite Er.
  assert (mk = snd (ratchet_step (recv_chain_key r))) as Emk by by rewrite Er.
  split_and!; [done|by rewrite H2, Eck, chain_key_succ|lia|].
  intros e' j. rewrite H4. destruct (decide (e' = e /\ j = i)) as [[-> ->]|Hne].
  - rewrite decide_False by lia. rewrite decide_True by lia.
    rewrite lookup_insert_eq, Z.sub_diag, Emk. done.
  - rewrite lookup_insert_ne by (intros [= ? ?]; subst; tauto).
    repeat case_decide; try tauto; try lia.
    rewrite Eck, msg_key_succ. do 3 f_equal. lia.
Qed.

(** ** The skip window *)

(** A request whose key is held: the window loses that entry, nothing else. *)
Lemma recv_held r e i t k t0 :
  skipped r !! (e, i) = Some (mkSkipEntry k t0) -> t < t0 + SKIP_KEY_TTL ->
  exists r', next_recv_key r e i t = (Some k, r') /\
    recv_chain_key r' = recv_chain_key r /\ recv_epoch r' = recv_epoch r /\
    skipped r' !! (e, i) = None /\
    forall e' j ent, (e', j) <> (e, i) -> skipped r !! (e', j) = Some ent ->
      t < inserted_at ent + SKIP_KEY_TTL -> skipped r' !! (e', j) = Some ent.
Proof.
  intros Hl Ht. unfold next_recv_key, purge_expired_skip_keys.
  cbn [set_recv_chain skipped recv_chain_key].
  assert (filter (fun kv : Z * Z * SkipEntry => duration_since t (inserted_at kv.2) < SKIP_KEY_TTL)
            (skipped r) !! (e, i) = Some (mkSkipEntry k t0)) as ->.
  { apply map_lookup_filter_Some. split; [done|]. unfold duration_since, saturating_sub. simpl.
    unfold SKIP_KEY_TTL, from_secs in *. lia. }
  eexists. split; [done|]. cbn [set_recv_chain skipped recv_chain_key recv_epoch].
  split_and!; [done|done|apply lookup_delete_eq|].
  intros e' j ent Hne Hj Htj. rewrite lookup_delete_ne by congruence.
  apply map_lookup_filter_Some. split; [done|]. unfold duration_since, saturating_sub. simpl.
  unfold SKIP_KEY_TTL, from_secs in *. lia.
Qed.

(** Held keys are served in any order. *)
Lemma recv_run_held key t0 e : forall reqs r,
  NoDup (map (fun q : Z * Z * Z => q.1) reqs) ->
  (forall q, In q reqs -> q.1.1 = e /\ q.2 < t0 + SKIP_KEY_TTL /\
     skipped r !! q.1 = Some (mkSkipEntry (key (q.1.2)) t0)) ->
  fst (recv_run r reqs) = map (fun q => Some (key (q.1.2))) reqs.
Proof.
  induction reqs as [|[[e' i] t] reqs IH]; intros r Hnd Hq; simpl; [done|].
  inversion_clear Hnd as [|? ? Hni Hnd'].
  destruct (Hq (e', i, t)) as (He & Ht & Hl); [by left|]. simpl in He, Ht, Hl. subst e'.
  destruct (recv_held r e i t _ t0 Hl Ht) as (r' & Hr & _ & _ & _ & Hk). rewrite Hr.
  specialize (IH r' Hnd'). destruct (recv_run r' reqs) as [ks r'']. simpl in *. f_equal.
  apply IH. intros [[e' j] u] Hin. destruct (Hq (e', j, u)) as (He & Hu & Hj); [by right|].
  simpl in *. subst e'. split_and!; [done|done|]. apply Hk; [|done|done].
  intros [= ->]. apply Hni, list_elem_of_In, in_map_iff. by exists (e, i, u).
Qed.

(** The first request of a fresh epoch, up to [MAX_SKIP] ahead. *)
Lemma recv_first r i t :
  skipped r = ∅ -> 0 <= i <= Z.of_nat MAX_SKIP ->
  exists r', next_recv_key r (recv_epoch r) i t = (Some (msg_key_at (recv_chain_key r) (Z.to_nat i)), r') /\
    recv_chain_key r' = chain_key_at (recv_chain_key r) (S (Z.to_nat i)) /\
    recv_epoch r' = recv_epoch r /\
    forall e j, skipped r' !! (e, j) =
      if decide (e = recv_epoch r /\ 0 <= j < i)
      then Some (mkSkipEntry (msg_key_at (recv_chain_key r) (Z.to_nat j)) t)
      else None.
Proof.
  intros Hs Hi. unfold next_recv_key.
  assert (purge_expired_skip_keys r t = r) as ->.
  { unfold purge_expired_skip_keys. rewrite Hs, map_filter_empty, <- Hs. by destruct r. }
  rewrite Hs, lookup_empty, Z.eqb_refl. cbn [negb]. unfold recv_packet_index_in_epoch.
  replace (i <? 0) with false by (symmetry; apply Z.ltb_ge; lia).
  replace (Z.of_nat MAX_SKIP <? saturating_sub i 0) with false
    by (symmetry; apply Z.ltb_ge; unfold saturating_sub; lia).
  rewrite Z.sub_0_r.
  destruct (skip_ahead_spec (Z.to_nat i) r (recv_epoch r) 0 t) as (H1 & H2 & H3 & H4).
  { rewrite Hs, map_size_empty. lia. }
  { intros j _. by rewrite Hs, lookup_empty. }
  cbv zeta in *. set (r' := skip_ahead _ _ _ _ _) in *.
  destruct (ratchet_step (recv_chain_key r')) as [ck mk] eqn:Er. eexists. split.
  - f_equal. f_equal. unfold msg_key_at. by rewrite <- H2, Er.
  - cbn [set_recv_chain recv_chain_key recv_epoch skipped]. split_and!; [|done|].
    + unfold chain_key_at. rewrite Nat.iter_succ. fold (chain_key_at (recv_chain_key r) (Z.to_nat i)).
      by rewrite <- H2, Er.
    + intros e j. rewrite H4, Hs, lookup_empty. rewrite Z.sub_0_r.
      repeat case_decide; try done; lia.
Qed.

(** The two ends start with crossed chains. *)
Lemma new_chains_cross root ii rnd rnd' t t' :
  recv_chain_key (DoubleRatchet_new root (negb ii) rnd t)
  = send_chain_key (DoubleRatchet_new root ii rnd' t').
Proof. by destruct ii. Qed.

Lemma send_keys_nth n i r : (i < n)%nat -> nth i (send_keys n r) [] = msg_key_at (send_chain_key r) i.
Proof.
  intros Hi. rewrite send_keys_chain.
  rewrite (nth_indep _ [] (msg_key_at (send_chain_key r) 0)) by (rewrite length_map, length_seq; done).
  by rewrite map_nth, seq_nth.
Qed.

(** Out-of-order delivery in an epoch: when the first packet of a fresh
    session to arrive has index [n <= 50], the receiver derives the very key
    the sender used for it, and afterwards every earlier packet, each asked
    for once, in any order and within 30 seconds, gets the sender's key of its
    own index. *)
Theorem ratchet_out_of_order root ii rnd rnd' t t' n t0 reqs :
  let snd_keys := send_keys (S (Z.to_nat n)) (DoubleRatchet_new root ii rnd t) in
  let receiver := DoubleRatchet_new root (negb ii) rnd' t' in
  0 <= n <= Z.of_nat MAX_SKIP ->
  NoDup (map fst reqs) ->
  (forall i u, In (i, u) reqs -> 0 <= i < n /\ u < t0 + SKIP_KEY_TTL) ->
  fst (recv_run receiver ((0, n, t0) :: map (fun q => (0, fst q, snd q)) reqs))
  = Some (nth (Z.to_nat n) snd_keys []) ::
    map (fun q => Some (nth (Z.to_nat (fst q)) snd_keys [])) reqs.
Proof.
  intros ks rc Hn Hnd Hq. pose proof (new_chains_cross root ii rnd' rnd t' t) as Hx. fold rc in Hx.
  destruct (recv_first rc n t0 eq_refl Hn) as (r1 & Hr & _ & _ & Hsk).
  change (recv_epoch rc) with 0 in *. simpl recv_run. rewrite Hr.
  pose proof (recv_run_held (fun i => msg_key_at (recv_chain_key rc) (Z.to_nat i)) t0 0
                (map (fun q => (0, fst q, snd q)) reqs) r1) as Hrun.
  destruct (recv_run r1 _) as [l r2]. cbn [fst] in *. rewrite Hrun.
  - rewrite map_map. unfold ks. rewrite send_keys_nth by lia. rewrite Hx. f_equal.
    apply map_ext_in. intros [i u] Hin. destruct (Hq i u Hin). cbn [fst snd].
    rewrite send_keys_nth by lia. done.
  - rewrite map_map. cbn [fst snd]. apply NoDup_ListNoDup. apply NoDup_ListNoDup in Hnd.
    rewrite <- (map_map fst (fun i => (0, i)) reqs).
    apply Finite.Injective_map_NoDup; [by intros ? ? [= ->]|done].
  - intros q Hin. apply in_map_iff in Hin as ([i u] & <- & Hin). destruct (Hq i u Hin).
    cbn [fst snd]. rewrite Hsk. rewrite decide_True by lia. done.
Qed.

(** In-order delivery breaks at the second packet: the receiver's position
    in the epoch is the constant 0, so after packet 0 the request for packet 1
    skips one key and returns the sender's third key, and a repeated request
    for packet 0 is answered with a fresh key instead of being refused as a
    duplicate. *)
Theorem ratchet_in_order_mismatch root ii rnd rnd' t t' t0 t1 :
  let snd_keys := send_keys 3 (DoubleRatchet_new root ii rnd t) in
  let receiver := DoubleRatchet_new root (negb ii) rnd' t' in
  fst (recv_run receiver [(0, 0, t0); (0, 1, t1)])
    = [Some (nth 0 snd_keys []); Some (nth 2 snd_keys [])] /\
  fst (recv_run receiver [(0, 0, t0); (0, 0, t1)])
    = [Some (nth 0 snd_keys []); Some (nth 1 snd_keys [])].
Proof.
  intros ks rc. unfold ks. rewrite !send_keys_nth by lia.
  pose proof (new_chains_cross root ii rnd' rnd t' t) as Hx. fold rc in Hx. rewrite <- Hx.
  destruct (recv_first rc 0 t0 eq_refl) as (r1 & Hr & Hc & He & Hsk); [lia|].
  change (recv_epoch rc) with 0 in *. cbn [recv_run]. rewrite Hr.
  assert (skipped r1 = ∅) as Hs1.
  { apply map_empty. intros [e j]. rewrite Hsk. by rewrite decide_False by lia. }
  pose proof (recv_first r1 1 t1 Hs1 ltac:(unfold MAX_SKIP; lia)) as (r2 & Hr2 & _).
  pose proof (recv_first r1 0 t1 Hs1 ltac:(unfold MAX_SKIP; lia)) as (r2' & Hr2' & _).
  rewrite He in Hr2, Hr2'. rewrite Hr2, Hr2'. cbn [fst]. rewrite Hc.
  change (Z.to_nat 0) with 0%nat. change (Z.to_nat 1) with 1%nat. done.
Qed.

(** ** Bounds of the window *)

Inductive RatchetOp : Type :=
  | OpSend
  | OpRecv (epoch packet_index now : Z)
  | OpPeerStep (step : RatchetStep)
  | OpAdvance (random : list byte) (now : Z).

Definition ratchet_op (r : DoubleRatchet) (o : RatchetOp) : DoubleRatchet :=
  match o with
  | OpSend => snd (next_send_key r)
  | OpRecv e i now => snd (next_recv_key r e i now)
  | OpPeerStep step => apply_peer_ratchet_step r step
  | OpAdvance random now => snd (advance_send_ratchet r random now)
  end.

Lemma size_purge r t : (size (skipped (purge_expired_skip_keys r t)) <= size (skipped r))%nat.
Proof. simpl. apply map_subseteq_size, map_filter_subseteq. Qed.

Lemma skip_ahead_bounded n : forall r e i t, (size (skipped r) <= MAX_SKIP)%nat ->
  (size (skipped (skip_ahead n r e i t)) <= MAX_SKIP)%nat.
Proof.
  induction n as [|n IH]; intros r e i t Hs; cbn [skip_ahead]; [done|].
  destruct (ratchet_step (recv_chain_key r)) as [ck mk]. apply IH. cbn [set_recv_chain skipped].
  split_if; cmp_facts; [|done]. rewrite map_size_insert. destruct (_ !! _); simpl; lia.
Qed.

Lemma recv_bounded r e i t : (size (skipped r) <= MAX_SKIP)%nat ->
  (size (skipped (snd (next_recv_key r e i t))) <= MAX_SKIP)%nat.
Proof.
  intros Hs. unfold next_recv_key. pose proof (size_purge r t) as Hp.
  set (r' := purge_expired_skip_keys r t) in *.
  destruct (skipped r' !! (e, i)) as [en|].
  { cbn [snd set_recv_chain skipped].
    pose proof (map_subseteq_size _ _ (delete_subseteq (skipped r') (e, i))). lia. }
  repeat split_if; cbn [snd]; try lia.
  pose proof (skip_ahead_bounded (Z.to_nat (i - recv_packet_index_in_epoch r')) r' e
                (recv_packet_index_in_epoch r') t ltac:(lia)) as Hb.
  destruct (ratchet_step _) as [ck mk]. done.
Qed.

Lemma ratchet_op_bounded r o : (size (skipped r) <= MAX_SKIP)%nat ->
  (size (skipped (ratchet_op r o)) <= MAX_SKIP)%nat.
Proof. destruct o; simpl ratchet_op; [done|apply recv_bounded|done|done]. Qed.

(** Whatever the peer asks for, the skip window never holds more than 50
    keys, in every state reached by sends, receives and ratchet steps from a
    new ratchet; and a request whose key is not held is refused exactly when
    its epoch is not the current one or it lies more than 50 packets ahead,
    in which case neither the chain nor the epoch moves. *)
Theorem ratchet_window_bounded root ii rnd t ops e i now :
  0 <= i ->
  let r := fold_left ratchet_op ops (DoubleRatchet_new root ii rnd t) in
  (size (skipped r) <= MAX_SKIP)%nat /\
  (skipped r !! (e, i) = None ->
   (fst (next_recv_key r e i now) = None <-> e <> recv_epoch r \/ Z.of_nat MAX_SKIP < i) /\
   (fst (next_recv_key r e i now) = None ->
    recv_chain_key (snd (next_recv_key r e i now)) = recv_chain_key r /\
    recv_epoch (snd (next_recv_key r e i now)) = recv_epoch r)).
Proof.
  intros Hi r. split.
  - unfold r. assert (size (skipped (DoubleRatchet_new root ii rnd t)) <= MAX_SKIP)%nat as H0.
    { simpl. rewrite map_size_empty. unfold MAX_SKIP. lia. }
    revert H0. generalize (DoubleRatchet_new root ii rnd t).
    induction ops as [|o ops IH]; intros r0 H0; simpl; [done|]. by apply IH, ratchet_op_bounded.
  - intros Hl. clearbody r. unfold next_recv_key.
    assert (skipped (purge_expired_skip_keys r now) !! (e, i) = None) as ->.
    { simpl. apply map_lookup_filter_None. by left. }
    cbn [purge_expired_skip_keys set_recv_chain recv_epoch]. unfold recv_packet_index_in_epoch.
    replace (i <? 0) with false by (symmetry; apply Z.ltb_ge; lia).
    replace (saturating_sub i 0) with i by (unfold saturating_sub; lia).
    destruct (e =? recv_epoch r) eqn:Ee; cbn [negb]; cmp_facts; [|simpl; tauto].
    destruct (Z.of_nat MAX_SKIP <? i) eqn:El; cmp_facts; [simpl; tauto|].
    destruct (ratchet_step _) as [ck mk]. cbn [fst]. split; [|done].
    split; [done|]. intros [?|?]; [done|lia].
Qed.

(** The first X25519 step of a session.  The frame survives the wire and the
    receiver's epoch follows the sender's, but the keys do not meet: the sender
    mixes the shared secret with the all-zero initial ephemeral, that is 32
    zero bytes, into its root, the receiver that with the sender's new public
    key; and the sender's chain is derived under the [send-chain] label, the
    receiver's under [recv-chain]. *)
Theorem ratchet_first_dh_step {X' : X25519Laws X} root ii ra rb ta tb rnd now :
  length rnd = 32%nat ->
  let '(step, a) := advance_send_ratchet (DoubleRatchet_new root ii ra ta) rnd now in
  exists b,
    apply_peer_step_bytes {| inner := DoubleRatchet_new root (negb ii) rb tb |} (RatchetStep_encode step)
      = Ok {| inner := b |} /\
    recv_epoch b = 1 /\ send_epoch a = 1 /\
    root_key a = derive_new_root root (replicate 32 x00) /\
    root_key b = derive_new_root root
      (dh_exchange (generate_ephemeral rb) (ephemeral_public (generate_ephemeral rnd))) /\
    send_chain_key a = blake3_derive_key "seam ratchet send-chain 2026" (root_key a) /\
    recv_chain_key b = blake3_derive_key "seam ratchet recv-chain 2026" (root_key b).
Proof.
  intros Hl. unfold advance_send_ratchet. set (eph := generate_ephemeral rnd).
  assert (length eph = 32%nat) as Heph by (unfold eph, generate_ephemeral; by rewrite !length_insert).
  exists (apply_peer_ratchet_step (DoubleRatchet_new root (negb ii) rb tb)
            {| new_ephemeral_public := ephemeral_public eph; step_epoch := 1 |}).
  split_and!; try done.
  - unfold apply_peer_step_bytes, RatchetStep_decode, RatchetStep_encode.
    cbn [new_ephemeral_public step_epoch DoubleRatchet_new send_epoch].
    change (wrapping_add 64 0 1) with 1. rewrite length_app, length_to_le.
    unfold ephemeral_public. rewrite x25519_public_len by done. simpl (_ <? _)%nat. cbv iota.
    cbn [ok_or bind_result inner]. rewrite slice_app_l, slice_all by (by rewrite x25519_public_len).
    rewrite slice_last by (rewrite ?length_to_le; by rewrite ?x25519_public_len).
    by rewrite from_le_to_le_small.
  - cbn [root_key their_ephemeral DoubleRatchet_new]. unfold dh_exchange.
    by rewrite x25519_dh_zero.
Qed.
End WithCrypto.

(** ** Evaluations *)

(** A stand-in key exchange that satisfies the laws. *)
#[export] Instance test_x25519 : X25519 := {|
  x25519_public := fun a => resize_bytes (x01 :: a) 32;
  x25519_dh := fun a p => if bytes_eqb p (replicate 32 x00) then p
                          else resize_bytes (xor_zip (x01 :: a) p) 32
|}.

#[export] Instance test_x25519_laws : X25519Laws test_x25519.
Proof. split; intros; [apply length_resize_bytes|]. simpl. done. Qed.

Definition demo_root : list byte := to_le 32 (2 ^ 200 + 7).
Definition demo_random : list byte := to_le 32 (2 ^ 255 - 19).

Lemma ratchet_out_of_order_witness :
  let ks := send_keys 4 (DoubleRatchet_new demo_root true demo_random 0) in
  fst (recv_run (DoubleRatchet_new demo_root false demo_random 5)
         [(0, 3, 10); (0, 1, 20); (0, 2, 30); (0, 0, 40)])
  = [Some (nth 3 ks []); Some (nth 1 ks []); Some (nth 2 ks []); Some (nth 0 ks [])].
Proof.
  apply (ratchet_out_of_order demo_root true demo_random demo_random 0 5 3 10
           [(1, 20); (2, 30); (0, 40)]).
  - unfold MAX_SKIP. lia.
  - by apply (bool_decide_eq_true_1 (NoDup [1; 2; 0])).
  - intros i u [[= <- <-]|[[= <- <-]|[[= <- <-]|[]]]]; unfold SKIP_KEY_TTL, from_secs; lia.
Defined.

Lemma ratchet_window_bounded_witness :
  (size (skipped (fold_left ratchet_op [OpRecv 0 30 1; OpSend; OpRecv 0 45 2]
     (DoubleRatchet_new demo_root true demo_random 0))) <= MAX_SKIP)%nat.
Proof.
  apply (ratchet_window_bounded demo_root true demo_random 0
           [OpRecv 0 30 1; OpSend; OpRecv 0 45 2] 0 0 0). lia.
Defined.

Lemma ratchet_first_dh_step_witness :
  let '(step, a) := advance_send_ratchet (DoubleRatchet_new demo_root true demo_random 0) demo_root 9 in
  exists b, apply_peer_step_bytes {| inner := DoubleRatchet_new demo_root false (rev demo_random) 1 |}
              (RatchetStep_encode step) = Ok {| inner := b |} /\ recv_epoch b = 1.
Proof.
  pose proof (ratchet_first_dh_step demo_root true demo_random (rev demo_random) 0 1 demo_root 9
    eq_refl) as H.
  destruct (advance_send_ratchet _ demo_root 9) as [step a]. destruct H as (b & H1 & H2 & _).
  by exists b.
Defined.
