(* ===== verification/Resume.v ===== *)
(** * Resumption tickets and their store (src/src/session/resume.rs)

    [SessionTicket] with its 96-byte wire format and its proof of possession,
    and [ResumeStore], the single-use store that evicts stale tickets.  The
    clock and the random ticket id are arguments of the operations that read
    them.  The reference [TicketBook] keeps every ticket and never evicts; the
    store answers every sequence of operations as it does. *)

From Stdlib Require Import ZArith Lia Bool List String.
From Stdlib Require Import Strings.Byte.
From stdpp Require Import base list numbers option countable gmap pretty.
From S2P Require Import Prelude Packet Crypto TestCrypto.

Open Scope Z_scope.

#[export] Instance byte_countable : Countable byte.
Proof.
  refine (inj_countable' Byte.to_N (fun n => default x00 (Byte.of_N n)) _).
  intros b. by rewrite Byte.of_to_N.
Defined.

(** ** Constants and data *)

Definition DEFAULT_TTL : Z := 3600.
Definition TICKET_BYTES : nat := 96.
Definition PROOF_LEN : nat := 32.
Definition POP_NONCE_LEN : nat := 16.

Record SessionTicket : Type := mkSessionTicket {
  ticket_id : list byte;        (* [u8; 16] *)
  session_secret : list byte;   (* [u8; 32] *)
  created_at : Z;               (* u64 *)
  ttl_seconds : Z;              (* u64 *)
  peer_identity : list byte     (* [u8; 32] *)
}.

(** [SessionTicket::new]: [id] is what the random generator fills in, [now]
    what [unix_now] returns. *)
Definition SessionTicket_new (peer secret id : list byte) (now : Z) : SessionTicket :=
  {| ticket_id := id; session_secret := secret; created_at := now;
     ttl_seconds := DEFAULT_TTL; peer_identity := peer |}.

Definition SessionTicket_is_valid (t : SessionTicket) (now : Z) : bool :=
  (created_at t <=? now) && (now <? saturating_add 64 (created_at t) (ttl_seconds t)).

Definition SessionTicket_to_bytes (t : SessionTicket) : list byte :=
  ticket_id t ++ session_secret t ++ to_le 8 (created_at t) ++ to_le 8 (ttl_seconds t)
    ++ peer_identity t.

(** The length guard makes every slice conversion succeed. *)
Definition SessionTicket_from_bytes (b : list byte) : Result SessionTicket SeamError :=
  if negb (length b =? TICKET_BYTES)%nat
  then Err (HandshakeFailed ("resume ticket: expected " ++ pretty TICKET_BYTES
                              ++ " bytes, got " ++ pretty (length b))%string)
  else
    Ok {| ticket_id := slice b 0 16; session_secret := slice b 16 48;
          created_at := from_le (slice b 48 56); ttl_seconds := from_le (slice b 56 64);
          peer_identity := slice b 64 96 |}.

(** The hasher absorbs id, secret and nonce one after the other. *)
Definition proof_of_possession {C : Crypto} (t : SessionTicket) (nonce : list byte) : list byte :=
  blake3_derive_key "seam/resume-proof/v1" (ticket_id t ++ session_secret t ++ nonce).

Definition verify_proof {C : Crypto} (t : SessionTicket) (nonce proof : list byte) : bool :=
  bytes_eqb (proof_of_possession t nonce) proof.

(** ** The store *)

Record ResumeStore : Type := mkResumeStore { tickets : gmap (list byte) SessionTicket }.

Definition ResumeStore_new : ResumeStore := {| tickets := ∅ |}.

Definition ResumeStore_evict_expired (s : ResumeStore) (now : Z) : ResumeStore :=
  {| tickets := filter (fun kv => SessionTicket_is_valid kv.2 now = true) (tickets s) |}.

Definition ResumeStore_store (s : ResumeStore) (t : SessionTicket) (now : Z) : ResumeStore :=
  let s := ResumeStore_evict_expired s now in
  {| tickets := <[ticket_id t := t]> (tickets s) |}.

Definition ResumeStore_take (s : ResumeStore) (id : list byte) (now : Z)
  : option SessionTicket * ResumeStore :=
  match tickets s !! id with
  | None => (None, s)
  | Some t =>
      let s := {| tickets := delete id (tickets s) |} in
      (if SessionTicket_is_valid t now then Some t else None, s)
  end.

(** ** The ticket's wire format *)

Definition ticket_wf (t : SessionTicket) : Prop :=
  length (ticket_id t) = 16%nat /\ length (session_secret t) = 32%nat /\
  is_u64 (created_at t) /\ is_u64 (ttl_seconds t) /\ length (peer_identity t) = 32%nat.

Lemma ticket_from_to t : ticket_wf t -> SessionTicket_from_bytes (SessionTicket_to_bytes t) = Ok t.
Proof.
  intros (H1 & H2 & H3 & H4 & H5). unfold SessionTicket_from_bytes, SessionTicket_to_bytes.
  rewrite !length_app, !length_to_le, H1, H2, H5. simpl (negb _). cbv iota.
  assert (forall p m q i j, length p = i -> length m = (j - i)%nat ->
    slice (A := byte) (p ++ m ++ q) i j = m) as Hs by (intros; by apply slice_mid).
  rewrite (slice_app_l (ticket_id t)), slice_all by lia.
  rewrite (Hs (ticket_id t) (session_secret t)) by lia.
  rewrite (app_assoc (ticket_id t)).
  rewrite (Hs (ticket_id t ++ session_secret t) (to_le 8 (created_at t)))
    by (autorewrite with len; lia).
  rewrite (app_assoc (ticket_id t ++ session_secret t)).
  rewrite (Hs _ (to_le 8 (ttl_seconds t))) by (autorewrite with len; lia).
  rewrite (app_assoc (_ ++ to_le 8 (created_at t))).
  rewrite (slice_last _ (peer_identity t)) by (autorewrite with len; lia).
  rewrite !from_le_to_le_small by done. by destruct t.
Qed.

Lemma ticket_to_from b t : SessionTicket_from_bytes b = Ok t ->
  length b = TICKET_BYTES /\ ticket_wf t /\ SessionTicket_to_bytes t = b.
Proof.
  unfold SessionTicket_from_bytes. destruct (length b =? TICKET_BYTES)%nat eqn:E; cmp_facts; [|done].
  unfold TICKET_BYTES in E. intros [= <-].
  split; [done|]. split.
  { unfold ticket_wf. simpl. rewrite !length_slice by lia.
    split_and!; try done; apply (from_le_is_u _ 8), length_slice; lia. }
  unfold SessionTicket_to_bytes.
  cbn [ticket_id session_secret created_at ttl_seconds peer_identity].
  rewrite !to_le_from_le by (apply length_slice; lia).
  rewrite !slice_join by lia. by apply slice_all.
Qed.

(** The 96-byte ticket format is a bijection between well-formed tickets
    and 96-byte strings: [from_bytes] inverts [to_bytes], everything it
    accepts is the encoding of the ticket it returns, and it accepts exactly
    the strings of 96 bytes; and a proof of possession verifies exactly when
    it equals the derived key of id, secret and nonce, so a proof accepted for
    another ticket or nonce of the same size exhibits a collision of the
    derivation. *)
Theorem resume_ticket_codec {C : Crypto} :
  (forall t, ticket_wf t -> SessionTicket_from_bytes (SessionTicket_to_bytes t) = Ok t) /\
  (forall b, is_ok (SessionTicket_from_bytes b) = (length b =? TICKET_BYTES)%nat) /\
  (forall b t, SessionTicket_from_bytes b = Ok t -> SessionTicket_to_bytes t = b) /\
  (forall t t' n n', ticket_wf t -> ticket_wf t' -> length n = POP_NONCE_LEN ->
     length n' = POP_NONCE_LEN -> verify_proof t' n' (proof_of_possession t n) = true ->
     (ticket_id t = ticket_id t' /\ session_secret t = session_secret t' /\ n = n') \/
     exists x y, x <> y /\
       blake3_derive_key "seam/resume-proof/v1" x = blake3_derive_key "seam/resume-proof/v1" y).
Proof.
  split_and!.
  - apply ticket_from_to.
  - intros b. unfold SessionTicket_from_bytes. by destruct (length b =? TICKET_BYTES)%nat.
  - intros b t H. by apply ticket_to_from in H as (_ & _ & H).
  - intros t t' n n' (H1 & H2 & _) (H1' & H2' & _) Hn Hn' Hv.
    apply bytes_eqb_eq in Hv. unfold proof_of_possession in Hv.
    destruct (decide (ticket_id t' ++ session_secret t' ++ n' = ticket_id t ++ session_secret t ++ n))
      as [E|E]; [|right; by eauto].
    left. apply app_inj_1 in E as [-> E]; [|lia]. by apply app_inj_1 in E as [-> ->]; [|lia].
Qed.

(** ** The store against a store that never evicts *)

Inductive StoreOp : Type :=
  | Store (t : SessionTicket) (now : Z)
  | Take (id : list byte) (now : Z)
  | Evict (now : Z).

Definition op_time (o : StoreOp) : Z :=
  match o with Store _ n => n | Take _ n => n | Evict n => n end.

Definition store_step (s : ResumeStore) (o : StoreOp) : option SessionTicket * ResumeStore :=
  match o with
  | Store t now => (None, ResumeStore_store s t now)
  | Take id now => ResumeStore_take s id now
  | Evict now => (None, ResumeStore_evict_expired s now)
  end.

Fixpoint store_run (s : ResumeStore) (ops : list StoreOp) : list (option SessionTicket) * ResumeStore :=
  match ops with
  | [] => ([], s)
  | o :: ops =>
      let '(r, s) := store_step s o in
      let '(rs, s) := store_run s ops in (r :: rs, s)
  end.

(** The reference: every stored ticket is kept until it is taken; a take
    returns it when it is valid at that moment. *)
Abbreviation TicketBook := (gmap (list byte) SessionTicket).

Definition book_step (m : TicketBook) (o : StoreOp) : option SessionTicket * TicketBook :=
  match o with
  | Store t _ => (None, <[ticket_id t := t]> m)
  | Take id now =>
      (match m !! id with
       | Some t => if SessionTicket_is_valid t now then Some t else None
       | None => None
       end, delete id m)
  | Evict _ => (None, m)
  end.

Fixpoint book_run (m : TicketBook) (ops : list StoreOp) : list (option SessionTicket) :=
  match ops with
  | [] => []
  | o :: ops => let '(r, m) := book_step m o in r :: book_run m ops
  end.

(** The clock does not go back, and tickets are stored no earlier than they
    were created. *)
Fixpoint ops_ok (clock : Z) (ops : list StoreOp) : Prop :=
  match ops with
  | [] => True
  | o :: ops =>
      clock <= op_time o /\
      match o with Store t now => created_at t <= now | _ => True end /\
      ops_ok (op_time o) ops
  end.

(** At [clock]: what the store keeps is in the book, what it dropped has
    expired for good, and the book holds no ticket of the future. *)
Record book_sim (clock : Z) (s : ResumeStore) (m : TicketBook) : Prop := {
  sim_kept id t : tickets s !! id = Some t -> m !! id = Some t;
  sim_dropped id t : m !! id = Some t -> tickets s !! id = None ->
    saturating_add 64 (created_at t) (ttl_seconds t) <= clock;
  sim_past id t : m !! id = Some t -> created_at t <= clock
}.

Lemma book_sim_time c c' s m : c <= c' -> book_sim c s m -> book_sim c' s m.
Proof.
  intros Hc [H1 H2 H3]. split; [done| |].
  - intros id t Hm Hs. pose proof (H2 id t Hm Hs). lia.
  - intros id t Hm. pose proof (H3 id t Hm). lia.
Qed.

Lemma evict_lookup s now id t :
  tickets (ResumeStore_evict_expired s now) !! id = Some t <->
  tickets s !! id = Some t /\ SessionTicket_is_valid t now = true.
Proof. simpl. by rewrite map_lookup_filter_Some. Qed.

Lemma book_sim_evict c s m : book_sim c s m -> book_sim c (ResumeStore_evict_expired s c) m.
Proof.
  intros [H1 H2 H3]. split; [|intros id t Hm Hs|done].
  - intros id t Ht. apply evict_lookup in Ht as [Ht _]. auto.
  - destruct (tickets s !! id) as [t'|] eqn:E; [|by eauto].
    pose proof (H1 id t' E) as E'. assert (t' = t) as -> by congruence.
    destruct (SessionTicket_is_valid t c) eqn:Ev.
    + exfalso. assert (tickets (ResumeStore_evict_expired s c) !! id = Some t)
        by by apply evict_lookup. congruence.
    + unfold SessionTicket_is_valid in Ev. pose proof (H3 id t Hm).
      apply andb_false_iff in Ev as [Ev|Ev]; cmp_facts; lia.
Qed.

Lemma book_sim_insert c s m t : created_at t <= c -> book_sim c s m ->
  book_sim c {| tickets := <[ticket_id t := t]> (tickets s) |} (<[ticket_id t := t]> m).
Proof.
  intros Hc [H1 H2 H3].
  split; intros id u; simpl; destruct (decide (id = ticket_id t)) as [->|Hne];
    rewrite ?lookup_insert_eq, ?lookup_insert_ne by done; try congruence; eauto.
Qed.

Lemma book_sim_delete c s m id : book_sim c s m ->
  book_sim c {| tickets := delete id (tickets s) |} (delete id m).
Proof.
  intros [H1 H2 H3].
  split; intros j u; simpl; destruct (decide (j = id)) as [->|Hne];
    rewrite ?lookup_delete_eq, ?lookup_delete_ne by done; try congruence; eauto.
Qed.

Lemma store_step_sim s m o :
  book_sim (op_time o) s m ->
  match o with Store t now => created_at t <= now | _ => True end ->
  fst (store_step s o) = fst (book_step m o) /\
  book_sim (op_time o) (snd (store_step s o)) (snd (book_step m o)).
Proof.
  intros Hs Ho. destruct o as [t now|id now|now]; simpl in *.
  - split; [done|]. by apply book_sim_insert, book_sim_evict.
  - unfold ResumeStore_take. pose proof Hs as [H1 H2 H3].
    destruct (tickets s !! id) as [t|] eqn:E; simpl.
    + rewrite (H1 id t E). split; [done|]. by apply book_sim_delete.
    + split.
      * destruct (m !! id) as [t|] eqn:Em; [|done].
        pose proof (H2 id t Em E). unfold SessionTicket_is_valid.
        destruct (now <? _) eqn:El; cmp_facts; [lia|]. by rewrite andb_false_r.
      * replace s with {| tickets := delete id (tickets s) |}
          by (rewrite delete_id by done; by destruct s).
        by apply book_sim_delete.
  - split; [done|]. by apply book_sim_evict.
Qed.

Lemma store_run_sim ops : forall c s m, ops_ok c ops -> book_sim c s m ->
  fst (store_run s ops) = book_run m ops.
Proof.
  induction ops as [|o ops IH]; intros c s m Hok Hs; simpl; [done|].
  destruct Hok as (Hc & Ho & Hok).
  destruct (store_step_sim s m o (book_sim_time _ _ _ _ Hc Hs) Ho) as [Hr Hs'].
  destruct (store_step s o) as [r s'], (book_step m o) as [r' m']. simpl in *. subst r'.
  specialize (IH _ _ _ Hok Hs'). destruct (store_run s' ops) as [rs s'']. simpl in *. by subst.
Qed.

(** The resumption store, with its eviction on every insert, answers every
    sequence of [store]/[take]/[evict_expired] calls as the book that never
    evicts: a take succeeds exactly when the ticket last stored under that id
    has not been taken since and is valid at that moment (so each store is
    redeemed at most once), as long as the clock does not go back and tickets
    are not stored before they are created. *)
Theorem resume_store_refines ops c :
  ops_ok c ops -> fst (store_run ResumeStore_new ops) = book_run ∅ ops.
Proof.
  intros Hok. apply (store_run_sim ops c); [done|].
  split; intros id t; simpl; rewrite lookup_empty; done.
Qed.

(** ** Evaluations *)

Definition demo_ticket (n : Z) (now : Z) : SessionTicket :=
  SessionTicket_new (replicate 32 x01) (replicate 32 x02) (to_le 16 n) now.

Lemma resume_store_refines_witness :
  fst (store_run ResumeStore_new
         [Store (demo_ticket 1 10) 10; Store (demo_ticket 2 11) 11; Take (to_le 16 1) 3609;
          Take (to_le 16 1) 3609; Take (to_le 16 2) 3611])
  = [None; None; Some (demo_ticket 1 10); None; None].
Proof.
  rewrite (resume_store_refines _ 0); [by vm_compute|].
  cbn [ops_ok op_time demo_ticket SessionTicket_new created_at]. split_and!; try lia; done.
Defined.
