(* ===== verification/Resumption.v ===== *)
(** * 0-RTT session tickets (src/src/transport/resumption.rs)

    [TicketKey::issue] seals a session's two directional key sets under the
    server's ticket key, [TicketKey::redeem] opens and checks them, and the
    client keeps a [SessionTicket].  The clock and the random nonce are
    arguments. *)

From Stdlib Require Import ZArith Lia Bool List String.
From Stdlib Require Import Strings.Byte.
From stdpp Require Import base list numbers option.
From S2P Require Import Prelude Packet Crypto TestCrypto.

Open Scope Z_scope.

Definition TICKET_PLAINTEXT_LEN : nat := 8 + 76 + 76 + 8.
Definition TICKET_LEN : nat := TICKET_PLAINTEXT_LEN + 12 + 16.
Definition TICKET_TTL_SECS : Z := 24 * 3600.

Record TicketKey : Type := mkTicketKey { tk_key : list byte (* [u8; 32] *) }.

Definition TicketKey_new (key : list byte) : TicketKey := {| tk_key := key |}.

Record SessionTicket : Type := mkSessionTicket {
  tk_session_id : Z;   (* u64 *)
  keys_c2s : PacketKeys;
  keys_s2c : PacketKeys
}.

Definition SessionTicket_new (id : Z) (c2s s2c : PacketKeys) : SessionTicket :=
  {| tk_session_id := id; keys_c2s := c2s; keys_s2c := s2c |}.

Definition SessionTicket_to_bytes (t : SessionTicket) : list byte :=
  to_le 8 (tk_session_id t) ++ PacketKeys_to_bytes (keys_c2s t) ++ PacketKeys_to_bytes (keys_s2c t).

Definition SessionTicket_from_bytes (buf : list byte) : option SessionTicket :=
  if negb (length buf =? 8 + 76 + 76)%nat then None
  else
    match PacketKeys_from_bytes (slice buf 8 84), PacketKeys_from_bytes (slice buf 84 160) with
    | Some c2s, Some s2c =>
        Some {| tk_session_id := from_le (slice buf 0 8); keys_c2s := c2s; keys_s2c := s2c |}
    | _, _ => None
    end.

Section WithCrypto.
Context {C : Crypto}.

Definition TICKET_AAD : list byte := list_byte_of_string "seam-ticket".

(** The plaintext array is written field by field over its whole length. *)
Definition ticket_plain (session_id : Z) (c2s s2c : PacketKeys) (expiry : Z) : list byte :=
  to_le 8 session_id ++ PacketKeys_to_bytes c2s ++ PacketKeys_to_bytes s2c ++ to_le 8 expiry.

(** [None] is the panic of [.expect("ticket encrypt")]. *)
Definition TicketKey_issue (k : TicketKey) (session_id : Z) (c2s s2c : PacketKeys)
    (now : Z) (nonce : list byte) : option (list byte) :=
  let expiry := wrapping_add 64 now TICKET_TTL_SECS in
  let plain := ticket_plain session_id c2s s2c expiry in
  match chacha_encrypt (tk_key k) nonce TICKET_AAD plain with
  | None => None
  | Some sealed =>
      let buf := take (length plain) sealed in
      let tag := drop (length plain) sealed in
      Some (nonce ++ buf ++ tag)
  end.

Definition TicketKey_redeem (k : TicketKey) (ticket_bytes : list byte) (now : Z)
  : Result (Z * PacketKeys * PacketKeys) SeamError :=
  if negb (length ticket_bytes =? TICKET_LEN)%nat
  then Err (HandshakeFailed "bad ticket length")
  else
    let nonce := slice ticket_bytes 0 12 in
    let ct := slice ticket_bytes 12 (12 + TICKET_PLAINTEXT_LEN + 16) in
    try ct := ok_or (chacha_decrypt (tk_key k) nonce TICKET_AAD ct) AuthFailed in
    if (length ct <? TICKET_PLAINTEXT_LEN)%nat then Err AuthFailed
    else
      let session_id := from_le (slice ct 0 8) in
      try c2s := ok_or (PacketKeys_from_bytes (slice ct 8 84)) AuthFailed in
      try s2c := ok_or (PacketKeys_from_bytes (slice ct 84 160)) AuthFailed in
      let expiry := from_le (slice ct 160 168) in
      if expiry <=? now then Err (HandshakeFailed "ticket expired")
      else Ok (session_id, c2s, s2c).

(** What is left of a key set after serialisation: the 76 bytes do not carry
    the cipher suite. *)
Definition default_suite (k : PacketKeys) : PacketKeys :=
  PacketKeys_new (enc_key k) (hp_key k) (nonce_base k).
End WithCrypto.

Section Laws.
Context {C : Crypto} {L : CryptoLaws C}.

Lemma length_keys_bytes k : keys_wf k -> length (PacketKeys_to_bytes k) = 76%nat.
Proof. intros (H1 & H2 & H3). unfold PacketKeys_to_bytes. rewrite !length_app. lia. Qed.

Lemma keys_to_from b k : PacketKeys_from_bytes b = Some k -> PacketKeys_to_bytes k = b.
Proof.
  unfold PacketKeys_from_bytes. destruct (length b =? 76)%nat eqn:E; cmp_facts; [|done].
  intros [= <-]. unfold PacketKeys_to_bytes. cbn [enc_key hp_key nonce_base].
  rewrite !slice_join by lia. by apply slice_all.
Qed.

Lemma length_ticket_plain id c2s s2c e : keys_wf c2s -> keys_wf s2c ->
  length (ticket_plain id c2s s2c e) = TICKET_PLAINTEXT_LEN.
Proof.
  intros H1 H2. unfold ticket_plain.
  rewrite !length_app, !length_to_le, !length_keys_bytes by done. done.
Qed.

(** The four fields of the plaintext are read back where they were written. *)
Lemma ticket_plain_fields id c2s s2c e : keys_wf c2s -> keys_wf s2c ->
  let p := ticket_plain id c2s s2c e in
  slice p 0 8 = to_le 8 id /\ slice p 8 84 = PacketKeys_to_bytes c2s /\
  slice p 84 160 = PacketKeys_to_bytes s2c /\ slice p 160 168 = to_le 8 e.
Proof.
  intros H1 H2. cbv zeta. unfold ticket_plain. apply length_keys_bytes in H1, H2.
  split_and!.
  - rewrite slice_app_l by (rewrite length_to_le; lia). apply slice_all, length_to_le.
  - apply slice_mid; [apply length_to_le|lia].
  - rewrite app_assoc. apply slice_mid; [rewrite length_app, length_to_le; lia|lia].
  - rewrite app_assoc, app_assoc.
    apply slice_last; [rewrite !length_app, length_to_le; lia|apply length_to_le].
Qed.

(** Redemption of a string of the right length, as one decision. *)
Lemma redeem_unfold k b now p : length b = TICKET_LEN ->
  chacha_decrypt (tk_key k) (slice b 0 12) TICKET_AAD (slice b 12 TICKET_LEN) = Some p ->
  exists c2s s2c,
    PacketKeys_from_bytes (slice p 8 84) = Some c2s /\
    PacketKeys_from_bytes (slice p 84 160) = Some s2c /\
    TicketKey_redeem k b now =
      if from_le (slice p 160 168) <=? now then Err (HandshakeFailed "ticket expired")
      else Ok (from_le (slice p 0 8), c2s, s2c).
Proof.
  intros Hb Hd. pose proof (chacha_decrypt_len _ _ _ _ _ Hd) as Hl.
  rewrite length_slice in Hl by (unfold TICKET_LEN, TICKET_PLAINTEXT_LEN in *; lia).
  assert (length p = TICKET_PLAINTEXT_LEN) as Hp by (unfold TICKET_LEN in *; lia).
  assert (forall i, (i + 76 <= 168)%nat ->
    is_Some (PacketKeys_from_bytes (slice p i (i + 76)))) as Hk.
  { intros i Hi. unfold PacketKeys_from_bytes.
    rewrite length_slice by (unfold TICKET_PLAINTEXT_LEN in *; lia).
    replace (i + 76 - i)%nat with 76%nat by lia. by eexists. }
  destruct (Hk 8%nat) as [c2s E1]; [lia|]. destruct (Hk 84%nat) as [s2c E2]; [lia|].
  exists c2s, s2c. split_and!; [done|done|].
  unfold TicketKey_redeem. rewrite Hb, Nat.eqb_refl. cbn [negb].
  change (12 + TICKET_PLAINTEXT_LEN + 16)%nat with TICKET_LEN. rewrite Hd. cbn [ok_or bind_result].
  rewrite Hp, Nat.ltb_irrefl. simpl plus in E1, E2. rewrite E1, E2. done.
Qed.

(** Tickets work: issuing never fails, the ticket has the fixed length,
    and redeeming it returns the session id and both directional key sets
    exactly until 24 hours have passed, then the expiry error.  The key sets
    come back with the default cipher suite: the ticket does not carry the
    session's suite. *)
Theorem ticket_issue_redeem k id c2s s2c t0 nonce :
  length (tk_key k) = 32%nat -> length nonce = 12%nat -> is_u64 id -> keys_wf c2s -> keys_wf s2c ->
  0 <= t0 < 2 ^ 63 ->
  exists b, TicketKey_issue k id c2s s2c t0 nonce = Some b /\ length b = TICKET_LEN /\
    forall t, TicketKey_redeem k b t =
      if t <? t0 + TICKET_TTL_SECS then Ok (id, default_suite c2s, default_suite s2c)
      else Err (HandshakeFailed "ticket expired").
Proof.
  intros Hk Hn Hid H1 H2 Ht.
  set (e := wrapping_add 64 t0 TICKET_TTL_SECS). set (p := ticket_plain id c2s s2c e).
  assert (e = t0 + TICKET_TTL_SECS) as He.
  { unfold e, wrapping_add. apply wrap_small. unfold is_u, TICKET_TTL_SECS. lia. }
  assert (length p = TICKET_PLAINTEXT_LEN) as Hp by by apply length_ticket_plain.
  destruct (chacha_encrypt_total (tk_key k) nonce TICKET_AAD p Hk Hn) as [c Hc];
    [rewrite Hp; unfold AEAD_MAX_LEN, TICKET_PLAINTEXT_LEN; lia|].
  exists (nonce ++ c). unfold TicketKey_issue. fold e. fold p. rewrite Hc.
  rewrite firstn_skipn. pose proof (chacha_encrypt_len _ _ _ _ _ Hc) as Hl. rewrite Hp in Hl.
  assert (length (nonce ++ c) = TICKET_LEN) as Hb
    by (rewrite length_app; unfold TICKET_LEN; lia).
  split_and!; [done|done|]. intros t.
  destruct (redeem_unfold k (nonce ++ c) t p Hb) as (k1 & k2 & E1 & E2 & ->).
  { rewrite slice_app_l, slice_all, slice_last by (unfold TICKET_LEN in *; lia).
    by eapply chacha_decrypt_encrypt. }
  destruct (ticket_plain_fields id c2s s2c e H1 H2) as (F1 & F2 & F3 & F4). fold p in F1, F2, F3, F4.
  rewrite F2, packet_keys_roundtrip in E1 by done. rewrite F3, packet_keys_roundtrip in E2 by done.
  injection E1 as <-. injection E2 as <-. rewrite F1, F4.
  rewrite !from_le_to_le_small by (done || (unfold is_u, TICKET_TTL_SECS in *; lia)).
  rewrite He. destruct (t <? _) eqn:Et; cmp_facts.
  - by replace (_ <=? t) with false by (symmetry; apply Z.leb_gt; lia).
  - by replace (_ <=? t) with true by (symmetry; apply Z.leb_le; lia).
Qed.

(** Nothing else is redeemed: a string is accepted only if it has the fixed
    length, its body authenticates under the ticket key with its own nonce and
    the [seam-ticket] context, and the authenticated expiry lies in the future;
    the returned session id and keys are those of the authenticated plaintext,
    and a string of the right length that does not authenticate is answered
    with [AuthFailed]. *)
Theorem ticket_redeem_authenticated k b now :
  (forall id c2s s2c, TicketKey_redeem k b now = Ok (id, c2s, s2c) ->
    length b = TICKET_LEN /\ exists p,
      chacha_decrypt (tk_key k) (slice b 0 12) TICKET_AAD (slice b 12 TICKET_LEN) = Some p /\
      now < from_le (slice p 160 168) /\
      ticket_plain id c2s s2c (from_le (slice p 160 168)) = p) /\
  (length b = TICKET_LEN ->
   chacha_decrypt (tk_key k) (slice b 0 12) TICKET_AAD (slice b 12 TICKET_LEN) = None ->
   TicketKey_redeem k b now = Err AuthFailed).
Proof.
  split.
  - intros id c2s s2c H. destruct (decide (length b = TICKET_LEN)) as [Hb|Hb].
    2: { exfalso. unfold TicketKey_redeem in H. apply Nat.eqb_neq in Hb. by rewrite Hb in H. }
    split; [done|].
    destruct (chacha_decrypt (tk_key k) (slice b 0 12) TICKET_AAD (slice b 12 TICKET_LEN)) as [p|] eqn:Ed.
    2: { exfalso. unfold TicketKey_redeem in H. rewrite Hb, Nat.eqb_refl in H. cbn [negb] in H.
         change (12 + TICKET_PLAINTEXT_LEN + 16)%nat with TICKET_LEN in H. by rewrite Ed in H. }
    exists p. split; [done|].
    destruct (redeem_unfold k b now p Hb Ed) as (k1 & k2 & E1 & E2 & Hr).
    rewrite Hr in H. destruct (_ <=? now) eqn:Et; [done|]. cmp_facts. injection H as <- <- <-.
    split; [done|].
    pose proof (chacha_decrypt_len _ _ _ _ _ Ed) as Hl.
    rewrite length_slice in Hl by (unfold TICKET_LEN, TICKET_PLAINTEXT_LEN in *; lia).
    assert (length p = 168%nat) by (unfold TICKET_LEN, TICKET_PLAINTEXT_LEN in *; lia).
    unfold ticket_plain. rewrite !to_le_from_le by (apply length_slice; lia).
    rewrite (keys_to_from _ _ E1), (keys_to_from _ _ E2).
    rewrite !slice_join by lia. by apply slice_all.
  - intros Hb Hd. unfold TicketKey_redeem. rewrite Hb, Nat.eqb_refl. cbn [negb].
    change (12 + TICKET_PLAINTEXT_LEN + 16)%nat with TICKET_LEN. by rewrite Hd.
Qed.
End Laws.

Lemma ticket_issue_redeem_witness :
  exists b, TicketKey_issue (TicketKey_new (replicate 32 x42)) 999 test_keys test_keys 1000
              (replicate 12 x07) = Some b /\ length b = TICKET_LEN /\
    forall t, TicketKey_redeem (TicketKey_new (replicate 32 x42)) b t =
      if t <? 1000 + TICKET_TTL_SECS then Ok (999, default_suite test_keys, default_suite test_keys)
      else Err (HandshakeFailed "ticket expired").
Proof.
  apply (ticket_issue_redeem (TicketKey_new (replicate 32 x42)) 999 test_keys test_keys 1000);
    try done; unfold is_u; try lia; apply test_keys_wf.
Defined.

Lemma ticket_redeem_authenticated_witness :
  TicketKey_redeem (TicketKey_new (replicate 32 x42)) (replicate 196 x00) 5 = Err AuthFailed.
Proof.
  apply (proj2 (ticket_redeem_authenticated (TicketKey_new (replicate 32 x42)) (replicate 196 x00) 5)).
  - reflexivity.
  - vm_compute. reflexivity.
Defined.
