(* ===== verification/Cookie.v ===== *)
(** * Stateless handshake cookies (src/src/handshake/cookie.rs)

    [CookieFactory]: a keyed hash of the client address and a 30-second time
    bucket.  The wall clock (seconds since the epoch) is an argument. *)

From Stdlib Require Import ZArith Lia Bool List String.
From Stdlib Require Import Strings.Byte.
From stdpp Require Import base list numbers option.
From S2P Require Import Prelude Packet Crypto TestCrypto.

Open Scope Z_scope.

Record CookieFactory : Type := mkCookieFactory {
  cf_secret : list byte;   (* [u8; 32] *)
  bucket_secs : Z          (* u64 *)
}.

Definition CookieFactory_new (secret : list byte) : CookieFactory :=
  {| cf_secret := secret; bucket_secs := 30 |}.

Definition CookieFactory_bucket (f : CookieFactory) (now : Z) : Z := now / bucket_secs f.

Section WithCrypto.
Context {C : Crypto}.

Definition CookieFactory_compute (f : CookieFactory) (client_addr : list byte) (bucket : Z)
  : list byte :=
  blake3_keyed_hash (cf_secret f) (client_addr ++ to_le 8 bucket).

Definition CookieFactory_generate (f : CookieFactory) (client_addr : list byte) (now : Z)
  : list byte :=
  CookieFactory_compute f client_addr (CookieFactory_bucket f now).

Definition CookieFactory_verify (f : CookieFactory) (client_addr cookie : list byte) (now : Z)
  : bool :=
  let b := CookieFactory_bucket f now in
  let cur := CookieFactory_compute f client_addr b in
  let prev := if 0 <? b then CookieFactory_compute f client_addr (b - 1)
              else replicate 32 x00 in
  bytes_eqb cur cookie || bytes_eqb prev cookie.

(** Two inputs that collide under the secret. *)
Definition keyed_collision (f : CookieFactory) : Prop :=
  exists x y, x <> y /\ blake3_keyed_hash (cf_secret f) x = blake3_keyed_hash (cf_secret f) y.

Lemma verify_iff f addr cookie now :
  CookieFactory_verify f addr cookie now = true <->
  let b := CookieFactory_bucket f now in
  cookie = CookieFactory_compute f addr b \/
  (0 < b /\ cookie = CookieFactory_compute f addr (b - 1)) \/
  (b <= 0 /\ cookie = replicate 32 x00).
Proof.
  unfold CookieFactory_verify. cbv zeta. rewrite orb_true_iff, !bytes_eqb_eq.
  destruct (0 <? CookieFactory_bucket f now) eqn:E; cmp_facts;
    intuition (subst; auto; lia).
Qed.

Lemma compute_inj f a a' b b' : is_u64 b -> is_u64 b' ->
  CookieFactory_compute f a b = CookieFactory_compute f a' b' ->
  (a = a' /\ b = b') \/ keyed_collision f.
Proof.
  intros Hb Hb' H. destruct (decide (a ++ to_le 8 b = a' ++ to_le 8 b')) as [E|E].
  - left. apply app_inj_2 in E as [-> E]; [|by rewrite !length_to_le].
    apply to_le_inj in E; [done|done|done].
  - right. by eexists _, _.
Qed.

Lemma bucket_is_u64 secret t : is_u64 t -> is_u64 (CookieFactory_bucket (CookieFactory_new secret) t).
Proof.
  unfold is_u, CookieFactory_bucket. simpl. intros [H1 H2].
  split; [apply Z.div_pos; lia|]. apply Z.div_lt_upper_bound; lia.
Qed.

(** A cookie handed out at [t1] is accepted for the same address for the
    rest of its 30-second bucket and the whole next one, so for every [t2] up
    to 30 seconds later; conversely a cookie that was handed out and is
    accepted (after the epoch's first 30 seconds) was handed out
    for that very address in the current or the previous bucket, less than 60
    seconds before [t2], unless it exhibits a collision of the keyed hash. *)
Theorem cookie_window secret addr addr' t1 t2 :
  let f := CookieFactory_new secret in
  is_u64 t1 -> is_u64 t2 -> 30 <= t2 -> t1 <= t2 ->
  (t2 / 30 <= t1 / 30 + 1 ->
   CookieFactory_verify f addr (CookieFactory_generate f addr t1) t2 = true) /\
  (t2 <= t1 + 30 -> t2 / 30 <= t1 / 30 + 1) /\
  (CookieFactory_verify f addr' (CookieFactory_generate f addr t1) t2 = true ->
   (addr = addr' /\ t2 / 30 - 1 <= t1 / 30 <= t2 / 30 /\ t2 < t1 + 60) \/ keyed_collision f).
Proof.
  intros f H1 H2 H30 Hle.
  assert (CookieFactory_bucket f t2 = t2 / 30) as Eb by done.
  assert (1 <= t2 / 30) by (apply Z.div_le_lower_bound; lia).
  split_and!.
  - intros Hb. apply verify_iff. cbv zeta. rewrite Eb. unfold CookieFactory_generate.
    change (CookieFactory_bucket f t1) with (t1 / 30).
    pose proof (Z.div_le_mono t1 t2 30 ltac:(lia) Hle).
    destruct (decide (t1 / 30 = t2 / 30)) as [->|]; [by left|].
    right. left. split; [lia|]. f_equal. lia.
  - intros Ht. replace (t1 / 30 + 1) with ((t1 + 1 * 30) / 30) by (apply Z.div_add; lia).
    apply Z.div_le_mono; lia.
  - intros Hv. apply verify_iff in Hv. cbv zeta in Hv. rewrite Eb in Hv.
    pose proof (bucket_is_u64 secret t1 H1) as Hu1. pose proof (bucket_is_u64 secret t2 H2) as Hu2.
    change (CookieFactory_bucket _ t2) with (t2 / 30) in Hu2.
    pose proof (Z.div_mod t1 30 ltac:(lia)). pose proof (Z.mod_pos_bound t1 30 ltac:(lia)).
    pose proof (Z.div_mod t2 30 ltac:(lia)). pose proof (Z.mod_pos_bound t2 30 ltac:(lia)).
    destruct Hv as [Hv|[[Hp Hv]|[? _]]]; [| |lia];
      apply compute_inj in Hv as [[-> Hv]|Hc]; try (by right); try done;
      try (unfold is_u in *; lia);
      change (CookieFactory_bucket f t1) with (t1 / 30) in Hv; left; split; [done|lia|done|lia].
Qed.

(** In the epoch's first bucket the previous cookie is not computed but
    replaced by 32 zero bytes, which the comparison then accepts: a server
    whose clock reads less than 30 (an unset clock, or one before the epoch,
    which [unwrap_or_default] turns into 0) accepts the all-zero cookie from
    every address. *)
Theorem cookie_zero_accepted secret addr now :
  0 <= now < 30 ->
  CookieFactory_verify (CookieFactory_new secret) addr (replicate 32 x00) now = true.
Proof.
  intros H. apply verify_iff. right. right. split; [|done].
  unfold CookieFactory_bucket. simpl. rewrite Z.div_small; lia.
Qed.
End WithCrypto.

Lemma cookie_window_witness :
  let f := CookieFactory_new (replicate 32 x42) in
  CookieFactory_verify f [x01; x02] (CookieFactory_generate f [x01; x02] 1000) 1030 = true.
Proof.
  apply (cookie_window (replicate 32 x42) [x01; x02] [x01; x02] 1000 1030);
    unfold is_u; lia || done.
Defined.

Lemma cookie_zero_accepted_witness :
  CookieFactory_verify (CookieFactory_new (replicate 32 x42)) [x7f] (replicate 32 x00) 0 = true.
Proof. apply cookie_zero_accepted. lia. Defined.
