(* ===== verification/Stun.v ===== *)
(** * STUN address discovery (src/src/transport/nat.rs)

    The Binding Request, the Binding Response parser and the retry loop of
    [StunClient].  The transaction id is an argument (it comes from the random
    generator) and the network is a function from the attempt number to what
    the socket did.  Every index of the parser is checked: an access past the
    end of the datagram would be the outcome [Panic]. *)

From Stdlib Require Import ZArith Lia Bool List String.
From Stdlib Require Import Strings.Byte.
From stdpp Require Import base list numbers option pretty.
From S2P Require Import Prelude.

Open Scope Z_scope.

Definition STUN_MAGIC : Z := 0x2112A442.
Definition STUN_BINDING_REQUEST : Z := 0x0001.
Definition STUN_BINDING_RESPONSE : Z := 0x0101.
Definition STUN_ATTR_MAPPED_ADDRESS : Z := 0x0001.
Definition STUN_ATTR_XOR_MAPPED_ADDRESS : Z := 0x0020.
Definition STUN_HEADER_LEN : nat := 20.
Definition STUN_RETRIES : nat := 3.

(** [SocketAddr]: an IPv4 address as its 32-bit value, an IPv6 address as its
    16 octets, and the port. *)
Inductive SocketAddr : Type :=
  | AddrV4 (ip port : Z)
  | AddrV6 (ip : list byte) (port : Z).

#[export] Instance SocketAddr_eq_dec : EqDecision SocketAddr.
Proof. solve_decision. Defined.

Definition build_binding_request (txn_id : list byte) : list byte :=
  to_be 2 STUN_BINDING_REQUEST ++ to_be 2 0 ++ to_be 4 STUN_MAGIC ++ txn_id.

Definition parse_mapped_address (data : list byte) (xor : bool) (magic : Z) : option SocketAddr :=
  if (length data <? 4)%nat then None
  else
    let family := byte_val (at_ data 1) in
    let raw_port := from_be (slice data 2 4) in
    let port := if xor then Z.lxor raw_port (wrap 16 (Z.shiftr magic 16)) else raw_port in
    if family =? 0x01 then
      if (length data <? 8)%nat then None
      else
        let raw_ip := from_be (slice data 4 8) in
        Some (AddrV4 (if xor then Z.lxor raw_ip magic else raw_ip) port)
    else if family =? 0x02 then
      if (length data <? 20)%nat then None
      else
        let raw := slice data 4 20 in
        Some (AddrV6 (if xor then xor_zip raw (to_be 4 magic) else raw) port)
    else None.

Inductive ParseOut : Type :=
  | Done (r : option SocketAddr)
  | Panic
  | OutOfFuel.

(** [(len + 3) & !3]. *)
Definition padded (len : nat) : nat := Z.to_nat (Z.land (Z.of_nat len + 3) (Z.lnot 3)).

(** [xor_mapped.or(mapped)]. *)
Definition prefer (xor_mapped mapped : option SocketAddr) : option SocketAddr :=
  match xor_mapped with Some a => Some a | None => mapped end.

(** The attribute loop at position [pos], [limit] being the end of the
    attributes according to the header. *)
Fixpoint attr_loop (fuel : nat) (data : list byte) (limit pos : nat)
    (mapped xor_mapped : option SocketAddr) : ParseOut :=
  if (limit <? pos + 4)%nat then Done (prefer xor_mapped mapped)
  else
    match fuel with
    | O => OutOfFuel
    | S fuel =>
        if (length data <? pos + 4)%nat then Panic
        else
          let attr_type := from_be (slice data pos (pos + 2)) in
          let len := Z.to_nat (from_be (slice data (pos + 2) (pos + 4))) in
          let value_start := (pos + 4)%nat in
          let value_end := (value_start + len)%nat in
          if (length data <? value_end)%nat then Done (prefer xor_mapped mapped)
          else
            let value := slice data value_start value_end in
            let mapped := if attr_type =? STUN_ATTR_MAPPED_ADDRESS
                          then parse_mapped_address value false STUN_MAGIC else mapped in
            let xor_mapped := if attr_type =? STUN_ATTR_MAPPED_ADDRESS then xor_mapped
                              else if attr_type =? STUN_ATTR_XOR_MAPPED_ADDRESS
                              then parse_mapped_address value true STUN_MAGIC else xor_mapped in
            attr_loop fuel data limit (value_start + padded len) mapped xor_mapped
    end.

Definition parse_binding_response (data expected_txn : list byte) : ParseOut :=
  if (length data <? STUN_HEADER_LEN)%nat then Done None
  else if negb (from_be (slice data 0 2) =? STUN_BINDING_RESPONSE) then Done None
  else
    let attr_len := Z.to_nat (from_be (slice data 2 4)) in
    if negb (from_be (slice data 4 8) =? STUN_MAGIC) then Done None
    else if negb (bytes_eqb (slice data 8 20) expected_txn) then Done None
    else if (length data <? STUN_HEADER_LEN + attr_len)%nat then Done None
    else attr_loop (length data) data (STUN_HEADER_LEN + attr_len) STUN_HEADER_LEN None None.

(** ** The retry loop *)

(** What one attempt sees: the send failed, a datagram arrived, the receive
    failed or nothing arrived within [STUN_TIMEOUT]. *)
Inductive NetEvent : Type :=
  | SendFailed (e : string)
  | Received (data : list byte) (from : SocketAddr)
  | RecvError
  | TimedOut.

(** [for attempt in 0..STUN_RETRIES], [n] attempts left. *)
Fixpoint discover_loop (n attempt : nat) (net : nat -> NetEvent) (server_addr : SocketAddr)
    (server : string) (txn_id : list byte) : Result SocketAddr string :=
  match n with
  | O => Err ("STUN: no response from " ++ server ++ " after " ++ pretty STUN_RETRIES ++ " attempts")%string
  | S n =>
      match net attempt with
      | SendFailed e => Err ("STUN: send failed: " ++ e)%string
      | Received data from =>
          if bool_decide (from = server_addr) then
            match parse_binding_response data txn_id with
            | Done (Some ext) => Ok ext
            | _ => discover_loop n (S attempt) net server_addr server txn_id
            end
          else discover_loop n (S attempt) net server_addr server txn_id
      | RecvError | TimedOut => discover_loop n (S attempt) net server_addr server txn_id
      end
  end.

Definition discover_on_resolved (net : nat -> NetEvent) (server_addr : SocketAddr)
    (server : string) (txn_id : list byte) : Result SocketAddr string :=
  discover_loop STUN_RETRIES 0 net server_addr server txn_id.

(** ** The parser never panics *)

Lemma padded_le len : (len <= padded len < len + 4)%nat.
Proof.
  unfold padded. replace (Z.land (Z.of_nat len + 3) (Z.lnot 3)) with ((Z.of_nat len + 3) / 4 * 4).
  - pose proof (Z.div_mod (Z.of_nat len + 3) 4 ltac:(lia)).
    pose proof (Z.mod_pos_bound (Z.of_nat len + 3) 4 ltac:(lia)). lia.
  - replace (Z.lnot 3) with (Z.lnot (Z.ones 2)) by done. rewrite <- Z.ldiff_land, Z.ldiff_ones_r by lia.
    rewrite Z.shiftl_mul_pow2, Z.shiftr_div_pow2 by lia. done.
Qed.

Lemma attr_loop_done data limit : (limit <= length data)%nat -> forall fuel pos m x,
  (limit < pos + 4 * S fuel)%nat -> exists r, attr_loop fuel data limit pos m x = Done r.
Proof.
  intros Hl. induction fuel as [|fuel IH]; intros pos m x Hf; simpl.
  - split_if; cmp_facts; [by eexists|lia].
  - split_if; cmp_facts; [by eexists|]. split_if; cmp_facts; [lia|].
    split_if; cmp_facts; [by eexists|]. apply IH.
    pose proof (padded_le (Z.to_nat (from_be (slice data (pos + 2) (pos + 4))))). lia.
Qed.

Lemma parse_done data txn : exists r, parse_binding_response data txn = Done r.
Proof.
  unfold parse_binding_response. repeat (split_if; [by eexists|]). cmp_facts.
  apply attr_loop_done; [done|lia].
Qed.

(** ** The reference: a response as a list of attributes *)

Definition encode_attr (a : Z * list byte) : list byte :=
  to_be 2 (fst a) ++ to_be 2 (Z.of_nat (length (snd a))) ++ snd a
    ++ replicate (padded (length (snd a)) - length (snd a)) x00.

Definition encode_attrs (l : list (Z * list byte)) : list byte := concat (map encode_attr l).

Definition encode_response (txn : list byte) (l : list (Z * list byte)) : list byte :=
  to_be 2 STUN_BINDING_RESPONSE ++ to_be 2 (Z.of_nat (length (encode_attrs l)))
    ++ to_be 4 STUN_MAGIC ++ txn ++ encode_attrs l.

(** What the attributes say: the last of each kind, the XOR-mapped one first. *)
Definition attr_step (acc : option SocketAddr * option SocketAddr) (a : Z * list byte)
  : option SocketAddr * option SocketAddr :=
  if fst a =? STUN_ATTR_MAPPED_ADDRESS then (parse_mapped_address (snd a) false STUN_MAGIC, snd acc)
  else if fst a =? STUN_ATTR_XOR_MAPPED_ADDRESS
  then (fst acc, parse_mapped_address (snd a) true STUN_MAGIC)
  else acc.

Definition attrs_meaning (l : list (Z * list byte)) : option SocketAddr :=
  let '(m, x) := fold_left attr_step l (None, None) in prefer x m.

Definition attr_ok (a : Z * list byte) : Prop := is_u16 (fst a) /\ is_u16 (Z.of_nat (length (snd a))).

Lemma length_encode_attr a : length (encode_attr a) = (4 + padded (length (snd a)))%nat.
Proof.
  unfold encode_attr. rewrite !length_app, !length_to_be, length_replicate.
  pose proof (padded_le (length (snd a))). lia.
Qed.

Lemma attr_loop_encoded l : forall fuel pre post m x,
  Forall attr_ok l -> (length (encode_attrs l) <= 4 * fuel)%nat ->
  attr_loop fuel (pre ++ encode_attrs l ++ post) (length pre + length (encode_attrs l)) (length pre) m x
  = Done (let '(m, x) := fold_left attr_step l (m, x) in prefer x m).
Proof.
  induction l as [|[ty v] l IH]; intros fuel pre post m x Hok Hf.
  { unfold encode_attrs. simpl. destruct fuel; simpl;
      (replace (length pre + 0 <? length pre + 4)%nat with true by (symmetry; apply Nat.ltb_lt; lia)); done. }
  inversion_clear Hok as [|? ? [Hty Hv] Hok']. cbn [fst snd] in Hty, Hv.
  change (encode_attrs ((ty, v) :: l)) with (encode_attr (ty, v) ++ encode_attrs l) in *.
  pose proof (length_encode_attr (ty, v)) as Hla. cbn [snd] in Hla.
  pose proof (padded_le (length v)) as Hpad. rewrite length_app in *.
  destruct fuel as [|fuel]; [lia|]. cbn [attr_loop].
  replace (length pre + (length (encode_attr (ty, v)) + length (encode_attrs l)) <? length pre + 4)%nat
    with false by (symmetry; apply Nat.ltb_ge; lia).
  set (data := pre ++ (encode_attr (ty, v) ++ encode_attrs l) ++ post).
  assert (length data = length pre + length (encode_attr (ty, v)) + length (encode_attrs l) + length post)%nat
    as Hd by (unfold data; rewrite !length_app; lia).
  replace (length data <? length pre + 4)%nat with false by (symmetry; apply Nat.ltb_ge; lia).
  set (pad := replicate (padded (length v) - length v) x00).
  assert (data = pre ++ to_be 2 ty ++ to_be 2 (Z.of_nat (length v)) ++ v ++ pad ++ encode_attrs l ++ post)
    as Ed by (unfold data, encode_attr; cbn [fst snd]; by rewrite <- !app_assoc).
  assert (slice data (length pre) (length pre + 2) = to_be 2 ty) as ->
    by (rewrite Ed; apply slice_mid; rewrite ?length_to_be; lia).
  assert (slice data (length pre + 2) (length pre + 4) = to_be 2 (Z.of_nat (length v))) as ->
    by (rewrite Ed, app_assoc; apply slice_mid; rewrite ?length_app, ?length_to_be; lia).
  rewrite !from_be_to_be_small by done. rewrite Nat2Z.id.
  replace (length data <? length pre + 4 + length v)%nat with false by (symmetry; apply Nat.ltb_ge; lia).
  assert (slice data (length pre + 4) (length pre + 4 + length v) = v) as ->
    by (rewrite Ed, app_assoc, app_assoc; apply slice_mid; rewrite ?length_app, ?length_to_be; lia).
  assert (data = (pre ++ encode_attr (ty, v)) ++ encode_attrs l ++ post) as Ed2
    by (unfold data; by rewrite <- !app_assoc).
  assert (length (pre ++ encode_attr (ty, v)) = length pre + 4 + padded (length v))%nat as Hp2
    by (rewrite length_app; lia).
  specialize (IH fuel (pre ++ encode_attr (ty, v)) post). rewrite <- Ed2, Hp2 in IH.
  replace (length pre + (length (encode_attr (ty, v)) + length (encode_attrs l)))%nat
    with (length pre + 4 + padded (length v) + length (encode_attrs l))%nat by lia.
  rewrite IH by (done || lia). cbn [fold_left]. f_equal. unfold attr_step at 3. cbn [fst snd].
  destruct (ty =? STUN_ATTR_MAPPED_ADDRESS); [done|]. by destruct (ty =? STUN_ATTR_XOR_MAPPED_ADDRESS).
Qed.

Lemma parse_encoded txn l post : length txn = 12%nat -> Forall attr_ok l ->
  is_u16 (Z.of_nat (length (encode_attrs l))) ->
  parse_binding_response (encode_response txn l ++ post) txn = Done (attrs_meaning l).
Proof.
  intros Ht Hok Hn. unfold parse_binding_response.
  set (h := to_be 2 STUN_BINDING_RESPONSE ++ to_be 2 (Z.of_nat (length (encode_attrs l)))
              ++ to_be 4 STUN_MAGIC ++ txn).
  assert (encode_response txn l ++ post = h ++ encode_attrs l ++ post) as Ed
    by (unfold encode_response, h; by rewrite <- !app_assoc).
  assert (length h = 20%nat) as Hh by (unfold h; rewrite !length_app, !length_to_be; lia).
  rewrite Ed. set (data := h ++ encode_attrs l ++ post).
  assert (length data = 20 + length (encode_attrs l) + length post)%nat as Hd
    by (unfold data; rewrite !length_app; lia).
  unfold STUN_HEADER_LEN. rewrite Hd.
  replace (20 + length (encode_attrs l) + length post <? 20)%nat with false
    by (symmetry; apply Nat.ltb_ge; lia).
  assert (slice data 0 2 = to_be 2 STUN_BINDING_RESPONSE) as ->
    by (unfold data, h; rewrite <- !app_assoc; rewrite slice_app_l by (rewrite length_to_be; lia);
        by apply slice_all).
  assert (slice data 2 4 = to_be 2 (Z.of_nat (length (encode_attrs l)))) as ->
    by (unfold data, h; rewrite <- !app_assoc; by apply slice_mid).
  assert (slice data 4 8 = to_be 4 STUN_MAGIC) as ->
    by (unfold data, h; rewrite <- !app_assoc, app_assoc; by apply slice_mid).
  assert (slice data 8 20 = txn) as ->
    by (unfold data, h; rewrite <- !app_assoc, app_assoc, app_assoc; by apply slice_mid).
  rewrite !from_be_to_be_small by (done || (unfold is_u, STUN_BINDING_RESPONSE, STUN_MAGIC; lia)).
  rewrite !Z.eqb_refl, bytes_eqb_refl, Nat2Z.id. cbn [negb].
  replace (20 + length (encode_attrs l) + length post <? 20 + length (encode_attrs l))%nat with false
    by (symmetry; apply Nat.ltb_ge; lia).
  unfold data. rewrite <- Hh. rewrite attr_loop_encoded by (done || lia). done.
Qed.

(** The response parser implements the attribute list of RFC 5389: on every
    datagram it returns (no index is out of range and the loop ends); on the
    encoding of any list of attributes, padded to 4 bytes and possibly followed
    by more bytes, it returns the last XOR-MAPPED-ADDRESS, or failing that the
    last MAPPED-ADDRESS; and it returns an address only for a Binding Response
    with the magic cookie and the transaction id of the request. *)
Theorem stun_parser_refines data txn :
  (exists r, parse_binding_response data txn = Done r) /\
  (forall l post, data = encode_response txn l ++ post -> length txn = 12%nat -> Forall attr_ok l ->
     is_u16 (Z.of_nat (length (encode_attrs l))) ->
     parse_binding_response data txn = Done (attrs_meaning l)) /\
  (forall a, parse_binding_response data txn = Done (Some a) ->
     from_be (slice data 0 2) = STUN_BINDING_RESPONSE /\ from_be (slice data 4 8) = STUN_MAGIC /\
     slice data 8 20 = txn).
Proof.
  split_and!.
  - apply parse_done.
  - intros l post -> ? ? ?. by apply parse_encoded.
  - intros a. unfold parse_binding_response.
    repeat (split_if; [by intros|]). cmp_facts. intros _. by apply bytes_eqb_eq in Eif2.
Qed.

(** ** Addresses *)

Definition encode_v4 (ip port : Z) : list byte := [x00; x01] ++ to_be 2 port ++ to_be 4 ip.

(** RFC 5389, section 15.2: the port and the address are XORed with the
    magic cookie, an IPv6 address with the cookie and the transaction id. *)
Definition encode_xor_v4 (ip port : Z) : list byte :=
  encode_v4 (Z.lxor ip STUN_MAGIC) (Z.lxor port (Z.shiftr STUN_MAGIC 16)).

Definition encode_xor_v6 (ip txn : list byte) (port : Z) : list byte :=
  [x00; x02] ++ to_be 2 (Z.lxor port (Z.shiftr STUN_MAGIC 16)) ++ xor_zip ip (to_be 4 STUN_MAGIC ++ txn).

Lemma parse_v4 ip port xor magic : is_u32 ip -> is_u16 port ->
  parse_mapped_address (encode_v4 ip port) xor magic =
    Some (if xor then AddrV4 (Z.lxor ip magic) (Z.lxor port (wrap 16 (Z.shiftr magic 16)))
          else AddrV4 ip port).
Proof.
  intros Hi Hp. unfold parse_mapped_address.
  assert (length (encode_v4 ip port) = 8%nat) as Hl
    by (unfold encode_v4; rewrite !length_app, !length_to_be; done).
  rewrite Hl. assert (slice (encode_v4 ip port) 2 4 = to_be 2 port) as ->
    by (unfold encode_v4; apply slice_mid; [done|by rewrite length_to_be]).
  assert (slice (encode_v4 ip port) 4 8 = to_be 4 ip) as ->
    by (unfold encode_v4; rewrite app_assoc; apply slice_last; by rewrite ?length_app, ?length_to_be).
  rewrite !from_be_to_be_small by done. by destruct xor.
Qed.

Lemma lxor_cancel a b : Z.lxor (Z.lxor a b) b = a.
Proof. by rewrite Z.lxor_assoc, Z.lxor_nilpotent, Z.lxor_0_r. Qed.

Lemma xor_zip_app a b : forall c d, length a = length c ->
  xor_zip (a ++ b) (c ++ d) = xor_zip a c ++ xor_zip b d.
Proof.
  induction a as [|x a IH]; intros [|y c] d; simpl; try done. intros [= H]. by rewrite IH.
Qed.

Lemma xor_zip_nil_r a : xor_zip a [] = a.
Proof. by destruct a. Qed.

(** Mapped addresses: a plain or XOR-mapped IPv4 address is read back
    exactly; an XOR-mapped IPv6 address, which the RFC masks with the magic
    cookie and the transaction id, is unmasked in its first four octets only,
    so the address reported is the real one with its last twelve octets still
    masked by the transaction id. *)
Theorem stun_addresses ip ip6 txn port :
  is_u32 ip -> is_u16 port -> length ip6 = 16%nat -> length txn = 12%nat ->
  parse_mapped_address (encode_v4 ip port) false STUN_MAGIC = Some (AddrV4 ip port) /\
  parse_mapped_address (encode_xor_v4 ip port) true STUN_MAGIC = Some (AddrV4 ip port) /\
  parse_mapped_address (encode_xor_v6 ip6 txn port) true STUN_MAGIC
    = Some (AddrV6 (take 4 ip6 ++ xor_zip (drop 4 ip6) txn) port).
Proof.
  intros Hi Hp H6 Ht.
  assert (wrap 16 (Z.shiftr STUN_MAGIC 16) = Z.shiftr STUN_MAGIC 16) as Hw by done.
  assert (is_u16 (Z.lxor port (Z.shiftr STUN_MAGIC 16))) as Hp'
    by (apply lxor_bound; [lia|done|]; vm_compute; split; congruence).
  split_and!.
  - by rewrite parse_v4.
  - unfold encode_xor_v4. rewrite parse_v4; [|apply lxor_bound; [lia|done|]; vm_compute; split; congruence|done].
    by rewrite Hw, !lxor_cancel.
  - unfold parse_mapped_address.
    set (body := xor_zip ip6 (to_be 4 STUN_MAGIC ++ txn)).
    assert (length body = 16%nat) as Hb by (unfold body; by rewrite length_xor_zip).
    assert (length (encode_xor_v6 ip6 txn port) = 20%nat) as Hl
      by (unfold encode_xor_v6; fold body; rewrite !length_app, !length_to_be, Hb; done).
    rewrite Hl. assert (slice (encode_xor_v6 ip6 txn port) 2 4
                        = to_be 2 (Z.lxor port (Z.shiftr STUN_MAGIC 16))) as ->
      by (unfold encode_xor_v6; apply slice_mid; [done|by rewrite length_to_be]).
    assert (slice (encode_xor_v6 ip6 txn port) 4 20 = body) as ->
      by (unfold encode_xor_v6; fold body; rewrite app_assoc;
          apply slice_last; [by rewrite length_app, length_to_be|done]).
    rewrite from_be_to_be_small by done. rewrite Hw, lxor_cancel.
    change (byte_val (at_ (encode_xor_v6 ip6 txn port) 1)) with 2. simpl (_ <? _)%nat. simpl (_ =? _).
    cbv iota. do 2 f_equal. unfold body.
    rewrite <- (firstn_skipn 4 ip6) at 1.
    rewrite xor_zip_app by (rewrite length_to_be, length_take; lia).
    rewrite <- (app_nil_r (to_be 4 STUN_MAGIC)) at 2.
    rewrite xor_zip_app by (rewrite length_xor_zip, length_to_be, length_take; lia).
    by rewrite xor_zip_involutive, xor_zip_nil_r.
Qed.

(** ** Discovery *)

Lemma discover_loop_Ok net sa sv txn ext : forall n k,
  discover_loop n k net sa sv txn = Ok ext ->
  exists i data, (k <= i < k + n)%nat /\ net i = Received data sa /\
    parse_binding_response data txn = Done (Some ext).
Proof.
  induction n as [|n IH]; intros k; simpl; [done|].
  assert (discover_loop n (S k) net sa sv txn = Ok ext ->
    exists i data, (k <= i < k + S n)%nat /\ net i = Received data sa /\
      parse_binding_response data txn = Done (Some ext)) as Hrec.
  { intros H. destruct (IH (S k) H) as (i & d & ? & ? & ?). exists i, d. split_and!; [lia|lia|done|done]. }
  destruct (net k) as [e|data from| |] eqn:E; try done.
  case_bool_decide as Hf; [|done]. subst from.
  destruct (parse_binding_response data txn) as [[a|]| |] eqn:Ep; try done.
  intros [= <-]. exists k, data. split_and!; [lia|lia|done|done].
Qed.

(** Discovery believes only the server: an address is returned only if one
    of the three attempts received, from the queried server's own address, a
    datagram the parser accepts for this request's transaction id and reads as
    that address; and if the first datagram of some attempt is such a response
    while every earlier attempt was sent but stayed without a usable answer,
    the address is returned. *)
Theorem stun_discovery net sa sv txn :
  (forall ext, discover_on_resolved net sa sv txn = Ok ext ->
     exists i data, (i < STUN_RETRIES)%nat /\ net i = Received data sa /\
       parse_binding_response data txn = Done (Some ext) /\ slice data 8 20 = txn) /\
  (forall i data ext, (i < STUN_RETRIES)%nat -> net i = Received data sa ->
     parse_binding_response data txn = Done (Some ext) ->
     (forall j, (j < i)%nat -> net j = TimedOut \/ net j = RecvError) ->
     discover_on_resolved net sa sv txn = Ok ext).
Proof.
  split.
  - intros ext H. apply discover_loop_Ok in H as (i & d & Hi & Hn & Hp).
    exists i, d. split_and!; [unfold STUN_RETRIES in *; lia|done|done|].
    unfold parse_binding_response in Hp. revert Hp.
    repeat (split_if; [by intros|]). cmp_facts. intros _. by apply bytes_eqb_eq in Eif2.
  - intros i data ext Hi Hn Hp Hj. unfold discover_on_resolved, STUN_RETRIES in *.
    assert (forall n k, (k <= i < k + n)%nat -> discover_loop n k net sa sv txn = Ok ext) as H.
    { induction n as [|n IH]; intros k Hk; [lia|]. simpl.
      destruct (decide (k = i)) as [->|Hne].
      - rewrite Hn, bool_decide_true, Hp by done. done.
      - destruct (Hj k ltac:(lia)) as [-> | ->]; apply IH; lia. }
    apply H. lia.
Qed.

Lemma stun_addresses_witness :
  parse_mapped_address (encode_xor_v4 0xC0A80001 51234) true STUN_MAGIC = Some (AddrV4 0xC0A80001 51234).
Proof.
  apply (stun_addresses 0xC0A80001 (replicate 16 x11) (replicate 12 x07) 51234);
    unfold is_u; lia || done.
Defined.
