(* ===== verification/Probe.v ===== *)
(** * Path probing (src/src/transport/probe.rs)

    [PathProber]: keep-alive probes, path-MTU discovery by binary search and the
    timeout counter that asks for migration.  Instants are nanoseconds; the
    wall clock that stamps a probe is a separate argument. *)

From Stdlib Require Import ZArith Lia Bool List.
From Stdlib Require Import Strings.Byte.
From stdpp Require Import base list numbers option gmap.
From S2P Require Import Prelude.

Open Scope Z_scope.

Definition MIN_MTU : Z := 1280.
Definition MAX_MTU : Z := 1500.
Definition PROBE_INTERVAL : Z := from_secs 5.
Definition PROBE_TIMEOUT : Z := from_secs 2.
Definition MIGRATION_THRESHOLD : Z := 3.
Definition PROBE_HDR : Z := 16.

Record PendingProbe : Type := mkPendingProbe { sent_at : Z; probe_size : Z }.

Record PathProber : Type := mkPathProber {
  next_probe : Z;
  pending : gmap Z PendingProbe;
  next_id : Z;
  path_mtu : Z;
  mtu_lo : Z;
  mtu_hi : Z;
  probing_mtu : bool;
  consecutive_timeouts : Z
}.

Definition PathProber_new (now : Z) : PathProber :=
  mkPathProber now ∅ 0 MIN_MTU MIN_MTU MAX_MTU true 0.

Definition should_probe (p : PathProber) (now : Z) : bool := next_probe p <=? now.

Definition time_until_next (p : PathProber) (now : Z) : Z := saturating_sub (next_probe p) now.

(** (probe id, payload) and the new state; [now_us] is the wall clock. *)
Definition build_probe (p : PathProber) (now now_us : Z) : Z * list byte * PathProber :=
  let size := if probing_mtu p then wrapping_add 64 (mtu_lo p) (mtu_hi p) / 2 else PROBE_HDR in
  let id := next_id p in
  let payload := to_le 8 id ++ to_le 8 now_us
                   ++ replicate (Z.to_nat (Z.max size PROBE_HDR - 16)) x00 in
  (id, payload,
   mkPathProber (now + PROBE_INTERVAL) (<[id := mkPendingProbe now size]> (pending p))
     (wrapping_add 64 id 1) (path_mtu p) (mtu_lo p) (mtu_hi p) (probing_mtu p)
     (consecutive_timeouts p)).

(** The subtraction [mtu_hi - mtu_lo] is on [usize] and wraps. *)
Definition on_echo (p : PathProber) (payload : list byte) (now : Z) : option Z * PathProber :=
  if (Z.of_nat (length payload) <? PROBE_HDR) then (None, p)
  else
    let id := from_le (slice payload 0 8) in
    match pending p !! id with
    | None => (None, p)
    | Some probe =>
        let pend := delete id (pending p) in
        let rtt := duration_since now (sent_at probe) in
        if probing_mtu p then
          let lo := probe_size probe in
          let converged := wrap 64 (mtu_hi p - lo) <=? 16 in
          (Some rtt,
           mkPathProber (next_probe p) pend (next_id p) (if converged then lo else path_mtu p)
             lo (mtu_hi p) (negb converged) 0)
        else
          (Some rtt,
           mkPathProber (next_probe p) pend (next_id p) (path_mtu p) (mtu_lo p) (mtu_hi p)
             (probing_mtu p) 0)
    end.

Definition timed_out (now : Z) (q : PendingProbe) : bool :=
  PROBE_TIMEOUT <=? duration_since now (sent_at q).

Definition expire_timeouts (p : PathProber) (now : Z) : bool * PathProber :=
  let lost := filter (fun kv => timed_out now kv.2 = true) (pending p) in
  let kept := filter (fun kv => timed_out now kv.2 = false) (pending p) in
  let mtu_loss := existsb (fun kv => PROBE_HDR <? probe_size kv.2) (map_to_list lost) in
  let keepalive_loss := existsb (fun kv => negb (PROBE_HDR <? probe_size kv.2)) (map_to_list lost) in
  let ct := if keepalive_loss then saturating_add 32 (consecutive_timeouts p) 1
            else consecutive_timeouts p in
  let hi := if mtu_loss && probing_mtu p then wrapping_add 64 (mtu_lo p) (mtu_hi p) / 2
            else mtu_hi p in
  (mtu_loss, mkPathProber (next_probe p) kept (next_id p) (path_mtu p) (mtu_lo p) hi
               (probing_mtu p) ct).

Definition should_migrate (p : PathProber) : bool := MIGRATION_THRESHOLD <=? consecutive_timeouts p.

Definition reset_migration_state (p : PathProber) : PathProber :=
  mkPathProber (next_probe p) (pending p) (next_id p) (path_mtu p) (mtu_lo p) (mtu_hi p)
    (probing_mtu p) 0.

(** ** The binary search *)

(** One probe on a path that carries exactly the probes of at most [m] bytes:
    the probe is built, then echoed or, once the timeout has passed, expired. *)
Definition round (m : Z) (p : PathProber) (now : Z) : PathProber :=
  let '(id, payload, p) := build_probe p now 0 in
  if Z.of_nat (length payload) <=? m then snd (on_echo p payload (now + 1))
  else snd (expire_timeouts p (now + PROBE_TIMEOUT)).

Fixpoint rounds (n : nat) (m : Z) (p : PathProber) (now : Z) : PathProber :=
  match n with
  | O => p
  | S n => rounds n m (round m p now) (now + PROBE_INTERVAL)
  end.

(** The search the rounds perform, on the bounds alone. *)
Definition search_step (m : Z) (s : Z * Z * Z * bool) : Z * Z * Z * bool :=
  let '(lo, hi, path, probing) := s in
  if probing then
    let mid := (lo + hi) / 2 in
    if mid <=? m then
      if hi - mid <=? 16 then (mid, hi, mid, false) else (mid, hi, path, true)
    else (lo, mid, path, true)
  else s.

Definition search_of (p : PathProber) : Z * Z * Z * bool :=
  (mtu_lo p, mtu_hi p, path_mtu p, probing_mtu p).

Record search_ok (p : PathProber) : Prop := {
  so_pending : pending p = ∅;
  so_id : is_u64 (next_id p);
  so_lo : MIN_MTU <= mtu_lo p <= mtu_hi p;
  so_hi : mtu_hi p <= MAX_MTU
}.

Lemma length_probe id us n :
  0 <= n -> Z.of_nat (length (to_le 8 id ++ to_le 8 us ++ replicate (Z.to_nat n) x00)) = 16 + n.
Proof. intros H. rewrite !length_app, !length_to_le, length_replicate. lia. Qed.

Lemma round_search m p now : MIN_MTU <= m -> search_ok p ->
  search_of (round m p now) = search_step m (search_of p) /\ search_ok (round m p now).
Proof.
  intros Hm [Hp Hid Hlo Hhi]. unfold round, build_probe.
  unfold MIN_MTU, MAX_MTU in *.
  assert (wrapping_add 64 (mtu_lo p) (mtu_hi p) = mtu_lo p + mtu_hi p) as Hw
    by (unfold wrapping_add; apply wrap_small; unfold is_u; lia).
  set (mid := (mtu_lo p + mtu_hi p) / 2).
  assert (mtu_lo p <= mid <= mtu_hi p) as Hmid
    by (unfold mid; split; [apply Z.div_le_lower_bound|apply Z.div_le_upper_bound]; lia).
  set (size := if probing_mtu p then wrapping_add 64 (mtu_lo p) (mtu_hi p) / 2 else PROBE_HDR).
  assert (size = if probing_mtu p then mid else 16) as Hs
    by (unfold size, mid; rewrite Hw; by destruct (probing_mtu p)).
  assert (16 <= size) by (rewrite Hs; destruct (probing_mtu p); lia).
  rewrite Z.max_l by (unfold PROBE_HDR; lia). rewrite length_probe by lia.
  replace (16 + (size - 16)) with size by lia. rewrite Hp, insert_empty.
  destruct (size <=? m) eqn:Esm; cmp_facts.
  - unfold on_echo. rewrite length_probe by lia. unfold PROBE_HDR.
    replace (16 + (size - 16) <? 16) with false by (symmetry; apply Z.ltb_ge; lia).
    rewrite slice_app_l, slice_all, from_le_to_le_small by (done || by rewrite length_to_le).
    cbn [pending]. rewrite lookup_singleton_eq, delete_singleton_eq. cbn [probing_mtu mtu_hi probe_size].
    destruct (probing_mtu p) eqn:Epr; cbn [snd].
    + rewrite (wrap_small 64 (mtu_hi p - size)) by (unfold is_u; lia). rewrite Hs in *.
      unfold search_of, search_step. cbn [mtu_lo mtu_hi path_mtu probing_mtu]. rewrite Epr. fold mid.
      replace (mid <=? m) with true by (symmetry; apply Z.leb_le; lia).
      split; [by destruct (mtu_hi p - mid <=? 16)|].
      split; cbn; [done|apply wrap_is_u; lia|unfold MIN_MTU; lia|unfold MAX_MTU; lia].
    + unfold search_of, search_step. cbn. rewrite Epr. split; [done|].
      split; cbn; [done|apply wrap_is_u; lia|unfold MIN_MTU; lia|unfold MAX_MTU; lia].
  - destruct (probing_mtu p) eqn:Epr; [|lia]. rewrite Hs in *.
    unfold expire_timeouts. cbn [pending].
    assert (timed_out (now + PROBE_TIMEOUT) (mkPendingProbe now mid) = true) as Ht.
    { unfold timed_out, duration_since, saturating_sub. cbn. apply Z.leb_le.
      unfold PROBE_TIMEOUT, from_secs. lia. }
    rewrite !map_filter_singleton. rewrite decide_True, decide_False by (cbn; congruence).
    rewrite map_to_list_singleton. cbn [existsb snd probe_size mtu_lo mtu_hi probing_mtu].
    replace (PROBE_HDR <? mid) with true by (symmetry; apply Z.ltb_lt; unfold PROBE_HDR; lia).
    cbn [orb andb negb]. rewrite Hw. fold mid.
    unfold search_of, search_step. cbn [mtu_lo mtu_hi path_mtu probing_mtu]. rewrite Epr. fold mid.
    replace (mid <=? m) with false by (symmetry; apply Z.leb_gt; lia). split; [done|].
    split; cbn; [done|apply wrap_is_u; lia|unfold MIN_MTU; lia|unfold MAX_MTU; lia].
Qed.

Lemma rounds_search n m : forall p now, MIN_MTU <= m -> search_ok p ->
  search_of (rounds n m p now) = Nat.iter n (search_step m) (search_of p).
Proof.
  induction n as [|n IH]; intros p now Hm Hp; simpl rounds; [done|].
  destruct (round_search m p now Hm Hp) as [Hs Ho]. rewrite IH by done.
  by rewrite Hs, Nat.iter_succ_r.
Qed.

(** Past the largest probe the path's own limit no longer matters. *)
Lemma search_step_min m s : (fst (fst (fst s)) <= MAX_MTU /\ snd (fst (fst s)) <= MAX_MTU) ->
  search_step m s = search_step (Z.min m MAX_MTU) s /\
  fst (fst (fst (search_step m s))) <= MAX_MTU /\ snd (fst (fst (search_step m s))) <= MAX_MTU.
Proof.
  destruct s as [[[lo hi] path] pr]. cbn [fst snd]. intros [Hlo Hhi]. unfold search_step.
  destruct pr; [|done]. assert ((lo + hi) / 2 <= MAX_MTU) as Hm
    by (apply Z.div_le_upper_bound; unfold MAX_MTU in *; lia).
  replace ((lo + hi) / 2 <=? Z.min m MAX_MTU) with ((lo + hi) / 2 <=? m).
  - split; [done|]. repeat split_if; done.
  - destruct (_ <=? m) eqn:E, (_ <=? Z.min m MAX_MTU) eqn:E'; cmp_facts; done || lia.
Qed.

Lemma search_min n m : Nat.iter n (search_step m) (MIN_MTU, MAX_MTU, MIN_MTU, true)
  = Nat.iter n (search_step (Z.min m MAX_MTU)) (MIN_MTU, MAX_MTU, MIN_MTU, true) /\
  (fst (fst (fst (Nat.iter n (search_step m) (MIN_MTU, MAX_MTU, MIN_MTU, true)))) <= MAX_MTU /\
   snd (fst (fst (Nat.iter n (search_step m) (MIN_MTU, MAX_MTU, MIN_MTU, true)))) <= MAX_MTU).
Proof.
  induction n as [|n [IH1 IH2]]; [done|]. rewrite !Nat.iter_succ.
  destruct (search_step_min m _ IH2) as [E H]. split; [|done]. by rewrite E, IH1.
Qed.

Definition search_good (m : Z) : bool :=
  let '(_, _, path, probing) := Nat.iter 9 (search_step m) (MIN_MTU, MAX_MTU, MIN_MTU, true) in
  negb probing && (MIN_MTU <=? path) && (path <=? m) && (m - path <=? 16).

Lemma search_good_all : forallb (fun k => search_good (MIN_MTU + Z.of_nat k)) (seq 0 221) = true.
Proof. vm_compute. done. Qed.

(** C36: path-MTU discovery works: on a path that carries exactly the probes of
    at most [m >= 1280] bytes, nine probes after another suffice for the search
    to end, with a path MTU the path really carries and at most 16 bytes below
    the largest probe it carries (1500 at most); from then on probes are the
    16-byte keep-alives and the answer no longer changes. *)
Theorem mtu_search_converges m now n :
  MIN_MTU <= m -> (9 <= n)%nat ->
  let p := rounds n m (PathProber_new now) now in
  probing_mtu p = false /\ MIN_MTU <= path_mtu p /\ path_mtu p <= m /\
  Z.min m MAX_MTU - path_mtu p <= 16 /\
  path_mtu p = path_mtu (rounds 9 m (PathProber_new now) now).
Proof.
  intros Hm Hn p.
  assert (search_ok (PathProber_new now)) as Hok
    by (split; cbn; unfold is_u, MIN_MTU, MAX_MTU; done || lia).
  pose proof (rounds_search n m _ now Hm Hok) as H1.
  pose proof (rounds_search 9 m _ now Hm Hok) as H2.
  change (search_of (PathProber_new now)) with (MIN_MTU, MAX_MTU, MIN_MTU, true) in *.
  assert (search_good (Z.min m MAX_MTU) = true) as Hg.
  { pose proof search_good_all as Ha. rewrite forallb_forall in Ha.
    replace (Z.min m MAX_MTU) with (MIN_MTU + Z.of_nat (Z.to_nat (Z.min m MAX_MTU - MIN_MTU)))
      by (unfold MIN_MTU, MAX_MTU in *; lia).
    apply Ha, in_seq. unfold MIN_MTU, MAX_MTU in *. lia. }
  unfold search_good in Hg. rewrite <- (proj1 (search_min 9 m)) in Hg.
  replace n with ((n - 9) + 9)%nat in H1 by lia. rewrite Nat.iter_add in H1.
  destruct (Nat.iter 9 (search_step m) _) as [[[lo hi] path] pr].
  cmp_facts. destruct pr; [done|].
  assert (forall k, Nat.iter k (search_step m) (lo, hi, path, false) = (lo, hi, path, false)) as Hfix.
  { induction k as [|k IH]; [done|]. by rewrite Nat.iter_succ, IH. }
  rewrite Hfix in H1. replace (n - 9 + 9)%nat with n in H1 by lia. fold p in H1.
  assert (path_mtu p = path) as E1 by exact (f_equal (fun s => snd (fst s)) H1).
  assert (probing_mtu p = false) as E2 by exact (f_equal snd H1).
  assert (path_mtu (rounds 9 m (PathProber_new now) now) = path) as E3
    by exact (f_equal (fun s => snd (fst s)) H2).
  rewrite E1, E2, E3. split_and!; try done; lia.
Qed.

Lemma mtu_search_converges_witness :
  probing_mtu (rounds 9 1400 (PathProber_new 0) 0) = false /\
  path_mtu (rounds 9 1400 (PathProber_new 0) 0) = 1396.
Proof.
  destruct (mtu_search_converges 1400 0 9) as (H & _); [unfold MIN_MTU; lia|lia|].
  split; [exact H|]. vm_compute. reflexivity.
Defined.

(** ** Migration *)

(** The prober's operations, with their times. *)
Inductive ProbeOp : Type :=
  | Build (now now_us : Z)
  | Echo (payload : list byte) (now : Z)
  | Expire (now : Z).

Definition probe_step (p : PathProber) (o : ProbeOp) : PathProber :=
  match o with
  | Build now us => snd (build_probe p now us)
  | Echo payload now => snd (on_echo p payload now)
  | Expire now => snd (expire_timeouts p now)
  end.

Definition is_echo (o : ProbeOp) : bool := match o with Echo _ _ => true | _ => false end.

(** While the search runs, every outstanding probe is longer than a header. *)
Record searching (p : PathProber) : Prop := {
  sg_probing : probing_mtu p = true;
  sg_lo : mtu_lo p = MIN_MTU;
  sg_hi : MIN_MTU <= mtu_hi p <= MAX_MTU;
  sg_pending id q : pending p !! id = Some q -> PROBE_HDR < probe_size q;
  sg_timeouts : consecutive_timeouts p = 0
}.

Lemma searching_step p o : searching p -> is_echo o = false -> searching (probe_step p o).
Proof.
  intros [H1 H2 H3 H4 H5] Ho. unfold MIN_MTU, MAX_MTU in *.
  assert (wrapping_add 64 (mtu_lo p) (mtu_hi p) = 1280 + mtu_hi p) as Hw
    by (rewrite H2; unfold wrapping_add; apply wrap_small; unfold is_u; lia).
  assert (1280 <= (1280 + mtu_hi p) / 2 <= 1500)
    by (split; [apply Z.div_le_lower_bound|apply Z.div_le_upper_bound]; lia).
  destruct o as [now us|payload now|now]; [|done|].
  - unfold probe_step, build_probe. split; cbn; [done|done|done| |done].
    intros id q. rewrite H1, Hw. destruct (decide (id = next_id p)) as [->|Hne].
    + rewrite lookup_insert_eq. intros [= <-]. cbn. unfold PROBE_HDR. lia.
    + rewrite lookup_insert_ne by done. apply H4.
  - unfold probe_step, expire_timeouts. split; cbn; [done|done| | |].
    + rewrite Hw, H1. unfold MIN_MTU, MAX_MTU. destruct (existsb _ _); cbn; lia.
    + intros id q Hq. apply map_lookup_filter_Some in Hq as [Hq _]. by eapply H4.
    + replace (existsb _ _) with false; [done|]. symmetry. apply not_true_iff_false.
      intros Hex. apply existsb_exists in Hex as ([id q] & Hin & Hneg). apply list_elem_of_In, elem_of_map_to_list, map_lookup_filter_Some in Hin as [Hq _].
      cbn in Hneg. cmp_facts. pose proof (H4 id q Hq). lia.
Qed.

(** A path that dies before the MTU search has ended is never given up:
    however many probes are built and time out without a single echo, the
    counter of consecutive timeouts stays 0 and migration is never asked for,
    because search probes are longer than a keep-alive and only those count. *)
Theorem dead_path_never_migrates now ops :
  forallb (fun o => negb (is_echo o)) ops = true ->
  let p := fold_left probe_step ops (PathProber_new now) in
  consecutive_timeouts p = 0 /\ should_migrate p = false.
Proof.
  intros Hops p. assert (searching p) as [_ _ _ _ Hc].
  { unfold p. assert (searching (PathProber_new now)) as H0
      by (split; cbn; unfold MIN_MTU, MAX_MTU; try done; try lia; intros ? ?; by rewrite lookup_empty).
    clear p. revert Hops H0. generalize (PathProber_new now).
    induction ops as [|o ops IH]; intros p0 Hops H0; simpl; [done|].
    simpl in Hops. cmp_facts. apply IH; [done|]. by apply searching_step. }
  split; [done|]. unfold should_migrate. by rewrite Hc.
Qed.

Lemma dead_path_never_migrates_witness :
  should_migrate (fold_left probe_step
    [Build 0 0; Expire (from_secs 3); Build (from_secs 5) 0; Expire (from_secs 8);
     Build (from_secs 10) 0; Expire (from_secs 13)] (PathProber_new 0)) = false.
Proof. apply (dead_path_never_migrates 0). reflexivity. Defined.

(** Probes whose lifetimes overlap can push the lower bound above the upper
    one: the width then wraps around the word and the search does not end. *)
Lemma overlapping_probes_invert_bounds :
  let '(_, _, p1) := build_probe (PathProber_new 0) 0 0 in
  let '(_, _, p2) := build_probe p1 (from_secs 1) 0 in
  let '(id3, pay3, p3) := build_probe p2 (from_secs 2) 0 in
  let p4 := snd (expire_timeouts (snd (expire_timeouts p3 (from_secs 2))) (from_secs 3)) in
  let p5 := snd (on_echo p4 pay3 (from_secs 3)) in
  mtu_lo p5 = 1390 /\ mtu_hi p5 = 1335 /\ probing_mtu p5 = true.
Proof. vm_compute. done. Qed.
