(* ===== verification/Identity.v ===== *)
(** * Identity key pairs and the hybrid shared secret

    src/src/handshake/hybrid_keys.rs: the long-term identity of a peer (X25519,
    ML-KEM-768, ML-DSA-65), its file format with the upgrade from version 2,
    [load_or_generate] over the identity file, KEM helpers, identity
    signatures, and [HybridSharedSecret] with the directional packet keys.
    The crates [ml_kem], [fips204], [sha2] and the plain [blake3::hash] are
    interfaces with the laws their documentation states. *)

From Stdlib Require Import ZArith Lia Bool List String.
From Stdlib Require Import Strings.Byte.
From stdpp Require Import base list numbers option.
From S2P Require Import Prelude Packet Crypto TestCrypto Ratchet.

Open Scope Z_scope.

(** ** External primitives *)

Class Kem : Type := {
  KemPublicKey : Type;
  KemSecretKey : Type;
  (** [EncapsulationKey768::to_bytes] and the validating [new]. *)
  kem_pk_to_bytes : KemPublicKey -> list byte;
  kem_pk_new : list byte -> option KemPublicKey;
  kem_from_seed : list byte -> KemSecretKey;
  kem_to_seed : KemSecretKey -> option (list byte);
  (** The encapsulation key of a decapsulation key. *)
  kem_public : KemSecretKey -> KemPublicKey;
  (** [encapsulate] with the randomness it draws: ciphertext and secret. *)
  kem_encap : list byte -> KemPublicKey -> list byte * list byte;
  kem_decap : KemSecretKey -> list byte -> list byte
}.

Definition KEM_SEED_LEN : nat := 64.
Definition KEM_PK_LEN : nat := 1184.
Definition KEM_CT_LEN : nat := 1088.

Class KemLaws (K : Kem) : Prop := {
  kem_pk_len pk : length (kem_pk_to_bytes pk) = KEM_PK_LEN;
  kem_pk_new_to_bytes pk : kem_pk_new (kem_pk_to_bytes pk) = Some pk;
  kem_seed_len sk s : kem_to_seed sk = Some s -> length s = KEM_SEED_LEN;
  kem_from_to_seed sk s : kem_to_seed sk = Some s -> kem_from_seed s = sk;
  kem_ct_len r pk : length (kem_encap r pk).1 = KEM_CT_LEN;
  kem_ss_len r pk : length (kem_encap r pk).2 = 32%nat;
  kem_decap_encap r sk :
    kem_decap sk (kem_encap r (kem_public sk)).1 = (kem_encap r (kem_public sk)).2
}.

Class MlDsa : Type := {
  MlDsaPrivateKey : Type;
  MlDsaPublicKey : Type;
  mldsa_sk_into_bytes : MlDsaPrivateKey -> list byte;
  mldsa_sk_try_from_bytes : list byte -> option MlDsaPrivateKey;
  mldsa_pk_into_bytes : MlDsaPublicKey -> list byte;
  mldsa_pk_try_from_bytes : list byte -> option MlDsaPublicKey;
  mldsa_keygen_from_seed : list byte -> MlDsaPublicKey * MlDsaPrivateKey;
  (** [try_sign(message, context)] with the randomness it draws. *)
  mldsa_try_sign : list byte -> MlDsaPrivateKey -> list byte -> list byte -> option (list byte);
  mldsa_pk_verify : MlDsaPublicKey -> list byte -> list byte -> list byte -> bool;
  (** The key pairs the generator produces. *)
  mldsa_pair : MlDsaPublicKey -> MlDsaPrivateKey -> Prop
}.

Definition MLDSA_SK_LEN : nat := 4032.
Definition MLDSA_PK_LEN : nat := 1952.
Definition MLDSA_SIG_LEN : nat := 3309.

Class MlDsaLaws (D : MlDsa) : Prop := {
  mldsa_sk_len sk : length (mldsa_sk_into_bytes sk) = MLDSA_SK_LEN;
  mldsa_sk_round sk : mldsa_sk_try_from_bytes (mldsa_sk_into_bytes sk) = Some sk;
  mldsa_pk_len pk : length (mldsa_pk_into_bytes pk) = MLDSA_PK_LEN;
  mldsa_pk_round pk : mldsa_pk_try_from_bytes (mldsa_pk_into_bytes pk) = Some pk;
  mldsa_keygen_pair s : mldsa_pair (mldsa_keygen_from_seed s).1 (mldsa_keygen_from_seed s).2;
  mldsa_sig_len r sk m c sg : mldsa_try_sign r sk m c = Some sg -> length sg = MLDSA_SIG_LEN;
  mldsa_sign_verify r pk sk m c sg :
    mldsa_pair pk sk -> mldsa_try_sign r sk m c = Some sg -> mldsa_pk_verify pk m sg c = true
}.

(** [blake3::hash] and [Sha256::digest]. *)
Class PlainHash : Type := {
  blake3_hash : list byte -> list byte;
  sha256_digest : list byte -> list byte
}.

Class PlainHashLaws (H : PlainHash) : Prop := {
  blake3_hash_len s : length (blake3_hash s) = 32%nat;
  sha256_digest_len s : length (sha256_digest s) = 32%nat
}.

(** ** Hexadecimal ([hex::encode]) *)

Definition hex_digit (n : Z) : byte :=
  if n <? 10 then byte_of (48 + n) else byte_of (97 + (n - 10)).

Definition hex_encode (l : list byte) : list byte :=
  List.flat_map (fun b => [hex_digit (byte_val b / 16); hex_digit (byte_val b mod 16)]) l.

Lemma length_hex_encode l : length (hex_encode l) = (2 * length l)%nat.
Proof. induction l; simpl in *; lia. Qed.

Lemma hex_digit_inj a b :
  0 <= a < 16 -> 0 <= b < 16 -> hex_digit a = hex_digit b -> a = b.
Proof.
  unfold hex_digit. intros Ha Hb H. apply (f_equal byte_val) in H. revert H.
  destruct (a <? 10) eqn:?, (b <? 10) eqn:?; cmp_facts; rewrite !byte_val_of;
    rewrite !Z.mod_small; lia.
Qed.

Lemma hex_encode_inj l k : hex_encode l = hex_encode k -> l = k.
Proof.
  revert k. induction l as [|a l IH]; intros [|b k]; simpl; try done.
  intros [= H1 H2 H3].
  pose proof (byte_val_bound a). pose proof (byte_val_bound b).
  apply hex_digit_inj in H1; [|split; [apply Z.div_pos; lia|apply Z.div_lt_upper_bound; lia]..].
  apply hex_digit_inj in H2; [|apply Z.mod_pos_bound; lia..].
  f_equal; [|by apply IH]. apply byte_val_inj.
  rewrite (Z.div_mod (byte_val a) 16), (Z.div_mod (byte_val b) 16) by lia. congruence.
Qed.

Section Identity.
Context {C : Crypto} {X : X25519} {K : Kem} {D : MlDsa} {H : PlainHash}.

(** ** [IdentityKeypair] *)

Record IdentityKeypair : Type := mkIdentityKeypair {
  x25519_secret : list byte;             (* [u8; 32] *)
  id_x25519_public : list byte;          (* [u8; 32] *)
  kem_pk : KemPublicKey;
  kem_sk : KemSecretKey;
  mldsa_sk : MlDsaPrivateKey;
  mldsa_pk : MlDsaPublicKey
}.

(** [generate] with what the operating system's generator supplies: the X25519
    secret, the KEM key pair and the ML-DSA key pair. *)
Definition IdentityKeypair_generate (x_sk : list byte)
  (kem_pair : KemSecretKey * KemPublicKey) (dsa_pair : MlDsaPublicKey * MlDsaPrivateKey)
  : IdentityKeypair :=
  {| x25519_secret := x_sk; id_x25519_public := x25519_public x_sk;
     kem_pk := kem_pair.2; kem_sk := kem_pair.1;
     mldsa_sk := dsa_pair.2; mldsa_pk := dsa_pair.1 |}.

(** [to_bytes]; [None] is the panic of the [expect] on a key without a seed. *)
Definition IdentityKeypair_to_bytes (id : IdentityKeypair) : option (list byte) :=
  match kem_to_seed (kem_sk id) with
  | None => None
  | Some seed =>
      let pk := kem_pk_to_bytes (kem_pk id) in
      Some ([x03] ++ x25519_secret id
              ++ to_be 4 (wrap 32 (Z.of_nat (length seed))) ++ seed
              ++ to_be 4 (wrap 32 (Z.of_nat (length pk))) ++ pk
              ++ mldsa_sk_into_bytes (mldsa_sk id) ++ mldsa_pk_into_bytes (mldsa_pk id))
  end.

(** The conversion of a slice to a fixed-size array. *)
Definition array_try_from (n : nat) (l : list byte) : option (list byte) :=
  if (length l =? n)%nat then Some l else None.

(** The part versions 2 and 3 share: X25519 secret, KEM seed and KEM public
    key, with the offset at which the rest of the file starts. *)
Definition parse_identity_prefix (bytes : list byte)
  : option (list byte * KemSecretKey * KemPublicKey * nat) :=
  let x25519_arr := slice bytes 1 33 in
  let kem_sk_len := Z.to_nat (from_be (slice bytes 33 37)) in
  let kem_sk_end := (37 + kem_sk_len)%nat in
  if (length bytes <? kem_sk_end)%nat then None else
  seed ← array_try_from KEM_SEED_LEN (slice bytes 37 kem_sk_end);
  if (length bytes <? kem_sk_end + 4)%nat then None else
  let kem_pk_len := Z.to_nat (from_be (slice bytes kem_sk_end (kem_sk_end + 4))) in
  let kem_pk_end := (kem_sk_end + 4 + kem_pk_len)%nat in
  if (length bytes <? kem_pk_end)%nat then None else
  pk_arr ← array_try_from KEM_PK_LEN (slice bytes (kem_sk_end + 4) kem_pk_end);
  pk ← kem_pk_new pk_arr;
  Some (x25519_arr, kem_from_seed seed, pk, kem_pk_end).

Definition from_bytes_v3 (bytes : list byte) : option IdentityKeypair :=
  if (length bytes <? 1 + 32 + 8)%nat then None else
  '(x_sk, sk, pk, kem_pk_end) ← parse_identity_prefix bytes;
  let mldsa_end := (kem_pk_end + MLDSA_SK_LEN + MLDSA_PK_LEN)%nat in
  if (length bytes <? mldsa_end)%nat then None else
  dsk ← mldsa_sk_try_from_bytes (slice bytes kem_pk_end (kem_pk_end + MLDSA_SK_LEN));
  dpk ← mldsa_pk_try_from_bytes (slice bytes (kem_pk_end + MLDSA_SK_LEN) mldsa_end);
  Some {| x25519_secret := x_sk; id_x25519_public := x25519_public x_sk;
          kem_pk := pk; kem_sk := sk; mldsa_sk := dsk; mldsa_pk := dpk |}.

Definition from_bytes_v2_upgrade (bytes : list byte) : option IdentityKeypair :=
  if (length bytes <? 1 + 32 + 8)%nat then None else
  if negb (bytes_eqb [at_ bytes 0] [x02]) then None else
  '(x_sk, sk, pk, _) ← parse_identity_prefix bytes;
  let mldsa_seed := blake3_derive_key "seam/mldsa-identity-seed/v1" x_sk in
  let '(dpk, dsk) := mldsa_keygen_from_seed mldsa_seed in
  Some {| x25519_secret := x_sk; id_x25519_public := x25519_public x_sk;
          kem_pk := pk; kem_sk := sk; mldsa_sk := dsk; mldsa_pk := dpk |}.

Definition IdentityKeypair_from_bytes (bytes : list byte) : option IdentityKeypair :=
  match bytes with
  | [] => None
  | x03 :: _ => from_bytes_v3 bytes
  | x02 :: _ => from_bytes_v2_upgrade bytes
  | _ => None
  end.

(** ** [load_or_generate] *)

(** The identity file as the function meets it: its content and whether its
    permissions were set to 0600, with the outcome of the file-system calls. *)
Record IdentityFile : Type := mkIdentityFile {
  if_content : option (list byte);
  if_mode_0600 : bool
}.

Record IdentityIo : Type := mkIdentityIo {
  io_read_fails : bool;
  io_mkdir_fails : bool;
  io_write_fails : bool;
  io_chmod_fails : bool
}.

Inductive IdentityError : Type :=
  | ReadIdentity | InvalidIdentityFile | WriteUpgradedIdentity
  | CreateIdentityDir | WriteIdentity | SetPermissions | PanicNoSeed.

(** Write the key pair and restrict the permissions: the tail of both
    branches.  A failed write leaves the old content, a failed permission call
    leaves the new content with the old mode. *)
Definition persist_identity (io : IdentityIo) (werr : IdentityError) (f : IdentityFile)
  (id : IdentityKeypair) : Result IdentityKeypair IdentityError * IdentityFile :=
  match IdentityKeypair_to_bytes id with
  | None => (Err PanicNoSeed, f)
  | Some b =>
      if io_write_fails io then (Err werr, f) else
      let f' := {| if_content := Some b; if_mode_0600 := if_mode_0600 f |} in
      if io_chmod_fails io then (Err SetPermissions, f')
      else (Ok id, {| if_content := Some b; if_mode_0600 := true |})
  end.

Definition load_or_generate (io : IdentityIo) (fresh : IdentityKeypair) (f : IdentityFile)
  : Result IdentityKeypair IdentityError * IdentityFile :=
  match if_content f with
  | Some bytes =>
      if io_read_fails io then (Err ReadIdentity, f) else
      let version := match bytes with b :: _ => byte_val b | [] => 0 end in
      match IdentityKeypair_from_bytes bytes with
      | None => (Err InvalidIdentityFile, f)
      | Some id =>
          if version =? 2 then persist_identity io WriteUpgradedIdentity f id
          else (Ok id, f)
      end
  | None =>
      if io_mkdir_fails io then (Err CreateIdentityDir, f)
      else persist_identity io WriteIdentity f fresh
  end.

(** ** Identity signatures *)

Definition IDENTITY_PROOF_CTX : list byte := string_bytes "seam-identity-proof/v1".

Definition mldsa_sign (rnd : list byte) (id : IdentityKeypair) (message : list byte)
  : option (list byte) :=
  mldsa_try_sign rnd (mldsa_sk id) message IDENTITY_PROOF_CTX.

Definition mldsa_fingerprint (id : IdentityKeypair) : list byte :=
  hex_encode (sha256_digest (mldsa_pk_into_bytes (mldsa_pk id))).

Definition mldsa_verify (pk_bytes message sig_bytes : list byte) : bool :=
  match mldsa_pk_try_from_bytes pk_bytes with
  | None => false
  | Some pk => mldsa_pk_verify pk message sig_bytes IDENTITY_PROOF_CTX
  end.

(** ** [HybridSharedSecret] *)

Record HybridSharedSecret : Type := mkHybrid { hybrid_data : list byte (* [u8; 64] *) }.

Definition HybridSharedSecret_new (x25519_bytes kem_bytes : list byte) : HybridSharedSecret :=
  {| hybrid_data := x25519_bytes ++ kem_bytes |}.

Definition derive_packet_keys_with_cipher (h : HybridSharedSecret) (noise_hash : list byte)
  (cs : CipherSuite) (direction : list byte) : PacketKeys :=
  derive_from_secret_with_cipher (hybrid_data h ++ noise_hash ++ direction) cs.

Definition derive_directional_packet_keys (h : HybridSharedSecret) (noise_hash : list byte)
  (cs : CipherSuite) : PacketKeys * PacketKeys :=
  (derive_packet_keys_with_cipher h noise_hash cs (string_bytes "c2s"),
   derive_packet_keys_with_cipher h noise_hash cs (string_bytes "s2c")).

(** ** KEM helpers *)

Definition kem_encapsulate (rnd : list byte) (pk : KemPublicKey) : list byte * list byte :=
  kem_encap rnd pk.

Definition kem_decapsulate (sk : KemSecretKey) (ct_bytes : list byte) : option (list byte) :=
  ct ← array_try_from KEM_CT_LEN ct_bytes;
  array_try_from 32 (kem_decap sk ct).

Definition pk_to_bytes (pk : KemPublicKey) : list byte := kem_pk_to_bytes pk.

Definition pk_from_bytes (bytes : list byte) : option KemPublicKey :=
  arr ← array_try_from KEM_PK_LEN bytes; kem_pk_new arr.

(** ** Lemmas *)

Context {KL : KemLaws K} {DL : MlDsaLaws D}.

(** What [generate] and [from_bytes] establish: the public key belongs to the
    32-byte secret. *)
Definition identity_wf (id : IdentityKeypair) : Prop :=
  length (x25519_secret id) = 32%nat /\ id_x25519_public id = x25519_public (x25519_secret id).

(** A file body in the shared layout of versions 2 and 3. *)
Definition identity_prefix (version : byte) (x seed pk : list byte) : list byte :=
  [version] ++ x ++ to_be 4 64 ++ seed ++ to_be 4 1184 ++ pk.

Lemma length_identity_prefix v x seed pk :
  length x = 32%nat -> length seed = KEM_SEED_LEN -> length pk = KEM_PK_LEN ->
  length (identity_prefix v x seed pk) = 1289%nat.
Proof.
  unfold identity_prefix, KEM_SEED_LEN, KEM_PK_LEN. intros Hx Hs Hp.
  rewrite !length_app, !length_to_be. cbn [length]. lia.
Qed.

Lemma parse_identity_prefix_spec v x seed pk rest :
  length x = 32%nat -> length seed = KEM_SEED_LEN ->
  parse_identity_prefix (identity_prefix v x seed (kem_pk_to_bytes pk) ++ rest)
  = Some (x, kem_from_seed seed, pk, 1289%nat).
Proof.
  intros Hx Hs. pose proof (kem_pk_len pk) as Hp.
  pose proof (length_identity_prefix v x seed _ Hx Hs Hp) as Hl.
  set (b := identity_prefix v x seed (kem_pk_to_bytes pk) ++ rest).
  assert (Hb : (1289 <= length b)%nat) by (unfold b; rewrite length_app; lia).
  assert (Hsl : length seed = 64%nat) by exact Hs.
  assert (E1 : slice b 1 33 = x).
  { unfold b, identity_prefix. rewrite <- !app_assoc. by apply slice_mid; [|lia]. }
  assert (E2 : slice b 33 37 = to_be 4 64).
  { unfold b, identity_prefix. rewrite <- !app_assoc. rewrite (app_assoc [v] x).
    apply slice_mid; [rewrite length_app, Hx; reflexivity|by rewrite length_to_be]. }
  assert (E3 : slice b 37 101 = seed).
  { unfold b, identity_prefix. rewrite <- !app_assoc. rewrite (app_assoc [v] x), (app_assoc ([v] ++ x)).
    apply slice_mid; [rewrite !length_app, Hx, length_to_be; reflexivity|lia]. }
  assert (E4 : slice b 101 105 = to_be 4 1184).
  { unfold b, identity_prefix. rewrite <- !app_assoc.
    rewrite (app_assoc [v] x), (app_assoc ([v] ++ x)), (app_assoc (([v] ++ x) ++ _)).
    apply slice_mid; [rewrite !length_app, Hx, Hsl, length_to_be; reflexivity|by rewrite length_to_be]. }
  assert (E5 : slice b 105 1289 = kem_pk_to_bytes pk).
  { unfold b. rewrite slice_app_l by lia. unfold identity_prefix.
    rewrite !app_assoc. apply slice_last; [|rewrite Hp; reflexivity].
    rewrite !length_app, Hx, Hsl, !length_to_be. reflexivity. }
  unfold parse_identity_prefix. rewrite E2.
  rewrite (from_be_to_be_small 4 64) by (unfold is_u; cbn; lia).
  change (37 + Z.to_nat 64)%nat with 101%nat.
  replace (length b <? 101)%nat with false by (symmetry; apply Nat.ltb_ge; lia).
  rewrite E3. unfold array_try_from. rewrite Hs, Nat.eqb_refl. cbn [mbind option_bind].
  change (101 + 4)%nat with 105%nat.
  replace (length b <? 105)%nat with false by (symmetry; apply Nat.ltb_ge; lia).
  rewrite E4, (from_be_to_be_small 4 1184) by (unfold is_u; cbn; lia).
  replace (105 + Z.to_nat 1184)%nat with 1289%nat by lia.
  replace (length b <? 1289)%nat with false by (symmetry; apply Nat.ltb_ge; lia).
  rewrite E5, Hp, Nat.eqb_refl. cbn [mbind option_bind].
  by rewrite kem_pk_new_to_bytes, E1.
Qed.

Lemma to_bytes_layout id b :
  IdentityKeypair_to_bytes id = Some b ->
  exists seed, kem_to_seed (kem_sk id) = Some seed /\ length seed = KEM_SEED_LEN
    /\ b = identity_prefix x03 (x25519_secret id) seed (kem_pk_to_bytes (kem_pk id))
             ++ mldsa_sk_into_bytes (mldsa_sk id) ++ mldsa_pk_into_bytes (mldsa_pk id).
Proof.
  unfold IdentityKeypair_to_bytes. destruct (kem_to_seed (kem_sk id)) as [seed|] eqn:E; [|done].
  pose proof (kem_seed_len _ _ E) as Hs. intros [= <-]. exists seed. do 2 (split; [done|]).
  rewrite Hs, kem_pk_len. unfold identity_prefix.
  change (wrap 32 (Z.of_nat KEM_SEED_LEN)) with 64.
  replace (wrap 32 (Z.of_nat KEM_PK_LEN)) with 1184
    by (unfold KEM_PK_LEN; rewrite wrap_small; [lia|unfold is_u; lia]).
  by rewrite <- !app_assoc.
Qed.

Lemma from_bytes_v3_spec id seed rest :
  identity_wf id -> kem_to_seed (kem_sk id) = Some seed ->
  from_bytes_v3 (identity_prefix x03 (x25519_secret id) seed (kem_pk_to_bytes (kem_pk id))
             ++ mldsa_sk_into_bytes (mldsa_sk id) ++ mldsa_pk_into_bytes (mldsa_pk id) ++ rest)
  = Some id.
Proof.
  intros [Hx Hpub] Es. pose proof (kem_seed_len _ _ Es) as Hs. unfold from_bytes_v3.
  pose proof (length_identity_prefix x03 _ _ _ Hx Hs (kem_pk_len (kem_pk id))) as Hl.
  pose proof (mldsa_sk_len (mldsa_sk id)) as Hk. pose proof (mldsa_pk_len (mldsa_pk id)) as Hp.
  set (pre := identity_prefix _ _ _ _) in *.
  set (b := pre ++ _). unfold MLDSA_SK_LEN, MLDSA_PK_LEN in *.
  assert (Hb : (1289 + 4032 + 1952 <= length b)%nat) by (unfold b; rewrite !length_app; lia).
  replace (length b <? 1 + 32 + 8)%nat with false by (symmetry; apply Nat.ltb_ge; lia).
  assert (Hpp : parse_identity_prefix b
                = Some (x25519_secret id, kem_from_seed seed, kem_pk id, 1289%nat))
    by (unfold b, pre; by apply parse_identity_prefix_spec).
  rewrite Hpp. cbn [mbind option_bind].
  replace (length b <? 1289 + 4032 + 1952)%nat with false by (symmetry; apply Nat.ltb_ge; lia).
  replace (slice b 1289 (1289 + 4032)) with (mldsa_sk_into_bytes (mldsa_sk id))
    by (symmetry; unfold b; apply slice_mid; lia).
  replace (slice b (1289 + 4032) (1289 + 4032 + 1952)) with (mldsa_pk_into_bytes (mldsa_pk id)).
  2:{ symmetry. unfold b. rewrite app_assoc. apply slice_mid; [rewrite length_app|]; lia. }
  rewrite mldsa_sk_round, mldsa_pk_round. cbn [mbind option_bind].
  rewrite (kem_from_to_seed _ _ Es), <- Hpub. by destruct id.
Qed.

Lemma from_bytes_to_bytes id b rest :
  identity_wf id -> IdentityKeypair_to_bytes id = Some b ->
  IdentityKeypair_from_bytes (b ++ rest) = Some id.
Proof.
  intros Hwf Hb. destruct (to_bytes_layout _ _ Hb) as (seed & Es & _ & ->).
  rewrite <- !app_assoc. by apply (from_bytes_v3_spec id seed rest).
Qed.

Lemma parse_identity_prefix_x bytes x sk pk n :
  (41 <= length bytes)%nat -> parse_identity_prefix bytes = Some (x, sk, pk, n) ->
  length x = 32%nat.
Proof.
  intros Hl. unfold parse_identity_prefix. case_match; [done|].
  intros (seed & _ & E)%bind_Some. revert E. do 2 (case_match; [done|]).
  intros (pa & _ & (pk' & _ & [= <- _ _ _])%bind_Some)%bind_Some.
  rewrite length_slice; lia.
Qed.

Lemma from_bytes_wf bytes id : IdentityKeypair_from_bytes bytes = Some id -> identity_wf id.
Proof.
  assert (V3 : from_bytes_v3 bytes = Some id -> identity_wf id).
  { unfold from_bytes_v3. case_match eqn:E; [done|]. cmp_facts.
    intros ([[[x sk] pk] n] & Hp & Hr)%bind_Some. apply parse_identity_prefix_x in Hp; [|lia].
    revert Hr. case_match; [done|].
    intros (? & _ & (? & _ & [= <-])%bind_Some)%bind_Some. by split. }
  assert (V2 : from_bytes_v2_upgrade bytes = Some id -> identity_wf id).
  { unfold from_bytes_v2_upgrade. case_match eqn:E; [done|]. cmp_facts. case_match; [done|].
    intros ([[[x sk] pk] n] & Hp & Hr)%bind_Some. apply parse_identity_prefix_x in Hp; [|lia].
    revert Hr. destruct (mldsa_keygen_from_seed _). intros [= <-]. by split. }
  unfold IdentityKeypair_from_bytes. destruct bytes as [|[] bytes]; try done; auto.
Qed.

Lemma to_bytes_version id b : IdentityKeypair_to_bytes id = Some b -> exists b', b = x03 :: b'.
Proof. intros (seed & _ & _ & ->)%to_bytes_layout. by eexists. Qed.

Lemma persist_identity_Ok io e f id id' f' :
  persist_identity io e f id = (Ok id', f') ->
  id' = id /\ if_mode_0600 f' = true
  /\ exists b, if_content f' = Some b /\ IdentityKeypair_to_bytes id = Some b.
Proof.
  unfold persist_identity. destruct (IdentityKeypair_to_bytes id) as [b|] eqn:E; [|done].
  destruct (io_write_fails io); [done|]. destruct (io_chmod_fails io); [done|].
  intros [= <- <-]. eauto.
Qed.

(** A file holding a serialised identity is read back and left alone. *)
Lemma load_of_saved io fresh f id b :
  identity_wf id -> IdentityKeypair_to_bytes id = Some b -> if_content f = Some b ->
  io_read_fails io = false -> load_or_generate io fresh f = (Ok id, f).
Proof.
  intros Hwf Hb Hf Hio. unfold load_or_generate. rewrite Hf, Hio.
  pose proof (from_bytes_to_bytes id b [] Hwf Hb) as Hr. rewrite app_nil_r in Hr. rewrite Hr.
  destruct (to_bytes_version _ _ Hb) as [b' ->]. reflexivity.
Qed.

End Identity.

Arguments IdentityKeypair {_ _}.

(** ** Properties *)

Section IdentityProps.
Context {C : Crypto} {X : X25519} {K : Kem} {D : MlDsa} {H : PlainHash}.
Context {KL : KemLaws K} {DL : MlDsaLaws D}.

(** An identity that [to_bytes] writes is the identity [from_bytes] reads,
    with anything after it ignored: both secret keys, both public keys and the
    X25519 pair survive the version-3 file format. *)
Theorem identity_v3_roundtrip id b rest :
  identity_wf id -> IdentityKeypair_to_bytes id = Some b ->
  IdentityKeypair_from_bytes (b ++ rest) = Some id.
Proof. apply from_bytes_to_bytes. Qed.

(** Whatever [load_or_generate] returns once - a key generated for a missing
    file, a version-3 file, or a version-2 file upgraded in place - it returns
    at every later start from the file it left, whatever key the generator
    would then supply, without touching the file again. *)
Theorem load_or_generate_stable io io' fresh fresh' f id f' :
  identity_wf fresh ->
  load_or_generate io fresh f = (Ok id, f') -> io_read_fails io' = false ->
  load_or_generate io' fresh' f' = (Ok id, f').
Proof.
  intros Hwf Hl Hio. unfold load_or_generate in Hl.
  destruct (if_content f) as [bytes|] eqn:Ef.
  - destruct (io_read_fails io); [done|].
    destruct (IdentityKeypair_from_bytes bytes) as [id0|] eqn:E0; [|done].
    destruct (_ =? 2) eqn:Ev.
    + apply persist_identity_Ok in Hl as (-> & _ & b & Hf & Hb).
      apply load_of_saved with b; eauto using from_bytes_wf.
    + injection Hl as <- <-. unfold load_or_generate. by rewrite Ef, Hio, E0, Ev.
  - destruct (io_mkdir_fails io); [done|].
    apply persist_identity_Ok in Hl as (-> & _ & b & Hf & Hb).
    by apply load_of_saved with b.
Qed.

(** A signature made with [mldsa_sign] over a transcript verifies under the
    public key the identity publishes. *)
Lemma mldsa_sign_verifies rnd id m sg :
  mldsa_pair (mldsa_pk id) (mldsa_sk id) -> mldsa_sign rnd id m = Some sg ->
  mldsa_verify (mldsa_pk_into_bytes (mldsa_pk id)) m sg = true.
Proof.
  intros Hp Hs. unfold mldsa_verify. rewrite mldsa_pk_round.
  by apply (mldsa_sign_verify rnd _ _ _ _ _ Hp Hs).
Qed.

(** Decapsulation inverts encapsulation, through the length checks. *)
Lemma kem_decapsulate_encapsulate rnd sk :
  kem_decapsulate sk (kem_encapsulate rnd (kem_public sk)).1
  = Some (kem_encapsulate rnd (kem_public sk)).2.
Proof.
  unfold kem_decapsulate, kem_encapsulate, array_try_from.
  rewrite kem_ct_len, Nat.eqb_refl. cbn [mbind option_bind].
  by rewrite kem_decap_encap, kem_ss_len.
Qed.

Lemma kem_decapsulate_malformed sk ct :
  length ct <> KEM_CT_LEN -> kem_decapsulate sk ct = None.
Proof.
  intros Hn. unfold kem_decapsulate, array_try_from.
  apply Nat.eqb_neq in Hn. by rewrite Hn.
Qed.

Lemma pk_from_to_bytes pk : pk_from_bytes (pk_to_bytes pk) = Some pk.
Proof.
  unfold pk_from_bytes, pk_to_bytes, array_try_from. rewrite kem_pk_len, Nat.eqb_refl.
  cbn [mbind option_bind]. apply kem_pk_new_to_bytes.
Qed.

(** The inputs of the two directions' key derivations always differ. *)
Lemma directional_inputs_differ (h hash : list byte) :
  h ++ hash ++ string_bytes "c2s" <> h ++ hash ++ string_bytes "s2c".
Proof. intros E. apply app_inv_head, app_inv_head in E. discriminate E. Qed.

End IdentityProps.

(** ** A concrete instance

    Small executable primitives that satisfy the laws, for evaluating the
    theorems; they make no security claim and model no code of the
    repository. *)

#[export] Instance test_kem : Kem := {|
  KemPublicKey := byte; KemSecretKey := byte;
  kem_pk_to_bytes := fun pk => replicate KEM_PK_LEN pk;
  kem_pk_new := fun l => Some (at_ l 0);
  kem_from_seed := fun s => at_ s 0;
  kem_to_seed := fun sk => Some (replicate KEM_SEED_LEN sk);
  kem_public := fun sk => sk;
  kem_encap := fun r pk => (replicate KEM_CT_LEN (digest r), replicate 32 (byte_xor (digest r) pk));
  kem_decap := fun sk ct => replicate 32 (byte_xor (at_ ct 0) sk)
|}.

#[export] Instance test_kem_laws : KemLaws test_kem.
Proof.
  constructor.
  - intros pk. apply (length_replicate KEM_PK_LEN).
  - reflexivity.
  - intros sk s E. injection E as <-. apply (length_replicate KEM_SEED_LEN).
  - intros sk s E. injection E as <-. reflexivity.
  - intros r pk. apply (length_replicate KEM_CT_LEN).
  - reflexivity.
  - reflexivity.
Qed.

#[export] Instance test_mldsa : MlDsa := {|
  MlDsaPrivateKey := byte; MlDsaPublicKey := byte;
  mldsa_sk_into_bytes := fun sk => replicate MLDSA_SK_LEN sk;
  mldsa_sk_try_from_bytes := fun l => Some (at_ l 0);
  mldsa_pk_into_bytes := fun pk => replicate MLDSA_PK_LEN pk;
  mldsa_pk_try_from_bytes := fun l => Some (at_ l 0);
  mldsa_keygen_from_seed := fun s => (digest s, digest s);
  mldsa_try_sign := fun _ sk m c => Some (replicate MLDSA_SIG_LEN (byte_xor sk (digest (m ++ c))));
  mldsa_pk_verify := fun pk m sg c => bytes_eqb sg (replicate MLDSA_SIG_LEN (byte_xor pk (digest (m ++ c))));
  mldsa_pair := eq
|}.

#[export] Instance test_mldsa_laws : MlDsaLaws test_mldsa.
Proof.
  constructor.
  - intros sk. apply (length_replicate MLDSA_SK_LEN).
  - reflexivity.
  - intros pk. apply (length_replicate MLDSA_PK_LEN).
  - reflexivity.
  - reflexivity.
  - intros r sk m c sg E. injection E as <-. apply (length_replicate MLDSA_SIG_LEN).
  - intros r pk sk m c sg -> E. injection E as <-. apply bytes_eqb_refl.
Qed.

#[export] Instance test_plain_hash : PlainHash := {|
  blake3_hash := fun s => resize_bytes (digest s :: s) 32;
  sha256_digest := fun s => resize_bytes (digest s :: rev s) 32
|}.

#[export] Instance test_plain_hash_laws : PlainHashLaws test_plain_hash.
Proof. constructor; intros; apply length_resize_bytes. Qed.

(** An identity file of version 2, as an old release would have written it. *)
Definition test_v2_file : IdentityFile :=
  {| if_content := Some (identity_prefix x02 (replicate 32 x07) (replicate KEM_SEED_LEN x08)
                           (replicate KEM_PK_LEN x08));
     if_mode_0600 := false |}.

Definition test_io_ok : IdentityIo :=
  {| io_read_fails := false; io_mkdir_fails := false; io_write_fails := false;
     io_chmod_fails := false |}.

Definition test_fresh : IdentityKeypair :=
  IdentityKeypair_generate (replicate 32 x01) (x02, x02) (x03, x03).

Definition test_upgraded : IdentityKeypair :=
  {| x25519_secret := replicate 32 x07; id_x25519_public := x25519_public (replicate 32 x07);
     kem_pk := x08; kem_sk := x08;
     mldsa_sk := digest (test_derive "seam/mldsa-identity-seed/v1" (replicate 32 x07));
     mldsa_pk := digest (test_derive "seam/mldsa-identity-seed/v1" (replicate 32 x07)) |}.

Definition test_upgraded_file : IdentityFile :=
  {| if_content := IdentityKeypair_to_bytes test_upgraded; if_mode_0600 := true |}.

Lemma load_or_generate_stable_witness :
  load_or_generate test_io_ok test_fresh test_v2_file = (Ok test_upgraded, test_upgraded_file)
  /\ load_or_generate test_io_ok test_upgraded test_upgraded_file
     = (Ok test_upgraded, test_upgraded_file).
Proof.
  assert (Hl : load_or_generate test_io_ok test_fresh test_v2_file
               = (Ok test_upgraded, test_upgraded_file))
    by vm_cast_no_check (eq_refl (@Ok _ IdentityError test_upgraded, test_upgraded_file)).
  split; [exact Hl|].
  refine (load_or_generate_stable test_io_ok test_io_ok test_fresh test_upgraded test_v2_file
            test_upgraded test_upgraded_file _ Hl eq_refl).
  split; vm_compute; reflexivity.
Defined.

Lemma identity_v3_roundtrip_witness :
  identity_wf test_fresh
  /\ (forall b, IdentityKeypair_to_bytes test_fresh = Some b ->
       IdentityKeypair_from_bytes (b ++ [x00; x01]) = Some test_fresh).
Proof.
  split; [split; vm_compute; reflexivity|].
  intros b Hb. apply identity_v3_roundtrip; [split; vm_compute; reflexivity|exact Hb].
Defined.
