(* ===== verification/Handshake.v ===== *)
(** * The hybrid Noise handshake

    src/src/handshake/state.rs: the three messages of the Noise_XX exchange
    with the ML-KEM public key, the cipher negotiation and the KEM ciphertext
    in their payloads, [finish], and the post-handshake [IdentityProof].  The
    [snow] crate is the class [Noise]; what the code relies on of a completed
    XX run is [NoiseLaws], stated message by message. *)

From Stdlib Require Import ZArith Lia Bool List String.
From Stdlib Require Import Strings.Byte.
From stdpp Require Import base list numbers option.
From S2P Require Import Prelude Packet Crypto TestCrypto Ratchet Identity.

Open Scope Z_scope.

(** ** The [snow] crate *)

Class Noise : Type := {
  HandshakeState : Type;
  (** [Builder::build_initiator] / [build_responder] of the XX pattern, with
      the randomness the state draws its ephemeral key from; errors carry the
      crate's message. *)
  build_initiator : list byte -> list byte -> list byte -> Result HandshakeState string;
  build_responder : list byte -> list byte -> Result HandshakeState string;
  (** [write_message] / [read_message]: the bytes written to the buffer. *)
  write_message : HandshakeState -> list byte -> Result (list byte) string * HandshakeState;
  read_message : HandshakeState -> list byte -> Result (list byte) string * HandshakeState;
  get_handshake_hash : HandshakeState -> list byte;
  get_remote_static : HandshakeState -> option (list byte);
  get_raw_split : HandshakeState -> list byte * list byte
}.

(** Payloads up to this size fit a Noise message of 65535 bytes with the keys
    and tags of any of the three XX messages. *)
Definition NOISE_MAX_PAYLOAD : Z := 65439.

Definition NOISE_MAX_MESSAGE : Z := 65535.

(** Documented behaviour of a run between an initiator with static secret [si]
    and a responder with static secret [sr]: [noise_sync n w r] holds when [n]
    messages have passed and [w] writes the next one to [r]. *)
Class NoiseLaws (N : Noise) (X : X25519) : Type := {
  noise_sync : list byte -> list byte -> nat -> HandshakeState -> HandshakeState -> Prop;
  noise_initiator_ok ri si rs :
    length si = 32%nat -> length rs = 32%nat -> exists i, build_initiator ri si rs = Ok i;
  noise_responder_ok rr sr : length sr = 32%nat -> exists r, build_responder rr sr = Ok r;
  noise_build_sync ri rr si sr rs i r :
    length si = 32%nat -> length sr = 32%nat ->
    build_initiator ri si rs = Ok i -> build_responder rr sr = Ok r ->
    noise_sync si sr 0 i r;
  noise_message si sr n w r p :
    noise_sync si sr n w r -> (n < 3)%nat -> Z.of_nat (length p) <= NOISE_MAX_PAYLOAD ->
    exists m w' r', write_message w p = (Ok m, w') /\ read_message r m = (Ok p, r')
      /\ Z.of_nat (length m) <= NOISE_MAX_MESSAGE /\ noise_sync si sr (S n) r' w';
  noise_finished si sr r i :
    noise_sync si sr 3 r i ->
    get_handshake_hash i = get_handshake_hash r /\ length (get_handshake_hash i) = 32%nat
    /\ get_raw_split i = get_raw_split r
    /\ get_remote_static i = Some (x25519_public sr)
    /\ get_remote_static r = Some (x25519_public si)
}.

(** ** Cipher flags and payload framing *)

Definition CIPHER_FLAG_CHACHA : byte := x00.
Definition CIPHER_FLAG_AES : byte := x01.

Definition cipher_to_flag (suite : CipherSuite) : byte :=
  match suite with
  | ChaCha20Poly1305 => CIPHER_FLAG_CHACHA
  | Aes256Gcm => CIPHER_FLAG_AES
  end.

Definition flag_to_cipher (flag : byte) : CipherSuite :=
  if byte_val flag =? byte_val CIPHER_FLAG_AES then Aes256Gcm else ChaCha20Poly1305.

Definition length_prefix (data : list byte) : list byte :=
  to_le 2 (wrap 16 (Z.of_nat (length data))) ++ data.

Definition prefix_len (buf : list byte) : nat := Z.to_nat (from_le (slice buf 0 2)).

Definition extract_prefix (buf : list byte) : Result (list byte) SeamError :=
  if (length buf <? 2)%nat then Err (HandshakeFailed "payload too short") else
  let len := prefix_len buf in
  if (length buf <? 2 + len)%nat then Err (HandshakeFailed "payload truncated") else
  Ok (slice buf 2 (2 + len)).

Definition extract_prefix_with_flag (buf : list byte) : Result (list byte * byte) SeamError :=
  if (length buf <? 2)%nat then Err (HandshakeFailed "payload too short") else
  let len := prefix_len buf in
  if (length buf <? 2 + len)%nat then Err (HandshakeFailed "payload truncated") else
  let flag := if (2 + len <? length buf)%nat then at_ buf (2 + len) else CIPHER_FLAG_CHACHA in
  Ok (slice buf 2 (2 + len), flag).

(** The flag [read_msg1] finds, tolerating payloads without one. *)
Definition client_flag (payload : list byte) : byte :=
  if (2 <? length payload)%nat then
    let len := prefix_len payload in
    if (2 + len <? length payload)%nat then at_ payload (2 + len) else CIPHER_FLAG_CHACHA
  else CIPHER_FLAG_CHACHA.

Section HandshakeCode.
Context {C : Crypto} {X : X25519} {K : Kem} {D : MlDsa} {H : PlainHash} {N : Noise}.

(** ** [IdentityProof] *)

Record IdentityProof : Type := mkIdentityProof {
  ip_mldsa_pk : list byte;     (* [u8; 1952] *)
  ip_signature : list byte     (* [u8; 3309] *)
}.

Definition IdentityProof_to_bytes (p : IdentityProof) : list byte :=
  ip_mldsa_pk p ++ ip_signature p.

Definition IdentityProof_from_bytes (bytes : list byte) : option IdentityProof :=
  if negb (length bytes =? MLDSA_PK_LEN + MLDSA_SIG_LEN)%nat then None
  else Some {| ip_mldsa_pk := slice bytes 0 MLDSA_PK_LEN;
               ip_signature := slice bytes MLDSA_PK_LEN (length bytes) |}.

Definition IdentityProof_sign (rnd : list byte) (sign_error : string) (id : IdentityKeypair)
  (handshake_hash : list byte) : Result IdentityProof SeamError :=
  try sg := ok_or (mldsa_sign rnd id handshake_hash) (HandshakeFailed sign_error) in
  Ok {| ip_mldsa_pk := mldsa_pk_into_bytes (mldsa_pk id); ip_signature := sg |}.

Definition IdentityProof_verify (p : IdentityProof) (handshake_hash : list byte) : bool :=
  mldsa_verify (ip_mldsa_pk p) handshake_hash (ip_signature p).

(** ** The result and [finish] *)

Record HandshakeResult : Type := mkHandshakeResult {
  hr_session_id : Z;                  (* u64 *)
  hr_keys_c2s : PacketKeys;
  hr_keys_s2c : PacketKeys;
  hr_peer_static_pubkey : list byte;  (* [u8; 32] *)
  hr_cipher_suite : CipherSuite;
  hr_handshake_hash : list byte
}.

Definition finish (hash peer_static kem_shared : list byte) (dh_split : list byte * list byte)
  (suite : CipherSuite) : Result HandshakeResult SeamError :=
  let x25519_component := blake3_hash (dh_split.1 ++ dh_split.2) in
  let hybrid := HybridSharedSecret_new kem_shared x25519_component in
  let '(keys_c2s, keys_s2c) := derive_directional_packet_keys hybrid hash suite in
  Ok {| hr_session_id := from_le (slice hash 0 8);
        hr_keys_c2s := keys_c2s; hr_keys_s2c := keys_s2c;
        hr_peer_static_pubkey := peer_static;
        hr_cipher_suite := suite; hr_handshake_hash := hash |}.

Definition map_noise {T S} (r : Result T string * S) : Result T SeamError * S :=
  (match r.1 with Ok v => Ok v | Err e => Err (HandshakeFailed e) end, r.2).

(** [write_noise]: the message appended to [out]. *)
Definition write_noise (hs : HandshakeState) (payload out : list byte)
  : Result (list byte) SeamError * HandshakeState :=
  let '(r, hs') := map_noise (write_message hs payload) in
  match r with
  | Ok m => (Ok (out ++ m), hs')
  | Err e => (Err e, hs')
  end.

Definition read_noise (hs : HandshakeState) (msg : list byte)
  : Result (list byte) SeamError * HandshakeState :=
  map_noise (read_message hs msg).

(** The static key of the peer, as the two finishing functions obtain it. *)
Definition peer_static_of (hs : HandshakeState) : Result (list byte) SeamError :=
  try rs := ok_or (get_remote_static hs) (HandshakeFailed "no remote static") in
  ok_or (array_try_from 32 rs) (HandshakeFailed "bad static key length").

(** ** Client *)

Record ClientHandshake : Type := mkClientHandshake {
  ch_noise : HandshakeState;
  ch_preferred_cipher : CipherSuite
}.

Definition ClientHandshake_new_with_cipher (rnd : list byte) (local : IdentityKeypair)
  (server_x25519_static : list byte) (preferred : CipherSuite)
  : Result ClientHandshake SeamError :=
  match build_initiator rnd (x25519_secret local) server_x25519_static with
  | Ok n => Ok {| ch_noise := n; ch_preferred_cipher := preferred |}
  | Err e => Err (HandshakeFailed e)
  end.

Definition ClientHandshake_new (rnd : list byte) (local : IdentityKeypair)
  (server_x25519_static : list byte) : Result ClientHandshake SeamError :=
  ClientHandshake_new_with_cipher rnd local server_x25519_static CipherSuite_default.

Definition write_msg1 (c : ClientHandshake) (server_kem_pk : KemPublicKey) (out : list byte)
  : Result (list byte) SeamError * ClientHandshake :=
  let payload := length_prefix (pk_to_bytes server_kem_pk)
                   ++ [cipher_to_flag (ch_preferred_cipher c)] in
  let '(r, n) := write_noise (ch_noise c) payload out in
  (r, {| ch_noise := n; ch_preferred_cipher := ch_preferred_cipher c |}).

Definition read_msg2 (c : ClientHandshake) (msg : list byte)
  : Result (KemPublicKey * CipherSuite) SeamError * ClientHandshake :=
  let '(r, n) := read_noise (ch_noise c) msg in
  (try payload := r in
   try x := extract_prefix_with_flag payload in
   try pk := ok_or (pk_from_bytes x.1) (HandshakeFailed "bad KEM PK") in
   Ok (pk, flag_to_cipher x.2),
   {| ch_noise := n; ch_preferred_cipher := ch_preferred_cipher c |}).

(** The handshake is consumed; [rnd] is the randomness of the encapsulation. *)
Definition write_msg3_and_finish (rnd : list byte) (c : ClientHandshake)
  (server_kem_pk : KemPublicKey) (agreed : CipherSuite) (out : list byte)
  : Result (list byte * HandshakeResult) SeamError :=
  let '(ct_bytes, kem_shared) := kem_encapsulate rnd server_kem_pk in
  let payload := length_prefix ct_bytes in
  let '(r, n) := write_noise (ch_noise c) payload out in
  try out' := r in
  let hash := get_handshake_hash n in
  try peer_static := peer_static_of n in
  try res := finish hash peer_static kem_shared (get_raw_split n) agreed in
  Ok (out', res).

(** ** Server *)

Record ServerHandshake : Type := mkServerHandshake {
  sh_noise : HandshakeState;
  sh_preferred_cipher : CipherSuite
}.

Definition ServerHandshake_new_with_cipher (rnd : list byte) (local : IdentityKeypair)
  (preferred : CipherSuite) : Result ServerHandshake SeamError :=
  match build_responder rnd (x25519_secret local) with
  | Ok n => Ok {| sh_noise := n; sh_preferred_cipher := preferred |}
  | Err e => Err (HandshakeFailed e)
  end.

Definition ServerHandshake_new (rnd : list byte) (local : IdentityKeypair)
  : Result ServerHandshake SeamError :=
  ServerHandshake_new_with_cipher rnd local CipherSuite_default.

Definition negotiate (server client : CipherSuite) : CipherSuite :=
  if bool_decide (server = Aes256Gcm) && bool_decide (client = Aes256Gcm)
  then Aes256Gcm else ChaCha20Poly1305.

Definition read_msg1 (s : ServerHandshake) (msg : list byte)
  : Result CipherSuite SeamError * ServerHandshake :=
  let '(r, n) := map_noise (read_message (sh_noise s) msg) in
  (try payload := r in
   Ok (negotiate (sh_preferred_cipher s) (flag_to_cipher (client_flag payload))),
   {| sh_noise := n; sh_preferred_cipher := sh_preferred_cipher s |}).

Definition write_msg2 (s : ServerHandshake) (local_kem_pk : KemPublicKey) (agreed : CipherSuite)
  (out : list byte) : Result (list byte) SeamError * ServerHandshake :=
  let payload := length_prefix (pk_to_bytes local_kem_pk) ++ [cipher_to_flag agreed] in
  let '(r, n) := write_noise (sh_noise s) payload out in
  (r, {| sh_noise := n; sh_preferred_cipher := sh_preferred_cipher s |}).

Definition read_msg3_and_finish (s : ServerHandshake) (local_kem_sk : KemSecretKey)
  (agreed : CipherSuite) (msg3 : list byte) : Result HandshakeResult SeamError :=
  let '(r, n) := read_noise (sh_noise s) msg3 in
  try payload := r in
  try ct_bytes := extract_prefix payload in
  try kem_shared := ok_or (kem_decapsulate local_kem_sk ct_bytes)
                      (HandshakeFailed "KEM decapsulation failed") in
  let hash := get_handshake_hash n in
  try peer_static := peer_static_of n in
  finish hash peer_static kem_shared (get_raw_split n) agreed.

End HandshakeCode.

(** ** Framing lemmas *)

Lemma prefix_len_spec d rest :
  Z.of_nat (length d) < 2 ^ 16 -> prefix_len (length_prefix d ++ rest) = length d.
Proof.
  intros Hd. unfold prefix_len, length_prefix. rewrite <- app_assoc.
  rewrite slice_app_l, slice_all by (autorewrite with len; lia).
  rewrite wrap_small by (unfold is_u; lia).
  rewrite from_le_to_le_small by (unfold is_u; lia). lia.
Qed.

Lemma length_length_prefix d : length (length_prefix d) = (2 + length d)%nat.
Proof. unfold length_prefix. rewrite length_app, length_to_le. lia. Qed.

Lemma slice_length_prefix d rest : slice (length_prefix d ++ rest) 2 (2 + length d) = d.
Proof.
  unfold length_prefix. rewrite <- app_assoc. apply slice_mid; [apply length_to_le|lia].
Qed.

Lemma extract_prefix_spec d rest :
  Z.of_nat (length d) < 2 ^ 16 -> extract_prefix (length_prefix d ++ rest) = Ok d.
Proof.
  intros Hd. unfold extract_prefix. rewrite prefix_len_spec by done.
  rewrite length_app, length_length_prefix.
  repeat split_if; try (cmp_facts; lia). by rewrite slice_length_prefix.
Qed.

Lemma at_length_prefix d f rest : at_ (length_prefix d ++ f :: rest) (2 + length d) = f.
Proof.
  unfold at_. rewrite app_nth2; rewrite length_length_prefix; [|lia]. by rewrite Nat.sub_diag.
Qed.

Lemma extract_prefix_with_flag_spec d f rest :
  Z.of_nat (length d) < 2 ^ 16 ->
  extract_prefix_with_flag (length_prefix d ++ f :: rest) = Ok (d, f).
Proof.
  intros Hd. unfold extract_prefix_with_flag. rewrite prefix_len_spec by done.
  rewrite length_app, length_length_prefix. cbn [length].
  repeat split_if; try (cmp_facts; lia). by rewrite slice_length_prefix, at_length_prefix.
Qed.

Lemma client_flag_spec d f rest :
  Z.of_nat (length d) < 2 ^ 16 -> client_flag (length_prefix d ++ f :: rest) = f.
Proof.
  intros Hd. unfold client_flag. rewrite prefix_len_spec by done.
  rewrite length_app, length_length_prefix. cbn [length].
  repeat split_if; try (cmp_facts; lia). by rewrite at_length_prefix.
Qed.

Lemma flag_to_cipher_to_flag s : flag_to_cipher (cipher_to_flag s) = s.
Proof. by destruct s. Qed.

(** ** The run *)

Section Run.
Context {C : Crypto} {X : X25519} {K : Kem} {D : MlDsa} {H : PlainHash} {N : Noise}.
Context {CL : CryptoLaws C} {XL : X25519Laws X} {KL : KemLaws K} {DL : MlDsaLaws D}
  {NL : NoiseLaws N X}.

Lemma kem_pk_small (pk : KemPublicKey) : Z.of_nat (length (pk_to_bytes pk)) < 2 ^ 16.
Proof. unfold pk_to_bytes. rewrite kem_pk_len. unfold KEM_PK_LEN. lia. Qed.

Lemma kem_ct_small rnd (pk : KemPublicKey) :
  Z.of_nat (length (kem_encapsulate rnd pk).1) < 2 ^ 16.
Proof. unfold kem_encapsulate. rewrite kem_ct_len. unfold KEM_CT_LEN. lia. Qed.

Lemma pk_payload_fits (pk : KemPublicKey) (f : byte) :
  Z.of_nat (length (length_prefix (pk_to_bytes pk) ++ [f])) <= NOISE_MAX_PAYLOAD.
Proof.
  rewrite length_app, length_length_prefix. unfold pk_to_bytes. rewrite kem_pk_len.
  unfold KEM_PK_LEN, NOISE_MAX_PAYLOAD. cbn [length]. lia.
Qed.

Lemma ct_payload_fits rnd (pk : KemPublicKey) :
  Z.of_nat (length (length_prefix (kem_encapsulate rnd pk).1)) <= NOISE_MAX_PAYLOAD.
Proof.
  rewrite length_length_prefix. unfold kem_encapsulate. rewrite kem_ct_len.
  unfold KEM_CT_LEN, NOISE_MAX_PAYLOAD. lia.
Qed.

(** Message 1, written by the client and read by the server. *)
Lemma msg1_run si sr c s pk out :
  noise_sync si sr 0 (ch_noise c) (sh_noise s) ->
  exists m1 c1 s1,
    write_msg1 c pk out = (Ok (out ++ m1), c1)
    /\ read_msg1 s m1 = (Ok (negotiate (sh_preferred_cipher s) (ch_preferred_cipher c)), s1)
    /\ Z.of_nat (length m1) <= NOISE_MAX_MESSAGE
    /\ noise_sync si sr 1 (sh_noise s1) (ch_noise c1).
Proof.
  intros Hs.
  destruct (noise_message _ _ _ _ _ _ Hs ltac:(lia)
              (pk_payload_fits pk (cipher_to_flag (ch_preferred_cipher c))))
    as (m & w' & r' & Hw & Hr & Hlen & Hs').
  exists m, (mkClientHandshake w' (ch_preferred_cipher c)),
    (mkServerHandshake r' (sh_preferred_cipher s)).
  unfold write_msg1, write_noise, read_msg1, map_noise. rewrite Hw, Hr.
  cbn [fst snd bind_result]. rewrite client_flag_spec, flag_to_cipher_to_flag by apply kem_pk_small. done.
Qed.

(** Message 2, written by the server and read by the client. *)
Lemma msg2_run si sr c s pk suite out :
  noise_sync si sr 1 (sh_noise s) (ch_noise c) ->
  exists m2 s1 c1,
    write_msg2 s pk suite out = (Ok (out ++ m2), s1)
    /\ read_msg2 c m2 = (Ok (pk, suite), c1)
    /\ noise_sync si sr 2 (ch_noise c1) (sh_noise s1).
Proof.
  intros Hs.
  destruct (noise_message _ _ _ _ _ _ Hs ltac:(lia) (pk_payload_fits pk (cipher_to_flag suite)))
    as (m & w' & r' & Hw & Hr & _ & Hs').
  exists m, (mkServerHandshake w' (sh_preferred_cipher s)),
    (mkClientHandshake r' (ch_preferred_cipher c)).
  unfold write_msg2, write_noise, read_msg2, read_noise, map_noise. rewrite Hw, Hr.
  cbn [fst snd bind_result]. rewrite extract_prefix_with_flag_spec by apply kem_pk_small.
  cbn [bind_result fst snd]. rewrite pk_from_to_bytes, flag_to_cipher_to_flag. done.
Qed.

(** What the two ends of a finished handshake agree on. *)
Definition results_agree (rc rs : HandshakeResult) : Prop :=
  hr_session_id rc = hr_session_id rs /\ hr_keys_c2s rc = hr_keys_c2s rs
  /\ hr_keys_s2c rc = hr_keys_s2c rs /\ hr_cipher_suite rc = hr_cipher_suite rs
  /\ hr_handshake_hash rc = hr_handshake_hash rs.

Definition result_wf (suite : CipherSuite) (r : HandshakeResult) : Prop :=
  is_u 64 (hr_session_id r) /\ keys_wf (hr_keys_c2s r) /\ keys_wf (hr_keys_s2c r)
  /\ cipher_suite (hr_keys_c2s r) = suite /\ cipher_suite (hr_keys_s2c r) = suite
  /\ hr_cipher_suite r = suite.

Lemma finish_wf hash ps ks dh suite r :
  length hash = 32%nat -> finish hash ps ks dh suite = Ok r -> result_wf suite r.
Proof.
  intros Hl [= <-]. split; [apply (from_le_is_u (slice hash 0 8) 8); rewrite length_slice; lia|].
  split; [apply derive_keys_wf|]. split; [apply derive_keys_wf|]. done.
Qed.

(** Message 3, the KEM exchange and both finishes. *)
Lemma msg3_run si sr c s sk suite rnd out :
  length si = 32%nat -> length sr = 32%nat ->
  noise_sync si sr 2 (ch_noise c) (sh_noise s) ->
  exists m3 rc rs,
    write_msg3_and_finish rnd c (kem_public sk) suite out = Ok (out ++ m3, rc)
    /\ read_msg3_and_finish s sk suite m3 = Ok rs
    /\ results_agree rc rs /\ result_wf suite rc
    /\ hr_peer_static_pubkey rc = x25519_public sr
    /\ hr_peer_static_pubkey rs = x25519_public si.
Proof.
  intros Hi Hr Hs.
  destruct (noise_message _ _ _ _ _ _ Hs ltac:(lia) (ct_payload_fits rnd (kem_public sk)))
    as (m & w' & r' & Hw & Hrd & _ & Hs').
  destruct (noise_finished _ _ _ _ Hs') as (Hh & Hl & Hsp & Hpi & Hpr).
  unfold write_msg3_and_finish, read_msg3_and_finish, write_noise, read_noise, map_noise.
  pose proof (kem_decapsulate_encapsulate rnd sk) as Hk. exists m.
  pose proof (kem_ct_small rnd (kem_public sk)) as Hct.
  destruct (kem_encapsulate rnd (kem_public sk)) as [ct ss]. cbn [fst snd] in *.
  rewrite Hw, Hrd. cbn [fst snd bind_result].
  rewrite <- (app_nil_r (length_prefix ct)), extract_prefix_spec by done.
  cbn [bind_result]. rewrite Hk. unfold peer_static_of. rewrite Hpi, Hpr, Hh, Hsp.
  cbn [ok_or bind_result]. unfold array_try_from. rewrite !x25519_public_len by done.
  change (32 =? 32)%nat with true. cbn [ok_or bind_result].
  eexists _, _. repeat (split; [reflexivity|]).
  split; [by repeat split|]. split; [|by split].
  eapply finish_wf; [|reflexivity]. by rewrite <- Hh.
Qed.

(** C12: A full handshake between a client and a server whose Noise states were
    built completes, whatever ciphers they prefer: the server negotiates
    AES-256-GCM exactly when both prefer it, the client learns the server's KEM
    key and that suite from message 2, and both ends finish with the same
    session identifier, the same two directional packet keys of that suite and
    the same transcript hash, each holding the other's static X25519 key. *)
Theorem handshake_agreement ri rr rk idc ids pin pc ps c s :
  length (x25519_secret idc) = 32%nat -> length (x25519_secret ids) = 32%nat ->
  kem_pk ids = kem_public (kem_sk ids) ->
  ClientHandshake_new_with_cipher ri idc pin pc = Ok c ->
  ServerHandshake_new_with_cipher rr ids ps = Ok s ->
  let suite := negotiate ps pc in
  exists m1 m2 m3 c1 c2 s1 s2 rc rs,
    write_msg1 c (kem_pk ids) [] = (Ok m1, c1)
    /\ read_msg1 s m1 = (Ok suite, s1)
    /\ write_msg2 s1 (kem_pk ids) suite [] = (Ok m2, s2)
    /\ read_msg2 c1 m2 = (Ok (kem_pk ids, suite), c2)
    /\ write_msg3_and_finish rk c2 (kem_pk ids) suite [] = Ok (m3, rc)
    /\ read_msg3_and_finish s2 (kem_sk ids) suite m3 = Ok rs
    /\ (suite = Aes256Gcm <-> pc = Aes256Gcm /\ ps = Aes256Gcm)
    /\ results_agree rc rs /\ result_wf suite rc
    /\ hr_peer_static_pubkey rc = x25519_public (x25519_secret ids)
    /\ hr_peer_static_pubkey rs = x25519_public (x25519_secret idc).
Proof.
  intros Hlc Hls Hkem Hc Hs suite.
  unfold ClientHandshake_new_with_cipher in Hc.
  destruct (build_initiator _ _ _) as [ni|] eqn:Ei; [|done]. injection Hc as <-.
  unfold ServerHandshake_new_with_cipher in Hs.
  destruct (build_responder _ _) as [nr|] eqn:Er; [|done]. injection Hs as <-.
  pose proof (noise_build_sync _ _ _ _ _ _ _ Hlc Hls Ei Er) as H0.
  destruct (msg1_run _ _ (mkClientHandshake ni pc) (mkServerHandshake nr ps) (kem_pk ids) [] H0)
    as (m1 & c1 & s1 & Hw1 & Hr1 & _ & H1).
  destruct (msg2_run _ _ c1 s1 (kem_pk ids) suite [] H1) as (m2 & s2 & c2 & Hw2 & Hr2 & H2).
  destruct (msg3_run _ _ c2 s2 (kem_sk ids) suite rk [] Hlc Hls H2)
    as (m3 & rc & rs & Hw3 & Hr3 & Hag & Hwf & Hpc & Hps).
  rewrite <- Hkem in Hw3.
  exists m1, m2, m3, c1, c2, s1, s2, rc, rs. do 6 (split; [done|]).
  split; [unfold suite, negotiate; destruct ps, pc; cbn; intuition congruence|]. done.
Qed.

(** Client and server keys are separated by direction: the key material the
    two directions are derived from never coincides. *)
Lemma finish_directional hash ps ks dh suite r :
  finish hash ps ks dh suite = Ok r ->
  exists base, hr_keys_c2s r = derive_from_secret_with_cipher (base ++ string_bytes "c2s") suite
    /\ hr_keys_s2c r = derive_from_secret_with_cipher (base ++ string_bytes "s2c") suite
    /\ base ++ string_bytes "c2s" <> base ++ string_bytes "s2c".
Proof.
  intros [= <-]. exists (hybrid_data (HybridSharedSecret_new ks (blake3_hash (dh.1 ++ dh.2))) ++ hash).
  cbn [hr_keys_c2s hr_keys_s2c]. unfold derive_packet_keys_with_cipher.
  rewrite !(app_assoc (hybrid_data _) hash). do 2 (split; [done|]).
  intros E%app_inv_head. discriminate E.
Qed.

(** A message 3 whose KEM ciphertext has the wrong length ends the handshake
    with an error and yields no keys. *)
Lemma read_msg3_bad_ciphertext s sk suite msg payload n ct rest :
  read_message (sh_noise s) msg = (Ok payload, n) ->
  payload = length_prefix ct ++ rest -> Z.of_nat (length ct) < 2 ^ 16 ->
  length ct <> KEM_CT_LEN ->
  read_msg3_and_finish s sk suite msg = Err (HandshakeFailed "KEM decapsulation failed").
Proof.
  intros Hr -> Hct Hn. unfold read_msg3_and_finish, read_noise, map_noise. rewrite Hr.
  cbn [fst snd bind_result]. rewrite extract_prefix_spec by done. cbn [bind_result].
  by rewrite kem_decapsulate_malformed.
Qed.

(** An old client that sends no flag byte, or nothing at all, is served with
    ChaCha20-Poly1305. *)
Lemma read_msg1_without_flag s msg payload n :
  read_message (sh_noise s) msg = (Ok payload, n) ->
  (length payload <= 2 + prefix_len payload)%nat ->
  (read_msg1 s msg).1 = Ok ChaCha20Poly1305.
Proof.
  intros Hr Hl. unfold read_msg1, map_noise. rewrite Hr. cbn [fst snd bind_result].
  unfold client_flag. replace (2 + prefix_len payload <? length payload)%nat with false
    by (symmetry; apply Nat.ltb_ge; lia).
  f_equal. split_if; unfold negotiate; cbn; by rewrite andb_false_r.
Qed.

(** The post-handshake identity proof works end to end: the proof a peer
    signs over the transcript hash survives its 5261-byte wire format and
    verifies against the same hash on the other side. *)
Theorem identity_proof_end_to_end rnd err id hash p :
  mldsa_pair (mldsa_pk id) (mldsa_sk id) ->
  IdentityProof_sign rnd err id hash = Ok p ->
  length (IdentityProof_to_bytes p) = (MLDSA_PK_LEN + MLDSA_SIG_LEN)%nat
  /\ IdentityProof_from_bytes (IdentityProof_to_bytes p) = Some p
  /\ IdentityProof_verify p hash = true.
Proof.
  intros Hp. unfold IdentityProof_sign.
  destruct (mldsa_sign rnd id hash) as [sg|] eqn:Es; cbn [ok_or bind_result]; [|done].
  intros [= <-]. unfold IdentityProof_to_bytes, IdentityProof_from_bytes, IdentityProof_verify.
  cbn [ip_mldsa_pk ip_signature]. pose proof (mldsa_sig_len _ _ _ _ _ Es) as Hl.
  pose proof (mldsa_pk_len (mldsa_pk id)) as Hk.
  rewrite length_app, Hl, Hk, Nat.eqb_refl. cbn [negb]. split; [done|]. split.
  - rewrite slice_app_l, slice_all by (rewrite Hk; done).
    rewrite slice_last by lia. done.
  - by eapply mldsa_sign_verifies.
Qed.

End Run.

(** ** A concrete instance

    An executable stand-in for the Noise state that satisfies [NoiseLaws] and
    models no code of the repository. *)

Record TestNoise : Type := mkTestNoise {
  tn_public : list byte;
  tn_remote : option (list byte);
  tn_hash : list byte
}.

Definition tn_mix (h m : list byte) : list byte := resize_bytes (digest m :: h) 32.

Definition tn_write (s : TestNoise) (p : list byte) : Result (list byte) string * TestNoise :=
  let m := tn_public s ++ p in
  (Ok m, mkTestNoise (tn_public s) (tn_remote s) (tn_mix (tn_hash s) m)).

Definition tn_read (s : TestNoise) (m : list byte) : Result (list byte) string * TestNoise :=
  if (length m <? 32)%nat then (Err "input error"%string, s)
  else (Ok (drop 32 m), mkTestNoise (tn_public s) (Some (take 32 m)) (tn_mix (tn_hash s) m)).

#[export] Instance test_noise : Noise := {|
  HandshakeState := TestNoise;
  build_initiator := fun _ sk _ => Ok (mkTestNoise (x25519_public sk) None (replicate 32 x00));
  build_responder := fun _ sk => Ok (mkTestNoise (x25519_public sk) None (replicate 32 x00));
  write_message := tn_write;
  read_message := tn_read;
  get_handshake_hash := tn_hash;
  get_remote_static := tn_remote;
  get_raw_split := fun s => (tn_hash s, rev (tn_hash s))
|}.

Definition tn_sync (si sr : list byte) (n : nat) (w r : TestNoise) : Prop :=
  tn_hash w = tn_hash r /\ length (tn_hash w) = 32%nat
  /\ length (tn_public w) = 32%nat /\ length (tn_public r) = 32%nat
  /\ tn_public w = x25519_public (if Nat.even n then si else sr)
  /\ tn_public r = x25519_public (if Nat.even n then sr else si)
  /\ ((1 <= n)%nat -> tn_remote w = Some (tn_public r))
  /\ ((2 <= n)%nat -> tn_remote r = Some (tn_public w)).

#[export] Instance test_noise_laws : NoiseLaws test_noise test_x25519.
Proof.
  refine {| noise_sync := (tn_sync : list byte -> list byte -> nat ->
                             @HandshakeState test_noise -> @HandshakeState test_noise -> Prop) |}.
  - intros. by eexists.
  - intros. by eexists.
  - intros ri rr si sr rs i r Hi Hr Ei Er. injection Ei as <-. injection Er as <-.
    repeat (split; [first [reflexivity | apply length_resize_bytes]|]). split; intros; lia.
  - intros si sr n w r p (Hh & Hl & Hw & Hr & Epw & Epr & H1 & H2) Hn Hp.
    exists (tn_public w ++ p). do 2 eexists. split; [reflexivity|]. cbn [read_message test_noise].
    unfold tn_read. replace (length (tn_public w ++ p) <? 32)%nat with false
      by (symmetry; apply Nat.ltb_ge; rewrite length_app; lia).
    rewrite <- Hw at 1 2. rewrite drop_app_length, take_app_length. split; [reflexivity|].
    split; [rewrite length_app; unfold NOISE_MAX_PAYLOAD, NOISE_MAX_MESSAGE in *; lia|].
    unfold tn_sync. rewrite Nat.even_succ, <- Nat.negb_even.
    repeat split; cbn [tn_hash tn_public tn_remote]; try done.
    + by rewrite Hh.
    + apply length_resize_bytes.
    + by destruct (Nat.even n).
    + by destruct (Nat.even n).
    + intros. apply H1. lia.
  - intros si sr r i (Hh & Hl & _ & _ & Epr & Epi & H1 & H2).
    cbn. rewrite Hh. repeat split.
    + by rewrite <- Hh.
    + rewrite H2 by lia. by rewrite Epr.
    + rewrite H1 by lia. by rewrite Epi.
Defined.

Definition test_client_id : IdentityKeypair :=
  IdentityKeypair_generate (replicate 32 x11) (x12, x12) (x13, x13).

Lemma handshake_agreement_witness :
  exists m3 rc rs c2 s2,
    write_msg3_and_finish [x05] c2 (kem_pk test_fresh) Aes256Gcm [] = Ok (m3, rc)
    /\ read_msg3_and_finish s2 (kem_sk test_fresh) Aes256Gcm m3 = Ok rs
    /\ results_agree rc rs.
Proof.
  destruct (handshake_agreement [x01] [x02] [x05] test_client_id test_fresh (replicate 32 x09)
              Aes256Gcm Aes256Gcm
              (@mkClientHandshake test_noise (mkTestNoise (x25519_public (replicate 32 x11)) None (replicate 32 x00))
                 Aes256Gcm)
              (@mkServerHandshake test_noise (mkTestNoise (x25519_public (replicate 32 x01)) None (replicate 32 x00))
                 Aes256Gcm) eq_refl eq_refl eq_refl eq_refl eq_refl)
    as (m1 & m2 & m3 & c1 & c2 & s1 & s2 & rc & rs & _ & _ & _ & _ & H5 & H6 & _ & H7 & _).
  exists m3, rc, rs, c2, s2. split; [exact H5|]. split; [exact H6|]. exact H7.
Defined.

Lemma identity_proof_end_to_end_witness :
  mldsa_verify (mldsa_pk_into_bytes (mldsa_pk test_client_id)) [x01; x02]
    (default [] (mldsa_sign [] test_client_id [x01; x02])) = true.
Proof.
  destruct (identity_proof_end_to_end [] "sign" test_client_id [x01; x02]
              (mkIdentityProof (mldsa_pk_into_bytes (mldsa_pk test_client_id))
                 (default [] (mldsa_sign [] test_client_id [x01; x02]))) eq_refl eq_refl)
    as (_ & _ & H). exact H.
Defined.
