(* ===== verification/Net.v ===== *)
(** * Numbers and addresses as text

    The [Display] forms of integers and of [SocketAddr] that the code hashes
    into handshake cookies and prints: decimal and hexadecimal digits, dotted
    IPv4, compressed IPv6 (first longest run of zero groups), and the port. *)

From Stdlib Require Import ZArith Lia Bool List String.
From Stdlib Require Import Strings.Byte.
From stdpp Require Import base list numbers option.
From S2P Require Import Prelude TestCrypto Identity Stun.

Open Scope Z_scope.

(** Digits of [n] in base [b], most significant first; [fuel] bounds their
    number. *)
Fixpoint digits_fuel (fuel : nat) (b n : Z) : list Z :=
  match fuel with
  | O => []
  | S fuel' => if n <? b then [n] else digits_fuel fuel' b (n / b) ++ [n mod b]
  end.

(** 64 digits are enough for every machine integer. *)
Definition digits (b n : Z) : list Z := digits_fuel 64 b n.

Definition dec (n : Z) : list byte := map hex_digit (digits 10 n).
Definition hex (n : Z) : list byte := map hex_digit (digits 16 n).

Definition DOT : byte := byte_of 46.
Definition COLON : byte := byte_of 58.

Fixpoint join (sep : list byte) (l : list (list byte)) : list byte :=
  match l with
  | [] => []
  | [x] => x
  | x :: l' => x ++ sep ++ join sep l'
  end.

(** The IPv4 address is the 32-bit number. *)
Definition ipv4_octets (ip : Z) : list Z :=
  [ip / 2 ^ 24 mod 256; ip / 2 ^ 16 mod 256; ip / 2 ^ 8 mod 256; ip mod 256].

Definition ipv4_to_string (ip : Z) : list byte := join [DOT] (map dec (ipv4_octets ip)).

Definition ipv6_segments (ip : list byte) : list Z :=
  map (fun i => from_be (slice ip (2 * i) (2 * i + 2))) (seq 0 8).

(** The first longest run of zero groups: (start, length). *)
Fixpoint longest_zeros (segs : list Z) (i : nat) (cur best : nat * nat) : nat * nat :=
  match segs with
  | [] => best
  | s :: r =>
      if s =? 0 then
        let cur' := (if (cur.2 =? 0)%nat then i else cur.1, S cur.2) in
        longest_zeros r (S i) cur' (if (best.2 <? cur'.2)%nat then cur' else best)
      else longest_zeros r (S i) (0%nat, 0%nat) best
  end.

Definition fmt_segments (l : list Z) : list byte := join [COLON] (map hex l).

Definition ipv6_to_string (ip : list byte) : list byte :=
  let segs := ipv6_segments ip in
  if bool_decide (take 5 segs = [0; 0; 0; 0; 0]) && (nth 5 segs 0 =? 0xffff) then
    string_bytes "::ffff:" ++ ipv4_to_string (from_be (slice ip 12 16))
  else
    let '(start, len) := longest_zeros segs 0 (0%nat, 0%nat) (0%nat, 0%nat) in
    if (1 <? len)%nat
    then fmt_segments (take start segs) ++ [COLON; COLON] ++ fmt_segments (drop (start + len) segs)
    else fmt_segments segs.

Definition addr_to_string (a : SocketAddr) : list byte :=
  match a with
  | AddrV4 ip port => ipv4_to_string ip ++ [COLON] ++ dec port
  | AddrV6 ip port => string_bytes "[" ++ ipv6_to_string ip ++ string_bytes "]:" ++ dec port
  end.

Example addr_v4_text :
  addr_to_string (AddrV4 0xC0A80001 443) = string_bytes "192.168.0.1:443".
Proof. vm_compute. reflexivity. Qed.

Example addr_v6_text :
  addr_to_string (AddrV6 ([x20; x01; x0d; xb8] ++ replicate 11 x00 ++ [x01]) 8080)
  = string_bytes "[2001:db8::1]:8080".
Proof. vm_compute. reflexivity. Qed.

(** ** Decimal text determines the number *)

Fixpoint undigits (b acc : Z) (l : list Z) : Z :=
  match l with
  | [] => acc
  | d :: l' => undigits b (acc * b + d) l'
  end.

Lemma undigits_app b acc l k : undigits b acc (l ++ k) = undigits b (undigits b acc l) k.
Proof. revert acc. induction l; intros; simpl; auto. Qed.

Lemma digits_fuel_value b fuel : 1 < b -> forall n, 0 <= n < b ^ Z.of_nat fuel ->
  undigits b 0 (digits_fuel fuel b n) = n.
Proof.
  intros Hb. induction fuel as [|fuel IH]; intros n Hn; [simpl in *; lia|].
  cbn [digits_fuel]. destruct (n <? b) eqn:E; cmp_facts; [cbn; lia|].
  rewrite undigits_app, IH.
  - cbn. rewrite (Z.div_mod n b) at 3 by lia. lia.
  - rewrite Nat2Z.inj_succ, Z.pow_succ_r in Hn by lia. split; [apply Z.div_pos; lia|].
    apply Z.div_lt_upper_bound; lia.
Qed.

Lemma digits_fuel_range b fuel n : 1 < b -> 0 <= n -> Forall (fun d => 0 <= d < b) (digits_fuel fuel b n).
Proof.
  intros Hb. revert n. induction fuel as [|fuel IH]; intros n Hn; cbn [digits_fuel]; [constructor|].
  destruct (n <? b) eqn:E; cmp_facts; [by repeat constructor|].
  apply Forall_app. split; [apply IH; apply Z.div_pos; lia|].
  repeat constructor; apply Z.mod_pos_bound; lia.
Qed.

Lemma digits_value b n : 1 < b -> 0 <= n < b ^ 64 -> undigits b 0 (digits b n) = n.
Proof. intros. by apply digits_fuel_value. Qed.

Lemma hex_digits_inj l k :
  Forall (fun d => 0 <= d < 16) l -> Forall (fun d => 0 <= d < 16) k ->
  map hex_digit l = map hex_digit k -> l = k.
Proof.
  revert k. induction l as [|a l IH]; intros [|b k] Hl Hk; simpl; try done.
  intros [= H1 H2]. apply List.Forall_cons_iff in Hl as [Ha Hl].
  apply List.Forall_cons_iff in Hk as [Hb Hk].
  f_equal; [by apply hex_digit_inj|by apply IH].
Qed.

Lemma dec_inj a b : is_u 64 a -> is_u 64 b -> dec a = dec b -> a = b.
Proof.
  unfold is_u. intros Ha Hb H. unfold dec in H.
  assert (W : forall n, is_u 64 n -> Forall (fun d => 0 <= d < 16) (digits 10 n)).
  { intros n Hn. unfold is_u in Hn. eapply List.Forall_impl; [|apply (digits_fuel_range 10); lia].
    cbn beta. lia. }
  apply hex_digits_inj in H; [|by apply W..].
  assert (2 ^ 64 < 10 ^ 64) as Hw by reflexivity.
  assert (Ea : undigits 10 0 (digits 10 a) = a) by (apply digits_value; lia).
  assert (Eb : undigits 10 0 (digits 10 b) = b) by (apply digits_value; lia).
  congruence.
Qed.

(** Digits are neither dots nor colons. *)
Lemma hex_digit_not_sep d : 0 <= d < 16 -> hex_digit d <> DOT /\ hex_digit d <> COLON.
Proof.
  intros Hd. split; intros E; apply (f_equal byte_val) in E; revert E;
    unfold hex_digit, DOT, COLON; split_if; cmp_facts; rewrite !byte_val_of, !Z.mod_small; lia.
Qed.

Lemma dec_no_sep n : is_u 64 n -> Forall (fun c => c <> DOT /\ c <> COLON) (dec n).
Proof.
  intros Hn. unfold is_u in Hn. unfold dec. apply List.Forall_map.
  eapply List.Forall_impl; [|apply (digits_fuel_range 10 64 n); lia].
  intros d Hd. cbn beta in Hd. apply hex_digit_not_sep. lia.
Qed.

(** A text split at its first separator. *)
Lemma split_at_sep (c : byte) a a' r r' :
  Forall (fun x => x <> c) a -> Forall (fun x => x <> c) a' ->
  a ++ c :: r = a' ++ c :: r' -> a = a' /\ r = r'.
Proof.
  intros Ha. revert a'. induction Ha as [|x a Hx _ IH]; intros [|y a'] Ha' E; simpl in E.
  - injection E as ->. done.
  - injection E as -> _. by apply List.Forall_cons_iff in Ha' as [? _].
  - injection E as -> _. done.
  - injection E as -> E. apply List.Forall_cons_iff in Ha' as [_ Ha'].
    destruct (IH a' Ha' E) as [-> ->]. done.
Qed.

Lemma ipv4_octets_inj a b : is_u 32 a -> is_u 32 b -> ipv4_octets a = ipv4_octets b -> a = b.
Proof.
  unfold is_u, ipv4_octets. intros Ha Hb [= E1 E2 E3 E4].
  assert (S : forall n, 0 <= n < 2 ^ 32 -> n = (n / 2 ^ 24 mod 256) * 2 ^ 24
    + (n / 2 ^ 16 mod 256) * 2 ^ 16 + (n / 2 ^ 8 mod 256) * 2 ^ 8 + n mod 256).
  { intros n Hn. rewrite (Z.mod_small (n / 2 ^ 24)).
    2:{ split; [apply Z.div_pos; lia|apply Z.div_lt_upper_bound; lia]. }
    pose proof (Z.div_mod n (2 ^ 8) ltac:(lia)).
    pose proof (Z.div_mod (n / 2 ^ 8) 256 ltac:(lia)) as H2. rewrite Z.div_div in H2 by lia.
    pose proof (Z.div_mod (n / 2 ^ 16) 256 ltac:(lia)) as H3. rewrite Z.div_div in H3 by lia.
    change (2 ^ 8 * 256) with (2 ^ 16) in H2. change (2 ^ 16 * 256) with (2 ^ 24) in H3.
    change (2 ^ 8) with 256 in *. lia. }
  rewrite (S a Ha), (S b Hb). congruence.
Qed.

Lemma octet_u64 n : is_u 64 (n mod 256).
Proof. unfold is_u. pose proof (Z.mod_pos_bound n 256). lia. Qed.

Lemma join4 (a b c d : list byte) :
  join [DOT] [a; b; c; d] = a ++ DOT :: b ++ DOT :: c ++ DOT :: d.
Proof. reflexivity. Qed.

(** Two IPv4 endpoints with the same text are the same endpoint. *)
Lemma addr_v4_inj ip port ip' port' :
  is_u 32 ip -> is_u 32 ip' -> is_u 16 port -> is_u 16 port' ->
  addr_to_string (AddrV4 ip port) = addr_to_string (AddrV4 ip' port') -> ip = ip' /\ port = port'.
Proof.
  intros Hi Hi' Hp Hp' E. unfold addr_to_string, ipv4_to_string, ipv4_octets in E. cbn [map] in E.
  rewrite !join4 in E. cbn [app] in E.
  assert (Hno : forall n c, c = DOT \/ c = COLON -> Forall (fun x => x <> c) (dec (n mod 256))).
  { intros n c Hc. eapply List.Forall_impl; [|apply dec_no_sep, octet_u64].
    intros x [? ?]. by destruct Hc as [->| ->]. }
  rewrite <- !app_assoc in E. cbn [app] in E. rewrite <- !app_assoc in E. cbn [app] in E.
  rewrite <- !app_assoc in E. cbn [app] in E.
  apply split_at_sep in E as [E1 E]; [|by apply Hno; left..].
  apply split_at_sep in E as [E2 E]; [|by apply Hno; left..].
  apply split_at_sep in E as [E3 E]; [|by apply Hno; left..].
  apply split_at_sep in E as [E4 E]; [|by apply Hno; right..].
  apply dec_inj in E1, E2, E3, E4, E; try apply octet_u64; try (unfold is_u in *; lia).
  split; [|done]. apply ipv4_octets_inj; [done..|]. unfold ipv4_octets. congruence.
Qed.
