(* ===== verification/Tar.v ===== *)
(** * Traffic-analysis resistance (src/src/transport/tar.rs)

    Size-class padding, header obfuscation, timing jitter and the cover-traffic
    schedule of a connection.  Instants and durations are nanoseconds; the
    floating-point read-out [RateTracker::rate_bps] is represented by the
    integer total it divides. *)

From Stdlib Require Import ZArith Lia Bool List String Sorting.Sorted.
From Stdlib Require Import Strings.Byte.
From stdpp Require Import base list numbers option.
From S2P Require Import Prelude Packet Crypto TestCrypto.

Open Scope Z_scope.

(** ** Size classes and padding *)

Inductive PacketSizeClass : Type := Small | Medium | Large | Jumbo.

#[export] Instance PacketSizeClass_eq_dec : EqDecision PacketSizeClass.
Proof. solve_decision. Defined.

Definition classify (wire_len : nat) : PacketSizeClass :=
  if Z.of_nat wire_len <=? 256 then Small
  else if Z.of_nat wire_len <=? 512 then Medium
  else if Z.of_nat wire_len <=? 1024 then Large
  else Jumbo.

Definition wire_size (c : PacketSizeClass) : nat :=
  Z.to_nat (match c with Small => 256 | Medium => 512 | Large => 1024 | Jumbo => 1400 end).

(** One step of the linear congruential generator. *)
Definition lcg_next (s : Z) : Z :=
  wrapping_add 64 (wrapping_mul 64 s 6364136223846793005) 0x14057b7ef767814f.

(** [((lcg >> 33) & 0xFF) as u8], also what the cast [(lcg >> 33) as u8] keeps. *)
Definition lcg_byte (s : Z) : byte := byte_of (Z.land (Z.shiftr s 33) 0xFF).

(** [n] bytes of the generator. *)
Fixpoint lcg_bytes (n : nat) (s : Z) : list byte * Z :=
  match n with
  | O => ([], s)
  | S n =>
      let s := lcg_next s in
      let '(bs, s') := lcg_bytes n s in (lcg_byte s :: bs, s')
  end.

Definition pad_to_size_class (packet : list byte) (lcg : Z) : list byte * Z :=
  let target := wire_size (classify (length packet)) in
  if (target <=? length packet)%nat then (packet, lcg)
  else
    let '(pad, lcg) := lcg_bytes (target - length packet) lcg in (packet ++ pad, lcg).

(** ** Cover traffic *)

Record CoverTrafficConfig : Type := mkCoverTrafficConfig {
  target_kbps : Z;   (* u32 *)
  packet_size : Z    (* u16 *)
}.

Definition CoverTrafficConfig_disabled : CoverTrafficConfig := mkCoverTrafficConfig 0 1024.

Definition CoverTrafficConfig_is_enabled (c : CoverTrafficConfig) : bool := 0 <? target_kbps c.

Definition inter_packet_interval (c : CoverTrafficConfig) : option Z :=
  if target_kbps c =? 0 then None
  else
    let bytes_per_sec := target_kbps c * 1000 / 8 in
    if bytes_per_sec =? 0 then None
    else Some (saturating_mul 64 (packet_size c) 1000000000 / bytes_per_sec).

(** ** Rate tracking *)

Record RateTracker : Type := mkRateTracker {
  rt_window : Z;
  samples : list (Z * Z)   (* (instant, bytes), front first *)
}.

Definition RateTracker_new : RateTracker := mkRateTracker (from_millis 100) [].

(** The [while] loop pops the front while it is older than the cutoff. *)
Fixpoint purge_front (cutoff : Z) (l : list (Z * Z)) : list (Z * Z) :=
  match l with
  | [] => []
  | (t, b) :: l' => if t <? cutoff then purge_front cutoff l' else l
  end.

(** [None] is the panic of [now - window] on an instant before the window. *)
Definition RateTracker_record (r : RateTracker) (bytes now : Z) : option RateTracker :=
  let l := samples r ++ [(now, bytes)] in
  match checked_sub now (rt_window r) with
  | None => None
  | Some cutoff => Some (mkRateTracker (rt_window r) (purge_front cutoff l))
  end.

(** The numerator of [rate_bps]: the bytes of the retained samples. *)
Definition rate_total (r : RateTracker) : Z := fold_right Z.add 0 (map snd (samples r)).

(** ** Jitter *)

Record JitterConfig : Type := mkJitterConfig { max_jitter_ms : Z (* u32 *) }.

Definition JitterConfig_disabled : JitterConfig := mkJitterConfig 0.

Definition JitterConfig_is_enabled (c : JitterConfig) : bool := 0 <? max_jitter_ms c.

Definition sample_delay (c : JitterConfig) (lcg : Z) : Z * Z :=
  if max_jitter_ms c =? 0 then (0, lcg)
  else
    let lcg := lcg_next lcg in
    (from_millis (Z.shiftr lcg 33 mod max_jitter_ms c), lcg).

(** ** Header obfuscation *)

(** [for i in 0..n { packet[i] ^= secret[i] }] with [n = min(len, 8)]. *)
Definition obfuscate_header (packet session_secret : list byte) : list byte :=
  let n := Nat.min (length packet) 8 in
  xor_zip (take n packet) (take n session_secret) ++ drop n packet.

Section WithCrypto.
Context {C : Crypto}.

Definition derive_obfuscation_secret (session_key : list byte) : list byte :=
  blake3_keyed_hash session_key (list_byte_of_string "seam.tar.obfuscate.v1").

(** ** Configuration and per-connection state *)

Record TarConfig : Type := mkTarConfig {
  no_padding : bool;
  cover : CoverTrafficConfig;
  jitter : JitterConfig;
  obfuscate : bool
}.

Definition TarConfig_disabled : TarConfig :=
  mkTarConfig true CoverTrafficConfig_disabled JitterConfig_disabled false.

Definition fips_defaults : TarConfig :=
  mkTarConfig false CoverTrafficConfig_disabled JitterConfig_disabled false.

Definition padding_enabled (c : TarConfig) : bool := negb (no_padding c).

Record TarState : Type := mkTarState {
  config : TarConfig;
  lcg : Z;
  rate_tracker : RateTracker;
  obfuscation_secret : option (list byte);
  next_cover_at : option Z
}.

Definition TarState_new (c : TarConfig) : TarState :=
  mkTarState c 0x517cc1b727220a95 RateTracker_new None None.

Definition set_session_secret (s : TarState) (session_key : list byte) (now : Z) : TarState :=
  let sec := if obfuscate (config s) then Some (derive_obfuscation_secret session_key)
             else obfuscation_secret s in
  let next := match inter_packet_interval (cover (config s)) with
              | Some interval => Some (now + interval)
              | None => next_cover_at s
              end in
  mkTarState (config s) (lcg s) (rate_tracker s) sec next.

Definition maybe_pad (s : TarState) (packet : list byte) : list byte * TarState :=
  if padding_enabled (config s) then
    let '(out, l) := pad_to_size_class packet (lcg s) in
    (out, mkTarState (config s) l (rate_tracker s) (obfuscation_secret s) (next_cover_at s))
  else (packet, s).

Definition maybe_obfuscate (s : TarState) (packet : list byte) : list byte :=
  match obfuscation_secret s with
  | Some secret => obfuscate_header packet secret
  | None => packet
  end.

Definition maybe_deobfuscate (s : TarState) (packet : list byte) : list byte :=
  match obfuscation_secret s with
  | Some secret => obfuscate_header packet secret
  | None => packet
  end.

Definition jitter_delay (s : TarState) : Z * TarState :=
  let '(d, l) := sample_delay (jitter (config s)) (lcg s) in
  (d, mkTarState (config s) l (rate_tracker s) (obfuscation_secret s) (next_cover_at s)).

Definition on_real_send (s : TarState) (bytes now : Z) : option TarState :=
  match RateTracker_record (rate_tracker s) bytes now with
  | None => None
  | Some rt =>
      let next := match inter_packet_interval (cover (config s)), next_cover_at s with
                  | Some interval, Some _ => Some (now + interval)
                  | _, _ => next_cover_at s
                  end in
      Some (mkTarState (config s) (lcg s) rt (obfuscation_secret s) next)
  end.

Definition should_send_cover (s : TarState) (now : Z) : bool :=
  match next_cover_at s with None => false | Some t => t <=? now end.

Definition mark_cover_sent (s : TarState) (now : Z) : TarState :=
  match inter_packet_interval (cover (config s)) with
  | Some interval =>
      mkTarState (config s) (lcg s) (rate_tracker s) (obfuscation_secret s) (Some (now + interval))
  | None => s
  end.

Definition cover_payload (s : TarState) : list byte * TarState :=
  let '(bs, l) := lcg_bytes (Z.to_nat (packet_size (cover (config s)))) (lcg s) in
  (bs, mkTarState (config s) l (rate_tracker s) (obfuscation_secret s) (next_cover_at s)).
End WithCrypto.

(** ** Padding *)

Lemma length_lcg_bytes n : forall s, length (fst (lcg_bytes n s)) = n.
Proof.
  induction n as [|n IH]; intros s; simpl; [done|].
  specialize (IH (lcg_next s)). destruct (lcg_bytes n (lcg_next s)). simpl in *. by rewrite IH.
Qed.

Lemma classify_fits n : (n <= Z.to_nat 1400)%nat -> (n <= wire_size (classify n))%nat.
Proof. intros H. unfold classify. repeat split_if; cmp_facts; unfold wire_size; lia. Qed.

Lemma obfuscate_involutive p k : (8 <= length k)%nat ->
  obfuscate_header (obfuscate_header p k) k = p.
Proof.
  intros Hk. unfold obfuscate_header. set (n := Nat.min (length p) 8).
  assert (length (take n p) = n) as Hn by (rewrite length_take; lia).
  rewrite length_app, length_xor_zip, length_drop, Hn.
  replace (Nat.min (n + (length p - n)) 8) with n by lia.
  assert (length (xor_zip (take n p) (take n k)) = n) as Hx by by rewrite length_xor_zip.
  rewrite take_app_le, drop_app_ge by lia. rewrite Hx, Nat.sub_diag, drop_0.
  rewrite (take_ge _ n) by lia. rewrite xor_zip_involutive. apply firstn_skipn.
Qed.

Lemma length_obfuscate p k : length (obfuscate_header p k) = length p.
Proof.
  unfold obfuscate_header. rewrite length_app, length_xor_zip, length_take, length_drop. lia.
Qed.

(** What a shaped packet looks like on the wire and to the peer: with
    padding on, a packet of at most 1400 bytes leaves with exactly one of the
    four class sizes (the smallest that fits) and a longer one with its own
    length; and a peer with the same session secret that undoes the
    obfuscation finds the packet, byte for byte, at the front of what was
    sent, followed by the padding only. *)
Theorem shaping_roundtrip {C : Crypto} {L : CryptoLaws C} cfg lcg0 rt next key packet :
  let sec := if obfuscate cfg then Some (derive_obfuscation_secret key) else None in
  let s := mkTarState cfg lcg0 rt sec next in
  let '(padded, s') := maybe_pad s packet in
  let wire := maybe_obfuscate s' packet in
  length (maybe_obfuscate s' padded) =
    (if padding_enabled cfg && (length packet <=? Z.to_nat 1400)%nat
     then wire_size (classify (length packet)) else length packet) /\
  (exists pad, maybe_deobfuscate s' (maybe_obfuscate s' padded) = packet ++ pad) /\
  maybe_deobfuscate s' wire = packet.
Proof.
  intros sec s.
  assert (forall s' p, obfuscation_secret s' = sec -> maybe_deobfuscate s' (maybe_obfuscate s' p) = p) as Hinv.
  { intros s' p E. unfold maybe_deobfuscate, maybe_obfuscate. rewrite E. unfold sec.
    destruct (obfuscate cfg); [|done]. apply obfuscate_involutive.
    unfold derive_obfuscation_secret. rewrite blake3_keyed_hash_len. lia. }
  assert (forall s' p, length (maybe_obfuscate s' p) = length p) as Hlen.
  { intros s' p. unfold maybe_obfuscate. destruct (obfuscation_secret s'); [apply length_obfuscate|done]. }
  unfold maybe_pad. cbn [config lcg rate_tracker obfuscation_secret next_cover_at].
  change (config s) with cfg. change (Tar.lcg s) with lcg0.
  destruct (padding_enabled cfg); cbn [andb].
  2: { rewrite Hlen, Hinv by done. split_and!; [done|exists []; by rewrite app_nil_r|done]. }
  unfold pad_to_size_class. split_if; cmp_facts.
  - rewrite Hlen, Hinv by done. split_and!; [|exists []; by rewrite app_nil_r|done].
    split_if; cmp_facts; [|done]. pose proof (classify_fits _ Eif0). lia.
  - pose proof (length_lcg_bytes (wire_size (classify (length packet)) - length packet) lcg0) as Hl.
    destruct (lcg_bytes _ lcg0) as [pad l]. cbn [fst] in Hl. rewrite Hlen, !Hinv by done.
    split_and!; [|by exists pad|done]. rewrite length_app, Hl.
    replace (length packet <=? Z.to_nat 1400)%nat with true; [lia|].
    symmetry. apply Nat.leb_le. assert (wire_size (classify (length packet)) <= Z.to_nat 1400)%nat
      by (destruct (classify _); unfold wire_size; lia). lia.
Qed.

Lemma shaping_roundtrip_witness :
  let cfg := mkTarConfig false CoverTrafficConfig_disabled JitterConfig_disabled true in
  let s := mkTarState cfg 7 RateTracker_new (Some (derive_obfuscation_secret (replicate 32 x42))) None in
  let '(padded, s') := maybe_pad s (replicate 300 x11) in
  length (maybe_obfuscate s' padded) = 512%nat.
Proof.
  pose proof (shaping_roundtrip (mkTarConfig false CoverTrafficConfig_disabled JitterConfig_disabled true)
    7 RateTracker_new None (replicate 32 x42) (replicate 300 x11)) as H.
  cbv zeta in *. cbn [obfuscate] in H. destruct (maybe_pad _ _) as [padded s'].
  destruct H as [H _]. rewrite H. vm_compute. reflexivity.
Defined.

(** ** The rate window and the cover schedule *)

Inductive TarEvent : Type :=
  | RealSend (bytes now : Z)
  | CoverSent (now : Z).

Definition event_time (e : TarEvent) : Z := match e with RealSend _ t => t | CoverSent t => t end.

Section Schedule.
Context {C : Crypto}.

Fixpoint tar_run (s : TarState) (es : list TarEvent) : option TarState :=
  match es with
  | [] => Some s
  | RealSend b t :: es =>
      match on_real_send s b t with None => None | Some s => tar_run s es end
  | CoverSent t :: es => tar_run (mark_cover_sent s t) es
  end.

(** Times do not go back, and start past the first window. *)
Fixpoint times_ok (t : Z) (es : list TarEvent) : Prop :=
  match es with
  | [] => True
  | e :: es => t <= event_time e /\ times_ok (event_time e) es
  end.

Fixpoint last_time (t : Z) (es : list TarEvent) : Z :=
  match es with [] => t | e :: es => last_time (event_time e) es end.

Fixpoint real_sends (es : list TarEvent) : list (Z * Z) :=
  match es with
  | [] => []
  | RealSend b t :: es => (t, b) :: real_sends es
  | CoverSent _ :: es => real_sends es
  end.

(** The instant of the last real send, the clock the window is relative to. *)
Definition last_real (l : list (Z * Z)) : Z := List.last (map fst l) 0.

Definition in_window (l : list (Z * Z)) : list (Z * Z) :=
  List.filter (fun x => last_real l - from_millis 100 <=? fst x) l.

Lemma purge_front_sorted c l : StronglySorted Z.le (map fst l) ->
  purge_front c l = List.filter (fun x => c <=? fst x) l.
Proof.
  induction l as [|[t b] l IH]; simpl; intros Hs; [done|].
  inversion_clear Hs as [|? ? Hs' Ht]. destruct (t <? c) eqn:E; cmp_facts.
  - replace (c <=? t) with false by (symmetry; apply Z.leb_gt; lia). auto.
  - replace (c <=? t) with true by (symmetry; apply Z.leb_le; lia). f_equal.
    rewrite filter_true_all; [done|]. intros [t' b'] Hin. simpl. apply Z.leb_le.
    rewrite List.Forall_forall in Ht. pose proof (Ht t' (in_map fst _ _ Hin)). lia.
Qed.

(** The retained samples are those of the window, at every point of the run. *)
Record tar_inv (s : TarState) (hist : list (Z * Z)) (t : Z) : Prop := {
  ti_window : rt_window (rate_tracker s) = from_millis 100;
  ti_samples : samples (rate_tracker s) = in_window hist;
  ti_sorted : StronglySorted Z.le (map fst hist);
  ti_past : Forall (fun u => u <= t) (map fst hist)
}.

Lemma sorted_snoc l t : StronglySorted Z.le l -> Forall (fun u => u <= t) l ->
  StronglySorted Z.le (l ++ [t]).
Proof.
  induction l as [|a l IH]; simpl; intros Hs Hf; [by repeat constructor|].
  inversion_clear Hs as [|? ? Hs' Ha]. inversion_clear Hf as [|? ? Hat Hf'].
  constructor; [auto|]. apply List.Forall_app. split; [done|]. by repeat constructor.
Qed.

Lemma last_le l t : Forall (fun u => u <= t) l -> l <> [] -> List.last l 0 <= t.
Proof.
  intros Hf Hne. destruct (exists_last Hne) as (l' & x & ->). rewrite last_last.
  apply List.Forall_app in Hf as [_ Hf]. by inversion_clear Hf.
Qed.

Lemma record_inv s hist t b now : tar_inv s hist t -> from_millis 100 <= now -> t <= now ->
  exists rt, RateTracker_record (rate_tracker s) b now = Some rt /\
    rt_window rt = from_millis 100 /\ samples rt = in_window (hist ++ [(now, b)]).
Proof.
  intros [Hw Hs Hsort Hp] Hn Ht. unfold RateTracker_record. rewrite Hw.
  assert (checked_sub now (from_millis 100) = Some (now - from_millis 100)) as -> by by apply checked_sub_Some.
  eexists. split; [done|]. split; [done|]. cbn [samples].
  assert (Forall (fun u => u <= now) (map fst hist)) as Hp'
    by (eapply List.Forall_impl; [|exact Hp]; cbn; lia).
  rewrite purge_front_sorted.
  - rewrite Hs. unfold in_window at 2. unfold last_real. rewrite map_app. simpl map. rewrite last_last.
    rewrite !List.filter_app. f_equal. unfold in_window. rewrite filter_filter_and.
    apply List.filter_ext_in. intros [u c] Hin. cbn [fst].
    destruct (now - from_millis 100 <=? u) eqn:E; cmp_facts; [|apply andb_false_r].
    rewrite andb_true_r. apply Z.leb_le.
    assert (last_real hist <= now); [|lia].
    apply last_le; [done|]. intros E0. by destruct hist.
  - rewrite Hs, map_app. apply sorted_snoc.
    + unfold in_window. clear Hs Hp Hp'. generalize (last_real hist - from_millis 100). intros c.
      induction hist as [|[u d] hist IH]; simpl; [constructor|]. inversion_clear Hsort as [|? ? H1 H2].
      destruct (c <=? u); simpl; [|auto]. constructor; [auto|].
      rewrite List.Forall_forall in *. intros x Hx. apply H2.
      apply in_map_iff in Hx as ([x' y] & <- & Hx). apply filter_In in Hx as [Hx _].
      by apply (in_map fst) in Hx.
    + rewrite List.Forall_forall in *. intros x Hx. apply in_map_iff in Hx as ([x' y] & <- & Hx).
      apply filter_In in Hx as [Hx _]. apply Hp', (in_map fst _ _ Hx).
Qed.

Lemma run_inv interval es : forall s hist t,
  inter_packet_interval (cover (config s)) = Some interval ->
  tar_inv s hist t -> next_cover_at s = Some (t + interval) ->
  from_millis 100 <= t -> times_ok t es ->
  exists s', tar_run s es = Some s' /\ tar_inv s' (hist ++ real_sends es) (last_time t es) /\
    next_cover_at s' = Some (last_time t es + interval) /\ config s' = config s.
Proof.
  induction es as [|e es IH]; intros s hist t Hi Hinv Hn Ht Hok.
  { exists s. simpl. rewrite app_nil_r. done. }
  destruct Hok as [Hle Hok]. destruct e as [b now|now]; cbn [event_time] in Hle; simpl.
  - unfold on_real_send. destruct (record_inv s hist t b now Hinv ltac:(lia) Hle) as (rt & -> & Hw & Hs).
    rewrite Hi, Hn. replace (hist ++ (now, b) :: real_sends es) with ((hist ++ [(now, b)]) ++ real_sends es)
      by by rewrite <- app_assoc.
    destruct Hinv as [_ _ Hsort Hp].
    assert (Forall (fun u => u <= now) (map fst hist)) by (eapply List.Forall_impl; [|exact Hp]; cbn; lia).
    apply (IH (mkTarState (config s) (lcg s) rt (obfuscation_secret s) (Some (now + interval))) _ now);
      try done; [|lia].
    split; try done; rewrite map_app; cbn [map fst]; [by apply sorted_snoc|].
    apply List.Forall_app. split; [done|]. by repeat constructor.
  - unfold mark_cover_sent. rewrite Hi.
    apply (IH (mkTarState (config s) (lcg s) (rate_tracker s) (obfuscation_secret s)
                 (Some (now + interval))) _ now); try done; [|lia].
    destruct Hinv as [H1 H2 H3 H4]. split; try done.
    eapply List.Forall_impl; [|exact H4]; cbn; lia.
Qed.

(** Cover traffic and rate tracking over a whole connection.  From the
    moment the session secret is installed, after any sequence of real sends
    and cover packets at non-decreasing times: the rate window holds exactly
    the real sends of the 100 ms before the latest of them, and a cover packet
    is due exactly when one full inter-packet interval has passed since the
    last packet of either kind; a jitter delay is always below its bound. *)
Theorem cover_schedule_exact cfg key t0 es interval now :
  inter_packet_interval (cover cfg) = Some interval ->
  from_millis 100 <= t0 -> times_ok t0 es ->
  exists s, tar_run (set_session_secret (TarState_new cfg) key t0) es = Some s /\
    samples (rate_tracker s) = in_window (real_sends es) /\
    should_send_cover s now = (last_time t0 es + interval <=? now) /\
    (0 < max_jitter_ms (jitter cfg) ->
     0 <= fst (jitter_delay s) < from_millis (max_jitter_ms (jitter cfg))).
Proof.
  intros Hi Ht Hok.
  destruct (run_inv interval es (set_session_secret (TarState_new cfg) key t0) [] t0)
    as (s & Hr & Hinv & Hn & Hc); try done.
  - split; cbn; [done|done|constructor|constructor].
  - cbn. by rewrite Hi.
  - exists s. split_and!; [done|by apply ti_samples in Hinv| |].
    + unfold should_send_cover. by rewrite Hn.
    + intros Hj. unfold jitter_delay, sample_delay. rewrite Hc. cbn [set_session_secret TarState_new config].
      replace (max_jitter_ms (jitter cfg) =? 0) with false by (symmetry; apply Z.eqb_neq; lia).
      cbn [fst]. pose proof (Z.mod_pos_bound (Z.shiftr (lcg_next (lcg s)) 33) _ Hj).
      unfold from_millis. lia.
Qed.
End Schedule.

Lemma cover_schedule_exact_witness :
  let cfg := mkTarConfig true (mkCoverTrafficConfig 8 1000) (mkJitterConfig 5) false in
  exists s, tar_run (set_session_secret (TarState_new cfg) (replicate 32 x42) (from_secs 1))
      [RealSend 700 (from_millis 1010); CoverSent (from_millis 2010); RealSend 50 (from_millis 2500)] = Some s /\
    samples (rate_tracker s) = [(from_millis 2500, 50)] /\
    should_send_cover s (from_millis 3500) = true.
Proof.
  destruct (cover_schedule_exact
    (mkTarConfig true (mkCoverTrafficConfig 8 1000) (mkJitterConfig 5) false) (replicate 32 x42)
    (from_secs 1) [RealSend 700 (from_millis 1010); CoverSent (from_millis 2010);
                   RealSend 50 (from_millis 2500)] 1000000000 (from_millis 3500))
    as (s & H1 & H2 & H3 & _).
  - reflexivity.
  - vm_compute. discriminate.
  - cbn [times_ok event_time]. unfold from_secs, from_millis. lia.
  - exists s. rewrite H2, H3. split_and!; [exact H1|reflexivity|reflexivity].
Defined.
