(* ===== verification/Connection.v ===== *)
(** * Connections

    src/src/transport/connection.rs: the connection state machine that drives
    the cookie exchange, the hybrid handshake, the session, traffic-analysis
    resistance, congestion control, FEC, chaff, probing and migration.

    A handler runs in a small state, output and error monad over the
    connection and the datagrams it put on the wire.  [Env] holds what the
    outside supplies to one call: the clocks, the randomness, the outcome of
    each socket operation, the iteration order of the session's hash map.
    [Panic] is a Rust panic. *)

From Stdlib Require Import ZArith Lia Bool List String.
From Stdlib Require Import Strings.Byte.
From stdpp Require Import base list numbers option gmap.
From S2P Require Import Prelude Packet Crypto TestCrypto PacketCodec Fec Float Cc Congestion.
From S2P Require Import Estimators Arbiter Datagram Arq Session Ratchet Resumption Cookie Stun.
From S2P Require Import Probe Identity Handshake Net Tar.

Open Scope Z_scope.

Import Rtt.

Definition PKT_COOKIE_REQ : byte := x10.
Definition PKT_COOKIE_CHALLENGE : byte := x11.
Definition PKT_COOKIE_ECHO : byte := x12.
Definition PKT_HANDSHAKE_MSG : byte := x13.

Inductive ConnPhase : Type :=
  | ClientWaitChallenge | ClientWaitMsg2 | ServerWaitCookie | ServerWaitMsg3
  | Established | Draining | Closed.

#[export] Instance ConnPhase_eq_dec : EqDecision ConnPhase.
Proof. solve_decision. Defined.

Definition KEEPALIVE_INTERVAL : Z := from_secs 25.
Definition IDLE_TIMEOUT : Z := from_secs 30.
Definition HANDSHAKE_TIMEOUT : Z := from_secs 30.

(** What one call meets outside. *)
Record Env : Type := mkEnv {
  ev_now : Z;                                   (* Instant::now() *)
  ev_unix_secs : Z;                             (* wall clock, seconds *)
  ev_unix_us : Z;                               (* wall clock, microseconds *)
  ev_send_error : Z -> list byte -> option string;  (* socket, datagram: None = sent *)
  ev_hs_rnd : list byte;
  ev_kem_rnd : list byte;
  ev_ticket_nonce : list byte;
  ev_order : list Z;
  ev_local_socks : list (option Z * Z)          (* per local address: bound socket, nonce *)
}.

Section ConnectionCode.
Context {C : Crypto} {X : X25519} {K : Kem} {D : MlDsa} {H : PlainHash} {N : Noise} {M : Libm}.
Context {T : Type} {CC : CongestionControl T}.

Record Connection : Type := mkConnection {
  cn_remote : SocketAddr;
  cn_phase : ConnPhase;
  cn_socket : Z;   (* the socket in use *)
  cn_client_hs : option ClientHandshake;
  cn_server_hs : option ServerHandshake;
  cn_server_identity : option IdentityKeypair;
  cn_cookie_factory : option CookieFactory;
  cn_agreed_cipher : CipherSuite;
  cn_server_preferred_cipher : CipherSuite;
  cn_session : option Session;
  cn_fec_arbiter : FecArbiter;
  cn_fec_enc : option FecEncoder;
  cn_fec_group_id : Z;   (* u32 *)
  cn_cc : T;
  cn_bbr : BbrController;
  cn_rtt_est : RttEstimator;
  cn_chaff : ChaffScheduler;
  cn_prober : PathProber;
  cn_events : list SessionEvent;   (* sent on event_tx, oldest first *)
  cn_send_counter : Z;   (* u64 *)
  cn_server_kem_pk : option KemPublicKey;
  cn_last_recv : Z;   (* Instant *)
  cn_last_send : Z;   (* Instant *)
  cn_ticket_key : option TicketKey;
  cn_peer_static_pubkey : option (list byte);
  cn_tar : TarState;
  cn_migration_enabled : bool;
  cn_migration_sockets : gmap Z Z   (* nonce -> socket *)
}.

Definition set_cn_phase (c : Connection) (v : ConnPhase) : Connection :=
  mkConnection (cn_remote c) v (cn_socket c) (cn_client_hs c) (cn_server_hs c)
    (cn_server_identity c) (cn_cookie_factory c) (cn_agreed_cipher c)
    (cn_server_preferred_cipher c) (cn_session c) (cn_fec_arbiter c) (cn_fec_enc c)
    (cn_fec_group_id c) (cn_cc c) (cn_bbr c) (cn_rtt_est c) (cn_chaff c) (cn_prober c)
    (cn_events c) (cn_send_counter c) (cn_server_kem_pk c) (cn_last_recv c) (cn_last_send c)
    (cn_ticket_key c) (cn_peer_static_pubkey c) (cn_tar c) (cn_migration_enabled c)
    (cn_migration_sockets c).
Definition set_cn_socket (c : Connection) (v : Z) : Connection :=
  mkConnection (cn_remote c) (cn_phase c) v (cn_client_hs c) (cn_server_hs c)
    (cn_server_identity c) (cn_cookie_factory c) (cn_agreed_cipher c)
    (cn_server_preferred_cipher c) (cn_session c) (cn_fec_arbiter c) (cn_fec_enc c)
    (cn_fec_group_id c) (cn_cc c) (cn_bbr c) (cn_rtt_est c) (cn_chaff c) (cn_prober c)
    (cn_events c) (cn_send_counter c) (cn_server_kem_pk c) (cn_last_recv c) (cn_last_send c)
    (cn_ticket_key c) (cn_peer_static_pubkey c) (cn_tar c) (cn_migration_enabled c)
    (cn_migration_sockets c).
Definition set_cn_client_hs (c : Connection) (v : option ClientHandshake) : Connection :=
  mkConnection (cn_remote c) (cn_phase c) (cn_socket c) v (cn_server_hs c) (cn_server_identity c)
    (cn_cookie_factory c) (cn_agreed_cipher c) (cn_server_preferred_cipher c) (cn_session c)
    (cn_fec_arbiter c) (cn_fec_enc c) (cn_fec_group_id c) (cn_cc c) (cn_bbr c) (cn_rtt_est c)
    (cn_chaff c) (cn_prober c) (cn_events c) (cn_send_counter c) (cn_server_kem_pk c)
    (cn_last_recv c) (cn_last_send c) (cn_ticket_key c) (cn_peer_static_pubkey c) (cn_tar c)
    (cn_migration_enabled c) (cn_migration_sockets c).
Definition set_cn_server_hs (c : Connection) (v : option ServerHandshake) : Connection :=
  mkConnection (cn_remote c) (cn_phase c) (cn_socket c) (cn_client_hs c) v (cn_server_identity c)
    (cn_cookie_factory c) (cn_agreed_cipher c) (cn_server_preferred_cipher c) (cn_session c)
    (cn_fec_arbiter c) (cn_fec_enc c) (cn_fec_group_id c) (cn_cc c) (cn_bbr c) (cn_rtt_est c)
    (cn_chaff c) (cn_prober c) (cn_events c) (cn_send_counter c) (cn_server_kem_pk c)
    (cn_last_recv c) (cn_last_send c) (cn_ticket_key c) (cn_peer_static_pubkey c) (cn_tar c)
    (cn_migration_enabled c) (cn_migration_sockets c).
Definition set_cn_server_identity (c : Connection) (v : option IdentityKeypair) : Connection :=
  mkConnection (cn_remote c) (cn_phase c) (cn_socket c) (cn_client_hs c) (cn_server_hs c) v
    (cn_cookie_factory c) (cn_agreed_cipher c) (cn_server_preferred_cipher c) (cn_session c)
    (cn_fec_arbiter c) (cn_fec_enc c) (cn_fec_group_id c) (cn_cc c) (cn_bbr c) (cn_rtt_est c)
    (cn_chaff c) (cn_prober c) (cn_events c) (cn_send_counter c) (cn_server_kem_pk c)
    (cn_last_recv c) (cn_last_send c) (cn_ticket_key c) (cn_peer_static_pubkey c) (cn_tar c)
    (cn_migration_enabled c) (cn_migration_sockets c).
Definition set_cn_cookie_factory (c : Connection) (v : option CookieFactory) : Connection :=
  mkConnection (cn_remote c) (cn_phase c) (cn_socket c) (cn_client_hs c) (cn_server_hs c)
    (cn_server_identity c) v (cn_agreed_cipher c) (cn_server_preferred_cipher c) (cn_session c)
    (cn_fec_arbiter c) (cn_fec_enc c) (cn_fec_group_id c) (cn_cc c) (cn_bbr c) (cn_rtt_est c)
    (cn_chaff c) (cn_prober c) (cn_events c) (cn_send_counter c) (cn_server_kem_pk c)
    (cn_last_recv c) (cn_last_send c) (cn_ticket_key c) (cn_peer_static_pubkey c) (cn_tar c)
    (cn_migration_enabled c) (cn_migration_sockets c).
Definition set_cn_agreed_cipher (c : Connection) (v : CipherSuite) : Connection :=
  mkConnection (cn_remote c) (cn_phase c) (cn_socket c) (cn_client_hs c) (cn_server_hs c)
    (cn_server_identity c) (cn_cookie_factory c) v (cn_server_preferred_cipher c) (cn_session c)
    (cn_fec_arbiter c) (cn_fec_enc c) (cn_fec_group_id c) (cn_cc c) (cn_bbr c) (cn_rtt_est c)
    (cn_chaff c) (cn_prober c) (cn_events c) (cn_send_counter c) (cn_server_kem_pk c)
    (cn_last_recv c) (cn_last_send c) (cn_ticket_key c) (cn_peer_static_pubkey c) (cn_tar c)
    (cn_migration_enabled c) (cn_migration_sockets c).
Definition set_cn_server_preferred_cipher (c : Connection) (v : CipherSuite) : Connection :=
  mkConnection (cn_remote c) (cn_phase c) (cn_socket c) (cn_client_hs c) (cn_server_hs c)
    (cn_server_identity c) (cn_cookie_factory c) (cn_agreed_cipher c) v (cn_session c)
    (cn_fec_arbiter c) (cn_fec_enc c) (cn_fec_group_id c) (cn_cc c) (cn_bbr c) (cn_rtt_est c)
    (cn_chaff c) (cn_prober c) (cn_events c) (cn_send_counter c) (cn_server_kem_pk c)
    (cn_last_recv c) (cn_last_send c) (cn_ticket_key c) (cn_peer_static_pubkey c) (cn_tar c)
    (cn_migration_enabled c) (cn_migration_sockets c).
Definition set_cn_session (c : Connection) (v : option Session) : Connection :=
  mkConnection (cn_remote c) (cn_phase c) (cn_socket c) (cn_client_hs c) (cn_server_hs c)
    (cn_server_identity c) (cn_cookie_factory c) (cn_agreed_cipher c)
    (cn_server_preferred_cipher c) v (cn_fec_arbiter c) (cn_fec_enc c) (cn_fec_group_id c)
    (cn_cc c) (cn_bbr c) (cn_rtt_est c) (cn_chaff c) (cn_prober c) (cn_events c)
    (cn_send_counter c) (cn_server_kem_pk c) (cn_last_recv c) (cn_last_send c) (cn_ticket_key c)
    (cn_peer_static_pubkey c) (cn_tar c) (cn_migration_enabled c) (cn_migration_sockets c).
Definition set_cn_fec_arbiter (c : Connection) (v : FecArbiter) : Connection :=
  mkConnection (cn_remote c) (cn_phase c) (cn_socket c) (cn_client_hs c) (cn_server_hs c)
    (cn_server_identity c) (cn_cookie_factory c) (cn_agreed_cipher c)
    (cn_server_preferred_cipher c) (cn_session c) v (cn_fec_enc c) (cn_fec_group_id c) (cn_cc c)
    (cn_bbr c) (cn_rtt_est c) (cn_chaff c) (cn_prober c) (cn_events c) (cn_send_counter c)
    (cn_server_kem_pk c) (cn_last_recv c) (cn_last_send c) (cn_ticket_key c)
    (cn_peer_static_pubkey c) (cn_tar c) (cn_migration_enabled c) (cn_migration_sockets c).
Definition set_cn_fec_enc (c : Connection) (v : option FecEncoder) : Connection :=
  mkConnection (cn_remote c) (cn_phase c) (cn_socket c) (cn_client_hs c) (cn_server_hs c)
    (cn_server_identity c) (cn_cookie_factory c) (cn_agreed_cipher c)
    (cn_server_preferred_cipher c) (cn_session c) (cn_fec_arbiter c) v (cn_fec_group_id c)
    (cn_cc c) (cn_bbr c) (cn_rtt_est c) (cn_chaff c) (cn_prober c) (cn_events c)
    (cn_send_counter c) (cn_server_kem_pk c) (cn_last_recv c) (cn_last_send c) (cn_ticket_key c)
    (cn_peer_static_pubkey c) (cn_tar c) (cn_migration_enabled c) (cn_migration_sockets c).
Definition set_cn_fec_group_id (c : Connection) (v : Z) : Connection :=
  mkConnection (cn_remote c) (cn_phase c) (cn_socket c) (cn_client_hs c) (cn_server_hs c)
    (cn_server_identity c) (cn_cookie_factory c) (cn_agreed_cipher c)
    (cn_server_preferred_cipher c) (cn_session c) (cn_fec_arbiter c) (cn_fec_enc c) v (cn_cc c)
    (cn_bbr c) (cn_rtt_est c) (cn_chaff c) (cn_prober c) (cn_events c) (cn_send_counter c)
    (cn_server_kem_pk c) (cn_last_recv c) (cn_last_send c) (cn_ticket_key c)
    (cn_peer_static_pubkey c) (cn_tar c) (cn_migration_enabled c) (cn_migration_sockets c).
Definition set_cn_cc (c : Connection) (v : T) : Connection :=
  mkConnection (cn_remote c) (cn_phase c) (cn_socket c) (cn_client_hs c) (cn_server_hs c)
    (cn_server_identity c) (cn_cookie_factory c) (cn_agreed_cipher c)
    (cn_server_preferred_cipher c) (cn_session c) (cn_fec_arbiter c) (cn_fec_enc c)
    (cn_fec_group_id c) v (cn_bbr c) (cn_rtt_est c) (cn_chaff c) (cn_prober c) (cn_events c)
    (cn_send_counter c) (cn_server_kem_pk c) (cn_last_recv c) (cn_last_send c) (cn_ticket_key c)
    (cn_peer_static_pubkey c) (cn_tar c) (cn_migration_enabled c) (cn_migration_sockets c).
Definition set_cn_bbr (c : Connection) (v : BbrController) : Connection :=
  mkConnection (cn_remote c) (cn_phase c) (cn_socket c) (cn_client_hs c) (cn_server_hs c)
    (cn_server_identity c) (cn_cookie_factory c) (cn_agreed_cipher c)
    (cn_server_preferred_cipher c) (cn_session c) (cn_fec_arbiter c) (cn_fec_enc c)
    (cn_fec_group_id c) (cn_cc c) v (cn_rtt_est c) (cn_chaff c) (cn_prober c) (cn_events c)
    (cn_send_counter c) (cn_server_kem_pk c) (cn_last_recv c) (cn_last_send c) (cn_ticket_key c)
    (cn_peer_static_pubkey c) (cn_tar c) (cn_migration_enabled c) (cn_migration_sockets c).
Definition set_cn_rtt_est (c : Connection) (v : RttEstimator) : Connection :=
  mkConnection (cn_remote c) (cn_phase c) (cn_socket c) (cn_client_hs c) (cn_server_hs c)
    (cn_server_identity c) (cn_cookie_factory c) (cn_agreed_cipher c)
    (cn_server_preferred_cipher c) (cn_session c) (cn_fec_arbiter c) (cn_fec_enc c)
    (cn_fec_group_id c) (cn_cc c) (cn_bbr c) v (cn_chaff c) (cn_prober c) (cn_events c)
    (cn_send_counter c) (cn_server_kem_pk c) (cn_last_recv c) (cn_last_send c) (cn_ticket_key c)
    (cn_peer_static_pubkey c) (cn_tar c) (cn_migration_enabled c) (cn_migration_sockets c).
Definition set_cn_chaff (c : Connection) (v : ChaffScheduler) : Connection :=
  mkConnection (cn_remote c) (cn_phase c) (cn_socket c) (cn_client_hs c) (cn_server_hs c)
    (cn_server_identity c) (cn_cookie_factory c) (cn_agreed_cipher c)
    (cn_server_preferred_cipher c) (cn_session c) (cn_fec_arbiter c) (cn_fec_enc c)
    (cn_fec_group_id c) (cn_cc c) (cn_bbr c) (cn_rtt_est c) v (cn_prober c) (cn_events c)
    (cn_send_counter c) (cn_server_kem_pk c) (cn_last_recv c) (cn_last_send c) (cn_ticket_key c)
    (cn_peer_static_pubkey c) (cn_tar c) (cn_migration_enabled c) (cn_migration_sockets c).
Definition set_cn_prober (c : Connection) (v : PathProber) : Connection :=
  mkConnection (cn_remote c) (cn_phase c) (cn_socket c) (cn_client_hs c) (cn_server_hs c)
    (cn_server_identity c) (cn_cookie_factory c) (cn_agreed_cipher c)
    (cn_server_preferred_cipher c) (cn_session c) (cn_fec_arbiter c) (cn_fec_enc c)
    (cn_fec_group_id c) (cn_cc c) (cn_bbr c) (cn_rtt_est c) (cn_chaff c) v (cn_events c)
    (cn_send_counter c) (cn_server_kem_pk c) (cn_last_recv c) (cn_last_send c) (cn_ticket_key c)
    (cn_peer_static_pubkey c) (cn_tar c) (cn_migration_enabled c) (cn_migration_sockets c).
Definition set_cn_events (c : Connection) (v : list SessionEvent) : Connection :=
  mkConnection (cn_remote c) (cn_phase c) (cn_socket c) (cn_client_hs c) (cn_server_hs c)
    (cn_server_identity c) (cn_cookie_factory c) (cn_agreed_cipher c)
    (cn_server_preferred_cipher c) (cn_session c) (cn_fec_arbiter c) (cn_fec_enc c)
    (cn_fec_group_id c) (cn_cc c) (cn_bbr c) (cn_rtt_est c) (cn_chaff c) (cn_prober c) v
    (cn_send_counter c) (cn_server_kem_pk c) (cn_last_recv c) (cn_last_send c) (cn_ticket_key c)
    (cn_peer_static_pubkey c) (cn_tar c) (cn_migration_enabled c) (cn_migration_sockets c).
Definition set_cn_send_counter (c : Connection) (v : Z) : Connection :=
  mkConnection (cn_remote c) (cn_phase c) (cn_socket c) (cn_client_hs c) (cn_server_hs c)
    (cn_server_identity c) (cn_cookie_factory c) (cn_agreed_cipher c)
    (cn_server_preferred_cipher c) (cn_session c) (cn_fec_arbiter c) (cn_fec_enc c)
    (cn_fec_group_id c) (cn_cc c) (cn_bbr c) (cn_rtt_est c) (cn_chaff c) (cn_prober c)
    (cn_events c) v (cn_server_kem_pk c) (cn_last_recv c) (cn_last_send c) (cn_ticket_key c)
    (cn_peer_static_pubkey c) (cn_tar c) (cn_migration_enabled c) (cn_migration_sockets c).
Definition set_cn_server_kem_pk (c : Connection) (v : option KemPublicKey) : Connection :=
  mkConnection (cn_remote c) (cn_phase c) (cn_socket c) (cn_client_hs c) (cn_server_hs c)
    (cn_server_identity c) (cn_cookie_factory c) (cn_agreed_cipher c)
    (cn_server_preferred_cipher c) (cn_session c) (cn_fec_arbiter c) (cn_fec_enc c)
    (cn_fec_group_id c) (cn_cc c) (cn_bbr c) (cn_rtt_est c) (cn_chaff c) (cn_prober c)
    (cn_events c) (cn_send_counter c) v (cn_last_recv c) (cn_last_send c) (cn_ticket_key c)
    (cn_peer_static_pubkey c) (cn_tar c) (cn_migration_enabled c) (cn_migration_sockets c).
Definition set_cn_last_recv (c : Connection) (v : Z) : Connection :=
  mkConnection (cn_remote c) (cn_phase c) (cn_socket c) (cn_client_hs c) (cn_server_hs c)
    (cn_server_identity c) (cn_cookie_factory c) (cn_agreed_cipher c)
    (cn_server_preferred_cipher c) (cn_session c) (cn_fec_arbiter c) (cn_fec_enc c)
    (cn_fec_group_id c) (cn_cc c) (cn_bbr c) (cn_rtt_est c) (cn_chaff c) (cn_prober c)
    (cn_events c) (cn_send_counter c) (cn_server_kem_pk c) v (cn_last_send c) (cn_ticket_key c)
    (cn_peer_static_pubkey c) (cn_tar c) (cn_migration_enabled c) (cn_migration_sockets c).
Definition set_cn_last_send (c : Connection) (v : Z) : Connection :=
  mkConnection (cn_remote c) (cn_phase c) (cn_socket c) (cn_client_hs c) (cn_server_hs c)
    (cn_server_identity c) (cn_cookie_factory c) (cn_agreed_cipher c)
    (cn_server_preferred_cipher c) (cn_session c) (cn_fec_arbiter c) (cn_fec_enc c)
    (cn_fec_group_id c) (cn_cc c) (cn_bbr c) (cn_rtt_est c) (cn_chaff c) (cn_prober c)
    (cn_events c) (cn_send_counter c) (cn_server_kem_pk c) (cn_last_recv c) v (cn_ticket_key c)
    (cn_peer_static_pubkey c) (cn_tar c) (cn_migration_enabled c) (cn_migration_sockets c).
Definition set_cn_ticket_key (c : Connection) (v : option TicketKey) : Connection :=
  mkConnection (cn_remote c) (cn_phase c) (cn_socket c) (cn_client_hs c) (cn_server_hs c)
    (cn_server_identity c) (cn_cookie_factory c) (cn_agreed_cipher c)
    (cn_server_preferred_cipher c) (cn_session c) (cn_fec_arbiter c) (cn_fec_enc c)
    (cn_fec_group_id c) (cn_cc c) (cn_bbr c) (cn_rtt_est c) (cn_chaff c) (cn_prober c)
    (cn_events c) (cn_send_counter c) (cn_server_kem_pk c) (cn_last_recv c) (cn_last_send c) v
    (cn_peer_static_pubkey c) (cn_tar c) (cn_migration_enabled c) (cn_migration_sockets c).
Definition set_cn_peer_static_pubkey (c : Connection) (v : option (list byte)) : Connection :=
  mkConnection (cn_remote c) (cn_phase c) (cn_socket c) (cn_client_hs c) (cn_server_hs c)
    (cn_server_identity c) (cn_cookie_factory c) (cn_agreed_cipher c)
    (cn_server_preferred_cipher c) (cn_session c) (cn_fec_arbiter c) (cn_fec_enc c)
    (cn_fec_group_id c) (cn_cc c) (cn_bbr c) (cn_rtt_est c) (cn_chaff c) (cn_prober c)
    (cn_events c) (cn_send_counter c) (cn_server_kem_pk c) (cn_last_recv c) (cn_last_send c)
    (cn_ticket_key c) v (cn_tar c) (cn_migration_enabled c) (cn_migration_sockets c).
Definition set_cn_tar (c : Connection) (v : TarState) : Connection :=
  mkConnection (cn_remote c) (cn_phase c) (cn_socket c) (cn_client_hs c) (cn_server_hs c)
    (cn_server_identity c) (cn_cookie_factory c) (cn_agreed_cipher c)
    (cn_server_preferred_cipher c) (cn_session c) (cn_fec_arbiter c) (cn_fec_enc c)
    (cn_fec_group_id c) (cn_cc c) (cn_bbr c) (cn_rtt_est c) (cn_chaff c) (cn_prober c)
    (cn_events c) (cn_send_counter c) (cn_server_kem_pk c) (cn_last_recv c) (cn_last_send c)
    (cn_ticket_key c) (cn_peer_static_pubkey c) v (cn_migration_enabled c)
    (cn_migration_sockets c).
Definition set_cn_migration_enabled (c : Connection) (v : bool) : Connection :=
  mkConnection (cn_remote c) (cn_phase c) (cn_socket c) (cn_client_hs c) (cn_server_hs c)
    (cn_server_identity c) (cn_cookie_factory c) (cn_agreed_cipher c)
    (cn_server_preferred_cipher c) (cn_session c) (cn_fec_arbiter c) (cn_fec_enc c)
    (cn_fec_group_id c) (cn_cc c) (cn_bbr c) (cn_rtt_est c) (cn_chaff c) (cn_prober c)
    (cn_events c) (cn_send_counter c) (cn_server_kem_pk c) (cn_last_recv c) (cn_last_send c)
    (cn_ticket_key c) (cn_peer_static_pubkey c) (cn_tar c) v (cn_migration_sockets c).
Definition set_cn_migration_sockets (c : Connection) (v : gmap Z Z) : Connection :=
  mkConnection (cn_remote c) (cn_phase c) (cn_socket c) (cn_client_hs c) (cn_server_hs c)
    (cn_server_identity c) (cn_cookie_factory c) (cn_agreed_cipher c)
    (cn_server_preferred_cipher c) (cn_session c) (cn_fec_arbiter c) (cn_fec_enc c)
    (cn_fec_group_id c) (cn_cc c) (cn_bbr c) (cn_rtt_est c) (cn_chaff c) (cn_prober c)
    (cn_events c) (cn_send_counter c) (cn_server_kem_pk c) (cn_last_recv c) (cn_last_send c)
    (cn_ticket_key c) (cn_peer_static_pubkey c) (cn_tar c) (cn_migration_enabled c) v.

(** ** The monad *)

(** The connection and the datagrams on the wire so far: (socket, bytes). *)
Definition St : Type := Connection * list (Z * list byte).

Inductive Run (A : Type) : Type :=
  | Done (a : A) (s : St)
  | Fail (e : SeamError) (s : St)
  | Panic.
Arguments Done {A}.
Arguments Fail {A}.
Arguments Panic {A}.

Definition Act (A : Type) : Type := St -> Run A.

Definition ret {A} (a : A) : Act A := fun s => Done a s.
Definition throw {A} (e : SeamError) : Act A := fun s => Fail e s.
Definition panic {A} : Act A := fun _ => Panic.
Definition bind {A B} (m : Act A) (k : A -> Act B) : Act B := fun s =>
  match m s with
  | Done a s' => k a s'
  | Fail e s' => Fail e s'
  | Panic => Panic
  end.

Declare Scope act_scope.
Delimit Scope act_scope with act.
Local Open Scope act_scope.
Notation "'do' x ':=' m 'in' k" := (bind m (fun x => k))
  (at level 10, x name, m at level 100, k at level 200) : act_scope.
Notation "m ;; k" := (bind m (fun _ => k)) : act_scope.

Definition get : Act Connection := fun s => Done s.1 s.
Definition modify (f : Connection -> Connection) : Act unit := fun s => Done tt (f s.1, s.2).
Definition lift {A} (r : Result A SeamError) : Act A :=
  match r with Ok a => ret a | Err e => throw e end.
Definition lift_panic {A} (o : option A) : Act A :=
  match o with Some a => ret a | None => panic end.
Definition when (b : bool) (m : Act unit) : Act unit := if b then m else ret tt.

Section WithEnv.
Context (env : Env).

(** [send_to(...).await.map_err(HandshakeFailed)?] on a given socket ... *)
Definition send_on (sock : Z) (bytes : list byte) : Act unit := fun s =>
  match ev_send_error env sock bytes with
  | Some e => Fail (HandshakeFailed e) s
  | None => Done tt (s.1, s.2 ++ [(sock, bytes)])
  end.

(** ... on the connection's socket ... *)
Definition send (bytes : list byte) : Act unit := do c := get in send_on (cn_socket c) bytes.

(** ... and [let _ = send_to(...)], which ignores the outcome. *)
Definition send_on_ignore (sock : Z) (bytes : list byte) : Act unit := fun s =>
  match ev_send_error env sock bytes with
  | Some _ => Done tt s
  | None => Done tt (s.1, s.2 ++ [(sock, bytes)])
  end.

(** [vec![0; 32 + len + 16]], [encode_raw], [truncate]. *)
Definition encode_raw_vec (s : Session) (t : PktType) (payload : list byte)
  : Session * Result (list byte) SeamError :=
  let '(s', out, r) := Session_encode_raw s t payload (replicate (32 + length payload + 16) x00) in
  (s', match r with Ok n => Ok (take n out) | Err e => Err e end).

Definition bump_counter (c : Connection) : Connection :=
  set_cn_send_counter c (wrapping_add 64 (cn_send_counter c) 1).

(** ** Constructors *)

Definition new_base_with_tar (socket : Z) (remote : SocketAddr) (phase : ConnPhase) (cc : T)
  (tar_config : TarConfig) : Connection :=
  mkConnection remote phase socket None None None None CipherSuite_default CipherSuite_default
    None FecArbiter_new None 0 cc (BbrController_new (ev_now env)) (RttEstimator_new (ev_now env))
    (ChaffScheduler_new (ev_now env)) (PathProber_new (ev_now env)) [] 0 None (ev_now env)
    (ev_now env) None None (TarState_new tar_config) true ∅.

Definition new_base (socket : Z) (remote : SocketAddr) (phase : ConnPhase) (cc : T) : Connection :=
  new_base_with_tar socket remote phase cc TarConfig_disabled.

(** [connect_with_tar]; [connect] is the same with TAR disabled.  The result
    carries the datagram sent. *)
Definition connect_with_tar (socket : Z) (remote : SocketAddr) (cc : T) (local : IdentityKeypair)
  (server_x25519 : list byte) (server_kem_pk : KemPublicKey) (preferred : CipherSuite)
  (tar_config : TarConfig) : Result (Connection * list (Z * list byte)) SeamError :=
  match ev_send_error env socket [PKT_COOKIE_REQ] with
  | Some e => Err (HandshakeFailed e)
  | None =>
      try client_hs := ClientHandshake_new_with_cipher (ev_hs_rnd env) local server_x25519 preferred in
      let conn := new_base_with_tar socket remote ClientWaitChallenge cc tar_config in
      Ok (set_cn_server_kem_pk (set_cn_client_hs conn (Some client_hs)) (Some server_kem_pk),
          [(socket, [PKT_COOKIE_REQ])])
  end.

Definition connect (socket : Z) (remote : SocketAddr) (cc : T) (local : IdentityKeypair)
  (server_x25519 : list byte) (server_kem_pk : KemPublicKey) (preferred : CipherSuite)
  : Result (Connection * list (Z * list byte)) SeamError :=
  connect_with_tar socket remote cc local server_x25519 server_kem_pk preferred TarConfig_disabled.

Definition accept_challenge (socket : Z) (remote : SocketAddr) (cc : T) (identity : IdentityKeypair)
  (factory : CookieFactory) (ticket_key : option TicketKey) (preferred : CipherSuite)
  : Result (Connection * list (Z * list byte)) SeamError :=
  let cookie := CookieFactory_generate factory (addr_to_string remote) (ev_unix_secs env) in
  let challenge := PKT_COOKIE_CHALLENGE :: cookie in
  match ev_send_error env socket challenge with
  | Some e => Err (HandshakeFailed e)
  | None =>
      let conn := new_base socket remote ServerWaitCookie cc in
      Ok (set_cn_server_preferred_cipher
            (set_cn_ticket_key
               (set_cn_cookie_factory (set_cn_server_identity conn (Some identity)) (Some factory))
               ticket_key) preferred, [(socket, challenge)])
  end.

(** ** Finishing the handshake *)

Definition issue_ticket (result : HandshakeResult) : Act unit :=
  do c := get in
  match cn_ticket_key c with
  | None => ret tt
  | Some tk =>
      do ticket := lift_panic (TicketKey_issue tk (hr_session_id result) (hr_keys_c2s result)
                                 (hr_keys_s2c result) (ev_unix_secs env) (ev_ticket_nonce env)) in
      match cn_session c with
      | None => ret tt
      | Some sess =>
          let '(sess', r) := encode_raw_vec sess SessionTicketPkt ticket in
          modify (fun c => set_cn_session c (Some sess')) ;;
          match r with
          | Ok out => send_on_ignore (cn_socket c) out
          | Err _ => ret tt
          end
      end
  end.

(** The state after the handshake: the session with the role's key pair, the
    peer's key, the phase, and the handshake material dropped. *)
Definition install_session (result : HandshakeResult) (c : Connection) : Connection :=
  let role := match cn_server_identity c with Some _ => Server | None => Client end in
  let '(our_tx, our_rx) := match role with
                           | Client => (hr_keys_c2s result, hr_keys_s2c result)
                           | Server => (hr_keys_s2c result, hr_keys_c2s result)
                           end in
  let enc := PacketEncoder_new our_tx (hr_session_id result) in
  let dec := PacketDecoder_new our_rx in
  let c1 := set_cn_session c (Some (Session_with_role (hr_session_id result) role enc dec)) in
  let c2 := set_cn_phase (set_cn_peer_static_pubkey c1 (Some (hr_peer_static_pubkey result)))
              Established in
  let c3 := set_cn_chaff c2 (ChaffScheduler_enable (cn_chaff c2)) in
  let c4 := set_cn_server_kem_pk (set_cn_cookie_factory (set_cn_server_identity c3 None) None) None in
  let tar_secret := blake3_hash (enc_key (hr_keys_c2s result) ++ enc_key (hr_keys_s2c result)) in
  set_cn_tar c4 (set_session_secret (cn_tar c4) tar_secret (ev_now env)).

Definition finish_handshake (result : HandshakeResult) : Act unit :=
  modify (install_session result) ;; issue_ticket result.

(** ** Handshake packets *)

(** [{:02x}] of a byte. *)
Definition hex02 (b : byte) : string := String.string_of_list_byte (hex_encode [b]).

Definition strip_error (expected got : byte) : SeamError :=
  HandshakeFailed ("expected pkt type 0x" ++ hex02 expected ++ ", got 0x" ++ hex02 got).

Definition strip_type (buf : list byte) (expected : byte) : Result (list byte) SeamError :=
  match buf with
  | b :: rest => if bytes_eqb [b] [expected] then Ok rest else Err (strip_error expected b)
  | [] => Err (strip_error expected xff)
  end.

Definition client_rx_challenge (buf : list byte) : Act unit :=
  if (length buf <? 1 + 32)%nat || negb (bytes_eqb (take 1 buf) [PKT_COOKIE_CHALLENGE])
  then throw (HandshakeFailed "expected cookie challenge") else
  let cookie := slice buf 1 33 in
  do c := get in
  do hs := lift (ok_or (cn_client_hs c) (HandshakeFailed "no client hs")) in
  do kem_pk := lift (ok_or (cn_server_kem_pk c) (HandshakeFailed "no server kem pk")) in
  let '(r, hs') := write_msg1 hs kem_pk [] in
  modify (fun c => set_cn_client_hs c (Some hs')) ;;
  do msg1 := lift r in
  let echo := [PKT_COOKIE_ECHO] ++ cookie ++ to_le 2 (wrap 16 (Z.of_nat (length msg1))) ++ msg1 in
  send echo ;;
  modify (fun c => set_cn_phase c ClientWaitMsg2).

Definition client_rx_msg2 (buf : list byte) : Act unit :=
  do payload := lift (strip_type buf PKT_HANDSHAKE_MSG) in
  do c := get in
  do hs := lift (ok_or (cn_client_hs c) (HandshakeFailed "no client hs")) in
  let '(r, hs') := read_msg2 hs payload in
  modify (fun c => set_cn_client_hs c (Some hs')) ;;
  do learned := lift r in
  modify (fun c => set_cn_client_hs c None) ;;
  do fin := lift (write_msg3_and_finish (ev_kem_rnd env) hs' learned.1 learned.2 []) in
  send ([PKT_HANDSHAKE_MSG] ++ fin.1) ;;
  finish_handshake fin.2.

Definition server_rx_cookie_echo (buf : list byte) : Act unit :=
  if (length buf <? 1 + 32 + 2)%nat || negb (bytes_eqb (take 1 buf) [PKT_COOKIE_ECHO])
  then throw (HandshakeFailed "expected cookie echo") else
  let cookie := slice buf 1 33 in
  do c := get in
  let addr_bytes := addr_to_string (cn_remote c) in
  do factory := lift (ok_or (cn_cookie_factory c) (HandshakeFailed "no cookie factory")) in
  if negb (CookieFactory_verify factory addr_bytes cookie (ev_unix_secs env))
  then throw (HandshakeFailed "invalid cookie") else
  let msg1_len := Z.to_nat (from_le (slice buf 33 35)) in
  if (length buf <? 35 + msg1_len)%nat then throw (HandshakeFailed "truncated msg1") else
  let msg1 := slice buf 35 (35 + msg1_len) in
  do identity := lift (ok_or (cn_server_identity c) (HandshakeFailed "no server identity")) in
  do server_hs := lift (ServerHandshake_new_with_cipher (ev_hs_rnd env) identity
                          (cn_server_preferred_cipher c)) in
  let '(r1, server_hs1) := read_msg1 server_hs msg1 in
  do agreed := lift r1 in
  modify (fun c => set_cn_agreed_cipher c agreed) ;;
  let '(r2, server_hs2) := write_msg2 server_hs1 (kem_pk identity) agreed [] in
  do msg2 := lift r2 in
  send ([PKT_HANDSHAKE_MSG] ++ msg2) ;;
  modify (fun c => set_cn_phase (set_cn_server_hs c (Some server_hs2)) ServerWaitMsg3).

Definition server_rx_msg3 (buf : list byte) : Act unit :=
  do payload := lift (strip_type buf PKT_HANDSHAKE_MSG) in
  do c := get in
  modify (fun c => set_cn_server_hs c None) ;;
  do hs := lift (ok_or (cn_server_hs c) (HandshakeFailed "no server hs")) in
  do identity := lift (ok_or (cn_server_identity c) (HandshakeFailed "no server identity")) in
  do result := lift (read_msg3_and_finish hs (kem_sk identity) (cn_agreed_cipher c) payload) in
  finish_handshake result.

(** ** Egress *)

(** Pad and obfuscate, as for every packet of a session. *)
Definition tar_wire (bytes : list byte) : Act (list byte) := fun s =>
  let '(padded, tar) := maybe_pad (cn_tar s.1) bytes in
  Done (maybe_obfuscate tar padded) (set_cn_tar s.1 tar, s.2).

Definition note_real_send (n : nat) : Act unit :=
  do c := get in
  do tar := lift_panic (on_real_send (cn_tar c) (Z.of_nat n) (ev_now env)) in
  modify (fun c => set_cn_tar c tar).

(** The FEC step of [flush] for one source packet, with the parameters read
    before the loop. *)
Definition fec_push (k r : Z) (bytes : list byte) : Act unit :=
  do c := get in
  let gid := cn_fec_group_id c in
  let enc0 := default (FecEncoder_new gid k r) (cn_fec_enc c) in
  let enc := if fe_group_id enc0 =? gid then enc0 else FecEncoder_new gid k r in
  do p := lift_panic (FecEncoder_push_source enc bytes) in
  modify (fun c => set_cn_fec_enc c (Some p.1)) ;;
  match p.2 with
  | None => ret tt
  | Some repairs =>
      modify (fun c => set_cn_fec_group_id c (wrapping_add 32 (cn_fec_group_id c) 1)) ;;
      fold_right (fun rep k => send_on_ignore (cn_socket c) (FecRepairData_to_bytes rep) ;; k)
        (ret tt) repairs
  end.

(** The congestion gate of [flush]. *)
Definition may_send_data (c : Connection) (size : Z) : bool :=
  negb ((cc_available (cn_cc c) <? size) || negb (bc_should_send (cn_bbr c) (bc_inflight (cn_bbr c)))).

(** [for tp in packets]: the rest of the list is dropped at the [break]. *)
Fixpoint flush_packets (fec : option (Z * Z)) (packets : list TaggedPacket) : Act unit :=
  match packets with
  | [] => ret tt
  | tp :: rest =>
      modify (fun c => set_cn_last_send c (ev_now env)) ;;
      modify (fun c => set_cn_tar c (jitter_delay (cn_tar c)).2) ;;
      do wire := tar_wire (tp_bytes tp) in
      let size := Z.of_nat (length wire) in
      if tp_is_control tp then
        send wire ;; modify bump_counter ;; flush_packets fec rest
      else
        do c := get in
        if negb (may_send_data c size) then ret tt
        else
          send wire ;;
          modify (fun c => set_cn_cc c (cc_on_send (cn_cc c) size)) ;;
          modify (fun c => set_cn_bbr c (bc_on_send (cn_bbr c) size)) ;;
          note_real_send (length wire) ;;
          modify bump_counter ;;
          match fec with
          | Some (k, r) => fec_push k r (tp_bytes tp)
          | None => ret tt
          end ;;
          flush_packets fec rest
  end.

Definition fec_params (c : Connection) : option (Z * Z) :=
  match fa_mode (cn_fec_arbiter c) with
  | HybridFecArq k r | PureFec k r => Some (k, r)
  | PureArq => None
  end.

Definition flush : Act unit :=
  do c := get in
  match cn_session c with
  | None => ret tt
  | Some sess =>
      let '(sess', r) := Session_flush sess (ev_now env) (ev_order env) in
      modify (fun c => set_cn_session c (Some sess')) ;;
      do packets := lift r in
      flush_packets (fec_params c) packets
  end.

(** ** Migration *)

Definition send_path_response (nonce : Z) : Act unit :=
  do c := get in
  match cn_session c with
  | None => ret tt
  | Some sess =>
      let '(sess', r) := encode_raw_vec sess PathResponse (to_le 8 nonce) in
      modify (fun c => set_cn_session c (Some sess')) ;;
      match r with
      | Ok out => send out
      | Err _ => ret tt
      end
  end.

Definition on_path_response (nonce : Z) (c : Connection) : Connection :=
  match cn_migration_sockets c !! nonce with
  | None => c
  | Some new_sock =>
      set_cn_prober (set_cn_migration_sockets (set_cn_socket c new_sock) ∅)
        (reset_migration_state (cn_prober c))
  end.

Fixpoint challenge_all (socks : list (option Z * Z)) : Act unit :=
  match socks with
  | [] => ret tt
  | (None, _) :: rest => challenge_all rest
  | (Some sock, nonce) :: rest =>
      do c := get in
      match cn_session c with
      | None => ret tt
      | Some sess =>
          let '(sess', r) := encode_raw_vec sess PathChallenge (to_le 8 nonce) in
          modify (fun c => set_cn_session c (Some sess')) ;;
          match r with
          | Ok out =>
              send_on_ignore sock out ;;
              modify (fun c => set_cn_migration_sockets c (<[nonce := sock]> (cn_migration_sockets c)))
          | Err _ => ret tt
          end
      end ;;
      challenge_all rest
  end.

Definition maybe_migrate : Act unit :=
  do c := get in
  if negb (cn_migration_enabled c) || bool_decide (cn_phase c <> Established) then ret tt
  else if negb (should_migrate (cn_prober c)) then ret tt
  else if negb (bool_decide (cn_migration_sockets c = ∅)) then ret tt
  else challenge_all (ev_local_socks env).

(** ** Ingress of an established connection *)

Fixpoint handle_events (evs : list SessionEvent) : Act unit :=
  match evs with
  | [] => ret tt
  | EvPathChallengeReceived nonce :: rest => send_path_response nonce ;; handle_events rest
  | EvPathResponseReceived nonce :: rest => modify (on_path_response nonce) ;; handle_events rest
  | ev :: rest => modify (fun c => set_cn_events c (cn_events c ++ [ev])) ;; handle_events rest
  end.

(** Acknowledgement feedback to both controllers. *)
Definition feed_ack (bytes rtt : Z) (c : Connection) : Connection :=
  let now := ev_now env in
  let c1 := set_cn_cc c (cc_on_ack (cn_cc c) bytes rtt now) in
  let c2 := if 0 <? rtt then set_cn_rtt_est c1 (RttEstimator_update (cn_rtt_est c1) rtt now) else c1 in
  let effective_rtt := if 0 <? rtt then rtt else re_srtt (cn_rtt_est c2) in
  set_cn_bbr c2 (bc_on_ack (cn_bbr c2) bytes effective_rtt now).

Definition drain_cc_ack (c : Connection) : Connection :=
  match cn_session c with
  | None => c
  | Some sess =>
      let '(sess', ack) := Session_drain_cc_ack sess in
      let c1 := set_cn_session c (Some sess') in
      match ack with
      | Some (bytes, rtt) => feed_ack bytes rtt c1
      | None => c1
      end
  end.

Definition on_data_packet (buf : list byte) : Act unit :=
  modify (fun c => set_cn_last_recv c (ev_now env)) ;;
  do c := get in
  do sess := lift (ok_or (cn_session c) (HandshakeFailed "no session")) in
  do rx := lift_panic (Session_receive_packet sess (ev_now env) buf) in
  modify (fun c => set_cn_session c (Some rx.1)) ;;
  do events := lift rx.2 in
  handle_events events ;;
  modify drain_cc_ack ;;
  do c := get in
  if match cn_session c with Some s => Session_has_pending_max_data s | None => false end
  then flush else ret tt.

Definition on_packet (buf : list byte) : Act unit :=
  match buf with
  | [] => ret tt
  | _ =>
      do c := get in
      match cn_phase c with
      | ClientWaitChallenge => client_rx_challenge buf
      | ClientWaitMsg2 => client_rx_msg2 buf
      | ServerWaitCookie => server_rx_cookie_echo buf
      | ServerWaitMsg3 => server_rx_msg3 buf
      | Established => on_data_packet buf
      | Draining | Closed => ret tt
      end
  end.

Definition deobfuscate_incoming (c : Connection) (buf : list byte) : list byte :=
  maybe_deobfuscate (cn_tar c) buf.

(** ** Cover traffic, chaff, probes *)

Definition maybe_send_cover : Act unit :=
  do c := get in
  if negb (should_send_cover (cn_tar c) (ev_now env)) then ret tt else
  match cn_session c with
  | None => ret tt
  | Some sess =>
      let '(payload, tar) := cover_payload (cn_tar c) in
      modify (fun c => set_cn_tar c tar) ;;
      let '(sess', r) := encode_raw_vec sess Chaff payload in
      modify (fun c => set_cn_session c (Some sess')) ;;
      match r with
      | Ok out =>
          send (maybe_obfuscate tar out) ;;
          modify (fun c => set_cn_tar c (mark_cover_sent (cn_tar c) (ev_now env))) ;;
          modify bump_counter
      | Err _ => ret tt
      end
  end.

Definition maybe_send_chaff : Act unit :=
  do c := get in
  if negb (chaff_should_send (cn_chaff c) (ev_now env)) then ret tt else
  match cn_session c with
  | None => ret tt
  | Some sess =>
      let padded := pad_to_mtu (chaff_payload (cn_send_counter c)) (path_mtu (cn_prober c)) in
      let '(sess', r) := encode_raw_vec sess Chaff padded in
      modify (fun c => set_cn_session c (Some sess')) ;;
      do out := lift r in
      send out ;;
      modify (fun c => set_cn_chaff c (chaff_mark_sent (cn_chaff c) (cn_send_counter c) (ev_now env))) ;;
      modify bump_counter
  end.

Definition maybe_send_probe : Act unit :=
  do c := get in
  if negb (should_probe (cn_prober c) (ev_now env)) then ret tt else
  let '(_, payload, prober) := build_probe (cn_prober c) (ev_now env) (ev_unix_us env) in
  modify (fun c => set_cn_prober c prober) ;;
  match cn_session c with
  | None => ret tt
  | Some sess =>
      let '(sess', r) := encode_raw_vec sess PathProbe payload in
      modify (fun c => set_cn_session c (Some sess')) ;;
      do out := lift r in
      send out
  end.

(** ** Timers *)

Fixpoint resend_all (expired : list (Z * list byte)) : Act unit :=
  match expired with
  | [] => ret tt
  | (_, data) :: rest =>
      do wire := tar_wire data in
      send wire ;;
      note_real_send (length wire) ;;
      modify bump_counter ;;
      resend_all rest
  end.

Definition retransmit_expired : Act unit :=
  do c := get in
  match cn_session c with
  | None => ret tt
  | Some sess =>
      let '(sess', expired) := Session_drain_retransmits sess (ev_now env) in
      modify (fun c => set_cn_session c (Some sess')) ;;
      when (negb (bool_decide (expired = [])))
        (modify (fun c => set_cn_cc c (cc_on_timeout (cn_cc c)))) ;;
      resend_all expired
  end.

Definition tick_fec (c : Connection) : Connection :=
  match cn_session c with
  | None => c
  | Some sess =>
      set_cn_fec_arbiter c
        (on_ack_epoch (cn_fec_arbiter c) 0 (Z.max (Z.of_nat (Session_arq_in_flight sess)) 1)
           (Session_srtt_us sess))
  end.

Definition elapsed (t : Z) : Z := duration_since (ev_now env) t.

Definition maybe_queue_ping (c : Connection) : Connection :=
  if bool_decide (cn_phase c <> Established) then c
  else if KEEPALIVE_INTERVAL <=? elapsed (cn_last_send c) then
    match cn_session c with
    | Some s => set_cn_session c (Some (Session_ping s))
    | None => c
    end
  else c.

Definition is_idle (c : Connection) : bool :=
  bool_decide (cn_phase c = Established) && (IDLE_TIMEOUT <=? elapsed (cn_last_recv c)).

Definition is_stale (c : Connection) : bool :=
  match cn_phase c with
  | Established => IDLE_TIMEOUT <=? elapsed (cn_last_recv c)
  | Draining | Closed => false
  | _ => HANDSHAKE_TIMEOUT <=? elapsed (cn_last_recv c)
  end.

End WithEnv.

Definition is_established (c : Connection) : bool := bool_decide (cn_phase c = Established).
Definition is_closed (c : Connection) : bool :=
  match cn_phase c with Closed | Draining => true | _ => false end.
Definition close (c : Connection) : Connection := set_cn_phase c Draining.
Definition set_congestion_controller (c : Connection) (cc : T) : Connection := set_cn_cc c cc.
Definition set_tar_config (c : Connection) (cfg : TarConfig) : Connection :=
  set_cn_tar c (TarState_new cfg).

End ConnectionCode.

Arguments Done {K D N T A}.
Arguments Fail {K D N T A}.
Arguments Panic {K D N T A}.

(** The monad's notations for the files that build on it. *)
Declare Scope act_scope.
Delimit Scope act_scope with act.
Notation "'do' x ':=' m 'in' k" := (bind m (fun x => k))
  (at level 10, x name, m at level 100, k at level 200) : act_scope.
Notation "m ;; k" := (bind m (fun _ => k)) : act_scope.
