(* ===== verification/ConnectionProps.v ===== *)
(** * Properties of connections

    The handshake over the wire establishes two matching sessions; the phase
    machine and its invariant; what a bad packet does in each phase; the
    congestion gate of [flush]; the timers; FEC adaptation. *)

From Stdlib Require Import ZArith Lia Bool List String.
From Stdlib Require Import Strings.Byte.
From stdpp Require Import base list numbers option gmap.
From S2P Require Import Prelude Packet Crypto TestCrypto PacketCodec Fec Float Cc Congestion.
From S2P Require Import Estimators Arbiter Datagram Arq Ack Session Delivery SessionProps Ratchet.
From S2P Require Import Resumption Cookie Stun Probe Identity Handshake Net Tar Connection.

Open Scope Z_scope.

(** ** The handshake over the wire *)

Section Establish.
Context {C : Crypto} {X : X25519} {K : Kem} {D : MlDsa} {H : PlainHash} {N : Noise} {M : Libm}.
Context {CL : CryptoLaws C} {XL : X25519Laws X} {KL : KemLaws K} {NL : NoiseLaws N X}.
Context {T : Type} {CC : CongestionControl T}.

(** Every socket operation of the call succeeds. *)
Definition quiet (env : Env) : Prop := ev_send_error env = fun _ _ => None.

Lemma send_on_quiet env sock b (s : St (T := T)) :
  quiet env -> send_on env sock b s = Done tt (s.1, s.2 ++ [(sock, b)]).
Proof. intros Hq. unfold send_on. by rewrite Hq. Qed.

Lemma send_quiet env b (s : St (T := T)) :
  quiet env -> send env b s = Done tt (s.1, s.2 ++ [(cn_socket s.1, b)]).
Proof. intros Hq. unfold send, bind, get. by rewrite send_on_quiet. Qed.

(** A non-empty packet goes to the handler of the phase. *)
Lemma on_packet_phase env buf (s : St (T := T)) :
  buf <> [] ->
  on_packet env buf s =
  match cn_phase s.1 with
  | ClientWaitChallenge => client_rx_challenge env buf
  | ClientWaitMsg2 => client_rx_msg2 env buf
  | ServerWaitCookie => server_rx_cookie_echo env buf
  | ServerWaitMsg3 => server_rx_msg3 env buf
  | Established => on_data_packet env buf
  | Draining | Closed => ret tt
  end s.
Proof. by destruct buf. Qed.

(** The cookie a server hands out is 32 bytes. *)
Lemma length_cookie f addr now : length (CookieFactory_generate f addr now) = 32%nat.
Proof. apply blake3_keyed_hash_len. Qed.

(** Client: challenge to echo. *)
Lemma client_challenge_run si sr env c hs (pk : KemPublicKey) s cookie out :
  quiet env -> length cookie = 32%nat ->
  cn_phase c = ClientWaitChallenge -> cn_client_hs c = Some hs -> cn_server_kem_pk c = Some pk ->
  noise_sync si sr 0 (ch_noise hs) (sh_noise s) ->
  exists m1 hs1 s1,
    on_packet env (PKT_COOKIE_CHALLENGE :: cookie) (c, out)
    = Done tt (set_cn_phase (set_cn_client_hs c (Some hs1)) ClientWaitMsg2,
               out ++ [(cn_socket c, [PKT_COOKIE_ECHO] ++ cookie
                                       ++ to_le 2 (Z.of_nat (length m1)) ++ m1)])
    /\ read_msg1 s m1 = (Ok (negotiate (sh_preferred_cipher s) (ch_preferred_cipher hs)), s1)
    /\ Z.of_nat (length m1) <= NOISE_MAX_MESSAGE
    /\ noise_sync si sr 1 (sh_noise s1) (ch_noise hs1).
Proof.
  intros Hq Hl Hph Hhs Hpk Hs.
  destruct (msg1_run _ _ hs s pk [] Hs) as (m1 & hs1 & s1 & Hw & Hr & Hm & Hs1).
  exists m1, hs1, s1. split; [|done].
  rewrite on_packet_phase by done. cbn [fst snd]. rewrite Hph. unfold client_rx_challenge.
  cbn [length take]. rewrite Hl. change (S 32 <? 1 + 32)%nat with false.
  rewrite bytes_eqb_refl. cbn [negb orb]. unfold bind, get, lift, ret, modify. cbn [fst snd].
  rewrite Hhs, Hpk. cbn [ok_or]. unfold app in Hw. rewrite Hw. cbn [fst snd].
  rewrite send_quiet by done. cbn [fst snd]. unfold NOISE_MAX_MESSAGE in Hm.
  rewrite wrap_small by (unfold is_u; lia).
  replace (slice (PKT_COOKIE_CHALLENGE :: cookie) 1 33) with cookie; [done|].
  symmetry. apply (slice_last [PKT_COOKIE_CHALLENGE] cookie); [done|lia].
Qed.

(** Server: echo to message 2. *)
Lemma server_echo_run si sr env c f ids s cookie m1 hs1 s1 suite out :
  quiet env -> length cookie = 32%nat -> Z.of_nat (length m1) <= NOISE_MAX_MESSAGE ->
  cn_phase c = ServerWaitCookie -> cn_cookie_factory c = Some f -> cn_server_identity c = Some ids ->
  CookieFactory_verify f (addr_to_string (cn_remote c)) cookie (ev_unix_secs env) = true ->
  ServerHandshake_new_with_cipher (ev_hs_rnd env) ids (cn_server_preferred_cipher c) = Ok s ->
  read_msg1 s m1 = (Ok suite, s1) ->
  noise_sync si sr 1 (sh_noise s1) (ch_noise hs1) ->
  exists m2 s2 hs2,
    on_packet env ([PKT_COOKIE_ECHO] ++ cookie ++ to_le 2 (Z.of_nat (length m1)) ++ m1) (c, out)
    = Done tt (set_cn_phase (set_cn_server_hs (set_cn_agreed_cipher c suite) (Some s2)) ServerWaitMsg3,
               out ++ [(cn_socket c, [PKT_HANDSHAKE_MSG] ++ m2)])
    /\ read_msg2 hs1 m2 = (Ok (kem_pk ids, suite), hs2)
    /\ noise_sync si sr 2 (ch_noise hs2) (sh_noise s2).
Proof.
  intros Hq Hl Hm Hph Hf Hid Hv Hnew Hr Hs.
  destruct (msg2_run _ _ hs1 s1 (kem_pk ids) suite [] Hs) as (m2 & s2 & hs2 & Hw & Hr2 & Hs2).
  exists m2, s2, hs2. split; [|done].
  set (pkt := [PKT_COOKIE_ECHO] ++ cookie ++ to_le 2 (Z.of_nat (length m1)) ++ m1).
  unfold NOISE_MAX_MESSAGE in Hm.
  assert (Hlen : length pkt = (35 + length m1)%nat)
    by (unfold pkt; rewrite !length_app, length_to_le, Hl; cbn [length]; lia).
  assert (E1 : slice pkt 1 33 = cookie) by (apply (slice_mid [PKT_COOKIE_ECHO]); [done|lia]).
  assert (E2 : slice pkt 33 35 = to_le 2 (Z.of_nat (length m1))).
  { unfold pkt. rewrite app_assoc. apply slice_mid; [rewrite length_app, Hl; done|by rewrite length_to_le]. }
  assert (E3 : slice pkt 35 (35 + length m1) = m1).
  { unfold pkt. rewrite !app_assoc. apply slice_last; [|lia].
    rewrite !length_app, length_to_le, Hl. done. }
  assert (Ehd : exists tl, pkt = PKT_COOKIE_ECHO :: tl) by (by eexists).
  destruct Ehd as [tl Ehd]. rewrite on_packet_phase by (by rewrite Ehd). cbn [fst snd].
  rewrite Hph. unfold server_rx_cookie_echo. rewrite Hlen.
  replace (35 + length m1 <? 1 + 32 + 2)%nat with false by (symmetry; apply Nat.ltb_ge; lia).
  replace (take 1 pkt) with [PKT_COOKIE_ECHO] by (by rewrite Ehd).
  rewrite bytes_eqb_refl. cbn [negb orb]. unfold bind, get, lift, ret, modify. cbn [fst snd].
  rewrite Hf. cbn [ok_or]. rewrite E1, Hv. cbn [negb]. rewrite E2.
  rewrite from_le_to_le_small by (unfold is_u; lia). rewrite Nat2Z.id.
  rewrite Nat.ltb_irrefl, E3, Hid. cbn [ok_or]. rewrite Hnew, Hr. cbn [fst snd].
  unfold app in Hw. rewrite Hw. cbn [fst snd]. rewrite send_quiet by done. done.
Qed.

(** Client: message 2 to message 3, and the client's session. *)
Lemma client_msg2_run si sr env c hs1 hs2 s2 sk suite m2 out :
  length si = 32%nat -> length sr = 32%nat -> quiet env ->
  cn_phase c = ClientWaitMsg2 -> cn_client_hs c = Some hs1 ->
  cn_server_identity c = None -> cn_ticket_key c = None ->
  read_msg2 hs1 m2 = (Ok (kem_public sk, suite), hs2) ->
  noise_sync si sr 2 (ch_noise hs2) (sh_noise s2) ->
  exists m3 rc rs c',
    on_packet env ([PKT_HANDSHAKE_MSG] ++ m2) (c, out)
    = Done tt (c', out ++ [(cn_socket c, [PKT_HANDSHAKE_MSG] ++ m3)])
    /\ read_msg3_and_finish s2 sk suite m3 = Ok rs
    /\ results_agree rc rs /\ result_wf suite rc
    /\ hr_peer_static_pubkey rc = x25519_public sr /\ hr_peer_static_pubkey rs = x25519_public si
    /\ c' = install_session env rc (set_cn_client_hs (set_cn_client_hs c (Some hs2)) None).
Proof.
  intros Hi Hr Hq Hph Hhs Hid Htk Hrd Hs.
  destruct (msg3_run _ _ hs2 s2 sk suite (ev_kem_rnd env) [] Hi Hr Hs)
    as (m3 & rc & rs & Hw3 & Hr3 & Hag & Hwf & Hpc & Hps).
  exists m3, rc, rs. eexists. split; [|repeat (split; [done|]); reflexivity].
  rewrite on_packet_phase by done. cbn [app fst snd]. rewrite Hph. unfold client_rx_msg2, strip_type.
  rewrite bytes_eqb_refl. unfold bind, get, lift, ret, modify. cbn [fst snd].
  rewrite Hhs. cbn [ok_or]. rewrite Hrd. cbn [fst snd]. rewrite Hw3. cbn [fst snd].
  rewrite send_quiet by done. unfold finish_handshake, issue_ticket, bind, modify, get, ret.
  cbn [fst snd app].
  unfold install_session. destruct c.
  cbn in Hid, Htk. subst. reflexivity.
Qed.

(** C11: The whole connection handshake over a network that loses nothing: the
    server's cookie challenge, the client's echo with message 1, message 2 and
    message 3 take a connecting client and an accepting server to Established,
    whatever their cipher preferences and as long as the echo arrives in the
    cookie's time bucket or the next.  The two ends then hold the client and
    the server session of one session identifier, each encrypting with the
    keys the other decrypts with, under the negotiated suite, and each knows
    the other's static key. *)
Theorem connection_establishes env_c0 env_s0 env_c1 env_s1 env_c2 env_s2
    sock_c sock_s addr_c addr_s (cc_c cc_s : T) idc ids pin f pc ps tar c0 out0 s0 chal :
  quiet env_c1 -> quiet env_s1 -> quiet env_c2 -> quiet env_s2 ->
  length (x25519_secret idc) = 32%nat -> length (x25519_secret ids) = 32%nat ->
  kem_pk ids = kem_public (kem_sk ids) ->
  connect_with_tar env_c0 sock_c addr_s cc_c idc pin (kem_pk ids) pc tar = Ok (c0, out0) ->
  accept_challenge env_s0 sock_s addr_c cc_s ids f None ps = Ok (s0, [(sock_s, chal)]) ->
  (CookieFactory_bucket f (ev_unix_secs env_s1) = CookieFactory_bucket f (ev_unix_secs env_s0)
   \/ 0 < CookieFactory_bucket f (ev_unix_secs env_s1)
      /\ CookieFactory_bucket f (ev_unix_secs env_s1)
         = CookieFactory_bucket f (ev_unix_secs env_s0) + 1) ->
  exists echo msg2 msg3 c1 c2 s1 s2 sid kc ks,
    on_packet env_c1 chal (c0, []) = Done tt (c1, [(sock_c, echo)])
    /\ on_packet env_s1 echo (s0, []) = Done tt (s1, [(sock_s, msg2)])
    /\ on_packet env_c2 msg2 (c1, []) = Done tt (c2, [(sock_c, msg3)])
    /\ on_packet env_s2 msg3 (s1, []) = Done tt (s2, [])
    /\ cn_phase c2 = Established /\ cn_phase s2 = Established
    /\ cn_session c2 = Some (Delivery.client sid kc ks)
    /\ cn_session s2 = Some (Delivery.server sid kc ks)
    /\ is_u 64 sid /\ keys_wf kc /\ keys_wf ks
    /\ cipher_suite kc = negotiate ps pc /\ cipher_suite ks = negotiate ps pc
    /\ cn_peer_static_pubkey c2 = Some (x25519_public (x25519_secret ids))
    /\ cn_peer_static_pubkey s2 = Some (x25519_public (x25519_secret idc)).
Proof.
  intros Hq1 Hq2 Hq3 Hq4 Hlc Hls Hkem Hconn Hacc Hb.
  unfold connect_with_tar in Hconn. destruct (ev_send_error env_c0 _ _); [done|].
  unfold ClientHandshake_new_with_cipher in Hconn.
  destruct (build_initiator _ _ _) as [ni|] eqn:Ei; [|done]. injection Hconn as <- <-.
  unfold accept_challenge in Hacc. destruct (ev_send_error env_s0 _ _); [done|].
  injection Hacc as <- <-.
  destruct (noise_responder_ok (ev_hs_rnd env_s1) _ Hls) as [nr Er].
  pose proof (noise_build_sync _ _ _ _ _ _ _ Hlc Hls Ei Er) as H0.
  set (cookie := CookieFactory_generate f (addr_to_string addr_c) (ev_unix_secs env_s0)).
  pose proof (length_cookie f (addr_to_string addr_c) (ev_unix_secs env_s0)) as Hck. fold cookie in Hck.
  set (c0 := set_cn_server_kem_pk _ _). set (s0 := set_cn_server_preferred_cipher _ _).
  destruct (client_challenge_run (x25519_secret idc) (x25519_secret ids) env_c1 c0 (mkClientHandshake ni pc) (kem_pk ids)
              (mkServerHandshake nr ps) cookie [] Hq1 Hck eq_refl eq_refl eq_refl H0)
    as (m1 & hs1 & sh1 & Hp1 & Hr1 & Hm1 & H1).
  cbn [sh_preferred_cipher ch_preferred_cipher] in Hr1.
  destruct (server_echo_run (x25519_secret idc) (x25519_secret ids) env_s1 s0 f ids (mkServerHandshake nr ps) cookie m1 hs1 sh1
              (negotiate ps pc) [] Hq2 Hck Hm1 eq_refl eq_refl eq_refl) as (m2 & sh2 & hs2 & Hp2 & Hr2 & H2).
  { apply verify_iff. cbv zeta. unfold cookie, CookieFactory_generate. cbn [s0 cn_remote
      set_cn_server_preferred_cipher set_cn_ticket_key set_cn_cookie_factory set_cn_server_identity
      new_base new_base_with_tar].
    destruct Hb as [->|[Hpos Heq]]; [by left|]. right. left. rewrite Heq in *. split; [lia|].
    f_equal. lia. }
  { unfold ServerHandshake_new_with_cipher. by rewrite Er. }
  { exact Hr1. }
  { exact H1. }
  rewrite Hkem in Hr2.
  set (c1 := set_cn_phase (set_cn_client_hs c0 (Some hs1)) ClientWaitMsg2) in *.
  set (s1 := set_cn_phase _ ServerWaitMsg3) in Hp2.
  destruct (client_msg2_run (x25519_secret idc) (x25519_secret ids) env_c2 c1 hs1 hs2 sh2 (kem_sk ids) (negotiate ps pc) m2 []
              Hlc Hls Hq3 eq_refl eq_refl eq_refl eq_refl Hr2 H2)
    as (m3 & rc & rs & c2 & Hp3 & Hr3 & Hag & Hwf & Hpc & Hps & Ec2).
  destruct Hag as (A1 & A2 & A3 & A4 & A5). destruct Hwf as (W1 & W2 & W3 & W4 & W5 & W6).
  exists ([PKT_COOKIE_ECHO] ++ cookie ++ to_le 2 (Z.of_nat (length m1)) ++ m1).
  exists ([PKT_HANDSHAKE_MSG] ++ m2), ([PKT_HANDSHAKE_MSG] ++ m3), c1, c2, s1.
  exists (install_session env_s2 rs (set_cn_server_hs s1 None)).
  exists (hr_session_id rc), (hr_keys_c2s rc), (hr_keys_s2c rc).
  split; [exact Hp1|]. split; [exact Hp2|]. split; [exact Hp3|]. split.
  { rewrite on_packet_phase by done. cbn [app fst snd].
    change (cn_phase s1) with ServerWaitMsg3. cbv iota beta. unfold server_rx_msg3, strip_type.
    rewrite bytes_eqb_refl. unfold bind, get, lift, ret, modify. cbn [fst snd].
    change (cn_server_hs s1) with (Some sh2). change (cn_server_identity s1) with (Some ids).
    change (cn_agreed_cipher s1) with (negotiate ps pc). cbn [ok_or]. rewrite Hr3.
    unfold finish_handshake, issue_ticket, bind, modify, get, ret. cbn [fst snd].
    reflexivity. }
  rewrite Ec2. repeat (split; [try done|]); try done.
  - cbn. by rewrite A1, A2, A3.
  - cbn. by rewrite Hpc.
  - cbn. by rewrite Hps.
Qed.

End Establish.

(** ** What handlers keep

    [keeps P m]: if [P] holds of the connection before [m], it holds after,
    whether [m] succeeds or fails. *)

Section Keeps.
Context {C : Crypto} {X : X25519} {K : Kem} {D : MlDsa} {H : PlainHash} {N : Noise} {M : Libm}.
Context {T : Type} {CC : CongestionControl T}.

Definition after {A} (P : Connection (T := T) -> Prop) (r : Run A) : Prop :=
  match r with
  | Done _ s | Fail _ s => P s.1
  | Panic => True
  end.

Definition keeps {A} (P : Connection (T := T) -> Prop) (m : Act A) : Prop :=
  forall s, P s.1 -> after P (m s).

Lemma keeps_ret {A} P (a : A) : keeps P (ret a).
Proof. by intros s. Qed.

Lemma keeps_lift {A} P (r : Result A SeamError) : keeps P (lift r).
Proof. by destruct r; intros s. Qed.

Lemma keeps_lift_panic {A} P (o : option A) : keeps P (lift_panic o).
Proof. by destruct o; intros s. Qed.

Lemma keeps_throw {A} P e : keeps P (throw (A := A) e).
Proof. by intros s. Qed.

Lemma keeps_bind {A B} P (m : Act A) (k : A -> Act B) :
  keeps P m -> (forall a, keeps P (k a)) -> keeps P (bind m k).
Proof.
  intros Hm Hk s Hs. unfold bind. specialize (Hm s Hs). destruct (m s) as [a s'|e s'|]; [|done..].
  by apply Hk.
Qed.

(** [get] hands its continuation the current connection. *)
Lemma keeps_get {B} P (k : Connection -> Act B) :
  (forall c, P c -> forall out, after P (k c (c, out))) -> keeps P (bind get k).
Proof. intros Hk [c out] Hs. by apply Hk. Qed.

Lemma keeps_modify P f : (forall c, P c -> P (f c)) -> keeps P (modify (T := T) f).
Proof. intros Hf s Hs. by apply Hf. Qed.

Lemma keeps_send_on P env sock b : keeps P (send_on (T := T) env sock b).
Proof. intros s Hs. unfold send_on. by case_match. Qed.

Lemma keeps_send_on_ignore P env sock b : keeps P (send_on_ignore (T := T) env sock b).
Proof. intros s Hs. unfold send_on_ignore. by case_match. Qed.

Lemma keeps_send P env b : keeps P (send (T := T) env b).
Proof. intros s Hs. unfold send, bind, get. by apply keeps_send_on. Qed.

Lemma keeps_at {A} P (m : Act A) c out : keeps P m -> P c -> after P (m (c, out)).
Proof. intros Hm Hc. by apply (Hm (c, out)). Qed.

End Keeps.

(** Walk through a handler, leaving what its state updates must preserve. *)
Create HintDb keeps.
#[export] Hint Resolve keeps_ret keeps_lift keeps_lift_panic keeps_throw keeps_send_on
  keeps_send_on_ignore keeps_send : keeps.

Ltac keeps_step :=
  first
    [ lazymatch goal with |- keeps _ _ => fail | |- forall _, _ => intros end
    | solve [eauto with keeps]
    | lazymatch goal with
      | |- keeps _ (bind get _) => apply keeps_get; intros; apply keeps_at; [|assumption]
      | |- keeps _ (bind _ _) => apply keeps_bind
      | |- keeps _ (modify _) => apply keeps_modify; intros
      | |- keeps _ (match ?x with _ => _ end) => destruct x
      | |- keeps _ (if ?x then _ else _) => destruct x
      | |- keeps _ (let '_ := ?x in _) => destruct x
      end ].
Ltac keeps_tac := repeat keeps_step.

Section Phases.
Context {C : Crypto} {X : X25519} {K : Kem} {D : MlDsa} {H : PlainHash} {N : Noise} {M : Libm}.
Context {T : Type} {CC : CongestionControl T}.
Implicit Types P : Connection (T := T) -> Prop.

(** A predicate the record updates of the data path do not touch. *)
Definition data_frame (P : Connection (T := T) -> Prop) : Prop :=
  (forall c v, P c -> P (set_cn_session c (Some v))) /\ (forall c v, P c -> P (set_cn_tar c v))
  /\ (forall c v, P c -> P (set_cn_last_send c v)) /\ (forall c v, P c -> P (set_cn_fec_enc c v))
  /\ (forall c v, P c -> P (set_cn_fec_group_id c v)) /\ (forall c v, P c -> P (set_cn_cc c v))
  /\ (forall c, P c -> P (bump_counter c))
  /\ (forall c n, P c -> 0 <= n -> P (set_cn_bbr c (bc_on_send (cn_bbr c) n))).

Lemma tar_wire_keeps P b : (forall c v, P c -> P (set_cn_tar c v)) -> keeps P (tar_wire (T := T) b).
Proof. intros Ht s Hs. unfold tar_wire. destruct (maybe_pad _ _). cbn. by apply Ht. Qed.

Lemma flush_packets_keeps env P fec ps : data_frame P -> keeps P (flush_packets env fec ps).
Proof.
  intros (F1 & F2 & F3 & F4 & F5 & F6 & F7 & F8).
  assert (Hfec : forall k r b, keeps P (fec_push env k r b)).
  { intros k r b. unfold fec_push. keeps_tac; auto.
    match goal with |- keeps _ (fold_right _ _ ?l) => generalize l; intros l' end.
    induction l' as [|rep l' IHl]; cbn [fold_right]; keeps_tac. }
  assert (Hreal : forall n, keeps P (note_real_send env n)).
  { intros n. unfold note_real_send. keeps_tac; auto. }
  induction ps as [|tp ps IH]; cbn [flush_packets]; [keeps_tac|].
  apply keeps_bind; [apply keeps_modify; auto|]. intros _.
  apply keeps_bind; [apply keeps_modify; auto|]. intros _.
  apply keeps_bind; [by apply tar_wire_keeps|]. intros wire.
  destruct (tp_is_control tp).
  - apply keeps_bind; [auto with keeps|]. intros _.
    apply keeps_bind; [apply keeps_modify; auto|]. intros _. exact IH.
  - apply keeps_get. intros c Hc out. apply keeps_at; [|done].
    destruct (negb _); [auto with keeps|].
    apply keeps_bind; [auto with keeps|]. intros _.
    apply keeps_bind; [apply keeps_modify; auto|]. intros _.
    apply keeps_bind; [apply keeps_modify; intros; apply F8; [done|lia]|]. intros _.
    apply keeps_bind; [apply Hreal|]. intros _.
    apply keeps_bind; [apply keeps_modify; auto|]. intros _.
    apply keeps_bind; [destruct fec as [[k r]|]; [apply Hfec|auto with keeps]|]. intros _. exact IH.
Qed.

Lemma flush_keeps env P : data_frame P -> keeps P (flush env).
Proof.
  intros HP. unfold flush. apply keeps_get. intros c Hc out.
  destruct (cn_session c) as [sess|]; [|done].
  destruct (Session_flush _ _ _) as [sess' r]. apply keeps_at; [|done].
  apply keeps_bind; [apply keeps_modify; intros; by apply HP|]. intros _.
  apply keeps_bind; [auto with keeps|]. intros ps. by apply flush_packets_keeps.
Qed.

(** *** The other handlers of an established connection *)

(** What the receive path may also change. *)
Definition rx_frame (P : Connection (T := T) -> Prop) : Prop :=
  data_frame P
  /\ (forall c v, P c -> P (set_cn_events c v)) /\ (forall c v, P c -> P (set_cn_rtt_est c v))
  /\ (forall c v, P c -> P (set_cn_bbr c v)) /\ (forall c v, P c -> P (set_cn_socket c v))
  /\ (forall c v, P c -> P (set_cn_prober c v)) /\ (forall c v, P c -> P (set_cn_migration_sockets c v))
  /\ (forall c v, P c -> P (set_cn_chaff c v)).

Lemma send_path_response_keeps env P nonce :
  (forall c v, P c -> P (set_cn_session c (Some v))) -> keeps P (send_path_response env nonce).
Proof. intros Hs. unfold send_path_response. keeps_tac; auto. Qed.

Lemma handle_events_keeps env P evs : rx_frame P -> keeps P (handle_events env evs).
Proof.
  intros ((F1 & _) & F2 & _ & _ & F3 & F4 & F5 & _).
  induction evs as [|ev evs IH]; cbn [handle_events]; [keeps_tac|].
  destruct ev; try solve [apply keeps_bind; [apply keeps_modify; auto|done]].
  - apply keeps_bind; [by apply send_path_response_keeps|done].
  - apply keeps_bind; [|done]. apply keeps_modify. intros c Hc. unfold on_path_response.
    case_match; auto.
Qed.

Lemma drain_cc_ack_keeps env P c : rx_frame P -> P c -> P (drain_cc_ack env c).
Proof.
  intros ((F1 & _ & _ & _ & _ & F6 & _) & _ & F3 & F4 & _) Hc. unfold drain_cc_ack.
  destruct (cn_session c) as [sess|]; [|done]. destruct (Session_drain_cc_ack sess) as [s' [[b r]|]]; [|auto].
  unfold feed_ack. apply F4. destruct (0 <? r); auto.
Qed.

Lemma on_data_packet_keeps env P buf :
  rx_frame P -> (forall c, P c -> P (set_cn_last_recv c (ev_now env))) -> keeps P (on_data_packet env buf).
Proof.
  intros HP F2. pose proof HP as ((F1 & _) & _). unfold on_data_packet.
  apply keeps_bind; [apply keeps_modify; auto|]. intros _. apply keeps_get. intros c Hc out.
  apply keeps_at; [|done]. apply keeps_bind; [auto with keeps|]. intros sess.
  apply keeps_bind; [auto with keeps|]. intros rx. apply keeps_bind; [apply keeps_modify; auto|]. intros _.
  apply keeps_bind; [auto with keeps|]. intros evs. apply keeps_bind; [by apply handle_events_keeps|].
  intros _. apply keeps_bind; [apply keeps_modify; intros; by apply drain_cc_ack_keeps|]. intros _.
  apply keeps_get. intros c' Hc' out'. apply keeps_at; [|done].
  destruct (match cn_session c' with Some _ => _ | None => _ end); [|auto with keeps].
  apply flush_keeps, HP.
Qed.

Lemma maybe_send_cover_keeps env P : rx_frame P -> keeps P (maybe_send_cover env).
Proof.
  intros ((F1 & F2 & F3 & F4 & F5 & F6 & F7 & F8) & _). unfold maybe_send_cover. keeps_tac; auto.
Qed.

Lemma maybe_send_chaff_keeps env P : rx_frame P -> keeps P (maybe_send_chaff env).
Proof.
  intros ((F1 & F2 & F3 & F4 & F5 & F6 & F7 & F8) & _ & _ & _ & _ & _ & _ & F9).
  unfold maybe_send_chaff. keeps_tac; auto.
Qed.

Lemma maybe_send_probe_keeps env P : rx_frame P -> keeps P (maybe_send_probe env).
Proof.
  intros ((F1 & _) & _ & _ & _ & _ & F4 & _). unfold maybe_send_probe. keeps_tac; auto.
Qed.

Lemma challenge_all_keeps env P socks : rx_frame P -> keeps P (challenge_all env socks).
Proof.
  intros ((F1 & _) & _ & _ & _ & _ & _ & F5 & _).
  induction socks as [|[[sock|] nonce] socks IH]; cbn [challenge_all]; [keeps_tac| |exact IH].
  keeps_tac; auto.
Qed.

Lemma maybe_migrate_keeps env P : rx_frame P -> keeps P (maybe_migrate env).
Proof. intros HP. unfold maybe_migrate. keeps_tac; by apply challenge_all_keeps. Qed.

Lemma resend_all_keeps env P ex : data_frame P -> keeps P (resend_all env ex).
Proof.
  intros (F1 & F2 & F3 & F4 & F5 & F6 & F7 & F8). induction ex as [|[n d] ex IH]; cbn [resend_all].
  { keeps_tac. }
  apply keeps_bind; [by apply tar_wire_keeps|]. intros wire. apply keeps_bind; [auto with keeps|]. intros _.
  apply keeps_bind; [unfold note_real_send; keeps_tac; auto|]. intros _.
  apply keeps_bind; [apply keeps_modify; auto|]. done.
Qed.

Lemma retransmit_expired_keeps env P : data_frame P -> keeps P (retransmit_expired env).
Proof.
  intros HP. pose proof HP as (F1 & F2 & F3 & F4 & F5 & F6 & F7 & F8). unfold retransmit_expired.
  apply keeps_get. intros c Hc out. destruct (cn_session c); [|by apply keeps_at; [apply keeps_ret|]].
  destruct (Session_drain_retransmits _ _). apply keeps_at; [|done].
  apply keeps_bind; [apply keeps_modify; auto|]. intros _.
  apply keeps_bind; [unfold when; keeps_tac; auto|]. intros _. by apply resend_all_keeps.
Qed.

End Phases.

(** ** The phase machine *)

(** Everything the endpoint, its loops and the application do to a connection. *)
Inductive ConnOp {C : Crypto} {T : Type} : Type :=
  | OpPacket (buf : list byte) | OpFlush | OpCover | OpChaff | OpProbe | OpMigrate | OpRetransmit
  | OpTickFec | OpPing | OpClose | OpSetCc (cc : T) | OpSetTar (cfg : TarConfig)
  | OpEnableMigration (b : bool) | OpSession (f : Session -> Session).

Inductive phase_next : ConnPhase -> ConnPhase -> Prop :=
  | next_challenged : phase_next ClientWaitChallenge ClientWaitMsg2
  | next_client_done : phase_next ClientWaitMsg2 Established
  | next_echoed : phase_next ServerWaitCookie ServerWaitMsg3
  | next_server_done : phase_next ServerWaitMsg3 Established
  | next_closed ph : phase_next ph Draining.

Section Machine.
Context {C : Crypto} {X : X25519} {K : Kem} {D : MlDsa} {H : PlainHash} {N : Noise} {M : Libm}.
Context {T : Type} {CC : CongestionControl T}.
Implicit Types c : Connection (T := T).

Definition run_op (env : Env) (op : ConnOp (T := T)) : Act unit :=
  match op with
  | OpPacket buf => on_packet env buf
  | OpFlush => flush env
  | OpCover => maybe_send_cover env
  | OpChaff => maybe_send_chaff env
  | OpProbe => maybe_send_probe env
  | OpMigrate => maybe_migrate env
  | OpRetransmit => retransmit_expired env
  | OpTickFec => modify tick_fec
  | OpPing => modify (maybe_queue_ping env)
  | OpClose => modify close
  | OpSetCc cc => modify (fun c => set_congestion_controller c cc)
  | OpSetTar cfg => modify (fun c => set_tar_config c cfg)
  | OpEnableMigration b => modify (fun c => set_cn_migration_enabled c b)
  | OpSession f =>
      modify (fun c => match cn_session c with
                       | Some s => set_cn_session c (Some (f s))
                       | None => c
                       end)
  end.

(** One operation, whether it returns [Ok] or an error. *)
Inductive conn_step c c' : Prop :=
  | step_done env op out s : run_op env op (c, out) = Done tt s -> s.1 = c' -> conn_step c c'
  | step_fail env op out e s : run_op env op (c, out) = Fail e s -> s.1 = c' -> conn_step c c'.

(** What the phase says of the rest of the state. *)
Definition waiting (ph : ConnPhase) (server : bool) c : Prop :=
  cn_phase c = ph /\ cn_session c = None /\ cn_peer_static_pubkey c = None
  /\ (cn_server_identity c = None <-> server = false).

Definition live c : Prop :=
  cn_phase c = Established /\ cn_session c <> None /\ cn_peer_static_pubkey c <> None
  /\ cn_server_identity c = None /\ cn_cookie_factory c = None /\ cn_server_kem_pk c = None.

Definition phase_inv c : Prop :=
  match cn_phase c with
  | ClientWaitChallenge => waiting ClientWaitChallenge false c
  | ClientWaitMsg2 => waiting ClientWaitMsg2 false c
  | ServerWaitCookie => waiting ServerWaitCookie true c
  | ServerWaitMsg3 => waiting ServerWaitMsg3 true c
  | Established => live c
  | Draining => True
  | Closed => False
  end.

Definition moves {A} (P Q : Connection (T := T) -> Prop) (m : Act A) : Prop :=
  forall s, P s.1 -> after Q (m s).

Lemma moves_bind {A B} (P Q : Connection -> Prop) (m : Act A) (k : A -> Act B) :
  keeps P m -> (forall c, P c -> Q c) -> (forall a, moves P Q (k a)) -> moves P Q (bind m k).
Proof.
  intros Hm HPQ Hk s Hs. unfold bind. specialize (Hm s Hs). destruct (m s) as [a s'|e s'|]; [|by apply HPQ|done].
  by apply Hk.
Qed.

Lemma moves_keeps {A} (P Q : Connection -> Prop) (m : Act A) :
  keeps P m -> (forall c, P c -> Q c) -> moves P Q m.
Proof. intros Hm HPQ s Hs. specialize (Hm s Hs). destruct (m s); cbn in *; auto. Qed.

Lemma moves_get {B} (P Q : Connection -> Prop) (k : Connection -> Act B) :
  (forall c, P c -> moves P Q (k c)) -> moves P Q (bind get k).
Proof. intros Hk [c out] Hs. by apply (Hk c Hs). Qed.

Lemma moves_modify (P Q : Connection -> Prop) f : (forall c, P c -> Q (f c)) -> moves P Q (modify f).
Proof. intros Hf s Hs. by apply Hf. Qed.

Lemma keeps_same {A} (P : Connection -> Prop) (m : Act A) : moves P P m -> keeps P m.
Proof. done. Qed.

Lemma live_frame : rx_frame live.
Proof. unfold rx_frame, data_frame. repeat split; cbn; try done; by destruct H0 as (?&?&?&?&?&?). Qed.

(** Without a session the timers and the sender do nothing to the phase. *)
Lemma draining_frame : rx_frame (fun c => cn_phase c = Draining).
Proof. by unfold rx_frame, data_frame. Qed.

Lemma moves_then {A B} (P R Q : Connection -> Prop) (m : Act A) (k : A -> Act B) :
  moves P R m -> (forall c, R c -> Q c) -> (forall a, moves R Q (k a)) -> moves P Q (bind m k).
Proof.
  intros Hm HRQ Hk s Hs. unfold bind. specialize (Hm s Hs). destruct (m s) as [a s'|e s'|]; [|by apply HRQ|done].
  by apply Hk.
Qed.

Lemma issue_ticket_keeps env (P : Connection -> Prop) r :
  (forall c v, P c -> P (set_cn_session c (Some v))) -> keeps P (issue_ticket env r).
Proof. intros Hs. unfold issue_ticket. keeps_tac; auto. Qed.

Lemma install_session_live env ph b r c : waiting ph b c -> live (install_session env r c).
Proof.
  intros _. unfold install_session. destruct (match cn_server_identity c with Some _ => _ | None => _ end);
    repeat split; done.
Qed.

Lemma finish_handshake_moves env ph b r : moves (waiting ph b) live (finish_handshake env r).
Proof.
  unfold finish_handshake. eapply moves_then with (R := live).
  - apply moves_modify. intros c. apply install_session_live.
  - done.
  - intros _. apply (issue_ticket_keeps env live). intros c v Hc.
    by apply (proj1 (proj1 live_frame)).
Qed.

(** One packet in a handshake phase leads nowhere but to the next phase. *)
Definition either (P Q : Connection (T := T) -> Prop) c : Prop := P c \/ Q c.

Lemma client_rx_challenge_moves env buf :
  moves (waiting ClientWaitChallenge false)
    (either (waiting ClientWaitChallenge false) (waiting ClientWaitMsg2 false))
    (client_rx_challenge env buf).
Proof.
  set (P := waiting _ _). assert (HP : forall c v, P c -> P (set_cn_client_hs c v)) by done.
  assert (L : forall c, P c -> either P (waiting ClientWaitMsg2 false) c) by (by left).
  unfold client_rx_challenge. destruct (_ || _); [by apply moves_keeps; [auto with keeps|]|].
  apply moves_get. intros c Hc. apply moves_bind; [auto with keeps|done|]. intros hs.
  apply moves_bind; [auto with keeps|done|]. intros pk. destruct (write_msg1 _ _ _) as [r hs'].
  apply moves_bind; [apply keeps_modify; auto|done|]. intros _.
  apply moves_bind; [auto with keeps|done|]. intros m1.
  apply moves_bind; [auto with keeps|done|]. intros _.
  apply moves_modify. intros c' (H1 & H2 & H3 & H4). right. by split.
Qed.

Lemma client_rx_msg2_moves env buf :
  moves (waiting ClientWaitMsg2 false) (either (waiting ClientWaitMsg2 false) live)
    (client_rx_msg2 env buf).
Proof.
  set (P := waiting _ _). assert (HP : forall c v, P c -> P (set_cn_client_hs c v)) by done.
  assert (L : forall c, P c -> either P live c) by (by left).
  unfold client_rx_msg2. apply moves_bind; [auto with keeps|done|]. intros payload.
  apply moves_get. intros c Hc. apply moves_bind; [auto with keeps|done|]. intros hs.
  destruct (read_msg2 _ _) as [r hs']. apply moves_bind; [apply keeps_modify; auto|done|]. intros _.
  apply moves_bind; [auto with keeps|done|]. intros l.
  apply moves_bind; [apply keeps_modify; auto|done|]. intros _.
  apply moves_bind; [auto with keeps|done|]. intros fin.
  apply moves_bind; [auto with keeps|done|]. intros _.
  intros s Hs. specialize (finish_handshake_moves env ClientWaitMsg2 false fin.2 s Hs).
  destruct (finish_handshake _ _ _); cbn; intros; [by right..|done].
Qed.

Lemma server_rx_cookie_echo_moves env buf :
  moves (waiting ServerWaitCookie true)
    (either (waiting ServerWaitCookie true) (waiting ServerWaitMsg3 true))
    (server_rx_cookie_echo env buf).
Proof.
  set (P := waiting _ _). assert (HP : forall c v, P c -> P (set_cn_agreed_cipher c v)) by done.
  assert (L : forall c, P c -> either P (waiting ServerWaitMsg3 true) c) by (by left).
  unfold server_rx_cookie_echo. destruct (_ || _); [by apply moves_keeps; [auto with keeps|]|].
  apply moves_get. intros c Hc. apply moves_bind; [auto with keeps|done|]. intros f.
  destruct (negb _); [by apply moves_keeps; [auto with keeps|]|].
  destruct (_ <? _)%nat; [by apply moves_keeps; [auto with keeps|]|].
  apply moves_bind; [auto with keeps|done|]. intros ids.
  apply moves_bind; [auto with keeps|done|]. intros hs. destruct (read_msg1 _ _) as [r1 hs1].
  apply moves_bind; [auto with keeps|done|]. intros suite.
  apply moves_bind; [apply keeps_modify; auto|done|]. intros _.
  destruct (write_msg2 _ _ _ _) as [r2 hs2].
  apply moves_bind; [auto with keeps|done|]. intros m2.
  apply moves_bind; [auto with keeps|done|]. intros _.
  apply moves_modify. intros c' (H1 & H2 & H3 & H4). right. by split.
Qed.

Lemma server_rx_msg3_moves env buf :
  moves (waiting ServerWaitMsg3 true) (either (waiting ServerWaitMsg3 true) live)
    (server_rx_msg3 env buf).
Proof.
  set (P := waiting _ _). assert (HP : forall c v, P c -> P (set_cn_server_hs c v)) by done.
  assert (L : forall c, P c -> either P live c) by (by left).
  unfold server_rx_msg3. apply moves_bind; [auto with keeps|done|]. intros payload.
  apply moves_get. intros c Hc. apply moves_bind; [apply keeps_modify; auto|done|]. intros _.
  apply moves_bind; [auto with keeps|done|]. intros hs.
  apply moves_bind; [auto with keeps|done|]. intros ids.
  apply moves_bind; [auto with keeps|done|]. intros r.
  intros s Hs. specialize (finish_handshake_moves env ServerWaitMsg3 true r s Hs).
  destruct (finish_handshake _ _ _); cbn; intros; [by right..|done].
Qed.

Definition edge c c' : Prop := cn_phase c' = cn_phase c \/ phase_next (cn_phase c) (cn_phase c').

(** A packet keeps the invariant and follows the edges. *)
Lemma on_packet_machine env buf c out :
  phase_inv c -> after (fun c' => phase_inv c' /\ edge c c') (on_packet env buf (c, out)).
Proof.
  intros Hc. destruct buf as [|b buf']; [cbn; split; [done|by left]|].
  rewrite on_packet_phase by done. cbn [fst]. unfold phase_inv, edge in *.
  assert (tac : forall (P Q : Connection -> Prop) (m : Act unit), P c -> moves P Q m ->
    (forall c', Q c' -> phase_inv c' /\ (cn_phase c' = cn_phase c \/ phase_next (cn_phase c) (cn_phase c'))) ->
    after (fun c' => phase_inv c' /\ (cn_phase c' = cn_phase c \/ phase_next (cn_phase c) (cn_phase c'))) (m (c, out))).
  { intros P Q m HPc Hm HQ. specialize (Hm (c, out) HPc). destruct (m (c, out)); cbn in *; auto. }
  destruct (cn_phase c) eqn:Eph.
  - eapply tac; [exact Hc|apply client_rx_challenge_moves|]. unfold phase_inv.
    intros c' [Hw|Hw]; pose proof Hw as (-> & _); (split; [exact Hw|]); [by left|right; constructor].
  - eapply tac; [exact Hc|apply client_rx_msg2_moves|]. unfold phase_inv.
    intros c' [Hw|Hw]; pose proof Hw as (-> & _); (split; [exact Hw|]); [by left|right; constructor].
  - eapply tac; [exact Hc|apply server_rx_cookie_echo_moves|]. unfold phase_inv.
    intros c' [Hw|Hw]; pose proof Hw as (-> & _); (split; [exact Hw|]); [by left|right; constructor].
  - eapply tac; [exact Hc|apply server_rx_msg3_moves|]. unfold phase_inv.
    intros c' [Hw|Hw]; pose proof Hw as (-> & _); (split; [exact Hw|]); [by left|right; constructor].
  - eapply tac; [exact Hc|apply (on_data_packet_keeps env live); [apply live_frame|done]|]. unfold phase_inv.
    intros c' Hw. pose proof Hw as (-> & _). split; [exact Hw|by left].
  - cbn. unfold phase_inv. rewrite Eph. split; [done|by left].
  - done.
Qed.

Definition is_data_op (op : ConnOp (T := T)) : Prop :=
  match op with OpPacket _ | OpClose => False | _ => True end.

Lemma data_op_keeps env (P : Connection -> Prop) op :
  rx_frame P -> (forall c v, P c -> P (set_cn_migration_enabled c v)) -> (forall c, P c -> P (tick_fec c)) ->
  is_data_op op -> keeps P (run_op env op).
Proof.
  intros HP Hm Ht Hop. pose proof HP as ((F1 & F2 & _ & _ & _ & F6 & _) & _).
  destruct op; try done; cbn [run_op].
  - by apply flush_keeps, HP.
  - by apply maybe_send_cover_keeps.
  - by apply maybe_send_chaff_keeps.
  - by apply maybe_send_probe_keeps.
  - by apply maybe_migrate_keeps.
  - by apply retransmit_expired_keeps, HP.
  - by apply keeps_modify.
  - apply keeps_modify. intros c Hc. unfold maybe_queue_ping. repeat case_match; auto.
  - apply keeps_modify. unfold set_congestion_controller. auto.
  - apply keeps_modify. unfold set_tar_config. auto.
  - apply keeps_modify. auto.
  - apply keeps_modify. intros c Hc. case_match; auto.
Qed.

(** Before there is a session, no operation but a packet does more than move
    the path prober or set a configuration. *)
Lemma data_op_no_session env (P : Connection -> Prop) op :
  (forall c, P c -> cn_session c = None) ->
  (forall c v, P c -> P (set_cn_prober c v)) -> (forall c v, P c -> P (set_cn_cc c v)) ->
  (forall c v, P c -> P (set_cn_tar c v)) -> (forall c v, P c -> P (set_cn_migration_enabled c v)) ->
  is_data_op op -> keeps P (run_op env op).
Proof.
  intros Hsess F1 F2 F3 F4 Hop. destruct op; try done; cbn [run_op].
  - apply keeps_get. intros c Hc out. by rewrite (Hsess c Hc).
  - apply keeps_get. intros c Hc out. rewrite (Hsess c Hc). by destruct (negb _).
  - apply keeps_get. intros c Hc out. rewrite (Hsess c Hc). by destruct (negb _).
  - apply keeps_get. intros c Hc out. destruct (negb _); [done|].
    destruct (build_probe _ _ _) as [[? payload] prober]. rewrite (Hsess c Hc). by apply F1.
  - apply keeps_get. intros c Hc out. destruct (negb _ || _); [done|].
    destruct (negb _); [done|]. destruct (negb _); [done|].
    revert c Hc. induction (ev_local_socks env) as [|[[sock|] nonce] l IH];
      intros c Hc; cbn [challenge_all]; [done| |by apply IH].
    unfold bind, get. cbn [fst]. rewrite (Hsess c Hc). by apply IH.
  - apply keeps_get. intros c Hc out. by rewrite (Hsess c Hc).
  - apply keeps_modify. intros c Hc. unfold tick_fec. by rewrite (Hsess c Hc).
  - apply keeps_modify. intros c Hc. unfold maybe_queue_ping. rewrite (Hsess c Hc). by repeat case_match.
  - apply keeps_modify. intros. by apply F2.
  - apply keeps_modify. intros. by apply F3.
  - apply keeps_modify. auto.
  - apply keeps_modify. intros c Hc. by rewrite (Hsess c Hc).
Qed.

Lemma data_op_waiting env ph b op : is_data_op op -> keeps (waiting ph b) (run_op env op).
Proof. apply data_op_no_session; [by intros c (_ & ? & _)|done..]. Qed.

Lemma data_op_machine env op c out :
  is_data_op op -> phase_inv c ->
  after (fun c' => phase_inv c' /\ edge c c') (run_op env op (c, out)).
Proof.
  intros Hop Hc. unfold edge.
  assert (tac : forall P : Connection -> Prop, P c -> keeps P (run_op env op) ->
    (forall c', P c' -> phase_inv c' /\ cn_phase c' = cn_phase c) ->
    after (fun c' => phase_inv c' /\ (cn_phase c' = cn_phase c \/ phase_next (cn_phase c) (cn_phase c')))
      (run_op env op (c, out))).
  { intros P HPc Hk HQ. specialize (Hk (c, out) HPc). destruct (run_op _ _ _); cbn in *; try done;
      destruct (HQ _ Hk); split; [done|by left|done|by left]. }
  unfold phase_inv in *. destruct (cn_phase c) eqn:Eph.
  1-4: eapply tac; [exact Hc|by apply data_op_waiting|]; intros c' Hw; pose proof Hw as (-> & _); by split.
  - eapply (tac live); [exact Hc| |].
    + apply data_op_keeps; [apply live_frame|done| |done]. intros c' Hl. unfold tick_fec. by case_match.
    + intros c' Hw. pose proof Hw as (-> & _). by split.
  - eapply (tac (fun c => cn_phase c = Draining)); [exact Eph| |].
    + apply data_op_keeps; [apply draining_frame|done| |done]. intros c' Hl. unfold tick_fec. by case_match.
    + intros c' ->. by split.
  - done.
Qed.

Lemma run_op_machine env op c out :
  phase_inv c -> after (fun c' => phase_inv c' /\ edge c c') (run_op env op (c, out)).
Proof.
  intros Hc. destruct op; try by apply data_op_machine.
  - by apply on_packet_machine.
  - cbn. split; [done|]. right. apply next_closed.
Qed.

Lemma conn_step_machine c c' : conn_step c c' -> phase_inv c -> phase_inv c' /\ edge c c'.
Proof.
  intros [env op out s Hr <-|env op out e s Hr <-] Hc;
    pose proof (run_op_machine env op c out Hc) as Hm; by rewrite Hr in Hm.
Qed.

(** What [connect] and [accept_challenge] return. *)
Inductive fresh c : Prop :=
  | fresh_client env sock addr cc idc pin pk pref tar out :
      connect_with_tar env sock addr cc idc pin pk pref tar = Ok (c, out) -> fresh c
  | fresh_server env sock addr cc ids f tk pref out :
      accept_challenge env sock addr cc ids f tk pref = Ok (c, out) -> fresh c.

(** The fields of a new connection the invariant reads. *)
Lemma new_base_waiting env sock addr ph cc cfg :
  waiting ph false (new_base_with_tar env sock addr ph cc cfg).
Proof. by repeat split. Qed.

Lemma connect_inv env sock addr cc idc pin pk pref tar c out :
  connect_with_tar env sock addr cc idc pin pk pref tar = Ok (c, out) -> waiting ClientWaitChallenge false c.
Proof.
  unfold connect_with_tar. intros Hc. destruct (ev_send_error env sock _); [done|].
  destruct (ClientHandshake_new_with_cipher _ _ _ _); [|done].
  pose proof (new_base_waiting env sock addr ClientWaitChallenge cc tar) as Hb. revert Hc Hb.
  generalize (new_base_with_tar env sock addr ClientWaitChallenge cc tar). intros b Hc Hb.
  injection Hc as <- _. exact Hb.
Qed.

Lemma accept_inv env sock addr cc ids f tk pref c out :
  accept_challenge env sock addr cc ids f tk pref = Ok (c, out) -> waiting ServerWaitCookie true c.
Proof.
  unfold accept_challenge, new_base. intros Hc. destruct (ev_send_error env sock _); [done|].
  pose proof (new_base_waiting env sock addr ServerWaitCookie cc TarConfig_disabled) as Hb. revert Hc Hb.
  generalize (new_base_with_tar env sock addr ServerWaitCookie cc TarConfig_disabled).
  intros b Hc (H1 & H2 & H3 & _). injection Hc as <- _. by repeat split.
Qed.

Lemma fresh_inv c : fresh c -> phase_inv c.
Proof.
  intros [env sock addr cc idc pin pk pref tar out Hc|env sock addr cc ids f tk pref out Hc].
  - apply connect_inv in Hc. unfold phase_inv. by rewrite (proj1 Hc).
  - apply accept_inv in Hc. unfold phase_inv. by rewrite (proj1 Hc).
Qed.

(** C13: The phase machine of a connection.  From [connect] or
    [accept_challenge], through any sequence of packets (however malformed),
    flushes, cover packets, chaff, probes, migrations, retransmissions, timer
    ticks, closes and uses of the session by the application, whether each
    succeeds or fails: the phase only moves along the client's or the server's
    path to Established, or to Draining; there is a session exactly from
    Established on; an established connection has dropped the server's
    identity, the cookie factory and the KEM key; and no connection is ever
    Closed. *)
Theorem connection_machine c c' :
  fresh c -> rtc conn_step c c' -> phase_inv c' /\ rtc phase_next (cn_phase c) (cn_phase c').
Proof.
  intros Hf Hs. pose proof (fresh_inv c Hf) as Hc. clear Hf.
  induction Hs as [c|c c1 c2 Hstep _ IH]; [by split; [|apply rtc_refl]|].
  destruct (conn_step_machine c c1 Hstep Hc) as [Hc1 He]. destruct (IH Hc1) as [Hc2 Hp].
  split; [done|]. destruct He as [<-|He]; [done|]. by eapply rtc_l.
Qed.

(** ** Timers of the handshake and of FEC *)

(** What the handshake handlers may change. *)
Definition hs_frame (P : Connection (T := T) -> Prop) : Prop :=
  (forall c v, P c -> P (set_cn_client_hs c v)) /\ (forall c v, P c -> P (set_cn_server_hs c v))
  /\ (forall c v, P c -> P (set_cn_agreed_cipher c v)) /\ (forall c v, P c -> P (set_cn_phase c v))
  /\ (forall env r c, P c -> P (install_session env r c)).

Lemma on_packet_after env (P : Connection -> Prop) buf c out :
  rx_frame P -> hs_frame P -> P c ->
  (cn_phase c = Established -> keeps P (on_data_packet env buf)) ->
  after P (on_packet env buf (c, out)).
Proof.
  intros HP (F1 & F2 & F3 & F4 & F5) Hc Hd. pose proof HP as ((G1 & _) & _).
  assert (Hfin : forall r, keeps P (finish_handshake env r)).
  { intros r. unfold finish_handshake. apply keeps_bind; [apply keeps_modify; auto|]. intros _.
    by apply issue_ticket_keeps. }
  destruct buf as [|b buf']; [done|]. rewrite on_packet_phase by done. cbn [fst].
  destruct (cn_phase c); [| | | |by apply keeps_at; [apply Hd|]|done..]; (apply keeps_at; [|done]).
  - unfold client_rx_challenge. keeps_tac; auto.
  - unfold client_rx_msg2. keeps_tac; auto.
  - unfold server_rx_cookie_echo. keeps_tac; auto.
  - unfold server_rx_msg3. keeps_tac; auto.
Qed.

(** The operations that are neither a packet nor a close. *)
Lemma op_cases (op : ConnOp (T := T)) :
  is_data_op op \/ (exists buf, op = OpPacket buf) \/ op = OpClose.
Proof. destruct op; cbn; eauto. Qed.

(** Every operation keeps a predicate that all the record updates keep. *)
Lemma run_op_keeps env (P : Connection -> Prop) op c out :
  rx_frame P -> hs_frame P -> (forall c v, P c -> P (set_cn_migration_enabled c v)) ->
  (forall c, P c -> P (tick_fec c)) -> P c ->
  (cn_phase c = Established -> forall c, P c -> P (set_cn_last_recv c (ev_now env))) ->
  after P (run_op env op (c, out)).
Proof.
  intros HP HH Hm Ht Hc Hl. destruct (op_cases op) as [Ho|[[buf ->]| ->]].
  - apply keeps_at; [by apply data_op_keeps|done].
  - apply on_packet_after; [done..|]. intros E. by apply on_data_packet_keeps; [|apply Hl].
  - cbn. apply HH, Hc.
Qed.

Lemma conn_step_keeps (P : Connection -> Prop) c c' :
  rx_frame P -> hs_frame P -> (forall c v, P c -> P (set_cn_migration_enabled c v)) ->
  (forall c, P c -> P (tick_fec c)) ->
  (cn_phase c = Established -> forall c v, P c -> P (set_cn_last_recv c v)) ->
  conn_step c c' -> P c -> P c'.
Proof.
  intros HP HH Hm Ht Hl [env op out s Hr <-|env op out e s Hr <-] Hc;
    pose proof (run_op_keeps env P op c out HP HH Hm Ht Hc) as Hk; rewrite Hr in Hk; apply Hk; auto.
Qed.

Definition over c : Prop := cn_phase c = Established \/ cn_phase c = Draining.

Lemma over_stays c c' : rtc conn_step c c' -> phase_inv c -> over c -> over c'.
Proof.
  intros Hs. induction Hs as [|c1 c2 c3 Hst _ IH]; [done|]. intros Hi Hp.
  destruct (conn_step_machine c1 c2 Hst Hi) as [Hi2 He]. apply IH; [done|]. unfold over in *.
  destruct He as [->|He]; [done|]. destruct Hp as [E|E]; rewrite E in He; inversion He; by right.
Qed.

Lemma early_last_recv c c' :
  rtc conn_step c c' -> phase_inv c -> ~ over c' -> cn_last_recv c' = cn_last_recv c /\ phase_inv c'.
Proof.
  intros Hs. induction Hs as [|c1 c2 c3 Hst Hs IH]; [done|]. intros Hi No.
  destruct (conn_step_machine c1 c2 Hst Hi) as [Hi2 _]. destruct (IH Hi2 No) as [-> ?]. split; [|done].
  assert (Hp : cn_phase c1 <> Established).
  { intros E. apply No. eapply over_stays; [by eapply rtc_l|done|by left]. }
  apply (conn_step_keeps (fun c => cn_last_recv c = cn_last_recv c1) c1 c2); try done.
  - unfold hs_frame. repeat (split; [done|]). intros env r c. unfold install_session.
    by destruct (match cn_server_identity c with Some _ => _ | None => _ end).
  - intros c. unfold tick_fec. by case_match.
Qed.

(** No packet extends a handshake: from creation on, through any packets
    and timer ticks, a connection that has not finished its handshake is
    reported stale exactly from 30 seconds after it was created, so a peer
    that trickles packets cannot hold a slot longer. *)
Theorem handshake_deadline c c' env :
  fresh c -> rtc conn_step c c' ->
  cn_phase c' <> Established -> cn_phase c' <> Draining ->
  is_stale env c' = (HANDSHAKE_TIMEOUT <=? elapsed env (cn_last_recv c)).
Proof.
  intros Hf Hs N1 N2.
  destruct (early_last_recv c c' Hs (fresh_inv c Hf)) as [Hl Hi]; [by intros [?|?]|].
  unfold is_stale. rewrite Hl. unfold phase_inv in Hi. by destruct (cn_phase c').
Qed.

(** FEC adaptation sees no loss. *)
Definition no_loss_arbiter (a : FecArbiter) : Prop :=
  exists epochs, Forall (fun e => e.1.1 = 0 /\ 0 <= e.1.2) epochs /\ a = arbiter_run epochs.

Lemma tick_fec_no_loss c :
  no_loss_arbiter (cn_fec_arbiter c) -> no_loss_arbiter (cn_fec_arbiter (tick_fec c)).
Proof.
  intros (es & He & Ea). unfold tick_fec. destruct (cn_session c) as [sess|]; [|by exists es].
  exists (es ++ [(0, Z.max (Z.of_nat (Session_arq_in_flight sess)) 1, Session_srtt_us sess)]). split.
  - apply Forall_app. split; [done|]. repeat constructor; cbn; lia.
  - cbn. rewrite Ea. unfold arbiter_run. by rewrite fold_left_app.
Qed.

Lemma fresh_arbiter c : fresh c -> cn_fec_arbiter c = FecArbiter_new.
Proof.
  intros [? ? ? ? ? ? ? ? ? ? Hc|? ? ? ? ? ? ? ? ? Hc]; revert Hc.
  - unfold connect_with_tar, new_base_with_tar. case_match; [done|].
    destruct (ClientHandshake_new_with_cipher _ _ _ _); [|done].
    generalize FecArbiter_new. intros a Hc. by injection Hc as <- _.
  - unfold accept_challenge, new_base, new_base_with_tar. case_match; [done|].
    generalize FecArbiter_new. intros a Hc. by injection Hc as <- _.
Qed.

(** The FEC adaptation of a connection never reacts to loss: the tick
    reports zero lost packets whatever happened, so from creation on the only
    modes a connection ever uses are no FEC and the light (10, 1) code, which
    it picks by round-trip time alone. *)
Theorem fec_mode_ignores_loss c c' :
  fresh c -> rtc conn_step c c' -> fec_params c' = None \/ fec_params c' = Some (10, 1).
Proof.
  intros Hf Hs. assert (Ha : no_loss_arbiter (cn_fec_arbiter c')).
  { assert (H0 : no_loss_arbiter (cn_fec_arbiter c)).
    { exists []. split; [constructor|]. by apply fresh_arbiter. }
    clear Hf. induction Hs as [|c1 c2 c3 Hst _ IH]; [done|]. apply IH.
    apply (conn_step_keeps (fun c => no_loss_arbiter (cn_fec_arbiter c)) c1 c2); try done.
    - unfold hs_frame. repeat (split; [done|]). intros env r c. unfold install_session.
      by destruct (match cn_server_identity c with Some _ => _ | None => _ end).
    - intros c0. apply tick_fec_no_loss. }
  destruct Ha as (es & He & Ea). unfold fec_params. rewrite Ea.
  destruct (arbiter_no_loss es He) as [_ [-> | ->]]; [by left|by right].
Qed.

(** ** A failed message 3 *)

(** A server that lost its handshake state. *)
Definition stuck c : Prop :=
  (cn_phase c = ServerWaitMsg3 \/ cn_phase c = Draining)
  /\ cn_server_hs c = None /\ cn_session c = None.

Lemma stuck_packet env buf : keeps stuck (on_packet env buf).
Proof.
  destruct buf as [|b buf']; [by intros s Hs|]. intros [c out] Hc. rewrite on_packet_phase by done.
  cbn [fst] in *. pose proof Hc as ([E|E] & Hhs & Hsess); rewrite E; [|done].
  unfold server_rx_msg3. unfold bind at 1. destruct (strip_type _ _); [|done]. cbn [lift ret throw].
  unfold bind, get, modify. cbn [fst snd]. rewrite Hhs. split; [by left|by split].
Qed.

Lemma stuck_step c c' : conn_step c c' -> stuck c -> stuck c'.
Proof.
  assert (Hk : forall env op, keeps stuck (run_op env op)).
  { intros env op. destruct op; try (apply data_op_no_session; [by intros c0 (_ & _ & ?)|done..]).
    - apply stuck_packet.
    - intros s (_ & Hs). by split; [right|]. }
  intros [env op out s Hr <-|env op out e s Hr <-] Hc; specialize (Hk env op (c, out) Hc);
    by rewrite Hr in Hk.
Qed.

(** C33: One message 3 that the server cannot use ends the connection for good:
    the handshake state is taken before the message is checked and not put
    back, so whatever arrives later (the genuine message 3 included) and
    whatever else is done to it, the connection never reaches Established.
    Until the handshake timeout it keeps its place in ServerWaitMsg3.  Anyone
    who can send a datagram from the client's address can do this. *)
Theorem server_bad_msg3_kills env payload c out hs ids e c' :
  phase_inv c -> cn_phase c = ServerWaitMsg3 -> cn_server_hs c = Some hs -> cn_server_identity c = Some ids ->
  read_msg3_and_finish hs (kem_sk ids) (cn_agreed_cipher c) payload = Err e ->
  exists c1, on_packet env (PKT_HANDSHAKE_MSG :: payload) (c, out) = Fail e (c1, out)
    /\ cn_phase c1 = ServerWaitMsg3
    /\ (rtc conn_step c1 c' -> cn_phase c' <> Established /\ cn_session c' = None).
Proof.
  intros Hc Eph Ehs Eid Hr. exists (set_cn_server_hs c None). split.
  { rewrite on_packet_phase by done. cbn [fst]. rewrite Eph. unfold server_rx_msg3, strip_type.
    rewrite bytes_eqb_refl. unfold bind, get, modify, lift, ret. cbn [fst snd].
    rewrite Ehs. cbn [ok_or]. rewrite Eid. cbn [ok_or]. by rewrite Hr. }
  split; [exact Eph|]. intros Hs.
  assert (H0 : stuck (set_cn_server_hs c None)).
  { unfold phase_inv in Hc. rewrite Eph in Hc. destruct Hc as (_ & Hsess & _). split; [by left|]. by split. }
  assert (H1 : stuck c').
  { induction Hs as [c1|c1 c2 c3 Hstep _ IH]; [done|]. apply IH. by eapply stuck_step. }
  destruct H1 as ([-> | ->] & _ & ?); done.
Qed.

(** ** The cookie gate *)

Lemma bad_cookie_run env buf c f out :
  cn_phase c = ServerWaitCookie -> cn_cookie_factory c = Some f ->
  CookieFactory_verify f (addr_to_string (cn_remote c)) (slice buf 1 33) (ev_unix_secs env) = false ->
  match on_packet env buf (c, out) with
  | Done _ s => buf = [] /\ s = (c, out)
  | Fail _ s => s = (c, out)
  | Panic => False
  end.
Proof.
  intros Eph Ef Hv. destruct buf as [|b buf']; [done|]. rewrite on_packet_phase by done. cbn [fst].
  rewrite Eph. unfold server_rx_cookie_echo. destruct (_ || _); [done|].
  unfold bind, get. cbn [fst]. rewrite Ef. cbn [ok_or lift ret]. rewrite Hv. done.
Qed.

(** C15: A server that waits for the cookie commits nothing to a peer that has
    not shown one: a packet whose cookie field is neither the cookie of the
    sender's address for the current time bucket nor the one for the bucket
    before is answered by nothing and changes nothing; in particular no
    handshake state is made, no signature or KEM operation runs, and the phase
    stays ServerWaitCookie. *)
Theorem cookie_gate env buf c f out :
  cn_phase c = ServerWaitCookie -> cn_cookie_factory c = Some f ->
  let b := CookieFactory_bucket f (ev_unix_secs env) in
  let addr := addr_to_string (cn_remote c) in
  0 < b -> slice buf 1 33 <> CookieFactory_compute f addr b ->
  slice buf 1 33 <> CookieFactory_compute f addr (b - 1) ->
  match on_packet env buf (c, out) with
  | Done _ s => buf = [] /\ s = (c, out)
  | Fail _ s => s = (c, out)
  | Panic => False
  end.
Proof.
  intros Eph Ef b addr Hb N1 N2. apply (bad_cookie_run env buf c f out Eph Ef).
  apply not_true_is_false. intros Hv. apply verify_iff in Hv. cbv zeta in Hv. fold b addr in Hv.
  destruct Hv as [?|[[_ ?]|[? _]]]; [done|done|lia].
Qed.

(** ** The congestion gate of flush *)











(** Shaping never shortens a packet and touches nothing but its own state. *)
Lemma tar_wire_run b c out : exists wire tar,
  tar_wire (T := T) b (c, out) = Done wire (set_cn_tar c tar, out) /\ (length b <= length wire)%nat.
Proof.
  unfold tar_wire, maybe_pad, pad_to_size_class. cbn [fst snd].
  assert (Ho : forall t p, length (maybe_obfuscate t p) = length p).
  { intros t p. unfold maybe_obfuscate. case_match; [apply length_obfuscate|done]. }
  destruct (padding_enabled _); [|by eexists _, _; split; [done|rewrite Ho]].
  destruct (_ <=? _)%nat; [by eexists _, _; split; [done|rewrite Ho]|].
  destruct (lcg_bytes _ _) as [pad l]. eexists _, _. split; [done|]. rewrite Ho, length_app. lia.
Qed.

(** What a closed window costs.  When the first packet a flush produces
    carries data and either controller has no room for it, the flush stops
    there and reports success: nothing goes out, and the session has already
    moved past every packet it produced.  The acknowledgement, the window
    update, the pong and the ping queued behind the data are control packets,
    which the code means to send in any case, and they are dropped with no
    record. *)
Theorem flush_blocked_drops_all env c out sess sess' tp ps :
  cn_session c = Some sess ->
  Session_flush sess (ev_now env) (ev_order env) = (sess', Ok (tp :: ps)) ->
  tp_is_control tp = false ->
  cc_available (cn_cc c) < Z.of_nat (length (tp_bytes tp))
  \/ bc_should_send (cn_bbr c) (bc_inflight (cn_bbr c)) = false ->
  exists c', flush env (c, out) = Done tt (c', out) /\ cn_session c' = Some sess'.
Proof.
  intros Es Ef Et Em. unfold flush. unfold bind at 1. unfold get at 1. cbn [fst]. rewrite Es, Ef.
  unfold bind at 1. unfold modify at 1. cbn [fst snd lift]. unfold bind at 1. unfold ret at 1.
  cbn [flush_packets]. unfold bind at 1. unfold modify at 1. cbn [fst snd].
  unfold bind at 1. unfold modify at 1. cbn [fst snd]. unfold bind at 1.
  match goal with |- context [tar_wire ?b (?c, ?o)] => destruct (tar_wire_run b c o) as (wire & tar & -> & Hl) end.
  rewrite Et. unfold bind at 1. unfold get at 1. cbn [fst snd].
  assert (Hm : forall c0, cn_cc c0 = cn_cc c -> cn_bbr c0 = cn_bbr c ->
    may_send_data c0 (Z.of_nat (length wire)) = false).
  { intros c0 E1 E2. unfold may_send_data. rewrite E1, E2, negb_false_iff, orb_true_iff.
    destruct Em as [Em| ->]; [left; apply Z.ltb_lt; lia|by right]. }
  rewrite Hm by done. eexists. by split.
Qed.

End Machine.

(** ** Witnesses *)

(** The controllers' transcendental functions are not called here. *)
#[export] Instance test_libm : Libm := {|
  f64_cbrt x := x; f64_powi x _ := x; f64_ln x := x
|}.

Definition test_env (now : Z) : Env :=
  mkEnv now 1700000000 1700000000000000 (fun _ _ => None) [x01] [x05] (replicate 12 x21) [] [].

Definition test_addr_s : SocketAddr := AddrV4 0x7F000001 4433.
Definition test_addr_c : SocketAddr := AddrV4 0x7F000002 5000.

Definition test_cookies : CookieFactory := CookieFactory_new (replicate 32 x33).

Definition test_connect : Result (Connection (T := Aimd) * list (Z * list byte)) SeamError :=
  connect_with_tar (test_env 0) 1 test_addr_s Aimd_new test_client_id
    (x25519_public (x25519_secret test_fresh)) (kem_pk test_fresh) Aes256Gcm TarConfig_disabled.

Definition test_accept : Result (Connection (T := Aimd) * list (Z * list byte)) SeamError :=
  accept_challenge (test_env 0) 2 test_addr_c Aimd_new test_fresh test_cookies None ChaCha20Poly1305.

Definition test_base (ph : ConnPhase) : Connection (T := Aimd) :=
  new_base (test_env 0) 2 test_addr_c ph Aimd_new.

(** The connections [test_connect] and [test_accept] return. *)
Definition test_client : Connection (T := Aimd) :=
  match test_connect with Ok (c, _) => c | Err _ => test_base ClientWaitChallenge end.

Definition test_server : Connection (T := Aimd) :=
  match test_accept with Ok (c, _) => c | Err _ => test_base ServerWaitCookie end.

Definition test_challenge : list byte :=
  PKT_COOKIE_CHALLENGE :: CookieFactory_generate test_cookies (addr_to_string test_addr_c) 1700000000.

Lemma connection_establishes_witness :
  exists (c s : Connection (T := Aimd)) sid kc ks,
    rtc conn_step test_client c /\ rtc conn_step test_server s
    /\ cn_phase c = Established /\ cn_phase s = Established
    /\ cn_session c = Some (Delivery.client sid kc ks) /\ cn_session s = Some (Delivery.server sid kc ks)
    /\ cipher_suite kc = negotiate ChaCha20Poly1305 Aes256Gcm.
Proof.
  destruct (connection_establishes (test_env 0) (test_env 0) (test_env 1) (test_env 1) (test_env 2) (test_env 2)
    1 2 test_addr_c test_addr_s Aimd_new Aimd_new test_client_id test_fresh
    (x25519_public (x25519_secret test_fresh)) test_cookies Aes256Gcm ChaCha20Poly1305 TarConfig_disabled
    test_client [(1, [PKT_COOKIE_REQ])] test_server test_challenge)
    as (echo & m2 & m3 & c1 & c2 & s1 & s2 & sid & kc & ks & H1 & H2 & H3 & H4 & P1 & P2 & S1 & S2 & _ & _ & _ & K1 & _);
    try reflexivity; [by left|].
  exists c2, s2, sid, kc, ks. split; [|split; [|repeat (split; [done|]); exact K1]].
  - eapply rtc_l; [apply (step_done _ _ (test_env 1) (OpPacket test_challenge) [] _ H1); reflexivity|].
    apply rtc_once. exact (step_done _ _ (test_env 2) (OpPacket m2) [] _ H3 eq_refl).
  - eapply rtc_l; [apply (step_done _ _ (test_env 1) (OpPacket echo) [] _ H2); reflexivity|].
    apply rtc_once. exact (step_done _ _ (test_env 2) (OpPacket m3) [] _ H4 eq_refl).
Defined.

Lemma test_client_fresh : fresh test_client.
Proof.
  apply (fresh_client test_client (test_env 0) 1 test_addr_s Aimd_new test_client_id
    (x25519_public (x25519_secret test_fresh)) (kem_pk test_fresh) Aes256Gcm TarConfig_disabled
    [(1, [PKT_COOKIE_REQ])]). reflexivity.
Qed.

Lemma connection_machine_witness :
  phase_inv (close test_client) /\ rtc phase_next ClientWaitChallenge (cn_phase (close test_client)).
Proof.
  apply (connection_machine test_client); [apply test_client_fresh|].
  apply rtc_once. exact (step_done _ _ (test_env 1) OpClose [] (close test_client, []) eq_refl eq_refl).
Defined.

Definition test_server_hs : ServerHandshake :=
  @mkServerHandshake test_noise (mkTestNoise (x25519_public (replicate 32 x01)) None (replicate 32 x00)) Aes256Gcm.

Definition test_waiting_msg3 : Connection (T := Aimd) :=
  set_cn_phase (set_cn_server_hs test_server (Some test_server_hs))
    ServerWaitMsg3.

Lemma server_bad_msg3_kills_witness :
  exists c1 e, on_packet (test_env 1) [PKT_HANDSHAKE_MSG] (test_waiting_msg3, []) = Fail e (c1, [])
    /\ forall c', rtc conn_step c1 c' -> cn_phase c' <> Established.
Proof.
  assert (Hi : phase_inv test_waiting_msg3) by (by repeat split).
  destruct (read_msg3_and_finish test_server_hs (kem_sk test_fresh) (cn_agreed_cipher test_waiting_msg3) []) as [r|e] eqn:E; [by vm_compute in E|].
  destruct (server_bad_msg3_kills (test_env 1) [] test_waiting_msg3 [] _ test_fresh e test_waiting_msg3
    Hi eq_refl eq_refl eq_refl E) as (c1 & H1 & _ & _).
  exists c1, e. split; [exact H1|]. intros c' Hs.
  destruct (server_bad_msg3_kills (test_env 1) [] test_waiting_msg3 [] _ test_fresh e c'
    Hi eq_refl eq_refl eq_refl E) as (c2 & H2 & _ & H3).
  rewrite H1 in H2. injection H2 as <-. by apply H3.
Defined.

Lemma cookie_gate_witness :
  let echo := PKT_COOKIE_ECHO :: replicate 34 x00 in
  exists e, on_packet (test_env 1) echo (test_server, []) = Fail e (test_server, []).
Proof.
  intros echo. pose proof (cookie_gate (test_env 1) echo test_server test_cookies [] eq_refl eq_refl) as Hg.
  cbv zeta in Hg. specialize (Hg eq_refl ltac:(vm_compute; discriminate) ltac:(vm_compute; discriminate)).
  destruct (on_packet _ _ _) as [u s|e s|]; [by destruct Hg|exists e; by rewrite Hg|done].
Defined.

(** An established connection with data and a ping queued. *)
Definition test_live (flight : Z) : Connection (T := Aimd) :=
  set_cn_session (set_cn_cc (test_base Established) (mkAimd (10 * MSS) U64_MAX flight None)) (Some demo_written).

Definition test_flush_env : Env :=
  mkEnv 0 1700000000 1700000000000000 (fun _ _ => None) [] [] [] [1] [].



(** The data packet does not fit, and the ping behind it is gone. *)
Lemma flush_blocked_drops_all_witness :
  exists c', flush test_flush_env (test_live 14000, []) = Done tt (c', [])
    /\ (option_map ss_pending_ping (cn_session c') = Some false).
Proof.
  destruct (Session_flush demo_written 0 [1]) as [sess' r] eqn:E.
  assert (Hr : match r with Ok [tp; tp2] => tp_is_control tp = false /\ tp_is_control tp2 = true | _ => False end
               /\ match r with Ok (tp :: _) => 0 < Z.of_nat (length (tp_bytes tp)) | _ => False end
               /\ ss_pending_ping sess' = false).
  { replace r with (snd (Session_flush demo_written 0 [1])) by (by rewrite E).
    replace sess' with (fst (Session_flush demo_written 0 [1])) by (by rewrite E).
    vm_compute. done. }
  destruct Hr as (Hr & Hl & Hp). destruct r as [ps|]; [|done]. destruct ps as [|tp ps]; [done|].
  destruct ps as [|tp2 ps]; [done|]. destruct ps; [|done]. destruct Hr as [Hr1 Hr2].
  destruct (flush_blocked_drops_all test_flush_env (test_live 14000) [] demo_written sess' tp [tp2]
    eq_refl E Hr1) as (c' & Hf & Hs).
  { left. exact Hl. }
  exists c'. split; [exact Hf|]. rewrite Hs. cbn. by rewrite Hp.
Defined.

Lemma handshake_deadline_witness :
  is_stale (test_env (from_secs 30)) test_client = true
  /\ is_stale (test_env (from_secs 29)) test_client = false.
Proof.
  split; (rewrite (handshake_deadline test_client test_client _ test_client_fresh);
    [reflexivity|apply rtc_refl|discriminate|discriminate]).
Defined.

Lemma fec_mode_ignores_loss_witness :
  fec_params (tick_fec test_client) = None \/ fec_params (tick_fec test_client) = Some (10, 1).
Proof.
  apply (fec_mode_ignores_loss test_client); [apply test_client_fresh|].
  apply rtc_once. exact (step_done _ _ (test_env 1) OpTickFec [] (tick_fec test_client, []) eq_refl eq_refl).
Defined.
