(* ===== verification/Endpoint.v ===== *)
(** * Endpoints

    src/src/transport/endpoint.rs: the connection table a socket's packets are
    dispatched through, the admission of unknown peers (connection limit and
    per-address token bucket) and the periodic sweep.

    A connection is shared between the table, the accept queue and the
    application, so the endpoint keeps a store of connections and the table
    maps a remote address to a position in it: a connection that leaves the
    table stays alive for whoever holds it. *)

From Stdlib Require Import ZArith Lia Bool List String.
From Stdlib Require Import Strings.Byte.
From stdpp Require Import base list numbers option gmap.
From S2P Require Import Prelude Packet Crypto TestCrypto PacketCodec Float Cc Congestion Arbiter.
From S2P Require Import Session Ratchet Cookie Stun Identity Handshake Net Tar Connection.
From S2P Require Import ConnectionProps.

Open Scope Z_scope.

(** ** Addresses as keys *)

#[export] Instance SocketAddr_countable : Countable SocketAddr.
Proof.
  apply (inj_countable'
    (fun a => match a with AddrV4 ip p => inl (ip, p) | AddrV6 ip p => inr (ip, p) end)
    (fun x => match x with inl (ip, p) => AddrV4 ip p | inr (ip, p) => AddrV6 ip p end)).
  by intros [].
Defined.

(** [SocketAddr::ip]. *)
Definition IpAddr : Type := Z + list byte.

Definition addr_ip (a : SocketAddr) : IpAddr :=
  match a with AddrV4 ip _ => inl ip | AddrV6 ip _ => inr ip end.

Definition DEFAULT_MAX_CONNECTIONS : Z := 1024.

Record EndpointConfig : Type := mkEndpointConfig {
  max_connections : Z;                   (* usize *)
  max_new_conns_per_sec_per_ip : Z       (* u32 *)
}.

Definition EndpointConfig_default : EndpointConfig := mkEndpointConfig DEFAULT_MAX_CONNECTIONS 10.

(** ** The token bucket *)

Definition RateTable : Type := gmap IpAddr (f64 * Z).   (* tokens, last refill *)

(** Every 60 s, drop the entries that were not touched for 120 s. *)
Definition rate_cleanup (t : RateTable) (last_cleanup now : Z) : RateTable * Z :=
  if 60 <=? duration_since now last_cleanup / from_secs 1
  then (filter (fun e => bool_decide (duration_since now e.2.2 / from_secs 1 < 120)) t, now)
  else (t, last_cleanup).

(** One connection attempt from [ip]: admitted or not, and the table after. *)
Definition rate_take (t : RateTable) (max_per_sec : Z) (ip : IpAddr) (now : Z) : bool * RateTable :=
  let rate := f64_of max_per_sec in
  let '(tokens0, refill) := default (rate, now) (t !! ip) in
  let elapsed := as_secs_f64 (duration_since now refill) in
  let tokens := float_min (f64_add tokens0 (f64_mul elapsed rate)) rate in
  if SpecFloat.SFltb tokens (f64_of 1) then (false, <[ip := (tokens, now)]> t)
  else (true, <[ip := (f64_sub tokens (f64_of 1), now)]> t).

Section EndpointCode.
Context {C : Crypto} {X : X25519} {K : Kem} {D : MlDsa} {H : PlainHash} {N : Noise} {M : Libm}.
Context {T : Type} {CC : CongestionControl T}.

Record Endpoint : Type := mkEndpoint {
  ep_store : list (Connection (T := T));   (* every connection made, by handle *)
  ep_conns : gmap SocketAddr nat;          (* conns: remote -> handle *)
  ep_accepted : list nat;                  (* sent on accept_tx, oldest first *)
  ep_ip_rate : RateTable;
  ep_last_cleanup : Z                      (* Instant *)
}.

(** What [bind_with_config] fixes for the receive loop. *)
Record Bound : Type := mkBound {
  bd_socket : Z;
  bd_identity : IdentityKeypair;
  bd_factory : CookieFactory;
  bd_config : EndpointConfig
}.

Definition Endpoint_new (now : Z) : Endpoint := mkEndpoint [] ∅ [] ∅ now.

Definition set_ep_rate (e : Endpoint) (t : RateTable) (last : Z) : Endpoint :=
  mkEndpoint (ep_store e) (ep_conns e) (ep_accepted e) t last.
Definition set_ep_conns (e : Endpoint) (m : gmap SocketAddr nat) : Endpoint :=
  mkEndpoint (ep_store e) m (ep_accepted e) (ep_ip_rate e) (ep_last_cleanup e).
Definition set_ep_conn (e : Endpoint) (h : nat) (c : Connection) : Endpoint :=
  mkEndpoint (<[h := c]> (ep_store e)) (ep_conns e) (ep_accepted e) (ep_ip_rate e) (ep_last_cleanup e).

(** A new connection, in the table and, on the server side, on the queue. *)
Definition add_conn (e : Endpoint) (remote : SocketAddr) (c : Connection) (announce : bool) : Endpoint :=
  let h := length (ep_store e) in
  mkEndpoint (ep_store e ++ [c]) (<[remote := h]> (ep_conns e))
    (if announce then ep_accepted e ++ [h] else ep_accepted e) (ep_ip_rate e) (ep_last_cleanup e).

(** Admission of a remote the table does not know: [None] is one of the
    [continue]s, with the endpoint as it is left. *)
Definition admit_new (bd : Bound) (env : Env) (cc : T) (e : Endpoint) (remote : SocketAddr)
  : Endpoint * option (nat * list (Z * list byte)) :=
  if max_connections (bd_config bd) <=? Z.of_nat (size (ep_conns e)) then (e, None)
  else
    let '(t, last) := rate_cleanup (ep_ip_rate e) (ep_last_cleanup e) (ev_now env) in
    let '(ok, t') := rate_take t (max_new_conns_per_sec_per_ip (bd_config bd)) (addr_ip remote) (ev_now env) in
    let e1 := set_ep_rate e t' last in
    if ok then
      match accept_challenge env (bd_socket bd) remote cc (bd_identity bd) (bd_factory bd) None
              CipherSuite_default with
      | Err _ => (e1, None)
      | Ok (c, sent) => (add_conn e1 remote c true, Some (length (ep_store e1), sent))
      end
    else (e1, None).

(** Hand the packet to the connection; remove it from the table if it closed.
    [None]: the handler panicked and the receive task is gone. *)
Definition dispatch (env : Env) (e : Endpoint) (remote : SocketAddr) (h : nat) (pkt : list byte) (sent : list (Z * list byte))
  : option (Endpoint * list (Z * list byte)) :=
  match ep_store e !! h with
  | None => None
  | Some c =>
      match on_packet env pkt (c, sent) with
      | Panic => None
      | Done _ s | Fail _ s =>
          let e1 := set_ep_conn e h s.1 in
          Some (if is_closed s.1 then set_ep_conns e1 (delete remote (ep_conns e1)) else e1, s.2)
      end
  end.

(** One iteration of [recv_loop]. *)
Definition recv_one (bd : Bound) (env : Env) (cc : T) (e : Endpoint) (remote : SocketAddr) (pkt : list byte)
  : option (Endpoint * list (Z * list byte)) :=
  match ep_conns e !! remote with
  | Some h => dispatch env e remote h pkt []
  | None =>
      match admit_new bd env cc e remote with
      | (e1, None) => Some (e1, [])
      | (e1, Some (h, sent)) => dispatch env e1 remote h pkt sent
      end
  end.

(** [Endpoint::connect]. *)
Definition Endpoint_connect (bd : Bound) (env : Env) (cc : T) (e : Endpoint) (remote : SocketAddr)
  (server_x25519 : list byte) (server_kem_pk : KemPublicKey) (preferred : CipherSuite)
  : Endpoint * Result (nat * list (Z * list byte)) SeamError :=
  match connect env (bd_socket bd) remote cc (bd_identity bd) server_x25519 server_kem_pk preferred with
  | Err err => (e, Err err)
  | Ok (c, sent) => (add_conn e remote c false, Ok (length (ep_store e), sent))
  end.

(** ** The sweep *)

Definition CLEANUP_INTERVAL : Z := from_secs 10.

Definition sweepable (env : Env) (e : Endpoint) (h : nat) : bool :=
  match ep_store e !! h with
  | Some c => is_closed c || is_stale env c
  | None => false
  end.

(** The addresses found closed or stale ... *)
Definition sweep_scan (env : Env) (e : Endpoint) : list SocketAddr :=
  map fst (filter (fun x => sweepable env e x.2 = true) (map_to_list (ep_conns e))).

(** ... and their removal, under a second lock. *)
Definition sweep_evict (stale : list SocketAddr) (e : Endpoint) : Endpoint :=
  set_ep_conns e (foldr delete (ep_conns e) stale).

Definition sweep (env : Env) (e : Endpoint) : Endpoint := sweep_evict (sweep_scan env e) e.

End EndpointCode.

(** ** Histories *)

Inductive EpOp {C : Crypto} {K : Kem} {D : MlDsa} {T : Type} : Type :=
  | EpRecv (env : Env) (cc : T) (remote : SocketAddr) (pkt : list byte)
  | EpConnect (env : Env) (cc : T) (remote : SocketAddr) (pin : list byte) (pk : KemPublicKey) (pref : CipherSuite)
  | EpSweep (env : Env)
  | EpUse (env : Env) (h : nat) (op : ConnOp (T := T)).   (* by the application or its tick loop *)

Section Histories.
Context {C : Crypto} {X : X25519} {K : Kem} {D : MlDsa} {H : PlainHash} {N : Noise} {M : Libm}.
Context {T : Type} {CC : CongestionControl T}.
Implicit Types e : Endpoint (T := T).

Definition ep_exec (bd : Bound) (op : EpOp (T := T)) e : option Endpoint :=
  match op with
  | EpRecv env cc remote pkt => fst <$> recv_one bd env cc e remote pkt
  | EpConnect env cc remote pin pk pref => Some (Endpoint_connect bd env cc e remote pin pk pref).1
  | EpSweep env => Some (sweep env e)
  | EpUse env h op =>
      match ep_store e !! h with
      | None => Some e
      | Some c => match run_op env op (c, []) with
                  | Panic => None
                  | Done _ s | Fail _ s => Some (set_ep_conn e h s.1)
                  end
      end
  end.

Fixpoint ep_run (bd : Bound) (ops : list EpOp) e : option Endpoint :=
  match ops with
  | [] => Some e
  | op :: ops => match ep_exec bd op e with Some e' => ep_run bd ops e' | None => None end
  end.

Definition is_connect (op : EpOp (T := T)) : bool := match op with EpConnect _ _ _ _ _ _ => true | _ => false end.

(** *** What one step does to the store *)

Definition store_grows e e' : Prop :=
  forall h c, ep_store e !! h = Some c -> exists c', ep_store e' !! h = Some c' /\ rtc conn_step c c'.

Definition store_origin e : Prop :=
  forall h c, ep_store e !! h = Some c -> exists c0, fresh c0 /\ rtc conn_step c0 c.

Lemma store_grows_refl e : store_grows e e.
Proof. intros h c Hc. exists c. split; [done|apply rtc_refl]. Qed.

Lemma store_grows_trans e1 e2 e3 : store_grows e1 e2 -> store_grows e2 e3 -> store_grows e1 e3.
Proof.
  intros H1 H2 h c Hc. destruct (H1 h c Hc) as (c' & Hc' & R1). destruct (H2 h c' Hc') as (c'' & ? & R2).
  exists c''. split; [done|by etrans].
Qed.

Lemma set_ep_conn_grows e h c c' :
  ep_store e !! h = Some c -> rtc conn_step c c' -> store_grows e (set_ep_conn e h c').
Proof.
  intros Hc Hs h' c1 Hc1. cbn. destruct (decide (h = h')) as [<-|Hne].
  - exists c'. rewrite Hc in Hc1. injection Hc1 as <-. split; [|done].
    apply list_lookup_insert_eq. by eapply lookup_lt_Some.
  - exists c1. rewrite list_lookup_insert_ne by done. split; [done|apply rtc_refl].
Qed.

Lemma set_ep_conn_origin e h c c' :
  ep_store e !! h = Some c -> rtc conn_step c c' -> store_origin e -> store_origin (set_ep_conn e h c').
Proof.
  intros Hc Hs Ho h' c1 Hc1. cbn in Hc1. destruct (decide (h = h')) as [<-|Hne].
  - rewrite list_lookup_insert_eq in Hc1 by (by eapply lookup_lt_Some). injection Hc1 as <-.
    destruct (Ho h c Hc) as (c0 & ? & ?). exists c0. split; [done|by etrans].
  - rewrite list_lookup_insert_ne in Hc1 by done. by apply (Ho h').
Qed.

Lemma add_conn_grows e remote c b : store_grows e (add_conn e remote c b).
Proof.
  intros h c1 Hc1. exists c1. split; [|apply rtc_refl]. cbn. by apply lookup_app_l_Some.
Qed.

Lemma add_conn_origin e remote c b : fresh c -> store_origin e -> store_origin (add_conn e remote c b).
Proof.
  intros Hf Ho h c1 Hc1. cbn in Hc1. apply lookup_app_Some in Hc1 as [Hc1|[_ Hc1]]; [by apply (Ho h)|].
  apply list_lookup_singleton_Some in Hc1 as [_ <-]. exists c. split; [done|apply rtc_refl].
Qed.

Lemma run_op_step env op c out r s :
  run_op (T := T) env op (c, out) = r -> (exists u, r = Done u s) \/ (exists x, r = Fail x s) -> conn_step c s.1.
Proof.
  intros Hr [[[] ->]|[x ->]]; [by eapply (step_done c s.1 env op)|by eapply (step_fail c s.1 env op)].
Qed.
(** *** The table *)

Definition table_ok e : Prop :=
  forall a h, ep_conns e !! a = Some h -> exists c, ep_store e !! h = Some c /\ cn_remote c = a.

Lemma conn_step_remote (c c' : Connection (T := T)) : conn_step c c' -> cn_remote c' = cn_remote c.
Proof.
  intros Hs. apply (conn_step_keeps (fun x => cn_remote x = cn_remote c) c c'); try done.
  - unfold hs_frame. repeat (split; [done|]). intros env r c0. unfold install_session.
    by destruct (match cn_server_identity c0 with Some _ => _ | None => _ end).
  - intros c0. unfold tick_fec. by case_match.
Qed.

Lemma conn_steps_remote (c c' : Connection (T := T)) : rtc conn_step c c' -> cn_remote c' = cn_remote c.
Proof. induction 1 as [|c1 c2 c3 Hs _ IH]; [done|]. rewrite IH. by apply conn_step_remote. Qed.

Lemma table_ok_grows e e' : ep_conns e' = ep_conns e -> store_grows e e' -> table_ok e -> table_ok e'.
Proof.
  intros E Hg Ht a h Ha. rewrite E in Ha. destruct (Ht a h Ha) as (c & Hc & Hr).
  destruct (Hg h c Hc) as (c' & Hc' & Hs). exists c'. split; [done|]. by rewrite (conn_steps_remote c c' Hs).
Qed.

Lemma table_ok_sub e m : m ⊆ ep_conns e -> table_ok e -> table_ok (set_ep_conns e m).
Proof. intros Hm Ht a h Ha. apply Ht. by eapply lookup_weaken. Qed.

Lemma table_ok_add e remote c b : cn_remote c = remote -> table_ok e -> table_ok (add_conn e remote c b).
Proof.
  intros Hc Ht a h Ha. cbn in *. apply lookup_insert_Some in Ha as [[<- <-]|[_ Ha]].
  - exists c. split; [|done]. by rewrite lookup_app_r, Nat.sub_diag.
  - destruct (Ht a h Ha) as (c' & Hc' & ?). exists c'. split; [|done]. by apply lookup_app_l_Some.
Qed.

(** *** The whole invariant *)

Record ep_inv (n : Z) e : Prop := {
  ei_origin : store_origin e;
  ei_table : table_ok e;
  ei_size : Z.of_nat (size (ep_conns e)) <= n
}.

Lemma size_insert_le (m : gmap SocketAddr nat) a h : (size (<[a := h]> m) <= S (size m))%nat.
Proof.
  destruct (m !! a) eqn:E; [rewrite (map_size_insert_Some a h) by (by eexists); lia|].
  rewrite map_size_insert_None by done. lia.
Qed.

Lemma ep_inv_use n e h c c' :
  ep_store e !! h = Some c -> rtc conn_step c c' -> ep_inv n e ->
  ep_inv n (set_ep_conn e h c') /\ store_grows e (set_ep_conn e h c').
Proof.
  intros Hc Hs [Ho Ht Hn]. pose proof (set_ep_conn_grows e h c c' Hc Hs) as Hg. split; [|done].
  split; [by eapply set_ep_conn_origin|by apply (table_ok_grows e)|done].
Qed.

Lemma ep_inv_sub n e m : m ⊆ ep_conns e -> ep_inv n e -> ep_inv n (set_ep_conns e m) /\ store_grows e (set_ep_conns e m).
Proof.
  intros Hm [Ho Ht Hn]. split; [|intros h c Hc; by exists c]. split; [done|by apply table_ok_sub|].
  cbn. pose proof (map_subseteq_size _ _ Hm). lia.
Qed.

Lemma ep_inv_add n e remote c b :
  fresh c -> cn_remote c = remote -> Z.of_nat (size (ep_conns e)) < n -> ep_inv n e ->
  ep_inv n (add_conn e remote c b) /\ store_grows e (add_conn e remote c b).
Proof.
  intros Hf Hr Hlt [Ho Ht Hn]. split; [|apply add_conn_grows].
  split; [by apply add_conn_origin|by apply table_ok_add|]. cbn.
  pose proof (size_insert_le (ep_conns e) remote (length (ep_store e))). lia.
Qed.

Lemma ep_inv_mono n n' e : n <= n' -> ep_inv n e -> ep_inv n' e.
Proof. intros Hn [Ho Ht Hs]. split; [done|done|lia]. Qed.

(** Packets *)

Lemma ep_dispatch_inv n env e remote h pkt sent e' sent' :
  dispatch env e remote h pkt sent = Some (e', sent') -> ep_inv n e -> ep_inv n e' /\ store_grows e e'.
Proof.
  unfold dispatch. destruct (ep_store e !! h) as [c|] eqn:Ec; [|done]. intros Hd Hi.
  assert (Hstep : forall s, (exists u, on_packet env pkt (c, sent) = Done u s)
    \/ (exists x, on_packet env pkt (c, sent) = Fail x s) ->
    let e1 := set_ep_conn e h s.1 in
    let e2 := if is_closed s.1 then set_ep_conns e1 (delete remote (ep_conns e1)) else e1 in
    ep_inv n e2 /\ store_grows e e2).
  { intros s Hs e1. pose proof (run_op_step env (OpPacket pkt) c sent _ s eq_refl Hs) as Hst.
    destruct (ep_inv_use n e h c s.1 Ec (rtc_once _ _ Hst) Hi) as [Hi1 Hg1]. destruct (is_closed s.1); [|done].
    destruct (ep_inv_sub n e1 (delete remote (ep_conns e1)) (delete_subseteq _ _) Hi1) as [Hi2 Hg2].
    split; [done|]. by eapply store_grows_trans. }
  destruct (on_packet env pkt (c, sent)) as [u s|x s|] eqn:Er; [| |done]; injection Hd as <- _;
    apply Hstep; eauto.
Qed.

Lemma set_ep_rate_inv n e t l : ep_inv n e -> ep_inv n (set_ep_rate e t l).
Proof. by intros [Ho Ht Hn]; split. Qed.

Lemma accept_fresh env sock remote cc ids f tk pref (c : Connection (T := T)) sent :
  accept_challenge env sock remote cc ids f tk pref = Ok (c, sent) -> fresh c /\ cn_remote c = remote
  /\ cn_phase c = ServerWaitCookie /\ cn_cookie_factory c = Some f /\ cn_last_recv c = ev_now env.
Proof.
  intros Hc. split; [by eapply fresh_server|]. revert Hc. unfold accept_challenge, new_base, new_base_with_tar.
  case_match; [done|]. generalize FecArbiter_new (BbrController_new (ev_now env)) (TarState_new TarConfig_disabled).
  intros a b t Hc. by injection Hc as <- _.
Qed.

Lemma connect_fresh env sock remote cc idc pin pk pref tar (c : Connection (T := T)) sent :
  connect_with_tar env sock remote cc idc pin pk pref tar = Ok (c, sent) ->
  fresh c /\ cn_remote c = remote /\ cn_last_recv c = ev_now env.
Proof.
  intros Hc. split; [by eapply fresh_client|]. revert Hc. unfold connect_with_tar, new_base_with_tar.
  case_match; [done|]. destruct (ClientHandshake_new_with_cipher _ _ _ _); [|done].
  generalize FecArbiter_new (BbrController_new (ev_now env)) (TarState_new tar).
  intros x y z Hc. by injection Hc as <- _.
Qed.

Lemma admit_new_inv n bd env cc e remote e1 r :
  admit_new bd env cc e remote = (e1, r) -> max_connections (bd_config bd) <= n -> ep_inv n e ->
  ep_inv n e1 /\ store_grows e e1.
Proof.
  unfold admit_new. destruct (_ <=? _) eqn:Em; [intros [= <- _] _ Hi; split; [done|apply store_grows_refl]|].
  apply Z.leb_gt in Em. destruct (rate_cleanup _ _ _) as [t last].
  destruct (rate_take _ _ _ _) as [ok t']. destruct ok.
  - destruct (accept_challenge _ _ _ _ _ _ _ _) as [[c sent]|] eqn:Ea.
    + apply accept_fresh in Ea as (Hf & Hr & _). intros [= <- _] Hn Hi.
      apply (ep_inv_add n (set_ep_rate e t' last)); [done|done|cbn; lia|by apply set_ep_rate_inv].
    + intros [= <- _] _ Hi. split; [by apply set_ep_rate_inv|]. intros h c Hc. by exists c.
  - intros [= <- _] _ Hi. split; [by apply set_ep_rate_inv|]. intros h c Hc. by exists c.
Qed.

Lemma foldr_delete_sub (l : list SocketAddr) (m : gmap SocketAddr nat) : foldr delete m l ⊆ m.
Proof. induction l as [|a l IH]; [done|]. cbn. etrans; [apply delete_subseteq|done]. Qed.

(** One step keeps the invariant, the limit growing by one with each outgoing
    connection. *)
Lemma ep_exec_inv n bd op e e' :
  ep_exec bd op e = Some e' -> max_connections (bd_config bd) <= n -> ep_inv n e ->
  ep_inv (n + (if is_connect op then 1 else 0)) e' /\ store_grows e e'.
Proof.
  destruct op as [env cc remote pkt|env cc remote pin pk pref|env|env h op]; cbn [ep_exec is_connect];
    intros He Hn Hi; rewrite ?Z.add_0_r.
  - unfold recv_one in He. destruct (ep_conns e !! remote) as [h|].
    + destruct (dispatch _ _ _ _ _ _) as [[e1 sent]|] eqn:Ed; [|done]. injection He as <-.
      by eapply ep_dispatch_inv.
    + destruct (admit_new _ _ _ _ _) as [e1 r] eqn:Ea.
      destruct (admit_new_inv n bd env cc e remote e1 r Ea Hn Hi) as [Hi1 Hg1]. destruct r as [[h sent]|].
      * destruct (dispatch _ _ _ _ _ _) as [[e2 sent']|] eqn:Ed; [|done]. injection He as <-.
        destruct (ep_dispatch_inv n env e1 remote h pkt sent e2 sent' Ed Hi1). split; [done|].
        by eapply store_grows_trans.
      * by injection He as <-.
  - injection He as <-. unfold Endpoint_connect, connect. destruct (connect_with_tar _ _ _ _ _ _ _ _ _) as [[c sent]|] eqn:Ec.
    + apply connect_fresh in Ec as (Hf & Hr & _). cbn [fst].
      apply ep_inv_add; [done|done| |by eapply ep_inv_mono; [|done]; lia].
      destruct Hi. lia.
    + split; [eapply ep_inv_mono; [|done]; lia|apply store_grows_refl].
  - injection He as <-. unfold sweep, sweep_evict. by apply ep_inv_sub; [apply foldr_delete_sub|].
  - destruct (ep_store e !! h) as [c|] eqn:Ec; [|injection He as <-; by split; [|apply store_grows_refl]].
    destruct (run_op env op (c, [])) as [u s|x s|] eqn:Er; [| |done]; injection He as <-;
      apply (ep_inv_use n e h c); try done; apply rtc_once, (run_op_step env op c [] _ s Er); eauto.
Qed.

Definition connects (ops : list (EpOp (T := T))) : Z := Z.of_nat (length (List.filter is_connect ops)).

Lemma ep_run_inv bd ops : forall n e e',
  ep_run bd ops e = Some e' -> max_connections (bd_config bd) <= n -> ep_inv n e ->
  ep_inv (n + connects ops) e' /\ store_grows e e'.
Proof.
  unfold connects. induction ops as [|op ops IH]; intros n e e'; cbn [ep_run List.filter].
  { intros [= <-] _ Hi. cbn. rewrite Z.add_0_r. split; [done|apply store_grows_refl]. }
  destruct (ep_exec bd op e) as [e1|] eqn:Eo; [|done]. intros Hr Hn Hi.
  destruct (ep_exec_inv n bd op e e1 Eo Hn Hi) as [Hi1 Hg1].
  destruct (IH (n + (if is_connect op then 1 else 0)) e1 e' Hr ltac:(destruct (is_connect op); lia) Hi1) as [Hi2 Hg2].
  split; [|by eapply store_grows_trans]. eapply ep_inv_mono; [|exact Hi2].
  destruct (is_connect op); cbn [length]; lia.
Qed.

Lemma Endpoint_new_inv n now : 0 <= n -> ep_inv n (Endpoint_new now).
Proof.
  intros Hn. split.
  - by intros h c Hc.
  - intros a h Ha. cbn in Ha. by rewrite lookup_empty in Ha.
  - cbn. rewrite map_size_empty. lia.
Qed.

(** C14: The connection table.  In every history of packets, outgoing
    connections, sweeps and uses of the connections: the table holds at most
    [max_connections] entries plus one per outgoing connection made, so what
    peers alone can fill is bounded by the limit; every entry leads to a
    connection with that entry's remote; and every connection there, in or out
    of the table, came out of [connect] or [accept_challenge] by the steps of
    the phase machine and satisfies its invariant. *)
Theorem endpoint_table_bounded bd now ops e :
  0 <= max_connections (bd_config bd) -> ep_run bd ops (Endpoint_new now) = Some e ->
  Z.of_nat (size (ep_conns e)) <= max_connections (bd_config bd) + connects ops
  /\ (forall a h, ep_conns e !! a = Some h -> exists c, ep_store e !! h = Some c /\ cn_remote c = a)
  /\ (forall h c, ep_store e !! h = Some c -> phase_inv c).
Proof.
  intros Hm Hr. destruct (ep_run_inv bd ops _ _ e Hr (Z.le_refl _) (Endpoint_new_inv _ now Hm)) as [[Ho Ht Hn] _].
  split; [done|]. split; [done|]. intros h c Hc. destruct (Ho h c Hc) as (c0 & Hf & Hs).
  pose proof (fresh_inv c0 Hf) as Hi. clear Hf Hc. induction Hs as [|c1 c2 c3 Hst _ IH]; [done|].
  apply IH. by apply (conn_step_machine c1 c2).
Qed.

(** *** The sweep *)

Lemma foldr_delete_lookup (l : list SocketAddr) (m : gmap SocketAddr nat) a :
  foldr delete m l !! a = if decide (a ∈ l) then None else m !! a.
Proof.
  induction l as [|b l IH]; cbn [foldr].
  { by rewrite decide_False by apply not_elem_of_nil. }
  destruct (decide (a = b)) as [->|Hne].
  - rewrite lookup_delete_eq, decide_True by (by left). done.
  - rewrite lookup_delete_ne, IH by done. destruct (decide (a ∈ l)) as [Hi|Hi].
    + by rewrite decide_True by (by right).
    + rewrite decide_False; [done|]. intros Hin. apply elem_of_cons in Hin as [?|?]; done.
Qed.

Lemma elem_of_sweep_scan env e a :
  a ∈ sweep_scan env e <-> exists h, ep_conns e !! a = Some h /\ sweepable env e h = true.
Proof.
  unfold sweep_scan. rewrite list_elem_of_fmap. split.
  - intros ([a' h] & -> & Hin). apply list_elem_of_filter in Hin as [Hs Hin].
    apply elem_of_map_to_list in Hin. by exists h.
  - intros (h & Hc & Hs). exists (a, h). split; [done|]. apply list_elem_of_filter.
    split; [done|]. by apply elem_of_map_to_list.
Qed.

(** One sweep removes from the table exactly the entries whose connection is
    closed or stale at that time and leaves the others, the connections
    themselves and everything else as they were. *)
Theorem sweep_exact env e a :
  ep_conns (sweep env e) !! a
  = match ep_conns e !! a with
    | Some h => match ep_store e !! h with
                | Some c => if is_closed c || is_stale env c then None else Some h
                | None => Some h
                end
    | None => None
    end
  /\ ep_store (sweep env e) = ep_store e /\ ep_accepted (sweep env e) = ep_accepted e
  /\ ep_ip_rate (sweep env e) = ep_ip_rate e.
Proof.
  split; [|done]. unfold sweep, sweep_evict. cbn [ep_conns set_ep_conns]. rewrite foldr_delete_lookup.
  destruct (decide (a ∈ sweep_scan env e)) as [Hi|Hi].
  - apply elem_of_sweep_scan in Hi as (h & Hc & Hs). rewrite Hc. unfold sweepable in Hs.
    destruct (ep_store e !! h); [by rewrite Hs|done].
  - destruct (ep_conns e !! a) as [h|] eqn:Ec; [|done].
    assert (Hs : sweepable env e h = false).
    { apply not_true_is_false. intros Hs. apply Hi, elem_of_sweep_scan. by exists h. }
    unfold sweepable in Hs. destruct (ep_store e !! h); [by rewrite Hs|done].
Qed.

Lemma sweep_lookup env e a h c :
  ep_store e !! h = Some c -> is_closed c || is_stale env c = true ->
  ep_conns (sweep env e) !! a <> Some h.
Proof.
  intros Hc Hs Ha. unfold sweep, sweep_evict in Ha. cbn [ep_conns set_ep_conns] in Ha.
  rewrite foldr_delete_lookup in Ha. destruct (decide (a ∈ sweep_scan env e)) as [|Hn]; [done|].
  apply Hn, elem_of_sweep_scan. exists h. split; [done|]. unfold sweepable. by rewrite Hc.
Qed.

(** C17: An abandoned handshake cannot keep its place.  Take a connection that is
    new at some moment, in the table under any address, and any history after
    it: packets for it and for others, new connections, sweeps, uses.  If by
    then it is not established, the first sweep that runs 30 seconds or more
    after it was made leaves no entry leading to it, whatever packets came. *)
Theorem abandoned_slot_reclaimed bd n ops e e' h c c' env a :
  max_connections (bd_config bd) <= n -> ep_inv n e ->
  ep_store e !! h = Some c -> fresh c ->
  ep_run bd ops e = Some e' -> ep_store e' !! h = Some c' -> cn_phase c' <> Established ->
  cn_last_recv c + HANDSHAKE_TIMEOUT <= ev_now env ->
  ep_conns (sweep env e') !! a <> Some h.
Proof.
  intros Hn Hi Hc Hf Hr Hc' Hp Ht. destruct (ep_run_inv bd ops n e e' Hr Hn Hi) as [_ Hg].
  destruct (Hg h c Hc) as (c2 & Hc2 & Hs). rewrite Hc' in Hc2. injection Hc2 as <-.
  apply (sweep_lookup env e' a h c' Hc'). destruct (decide (cn_phase c' = Draining)) as [E|E].
  { unfold is_closed. by rewrite E. }
  apply orb_true_iff. right.
  destruct (early_last_recv c c' Hs (fresh_inv c Hf)) as [Hl Hinv]; [by intros [?|?]|].
  assert (Hb : (HANDSHAKE_TIMEOUT <=? elapsed env (cn_last_recv c')) = true).
  { apply Z.leb_le. unfold elapsed, duration_since, saturating_sub. rewrite Hl. lia. }
  unfold is_stale. unfold phase_inv in Hinv. destruct (cn_phase c'); done.
Qed.

(** *** Admission *)

(** A full table answers an unknown peer with nothing at all, not even the
    stateless challenge: the endpoint is unchanged and nothing is sent. *)
Theorem full_table_drops bd env cc e remote pkt :
  ep_conns e !! remote = None -> max_connections (bd_config bd) <= Z.of_nat (size (ep_conns e)) ->
  recv_one bd env cc e remote pkt = Some (e, []).
Proof.
  intros Hr Hm. unfold recv_one, admit_new. rewrite Hr. by rewrite (proj2 (Z.leb_le _ _) Hm).
Qed.

(** A packet from an unknown address, its cookie not the right one. *)
Lemma recv_unknown_run bd env cc e remote pkt t last t' c sent :
  ep_conns e !! remote = None -> Z.of_nat (size (ep_conns e)) < max_connections (bd_config bd) ->
  rate_cleanup (ep_ip_rate e) (ep_last_cleanup e) (ev_now env) = (t, last) ->
  rate_take t (max_new_conns_per_sec_per_ip (bd_config bd)) (addr_ip remote) (ev_now env) = (true, t') ->
  accept_challenge env (bd_socket bd) remote cc (bd_identity bd) (bd_factory bd) None CipherSuite_default
    = Ok (c, sent) ->
  CookieFactory_verify (bd_factory bd) (addr_to_string remote) (slice pkt 1 33) (ev_unix_secs env) = false ->
  exists e', recv_one bd env cc e remote pkt = Some (e', sent)
    /\ ep_conns e' = <[remote := length (ep_store e)]> (ep_conns e)
    /\ size (ep_conns e') = S (size (ep_conns e))
    /\ ep_accepted e' = ep_accepted e ++ [length (ep_store e)]
    /\ ep_store e' = ep_store e ++ [c].
Proof.
  intros Hn Hm Hc Ht Ha Hv. unfold recv_one, admit_new. rewrite Hn.
  rewrite (proj2 (Z.leb_gt _ _) Hm), Hc, Ht, Ha.
  apply accept_fresh in Ha as (_ & Hr & Hp & Hf & _).
  set (e1 := add_conn (set_ep_rate e t' last) remote c true). unfold dispatch.
  assert (Hl : ep_store e1 !! length (ep_store (set_ep_rate e t' last)) = Some c)
    by (cbn; by rewrite lookup_app_r, Nat.sub_diag).
  rewrite Hl. rewrite <- Hr in Hv. pose proof (bad_cookie_run env pkt c (bd_factory bd) sent Hp Hf Hv) as Hrun.
  assert (Hset : set_ep_conn e1 (length (ep_store (set_ep_rate e t' last))) c = e1).
  { unfold set_ep_conn. rewrite list_insert_id by done. done. }
  assert (Hfin : exists e', Some (if is_closed (T := T) c then set_ep_conns e1 (delete remote (ep_conns e1)) else e1, sent)
    = Some (e', sent)
    /\ ep_conns e' = <[remote := length (ep_store e)]> (ep_conns e)
    /\ size (ep_conns e') = S (size (ep_conns e))
    /\ ep_accepted e' = ep_accepted e ++ [length (ep_store e)]
    /\ ep_store e' = ep_store e ++ [c]).
  { unfold is_closed. rewrite Hp. exists e1. split; [done|]. split; [done|]. split; [|done].
    cbn. by apply map_size_insert_None. }
  destruct (on_packet env pkt (c, sent)) as [u s|x s|];
    [destruct Hrun as [_ Es]|rename Hrun into Es|done];
    subst s; cbn [fst snd]; rewrite Hset; exact Hfin.
Qed.

(** State before the cookie.  Any first datagram from an unknown address,
    with no cookie or a wrong one, makes the endpoint allocate a connection,
    put it in the table and announce it to the application as accepted; the
    challenge is sent as well.  Nothing about the peer has been checked by
    then, the sender's address included. *)
Theorem unknown_peer_allocates bd env cc e remote pkt t last t' c sent :
  ep_conns e !! remote = None -> Z.of_nat (size (ep_conns e)) < max_connections (bd_config bd) ->
  rate_cleanup (ep_ip_rate e) (ep_last_cleanup e) (ev_now env) = (t, last) ->
  rate_take t (max_new_conns_per_sec_per_ip (bd_config bd)) (addr_ip remote) (ev_now env) = (true, t') ->
  accept_challenge env (bd_socket bd) remote cc (bd_identity bd) (bd_factory bd) None CipherSuite_default
    = Ok (c, sent) ->
  CookieFactory_verify (bd_factory bd) (addr_to_string remote) (slice pkt 1 33) (ev_unix_secs env) = false ->
  exists e', recv_one bd env cc e remote pkt = Some (e', sent)
    /\ ep_conns e' = <[remote := length (ep_store e)]> (ep_conns e)
    /\ size (ep_conns e') = S (size (ep_conns e))
    /\ ep_accepted e' = ep_accepted e ++ [length (ep_store e)]
    /\ ep_store e' = ep_store e ++ [c].
Proof.
  intros Hn Hm Hc Ht Ha Hv. by apply (recv_unknown_run bd env cc e remote pkt t last t' c sent).
Qed.

End Histories.

(** ** The burst a peer address gets *)

(** [n] attempts from one address at one instant. *)
Fixpoint burst (n : nat) (t : RateTable) (max_per_sec : Z) (ip : IpAddr) (now : Z) : list bool :=
  match n with
  | O => []
  | S n => let '(ok, t') := rate_take t max_per_sec ip now in ok :: burst n t' max_per_sec ip now
  end.

Lemma duration_since_self now : duration_since now now = 0.
Proof. unfold duration_since. unfold saturating_sub. lia. Qed.

Lemma rate_take_now t ip now k v v' ok :
  t !! ip = Some (v, now) ->
  (let tokens := float_min (f64_add v (f64_mul (as_secs_f64 0) (f64_of k))) (f64_of k) in
   if SpecFloat.SFltb tokens (f64_of 1) then (false, tokens) else (true, f64_sub tokens (f64_of 1))) = (ok, v') ->
  rate_take t k ip now = (ok, <[ip := (v', now)]> t).
Proof.
  intros Ht He. unfold rate_take. rewrite Ht. cbn [from_option id]. rewrite duration_since_self. cbv zeta in He.
  destruct (SpecFloat.SFltb _ _); injection He as <- <-; done.
Qed.

Lemma burst_spent n : forall t ip now v,
  t !! ip = Some (v, now) ->
  (let tokens := float_min (f64_add v (f64_mul (as_secs_f64 0) (f64_of 10))) (f64_of 10) in
   SpecFloat.SFltb tokens (f64_of 1) = true /\ tokens = v) ->
  burst n t 10 ip now = replicate n false.
Proof.
  induction n as [|n IH]; [done|]. intros t ip now v Ht [H1 H2]. cbn [burst replicate].
  rewrite (rate_take_now t ip now 10 v v false Ht) by (cbv zeta; by rewrite H1, H2).
  f_equal. apply (IH _ _ _ v); [apply lookup_insert_eq|by split].
Qed.

Lemma burst_step n t ip now v v' :
  t !! ip = Some (v, now) ->
  (let tokens := float_min (f64_add v (f64_mul (as_secs_f64 0) (f64_of 10))) (f64_of 10) in
   if SpecFloat.SFltb tokens (f64_of 1) then (false, tokens) else (true, f64_sub tokens (f64_of 1))) = (true, v') ->
  exists t', t' !! ip = Some (v', now) /\ burst (S n) t 10 ip now = true :: burst n t' 10 ip now.
Proof.
  intros Ht He. exists (<[ip := (v', now)]> t). split; [apply lookup_insert_eq|]. cbn [burst].
  by rewrite (rate_take_now t ip now 10 v v' true Ht He).
Qed.

(** The default limit is exact in floating point: of any number of
    connection attempts an address makes at one instant, starting with no
    entry of its own, the first ten are admitted and all others refused. *)
Theorem default_burst_is_ten n t ip now :
  t !! ip = None -> burst (10 + n) t 10 ip now = replicate 10 true ++ replicate n false.
Proof.
  intros Ht.
  assert (H1 : exists t1, t1 !! ip = Some (f64_of 9, now)
    /\ burst (10 + n) t 10 ip now = true :: burst (9 + n) t1 10 ip now).
  { exists (<[ip := (f64_of 9, now)]> t). split; [apply lookup_insert_eq|]. cbn [burst Nat.add].
    unfold rate_take at 1. rewrite Ht. cbn [from_option id]. rewrite duration_since_self.
    change (float_min (f64_add (f64_of 10) (f64_mul (as_secs_f64 0) (f64_of 10))) (f64_of 10)) with (f64_of 10).
    change (SpecFloat.SFltb (f64_of 10) (f64_of 1)) with false.
    change (f64_sub (f64_of 10) (f64_of 1)) with (f64_of 9). done. }
  destruct H1 as (t1 & L1 & ->).
  destruct (burst_step (8 + n) t1 ip now _ (f64_of 8) L1 eq_refl) as (t2 & L2 & E2).
  destruct (burst_step (7 + n) t2 ip now _ (f64_of 7) L2 eq_refl) as (t3 & L3 & E3).
  destruct (burst_step (6 + n) t3 ip now _ (f64_of 6) L3 eq_refl) as (t4 & L4 & E4).
  destruct (burst_step (5 + n) t4 ip now _ (f64_of 5) L4 eq_refl) as (t5 & L5 & E5).
  destruct (burst_step (4 + n) t5 ip now _ (f64_of 4) L5 eq_refl) as (t6 & L6 & E6).
  destruct (burst_step (3 + n) t6 ip now _ (f64_of 3) L6 eq_refl) as (t7 & L7 & E7).
  destruct (burst_step (2 + n) t7 ip now _ (f64_of 2) L7 eq_refl) as (t8 & L8 & E8).
  destruct (burst_step (1 + n) t8 ip now _ (f64_of 1) L8 eq_refl) as (t9 & L9 & E9).
  destruct (burst_step n t9 ip now _ (f64_of 0) L9 eq_refl) as (t10 & L10 & E10).
  cbn [Nat.add] in *. rewrite E2, E3, E4, E5, E6, E7, E8, E9, E10.
  rewrite (burst_spent n t10 ip now (f64_of 0) L10); [done|]. by split.
Qed.

(** ** Witnesses *)

Definition test_bound (limit : Z) : Bound := mkBound 2 test_fresh test_cookies (mkEndpointConfig limit 10).

Definition test_recv : EpOp (T := Aimd) := EpRecv (test_env 0) Aimd_new test_addr_c [PKT_COOKIE_REQ].

Definition test_ep0 : Endpoint (T := Aimd) := Endpoint_new 0.

(** The connection and the datagram the first cookie request leads to. *)
Definition test_accepted : Result (Connection (T := Aimd) * list (Z * list byte)) SeamError :=
  accept_challenge (test_env 0) 2 test_addr_c Aimd_new test_fresh test_cookies None CipherSuite_default.

Definition test_conn : Connection (T := Aimd) :=
  match test_accepted with Ok (c, _) => c | Err _ => test_server end.

Definition test_sent : list (Z * list byte) :=
  [(2, PKT_COOKIE_CHALLENGE :: CookieFactory_generate test_cookies (addr_to_string test_addr_c) 1700000000)].

Lemma unknown_peer_allocates_witness :
  exists e', recv_one (test_bound 1) (test_env 0) Aimd_new test_ep0 test_addr_c [PKT_COOKIE_REQ]
             = Some (e', test_sent)
    /\ size (ep_conns e') = 1%nat /\ ep_accepted e' = [0%nat].
Proof.
  destruct (unknown_peer_allocates (test_bound 1) (test_env 0) Aimd_new test_ep0 test_addr_c [PKT_COOKIE_REQ]
    ∅ 0 {[inl 0x7F000002 := (f64_of 9, 0)]} test_conn test_sent) as (e' & H1 & _ & H3 & H4 & _);
    [reflexivity|reflexivity|reflexivity|reflexivity|reflexivity|vm_compute; reflexivity|].
  exists e'. split; [exact H1|]. split; [exact H3|exact H4].
Defined.

Lemma full_table_drops_witness :
  recv_one (test_bound 0) (test_env 0) Aimd_new test_ep0 test_addr_c [PKT_COOKIE_REQ] = Some (test_ep0, []).
Proof.
  apply (full_table_drops (test_bound 0) (test_env 0) Aimd_new test_ep0); [reflexivity|].
  vm_compute. discriminate.
Defined.

Lemma test_run : exists e, ep_run (test_bound 1) [test_recv] test_ep0 = Some e /\ ep_store e = [test_conn].
Proof.
  destruct (recv_unknown_run (test_bound 1) (test_env 0) Aimd_new test_ep0 test_addr_c [PKT_COOKIE_REQ]
    ∅ 0 {[inl 0x7F000002 := (f64_of 9, 0)]} test_conn test_sent) as (e' & H1 & _ & _ & _ & H5);
    [reflexivity|reflexivity|reflexivity|reflexivity|reflexivity|vm_compute; reflexivity|].
  exists e'. split; [|exact H5]. unfold test_recv. cbn [ep_run ep_exec]. by rewrite H1.
Qed.

Lemma endpoint_table_bounded_witness :
  exists e, ep_run (test_bound 1) [test_recv] test_ep0 = Some e /\ Z.of_nat (size (ep_conns e)) <= 1.
Proof.
  destruct test_run as (e & Hr & _). exists e. split; [exact Hr|].
  exact (proj1 (endpoint_table_bounded (test_bound 1) 0 [test_recv] e ltac:(cbn; lia) Hr)).
Defined.

Lemma abandoned_slot_reclaimed_witness :
  exists e, ep_run (test_bound 1) [test_recv] test_ep0 = Some e
    /\ ep_conns (sweep (test_env (from_secs 30)) e) !! test_addr_c <> Some 0%nat.
Proof.
  destruct test_run as (e & Hr & Hs). exists e. split; [exact Hr|].
  destruct (ep_run_inv (test_bound 1) [test_recv] 1 test_ep0 e Hr ltac:(cbn; lia) (Endpoint_new_inv 1 0 ltac:(lia)))
    as [Hi _].
  apply (abandoned_slot_reclaimed (test_bound 1) (1 + connects [test_recv]) [] e e 0 test_conn test_conn).
  - vm_compute. discriminate.
  - exact Hi.
  - by rewrite Hs.
  - eapply (fresh_server test_conn (test_env 0) 2 test_addr_c Aimd_new test_fresh test_cookies None
      CipherSuite_default test_sent). reflexivity.
  - reflexivity.
  - by rewrite Hs.
  - discriminate.
  - vm_compute. discriminate.
Defined.

Lemma default_burst_is_ten_witness :
  burst (10 + 5) (∅ : RateTable) 10 (inl 1) 7 = replicate 10 true ++ replicate 5 false.
Proof. apply (default_burst_is_ten 5 ∅). reflexivity. Defined.
