(* ===== verification/Text.v ===== *)
(** * Text

    The operations of Rust's [str] that the parsers of the program use, on
    UTF-8 bytes: white space by the Unicode property, ASCII case, prefixes,
    splitting, and decimal integers. *)

From Stdlib Require Import ZArith Lia Bool List String.
From Stdlib Require Import Strings.Byte.
From stdpp Require Import base list numbers option sorting.
From S2P Require Import Prelude TestCrypto Identity Net.

Open Scope Z_scope.

(** ** White space *)

(** The length of the white-space character [l] starts with; 0 if it starts
    with none: U+0009-000D, 0020, 0085, 00A0, 1680, 2000-200A, 2028, 2029, 202F,
    205F, 3000. *)
Definition ws_len (l : list byte) : nat :=
  match map byte_val (take 3 l) with
  | a :: r =>
      if ((9 <=? a) && (a <=? 13)) || (a =? 32) then 1%nat
      else match r with
      | b :: r' =>
          if (a =? 0xc2) && ((b =? 0x85) || (b =? 0xa0)) then 2%nat
          else match r' with
          | c :: _ =>
              if ((a =? 0xe1) && (b =? 0x9a) && (c =? 0x80))
                 || ((a =? 0xe2) && (b =? 0x80)
                     && (((0x80 <=? c) && (c <=? 0x8a)) || (c =? 0xa8) || (c =? 0xa9) || (c =? 0xaf)))
                 || ((a =? 0xe2) && (b =? 0x81) && (c =? 0x9f))
                 || ((a =? 0xe3) && (b =? 0x80) && (c =? 0x80))
              then 3%nat else 0%nat
          | [] => 0%nat
          end
      | [] => 0%nat
      end
  | [] => 0%nat
  end.

Fixpoint trim_start_fuel (fuel : nat) (l : list byte) : list byte :=
  match fuel with
  | O => l
  | S fuel => match ws_len l with O => l | n => trim_start_fuel fuel (drop n l) end
  end.

Definition trim_start (l : list byte) : list byte := trim_start_fuel (length l) l.

(** Whether [l] ends in a white-space character, by its length. *)
Definition ws_end_len (l : list byte) : nat :=
  let n := length l in
  if (ws_len (drop (n - 1) l) =? 1)%nat then 1%nat
  else if (ws_len (drop (n - 2) l) =? 2)%nat then 2%nat
  else if (ws_len (drop (n - 3) l) =? 3)%nat then 3%nat else 0%nat.

Fixpoint trim_end_fuel (fuel : nat) (l : list byte) : list byte :=
  match fuel with
  | O => l
  | S fuel => match ws_end_len l with O => l | n => trim_end_fuel fuel (take (length l - n) l) end
  end.

Definition trim_end (l : list byte) : list byte := trim_end_fuel (length l) l.

Definition trim (l : list byte) : list byte := trim_end (trim_start l).

(** ** ASCII case, prefixes, splitting *)

Definition ascii_lower (b : byte) : byte :=
  if (65 <=? byte_val b) && (byte_val b <=? 90) then byte_of (byte_val b + 32) else b.

Definition to_ascii_lowercase (l : list byte) : list byte := map ascii_lower l.

Fixpoint strip_prefix (p l : list byte) : option (list byte) :=
  match p, l with
  | [], _ => Some l
  | a :: p, b :: l => if Byte.eqb a b then strip_prefix p l else None
  | _ :: _, [] => None
  end.

Definition starts_with (p l : list byte) : bool :=
  match strip_prefix p l with Some _ => true | None => false end.

Definition ends_with (p l : list byte) : bool := starts_with (rev p) (rev l).

(** [str::split] on a character: never empty. *)
Fixpoint split (c : byte) (l : list byte) : list (list byte) :=
  match l with
  | [] => [[]]
  | b :: l =>
      if Byte.eqb b c then [] :: split c l
      else match split c l with
           | w :: ws => (b :: w) :: ws
           | [] => [[b]]
           end
  end.

(** [str::split_once] on a character. *)
Fixpoint split_once (c : byte) (l : list byte) : option (list byte * list byte) :=
  match l with
  | [] => None
  | b :: l =>
      if Byte.eqb b c then Some ([], l)
      else match split_once c l with
           | Some (x, y) => Some (b :: x, y)
           | None => None
           end
  end.

(** [str::rsplit_once] on a character. *)
Definition rsplit_once (c : byte) (l : list byte) : option (list byte * list byte) :=
  match split_once c (rev l) with
  | Some (x, y) => Some (rev y, rev x)
  | None => None
  end.

(** ** Integers *)

Definition digit_val (b : byte) : option Z :=
  if (48 <=? byte_val b) && (byte_val b <=? 57) then Some (byte_val b - 48) else None.

Fixpoint parse_digits (max acc : Z) (l : list byte) : option Z :=
  match l with
  | [] => Some acc
  | b :: l =>
      match digit_val b with
      | None => None
      | Some d => let acc' := acc * 10 + d in if max <? acc' then None else parse_digits max acc' l
      end
  end.

(** [str::parse] to an unsigned type with largest value [max]: an optional plus
    sign, then one digit at least, no overflow. *)
Definition parse_uint (max : Z) (l : list byte) : option Z :=
  match l with
  | [] => None
  | b :: r =>
      if Byte.eqb b x2b then match r with [] => None | _ => parse_digits max 0 r end
      else parse_digits max 0 l
  end.

(** ** Lemmas *)

Lemma byte_eqb_eq a b : Byte.eqb a b = true <-> a = b.
Proof. split; [apply Byte.byte_dec_bl|apply Byte.byte_dec_lb]. Qed.

Lemma byte_eqb_refl a : Byte.eqb a a = true.
Proof. by apply byte_eqb_eq. Qed.

Lemma byte_eqb_neq a b : a <> b -> Byte.eqb a b = false.
Proof. intros Hne. apply not_true_is_false. by rewrite byte_eqb_eq. Qed.

Lemma strip_prefix_app p l : strip_prefix p (p ++ l) = Some l.
Proof. induction p as [|a p IH]; cbn; [done|]. by rewrite byte_eqb_refl. Qed.

Lemma strip_prefix_Some p l r : strip_prefix p l = Some r <-> l = p ++ r.
Proof.
  split; [|intros ->; apply strip_prefix_app]. revert l.
  induction p as [|a p IH]; intros l; cbn; [by intros [= ->]|]. destruct l as [|b l]; [done|].
  destruct (Byte.eqb a b) eqn:E; [|done]. apply byte_eqb_eq in E as ->. intros Hr. by rewrite (IH l Hr).
Qed.

(** Splitting is undone by joining. *)
Lemma join_split c l : join [c] (split c l) = l.
Proof.
  assert (Hne : forall l, split c l <> []).
  { intros [|b l']; cbn; [done|]. destruct (Byte.eqb b c); [done|]. by destruct (split c l'). }
  induction l as [|b l IH]; cbn [split]; [done|]. specialize (Hne l). destruct (Byte.eqb b c) eqn:E.
  - apply byte_eqb_eq in E as ->. destruct (split c l) as [|w ws]; [done|].
    change (join [c] ([] :: w :: ws)) with (c :: join [c] (w :: ws)). by rewrite IH.
  - destruct (split c l) as [|w ws]; [done|]. destruct ws as [|w' ws]; cbn in *; by rewrite IH.
Qed.

Lemma split_once_Some c l x y :
  split_once c l = Some (x, y) <-> l = x ++ c :: y /\ Forall (fun b => b <> c) x.
Proof.
  split.
  - revert x. induction l as [|b l IH]; intros x; cbn; [done|]. destruct (Byte.eqb b c) eqn:E.
    + apply byte_eqb_eq in E as ->. intros [= <- <-]. by split.
    + destruct (split_once c l) as [[x' y']|]; [|done]. intros [= <- <-].
      destruct (IH x' eq_refl) as [-> Hf]. split; [done|]. constructor; [|done].
      intros ->. by rewrite byte_eqb_refl in E.
  - intros [-> Hf]. induction Hf as [|b x Hb _ IH]; cbn; [by rewrite byte_eqb_refl|].
    by rewrite (byte_eqb_neq b c Hb), IH.
Qed.

Lemma split_once_None c l : split_once c l = None <-> Forall (fun b => b <> c) l.
Proof.
  induction l as [|b l IH]; cbn; [done|]. destruct (Byte.eqb b c) eqn:E.
  - apply byte_eqb_eq in E as ->. split; [done|]. intros Hf. by apply List.Forall_cons_iff in Hf as [? _].
  - destruct (split_once c l) as [[x y]|].
    + split; [done|]. intros Hf. apply List.Forall_cons_iff in Hf as [_ Hf]. by apply IH in Hf.
    + split; [|done]. intros _. constructor; [|by apply IH]. intros ->. by rewrite byte_eqb_refl in E.
Qed.

(** *** Decimal round trip *)

Lemma digit_val_hex_digit d : 0 <= d < 10 -> digit_val (hex_digit d) = Some d.
Proof.
  intros Hd. unfold digit_val, hex_digit. rewrite (proj2 (Z.ltb_lt d 10)) by lia.
  rewrite byte_val_of, Z.mod_small by lia.
  rewrite (proj2 (Z.leb_le 48 _)), (proj2 (Z.leb_le _ 57)) by lia. cbn [andb]. f_equal. lia.
Qed.

Lemma parse_digits_map max l : forall acc,
  Forall (fun d => 0 <= d < 10) l -> 0 <= acc -> undigits 10 acc l <= max ->
  parse_digits max acc (map hex_digit l) = Some (undigits 10 acc l).
Proof.
  assert (Hmono : forall l acc, Forall (fun d => 0 <= d < 10) l -> 0 <= acc -> acc <= undigits 10 acc l).
  { induction l0 as [|d l0 IH]; intros acc Hf Ha; cbn [undigits]; [lia|].
    apply List.Forall_cons_iff in Hf as [Hd Hf]. cbn beta in Hd. etrans; [|apply IH; [done|lia]]. lia. }
  induction l as [|d l IH]; intros acc Hf Ha Hm; cbn [map parse_digits undigits] in *; [done|].
  apply List.Forall_cons_iff in Hf as [Hd Hf]. rewrite digit_val_hex_digit by done. cbn beta in Hd.
  assert (Hle : acc * 10 + d <= max).
  { etrans; [|exact Hm]. apply Hmono; [done|lia]. }
  rewrite (proj2 (Z.ltb_ge max _)) by done. apply IH; [done|lia|done].
Qed.

Lemma digits_nonempty b fuel n : (0 < fuel)%nat -> digits_fuel fuel b n <> [].
Proof.
  destruct fuel as [|fuel]; [lia|]. intros _. cbn [digits_fuel]. destruct (n <? b); [done|].
  by destruct (digits_fuel fuel b (n / b)).
Qed.

Lemma hex_digit_not_plus d : 0 <= d < 10 -> Byte.eqb (hex_digit d) x2b = false.
Proof.
  intros Hd. apply byte_eqb_neq. intros E. pose proof (digit_val_hex_digit d Hd) as Hv.
  rewrite E in Hv. vm_compute in Hv. done.
Qed.

(** A printed integer parses back. *)
Lemma parse_uint_dec max n : 0 <= n <= max -> n < 10 ^ 64 -> parse_uint max (dec n) = Some n.
Proof.
  intros Hn Hb. unfold dec. pose proof (digits_fuel_range 10 64 n ltac:(lia) ltac:(lia)) as Hr.
  fold (digits 10 n) in Hr. assert (Hv : undigits 10 0 (digits 10 n) = n) by (apply digits_value; lia).
  assert (Hp : parse_digits max 0 (map hex_digit (digits 10 n)) = Some n).
  { rewrite parse_digits_map by (try done; lia). by rewrite Hv. }
  pose proof (digits_nonempty 10 64 n ltac:(lia)) as Hne. fold (digits 10 n) in Hne.
  destruct (digits 10 n) as [|d ds]; [done|]. apply List.Forall_cons_iff in Hr as [Hd _].
  unfold parse_uint. cbn [map]. rewrite hex_digit_not_plus by done. exact Hp.
Qed.

(** ** UTF-8 *)

(** A continuation byte: not the first of a character. *)
Definition is_cont (b : byte) : bool := (128 <=? byte_val b) && (byte_val b <=? 191).

Definition in_range (lo hi : Z) (b : byte) : bool := (lo <=? byte_val b) && (byte_val b <=? hi).

(** The length of the well-formed character [l] starts with. *)
Definition utf8_char_len (l : list byte) : option nat :=
  match l with
  | [] => None
  | b0 :: l =>
      if byte_val b0 <? 128 then Some 1%nat
      else match l with
           | b1 :: l =>
               if in_range 194 223 b0 then if is_cont b1 then Some 2%nat else None
               else match l with
                    | b2 :: l =>
                        let lo := if byte_val b0 =? 224 then 160 else 128 in
                        let hi := if byte_val b0 =? 237 then 159 else 191 in
                        if in_range 224 239 b0 then if in_range lo hi b1 && is_cont b2 then Some 3%nat else None
                        else match l with
                             | b3 :: _ =>
                                 let lo := if byte_val b0 =? 240 then 144 else 128 in
                                 let hi := if byte_val b0 =? 244 then 143 else 191 in
                                 if in_range 240 244 b0 && in_range lo hi b1 && is_cont b2 && is_cont b3
                                 then Some 4%nat else None
                             | [] => None
                             end
                    | [] => None
                    end
           | [] => None
           end
  end.

Fixpoint utf8_valid_fuel (fuel : nat) (l : list byte) : bool :=
  match l, fuel with
  | [], _ => true
  | _, O => false
  | _, S fuel => match utf8_char_len l with Some n => utf8_valid_fuel fuel (drop n l) | None => false end
  end.

(** [String::from_utf8(..).is_ok()]. *)
Definition utf8_valid (l : list byte) : bool := utf8_valid_fuel (length l) l.

Definition from_utf8 (l : list byte) : option (list byte) := if utf8_valid l then Some l else None.

(** ** More of [str] *)

(** [str::contains] on a string. *)
Fixpoint contains (p l : list byte) : bool :=
  starts_with p l || match l with [] => false | _ :: l => contains p l end.

(** [str::find] on an ASCII character: its byte position. *)
Fixpoint find_byte (c : byte) (l : list byte) : option nat :=
  match l with
  | [] => None
  | b :: l => if Byte.eqb b c then Some 0%nat else option_map S (find_byte c l)
  end.

Definition strip_suffix (p l : list byte) : option (list byte) := option_map (@rev byte) (strip_prefix (rev p) (rev l)).

(** [str::lines]: pieces between line feeds, a carriage return before one
    dropped, without an empty piece after the last. *)
Definition strip_cr (l : list byte) : list byte := default l (strip_suffix [x0d] l).

Fixpoint drop_last_empty (ls : list (list byte)) : list (list byte) :=
  match ls with
  | [] => []
  | [l] => match l with [] => [] | _ => [l] end
  | l :: ls => strip_cr l :: drop_last_empty ls
  end.

Definition lines (l : list byte) : list (list byte) := drop_last_empty (split x0a l).

(** [splitn(n, c)]. *)
Fixpoint splitn (n : nat) (c : byte) (l : list byte) : list (list byte) :=
  match n with
  | O => []
  | S O => [l]
  | S n => match split_once c l with
           | Some (x, y) => x :: splitn n c y
           | None => [l]
           end
  end.

(** [str::split_whitespace]. *)
Fixpoint take_word (l : list byte) (fuel : nat) : list byte * list byte :=
  match fuel, l with
  | S fuel, b :: l' =>
      if (ws_len l =? 0)%nat then let '(w, rest) := take_word l' fuel in (b :: w, rest) else ([], l)
  | _, _ => ([], l)
  end.

Fixpoint split_whitespace_fuel (fuel : nat) (l : list byte) : list (list byte) :=
  match fuel with
  | O => []
  | S fuel =>
      match trim_start l with
      | [] => []
      | l' => let '(w, rest) := take_word l' (length l') in w :: split_whitespace_fuel fuel rest
      end
  end.

Definition split_whitespace (l : list byte) : list (list byte) := split_whitespace_fuel (S (length l)) l.

Lemma starts_with_app p l : starts_with p (p ++ l) = true.
Proof. unfold starts_with. by rewrite strip_prefix_app. Qed.

Lemma starts_with_spec p l : starts_with p l = true <-> exists r, l = p ++ r.
Proof.
  unfold starts_with. destruct (strip_prefix p l) as [r|] eqn:E.
  - apply strip_prefix_Some in E. split; [by exists r|done].
  - split; [done|]. intros [r ->]. by rewrite strip_prefix_app in E.
Qed.

Lemma contains_spec p l : contains p l = true <-> exists x y, l = x ++ p ++ y.
Proof.
  induction l as [|b l IH]; cbn [contains].
  - rewrite orb_false_r, starts_with_spec. split.
    + intros [r Hr]. exists [], r. done.
    + intros (x & y & Hxy). symmetry in Hxy. apply app_eq_nil in Hxy as [-> Hxy]. by exists y.
  - rewrite orb_true_iff, starts_with_spec, IH. split.
    + intros [[r Hr]|(x & y & ->)]; [by exists [], r|]. by exists (b :: x), y.
    + intros ([|b' x] & y & Hxy).
      * left. by exists y.
      * right. injection Hxy as -> Hl. by exists x, y.
Qed.

Lemma drop_last_empty_snoc ls : drop_last_empty (ls ++ [[]]) = map strip_cr ls.
Proof.
  induction ls as [|l ls IH]; [done|]. cbn [app map]. rewrite <- IH.
  destruct ls; [done|]. cbn [app]. by destruct (ls ++ [[]]).
Qed.

Lemma split_app_sep c l rest : Forall (fun b => b <> c) l -> split c (l ++ c :: rest) = l :: split c rest.
Proof.
  induction 1 as [|b l Hb _ IH]; cbn [app split].
  - by rewrite byte_eqb_refl.
  - by rewrite byte_eqb_neq, IH.
Qed.

(** The lines of a text that ends each line with a line feed. *)
Lemma lines_concat ls :
  Forall (Forall (fun b => b <> x0a)) ls -> lines (concat (map (fun l => l ++ [x0a]) ls)) = map strip_cr ls.
Proof.
  intros Hl. unfold lines. rewrite <- drop_last_empty_snoc. f_equal.
  induction Hl as [|l ls Hl _ IH]; [done|]. cbn [map concat app].
  rewrite <- app_assoc. cbn [app]. by rewrite split_app_sep, IH.
Qed.

(** ** The order of strings

    Rust compares strings byte by byte; a proper prefix is smaller. *)

Fixpoint bytes_ltb (a b : list byte) : bool :=
  match a, b with
  | _, [] => false
  | [], _ :: _ => true
  | x :: a, y :: b => (byte_val x <? byte_val y) || (byte_val x =? byte_val y) && bytes_ltb a b
  end.

Lemma bytes_ltb_irrefl a : bytes_ltb a a = false.
Proof. induction a as [|x a IH]; [done|]. cbn. by rewrite Z.ltb_irrefl, Z.eqb_refl, IH. Qed.

Lemma bytes_ltb_trans a : forall b c, bytes_ltb a b = true -> bytes_ltb b c = true -> bytes_ltb a c = true.
Proof.
  induction a as [|x a IH]; intros [|y b] [|z c] H1 H2; try done. cbn in *.
  apply orb_true_iff in H1, H2. rewrite !andb_true_iff, !Z.ltb_lt, !Z.eqb_eq in *.
  apply orb_true_iff. rewrite andb_true_iff, Z.ltb_lt, Z.eqb_eq.
  destruct H1 as [|[H1 H1']], H2 as [|[H2 H2']]; [left; lia..|right]. split; [lia|by eapply IH].
Qed.

Lemma bytes_ltb_total a : forall b, bytes_ltb a b = false -> bytes_ltb b a = false -> a = b.
Proof.
  induction a as [|x a IH]; intros [|y b] H1 H2; try done. cbn in *.
  apply orb_false_iff in H1 as [H1 H1'], H2 as [H2 H2']. apply Z.ltb_ge in H1, H2.
  assert (Hxy : byte_val x = byte_val y) by lia. rewrite Hxy, Z.eqb_refl in *.
  apply byte_val_inj in Hxy as ->. f_equal. by apply IH.
Qed.

Lemma bytes_ltb_app_same p a b : bytes_ltb (p ++ a) (p ++ b) = bytes_ltb a b.
Proof. induction p as [|x p IH]; [done|]. cbn. by rewrite Z.ltb_irrefl, Z.eqb_refl, IH. Qed.

Lemma bytes_ltb_app_lt p q a b :
  length p = length q -> bytes_ltb p q = true -> bytes_ltb (p ++ a) (q ++ b) = true.
Proof.
  revert q. induction p as [|x p IH]; intros [|y q] Hl H; try done. cbn in *.
  apply orb_true_iff in H as [->|[-> H]%andb_true_iff]; [done|]. rewrite IH by (lia || done). apply orb_true_r.
Qed.

(** ** Sorting by a key

    [sort_by_key] with a string as the key; it is stable. *)

Section SortByKey.
Context {A : Type} (key : A -> list byte).

Fixpoint insert_by_key (a : A) (l : list A) : list A :=
  match l with
  | [] => [a]
  | b :: l => if bytes_ltb (key b) (key a) then b :: insert_by_key a l else a :: b :: l
  end.

Definition sort_by_key (l : list A) : list A := foldr insert_by_key [] l.

Definition key_lt (a b : A) : Prop := bytes_ltb (key a) (key b) = true.

Lemma insert_by_key_perm a l : insert_by_key a l ≡ₚ a :: l.
Proof.
  induction l as [|b l IH]; cbn; [done|]. destruct (bytes_ltb (key b) (key a)); [|done].
  rewrite IH. apply Permutation_swap.
Qed.

Lemma sort_by_key_perm l : sort_by_key l ≡ₚ l.
Proof. induction l as [|a l IH]; cbn; [done|]. by rewrite insert_by_key_perm, IH. Qed.

#[export] Instance key_lt_antisym : AntiSymm (=) key_lt.
Proof. intros a b Ha Hb. pose proof (bytes_ltb_trans _ _ _ Ha Hb) as H. by rewrite bytes_ltb_irrefl in H. Qed.

Lemma insert_by_key_sorted a l :
  key a ∉ map key l -> StronglySorted key_lt l -> StronglySorted key_lt (insert_by_key a l).
Proof.
  induction l as [|b l IH]; intros Hn Hs; cbn; [by repeat constructor|].
  cbn in Hn. rewrite elem_of_cons in Hn. assert (Hs' := Hs). apply StronglySorted_inv in Hs' as [Hs' Hb].
  destruct (bytes_ltb (key b) (key a)) eqn:E.
  - constructor; [apply IH; tauto|]. apply List.Forall_forall. intros c Hc%list_elem_of_In.
    rewrite (insert_by_key_perm a l), elem_of_cons in Hc. destruct Hc as [->|Hc]; [done|].
    rewrite List.Forall_forall in Hb. apply Hb. by apply list_elem_of_In.
  - assert (Hab : key_lt a b).
    { unfold key_lt. destruct (bytes_ltb (key a) (key b)) eqn:E2; [done|]. exfalso. apply Hn. left. by apply bytes_ltb_total. }
    constructor; [done|]. constructor; [done|]. eapply List.Forall_impl; [|exact Hb].
    intros c Hc. by apply (bytes_ltb_trans _ (key b)).
Qed.

Lemma sort_by_key_sorted l : NoDup (map key l) -> StronglySorted key_lt (sort_by_key l).
Proof.
  induction l as [|a l IH]; cbn; [constructor|]. intros [Hn Hd]%NoDup_cons.
  apply insert_by_key_sorted; [|by apply IH]. by rewrite (sort_by_key_perm l).
Qed.

(** What is in the order of keys is determined by its elements. *)
Lemma sorted_unique l1 l2 : StronglySorted key_lt l1 -> StronglySorted key_lt l2 -> l1 ≡ₚ l2 -> l1 = l2.
Proof. intros H1 H2 Hp. by eapply (StronglySorted_unique key_lt). Qed.

Lemma filter_key_sorted (p : A -> bool) l : StronglySorted key_lt l -> StronglySorted key_lt (List.filter p l).
Proof.
  induction 1 as [|a l Hs IH Ha]; cbn; [constructor|]. destruct (p a); [|done]. constructor; [done|].
  apply List.Forall_forall. intros b [Hb _]%filter_In. rewrite List.Forall_forall in Ha. by apply Ha.
Qed.

End SortByKey.

#[export] Instance filter_Permutation {A} (p : A -> bool) : Proper ((≡ₚ) ==> (≡ₚ)) (@List.filter A p).
Proof.
  intros l1 l2 Hp. induction Hp as [|a l1 l2 Hp IH|a b l|l1 l2 l3 Hp1 IH1 Hp2 IH2]; cbn.
  - done.
  - destruct (p a); [by constructor|done].
  - destruct (p a), (p b); try done. apply Permutation_swap.
  - by rewrite IH1.
Qed.

(** ** ASCII *)

Definition is_ascii (l : list byte) : bool := forallb (fun b => byte_val b <? 128) l.

Lemma is_ascii_app a b : is_ascii (a ++ b) = is_ascii a && is_ascii b.
Proof. apply forallb_app. Qed.

Lemma is_ascii_drop n l : is_ascii l = true -> is_ascii (drop n l) = true.
Proof.
  intros H. rewrite <- (take_drop n l), is_ascii_app in H. by apply andb_true_iff in H as [_ H].
Qed.

Lemma ascii_utf8 l : is_ascii l = true -> utf8_valid l = true.
Proof.
  unfold utf8_valid. induction l as [|b l IH]; [done|]. cbn [is_ascii forallb length utf8_valid_fuel].
  intros [Hb Hl]%andb_true_iff. unfold utf8_char_len. rewrite Hb. cbn [drop]. by apply IH.
Qed.

(** ** Concatenation of UTF-8 *)

Lemma utf8_char_len_app a b n : utf8_char_len a = Some n ->
  utf8_char_len (a ++ b) = Some n /\ (0 < n <= length a)%nat.
Proof.
  unfold utf8_char_len. destruct a as [|a0 a]; [done|]. cbn [app length].
  destruct (byte_val a0 <? 128); [intros [= <-]; split; [done|lia]|].
  destruct a as [|a1 a]; [done|]. cbn [app length].
  destruct (in_range 194 223 a0); [destruct (is_cont a1); [|done]; intros [= <-]; split; [done|lia]|].
  destruct a as [|a2 a]; [done|]. cbn [app length].
  destruct (in_range 224 239 a0).
  { destruct (in_range _ _ a1 && is_cont a2); [|done]. intros [= <-]; split; [done|lia]. }
  destruct a as [|a3 a]; [done|]. cbn [app length].
  destruct (in_range 240 244 a0 && _ && _ && _); [|done]. intros [= <-]; split; [done|lia].
Qed.

Lemma utf8_fuel_app fuel : forall a b fuel', (length (a ++ b) <= fuel')%nat ->
  utf8_valid_fuel fuel a = true -> utf8_valid b = true -> utf8_valid_fuel fuel' (a ++ b) = true.
Proof.
  induction fuel as [|fuel IH]; intros a b fuel' Hf Ha Hb.
  - destruct a as [|a0 a]; [|done]. cbn in *. revert Hb Hf. unfold utf8_valid. clear.
    assert (Hmono : forall f l, utf8_valid_fuel f l = true -> forall f', (f <= f')%nat -> utf8_valid_fuel f' l = true).
    { induction f as [|f IHf]; intros [|x l] Hv f' Hle; [by destruct f'|done|by destruct f'|]. destruct f' as [|f']; [lia|].
      cbn [utf8_valid_fuel] in *. destruct (utf8_char_len (x :: l)) as [n|]; [|done]. apply IHf; [done|lia]. }
    intros Hb Hf. by eapply Hmono.
  - destruct a as [|a0 a].
    { apply (IH [] b fuel' Hf); [by destruct fuel|done]. }
    cbn [utf8_valid_fuel] in Ha. destruct (utf8_char_len (a0 :: a)) as [n|] eqn:E; [|done].
    destruct (utf8_char_len_app (a0 :: a) b n E) as [E' [Hn0 Hn]]. destruct fuel' as [|fuel']; [cbn in Hf; lia|].
    change ((a0 :: a) ++ b) with (a0 :: a ++ b) in *. cbn [utf8_valid_fuel]. rewrite E'.
    change (a0 :: a ++ b) with ((a0 :: a) ++ b). rewrite drop_app_le by done. apply IH; [|done|done].
    rewrite length_app, length_drop. cbn [length] in *. rewrite length_app in Hf. lia.
Qed.

Lemma utf8_valid_app a b : utf8_valid a = true -> utf8_valid b = true -> utf8_valid (a ++ b) = true.
Proof. intros Ha Hb. by eapply utf8_fuel_app. Qed.

(** ** Trimming what needs no trimming *)

Lemma trim_start_id l : ws_len l = 0%nat -> trim_start l = l.
Proof. intros H. unfold trim_start. destruct (length l); [done|]. cbn. by rewrite H. Qed.

Lemma trim_end_id l : ws_end_len l = 0%nat -> trim_end l = l.
Proof. intros H. unfold trim_end. destruct (length l); [done|]. cbn [trim_end_fuel]. by rewrite H. Qed.

(** A text that starts and ends with graphic ASCII characters is its own trim. *)
Definition graphic (b : byte) : bool := (33 <=? byte_val b) && (byte_val b <=? 126).

Lemma ws_len_graphic b l : graphic b = true -> ws_len (b :: l) = 0%nat.
Proof.
  intros [H1%Z.leb_le H2%Z.leb_le]%andb_true_iff. unfold ws_len. cbn [take map].
  rewrite (proj2 (Z.leb_gt (byte_val b) 13)), (proj2 (Z.eqb_neq (byte_val b) 32)) by lia. rewrite andb_false_r. cbn [orb].
  destruct (map byte_val (take 2 l)) as [|c [|d r]]; [done|..];
    rewrite (proj2 (Z.eqb_neq (byte_val b) 0xc2)) by lia; cbn [andb]; [done|].
  rewrite (proj2 (Z.eqb_neq (byte_val b) 0xe1)), (proj2 (Z.eqb_neq (byte_val b) 0xe2)),
    (proj2 (Z.eqb_neq (byte_val b) 0xe3)) by lia. done.
Qed.

Lemma trim_graphic b m c : graphic b = true -> graphic c = true -> trim (b :: m ++ [c]) = b :: m ++ [c].
Proof.
  intros Hb Hc. unfold trim. rewrite trim_start_id by (by apply ws_len_graphic). apply trim_end_id.
  unfold ws_end_len. change (b :: m ++ [c]) with ((b :: m) ++ [c]). set (l := b :: m).
  assert (Hc' : 33 <= byte_val c <= 126).
  { apply andb_true_iff in Hc as [?%Z.leb_le ?%Z.leb_le]. done. }
  assert (Hl : l <> []) by done. rewrite length_app. cbn [length].
  (* one, two and three bytes before the end *)
  rewrite !drop_app. replace (length l + 1 - 1 - length l)%nat with 0%nat by lia.
  replace (length l + 1 - 2 - length l)%nat with 0%nat by lia. replace (length l + 1 - 3 - length l)%nat with 0%nat by lia.
  cbn [drop]. rewrite (drop_ge l (length l + 1 - 1)) by lia. cbn [app]. rewrite ws_len_graphic by done. cbn [Nat.eqb].
  assert (Hone : forall x, length x = 1%nat -> (ws_len (x ++ [c]) =? 2)%nat = false).
  { intros [|x1 [|]] Hx; try done. cbn. destruct (_ && _ || _); [done|].
    rewrite (proj2 (Z.eqb_neq (byte_val c) 0x85)), (proj2 (Z.eqb_neq (byte_val c) 0xa0)) by lia.
    by rewrite andb_false_r. }
  rewrite Hone by (rewrite length_drop; unfold l; cbn [length]; lia).
  assert (Htwo : forall x, (length x <= 2)%nat -> x <> [] -> (ws_len (x ++ [c]) =? 3)%nat = false).
  { intros x Hx Hne. destruct x as [|x1 [|x2 [|]]]; try done; cbn in Hx; try lia.
    - cbn. destruct (_ && _ || _); [done|]. destruct (_ && _); done.
    - unfold ws_len. cbn [app take map]. destruct (_ && _ || _); [done|]. destruct (_ && _); [done|].
      rewrite (proj2 (Z.eqb_neq (byte_val c) 0x80)), (proj2 (Z.leb_gt 0x80 (byte_val c))),
        (proj2 (Z.eqb_neq (byte_val c) 0xa8)), (proj2 (Z.eqb_neq (byte_val c) 0xa9)),
        (proj2 (Z.eqb_neq (byte_val c) 0xaf)), (proj2 (Z.eqb_neq (byte_val c) 0x9f)) by lia.
      by rewrite !andb_false_r. }
  rewrite Htwo; [done|rewrite length_drop; lia|]. intros E. apply (f_equal length) in E. rewrite length_drop in E.
  unfold l in E. cbn [length] in E. lia.
Qed.

(** A text of graphic ASCII characters. *)
Definition graphic_text (l : list byte) : Prop := l <> [] /\ forallb graphic l = true.

Lemma graphic_ends l : graphic_text l -> (exists b, l = [b] /\ graphic b = true)
  \/ exists b m c, l = b :: m ++ [c] /\ graphic b = true /\ graphic c = true.
Proof.
  intros [Hne Hg]. destruct l as [|b l]; [done|]. cbn in Hg. apply andb_true_iff in Hg as [Hb Hg].
  destruct l as [|c m _] using rev_ind; [left; by exists b|]. right. rewrite forallb_app in Hg. cbn in Hg.
  apply andb_true_iff in Hg as [_ Hc]. rewrite andb_true_r in Hc. by exists b, m, c.
Qed.

Lemma graphic_trim l : graphic_text l -> trim l = l.
Proof.
  intros Hg. destruct (graphic_ends l Hg) as [(b & -> & Hb)|(b & m & c & -> & Hb & Hc)]; [|by apply trim_graphic].
  unfold trim. rewrite trim_start_id by (by apply ws_len_graphic). apply trim_end_id. unfold ws_end_len. cbn [length drop Nat.sub].
  by rewrite ws_len_graphic.
Qed.

Lemma graphic_ascii l : forallb graphic l = true -> is_ascii l = true.
Proof.
  unfold is_ascii. rewrite !forallb_forall. intros Hg b Hb. specialize (Hg b Hb).
  apply andb_true_iff in Hg as [_ Hg%Z.leb_le]. apply Z.ltb_lt. lia.
Qed.

Lemma graphic_not c l : graphic c = false -> forallb graphic l = true -> Forall (fun b => b <> c) l.
Proof.
  intros Hc Hg. rewrite forallb_forall in Hg. apply List.Forall_forall. intros b Hb ->. by rewrite (Hg c Hb) in Hc.
Qed.

(** ** Words *)

Definition SPACE : byte := x20.

Lemma ws_len_space l : ws_len (SPACE :: l) = 1%nat.
Proof. reflexivity. Qed.

Lemma trim_start_graphic l : graphic_text l -> forall r, trim_start (l ++ r) = l ++ r.
Proof.
  intros [Hne Hg] r. destruct l as [|b l]; [done|]. cbn in Hg. apply andb_true_iff in Hg as [Hb _].
  apply trim_start_id. by apply ws_len_graphic.
Qed.

Lemma trim_start_space l r : graphic_text l -> trim_start (SPACE :: l ++ r) = l ++ r.
Proof.
  intros Hg. unfold trim_start. cbn [length trim_start_fuel]. rewrite ws_len_space. cbn [drop].
  by apply trim_start_graphic.
Qed.

Lemma take_word_graphic w r fuel : forallb graphic w = true -> (length w < fuel)%nat ->
  r = [] \/ (exists r', r = SPACE :: r') -> take_word (w ++ r) fuel = (w, r).
Proof.
  revert fuel. induction w as [|b w IH]; intros fuel Hg Hf Hr.
  - destruct Hr as [->|[r' ->]]; [by destruct fuel|]. destruct fuel; [done|]. reflexivity.
  - destruct fuel as [|fuel]; [lia|]. cbn in Hg. apply andb_true_iff in Hg as [Hb Hg]. cbn [app take_word].
    rewrite ws_len_graphic by done. cbn [Nat.eqb]. rewrite IH; [done|done|cbn in Hf; lia|done].
Qed.

Lemma split_words_fuel ws : forall fuel, Forall graphic_text ws -> (length ws < fuel)%nat ->
  split_whitespace_fuel fuel (join [SPACE] ws) = ws
  /\ (ws <> [] -> split_whitespace_fuel fuel (SPACE :: join [SPACE] ws) = ws).
Proof.
  induction ws as [|w ws IH]; intros fuel Hw Hf.
  { split; [|done]. by destruct fuel. }
  apply List.Forall_cons_iff in Hw as [Hw Hws]. destruct fuel as [|fuel]; [cbn in Hf; lia|]. cbn [length] in Hf.
  destruct (IH fuel Hws ltac:(lia)) as [IH1 IH2].
  assert (Hj : exists r, join [SPACE] (w :: ws) = w ++ r /\ (r = [] \/ exists r', r = SPACE :: r')
                         /\ split_whitespace_fuel fuel r = ws).
  { destruct ws as [|w' ws]; [exists []; cbn [join]; rewrite app_nil_r; split_and!; [done|by left|by destruct fuel]|].
    exists (SPACE :: join [SPACE] (w' :: ws)). split_and!; [done|right; by eexists|by apply IH2]. }
  destruct Hj as (r & -> & Hr & Hs).
  assert (Hstep : forall l, trim_start l = w ++ r -> split_whitespace_fuel (S fuel) l = w :: ws).
  { intros l Hl. cbn [split_whitespace_fuel]. rewrite Hl. destruct (w ++ r) as [|b0 l0] eqn:E.
    { destruct Hw as [Hne _]. by destruct w. }
    rewrite <- E. destruct (length (w ++ r)) as [|n] eqn:El; [by rewrite E in El|].
    destruct Hr as [->|[r' ->]].
    - rewrite app_nil_r in *. destruct (take_word w (S n)) as [w' r'] eqn:Et.
      assert (Hn : w' = w /\ r' = []).
      { rewrite <- (app_nil_r w) in Et at 1. clear - Et Hw El. destruct Hw as [_ Hg].
        assert (Hle : (length w <= S n)%nat) by lia. clear El. revert Et Hle. generalize (S n). revert w' r' Hg.
        induction w as [|b w IHw]; intros w' r' Hg k Et Hle.
        - destruct k; cbn in Et; by injection Et as <- <-.
        - destruct k as [|k]; [cbn in Hle; lia|]. cbn in Hg. apply andb_true_iff in Hg as [Hb Hg]. cbn [app take_word] in Et.
          rewrite ws_len_graphic in Et by done. cbn [Nat.eqb] in Et. destruct (take_word (w ++ []) k) as [w1 r1] eqn:E1.
          injection Et as <- <-. destruct (IHw w1 r1 Hg k E1 ltac:(cbn in Hle; lia)) as [-> ->]. done. }
      destruct Hn as [-> ->]. by rewrite Hs.
    - rewrite take_word_graphic; [by rewrite Hs|apply Hw| |right; by eexists].
      rewrite length_app in El. cbn in El. lia. }
  split; [|intros _]; apply Hstep; [by apply trim_start_graphic|by apply trim_start_space].
Qed.

(** Words of graphic characters, one space between two, are split apart. *)
Lemma split_whitespace_words ws : Forall graphic_text ws -> split_whitespace (join [SPACE] ws) = ws.
Proof.
  intros Hw. unfold split_whitespace. apply split_words_fuel; [done|].
  assert (Hl : (length ws <= length (join [SPACE] ws))%nat); [|lia].
  induction Hw as [|w ws [Hne _] _ IH]; [done|]. destruct ws as [|w' ws].
  - cbn. destruct w; [done|cbn; lia].
  - change (join [SPACE] (w :: w' :: ws)) with (w ++ SPACE :: join [SPACE] (w' :: ws)).
    rewrite length_app. cbn [length] in *. lia.
Qed.

(** ** The last line *)

Fixpoint drop_while (p : byte -> bool) (l : list byte) : list byte :=
  match l with
  | b :: l' => if p b then drop_while p l' else l
  | [] => []
  end.

(** [trim_end_matches] of a character. *)
Definition trim_end_matches (c : byte) (l : list byte) : list byte := rev (drop_while (fun b => Byte.eqb b c) (rev l)).

Lemma trim_end_matches_last c l b : b <> c -> trim_end_matches c (l ++ [b] ++ [c]) = l ++ [b].
Proof.
  intros Hb. unfold trim_end_matches. rewrite !rev_app_distr. cbn [rev app drop_while]. rewrite byte_eqb_refl.
  rewrite (byte_eqb_neq b c Hb). cbn [rev]. by rewrite rev_involutive.
Qed.

Lemma split_nonempty c l : split c l <> [].
Proof. destruct l as [|b l]; cbn; [done|]. destruct (Byte.eqb b c); [done|]. by destruct (split c l). Qed.

Lemma split_no_sep c l : Forall (fun b => b <> c) l -> split c l = [l].
Proof. induction 1 as [|b l Hb _ IH]; [done|]. cbn. by rewrite byte_eqb_neq, IH. Qed.

Lemma last_cons_nonempty {A} (a : A) l : l <> [] -> list.last (a :: l) = list.last l.
Proof. by destruct l. Qed.

Lemma last_split_app c x y : list.last (split c (x ++ c :: y)) = list.last (split c y).
Proof.
  induction x as [|b x IH]; cbn [app split].
  - rewrite byte_eqb_refl. apply last_cons_nonempty, split_nonempty.
  - destruct (Byte.eqb b c); [by rewrite last_cons_nonempty by apply split_nonempty|].
    pose proof (split_nonempty c (x ++ c :: y)) as Hne. rewrite <- IH.
    destruct (split c (x ++ c :: y)) as [|w [|w' ws]] eqn:E; [done| |done].
    exfalso. apply (f_equal (@length _)) in E. revert E. clear.
    induction x as [|a x IHx]; cbn.
    + rewrite byte_eqb_refl. pose proof (split_nonempty c y). destruct (split c y); done.
    + pose proof (split_nonempty c (x ++ c :: y)). destruct (Byte.eqb a c); cbn; [by destruct (split c (x ++ c :: y))|].
      destruct (split c (x ++ c :: y)); done.
Qed.

(** ** Characters *)

(** The bytes of one character. *)
Definition utf8_char (c : list byte) : Prop := c <> [] /\ utf8_char_len c = Some (length c).

Lemma byte_bounds b : 0 <= byte_val b < 256.
Proof. by destruct b. Qed.

Ltac byte_ranges :=
  unfold in_range, is_cont in *;
  repeat match goal with
         | H : _ && _ = true |- _ => apply andb_true_iff in H as [? ?]
         | H : (_ <=? _) = true |- _ => apply Z.leb_le in H
         | H : (_ <? _) = true |- _ => apply Z.ltb_lt in H
         | H : (_ <? _) = false |- _ => apply Z.ltb_ge in H
         end.

(** Follows the tests of [utf8_char_len]. *)
Ltac char_cases :=
  repeat match goal with
         | H : (if ?b then _ else _) = Some _ |- _ => destruct b eqn:?
         | H : match ?l with [] => _ | _ :: _ => _ end = Some _ |- _ => destruct l
         | H : None = Some _ |- _ => discriminate H
         end.

Lemma utf8_char_take l n : utf8_char_len l = Some n -> utf8_char (take n l) /\ length (take n l) = n.
Proof.
  intros H. destruct (utf8_char_len_app l [] n H) as [_ Hn]. split.
  - split; [destruct l; [done|]; destruct n; [lia|done]|]. rewrite length_take_le by lia.
    unfold utf8_char_len in *. char_cases; injection H as <-; cbn [take]; try done.
    all: repeat match goal with E : ?b = _ |- context [?b] => rewrite E end; done.
  - by rewrite length_take_le by lia.
Qed.

(** A character is a leading byte and continuation bytes; a longer one has no ASCII byte. *)
Lemma utf8_char_bytes c : utf8_char c ->
  exists b t, c = b :: t /\ is_cont b = false /\ Forall (fun x => is_cont x = true) t /\ (t = [] \/ 128 <= byte_val b).
Proof.
  intros [Hne H]. destruct c as [|b t]; [done|]. exists b, t. split; [done|].
  unfold utf8_char_len in H. char_cases; injection H as H;
    repeat (destruct t as [|? t]; cbn in H; try discriminate H; try lia); byte_ranges;
    (split; [apply andb_false_iff; rewrite !Z.leb_gt; lia|]); (split; [repeat constructor; apply andb_true_iff; rewrite !Z.leb_le; split; try lia|]);
    try (by left); try (right; lia).
  all: repeat match goal with H : context [if ?b then _ else _] |- _ => destruct b end; lia.
Qed.

(** ** [String::from_utf8_lossy] *)

(** How many bytes an ill-formed sequence takes: the longest prefix that could
    still begin a character. *)
Definition bad_len (l : list byte) : nat :=
  match l with
  | b0 :: b1 :: r =>
      if in_range 224 239 b0 then
        if in_range (if byte_val b0 =? 224 then 160 else 128) (if byte_val b0 =? 237 then 159 else 191) b1 then 2 else 1
      else if in_range 240 244 b0 then
        if in_range (if byte_val b0 =? 240 then 144 else 128) (if byte_val b0 =? 244 then 143 else 191) b1
        then match r with b2 :: _ => if is_cont b2 then 3 else 2 | [] => 2 end
        else 1
      else 1
  | _ => 1
  end.

Definition REPLACEMENT : list byte := [xef; xbf; xbd].

Fixpoint lossy_fuel (fuel : nat) (l : list byte) : list byte :=
  match l, fuel with
  | [], _ | _, O => []
  | _, S fuel =>
      match utf8_char_len l with
      | Some n => take n l ++ lossy_fuel fuel (drop n l)
      | None => REPLACEMENT ++ lossy_fuel fuel (drop (bad_len l) l)
      end
  end.

Definition from_utf8_lossy (l : list byte) : list byte := lossy_fuel (length l) l.

Lemma lossy_valid l : utf8_valid l = true -> from_utf8_lossy l = l.
Proof.
  unfold utf8_valid, from_utf8_lossy. generalize (length l) as fuel. intros fuel. revert l.
  induction fuel as [|fuel IH]; intros [|b l] H; try done. cbn [utf8_valid_fuel lossy_fuel] in *.
  destruct (utf8_char_len (b :: l)) as [n|]; [|done]. by rewrite IH, take_drop.
Qed.

Lemma utf8_char_valid c : utf8_char c -> utf8_valid c = true.
Proof.
  intros [Hne Hl]. unfold utf8_valid. destruct c as [|b c]; [done|]. cbn [length utf8_valid_fuel].
  rewrite Hl. cbn [length]. rewrite drop_ge by done. by destruct (length c).
Qed.

Lemma bad_len_pos l : (0 < bad_len l)%nat.
Proof. destruct l as [|b0 [|b1 r]]; cbn; [lia|lia|]. repeat case_match; lia. Qed.

(** The result is well formed and at most three times as long. *)
Lemma lossy_fuel_spec fuel : forall l, (length l <= fuel)%nat ->
  utf8_valid (lossy_fuel fuel l) = true /\ (length (lossy_fuel fuel l) <= 3 * length l)%nat.
Proof.
  induction fuel as [|fuel IH]; intros [|b l] Hf; cbn [lossy_fuel]; try (split; [done|cbn; lia]).
  destruct (utf8_char_len (b :: l)) as [n|] eqn:E.
  - destruct (utf8_char_take _ _ E) as [Hc Hn]. destruct (utf8_char_len_app _ [] _ E) as [_ Hb].
    assert (Hd : (length (drop n (b :: l)) <= fuel)%nat) by (rewrite length_drop; cbn in *; lia).
    destruct (IH _ Hd) as [Hv Hl]. rewrite length_drop in Hl.
    split; [by apply utf8_valid_app; [apply utf8_char_valid|]|]. rewrite length_app, Hn. lia.
  - pose proof (bad_len_pos (b :: l)) as Hb.
    assert (Hd : (length (drop (bad_len (b :: l)) (b :: l)) <= fuel)%nat) by (rewrite length_drop; cbn [length] in *; lia).
    destruct (IH _ Hd) as [Hv Hl]. rewrite length_drop in Hl. split; [by apply utf8_valid_app|]. rewrite length_app. cbn [length REPLACEMENT] in *. lia.
Qed.

Lemma lossy_utf8 l : utf8_valid (from_utf8_lossy l) = true.
Proof. by apply lossy_fuel_spec. Qed.

Lemma lossy_length l : (length (from_utf8_lossy l) <= 3 * length l)%nat.
Proof. by apply lossy_fuel_spec. Qed.

(** ** Reading a stream to its end *)

(** [read_exact]: the bytes, or [None] when the stream ends before. *)
Definition read_exact (n : nat) (s : list byte) : option (list byte) * list byte :=
  (if (length s <? n)%nat then None else Some (take n s), drop n s).

(** [read_exact] into a zeroed buffer, its error ignored. *)
Definition read_fill (n : nat) (s : list byte) : list byte * list byte :=
  (take n s ++ replicate (n - length s) x00, drop n s).

Lemma read_exact_app l s : read_exact (length l) (l ++ s) = (Some l, s).
Proof. unfold read_exact. rewrite (proj2 (Nat.ltb_ge _ _)) by (rewrite length_app; lia). by rewrite take_app_length, drop_app_length. Qed.

Lemma read_fill_app l s : read_fill (length l) (l ++ s) = (l, s).
Proof.
  unfold read_fill. rewrite length_app, take_app_length, drop_app_length.
  replace (length l - (length l + length s))%nat with 0%nat by lia. by rewrite app_nil_r.
Qed.

Lemma read_exact_len n l s : length l = n -> read_exact n (l ++ s) = (Some l, s).
Proof. intros <-. apply read_exact_app. Qed.
