(* ===== verification/Multipath.v ===== *)
(** * Multipath

    src/src/transport/multipath.rs: several paths (a socket, a local and a
    remote address each), the four schedulers, path health, and the
    deduplication of received packets.

    A send is given what the sockets do ([net]: the error of a send on a path,
    or none) and returns the paths the datagram left on; a receive is given
    what path 0's socket yields. *)

From Stdlib Require Import ZArith Lia Bool List String Sorting.Sorted.
From Stdlib Require Import Strings.Byte.
From stdpp Require Import base list numbers option.
From S2P Require Import Prelude TestCrypto Float Stun Net Text.

Open Scope Z_scope.

Definition PATH_DEAD_TIMEOUT : Z := from_secs 10.
Definition DEDUP_WINDOW : nat := 64.

Inductive PathScheduler : Type := RoundRobin | MinLatency | Redundant | Weighted.

#[export] Instance PathScheduler_eq_dec : EqDecision PathScheduler.
Proof. solve_decision. Defined.

Definition is_lit (l : list byte) (s : string) : bool := bytes_eqb l (string_bytes s).

Definition PathScheduler_parse (s : list byte) : option PathScheduler :=
  let t := to_ascii_lowercase (trim s) in
  if is_lit t "round-robin" || is_lit t "roundrobin" || is_lit t "rr" then Some RoundRobin
  else if is_lit t "min-latency" || is_lit t "minlatency" || is_lit t "min_latency" then Some MinLatency
  else if is_lit t "redundant" then Some Redundant
  else if is_lit t "weighted" then Some Weighted
  else None.

Definition PathScheduler_as_str (s : PathScheduler) : list byte :=
  string_bytes match s with
               | RoundRobin => "round-robin" | MinLatency => "min-latency"
               | Redundant => "redundant" | Weighted => "weighted"
               end.

(** ** Paths *)

Record PathState : Type := mkPathState {
  ps_local_addr : SocketAddr;
  ps_remote_addr : SocketAddr;
  ps_rtt_estimate : Z;            (* Duration *)
  ps_loss_rate : f64;
  ps_bandwidth : Z;               (* u64 *)
  ps_active : bool;
  ps_packets_sent : Z;            (* AtomicU64 *)
  ps_packets_recv : Z;            (* AtomicU64 *)
  ps_last_seen : Z;               (* Instant *)
  ps_dedup_window : list Z        (* VecDeque<u64>, oldest first *)
}.

Definition PathState_new (local_addr remote_addr : SocketAddr) (now : Z) : PathState :=
  mkPathState local_addr remote_addr (from_millis 100) f64_zero 0 true 0 0 now [].

Definition set_ps_active (p : PathState) (v : bool) : PathState :=
  mkPathState (ps_local_addr p) (ps_remote_addr p) (ps_rtt_estimate p) (ps_loss_rate p) (ps_bandwidth p)
    v (ps_packets_sent p) (ps_packets_recv p) (ps_last_seen p) (ps_dedup_window p).
Definition set_ps_bandwidth (p : PathState) (v : Z) : PathState :=
  mkPathState (ps_local_addr p) (ps_remote_addr p) (ps_rtt_estimate p) (ps_loss_rate p) v
    (ps_active p) (ps_packets_sent p) (ps_packets_recv p) (ps_last_seen p) (ps_dedup_window p).
Definition set_ps_rtt (p : PathState) (v : Z) : PathState :=
  mkPathState (ps_local_addr p) (ps_remote_addr p) v (ps_loss_rate p) (ps_bandwidth p)
    (ps_active p) (ps_packets_sent p) (ps_packets_recv p) (ps_last_seen p) (ps_dedup_window p).

(** [packets_sent.fetch_add(1)]. *)
Definition count_sent (p : PathState) : PathState :=
  mkPathState (ps_local_addr p) (ps_remote_addr p) (ps_rtt_estimate p) (ps_loss_rate p) (ps_bandwidth p)
    (ps_active p) (wrapping_add 64 (ps_packets_sent p) 1) (ps_packets_recv p) (ps_last_seen p)
    (ps_dedup_window p).

(** [last_seen = now] and [packets_recv.fetch_add(1)]. *)
Definition count_recv (p : PathState) (now : Z) : PathState :=
  mkPathState (ps_local_addr p) (ps_remote_addr p) (ps_rtt_estimate p) (ps_loss_rate p) (ps_bandwidth p)
    (ps_active p) (ps_packets_sent p) (wrapping_add 64 (ps_packets_recv p) 1) now (ps_dedup_window p).

Definition seen (seq : Z) (w : list Z) : bool := existsb (Z.eqb seq) w.

(** The deque is full at [DEDUP_WINDOW] entries: the oldest goes first. *)
Definition window_push (w : list Z) (seq : Z) : list Z :=
  (if (DEDUP_WINDOW <=? length w)%nat then tail w else w) ++ [seq].

Definition record_recv (p : PathState) (seq now : Z) : bool * PathState :=
  if seen seq (ps_dedup_window p) then (false, p)
  else (true, mkPathState (ps_local_addr p) (ps_remote_addr p) (ps_rtt_estimate p) (ps_loss_rate p)
                (ps_bandwidth p) true (ps_packets_sent p) (wrapping_add 64 (ps_packets_recv p) 1) now
                (window_push (ps_dedup_window p) seq)).

(** [None] is the panic of [Duration::from_secs_f64]. *)
Definition update_rtt (p : PathState) (sample : Z) : option PathState :=
  let ALPHA := f64_lit 125 1000 in
  let old_ms := f64_mul (as_secs_f64 (ps_rtt_estimate p)) (f64_of 1000) in
  let new_ms := f64_mul (as_secs_f64 sample) (f64_of 1000) in
  let smoothed := f64_add (f64_mul old_ms (f64_sub (f64_of 1) ALPHA)) (f64_mul new_ms ALPHA) in
  match from_secs_f64 (f64_div smoothed (f64_of 1000)) with
  | Some d => Some (set_ps_rtt p d)
  | None => None
  end.

Definition is_timed_out (p : PathState) (now : Z) : bool :=
  ps_active p && (PATH_DEAD_TIMEOUT <=? duration_since now (ps_last_seen p)).

(** ** The endpoint *)

Record MultiPathEndpoint : Type := mkMultiPathEndpoint {
  mp_paths : list PathState;
  mp_scheduler : PathScheduler;
  mp_rr_cursor : nat;
  mp_send_seq : Z;                (* u64 *)
  mp_global_dedup : list Z;       (* VecDeque<u64> *)
  mp_redundant_recovered : Z      (* u64 *)
}.

Definition MultiPathEndpoint_new (s : PathScheduler) : MultiPathEndpoint :=
  mkMultiPathEndpoint [] s 0 0 [] 0.

Definition set_mp_paths (e : MultiPathEndpoint) (l : list PathState) : MultiPathEndpoint :=
  mkMultiPathEndpoint l (mp_scheduler e) (mp_rr_cursor e) (mp_send_seq e) (mp_global_dedup e)
    (mp_redundant_recovered e).
Definition set_mp_cursor (e : MultiPathEndpoint) (i : nat) : MultiPathEndpoint :=
  mkMultiPathEndpoint (mp_paths e) (mp_scheduler e) i (mp_send_seq e) (mp_global_dedup e)
    (mp_redundant_recovered e).
Definition set_mp_send_seq (e : MultiPathEndpoint) (v : Z) : MultiPathEndpoint :=
  mkMultiPathEndpoint (mp_paths e) (mp_scheduler e) (mp_rr_cursor e) v (mp_global_dedup e)
    (mp_redundant_recovered e).
Definition set_mp_dedup (e : MultiPathEndpoint) (w : list Z) (recovered : Z) : MultiPathEndpoint :=
  mkMultiPathEndpoint (mp_paths e) (mp_scheduler e) (mp_rr_cursor e) (mp_send_seq e) w recovered.

(** [add_path] once the socket is bound. *)
Definition add_path (e : MultiPathEndpoint) (local_addr remote_addr : SocketAddr) (now : Z) : MultiPathEndpoint :=
  set_mp_paths e (mp_paths e ++ [PathState_new local_addr remote_addr now]).

(** The first path with the local address. *)
Fixpoint position (local_addr : SocketAddr) (l : list PathState) : option nat :=
  match l with
  | [] => None
  | p :: l => if bool_decide (ps_local_addr p = local_addr) then Some 0%nat
              else match position local_addr l with Some i => Some (S i) | None => None end
  end.

Definition remove_path (e : MultiPathEndpoint) (local_addr : SocketAddr) : MultiPathEndpoint :=
  match position local_addr (mp_paths e) with
  | None => e
  | Some pos =>
      let l := delete pos (mp_paths e) in
      let e1 := set_mp_paths e l in
      if (length l <=? mp_rr_cursor e)%nat && negb (length l =? 0)%nat then set_mp_cursor e1 0 else e1
  end.

Definition path_count (e : MultiPathEndpoint) : nat := length (mp_paths e).
Definition active_path_count (e : MultiPathEndpoint) : nat := length (List.filter ps_active (mp_paths e)).

Definition tick_health (e : MultiPathEndpoint) (now : Z) : MultiPathEndpoint :=
  set_mp_paths e (map (fun p => if is_timed_out p now then set_ps_active p false else p) (mp_paths e)).

(** ** Sending *)

Inductive MpError : Type := NotConnected (msg : string) | IoError (e : string).

(** What a send on each path does. *)
Definition MpNet : Type := nat -> option string.

(** A send on path [idx]: the endpoint, the paths used, the result. *)
Definition send_on_path (net : MpNet) (e : MultiPathEndpoint) (idx : nat)
  : MultiPathEndpoint * list nat * Result nat MpError :=
  match net idx with
  | Some err => (e, [], Err (IoError err))
  | None => (set_mp_paths e (alter count_sent idx (mp_paths e)), [idx], Ok 1%nat)
  end.

(** [for _ in 0..n]: advance the cursor, stop at an active path. *)
Fixpoint advance_cursor (steps n : nat) (paths : list PathState) (cursor : nat) : nat :=
  match steps with
  | O => cursor
  | S steps =>
      let c := ((cursor + 1) mod n)%nat in
      match paths !! c with
      | Some p => if ps_active p then c else advance_cursor steps n paths c
      | None => c
      end
  end.

Definition send_round_robin (net : MpNet) (e : MultiPathEndpoint) :=
  if (active_path_count e =? 0)%nat then (e, [], Err (NotConnected "no active paths"))
  else
    let n := length (mp_paths e) in
    let idx := advance_cursor n n (mp_paths e) (mp_rr_cursor e) in
    send_on_path net (set_mp_cursor e idx) idx.

(** The indices of the active paths, in order. *)
Definition active_indices (e : MultiPathEndpoint) : list (nat * PathState) :=
  List.filter (fun x => ps_active x.2) (imap pair (mp_paths e)).

(** [min_by_key] keeps the first least element, [max_by_key] the last greatest. *)
Definition min_by_key (key : PathState -> Z) (l : list (nat * PathState)) : option (nat * PathState) :=
  fold_left (fun acc x => match acc with
                          | None => Some x
                          | Some y => if key x.2 <? key y.2 then Some x else Some y
                          end) l None.

Definition max_by_key (key : PathState -> Z) (l : list (nat * PathState)) : option (nat * PathState) :=
  fold_left (fun acc x => match acc with
                          | None => Some x
                          | Some y => if key y.2 <=? key x.2 then Some x else Some y
                          end) l None.

Definition send_min_latency (net : MpNet) (e : MultiPathEndpoint) :=
  match min_by_key ps_rtt_estimate (active_indices e) with
  | None => (e, [], Err (NotConnected "no active paths"))
  | Some (idx, _) => send_on_path net e idx
  end.

Definition send_weighted (net : MpNet) (e : MultiPathEndpoint) :=
  match max_by_key ps_bandwidth (active_indices e) with
  | None => (e, [], Err (NotConnected "no active paths"))
  | Some (idx, _) => send_on_path net e idx
  end.

(** One target after another; a failed send is remembered, not fatal. *)
Fixpoint send_targets (net : MpNet) (targets : list nat) (paths : list PathState) (used : list nat)
  (last_err : option MpError) : list PathState * list nat * option MpError :=
  match targets with
  | [] => (paths, used, last_err)
  | i :: targets =>
      match net i with
      | None => send_targets net targets (alter count_sent i paths) (used ++ [i]) last_err
      | Some err => send_targets net targets paths used (Some (IoError err))
      end
  end.

Definition send_redundant (net : MpNet) (e : MultiPathEndpoint) :=
  let '(paths, used, last_err) := send_targets net (map fst (active_indices e)) (mp_paths e) [] None in
  let e1 := set_mp_paths e paths in
  if (length used =? 0)%nat
  then (e1, used, Err (default (NotConnected "no active paths") last_err))
  else (e1, used, Ok (length used)).

Definition mp_send (net : MpNet) (e : MultiPathEndpoint) (now : Z)
  : MultiPathEndpoint * list nat * Result nat MpError :=
  let e1 := tick_health e now in
  let e2 := set_mp_send_seq e1 (wrapping_add 64 (mp_send_seq e1) 1) in
  match mp_scheduler e2 with
  | RoundRobin => send_round_robin net e2
  | MinLatency => send_min_latency net e2
  | Redundant => send_redundant net e2
  | Weighted => send_weighted net e2
  end.

(** ** Receiving *)

(** [recv_any] with the datagram path 0's socket yields. *)
Definition recv_any (e : MultiPathEndpoint) (now : Z) : MultiPathEndpoint * Result nat MpError :=
  match mp_paths e with
  | [] => (e, Err (NotConnected "no paths configured"))
  | p :: l => (set_mp_paths e (count_recv p now :: l), Ok 0%nat)
  end.

Inductive RecvDedup : Type :=
  | Delivered (e : MultiPathEndpoint) (data : list byte) (path : nat) (rest : list (Z * list byte))
  | RecvFailed (e : MultiPathEndpoint) (err : MpError)
  | Waiting (e : MultiPathEndpoint).

(** [recv_dedup] over the datagrams that arrive on path 0, each with its time;
    when they run out the call keeps waiting. *)
Fixpoint recv_dedup (e : MultiPathEndpoint) (arrivals : list (Z * list byte)) : RecvDedup :=
  match arrivals with
  | [] => match recv_any e 0 with
          | (_, Err err) => RecvFailed e err
          | (_, Ok _) => Waiting e
          end
  | (now, data) :: rest =>
      match recv_any e now with
      | (e1, Err err) => RecvFailed e1 err
      | (e1, Ok path_idx) =>
          if (length data <? 8)%nat then Delivered e1 data path_idx rest
          else
            let seq := from_be (take 8 data) in
            if seen seq (mp_global_dedup e1)
            then recv_dedup (set_mp_dedup e1 (mp_global_dedup e1) (wrapping_add 64 (mp_redundant_recovered e1) 1)) rest
            else
              let e2 := set_mp_dedup e1 (window_push (mp_global_dedup e1) seq) (mp_redundant_recovered e1) in
              let e3 := set_mp_paths e2 (alter (fun p => (record_recv p seq now).2) path_idx (mp_paths e2)) in
              Delivered e3 data path_idx rest
      end
  end.

(** ** Per-path updates by local address *)

Definition on_first (local_addr : SocketAddr) (f : PathState -> PathState) (e : MultiPathEndpoint) : MultiPathEndpoint :=
  match position local_addr (mp_paths e) with
  | Some i => set_mp_paths e (alter f i (mp_paths e))
  | None => e
  end.

Definition update_path_rtt (e : MultiPathEndpoint) (local_addr : SocketAddr) (rtt : Z) : option MultiPathEndpoint :=
  match position local_addr (mp_paths e) with
  | Some i =>
      match mp_paths e !! i with
      | Some p => match update_rtt p rtt with
                  | Some p' => Some (set_mp_paths e (<[i := p']> (mp_paths e)))
                  | None => None
                  end
      | None => Some e
      end
  | None => Some e
  end.

Definition update_path_bandwidth (e : MultiPathEndpoint) (local_addr : SocketAddr) (bandwidth : Z) : MultiPathEndpoint :=
  on_first local_addr (fun p => set_ps_bandwidth p bandwidth) e.

Definition mp_on_recv (e : MultiPathEndpoint) (local_addr : SocketAddr) (seq now : Z) : MultiPathEndpoint * bool :=
  match position local_addr (mp_paths e) with
  | Some i =>
      match mp_paths e !! i with
      | Some p => let '(b, p') := record_recv p seq now in (set_mp_paths e (<[i := p']> (mp_paths e)), b)
      | None => (e, false)
      end
  | None => (e, false)
  end.

(** * Properties *)

Lemma scheduler_parse_as_str s : PathScheduler_parse (PathScheduler_as_str s) = Some s.
Proof. by destruct s. Qed.

(** ** Round robin *)

Lemma active_at e i p : mp_paths e !! i = Some p -> ps_active p = true -> active_path_count e <> 0%nat.
Proof.
  intros Hi Hp. unfold active_path_count. apply list_elem_of_lookup_2, list_elem_of_In in Hi.
  assert (Hin : In p (List.filter ps_active (mp_paths e))) by (by apply filter_In).
  by destruct (List.filter ps_active (mp_paths e)).
Qed.

(** The cursor stops at the first active path after it, cyclically. *)
Lemma advance_cursor_spec n paths : length paths = n -> (0 < n)%nat ->
  forall steps cursor, exists k, (k <= steps)%nat
    /\ advance_cursor steps n paths cursor = (if (k =? 0)%nat then cursor else (cursor + k) mod n)%nat
    /\ (forall j p, (1 <= j < k)%nat -> paths !! ((cursor + j) mod n)%nat = Some p -> ps_active p = false)
    /\ (forall p, (k < steps)%nat -> paths !! ((cursor + k) mod n)%nat = Some p -> ps_active p = true)
    /\ ((k < steps)%nat -> (1 <= k)%nat).
Proof.
  intros Hl Hn. induction steps as [|steps IH]; intros cursor.
  { exists 0%nat. cbn. repeat split; lia. }
  cbn [advance_cursor]. set (c := ((cursor + 1) mod n)%nat).
  assert (Hc : (c < length paths)%nat) by (rewrite Hl; apply Nat.mod_upper_bound; lia).
  destruct (lookup_lt_is_Some_2 paths c Hc) as [p Hp]. rewrite Hp. destruct (ps_active p) eqn:Ea.
  - exists 1%nat. cbn. split; [lia|]. split; [done|]. split; [lia|]. split; [|done].
    intros p' _ Hp'. fold c in Hp'. by rewrite Hp in Hp'; injection Hp' as <-.
  - destruct (IH c) as (k & Hk & E & Hbefore & Hat & Hpos).
    assert (Hshift : forall j, ((c + j) mod n = (cursor + S j) mod n)%nat).
    { intros j. unfold c. rewrite Nat.Div0.add_mod_idemp_l. f_equal. lia. }
    exists (S k). split; [lia|]. split.
    { rewrite E. destruct k as [|k]; cbn [Nat.eqb]; [done|]. apply Hshift. }
    split; [|split].
    + intros j p' Hj Hp'. destruct (decide (j = 1%nat)) as [->|Hne].
      * fold c in Hp'. rewrite Hp in Hp'. by injection Hp' as <-.
      * apply (Hbefore (j - 1)%nat); [lia|]. rewrite Hshift. by replace (S (j - 1)) with j by lia.
    + intros p' Hlt Hp'. apply Hat; [lia|]. by rewrite Hshift.
    + lia.
Qed.

Lemma advance_cursor_active n paths cursor i p :
  length paths = n -> paths !! i = Some p -> ps_active p = true ->
  exists k q, (1 <= k <= n)%nat /\ advance_cursor n n paths cursor = ((cursor + k) mod n)%nat
    /\ paths !! ((cursor + k) mod n)%nat = Some q /\ ps_active q = true
    /\ (forall j q', (1 <= j < k)%nat -> paths !! ((cursor + j) mod n)%nat = Some q' -> ps_active q' = false).
Proof.
  intros Hl Hi Hp. assert (Hn : (i < n)%nat) by (rewrite <- Hl; by eapply lookup_lt_Some).
  destruct (advance_cursor_spec n paths Hl ltac:(lia) n cursor) as (k & Hk & E & Hb & Ha & Hpos).
  assert (Hlt : (((cursor + k) mod n) < length paths)%nat) by (rewrite Hl; apply Nat.mod_upper_bound; lia).
  destruct (lookup_lt_is_Some_2 paths _ Hlt) as [q Hq].
  assert (Hd : exists j, (1 <= j <= n)%nat /\ ((cursor + j) mod n = i)%nat).
  { pose proof (Nat.mod_upper_bound cursor n ltac:(lia)) as Hcm.
    pose proof (Nat.div_mod cursor n ltac:(lia)) as Hcd.
    destruct (decide (cursor mod n < i)%nat) as [Hlt'|Hge].
    - exists (i - cursor mod n)%nat. split; [lia|].
      replace (cursor + (i - cursor mod n))%nat with (i + (cursor / n) * n)%nat by lia.
      rewrite Nat.Div0.mod_add. apply Nat.mod_small. lia.
    - exists (i + n - cursor mod n)%nat. split; [lia|].
      replace (cursor + (i + n - cursor mod n))%nat with (i + (cursor / n + 1) * n)%nat by lia.
      rewrite Nat.Div0.mod_add. apply Nat.mod_small. lia. }
  destruct Hd as (j & Hj & Ej).
  assert (Hkj : (k <= j)%nat).
  { destruct (decide (j < k)%nat) as [Hjk|]; [|lia]. pose proof (Hb j p ltac:(lia)) as Hf.
    rewrite Ej, Hi in Hf. specialize (Hf eq_refl). congruence. }
  exists k, q. destruct (decide (k = 0)%nat) as [->|Hk0].
  { specialize (Hpos ltac:(lia)). lia. }
  split; [lia|]. split; [by rewrite E, (proj2 (Nat.eqb_neq k 0) Hk0)|]. split; [done|]. split; [|done].
  destruct (decide (k < n)%nat) as [Hkn|]; [by apply (Ha q)|].
  assert (k = j) as -> by lia. rewrite Ej, Hi in Hq. by injection Hq as <-.
Qed.

(** The paths used by [k] sends at one time. *)
Fixpoint send_many (net : MpNet) (e : MultiPathEndpoint) (now : Z) (k : nat) : MultiPathEndpoint * list (list nat) :=
  match k with
  | O => (e, [])
  | S k => let '(e1, used, _) := mp_send net e now in
           let '(e2, rest) := send_many net e1 now k in (e2, used :: rest)
  end.

Definition all_live (e : MultiPathEndpoint) (now : Z) : Prop :=
  forall i p, mp_paths e !! i = Some p -> ps_active p = true /\ is_timed_out p now = false.

Lemma tick_health_live e now : all_live e now -> tick_health e now = e.
Proof.
  intros Hl. unfold tick_health, set_mp_paths. destruct e as [paths sc cur sq gd rr]. cbn in *.
  f_equal. rewrite <- (map_id paths) at 2. apply map_ext_in. intros p Hp.
  apply list_elem_of_In, list_elem_of_lookup in Hp as [i Hp]. by rewrite (proj2 (Hl i p Hp)).
Qed.

Lemma alter_all_live e now idx :
  all_live e now -> all_live (set_mp_paths e (alter count_sent idx (mp_paths e))) now.
Proof.
  intros Hl i p Hp. cbn in Hp. destruct (decide (i = idx)) as [->|Hne].
  - rewrite list_lookup_alter_eq in Hp. destruct (mp_paths e !! idx) as [q|] eqn:Hq; [|done].
    injection Hp as <-. exact (Hl idx q Hq).
  - rewrite list_lookup_alter_ne in Hp by done. by apply (Hl i).
Qed.

(** One round-robin send over live paths moves on by one path. *)
Lemma round_robin_step e now net :
  all_live e now -> mp_paths e <> [] -> mp_scheduler e = RoundRobin -> (forall i, net i = None) ->
  let n := length (mp_paths e) in
  exists e', mp_send net e now = (e', [((mp_rr_cursor e + 1) mod n)%nat], Ok 1%nat)
    /\ all_live e' now /\ length (mp_paths e') = n /\ mp_scheduler e' = RoundRobin
    /\ mp_rr_cursor e' = ((mp_rr_cursor e + 1) mod n)%nat.
Proof.
  intros Hl Hne Hs Hnet n. unfold mp_send. rewrite (tick_health_live e now Hl). cbn [mp_scheduler set_mp_send_seq].
  rewrite Hs. unfold send_round_robin. cbn [mp_paths set_mp_send_seq mp_rr_cursor].
  assert (Hn : (0 < n)%nat) by (unfold n; destruct (mp_paths e); [done|cbn; lia]).
  destruct (lookup_lt_is_Some_2 (mp_paths e) 0%nat Hn) as [p0 H0].
  pose proof (active_at e 0 p0 H0 (proj1 (Hl 0%nat p0 H0))) as Hact.
  replace (active_path_count (set_mp_send_seq e _) =? 0)%nat with false by (symmetry; by apply Nat.eqb_neq).
  fold n.
  assert (E : advance_cursor n n (mp_paths e) (mp_rr_cursor e) = ((mp_rr_cursor e + 1) mod n)%nat).
  { destruct n as [|n'] eqn:En; [lia|]. cbn [advance_cursor]. rewrite <- En in *.
    destruct (lookup_lt_is_Some_2 (mp_paths e) ((mp_rr_cursor e + 1) mod n)) as [q Hq].
    { apply Nat.mod_upper_bound. lia. }
    rewrite Hq. by rewrite (proj1 (Hl _ q Hq)). }
  rewrite E. unfold send_on_path. rewrite Hnet. eexists. split; [done|].
  split; [by apply (alter_all_live (set_mp_cursor (set_mp_send_seq e _) _))|].
  cbn. by rewrite length_alter.
Qed.

(** Round robin distributes evenly: while all paths are live and their sends
    succeed, the [j]-th packet goes out on the [j]-th path after the cursor
    and on no other, so every path carries one packet in each round of as
    many packets as there are paths. *)
Theorem round_robin_rotates net now k : forall e,
  all_live e now -> mp_paths e <> [] -> mp_scheduler e = RoundRobin -> (forall i, net i = None) ->
  (send_many net e now k).2
  = map (fun j => [((mp_rr_cursor e + j) mod length (mp_paths e))%nat]) (seq 1 k).
Proof.
  induction k as [|k IH]; intros e Hl Hne Hs Hnet; [done|]. cbn [send_many].
  destruct (round_robin_step e now net Hl Hne Hs Hnet) as (e' & -> & Hl' & Hn & Hs' & Hc).
  assert (Hne' : mp_paths e' <> []) by (intros E; rewrite E in Hn; by destruct (mp_paths e)).
  specialize (IH e' Hl' Hne' Hs' Hnet). destruct (send_many net e' now k) as [e2 rest]. cbn [snd] in *.
  rewrite IH, Hn, Hc. cbn [seq map]. f_equal. rewrite <- (seq_shift k 1), map_map. apply map_ext. intros j.
  f_equal. rewrite Nat.Div0.add_mod_idemp_l. f_equal. lia.
Qed.

(** ** Choosing by a key *)

Lemma active_indices_In e i p :
  In (i, p) (active_indices e) <-> mp_paths e !! i = Some p /\ ps_active p = true.
Proof.
  unfold active_indices. rewrite filter_In. cbn [snd]. rewrite <- list_elem_of_In.
  rewrite elem_of_lookup_imap. split.
  - intros [(j & q & [= -> ->] & Hq) Ha]. by split.
  - intros [Hq Ha]. split; [|done]. by exists i, p.
Qed.

Lemma active_indices_sorted e : StronglySorted lt (map fst (active_indices e)).
Proof.
  unfold active_indices. generalize (mp_paths e). intros l.
  assert (Hg : forall (l : list PathState) off,
    StronglySorted lt (map fst (List.filter (fun x => ps_active x.2) (imap (fun i p => ((off + i)%nat, p)) l)))
    /\ Forall (fun i => (off <= i)%nat) (map fst (List.filter (fun x => ps_active x.2) (imap (fun i p => ((off + i)%nat, p)) l)))).
  { clear. induction l as [|p l IH]; intros off; [by split; constructor|].
    assert (E : imap (fun i p => ((off + i)%nat, p)) (p :: l) = (off, p) :: imap (fun i p => ((S off + i)%nat, p)) l).
    { rewrite imap_cons. rewrite Nat.add_0_r. f_equal. apply imap_ext. intros i x _. cbn. f_equal. lia. }
    rewrite E. cbn [List.filter snd]. destruct (IH (S off)) as [H1 H2].
    assert (H3 : Forall (fun i => (off <= i)%nat)
      (map fst (List.filter (fun x => ps_active x.2) (imap (fun i p => ((S off + i)%nat, p)) l))))
      by (eapply List.Forall_impl; [|exact H2]; cbn beta; lia).
    destruct (ps_active p); cbn [map fst]; [|by split].
    split; [constructor; [done|]|by constructor].
    eapply List.Forall_impl; [|exact H2]. cbn beta. lia. }
  apply (Hg l 0%nat).
Qed.

(** The first least element of the list. *)
Lemma min_by_key_spec key l :
  match min_by_key key l with
  | None => l = []
  | Some x => exists l1 l2, l = l1 ++ x :: l2
      /\ (forall y, In y l1 -> key x.2 < key y.2) /\ (forall y, In y l2 -> key x.2 <= key y.2)
  end.
Proof.
  induction l as [|z l IH] using rev_ind; [done|]. unfold min_by_key in *. rewrite fold_left_app.
  destruct (fold_left _ l None) as [x|]; cbn [fold_left].
  - destruct IH as (l1 & l2 & -> & H1 & H2). destruct (key z.2 <? key x.2) eqn:E; cmp_facts.
    + exists (l1 ++ x :: l2), []. split; [done|]. split; [|done].
      intros y Hy. apply in_app_or in Hy as [Hy|[<-|Hy]]; [specialize (H1 y Hy)|..|specialize (H2 y Hy)]; lia.
    + exists l1, (l2 ++ [z]). split; [by rewrite <- app_assoc|]. split; [done|].
      intros y Hy. apply in_app_or in Hy as [Hy|[<-|[]]]; [by apply H2|lia].
  - subst l. by exists [], [].
Qed.

(** The last greatest element of the list. *)
Lemma max_by_key_spec key l :
  match max_by_key key l with
  | None => l = []
  | Some x => exists l1 l2, l = l1 ++ x :: l2
      /\ (forall y, In y l1 -> key y.2 <= key x.2) /\ (forall y, In y l2 -> key y.2 < key x.2)
  end.
Proof.
  induction l as [|z l IH] using rev_ind; [done|]. unfold max_by_key in *. rewrite fold_left_app.
  destruct (fold_left _ l None) as [x|]; cbn [fold_left].
  - destruct IH as (l1 & l2 & -> & H1 & H2). destruct (key x.2 <=? key z.2) eqn:E; cmp_facts.
    + exists (l1 ++ x :: l2), []. split; [done|]. split; [|done].
      intros y Hy. apply in_app_or in Hy as [Hy|[<-|Hy]]; [specialize (H1 y Hy)|..|specialize (H2 y Hy)]; lia.
    + exists l1, (l2 ++ [z]). split; [by rewrite <- app_assoc|]. split; [done|].
      intros y Hy. apply in_app_or in Hy as [Hy|[<-|[]]]; [by apply H2|lia].
  - subst l. by exists [], [].
Qed.

Lemma sorted_mid (l1 l2 : list (nat * PathState)) x y :
  StronglySorted lt (map fst (l1 ++ x :: l2)) ->
  (In y l1 -> (y.1 < x.1)%nat) /\ (In y l2 -> (x.1 < y.1)%nat).
Proof.
  induction l1 as [|a l1 IH]; cbn [app map]; intros Hs.
  - split; [done|]. intros Hy. apply StronglySorted_inv in Hs as [_ Hf].
    rewrite List.Forall_forall in Hf. apply Hf. by apply in_map.
  - apply StronglySorted_inv in Hs as [Hs Hf]. destruct (IH Hs) as [IH1 IH2]. split; [|done].
    intros [->|Hy]; [|by apply IH1]. rewrite List.Forall_forall in Hf. apply Hf.
    rewrite map_app. apply in_or_app. right. by left.
Qed.

(** What the two choosing schedulers choose, over any paths.  MinLatency: an
    active path of least RTT estimate, the lowest-numbered of them.
    Weighted: an active path of greatest bandwidth, but the highest-numbered
    of them (the comment asks for the lowest).  Either refuses only when no
    path is active. *)
Theorem scheduler_choice e :
  match min_by_key ps_rtt_estimate (active_indices e) with
  | None => forall i p, mp_paths e !! i = Some p -> ps_active p = false
  | Some (i, p) => mp_paths e !! i = Some p /\ ps_active p = true
      /\ forall j q, mp_paths e !! j = Some q -> ps_active q = true ->
           ps_rtt_estimate p <= ps_rtt_estimate q
           /\ (ps_rtt_estimate q = ps_rtt_estimate p -> (i <= j)%nat)
  end
  /\ match max_by_key ps_bandwidth (active_indices e) with
     | None => forall i p, mp_paths e !! i = Some p -> ps_active p = false
     | Some (i, p) => mp_paths e !! i = Some p /\ ps_active p = true
         /\ forall j q, mp_paths e !! j = Some q -> ps_active q = true ->
              ps_bandwidth q <= ps_bandwidth p
              /\ (ps_bandwidth q = ps_bandwidth p -> (j <= i)%nat)
     end.
Proof.
  pose proof (active_indices_sorted e) as Hs.
  assert (Hnone : active_indices e = [] -> forall i p, mp_paths e !! i = Some p -> ps_active p = false).
  { intros En i p Hp. apply not_true_is_false. intros Ha.
    assert (Hin : In (i, p) (active_indices e)) by (by apply active_indices_In). by rewrite En in Hin. }
  assert (Hin : forall l1 x l2, active_indices e = l1 ++ x :: l2 ->
    mp_paths e !! x.1 = Some x.2 /\ ps_active x.2 = true
    /\ forall j q, mp_paths e !! j = Some q -> ps_active q = true ->
         (In (j, q) l1 /\ (j < x.1)%nat) \/ (j, q) = x \/ (In (j, q) l2 /\ (x.1 < j)%nat)).
  { intros l1 [i p] l2 E. cbn [fst snd]. rewrite E in Hs.
    assert (Hx : In (i, p) (active_indices e)) by (rewrite E; apply in_or_app; right; by left).
    apply active_indices_In in Hx as [Hp Ha]. split; [done|]. split; [done|]. intros j q Hq Hqa.
    assert (Hj : In (j, q) (active_indices e)) by (by apply active_indices_In).
    destruct (sorted_mid l1 l2 (i, p) (j, q) Hs) as [S1 S2]. rewrite E in Hj.
    apply in_app_or in Hj as [Hj|[Hj|Hj]]; [left; split; [done|by apply S1]|right; left; done|
      right; right; split; [done|by apply S2]]. }
  split.
  - pose proof (min_by_key_spec ps_rtt_estimate (active_indices e)) as Hm.
    destruct (min_by_key _ _) as [[i p]|]; [|by apply Hnone]. destruct Hm as (l1 & l2 & E & H1 & H2).
    destruct (Hin l1 (i, p) l2 E) as (Hp & Ha & Hall). split; [done|]. split; [done|]. cbn [fst snd] in *.
    intros j q Hq Hqa. destruct (Hall j q Hq Hqa) as [[Hj Hl]|[[= -> ->]|[Hj Hl]]].
    + specialize (H1 (j, q) Hj). cbn [snd] in H1. lia.
    + lia.
    + specialize (H2 (j, q) Hj). cbn [snd] in H2. lia.
  - pose proof (max_by_key_spec ps_bandwidth (active_indices e)) as Hm.
    destruct (max_by_key _ _) as [[i p]|]; [|by apply Hnone]. destruct Hm as (l1 & l2 & E & H1 & H2).
    destruct (Hin l1 (i, p) l2 E) as (Hp & Ha & Hall). split; [done|]. split; [done|]. cbn [fst snd] in *.
    intros j q Hq Hqa. destruct (Hall j q Hq Hqa) as [[Hj Hl]|[[= -> ->]|[Hj Hl]]].
    + specialize (H1 (j, q) Hj). cbn [snd] in H1. lia.
    + lia.
    + specialize (H2 (j, q) Hj). cbn [snd] in H2. lia.
Qed.

(** ** Redundancy *)

Lemma send_targets_used net targets : forall paths used err,
  (send_targets net targets paths used err).1.2
  = used ++ List.filter (fun i => match net i with None => true | Some _ => false end) targets.
Proof.
  induction targets as [|i targets IH]; intros paths used err; cbn [send_targets List.filter].
  { by rewrite app_nil_r. }
  destruct (net i); rewrite IH; [done|]. by rewrite <- app_assoc.
Qed.

(** Redundant mode uses exactly the active paths whose send succeeds, and
    reports an error exactly when there are none. *)
Lemma redundant_uses_all net e :
  let ok := List.filter (fun i => match net i with None => true | Some _ => false end) (map fst (active_indices e)) in
  (send_redundant net e).1.2 = ok
  /\ (ok <> [] -> (send_redundant net e).2 = Ok (length ok))
  /\ (ok = [] -> exists err, (send_redundant net e).2 = Err err).
Proof.
  intros ok. unfold send_redundant.
  pose proof (send_targets_used net (map fst (active_indices e)) (mp_paths e) [] None) as Hu. cbn [app] in Hu.
  destruct (send_targets _ _ _ _ _) as [[paths used] err]. cbn [fst snd] in Hu. fold ok in Hu. subst used.
  destruct ok as [|i l]; cbn [length Nat.eqb]; (split; [done|]).
  - split; [done|]. intros _. by eexists.
  - by split.
Qed.

(** ** Deduplication *)

(** The last [DEDUP_WINDOW] entries of a history. *)
Definition last_window (h : list Z) : list Z := drop (length h - DEDUP_WINDOW) h.

Lemma window_push_last h s : window_push (last_window h) s = last_window (h ++ [s]).
Proof.
  unfold window_push, last_window, DEDUP_WINDOW. rewrite length_drop, length_app. cbn [length].
  destruct (64 <=? length h - (length h - 64))%nat eqn:E; cmp_facts; rewrite drop_app_le by lia; f_equal.
  - replace (length h + 1 - 64)%nat with (1 + (length h - 64))%nat by lia.
    rewrite Nat.add_comm, <- drop_drop. by destruct (drop (length h - 64) h).
  - f_equal. lia.
Qed.

Lemma seen_In seq w : seen seq w = true <-> In seq w.
Proof.
  unfold seen. rewrite existsb_exists. split; [by intros (x & Hx & ->%Z.eqb_eq)|].
  intros Hi. exists seq. split; [done|apply Z.eqb_refl].
Qed.

(** Every delivery of the arrivals, one call after another. *)
Fixpoint recv_all (fuel : nat) (e : MultiPathEndpoint) (arrivals : list (Z * list byte)) : list (list byte) :=
  match fuel with
  | O => []
  | S fuel =>
      match recv_dedup e arrivals with
      | Delivered e' data _ rest => data :: recv_all fuel e' rest
      | _ => []
      end
  end.

(** The specification: a packet with a sequence number passes unless the
    number is among the last 64 that passed. *)
Fixpoint dedup_spec (h : list Z) (arrivals : list (Z * list byte)) : list (list byte) :=
  match arrivals with
  | [] => []
  | (_, data) :: rest =>
      if (length data <? 8)%nat then data :: dedup_spec h rest
      else
        let seq := from_be (take 8 data) in
        if seen seq (last_window h) then dedup_spec h rest
        else data :: dedup_spec (h ++ [seq]) rest
  end.

Lemma recv_dedup_spec arrivals : forall e h,
  mp_paths e <> [] -> mp_global_dedup e = last_window h ->
  match recv_dedup e arrivals with
  | Delivered e' data _ rest => exists h', dedup_spec h arrivals = data :: dedup_spec h' rest
      /\ mp_paths e' <> [] /\ mp_global_dedup e' = last_window h' /\ (length rest < length arrivals)%nat
  | RecvFailed _ _ => False
  | Waiting _ => dedup_spec h arrivals = []
  end.
Proof.
  induction arrivals as [|[now data] rest IH]; intros e h Hne Hw; cbn [recv_dedup dedup_spec].
  { unfold recv_any. by destruct (mp_paths e). }
  unfold recv_any. destruct (mp_paths e) as [|p l] eqn:Ep; [done|].
  destruct (length data <? 8)%nat.
  { exists h. repeat split; cbn; [done|done|lia]. }
  cbn [mp_global_dedup set_mp_paths]. rewrite Hw. destruct (seen _ (last_window h)).
  - match goal with |- context [recv_dedup ?e1 rest] => specialize (IH e1 h) end.
    cbn [mp_paths set_mp_dedup set_mp_paths mp_global_dedup] in IH. specialize (IH ltac:(done) eq_refl).
    destruct (recv_dedup _ rest); [|done..]. destruct IH as (h' & E1 & E2 & E3 & E4).
    exists h'. repeat split; [done|done|done|cbn; lia].
  - exists (h ++ [from_be (take 8 data)]). split; [done|]. split; [|split; [apply window_push_last|cbn; lia]].
    cbn. done.
Qed.

Lemma recv_all_spec fuel : forall e h arrivals,
  (length arrivals <= fuel)%nat -> mp_paths e <> [] -> mp_global_dedup e = last_window h ->
  recv_all fuel e arrivals = dedup_spec h arrivals.
Proof.
  induction fuel as [|fuel IH]; intros e h arrivals Hf Hne Hw.
  { by destruct arrivals; [|cbn in Hf; lia]. }
  cbn [recv_all]. pose proof (recv_dedup_spec arrivals e h Hne Hw) as Hs.
  destruct (recv_dedup e arrivals) as [e' data i rest|e' err|e']; [|done|by rewrite Hs].
  destruct Hs as (h' & -> & E2 & E3 & E4). f_equal. apply IH; [lia|done|done].
Qed.

Definition seqs_of (l : list (list byte)) : list Z :=
  map (fun d => from_be (take 8 d)) (List.filter (fun d => negb (length d <? 8)%nat) l).

Lemma dedup_spec_spaced arrivals : forall h,
  (forall i j s, (i < j)%nat -> h !! i = Some s -> h !! j = Some s -> (DEDUP_WINDOW < j - i)%nat) ->
  let all := h ++ seqs_of (dedup_spec h arrivals) in
  forall i j s, (i < j)%nat -> all !! i = Some s -> all !! j = Some s -> (DEDUP_WINDOW < j - i)%nat.
Proof.
  induction arrivals as [|[now data] rest IH]; intros h Hh; cbn [dedup_spec].
  { unfold seqs_of. cbn. by rewrite app_nil_r. }
  destruct (length data <? 8)%nat eqn:El.
  { unfold seqs_of. cbn [List.filter]. rewrite El. cbn [negb]. apply (IH h Hh). }
  destruct (seen _ (last_window h)) eqn:Es; [apply (IH h Hh)|].
  set (s0 := from_be (take 8 data)) in *.
  assert (Hns : ~ In s0 (last_window h)) by (rewrite <- seen_In, Es; done).
  specialize (IH (h ++ [s0])). unfold seqs_of in *. cbn [List.filter]. rewrite El. cbn [negb map]. fold s0.
  rewrite <- app_assoc in IH. cbn [app] in IH. apply IH. clear IH.
  intros i j s Hij Hi Hj. apply lookup_app_Some in Hj as [Hj|[Hjl Hj]].
  - rewrite lookup_app_l in Hi by (apply lookup_lt_Some in Hj; lia). by apply (Hh i j s).
  - apply list_lookup_singleton_Some in Hj as [Hj <-].
    rewrite lookup_app_l in Hi by lia. destruct (decide (DEDUP_WINDOW < j - i)%nat) as [|Hle]; [done|].
    exfalso. apply Hns. apply list_elem_of_In, list_elem_of_lookup. unfold last_window.
    exists (i - (length h - DEDUP_WINDOW))%nat. rewrite lookup_drop.
    replace (length h - DEDUP_WINDOW + (i - (length h - DEDUP_WINDOW)))%nat with i by lia. done.
Qed.

(** C24: Deduplicated receiving, against its specification.  Over any arrivals on
    path 0, calls of [recv_dedup] hand out exactly the packets too short to
    carry a sequence number and those whose number is not among the last 64
    numbers handed out: nothing new is lost, and between two packets with the
    same number at least 64 others with numbers were handed out. *)
Theorem recv_dedup_refines e arrivals :
  mp_paths e <> [] -> mp_global_dedup e = [] ->
  let out := recv_all (length arrivals) e arrivals in
  out = dedup_spec [] arrivals
  /\ forall i j s, (i < j)%nat -> seqs_of out !! i = Some s -> seqs_of out !! j = Some s ->
       (DEDUP_WINDOW < j - i)%nat.
Proof.
  intros Hne Hd out. assert (E : out = dedup_spec [] arrivals).
  { by apply recv_all_spec. }
  split; [done|]. rewrite E. apply (dedup_spec_spaced arrivals []). intros i j s _ Hi. done.
Qed.

(** ** Paths nothing listens on *)

Inductive MpOp : Type :=
  | MpSend (net : MpNet) (now : Z)
  | MpRecv (arrivals : list (Z * list byte)).

Definition mp_step (e : MultiPathEndpoint) (op : MpOp) : MultiPathEndpoint * list nat :=
  match op with
  | MpSend net now => (mp_send net e now).1
  | MpRecv arrivals => (match recv_dedup e arrivals with
                        | Delivered e' _ _ _ | RecvFailed e' _ | Waiting e' => e'
                        end, [])
  end.

(** The endpoint after the operations and the paths used by them. *)
Fixpoint mp_run (e : MultiPathEndpoint) (ops : list MpOp) : MultiPathEndpoint * list nat :=
  match ops with
  | [] => (e, [])
  | op :: ops => let '(e1, used) := mp_step e op in
                 let '(e2, used') := mp_run e1 ops in (e2, used ++ used')
  end.

(** Path [i], silent since [t]. *)
Definition silent (i : nat) (t : Z) (e : MultiPathEndpoint) : Prop :=
  forall p, mp_paths e !! i = Some p -> ps_last_seen p = t.

Definition dead (i : nat) (e : MultiPathEndpoint) : Prop :=
  forall p, mp_paths e !! i = Some p -> ps_active p = false.

(** A predicate on one path that counting its sends does not affect. *)
Definition sent_stable (Q : PathState -> Prop) : Prop := forall p, Q p -> Q (count_sent p).

Definition at_path (i : nat) (Q : PathState -> Prop) (l : list PathState) : Prop :=
  forall p, l !! i = Some p -> Q p.

Lemma at_path_alter i j Q (f : PathState -> PathState) l :
  (forall p, Q p -> Q (f p)) -> at_path i Q l -> at_path i Q (alter f j l).
Proof.
  intros Hf Hl p Hp. destruct (decide (i = j)) as [->|Hne].
  - rewrite list_lookup_alter_eq in Hp. destruct (l !! j) as [q|] eqn:Hq; [|done]. injection Hp as <-. auto.
  - rewrite list_lookup_alter_ne in Hp by done. auto.
Qed.

Lemma send_targets_at i Q net targets : sent_stable Q -> forall paths used err,
  at_path i Q paths -> at_path i Q (send_targets net targets paths used err).1.1.
Proof.
  intros HQ. induction targets as [|j targets IH]; intros paths used err Hp; cbn [send_targets]; [done|].
  destruct (net j); apply IH; [done|]. by apply at_path_alter.
Qed.

Lemma send_on_path_at i Q net e idx :
  sent_stable Q -> at_path i Q (mp_paths e) -> at_path i Q (mp_paths (send_on_path net e idx).1.1).
Proof. intros HQ Hp. unfold send_on_path. destruct (net idx); [done|]. by apply at_path_alter. Qed.

Lemma mp_send_at i Q net e now :
  sent_stable Q -> at_path i Q (mp_paths (tick_health e now)) -> at_path i Q (mp_paths (mp_send net e now).1.1).
Proof.
  intros HQ Hp. unfold mp_send. destruct (mp_scheduler _).
  - unfold send_round_robin. destruct (_ =? 0)%nat; [done|]. by apply send_on_path_at.
  - unfold send_min_latency. destruct (min_by_key _ _) as [[idx q]|]; [by apply send_on_path_at|done].
  - unfold send_redundant.
    pose proof (send_targets_at i Q net (map fst (active_indices (set_mp_send_seq (tick_health e now)
      (wrapping_add 64 (mp_send_seq (tick_health e now)) 1)))) HQ (mp_paths (tick_health e now)) [] None Hp) as Ht.
    cbn [mp_paths set_mp_send_seq]. destruct (send_targets _ _ _ _ _) as [[paths used] err].
    by destruct (length used =? 0)%nat.
  - unfold send_weighted. destruct (max_by_key _ _) as [[idx q]|]; [by apply send_on_path_at|done].
Qed.

Lemma tick_health_at i e now p :
  mp_paths (tick_health e now) !! i = Some p ->
  exists q, mp_paths e !! i = Some q /\ p = (if is_timed_out q now then set_ps_active q false else q).
Proof.
  cbn. intros Hp. apply list_lookup_fmap_Some in Hp as (q & Hq & ->). by exists q.
Qed.

(** Receiving touches path 0 only. *)
Lemma recv_dedup_other i arrivals : (0 < i)%nat -> forall e,
  match recv_dedup e arrivals with
  | Delivered e' _ _ _ | RecvFailed e' _ | Waiting e' => mp_paths e' !! i = mp_paths e !! i
  end.
Proof.
  intros Hi. induction arrivals as [|[now data] rest IH]; intros e; cbn [recv_dedup].
  { unfold recv_any. by destruct (mp_paths e) eqn:E; cbn; rewrite ?E. }
  unfold recv_any. destruct (mp_paths e) as [|p l] eqn:Ep; [by rewrite Ep|].
  destruct i as [|i]; [lia|]. destruct (length data <? 8)%nat; [done|].
  destruct (seen _ _).
  - match goal with |- context [recv_dedup ?e1 rest] => specialize (IH e1) end.
    destruct (recv_dedup _ rest); exact IH.
  - done.
Qed.

(** Only active paths are used. *)
Lemma mp_send_used net e now j :
  In j (mp_send net e now).1.2 ->
  exists p, mp_paths (tick_health e now) !! j = Some p /\ ps_active p = true.
Proof.
  unfold mp_send. set (e2 := set_mp_send_seq _ _).
  change (mp_paths (tick_health e now)) with (mp_paths e2).
  assert (Hone : forall e3 idx, In j (send_on_path net e3 idx).1.2 -> j = idx).
  { intros e3 idx. unfold send_on_path. destruct (net idx); [done|]. by intros [->|[]]. }
  destruct (mp_scheduler e2).
  - unfold send_round_robin. destruct (active_path_count e2 =? 0)%nat eqn:E0; [done|]. cmp_facts.
    intros ->%Hone.
    assert (Hex : exists i p, mp_paths e2 !! i = Some p /\ ps_active p = true).
    { unfold active_path_count in E0. destruct (List.filter ps_active (mp_paths e2)) as [|p l] eqn:Ef; [done|].
      assert (Hp : In p (List.filter ps_active (mp_paths e2))) by (rewrite Ef; by left).
      apply filter_In in Hp as [Hp Ha]. apply list_elem_of_In, list_elem_of_lookup in Hp as [i Hi]. by exists i, p. }
    destruct Hex as (i & p & Hi & Ha).
    destruct (advance_cursor_active _ (mp_paths e2) (mp_rr_cursor e2) i p eq_refl Hi Ha)
      as (k & q & _ & -> & Hq & Hqa & _). by exists q.
  - unfold send_min_latency. pose proof (min_by_key_spec ps_rtt_estimate (active_indices e2)) as Hm.
    destruct (min_by_key _ _) as [[idx q]|]; [|done]. intros ->%Hone. destruct Hm as (l1 & l2 & E & _).
    exists q. apply active_indices_In. rewrite E. apply in_or_app. right. by left.
  - intros Hj. pose proof (redundant_uses_all net e2) as [Hu _]. rewrite Hu in Hj.
    apply filter_In in Hj as [Hj _]. apply in_map_iff in Hj as ([i q] & <- & Hq).
    exists q. by apply active_indices_In.
  - unfold send_weighted. pose proof (max_by_key_spec ps_bandwidth (active_indices e2)) as Hm.
    destruct (max_by_key _ _) as [[idx q]|]; [|done]. intros ->%Hone. destruct Hm as (l1 & l2 & E & _).
    exists q. apply active_indices_In. rewrite E. apply in_or_app. right. by left.
Qed.

(** A step keeps a property of path [i] that sending and timing out keep. *)
Lemma mp_step_at i Q e op :
  (0 < i)%nat -> sent_stable Q -> (forall p, Q p -> Q (set_ps_active p false)) ->
  at_path i Q (mp_paths e) -> at_path i Q (mp_paths (mp_step e op).1).
Proof.
  intros Hi HQ Hdead He. destruct op as [net now|arrivals]; cbn [mp_step].
  - apply mp_send_at; [done|]. intros p Hp. destruct (tick_health_at i e now p Hp) as (q & Hq & ->).
    destruct (is_timed_out q now); auto.
  - pose proof (recv_dedup_other i arrivals Hi e) as Hr. intros p Hp. cbn [fst] in Hp.
    destruct (recv_dedup e arrivals); rewrite Hr in Hp; auto.
Qed.

Lemma mp_run_at i Q ops : (0 < i)%nat -> sent_stable Q -> (forall p, Q p -> Q (set_ps_active p false)) ->
  forall e, at_path i Q (mp_paths e) -> at_path i Q (mp_paths (mp_run e ops).1).
Proof.
  intros Hi HQ Hd. induction ops as [|op ops IH]; intros e He; cbn [mp_run]; [done|].
  pose proof (mp_step_at i Q e op Hi HQ Hd He) as H1. destruct (mp_step e op) as [e1 u1]. cbn [fst] in H1.
  specialize (IH e1 H1). by destruct (mp_run e1 ops).
Qed.

Definition inactive (p : PathState) : Prop := ps_active p = false.

Lemma dead_unused i ops : (0 < i)%nat -> forall e,
  at_path i inactive (mp_paths e) -> ~ In i (mp_run e ops).2.
Proof.
  intros Hi. induction ops as [|op ops IH]; intros e He; cbn [mp_run]; [by intros []|].
  pose proof (mp_step_at i inactive e op Hi (fun p H => H) (fun p H => eq_refl) He) as H1.
  assert (Hu : ~ In i (mp_step e op).2).
  { destruct op as [net now|arrivals]; cbn [mp_step]; [|by intros []]. intros Hin.
    destruct (mp_send_used net e now i Hin) as (p & Hp & Ha).
    destruct (tick_health_at i e now p Hp) as (q & Hq & ->). specialize (He q Hq). unfold inactive in He.
    by destruct (is_timed_out q now); cbn in Ha; congruence. }
  destruct (mp_step e op) as [e1 u1]. cbn [fst snd] in *. specialize (IH e1 H1).
  destruct (mp_run e1 ops) as [e2 u2]. cbn [snd] in *. intros Hin. by apply in_app_or in Hin as [?|?].
Qed.

(** Only path 0 lives.  Receiving reads the first path's socket alone, so
    whatever arrives, ten seconds after another path was added the next send
    marks it inactive, and no send ever uses it again: with any scheduler,
    Redundant included, all traffic is on path 0 from then on (unless the
    application itself reports packets through [on_recv]). *)
Theorem unread_paths_die e i p ops0 net now ops :
  (0 < i)%nat -> mp_paths e !! i = Some p -> ps_last_seen p + PATH_DEAD_TIMEOUT <= now ->
  let e1 := (mp_run e ops0).1 in
  ~ In i (mp_run e1 (MpSend net now :: ops)).2.
Proof.
  intros Hi Hp Ht e1.
  assert (H1 : at_path i (fun q => ps_last_seen q = ps_last_seen p) (mp_paths e1)).
  { apply mp_run_at; [done|exact (fun _ H => H)|exact (fun _ H => H)|]. intros q Hq. rewrite Hp in Hq. by injection Hq as <-. }
  assert (Hdead : at_path i inactive (mp_paths (tick_health e1 now))).
  { intros q' Hq'. destruct (tick_health_at i e1 now q' Hq') as (q & Hq & ->). specialize (H1 q Hq). cbn beta in H1.
    unfold inactive. destruct (is_timed_out q now) eqn:E; [done|]. unfold is_timed_out in E.
    apply andb_false_iff in E as [E|E]; [done|]. cmp_facts.
    unfold duration_since, saturating_sub in E. lia. }
  cbn [mp_run mp_step].
  assert (Hsend : at_path i inactive (mp_paths (mp_send net e1 now).1.1)) by (apply mp_send_at; [exact (fun _ H => H)|exact Hdead]).
  assert (Hu : ~ In i (mp_send net e1 now).1.2).
  { intros Hin. destruct (mp_send_used net e1 now i Hin) as (q & Hq & Ha). specialize (Hdead q Hq).
    unfold inactive in Hdead. congruence. }
  destruct (mp_send net e1 now) as [[e2 used] r]. cbn [fst snd] in *.
  pose proof (dead_unused i ops Hi e2 Hsend) as Hd. destruct (mp_run e2 ops) as [e3 u3]. cbn [snd] in *.
  intros Hin. by apply in_app_or in Hin as [?|?].
Qed.

(** ** Witnesses *)

Definition test_path (port : Z) : PathState := PathState_new (AddrV4 1 port) (AddrV4 2 port) 0.

Definition test_mp (s : PathScheduler) : MultiPathEndpoint :=
  add_path (add_path (MultiPathEndpoint_new s) (AddrV4 1 1) (AddrV4 2 1) 0) (AddrV4 1 2) (AddrV4 2 2) 0.

Lemma round_robin_rotates_witness :
  (send_many (fun _ => None) (test_mp RoundRobin) 1 4).2 = [[1%nat]; [0%nat]; [1%nat]; [0%nat]].
Proof.
  assert (Hl : all_live (test_mp RoundRobin) 1).
  { intros i p Hp. apply list_elem_of_lookup_2 in Hp. cbn in Hp.
    apply elem_of_cons in Hp as [->|Hp]; [by split|]. apply list_elem_of_singleton in Hp as ->. by split. }
  rewrite (round_robin_rotates (fun _ => None) 1 4 (test_mp RoundRobin) Hl ltac:(done) eq_refl (fun _ => eq_refl)).
  reflexivity.
Defined.

Lemma recv_dedup_refines_witness :
  recv_all 3 (test_mp Redundant) [(5, replicate 9 x01); (6, replicate 9 x01); (7, replicate 9 x02)]
  = [replicate 9 x01; replicate 9 x02].
Proof.
  destruct (recv_dedup_refines (test_mp Redundant)
    [(5, replicate 9 x01); (6, replicate 9 x01); (7, replicate 9 x02)]) as [E _]; [done|reflexivity|].
  cbn [length] in E. rewrite E. vm_compute. reflexivity.
Defined.

Lemma unread_paths_die_witness :
  ~ In 1%nat (mp_run (test_mp Redundant) [MpSend (fun _ => None) (from_secs 10)]).2.
Proof.
  apply (unread_paths_die (test_mp Redundant) 1 (test_path 2) []); [lia|reflexivity|vm_compute; discriminate].
Defined.
