(* ===== verification/Api.v ===== *)
(** * The client and server interface

    src/src/api.rs: the operations on an established connection, the client
    that drives a handshake, the server's receive loop, and the symmetric
    peer.  Operations on a connection run in the monad of Connection.v; a lock
    is taken for each of them, so they are atomic. *)

From Stdlib Require Import ZArith Lia Bool List String.
From Stdlib Require Import Strings.Byte.
From stdpp Require Import base list numbers option gmap.
From S2P Require Import Prelude Packet Crypto TestCrypto PacketCodec Float Cc Session Ratchet.
From S2P Require Import Resumption Cookie Stun Probe Identity Handshake Net Tar Connection.
From S2P Require Import ConnectionProps Endpoint.

Open Scope Z_scope.

(** 10 s for each packet of a handshake. *)
Definition CLIENT_HANDSHAKE_TIMEOUT : Z := from_secs 10.

Section ApiCode.
Context {C : Crypto} {X : X25519} {K : Kem} {D : MlDsa} {H : PlainHash} {N : Noise} {M : Libm}.
Context {T : Type} {CC : CongestionControl T}.
Local Open Scope act_scope.

(** ** Operations on a connection *)

Definition put_session (s : Session) : Act (T := T) unit := modify (fun c => set_cn_session c (Some s)).

(** [.session.as_mut().expect("not established")]. *)
Definition expect_session : Act (T := T) Session := do c := get in lift_panic (cn_session c).

(** [.session.as_mut().ok_or_else(...)?]. *)
Definition need_session : Act (T := T) Session :=
  do c := get in lift (ok_or (cn_session c) (HandshakeFailed "not connected")).

Definition api_open_stream : Act Z :=
  do s := expect_session in
  do p := lift_panic (Session_open_stream s) in
  put_session p.1 ;; ret p.2.

Definition api_push_stream : Act Z :=
  do s := expect_session in
  do p := lift_panic (Session_push_stream s) in
  put_session p.1 ;; ret p.2.

Definition write_session (env : Env) (s : Session) (sid : Z) (data : list byte) : Act unit :=
  let '(s', r) := Session_send s sid data in
  put_session s' ;;
  lift r ;;
  flush env.

Definition writer_write (env : Env) (sid : Z) (data : list byte) : Act unit :=
  do s := need_session in write_session env s sid data.

Definition conn_write (env : Env) (sid : Z) (data : list byte) : Act unit :=
  do s := expect_session in write_session env s sid data.

(** The writer's [read] ignores an unknown stream ... *)
Definition writer_read (sid : Z) (max : nat) : Act (list byte) :=
  do c := get in
  match cn_session c with
  | None => ret []
  | Some s =>
      do p := lift_panic (Session_read s sid [] max) in
      put_session p.1 ;;
      match p.2 with
      | Ok r => ret r.1
      | Err _ => ret []
      end
  end.

(** ... the connection's reports it. *)
Definition conn_read (sid : Z) (max : nat) : Act (list byte) :=
  do s := expect_session in
  do p := lift_panic (Session_read s sid [] max) in
  put_session p.1 ;;
  do r := lift p.2 in
  ret r.1.

Definition send_datagram_session (env : Env) (s : Session) (data : list byte) : Act unit :=
  do p := lift_panic (Session_send_datagram s data) in
  put_session p.1 ;;
  lift p.2 ;;
  flush env.

Definition writer_send_datagram (env : Env) (data : list byte) : Act unit :=
  do s := need_session in send_datagram_session env s data.

Definition conn_send_datagram (env : Env) (data : list byte) : Act unit :=
  do s := expect_session in send_datagram_session env s data.

Definition api_recv_datagram : Act (option (list byte)) :=
  do c := get in
  match cn_session c with
  | None => ret None
  | Some s => let '(s', d) := Session_recv_datagram s in put_session s' ;; ret d
  end.

(** [let _ = m]: the error is dropped, the state kept. *)
Definition ignore_err (m : Act unit) : Act (T := T) unit := fun s =>
  match m s with Fail _ s' => Done tt s' | r => r end.

Definition writer_send_fin (env : Env) (sid : Z) : Act unit :=
  do c := get in
  match cn_session c with
  | None => ret tt
  | Some s => put_session (Session_finish_stream s sid)
  end ;;
  ignore_err (flush env).

Definition api_close : Act (T := T) unit := modify close.

Definition api_session_id (c : Connection (T := T)) : Z :=
  match cn_session c with Some s => ss_id s | None => 0 end.

Definition api_tick (env : Env) : Act unit :=
  modify (maybe_queue_ping env) ;;
  flush env ;;
  retransmit_expired env ;;
  maybe_send_chaff env ;;
  maybe_send_probe env ;;
  maybe_migrate env.

(** (srtt, path MTU, free congestion window). *)
Definition connection_metrics (c : Connection (T := T)) : Z * Z * Z :=
  (match cn_session c with Some s => from_micros (Session_srtt_us s) | None => 0 end,
   path_mtu (cn_prober c), cc_available (cn_cc c)).

Definition set_migration_enabled (enabled : bool) : Act (T := T) unit :=
  modify (fun c => set_cn_migration_enabled c enabled).

(** ** The client *)

(** What a receive with a timeout yields. *)
Inductive Arrival : Type := Packet (buf : list byte) | TimedOut | SockError (e : string).

Inductive Drive : Type :=
  | Connected (s : St (T := T))
  | DriveFailed (e : SeamError) (s : St (T := T))
  | DrivePanic
  | Waiting (s : St (T := T)).

(** [while !conn.is_established()]: one arrival after another, each with the
    call's environment. *)
Fixpoint drive (timeout_msg : string) (arrivals : list (Env * Arrival)) (s : St) : Drive :=
  if is_established s.1 then Connected s else
  match arrivals with
  | [] => Waiting s
  | (env, TimedOut) :: _ => DriveFailed (HandshakeFailed timeout_msg) s
  | (env, SockError e) :: _ => DriveFailed (HandshakeFailed e) s
  | (env, Packet buf) :: rest =>
      match on_packet env buf s with
      | Done _ s' => drive timeout_msg rest s'
      | Fail e s' => DriveFailed e s'
      | Panic => DrivePanic
      end
  end.

Definition try_connect (env : Env) (socket : Z) (remote : SocketAddr) (cc : T) (identity : IdentityKeypair)
  (server_x25519 : list byte) (server_kem_pk : KemPublicKey) (preferred : CipherSuite)
  (arrivals : list (Env * Arrival)) : Drive + SeamError :=
  match connect env socket remote cc identity server_x25519 server_kem_pk preferred with
  | Err e => inr e
  | Ok (c, sent) => inl (drive "handshake timed out" arrivals (c, sent))
  end.

(** The delay before attempt [n] (counted from 0). *)
Definition retry_delay (attempt : nat) : Z :=
  if (attempt =? 0)%nat then 0 else from_millis (250 * 2 ^ (Z.of_nat attempt - 1)).

(** [for attempt in 0..3]: the first attempt that connects, else the last
    error. *)
Fixpoint connect_attempts (attempts : list (Drive + SeamError)) (last_err : option SeamError)
  : Drive + SeamError :=
  match attempts with
  | [] => inr (default (HandshakeFailed "handshake exhausted retries") last_err)
  | inl (DriveFailed e _) :: rest => connect_attempts rest (Some e)
  | inr e :: rest => connect_attempts rest (Some e)
  | r :: _ => r
  end.

Definition Client_connect (attempt : nat -> Drive + SeamError) : Drive + SeamError :=
  connect_attempts (map attempt (seq 0 3)) None.

(** One packet of [client_recv_loop]; [None]: the loop is over. *)
Definition client_recv (env : Env) (pkt : list byte) (c : Connection (T := T)) : option (Run unit) :=
  if is_closed c then None
  else Some (ignore_err (on_packet env pkt) (c, [])).

(** ** The server *)

Record Server : Type := mkServer {
  sv_store : list (Connection (T := T));
  sv_conns : gmap SocketAddr nat;
  sv_pending_events : gset SocketAddr;
  sv_delivered : gset SocketAddr;
  sv_accepted : list nat              (* sent on accept_tx *)
}.

Record ServerBound : Type := mkServerBound {
  sb_socket : Z;
  sb_identity : IdentityKeypair;
  sb_factory : CookieFactory;
  sb_ticket_key : TicketKey;
  sb_preferred : CipherSuite
}.

Definition Server_new : Server := mkServer [] ∅ ∅ ∅ [].

(** A packet of a known remote. *)
Definition server_known (env : Env) (v : Server) (remote : SocketAddr) (h : nat) (pkt : list byte)
  : option (Server * list (Z * list byte)) :=
  match sv_store v !! h with
  | None => None
  | Some c =>
      match ignore_err (on_packet env pkt) (c, []) with
      | Done _ s =>
          let store := <[h := s.1]> (sv_store v) in
          let announce := negb (is_established c) && is_established s.1
                          && negb (bool_decide (remote ∈ sv_delivered v)) in
          let delivered := if announce then {[remote]} ∪ sv_delivered v else sv_delivered v in
          let has_events := bool_decide (remote ∈ sv_pending_events v) in
          let pending := if announce then sv_pending_events v ∖ {[remote]} else sv_pending_events v in
          let accepted := if announce && has_events then sv_accepted v ++ [h] else sv_accepted v in
          if is_closed s.1
          then Some (mkServer store (delete remote (sv_conns v)) pending (delivered ∖ {[remote]}) accepted, s.2)
          else Some (mkServer store (sv_conns v) pending delivered accepted, s.2)
      | _ => None
      end
  end.

(** A packet of an unknown remote: a connection is made; the packet itself goes
    no further. *)
Definition server_unknown (b : ServerBound) (env : Env) (cc : T) (v : Server) (remote : SocketAddr)
  : Server * list (Z * list byte) :=
  match accept_challenge env (sb_socket b) remote cc (sb_identity b) (sb_factory b) (Some (sb_ticket_key b))
          (sb_preferred b) with
  | Err _ => (v, [])
  | Ok (c, sent) =>
      (mkServer (sv_store v ++ [c]) (<[remote := length (sv_store v)]> (sv_conns v))
         ({[remote]} ∪ sv_pending_events v) (sv_delivered v) (sv_accepted v), sent)
  end.

Definition server_recv (b : ServerBound) (env : Env) (cc : T) (v : Server) (remote : SocketAddr) (pkt : list byte)
  : option (Server * list (Z * list byte)) :=
  match sv_conns v !! remote with
  | Some h => server_known env v remote h pkt
  | None => Some (server_unknown b env cc v remote)
  end.

(** The sweep branch of the select. *)
Definition server_stale (env : Env) (v : Server) : list SocketAddr :=
  map fst (filter (fun x => match sv_store v !! x.2 with
                            | Some c => is_closed c || is_stale env c
                            | None => false
                            end = true) (map_to_list (sv_conns v))).

Definition server_sweep (env : Env) (v : Server) : Server :=
  let stale := server_stale env v in
  mkServer (sv_store v) (foldr delete (sv_conns v) stale)
    (sv_pending_events v ∖ list_to_set stale) (sv_delivered v ∖ list_to_set stale) (sv_accepted v).

(** ** The symmetric peer *)

Definition PEER_MAGIC : list byte := string_bytes "SEAM-PEER-NONCE-v1".

(** The nonce and sender of the first well-formed reply among the (at most 50)
    receives, [None] where one timed out or failed. *)
Fixpoint await_nonce (replies : list (option (list byte * SocketAddr))) : option (list byte * SocketAddr) :=
  match replies with
  | [] => None
  | Some (data, from) :: rest =>
      if (length data =? length PEER_MAGIC + 8)%nat && bytes_eqb (take (length PEER_MAGIC) data) PEER_MAGIC
      then Some (drop (length PEER_MAGIC) data, from)
      else await_nonce rest
  | None :: rest => await_nonce rest
  end.

(** [<=] of byte arrays. *)
Fixpoint bytes_le (a b : list byte) : bool :=
  match a, b with
  | [], _ => true
  | _ :: _, [] => false
  | x :: a, y :: b => (byte_val x <? byte_val y) || ((byte_val x =? byte_val y) && bytes_le a b)
  end.

Definition Peer_connect (env : Env) (socket : Z) (local_nonce : list byte)
  (replies : list (option (list byte * SocketAddr))) (cc : T) (identity : IdentityKeypair)
  (factory : CookieFactory) (ticket_key : TicketKey) (cipher : CipherSuite) (arrivals : list (Env * Arrival))
  : Drive + SeamError :=
  match await_nonce (take 50 replies) with
  | None => inr (HandshakeFailed "symmetric peer: no nonce from peer")
  | Some (remote_nonce, resolved_remote) =>
      if bytes_le local_nonce remote_nonce
      then inr (HandshakeFailed "symmetric initiator requires peer KEM key — use Client::connect with the peer's published KEM public key")
      else match accept_challenge env socket resolved_remote cc identity factory (Some ticket_key) cipher with
           | Err e => inr e
           | Ok (c, sent) => inl (drive "peer handshake timeout" arrivals (c, sent))
           end
  end.

End ApiCode.

(** * Properties *)

Inductive SvOp {C : Crypto} {T : Type} : Type :=
  | SvRecv (env : Env) (cc : T) (remote : SocketAddr) (pkt : list byte)
  | SvSweep (env : Env)
  | SvUse (env : Env) (h : nat) (op : ConnOp (T := T)).

Section ApiProps.
Context {C : Crypto} {X : X25519} {K : Kem} {D : MlDsa} {H : PlainHash} {N : Noise} {M : Libm}.
Context {T : Type} {CC : CongestionControl T}.
Implicit Types v : Server (T := T).

(** ** The client *)

Lemma rtc_phase_inv (c c' : Connection (T := T)) : rtc conn_step c c' -> phase_inv c -> phase_inv c'.
Proof. induction 1 as [|c1 c2 c3 Hst _ IH]; [done|]. intros Hi. apply IH. by apply (conn_step_machine c1 c2). Qed.

Lemma drive_steps msg arrivals : forall s : St (T := T),
  match drive msg arrivals s with
  | Connected s' => cn_phase s'.1 = Established /\ rtc conn_step s.1 s'.1
  | DriveFailed _ s' | Waiting s' => rtc conn_step s.1 s'.1
  | DrivePanic => True
  end.
Proof.
  induction arrivals as [|[env a] rest IH]; intros s; cbn [drive].
  - destruct (is_established s.1) eqn:E; [|apply rtc_refl]. apply bool_decide_eq_true in E.
    split; [done|apply rtc_refl].
  - destruct (is_established s.1) eqn:E.
    { apply bool_decide_eq_true in E. split; [done|apply rtc_refl]. }
    destruct a as [buf| |e]; [|apply rtc_refl..].
    destruct s as [c out]. destruct (on_packet env buf (c, out)) as [u s'|e s'|] eqn:Er; [| |done].
    + assert (Hst : conn_step c s'.1) by (apply (run_op_step env (OpPacket buf) c out _ s' Er); eauto).
      specialize (IH s'). destruct (drive msg rest s'); [|by eapply rtc_l|done|by eapply rtc_l].
      destruct IH. split; [done|by eapply rtc_l].
    + cbn [fst]. apply rtc_once. apply (run_op_step env (OpPacket buf) c out _ s' Er). eauto.
Qed.

(** What a client gets.  A connection that [connect] returns is established:
    it holds a session and the server's static key, has forgotten its
    handshake material, and is the only kind of success: an attempt that
    fails leaves no session behind, and the client fails only after three
    attempts did. *)
Theorem client_connect_sound attempt (env : nat -> Env) socket remote (cc : nat -> T) identity pin pk pref arrivals :
  (forall n, attempt n = try_connect (env n) socket remote (cc n) identity pin pk pref (arrivals n)) ->
  match Client_connect attempt with
  | inl (Connected s) => live s.1
  | inl (DriveFailed _ _) => False
  | inl _ => True
  | inr e => forall n, (n < 3)%nat ->
      match attempt n with
      | inl (DriveFailed _ _) | inr _ => True
      | _ => False
      end
  end.
Proof.
  intros Ha.
  assert (Hlive : forall n s, attempt n = inl (Connected s) -> live s.1).
  { intros n s. rewrite Ha. unfold try_connect, connect.
    destruct (connect_with_tar _ _ _ _ _ _ _ _ _) as [[c sent]|e] eqn:Ec; [|done]. intros [= Hd].
    pose proof (drive_steps "handshake timed out" (arrivals n) (c, sent)) as Hs. rewrite Hd in Hs.
    destruct Hs as [Hp Hs]. pose proof (connect_inv _ _ _ _ _ _ _ _ _ _ _ Ec) as Hw.
    assert (Hi : phase_inv s.1).
    { apply (rtc_phase_inv c s.1 Hs). unfold phase_inv. by rewrite (proj1 Hw). }
    unfold phase_inv in Hi. by rewrite Hp in Hi. }
  unfold Client_connect. cbn [seq map].
  destruct (attempt 0%nat) as [[s|e s| |s]|e] eqn:E0; cbn [connect_attempts]; [by eapply Hlive| |done|done|];
    (destruct (attempt 1%nat) as [[s1|e1 s1| |s1]|e1] eqn:E1; cbn [connect_attempts]; [by eapply Hlive| |done|done|]);
    (destruct (attempt 2%nat) as [[s2|e2 s2| |s2]|e2] eqn:E2; cbn [connect_attempts]; [by eapply Hlive| |done|done|]);
    intros [|[|[|n]]] Hn; try lia; by rewrite ?E0, ?E1, ?E2.
Qed.

(** A stray datagram on the client's socket ends the attempt: the sender is not
    looked at, and anything but a challenge is an error. *)
Lemma stray_packet_aborts env0 socket remote (cc : T) identity pin pk pref env buf rest c sent :
  connect env0 socket remote cc identity pin pk pref = Ok (c, sent) ->
  buf <> [] -> take 1 buf <> [PKT_COOKIE_CHALLENGE] ->
  exists s, try_connect env0 socket remote cc identity pin pk pref ((env, Packet buf) :: rest)
            = inl (DriveFailed (HandshakeFailed "expected cookie challenge") s).
Proof.
  intros Ec Hne Hb. unfold try_connect. rewrite Ec. cbn [drive fst].
  pose proof (connect_inv _ _ _ _ _ _ _ _ _ _ _ Ec) as Hw. pose proof (proj1 Hw) as Hp.
  unfold is_established. rewrite bool_decide_false by (by rewrite Hp).
  rewrite on_packet_phase by done. cbn [fst]. rewrite Hp. unfold client_rx_challenge.
  assert (Hneq : bytes_eqb (take 1 buf) [PKT_COOKIE_CHALLENGE] = false).
  { apply not_true_is_false. by rewrite bytes_eqb_eq. }
  rewrite Hneq, orb_true_r. cbn. by eexists.
Qed.

(** ** The symmetric peer *)

Lemma bytes_le_total a b : bytes_le a b = false -> bytes_le b a = true.
Proof.
  revert b. induction a as [|x a IH]; intros [|y b]; cbn; try done.
  rewrite orb_false_iff, andb_false_iff. intros [H1 H2]. cmp_facts.
  destruct (decide (byte_val x = byte_val y)) as [E|E].
  - destruct H2 as [H2|H2]; [cmp_facts; lia|]. rewrite (IH b H2), <- E, Z.eqb_refl. by rewrite orb_true_r.
  - rewrite (proj2 (Z.ltb_lt (byte_val y) (byte_val x))) by lia. done.
Qed.

(** The symmetric connect cannot succeed on both sides: the peer with the
    lower nonce, or both if the nonces are equal, returns an error as soon as
    it knows the other's nonce, so whatever else arrives, of two peers that
    learned each other's nonces one has failed. *)
Theorem peer_connect_one_sided env_a env_b sock_a sock_b (na nb : list byte) ra rb from_a from_b
    (cc_a cc_b : T) ida idb fa fb ta tb pa pb arr_a arr_b :
  await_nonce (take 50 ra) = Some (nb, from_b) -> await_nonce (take 50 rb) = Some (na, from_a) ->
  (exists e, Peer_connect env_a sock_a na ra cc_a ida fa ta pa arr_a = inr e)
  \/ (exists e, Peer_connect env_b sock_b nb rb cc_b idb fb tb pb arr_b = inr e).
Proof.
  intros Ea Eb. unfold Peer_connect. rewrite Ea, Eb. destruct (bytes_le na nb) eqn:E; [left; by eexists|].
  right. rewrite (bytes_le_total na nb E). by eexists.
Qed.

(** ** The server *)

Definition sv_exec (b : ServerBound) (op : SvOp (T := T)) v : option Server :=
  match op with
  | SvRecv env cc remote pkt => option_map fst (server_recv b env cc v remote pkt)
  | SvSweep env => Some (server_sweep env v)
  | SvUse env h op =>
      (* the application holds only the connections it was given *)
      if decide (h ∈ sv_accepted v) then
        match sv_store v !! h with
        | None => Some v
        | Some c =>
            match run_op env op (c, []) with
            | Done _ s | Fail _ s =>
                Some (mkServer (<[h := s.1]> (sv_store v)) (sv_conns v) (sv_pending_events v)
                        (sv_delivered v) (sv_accepted v))
            | Panic => None
            end
        end
      else Some v
  end.

Fixpoint sv_run (b : ServerBound) (ops : list SvOp) v : option Server :=
  match ops with
  | [] => Some v
  | op :: rest => match sv_exec b op v with Some v' => sv_run b rest v' | None => None end
  end.

Record sv_inv v : Prop := {
  si_phase : forall h c, sv_store v !! h = Some c -> phase_inv c;
  si_table : forall a h, sv_conns v !! a = Some h ->
    exists c, sv_store v !! h = Some c /\ cn_remote c = a /\ (over c \/ a ∈ sv_pending_events v);
  si_delivered : forall a, a ∈ sv_delivered v ->
    exists h c, sv_conns v !! a = Some h /\ sv_store v !! h = Some c /\ over c;
  si_accepted : forall h, h ∈ sv_accepted v -> exists c, sv_store v !! h = Some c /\ over c;
  si_nodup : NoDup (sv_accepted v)
}.

(** No established connection of the table is still waiting to be announced. *)
Definition announced v : Prop :=
  forall a h c, sv_conns v !! a = Some h -> sv_store v !! h = Some c -> cn_phase c = Established ->
    h ∈ sv_accepted v.

Lemma sv_inv_new : sv_inv Server_new.
Proof. split; cbn; try set_solver; constructor. Qed.

Lemma over_step (c c' : Connection (T := T)) : conn_step c c' -> phase_inv c -> over c -> over c'.
Proof. intros Hs. apply over_stays. by apply rtc_once. Qed.

(** An over connection that is not established stays so. *)
Lemma over_established (c c' : Connection (T := T)) :
  conn_step c c' -> phase_inv c -> over c -> cn_phase c' = Established -> cn_phase c = Established.
Proof.
  intros Hs Hi [E|E] He; [done|]. destruct (conn_step_machine c c' Hs Hi) as [_ [E'|E']]; [by rewrite <- E'|].
  rewrite E, He in E'. inversion E'.
Qed.

(** One connection of the store is replaced by what a step made of it. *)
Lemma sv_inv_store v h c c' :
  sv_inv v -> sv_store v !! h = Some c -> conn_step c c' ->
  sv_inv (mkServer (<[h := c']> (sv_store v)) (sv_conns v) (sv_pending_events v) (sv_delivered v) (sv_accepted v)).
Proof.
  intros [Hp Ht Hd Ha Hn] Hc Hs.
  assert (Hl : forall j x, sv_store v !! j = Some x ->
    exists y, <[h := c']> (sv_store v) !! j = Some y /\ (over x -> over y) /\ cn_remote y = cn_remote x).
  { intros j x Hj. destruct (decide (h = j)) as [<-|Hne].
    - rewrite list_lookup_insert_eq by (by eapply lookup_lt_Some). simplify_eq. exists c'.
      split; [done|]. split; [apply over_step; eauto|by apply conn_step_remote].
    - rewrite list_lookup_insert_ne by done. exists x. repeat split; auto. }
  split; cbn.
  - intros j x. destruct (decide (h = j)) as [<-|Hne].
    + rewrite list_lookup_insert_eq by (by eapply lookup_lt_Some). intros [= <-].
      by apply (conn_step_machine c c' Hs), (Hp h).
    + rewrite list_lookup_insert_ne by done. apply Hp.
  - intros a j Hj. destruct (Ht a j Hj) as (x & Hx & Hr & Ho).
    destruct (Hl j x Hx) as (y & Hy & Hov & Hry). exists y. split; [done|]. split; [congruence|]. destruct Ho; auto.
  - intros a Hin. destruct (Hd a Hin) as (j & x & Hj & Hx & Ho). destruct (Hl j x Hx) as (y & Hy & Hov & _).
    exists j, y. auto.
  - intros j Hj. destruct (Ha j Hj) as (x & Hx & Ho). destruct (Hl j x Hx) as (y & ? & ? & ?). eauto.
  - done.
Qed.

Lemma announced_store v h c c' acc :
  announced v -> sv_store v !! h = Some c -> sv_accepted v ⊆ acc ->
  (cn_phase c' = Established -> cn_phase c = Established \/ h ∈ acc) ->
  (exists a, sv_conns v !! a = Some h) \/ h ∈ sv_accepted v ->
  forall pe de, announced (mkServer (<[h := c']> (sv_store v)) (sv_conns v) pe de acc).
Proof.
  intros Hv Hc Hsub He Hh pe de a j x Hj Hx Ex. cbn in *. destruct (decide (h = j)) as [<-|Hne].
  - rewrite list_lookup_insert_eq in Hx by (by eapply lookup_lt_Some). simplify_eq.
    destruct (He Ex) as [E|]; [|done]. apply Hsub. by eapply Hv.
  - rewrite list_lookup_insert_ne in Hx by done. apply Hsub. by eapply Hv.
Qed.

(** Entries leave the table together with their [delivered] mark. *)
Lemma sv_inv_drop v conns pending delivered :
  sv_inv v -> conns ⊆ sv_conns v ->
  (forall a h, conns !! a = Some h -> a ∈ sv_pending_events v -> a ∈ pending) ->
  (forall a, a ∈ delivered -> a ∈ sv_delivered v /\ conns !! a = sv_conns v !! a) ->
  sv_inv (mkServer (sv_store v) conns pending delivered (sv_accepted v)).
Proof.
  intros [Hp Ht Hd Ha Hn] Hsub Hpe Hde. split; cbn; [done| | |done|done].
  - intros a h Hh. destruct (Ht a h) as (c & Hc & Hr & Ho); [by eapply lookup_weaken|].
    exists c. repeat split; auto. destruct Ho as [Ho|Ho]; [by left|right; by eapply Hpe].
  - intros a Hin. destruct (Hde a Hin) as [Hin' ->]. by apply Hd.
Qed.

Lemma announced_drop v conns pending delivered :
  announced v -> conns ⊆ sv_conns v ->
  announced (mkServer (sv_store v) conns pending delivered (sv_accepted v)).
Proof. intros Hv Hsub a h c Ha. apply (Hv a h c). by eapply lookup_weaken. Qed.

(** A connection is announced: it goes to [accept] and its remote is marked. *)
Lemma sv_inv_announce v remote h c :
  sv_inv v -> sv_conns v !! remote = Some h -> sv_store v !! h = Some c -> over c -> h ∉ sv_accepted v ->
  sv_inv (mkServer (sv_store v) (sv_conns v) (sv_pending_events v ∖ {[remote]}) ({[remote]} ∪ sv_delivered v)
            (sv_accepted v ++ [h])).
Proof.
  intros [Hp Ht Hd Ha Hn] Hr Hc Ho Hni. split; cbn; [done| | | |].
  - intros a j Hj. destruct (Ht a j Hj) as (x & Hx & Hrx & Hox). exists x. repeat split; auto.
    destruct (decide (a = remote)) as [->|Hne]; [left; congruence|].
    destruct Hox as [?|?]; [by left|right; set_solver].
  - intros a [->%elem_of_singleton|Hin]%elem_of_union; [by exists h, c|by apply Hd].
  - intros j [Hj|Hj]%elem_of_app; [by apply Ha|]. apply list_elem_of_singleton in Hj as ->. by exists c.
  - apply NoDup_app. split; [done|]. split; [|apply NoDup_singleton].
    intros j Hj ->%list_elem_of_singleton. done.
Qed.

Lemma ignore_err_run env pkt (c : Connection (T := T)) r :
  ignore_err (on_packet env pkt) (c, []) = r ->
  r = Panic \/ exists s, r = Done tt s /\ conn_step c s.1.
Proof.
  intros <-. unfold ignore_err. destruct (on_packet env pkt (c, [])) as [[] s|e s|] eqn:Er; [| |by left];
    right; exists s; (split; [done|]); apply (run_op_step env (OpPacket pkt) c [] _ s Er); eauto.
Qed.

(** The connection an unannounced handshake is completed on still has its events
    waiting, and was never handed out. *)
Lemma unannounced_entry v h c c' :
  sv_inv v -> sv_conns v !! cn_remote c = Some h -> sv_store v !! h = Some c -> conn_step c c' ->
  cn_phase c <> Established -> cn_phase c' = Established ->
  (cn_remote c ∈ sv_pending_events v) /\ (cn_remote c ∉ sv_delivered v) /\ (h ∉ sv_accepted v).
Proof.
  intros Hi Hr Hc Hs Hb Ha.
  assert (Hno : ~ over c) by (intros Hov; apply Hb; apply (over_established c c'); eauto using si_phase).
  destruct (si_table v Hi _ h Hr) as (x & Hx & _ & Ho). simplify_eq.
  split; [by destruct Ho|]. split.
  - intros Hin. destruct (si_delivered v Hi _ Hin) as (j & y & Hj & Hy & Hoy). simplify_eq.
  - intros Hin. destruct (si_accepted v Hi _ Hin) as (y & Hy & Hoy). simplify_eq.
Qed.

Definition sv_good v : Prop := sv_inv v /\ announced v.

Lemma sv_good_new : sv_good Server_new.
Proof. split; [apply sv_inv_new|]. by intros a h c Ha. Qed.

Lemma sv_good_close v a :
  sv_good v -> sv_good (mkServer (sv_store v) (delete a (sv_conns v)) (sv_pending_events v)
                         (sv_delivered v ∖ {[a]}) (sv_accepted v)).
Proof.
  intros [Hi Hn]. split; [|apply announced_drop; [done|apply delete_subseteq]].
  apply sv_inv_drop; [done|apply delete_subseteq|done|]. intros b Hin.
  assert (b ∈ sv_delivered v /\ b <> a) as [? ?] by set_solver. split; [done|]. by rewrite lookup_delete_ne.
Qed.

Lemma server_known_good env v remote h pkt v' out :
  sv_good v -> sv_conns v !! remote = Some h -> server_known env v remote h pkt = Some (v', out) -> sv_good v'.
Proof.
  intros [Hi Hn] Hr Hk. unfold server_known in Hk. destruct (sv_store v !! h) as [c|] eqn:Ec; [|done].
  destruct (ignore_err_run env pkt c _ eq_refl) as [E|(s & E & Hs)]; rewrite E in Hk; [done|]. clear E.
  destruct (si_table v Hi remote h Hr) as (x & Hx & Hrem & _). simplify_eq.
  pose proof (sv_inv_store v h c s.1 Hi Ec Hs) as Hst.
  destruct (negb (is_established c) && is_established s.1) eqn:Eann; cbn [andb] in Hk.
  - apply andb_true_iff in Eann as [Hb%negb_true_iff%bool_decide_eq_false Ha%bool_decide_eq_true].
    destruct (unannounced_entry v h c s.1 Hi Hr Ec Hs Hb Ha) as (H1 & H2 & H3).
    rewrite (bool_decide_false _ H2), (bool_decide_true _ H1) in Hk. cbn [negb andb] in Hk.
    assert (Hg : sv_good (mkServer (<[h := s.1]> (sv_store v)) (sv_conns v) (sv_pending_events v ∖ {[cn_remote c]})
                    ({[cn_remote c]} ∪ sv_delivered v) (sv_accepted v ++ [h]))).
    { split.
      - apply (sv_inv_announce _ (cn_remote c) h s.1 Hst); cbn; [done| |by left|done].
        apply list_lookup_insert_eq. by eapply lookup_lt_Some.
      - apply (announced_store v h c); [done|done|set_solver|right; set_solver|left; eauto]. }
    destruct (is_closed s.1); injection Hk as <- _; [exact (sv_good_close _ (cn_remote c) Hg)|exact Hg].
  - assert (Hg : sv_good (mkServer (<[h := s.1]> (sv_store v)) (sv_conns v) (sv_pending_events v)
                    (sv_delivered v) (sv_accepted v))).
    { split; [done|]. apply (announced_store v h c); [done|done|done| |left; eauto]. intros E. left.
      apply andb_false_iff in Eann as [Eann|Eann].
      - by apply negb_false_iff, bool_decide_eq_true in Eann.
      - by apply bool_decide_eq_false in Eann. }
    destruct (is_closed s.1); injection Hk as <- _; [exact (sv_good_close _ (cn_remote c) Hg)|exact Hg].
Qed.

Lemma server_unknown_good b env cc v remote :
  sv_good v -> sv_conns v !! remote = None -> sv_good (server_unknown b env cc v remote).1.
Proof.
  intros [[Hp Ht Hd Ha Hnd] Hn] Hr. unfold server_unknown.
  destruct (accept_challenge _ _ _ _ _ _ _ _) as [[c sent]|e] eqn:Ec; [|by split].
  destruct (accept_fresh _ _ _ _ _ _ _ _ c sent Ec) as [Hf [Hrem _]].
  assert (Hl : forall j x, sv_store v !! j = Some x -> (sv_store v ++ [c]) !! j = Some x)
    by (intros j x; apply lookup_app_l_Some).
  assert (Hnew : (sv_store v ++ [c]) !! length (sv_store v) = Some c) by (by apply list_lookup_middle).
  assert (Hne : cn_phase c <> Established).
  { intros E. pose proof (accept_inv _ _ _ _ _ _ _ _ _ _ Ec) as [Hw _]. congruence. }
  split; [split|]; cbn.
  - intros j x Hj. apply lookup_app_Some in Hj as [Hj|[_ Hj]]; [by eapply Hp|].
    apply list_lookup_singleton_Some in Hj as [_ <-]. by apply fresh_inv.
  - intros a j. destruct (decide (a = remote)) as [->|Hna].
    + rewrite lookup_insert_eq. intros [= <-]. exists c. split; [exact Hnew|]. split; [exact Hrem|]. right. set_solver.
    + rewrite lookup_insert_ne by done. intros Hj. destruct (Ht a j Hj) as (x & Hx & Hrx & Ho). exists x.
      split; [by apply Hl|]. split; [done|]. destruct Ho as [?|?]; [by left|right; set_solver].
  - intros a Hin. destruct (Hd a Hin) as (j & x & Hj & Hx & Ho). exists j, x. split; [|auto].
    rewrite lookup_insert_ne by congruence. done.
  - intros j Hj. destruct (Ha j Hj) as (x & Hx & Ho). exists x. auto.
  - done.
  - intros a j x. cbn. destruct (decide (a = remote)) as [->|Hna].
    + rewrite lookup_insert_eq. intros [= <-] Hx E. simplify_eq.
    + rewrite lookup_insert_ne by done. intros Hj Hx E. destruct (Ht a j Hj) as (y & Hy & _).
      pose proof (Hl j y Hy). simplify_eq. by eapply Hn.
Qed.

Lemma server_sweep_good env v : sv_good v -> sv_good (server_sweep env v).
Proof.
  intros [Hi Hn]. unfold server_sweep. split; [|by apply announced_drop; [|apply foldr_delete_sub]].
  apply sv_inv_drop; [done|apply foldr_delete_sub| |].
  - intros a h Ha Hp. rewrite foldr_delete_lookup in Ha. destruct (decide (a ∈ server_stale env v)); [done|].
    set_solver.
  - intros a Hin. apply elem_of_difference in Hin as [Hd Hs]. split; [done|].
    rewrite foldr_delete_lookup, decide_False; [done|]. set_solver.
Qed.

Lemma sv_exec_good b op v v' : sv_good v -> sv_exec b op v = Some v' -> sv_good v'.
Proof.
  intros Hg He. destruct op as [env cc remote pkt|env|env h op]; cbn [sv_exec] in He.
  - unfold server_recv in He. destruct (sv_conns v !! remote) as [h|] eqn:Ec.
    + destruct (server_known env v remote h pkt) as [[v1 out]|] eqn:Ek; [|done]. injection He as <-.
      by eapply server_known_good.
    + injection He as <-. by apply server_unknown_good.
  - injection He as <-. by apply server_sweep_good.
  - destruct (decide (h ∈ sv_accepted v)) as [Hin|]; [|by injection He as <-].
    destruct (sv_store v !! h) as [c|] eqn:Ec; [|by injection He as <-].
    assert (Hs : forall s : St, conn_step c s.1 ->
      sv_good (mkServer (<[h := s.1]> (sv_store v)) (sv_conns v) (sv_pending_events v) (sv_delivered v)
                (sv_accepted v))).
    { intros s Hs. destruct Hg as [Hi Hn]. split; [by apply (sv_inv_store v h c)|].
      apply (announced_store v h c); auto. }
    destruct (run_op env op (c, [])) as [[] s|e s|] eqn:Er; [| |done]; injection He as <-;
      apply Hs, (run_op_step env op c [] _ s Er); eauto.
Qed.

Lemma sv_run_good b ops : forall v v', sv_good v -> sv_run b ops v = Some v' -> sv_good v'.
Proof.
  induction ops as [|op ops IH]; intros v v' Hg Hr; cbn in Hr; [by injection Hr as <-|].
  destruct (sv_exec b op v) as [v1|] eqn:E; [|done]. by eapply IH; [|done]; eapply sv_exec_good.
Qed.

(** C25: What [accept] hands out.  Through any packets from any addresses, sweeps
    and uses of the connections handed out, the server announces a connection
    at most once, only after its handshake finished, and misses none: every
    established connection of the table has been announced.  The table files
    each connection under its own remote address. *)
Theorem server_accepts_once b ops v :
  sv_run b ops Server_new = Some v ->
  NoDup (sv_accepted v)
  /\ (forall h, h ∈ sv_accepted v -> exists c, sv_store v !! h = Some c /\ over c)
  /\ (forall a h, sv_conns v !! a = Some h ->
       exists c, sv_store v !! h = Some c /\ cn_remote c = a /\ (cn_phase c = Established -> h ∈ sv_accepted v)).
Proof.
  intros Hr. destruct (sv_run_good b ops _ v sv_good_new Hr) as [Hi Hn].
  split; [apply (si_nodup v Hi)|]. split; [apply (si_accepted v Hi)|].
  intros a h Ha. destruct (si_table v Hi a h Ha) as (c & Hc & Hrem & _). exists c. repeat split; auto.
  by apply (Hn a h c).
Qed.

Lemma unknown_grows b env cc v remote pkt :
  (forall p, ev_send_error env (sb_socket b) p = None) -> sv_conns v !! remote = None ->
  exists v', sv_exec b (SvRecv env cc remote pkt) v = Some v'
    /\ exists h, sv_conns v' = <[remote := h]> (sv_conns v).
Proof.
  intros He Hr. cbn [sv_exec]. unfold server_recv. rewrite Hr. eexists. split; [done|]. cbn [fst].
  unfold server_unknown. destruct (accept_challenge _ _ _ _ _ _ _ _) as [[c sent]|e] eqn:Ec; [by eexists|].
  unfold accept_challenge in Ec. by rewrite He in Ec.
Qed.

(** Nothing bounds that table: unlike the endpoint, the server has neither a
    connection limit nor a rate limit and looks at no byte of a first packet,
    so any datagrams from any number of distinct addresses leave that many
    connections. *)
Theorem server_table_unbounded b env cc pkt (addrs : list SocketAddr) :
  (forall p, ev_send_error env (sb_socket b) p = None) -> NoDup addrs ->
  exists v, sv_run b (map (fun a => SvRecv env cc a pkt) addrs) Server_new = Some v
    /\ size (sv_conns v) = length addrs.
Proof.
  intros He Hn.
  cut (forall v, (forall a, a ∈ addrs -> sv_conns v !! a = None) ->
    exists v', sv_run b (map (fun a => SvRecv env cc a pkt) addrs) v = Some v'
      /\ size (sv_conns v') = (size (sv_conns v) + length addrs)%nat).
  { intros Hc. apply (Hc Server_new). done. }
  induction Hn as [|a addrs Ha Hn IH]; intros v Hv; cbn [map sv_run length].
  { exists v. split; [done|lia]. }
  assert (Hva : sv_conns v !! a = None) by (apply Hv; by left).
  destruct (unknown_grows b env cc v a pkt He Hva) as (v1 & -> & h & E1).
  destruct (IH v1) as (v2 & -> & E2).
  { intros x Hx. rewrite E1, lookup_insert_ne by (by intros ->). apply Hv. by right. }
  exists v2. split; [done|]. rewrite E2, E1, map_size_insert_None by done. lia.
Qed.

End ApiProps.

(** ** Witnesses *)

(** Three attempts that time out. *)
Definition test_attempt (n : nat) : Drive (T := Aimd) + SeamError :=
  try_connect (test_env 0) 1 test_addr_s Aimd_new test_client_id (x25519_public (x25519_secret test_fresh))
    (kem_pk test_fresh) ChaCha20Poly1305 [(test_env 1, TimedOut)].

Lemma client_connect_sound_witness :
  match Client_connect test_attempt with inl (Connected s) => live s.1 | inl (DriveFailed _ _) => False | _ => True end.
Proof.
  pose proof (client_connect_sound test_attempt (fun _ => test_env 0) 1 test_addr_s (fun _ => Aimd_new) test_client_id
    (x25519_public (x25519_secret test_fresh)) (kem_pk test_fresh) ChaCha20Poly1305
    (fun _ => [(test_env 1, TimedOut)]) (fun _ => eq_refl)) as Hc.
  by destruct (Client_connect test_attempt) as [[]|].
Defined.

Definition test_nonce (b : byte) : list byte := replicate 8 b.

Lemma peer_connect_one_sided_witness :
  await_nonce (take 50 [None; Some (PEER_MAGIC ++ test_nonce x02, test_addr_s)]) = Some (test_nonce x02, test_addr_s)
  /\ ((exists e, Peer_connect (test_env 0) 1 (test_nonce x01)
          [None; Some (PEER_MAGIC ++ test_nonce x02, test_addr_s)] Aimd_new test_client_id test_cookies (TicketKey_new []) Aes256Gcm []
          = inr e)
      \/ (exists e, Peer_connect (test_env 0) 2 (test_nonce x02) [Some (PEER_MAGIC ++ test_nonce x01, test_addr_c)]
          Aimd_new test_fresh test_cookies (TicketKey_new []) Aes256Gcm [] = inr e)).
Proof.
  split; [reflexivity|].
  apply (peer_connect_one_sided (test_env 0) (test_env 0) 1 2 (test_nonce x01) (test_nonce x02)
    [None; Some (PEER_MAGIC ++ test_nonce x02, test_addr_s)] [Some (PEER_MAGIC ++ test_nonce x01, test_addr_c)]
    test_addr_c test_addr_s); reflexivity.
Defined.

Definition test_sbound : ServerBound := mkServerBound 2 test_fresh test_cookies (TicketKey_new (replicate 32 x01)) Aes256Gcm.

Lemma server_accepts_once_witness :
  exists v, sv_run test_sbound [SvRecv (test_env 0) Aimd_new test_addr_c []; SvSweep (test_env 1)] Server_new = Some v
    /\ NoDup (sv_accepted v).
Proof.
  eexists. split; [reflexivity|].
  refine (proj1 (server_accepts_once test_sbound [SvRecv (test_env 0) Aimd_new test_addr_c []; SvSweep (test_env 1)]
    _ eq_refl)).
Defined.

Lemma server_table_unbounded_witness :
  exists v, sv_run test_sbound (map (fun a => SvRecv (test_env 0) Aimd_new a []) [test_addr_c; test_addr_s]) Server_new
            = Some v
    /\ size (sv_conns v) = 2%nat.
Proof.
  apply (server_table_unbounded test_sbound (test_env 0) Aimd_new [] [test_addr_c; test_addr_s]); [reflexivity|].
  apply (bool_decide_unpack _). reflexivity.
Defined.
