(* ===== verification/Mux.v ===== *)
(** * The stream multiplexer

    src/src/tunnel.rs: [SeamMux] routes the session's events to one channel per
    stream, [accept_stream] hands out the streams the peer opened, and
    [SeamStream] reads and writes them as byte streams.  The channels and the
    semaphore of the asynchronous runtime are interfaces with laws. *)

From Stdlib Require Import ZArith Lia Bool List String.
From Stdlib Require Import Strings.Byte.
From stdpp Require Import base list numbers option gmap.
From S2P Require Import Prelude Packet Crypto TestCrypto PacketCodec Float Cc Datagram Stream Session Ratchet.
From S2P Require Import Resumption Cookie Stun Probe Identity Handshake Net Tar Connection.
From S2P Require Import Ordered Delivery SessionProps ConnectionProps Endpoint Api.

Open Scope Z_scope.

(** ** The runtime's channel and semaphore *)

Inductive Recv : Type := RecvItem (b : list byte) | RecvClosed | RecvPending.

(** An unbounded channel of [Bytes] with one sender and one receiver. *)
Class Mpsc : Type := {
  chan : Type;
  chan_new : chan;
  chan_send : chan -> list byte -> chan * bool;   (* [false]: an error *)
  chan_recv : chan -> chan * Recv;
  chan_drop_tx : chan -> chan;
  chan_drop_rx : chan -> chan
}.

(** What the runtime documents of it: items come out in the order they went in;
    sending fails once the receiver is gone; receiving ends once the sender is
    gone and the items are read. *)
Class MpscLaws (P : Mpsc) : Type := {
  items : chan -> list (list byte);
  tx_alive : chan -> bool;
  rx_alive : chan -> bool;
  new_state : items chan_new = [] /\ tx_alive chan_new = true /\ rx_alive chan_new = true;
  send_ok c b : rx_alive c = true ->
    (chan_send c b).2 = true /\ items (chan_send c b).1 = items c ++ [b]
    /\ tx_alive (chan_send c b).1 = tx_alive c /\ rx_alive (chan_send c b).1 = true;
  send_err c b : rx_alive c = false -> chan_send c b = (c, false);
  recv_item c b l : items c = b :: l ->
    (chan_recv c).2 = RecvItem b /\ items (chan_recv c).1 = l
    /\ tx_alive (chan_recv c).1 = tx_alive c /\ rx_alive (chan_recv c).1 = rx_alive c;
  recv_empty c : items c = [] ->
    chan_recv c = (c, if tx_alive c then RecvPending else RecvClosed);
  drop_tx_state c : items (chan_drop_tx c) = items c /\ tx_alive (chan_drop_tx c) = false
    /\ rx_alive (chan_drop_tx c) = rx_alive c;
  drop_rx_state c : rx_alive (chan_drop_rx c) = false /\ tx_alive (chan_drop_rx c) = tx_alive c
}.

Inductive Acquire {S : Type} : Type := Acquired (s : S) | AcquireError | AcquirePending.
Arguments Acquire S : clear implicits.

Class Semaphore : Type := {
  sem : Type;
  sem_new : nat -> sem;
  sem_add_permits : sem -> nat -> sem;
  sem_acquire : sem -> Acquire sem;      (* the permit is forgotten: never given back *)
  sem_close : sem -> sem
}.

Class SemaphoreLaws (P : Semaphore) : Type := {
  permits : sem -> nat;
  sem_closed : sem -> bool;
  sem_new_state n : permits (sem_new n) = n /\ sem_closed (sem_new n) = false;
  sem_add_state s n : permits (sem_add_permits s n) = (permits s + n)%nat
    /\ sem_closed (sem_add_permits s n) = sem_closed s;
  sem_acquire_closed s : sem_closed s = true -> sem_acquire s = AcquireError;
  sem_acquire_none s : sem_closed s = false -> permits s = 0%nat -> sem_acquire s = AcquirePending;
  sem_acquire_some s n : sem_closed s = false -> permits s = S n ->
    exists s', sem_acquire s = Acquired s' /\ permits s' = n /\ sem_closed s' = false;
  sem_close_state s : sem_closed (sem_close s) = true /\ permits (sem_close s) = permits s
}.

(** ** The multiplexer *)

(** Channels are named by their place in [mx_data] (data to a reader) or
    [mx_write] (chunks of a writer). *)
Record MuxState : Type := mkMuxState {
  stream_senders : gmap Z nat;
  pending_receivers : gmap Z nat;
  pending_streams : list Z
}.

Record SeamStream : Type := mkSeamStream {
  sm_sid : Z;
  sm_write_tx : option nat;
  sm_data_rx : nat;
  sm_read_buf : list byte
}.

Section MuxCode.
Context {P : Mpsc} {Q : Semaphore}.

Record SeamMux : Type := mkSeamMux {
  mx_state : MuxState;
  mx_pending_sem : sem;
  mx_datagram : chan;
  mx_data : list chan;
  mx_write : list chan;
  mx_running : bool                     (* the event loop *)
}.

Definition SeamMux_new : SeamMux := mkSeamMux (mkMuxState ∅ ∅ []) (sem_new 0) chan_new [] [] true.

Definition set_mx_state (m : SeamMux) (s : MuxState) : SeamMux :=
  mkSeamMux s (mx_pending_sem m) (mx_datagram m) (mx_data m) (mx_write m) (mx_running m).
Definition set_mx_sem (m : SeamMux) (s : sem) : SeamMux :=
  mkSeamMux (mx_state m) s (mx_datagram m) (mx_data m) (mx_write m) (mx_running m).
Definition set_mx_datagram (m : SeamMux) (c : chan) : SeamMux :=
  mkSeamMux (mx_state m) (mx_pending_sem m) c (mx_data m) (mx_write m) (mx_running m).
Definition set_mx_data (m : SeamMux) (l : list chan) : SeamMux :=
  mkSeamMux (mx_state m) (mx_pending_sem m) (mx_datagram m) l (mx_write m) (mx_running m).
Definition set_mx_write (m : SeamMux) (l : list chan) : SeamMux :=
  mkSeamMux (mx_state m) (mx_pending_sem m) (mx_datagram m) (mx_data m) l (mx_running m).

(** Removing or replacing an entry of a map drops the end it holds. *)
Definition drop_entry (f : chan -> chan) (k : option nat) (l : list chan) : list chan :=
  match k with Some i => alter f i l | None => l end.

(** [stream_senders.insert(sid, data_tx)] with a fresh channel; its number. *)
Definition insert_sender (m : SeamMux) (sid : Z) : SeamMux * nat :=
  let s := mx_state m in
  let k := length (mx_data m) in
  let data := drop_entry chan_drop_tx (stream_senders s !! sid) (mx_data m) in
  (set_mx_data (set_mx_state m (mkMuxState (<[sid := k]> (stream_senders s)) (pending_receivers s)
                                  (pending_streams s))) (data ++ [chan_new]), k).

(** A stream's handle with a fresh write channel. *)
Definition new_stream (m : SeamMux) (sid : Z) (data_rx : nat) : SeamMux * SeamStream :=
  (set_mx_write m (mx_write m ++ [chan_new]), mkSeamStream sid (Some (length (mx_write m))) data_rx []).

Definition mux_open (m : SeamMux) (sid : Z) : SeamMux * SeamStream :=
  let '(m1, k) := insert_sender m sid in new_stream m1 sid k.

Inductive Accept : Type := Accepted (s : SeamStream) | AcceptNone | AcceptPending.

Definition accept_stream (m : SeamMux) : SeamMux * Accept :=
  match sem_acquire (mx_pending_sem m) with
  | AcquireError => (m, AcceptNone)
  | AcquirePending => (m, AcceptPending)
  | Acquired s' =>
      let m := set_mx_sem m s' in
      let st := mx_state m in
      match pending_streams st with
      | [] => (m, AcceptNone)
      | sid :: rest =>
          let m := set_mx_state m (mkMuxState (stream_senders st) (pending_receivers st) rest) in
          match pending_receivers st !! sid with
          | None => (m, AcceptNone)
          | Some k =>
              let m := set_mx_state m (mkMuxState (stream_senders st) (delete sid (pending_receivers st)) rest) in
              let '(m, s) := new_stream m sid k in (m, Accepted s)
          end
      end
  end.

(** The arms of [event_loop]. *)
Definition on_new_stream (m : SeamMux) (sid : Z) : SeamMux :=
  let '(m1, k) := insert_sender m sid in
  let s := mx_state m1 in
  let data := drop_entry chan_drop_rx (pending_receivers s !! sid) (mx_data m1) in
  let m2 := set_mx_data (set_mx_state m1 (mkMuxState (stream_senders s) (<[sid := k]> (pending_receivers s))
                                            (pending_streams s ++ [sid]))) data in
  set_mx_sem m2 (sem_add_permits (mx_pending_sem m2) 1).

Definition on_data (m : SeamMux) (sid : Z) (data : list byte) : SeamMux :=
  match data with
  | [] => m
  | _ => set_mx_data m (drop_entry (fun c => (chan_send c data).1) (stream_senders (mx_state m) !! sid) (mx_data m))
  end.

Definition on_finished (m : SeamMux) (sid : Z) : SeamMux :=
  let s := mx_state m in
  set_mx_data (set_mx_state m (mkMuxState (delete sid (stream_senders s)) (pending_receivers s) (pending_streams s)))
    (drop_entry chan_drop_tx (stream_senders s !! sid) (mx_data m)).

(** [Closed] ends the loop, which drops [datagram_tx]. *)
Definition on_closed (m : SeamMux) : SeamMux :=
  mkSeamMux (mx_state m) (sem_close (mx_pending_sem m)) (chan_drop_tx (mx_datagram m)) (mx_data m) (mx_write m) false.

(** ** A stream *)

Inductive PollRead : Type := ReadReady (b : list byte) | ReadPending.

Definition with_read_buf (s : SeamStream) (b : list byte) : SeamStream :=
  mkSeamStream (sm_sid s) (sm_write_tx s) (sm_data_rx s) b.

Definition poll_read (s : SeamStream) (c : chan) (remaining : nat) : SeamStream * chan * PollRead :=
  match sm_read_buf s with
  | _ :: _ =>
      let n := Nat.min remaining (length (sm_read_buf s)) in
      (with_read_buf s (drop n (sm_read_buf s)), c, ReadReady (take n (sm_read_buf s)))
  | [] =>
      let '(c', r) := chan_recv c in
      match r with
      | RecvItem data =>
          let n := Nat.min remaining (length data) in
          (if (n <? length data)%nat then with_read_buf s (drop n data) else s, c', ReadReady (take n data))
      | RecvClosed => (s, c', ReadReady [])
      | RecvPending => (s, c', ReadPending)
      end
  end.

(** [inr]: the [BrokenPipe] error's text. *)
Definition poll_write (m : SeamMux) (s : SeamStream) (buf : list byte) : SeamMux * (nat + string) :=
  match sm_write_tx s with
  | None => (m, inr "stream shut down"%string)
  | Some w =>
      match mx_write m !! w with
      | None => (m, inr "stream closed"%string)
      | Some c =>
          let '(c', ok) := chan_send c buf in
          (set_mx_write m (<[w := c']> (mx_write m)), if ok then inl (length buf) else inr "stream closed"%string)
      end
  end.

Definition poll_shutdown (m : SeamMux) (s : SeamStream) : SeamMux * SeamStream :=
  (set_mx_write m (drop_entry chan_drop_tx (sm_write_tx s) (mx_write m)),
   mkSeamStream (sm_sid s) None (sm_data_rx s) (sm_read_buf s)).

End MuxCode.

Arguments SeamMux : clear implicits.
Arguments SeamMux {P Q}.

(** ** With the connection *)

Section EventLoop.
Context {C : Crypto} {X : X25519} {K : Kem} {D : MlDsa} {H : PlainHash} {N : Noise} {M : Libm}.
Context {T : Type} {CC : CongestionControl T} {P : Mpsc} {Q : Semaphore}.
Local Open Scope act_scope.

Definition open_stream (m : SeamMux) : Act (T := T) (SeamMux * SeamStream) :=
  do sid := api_open_stream in ret (mux_open m sid).

(** [while let Some(dg) = writer.recv_datagram()]: the queue is finite. *)
Fixpoint drain_datagrams (fuel : nat) (c : chan) : Act (T := T) chan :=
  match fuel with
  | O => ret c
  | S fuel =>
      do dg := api_recv_datagram in
      match dg with
      | None => ret c
      | Some dg => let '(c', ok) := chan_send c dg in if ok then drain_datagrams fuel c' else ret c'
      end
  end.

Definition datagrams_waiting (c : Connection (T := T)) : nat :=
  match cn_session c with Some s => length (dq_recv_queue (ss_datagrams s)) | None => 0 end.

(** One turn of [event_loop]. *)
Definition event_turn (m : SeamMux) (ev : SessionEvent) : Act (T := T) SeamMux :=
  match ev with
  | EvNewStream sid => ret (on_new_stream m sid)
  | EvDataAvailable sid => do data := writer_read sid (Z.to_nat 65536) in ret (on_data m sid data)
  | EvStreamFinished sid => ret (on_finished m sid)
  | EvClosed => ret (on_closed m)
  | EvDatagramReceived =>
      do c := get in
      do ch := drain_datagrams (S (datagrams_waiting c)) (mx_datagram m) in
      ret (set_mx_datagram m ch)
  | EvSessionTicket _ | EvPathChallengeReceived _ | EvPathResponseReceived _ => ret m
  end.

(** The loop over a run of events. *)
Fixpoint event_loop (events : list SessionEvent) (m : SeamMux) : Act (T := T) SeamMux :=
  match events with
  | [] => ret m
  | ev :: rest => if mx_running m then do m' := event_turn m ev in event_loop rest m' else ret m
  end.

(** [stream_write_loop] from its first to its last chunk: a failed write ends
    it early, and the FIN is sent in any case. *)
Fixpoint write_chunks (env : Env) (sid : Z) (chunks : list (list byte)) : Act (T := T) unit :=
  match chunks with
  | [] => ret tt
  | data :: rest => fun s =>
      match writer_write env sid data s with
      | Done _ s' => write_chunks env sid rest s'
      | Fail _ s' => Done tt s'
      | Panic => Panic
      end
  end.

Definition stream_write_loop (env : Env) (sid : Z) (chunks : list (list byte)) : Act (T := T) unit :=
  write_chunks env sid chunks ;; writer_send_fin env sid.

End EventLoop.

(** * Properties *)

(** ** A stream's bytes *)

Section PollRead.
Context {P : Mpsc} {L : MpscLaws P}.

Definition bytes_of (r : PollRead) : list byte := match r with ReadReady b => b | ReadPending => [] end.

Definition no_empty (c : chan) : Prop := forall b, b ∈ items c -> b <> [].

(** One read takes bytes off the front of what is buffered and queued; it is
    empty with room to spare only at the end of the stream. *)
Lemma poll_read_spec s (c : chan) n s' c' r :
  poll_read s c n = (s', c', r) -> no_empty c ->
  bytes_of r ++ sm_read_buf s' ++ concat (items c') = sm_read_buf s ++ concat (items c)
  /\ (sm_sid s' = sm_sid s /\ sm_data_rx s' = sm_data_rx s)
  /\ (tx_alive c' = tx_alive c /\ rx_alive c' = rx_alive c /\ no_empty c')
  /\ (r = ReadReady [] -> (0 < n)%nat -> sm_read_buf s = [] /\ items c = [] /\ tx_alive c = false).
Proof.
  intros Hp Hne. unfold poll_read in Hp. destruct (sm_read_buf s) as [|x l] eqn:Eb.
  - destruct (items c) as [|b l] eqn:Ei.
    + rewrite (recv_empty c Ei) in Hp. destruct (tx_alive c) eqn:Et; injection Hp as <- <- <-; rewrite Eb, Ei;
        repeat split; try done.
    + destruct (recv_item c b l Ei) as (H1 & H2 & H3 & H4). destruct (chan_recv c) as [c1 r1].
      cbn in H1, H2, H3, H4. subst r1. injection Hp as <- <- <-. rewrite H2. cbn [bytes_of concat].
      assert (Hb : b <> []) by (apply Hne; rewrite Ei; by left).
      destruct (Nat.min n (length b) <? length b)%nat eqn:El; apply Nat.ltb_lt in El || apply Nat.ltb_ge in El.
      all: split; [|split; [done|split]].
      1: by cbn [sm_read_buf with_read_buf]; rewrite app_assoc, take_drop.
      3: by rewrite Eb, take_ge by lia.
      all: try (intros [= Ht] Hn; exfalso; destruct b; [done|]; destruct n; [lia|]; done).
      all: repeat split; try done; intros y Hy; apply Hne; rewrite Ei; rewrite H2 in Hy; by right.
  - injection Hp as <- <- <-. cbn [bytes_of sm_read_buf with_read_buf]. split; [|split; [done|split; [done|]]].
    + by rewrite app_assoc, take_drop.
    + intros [= Ht] Hn. exfalso. destruct n; [lia|]. done.
Qed.

End PollRead.

(** ** Delivery *)

(** What the event loop, the application and the readers do to a multiplexer
    ([MxOpen]: the session gave the local stream that id; [MxData]: the read of a
    [DataAvailable] returned those bytes). *)
Inductive MxOp : Type :=
  | MxOpen (sid : Z) | MxNew (sid : Z) | MxData (sid : Z) (data : list byte) | MxFinished (sid : Z)
  | MxClosed | MxAccept | MxRead (h : nat) (remaining : nat).

Section Delivery.
Context {P : Mpsc} {Q : Semaphore} {L : MpscLaws P}.

(** A run, with the handles given out, for each handle the bytes read from it
    and, for the proof only, for each data channel the stream it was made for
    and the bytes sent to it. *)
Record Trace : Type := mkTrace {
  tr_mux : SeamMux;
  tr_handles : list SeamStream;
  tr_owner : list Z;
  tr_fed : list (list byte);
  tr_got : list (list byte)
}.

Definition Trace_new : Trace := mkTrace SeamMux_new [] [] [] [].

Definition mx_exec (op : MxOp) (g : Trace) : Trace :=
  let m := tr_mux g in
  match op with
  | MxOpen sid =>
      let '(m', s) := mux_open m sid in
      mkTrace m' (tr_handles g ++ [s]) (tr_owner g ++ [sid]) (tr_fed g ++ [[]]) (tr_got g ++ [[]])
  | MxNew sid => mkTrace (on_new_stream m sid) (tr_handles g) (tr_owner g ++ [sid]) (tr_fed g ++ [[]]) (tr_got g)
  | MxData sid data =>
      mkTrace (on_data m sid data) (tr_handles g) (tr_owner g)
        (match stream_senders (mx_state m) !! sid with
         | Some k => alter (fun b => b ++ data) k (tr_fed g)
         | None => tr_fed g
         end) (tr_got g)
  | MxFinished sid => mkTrace (on_finished m sid) (tr_handles g) (tr_owner g) (tr_fed g) (tr_got g)
  | MxClosed => mkTrace (on_closed m) (tr_handles g) (tr_owner g) (tr_fed g) (tr_got g)
  | MxAccept =>
      match accept_stream m with
      | (m', Accepted s) => mkTrace m' (tr_handles g ++ [s]) (tr_owner g) (tr_fed g) (tr_got g ++ [[]])
      | (m', _) => mkTrace m' (tr_handles g) (tr_owner g) (tr_fed g) (tr_got g)
      end
  | MxRead h n =>
      match tr_handles g !! h with
      | None => g
      | Some s =>
          match mx_data m !! sm_data_rx s with
          | None => g
          | Some c =>
              let '(s', c', r) := poll_read s c n in
              mkTrace (set_mx_data m (<[sm_data_rx s := c']> (mx_data m))) (<[h := s']> (tr_handles g))
                (tr_owner g) (tr_fed g) (alter (fun b => b ++ bytes_of r) h (tr_got g))
          end
      end
  end.

Definition mx_run (ops : list MxOp) : Trace := fold_left (fun g op => mx_exec op g) ops Trace_new.

(** The channels that still have a reader: a handle's, or one waiting for
    [accept_stream]; with the bytes the reader took or buffered. *)
Inductive reader (g : Trace) : nat -> Z -> list byte -> Prop :=
  | reader_handle h s b : tr_handles g !! h = Some s -> tr_got g !! h = Some b ->
      reader g (sm_data_rx s) (sm_sid s) (b ++ sm_read_buf s)
  | reader_pending sid k : pending_receivers (mx_state (tr_mux g)) !! sid = Some k -> reader g k sid [].

Record tr_inv (g : Trace) : Prop := {
  ti_fed : length (tr_fed g) = length (mx_data (tr_mux g));
  ti_owner : length (tr_owner g) = length (mx_data (tr_mux g));
  ti_got : length (tr_got g) = length (tr_handles g);
  ti_senders : forall sid k, stream_senders (mx_state (tr_mux g)) !! sid = Some k -> tr_owner g !! k = Some sid;
  ti_reader : forall k sid b, reader g k sid b ->
    tr_owner g !! k = Some sid /\ exists c, mx_data (tr_mux g) !! k = Some c /\ rx_alive c = true /\ no_empty c
      /\ tr_fed g !! k = Some (b ++ concat (items c));
  ti_handles : forall h1 h2 s1 s2, tr_handles g !! h1 = Some s1 -> tr_handles g !! h2 = Some s2 ->
    sm_data_rx s1 = sm_data_rx s2 -> h1 = h2;
  ti_pending : forall h s sid k, tr_handles g !! h = Some s -> pending_receivers (mx_state (tr_mux g)) !! sid = Some k ->
    k <> sm_data_rx s
}.

Lemma reader_sub g m' fed' owner' :
  pending_receivers (mx_state m') ⊆ pending_receivers (mx_state (tr_mux g)) ->
  forall k sid b, reader (mkTrace m' (tr_handles g) owner' fed' (tr_got g)) k sid b -> reader g k sid b.
Proof.
  intros Hsub k sid b Hr. destruct Hr as [h s b Hh Hb|sid k Hk]; [by eapply reader_handle|].
  apply reader_pending. by eapply lookup_weaken.
Qed.

(** Channels change under their readers' feet, entries leave the maps. *)
Lemma inv_replace g m' fed' :
  tr_inv g ->
  stream_senders (mx_state m') ⊆ stream_senders (mx_state (tr_mux g)) ->
  pending_receivers (mx_state m') ⊆ pending_receivers (mx_state (tr_mux g)) ->
  length (mx_data m') = length (mx_data (tr_mux g)) -> length fed' = length (tr_fed g) ->
  (forall k sid b c, reader (mkTrace m' (tr_handles g) (tr_owner g) fed' (tr_got g)) k sid b ->
    mx_data (tr_mux g) !! k = Some c -> rx_alive c = true -> no_empty c ->
    tr_fed g !! k = Some (b ++ concat (items c)) ->
    exists c', mx_data m' !! k = Some c' /\ rx_alive c' = true /\ no_empty c'
      /\ fed' !! k = Some (b ++ concat (items c'))) ->
  tr_inv (mkTrace m' (tr_handles g) (tr_owner g) fed' (tr_got g)).
Proof.
  intros [H1 H2 H3 H4 H5 H6 H7] Hs Hp Hl Hf Hc. pose proof (reader_sub g m' fed' (tr_owner g) Hp) as Hsub.
  split; cbn; [congruence|congruence|done| | |done|].
  - intros sid k Hk. apply H4. by eapply lookup_weaken.
  - intros k sid b Hr. destruct (H5 k sid b (Hsub _ _ _ Hr)) as (Ho & c & E1 & E2 & E3 & E4). eauto.
  - intros h s sid k Hh Hk. eapply H7; [done|]. by eapply lookup_weaken.
Qed.

(** A channel is added. *)
Lemma inv_extend g m' sid :
  tr_inv g ->
  mx_data m' = mx_data (tr_mux g) ++ [chan_new] ->
  stream_senders (mx_state m') = <[sid := length (mx_data (tr_mux g))]> (stream_senders (mx_state (tr_mux g))) ->
  pending_receivers (mx_state m') = pending_receivers (mx_state (tr_mux g)) ->
  tr_inv (mkTrace m' (tr_handles g) (tr_owner g ++ [sid]) (tr_fed g ++ [[]]) (tr_got g)).
Proof.
  intros [H1 H2 H3 H4 H5 H6 H7] Hd Hs Hp. split; cbn.
  - rewrite Hd, !length_app. cbn. lia.
  - rewrite Hd, !length_app. cbn. lia.
  - done.
  - intros x k. rewrite Hs. destruct (decide (x = sid)) as [->|Hne].
    + rewrite lookup_insert_eq. intros [= <-]. rewrite <- H2. by apply list_lookup_middle.
    + rewrite lookup_insert_ne by done. intros Hk. by apply lookup_app_l_Some, H4.
  - intros k x b Hr. assert (Hr' : reader g k x b).
    { refine (reader_sub g m' _ _ _ k x b Hr). by rewrite Hp. }
    destruct (H5 k x b Hr') as (Ho & c & E1 & E2 & E3 & E4). split; [by apply lookup_app_l_Some|].
    exists c. rewrite Hd. repeat split; try done; by apply lookup_app_l_Some.
  - done.
  - by rewrite Hp.
Qed.

(** What a new reader needs of its channel. *)
Definition ready (g : Trace) (k : nat) (sid : Z) : Prop :=
  tr_owner g !! k = Some sid /\ exists c, mx_data (tr_mux g) !! k = Some c /\ rx_alive c = true /\ no_empty c
    /\ tr_fed g !! k = Some (concat (items c)).

Lemma inv_handle g m' s :
  tr_inv g -> mx_state m' = mx_state (tr_mux g) -> mx_data m' = mx_data (tr_mux g) ->
  ready g (sm_data_rx s) (sm_sid s) -> sm_read_buf s = [] ->
  (forall k sid b, reader g k sid b -> k <> sm_data_rx s) ->
  tr_inv (mkTrace m' (tr_handles g ++ [s]) (tr_owner g) (tr_fed g) (tr_got g ++ [[]])).
Proof.
  intros [H1 H2 H3 H4 H5 H6 H7] Hs Hd (Ho & Hr) Hb Hfr.
  assert (Hgot : forall h x, tr_handles g !! h = Some x -> exists b, tr_got g !! h = Some b).
  { intros h x Hh. apply lookup_lt_is_Some. rewrite H3. by eapply lookup_lt_Some. }
  split; cbn; rewrite ?Hs, ?Hd; [done|done|by rewrite !length_app, H3|done| | |].
  - intros k x b Hrd. inversion Hrd as [h y b' Hh Hb'|x' k' Hk]; subst; cbn in *.
    + apply lookup_app_Some in Hh as [Hh|[Hlen Hh]].
      * destruct (Hgot h y Hh) as [z Hz]. rewrite (lookup_app_l_Some _ _ _ _ Hz) in Hb'. injection Hb' as <-.
        apply H5. by apply (reader_handle g h).
      * apply list_lookup_singleton_Some in Hh as [Hz <-].
        rewrite lookup_app_r, H3, Hz in Hb' by lia. injection Hb' as <-. by rewrite Hb.
    + rewrite Hs in Hk. apply (H5 k x []). by apply reader_pending.
  - intros h1 h2 s1 s2 E1 E2 Hrx.
    apply lookup_app_Some in E1 as [E1|[L1 E1]]; apply lookup_app_Some in E2 as [E2|[L2 E2]].
    + by eapply H6.
    + exfalso. apply list_lookup_singleton_Some in E2 as [_ <-]. destruct (Hgot h1 s1 E1) as [z Hz].
      by apply (Hfr _ _ _ (reader_handle g h1 s1 z E1 Hz)).
    + exfalso. apply list_lookup_singleton_Some in E1 as [_ <-]. destruct (Hgot h2 s2 E2) as [z Hz].
      by apply (Hfr _ _ _ (reader_handle g h2 s2 z E2 Hz)).
    + apply list_lookup_singleton_Some in E1 as [? _], E2 as [? _]. lia.
  - intros h x sid k Hh Hk. apply lookup_app_Some in Hh as [Hh|[_ Hh]]; [by eapply H7|].
    apply list_lookup_singleton_Some in Hh as [_ <-]. eapply Hfr. by apply reader_pending.
Qed.

Lemma inv_pending g m' sid k :
  tr_inv g -> mx_data m' = mx_data (tr_mux g) -> stream_senders (mx_state m') = stream_senders (mx_state (tr_mux g)) ->
  pending_receivers (mx_state m') = <[sid := k]> (pending_receivers (mx_state (tr_mux g))) ->
  ready g k sid -> (forall x y b, reader g x y b -> x <> k) ->
  tr_inv (mkTrace m' (tr_handles g) (tr_owner g) (tr_fed g) (tr_got g)).
Proof.
  intros [H1 H2 H3 H4 H5 H6 H7] Hd Hs Hp (Ho & Hr) Hfr.
  split; cbn; rewrite ?Hs, ?Hd, ?Hp; [done|done|done|done| |done|].
  - intros x y b Hrd. inversion Hrd as [h z b' Hh Hb'|y' x' Hk]; subst; cbn in *.
    + apply H5. by apply (reader_handle g h).
    + rewrite Hp in Hk. destruct (decide (y = sid)) as [->|Hne].
      * rewrite lookup_insert_eq in Hk. by injection Hk as <-.
      * rewrite lookup_insert_ne in Hk by done. apply (H5 x y []). by apply reader_pending.
  - intros h s x y Hh Hx. destruct (decide (x = sid)) as [->|Hne].
    + rewrite lookup_insert_eq in Hx. injection Hx as <-. destruct (lookup_lt_is_Some_2 (tr_got g) h) as [z Hz].
      { rewrite H3. by eapply lookup_lt_Some. }
      intros ->. by apply (Hfr _ _ _ (reader_handle g h s z Hh Hz)).
    + rewrite lookup_insert_ne in Hx by done. by eapply H7.
Qed.

(** The channel [inv_extend] adds. *)
Lemma extend_ready g m' sid :
  tr_inv g -> mx_data m' = mx_data (tr_mux g) ++ [chan_new] ->
  let g' := mkTrace m' (tr_handles g) (tr_owner g ++ [sid]) (tr_fed g ++ [[]]) (tr_got g) in
  ready g' (length (mx_data (tr_mux g))) sid.
Proof.
  intros Hi Hd. destruct new_state as (N1 & N2 & N3). split; cbn.
  - rewrite <- (ti_owner g Hi). by apply list_lookup_middle.
  - exists chan_new. rewrite Hd. split; [by apply list_lookup_middle|]. split; [done|].
    split; [intros b; rewrite N1; by intros ?%not_elem_of_nil|].
    rewrite N1, <- (ti_fed g Hi). by apply list_lookup_middle.
Qed.

Lemma reader_lt g k sid b : tr_inv g -> reader g k sid b -> (k < length (mx_data (tr_mux g)))%nat.
Proof. intros Hi Hr. destruct (ti_reader g Hi k sid b Hr) as (_ & c & Hc & _). by eapply lookup_lt_Some. Qed.

Lemma drop_entry_lookup f o (l : list chan) k c :
  l !! k = Some c -> drop_entry f o l !! k = Some (if decide (o = Some k) then f c else c).
Proof.
  intros Hk. destruct o as [i|]; cbn; [|by rewrite decide_False].
  destruct (decide (i = k)) as [->|Hne].
  - rewrite decide_True by done. by rewrite list_lookup_alter_eq, Hk.
  - rewrite decide_False by congruence. by rewrite list_lookup_alter_ne.
Qed.

Lemma length_drop_entry f o (l : list chan) : length (drop_entry f o l) = length l.
Proof. destruct o; [apply length_alter|done]. Qed.

(** Dropping a sender changes nothing for its reader but the end. *)
Lemma inv_drop_tx g sid ss :
  tr_inv g -> ss ⊆ stream_senders (mx_state (tr_mux g)) ->
  let m := tr_mux g in
  tr_inv (mkTrace (set_mx_data (set_mx_state m (mkMuxState ss (pending_receivers (mx_state m))
                                                (pending_streams (mx_state m))))
                     (drop_entry chan_drop_tx (stream_senders (mx_state m) !! sid) (mx_data m)))
            (tr_handles g) (tr_owner g) (tr_fed g) (tr_got g)).
Proof.
  intros Hi Hss m. apply inv_replace; cbn; [done|done|done|apply length_drop_entry|done|].
  intros k x b c Hr Hc Hrx Hne Hf. exists (if decide (stream_senders (mx_state m) !! sid = Some k) then chan_drop_tx c else c).
  split; [by apply drop_entry_lookup|]. destruct (decide _); [|done].
  destruct (drop_tx_state c) as (D1 & D2 & D3). unfold no_empty. rewrite D1, D3. done.
Qed.

Lemma on_new_stream_inv g sid :
  tr_inv g -> tr_inv (mkTrace (on_new_stream (tr_mux g) sid) (tr_handles g) (tr_owner g ++ [sid])
                        (tr_fed g ++ [[]]) (tr_got g)).
Proof.
  intros Hi. set (m := tr_mux g). set (st := mx_state m).
  (* the two ends the maps held are dropped *)
  pose proof (inv_drop_tx g sid _ Hi (reflexivity _)) as Hi1. cbv zeta in Hi1.
  match type of Hi1 with tr_inv ?x => set (g1 := x) in Hi1 end.
  set (m2 := set_mx_data (set_mx_state m (mkMuxState (stream_senders st) (delete sid (pending_receivers st))
                                            (pending_streams st)))
               (drop_entry chan_drop_rx (pending_receivers st !! sid) (mx_data (tr_mux g1)))).
  assert (Hi2 : tr_inv (mkTrace m2 (tr_handles g1) (tr_owner g1) (tr_fed g1) (tr_got g1))).
  { apply inv_replace; cbn; [done|done|apply delete_subseteq|by rewrite !length_drop_entry|done|].
    intros k x b c Hr Hc Hrx Hne Hf. exists c. split; [|done].
    rewrite (drop_entry_lookup _ _ _ k c Hc). rewrite decide_False; [done|]. intros Ek.
    pose proof (ti_reader g1 Hi1 k sid [] ltac:(by apply reader_pending)) as [Ho _].
    inversion Hr as [h y b' Hh Hb'|y k' Hk]; subst; cbn in *.
    - by apply (ti_pending g1 Hi1 h y sid (sm_data_rx y)).
    - destruct (decide (x = sid)) as [->|Hnx]; [by rewrite lookup_delete_eq in Hk|].
      rewrite lookup_delete_ne in Hk by done.
      pose proof (ti_reader g1 Hi1 k x [] ltac:(by apply reader_pending)) as [Ho' _]. cbn in Ho'. congruence. }
  match type of Hi2 with tr_inv ?x => set (g2 := x) in Hi2 end.
  set (k := length (mx_data m)).
  assert (Hk : k = length (mx_data (tr_mux g2))) by (cbn; by rewrite !length_drop_entry).
  set (m3 := set_mx_data (set_mx_state m2 (mkMuxState (<[sid := k]> (stream_senders st))
                                             (delete sid (pending_receivers st)) (pending_streams st)))
               (mx_data m2 ++ [chan_new])).
  pose proof (inv_extend g2 m3 sid Hi2 eq_refl ltac:(by rewrite <- Hk) eq_refl) as Hi3.
  pose proof (extend_ready g2 m3 sid Hi2 eq_refl) as Hrd. rewrite <- Hk in Hrd.
  refine (inv_pending _ (on_new_stream m sid) sid k Hi3 _ eq_refl _ Hrd _).
  - change (drop_entry chan_drop_rx (pending_receivers st !! sid)
      (drop_entry chan_drop_tx (stream_senders st !! sid) (mx_data m) ++ [chan_new])
      = drop_entry chan_drop_rx (pending_receivers st !! sid)
          (drop_entry chan_drop_tx (stream_senders st !! sid) (mx_data m)) ++ [chan_new]).
    destruct (pending_receivers st !! sid) as [j|] eqn:Ej; [|done]. apply alter_app_l.
    rewrite length_drop_entry. apply (reader_lt g j sid [] Hi). by apply reader_pending.
  - cbn. by rewrite insert_delete_eq.
  - intros x y b Hr. apply (reader_sub g2) in Hr; [|done]. apply (reader_lt g2) in Hr; [|done]. lia.
Qed.

Lemma on_data_inv g sid data :
  tr_inv g -> tr_inv (mkTrace (on_data (tr_mux g) sid data) (tr_handles g) (tr_owner g)
    (match stream_senders (mx_state (tr_mux g)) !! sid with
     | Some k => alter (fun b => b ++ data) k (tr_fed g)
     | None => tr_fed g
     end) (tr_got g)).
Proof.
  intros Hi. destruct data as [|x data].
  { cbn [on_data]. apply inv_replace; try done; [by destruct (_ !! sid); rewrite ?length_alter|].
    intros k y b c _ Hc Hrx Hne Hf. exists c. repeat split; try done.
    destruct (_ !! sid) as [j|]; [|done]. destruct (decide (j = k)) as [->|Hnk].
    - rewrite list_lookup_alter_eq, Hf. cbn. by rewrite app_nil_r.
    - by rewrite list_lookup_alter_ne. }
  unfold on_data. destruct (stream_senders (mx_state (tr_mux g)) !! sid) as [j|] eqn:Ej.
  - apply inv_replace; try done; cbn; [apply length_alter|apply length_alter|].
    intros k y b c _ Hc Hrx Hne Hf. destruct (decide (j = k)) as [->|Hnk].
    + rewrite !list_lookup_alter_eq, Hc, Hf. cbn. destruct (send_ok c (x :: data) Hrx) as (_ & S2 & _ & S4).
      eexists. split; [done|]. split; [done|]. split.
      * intros z. rewrite S2. intros [Hz|Hz]%elem_of_app; [by apply Hne|].
        by apply list_elem_of_singleton in Hz as ->.
      * by rewrite S2, concat_app, app_assoc; cbn; rewrite app_nil_r.
    + rewrite !list_lookup_alter_ne by done. eauto.
  - apply inv_replace; try done. cbn. eauto.
Qed.

Lemma mux_accept_inv g :
  tr_inv g ->
  match accept_stream (tr_mux g) with
  | (m', Accepted s) => tr_inv (mkTrace m' (tr_handles g ++ [s]) (tr_owner g) (tr_fed g) (tr_got g ++ [[]]))
  | (m', _) => tr_inv (mkTrace m' (tr_handles g) (tr_owner g) (tr_fed g) (tr_got g))
  end.
Proof.
  intros Hi. unfold accept_stream. destruct (sem_acquire _) as [s'| |]; [|by destruct g|by destruct g].
  cbn [mx_state set_mx_sem].
  destruct (pending_streams _) as [|sid rest]; [by apply inv_replace; cbn; eauto|].
  destruct (pending_receivers _ !! sid) as [k|] eqn:Ek; [|by apply inv_replace; cbn; eauto].
  cbn [new_stream set_mx_state].
  pose proof (ti_reader g Hi k sid [] ltac:(by apply reader_pending)) as Hrd.
  set (m1 := set_mx_state (tr_mux g) (mkMuxState (stream_senders (mx_state (tr_mux g)))
               (delete sid (pending_receivers (mx_state (tr_mux g)))) rest)).
  assert (Hi1 : tr_inv (mkTrace m1 (tr_handles g) (tr_owner g) (tr_fed g) (tr_got g))).
  { apply inv_replace; cbn; try done; [apply delete_subseteq|]. eauto. }
  apply (inv_handle _ _ _ Hi1); [done|done|exact Hrd|done|].
  intros x y b Hr. cbn. inversion Hr as [h z b' Hh Hb'|y' x' Hx]; subst; cbn in *.
  - intros E. by apply (ti_pending g Hi h z sid k).
  - destruct (decide (y = sid)) as [->|Hny]; [by rewrite lookup_delete_eq in Hx|].
    rewrite lookup_delete_ne in Hx by done. intros ->.
    pose proof (ti_reader g Hi k y [] ltac:(by apply reader_pending)) as [Ho _].
    destruct Hrd as [Ho' _]. congruence.
Qed.

Lemma read_inv g h n s c :
  tr_inv g -> tr_handles g !! h = Some s -> mx_data (tr_mux g) !! sm_data_rx s = Some c ->
  tr_inv (let '(s', c', r) := poll_read s c n in
          mkTrace (set_mx_data (tr_mux g) (<[sm_data_rx s := c']> (mx_data (tr_mux g)))) (<[h := s']> (tr_handles g))
            (tr_owner g) (tr_fed g) (alter (fun b => b ++ bytes_of r) h (tr_got g))).
Proof.
  intros Hi Hh Hc. destruct (poll_read s c n) as [[s' c'] r] eqn:Ep.
  destruct (lookup_lt_is_Some_2 (tr_got g) h) as [b0 Hb0].
  { rewrite (ti_got g Hi). by eapply lookup_lt_Some. }
  destruct (ti_reader g Hi _ _ _ (reader_handle g h s b0 Hh Hb0)) as (Ho & x & Hx & Hrx & Hne & Hf).
  simplify_eq. destruct (poll_read_spec s _ n s' c' r Ep Hne) as (B1 & (B2 & B3) & (B4 & B5 & B6) & _).
  destruct Hi as [H1 H2 H3 H4 H5 H6 H7].
  assert (Hlook : forall j y, <[h := s']> (tr_handles g) !! j = Some y ->
    exists y0, tr_handles g !! j = Some y0 /\ sm_data_rx y = sm_data_rx y0 /\ sm_sid y = sm_sid y0).
  { intros j y Hj. apply list_lookup_insert_Some in Hj as [(<- & <- & _)|[_ Hj]]; [exists s|exists y]; done. }
  split; cbn; rewrite ?length_insert, ?length_alter; [done|done|done|done| | |].
  - intros k y b Hr. inversion Hr as [j z b' Hj Hb'|y' k' Hk]; subst; cbn in *.
    + destruct (decide (h = j)) as [<-|Hnj].
      * rewrite list_lookup_insert_eq in Hj by (by eapply lookup_lt_Some). injection Hj as <-.
        rewrite list_lookup_alter_eq, Hb0 in Hb'. injection Hb' as <-. rewrite B2, B3. split; [done|].
        exists c'. rewrite list_lookup_insert_eq by (by eapply lookup_lt_Some). rewrite B5.
        split; [done|]. split; [done|]. split; [done|]. rewrite Hf. f_equal.
        rewrite <- !app_assoc. by rewrite B1.
      * rewrite list_lookup_insert_ne in Hj by done. rewrite list_lookup_alter_ne in Hb' by done.
        destruct (H5 _ _ _ (reader_handle g j z b' Hj Hb')) as (Ho2 & c2 & Hc2 & Hrest). split; [done|].
        exists c2. split; [|done]. rewrite list_lookup_insert_ne; [done|]. intros E. apply Hnj. by eapply H6.
    + destruct (H5 k y [] (reader_pending g y k Hk)) as (Ho2 & c2 & Hc2 & Hrest). split; [done|].
      exists c2. split; [|done]. rewrite list_lookup_insert_ne; [done|]. by apply not_eq_sym, (H7 h s y k).
  - intros h1 h2 s1 s2 E1 E2 E. destruct (Hlook h1 s1 E1) as (y1 & ? & R1 & _).
    destruct (Hlook h2 s2 E2) as (y2 & ? & R2 & _). eapply H6; try done. congruence.
  - intros j y sid k Hj Hk. destruct (Hlook j y Hj) as (y0 & Hy & -> & _). by eapply H7.
Qed.

Lemma mx_exec_inv op g : tr_inv g -> tr_inv (mx_exec op g).
Proof.
  intros Hi. destruct op as [sid|sid|sid data|sid| | |h n]; cbn [mx_exec].
  - pose proof (inv_drop_tx g sid _ Hi (reflexivity _)) as Hi1. cbv zeta in Hi1.
    match type of Hi1 with tr_inv ?g1 => set (g1' := g1) in * end.
    set (m2 := (insert_sender (tr_mux g) sid).1).
    assert (Hd : mx_data m2 = mx_data (tr_mux g1') ++ [chan_new]) by done.
    assert (Hk : length (mx_data (tr_mux g)) = length (mx_data (tr_mux g1'))) by (symmetry; apply length_drop_entry).
    pose proof (inv_extend g1' m2 sid Hi1 Hd ltac:(cbn; by rewrite length_drop_entry) eq_refl) as Hi2.
    pose proof (extend_ready g1' m2 sid Hi1 Hd) as Hrd. rewrite <- Hk in Hrd.
    refine (inv_handle _ (set_mx_write m2 (mx_write m2 ++ [chan_new])) (mkSeamStream sid _ _ []) Hi2 eq_refl eq_refl Hrd eq_refl _).
    intros k y b Hr. cbn. rewrite Hk. apply (reader_sub g1') in Hr; [|done].
    apply (reader_lt g1') in Hr; [|done]. lia.
  - by apply on_new_stream_inv.
  - by apply on_data_inv.
  - by apply inv_drop_tx, delete_subseteq.
  - apply inv_replace; cbn; try done. eauto.
  - pose proof (mux_accept_inv g Hi) as Ha. destruct (accept_stream (tr_mux g)) as [m' [s| |]]; done.
  - destruct (tr_handles g !! h) as [s|] eqn:Eh; [|done].
    destruct (mx_data (tr_mux g) !! sm_data_rx s) as [c|] eqn:Ec; [|done].
    by apply read_inv.
Qed.

Lemma Trace_new_inv : tr_inv Trace_new.
Proof.
  split; cbn; try done.
  - intros k sid b Hr. inversion Hr as [h s b' Hh Hb|x y Hk]; subst; done.
Qed.

Lemma mx_run_inv ops : tr_inv (mx_run ops).
Proof.
  unfold mx_run. generalize Trace_new_inv. generalize Trace_new.
  induction ops as [|op ops IH]; intros g Hg; cbn; [done|]. by apply IH, mx_exec_inv.
Qed.

(** What is fed to the streams, read off the operations alone: each opening or
    announcement of a stream id starts a feed and ends an earlier one of the same
    id, data goes to the open feed of its id, the end of a stream ends it. *)
Record Feed : Type := mkFeed { fd_sid : Z; fd_open : bool; fd_bytes : list byte }.

Definition end_feed (sid : Z) (f : Feed) : Feed :=
  if fd_sid f =? sid then mkFeed (fd_sid f) false (fd_bytes f) else f.

Definition add_feed (sid : Z) (data : list byte) (f : Feed) : Feed :=
  if (fd_sid f =? sid) && fd_open f then mkFeed (fd_sid f) true (fd_bytes f ++ data) else f.

Definition feed_step (l : list Feed) (op : MxOp) : list Feed :=
  match op with
  | MxOpen sid | MxNew sid => map (end_feed sid) l ++ [mkFeed sid true []]
  | MxData sid data => map (add_feed sid data) l
  | MxFinished sid => map (end_feed sid) l
  | MxClosed | MxAccept | MxRead _ _ => l
  end.

Definition feeds (ops : list MxOp) : list Feed := fold_left feed_step ops [].

(** The table of senders is the open feeds. *)
Record fd_inv (g : Trace) (l : list Feed) : Prop := {
  fi_fed : tr_fed g = map fd_bytes l;
  fi_owner : tr_owner g = map fd_sid l;
  fi_len : length (mx_data (tr_mux g)) = length l;
  fi_senders : forall sid k, stream_senders (mx_state (tr_mux g)) !! sid = Some k <->
    exists f, l !! k = Some f /\ fd_sid f = sid /\ fd_open f = true;
  fi_tx : forall k f c, l !! k = Some f -> mx_data (tr_mux g) !! k = Some c -> tx_alive c = fd_open f
}.

Lemma end_feed_keeps sid l : map fd_bytes (map (end_feed sid) l) = map fd_bytes l
  /\ map fd_sid (map (end_feed sid) l) = map fd_sid l.
Proof. rewrite !map_map. split; apply map_ext; intros f; unfold end_feed; by destruct (_ =? _). Qed.

Lemma drop_tx_feed g l sid k f c : fd_inv g l ->
  map (end_feed sid) l !! k = Some f ->
  drop_entry chan_drop_tx (stream_senders (mx_state (tr_mux g)) !! sid) (mx_data (tr_mux g)) !! k = Some c ->
  tx_alive c = fd_open f.
Proof.
  intros Hi Hf Hc. apply list_lookup_fmap_Some in Hf as (f0 & -> & Hf).
  destruct (lookup_lt_is_Some_2 (mx_data (tr_mux g)) k) as [c0 Hc0].
  { rewrite (fi_len g l Hi). by eapply lookup_lt_Some. }
  rewrite (drop_entry_lookup _ _ _ k c0 Hc0) in Hc. injection Hc as <-.
  pose proof (fi_tx g l Hi k f0 c0 Hf Hc0) as Ht. unfold end_feed.
  destruct (drop_tx_state c0) as (_ & D & _).
  destruct (decide _) as [E|E]; destruct (Z.eqb_spec (fd_sid f0) sid) as [Es|Es]; cbn; [done| | |done].
  - apply (fi_senders g l Hi) in E as (f1 & H1 & H2 & _). by simplify_eq.
  - rewrite Ht. destruct (fd_open f0) eqn:Eo; [|done]. destruct E. apply (fi_senders g l Hi). by exists f0.
Qed.

(** Ending a stream, and starting one. *)
Lemma fd_end g l sid m' : fd_inv g l ->
  mx_data m' = drop_entry chan_drop_tx (stream_senders (mx_state (tr_mux g)) !! sid) (mx_data (tr_mux g)) ->
  stream_senders (mx_state m') = delete sid (stream_senders (mx_state (tr_mux g))) ->
  fd_inv (mkTrace m' (tr_handles g) (tr_owner g) (tr_fed g) (tr_got g)) (map (end_feed sid) l).
Proof.
  intros Hi Hd Hs. destruct (end_feed_keeps sid l) as [E1 E2]. split; cbn.
  - by rewrite E1, (fi_fed g l Hi).
  - by rewrite E2, (fi_owner g l Hi).
  - by rewrite Hd, length_drop_entry, length_map, (fi_len g l Hi).
  - intros x k. rewrite Hs, lookup_delete_Some, (fi_senders g l Hi). split.
    + intros (Hne & f & H1 & H2 & H3). exists f. split; [|done]. apply list_lookup_fmap_Some. exists f. split; [|done].
      unfold end_feed. by destruct (fd_sid f =? sid) eqn:E; cmp_facts; [congruence|].
    + intros (f & (f0 & -> & H1)%list_lookup_fmap_Some & H2 & H3). unfold end_feed in *.
      destruct (fd_sid f0 =? sid) eqn:E; cmp_facts; [done|]. split; [congruence|]. by exists f0.
  - intros k f c Hf. rewrite Hd. by apply (drop_tx_feed g l).
Qed.

Lemma fd_start g l sid m' hs got : fd_inv g l ->
  (exists j, mx_data m' = drop_entry chan_drop_rx j
    (drop_entry chan_drop_tx (stream_senders (mx_state (tr_mux g)) !! sid) (mx_data (tr_mux g)) ++ [chan_new])) ->
  stream_senders (mx_state m') = <[sid := length (mx_data (tr_mux g))]> (stream_senders (mx_state (tr_mux g))) ->
  fd_inv (mkTrace m' hs (tr_owner g ++ [sid]) (tr_fed g ++ [[]]) got)
    (map (end_feed sid) l ++ [mkFeed sid true []]).
Proof.
  intros Hi [j Hd] Hs. destruct (end_feed_keeps sid l) as [E1 E2].
  pose proof (fi_len g l Hi) as Hlen. split; cbn.
  - by rewrite map_app, E1, (fi_fed g l Hi).
  - by rewrite map_app, E2, (fi_owner g l Hi).
  - rewrite Hd, length_drop_entry, !length_app, length_drop_entry, length_map, Hlen. done.
  - intros x k. rewrite Hs. destruct (decide (x = sid)) as [->|Hne].
    + rewrite lookup_insert_eq. split.
      * intros [= <-]. eexists. split; [apply list_lookup_middle; by rewrite length_map|done].
      * intros (f & Hf & H2 & H3). apply lookup_app_Some in Hf as [Hf|[Hl Hf]].
        -- apply list_lookup_fmap_Some in Hf as (f0 & -> & _). unfold end_feed in *.
           destruct (fd_sid f0 =? sid) eqn:E; cmp_facts; [done|congruence].
        -- apply list_lookup_singleton_Some in Hf as [Hz _]. rewrite length_map in *. f_equal. lia.
    + rewrite lookup_insert_ne by done. rewrite (fi_senders g l Hi). split.
      * intros (f & H1 & H2 & H3). exists f. split; [|done]. apply lookup_app_l_Some, list_lookup_fmap_Some. exists f.
        split; [|done]. unfold end_feed. by destruct (fd_sid f =? sid) eqn:E; cmp_facts; [congruence|].
      * intros (f & Hf & H2 & H3). apply lookup_app_Some in Hf as [Hf|[Hl Hf]].
        -- apply list_lookup_fmap_Some in Hf as (f0 & -> & H1). unfold end_feed in *.
           destruct (fd_sid f0 =? sid) eqn:E; cmp_facts; [done|]. by exists f0.
        -- apply list_lookup_singleton_Some in Hf as [_ <-]. done.
  - intros k f c Hf Hc. rewrite Hd in Hc. set (data := drop_entry chan_drop_tx _ _) in *.
    assert (exists c0, (data ++ [chan_new]) !! k = Some c0 /\ tx_alive c = tx_alive c0) as (c0 & Hc0 & ->).
    { destruct (lookup_lt_is_Some_2 (data ++ [chan_new]) k) as [c0 Hc0].
      { apply lookup_lt_Some in Hc. by rewrite length_drop_entry in Hc. }
      exists c0. split; [done|]. rewrite (drop_entry_lookup _ _ _ k c0 Hc0) in Hc. injection Hc as <-.
      destruct (decide _); [|done]. by destruct (drop_rx_state c0). }
    assert (length data = length l) as Hdl by (unfold data; by rewrite length_drop_entry).
    apply lookup_app_Some in Hf as [Hf|[Hl Hf]].
    + rewrite lookup_app_l in Hc0.
      2: { apply lookup_lt_Some in Hf. rewrite length_map in Hf. lia. }
      by eapply drop_tx_feed.
    + rewrite length_map in *. apply list_lookup_singleton_Some in Hf as [Hz <-].
      rewrite lookup_app_r, Hdl, Hz in Hc0 by lia. injection Hc0 as <-. by destruct new_state as (_ & ? & _).
Qed.

Lemma fd_same g l m' hs got : fd_inv g l ->
  stream_senders (mx_state m') = stream_senders (mx_state (tr_mux g)) ->
  length (mx_data m') = length (mx_data (tr_mux g)) ->
  (forall k c, mx_data m' !! k = Some c -> exists c0, mx_data (tr_mux g) !! k = Some c0 /\ tx_alive c = tx_alive c0) ->
  fd_inv (mkTrace m' hs (tr_owner g) (tr_fed g) got) l.
Proof.
  intros [H1 H2 H3 H4 H5] Hs Hl Hd. split; cbn; [done|done|congruence|by rewrite Hs|].
  intros k f c Hf Hc. destruct (Hd k c Hc) as (c0 & Hc0 & ->). by eapply H5.
Qed.

Lemma fd_data g l sid data : fd_inv g l ->
  fd_inv (mx_exec (MxData sid data) g) (map (add_feed sid data) l).
Proof.
  intros Hi. assert (Hsnd : stream_senders (mx_state (on_data (tr_mux g) sid data)) =
    stream_senders (mx_state (tr_mux g))) by by destruct data.
  assert (Hdata : forall k c, mx_data (on_data (tr_mux g) sid data) !! k = Some c ->
    exists c0, mx_data (tr_mux g) !! k = Some c0 /\ tx_alive c = tx_alive c0).
  { intros k c. destruct data as [|x data]; [by eauto|]. cbn. intros Hc.
    destruct (lookup_lt_is_Some_2 (mx_data (tr_mux g)) k) as [c0 Hc0].
    { apply lookup_lt_Some in Hc. by rewrite length_drop_entry in Hc. }
    exists c0. split; [done|]. rewrite (drop_entry_lookup _ _ _ k c0 Hc0) in Hc. injection Hc as <-.
    destruct (decide _); [|done]. destruct (rx_alive c0) eqn:Er.
    - by destruct (send_ok c0 (x :: data) Er) as (_ & _ & ? & _).
    - by rewrite (send_err c0 (x :: data) Er). }
  split; cbn [mx_exec tr_fed tr_owner tr_mux].
  - rewrite (fi_fed g l Hi). apply list_eq. intros k.
    transitivity ((fun f => fd_bytes (add_feed sid data f)) <$> l !! k).
    2: { rewrite map_map. symmetry. apply list_lookup_fmap. }
    assert (Hmap : map fd_bytes l !! k = fd_bytes <$> l !! k) by apply list_lookup_fmap.
    destruct (stream_senders (mx_state (tr_mux g)) !! sid) as [j|] eqn:Ej.
    + pose proof Ej as Ej'. apply (fi_senders g l Hi) in Ej' as (f & Hf & Hsid & Ho).
      destruct (decide (j = k)) as [->|Hne].
      * rewrite list_lookup_alter_eq, Hmap, Hf. cbn. unfold add_feed. by rewrite Hsid, Z.eqb_refl, Ho.
      * rewrite list_lookup_alter_ne, Hmap by done. destruct (l !! k) as [f'|] eqn:Ef; [|done]. cbn. f_equal.
        unfold add_feed. destruct ((fd_sid f' =? sid) && fd_open f') eqn:E; [|done].
        apply andb_true_iff in E as [E1 E2]. cmp_facts.
        assert (Some j = Some k) as [= ->]; [|done]. rewrite <- Ej. apply (fi_senders g l Hi). by exists f'.
    + rewrite Hmap. destruct (l !! k) as [f'|] eqn:Ef; [|done]. cbn. f_equal.
      unfold add_feed. destruct ((fd_sid f' =? sid) && fd_open f') eqn:E; [|done].
      apply andb_true_iff in E as [E1 E2]. cmp_facts.
      assert (stream_senders (mx_state (tr_mux g)) !! sid = Some k); [|congruence]. apply (fi_senders g l Hi). by exists f'.
  - rewrite (fi_owner g l Hi), map_map. apply map_ext. intros f. unfold add_feed. by destruct (_ && _).
  - rewrite length_map, <- (fi_len g l Hi). destruct data; [done|]. apply length_drop_entry.
  - intros x k. rewrite Hsnd, (fi_senders g l Hi). split.
    + intros (f & H1 & H2 & H3). exists (add_feed sid data f). split; [by apply list_lookup_fmap_Some; exists f|].
      unfold add_feed. by destruct (_ && _).
    + intros (f & (f0 & -> & H1)%list_lookup_fmap_Some & H2 & H3). exists f0. split; [done|].
      unfold add_feed in *. destruct ((fd_sid f0 =? sid) && fd_open f0) eqn:E; [|done].
      apply andb_true_iff in E as [_ E]. done.
  - intros k f c (f0 & -> & Hf)%list_lookup_fmap_Some Hc. destruct (Hdata k c Hc) as (c0 & Hc0 & ->).
    rewrite (fi_tx g l Hi k f0 c0 Hf Hc0). unfold add_feed.
    destruct ((fd_sid f0 =? sid) && fd_open f0) eqn:E; [|done]. by apply andb_true_iff in E as [_ E].
Qed.

Lemma poll_read_tx s (c : chan) n : tx_alive (poll_read s c n).1.2 = tx_alive c.
Proof.
  unfold poll_read. destruct (sm_read_buf s) as [|x l]; [|done].
  destruct (items c) as [|b l] eqn:Ei.
  - rewrite (recv_empty c Ei). by destruct (tx_alive c) eqn:E; cbn; rewrite ?E.
  - destruct (recv_item c b l Ei) as (_ & _ & H & _). destruct (chan_recv c) as [c' []]; done.
Qed.

Lemma accept_keeps m : let '(m', _) := accept_stream m in
  stream_senders (mx_state m') = stream_senders (mx_state m) /\ mx_data m' = mx_data m.
Proof.
  unfold accept_stream. destruct (sem_acquire _); [|done|done]. cbn [mx_state set_mx_sem].
  destruct (pending_streams _); [done|]. by destruct (pending_receivers _ !! _).
Qed.

Lemma fd_step g l op : fd_inv g l -> fd_inv (mx_exec op g) (feed_step l op).
Proof.
  intros Hi. destruct op as [sid|sid|sid data|sid| | |h n]; cbn [feed_step].
  - cbn. apply fd_start; [done| |done]. by exists None.
  - apply fd_start; [done| |done]. by eexists.
  - by apply fd_data.
  - by apply fd_end.
  - apply fd_same; eauto.
  - cbn [mx_exec]. pose proof (accept_keeps (tr_mux g)) as Ha.
    destruct (accept_stream (tr_mux g)) as [m' a]. destruct Ha as [Hs Hd].
    destruct a; (apply fd_same; [done|done|by rewrite Hd|rewrite Hd; eauto]).
  - cbn [mx_exec]. destruct (tr_handles g !! h) as [s|]; [|done].
    destruct (mx_data (tr_mux g) !! sm_data_rx s) as [c|] eqn:Ec; [|done].
    pose proof (poll_read_tx s c n) as Ht. destruct (poll_read s c n) as [[s' c'] r].
    apply fd_same; [done|done|apply length_insert|]. intros k c1 Hk.
    apply list_lookup_insert_Some in Hk as [(<- & <- & _)|[_ Hk]]; eauto.
Qed.

Lemma mx_run_feeds ops : fd_inv (mx_run ops) (feeds ops).
Proof.
  unfold mx_run, feeds. assert (H0 : fd_inv Trace_new []).
  { split; cbn; try done. intros sid k. rewrite lookup_empty. split; [done|]. by intros (f & ? & _). }
  revert H0. generalize Trace_new. generalize (@nil Feed).
  induction ops as [|op ops IH]; intros l g Hg; cbn [fold_left]; [done|]. by apply IH, fd_step.
Qed.

(** C19: Delivery.  Through any interleaving of streams opened by either side,
    data, ends of stream, [accept] calls and reads with any buffer sizes, the
    bytes a handle's reader was given, those it buffered and those in its
    channel are, in order, exactly the bytes fed to one feed of its stream id:
    the data that the operations gave for that id from one opening or
    announcement to the stream's end or the next announcement.  None is lost
    before [accept].  A read with room in its buffer returns nothing exactly
    when every byte was read and the feed has ended. *)
Theorem mux_delivers ops h s :
  tr_handles (mx_run ops) !! h = Some s ->
  exists got o fed c,
    tr_got (mx_run ops) !! h = Some got
    /\ feeds ops !! sm_data_rx s = Some (mkFeed (sm_sid s) o fed)
    /\ mx_data (tr_mux (mx_run ops)) !! sm_data_rx s = Some c
    /\ fed = got ++ sm_read_buf s ++ concat (items c)
    /\ (forall n, (0 < n)%nat -> (poll_read s c n).2 = ReadReady [] <-> got = fed /\ o = false).
Proof.
  intros Hs. pose proof (mx_run_inv ops) as Hi. pose proof (mx_run_feeds ops) as Hl.
  generalize dependent (feeds ops). generalize dependent (mx_run ops). intros g Hs Hi l Hl.
  destruct (lookup_lt_is_Some_2 (tr_got g) h) as [b Hb].
  { rewrite (ti_got g Hi). by eapply lookup_lt_Some. }
  destruct (ti_reader g Hi _ _ _ (reader_handle g h s b Hs Hb)) as (Ho & c & Hc & _ & Hne & Hf).
  rewrite (fi_fed g l Hl) in Hf. apply list_lookup_fmap_Some in Hf as ([x o fed] & Hfd & Hf). cbn in Hfd. subst fed.
  rewrite (fi_owner g l Hl) in Ho. apply list_lookup_fmap_Some in Ho as (f & Hx & Hf'). rewrite Hf in Hf'.
  injection Hf' as <-. cbn in Hx. subst x.
  pose proof (fi_tx g l Hl _ _ c Hf Hc) as Htx. cbn in Htx. subst o.
  eexists b, _, _, c. split_and!; [done|done|done|by rewrite app_assoc|].
  intros n Hn. split.
  - intros Hr. destruct (poll_read s c n) as [[s' c'] r] eqn:Ep. cbn in Hr. subst r.
    destruct (poll_read_spec s c n s' c' _ Ep Hne) as (_ & _ & _ & He).
    destruct (He eq_refl Hn) as (-> & -> & ->). cbn. by rewrite !app_nil_r.
  - intros [He Ht]. rewrite <- app_assoc, <- (app_nil_r b) in He at 1. apply app_inv_head in He. symmetry in He.
    apply app_eq_nil in He as [Hbuf Hcat]. unfold poll_read. rewrite Hbuf, (recv_empty c), Ht; [done|].
    destruct (items c) as [|y l0] eqn:Ei; [done|]. apply app_eq_nil in Hcat as [-> _].
    by destruct (Hne [] ltac:(rewrite Ei; by left)).
Qed.

(** A closed connection does not end its streams: [Closed] ends the event loop
    without removing the senders, so a reader that has read everything stays
    pending, and with it whatever waits for it. *)
Theorem closed_reader_pending m s c n :
  mx_data m !! sm_data_rx s = Some c -> tx_alive c = true -> items c = [] -> sm_read_buf s = [] ->
  mx_data (on_closed m) !! sm_data_rx s = Some c /\ mx_running (on_closed m) = false
  /\ poll_read s c n = (s, c, ReadPending).
Proof.
  intros Hc Ht Hi Hb. split; [done|]. split; [done|]. unfold poll_read. by rewrite Hb, (recv_empty c Hi), Ht.
Qed.

End Delivery.

(** ** The end of a stream that overtakes its data *)

Section Overtake.
Context {C : Crypto} {X : X25519} {K : Kem} {D : MlDsa} {H : PlainHash} {N : Noise} {M : Libm}.
Context {T : Type} {CC : CongestionControl T} {P : Mpsc} {Q : Semaphore} {L : MpscLaws P}.
Implicit Types c : Connection (T := T).

(** A turn of the loop over [DataAvailable], in terms of the stream. *)
Lemma data_turn m c out s sid st st' data n :
  cn_session c = Some s -> ss_streams s !! sid = Some st -> Stream_read st [] (Z.to_nat 65536) = Some (st', data, n) ->
  event_turn m (EvDataAvailable sid) (c, out)
  = Done (on_data m sid data) (set_cn_session c (Some (set_ss_streams s (<[sid := st']> (ss_streams s)))), out).
Proof.
  intros Hs Hst Hr. unfold event_turn, writer_read. unfold bind, get. cbn [fst]. rewrite Hs.
  unfold lift_panic, Session_read. rewrite Hst, Hr. done.
Qed.

Lemma loop_turn ev rest m m' (st st' : St (T := T)) :
  mx_running m = true -> event_turn m ev st = Done m' st' -> event_loop (ev :: rest) m st = event_loop rest m' st'.
Proof. intros Hr He. cbn [event_loop]. rewrite Hr. unfold bind. by rewrite He. Qed.

(** A stream of which only the end is known, and what it does with its data. *)
Definition ended_stream (sid n : Z) : Stream := (Stream_receive (Stream_new sid) n [] true).1.

Lemma ended_stream_read sid n max : Stream_read (ended_stream sid n) [] max = Some (ended_stream sid n, [], 0%nat).
Proof. unfold Stream_read, ended_stream. cbn. by destruct max. Qed.

Lemma late_data_read sid (d : list byte) :
  d <> [] -> Z.of_nat (length d) <= 1386 ->
  exists st st',
    Stream_receive (ended_stream sid (Z.of_nat (length d))) 0 d false = (st, Ok tt)
    /\ Stream_is_recv_finished st = false
    /\ Stream_read st [] (Z.to_nat 65536) = Some (st', d, length d)
    /\ st_recv_offset st' = Z.of_nat (length d).
Proof.
  intros Hd Hl. assert (Hpos : 0 < Z.of_nat (length d)) by (destruct d; [done|cbn; lia]).
  assert (Hw : wrapping_add 64 0 (Z.of_nat (length d)) = Z.of_nat (length d)).
  { unfold wrapping_add, wrap. apply Z.mod_small. lia. }
  assert (Hw0 : wrapping_add 64 (Z.of_nat (length d)) 0 = Z.of_nat (length d)).
  { unfold wrapping_add, wrap. rewrite Z.add_0_r. apply Z.mod_small. lia. }
  unfold Stream_receive, ended_stream. cbn [Stream_receive fst Stream_new set_recv st_recv_offset st_recv_max_data].
  rewrite Hw. destruct d as [|b d]; [done|]. set (l := b :: d) in *.
  rewrite (proj2 (Z.leb_gt _ 0)) by lia. unfold DEFAULT_WINDOW. rewrite (proj2 (Z.ltb_ge _ _)) by lia.
  do 2 eexists. split; [reflexivity|]. split.
  { unfold Stream_is_recv_finished. cbn [st_fin_received st_recv_offset set_recv].
    change (Z.of_nat (length (@nil byte))) with 0. rewrite Hw0. apply Z.leb_gt. lia. }
  assert (Hstep : forall max, (length l < max)%nat ->
    read_loop [(0, l)] 0 0 max [] = Some ([], Z.of_nat (length l), length l, l)).
  { intros [|max] Hmax; [lia|]. cbn [read_loop]. change (0 <? S max)%nat with true. cbn iota.
    change (0 <? 0) with false. cbn iota. change (Z.to_nat (0 - 0)) with 0%nat.
    change (length l <? 0)%nat with false. cbn iota. rewrite Nat.sub_0_r, (drop_0 l).
    rewrite Nat.min_l, Hw by lia.
    cbn [app Nat.add]. rewrite take_ge by done. by destruct (length l <? S max)%nat. }
  unfold Stream_read. cbn [st_recv_buf st_recv_offset set_recv om_insert Stream_new].
  rewrite (Hstep (Z.to_nat 65536)) by lia. split; done.
Qed.

(** The end of a stream overtakes its data.  The peer opens a stream, writes
    one chunk and closes it; the packet with the end arrives first and the event
    loop handles it before the packet with the chunk comes.  The session then
    accepts the chunk and the multiplexer reads it out of the session, but the
    reader's channel has ended empty: the stream reads as complete and empty,
    and the acknowledged bytes are gone. *)
Theorem early_fin_truncates c out s m sid (d : list byte) :
  cn_session c = Some s -> mx_running m = true ->
  stream_senders (mx_state m) !! sid = None -> pending_receivers (mx_state m) !! sid = None ->
  is_u32 sid -> ss_streams s !! sid = None ->
  sid mod 2 <> Role_local_parity (ss_role s) -> streams_full s = false ->
  d <> [] -> Z.of_nat (length d) <= 1386 ->
  exists s1 evs1 c1 m1 s1' s2 evs2 c2 m2,
    Session_handle_data_frame s (stream_frame true sid (Z.of_nat (length d)) []) = (s1, Ok evs1)
    /\ event_loop evs1 m (set_cn_session c (Some s1), out) = Done m1 (c1, out)
    /\ cn_session c1 = Some s1'
    /\ Session_handle_data_frame s1' (stream_frame false sid 0 d) = (s2, Ok evs2)
    /\ event_loop evs2 m1 (set_cn_session c1 (Some s2), out) = Done m2 (c2, out)
    /\ (exists s' st, cn_session c2 = Some s' /\ ss_streams s' !! sid = Some st
         /\ st_recv_offset st = Z.of_nat (length d))
    /\ (exists k ch, pending_receivers (mx_state m2) !! sid = Some k /\ mx_data m2 !! k = Some ch
         /\ poll_read (mkSeamStream sid None k []) ch 4096 = (mkSeamStream sid None k [], ch, ReadReady [])).
Proof.
  intros Hs Hrun Hse Hpe Hu Hst Hpar Hfull Hd Hl.
  assert (Hpos : 0 < Z.of_nat (length d)) by (destruct d; [done|cbn; lia]).
  destruct (late_data_read sid d Hd Hl) as (st & st' & R1 & R2 & R3 & R4).
  pose proof (handle_stream_frame_events s true sid (Z.of_nat (length d)) [] Hu ltac:(unfold is_u; lia)
    ltac:(cbn; lia) ltac:(by rewrite Hst)) as F1.
  rewrite Hst in F1. cbn [default from_option id] in F1.
  change (Stream_receive (Stream_new sid) (Z.of_nat (length d)) [] true)
    with (ended_stream sid (Z.of_nat (length d)), Ok tt : Result unit SeamError) in F1.
  cbv beta iota zeta in F1. set (fs := ended_stream sid (Z.of_nat (length d))) in *.
  match type of F1 with _ = (?x, Ok ?e) => set (s1 := x) in F1; set (evs1 := e) in F1 end.
  assert (Hs1 : ss_streams s1 !! sid = Some fs) by apply lookup_insert_eq.
  assert (E1 : evs1 = [EvNewStream sid; EvDataAvailable sid; EvStreamFinished sid]).
  { unfold evs1, frame_events. by rewrite Hst. }
  set (s1' := set_ss_streams s1 (<[sid := fs]> (ss_streams s1))).
  set (c1 := set_cn_session (set_cn_session c (Some s1)) (Some s1')).
  set (m1 := on_finished (on_new_stream m sid) sid).
  assert (L1 : event_loop evs1 m (set_cn_session c (Some s1), out) = Done m1 (c1, out)).
  { rewrite E1. rewrite (loop_turn _ _ m (on_new_stream m sid) _ (set_cn_session c (Some s1), out)) by done.
    rewrite (loop_turn _ _ (on_new_stream m sid) (on_new_stream m sid) _ (c1, out)); [|done|].
    - by rewrite (loop_turn _ _ (on_new_stream m sid) m1 _ (c1, out)).
    - by apply (data_turn (on_new_stream m sid) (set_cn_session c (Some s1)) out s1 sid fs fs [] 0),
        ended_stream_read. }
  assert (Hs1' : ss_streams s1' !! sid = Some fs) by apply lookup_insert_eq.
  pose proof (handle_stream_frame_events s1' false sid 0 d Hu ltac:(unfold is_u; lia) ltac:(lia)
    ltac:(by rewrite Hs1')) as F2.
  rewrite Hs1' in F2. cbn [default from_option id] in F2. fold fs in R1. rewrite R1 in F2.
  match type of F2 with _ = (?x, Ok ?e) => set (s2 := x) in F2; set (evs2 := e) in F2 end.
  assert (E2 : evs2 = [EvDataAvailable sid]).
  { unfold evs2, frame_events. by rewrite Hs1', R2. }
  assert (Hs2 : ss_streams s2 !! sid = Some st) by apply lookup_insert_eq.
  assert (Hnone : on_data m1 sid d = m1).
  { unfold on_data. destruct d; [done|]. cbn. rewrite lookup_delete_eq. by destruct m. }
  assert (L2 : event_loop evs2 m1 (set_cn_session c1 (Some s2), out)
    = Done m1 (set_cn_session (set_cn_session c1 (Some s2)) (Some (set_ss_streams s2 (<[sid := st']> (ss_streams s2)))), out)).
  { rewrite E2. rewrite (loop_turn _ _ m1 m1 _
      (set_cn_session (set_cn_session c1 (Some s2)) (Some (set_ss_streams s2 (<[sid := st']> (ss_streams s2)))), out));
      [done|done|].
    rewrite (data_turn m1 (set_cn_session c1 (Some s2)) out s2 sid st st' d (length d) eq_refl Hs2 R3).
    by rewrite Hnone. }
  exists s1, evs1, c1, m1, s1', s2, evs2. do 2 eexists. split_and!; [exact F1|exact L1|done|exact F2|exact L2| |].
  - do 2 eexists. split; [done|]. split; [apply lookup_insert_eq|done].
  - exists (length (mx_data m)), (chan_drop_tx chan_new). split; [apply lookup_insert_eq|].
    destruct new_state as (N1 & N2 & N3). destruct (drop_tx_state chan_new) as (D1 & D2 & D3). split.
    + cbn. rewrite lookup_insert_eq, Hse, Hpe. cbn [drop_entry]. rewrite list_lookup_alter_eq.
      by rewrite list_lookup_middle.
    + unfold poll_read. cbn [sm_read_buf]. by rewrite (recv_empty (chan_drop_tx chan_new)), D2 by congruence.
Qed.

End Overtake.

(** ** Witnesses *)

(** The channel and the semaphore as a list and a counter. *)
#[export] Instance list_mpsc : Mpsc := {|
  chan := list (list byte) * bool * bool;
  chan_new := ([], true, true);
  chan_send c b := let '(l, t, r) := c in if r then ((l ++ [b], t, r), true) else (c, false);
  chan_recv c := let '(l, t, r) := c in
    match l with
    | b :: l => ((l, t, r), RecvItem b)
    | [] => (c, if t then RecvPending else RecvClosed)
    end;
  chan_drop_tx c := let '(l, t, r) := c in (l, false, r);
  chan_drop_rx c := let '(l, t, r) := c in (l, t, false)
|}.

#[export, refine] Instance list_mpsc_laws : MpscLaws list_mpsc := {|
  items c := c.1.1; tx_alive c := c.1.2; rx_alive c := c.2
|}.
Proof.
  - done.
  - by intros [[l t] r] b [= ->].
  - by intros [[l t] r] b [= ->].
  - by intros [[l t] r] b l' [= ->].
  - by intros [[l t] r] [= ->].
  - by intros [[l t] r].
  - by intros [[l t] r].
Defined.

#[export] Instance nat_semaphore : Semaphore := {|
  sem := nat * bool;
  sem_new n := (n, false);
  sem_add_permits s n := ((s.1 + n)%nat, s.2);
  sem_acquire s := if s.2 then AcquireError else match s.1 with O => AcquirePending | S n => Acquired (n, false) end;
  sem_close s := (s.1, true)
|}.

#[export, refine] Instance nat_semaphore_laws : SemaphoreLaws nat_semaphore := {|
  permits s := s.1; sem_closed s := s.2
|}.
Proof.
  - done.
  - done.
  - by intros [n c] [= ->].
  - by intros [n c] [= ->] [= ->].
  - intros [n c] k [= ->] [= ->]. by exists (k, false).
  - done.
Defined.

(** Data arrives before the stream is accepted, and is read in two pieces. *)
Definition test_ops : list MxOp :=
  [MxNew 1; MxData 1 [x61; x62; x63]; MxAccept; MxRead 0 2; MxData 1 [x64]; MxFinished 1].

Lemma mux_delivers_witness :
  exists s, tr_handles (mx_run test_ops) !! 0%nat = Some s
    /\ exists got c, tr_got (mx_run test_ops) !! 0%nat = Some got
       /\ [x61; x62; x63; x64] = got ++ sm_read_buf s ++ concat (items c)
       /\ got = [x61; x62] /\ sm_read_buf s = [x63] /\ sm_sid s = 1.
Proof.
  assert (Hh : tr_handles (mx_run test_ops) !! 0%nat = Some (mkSeamStream 1 (Some 0%nat) 0 [x63]))
    by (vm_compute; reflexivity).
  exists (mkSeamStream 1 (Some 0%nat) 0 [x63]). split; [exact Hh|].
  destruct (mux_delivers test_ops 0 (mkSeamStream 1 (Some 0%nat) 0 [x63]) Hh)
    as (got & o & fed & c & H1 & Hf & _ & H2 & _).
  assert (Hfed : fed = [x61; x62; x63; x64]) by (vm_compute in Hf; by injection Hf as _ <-).
  exists got, c. split; [exact H1|]. split; [by rewrite <- Hfed|].
  vm_compute in H1. injection H1 as <-. repeat split.
Defined.

Lemma closed_reader_pending_witness :
  poll_read (mkSeamStream 1 (Some 0%nat) 0 []) chan_new 8 = (mkSeamStream 1 (Some 0%nat) 0 [], chan_new, ReadPending).
Proof.
  apply (closed_reader_pending (on_new_stream SeamMux_new 1) (mkSeamStream 1 (Some 0%nat) 0 []) chan_new 8);
    reflexivity.
Defined.

Lemma early_fin_truncates_witness :
  exists s2 evs2 c2 m1 m2 (c1 : Connection (T := Aimd)),
    event_loop evs2 m1 (set_cn_session c1 (Some s2), []) = Done m2 (c2, [])
    /\ exists k ch, pending_receivers (mx_state m2) !! 2 = Some k /\ mx_data m2 !! k = Some ch
       /\ poll_read (mkSeamStream 2 None k []) ch 4096 = (mkSeamStream 2 None k [], ch, ReadReady []).
Proof.
  destruct (early_fin_truncates (test_live 0) [] demo_written SeamMux_new 2 [x61; x62; x63])
    as (s1 & evs1 & c1 & m1 & s1' & s2 & evs2 & c2 & m2 & _ & _ & _ & _ & H5 & _ & H7);
    [reflexivity|reflexivity|reflexivity|reflexivity|unfold is_u; lia|vm_compute; reflexivity
    |vm_compute; discriminate|vm_compute; reflexivity|discriminate|cbn; lia|].
  exists s2, evs2, c2, m1, m2, c1. split; [exact H5|exact H7].
Defined.
