(* ===== verification/Proc.v ===== *)
(** * Two programs talking over a stream of frames

    The command-line protocols run one program on each side of a control stream:
    each side sends frames, waits for frames, and works on its own files.  A
    program is a value of [IO]; two of them and the frames in transit make a
    system, which does not depend on the order in which the sides run. *)

From Stdlib Require Import ZArith Lia Bool List String.
From Stdlib Require Import Strings.Byte.
From stdpp Require Import base list numbers option relations gmap.
From S2P Require Import Prelude.

(** ** Processes *)

Inductive Proc (A : Type) : Type :=
  | PRet (a : A)
  | PSend (f : list byte) (k : Proc A)
  | PRecv (k : list byte -> Proc A)
  | PFuel.                                  (* the bound of a loop was reached *)
Arguments PRet {A} a.
Arguments PSend {A} f k.
Arguments PRecv {A} k.
Arguments PFuel {A}.

Fixpoint pbind {A B} (p : Proc A) (k : A -> Proc B) : Proc B :=
  match p with
  | PRet a => k a
  | PSend f p => PSend f (pbind p k)
  | PRecv g => PRecv (fun f => pbind (g f) k)
  | PFuel => PFuel
  end.

(** ** Two sides *)

Record Sys (A B : Type) : Type := mkSys {
  sy_left : Proc A;
  sy_right : Proc B;
  sy_lr : list (list byte);                 (* in transit to the right *)
  sy_rl : list (list byte)
}.
Arguments mkSys {A B}.
Arguments sy_left {A B}.
Arguments sy_right {A B}.
Arguments sy_lr {A B}.
Arguments sy_rl {A B}.

Inductive step {A B} : Sys A B -> Sys A B -> Prop :=
  | step_lsend f p q lr rl : step (mkSys (PSend f p) q lr rl) (mkSys p q (lr ++ [f]) rl)
  | step_lrecv g q lr f rl : step (mkSys (PRecv g) q lr (f :: rl)) (mkSys (g f) q lr rl)
  | step_rsend f p q lr rl : step (mkSys p (PSend f q) lr rl) (mkSys p q lr (rl ++ [f]))
  | step_rrecv g p f lr rl : step (mkSys p (PRecv g) (f :: lr) rl) (mkSys p (g f) lr rl).

Definition runs {A B} : Sys A B -> Sys A B -> Prop := rtc step.

(** Neither side can go on. *)
Definition halted {A B} (s : Sys A B) : Prop := nf step s.

(** Two different steps are steps of different sides, and commute. *)
Lemma step_diamond {A B} (s s1 s2 : Sys A B) :
  step s s1 -> step s s2 -> s1 = s2 \/ exists s3, step s1 s3 /\ step s2 s3.
Proof.
  intros H1 H2. inversion H1; subst; inversion H2; subst; try (by left); right;
    eexists; (split; [|constructor]); try constructor.
Qed.

Lemma runs_step {A B} (s s1 s2 : Sys A B) :
  runs s s2 -> halted s2 -> step s s1 -> runs s1 s2.
Proof.
  intros Hr. revert s1. induction Hr as [s|s x s2 Hs Hr IH]; intros s1 Hh H1.
  - exfalso. apply Hh. by exists s1.
  - destruct (step_diamond s s1 x H1 Hs) as [->|(s3 & H13 & Hx3)]; [done|].
    eapply rtc_l; [exact H13|]. by apply IH.
Qed.

(** Whatever the order of the steps, a system that can halt ends there. *)
Lemma runs_halted_unique {A B} (s s1 s2 : Sys A B) :
  runs s s1 -> halted s1 -> runs s s2 -> runs s2 s1.
Proof. intros H1 Hh H2. induction H2 as [s|s x s2 Hs H2 IH]; [done|]. apply IH. by eapply runs_step. Qed.

Lemma runs_deterministic {A B} (s s1 s2 : Sys A B) :
  runs s s1 -> halted s1 -> runs s s2 -> halted s2 -> s1 = s2.
Proof.
  intros H1 N1 H2 N2. pose proof (runs_halted_unique s s1 s2 H1 N1 H2) as Hr.
  inversion Hr as [|x y z Hs]; [done|]. exfalso. apply N2. by eexists.
Qed.

Lemma halted_done {A B} (a : A) (b : B) lr rl : halted (mkSys (PRet a) (PRet b) lr rl).
Proof. intros [s Hs]. inversion Hs. Qed.

Lemma halted_deadlock {A B} (f : list byte -> Proc A) (g : list byte -> Proc B) :
  halted (mkSys (PRecv f) (PRecv g) [] []).
Proof. intros [s Hs]. inversion Hs. Qed.

Lemma halted_waiting {A B} (f : list byte -> Proc A) (b : B) lr : halted (mkSys (PRecv f) (PRet b) lr []).
Proof. intros [s Hs]. inversion Hs. Qed.

(** ** Sequencing *)

Lemma step_bind {A B A' B'} (k : A -> Proc A') (l : B -> Proc B') s s' :
  step s s' ->
  step (mkSys (pbind (sy_left s) k) (pbind (sy_right s) l) (sy_lr s) (sy_rl s))
       (mkSys (pbind (sy_left s') k) (pbind (sy_right s') l) (sy_lr s') (sy_rl s')).
Proof. destruct 1; cbn; [apply step_lsend|apply (step_lrecv (fun f => pbind (g f) k))|apply step_rsend
  |apply (step_rrecv (fun f => pbind (g f) l))]. Qed.

(** When the first parts of both sides finish, the rest goes on from there. *)
Lemma runs_bind {A B A' B'} (p : Proc A) (q : Proc B) lr rl a b lr' rl' (k : A -> Proc A') (l : B -> Proc B') :
  runs (mkSys p q lr rl) (mkSys (PRet a) (PRet b) lr' rl') ->
  runs (mkSys (pbind p k) (pbind q l) lr rl) (mkSys (k a) (l b) lr' rl').
Proof.
  intros Hr. remember (mkSys p q lr rl) as s eqn:Es. remember (mkSys (PRet a) (PRet b) lr' rl') as s' eqn:Es'.
  assert (Hg : runs (mkSys (pbind (sy_left s) k) (pbind (sy_right s) l) (sy_lr s) (sy_rl s))
                 (mkSys (pbind (sy_left s') k) (pbind (sy_right s') l) (sy_lr s') (sy_rl s'))).
  { clear Es Es'. induction Hr as [s|s x y Hs _ IH]; [apply rtc_refl|].
    eapply rtc_l; [apply step_bind, Hs|exact IH]. }
  by subst.
Qed.

(** ** Programs with files *)

#[export] Instance bytes_eq_dec : EqDecision (list byte) := list_eq_dec.
#[export] Instance bytes_countable : Countable (list byte) := list_countable.

(** File contents by path, relative to the directory a command works in. *)
Abbreviation Files := (gmap (list byte) (list byte)).

Definition IO (A : Type) : Type := Files -> Proc (Files * (A + string)).

Definition ioret {A} (a : A) : IO A := fun fs => PRet (fs, inl a).
Definition bail {A} (msg : string) : IO A := fun fs => PRet (fs, inr msg).
Definition iobind {A B} (m : IO A) (k : A -> IO B) : IO B := fun fs =>
  pbind (m fs) (fun r => match r.2 with inl a => k a r.1 | inr e => PRet (r.1, inr e) end).
Definition io_send (f : list byte) : IO unit := fun fs => PSend f (PRet (fs, inl tt)).
Definition io_recv : IO (list byte) := fun fs => PRecv (fun f => PRet (fs, inl f)).
Definition get_files : IO Files := fun fs => PRet (fs, inl fs).
Definition put_files (fs' : Files) : IO unit := fun _ => PRet (fs', inl tt).
Definition io_fuel {A} : IO A := fun _ => PFuel.
Definition io_of {A} (o : option A) (msg : string) : IO A :=
  match o with Some a => ioret a | None => bail msg end.

Declare Scope io_scope.
Delimit Scope io_scope with io.
Notation "'do' x ':=' m 'in' k" := (iobind m (fun x => k))
  (at level 10, x name, m at level 100, k at level 200) : io_scope.
Notation "m ;; k" := (iobind m (fun _ => k)) : io_scope.

(** The runs of programs are computed one message at a time. *)
Ltac io := unfold iobind; cbn [pbind ioret io_send io_recv get_files put_files io_of bail fst snd app].
