(* ===== verification/Frames.v ===== *)
(** * Frames of the command-line protocols

    src/src/bin/seam/proto.rs: length-prefixed frames over a stream.  [read_frame]
    reassembles them from whatever pieces the stream delivers. *)

From Stdlib Require Import ZArith Lia Bool List String.
From Stdlib Require Import Strings.Byte.
From stdpp Require Import base list numbers option pretty gmap.
From S2P Require Import Prelude Packet Crypto TestCrypto PacketCodec Float Cc Datagram Stream Session Ratchet.
From S2P Require Import Resumption Cookie Stun Probe Identity Handshake Net Tar Connection.
From S2P Require Import Ordered Delivery SessionProps ConnectionProps Endpoint Api.

Open Scope Z_scope.

Definition HELLO : byte := x01.
Definition FILE_INFO : byte := x02.
Definition DATA : byte := x03.
Definition DONE : byte := x04.
Definition ACK : byte := x05.
Definition RESUME : byte := x06.
Definition LS : byte := x07.
Definition ENTRY : byte := x08.
Definition CHECKSUM : byte := x09.
Definition PARALLEL_INIT : byte := x0a.
Definition CHUNK_INFO : byte := x0b.
Definition BYE : byte := x0c.
Definition LS_PATH : byte := x0d.
Definition GET_PATH : byte := x0e.
Definition STAT_PATH : byte := x0f.
Definition TOKEN : byte := xf0.
Definition COMPRESS_NONE : byte := x00.
Definition COMPRESS_ZSTD : byte := x01.

(** [(payload.len() as u32).to_be_bytes()] and the payload. *)
Definition frame_bytes (payload : list byte) : list byte :=
  to_be 4 (wrap 32 (Z.of_nat (length payload))) ++ payload.

(** The test at the head of [read_frame]'s loop: a complete frame and what is
    left of the buffer. *)
Definition take_frame (buf : list byte) : option (list byte * list byte) :=
  if (length buf <? 4)%nat then None
  else
    let len := Z.to_nat (from_be (take 4 buf)) in
    if (length buf <? 4 + len)%nat then None
    else Some (take len (drop 4 buf), drop (4 + len) buf).

Section FramesCode.
Context {C : Crypto} {X : X25519} {K : Kem} {D : MlDsa} {H : PlainHash} {N : Noise} {M : Libm}.
Context {T : Type} {CC : CongestionControl T}.
Local Open Scope act_scope.

(** One attempt of [send_frame] after another; in between, the rest of the
    program works on the connection.  [None]: still blocked. *)
Fixpoint send_frame (tries : list (Env * (Connection (T := T) -> Connection (T := T)))) (sid : Z)
  (payload : list byte) : Act (T := T) (option (unit + SeamError)) :=
  match tries with
  | [] => ret None
  | (env, meanwhile) :: rest => fun s =>
      match conn_write env sid (frame_bytes payload) s with
      | Done _ s' => Done (Some (inl tt)) s'
      | Fail (FlowControlBlocked _ _) s' => send_frame rest sid payload (meanwhile s'.1, s'.2)
      | Fail e s' => Done (Some (inr e)) s'
      | Panic => Panic
      end
  end.

(** What the select of [read_frame] yields: an event of the connection ([None]:
    the channel ended), or the ticker. *)
Inductive ReadInput : Type := InEvent (ev : option SessionEvent) | InTick (env : Env).

Inductive FrameRead : Type :=
  | FrOk (frame buf : list byte) (rest : list ReadInput)
  | FrEnd                                       (* [Ok(None)] of [read_frame_opt] *)
  | FrErr (msg : string)
  | FrWaiting (buf : list byte).

Definition closed_msg (sid : Z) : string := ("stream " ++ pretty sid ++ " closed before frame complete")%string.

(** The two functions differ in what the end of the stream or the connection
    means. *)
Fixpoint read_frame_with (at_end : list byte -> string -> string -> FrameRead) (sid : Z)
  (inputs : list ReadInput) (buf : list byte) : Act (T := T) FrameRead :=
  match take_frame buf with
  | Some (frame, buf') => ret (FrOk frame buf' inputs)
  | None =>
      match inputs with
      | [] => ret (FrWaiting buf)
      | InTick env :: rest => ignore_err (api_tick env) ;; read_frame_with at_end sid rest buf
      | InEvent (Some (EvDataAvailable s)) :: rest =>
          if s =? sid then fun st =>
            match conn_read s (Z.to_nat 65536) st with
            | Done data st' => read_frame_with at_end sid rest (buf ++ data) st'
            | Fail _ st' => Done (FrErr "read") st'
            | Panic => Panic
            end
          else read_frame_with at_end sid rest buf
      | InEvent (Some (EvStreamFinished s)) :: rest =>
          if s =? sid then ret (at_end buf (closed_msg s) (closed_msg s)) else read_frame_with at_end sid rest buf
      | InEvent (Some EvClosed) :: _ | InEvent None :: _ =>
          ret (at_end buf "connection closed" "connection closed before frame complete")
      | InEvent (Some _) :: rest => read_frame_with at_end sid rest buf
      end
  end.

Definition read_frame := read_frame_with (fun _ msg _ => FrErr msg).

Definition read_frame_opt :=
  read_frame_with (fun buf _ msg => match buf with [] => FrEnd | _ => FrErr msg end).

(** The control stream, and the events after it. *)
Fixpoint wait_for_stream (events : list (option SessionEvent)) : option (Z * list (option SessionEvent) + string) :=
  match events with
  | [] => None
  | Some (EvNewStream sid) :: rest => Some (inl (sid, rest))
  | Some EvClosed :: _ | None :: _ => Some (inr "connection closed before stream opened"%string)
  | _ :: rest => wait_for_stream rest
  end.

End FramesCode.

(** * Properties *)

Definition small (p : list byte) : Prop := Z.of_nat (length p) < 2 ^ 32.

Lemma frame_len p : small p -> from_be (to_be 4 (wrap 32 (Z.of_nat (length p)))) = Z.of_nat (length p).
Proof.
  intros Hp. unfold small in Hp. assert (wrap 32 (Z.of_nat (length p)) = Z.of_nat (length p)) as ->.
  { unfold wrap. apply Z.mod_small. lia. }
  apply from_be_to_be_small. unfold is_u. lia.
Qed.

Lemma length_frame_bytes p : length (frame_bytes p) = (4 + length p)%nat.
Proof. unfold frame_bytes. by rewrite length_app, length_to_be. Qed.

Lemma take_frame_bytes p rest : small p -> take_frame (frame_bytes p ++ rest) = Some (p, rest).
Proof.
  intros Hp. unfold take_frame. rewrite length_app, length_frame_bytes.
  rewrite (proj2 (Nat.ltb_ge _ _)) by lia.
  assert (take 4 (frame_bytes p ++ rest) = to_be 4 (wrap 32 (Z.of_nat (length p)))) as ->.
  { unfold frame_bytes. rewrite <- app_assoc. rewrite take_app_le by (rewrite length_to_be; lia).
    apply take_ge. by rewrite length_to_be. }
  rewrite frame_len, Nat2Z.id by done. rewrite (proj2 (Nat.ltb_ge _ _)) by lia. f_equal. f_equal.
  - unfold frame_bytes. rewrite <- app_assoc.
    rewrite (drop_app_length' (to_be 4 _)) by (by rewrite length_to_be). by apply take_app_length'.
  - apply drop_app_length'. by rewrite length_frame_bytes.
Qed.

(** A buffer that ends inside a frame holds no complete frame. *)
Lemma take_frame_prefix p buf more :
  small p -> frame_bytes p = buf ++ more -> more <> [] -> take_frame buf = None.
Proof.
  intros Hp He Hm. assert (Hl : (length buf + length more = 4 + length p)%nat).
  { rewrite <- length_app, <- He. apply length_frame_bytes. }
  assert (Hmore : (0 < length more)%nat) by (destruct more; [done|cbn; lia]).
  unfold take_frame. destruct (length buf <? 4)%nat eqn:E4; [done|]. apply Nat.ltb_ge in E4.
  assert (take 4 buf = to_be 4 (wrap 32 (Z.of_nat (length p)))) as ->.
  { assert (Ht : take 4 (frame_bytes p) = take 4 (buf ++ more)) by (by rewrite He).
    rewrite take_app_le in Ht by done. rewrite <- Ht. unfold frame_bytes.
    rewrite take_app_le by (rewrite length_to_be; lia). apply take_ge. by rewrite length_to_be. }
  rewrite frame_len, Nat2Z.id by done. by rewrite (proj2 (Nat.ltb_lt _ _)) by lia.
Qed.

Section Reassembly.
Context {C : Crypto} {X : X25519} {K : Kem} {D : MlDsa} {H : PlainHash} {N : Noise} {M : Libm}.
Context {T : Type} {CC : CongestionControl T}.
Implicit Types st : St (T := T).

(** The select yields pieces of the stream, ticks and events of no concern, and
    the connection goes from one state to the other. *)
Inductive delivers (sid : Z) : list ReadInput -> St (T := T) -> list (list byte) -> St (T := T) -> Prop :=
  | del_nil st : delivers sid [] st [] st
  | del_data d rest st st1 chunks st2 :
      conn_read sid (Z.to_nat 65536) st = Done d st1 -> delivers sid rest st1 chunks st2 ->
      delivers sid (InEvent (Some (EvDataAvailable sid)) :: rest) st (d :: chunks) st2
  | del_tick env rest st st1 chunks st2 :
      ignore_err (api_tick env) st = Done tt st1 -> delivers sid rest st1 chunks st2 ->
      delivers sid (InTick env :: rest) st chunks st2
  | del_other ev rest st chunks st2 :
      ev <> EvDataAvailable sid -> ev <> EvStreamFinished sid -> ev <> EvClosed ->
      delivers sid rest st chunks st2 -> delivers sid (InEvent (Some ev) :: rest) st chunks st2.

Lemma skip_other at_end sid ev rest buf st :
  take_frame buf = None -> ev <> EvDataAvailable sid -> ev <> EvStreamFinished sid -> ev <> EvClosed ->
  read_frame_with at_end sid (InEvent (Some ev) :: rest) buf st = read_frame_with at_end sid rest buf st.
Proof.
  intros Ht H1 H2 H3. cbn [read_frame_with]. rewrite Ht. destruct ev as [s|s|s| |t| |n|n]; try done.
  - destruct (s =? sid) eqn:E; [|done]. apply Z.eqb_eq in E. by subst.
  - destruct (s =? sid) eqn:E; [|done]. apply Z.eqb_eq in E. by subst.
Qed.

Lemma read_one at_end sid inputs st chunks st' p more :
  delivers sid inputs st chunks st' -> small p -> forall buf,
  buf ++ concat chunks = frame_bytes p ++ more ->
  exists buf' rest chunks' st1,
    read_frame_with at_end sid inputs buf st = Done (FrOk p buf' rest) st1
    /\ delivers sid rest st1 chunks' st' /\ buf' ++ concat chunks' = more.
Proof.
  intros Hd Hp. induction Hd as [st|d rest st st1 chunks st2 Hr Hd IH|env rest st st1 chunks st2 Hr Hd IH
                                |ev rest st chunks st2 H1 H2 H3 Hd IH]; intros buf Hb.
  all: assert (Hcase : (exists buf', buf = frame_bytes p ++ buf') \/ take_frame buf = None).
  1, 3, 5, 7: apply app_eq_inv in Hb as [(k & Hk & _)|(k & Hk & _)]; [by left; exists k|];
    destruct k as [|b k]; [left; exists []; by rewrite app_nil_r in *|right; by eapply take_frame_prefix].
  all: destruct Hcase as [[buf' ->]|Ht].
  1, 3, 5, 7: rewrite <- app_assoc in Hb; apply app_inv_head in Hb; do 4 eexists; split;
    [cbn [read_frame_with]; by rewrite take_frame_bytes|split; [by econstructor|done]].
  - exfalso. cbn [concat] in Hb. rewrite app_nil_r in Hb. by rewrite Hb, take_frame_bytes in Ht.
  - cbn [read_frame_with]. rewrite Ht, Z.eqb_refl, Hr. apply IH. by rewrite <- app_assoc.
  - cbn [read_frame_with]. rewrite Ht. unfold bind. rewrite Hr. by apply IH.
  - rewrite skip_other by done. by apply IH.
Qed.

Local Open Scope act_scope.

(** Frame after frame. *)
Fixpoint read_frames (n : nat) (sid : Z) (inputs : list ReadInput) (buf : list byte)
  : Act (T := T) (option (list (list byte) * list byte * list ReadInput)) :=
  match n with
  | O => ret (Some ([], buf, inputs))
  | S n =>
      do r := read_frame sid inputs buf in
      match r with
      | FrOk p buf' rest =>
          do o := read_frames n sid rest buf' in
          ret (match o with Some (ps, b, i) => Some (p :: ps, b, i) | None => None end)
      | _ => ret None
      end
  end.

(** C21: Framing.  However the stream cuts the bytes of a sequence of frames into
    pieces, and whatever ticks and other events come in between, reading as
    many frames returns exactly those frames in order, and what is buffered or
    still to come afterwards is what followed them. *)
Theorem frames_reassembled sid ps : forall inputs st chunks st' buf more,
  delivers sid inputs st chunks st' -> Forall small ps ->
  buf ++ concat chunks = concat (map frame_bytes ps) ++ more ->
  exists buf' rest chunks' st1,
    read_frames (length ps) sid inputs buf st = Done (Some (ps, buf', rest)) st1
    /\ delivers sid rest st1 chunks' st' /\ buf' ++ concat chunks' = more.
Proof.
  induction ps as [|p ps IH]; intros inputs st chunks st' buf more Hd Hs Hb; cbn in Hb.
  { do 4 eexists. split; [done|]. by split. }
  apply List.Forall_cons_iff in Hs as [Hp Hs]. rewrite <- app_assoc in Hb.
  destruct (read_one (fun _ msg _ => FrErr msg) sid inputs st chunks st' p _ Hd Hp buf Hb)
    as (buf1 & rest1 & chunks1 & st1 & R1 & D1 & B1).
  destruct (IH rest1 st1 chunks1 st' buf1 more D1 Hs B1) as (buf2 & rest2 & chunks2 & st2 & R2 & D2 & B2).
  exists buf2, rest2, chunks2, st2. split; [|by split]. cbn [length read_frames]. unfold bind, read_frame.
  rewrite R1. fold read_frame. by rewrite R2.
Qed.

(** Waiting on one stream loses the others' data: [read_frame] takes every
    event from the connection and drops those of other streams.  Data that
    arrives on a second stream while the first is read stays in the session,
    and a later [read_frame] of the second stream waits for an event that was
    already taken; so it goes with the acknowledgements of a parallel copy when
    they arrive out of order. *)
Theorem other_streams_events_lost sid1 sid2 st d st1 p s stream :
  sid1 <> sid2 -> conn_read sid1 (Z.to_nat 65536) st = Done d st1 -> small p -> d = frame_bytes p ->
  cn_session st.1 = Some s -> ss_streams s !! sid2 = Some stream ->
  read_frame sid1 [InEvent (Some (EvDataAvailable sid2)); InEvent (Some (EvDataAvailable sid1))] [] st
    = Done (FrOk p [] []) st1
  /\ read_frame sid2 [] [] st1 = Done (FrWaiting []) st1
  /\ exists s1, cn_session st1.1 = Some s1 /\ ss_streams s1 !! sid2 = Some stream.
Proof.
  intros Hne Hr Hp -> Hs Hst. unfold read_frame. split; [|split; [done|]].
  - rewrite skip_other; [|done|by intros [= ->]|done|done].
    cbn [read_frame_with take_frame length Nat.ltb Nat.leb]. rewrite Z.eqb_refl, Hr. cbn [app].
    cbn [read_frame_with]. rewrite <- (app_nil_r (frame_bytes p)). by rewrite take_frame_bytes.
  - unfold conn_read, expect_session, bind, get, lift_panic in Hr. rewrite Hs in Hr. cbn in Hr.
    unfold Session_read in Hr. destruct (ss_streams s !! sid1) as [x|] eqn:E1; [|done].
    destruct (Stream_read x [] _) as [[[x' o] n]|]; [|done]. cbn in Hr. injection Hr as _ <-.
    eexists. split; [done|]. cbn. by rewrite lookup_insert_ne.
Qed.

(** What [conn_read] does, in terms of the stream. *)
Lemma conn_read_stream (c : Connection (T := T)) out s sid stream stream' d n max :
  cn_session c = Some s -> ss_streams s !! sid = Some stream -> Stream_read stream [] max = Some (stream', d, n) ->
  conn_read sid max (c, out)
  = Done d (set_cn_session c (Some (set_ss_streams s (<[sid := stream']> (ss_streams s)))), out).
Proof.
  intros Hs Hst Hr. unfold conn_read, expect_session, bind, get, lift_panic. cbn [fst]. rewrite Hs.
  cbn [ret]. unfold Session_read. rewrite Hst, Hr. done.
Qed.

End Reassembly.

(** ** Witnesses *)

(** A stream that received [data], in a session with an untouched stream 1. *)
Definition test_stream (data : list byte) : Stream := (Stream_receive (Stream_new 2) 0 data false).1.

Definition test_received (data : list byte) : Connection (T := Aimd) :=
  set_cn_session (test_live 0)
    (Some (set_ss_streams demo_written {[1 := Stream_new 1; 2 := test_stream data]})).

Definition test_frames : list (list byte) := [[x01; x02]; []; [x03]].

Lemma frames_reassembled_witness :
  exists buf' rest chunks' st1,
    read_frames 3 2 [InEvent (Some EvDatagramReceived); InEvent (Some (EvDataAvailable 2))] []
      (test_received (concat (map frame_bytes test_frames)), [])
    = Done (Some (test_frames, buf', rest)) st1 /\ buf' ++ concat chunks' = [].
Proof.
  destruct (Stream_read (test_stream (concat (map frame_bytes test_frames))) [] (Z.to_nat 65536))
    as [[[st' d] n]|] eqn:E; [|vm_compute in E; discriminate E].
  assert (Hd : d = concat (map frame_bytes test_frames)) by (vm_compute in E; injection E as _ <- _; reflexivity).
  pose proof (conn_read_stream (test_received (concat (map frame_bytes test_frames))) [] _ 2 _ st' d n
    (Z.to_nat 65536) eq_refl eq_refl E) as Hr.
  match type of Hr with _ = Done _ ?x => set (fin := x) in Hr end.
  destruct (frames_reassembled 2 test_frames
    [InEvent (Some EvDatagramReceived); InEvent (Some (EvDataAvailable 2))]
    (test_received (concat (map frame_bytes test_frames)), []) [d] fin [] [])
    as (buf' & rest & chunks' & st2 & H1 & _ & H2).
  - apply del_other; [discriminate|discriminate|discriminate|]. eapply del_data; [exact Hr|]. apply del_nil.
  - repeat constructor.
  - cbn [concat app]. rewrite !app_nil_r. exact Hd.
  - exists buf', rest, chunks', st2. split; [exact H1|exact H2].
Defined.

Lemma other_streams_events_lost_witness :
  exists st1, read_frame 2 [InEvent (Some (EvDataAvailable 1)); InEvent (Some (EvDataAvailable 2))] []
    (test_received (frame_bytes [x05]), []) = Done (FrOk [x05] [] []) st1.
Proof.
  destruct (Stream_read (test_stream (frame_bytes [x05])) [] (Z.to_nat 65536))
    as [[[st' d] n]|] eqn:E; [|vm_compute in E; discriminate E].
  assert (Hd : d = frame_bytes [x05]) by (vm_compute in E; injection E as _ <- _; reflexivity).
  pose proof (conn_read_stream (test_received (frame_bytes [x05])) [] _ 2 _ st' d n
    (Z.to_nat 65536) eq_refl eq_refl E) as Hr.
  eexists. refine (proj1 (other_streams_events_lost 2 1 (test_received (frame_bytes [x05]), []) d _ [x05] _
    (Stream_new 1) _ Hr _ Hd eq_refl eq_refl)); [discriminate|reflexivity].
Defined.
