(* ===== verification/Transfer.v ===== *)
(** * Copying files

    src/src/bin/seam/copy.rs and recv.rs: [seam cp] pushes files over a control
    stream; the receiver stages each in a [.seam-partial] file and renames it
    once the checksum matches.  Both sides are programs of Proc.v; the hashes and
    the compressor are interfaces. *)

From Stdlib Require Import ZArith Lia Bool List String FunctionalExtensionality.
From Stdlib Require Import Strings.Byte.
From stdpp Require Import base list numbers option relations gmap pretty.
From S2P Require Import Prelude TestCrypto Identity Text Proc Frames.

Open Scope Z_scope.

(** [IncrementalHasher]: SHA-256 in FIPS mode, BLAKE3 otherwise, of all the bytes
    given to [update]. *)
Class FileHash : Type := { file_digest : bool -> list byte -> list byte }.

Class FileHashLaws (F : FileHash) : Prop := { file_digest_len fips l : length (file_digest fips l) = 32%nat }.

Class Zstd : Type := {
  zstd_encode : list byte -> option (list byte);
  zstd_decode : list byte -> option (list byte)
}.

Class ZstdLaws (Z : Zstd) : Prop := {
  zstd_encode_ok l : exists c, zstd_encode l = Some c /\ zstd_decode c = Some l
}.

Definition CHUNK : nat := Z.to_nat (32 * 1024).

(** What reading a file of these contents with a buffer of [n] bytes returns
    until the end. *)
Fixpoint pieces_fuel (fuel n : nat) (l : list byte) : list (list byte) :=
  match fuel, l with
  | S fuel, _ :: _ => take n l :: pieces_fuel fuel n (drop n l)
  | _, _ => []
  end.

Definition pieces (n : nat) (l : list byte) : list (list byte) := pieces_fuel (length l) n l.

(** [write_all] at an offset. *)
Definition write_at (off : nat) (d l : list byte) : list byte :=
  resize_bytes l off ++ d ++ drop (off + length d) l.

Definition fs_write (path : list byte) (off : nat) (d : list byte) (fs : Files) : Files :=
  <[path := write_at off d (default [] (fs !! path))]> fs.

(** [rename]: nothing happens here if the source does not exist, where the code
    returns the system's error. *)
Definition fs_rename (from to : list byte) (fs : Files) : Files :=
  match fs !! from with Some c => <[to := c]> (delete from fs) | None => fs end.

(** [name.contains("..") || Path::new(&name).is_absolute()]. *)
Definition dangerous (name : list byte) : bool := contains [x2e; x2e] name || starts_with [x2f] name.

Definition text (l : list byte) : string := String.string_of_list_byte l.

Section Code.
Context {F : FileHash} {ZS : Zstd}.
Local Open Scope io_scope.

(** ** The sender *)

Definition encode_payload (compress : bool) (raw : list byte) : option (list byte) :=
  if compress then zstd_encode raw else Some raw.

Definition decode_payload (compress : bool) (raw : list byte) : option (list byte) :=
  if compress then zstd_decode raw else Some raw.

(** The [while sent < size] loop, for frames of type [tag]; it returns the bytes
    hashed. *)
Fixpoint send_tagged (tag : byte) (compress : bool) (reads : list (list byte)) (sent size : nat) (hashed : list byte)
  : IO (list byte) :=
  match reads with
  | [] => ioret hashed
  | raw :: reads =>
      if (sent <? size)%nat then
        do payload := io_of (encode_payload compress raw) "zstd" in
        io_send (tag :: payload) ;;
        send_tagged tag compress reads (sent + length raw) size (hashed ++ raw)
      else ioret hashed
  end.

Definition send_data := send_tagged DATA.

Definition file_info (size : nat) (rel : list byte) : list byte :=
  [FILE_INFO] ++ to_be 8 (Z.of_nat size) ++ to_be 2 (wrap 16 (Z.of_nat (length rel))) ++ rel ++ to_be 4 0.

(** The offset of a RESUME frame, 0 if it is none or out of range. *)
Definition resume_offset (resp : list byte) (size : nat) : nat :=
  if (9 <=? length resp)%nat && bytes_eqb (take 1 resp) [RESUME] then
    let offset := from_be (slice resp 1 9) in
    if (0 <? offset) && (offset <? Z.of_nat size) then Z.to_nat offset else 0%nat
  else 0%nat.

Definition send_file (rel : list byte) (compress resume fips : bool) : IO unit :=
  do fs := get_files in
  do content := io_of (fs !! rel) "No such file or directory" in
  let size := length content in
  io_send (file_info size rel) ;;
  do sent := (if resume then do resp := io_recv in ioret (resume_offset resp size) else ioret 0%nat) in
  do hashed := send_data compress (pieces CHUNK (drop sent content)) sent size [] in
  io_send (CHECKSUM :: file_digest fips hashed) ;;
  do reply := io_recv in
  if bytes_eqb (take 1 reply) [ACK] then ioret tt
  else bail ("integrity check failed for " ++ text rel ++ ": receiver reported "
             ++ (if fips then "SHA-256" else "BLAKE3") ++ " hash mismatch").

Fixpoint send_all (files : list (list byte)) (compress resume fips : bool) : IO unit :=
  match files with
  | [] => ioret tt
  | rel :: files => send_file rel compress resume fips ;; send_all files compress resume fips
  end.

(** A round without [--parallel]. *)
Definition push_files (files : list (list byte)) (compress resume fips : bool) : IO unit :=
  io_send [HELLO; if compress then COMPRESS_ZSTD else COMPRESS_NONE] ;;
  do ack := io_recv in
  if bytes_eqb (take 1 ack) [ACK] then send_all files compress resume fips ;; io_send [DONE]
  else bail "expected ACK from receiver".

(** ** The receiver *)

(** The [while received < size] loop; [bad] is the error of a frame of another
    type. *)
Fixpoint recv_tagged (tag : byte) (bad : list byte -> string) (fuel : nat) (compress : bool) (path : list byte) (size : Z) (received : nat)
  (hashed : list byte) : IO (list byte) :=
  if Z.of_nat received <? size then
    match fuel with
    | O => io_fuel
    | S fuel =>
        do frame := io_recv in
        match frame with
        | t :: raw =>
            if Byte.eqb t tag then
              do d := io_of (decode_payload compress raw) "zstd" in
              do fs := get_files in
              put_files (fs_write path received d fs) ;;
              recv_tagged tag bad fuel compress path size (received + length d) (hashed ++ d)
            else bail (bad frame)
        | [] => bail (bad [])
        end
    end
  else ioret hashed.

(** The loop of both [receive_file]s. *)
Definition recv_data := recv_tagged DATA (fun _ => "expected DATA frame"%string).

(** The size and the name of a FILE_INFO frame. *)
Definition parse_info (info : list byte) : (Z * list byte) + string :=
  if (length info <? 11)%nat then inr "FILE_INFO too short"%string
  else
    let size := from_be (slice info 1 9) in
    let name_len := Z.to_nat (from_be (slice info 9 11)) in
    if (length info <? 11 + name_len)%nat then inr "FILE_INFO name truncated"%string
    else match from_utf8 (slice info 11 (11 + name_len)) with
         | None => inr "invalid utf-8"%string
         | Some name => if dangerous name then inr ("refusing dangerous filename: " ++ text name)%string
                        else inl (size, name)
         end.

Definition SUFFIX : list byte := string_bytes ".seam-partial".

(** The staging file of a name whose last component is a plain name. *)
Definition partial_path (name : list byte) (redundant : option Z) : list byte :=
  name ++ SUFFIX ++ match redundant with
                    | Some idx => string_bytes (".p" ++ pretty idx)
                    | None => []
                    end.

Definition file_len (fs : Files) (path : list byte) : nat := length (default [] (fs !! path)).

Definition algo_name (fips : bool) : string := if fips then "SHA-256" else "BLAKE3".

(** A usable partial is announced and kept, any other removed. *)
Definition offer_resume (partial : list byte) (size : Z) : IO nat :=
  do fs := get_files in
  let n := file_len fs partial in
  if (0 <? n)%nat && (Z.of_nat n <? size)
  then io_send (RESUME :: to_be 8 (Z.of_nat n)) ;; ioret n
  else put_files (delete partial fs) ;; ioret 0%nat.

(** [OpenOptions] with [truncate(resume_from == 0)]. *)
Definition open_for_write (path : list byte) (resume_from : nat) : IO unit :=
  do fs := get_files in
  put_files (<[path := if (resume_from =? 0)%nat then [] else default [] (fs !! path)]> fs).

Definition is_checksum (frame : list byte) : bool :=
  (length frame =? 33)%nat && bytes_eqb (take 1 frame) [CHECKSUM].

(** [receive_file] of recv.rs, which always looks for a partial. *)
Definition receive_file (fuel : nat) (info : list byte) (compress fips : bool) (redundant : option Z) : IO unit :=
  match parse_info info with
  | inr msg => bail msg
  | inl (size, name) =>
      let partial := partial_path name redundant in
      do resume_from := offer_resume partial size in
      open_for_write partial resume_from ;;
      do hashed := recv_data fuel compress partial size resume_from [] in
      do cksum := io_recv in
      do fs := get_files in
      if is_checksum cksum then
        if bytes_eqb (file_digest fips hashed) (drop 1 cksum) then
          put_files (match redundant, fs !! name with
                     | Some _, Some _ => delete partial fs
                     | _, _ => fs_rename partial name fs
                     end) ;;
          io_send [ACK]
        else
          put_files (delete partial fs) ;;
          bail (algo_name fips ++ " integrity check FAILED for " ++ text name)
      else put_files (fs_rename partial name fs)
  end.

(** [receive_file] of copy.rs, the pulling side: staging only with [--resume]. *)
Definition pull_file (fuel : nat) (info : list byte) (compress resume fips : bool) : IO unit :=
  match parse_info info with
  | inr msg => bail msg
  | inl (size, name) =>
      let partial := partial_path name None in
      do resume_from := (if resume then offer_resume partial size else ioret 0%nat) in
      let write_path := if resume then partial else name in
      open_for_write write_path resume_from ;;
      do hashed := recv_data fuel compress write_path size resume_from [] in
      do cksum := io_recv in
      do fs := get_files in
      if is_checksum cksum then
        if bytes_eqb (file_digest fips hashed) (drop 1 cksum) then
          put_files (if resume then fs_rename partial name fs else fs) ;;
          io_send [ACK]
        else
          put_files (if resume then delete partial fs else fs) ;;
          bail (algo_name fips ++ " integrity check FAILED for " ++ text name)
      else put_files (if resume then fs_rename partial name fs else fs)
  end.

(** The frames of a round until DONE.  [parallel] receives the chunks of a
    parallel copy, which come on streams of their own. *)
Fixpoint receive_loop (parallel : nat -> bool -> bool -> IO unit) (fuel : nat) (compress fips : bool)
  (redundant : option Z) : IO unit :=
  match fuel with
  | O => io_fuel
  | S fuel' =>
      do frame := io_recv in
      match frame with
      | [] => bail "empty frame"
      | t :: rest =>
          if Byte.eqb t FILE_INFO then
            receive_file fuel frame compress fips redundant ;; receive_loop parallel fuel' compress fips redundant
          else if Byte.eqb t PARALLEL_INIT then
            match rest with
            | [] => bail "PARALLEL_INIT frame too short"
            | n :: _ => parallel (Z.to_nat (byte_val n)) compress fips ;;
                        receive_loop parallel fuel' compress fips redundant
            end
          else if Byte.eqb t DONE then ioret tt
          else bail ("unexpected frame type 0x" ++ text (hex_encode [t]))
      end
  end.

Definition receive_round (parallel : nat -> bool -> bool -> IO unit) (fuel : nat) (hello : list byte) (fips : bool) (redundant : option Z) : IO unit :=
  if bytes_eqb (take 1 hello) [HELLO] then
    let compress := (1 <? length hello)%nat && Byte.eqb (at_ hello 1) COMPRESS_ZSTD in
    io_send [ACK] ;; receive_loop parallel fuel compress fips redundant
  else bail ("expected HELLO, got " ++ text (hex_encode [at_ hello 0])).

End Code.

(** * Properties *)

Lemma pbind_assoc {A B C} (p : Proc A) (k : A -> Proc B) (l : B -> Proc C) :
  pbind (pbind p k) l = pbind p (fun a => pbind (k a) l).
Proof.
  induction p as [a|f p IH|g IH|]; cbn; [done|by rewrite IH| |done].
  f_equal. apply functional_extensionality. intros f. apply IH.
Qed.

Lemma pbind_ret {A} (p : Proc A) : pbind p PRet = p.
Proof.
  induction p as [a|f p IH|g IH|]; cbn; [done|by rewrite IH| |done].
  f_equal. apply functional_extensionality. intros f. apply IH.
Qed.

Lemma pieces_fuel_spec n : (0 < n)%nat -> forall fuel l, (length l <= fuel)%nat ->
  concat (pieces_fuel fuel n l) = l /\ Forall (fun r => r <> []) (pieces_fuel fuel n l)
  /\ (length (pieces_fuel fuel n l) <= length l)%nat.
Proof.
  intros Hn. induction fuel as [|fuel IH]; intros [|b l] Hl; cbn [pieces_fuel concat length] in *; try done; [lia|].
  destruct (IH (drop n (b :: l))) as (H1 & H2 & H3).
  { rewrite length_drop. cbn [length]. lia. }
  split; [by rewrite H1, take_drop|]. split.
  - constructor; [|done]. destruct n; [lia|done].
  - rewrite length_drop in H3. cbn [length] in *. lia.
Qed.

Lemma pieces_spec n l : (0 < n)%nat ->
  concat (pieces n l) = l /\ Forall (fun r => r <> []) (pieces n l) /\ (length (pieces n l) <= length l)%nat.
Proof. intros Hn. by apply pieces_fuel_spec. Qed.

Lemma write_at_end old d : write_at (length old) d old = old ++ d.
Proof.
  unfold write_at, resize_bytes. rewrite take_ge, Nat.sub_diag, app_nil_r by done.
  rewrite drop_ge by lia. by rewrite app_nil_r.
Qed.

Section Runs.
Context {F : FileHash} {FL : FileHashLaws F} {ZS : Zstd} {ZL : ZstdLaws ZS}.
Implicit Types fs : Files.

(** What a chunk travels as. *)
Definition travels (compress : bool) (raw p : list byte) : Prop :=
  encode_payload compress raw = Some p /\ decode_payload compress p = Some raw.

Lemma travels_all (compress : bool) (reads : list (list byte)) : exists ps, Forall2 (travels compress) reads ps.
Proof.
  induction reads as [|raw reads [ps IH]]; [by exists []|].
  assert (exists p, travels compress raw p) as [p Hp].
  { unfold travels. destruct compress; cbn; [|by exists raw]. destruct (zstd_encode_ok raw) as (p & ? & ?). by exists p. }
  exists (p :: ps). by constructor.
Qed.

Definition tagged (tag : byte) (ps : list (list byte)) : list (list byte) := map (cons tag) ps.

Definition data_frames : list (list byte) -> list (list byte) := tagged DATA.

Lemma send_tagged_run {A B} (tag : byte) (compress : bool) (size : nat) fs (k : Files * (list byte + string) -> Proc A) (q : Proc B) rl reads ps :
  Forall2 (travels compress) reads ps -> Forall (fun r => r <> []) reads -> forall sent hashed lr,
  (sent + length (concat reads) = size)%nat ->
  runs (mkSys (pbind (send_tagged tag compress reads sent size hashed fs) k) q lr rl)
       (mkSys (k (fs, inl (hashed ++ concat reads))) q (lr ++ tagged tag ps) rl).
Proof.
  induction 1 as [|raw p reads ps [He _] _ IH]; intros Hne sent hashed lr Hsz.
  - cbn. rewrite !app_nil_r. apply rtc_refl.
  - apply List.Forall_cons_iff in Hne as [Hr Hne]. cbn [concat] in *. rewrite length_app in Hsz.
    assert (0 < length raw)%nat by (destruct raw; [done|cbn; lia]).
    cbn [send_tagged]. rewrite (proj2 (Nat.ltb_lt _ _)) by lia. unfold iobind at 1. rewrite He. cbn [io_of ioret pbind].
    unfold iobind at 1. cbn [io_send pbind fst snd].
    eapply rtc_l; [apply step_lsend|]. rewrite (app_assoc hashed). cbn [tagged map].
    replace (lr ++ (tag :: p) :: map (cons tag) ps) with ((lr ++ [tag :: p]) ++ tagged tag ps)
      by (by rewrite <- app_assoc).
    apply (IH Hne). lia.
Qed.

(** Data frames are taken until the size is reached. *)
Lemma recv_tagged_run {A B} (tag : byte) (bad : list byte -> string) (compress : bool) (path : list byte) (size : nat) (k : Files * (list byte + string) -> Proc A) (p : Proc B) rl more reads ps :
  Forall2 (travels compress) reads ps -> Forall (fun r => r <> []) reads ->
  forall fuel received hashed fs old,
  fs !! path = Some old -> length old = received -> (length reads <= fuel)%nat ->
  (size <= received + length (concat reads))%nat ->
  exists used unused ups,
    reads = used ++ unused /\ (size <= received + length (concat used))%nat /\ ps = ups ++ drop (length used) ps
    /\ length ups = length used
    /\ runs (mkSys p (pbind (recv_tagged tag bad fuel compress path (Z.of_nat size) received hashed fs) k) (tagged tag ps ++ more) rl)
            (mkSys p (k (<[path := old ++ concat used]> fs, inl (hashed ++ concat used)))
               (tagged tag (drop (length used) ps) ++ more) rl).
Proof.
  induction 1 as [|raw c reads ps [_ Hd] _ IH]; intros Hne fuel received hashed fs old Hfs Ho Hf Hsz.
  - exists [], [], []. cbn in *. rewrite !app_nil_r. split_and!; [done|lia|done|done|].
    destruct fuel; cbn [recv_tagged]; (rewrite (proj2 (Z.ltb_ge _ _)) by lia); cbn;
      rewrite insert_id by done; apply rtc_refl.
  - apply List.Forall_cons_iff in Hne as [Hr Hne]. cbn [length concat] in *. rewrite length_app in Hsz.
    destruct (decide (received < size)%nat) as [Hlt|Hge].
    + destruct fuel as [|fuel]; [lia|].
      destruct (IH Hne fuel (received + length raw)%nat (hashed ++ raw) (fs_write path received raw fs) (old ++ raw))
        as (used & unused & ups & -> & H1 & H2 & H3 & H4).
      { unfold fs_write. rewrite lookup_insert_eq, Hfs. cbn. by rewrite <- Ho, write_at_end. }
      { rewrite length_app. lia. }
      { lia. }
      { lia. }
      exists (raw :: used), unused, (c :: ups). cbn [length concat drop app]. split_and!; [done| |by rewrite <- H2|lia|].
      { rewrite length_app. lia. }
      cbn [recv_tagged tagged map app]. rewrite (proj2 (Z.ltb_lt _ _)) by lia.
      unfold iobind at 1. cbn [io_recv pbind]. eapply rtc_l; [apply step_rrecv|]. cbn [pbind fst snd].
      rewrite byte_eqb_refl. cbn iota. unfold iobind at 1. rewrite Hd. cbn [io_of ioret pbind fst snd].
      unfold iobind at 1. cbn [get_files pbind fst snd]. unfold iobind at 1. cbn [put_files pbind fst snd].
      rewrite (app_assoc old), (app_assoc hashed).
      assert (He : <[path := (old ++ raw) ++ concat used]> fs
        = <[path := (old ++ raw) ++ concat used]> (fs_write path received raw fs)).
      { unfold fs_write. by rewrite insert_insert_eq. }
      rewrite He. exact H4.
    + exists [], (raw :: reads), []. cbn [length concat drop app]. rewrite !app_nil_r.
      split_and!; [done|cbn; lia|done|done|].
      destruct fuel; cbn [recv_tagged]; (rewrite (proj2 (Z.ltb_ge _ _)) by lia); cbn [pbind ioret];
        rewrite insert_id by done; apply rtc_refl.
Qed.

(** Runs a program to its next operation. *)

(** ** One file *)

Definition name_ok (rel : list byte) : Prop :=
  utf8_valid rel = true /\ dangerous rel = false /\ Z.of_nat (length rel) < 2 ^ 16.

Lemma parse_file_info size rel :
  name_ok rel -> Z.of_nat size < 2 ^ 64 -> parse_info (file_info size rel) = inl (Z.of_nat size, rel).
Proof.
  intros (Hu & Hd & Hl) Hs. unfold parse_info, file_info.
  set (b8 := to_be 8 (Z.of_nat size)). set (b2 := to_be 2 _). set (b4 := to_be 4 0).
  assert (L8 : length b8 = 8%nat) by apply length_to_be. assert (L2 : length b2 = 2%nat) by apply length_to_be.
  assert (F8 : from_be b8 = Z.of_nat size) by (apply from_be_to_be_small; unfold is_u; lia).
  assert (F2 : from_be b2 = Z.of_nat (length rel)).
  { unfold b2, wrap. rewrite Z.mod_small by lia. apply from_be_to_be_small. unfold is_u. lia. }
  assert (L4 : length b4 = 4%nat) by apply length_to_be. clearbody b8 b2 b4.
  assert (E1 : slice ([FILE_INFO] ++ b8 ++ b2 ++ rel ++ b4) 1 9 = b8).
  { apply (slice_mid [FILE_INFO] b8); cbn; lia. }
  assert (E2 : slice ([FILE_INFO] ++ b8 ++ b2 ++ rel ++ b4) 9 11 = b2).
  { rewrite (app_assoc [FILE_INFO]). apply (slice_mid ([FILE_INFO] ++ b8) b2); rewrite ?length_app; cbn; lia. }
  assert (E3 : slice ([FILE_INFO] ++ b8 ++ b2 ++ rel ++ b4) 11 (11 + length rel) = rel).
  { rewrite (app_assoc [FILE_INFO]), (app_assoc _ b2).
    apply (slice_mid (([FILE_INFO] ++ b8) ++ b2) rel); rewrite ?length_app; cbn; lia. }
  rewrite E1, E2, F8, F2, Nat2Z.id, E3.
  assert (Hl' : length ([FILE_INFO] ++ b8 ++ b2 ++ rel ++ b4) = (15 + length rel)%nat).
  { rewrite !length_app. cbn [length]. lia. }
  rewrite Hl', (proj2 (Nat.ltb_ge _ 11)), (proj2 (Nat.ltb_ge _ (11 + length rel))) by lia.
  unfold from_utf8. by rewrite Hu, Hd.
Qed.

Lemma partial_neq name redundant : partial_path name redundant <> name.
Proof.
  unfold partial_path. intros He. apply (f_equal length) in He. rewrite !length_app in He.
  change (length SUFFIX) with 13%nat in He. lia.
Qed.

(** The frame a sender ends a file with is a checksum frame. *)
Lemma checksum_frame fips l :
  is_checksum (CHECKSUM :: file_digest fips l) = true
  /\ bytes_eqb (file_digest fips l) (drop 1 (CHECKSUM :: file_digest fips l)) = true.
Proof.
  unfold is_checksum. cbn [length take drop]. rewrite file_digest_len. split; [done|]. by apply bytes_eqb_eq.
Qed.

Lemma data_run_exact {A B} (tag : byte) (bad : list byte -> string) compress path (size : nat) (k : Files * (list byte + string) -> Proc A) (p : Proc B) rl more
    reads ps fuel received hashed fs old :
  Forall2 (travels compress) reads ps -> Forall (fun r => r <> []) reads ->
  fs !! path = Some old -> length old = received -> (length reads <= fuel)%nat ->
  (size = received + length (concat reads))%nat ->
  runs (mkSys p (pbind (recv_tagged tag bad fuel compress path (Z.of_nat size) received hashed fs) k) (tagged tag ps ++ more) rl)
       (mkSys p (k (<[path := old ++ concat reads]> fs, inl (hashed ++ concat reads))) more rl).
Proof.
  intros H2 Hne Hfs Ho Hf Hsz.
  destruct (recv_tagged_run tag bad compress path size k p rl more reads ps H2 Hne fuel received hashed fs old Hfs Ho Hf ltac:(lia))
    as (used & unused & ups & E1 & E2 & E3 & E4 & Hr).
  assert (unused = []) as ->.
  { subst reads. apply List.Forall_app in Hne as [_ Hne]. rewrite concat_app, length_app in Hsz.
    destruct unused as [|u us]; [done|]. apply List.Forall_cons_iff in Hne as [Hu _]. exfalso.
    cbn in Hsz. rewrite length_app in Hsz. destruct u; [done|]. cbn in Hsz. lia. }
  rewrite app_nil_r in E1. subst used. rewrite (drop_ge ps) in Hr; [exact Hr|].
  by rewrite <- (Forall2_length _ _ _ H2).
Qed.

Lemma fuel_pieces content off fuel :
  (length content <= fuel)%nat -> (length (pieces CHUNK (drop off content)) <= fuel)%nat.
Proof.
  intros Hf. pose proof (pieces_spec CHUNK (drop off content) ltac:(unfold CHUNK; lia)) as (_ & _ & Hl).
  rewrite length_drop in Hl. lia.
Qed.

(** A file goes over: from the FILE_INFO frame to the acknowledgement. *)
Lemma file_run {A B} (k : Files * (unit + string) -> Proc A) (l : Files * (unit + string) -> Proc B)
    g rel content compress fips fuel fsS fsR :
  g (file_info (length content) rel)
    = pbind (receive_file fuel (file_info (length content) rel) compress fips None fsR) l ->
  fsS !! rel = Some content -> name_ok rel -> Z.of_nat (length content) < 2 ^ 64 ->
  fsR !! partial_path rel None = None -> (length content <= fuel)%nat ->
  runs (mkSys (pbind (send_file rel compress false fips fsS) k)
              (PRecv g) [] [])
       (mkSys (k (fsS, inl tt)) (l (<[rel := content]> fsR, inl tt)) [] []).
Proof.
  intros Hg Hs Hok Hsz Hp Hf.
  destruct (pieces_spec CHUNK content ltac:(unfold CHUNK; lia)) as (Hc & Hne & Hlen).
  destruct (travels_all compress (pieces CHUNK content)) as [ps Hps].
  unfold send_file. io. rewrite Hs. io.
  eapply rtc_l; [apply step_lsend|]. eapply rtc_l; [apply step_rrecv|]. rewrite Hg. io. rewrite drop_0, pbind_assoc. etrans.
  { apply (send_tagged_run DATA compress (length content) fsS _ _ [] _ ps Hps Hne 0 [] []). by rewrite Hc. }
  io. rewrite Hc. eapply rtc_l; [apply step_lsend|].
  unfold receive_file. rewrite (parse_file_info _ _ Hok Hsz). unfold offer_resume, open_for_write. io.
  unfold file_len. rewrite Hp. cbn [default from_option id length Nat.ltb Nat.leb andb]. io.
  cbn [Nat.eqb]. rewrite pbind_assoc. etrans.
  { apply (data_run_exact DATA _ compress _ (length content) _ _ [] _ (pieces CHUNK content) ps fuel 0 [] _ [] Hps Hne).
    - apply lookup_insert_eq.
    - done.
    - lia.
    - by rewrite Hc. }
  io. rewrite Hc. eapply rtc_l; [apply step_rrecv|]. io.
  destruct (checksum_frame fips content) as [-> ->]. io.
  eapply rtc_l; [apply step_rsend|]. eapply rtc_l; [apply step_lrecv|]. io.
  cbn [take]. change (bytes_eqb [ACK] [ACK]) with true. cbn iota. io.
  assert (Hfs : fs_rename (partial_path rel None) rel
      (<[partial_path rel None := content]> (<[partial_path rel None := []]> (delete (partial_path rel None) fsR)))
    = <[rel := content]> fsR).
  { unfold fs_rename. rewrite lookup_insert_eq, !insert_delete_eq, insert_insert_eq.
    rewrite delete_insert_eq, delete_id by done. done. }
  rewrite Hfs. apply rtc_refl.
Qed.

(** ** A round *)

Definition sendable (fsS : Files) (rel : list byte) : Prop :=
  name_ok rel /\ exists content, fsS !! rel = Some content /\ Z.of_nat (length content) < 2 ^ 64.

(** The files after a round. *)
Definition deliver (fsS fsR : Files) (files : list (list byte)) : Files :=
  fold_left (fun fs rel => match fsS !! rel with Some c => <[rel := c]> fs | None => fs end) files fsR.

Lemma deliver_lookup fsS files : forall fsR path,
  Forall (sendable fsS) files ->
  deliver fsS fsR files !! path = if decide (path ∈ files) then fsS !! path else fsR !! path.
Proof.
  induction files as [|rel files IH]; intros fsR path Hf; cbn.
  { by rewrite decide_False by apply not_elem_of_nil. }
  apply List.Forall_cons_iff in Hf as [(_ & c & Hc & _) Hf]. rewrite Hc. fold (deliver fsS (<[rel:=c]> fsR) files).
  rewrite IH by done. destruct (decide (path ∈ files)) as [Hi|Hi].
  - by rewrite decide_True by (by right).
  - destruct (decide (path = rel)) as [->|Hne].
    + by rewrite decide_True, lookup_insert_eq by (by left).
    + rewrite decide_False by (by rewrite elem_of_cons; intros [|]). by rewrite lookup_insert_ne.
Qed.

Definition fuel_for (fsS : Files) (files : list (list byte)) : nat :=
  foldr (fun rel n => (length (default [] (fsS !! rel)) + 1 + n)%nat) 1%nat files.

Lemma push_loop {A B} par compress fips fsS (k : Files * (unit + string) -> Proc A)
    (l : Files * (unit + string) -> Proc B) files : forall fsR fuel,
  Forall (sendable fsS) files -> (fuel_for fsS files <= fuel)%nat ->
  (forall rel, rel ∈ files -> fsR !! partial_path rel None = None) ->
  (forall n m, n ∈ files -> m ∈ files -> n <> partial_path m None) ->
  exists fuel', (0 < fuel')%nat /\
  runs (mkSys (pbind (send_all files compress false fips fsS) k)
              (pbind (receive_loop par fuel compress fips None fsR) l) [] [])
       (mkSys (k (fsS, inl tt)) (pbind (receive_loop par fuel' compress fips None (deliver fsS fsR files)) l) [] []).
Proof.
  induction files as [|rel files IH]; intros fsR fuel Hf Hfu Hp Hn; cbn [fuel_for foldr] in Hfu.
  { exists fuel. split; [cbn in Hfu; lia|]. apply rtc_refl. }
  apply List.Forall_cons_iff in Hf as [(Hok & c & Hc & Hsz) Hf]. rewrite Hc in Hfu. cbn [default from_option id] in Hfu.
  fold (fuel_for fsS files) in Hfu. destruct fuel as [|fuel]; [lia|].
  destruct (IH (<[rel := c]> fsR) fuel Hf ltac:(lia)) as (fuel' & Hpos & Hr).
  { intros m Hm. rewrite lookup_insert_ne; [apply Hp; by right|]. apply Hn; [by left|by right]. }
  { intros n m Hn1 Hm1. apply Hn; by right. }
  exists fuel'. split; [done|]. cbn [deliver fold_left]. rewrite Hc. fold (deliver fsS (<[rel:=c]> fsR) files).
  etrans; [|exact Hr]. cbn [send_all]. unfold iobind at 1. rewrite pbind_assoc.
  change (pbind (receive_loop par (S fuel) compress fips None fsR) l)
    with (PRecv (fun f => pbind (pbind (PRet (fsR, inl f)) (fun r => match r.2 with
      | inl frame => match frame with
          | [] => bail "empty frame"
          | t :: rest =>
              if Byte.eqb t FILE_INFO then
                iobind (receive_file (S fuel) frame compress fips None) (fun _ => receive_loop par fuel compress fips None)
              else if Byte.eqb t PARALLEL_INIT then
                match rest with
                | [] => bail "PARALLEL_INIT frame too short"
                | n :: _ => iobind (par (Z.to_nat (byte_val n)) compress fips)
                              (fun _ => receive_loop par fuel compress fips None)
                end
              else if Byte.eqb t DONE then ioret tt
              else bail ("unexpected frame type 0x" ++ text (hex_encode [t]))
          end r.1
      | inr e => PRet (r.1, inr e) end)) l)).
  etrans.
  { apply (file_run _ (fun r => pbind (match r.2 with
        | inl _ => receive_loop par fuel compress fips None r.1
        | inr e => PRet (r.1, inr e) end) l) _ rel c compress fips (S fuel) fsS fsR); [|done|done|done|apply Hp; by left|lia].
    cbn [pbind fst snd]. unfold file_info at 1. cbn [app]. change (Byte.eqb FILE_INFO FILE_INFO) with true. cbn iota.
    unfold iobind. by rewrite pbind_assoc. }
  cbn [fst snd pbind]. apply rtc_refl.
Qed.

(** The receiving side of one round. *)
Definition receiver (par : nat -> bool -> bool -> IO unit) (fuel : nat) (fips : bool) : IO unit :=
  iobind io_recv (fun hello => receive_round par fuel hello fips None).

(** A round runs to its end. *)
Lemma push_round par fuel files compress fips (fsS fsR : Files) :
  Forall (sendable fsS) files ->
  (forall rel, rel ∈ files -> fsR !! partial_path rel None = None) ->
  (forall n m, n ∈ files -> m ∈ files -> n <> partial_path m None) ->
  (fuel_for fsS files <= fuel)%nat ->
  runs (mkSys (push_files files compress false fips fsS) (receiver par fuel fips fsR) [] [])
       (mkSys (PRet (fsS, inl tt)) (PRet (deliver fsS fsR files, inl tt)) [] []).
Proof.
  intros Hf Hp Hn Hfu.
  unfold push_files, receiver. io. eapply rtc_l; [apply step_lsend|]. eapply rtc_l; [apply step_rrecv|]. io.
  unfold receive_round. cbn [take]. change (bytes_eqb [HELLO] [HELLO]) with true. cbn iota. io.
  eapply rtc_l; [apply step_rsend|]. eapply rtc_l; [apply step_lrecv|]. io.
  cbn [take]. change (bytes_eqb [ACK] [ACK]) with true. cbn iota.
  replace ((1 <? length [HELLO; if compress then COMPRESS_ZSTD else COMPRESS_NONE])%nat
           && Byte.eqb (at_ [HELLO; if compress then COMPRESS_ZSTD else COMPRESS_NONE] 1) COMPRESS_ZSTD)
    with compress by (by destruct compress). io.
  match goal with |- context [pbind (send_all files compress false fips fsS) ?kk] => set (k := kk) end.
  rewrite <- (pbind_ret (receive_loop par fuel compress fips None fsR)).
  destruct (push_loop par compress fips fsS k PRet files fsR fuel Hf Hfu Hp Hn) as (fuel' & Hpos & Hr).
  etrans; [exact Hr|]. subst k. io. eapply rtc_l; [apply step_lsend|].
  destruct fuel' as [|fuel']; [lia|]. cbn [receive_loop]. io. eapply rtc_l; [apply step_rrecv|]. io.
  apply rtc_refl.
Qed.

(** C18: A copy delivers.  Whatever the order in which the two sides run, a round
    that pushes files without resuming to a receiver with no stale partials
    ends with both sides content; then the receiver holds every file with its
    contents and has changed no other, and nothing is left in transit. *)
Theorem push_delivers par fuel files compress fips (fsS fsR : Files) :
  Forall (sendable fsS) files ->
  (forall rel, rel ∈ files -> fsR !! partial_path rel None = None) ->
  (forall n m, n ∈ files -> m ∈ files -> n <> partial_path m None) ->
  (fuel_for fsS files <= fuel)%nat ->
  exists fsR',
    (forall path, fsR' !! path = if decide (path ∈ files) then fsS !! path else fsR !! path)
    /\ forall s, runs (mkSys (push_files files compress false fips fsS) (receiver par fuel fips fsR) [] []) s ->
       runs s (mkSys (PRet (fsS, inl tt)) (PRet (fsR', inl tt)) [] []).
Proof.
  intros Hf Hp Hn Hfu. exists (deliver fsS fsR files). split; [intros path; by apply deliver_lookup|].
  intros s Hs. eapply runs_halted_unique; [|apply halted_done|exact Hs]. by apply push_round.
Qed.

(** ** Partial files *)

(** A sender and a receiver of one file. *)
Definition one_file (fuel : nat) (rel : list byte) (compress resume fips : bool) (fsS fsR : Files)
  : Sys (Files * (unit + string)) (Files * (unit + string)) :=
  mkSys (send_file rel compress resume fips fsS)
    (iobind io_recv (fun info => receive_file fuel info compress fips None) fsR) [] [].

(** Resuming what was never begun hangs.  With [--resume] the sender waits for
    the receiver to say where to start; a receiver without a usable partial says
    nothing and waits for data.  Whatever the order of the steps, the two end up
    waiting for each other, with nothing in transit. *)
Theorem resume_from_nothing_hangs fuel rel content compress fips (fsS fsR : Files) :
  fsS !! rel = Some content -> name_ok rel -> Z.of_nat (length content) < 2 ^ 64 -> content <> [] ->
  fsR !! partial_path rel None = None -> (0 < fuel)%nat ->
  forall s, runs (one_file fuel rel compress true fips fsS fsR) s ->
    exists f g, runs s (mkSys (PRecv f) (PRecv g) [] []).
Proof.
  intros Hc Hok Hsz Hne Hp Hf. destruct fuel as [|fuel]; [lia|].
  cut (exists f g, runs (one_file (S fuel) rel compress true fips fsS fsR) (mkSys (PRecv f) (PRecv g) [] [])).
  { intros (f & g & Hr) s Hs. exists f, g. eapply runs_halted_unique; [exact Hr|apply halted_deadlock|exact Hs]. }
  assert (0 < Z.of_nat (length content)) by (destruct content; [done|cbn; lia]).
  do 2 eexists. unfold one_file, send_file. io. rewrite Hc. io.
  eapply rtc_l; [apply step_lsend|]. eapply rtc_l; [apply step_rrecv|]. io.
  unfold receive_file. rewrite (parse_file_info _ _ Hok Hsz). unfold offer_resume, open_for_write. io.
  unfold file_len. rewrite Hp. cbn [default from_option id length Nat.ltb Nat.leb andb]. io.
  unfold recv_data. cbn [recv_tagged]. rewrite (proj2 (Z.ltb_lt _ _)) by lia. io. apply rtc_refl.
Qed.

(** What [send_file] does once it knows where to start ... *)
Definition check_reply (rel : list byte) (fips : bool) (reply : list byte) : IO unit :=
  if bytes_eqb (take 1 reply) [ACK] then ioret tt
  else bail ("integrity check failed for " ++ text rel ++ ": receiver reported "
             ++ (if fips then "SHA-256" else "BLAKE3") ++ " hash mismatch").

Definition send_from (rel content : list byte) (compress fips : bool) (sent : nat) : IO unit :=
  iobind (send_data compress (pieces CHUNK (drop sent content)) sent (length content) []) (fun hashed =>
  iobind (io_send (CHECKSUM :: file_digest fips hashed)) (fun _ =>
  iobind io_recv (check_reply rel fips))).

(** ... it sends the rest of the file and waits. *)
Lemma send_from_run {B} rel content compress fips sent fsS (q : Proc B) lr rl :
  (sent <= length content)%nat ->
  exists ps, Forall2 (travels compress) (pieces CHUNK (drop sent content)) ps
  /\ runs (mkSys (send_from rel content compress fips sent fsS) q lr rl)
       (mkSys (PRecv (fun reply => check_reply rel fips reply fsS)) q
          (lr ++ data_frames ps ++ [CHECKSUM :: file_digest fips (drop sent content)]) rl).
Proof.
  intros Hs. destruct (pieces_spec CHUNK (drop sent content) ltac:(unfold CHUNK; lia)) as (Hcat & Hne & _).
  destruct (travels_all compress (pieces CHUNK (drop sent content))) as [ps Hps]. exists ps. split; [done|].
  unfold send_from. unfold iobind at 1. etrans.
  { apply (send_tagged_run DATA compress (length content) fsS _ q rl _ ps Hps Hne sent [] lr).
    rewrite Hcat, length_drop. lia. }
  rewrite Hcat. io. eapply rtc_l; [apply step_lsend|]. rewrite <- app_assoc. apply rtc_refl.
Qed.

(** The sending side up to the offset. *)
Lemma send_file_start {B} rel content compress resume fips fsS (q : Proc B) lr rl :
  fsS !! rel = Some content ->
  runs (mkSys (send_file rel compress resume fips fsS) q lr rl)
       (mkSys (iobind (if resume then iobind io_recv (fun resp => ioret (resume_offset resp (length content)))
                       else ioret 0%nat) (send_from rel content compress fips) fsS)
          q (lr ++ [file_info (length content) rel]) rl).
Proof. intros Hc. unfold send_file. io. rewrite Hc. io. eapply rtc_l; [apply step_lsend|]. apply rtc_refl. Qed.

(** A receiver with a usable partial announces it and goes on from there. *)
Lemma receive_resumed {A} rel (content stale : list byte) compress fips fuel fsR (p : Proc A) lr rl :
  name_ok rel -> Z.of_nat (length content) < 2 ^ 64 ->
  fsR !! partial_path rel None = Some stale -> (0 < length stale < length content)%nat ->
  exists K, (forall hashed fs, K (fs, inl hashed) = PRecv (fun cksum =>
      (if is_checksum cksum then
         if bytes_eqb (file_digest fips hashed) (drop 1 cksum) then
           iobind (put_files (fs_rename (partial_path rel None) rel fs)) (fun _ => io_send [ACK])
         else iobind (put_files (delete (partial_path rel None) fs)) (fun _ =>
           bail (algo_name fips ++ " integrity check FAILED for " ++ text rel))
       else put_files (fs_rename (partial_path rel None) rel fs)) fs)) /\
  runs (mkSys p (iobind io_recv (fun info => receive_file fuel info compress fips None) fsR)
          (file_info (length content) rel :: lr) rl)
       (mkSys p (pbind (recv_data fuel compress (partial_path rel None) (Z.of_nat (length content)) (length stale) []
                          (<[partial_path rel None := stale]> fsR)) K)
          lr (rl ++ [RESUME :: to_be 8 (Z.of_nat (length stale))])).
Proof.
  intros Hok Hsz Hp Hst. eexists. split; [|io; eapply rtc_l; [apply step_rrecv|]; io].
  2: { unfold receive_file. rewrite (parse_file_info _ _ Hok Hsz). unfold offer_resume, open_for_write. io.
       unfold file_len. rewrite Hp. cbn [default from_option id].
       rewrite (proj2 (Nat.ltb_lt _ _)), (proj2 (Z.ltb_lt _ _)) by lia. cbn [andb]. io.
       eapply rtc_l; [apply step_rsend|]. io.
       rewrite Hp. cbn [default from_option id]. rewrite (proj2 (Nat.eqb_neq (length stale) 0)) by lia. apply rtc_refl. }
  intros hashed fs. io. reflexivity.
Qed.

(** A partial left behind corrupts the next copy.  The receiver always looks
    for a partial and announces it, but a sender without [--resume] starts at the
    beginning: the receiver appends the beginning of the file to the partial and
    installs the result under the file's name, while the sender takes the
    announcement for a failed integrity check. *)
Theorem stale_partial_corrupts fuel rel content stale compress fips (fsS fsR : Files) :
  fsS !! rel = Some content -> name_ok rel -> Z.of_nat (length content) < 2 ^ 64 ->
  fsR !! partial_path rel None = Some stale -> (0 < length stale < length content)%nat ->
  (length content <= fuel)%nat ->
  exists m fsR' e lr rl,
    fsR' !! rel = Some (stale ++ take m content) /\ (length content <= length stale + m)%nat /\ (0 < m)%nat
    /\ forall s, runs (one_file fuel rel compress false fips fsS fsR) s ->
       runs s (mkSys (PRet (fsS, inr e)) (PRet (fsR', inl tt)) lr rl).
Proof.
  intros Hc Hok Hsz Hp Hst Hf. set (partial := partial_path rel None) in *.
  destruct (send_from_run rel content compress fips 0 fsS
    (iobind io_recv (fun info => receive_file fuel info compress fips None) fsR)
    [file_info (length content) rel] [] ltac:(lia)) as (ps & Hps & Hsend).
  rewrite drop_0 in Hps, Hsend.
  destruct (pieces_spec CHUNK content ltac:(unfold CHUNK; lia)) as (Hcat & Hne & Hlen).
  set (tail := [CHECKSUM :: file_digest fips content]) in *.
  destruct (receive_resumed rel content stale compress fips fuel fsR
    (PRecv (fun reply => check_reply rel fips reply fsS)) (data_frames ps ++ tail) [] Hok Hsz Hp Hst)
    as (K & HK & Hres).
  destruct (recv_tagged_run DATA (fun _ => "expected DATA frame"%string) compress partial (length content) K (PRecv (fun reply => check_reply rel fips reply fsS))
    [RESUME :: to_be 8 (Z.of_nat (length stale))] tail (pieces CHUNK content) ps Hps Hne fuel (length stale) []
    (<[partial := stale]> fsR) stale ltac:(apply lookup_insert_eq) eq_refl ltac:(lia) ltac:(rewrite Hcat; lia))
    as (used & unused & ups & Eu & Hsize & Eps & Hups & Hdata).
  assert (Htake : concat used = take (length (concat used)) content).
  { rewrite <- Hcat, Eu, concat_app, take_app_length. done. }
  assert (Hpre : runs (one_file fuel rel compress false fips fsS fsR)
    (mkSys (PRecv (fun reply => check_reply rel fips reply fsS))
       (K (<[partial := stale ++ concat used]> (<[partial := stale]> fsR), inl ([] ++ concat used)))
       (data_frames (drop (length used) ps) ++ tail) [RESUME :: to_be 8 (Z.of_nat (length stale))])).
  { unfold one_file. etrans; [by apply (send_file_start rel content)|]. cbn [app]. unfold iobind at 1.
    cbn [ioret pbind fst snd]. etrans; [exact Hsend|]. cbn [app]. etrans; [exact Hres|]. exact Hdata. }
  (* the announcement reaches the sender as the reply *)
  exists (length (concat used)). rewrite <- Htake.
  set (fs1 := <[partial := stale ++ concat used]> (<[partial := stale]> fsR)) in *.
  assert (Hlook : fs_rename partial rel fs1 !! rel = Some (stale ++ concat used)).
  { unfold fs_rename, fs1. rewrite lookup_insert_eq. apply lookup_insert_eq. }
  rewrite HK in Hpre. cbn [app] in Hpre.
  assert (Hfin : exists fsR' lr rl, fsR' !! rel = Some (stale ++ concat used)
    /\ runs (one_file fuel rel compress false fips fsS fsR)
         (mkSys (PRecv (fun reply => check_reply rel fips reply fsS)) (PRet (fsR', inl tt)) lr
            ((RESUME :: to_be 8 (Z.of_nat (length stale))) :: rl))).
  { destruct unused as [|u unused].
    - rewrite app_nil_r in Eu. subst used. rewrite (drop_ge ps) in Hpre by (by rewrite (Forall2_length _ _ _ Hps)).
      exists (fs_rename partial rel fs1), [], [[ACK]]. split; [done|]. etrans; [exact Hpre|]. cbn [app data_frames tagged map].
      eapply rtc_l; [apply step_rrecv|]. rewrite Hcat.
      destruct (checksum_frame fips content) as [-> ->]. io. eapply rtc_l; [apply step_rsend|]. apply rtc_refl.
    - assert (exists p ps', drop (length used) ps = p :: ps') as (p & ps' & Ed).
      { pose proof (Forall2_length _ _ _ Hps) as Hl. rewrite Eu, length_app in Hl. cbn in Hl.
        pose proof (length_drop ps (length used)) as Hd. destruct (drop (length used) ps) as [|p ps'] eqn:Ed; [cbn in Hd; lia|].
        by exists p, ps'. }
      rewrite Ed in Hpre. exists (fs_rename partial rel fs1), (data_frames ps' ++ tail), []. split; [done|].
      etrans; [exact Hpre|]. cbn [app data_frames tagged map]. eapply rtc_l; [apply step_rrecv|].
      unfold is_checksum. cbn [take]. change (bytes_eqb [DATA] [CHECKSUM]) with false. rewrite andb_false_r. io.
      apply rtc_refl. }
  destruct Hfin as (fsR' & lr & rl & Hfs & Hrun).
  do 4 eexists. split; [exact Hfs|]. split; [lia|]. split; [lia|].
  intros s Hs. eapply runs_halted_unique; [|apply halted_done|exact Hs].
  etrans; [exact Hrun|]. eapply rtc_l; [apply step_lrecv|].
  unfold check_reply. cbn [take]. change (bytes_eqb [RESUME] [ACK]) with false. cbn iota. apply rtc_refl.
Qed.

(** A resumed copy is only checked from where it resumed: both sides hash just
    the bytes that were sent, so whatever the partial held, the two sides agree,
    and the file installed is the partial's contents followed by the rest of the
    sender's file. *)
Theorem resume_trusts_partial fuel rel content stale compress fips (fsS fsR : Files) :
  fsS !! rel = Some content -> name_ok rel -> Z.of_nat (length content) < 2 ^ 64 ->
  fsR !! partial_path rel None = Some stale -> (0 < length stale < length content)%nat ->
  (length content <= fuel)%nat ->
  exists fsR',
    fsR' !! rel = Some (stale ++ drop (length stale) content) /\ fsR' !! partial_path rel None = None
    /\ forall s, runs (one_file fuel rel compress true fips fsS fsR) s ->
       runs s (mkSys (PRet (fsS, inl tt)) (PRet (fsR', inl tt)) [] []).
Proof.
  intros Hc Hok Hsz Hp Hst Hf. set (partial := partial_path rel None) in *. set (off := length stale) in *.
  destruct (pieces_spec CHUNK (drop off content) ltac:(unfold CHUNK; lia)) as (Hcat & Hne & _).
  destruct (receive_resumed rel content stale compress fips fuel fsR
    (iobind (iobind io_recv (fun resp => ioret (resume_offset resp (length content))))
       (send_from rel content compress fips) fsS) [] [] Hok Hsz Hp Hst) as (K & HK & Hres).
  fold partial off in HK, Hres. cbn [app] in Hres.
  destruct (send_from_run rel content compress fips off fsS
    (pbind (recv_data fuel compress partial (Z.of_nat (length content)) off [] (<[partial := stale]> fsR)) K)
    [] [] ltac:(lia)) as (ps & Hps & Hsend).
  set (fs1 := <[partial := stale ++ drop off content]> (<[partial := stale]> fsR)).
  exists (fs_rename partial rel fs1).
  assert (Hren : fs_rename partial rel fs1 = <[rel := stale ++ drop off content]> (delete partial fs1)).
  { unfold fs_rename, fs1. by rewrite lookup_insert_eq. }
  split; [rewrite Hren; apply lookup_insert_eq|]. split.
  { rewrite Hren, lookup_insert_ne by (apply not_eq_sym, partial_neq). apply lookup_delete_eq. }
  intros s Hs. eapply runs_halted_unique; [|apply halted_done|exact Hs].
  unfold one_file. etrans; [by apply (send_file_start rel content)|]. cbn [app]. etrans; [exact Hres|].
  io. eapply rtc_l; [apply step_lrecv|]. io.
  assert (Hoff : resume_offset (RESUME :: to_be 8 (Z.of_nat off)) (length content) = off).
  { unfold resume_offset. cbn [length take]. rewrite length_to_be, take_0. change (9 <=? 9)%nat with true.
    change (bytes_eqb [RESUME] [RESUME]) with true. cbn [andb].
    assert (slice (RESUME :: to_be 8 (Z.of_nat off)) 1 9 = to_be 8 (Z.of_nat off)) as ->.
    { apply (slice_last [RESUME]); [done|]. by rewrite length_to_be. }
    rewrite from_be_to_be_small by (unfold is_u; lia).
    rewrite (proj2 (Z.ltb_lt 0 _)), (proj2 (Z.ltb_lt _ (Z.of_nat (length content)))) by lia. cbn [andb]. lia. }
  rewrite Hoff. etrans; [exact Hsend|]. cbn [app]. etrans.
  { apply (data_run_exact DATA _ compress partial (length content) K _ [] _ (pieces CHUNK (drop off content)) ps fuel off []
      (<[partial := stale]> fsR) stale Hps Hne); [apply lookup_insert_eq|done|by apply fuel_pieces|].
    rewrite Hcat, length_drop. lia. }
  rewrite Hcat, HK. eapply rtc_l; [apply step_rrecv|].
  destruct (checksum_frame fips (drop off content)) as [E1 E2]. cbn [app]. rewrite E1, E2. io.
  eapply rtc_l; [apply step_rsend|]. eapply rtc_l; [apply step_lrecv|].
  unfold check_reply. cbn [take]. change (bytes_eqb [ACK] [ACK]) with true. cbn iota. apply rtc_refl.
Qed.

End Runs.

(** ** Witnesses *)

#[export] Instance test_file_hash : FileHash := {|
  file_digest fips l := resize_bytes ((if fips then x01 else x02) :: l) 32
|}.

#[export] Instance test_file_hash_laws : FileHashLaws test_file_hash.
Proof. constructor. intros fips l. apply length_resize_bytes. Defined.

#[export] Instance test_zstd : Zstd := {| zstd_encode l := Some (rev l); zstd_decode l := Some (rev l) |}.

#[export] Instance test_zstd_laws : ZstdLaws test_zstd.
Proof. constructor. intros l. exists (rev l). split; [done|]. cbn. by rewrite rev_involutive. Defined.

Definition test_name : list byte := [x61].
Definition test_content : list byte := [x31; x32; x33].
Definition test_files : Files := {[test_name := test_content]}.
Definition test_stale (l : list byte) : Files := {[partial_path test_name None := l]}.
Definition no_parallel (n : nat) (compress fips : bool) : IO unit := ioret tt.

Lemma test_name_ok : name_ok test_name.
Proof. split; [|split]; vm_compute; reflexivity. Qed.

Lemma push_delivers_witness :
  exists fsR' : Files, fsR' !! test_name = Some test_content
    /\ runs (mkSys (push_files [test_name] true false false test_files) (receiver no_parallel 10 false ∅) [] [])
            (mkSys (PRet (test_files, inl tt)) (PRet (fsR', inl tt)) [] []).
Proof.
  destruct (push_delivers no_parallel 10 [test_name] true false test_files ∅) as (fsR' & H1 & H2).
  - constructor; [|constructor]. split; [exact test_name_ok|]. exists test_content. split; [reflexivity|cbn; lia].
  - intros rel _. reflexivity.
  - intros n m Hn%list_elem_of_singleton Hm%list_elem_of_singleton. subst. vm_compute. discriminate.
  - vm_compute. lia.
  - exists fsR'. split; [rewrite (H1 test_name); reflexivity|]. apply H2. apply rtc_refl.
Defined.

Lemma resume_from_nothing_hangs_witness :
  exists f g, runs (one_file 10 test_name false true false test_files ∅) (mkSys (PRecv f) (PRecv g) [] []).
Proof.
  apply (resume_from_nothing_hangs 10 test_name test_content false false test_files ∅).
  - reflexivity.
  - exact test_name_ok.
  - cbn. lia.
  - discriminate.
  - reflexivity.
  - lia.
  - apply rtc_refl.
Defined.

Lemma stale_partial_corrupts_witness :
  exists m (fsR' : Files), fsR' !! test_name = Some ([x78; x79] ++ take m test_content) /\ (0 < m)%nat.
Proof.
  destruct (stale_partial_corrupts 10 test_name test_content [x78; x79] false false test_files (test_stale [x78; x79]))
    as (m & fsR' & _ & _ & _ & H1 & _ & H3 & _);
    [reflexivity|exact test_name_ok|cbn; lia|reflexivity|cbn; lia|cbn; lia|].
  exists m, fsR'. split; [exact H1|exact H3].
Defined.

Lemma resume_trusts_partial_witness :
  exists fsR' : Files, fsR' !! test_name = Some [x78; x79; x33].
Proof.
  destruct (resume_trusts_partial 10 test_name test_content [x78; x79] false false test_files (test_stale [x78; x79]))
    as (fsR' & H1 & _);
    [reflexivity|exact test_name_ok|cbn; lia|reflexivity|cbn; lia|cbn; lia|].
  exists fsR'. exact H1.
Defined.
