(* ===== verification/Parallel.v ===== *)
(** * Parallel copies

    [send_file_parallel] of src/src/bin/seam/copy.rs cuts a file into chunks, one
    per stream, and [receive_parallel] of recv.rs writes each at its offset.  The
    streams are given here as the frames they carry (Frames.v shows what
    becomes of them when their events arrive together). *)

From Stdlib Require Import ZArith Lia Bool List String.
From Stdlib Require Import Strings.Byte.
From stdpp Require Import base list numbers option gmap pretty.
From S2P Require Import Prelude TestCrypto Identity Text Proc Frames Transfer.

Open Scope Z_scope.

Definition div_ceil (a n : nat) : nat := ((a + n - 1) / n)%nat.

(** The offsets and sizes of the [n] chunks: [offset = i * chunk_size] and
    [chunk_size.min(size.saturating_sub(offset))]. *)
Definition chunk_ranges (size n : nat) : list (nat * nat) :=
  let c := div_ceil size n in
  map (fun i => (i * c, Nat.min c (size - i * c))%nat) (seq 0 n).

(** [n.clamp(1, 8)]. *)
Definition clamp_streams (n : nat) : nat := Nat.min (Nat.max n 1) 8.

Section Code.
Context {F : FileHash} {ZS : Zstd}.

Definition chunk_info (i n off len : nat) (name : list byte) : list byte :=
  [CHUNK_INFO; byte_of (Z.of_nat i); byte_of (Z.of_nat n)] ++ to_be 8 (Z.of_nat off) ++ to_be 8 (Z.of_nat len)
  ++ to_be 2 (wrap 16 (Z.of_nat (length name))) ++ name.

(** The payloads of a chunk, [None] if the compressor fails. *)
Fixpoint encode_payloads (compress : bool) (reads : list (list byte)) : option (list (list byte)) :=
  match reads with
  | [] => Some []
  | raw :: reads =>
      match encode_payload compress raw, encode_payloads compress reads with
      | Some p, Some ps => Some (p :: ps)
      | _, _ => None
      end
  end.

(** What one stream of [send_file_parallel] carries. *)
Definition chunk_stream (name content : list byte) (compress fips : bool) (n i : nat) (range : nat * nat)
  : option (list (list byte)) :=
  let chunk := take range.2 (drop range.1 content) in
  match encode_payloads compress (pieces CHUNK chunk) with
  | None => None
  | Some ps => Some ([chunk_info i n range.1 range.2 name] ++ data_frames ps ++ [CHECKSUM :: file_digest fips chunk])
  end.

Fixpoint all_some {A} (l : list (option A)) : option (list A) :=
  match l with
  | [] => Some []
  | Some a :: l => option_map (cons a) (all_some l)
  | None :: _ => None
  end.

(** The PARALLEL_INIT frame and the streams. *)
Definition send_file_parallel (name content : list byte) (compress fips : bool) (n : nat)
  : option (list byte * list (list (list byte))) :=
  let n := clamp_streams n in
  match all_some (imap (fun i r => chunk_stream name content compress fips n i r) (chunk_ranges (length content) n)) with
  | Some streams => Some ([PARALLEL_INIT; byte_of (Z.of_nat n)], streams)
  | None => None
  end.

(** ** The receiver *)

Definition parse_chunk_info (frame : list byte) : (Z * Z * list byte) + string :=
  if (length frame <? 21)%nat || negb (bytes_eqb (take 1 frame) [CHUNK_INFO]) then inr "expected CHUNK_INFO"%string
  else
    let offset := from_be (slice frame 3 11) in
    let chunk_size := from_be (slice frame 11 19) in
    let name_len := Z.to_nat (from_be (slice frame 19 21)) in
    if (length frame <? 21 + name_len)%nat then inr "CHUNK_INFO name truncated"%string
    else match from_utf8 (slice frame 21 (21 + name_len)) with
         | None => inr "invalid utf-8"%string
         | Some name => if dangerous name then inr "refusing dangerous filename in parallel chunk"%string
                        else inl (offset, chunk_size, name)
         end.

(** The first pass: every stream's CHUNK_INFO. *)
Fixpoint read_infos (streams : list (list (list byte))) : list (Z * Z * list byte * list (list byte)) + string :=
  match streams with
  | [] => inl []
  | [] :: _ => inr "waiting"%string
  | (frame :: rest) :: streams =>
      match parse_chunk_info frame, read_infos streams with
      | inr e, _ => inr e
      | inl i, inl l => inl ((i, rest) :: l)
      | _, inr e => inr e
      end
  end.

(** The data of one chunk, written from its offset on. *)
Fixpoint recv_chunk (compress : bool) (path : list byte) (off : Z) (size : Z) (received : nat) (hashed : list byte)
  (frames : list (list byte)) (fs : Files) : Files * (list byte * list (list byte) + string) :=
  if Z.of_nat received <? size then
    match frames with
    | [] => (fs, inr "waiting"%string)
    | [] :: _ => (fs, inr "expected DATA frame"%string)
    | (t :: raw) :: frames =>
        if Byte.eqb t DATA then
          match decode_payload compress raw with
          | None => (fs, inr "zstd"%string)
          | Some d =>
              recv_chunk compress path off size (received + length d) (hashed ++ d) frames
                (fs_write path (Z.to_nat off + received) d fs)
          end
        else (fs, inr "expected DATA frame"%string)
    end
  else (fs, inl (hashed, frames)).

(** Chunk after chunk, with its checksum. *)
Fixpoint recv_chunks (compress fips : bool) (path : list byte) (infos : list (Z * Z * list byte * list (list byte)))
  (fs : Files) : Files * (unit + string) :=
  match infos with
  | [] => (fs, inl tt)
  | ((off, size, _), frames) :: infos =>
      match recv_chunk compress path off size 0 [] frames fs with
      | (fs, inr e) => (fs, inr e)
      | (fs, inl (hashed, [])) => (fs, inr "waiting"%string)
      | (fs, inl (hashed, cksum :: _)) =>
          if is_checksum cksum then
            if bytes_eqb (file_digest fips hashed) (drop 1 cksum) then recv_chunks compress fips path infos fs
            else (fs, inr "chunk mismatch"%string)
          else (fs, inr "missing CHECKSUM frame from chunk stream"%string)
      end
  end.

Definition receive_parallel (compress fips : bool) (streams : list (list (list byte))) (fs : Files)
  : Files * (unit + string) :=
  match read_infos streams with
  | inr e => (fs, inr e)
  | inl infos =>
      match infos with
      | [] => (fs, inr "no chunks"%string)        (* the index out of range panics *)
      | ((_, _, name), _) :: _ =>
          let total := foldr Z.max 0 (map (fun x => wrapping_add 64 x.1.1.1 x.1.1.2) infos) in
          recv_chunks compress fips name infos (<[name := replicate (Z.to_nat total) x00]> fs)
      end
  end.

End Code.

(** * Properties *)

Section Props.
Context {F : FileHash} {FL : FileHashLaws F} {ZS : Zstd} {ZL : ZstdLaws ZS}.

Lemma encode_payloads_ok compress reads :
  exists ps, encode_payloads compress reads = Some ps /\ Forall2 (travels compress) reads ps.
Proof.
  induction reads as [|raw reads (ps & E & H)]; [by exists []|].
  destruct (travels_all compress [raw]) as [p Hp]. inversion Hp as [|x y l k Ht Hn]; subst. inversion Hn; subst.
  exists (y :: ps). cbn. rewrite (proj1 Ht), E. split; [done|by constructor].
Qed.

Lemma parse_chunk_info_ok i n off len name :
  name_ok name -> Z.of_nat off < 2 ^ 64 -> Z.of_nat len < 2 ^ 64 ->
  parse_chunk_info (chunk_info i n off len name) = inl (Z.of_nat off, Z.of_nat len, name).
Proof.
  intros (Hu & Hd & Hl) Ho Hn. unfold parse_chunk_info, chunk_info.
  set (h := [CHUNK_INFO; _; _]). set (b8 := to_be 8 (Z.of_nat off)). set (c8 := to_be 8 (Z.of_nat len)).
  set (b2 := to_be 2 _).
  assert (Lh : length h = 3%nat) by done. assert (L8 : length b8 = 8%nat) by apply length_to_be.
  assert (M8 : length c8 = 8%nat) by apply length_to_be. assert (L2 : length b2 = 2%nat) by apply length_to_be.
  assert (F8 : from_be b8 = Z.of_nat off) by (apply from_be_to_be_small; unfold is_u; lia).
  assert (G8 : from_be c8 = Z.of_nat len) by (apply from_be_to_be_small; unfold is_u; lia).
  assert (F2 : from_be b2 = Z.of_nat (length name)).
  { unfold b2, wrap. rewrite Z.mod_small by lia. apply from_be_to_be_small. unfold is_u. lia. }
  assert (Ht : bytes_eqb (take 1 (h ++ b8 ++ c8 ++ b2 ++ name)) [CHUNK_INFO] = true) by done.
  rewrite Ht. clearbody h b8 c8 b2.
  assert (Hlen : length (h ++ b8 ++ c8 ++ b2 ++ name) = (21 + length name)%nat) by (rewrite !length_app; lia).
  assert (E1 : slice (h ++ b8 ++ c8 ++ b2 ++ name) 3 11 = b8) by (apply (slice_mid h b8); lia).
  assert (E2 : slice (h ++ b8 ++ c8 ++ b2 ++ name) 11 19 = c8).
  { rewrite (app_assoc h). apply (slice_mid (h ++ b8) c8); rewrite ?length_app; lia. }
  assert (E3 : slice (h ++ b8 ++ c8 ++ b2 ++ name) 19 21 = b2).
  { rewrite (app_assoc h), (app_assoc _ c8). apply (slice_mid ((h ++ b8) ++ c8) b2); rewrite ?length_app; lia. }
  assert (E4 : slice (h ++ b8 ++ c8 ++ b2 ++ name) 21 (21 + length name) = name).
  { rewrite (app_assoc h), (app_assoc _ c8), (app_assoc _ b2). apply slice_last; rewrite ?length_app; lia. }
  rewrite Hlen, E1, E2, E3, F8, G8, F2, Nat2Z.id, E4.
  rewrite (proj2 (Nat.ltb_ge _ 21)), (proj2 (Nat.ltb_ge _ (21 + length name))) by lia. cbn [negb orb].
  unfold from_utf8. by rewrite Hu, Hd.
Qed.

Lemma write_at_inside off d (l : list byte) :
  (off <= length l)%nat -> write_at off d l = take off l ++ d ++ drop (off + length d) l.
Proof.
  intros Ho. unfold write_at, resize_bytes. replace (off - length l)%nat with 0%nat by lia. by rewrite app_nil_r.
Qed.

Lemma write_at_twice off h d (l : list byte) :
  (off <= length l)%nat -> write_at (off + length h) d (write_at off h l) = write_at off (h ++ d) l.
Proof.
  intros Ho. rewrite (write_at_inside off h) by done. rewrite write_at_inside.
  2: { rewrite !length_app, length_take, length_drop. lia. }
  rewrite (write_at_inside off (h ++ d)) by done.
  assert (Hlen : length (take off l ++ h) = (off + length h)%nat) by (rewrite length_app, length_take; lia).
  rewrite (app_assoc (take off l) h (drop (off + length h) l)).
  rewrite (take_app_length' (take off l ++ h)), (drop_app_ge (take off l ++ h)) by lia.
  rewrite drop_drop, <- !app_assoc, !length_app, length_take. do 4 f_equal. lia.
Qed.

Lemma recv_chunk_run compress path off size more l reads ps :
  Forall2 (travels compress) reads ps -> Forall (fun r => r <> []) reads -> forall received hashed fs,
  fs !! path = Some (write_at off hashed l) -> length hashed = received -> (off <= length l)%nat ->
  (size = received + length (concat reads))%nat ->
  recv_chunk compress path (Z.of_nat off) (Z.of_nat size) received hashed (data_frames ps ++ more) fs
  = (<[path := write_at off (hashed ++ concat reads) l]> fs, inl (hashed ++ concat reads, more)).
Proof.
  induction 1 as [|raw p reads ps [_ Hd] _ IH]; intros Hne received hashed fs Hfs Hh Ho Hsz; cbn [data_frames tagged map app].
  - cbn in *. rewrite app_nil_r, insert_id by done. destruct more; cbn [recv_chunk];
      by rewrite (proj2 (Z.ltb_ge _ _)) by lia.
  - apply List.Forall_cons_iff in Hne as [Hr Hne]. cbn [concat] in *. rewrite length_app in Hsz.
    assert (0 < length raw)%nat by (destruct raw; [done|cbn; lia]).
    cbn [recv_chunk]. rewrite (proj2 (Z.ltb_lt _ _)) by lia. change (Byte.eqb DATA DATA) with true. cbn iota.
    rewrite Hd, Nat2Z.id.
    assert (Hw : fs_write path (off + received) raw fs = <[path := write_at off (hashed ++ raw) l]> fs).
    { unfold fs_write. rewrite Hfs. cbn [default from_option id]. by rewrite <- Hh, write_at_twice. }
    rewrite Hw. fold (data_frames ps). rewrite IH; [|done|by rewrite lookup_insert_eq|rewrite length_app; lia|done|lia].
    rewrite insert_insert_eq, <- !app_assoc. done.
Qed.

(** ** The ranges *)

Lemma div_ceil_spec a n : (0 < n)%nat -> (a <= n * div_ceil a n)%nat.
Proof.
  intros Hn. unfold div_ceil. pose proof (Nat.div_mod_eq (a + n - 1) n). pose proof (Nat.mod_upper_bound (a + n - 1) n).
  nia.
Qed.

(** The file after the first [i] chunks. *)
Definition filled (content : list byte) (total done : nat) : list byte :=
  take done content ++ replicate (total - Nat.min done (length content)) x00.

Lemma length_filled content total done :
  (length content <= total)%nat -> length (filled content total done) = total.
Proof. intros Hl. unfold filled. rewrite length_app, length_take, length_replicate. lia. Qed.

Lemma write_chunk content total c off :
  (length content <= total)%nat -> (off <= total)%nat ->
  write_at off (take (Nat.min c (length content - off)) (drop off content)) (filled content total off)
  = filled content total (off + c).
Proof.
  intros Hl Ho. set (size := length content) in *. set (len := Nat.min c (size - off)).
  assert (Hlen : length (take len (drop off content)) = len).
  { rewrite length_take, length_drop. unfold len, size. lia. }
  rewrite write_at_inside by (rewrite length_filled; lia). rewrite Hlen. unfold filled. fold size.
  destruct (decide (size <= off)%nat) as [Hge|Hlt].
  - assert (len = 0%nat) as -> by (unfold len; lia). rewrite take_0, Nat.add_0_r, app_nil_l, take_drop.
    rewrite !Nat.min_r by lia. by rewrite !take_ge by (fold size; lia).
  - rewrite take_app_le by (rewrite length_take; fold size; lia). rewrite take_take, Nat.min_id.
    rewrite drop_app_ge by (rewrite length_take; fold size; lia). rewrite length_take. fold size.
    rewrite (Nat.min_l off size) by lia. rewrite drop_replicate.
    rewrite app_assoc. f_equal.
    + rewrite take_take_drop. destruct (decide (c <= size - off)%nat) as [Hc|Hc].
      * by replace len with c by (unfold len; lia).
      * rewrite !take_ge by (fold size; unfold len; lia). done.
    + f_equal. unfold len. lia.
Qed.

(** ** Sender and receiver together *)

Definition range_ok (r : nat * nat) : Prop := Z.of_nat r.1 < 2 ^ 63 /\ Z.of_nat r.2 < 2 ^ 63.

Definition carries (name content : list byte) (compress fips : bool) (r : nat * nat) (rest : list (list byte)) : Prop :=
  let chunk := take r.2 (drop r.1 content) in
  exists ps, rest = data_frames ps ++ [CHECKSUM :: file_digest fips chunk]
    /\ Forall2 (travels compress) (pieces CHUNK chunk) ps.

Lemma streams_ok name content compress fips n ranges : forall d,
  exists streams,
    all_some (imap (fun i r => chunk_stream name content compress fips n (d + i) r) ranges) = Some streams
    /\ Forall2 (fun r st => exists i rest, st = chunk_info i n r.1 r.2 name :: rest
         /\ carries name content compress fips r rest) ranges streams.
Proof.
  induction ranges as [|r ranges IH]; intros d; [by exists []|].
  destruct (IH (S d)) as (streams & E & Hs).
  destruct (encode_payloads_ok compress (pieces CHUNK (take r.2 (drop r.1 content)))) as (ps & Ep & Hps).
  eexists (_ :: streams). split.
  - rewrite imap_cons. cbn [all_some]. unfold chunk_stream at 1. rewrite Ep.
    assert (Hext : imap ((fun i r0 => chunk_stream name content compress fips n (d + i) r0) ∘ S) ranges
      = imap (fun i r0 => chunk_stream name content compress fips n (S d + i) r0) ranges).
    { apply imap_ext. intros i x _. cbn. by rewrite Nat.add_succ_r. }
    rewrite Hext, E. reflexivity.
  - constructor; [|done]. exists (d + 0)%nat. eexists. split; [reflexivity|]. by exists ps.
Qed.

Lemma read_infos_ok name content compress fips n ranges streams :
  name_ok name -> Forall range_ok ranges ->
  Forall2 (fun r st => exists i rest, st = chunk_info i n r.1 r.2 name :: rest
    /\ carries name content compress fips r rest) ranges streams ->
  exists rests, read_infos streams
      = inl (zip_with (fun r rest => ((Z.of_nat r.1, Z.of_nat r.2, name), rest)) ranges rests)
    /\ Forall2 (carries name content compress fips) ranges rests.
Proof.
  intros Hok Hr Hs. induction Hs as [|r st ranges streams (i & rest & -> & Hc) _ IH]; [by exists []|].
  apply List.Forall_cons_iff in Hr as [[H1 H2] Hr]. destruct (IH Hr) as (rests & E & Hrs).
  exists (rest :: rests). split; [|by constructor]. cbn [read_infos]. rewrite parse_chunk_info_ok by (done || lia).
  by rewrite E.
Qed.

Lemma recv_chunks_ok compress fips name content total c rests : forall i0 fs,
  let size := length content in
  Forall2 (carries name content compress fips)
    (map (fun i => (i * c, Nat.min c (size - i * c))%nat) (seq i0 (length rests))) rests ->
  fs !! name = Some (filled content total (i0 * c)) -> (size <= total)%nat ->
  ((i0 + length rests - 1) * c <= total)%nat ->
  recv_chunks compress fips name
    (zip_with (fun r rest => ((Z.of_nat r.1, Z.of_nat r.2, name), rest))
       (map (fun i => (i * c, Nat.min c (size - i * c))%nat) (seq i0 (length rests))) rests) fs
  = (<[name := filled content total ((i0 + length rests) * c)]> fs, inl tt).
Proof.
  induction rests as [|rest rests IH]; intros i0 fs size Hc Hfs Hsz Ht; cbn [length seq map zip_with recv_chunks] in *.
  - by rewrite Nat.add_0_r, insert_id.
  - inversion Hc as [|x y l k (ps & -> & Hps) Hc']; subst. cbn [fst snd] in *.
    set (chunk := take (Nat.min c (size - i0 * c)) (drop (i0 * c) content)) in *.
    destruct (pieces_spec CHUNK chunk ltac:(unfold CHUNK; lia)) as (Hcat & Hne & _).
    assert (Hoff : (i0 * c <= total)%nat) by (cbn in Ht; nia).
    assert (Hchunk : length chunk = Nat.min c (size - i0 * c)).
    { unfold chunk. rewrite length_take, length_drop. unfold size. lia. }
    rewrite (recv_chunk_run compress name (i0 * c) (Nat.min c (size - i0 * c)) _ (filled content total (i0 * c)) _ ps Hps Hne 0 []).
    + rewrite Hcat. cbn [app]. destruct (checksum_frame fips chunk) as [-> ->].
      pose proof (write_chunk content total c (i0 * c) Hsz Hoff) as Hw. fold size in Hw. fold chunk in Hw. rewrite Hw.
      replace (i0 * c + c)%nat with (S i0 * c)%nat by lia.
      rewrite IH; [|done|by rewrite lookup_insert_eq|done|cbn in *; lia].
      rewrite insert_insert_eq. do 3 f_equal. lia.
    + rewrite Hfs. f_equal. rewrite write_at_inside by (rewrite length_filled; lia). cbn [app length].
      by rewrite Nat.add_0_r, take_drop.
    + done.
    + rewrite length_filled; lia.
    + by rewrite Hcat, Hchunk.
Qed.

Lemma foldr_max (l : list Z) m : 0 <= m -> (forall x, x ∈ l -> x <= m) -> m ∈ l -> foldr Z.max 0 l = m.
Proof.
  intros Hm Hle Hin. assert (Hub : forall l', (forall x, x ∈ l' -> x <= m) -> foldr Z.max 0 l' <= m).
  { clear Hin. induction l' as [|x l' IH]; intros Hl'; cbn; [done|].
    pose proof (Hl' x ltac:(by left)). pose proof (IH ltac:(intros y Hy; apply Hl'; by right)). lia. }
  pose proof (Hub l Hle). cut (m <= foldr Z.max 0 l); [lia|]. clear Hub Hle.
  induction l as [|x l IH]; [by apply not_elem_of_nil in Hin|]. cbn.
  apply elem_of_cons in Hin as [->|Hin]; [lia|]. specialize (IH Hin). cbn in *. lia.
Qed.

(** A parallel copy of a small file pads it.  All chunks arrive and every
    checksum matches, but the receiver takes the furthest end of any chunk for
    the file's size, and with more streams than the file can fill the last chunks
    lie beyond its end: the copy is the file followed by zeros up to
    [(n - 1) * ceil(size / n)], and the file exactly when that is no more than
    its size. *)
Theorem parallel_copy_pads name content compress fips n (fs : Files) :
  name_ok name -> Z.of_nat (length content) < 2 ^ 60 ->
  let k := clamp_streams n in
  exists init streams,
    send_file_parallel name content compress fips n = Some (init, streams)
    /\ receive_parallel compress fips streams fs
       = (<[name := content ++ replicate ((k - 1) * div_ceil (length content) k - length content) x00]> fs, inl tt).
Proof.
  intros Hok Hsz k. assert (Hk : (1 <= k <= 8)%nat) by (unfold k, clamp_streams; lia).
  set (size := length content) in *. set (c := div_ceil size k).
  assert (Hc : (size <= k * c)%nat) by (apply div_ceil_spec; lia).
  assert (Hcub : (c <= size)%nat \/ (size = 0 /\ c = 0)%nat).
  { unfold c, div_ceil. destruct (decide (size = 0)%nat) as [->|Hn0]; [right; split; [done|apply Nat.div_small; lia]|].
    left. apply Nat.Div0.div_le_upper_bound. nia. }
  destruct (streams_ok name content compress fips k (chunk_ranges size k) 0) as (streams & Es & Hs).
  assert (Hr : Forall range_ok (chunk_ranges size k)).
  { unfold chunk_ranges. fold c. apply List.Forall_map, List.Forall_forall. intros i Hi%in_seq. split; cbn [fst snd]; nia. }
  destruct (read_infos_ok name content compress fips k _ streams Hok Hr Hs) as (rests & Ei & Hrs).
  eexists _, streams. split.
  { unfold send_file_parallel. fold k size. cbn [Nat.add] in Es. by rewrite Es. }
  unfold receive_parallel. rewrite Ei. pose proof (Forall2_length _ _ _ Hrs) as Hlen.
  unfold chunk_ranges in Hlen. rewrite length_map, length_seq in Hlen.
  unfold chunk_ranges in Hr, Hrs |- *. fold c in Hr, Hrs |- *. set (total := Nat.max size ((k - 1) * c)).
  assert (Ht : foldr Z.max 0 (map (fun x => wrapping_add 64 x.1.1.1 x.1.1.2)
      (zip_with (fun r rest => ((Z.of_nat r.1, Z.of_nat r.2, name), rest))
         (map (fun i => (i * c, Nat.min c (size - i * c))%nat) (seq 0 k)) rests)) = Z.of_nat total).
  { assert (Hz : forall ranges rests', Forall2 (carries name content compress fips) ranges rests' ->
      Forall range_ok ranges ->
      map (fun x => wrapping_add 64 x.1.1.1 x.1.1.2)
        (zip_with (fun r rest => ((Z.of_nat r.1, Z.of_nat r.2, name), rest)) ranges rests')
      = map (fun r => Z.of_nat (r.1 + r.2)) ranges).
    { induction 1 as [|r rest ranges rests' _ _ IH]; intros Hro; [done|].
      apply List.Forall_cons_iff in Hro as [[H1 H2] Hro]. cbn [zip_with map fst snd]. rewrite (IH Hro). f_equal.
      unfold wrapping_add, wrap. rewrite Z.mod_small by lia. lia. }
    rewrite (Hz _ _ Hrs Hr), map_map. cbn [fst snd]. apply foldr_max; [lia| |].
    - intros x Hx. apply list_elem_of_In, in_map_iff in Hx as (i & <- & Hi%in_seq). unfold total. nia.
    - apply list_elem_of_In, in_map_iff. exists (k - 1)%nat. split; [|apply in_seq; lia].
      unfold total. assert (k * c = (k - 1) * c + c)%nat by nia. lia. }
  rewrite Ht, Nat2Z.id.
  assert (Hrun : recv_chunks compress fips name
      (zip_with (fun r rest => ((Z.of_nat r.1, Z.of_nat r.2, name), rest))
         (map (fun i => (i * c, Nat.min c (size - i * c))%nat) (seq 0 k)) rests) (<[name := replicate total x00]> fs)
    = (<[name := content ++ replicate ((k - 1) * c - size) x00]> fs, inl tt)).
  { rewrite Hlen in Hrs |- *. rewrite (recv_chunks_ok compress fips name content total c rests 0).
    - rewrite insert_insert_eq. do 3 f_equal. unfold filled. cbn [Nat.add]. rewrite <- Hlen. fold size.
      rewrite take_ge, Nat.min_r by (fold size; lia). do 2 f_equal. unfold total. lia.
    - exact Hrs.
    - rewrite lookup_insert_eq. unfold filled. cbn [Nat.mul]. rewrite take_0. cbn [Nat.min app].
      by rewrite Nat.sub_0_r.
    - fold size. unfold total. lia.
    - rewrite <- Hlen. cbn [Nat.add]. unfold total. lia. }
  destruct rests as [|rest0 rests]; [cbn in Hlen; lia|]. destruct k as [|k']; [lia|]. cbn [seq map zip_with] in *.
  exact Hrun.
Qed.

End Props.

(** ** Witness *)

Lemma parallel_copy_pads_witness :
  exists init streams,
    send_file_parallel test_name (replicate 9 x41) true false 8 = Some (init, streams)
    /\ receive_parallel true false streams ∅ = ({[test_name := replicate 9 x41 ++ replicate 5 x00]}, inl tt).
Proof.
  exact (parallel_copy_pads test_name (replicate 9 x41) true false 8 ∅ test_name_ok ltac:(cbn; lia)).
Defined.
