(* ===== verification/Sync.v ===== *)
(** * Directory synchronisation

    src/src/bin/seam/sync.rs: both sides exchange manifests of their files, and
    the files that differ go over the control stream.  The order in which a
    directory is walked is a parameter. *)

From Stdlib Require Import ZArith Lia Bool List String FunctionalExtensionality.
From Stdlib Require Import Strings.Byte.
From stdpp Require Import base list numbers option relations gmap pretty.
From S2P Require Import Prelude TestCrypto Identity Text Proc Frames Transfer.

Open Scope Z_scope.

Definition SYNC_MANIFEST : byte := x20.
Definition SYNC_FILE : byte := x21.
Definition SYNC_FILE_DATA : byte := x22.
Definition SYNC_FILE_ACK : byte := x23.
Definition SYNC_DELETE : byte := x24.
Definition SYNC_DONE : byte := x25.
Definition SYNC_HASH_LEN : nat := 32.

Record ManifestEntry : Type := mkManifestEntry {
  me_path : list byte;
  me_size : Z;
  me_hash : list byte                       (* 32 bytes *)
}.

(** ** Manifests on the wire *)

Definition encode_entry (e : ManifestEntry) : list byte :=
  to_be 4 (wrap 32 (Z.of_nat (length (me_path e)))) ++ me_path e ++ to_be 8 (me_size e) ++ me_hash e.

Definition encode_manifest (entries : list ManifestEntry) : list byte :=
  [SYNC_MANIFEST] ++ to_be 4 (wrap 32 (Z.of_nat (length entries))) ++ concat (map encode_entry entries).

(** [data[pos..]] in every round. *)
Fixpoint decode_entries (count : nat) (data : list byte) : list ManifestEntry + string :=
  match count with
  | O => inl []
  | S count =>
      if (length data <? 4)%nat then inr "manifest truncated at path_len"%string
      else
        let path_len := Z.to_nat (from_be (take 4 data)) in
        let data := drop 4 data in
        if (length data <? path_len + 8 + SYNC_HASH_LEN)%nat then inr "manifest truncated at path"%string
        else match from_utf8 (take path_len data) with
             | None => inr "invalid utf-8"%string
             | Some path =>
                 let data := drop path_len data in
                 let size := from_be (take 8 data) in
                 let hash := take SYNC_HASH_LEN (drop 8 data) in
                 match decode_entries count (drop SYNC_HASH_LEN (drop 8 data)) with
                 | inl es => inl (mkManifestEntry path size hash :: es)
                 | inr e => inr e
                 end
             end
  end.

Definition MIN_ENTRY_LEN : nat := 4 + 8 + SYNC_HASH_LEN.

Definition decode_manifest (data : list byte) : list ManifestEntry + string :=
  match data with
  | t :: data =>
      if Byte.eqb t SYNC_MANIFEST then
        if (length data <? 4)%nat then inr "manifest too short"%string
        else
          let count := from_be (take 4 data) in
          if Z.of_nat (length data / MIN_ENTRY_LEN) <? count
          then inr ("manifest entry count " ++ pretty count ++ " implausible for " ++ pretty (Z.of_nat (length data))
                    ++ " bytes of data")%string
          else decode_entries (Z.to_nat count) (drop 4 data)
      else inr "expected SYNC_MANIFEST frame"%string
  | [] => inr "expected SYNC_MANIFEST frame"%string
  end.

(** ** The comparison *)

(** [HashMap] from path to entry: the last of several wins. *)
Definition index (entries : list ManifestEntry) : gmap (list byte) ManifestEntry :=
  fold_left (fun m e => <[me_path e := e]> m) entries ∅.

(** The entries the other side lacks or holds with another hash. *)
Definition differing (mine theirs : list ManifestEntry) : list ManifestEntry :=
  filter (fun e => match index theirs !! me_path e with
                   | None => true
                   | Some te => negb (bytes_eqb (me_hash te) (me_hash e))
                   end = true) mine.

(** The paths to delete: theirs that are not mine. *)
Definition extraneous (mine theirs : list ManifestEntry) : list (list byte) :=
  map me_path (filter (fun e => me_path e ∉ map me_path mine) theirs).

Section Code.
Context {F : FileHash} {ZS : Zstd} (walk : Files -> list (list byte)).
Local Open Scope io_scope.

Definition build_manifest (fips : bool) (fs : Files) : list ManifestEntry :=
  map (fun p => let c := default [] (fs !! p) in
                mkManifestEntry p (Z.of_nat (length c)) (file_digest fips c)) (walk fs).

(** ** One file *)

Definition sync_header (path : list byte) (size : Z) : list byte :=
  [SYNC_FILE] ++ to_be 4 (wrap 32 (Z.of_nat (length path))) ++ path ++ to_be 8 size.

Definition send_sync_file (e : ManifestEntry) (compress fips : bool) : IO unit :=
  io_send (sync_header (me_path e) (me_size e)) ;;
  do fs := get_files in
  do content := io_of (fs !! me_path e) "No such file or directory" in
  do hashed := send_tagged SYNC_FILE_DATA compress (pieces CHUNK content) 0 (Z.to_nat (me_size e)) [] in
  io_send (CHECKSUM :: file_digest fips hashed) ;;
  do reply := io_recv in
  if bytes_eqb (take 1 reply) [SYNC_FILE_ACK] then ioret tt
  else bail ("sync: integrity check failed for " ++ text (me_path e)).

Definition parse_sync_header (frame : list byte) : (list byte * Z) + string :=
  if (length frame <? 13)%nat then inr "sync file header too short"%string
  else
    let path_len := Z.to_nat (from_be (slice frame 1 5)) in
    if (length frame <? 5 + path_len + 8)%nat then inr "sync file header truncated"%string
    else match from_utf8 (slice frame 5 (5 + path_len)) with
         | None => inr "invalid utf-8"%string
         | Some path =>
             if dangerous path then inr ("refusing dangerous path: " ++ text path)%string
             else inl (path, from_be (slice frame (5 + path_len) (5 + path_len + 8)))
         end.

(** The error of a frame that is not data. *)
Definition bad_sync_frame (path frame : list byte) : string :=
  match frame with
  | [] => "sync: unexpected empty frame while receiving " ++ text path
  | t :: _ => if Byte.eqb t CHECKSUM then "sync: received CHECKSUM before all data for " ++ text path
              else "sync: expected SYNC_FILE_DATA, got 0x" ++ text (hex_encode [t])
  end.

Definition recv_sync_file (fuel : nat) (header : list byte) (compress fips : bool) : IO unit :=
  match parse_sync_header header with
  | inr msg => bail msg
  | inl (path, size) =>
      open_for_write path 0 ;;
      do hashed := recv_tagged SYNC_FILE_DATA (bad_sync_frame path) fuel compress path size 0 [] in
      do cksum := io_recv in
      if is_checksum cksum then
        if bytes_eqb (file_digest fips hashed) (drop 1 cksum) then io_send [SYNC_FILE_ACK]
        else bail ("sync: " ++ algo_name fips ++ " mismatch for " ++ text path)
      else bail "sync: expected CHECKSUM frame"
  end.

Fixpoint send_entries (entries : list ManifestEntry) (compress fips : bool) : IO unit :=
  match entries with
  | [] => ioret tt
  | e :: entries => send_sync_file e compress fips ;; send_entries entries compress fips
  end.

(** Files until SYNC_DONE. *)
Fixpoint recv_files (who : string) (fuel : nat) (compress fips : bool) : IO unit :=
  match fuel with
  | O => io_fuel
  | S fuel' =>
      do frame := io_recv in
      match frame with
      | [] => bail (who ++ ": unexpected empty frame")
      | t :: _ =>
          if Byte.eqb t SYNC_FILE then recv_sync_file fuel frame compress fips ;; recv_files who fuel' compress fips
          else if Byte.eqb t SYNC_DONE then ioret tt
          else bail (who ++ ": unexpected frame 0x" ++ text (hex_encode [t]))
      end
  end.

(** ** Deletions *)

Definition delete_frame (path : list byte) : list byte :=
  [SYNC_DELETE] ++ to_be 4 (wrap 32 (Z.of_nat (length path))) ++ path.

Fixpoint send_deletes (paths : list (list byte)) : IO unit :=
  match paths with
  | [] => ioret tt
  | p :: paths => io_send (delete_frame p) ;; send_deletes paths
  end.

Fixpoint recv_deletes (fuel : nat) : IO unit :=
  match fuel with
  | O => io_fuel
  | S fuel =>
      do frame := io_recv in
      match frame with
      | [] => bail "sync-recv: unexpected empty frame in delete phase"
      | t :: _ =>
          if Byte.eqb t SYNC_DELETE then
            if (length frame <? 5)%nat then recv_deletes fuel
            else
              let path_len := Z.to_nat (from_be (slice frame 1 5)) in
              if (length frame <? 5 + path_len)%nat then recv_deletes fuel
              else
                do path := io_of (from_utf8 (slice frame 5 (5 + path_len))) "invalid utf-8" in
                do fs := get_files in
                put_files (if dangerous path then fs else delete path fs) ;;
                recv_deletes fuel
          else if Byte.eqb t SYNC_DONE then ioret tt
          else recv_deletes fuel
      end
  end.

Definition io_result {A} (r : A + string) : IO A :=
  match r with inl a => ioret a | inr e => bail e end.

(** ** Push and pull *)

(** The client of a push, after the connection is up. *)
Definition push_client (delete_extra compress fips : bool) : IO unit :=
  do fs := get_files in
  let mine := build_manifest fips fs in
  io_send (encode_manifest mine) ;;
  do frame := io_recv in
  do theirs := io_result (decode_manifest frame) in
  send_entries (differing mine theirs) compress fips ;;
  io_send [SYNC_DONE] ;;
  (if delete_extra then send_deletes (extraneous mine theirs) else ioret tt) ;;
  io_send [SYNC_DONE].

Definition push_server (fuel : nat) (delete_extra compress fips : bool) : IO unit :=
  do frame := io_recv in
  do _theirs := io_result (decode_manifest frame) in
  do fs := get_files in
  io_send (encode_manifest (build_manifest fips fs)) ;;
  recv_files "sync-recv" fuel compress fips ;;
  (if delete_extra then recv_deletes fuel else ioret tt).

Definition delete_all (paths : list (list byte)) (fs : Files) : Files := foldr delete fs paths.

Definition pull_client (fuel : nat) (delete_extra compress fips : bool) : IO unit :=
  do frame := io_recv in
  do theirs := io_result (decode_manifest frame) in
  do fs := get_files in
  let mine := build_manifest fips fs in
  io_send (encode_manifest mine) ;;
  recv_files "sync" fuel compress fips ;;
  (if delete_extra then
     do fs := get_files in put_files (delete_all (extraneous theirs mine) fs)
   else ioret tt).

Definition pull_server (compress fips : bool) : IO unit :=
  do fs := get_files in
  let mine := build_manifest fips fs in
  io_send (encode_manifest mine) ;;
  do frame := io_recv in
  do theirs := io_result (decode_manifest frame) in
  send_entries (differing mine theirs) compress fips ;;
  io_send [SYNC_DONE].

End Code.

(** * Properties *)

(** ** Manifests *)

Definition entry_ok (e : ManifestEntry) : Prop :=
  utf8_valid (me_path e) = true /\ Z.of_nat (length (me_path e)) < 2 ^ 32 /\ is_u 64 (me_size e)
  /\ length (me_hash e) = 32%nat.

Lemma wrap_len n w : Z.of_nat n < 2 ^ w -> wrap w (Z.of_nat n) = Z.of_nat n.
Proof. intros Hn. unfold wrap. apply Z.mod_small. lia. Qed.

Lemma from_be_len (n : nat) w : 8 * Z.of_nat n = w -> forall m : nat, Z.of_nat m < 2 ^ w ->
  from_be (to_be n (wrap w (Z.of_nat m))) = Z.of_nat m.
Proof.
  intros Hw m Hm. rewrite wrap_len by done. apply from_be_to_be_small. rewrite Hw. unfold is_u. lia.
Qed.

Lemma decode_entries_ok es : Forall entry_ok es -> forall rest,
  decode_entries (length es) (concat (map encode_entry es) ++ rest) = inl es.
Proof.
  induction 1 as [|e es (Hu & Hl & Hs & Hh) _ IH]; intros rest; [done|].
  set (b4 := to_be 4 (wrap 32 (Z.of_nat (length (me_path e))))). set (b8 := to_be 8 (me_size e)).
  assert (L4 : length b4 = 4%nat) by apply length_to_be. assert (L8 : length b8 = 8%nat) by apply length_to_be.
  assert (F4 : from_be b4 = Z.of_nat (length (me_path e))) by (by apply from_be_len).
  assert (F8 : from_be b8 = me_size e) by (by apply from_be_to_be_small).
  set (tail := concat (map encode_entry es) ++ rest).
  assert (E : concat (map encode_entry (e :: es)) ++ rest = b4 ++ me_path e ++ b8 ++ me_hash e ++ tail).
  { cbn [map concat]. unfold encode_entry at 1. fold b4 b8. unfold tail. by rewrite <- !app_assoc. }
  rewrite E. clearbody b4 b8. cbn [length decode_entries].
  rewrite (proj2 (Nat.ltb_ge _ 4)) by (rewrite length_app; lia).
  rewrite (take_app_length' b4), (drop_app_length' b4), F4, Nat2Z.id by done.
  rewrite (proj2 (Nat.ltb_ge _ _)) by (rewrite !length_app; unfold SYNC_HASH_LEN; lia).
  rewrite (take_app_length (me_path e)), (drop_app_length (me_path e)). unfold from_utf8. rewrite Hu.
  rewrite (take_app_length' b8), (drop_app_length' b8), F8 by done.
  rewrite (take_app_length' (me_hash e)), (drop_app_length' (me_hash e)) by done.
  unfold tail. rewrite IH. by destruct e.
Qed.

Lemma length_encode_entries es :
  Forall entry_ok es -> (44 * length es <= length (concat (map encode_entry es)))%nat.
Proof.
  induction 1 as [|e es (_ & _ & _ & Hh) _ IH]; [done|]. cbn [length map concat].
  rewrite length_app. unfold encode_entry at 1. rewrite !length_app, !length_to_be, Hh. lia.
Qed.

Lemma manifest_round es :
  Forall entry_ok es -> Z.of_nat (length es) < 2 ^ 32 -> decode_manifest (encode_manifest es) = inl es.
Proof.
  intros He Hn. unfold decode_manifest, encode_manifest. cbn [app].
  change (Byte.eqb SYNC_MANIFEST SYNC_MANIFEST) with true. cbn iota.
  set (b4 := to_be 4 _). assert (L4 : length b4 = 4%nat) by apply length_to_be.
  assert (F4 : from_be b4 = Z.of_nat (length es)) by (by apply from_be_len). clearbody b4.
  pose proof (length_encode_entries es He) as Hlen.
  rewrite (proj2 (Nat.ltb_ge _ 4)) by (rewrite length_app; lia).
  rewrite (take_app_length' b4), (drop_app_length' b4), F4, Nat2Z.id by done.
  rewrite (proj2 (Z.ltb_ge _ _)).
  - pose proof (decode_entries_ok es He []) as Hd. by rewrite app_nil_r in Hd.
  - apply Nat2Z.inj_le. apply Nat.div_le_lower_bound; [done|]. rewrite length_app. unfold MIN_ENTRY_LEN, SYNC_HASH_LEN.
    lia.
Qed.

(** A manifest cannot make its reader allocate more than it sent: whatever the
    bytes, the number of entries that space is reserved for is at most a
    forty-fourth of their number, and a manifest that decodes has exactly the
    number it declared. *)
Theorem manifest_count_bounded data es :
  decode_manifest data = inl es ->
  Z.of_nat (length es) = from_be (slice data 1 5) /\ (44 * length es <= length data)%nat.
Proof.
  unfold decode_manifest. destruct data as [|t data]; [done|]. destruct (Byte.eqb t SYNC_MANIFEST); [|done].
  destruct (length data <? 4)%nat eqn:E4; [done|]. apply Nat.ltb_ge in E4.
  destruct (_ <? from_be (take 4 data)) eqn:Ec; [done|]. apply Z.ltb_ge in Ec. intros Hd.
  assert (Hn : forall n d l, decode_entries n d = inl l -> length l = n).
  { clear. induction n as [|n IH]; intros d l Hd; cbn [decode_entries] in Hd; [by injection Hd as <-|].
    destruct (_ <? 4)%nat; [done|]. destruct (_ <? _ + 8 + SYNC_HASH_LEN)%nat; [done|]. destruct (from_utf8 _); [|done].
    destruct (decode_entries n _) as [l'|] eqn:E; [|done]. injection Hd as <-. cbn. f_equal. by eapply IH. }
  apply Hn in Hd. assert (Hs : slice (t :: data) 1 5 = take 4 data) by (unfold slice; cbn [drop Nat.sub]; done).
  pose proof (proj1 (from_le_bound (rev (take 4 data)))) as Hpos. fold (from_be (take 4 data)) in Hpos. rewrite Hs, Hd. split; [by rewrite Z2Nat.id|].
  cbn [length]. assert (Z.to_nat (from_be (take 4 data)) <= length data / MIN_ENTRY_LEN)%nat by lia.
  pose proof (Nat.Div0.mul_div_le (length data) MIN_ENTRY_LEN). unfold MIN_ENTRY_LEN, SYNC_HASH_LEN in *. lia.
Qed.

(** ** The comparison *)

Lemma index_fold es : forall (m : gmap (list byte) ManifestEntry) p,
  fold_left (fun m e => <[me_path e := e]> m) es m !! p
  = match last (filter (fun e => me_path e = p) es) with Some e => Some e | None => m !! p end.
Proof.
  induction es as [|e es IH]; intros m p; [done|]. cbn [fold_left]. rewrite IH, filter_cons.
  destruct (decide (me_path e = p)) as [Hp|Hp].
  - rewrite last_cons. destruct (last (filter _ es)); [done|]. subst. by rewrite lookup_insert_eq.
  - destruct (last (filter _ es)); [done|]. by rewrite lookup_insert_ne.
Qed.

Lemma index_Some es p e : index es !! p = Some e -> e ∈ es /\ me_path e = p.
Proof.
  unfold index. rewrite index_fold. destruct (last _) as [x|] eqn:E; [|by rewrite lookup_empty].
  intros [= ->]. apply last_Some_elem_of in E. apply list_elem_of_filter in E as [? ?]. done.
Qed.

Lemma index_None es p : index es !! p = None -> forall e, e ∈ es -> me_path e <> p.
Proof.
  unfold index. rewrite index_fold. destruct (last _) as [x|] eqn:E; [done|]. intros _ e He Hp.
  apply last_None in E. assert (Hin : e ∈ filter (fun e => me_path e = p) es) by (by apply list_elem_of_filter).
  rewrite E in Hin. by apply not_elem_of_nil in Hin.
Qed.

Lemma elem_of_differing mine theirs e :
  e ∈ differing mine theirs <-> e ∈ mine /\ forall te, index theirs !! me_path e = Some te -> me_hash te <> me_hash e.
Proof.
  unfold differing. rewrite list_elem_of_filter. split.
  - intros [Hd Hm]. split; [done|]. intros te Hte. rewrite Hte in Hd. apply negb_true_iff in Hd.
    intros Heq. assert (bytes_eqb (me_hash te) (me_hash e) = true) by (by apply bytes_eqb_eq). congruence.
  - intros [Hm Hd]. split; [|done]. destruct (index theirs !! me_path e) as [te|] eqn:E; [|done].
    apply negb_true_iff, not_true_is_false. rewrite bytes_eqb_eq. by apply Hd.
Qed.

Section Runs.
Context {F : FileHash} {FL : FileHashLaws F} {ZS : Zstd} {ZL : ZstdLaws ZS} (walk : Files -> list (list byte)).
Hypothesis walk_spec : forall fs p, p ∈ walk fs <-> is_Some (fs !! p).

Lemma elem_of_manifest fips fs e :
  e ∈ build_manifest walk fips fs <->
  exists c, fs !! me_path e = Some c /\ e = mkManifestEntry (me_path e) (Z.of_nat (length c)) (file_digest fips c).
Proof.
  unfold build_manifest. rewrite list_elem_of_In, in_map_iff. split.
  - intros (p & <- & Hp). apply list_elem_of_In, walk_spec in Hp as [c Hc]. cbn. rewrite Hc. by exists c.
  - intros (c & Hc & ->). cbn in *. exists (me_path e). rewrite Hc. split; [done|].
    by apply list_elem_of_In, walk_spec.
Qed.

(** ** One file *)

Definition path_ok (p : list byte) : Prop := utf8_valid p = true /\ Z.of_nat (length p) < 2 ^ 32.

Lemma parse_sync_header_ok path size :
  path_ok path -> dangerous path = false -> is_u 64 size ->
  parse_sync_header (sync_header path size) = inl (path, size).
Proof.
  intros [Hu Hl] Hd Hs. unfold parse_sync_header, sync_header.
  set (b4 := to_be 4 _). set (b8 := to_be 8 size).
  assert (L4 : length b4 = 4%nat) by apply length_to_be. assert (L8 : length b8 = 8%nat) by apply length_to_be.
  assert (F4 : from_be b4 = Z.of_nat (length path)) by (by apply from_be_len).
  assert (F8 : from_be b8 = size) by (by apply from_be_to_be_small). clearbody b4 b8.
  assert (Hlen : length ([SYNC_FILE] ++ b4 ++ path ++ b8) = (13 + length path)%nat).
  { rewrite !length_app. cbn [length]. lia. }
  assert (E1 : slice ([SYNC_FILE] ++ b4 ++ path ++ b8) 1 5 = b4) by (apply (slice_mid [SYNC_FILE] b4); cbn; lia).
  assert (E2 : slice ([SYNC_FILE] ++ b4 ++ path ++ b8) 5 (5 + length path) = path).
  { rewrite (app_assoc [SYNC_FILE]). apply (slice_mid ([SYNC_FILE] ++ b4) path); rewrite ?length_app; cbn; lia. }
  assert (E3 : slice ([SYNC_FILE] ++ b4 ++ path ++ b8) (5 + length path) (5 + length path + 8) = b8).
  { rewrite (app_assoc [SYNC_FILE]), (app_assoc _ path). apply slice_last; rewrite ?length_app; cbn; lia. }
  rewrite Hlen, E1, F4, Nat2Z.id, E2, E3, F8.
  rewrite (proj2 (Nat.ltb_ge _ 13)), (proj2 (Nat.ltb_ge _ (5 + length path + 8))) by lia.
  unfold from_utf8. by rewrite Hu, Hd.
Qed.

(** One file up to the receiver's verdict; each side hashes in its own mode. *)
Lemma sync_file_checked {A B} (k : Files * (unit + string) -> Proc A) (l : Files * (unit + string) -> Proc B)
    g e content compress fips_s fips_r fuel fsS fsR :
  g (sync_header (me_path e) (me_size e))
    = pbind (recv_sync_file fuel (sync_header (me_path e) (me_size e)) compress fips_r fsR) l ->
  fsS !! me_path e = Some content -> me_size e = Z.of_nat (length content) ->
  path_ok (me_path e) -> dangerous (me_path e) = false -> is_u 64 (me_size e) -> (length content <= fuel)%nat ->
  runs (mkSys (pbind (send_sync_file e compress fips_s fsS) k) (PRecv g) [] [])
       (mkSys (PRecv (fun f => pbind ((if bytes_eqb (take 1 f) [SYNC_FILE_ACK] then ioret tt
                                       else bail ("sync: integrity check failed for " ++ text (me_path e))) fsS) k))
              (pbind ((if bytes_eqb (file_digest fips_r content) (file_digest fips_s content) then io_send [SYNC_FILE_ACK]
                       else bail ("sync: " ++ algo_name fips_r ++ " mismatch for " ++ text (me_path e)))
                        (<[me_path e := content]> fsR)) l)
              [] []).
Proof.
  intros Hg Hs Hsz Hok Hd Hu Hf.
  destruct (pieces_spec CHUNK content ltac:(unfold CHUNK; lia)) as (Hc & Hne & Hlen).
  destruct (travels_all compress (pieces CHUNK content)) as [ps Hps].
  unfold send_sync_file. io. eapply rtc_l; [apply step_lsend|]. eapply rtc_l; [apply step_rrecv|]. rewrite Hg.
  rewrite Hs. io. rewrite Hsz, Nat2Z.id, pbind_assoc. etrans.
  { apply (send_tagged_run SYNC_FILE_DATA compress (length content) fsS _ _ [] _ ps Hps Hne 0 [] []). by rewrite Hc. }
  io. rewrite Hc. eapply rtc_l; [apply step_lsend|].
  unfold recv_sync_file. rewrite <- Hsz, (parse_sync_header_ok _ _ Hok Hd Hu). unfold open_for_write. io.
  cbn [Nat.eqb]. rewrite Hsz, pbind_assoc. etrans.
  { apply (data_run_exact SYNC_FILE_DATA _ compress _ (length content) _ _ [] _ (pieces CHUNK content) ps fuel 0 [] _ []
      Hps Hne).
    - apply lookup_insert_eq.
    - done.
    - lia.
    - by rewrite Hc. }
  io. rewrite Hc. eapply rtc_l; [apply step_rrecv|]. io.
  rewrite (proj1 (checksum_frame fips_s content)). cbn [drop]. rewrite drop_0, insert_insert_eq.
  apply rtc_refl.
Qed.

Lemma sync_file_run {A B} (k : Files * (unit + string) -> Proc A) (l : Files * (unit + string) -> Proc B)
    g e content compress fips fuel fsS fsR :
  g (sync_header (me_path e) (me_size e))
    = pbind (recv_sync_file fuel (sync_header (me_path e) (me_size e)) compress fips fsR) l ->
  fsS !! me_path e = Some content -> me_size e = Z.of_nat (length content) ->
  path_ok (me_path e) -> dangerous (me_path e) = false -> is_u 64 (me_size e) -> (length content <= fuel)%nat ->
  runs (mkSys (pbind (send_sync_file e compress fips fsS) k) (PRecv g) [] [])
       (mkSys (k (fsS, inl tt)) (l (<[me_path e := content]> fsR, inl tt)) [] []).
Proof.
  intros Hg Hs Hsz Hok Hd Hu Hf. etrans; [by apply (sync_file_checked k l g e content compress fips fips fuel)|].
  rewrite bytes_eqb_refl. io. eapply rtc_l; [apply step_rsend|]. eapply rtc_l; [apply step_lrecv|]. cbn [take].
  change (bytes_eqb [SYNC_FILE_ACK] [SYNC_FILE_ACK]) with true. cbn iota. apply rtc_refl.
Qed.

(** The loop over the files takes a header as it comes. *)
Lemma recv_files_header {B} who compress fips fuel fsR (l : Files * (unit + string) -> Proc B) path size :
  exists g, pbind (recv_files who (S fuel) compress fips fsR) l = PRecv g
    /\ g (sync_header path size)
       = pbind (recv_sync_file (S fuel) (sync_header path size) compress fips fsR)
           (fun r => pbind (match r.2 with inl _ => recv_files who fuel compress fips r.1 | inr e => PRet (r.1, inr e) end) l).
Proof.
  eexists. split; [reflexivity|]. cbn [pbind io_recv fst snd]. unfold sync_header at 1. cbn [app].
  change (Byte.eqb SYNC_FILE SYNC_FILE) with true. cbn iota. unfold iobind. by rewrite pbind_assoc.
Qed.

(** ** All files *)

(** An entry of the sender's own manifest that can be sent. *)
Definition entry_sendable (fsS : Files) (e : ManifestEntry) : Prop :=
  path_ok (me_path e) /\ dangerous (me_path e) = false /\ is_u 64 (me_size e)
  /\ exists c, fsS !! me_path e = Some c /\ me_size e = Z.of_nat (length c).

Lemma sync_loop {A B} who compress fips fsS (k : Files * (unit + string) -> Proc A)
    (l : Files * (unit + string) -> Proc B) es : forall fsR fuel,
  Forall (entry_sendable fsS) es -> (fuel_for fsS (map me_path es) <= fuel)%nat ->
  runs (mkSys (pbind (send_entries es compress fips fsS) k)
              (pbind (recv_files who fuel compress fips fsR) l) [] [])
       (mkSys (k (fsS, inl tt))
          (pbind (recv_files who (fuel - length es) compress fips (deliver fsS fsR (map me_path es))) l) [] []).
Proof.
  induction es as [|e es IH]; intros fsR fuel He Hfu; cbn [map fuel_for foldr length] in *.
  { rewrite Nat.sub_0_r. apply rtc_refl. }
  apply List.Forall_cons_iff in He as [(Hok & Hd & Hu & c & Hc & Hsz) He].
  rewrite Hc in Hfu. cbn [default from_option id] in Hfu. fold (fuel_for fsS (map me_path es)) in Hfu.
  destruct fuel as [|fuel]; [lia|]. pose proof (IH (<[me_path e := c]> fsR) fuel He ltac:(lia)) as Hr.
  cbn [deliver fold_left]. rewrite Hc. fold (deliver fsS (<[me_path e := c]> fsR) (map me_path es)).
  etrans; [|exact Hr]. cbn [send_entries]. unfold iobind at 1. rewrite pbind_assoc.
  destruct (recv_files_header who compress fips fuel fsR l (me_path e) (me_size e)) as (g & -> & Hg).
  etrans; [apply (sync_file_run _ _ g e c compress fips (S fuel) fsS fsR Hg); try done; lia|]. apply rtc_refl.
Qed.

Lemma deliver_entries fsS es : forall fsR path,
  Forall (entry_sendable fsS) es ->
  deliver fsS fsR (map me_path es) !! path = if decide (path ∈ map me_path es) then fsS !! path else fsR !! path.
Proof.
  induction es as [|e es IH]; intros fsR path He; cbn [map deliver fold_left].
  { by rewrite decide_False by apply not_elem_of_nil. }
  apply List.Forall_cons_iff in He as [(_ & _ & _ & c & Hc & _) He]. rewrite Hc.
  fold (deliver fsS (<[me_path e := c]> fsR) (map me_path es)). rewrite IH by done.
  destruct (decide (path ∈ map me_path es)) as [Hi|Hi]; [by rewrite decide_True by (by right)|].
  destruct (decide (path = me_path e)) as [->|Hne].
  - by rewrite decide_True, lookup_insert_eq by (by left).
  - rewrite decide_False by (by rewrite elem_of_cons; intros [|]). by rewrite lookup_insert_ne.
Qed.

(** ** Deletions *)

Definition delete_safe (paths : list (list byte)) (fs : Files) : Files :=
  fold_left (fun fs p => if dangerous p then fs else delete p fs) paths fs.

Lemma delete_safe_lookup paths : forall fs p,
  delete_safe paths fs !! p = if decide (p ∈ paths /\ dangerous p = false) then None else fs !! p.
Proof.
  induction paths as [|q paths IH]; intros fs p; cbn [delete_safe fold_left].
  { rewrite decide_False; [done|]. by intros [?%not_elem_of_nil _]. }
  fold (delete_safe paths (if dangerous q then fs else delete q fs)). rewrite IH.
  destruct (decide (p ∈ paths /\ dangerous p = false)) as [[Hp Hd]|Hn].
  { rewrite decide_True; [done|]. split; [by right|done]. }
  destruct (decide (p = q)) as [->|Hne].
  - destruct (dangerous q) eqn:Hd; [by rewrite decide_False by (by intros [_ ?])|].
    rewrite lookup_delete_eq. rewrite decide_True; [done|]. split; [by left|done].
  - rewrite decide_False.
    + destruct (dangerous q); [done|]. by rewrite lookup_delete_ne.
    + intros [[|]%elem_of_cons ?]; [done|]. by apply Hn.
Qed.

Lemma deletes_run {A B} fsS (k : Files * (unit + string) -> Proc A) (l : Files * (unit + string) -> Proc B)
    paths : forall fsR fuel,
  Forall path_ok paths -> (length paths < fuel)%nat ->
  runs (mkSys (pbind ((send_deletes paths ;; io_send [SYNC_DONE])%io fsS) k) (pbind (recv_deletes fuel fsR) l) [] [])
       (mkSys (k (fsS, inl tt)) (l (delete_safe paths fsR, inl tt)) [] []).
Proof.
  induction paths as [|p paths IH]; intros fsR fuel Hp Hf; (destruct fuel as [|fuel]; [cbn in Hf; lia|]).
  - cbn [send_deletes recv_deletes]. io. eapply rtc_l; [apply step_lsend|]. eapply rtc_l; [apply step_rrecv|].
    cbn [delete_safe fold_left]. apply rtc_refl.
  - apply List.Forall_cons_iff in Hp as [[Hu Hl] Hp]. cbn [length] in Hf.
    pose proof (IH (if dangerous p then fsR else delete p fsR) fuel Hp ltac:(lia)) as Hr.
    unfold iobind in Hr. cbn [send_deletes recv_deletes]. io. rewrite ?pbind_assoc in *.
    eapply rtc_l; [apply step_lsend|]. eapply rtc_l; [apply step_rrecv|]. unfold delete_frame. cbn [app].
    etrans; [|exact Hr]. set (b4 := to_be 4 _). assert (L4 : length b4 = 4%nat) by apply length_to_be.
    assert (F4 : from_be b4 = Z.of_nat (length p)) by (by apply from_be_len). clearbody b4.
    assert (E1 : slice (SYNC_DELETE :: b4 ++ p) 1 5 = b4) by (apply (slice_mid [SYNC_DELETE] b4); cbn; lia).
    assert (E2 : slice (SYNC_DELETE :: b4 ++ p) 5 (5 + length p) = p).
    { apply (slice_last ([SYNC_DELETE] ++ b4) p); rewrite ?length_app; cbn; lia. }
    assert (Hlen : length (SYNC_DELETE :: b4 ++ p) = (5 + length p)%nat) by (cbn; rewrite length_app; lia).
    change (Byte.eqb SYNC_DELETE SYNC_DELETE) with true. cbn iota. rewrite Hlen, E1, F4, Nat2Z.id, E2. rewrite !(proj2 (Nat.ltb_ge _ _)) by lia.
    unfold from_utf8. rewrite Hu. io. apply rtc_refl.
Qed.

(** ** A push *)

(** Every file has a name that travels and a length that fits in 64 bits. *)
Definition tree_ok (fs : Files) : Prop :=
  (forall p c, fs !! p = Some c -> path_ok p /\ is_u 64 (Z.of_nat (length c)))
  /\ Z.of_nat (length (walk fs)) < 2 ^ 32.

Lemma manifest_ok fips fs : tree_ok fs -> Forall entry_ok (build_manifest walk fips fs).
Proof.
  intros [Hp _]. apply List.Forall_forall. intros e He%list_elem_of_In.
  apply elem_of_manifest in He as (c & Hc & ->). destruct (Hp _ _ Hc) as [[Hu Hl] Hs].
  split_and!; cbn; [done|done|done|]. apply file_digest_len.
Qed.

Lemma manifest_arrives fips fs : tree_ok fs ->
  decode_manifest (encode_manifest (build_manifest walk fips fs)) = inl (build_manifest walk fips fs).
Proof.
  intros Ht. apply manifest_round; [by apply manifest_ok|]. unfold build_manifest. rewrite length_map. apply Ht.
Qed.

Lemma index_manifest fips fs p :
  index (build_manifest walk fips fs) !! p
  = (fun c => mkManifestEntry p (Z.of_nat (length c)) (file_digest fips c)) <$> fs !! p.
Proof.
  destruct (index _ !! p) as [e|] eqn:E.
  - apply index_Some in E as [He <-]. apply elem_of_manifest in He as (c & Hc & ->). cbn in *. by rewrite Hc.
  - destruct (fs !! p) as [c|] eqn:Hc; [|done]. exfalso.
    apply (index_None _ _ E (mkManifestEntry p (Z.of_nat (length c)) (file_digest fips c))); [|done].
    apply elem_of_manifest. by exists c.
Qed.

Lemma differing_sendable fips fs theirs :
  tree_ok fs -> (forall p, is_Some (fs !! p) -> dangerous p = false) ->
  Forall (entry_sendable fs) (differing (build_manifest walk fips fs) theirs).
Proof.
  intros [Hp _] Hd. apply List.Forall_forall. intros e He%list_elem_of_In.
  apply elem_of_differing in He as [He _]. apply elem_of_manifest in He as (c & Hc & E).
  assert (Hsz : me_size e = Z.of_nat (length c)) by (by rewrite E).
  destruct (Hp _ _ Hc) as [Hok Hs]. split_and!; [done|by apply Hd|by rewrite Hsz|by exists c].
Qed.

Lemma elem_of_extraneous fips fs1 fs2 p :
  p ∈ extraneous (build_manifest walk fips fs1) (build_manifest walk fips fs2) <-> fs1 !! p = None /\ is_Some (fs2 !! p).
Proof.
  assert (Hpaths : forall fs, p ∈ map me_path (build_manifest walk fips fs) <-> is_Some (fs !! p)).
  { intros fs. rewrite <- walk_spec. unfold build_manifest. rewrite map_map. cbn. by rewrite map_id. }
  unfold extraneous. rewrite eq_None_not_Some, <- !Hpaths, !list_elem_of_In, !in_map_iff. split.
  - intros (e & <- & He%list_elem_of_In). apply list_elem_of_filter in He as [Hn He]. split.
    + intros (e' & He' & Hin). apply Hn. apply list_elem_of_In, in_map_iff. by exists e'.
    + exists e. by rewrite <- list_elem_of_In.
  - intros [Hn (e & <- & He)]. exists e. split; [done|]. apply list_elem_of_In, list_elem_of_filter.
    split; [|by apply list_elem_of_In]. intros Hin%list_elem_of_In%in_map_iff. by apply Hn.
Qed.

(** What the receiver holds after a push. *)
Definition synced (delete_extra fips : bool) (fsS fsR : Files) : Files :=
  let mine := build_manifest walk fips fsS in
  let theirs := build_manifest walk fips fsR in
  let fs := deliver fsS fsR (map me_path (differing mine theirs)) in
  if delete_extra then delete_safe (extraneous mine theirs) fs else fs.

Definition same_digest (fips : bool) (o1 o2 : option (list byte)) : Prop :=
  file_digest fips <$> o1 = file_digest fips <$> o2.

Lemma synced_lookup delete_extra fips fsS fsR p :
  tree_ok fsS -> (forall p, is_Some (fsS !! p) -> dangerous p = false) ->
  match fsS !! p with
  | Some _ => same_digest fips (synced delete_extra fips fsS fsR !! p) (fsS !! p)
  | None => synced delete_extra fips fsS fsR !! p = if delete_extra && negb (dangerous p) then None else fsR !! p
  end.
Proof.
  intros Ht Hd. set (fs := deliver fsS fsR (map me_path (differing (build_manifest walk fips fsS) (build_manifest walk fips fsR)))).
  assert (Hs : synced delete_extra fips fsS fsR !! p =
    if delete_extra then if decide (fsS !! p = None /\ is_Some (fsR !! p) /\ dangerous p = false) then None else fs !! p
    else fs !! p).
  { unfold synced. fold fs. destruct delete_extra; [|done]. rewrite delete_safe_lookup.
    apply decide_ext. rewrite elem_of_extraneous. tauto. }
  assert (Hf : fs !! p = if decide (p ∈ map me_path (differing (build_manifest walk fips fsS) (build_manifest walk fips fsR)))
                         then fsS !! p else fsR !! p) by (by apply deliver_entries, differing_sendable).
  rewrite Hs, Hf. clear Hs Hf fs. destruct (fsS !! p) as [c|] eqn:Hc.
  - rewrite decide_False by (by intros [? _]).
    assert (Hgoal : same_digest fips (if decide (p ∈ map me_path (differing (build_manifest walk fips fsS) (build_manifest walk fips fsR)))
                         then Some c else fsR !! p) (Some c)); [|by destruct delete_extra].
    destruct (decide (p ∈ _)) as [|Hn]; [done|].
    destruct (fsR !! p) as [c'|] eqn:Hc'.
    + destruct (decide (file_digest fips c' = file_digest fips c)) as [He|Hne]; [unfold same_digest; cbn; by rewrite He|].
      exfalso. apply Hn, list_elem_of_In, in_map_iff.
      exists (mkManifestEntry p (Z.of_nat (length c)) (file_digest fips c)). split; [done|].
      apply list_elem_of_In, elem_of_differing. split; [apply elem_of_manifest; by exists c|].
      cbn. intros te. rewrite index_manifest, Hc'. cbn. by intros [= <-].
    + exfalso. apply Hn, list_elem_of_In, in_map_iff.
      exists (mkManifestEntry p (Z.of_nat (length c)) (file_digest fips c)). split; [done|].
      apply list_elem_of_In, elem_of_differing. split; [apply elem_of_manifest; by exists c|].
      cbn. intros te. rewrite index_manifest, Hc'. done.
  - assert (Hn : p ∉ map me_path (differing (build_manifest walk fips fsS) (build_manifest walk fips fsR))).
    { intros (e & <- & He%list_elem_of_In%elem_of_differing)%list_elem_of_In%in_map_iff.
      destruct He as [He _]. apply elem_of_manifest in He as (? & ? & _). congruence. }
    rewrite (decide_False _ _ Hn). destruct delete_extra; [|done]. cbn [andb].
    destruct (fsR !! p) as [c|]; destruct (dangerous p) eqn:Hdp; cbn [negb].
    + by rewrite decide_False by (by intros (_ & _ & ?)).
    + by rewrite decide_True.
    + by rewrite decide_False by (by intros (_ & _ & ?)).
    + by rewrite decide_False by (by intros (_ & [? ?] & _)).
Qed.

Lemma fuel_for_sublist fs l1 l2 : sublist l1 l2 -> (fuel_for fs l1 <= fuel_for fs l2)%nat.
Proof. unfold fuel_for. induction 1; cbn [foldr]; lia. Qed.

Lemma fuel_for_length fs l : (length l < fuel_for fs l)%nat.
Proof. unfold fuel_for. induction l; cbn [foldr length]; lia. Qed.

Lemma manifest_paths fips fs : map me_path (build_manifest walk fips fs) = walk fs.
Proof. unfold build_manifest. rewrite map_map. cbn. by rewrite map_id. Qed.

Lemma filter_paths (P : ManifestEntry -> Prop) `{!forall e, Decision (P e)} es :
  sublist (map me_path (filter P es)) (map me_path es).
Proof. induction es as [|e es IH]; [constructor|]. rewrite filter_cons. destruct (decide (P e)); by constructor. Qed.

(** Deletions that nobody reads any more. *)
Lemma deletes_unread {A B} fsS (k : Files * (unit + string) -> Proc A) (r : Proc B) paths : forall lr,
  runs (mkSys (pbind ((send_deletes paths ;; io_send [SYNC_DONE])%io fsS) k) r lr [])
       (mkSys (k (fsS, inl tt)) r (lr ++ map delete_frame paths ++ [[SYNC_DONE]]) []).
Proof.
  induction paths as [|p paths IH]; intros lr; cbn [send_deletes map app]; io.
  - eapply rtc_l; [apply step_lsend|]. apply rtc_refl.
  - eapply rtc_l; [apply step_lsend|]. specialize (IH (lr ++ [delete_frame p])). rewrite <- app_assoc in IH.
    unfold iobind in IH. rewrite ?pbind_assoc in *. exact IH.
Qed.

(** What the receiver never reads: the deletions it did not ask for, or the
    second end mark when nobody asked. *)
Definition unread (dc ds fips : bool) (fsS fsR : Files) : list (list byte) :=
  if ds then []
  else (if dc then map delete_frame (extraneous (build_manifest walk fips fsS) (build_manifest walk fips fsR)) else [])
       ++ [[SYNC_DONE]].

(** The frames of a push: manifests, files, deletions. *)
Lemma push_sync_run dc ds compress fips fuel fsS fsR :
  tree_ok fsS -> tree_ok fsR -> (forall p, is_Some (fsS !! p) -> dangerous p = false) ->
  (fuel_for fsS (walk fsS) + length (walk fsR) <= fuel)%nat ->
  runs (mkSys (push_client walk dc compress fips fsS) (push_server walk fuel ds compress fips fsR) [] [])
       (mkSys (PRet (fsS, inl tt)) (PRet (synced (dc && ds) fips fsS fsR, inl tt)) (unread dc ds fips fsS fsR) []).
Proof.
  intros HtS HtR Hd Hfu. unfold push_client, push_server. io.
  eapply rtc_l; [apply step_lsend|]. eapply rtc_l; [apply step_rrecv|]. cbn beta.
  rewrite manifest_arrives by done. cbn [io_result]. io.
  eapply rtc_l; [apply step_rsend|]. eapply rtc_l; [apply step_lrecv|]. cbn beta.
  rewrite manifest_arrives by done. cbn [io_result]. io. unfold synced.
  set (mine := build_manifest walk fips fsS). set (theirs := build_manifest walk fips fsR).
  assert (He : Forall (entry_sendable fsS) (differing mine theirs)) by (by apply differing_sendable).
  assert (Hf : (fuel_for fsS (map me_path (differing mine theirs)) <= fuel)%nat).
  { etrans; [|exact (Nat.le_trans _ _ _ (Nat.le_add_r _ _) Hfu)]. apply fuel_for_sublist.
    rewrite <- (manifest_paths fips fsS). apply filter_paths. }
  pose proof (fuel_for_length fsS (map me_path (differing mine theirs))) as Hlen. rewrite length_map in Hlen.
  etrans; [apply (sync_loop "sync-recv" compress fips fsS _ _ _ fsR fuel He Hf)|]. io.
  destruct (fuel - length (differing mine theirs))%nat as [|fuel'] eqn:Ef; [lia|]. cbn [recv_files]. io.
  eapply rtc_l; [apply step_lsend|]. eapply rtc_l; [apply step_rrecv|]. cbn [app].
  change (Byte.eqb SYNC_DONE SYNC_FILE) with false. change (Byte.eqb SYNC_DONE SYNC_DONE) with true. cbn iota. io.
  unfold unread. fold mine theirs. set (fs := deliver fsS fsR _). destruct dc, ds; cbn [andb app]; io.
  - rewrite <- (pbind_ret (recv_deletes fuel fs)).
    rewrite <- (pbind_ret (pbind (send_deletes _ _) _)).
    apply (deletes_run fsS PRet PRet (extraneous mine theirs) fs fuel).
    + apply List.Forall_forall. intros p Hp%list_elem_of_In. apply elem_of_extraneous in Hp as [_ [c Hc]].
      by destruct (proj1 HtR _ _ Hc).
    + pose proof (sublist_length _ _ (filter_paths (fun e => me_path e ∉ map me_path mine) theirs)) as Hl.
      unfold theirs in Hl at 2. rewrite manifest_paths in Hl. unfold extraneous. 
      pose proof (fuel_for_length fsS (walk fsS)). lia.
  - rewrite <- (pbind_ret (pbind (send_deletes _ _) _)).
    apply (deletes_unread fsS PRet _ (extraneous mine theirs) []).
  - destruct fuel as [|fuel0]; [lia|]. cbn [recv_deletes]. io.
    eapply rtc_l; [apply step_lsend|]. eapply rtc_l; [apply step_rrecv|]. apply rtc_refl.
  - eapply rtc_l; [apply step_lsend|]. apply rtc_refl.
Qed.

(** C20: A push converges.  Let the two sides use the same mode (FIPS or not) and
    the same compression setting; each has its own flag for deletions.
    Whatever the interleaving of the two sides, they both finish, and the
    receiver then holds, for every file of the sender, a file of the same
    digest; a path the sender has not is deleted when both sides asked for it
    (unless its name looks dangerous) and is untouched when one of them or
    neither did.  The sender's files do not change.  (Sides whose modes or
    compression settings differ fail: [mode_mismatch_refused],
    [compression_mismatch_refused].) *)
Theorem push_sync_converges dc ds compress fips fuel (fsS fsR : Files) :
  tree_ok fsS -> tree_ok fsR -> (forall p, is_Some (fsS !! p) -> dangerous p = false) ->
  (fuel_for fsS (walk fsS) + length (walk fsR) <= fuel)%nat ->
  exists fsR' lr,
    (forall p, match fsS !! p with
               | Some _ => same_digest fips (fsR' !! p) (fsS !! p)
               | None => fsR' !! p = if dc && ds && negb (dangerous p) then None else fsR !! p
               end)
    /\ forall s, runs (mkSys (push_client walk dc compress fips fsS)
                             (push_server walk fuel ds compress fips fsR) [] []) s ->
       runs s (mkSys (PRet (fsS, inl tt)) (PRet (fsR', inl tt)) lr []).
Proof.
  intros HtS HtR Hd Hfu. exists (synced (dc && ds) fips fsS fsR), (unread dc ds fips fsS fsR).
  split; [intros p; by apply synced_lookup|]. intros s Hs.
  eapply runs_halted_unique; [|apply halted_done|exact Hs]. by apply push_sync_run.
Qed.

(** ** Sides that do not agree *)

(** A push with something to send, up to its first file; the sides may have different
    modes and different settings for compression. *)
Lemma push_first_file delete_extra zs zr fips_s fips_r fuel (fsS fsR : Files) e es :
  tree_ok fsS -> tree_ok fsR -> (forall p, is_Some (fsS !! p) -> dangerous p = false) ->
  differing (build_manifest walk fips_s fsS) (build_manifest walk fips_r fsR) = e :: es ->
  exists k l g,
    runs (mkSys (push_client walk delete_extra zs fips_s fsS) (push_server walk (S fuel) delete_extra zr fips_r fsR) [] [])
         (mkSys (pbind (send_sync_file e zs fips_s fsS) k) (PRecv g) [] [])
    /\ g (sync_header (me_path e) (me_size e)) = pbind (recv_sync_file (S fuel) (sync_header (me_path e) (me_size e)) zr fips_r fsR) l
    /\ forall fs msg, l (fs, inr msg) = PRet (fs, inr msg).
Proof.
  intros HtS HtR Hd Ed.
  destruct (recv_files_header "sync-recv" zr fips_r fuel fsR
    (fun r => match r.2 with inl _ => (if delete_extra then recv_deletes (S fuel) else ioret tt) r.1 | inr e => PRet (r.1, inr e) end)
    (me_path e) (me_size e)) as (g & Eg & Hg).
  eexists _, _, g. split; [|split; [exact Hg|done]].
  unfold push_client, push_server. io. eapply rtc_l; [apply step_lsend|]. eapply rtc_l; [apply step_rrecv|]. cbn beta.
  rewrite manifest_arrives by done. cbn [io_result]. io.
  eapply rtc_l; [apply step_rsend|]. eapply rtc_l; [apply step_lrecv|]. cbn beta.
  rewrite manifest_arrives by done. cbn [io_result]. io. rewrite Ed. cbn [send_entries]. unfold iobind at 1.
  rewrite pbind_assoc, Eg. apply rtc_refl.
Qed.

(** The first file to send is one of the sender's, and there is fuel for it. *)
Lemma first_file fips_s fips_r (fsS fsR : Files) e es fuel : tree_ok fsS -> (forall p, is_Some (fsS !! p) -> dangerous p = false) ->
  differing (build_manifest walk fips_s fsS) (build_manifest walk fips_r fsR) = e :: es -> (fuel_for fsS (walk fsS) <= fuel)%nat ->
  entry_sendable fsS e /\ (forall c, fsS !! me_path e = Some c -> (S (length c) <= fuel)%nat).
Proof.
  intros HtS Hd Ed Hfu. assert (He : Forall (entry_sendable fsS) (differing (build_manifest walk fips_s fsS) (build_manifest walk fips_r fsR)))
    by (by apply differing_sendable).
  rewrite Ed in He. apply List.Forall_cons_iff in He as [He _]. split; [done|]. intros c Hc.
  assert (Hin : me_path e ∈ walk fsS) by (apply walk_spec; by eexists). etrans; [|exact Hfu]. apply list_elem_of_In in Hin.
  clear -Hin Hc. unfold fuel_for. induction (walk fsS) as [|q l IH]; [done|]. cbn [foldr]. destruct Hin as [->|Hin].
  - rewrite Hc. cbn. lia.
  - specialize (IH Hin). lia.
Qed.

(** The digests of the two modes are of different functions: on the files at hand they
    differ. *)
Definition modes_differ (fips_s fips_r : bool) (fsS fsR : Files) : Prop :=
  forall p c c', fsS !! p = Some c -> c' = c \/ fsR !! p = Some c' -> file_digest fips_r c' <> file_digest fips_s c.

Lemma modes_differ_sends fips_s fips_r (fsS fsR : Files) : modes_differ fips_s fips_r fsS fsR -> fsS <> ∅ ->
  exists e es, differing (build_manifest walk fips_s fsS) (build_manifest walk fips_r fsR) = e :: es.
Proof.
  intros Hm Hne. destruct (differing _ _) as [|e es] eqn:Ed; [|by do 2 eexists]. exfalso.
  apply map_choose in Hne as (p & c & Hc). pose (e := mkManifestEntry p (Z.of_nat (length c)) (file_digest fips_s c)).
  assert (Hin : e ∈ differing (build_manifest walk fips_s fsS) (build_manifest walk fips_r fsR)).
  { apply elem_of_differing. split; [apply elem_of_manifest; by exists c|]. intros h Hh. rewrite index_manifest in Hh.
    cbn in *. destruct (fsR !! p) as [c'|] eqn:E; [|done]. injection Hh as <-. by apply (Hm p c c'); [|right]. }
  rewrite Ed in Hin. by apply not_elem_of_nil in Hin.
Qed.

(** A push to a side in the other mode fails: whatever the order of the steps, the
    receiver refuses the first file for its digest, after overwriting its own copy, and
    the client waits for an answer. *)
Theorem mode_mismatch_refused delete_extra compress fips_s fips_r fuel (fsS fsR : Files) :
  tree_ok fsS -> tree_ok fsR -> (forall p, is_Some (fsS !! p) -> dangerous p = false) -> fsS <> ∅ ->
  (fuel_for fsS (walk fsS) <= fuel)%nat -> modes_differ fips_s fips_r fsS fsR ->
  exists g path content msg, fsS !! path = Some content
    /\ forall s, runs (mkSys (push_client walk delete_extra compress fips_s fsS)
                             (push_server walk fuel delete_extra compress fips_r fsR) [] []) s ->
       runs s (mkSys (PRecv g) (PRet (<[path := content]> fsR, inr msg)) [] []).
Proof.
  intros HtS HtR Hd Hne Hfu Hm. destruct (modes_differ_sends _ _ _ _ Hm Hne) as (e & es & Ed).
  destruct (first_file _ _ _ _ _ _ fuel HtS Hd Ed Hfu) as [(Hok & Hdn & Hu & c & Hc & Hsz) Hfe]. specialize (Hfe c Hc).
  destruct fuel as [|fuel]; [lia|].
  destruct (push_first_file delete_extra compress compress fips_s fips_r fuel fsS fsR e es HtS HtR Hd Ed) as (k & l & g & Hr & Hg & Hl).
  do 4 eexists. split; [exact Hc|]. intros s Hs. eapply runs_halted_unique; [|apply halted_waiting|exact Hs].
  etrans; [exact Hr|]. etrans; [apply (sync_file_checked k l g e c compress fips_s fips_r (S fuel) fsS fsR Hg); try done; lia|].
  destruct (bytes_eqb (file_digest fips_r c) _) eqn:Eb.
  - apply bytes_eqb_eq in Eb. by destruct (Hm _ c c Hc (or_introl eq_refl)).
  - io. rewrite Hl. apply rtc_refl.
Qed.

Lemma pieces_cons n b l : pieces n (b :: l) = take n (b :: l) :: pieces_fuel (length l) n (drop n (b :: l)).
Proof. reflexivity. Qed.

(** Compression is not agreed on: a push that does not compress, to a side that does,
    fails in the first file that is not empty, which is left empty there. *)
Theorem compression_mismatch_refused delete_extra fips fuel (fsS fsR : Files) e es c :
  tree_ok fsS -> tree_ok fsR -> (forall p, is_Some (fsS !! p) -> dangerous p = false) -> (fuel_for fsS (walk fsS) <= fuel)%nat ->
  differing (build_manifest walk fips fsS) (build_manifest walk fips fsR) = e :: es -> fsS !! me_path e = Some c -> c <> [] ->
  zstd_decode (take CHUNK c) = None ->
  exists g lr, forall s, runs (mkSys (push_client walk delete_extra false fips fsS) (push_server walk fuel delete_extra true fips fsR) [] []) s ->
    runs s (mkSys (PRecv g) (PRet (<[me_path e := []]> fsR, inr "zstd"%string)) lr []).
Proof.
  intros HtS HtR Hd Hfu Ed Hc Hn Hz.
  destruct (first_file _ _ _ _ _ _ fuel HtS Hd Ed Hfu) as [(Hok & Hdn & Hu & c' & Hc' & Hsz) Hfe]. rewrite Hc in Hc'. injection Hc' as <-.
  specialize (Hfe c Hc). destruct fuel as [|fuel]; [lia|].
  destruct (push_first_file delete_extra false true fips fips fuel fsS fsR e es HtS HtR Hd Ed) as (k & l & g & Hr & Hg & Hl).
  destruct (pieces_spec CHUNK c ltac:(unfold CHUNK; lia)) as (Hcat & Hpn & _).
  destruct (travels_all false (pieces CHUNK c)) as [ps Hps].
  assert (Hp : exists ps', ps = take CHUNK c :: ps').
  { destruct c as [|b c]; [done|]. rewrite pieces_cons in Hps. apply Forall2_cons_inv_l in Hps as (raw & ps' & [He _] & _ & ->).
    unfold encode_payload in He. cbv iota in He. apply (inj Some) in He. rewrite <- He. by exists ps'. }
  destruct Hp as [ps' ->].
  do 2 eexists. intros s Hs. eapply runs_halted_unique; [|apply halted_waiting|exact Hs]. etrans; [exact Hr|].
  unfold send_sync_file. io. eapply rtc_l; [apply step_lsend|]. eapply rtc_l; [apply step_rrecv|]. rewrite Hg, Hc. io.
  rewrite Hsz, Nat2Z.id, pbind_assoc. etrans.
  { apply (send_tagged_run SYNC_FILE_DATA false (length c) fsS _ _ [] _ _ Hps Hpn 0 [] []). by rewrite Hcat. }
  io. eapply rtc_l; [apply step_lsend|]. unfold recv_sync_file. rewrite <- Hsz, (parse_sync_header_ok _ _ Hok Hdn Hu). unfold open_for_write. io.
  cbn [Nat.eqb recv_tagged tagged map]. rewrite Hsz, (proj2 (Z.ltb_lt _ _)) by (destruct c; [done|cbn; lia]). io.
  eapply rtc_l; [apply step_rrecv|]. io. change (Byte.eqb SYNC_FILE_DATA SYNC_FILE_DATA) with true. cbn iota.
  unfold decode_payload. rewrite Hz. io. rewrite Hl. apply rtc_refl.
Qed.

(** ** A second push sends nothing *)

(** A push is idempotent: when the receiver holds the sender's files by digest,
    the list of files to send is empty. *)
Theorem sync_idempotent fips (fsS fsR : Files) :
  (forall p, is_Some (fsS !! p) -> same_digest fips (fsR !! p) (fsS !! p)) ->
  differing (build_manifest walk fips fsS) (build_manifest walk fips fsR) = [].
Proof.
  intros Hs. destruct (differing _ _) as [|e es] eqn:E; [done|]. exfalso.
  assert (He : e ∈ differing (build_manifest walk fips fsS) (build_manifest walk fips fsR)) by (rewrite E; by left).
  apply elem_of_differing in He as [(c & Hc & ->)%elem_of_manifest Hn]. cbn in *.
  rewrite index_manifest in Hn. specialize (Hs (me_path e)). rewrite Hc in Hs.
  assert (Hd := Hs ltac:(by eexists)). unfold same_digest in Hd. destruct (fsR !! me_path e) as [c'|]; [|done].
  cbn in Hd, Hn. injection Hd as Hd. by apply (Hn _ eq_refl).
Qed.

End Runs.

(** Manifests survive the wire. *)
Theorem manifest_roundtrip es :
  Forall entry_ok es -> Z.of_nat (length es) < 2 ^ 32 -> decode_manifest (encode_manifest es) = inl es.
Proof. apply manifest_round. Qed.

(** ** Witnesses *)

Definition map_walk (fs : Files) : list (list byte) := map fst (map_to_list fs).

Lemma map_walk_spec (fs : Files) p : p ∈ map_walk fs <-> is_Some (fs !! p).
Proof.
  unfold map_walk. rewrite list_elem_of_In, in_map_iff. split.
  - intros ([q c] & <- & H). apply list_elem_of_In, elem_of_map_to_list in H. by eexists.
  - intros [c Hc]. exists (p, c). split; [done|]. by apply list_elem_of_In, elem_of_map_to_list.
Qed.

Definition test_remote : Files := {[ [x62] := [x30]; [x61] := [x39] ]}.

Lemma test_tree_ok (fs : Files) :
  Forall (fun '(p, c) => (utf8_valid p && (length p <? 10)%nat && (length c <? 10)%nat) = true) (map_to_list fs) ->
  (length (map_to_list fs) < 10)%nat -> tree_ok map_walk fs.
Proof.
  intros Hf Hl. split.
  - intros p c Hc. apply elem_of_map_to_list, list_elem_of_In in Hc. rewrite List.Forall_forall in Hf.
    specialize (Hf _ Hc). cbn in Hf. apply andb_true_iff in Hf as [[Hu H1]%andb_true_iff H2].
    apply Nat.leb_le in H1, H2. unfold is_u. split; [split; [done|]|]; lia.
  - unfold map_walk. rewrite length_map. lia.
Qed.

(** The server did not ask: the extra file stays. *)
Lemma push_sync_converges_witness :
  exists (fsR' : Files) lr, fsR' !! [x62] = Some [x30] /\ same_digest false (fsR' !! test_name) (Some test_content)
    /\ runs (mkSys (push_client map_walk true true false test_files) (push_server map_walk 10 false true false test_remote) [] [])
            (mkSys (PRet (test_files, inl tt)) (PRet (fsR', inl tt)) lr []).
Proof.
  destruct (push_sync_converges map_walk map_walk_spec true false true false 10 test_files test_remote)
    as (fsR' & lr & H1 & H2).
  - apply test_tree_ok; [repeat constructor|vm_compute; lia].
  - apply test_tree_ok; [repeat constructor|vm_compute; lia].
  - intros p [c Hc]. unfold test_files in Hc. apply lookup_singleton_Some in Hc as [<- _]. reflexivity.
  - vm_compute. lia.
  - exists fsR', lr. split_and!; [exact (H1 [x62])|exact (H1 test_name)|]. apply H2. apply rtc_refl.
Defined.

Lemma sync_idempotent_witness :
  differing (build_manifest map_walk false test_files) (build_manifest map_walk false test_files) = [].
Proof. apply (sync_idempotent map_walk map_walk_spec). intros p _. reflexivity. Defined.

Definition test_entry : ManifestEntry := mkManifestEntry [x61] 3 (repeat x00 32).

Lemma manifest_roundtrip_witness : decode_manifest (encode_manifest [test_entry]) = inl [test_entry].
Proof.
  apply manifest_roundtrip; [|cbn; lia]. constructor; [|constructor]. unfold entry_ok, is_u, test_entry. cbn. lia.
Defined.

Lemma manifest_count_bounded_witness :
  Z.of_nat (length [test_entry]) = from_be (slice (encode_manifest [test_entry]) 1 5)
  /\ (44 * length [test_entry] <= length (encode_manifest [test_entry]))%nat.
Proof. apply manifest_count_bounded. reflexivity. Defined.

Lemma mode_mismatch_refused_witness :
  exists g content msg, test_files !! test_name = Some content
    /\ runs (mkSys (push_client map_walk true true true test_files) (push_server map_walk 10 true true false test_remote) [] [])
            (mkSys (PRecv g) (PRet (<[test_name := content]> test_remote, inr msg)) [] []).
Proof.
  destruct (mode_mismatch_refused map_walk map_walk_spec true true true false 10 test_files test_remote) as (g & path & content & msg & Hc & H).
  - apply test_tree_ok; [repeat constructor|vm_compute; lia].
  - apply test_tree_ok; [repeat constructor|vm_compute; lia].
  - intros p [c Hc]. unfold test_files in Hc. apply lookup_singleton_Some in Hc as [<- _]. reflexivity.
  - apply map_non_empty_singleton.
  - vm_compute. lia.
  - intros p c c' _ _. discriminate.
  - pose proof Hc as Hp. unfold test_files in Hp. apply lookup_singleton_Some in Hp as [<- _]. exists g, content, msg. split; [done|]. apply H, rtc_refl.
Defined.

(** A compressor that marks what it wrote. *)
Definition marking_zstd : Zstd := {|
  zstd_encode l := Some (x28 :: l);
  zstd_decode l := match l with x28 :: l => Some l | _ => None end
|}.

Lemma marking_zstd_laws : ZstdLaws marking_zstd.
Proof. constructor. intros l. by exists (x28 :: l). Qed.

Lemma compression_mismatch_refused_witness : exists g lr,
  runs (mkSys (push_client (ZS := marking_zstd) map_walk true false false test_files)
              (push_server (ZS := marking_zstd) map_walk 10 true true false test_remote) [] [])
       (mkSys (PRecv g) (PRet (<[test_name := []]> test_remote, inr "zstd"%string)) lr []).
Proof.
  destruct (compression_mismatch_refused (ZS := marking_zstd) (ZL := marking_zstd_laws) map_walk map_walk_spec true false 10 test_files
              test_remote (mkManifestEntry test_name 3 (file_digest false test_content)) [] test_content) as (g & lr & H).
  - apply test_tree_ok; [repeat constructor|vm_compute; lia].
  - apply test_tree_ok; [repeat constructor|vm_compute; lia].
  - intros p [c Hc]. unfold test_files in Hc. apply lookup_singleton_Some in Hc as [<- _]. reflexivity.
  - vm_compute. lia.
  - reflexivity.
  - reflexivity.
  - discriminate.
  - rewrite take_ge; [reflexivity|]. cbn [test_content length]. unfold CHUNK. lia.
  - exists g, lr. apply H, rtc_refl.
Defined.
