(* ===== verification/Calendar.v ===== *)
(** * Timestamps

    src/src/bin/seam/audit.rs ([days_to_ymd], [now_rfc3339]) and
    src/src/bin/seam/key.rs ([fmt_timestamp_utc]): the program converts Unix time
    to a civil date twice, once in closed form and once by counting years and
    months.  Both are compared with the calendar itself: the day after a date. *)

From Stdlib Require Import ZArith Lia Bool List String.
From Stdlib Require Import Strings.Byte.
From stdpp Require Import base list numbers option.
From S2P Require Import Prelude TestCrypto Identity Net Text.

Open Scope Z_scope.

(** ** audit.rs *)

(** [u64] arithmetic; no operation leaves the type for a day count of a [u64]
    number of seconds. *)
Definition days_to_ymd (days : Z) : Z * Z * Z :=
  let z := days + 719468 in
  let era := z / 146097 in
  let doe := z - era * 146097 in
  let yoe := (doe - doe / 1460 + doe / 36524 - doe / 146096) / 365 in
  let y := yoe + era * 400 in
  let doy := doe - (365 * yoe + yoe / 4 - yoe / 100) in
  let mp := (5 * doy + 2) / 153 in
  let d := doy - (153 * mp + 2) / 5 + 1 in
  let m := if mp <? 10 then mp + 3 else mp - 9 in
  let y := if m <=? 2 then y + 1 else y in
  (y, m, d).

(** [{:0w$}]. *)
Definition pad (w : nat) (n : Z) : list byte := repeat x30 (w - length (dec n)) ++ dec n.

Definition DASH : list byte := [x2d].

(** The text of a number of seconds since the epoch. *)
Definition now_rfc3339 (secs_since_epoch : Z) : list byte :=
  let s := secs_since_epoch in
  let sec := s mod 60 in
  let min := (s / 60) mod 60 in
  let hour := (s / 3600) mod 24 in
  let days := s / 86400 in
  let '(year, month, day) := days_to_ymd days in
  pad 4 year ++ DASH ++ pad 2 month ++ DASH ++ pad 2 day ++ [x54] ++ pad 2 hour ++ [x3a] ++ pad 2 min ++ [x3a]
    ++ pad 2 sec ++ [x5a].

(** ** key.rs *)

Definition is_leap (year : Z) : bool :=
  (year mod 4 =? 0) && negb (year mod 100 =? 0) || (year mod 400 =? 0).

Fixpoint year_loop (fuel : nat) (days year : Z) : Z * Z :=
  match fuel with
  | O => (days, year)
  | S fuel =>
      let days_in_year := if is_leap year then 366 else 365 in
      if days <? days_in_year then (days, year) else year_loop fuel (days - days_in_year) (year + 1)
  end.

Definition month_days (leap : bool) : list Z := [31; if leap then 29 else 28; 31; 30; 31; 30; 31; 31; 30; 31; 30; 31].

Fixpoint month_loop (mds : list Z) (days month : Z) : Z * Z :=
  match mds with
  | [] => (days, month)
  | md :: mds => if days <? md then (days, month) else month_loop mds (days - md) (month + 1)
  end.

(** The date of the loops; a year has 365 days at least, which bounds their
    number. *)
Definition date_of_days (days : Z) : Z * Z * Z :=
  let '(rest, year) := year_loop (S (Z.to_nat (days / 365))) days 1970 in
  let '(rest, month) := month_loop (month_days (is_leap year)) rest 1 in
  (year, month, rest + 1).

Definition fmt_timestamp_utc (secs : Z) : list byte :=
  let days := wrap 32 (secs / 86400) in
  let time_of_day := wrap 32 (secs mod 86400) in
  let hh := time_of_day / 3600 in
  let mm := time_of_day mod 3600 / 60 in
  let ss := time_of_day mod 60 in
  let '(year, month, day) := date_of_days days in
  pad 4 year ++ pad 2 month ++ pad 2 day ++ [x54] ++ pad 2 hh ++ pad 2 mm ++ pad 2 ss ++ [x5a].

(** ** The calendar *)

Definition month_len (year month : Z) : Z := nth (Z.to_nat (month - 1)) (month_days (is_leap year)) 0.

Definition next_day (date : Z * Z * Z) : Z * Z * Z :=
  let '(y, m, d) := date in
  if d <? month_len y m then (y, m, d + 1) else if m <? 12 then (y, m + 1, 1) else (y + 1, 1, 1).

Definition valid_date (date : Z * Z * Z) : Prop :=
  let '(y, m, d) := date in 1 <= m <= 12 /\ 1 <= d <= month_len y m.

(** * Properties *)

(** ** The closed form *)

(** A year from March to February and the day in it. *)
Definition march_start (yoe : Z) : Z := 365 * yoe + yoe / 4 - yoe / 100.

Definition era_year (doe : Z) : Z := (doe - doe / 1460 + doe / 36524 - doe / 146096) / 365.

Lemma era_year_mono d1 d2 : 0 <= d1 -> d1 <= d2 -> era_year d1 <= era_year d2.
Proof.
  intros H0 H. pattern d2. apply Zlt_lower_bound_ind with (z := d1); [|done]. clear d2 H. intros d2 IH Hd.
  destruct (decide (d2 = d1)) as [->|]; [lia|]. specialize (IH (d2 - 1) ltac:(lia)).
  etrans; [exact IH|]. apply Z.div_le_mono; [lia|]. Z.to_euclidean_division_equations. lia.
Qed.

Definition year_span_ok (n : nat) : bool :=
  let y := Z.of_nat n in
  (era_year (march_start y) =? y)
  && (era_year ((if (n =? 399)%nat then 146097 else march_start (y + 1)) - 1) =? y).

Lemma year_spans : forallb year_span_ok (seq 0 400) = true.
Proof. vm_compute. reflexivity. Qed.

(** The first day after year [yoe] of an era. *)
Definition march_end (yoe : Z) : Z := if yoe =? 399 then 146097 else march_start (yoe + 1).

Lemma era_year_start yoe doe : 0 <= yoe < 400 -> march_start yoe <= doe < march_end yoe -> era_year doe = yoe.
Proof.
  intros Hy Hd. pose proof year_spans as Hs. rewrite forallb_forall in Hs.
  specialize (Hs (Z.to_nat yoe)). rewrite in_seq in Hs. specialize (Hs ltac:(lia)).
  unfold year_span_ok in Hs. apply andb_true_iff in Hs as [H1%Z.eqb_eq H2%Z.eqb_eq].
  rewrite Z2Nat.id in * by lia.
  assert (He : (if (Z.to_nat yoe =? 399)%nat then 146097 else march_start (yoe + 1)) = march_end yoe).
  { unfold march_end. destruct (Z.eqb_spec yoe 399), (Nat.eqb_spec (Z.to_nat yoe) 399); lia || done. }
  rewrite He in H2. apply Z.le_antisymm.
  - etrans; [|exact (Z.eq_le_incl _ _ H2)]. apply era_year_mono; [|lia].
    unfold march_start in Hd. Z.to_euclidean_division_equations. lia.
  - etrans; [exact (Z.eq_le_incl _ _ (eq_sym H1))|]. apply era_year_mono; [|lia].
    unfold march_start. Z.to_euclidean_division_equations. lia.
Qed.

(** Every day of an era lies in one of its years. *)
Lemma era_split doe : 0 <= doe < 146097 -> exists yoe, 0 <= yoe < 400 /\ march_start yoe <= doe < march_end yoe.
Proof.
  intros Hd. assert (H : forall n : nat, (n <= 400)%nat -> doe < (if (n =? 400)%nat then 146097 else march_start (Z.of_nat n)) ->
    exists yoe, 0 <= yoe < 400 /\ march_start yoe <= doe < march_end yoe).
  { induction n as [|n IH]; intros Hn Hlt; [change (doe < 0) in Hlt; lia|].
    destruct (decide (march_start (Z.of_nat n) <= doe)) as [Hle|Hgt].
    - exists (Z.of_nat n). split; [lia|]. split; [done|]. unfold march_end.
      destruct (Nat.eqb_spec (S n) 400), (Z.eqb_spec (Z.of_nat n) 399); try lia.
      by replace (Z.of_nat n + 1) with (Z.of_nat (S n)) by lia.
    - apply IH; [lia|]. destruct (Nat.eqb_spec n 400); lia. }
  apply (H 400%nat); [lia|]. cbn. lia.
Qed.

(** Month and day of a day of such a year. *)
Definition march_md (doy : Z) : Z * Z :=
  let mp := (5 * doy + 2) / 153 in (if mp <? 10 then mp + 3 else mp - 9, doy - (153 * mp + 2) / 5 + 1).

Definition of_march (year doy : Z) : Z * Z * Z :=
  let '(m, d) := march_md doy in (if m <=? 2 then year + 1 else year, m, d).

Lemma days_to_ymd_march era yoe doy :
  0 <= yoe < 400 -> 0 <= doy < march_end yoe - march_start yoe ->
  days_to_ymd (era * 146097 + march_start yoe + doy - 719468) = of_march (yoe + era * 400) doy.
Proof.
  intros Hy Hd. unfold days_to_ymd. set (doe := march_start yoe + doy).
  assert (Hdoe : 0 <= doe < 146097).
  { unfold doe, march_end, march_start in *. destruct (Z.eqb_spec yoe 399); Z.to_euclidean_division_equations; lia. }
  replace (era * 146097 + march_start yoe + doy - 719468 + 719468) with (doe + era * 146097) by (unfold doe; lia).
  rewrite Z.div_add, (Z.div_small doe) by lia. rewrite Z.add_0_l.
  replace (doe + era * 146097 - era * 146097) with doe by lia.
  fold (era_year doe). rewrite (era_year_start yoe doe) by (unfold doe; lia).
  fold (march_start yoe). replace (doe - march_start yoe) with doy by (unfold doe; lia).
  unfold of_march, march_md. destruct (_ <? 10); reflexivity.
Qed.

Lemma day_march day : exists era yoe doy, 0 <= yoe < 400 /\ 0 <= doy < march_end yoe - march_start yoe
  /\ day = era * 146097 + march_start yoe + doy - 719468 /\ era = (day + 719468) / 146097.
Proof.
  pose proof (Z.mod_pos_bound (day + 719468) 146097 ltac:(lia)) as Hm.
  destruct (era_split _ Hm) as (yoe & Hy & Hd).
  exists ((day + 719468) / 146097), yoe, ((day + 719468) mod 146097 - march_start yoe).
  split_and!; [lia..| |done]. pose proof (Z.div_mod (day + 719468) 146097 ltac:(lia)). lia.
Qed.

(** Whether a date follows another, over the days of a year from March. *)
Definition march_next_ok (leap : bool) (n : nat) : bool :=
  let '(m, d) := march_md (Z.of_nat n) in
  let len := nth (Z.to_nat (m - 1)) (month_days leap) 0 in
  let next := if d <? len then (m, d + 1) else if m <? 12 then (m + 1, 1) else (1, 1) in
  (1 <=? m) && (m <=? 12) && (1 <=? d) && (d <=? len)
  && ((n =? (if leap then 365 else 364))%nat && (m =? 2) && (d =? len)
      || negb (n =? (if leap then 365 else 364))%nat && bool_decide (march_md (Z.of_nat n + 1) = next) && ((d <? len) || negb (m =? 2))).

Lemma march_days : forallb (march_next_ok false) (seq 0 365) && forallb (march_next_ok true) (seq 0 366) = true.
Proof. vm_compute. reflexivity. Qed.

Lemma march_day leap doy : 0 <= doy < (if leap : bool then 366 else 365) -> march_next_ok leap (Z.to_nat doy) = true.
Proof.
  intros Hd. pose proof march_days as H. apply andb_true_iff in H as [H1 H2]. rewrite forallb_forall in H1, H2.
  destruct leap; [apply H2|apply H1]; apply in_seq; lia.
Qed.

(** The leap day of a year from March is that of the next civil year. *)
Lemma march_len yoe era : 0 <= yoe < 400 ->
  march_end yoe - march_start yoe = if is_leap (yoe + era * 400 + 1) then 366 else 365.
Proof.
  intros Hy. unfold is_leap.
  replace (yoe + era * 400 + 1) with (yoe + 1 + era * 4 * 100) by lia. rewrite (Z_mod_plus_full _ _ 100).
  replace (yoe + 1 + era * 4 * 100) with (yoe + 1 + era * 100 * 4) by lia. rewrite (Z_mod_plus_full _ _ 4).
  replace (yoe + 1 + era * 100 * 4) with (yoe + 1 + era * 400) by lia. rewrite (Z_mod_plus_full _ _ 400).
  unfold march_end, march_start. destruct (Z.eqb_spec yoe 399) as [->|]; [reflexivity|].
  destruct (Z.eqb_spec ((yoe + 1) mod 4) 0), (Z.eqb_spec ((yoe + 1) mod 100) 0), (Z.eqb_spec ((yoe + 1) mod 400) 0);
    cbn [negb andb orb]; Z.to_euclidean_division_equations; lia.
Qed.

Lemma month_len_march leap year m :
  (m = 2 -> is_leap year = leap) -> month_len year m = nth (Z.to_nat (m - 1)) (month_days leap) 0.
Proof.
  intros Hm. unfold month_len. destruct (decide (m = 2)) as [->|Hne]; [by rewrite Hm|].
  assert (Hnat : Z.to_nat (m - 1) <> 1%nat) by lia.
  destruct (Z.to_nat (m - 1)) as [|[|n]] eqn:E; [done|lia|]. destruct (is_leap year), leap; done.
Qed.

Lemma of_march_valid year doy :
  0 <= doy < (if is_leap (year + 1) then 366 else 365) -> valid_date (of_march year doy).
Proof.
  intros Hd. pose proof (march_day _ _ Hd) as Hok. unfold march_next_ok in Hok. rewrite Z2Nat.id in Hok by lia.
  unfold of_march. destruct (march_md doy) as [m d]. apply andb_true_iff in Hok as [Hok _].
  repeat (apply andb_true_iff in Hok as [Hok ?]). repeat match goal with H : (_ <=? _) = true |- _ => apply Z.leb_le in H end.
  unfold valid_date. split; [lia|]. rewrite (month_len_march (is_leap (year + 1))); [lia|]. intros ->. done.
Qed.

Lemma of_march_next year doy :
  0 <= doy < (if is_leap (year + 1) then 366 else 365) ->
  next_day (of_march year doy)
  = if doy + 1 <? (if is_leap (year + 1) then 366 else 365) then of_march year (doy + 1) else of_march (year + 1) 0.
Proof.
  intros Hd. pose proof (march_day _ _ Hd) as Hok. unfold march_next_ok in Hok. rewrite Z2Nat.id in Hok by lia.
  unfold of_march at 1. destruct (march_md doy) as [m d] eqn:Hmd.
  set (Y := if m <=? 2 then year + 1 else year).
  assert (Hlen : month_len Y m = nth (Z.to_nat (m - 1)) (month_days (is_leap (year + 1))) 0).
  { apply month_len_march. intros ->. done. }
  unfold next_day. rewrite Hlen. set (len := nth _ _ _) in *. clearbody len.
  apply andb_true_iff in Hok as [Hr Hok]. repeat (apply andb_true_iff in Hr as [Hr ?]).
  repeat match goal with H : (_ <=? _) = true |- _ => apply Z.leb_le in H end.
  apply orb_true_iff in Hok as [Hend|Hok].
  - apply andb_true_iff in Hend as [[Hn%Nat.eqb_eq Hm%Z.eqb_eq]%andb_true_iff Hdl%Z.eqb_eq].
    assert (Hlast : doy + 1 = if is_leap (year + 1) then 366 else 365) by (destruct (is_leap _); lia).
    rewrite <- Hlast, (proj2 (Z.ltb_ge _ _)), (proj2 (Z.ltb_ge (doy + 1) _)) by lia. subst m. done.
  - apply andb_true_iff in Hok as [[Hn Hnext%bool_decide_eq_true_1]%andb_true_iff Hm%orb_true_iff].
    apply negb_true_iff, Nat.eqb_neq in Hn.
    destruct (Z.ltb_spec (doy + 1) (if is_leap (year + 1) then 366 else 365)) as [Hlt|Hge].
    + unfold of_march. rewrite Hnext. unfold Y. destruct (d <? len) eqn:Ed; [done|].
      assert (Hm2 : m <> 2) by (destruct Hm as [|Hm]; [done|by apply negb_true_iff, Z.eqb_neq in Hm]).
      destruct (Z.ltb_spec m 12); cbn [fst snd].
      * destruct (Z.leb_spec m 2), (Z.leb_spec (m + 1) 2); done || lia.
      * rewrite (proj2 (Z.leb_gt m 2)) by lia. done.
    + exfalso. destruct (is_leap (year + 1)); lia.
Qed.

(** The day after, in the closed form. *)
Lemma days_to_ymd_next day : days_to_ymd (day + 1) = next_day (days_to_ymd day) /\ valid_date (days_to_ymd day).
Proof.
  destruct (day_march day) as (era & yoe & doy & Hy & Hd & -> & _).
  pose proof (march_len yoe era Hy) as Hlen. rewrite days_to_ymd_march by done. rewrite Hlen in Hd.
  split; [|by apply of_march_valid]. rewrite of_march_next by done.
  destruct (Z.ltb_spec (doy + 1) (if is_leap (yoe + era * 400 + 1) then 366 else 365)) as [Hlt|Hge].
  - replace (era * 146097 + march_start yoe + doy - 719468 + 1)
      with (era * 146097 + march_start yoe + (doy + 1) - 719468) by lia.
    rewrite days_to_ymd_march; [done|done|lia].
  - assert (Hend : march_start yoe + doy + 1 = march_end yoe) by lia. unfold march_end in Hend.
    destruct (Z.eqb_spec yoe 399) as [->|Hne].
    + replace (era * 146097 + march_start 399 + doy - 719468 + 1)
        with ((era + 1) * 146097 + march_start 0 + 0 - 719468) by (change (march_start 0) with 0; lia).
      rewrite days_to_ymd_march; [f_equal; lia|lia|]. change (march_end 0 - march_start 0) with 365. lia.
    + replace (era * 146097 + march_start yoe + doy - 719468 + 1)
        with (era * 146097 + march_start (yoe + 1) + 0 - 719468) by lia.
      rewrite days_to_ymd_march; [f_equal; lia|lia|]. rewrite (march_len _ era) by lia. destruct (is_leap (yoe + 1 + era * 400 + 1)); lia.
Qed.

(** ** The loops *)

Definition month_next_ok (leap : bool) (n : nat) : bool :=
  let '(r, m) := month_loop (month_days leap) (Z.of_nat n) 1 in
  let len := nth (Z.to_nat (m - 1)) (month_days leap) 0 in
  (1 <=? m) && (m <=? 12) && (0 <=? r) && (r <? len)
  && Bool.eqb ((len <=? r + 1) && (m =? 12)) (n =? (if leap then 365 else 364))%nat
  && bool_decide (month_loop (month_days leap) (Z.of_nat n + 1) 1 = if r + 1 <? len then (r + 1, m) else (0, m + 1)).

Lemma month_loops : forallb (month_next_ok false) (seq 0 365) && forallb (month_next_ok true) (seq 0 366) = true.
Proof. vm_compute. reflexivity. Qed.

Lemma month_loop_next leap days :
  0 <= days < (if leap : bool then 366 else 365) ->
  let '(r, m) := month_loop (month_days leap) days 1 in
  1 <= m <= 12 /\ 0 <= r < nth (Z.to_nat (m - 1)) (month_days leap) 0
  /\ (nth (Z.to_nat (m - 1)) (month_days leap) 0 <= r + 1 /\ m = 12 <-> days = if leap then 365 else 364)
  /\ month_loop (month_days leap) (days + 1) 1
     = (if r + 1 <? nth (Z.to_nat (m - 1)) (month_days leap) 0 then (r + 1, m) else (0, m + 1)).
Proof.
  intros Hd. pose proof month_loops as H. apply andb_true_iff in H as [H1 H2]. rewrite forallb_forall in H1, H2.
  assert (Hok : month_next_ok leap (Z.to_nat days) = true) by (destruct leap; [apply H2|apply H1]; apply in_seq; lia).
  unfold month_next_ok in Hok. rewrite Z2Nat.id in Hok by lia. destruct (month_loop _ days 1) as [r m].
  repeat (apply andb_true_iff in Hok as [Hok ?]).
  repeat match goal with H : (_ <=? _) = true |- _ => apply Z.leb_le in H | H : (_ <? _) = true |- _ => apply Z.ltb_lt in H end.
  split_and!; [lia..| |by eapply bool_decide_eq_true_1].
  match goal with H : Bool.eqb _ _ = true |- _ => apply Bool.eqb_prop in H; rename H into He end.
  rewrite <- Z.leb_le, <- Z.eqb_eq, <- andb_true_iff, He, Nat.eqb_eq. destruct leap; lia.
Qed.

(** The rest of the year after the loops of [fuel] years. *)
Lemma year_loop_rest fuel : forall days year, 0 <= days < Z.of_nat fuel * 365 ->
  let '(r, y) := year_loop fuel days year in 0 <= r < (if is_leap y then 366 else 365).
Proof.
  induction fuel as [|fuel IH]; intros days year Hd; [lia|]. cbn [year_loop].
  destruct (Z.ltb_spec days (if is_leap year then 366 else 365)); [lia|].
  apply IH. destruct (is_leap year); lia.
Qed.

Lemma year_loop_next fuel : forall fuel' days year, 0 <= days -> days + 1 < Z.of_nat fuel * 365 -> (fuel' <= fuel)%nat ->
  days + 1 < Z.of_nat fuel' * 365 + 1 ->
  year_loop fuel (days + 1) year
  = (let '(r, y) := year_loop fuel' days year in
     if r + 1 <? (if is_leap y then 366 else 365) then (r + 1, y) else (0, y + 1)).
Proof.
  induction fuel as [|fuel IH]; intros [|fuel'] days year H0 Hd Hf Hf'; [lia..|]. cbn [year_loop].
  destruct (Z.ltb_spec days (if is_leap year then 366 else 365)).
  - destruct (Z.ltb_spec (days + 1) (if is_leap year then 366 else 365)); [done|].
    replace (days + 1 - (if is_leap year then 366 else 365)) with 0 by lia.
    destruct fuel as [|fuel]; [destruct (is_leap year); lia|]. cbn [year_loop]. by destruct (is_leap (year + 1)).
  - rewrite (proj2 (Z.ltb_ge _ _)) by lia.
    replace (days + 1 - (if is_leap year then 366 else 365)) with (days - (if is_leap year then 366 else 365) + 1) by lia.
    apply IH; [lia|destruct (is_leap year); lia|lia|destruct (is_leap year); lia].
Qed.

Lemma date_of_days_next days : 0 <= days -> date_of_days (days + 1) = next_day (date_of_days days).
Proof.
  intros Hd. unfold date_of_days.
  set (f' := S (Z.to_nat ((days + 1) / 365))). set (f := S (Z.to_nat (days / 365))).
  assert (Hf : days < Z.of_nat f * 365 /\ days + 1 < Z.of_nat f' * 365 /\ (f <= f')%nat).
  { unfold f, f'. pose proof (Z.div_le_mono days (days + 1) 365 ltac:(lia) ltac:(lia)).
    rewrite !Nat2Z.inj_succ, !Z2Nat.id by (apply Z.div_pos; lia). split_and!; [| |lia];
      Z.to_euclidean_division_equations; lia. }
  destruct Hf as (Hf1 & Hf2 & Hf3). pose proof (year_loop_rest f days 1970 ltac:(lia)) as Hr.
  rewrite (year_loop_next f' f) by lia. destruct (year_loop f days 1970) as [r y].
  pose proof (month_loop_next (is_leap y) r Hr) as Hm. destruct (month_loop (month_days (is_leap y)) r 1) as [rm m].
  destruct Hm as (Hm1 & Hm2 & Hlast & Hm3). unfold next_day, month_len.
  destruct (Z.ltb_spec (r + 1) (if is_leap y then 366 else 365)) as [Hlt|Hge].
  - rewrite Hm3. destruct (Z.ltb_spec (rm + 1) (nth (Z.to_nat (m - 1)) (month_days (is_leap y)) 0)); [done|].
    destruct (Z.ltb_spec m 12); [done|]. exfalso. assert (r = if is_leap y then 365 else 364) by (apply Hlast; lia).
    destruct (is_leap y); lia.
  - assert (Hl := proj2 Hlast ltac:(destruct (is_leap y); lia)). destruct Hl as [Hl ->].
    rewrite (proj2 (Z.ltb_ge (rm + 1) _)) by lia. change (12 <? 12) with false. cbn iota.
    by destruct (is_leap (y + 1)).
Qed.

(** ** The two agree *)

Lemma dates_equal (n : nat) : days_to_ymd (Z.of_nat n) = date_of_days (Z.of_nat n).
Proof.
  induction n as [|n IH]; [reflexivity|]. rewrite Nat2Z.inj_succ. unfold Z.succ.
  rewrite (proj1 (days_to_ymd_next _)), date_of_days_next by lia. by rewrite IH.
Qed.

(** C39: The closed form is the civil calendar: day 0 is the first of January 1970,
    each day's date is the day after the date before it, by the Gregorian rule
    of leap years, and every date exists. *)
Theorem civil_calendar :
  days_to_ymd 0 = (1970, 1, 1)
  /\ forall days, days_to_ymd (days + 1) = next_day (days_to_ymd days) /\ valid_date (days_to_ymd days).
Proof. split; [reflexivity|]. apply days_to_ymd_next. Qed.

(** The two conversions of the program agree: the closed form of the audit log
    and the loops of the key backup give every day the same date. *)
Theorem dates_agree days : 0 <= days -> days_to_ymd days = date_of_days days.
Proof. intros Hd. rewrite <- (Z2Nat.id days) by done. apply dates_equal. Qed.

Lemma dates_agree_witness : days_to_ymd 19797 = (2024, 3, 15) /\ days_to_ymd 19797 = date_of_days 19797.
Proof. split; [reflexivity|]. apply dates_agree. lia. Defined.

(** ** The text of a timestamp *)

(** The decimal digits of a field. *)
Definition field_digits (w : nat) (n : Z) : list Z :=
  match w with
  | 2%nat => [n / 10; n mod 10]
  | _ => [n / 1000; n / 100 mod 10; n / 10 mod 10; n mod 10]
  end.

(** The number of values of a field. *)
Definition field_size (w : nat) : Z := match w with 2%nat => 100 | _ => 10000 end.

Lemma digits_fuel_small fuel n : n < 10 -> digits_fuel (S fuel) 10 n = [n].
Proof. intros Hn. cbn [digits_fuel]. by rewrite (proj2 (Z.ltb_lt n 10)). Qed.

Lemma digits_fuel_more fuel n : 10 <= n -> digits_fuel (S fuel) 10 n = digits_fuel fuel 10 (n / 10) ++ [n mod 10].
Proof. intros Hn. cbn [digits_fuel]. by rewrite (proj2 (Z.ltb_ge n 10)). Qed.

Lemma pad_digits w n : w = 2%nat \/ w = 4%nat -> 0 <= n < field_size w -> pad w n = map hex_digit (field_digits w n).
Proof.
  intros Hw Hn. unfold pad, dec, digits.
  assert (H0 : x30 = hex_digit 0) by reflexivity.
  destruct (Z.lt_ge_cases n 10).
  { rewrite digits_fuel_small by done. destruct Hw as [-> | ->]; cbn [field_digits map length repeat Nat.sub app];
      rewrite ?(Z.div_small n), ?(Z.mod_small n) by lia; by rewrite ?H0. }
  rewrite digits_fuel_more by done. rewrite map_app. destruct (Z.lt_ge_cases n 100).
  { assert (n / 10 < 10) by (apply Z.div_lt_upper_bound; lia). assert (0 <= n / 10) by (apply Z.div_pos; lia).
    rewrite digits_fuel_small by done. destruct Hw as [-> | ->]; cbn [field_digits map length repeat Nat.sub app]; [done|].
    rewrite (Z.div_small n 1000), (Z.div_small n 100), (Z.mod_small (n / 10)), Z.mod_0_l, H0 by lia. done. }
  destruct Hw as [-> | ->]; cbn in Hn; [lia|].
  rewrite digits_fuel_more by (Z.to_euclidean_division_equations; lia). rewrite map_app, Z.div_div by lia.
  change (10 * 10) with 100. destruct (Z.lt_ge_cases n 1000).
  { assert (n / 100 < 10) by (apply Z.div_lt_upper_bound; lia). assert (0 <= n / 100) by (apply Z.div_pos; lia).
    rewrite digits_fuel_small by done. cbn [field_digits map length repeat Nat.sub app].
    rewrite (Z.div_small n 1000), (Z.mod_small (n / 100)), H0 by lia. done. }
  rewrite digits_fuel_more by (Z.to_euclidean_division_equations; lia). rewrite map_app, Z.div_div by lia.
  change (100 * 10) with 1000. rewrite digits_fuel_small by (apply Z.div_lt_upper_bound; lia). reflexivity.
Qed.

Lemma pad_spec w n : w = 2%nat \/ w = 4%nat -> 0 <= n < field_size w -> length (pad w n) = w.
Proof. intros Hw Hn. rewrite pad_digits by done. by destruct Hw as [-> | ->]. Qed.

Lemma hex_digit_val d : 0 <= d < 10 -> byte_val (hex_digit d) = 48 + d.
Proof. intros Hd. unfold hex_digit. rewrite (proj2 (Z.ltb_lt d 10)) by lia. apply byte_of_small. lia. Qed.

Lemma pad_lt w n m : w = 2%nat \/ w = 4%nat -> 0 <= n < m -> m < field_size w -> bytes_ltb (pad w n) (pad w m) = true.
Proof.
  intros Hw Hn Hm. rewrite !pad_digits by (done || lia).
  destruct Hw as [-> | ->]; cbn [field_digits field_size] in *; cbn [map bytes_ltb];
    rewrite !hex_digit_val by (Z.to_euclidean_division_equations; lia);
    repeat match goal with |- context [?a <? ?b] => destruct (Z.ltb_spec a b); [done|]; cbn [orb] end;
    repeat match goal with |- context [?a =? ?b] => destruct (Z.eqb_spec a b); cbn [andb orb] end;
    Z.to_euclidean_division_equations; lia.
Qed.

(** A fixed-width field, followed by more text, orders by its value first. *)
Lemma pad_order w n m x y :
  w = 2%nat \/ w = 4%nat -> 0 <= n < field_size w -> 0 <= m < field_size w ->
  n < m \/ n = m /\ bytes_ltb x y = true -> bytes_ltb (pad w n ++ x) (pad w m ++ y) = true.
Proof.
  intros Hw Hn Hm [Hlt|[-> Hxy]].
  - apply bytes_ltb_app_lt; [by rewrite !pad_spec|]. by apply pad_lt; [|lia..].
  - by rewrite bytes_ltb_app_same.
Qed.

Definition date_lt (a b : Z * Z * Z) : Prop :=
  let '(y1, m1, d1) := a in let '(y2, m2, d2) := b in y1 < y2 \/ y1 = y2 /\ (m1 < m2 \/ m1 = m2 /\ d1 < d2).

Lemma date_lt_trans a b c : date_lt a b -> date_lt b c -> date_lt a c.
Proof. destruct a as [[? ?] ?], b as [[? ?] ?], c as [[? ?] ?]. cbn. lia. Qed.

Lemma date_lt_next a : date_lt a (next_day a).
Proof. destruct a as [[y m] d]. unfold next_day. destruct (_ <? _); [cbn; lia|]. destruct (_ <? _); cbn; lia. Qed.

Lemma days_to_ymd_mono d1 d2 : d1 < d2 -> date_lt (days_to_ymd d1) (days_to_ymd d2).
Proof.
  intros H. pattern d2. apply Zlt_lower_bound_ind with (z := d1 + 1); [|lia]. clear d2 H. intros d2 IH Hd.
  assert (Hn : date_lt (days_to_ymd (d2 - 1)) (days_to_ymd d2)).
  { replace d2 with (d2 - 1 + 1) at 2 by lia. rewrite (proj1 (days_to_ymd_next _)). apply date_lt_next. }
  destruct (decide (d2 = d1 + 1)) as [->|]; [by replace (d1 + 1 - 1) with d1 in Hn by lia|].
  apply (date_lt_trans _ (days_to_ymd (d2 - 1))); [apply IH; lia|done].
Qed.

Lemma month_len_le y m : month_len y m <= 31.
Proof.
  unfold month_len, month_days. generalize (Z.to_nat (m - 1)). intros k.
  do 12 (destruct k as [|k]; [destruct (is_leap y); cbn; lia|]). destruct k; cbn; lia.
Qed.

(** The first second of the year 10000. *)
Definition YEAR_10000 : Z := 253402300800.

Lemma date_fields days : 0 <= days < YEAR_10000 / 86400 ->
  let '(y, m, d) := days_to_ymd days in 1970 <= y < 10000 /\ 1 <= m <= 12 /\ 1 <= d <= 31.
Proof.
  intros Hd. pose proof (proj2 (days_to_ymd_next days)) as Hv.
  assert (Hlo : days_to_ymd days = days_to_ymd 0 \/ date_lt (days_to_ymd 0) (days_to_ymd days)).
  { destruct (decide (days = 0)) as [->|]; [by left|right]. apply days_to_ymd_mono. lia. }
  pose proof (days_to_ymd_mono days (YEAR_10000 / 86400) ltac:(lia)) as Hhi.
  change (days_to_ymd (YEAR_10000 / 86400)) with (10000, 1, 1) in Hhi. change (days_to_ymd 0) with (1970, 1, 1) in Hlo.
  destruct (days_to_ymd days) as [[y m] d]. cbn in Hv. pose proof (month_len_le y m).
  destruct Hlo as [[= -> -> ->]|Hlo]; cbn in *; lia.
Qed.

(** The order of timestamps is the order of time: up to the year 9999 the text
    of an earlier second is the smaller string, so the log can be filtered by
    comparing text; and every text has 20 characters. *)
Theorem rfc3339_sorted s1 s2 :
  0 <= s1 < s2 -> s2 < YEAR_10000 ->
  bytes_ltb (now_rfc3339 s1) (now_rfc3339 s2) = true /\ length (now_rfc3339 s1) = 20%nat.
Proof.
  intros H1 H2. pose proof (date_fields (s1 / 86400)) as F1. pose proof (date_fields (s2 / 86400)) as F2.
  assert (Hdate : s1 / 86400 = s2 / 86400 \/ date_lt (days_to_ymd (s1 / 86400)) (days_to_ymd (s2 / 86400))).
  { destruct (decide (s1 / 86400 = s2 / 86400)); [by left|right]. apply days_to_ymd_mono.
    pose proof (Z.div_le_mono s1 s2 86400). lia. }
  assert (Htime : s1 / 86400 = s2 / 86400 ->
    (s1 / 3600) mod 24 < (s2 / 3600) mod 24 \/ (s1 / 3600) mod 24 = (s2 / 3600) mod 24 /\
    ((s1 / 60) mod 60 < (s2 / 60) mod 60 \/ (s1 / 60) mod 60 = (s2 / 60) mod 60 /\ s1 mod 60 < s2 mod 60)).
  { intros He. Z.to_euclidean_division_equations. lia. }
  unfold now_rfc3339.
  pose proof (Z.mod_pos_bound (s1 / 3600) 24 ltac:(lia)). pose proof (Z.mod_pos_bound (s2 / 3600) 24 ltac:(lia)).
  pose proof (Z.mod_pos_bound (s1 / 60) 60 ltac:(lia)). pose proof (Z.mod_pos_bound (s2 / 60) 60 ltac:(lia)).
  pose proof (Z.mod_pos_bound s1 60 ltac:(lia)). pose proof (Z.mod_pos_bound s2 60 ltac:(lia)).
  unfold YEAR_10000 in *.
  assert (0 <= s1 / 86400 < 2932897) by (Z.to_euclidean_division_equations; lia).
  assert (0 <= s2 / 86400 < 2932897) by (Z.to_euclidean_division_equations; lia).
  change (253402300800 / 86400) with 2932897 in *. specialize (F1 ltac:(lia)). specialize (F2 ltac:(lia)).
  destruct (days_to_ymd (s1 / 86400)) as [[y1 m1] d1] eqn:E1. destruct (days_to_ymd (s2 / 86400)) as [[y2 m2] d2] eqn:E2.
  split.
  - assert (Hcases : date_lt (y1, m1, d1) (y2, m2, d2) \/ (y1, m1, d1) = (y2, m2, d2) /\ s1 / 86400 = s2 / 86400).
    { destruct Hdate as [He|]; [right|by left]. split; [|done]. rewrite <- E1, <- E2, He. done. }
    clear Hdate E1 E2. cbn [date_lt] in Hcases.
    apply pad_order; [by right|cbn; lia..|].
    destruct Hcases as [[Hlt|(-> & Hmd)]|[[= -> -> ->] He]]; [by left|right; split; [done|]..]; rewrite bytes_ltb_app_same;
      (apply pad_order; [by left|cbn; lia..|]).
    + destruct Hmd as [Hlt|[-> Hlt]]; [by left|right; split; [done|]]. rewrite bytes_ltb_app_same.
      apply pad_order; [by left|cbn; lia..|by left].
    + right. split; [done|]. rewrite bytes_ltb_app_same. apply pad_order; [by left|cbn; lia..|].
      right. split; [done|]. rewrite bytes_ltb_app_same. specialize (Htime He).
      apply pad_order; [by left|cbn; lia..|]. destruct Htime as [Hlt|[-> Hlt]]; [by left|right; split; [done|]].
      rewrite bytes_ltb_app_same. apply pad_order; [by left|cbn; lia..|].
      destruct Hlt as [Hlt|[-> Hlt]]; [by left|right; split; [done|]].
      rewrite bytes_ltb_app_same. apply pad_order; [by left|cbn; lia..|by left].
  - rewrite !length_app, !pad_spec by (first [by left|by right|cbn; lia]). reflexivity.
Qed.

Lemma rfc3339_sorted_witness :
  now_rfc3339 1710460800 = string_bytes "2024-03-15T00:00:00Z"
  /\ bytes_ltb (now_rfc3339 1710460799) (now_rfc3339 1710460800) = true /\ length (now_rfc3339 1710460799) = 20%nat.
Proof. split; [reflexivity|]. apply rfc3339_sorted; unfold YEAR_10000; lia. Defined.

(** The two texts of a second carry the same fields. *)
Lemma fmt_timestamp_fields secs : 0 <= secs < 86400 * 2 ^ 32 ->
  let '(y, m, d) := days_to_ymd (secs / 86400) in
  fmt_timestamp_utc secs = pad 4 y ++ pad 2 m ++ pad 2 d ++ [x54] ++ pad 2 ((secs / 3600) mod 24)
                           ++ pad 2 ((secs / 60) mod 60) ++ pad 2 (secs mod 60) ++ [x5a].
Proof.
  intros Hs. assert (Hd : 0 <= secs / 86400 < 2 ^ 32) by (Z.to_euclidean_division_equations; lia).
  unfold fmt_timestamp_utc. rewrite !wrap_small by (unfold is_u; Z.to_euclidean_division_equations; lia).
  rewrite <- (Z2Nat.id (secs / 86400)) by lia. rewrite dates_equal. rewrite Z2Nat.id by lia.
  destruct (date_of_days _) as [[y m] d].
  replace (secs mod 86400 / 3600) with ((secs / 3600) mod 24) by (Z.to_euclidean_division_equations; lia).
  replace (secs mod 86400 mod 3600 / 60) with ((secs / 60) mod 60) by (Z.to_euclidean_division_equations; lia).
  replace (secs mod 86400 mod 60) with (secs mod 60) by (Z.to_euclidean_division_equations; lia). done.
Qed.
