(* ===== verification/Json.v ===== *)
(** * JSON

    What the program relies on of the serde_json crate, as an interface: values,
    the compact text of a value, parsing, and the order of keys.  The crate's
    map type without the feature [preserve_order], which Cargo.lock does not
    enable, is a [BTreeMap]: a parsed object has its keys in the order of
    strings, whatever their order in the text.  [test_json] is an instance. *)

From Stdlib Require Import ZArith Lia Bool List String.
From Stdlib Require Import Strings.Byte.
From stdpp Require Import base list numbers option sorting.
From S2P Require Import Prelude TestCrypto Identity Net Text.

Open Scope Z_scope.

#[warnings="-register-all"]
Inductive Json : Type :=
  | JNull
  | JBool (b : bool)
  | JNum (n : Z)                              (* integers only *)
  | JStr (s : list byte)
  | JArr (l : list Json)
  | JObj (fields : list (list byte * Json)).

Definition QUOTE : byte := x22.

(** A byte that stands for itself in the text of a string. *)
Definition plain_byte (b : byte) : bool := (32 <=? byte_val b) && negb (Byte.eqb b QUOTE) && negb (Byte.eqb b x5c).

Class SerdeJson : Type := {
  to_string : Json -> list byte;
  from_str : list byte -> option Json
}.

Section Objects.
Context {J : SerdeJson}.

Definition field_text (f : list byte * Json) : list byte := to_string (JStr f.1) ++ [x3a] ++ to_string f.2.

(** [Value::get] of an object. *)
Definition obj_get (k : list byte) (fields : list (list byte * Json)) : option Json :=
  snd <$> List.find (fun f => bytes_eqb f.1 k) fields.

Definition json_get (k : list byte) (j : Json) : option Json :=
  match j with JObj fields => obj_get k fields | _ => None end.

Definition as_str (j : Json) : option (list byte) := match j with JStr s => Some s | _ => None end.

Definition json_remove (k : list byte) (j : Json) : Json :=
  match j with JObj fields => JObj (List.filter (fun f => negb (bytes_eqb f.1 k)) fields) | _ => j end.

End Objects.

(** The order a [BTreeMap] keeps. *)
Definition sort_fields : list (list byte * Json) -> list (list byte * Json) := sort_by_key fst.

(** The values of the program's records: scalars and lists of strings. *)
Definition flat_value (j : Json) : Prop :=
  match j with
  | JBool _ => True
  | JNum n => - 2 ^ 63 <= n < 2 ^ 64
  | JStr s => utf8_valid s = true
  | JArr l => Forall (fun x => exists s, x = JStr s /\ utf8_valid s = true) l
  | _ => False
  end.

Definition flat_object (fields : list (list byte * Json)) : Prop :=
  NoDup (map fst fields) /\ Forall (fun f => utf8_valid f.1 = true /\ flat_value f.2) fields.

Class SerdeJsonLaws (J : SerdeJson) : Prop := {
  json_plain_string s : forallb plain_byte s = true -> to_string (JStr s) = [QUOTE] ++ s ++ [QUOTE];
  json_object fields : to_string (JObj fields) = [x7b] ++ join [x2c] (map field_text fields) ++ [x7d];
  json_one_line j : Forall (fun b => b <> x0a) (to_string j);
  json_parse fields : flat_object fields -> from_str (to_string (JObj fields)) = Some (JObj (sort_fields fields))
}.

(** ** Sorted fields *)

Lemma sort_fields_perm fields : sort_fields fields ≡ₚ fields.
Proof. apply sort_by_key_perm. Qed.

Lemma obj_get_perm k fields1 fields2 :
  NoDup (map fst fields1) -> fields1 ≡ₚ fields2 -> obj_get k fields1 = obj_get k fields2.
Proof.
  intros Hnd Hp. unfold obj_get. induction Hp as [|f l1 l2 Hp IH|f g l|l1 l2 l3 Hp1 IH1 Hp2 IH2]; [done|..].
  - cbn in *. destruct (bytes_eqb f.1 k); [done|]. apply IH. by apply NoDup_cons in Hnd as [_ ?].
  - cbn in *. destruct (bytes_eqb g.1 k) eqn:Eg, (bytes_eqb f.1 k) eqn:Ef; try done.
    apply bytes_eqb_eq in Eg, Ef. apply NoDup_cons in Hnd as [Hn _]. exfalso. apply Hn. rewrite Eg, Ef. by left.
  - rewrite IH1 by done. apply IH2. by rewrite <- Hp1.
Qed.

Lemma obj_get_app_l k fields1 fields2 v : obj_get k fields1 = Some v -> obj_get k (fields1 ++ fields2) = Some v.
Proof.
  unfold obj_get. induction fields1 as [|f l IH]; cbn; [done|]. by destruct (bytes_eqb f.1 k).
Qed.

Lemma obj_get_fresh k fields1 v :
  k ∉ map fst fields1 -> obj_get k (fields1 ++ [(k, v)]) = Some v.
Proof.
  unfold obj_get. induction fields1 as [|f l IH]; cbn; [by rewrite bytes_eqb_refl|]. intros Hn.
  rewrite elem_of_cons in Hn. destruct (bytes_eqb f.1 k) eqn:E; [|by apply IH; tauto].
  apply bytes_eqb_eq in E. exfalso. apply Hn. by left.
Qed.

(** Removing the key that was added leaves the fields, in the order of keys. *)
Lemma remove_sorted k v fields :
  NoDup (map fst fields) -> k ∉ map fst fields ->
  json_remove k (JObj (sort_fields (fields ++ [(k, v)]))) = JObj (sort_fields fields).
Proof.
  intros Hd Hn. cbn. f_equal. apply (sorted_unique fst).
  - apply filter_key_sorted, sort_by_key_sorted. rewrite map_app. apply NoDup_app. split_and!; [done| |apply NoDup_singleton].
    intros x Hx ->%list_elem_of_singleton. by apply Hn.
  - by apply sort_by_key_sorted.
  - rewrite !sort_fields_perm, List.filter_app. cbn. rewrite bytes_eqb_refl. cbn. rewrite app_nil_r.
    clear Hd. induction fields as [|f l IH]; [done|]. cbn in *. rewrite elem_of_cons in Hn.
    destruct (bytes_eqb f.1 k) eqn:E; cbn; [|by rewrite IH by tauto].
    apply bytes_eqb_eq in E. exfalso. apply Hn. by left.
Qed.

(** ** An instance *)

Definition escape (s : list byte) : list byte :=
  List.flat_map (fun b => if plain_byte b then [b]
                          else [x5c; x75; x30; x30; hex_digit (byte_val b / 16); hex_digit (byte_val b mod 16)]) s.

Definition test_string (s : list byte) : list byte := [QUOTE] ++ escape s ++ [QUOTE].

Definition test_int (n : Z) : list byte := if n <? 0 then x2d :: dec (- n) else dec n.

Fixpoint test_to_string (j : Json) : list byte :=
  match j with
  | JNull => string_bytes "null"
  | JBool true => string_bytes "true"
  | JBool false => string_bytes "false"
  | JNum n => test_int n
  | JStr s => test_string s
  | JArr l => [x5b] ++ join [x2c] (map test_to_string l) ++ [x5d]
  | JObj fields => [x7b] ++ join [x2c] (map (fun f => test_string f.1 ++ [x3a] ++ test_to_string f.2) fields) ++ [x7d]
  end.

Definition hex_val (b : byte) : option Z :=
  let v := byte_val b in
  if (48 <=? v) && (v <=? 57) then Some (v - 48)
  else if (97 <=? v) && (v <=? 102) then Some (v - 87)
  else if (65 <=? v) && (v <=? 70) then Some (v - 55)
  else None.

(** The rest of a string, after its opening quote, and what follows it. *)
Fixpoint scan_string (l : list byte) : option (list byte * list byte) :=
  match l with
  | [] => None
  | b :: l =>
      if Byte.eqb b QUOTE then Some ([], l)
      else if Byte.eqb b x5c then
        match l with
        | _ :: _ :: _ :: h :: k :: l =>
            match hex_val h, hex_val k, scan_string l with
            | Some h, Some k, Some (s, r) => Some (byte_of (16 * h + k) :: s, r)
            | _, _, _ => None
            end
        | _ => None
        end
      else match scan_string l with Some (s, r) => Some (b :: s, r) | None => None end
  end.

Fixpoint scan_digits (l : list byte) : list byte * list byte :=
  match l with
  | b :: l' => match digit_val b with Some _ => let '(d, r) := scan_digits l' in (b :: d, r) | None => ([], l) end
  | [] => ([], [])
  end.

Definition scan_uint (l : list byte) : option (Z * list byte) :=
  let '(d, r) := scan_digits l in
  match parse_uint (2 ^ 64) d with Some n => Some (n, r) | None => None end.

Fixpoint scan_strings (fuel : nat) (l : list byte) : option (list Json * list byte) :=
  match fuel, l with
  | S fuel, b :: l =>
      if Byte.eqb b QUOTE then
        match scan_string l with
        | Some (s, b :: r) =>
            if Byte.eqb b x2c then
              match scan_strings fuel r with Some (ss, r) => Some (JStr s :: ss, r) | None => None end
            else if Byte.eqb b x5d then Some ([JStr s], r) else None
        | _ => None
        end
      else None
  | _, _ => None
  end.

Definition scan_value (l : list byte) : option (Json * list byte) :=
  match l with
  | [] => None
  | b :: r =>
      if Byte.eqb b QUOTE then match scan_string r with Some (s, r) => Some (JStr s, r) | None => None end
      else if Byte.eqb b x5b then
        match r with
        | c :: r' => if Byte.eqb c x5d then Some (JArr [], r')
                     else match scan_strings (length r) r with Some (ss, r) => Some (JArr ss, r) | None => None end
        | [] => None
        end
      else if Byte.eqb b x2d then match scan_uint r with Some (n, r) => Some (JNum (- n), r) | None => None end
      else match strip_prefix (string_bytes "true") l with
           | Some r => Some (JBool true, r)
           | None => match strip_prefix (string_bytes "false") l with
                     | Some r => Some (JBool false, r)
                     | None => match scan_uint l with Some (n, r) => Some (JNum n, r) | None => None end
                     end
           end
  end.

Fixpoint scan_fields (fuel : nat) (l : list byte) : option (list (list byte * Json)) :=
  match fuel, l with
  | S fuel, b :: l =>
      if Byte.eqb b QUOTE then
        match scan_string l with
        | Some (k, c :: l) =>
            match scan_value l with
            | Some (v, b :: r) =>
                if Byte.eqb b x2c then match scan_fields fuel r with Some fs => Some ((k, v) :: fs) | None => None end
                else if Byte.eqb b x7d && match r with [] => true | _ => false end then Some [(k, v)] else None
            | _ => None
            end
        | _ => None
        end
      else None
  | _, _ => None
  end.

Definition test_from_str (l : list byte) : option Json :=
  match l with
  | b :: r => if Byte.eqb b x7b then
                if bytes_eqb r [x7d] then Some (JObj [])
                else (fun fs => JObj (sort_fields fs)) <$> scan_fields (length r) r
              else None
  | [] => None
  end.

#[export] Instance test_json : SerdeJson := {| to_string := test_to_string; from_str := test_from_str |}.

Lemma hex_val_digit d : 0 <= d < 16 -> hex_val (hex_digit d) = Some d.
Proof.
  intros Hd. unfold hex_val, hex_digit. destruct (Z.ltb_spec d 10).
  - rewrite byte_of_small by lia. rewrite (proj2 (Z.leb_le 48 _)), (proj2 (Z.leb_le _ 57)) by lia. cbn. f_equal. lia.
  - rewrite byte_of_small by lia. rewrite (proj2 (Z.leb_gt _ 57)) by lia. rewrite andb_false_r.
    rewrite (proj2 (Z.leb_le 97 _)), (proj2 (Z.leb_le _ 102)) by lia. cbn. f_equal. lia.
Qed.

Lemma scan_string_escape s r : scan_string (escape s ++ QUOTE :: r) = Some (s, r).
Proof.
  induction s as [|b s IH]; [reflexivity|]. unfold escape. cbn [List.flat_map]. fold (escape s).
  destruct (plain_byte b) eqn:Hp.
  - unfold plain_byte in Hp. apply andb_true_iff in Hp as [[_ Hq%negb_true_iff]%andb_true_iff Hb%negb_true_iff].
    cbn [app scan_string]. by rewrite Hq, Hb, IH.
  - cbn [app scan_string]. change (Byte.eqb x5c QUOTE) with false. change (Byte.eqb x5c x5c) with true. cbn iota.
    pose proof (byte_val_bound b) as Hv.
    rewrite !hex_val_digit, IH by (Z.to_euclidean_division_equations; lia).
    rewrite <- (Z.div_mod (byte_val b) 16) by lia. by rewrite byte_of_val.
Qed.

Lemma scan_digits_app l r :
  Forall (fun b => is_Some (digit_val b)) l -> (forall b r', r = b :: r' -> digit_val b = None) ->
  scan_digits (l ++ r) = (l, r).
Proof.
  intros Hl Hr. induction Hl as [|b l [d Hb] _ IH]; cbn [app scan_digits].
  - destruct r as [|b r]; [done|]. cbn. by rewrite (Hr _ _ eq_refl).
  - by rewrite Hb, IH.
Qed.

Lemma dec_digits n : 0 <= n -> Forall (fun b => is_Some (digit_val b)) (dec n).
Proof.
  intros Hn. unfold dec. apply List.Forall_map. eapply List.Forall_impl; [|apply digits_fuel_range; lia].
  intros d Hd. cbn in Hd. eexists. by apply digit_val_hex_digit.
Qed.

Lemma scan_uint_dec n r : 0 <= n <= 2 ^ 64 -> (forall b r', r = b :: r' -> digit_val b = None) ->
  scan_uint (dec n ++ r) = Some (n, r).
Proof.
  intros Hn Hr. unfold scan_uint. rewrite scan_digits_app by (done || apply dec_digits; lia).
  by rewrite parse_uint_dec by lia.
Qed.

(** The byte after a value. *)
Definition ends_value (r : list byte) : Prop := exists b r', r = b :: r' /\ (b = x2c \/ b = x5d \/ b = x7d).

Lemma ends_value_digit r : ends_value r -> forall b r', r = b :: r' -> digit_val b = None.
Proof. intros (b & r' & -> & Hb) c r'' [= <- <-]. by destruct Hb as [-> | [-> | ->]]. Qed.

Lemma join_cons (sep x : list byte) l : l <> [] -> join sep (x :: l) = x ++ sep ++ join sep l.
Proof. by destruct l. Qed.

Lemma scan_strings_ok l : forall fuel r, l <> [] -> (length l < fuel)%nat ->
  scan_strings fuel (join [x2c] (map test_string l) ++ x5d :: r) = Some (map JStr l, r).
Proof.
  induction l as [|s l IH]; [done|]. intros fuel r _ Hf. destruct fuel as [|fuel]; [lia|]. cbn [map].
  destruct l as [|t l].
  - cbn [map join]. unfold test_string at 1. rewrite <- !app_assoc. cbn [app scan_strings].
    rewrite byte_eqb_refl, scan_string_escape. done.
  - rewrite join_cons by done. unfold test_string at 1. rewrite <- !app_assoc. cbn [app scan_strings].
    rewrite byte_eqb_refl, scan_string_escape, byte_eqb_refl. cbn [length] in Hf. by rewrite IH by (done || cbn; lia).
Qed.

Lemma length_join_strings l : (2 * length l <= length (join [x2c] (map test_string l)))%nat.
Proof.
  induction l as [|s l IH]; [cbn; lia|]. cbn [map]. destruct l as [|t l].
  - cbn. rewrite length_app. cbn. lia.
  - rewrite join_cons by done. rewrite length_app, length_app. unfold test_string at 1. rewrite !length_app.
    cbn [length map] in *. lia.
Qed.

Lemma scan_value_ok v r : flat_value v -> ends_value r -> scan_value (test_to_string v ++ r) = Some (v, r).
Proof.
  intros Hv Hr. pose proof (ends_value_digit r Hr) as Hd. destruct v as [|b|n|s|l|fs]; cbn [flat_value] in Hv; try done.
  - by destruct b.
  - assert (Hnum : forall n, 0 <= n <= 2 ^ 64 -> exists c k, dec n ++ r = c :: k /\ is_Some (digit_val c)).
    { intros m Hm. pose proof (dec_digits m ltac:(lia)) as Hds. pose proof (digits_nonempty 10 64 m ltac:(lia)) as Hne.
      unfold dec in *. fold (digits 10 m) in Hne. destruct (digits 10 m) as [|d ds]; [done|].
      cbn [map] in Hds. apply List.Forall_cons_iff in Hds as [Hds _]. by eexists _, _. }
    cbn [test_to_string]. unfold test_int. destruct (Z.ltb_spec n 0).
    + cbn [app scan_value]. change (Byte.eqb x2d QUOTE) with false. change (Byte.eqb x2d x5b) with false.
      change (Byte.eqb x2d x2d) with true. cbn iota. rewrite scan_uint_dec by (done || lia). by rewrite Z.opp_involutive.
    + destruct (Hnum n ltac:(lia)) as (c & k & E & [d Hc]). rewrite E. cbn [scan_value].
      assert (Hne : forall b, digit_val b = None -> Byte.eqb c b = false) by (intros b Hb; apply byte_eqb_neq; congruence).
      rewrite !Hne by reflexivity. cbn [string_bytes strip_prefix String.list_byte_of_string].
      assert (Hne' : forall b, digit_val b = None -> Byte.eqb b c = false) by (intros b Hb; apply byte_eqb_neq; congruence).
      change (string_bytes "true") with [x74; x72; x75; x65]. change (string_bytes "false") with [x66; x61; x6c; x73; x65].
      cbn [strip_prefix]. rewrite !Hne' by reflexivity. rewrite <- E, scan_uint_dec by (done || lia). done.
  - cbn [test_to_string]. unfold test_string. rewrite <- !app_assoc. cbn [app scan_value].
    by rewrite byte_eqb_refl, scan_string_escape.
  - assert (Hl : exists ss, l = map JStr ss).
    { induction Hv as [|x l (s & -> & _) _ [ss ->]]; [by exists []|by exists (s :: ss)]. }
    destruct Hl as [ss ->]. cbn [test_to_string]. rewrite map_map. change (fun x => test_to_string (JStr x)) with test_string.
    cbn [app scan_value]. change (Byte.eqb x5b QUOTE) with false. change (Byte.eqb x5b x5b) with true. cbn iota.
    destruct ss as [|s ss]; [done|]. pose proof (length_join_strings (s :: ss)) as Hlen.
    rewrite <- app_assoc. cbn [app]. set (t := join [x2c] (map test_string (s :: ss))) in *.
    assert (Hscan : scan_strings (length (t ++ x5d :: r)) (t ++ x5d :: r) = Some (map JStr (s :: ss), r)).
    { apply scan_strings_ok; [done|]. rewrite length_app. cbn [length] in *. lia. }
    assert (Ht : exists t', t = QUOTE :: t') by (unfold t; cbn [map]; destruct ss; cbn; by eexists).
    clearbody t. destruct Ht as [t' ->]. cbn [app] in *. change (Byte.eqb QUOTE x5d) with false. cbn iota.
    by rewrite Hscan.
Qed.

Lemma scan_fields_ok fields : forall fuel, fields <> [] -> (length fields < fuel)%nat ->
  Forall (fun f => flat_value f.2) fields ->
  scan_fields fuel (join [x2c] (map (fun f => test_string f.1 ++ [x3a] ++ test_to_string f.2) fields) ++ [x7d])
  = Some fields.
Proof.
  induction fields as [|[k v] fields IH]; [done|]. intros fuel _ Hf Hv. destruct fuel as [|fuel]; [lia|].
  apply List.Forall_cons_iff in Hv as [Hv Hvs]. cbn [map snd fst] in *. destruct fields as [|g fields].
  - cbn [map join]. unfold test_string at 1. rewrite <- !app_assoc. cbn [app scan_fields].
    rewrite byte_eqb_refl, scan_string_escape. rewrite scan_value_ok; [done|done|]. eexists _, _. split; [done|]. tauto.
  - rewrite join_cons by done. unfold test_string at 1. rewrite <- !app_assoc. cbn [app scan_fields].
    rewrite byte_eqb_refl, scan_string_escape. rewrite scan_value_ok; [|done|].
    + cbn [length] in Hf. rewrite byte_eqb_refl. by rewrite IH by (done || cbn; lia).
    + eexists _, _. split; [done|]. tauto.
Qed.

Lemma escape_plain s : forallb plain_byte s = true -> escape s = s.
Proof.
  induction s as [|b s IH]; cbn; [done|]. intros [Hb Hs]%andb_true_iff. rewrite Hb. cbn. f_equal. by apply IH.
Qed.

Lemma escape_one_line s : Forall (fun b => b <> x0a) (escape s).
Proof.
  induction s as [|b s IH]; [constructor|]. unfold escape. cbn [List.flat_map]. apply List.Forall_app. split; [|done].
  destruct (plain_byte b) eqn:E; [repeat constructor; by intros ->|]. pose proof (byte_val_bound b).
  assert (Hh : forall d, hex_digit d <> x0a \/ ~ 0 <= d < 16).
  { intros d. destruct (decide (0 <= d < 16)); [left|by right]. intros Hd. apply (f_equal byte_val) in Hd. revert Hd.
    unfold hex_digit. change (byte_val x0a) with 10. destruct (Z.ltb_spec d 10); rewrite byte_of_small; lia. }
  repeat constructor; try done.
  - destruct (Hh (byte_val b / 16)) as [|Hn]; [done|]. exfalso. apply Hn. Z.to_euclidean_division_equations. lia.
  - destruct (Hh (byte_val b mod 16)) as [|Hn]; [done|]. exfalso. apply Hn. Z.to_euclidean_division_equations. lia.
Qed.

Lemma join_Forall (P : byte -> Prop) sep l : Forall P sep -> Forall (Forall P) l -> Forall P (join sep l).
Proof.
  intros Hs. induction 1 as [|x l Hx Hl IH]; [constructor|]. destruct l as [|y l]; [done|].
  rewrite join_cons by done. rewrite !List.Forall_app. done.
Qed.

Lemma test_one_line : forall j, Forall (fun b => b <> x0a) (test_to_string j).
Proof.
  assert (Hstr : forall s, Forall (fun b => b <> x0a) (test_string s)).
  { intros s. unfold test_string. rewrite !List.Forall_app. split_and!; [by repeat constructor|apply escape_one_line|by repeat constructor]. }
  assert (Hdec : forall n, 0 <= n -> Forall (fun b => b <> x0a) (dec n)).
  { intros n Hn. eapply List.Forall_impl; [|by apply dec_digits]. intros b Hb ->. vm_compute in Hb. by destruct Hb. }
  fix IH 1. intros [|b|n|s|l|fs]; cbn [test_to_string].
  - by repeat constructor.
  - destruct b; by repeat constructor.
  - unfold test_int. destruct (Z.ltb_spec n 0); [constructor; [done|]|]; apply Hdec; lia.
  - apply Hstr.
  - rewrite !List.Forall_app. split_and!; [by repeat constructor| |by repeat constructor].
    apply join_Forall; [by repeat constructor|]. induction l as [|x l IHl]; constructor; [apply IH|apply IHl].
  - rewrite !List.Forall_app. split_and!; [by repeat constructor| |by repeat constructor].
    apply join_Forall; [by repeat constructor|]. induction fs as [|[k v] l IHl]; constructor; [|apply IHl].
    cbn [fst snd]. rewrite !List.Forall_app. split_and!; [apply Hstr|by repeat constructor|apply IH].
Qed.

Lemma length_join_fields fields :
  (2 * length fields <= length (join [x2c] (map (fun f => test_string f.1 ++ [x3a] ++ test_to_string f.2) fields)))%nat.
Proof.
  induction fields as [|f l IH]; [cbn; lia|]. cbn [map]. destruct l as [|g l].
  - cbn [map join length]. unfold test_string at 1. rewrite !length_app. cbn. lia.
  - rewrite join_cons by done. rewrite length_app, length_app. unfold test_string at 1. rewrite !length_app.
    cbn [length map] in *. lia.
Qed.

#[export] Instance test_json_laws : SerdeJsonLaws test_json.
Proof.
  constructor.
  - intros s Hs. cbn [to_string test_json test_to_string]. unfold test_string. by rewrite escape_plain.
  - reflexivity.
  - apply test_one_line.
  - intros fields [_ Hf]. cbn [to_string from_str test_json test_to_string test_from_str app].
    change (Byte.eqb x7b x7b) with true. cbn iota. destruct fields as [|f fields]; [done|].
    pose proof (length_join_fields (f :: fields)) as Hlen.
    set (t := join _ _) in *. replace (bytes_eqb (t ++ [x7d]) [x7d]) with false.
    + unfold t at 2. rewrite scan_fields_ok; [done|done| |].
      * rewrite length_app. cbn [length] in *. lia.
      * eapply List.Forall_impl; [|exact Hf]. by intros g [_ ?].
    + symmetry. apply not_true_is_false. rewrite bytes_eqb_eq. intros E. apply (f_equal length) in E.
      rewrite length_app in E. cbn [length] in *. lia.
Defined.
