(* ===== verification/AuditLog.v ===== *)
(** * The audit log

    src/src/bin/seam/audit.rs: one line of JSON per command, each with the
    BLAKE3 hash of the line before it and its own text; [seam audit verify]
    recomputes the hashes and [seam audit show] selects lines.  The log file is
    a byte string, [None] when it does not exist.  What is printed is not
    represented. *)

From Stdlib Require Import ZArith Lia Bool List String.
From Stdlib Require Import Strings.Byte.
From stdpp Require Import base list numbers option sorting.
From S2P Require Import Prelude TestCrypto Identity Net Text Calendar Json.

Open Scope Z_scope.

(** ** Hexadecimal *)

(** [hex::decode]: pairs of digits of either case. *)
Fixpoint hex_decode (l : list byte) : option (list byte) :=
  match l with
  | [] => Some []
  | h :: k :: l =>
      match hex_val h, hex_val k, hex_decode l with
      | Some h, Some k, Some r => Some (byte_of (16 * h + k) :: r)
      | _, _, _ => None
      end
  | _ => None
  end.

(** [<[u8; 32]>::try_from]. *)
Definition to_hash (l : list byte) : option (list byte) := if (length l =? 32)%nat then Some l else None.

Definition ZERO_HASH : list byte := repeat x00 32.

(** ** Entries *)

Record AuditEntry : Type := mkAuditEntry {
  ae_ts : list byte;
  ae_subcommand : list byte;
  ae_remote : list byte;
  ae_args : list (list byte);
  ae_exit_code : option Z;                  (* i32 *)
  ae_bytes_tx : option Z;                   (* u64 *)
  ae_fips_mode : bool;
  ae_pid : Z                                (* u32 *)
}.

Definition HASH_KEY : list byte := string_bytes "hash".

Definition opt_field (k : string) (o : option Z) : list (list byte * Json) :=
  match o with Some n => [(string_bytes k, JNum n)] | None => [] end.

(** [#[derive(Serialize)]]: the fields in the order of the declaration, the
    optional ones left out when they are [None]. *)
Definition entry_fields (e : AuditEntry) : list (list byte * Json) :=
  [(string_bytes "ts", JStr (ae_ts e)); (string_bytes "subcommand", JStr (ae_subcommand e));
   (string_bytes "remote", JStr (ae_remote e)); (string_bytes "args", JArr (map JStr (ae_args e)))]
  ++ opt_field "exit_code" (ae_exit_code e) ++ opt_field "bytes_tx" (ae_bytes_tx e)
  ++ [(string_bytes "fips_mode", JBool (ae_fips_mode e)); (string_bytes "pid", JNum (ae_pid e))].

(** [read_last_line]: of the last 2048 bytes. *)
Definition read_last_line (file : list byte) : option (list byte) :=
  match file with
  | [] => None
  | _ =>
      match from_utf8 (drop (length file - 2048) file) with
      | None => None
      | Some tail => list.last (split x0a (trim_end_matches x0a tail))
      end
  end.

Section Code.
Context {H : PlainHash} {J : SerdeJson}.

Definition entry_json (e : AuditEntry) : list byte := to_string (JObj (entry_fields e)).

(** ** Appending *)

(** The hash field of the last line, if all is well. *)
Definition prev_hash (file : option (list byte)) : list byte :=
  match file with
  | None => ZERO_HASH
  | Some f =>
      default ZERO_HASH
        (last ← read_last_line f;
         rec ← from_str last;
         h ← json_get HASH_KEY rec;
         h ← as_str h;
         bytes ← hex_decode h;
         to_hash bytes)
  end.

(** The hash goes in before the closing brace. *)
Definition inject_hash (json hash_hex : list byte) : list byte :=
  if ends_with [x7d] json
  then take (length json - 1) json ++ [x2c; QUOTE] ++ HASH_KEY ++ [QUOTE; x3a; QUOTE] ++ hash_hex ++ [QUOTE; x7d]
  else json.

Definition append_entry (file : option (list byte)) (e : AuditEntry) : list byte :=
  let hash := blake3_hash (prev_hash file ++ entry_json e) in
  default [] file ++ inject_hash (entry_json e) (hex_encode hash) ++ [x0a].

(** [log]: a failed write is only reported. *)
Definition log (written : bool) (file : option (list byte)) (e : AuditEntry) : option (list byte) :=
  if written then Some (append_entry file e) else file.

(** ** Verifying *)

Record Verify : Type := mkVerify {
  vf_prev : list byte;
  vf_total : nat;
  vf_ok : nat;
  vf_skipped : nat;
  vf_failed : nat
}.

Definition verify_line (v : Verify) (raw : list byte) : Verify :=
  let raw := trim raw in
  match raw with
  | [] => v
  | _ =>
      let total := S (vf_total v) in
      match from_str raw with
      | None => mkVerify (vf_prev v) total (vf_ok v) (vf_skipped v) (S (vf_failed v))
      | Some val =>
          match json_get HASH_KEY val ≫= as_str with
          | None => mkVerify ZERO_HASH total (vf_ok v) (S (vf_skipped v)) (vf_failed v)
          | Some stored_hash_hex =>
              let entry_json := to_string (json_remove HASH_KEY val) in
              let expected := blake3_hash (vf_prev v ++ entry_json) in
              if bytes_eqb (hex_encode expected) stored_hash_hex
              then mkVerify expected total (S (vf_ok v)) (vf_skipped v) (vf_failed v)
              else mkVerify (default (vf_prev v) (hex_decode stored_hash_hex ≫= to_hash))
                            total (vf_ok v) (vf_skipped v) (S (vf_failed v))
          end
      end
  end.

Definition verify_start : Verify := mkVerify ZERO_HASH 0 0 0 0.

(** The counts that are printed, and whether the command succeeds. *)
Definition run_verify (file : option (list byte)) : option Verify * bool :=
  match file with
  | None => (None, true)
  | Some f =>
      match from_utf8 f with
      | None => (None, false)
      | Some text =>
          let v := fold_left verify_line (lines text) verify_start in
          (Some v, (vf_failed v =? 0)%nat)
      end
  end.

(** ** Showing *)

Record AuditRecord : Type := mkAuditRecord {
  ar_ts : list byte;
  ar_subcommand : list byte;
  ar_remote : list byte;
  ar_exit_code : option Z;
  ar_bytes_tx : option Z;
  ar_fips_mode : bool;
  ar_pid : Z;
  ar_hash : option (list byte)
}.

Definition as_num (lo hi : Z) (j : Json) : option Z :=
  match j with JNum n => if (lo <=? n) && (n <=? hi) then Some n else None | _ => None end.

Definition as_bool (j : Json) : option bool := match j with JBool b => Some b | _ => None end.

(** A field with [#[serde(default)]]: absent is the default, of a wrong type an
    error. *)
Definition or_default {A} (d : A) (get : Json -> option A) (o : option Json) : option A :=
  match o with None => Some d | Some j => get j end.

(** An [Option] also reads [null]. *)
Definition or_null {A} (get : Json -> option A) (j : Json) : option (option A) :=
  match j with JNull => Some None | _ => Some <$> get j end.

Definition record_of_json (j : Json) : option AuditRecord :=
  let field k := json_get (string_bytes k) j in
  ts ← field "ts"%string ≫= as_str;
  subcommand ← field "subcommand"%string ≫= as_str;
  remote ← field "remote"%string ≫= as_str;
  exit_code ← or_default None (or_null (as_num (- 2 ^ 31) (2 ^ 31 - 1))) (field "exit_code"%string);
  bytes_tx ← or_default None (or_null (as_num 0 U64_MAX)) (field "bytes_tx"%string);
  fips_mode ← or_default false as_bool (field "fips_mode"%string);
  pid ← or_default 0 (as_num 0 U32_MAX) (field "pid"%string);
  hash ← or_default None (or_null as_str) (field "hash"%string);
  Some (mkAuditRecord ts subcommand remote exit_code bytes_tx fips_mode pid hash).

(** Whether a record passes the filters. *)
Definition selected (since host : option (list byte)) (rec : AuditRecord) : bool :=
  match since with
  | Some prefix => negb (negb (starts_with prefix (ar_ts rec)) && bytes_ltb (ar_ts rec) prefix)
  | None => true
  end
  && match host with Some hf => contains hf (ar_remote rec) | None => true end.

Definition matching (since host : option (list byte)) (text : list byte) : list (list byte * AuditRecord) :=
  omap (fun line =>
          let line := trim line in
          match line with
          | [] => None
          | _ => rec ← from_str line ≫= record_of_json; if selected since host rec then Some (line, rec) else None
          end) (lines text).

(** The records that are shown: the last [limit] that match, all for 0. *)
Definition show (limit : nat) (since host : option (list byte)) (text : list byte) : list (list byte * AuditRecord) :=
  let records := matching since host text in
  let start := if (0 <? limit)%nat && (limit <? length records)%nat then (length records - limit)%nat else 0%nat in
  drop start records.

(** [audit_health]: existence, size and last line. *)
Definition audit_health (file : option (list byte)) : bool * Z * option (list byte) :=
  match file with
  | None => (false, 0, None)
  | Some f => (true, Z.of_nat (length f), match f with [] => None | _ => read_last_line f end)
  end.

End Code.

(** * Properties *)

Lemma hex_decode_encode l : hex_decode (hex_encode l) = Some l.
Proof.
  induction l as [|b l IH]; [done|]. cbn [hex_encode List.flat_map app hex_decode]. fold (hex_encode l).
  pose proof (byte_val_bound b). rewrite !hex_val_digit, IH by (Z.to_euclidean_division_equations; lia).
  rewrite <- (Z.div_mod (byte_val b) 16) by lia. by rewrite byte_of_val.
Qed.

Lemma hex_encode_plain l : forallb plain_byte (hex_encode l) = true /\ is_ascii (hex_encode l) = true.
Proof.
  assert (Hd : forall d, 0 <= d < 16 -> plain_byte (hex_digit d) = true /\ byte_val (hex_digit d) < 128).
  { intros d Hd. assert (Hin : In d (map Z.of_nat (seq 0 16))).
    { apply in_map_iff. exists (Z.to_nat d). rewrite in_seq. lia. }
    cbn in Hin. repeat destruct Hin as [<-|Hin]; try done; by vm_compute. }
  induction l as [|b l [IH1 IH2]]; [done|]. cbn [hex_encode List.flat_map app]. fold (hex_encode l).
  pose proof (byte_val_bound b).
  destruct (Hd (byte_val b / 16)) as [H1 H2]; [Z.to_euclidean_division_equations; lia|].
  destruct (Hd (byte_val b mod 16)) as [H3 H4]; [Z.to_euclidean_division_equations; lia|].
  cbn [forallb is_ascii]. apply Z.ltb_lt in H2, H4. rewrite H1, H2, H3, H4. done.
Qed.

(** ** The chain *)

Section Chain.
Context {H : PlainHash} {HL : PlainHashLaws H} {J : SerdeJson} {JL : SerdeJsonLaws J}.

(** The strings are Rust strings and the numbers of their types. *)
Definition entry_ok (e : AuditEntry) : Prop :=
  utf8_valid (ae_ts e) = true /\ utf8_valid (ae_subcommand e) = true /\ utf8_valid (ae_remote e) = true
  /\ Forall (fun a => utf8_valid a = true) (ae_args e)
  /\ (forall n, ae_exit_code e = Some n -> - 2 ^ 31 <= n < 2 ^ 31) /\ (forall n, ae_bytes_tx e = Some n -> is_u 64 n)
  /\ is_u 32 (ae_pid e).

(** The line fits the window in which the last line is looked for, and is
    plain ASCII, so that the window never starts inside a character. *)
Definition line_ok (e : AuditEntry) : Prop :=
  is_ascii (entry_json e) = true /\ (length (entry_json e) <= 1973)%nat.

(** The lines of a log and the hash of each. *)
Fixpoint chain (prev : list byte) (es : list AuditEntry) : list (list byte) :=
  match es with
  | [] => []
  | e :: es =>
      let hash := blake3_hash (prev ++ entry_json e) in
      to_string (JObj (entry_fields e ++ [(HASH_KEY, JStr (hex_encode hash))])) :: chain hash es
  end.

Definition last_hash (prev : list byte) (es : list AuditEntry) : list byte :=
  fold_left (fun prev e => blake3_hash (prev ++ entry_json e)) es prev.

Definition log_text (ls : list (list byte)) : list byte := concat (map (fun l => l ++ [x0a]) ls).

Lemma chain_snoc es : forall prev e,
  chain prev (es ++ [e]) = chain prev es ++ chain (last_hash prev es) [e].
Proof. induction es as [|e' es IH]; intros prev e; [done|]. cbn [app chain]. by rewrite IH. Qed.

Lemma join_snoc sep l x : l <> [] -> join sep (l ++ [x]) = join sep l ++ sep ++ x.
Proof.
  induction l as [|y l IH]; [done|]. intros _. destruct l as [|z l]; [done|].
  change ((y :: z :: l) ++ [x]) with (y :: (z :: l) ++ [x]). rewrite !join_cons by (by destruct l).
  rewrite IH by done. by rewrite <- !app_assoc.
Qed.

(** The injected hash is one more field. *)
Lemma inject_hash_field fields hex : fields <> [] -> forallb plain_byte hex = true ->
  inject_hash (to_string (JObj fields)) hex = to_string (JObj (fields ++ [(HASH_KEY, JStr hex)])).
Proof.
  intros Hne Hp. rewrite !json_object, map_app. cbn [map]. rewrite join_snoc by (by destruct fields).
  set (t := join _ _). unfold inject_hash, ends_with. rewrite !rev_app_distr. cbn [rev app].
  change (rev [x7d]) with [x7d]. unfold starts_with. cbn [strip_prefix]. rewrite byte_eqb_refl. cbn iota.
  change (x7b :: t ++ [x7d]) with ((x7b :: t) ++ [x7d]). rewrite take_app_length' by (rewrite length_app; cbn; lia).
  unfold field_text. cbn [fst snd]. rewrite !json_plain_string by done. rewrite <- !app_assoc. cbn. by rewrite <- ?app_assoc.
Qed.

Lemma entry_fields_nonempty e : entry_fields e <> [].
Proof. done. Qed.

Lemma entry_keys e : NoDup (map fst (entry_fields e)) /\ HASH_KEY ∉ map fst (entry_fields e).
Proof.
  unfold entry_fields. destruct (ae_exit_code e), (ae_bytes_tx e); cbn [opt_field app map fst];
    (split; [apply (bool_decide_unpack _); vm_compute; exact I|apply (bool_decide_unpack _); vm_compute; exact I]).
Qed.

Lemma entry_flat e hash : entry_ok e -> flat_object (entry_fields e ++ [(HASH_KEY, JStr (hex_encode hash))]).
Proof.
  intros (H1 & H2 & H3 & H4 & H5 & H6 & H7). destruct (entry_keys e) as [Hd Hn]. split.
  - rewrite map_app. apply NoDup_app. split_and!; [done| |apply NoDup_singleton].
    intros x Hx ->%list_elem_of_singleton. by apply Hn.
  - apply List.Forall_app. split; [|repeat constructor; cbn; apply ascii_utf8, hex_encode_plain].
    unfold entry_fields. rewrite !List.Forall_app. split_and!.
    + repeat constructor; cbn; try done. induction H4 as [|a l Ha _ IH]; constructor; [by exists a|done].
    + destruct (ae_exit_code e) as [n|]; repeat constructor; cbn; specialize (H5 n eq_refl); lia.
    + destruct (ae_bytes_tx e) as [n|]; repeat constructor; cbn; specialize (H6 n eq_refl); unfold is_u in H6; lia.
    + unfold is_u in H7. repeat constructor; cbn; lia.
Qed.

(** A line of the log. *)
Definition line_text (e : AuditEntry) (hash : list byte) : list byte :=
  to_string (JObj (entry_fields e ++ [(HASH_KEY, JStr (hex_encode hash))])).

Lemma line_inject e hash : inject_hash (entry_json e) (hex_encode hash) = line_text e hash.
Proof. apply inject_hash_field; [done|apply hex_encode_plain]. Qed.

Lemma object_shape fields : exists m, to_string (JObj fields) = x7b :: m ++ [x7d].
Proof. rewrite json_object. by eexists. Qed.

Lemma line_shape e hash : length hash = 32%nat ->
  (exists m, line_text e hash = x7b :: m ++ [x7d]) /\ Forall (fun b => b <> x0a) (line_text e hash)
  /\ length (line_text e hash) = (length (entry_json e) + 74)%nat
  /\ (is_ascii (entry_json e) = true -> is_ascii (line_text e hash) = true).
Proof.
  intros Hlen. split_and!; [apply object_shape|apply json_one_line|..].
  - rewrite <- line_inject. unfold inject_hash, entry_json. destruct (object_shape (entry_fields e)) as [m ->].
    replace (ends_with [x7d] (x7b :: m ++ [x7d])) with true by (unfold ends_with; cbn; by rewrite rev_app_distr).
    rewrite !length_app, length_take, length_hex_encode, Hlen. cbn. rewrite length_app. cbn. lia.
  - rewrite <- line_inject. unfold inject_hash. intros Ha. destruct (ends_with _ _); [|done].
    rewrite !is_ascii_app. rewrite (proj2 (hex_encode_plain hash)). cbn. rewrite andb_true_r.
    rewrite <- (take_drop (length (entry_json e) - 1) (entry_json e)), is_ascii_app in Ha.
    by apply andb_true_iff in Ha as [-> _].
Qed.

Lemma log_text_snoc ls l : log_text (ls ++ [l]) = log_text ls ++ l ++ [x0a].
Proof. unfold log_text. rewrite map_app, concat_app. cbn. by rewrite app_nil_r. Qed.

(** The last line is found when it fits the window. *)
Lemma read_last_line_log ls m :
  let l := x7b :: m ++ [x7d] in
  is_ascii (log_text (ls ++ [l])) = true -> Forall (fun b => b <> x0a) l -> (length l < 2048)%nat ->
  read_last_line (log_text (ls ++ [l])) = Some l.
Proof.
  intros l Ha Hl Hlen. rewrite log_text_snoc in *. set (pre := log_text ls) in *.
  unfold read_last_line. destruct (pre ++ l ++ [x0a]) as [|b0 f0] eqn:E.
  { by destruct pre. }
  rewrite <- E in *. clear b0 f0 E. set (k := (length (pre ++ l ++ [x0a]) - 2048)%nat).
  assert (Hk : (k <= length pre)%nat) by (unfold k; rewrite !length_app; cbn [length]; lia).
  unfold from_utf8. rewrite (ascii_utf8 _ (is_ascii_drop k _ Ha)). rewrite drop_app_le by done.
  assert (Hend : drop k pre = [] \/ exists p, drop k pre = p ++ [x0a]).
  { unfold pre. clear. destruct ls as [|x ls _] using rev_ind; [left; by destruct k|].
    rewrite log_text_snoc. destruct (decide (k <= length (log_text ls ++ x))%nat).
    - right. exists (drop k (log_text ls ++ x)). by rewrite app_assoc, drop_app_le.
    - left. apply drop_ge. rewrite app_assoc, length_app. cbn. lia. }
  assert (Htrim : trim_end_matches x0a (drop k pre ++ l ++ [x0a]) = drop k pre ++ l).
  { unfold l. change (x7b :: m ++ [x7d]) with ((x7b :: m) ++ [x7d]). rewrite !app_assoc, <- (app_assoc _ [x7d]).
    by rewrite trim_end_matches_last. }
  rewrite Htrim. destruct Hend as [->|[p ->]].
  - cbn [app]. by rewrite split_no_sep.
  - rewrite <- app_assoc. cbn [app]. rewrite last_split_app. by rewrite split_no_sep.
Qed.

Lemma parse_line_hash e hash : entry_ok e ->
  from_str (line_text e hash) = Some (JObj (sort_fields (entry_fields e ++ [(HASH_KEY, JStr (hex_encode hash))])))
  /\ json_get HASH_KEY (JObj (sort_fields (entry_fields e ++ [(HASH_KEY, JStr (hex_encode hash))])))
     = Some (JStr (hex_encode hash)).
Proof.
  intros He. pose proof (entry_flat e hash He) as Hf. split; [by apply json_parse|]. cbn [json_get].
  erewrite <- obj_get_perm; [|apply Hf|symmetry; apply sort_fields_perm]. apply obj_get_fresh, entry_keys.
Qed.

Lemma last_hash_len es prev : length prev = 32%nat -> length (last_hash prev es) = 32%nat.
Proof. revert prev. induction es as [|e es IH]; intros prev Hp; [done|]. apply IH, blake3_hash_len. Qed.

Lemma chain_ascii es : forall prev, Forall line_ok es -> is_ascii (log_text (chain prev es)) = true.
Proof.
  induction es as [|e es IH]; intros prev He; [done|]. apply List.Forall_cons_iff in He as [[Ha _] He].
  cbn [chain]. unfold log_text. cbn [map concat]. fold (log_text (chain (blake3_hash (prev ++ entry_json e)) es)).
  rewrite !is_ascii_app, IH by done. fold (line_text e (blake3_hash (prev ++ entry_json e))).
  destruct (line_shape e (blake3_hash (prev ++ entry_json e)) (blake3_hash_len _)) as (_ & _ & _ & ->); done.
Qed.

(** The hash the next entry continues from. *)
Lemma prev_hash_chain es e : entry_ok e -> Forall line_ok (es ++ [e]) ->
  prev_hash (Some (log_text (chain ZERO_HASH (es ++ [e])))) = last_hash ZERO_HASH (es ++ [e]).
Proof.
  intros He Hl. pose proof (chain_ascii _ ZERO_HASH Hl) as Ha. rewrite chain_snoc in *. cbn [chain] in *.
  set (hash := blake3_hash (last_hash ZERO_HASH es ++ entry_json e)) in *. fold (line_text e hash) in *.
  destruct (line_shape e hash (blake3_hash_len _)) as ([m Hm] & Hnl & Hlen & _).
  apply List.Forall_app in Hl as [_ Hl]. apply List.Forall_cons_iff in Hl as [[_ Hle] _].
  unfold prev_hash. rewrite Hm in Ha |- *. rewrite read_last_line_log; [|done|by rewrite <- Hm|rewrite <- Hm, Hlen; lia].
  rewrite <- Hm. cbn [mbind option_bind]. destruct (parse_line_hash e hash He) as [-> Hg]. cbn [mbind option_bind].
  rewrite Hg. cbn [mbind option_bind as_str]. rewrite hex_decode_encode. cbn [mbind option_bind]. unfold to_hash.
  unfold hash at 1. rewrite blake3_hash_len. cbn. unfold last_hash. rewrite fold_left_app. done.
Qed.

(** The log after some commands. *)
Definition log_run (es : list AuditEntry) : option (list byte) := fold_left (fun f e => log true f e) es None.

Lemma log_run_chain es : Forall entry_ok es -> Forall line_ok es -> es <> [] ->
  log_run es = Some (log_text (chain ZERO_HASH es)).
Proof.
  induction es as [|e es IH] using rev_ind; [done|]. intros He Hl _. unfold log_run. rewrite fold_left_app. cbn [fold_left].
  fold (log_run es). apply List.Forall_app in He as [He [He' _]%List.Forall_cons_iff].
  assert (Hl' := Hl). apply List.Forall_app in Hl' as [Hl' _]. rewrite chain_snoc. cbn [chain]. rewrite log_text_snoc.
  destruct es as [|e0 es0] eqn:Ees.
  { cbn. unfold append_entry. cbn [default from_option id prev_hash]. by rewrite line_inject. }
  rewrite <- Ees in *. rewrite IH by (done || by subst). unfold log, append_entry. cbn [default from_option id].
  destruct es as [|x es1 _] using rev_ind; [done|].
  rewrite (prev_hash_chain es1 x); [by rewrite line_inject| |done].
  apply List.Forall_app in He as [_ He]. by apply List.Forall_cons_iff in He as [He _].
Qed.

(** C28: Appending builds a hash chain: after any commands, each of whose lines is
    plain ASCII and fits the window the last line is read from, the log has a
    line for each, and the hash of each is that of the hash before it and the
    entry's own text.  (Where a line is not ASCII the window can start inside a
    character, and the chain then restarts from zero.) *)
Theorem append_builds_chain es : Forall entry_ok es -> Forall line_ok es -> es <> [] ->
  log_run es = Some (log_text (chain ZERO_HASH es)).
Proof. apply log_run_chain. Qed.

(** ** Verifying one's own log *)

(** What the verifier hashes for an entry: the parsed object printed again, its
    keys in the order of strings. *)
Definition sorted_json (e : AuditEntry) : list byte := to_string (JObj (sort_fields (entry_fields e))).

Lemma hex_encode_eqb a b : bytes_eqb (hex_encode a) (hex_encode b) = bytes_eqb a b.
Proof.
  destruct (bytes_eqb a b) eqn:E; [apply bytes_eqb_eq in E as ->; apply bytes_eqb_refl|].
  apply not_true_is_false. rewrite bytes_eqb_eq. intros Hh%hex_encode_inj. subst. by rewrite bytes_eqb_refl in E.
Qed.

Lemma verify_chain_line v e hash : entry_ok e -> length hash = 32%nat ->
  verify_line v (line_text e hash)
  = if bytes_eqb (blake3_hash (vf_prev v ++ sorted_json e)) hash
    then mkVerify (blake3_hash (vf_prev v ++ sorted_json e)) (S (vf_total v)) (S (vf_ok v)) (vf_skipped v) (vf_failed v)
    else mkVerify hash (S (vf_total v)) (vf_ok v) (vf_skipped v) (S (vf_failed v)).
Proof.
  intros He Hlen. destruct (line_shape e hash Hlen) as ([m Hm] & _). unfold verify_line.
  assert (Ht : trim (line_text e hash) = line_text e hash) by (rewrite Hm; by apply trim_graphic). rewrite Ht.
  destruct (parse_line_hash e hash He) as [Hp Hg]. destruct (line_text e hash) as [|b0 l0]; [done|].
  rewrite Hp, Hg. cbn [mbind option_bind as_str].
  rewrite remove_sorted by apply entry_keys. fold (sorted_json e). rewrite hex_encode_eqb.
  destruct (bytes_eqb _ hash); [done|]. rewrite hex_decode_encode. cbn [mbind option_bind]. unfold to_hash.
  by rewrite Hlen.
Qed.

(** Re-ordering the keys of each entry changes its hash. *)
Fixpoint reorder_changes (prev : list byte) (es : list AuditEntry) : Prop :=
  match es with
  | [] => True
  | e :: es =>
      blake3_hash (prev ++ sorted_json e) <> blake3_hash (prev ++ entry_json e)
      /\ reorder_changes (blake3_hash (prev ++ entry_json e)) es
  end.

Lemma verify_chain es : forall v, Forall entry_ok es -> reorder_changes (vf_prev v) es ->
  let n := length es in
  fold_left verify_line (chain (vf_prev v) es) v
  = mkVerify (last_hash (vf_prev v) es) (n + vf_total v) (vf_ok v) (vf_skipped v) (n + vf_failed v).
Proof.
  induction es as [|e es IH]; intros v He Hr n; [by destruct v|].
  apply List.Forall_cons_iff in He as [He Hes]. destruct Hr as [Hne Hr]. cbn [chain fold_left].
  fold (line_text e (blake3_hash (vf_prev v ++ entry_json e))).
  rewrite verify_chain_line by (done || apply blake3_hash_len).
  assert (Hb : bytes_eqb (blake3_hash (vf_prev v ++ sorted_json e)) (blake3_hash (vf_prev v ++ entry_json e)) = false)
    by (apply not_true_is_false; by rewrite bytes_eqb_eq).
  rewrite Hb.
  set (v' := mkVerify _ _ _ _ _). pose proof (IH v' Hes Hr) as E. cbn [vf_prev vf_total vf_ok vf_skipped vf_failed v'] in E.
  rewrite E. unfold n. cbn [length last_hash fold_left]. f_equal; lia.
Qed.

Lemma chain_lines prev es :
  lines (log_text (chain prev es)) = chain prev es.
Proof.
  unfold log_text. rewrite lines_concat.
  - revert prev. induction es as [|e es IH]; intros prev; [done|]. cbn [chain map]. f_equal; [|apply IH].
    destruct (object_shape (entry_fields e ++ [(HASH_KEY, JStr (hex_encode (blake3_hash (prev ++ entry_json e))))]))
      as [m ->]. unfold strip_cr, strip_suffix. cbn [rev]. rewrite rev_app_distr. reflexivity.
  - revert prev. induction es as [|e es IH]; intros prev; constructor; [apply json_one_line|apply IH].
Qed.

(** The keys are written in the order ts, subcommand, ...; in the order of strings
    args comes first. *)
Lemma entry_json_unsorted e : sorted_json e <> entry_json e.
Proof.
  assert (Hs : exists v rest, sort_fields (entry_fields e) = (string_bytes "args", v) :: rest /\ rest <> []).
  { unfold entry_fields. destruct (ae_exit_code e), (ae_bytes_tx e); cbn [opt_field app];
      eexists _, _; (split; [cbv [sort_fields sort_by_key foldr insert_by_key fst]; vm_compute bytes_ltb; reflexivity|done]). }
  destruct Hs as (v & rest & Hs & Hne). unfold sorted_json, entry_json. rewrite Hs, !json_object. cbn [map].
  rewrite join_cons by (by destruct rest). unfold field_text at 1. cbn [fst]. rewrite json_plain_string by done.
  unfold entry_fields. cbn [app map]. rewrite join_cons by done. unfold field_text at 2. cbn [fst].
  rewrite json_plain_string by done. cbn. discriminate.
Qed.

(** [seam audit verify] reports every log the program wrote as broken: the hash
    of an entry is taken over its fields in the order of the declaration, the
    verifier hashes them in the order of strings, and the two texts differ for
    every entry.  All lines count as failed and the command fails, as soon as
    the different texts have different hashes. *)
Theorem verify_rejects_own_log es :
  Forall entry_ok es -> Forall line_ok es -> es <> [] -> reorder_changes ZERO_HASH es ->
  (forall e, e ∈ es -> sorted_json e <> entry_json e)
  /\ exists prev, run_verify (log_run es) = (Some (mkVerify prev (length es) 0 0 (length es)), false).
Proof.
  intros He Hl Hne Hr. split; [intros e _; apply entry_json_unsorted|].
  exists (last_hash ZERO_HASH es). rewrite log_run_chain by done. unfold run_verify, from_utf8.
  rewrite (ascii_utf8 _ (chain_ascii es ZERO_HASH Hl)), chain_lines.
  pose proof (verify_chain es verify_start He Hr) as E. cbn [vf_prev vf_total vf_ok vf_skipped vf_failed verify_start] in E.
  rewrite E, !Nat.add_0_r. cbn [vf_failed].
  destruct es; [done|]. done.
Qed.

End Chain.

(** ** The filter on time *)

(** The first ten characters of a timestamp. *)
Definition date_text (date : Z * Z * Z) : list byte :=
  let '(y, m, d) := date in pad 4 y ++ DASH ++ pad 2 m ++ DASH ++ pad 2 d.

Lemma timestamp_date s : exists t, now_rfc3339 s = date_text (days_to_ymd (s / 86400)) ++ t.
Proof.
  unfold now_rfc3339. destruct (days_to_ymd (s / 86400)) as [[y m] d]. unfold date_text.
  eexists. rewrite <- !app_assoc. reflexivity.
Qed.

Lemma date_text_order d1 d2 x y : 0 <= d1 < d2 -> d2 < YEAR_10000 / 86400 ->
  bytes_ltb (date_text (days_to_ymd d1) ++ x) (date_text (days_to_ymd d2) ++ y) = true.
Proof.
  intros H1 H2. pose proof (date_fields d1 ltac:(lia)) as F1. pose proof (date_fields d2 ltac:(lia)) as F2.
  pose proof (days_to_ymd_mono d1 d2 ltac:(lia)) as Hm.
  destruct (days_to_ymd d1) as [[y1 m1] e1], (days_to_ymd d2) as [[y2 m2] e2]. cbn in Hm. unfold date_text.
  rewrite <- !app_assoc. apply pad_order; [by right|cbn; lia..|].
  destruct Hm as [Hm|[-> Hm]]; [by left|right; split; [done|]]. rewrite bytes_ltb_app_same.
  apply pad_order; [by left|cbn; lia..|]. destruct Hm as [Hm|[-> Hm]]; [by left|right; split; [done|]].
  rewrite bytes_ltb_app_same. apply pad_order; [by left|cbn; lia..|by left].
Qed.

(** [--since] with a date selects exactly the entries of that day and later
    ones, although it only compares text. *)
Theorem since_selects day s rec :
  0 <= day < YEAR_10000 / 86400 -> 0 <= s < YEAR_10000 -> ar_ts rec = now_rfc3339 s ->
  selected (Some (date_text (days_to_ymd day))) None rec = (86400 * day <=? s).
Proof.
  intros Hd Hs Hts. unfold selected. rewrite Hts, andb_true_r.
  assert (Hday : 0 <= s / 86400 < YEAR_10000 / 86400) by (unfold YEAR_10000 in *; Z.to_euclidean_division_equations; lia).
  destruct (timestamp_date s) as [t Ht]. rewrite Ht. destruct (Z.lt_trichotomy (s / 86400) day) as [Hlt|[Heq|Hgt]].
  - pose proof (date_text_order (s / 86400) day t [] ltac:(lia) ltac:(lia)) as Ho. rewrite app_nil_r in Ho. rewrite Ho.
    rewrite (proj2 (Z.leb_gt _ _)) by (Z.to_euclidean_division_equations; lia). rewrite andb_true_r, negb_involutive.
    apply not_true_is_false. rewrite starts_with_spec. intros [r Hr]. rewrite Hr in Ho.
    pose proof (bytes_ltb_app_same (date_text (days_to_ymd day)) r []) as Hsame. rewrite app_nil_r in Hsame.
    rewrite Hsame in Ho. by destruct r.
  - rewrite Heq, starts_with_app. symmetry. apply Z.leb_le. Z.to_euclidean_division_equations. lia.
  - pose proof (date_text_order day (s / 86400) [] t ltac:(lia) ltac:(lia)) as Ho. rewrite app_nil_r in Ho.
    rewrite (proj2 (Z.leb_le _ _)) by (Z.to_euclidean_division_equations; lia).
    destruct (bytes_ltb (date_text (days_to_ymd (s / 86400)) ++ t) (date_text (days_to_ymd day))) eqn:E.
    + pose proof (bytes_ltb_trans _ _ _ Ho E) as Hc. by rewrite bytes_ltb_irrefl in Hc.
    + by rewrite andb_false_r.
Qed.

(** ** Witnesses *)

Definition test_entry (n : Z) : AuditEntry :=
  mkAuditEntry (now_rfc3339 n) (string_bytes "cp") (string_bytes "host") [string_bytes "a.txt"] (Some 0) None false 42.

Lemma test_entry_ok n : 0 <= n < 3 -> entry_ok (test_entry n).
Proof.
  intros Hn. unfold entry_ok, is_u. split_and!; try done.
  - assert (Hc : n = 0 \/ n = 1 \/ n = 2) by lia. by destruct Hc as [-> | [-> | ->]].
  - repeat constructor.
  - intros k [= <-]. lia.
Qed.

Lemma since_selects_witness :
  forall rec, ar_ts rec = now_rfc3339 1710460800 -> selected (Some (string_bytes "2024-03-15")) None rec = true.
Proof. intros rec Hr. apply (since_selects 19797 1710460800 rec); [vm_compute; by split|vm_compute; by split|done]. Defined.

(** A hash for the witnesses: the last bytes. *)
Definition tail_hash : PlainHash := {| blake3_hash s := resize_bytes (rev s) 32; sha256_digest s := resize_bytes s 32 |}.

Lemma tail_hash_laws : PlainHashLaws tail_hash.
Proof. constructor; intros; apply length_resize_bytes. Qed.

Lemma test_line_ok (H : PlainHash) n : 0 <= n < 2 -> line_ok (test_entry n).
Proof.
  intros Hn. assert (Hc : n = 0 \/ n = 1) by lia.
  destruct Hc as [-> | ->]; (split; [reflexivity|apply Nat.leb_le; reflexivity]).
Qed.

Lemma append_builds_chain_witness :
  @log_run tail_hash _ [test_entry 0; test_entry 1] = Some (log_text (@chain tail_hash _ ZERO_HASH [test_entry 0; test_entry 1])).
Proof.
  apply (@append_builds_chain tail_hash tail_hash_laws _ test_json_laws); [| |done].
  - constructor; [apply test_entry_ok; lia|constructor; [apply test_entry_ok; lia|constructor]].
  - constructor; [by apply (test_line_ok tail_hash)|constructor; [by apply (test_line_ok tail_hash)|constructor]].
Defined.

Lemma verify_rejects_own_log_witness :
  (forall e, e ∈ [test_entry 0] -> sorted_json e <> entry_json e)
  /\ exists prev, @run_verify tail_hash _ (@log_run tail_hash _ [test_entry 0]) = (Some (mkVerify prev 1 0 0 1), false).
Proof.
  apply (@verify_rejects_own_log tail_hash tail_hash_laws _ test_json_laws [test_entry 0]).
  - constructor; [apply test_entry_ok; lia|constructor].
  - constructor; [by apply (test_line_ok tail_hash)|constructor].
  - done.
  - split; [vm_compute; discriminate|done].
Defined.
