(* ===== verification/KnownHosts.v ===== *)
(** * Pinned server keys

    src/src/bin/seam/known_hosts.rs: the file of trusted server keys, one line per
    host, loaded into a map, checked or extended at every connection, and
    written back sorted.  The file is a byte string, [None] when it cannot be
    read; the lock makes each operation one step, and what is printed is not
    represented. *)

From Stdlib Require Import ZArith Lia Bool List String.
From Stdlib Require Import Strings.Byte.
From stdpp Require Import base list numbers option sorting gmap.
From S2P Require Import Prelude TestCrypto Identity Net Text Proc.

Open Scope Z_scope.

Abbreviation Pins := (gmap (list byte) (list byte)).

Definition HASH_SIGN : byte := x23.

(** A line of the file: host, space, fingerprint. *)
Definition parse_pin (line : list byte) : option (list byte * list byte) :=
  let line := trim line in
  match line with
  | [] => None
  | _ => if starts_with [HASH_SIGN] line then None
         else match splitn 2 SPACE line with
              | host :: fp :: _ => Some (host, trim fp)
              | _ => None
              end
  end.

(** Missing, unreadable and not UTF-8 are all an empty table. *)
Definition load_pins (file : option (list byte)) : Pins :=
  match file ≫= from_utf8 with
  | None => ∅
  | Some text =>
      fold_left (fun map line => match parse_pin line with Some (host, fp) => <[host := fp]> map | None => map end)
                (lines text) ∅
  end.

(** The two comment lines. *)
Definition PINS_HEADER : list (list byte) :=
  [string_bytes "# Seam known_hosts " ++ [xe2; x80; x94] ++ string_bytes " DO NOT EDIT manually unless you know what you are doing.";
   string_bytes "# Format: <host> <sha256-of-x25519-public-key-hex>"].

Definition pin_line (p : list byte * list byte) : list byte := p.1 ++ [SPACE] ++ p.2.

Definition pin_entries (pins : Pins) : list (list byte * list byte) := sort_by_key fst (map_to_list pins).

(** The text that replaces the file. *)
Definition save_pins (pins : Pins) : list byte :=
  concat (map (fun l => l ++ [x0a]) (PINS_HEADER ++ map pin_line (pin_entries pins))).

Inductive PinPolicy : Type := Enforce | TrustOnFirstUse | InsecureIgnore.

Definition short_fp (fp : list byte) : list byte := take (Nat.min (length fp) 32) fp.

Section Code.
Context {H : PlainHash}.

Definition fingerprint (x25519_pub : list byte) : list byte := hex_encode (sha256_digest x25519_pub).

(** [saved] is whether the new file could be written: a failure is only
    reported. *)
Definition verify_or_pin_locked (host fp : list byte) (saved : bool) (file : option (list byte))
    : (unit + string) * option (list byte) :=
  let pins := load_pins file in
  match pins !! host with
  | Some pinned =>
      if bytes_eqb pinned fp then (inl tt, file)
      else (inr "server identity mismatch: remote host identification has changed"%string, file)
  | None =>
      let pins := <[host := fp]> pins in
      (inl tt, if saved then Some (save_pins pins) else file)
  end.

Definition verify_or_pin (host x25519_pub : list byte) (policy : PinPolicy) (saved : bool) (file : option (list byte))
    : (unit + string) * option (list byte) :=
  match policy with
  | InsecureIgnore => (inl tt, file)
  | _ => verify_or_pin_locked host (fingerprint x25519_pub) saved file
  end.

Definition remove_pin (host : list byte) (saved : bool) (file : option (list byte))
    : (bool + string) * option (list byte) :=
  let pins := load_pins file in
  match pins !! host with
  | Some _ => if saved then (inl true, Some (save_pins (delete host pins))) else (inr "write failed"%string, file)
  | None => (inl false, file)
  end.

Definition list_pins (file : option (list byte)) : list (list byte * list byte) := pin_entries (load_pins file).

(** ** Histories *)

Inductive PinOp : Type :=
  | OpVerify (host key : list byte) (policy : PinPolicy) (saved : bool)
  | OpRemove (host : list byte) (saved : bool).

(** Whether the operation succeeded, and the file after it. *)
Definition pin_exec (op : PinOp) (file : option (list byte)) : bool * option (list byte) :=
  match op with
  | OpVerify host key policy saved =>
      let '(r, file) := verify_or_pin host key policy saved file in
      (match r with inl _ => true | inr _ => false end, file)
  | OpRemove host saved =>
      let '(r, file) := remove_pin host saved file in (match r with inl _ => true | inr _ => false end, file)
  end.

Fixpoint pin_run (ops : list PinOp) (file : option (list byte)) : list bool * option (list byte) :=
  match ops with
  | [] => ([], file)
  | op :: ops => let '(b, file) := pin_exec op file in let '(bs, file) := pin_run ops file in (b :: bs, file)
  end.

(** ** What it means: a table of fingerprints *)

Definition spec_exec (op : PinOp) (pins : Pins) : bool * Pins :=
  match op with
  | OpVerify host key InsecureIgnore saved => (true, pins)
  | OpVerify host key _ saved =>
      match pins !! host with
      | Some fp => (bool_decide (fp = fingerprint key), pins)
      | None => (true, if saved then <[host := fingerprint key]> pins else pins)
      end
  | OpRemove host saved =>
      match pins !! host with
      | Some _ => (saved, if saved then delete host pins else pins)
      | None => (true, pins)
      end
  end.

Fixpoint spec_run (ops : list PinOp) (pins : Pins) : list bool * Pins :=
  match ops with
  | [] => ([], pins)
  | op :: ops => let '(b, pins) := spec_exec op pins in let '(bs, pins) := spec_run ops pins in (b :: bs, pins)
  end.

End Code.

(** * Properties *)

Definition host_ok (h : list byte) : Prop := graphic_text h /\ starts_with [HASH_SIGN] h = false.

Definition pins_ok (pins : Pins) : Prop := forall h fp, pins !! h = Some fp -> host_ok h /\ graphic_text fp.

(** A pin's line: nothing to trim, not a comment, two fields. *)
Lemma pin_line_fields h fp : host_ok h -> graphic_text fp ->
  trim (pin_line (h, fp)) = pin_line (h, fp) /\ pin_line (h, fp) <> []
  /\ starts_with [HASH_SIGN] (pin_line (h, fp)) = false /\ splitn 2 SPACE (pin_line (h, fp)) = [h; fp].
Proof.
  intros [Hh Hs] Hfp. unfold pin_line. cbn [fst snd]. split_and!.
  - destruct Hh as [Hne Hh]. destruct h as [|b h]; [done|]. cbn in Hh. apply andb_true_iff in Hh as [Hb Hh].
    destruct Hfp as [Hfne Hf]. destruct fp as [|c m _] using rev_ind; [done|]. rewrite forallb_app in Hf. cbn in Hf.
    apply andb_true_iff in Hf as [_ Hc]. rewrite andb_true_r in Hc.
    change ((b :: h) ++ [SPACE] ++ m ++ [c]) with (b :: h ++ [SPACE] ++ m ++ [c]). rewrite !(app_assoc h), !(app_assoc _ m).
    by apply trim_graphic.
  - by destruct h.
  - destruct Hh as [Hne _]. destruct h as [|b h]; [done|]. unfold starts_with in *. cbn [strip_prefix app] in *.
    by destruct (Byte.eqb HASH_SIGN b).
  - cbn [splitn]. rewrite (proj2 (split_once_Some SPACE (h ++ [SPACE] ++ fp) h fp)); [done|].
    split; [done|]. destruct Hh as [_ Hh]. by apply graphic_not.
Qed.

Lemma parse_pin_line h fp : host_ok h -> graphic_text fp -> parse_pin (pin_line (h, fp)) = Some (h, fp).
Proof.
  intros Hh Hfp. destruct (pin_line_fields h fp Hh Hfp) as (Ht & Hne & Hs & Hf). unfold parse_pin. rewrite Ht.
  destruct (pin_line (h, fp)) as [|b l]; [done|]. by rewrite Hs, Hf, graphic_trim.
Qed.

(** ** The file round trip *)

Lemma elem_pin_entries pins h fp : (h, fp) ∈ pin_entries pins <-> pins !! h = Some fp.
Proof. unfold pin_entries. rewrite (sort_by_key_perm fst). apply elem_of_map_to_list. Qed.

Lemma pin_line_text h fp : host_ok h -> graphic_text fp ->
  is_ascii (pin_line (h, fp)) = true /\ Forall (fun b => b <> x0a) (pin_line (h, fp)) /\ strip_cr (pin_line (h, fp)) = pin_line (h, fp).
Proof.
  intros [[Hne Hh] _] [Hfne Hf]. unfold pin_line. cbn [fst snd]. split_and!.
  - by rewrite !is_ascii_app, (graphic_ascii h), (graphic_ascii fp).
  - rewrite !List.Forall_app. split_and!; [by apply graphic_not|by repeat constructor|by apply graphic_not].
  - destruct fp as [|c m _] using rev_ind; [done|]. unfold strip_cr, strip_suffix.
    rewrite !app_assoc, rev_app_distr. cbn [rev app strip_prefix]. rewrite forallb_app in Hf. cbn in Hf.
    apply andb_true_iff in Hf as [_ Hc]. rewrite andb_true_r in Hc.
    destruct (Byte.eqb x0d c) eqn:E; [|done]. apply byte_eqb_eq in E as <-. done.
Qed.

Definition header_ok : bool :=
  forallb (fun l => bytes_eqb (strip_cr l) l && match parse_pin l with None => true | _ => false end) PINS_HEADER
  && utf8_valid (concat (map (fun l => l ++ [x0a]) PINS_HEADER))
  && forallb (forallb (fun b => negb (Byte.eqb b x0a))) PINS_HEADER.

Lemma header_is_ok : header_ok = true.
Proof. vm_compute. reflexivity. Qed.

Lemma load_lines ls pins0 :
  Forall (fun p => host_ok p.1 /\ graphic_text p.2) ls ->
  fold_left (fun map line => match parse_pin line with Some (host, fp) => <[host := fp]> map | None => map end)
            (map pin_line ls) pins0
  = fold_left (fun (m : Pins) p => <[p.1 := p.2]> m) ls pins0.
Proof.
  intros Hl. revert pins0. induction Hl as [|[h fp] ls [Hh Hf] _ IH]; intros pins0; [done|]. cbn [map fold_left].
  rewrite parse_pin_line by done. apply IH.
Qed.

Lemma insert_all (l : list (list byte * list byte)) : forall (m : Pins) k,
  NoDup (map fst l) ->
  fold_left (fun (m : Pins) p => <[p.1 := p.2]> m) l m !! k
  = match List.find (fun p => bytes_eqb p.1 k) l with Some p => Some p.2 | None => m !! k end.
Proof.
  induction l as [|[h fp] l IH]; intros m k Hd; [done|]. cbn [map fst] in Hd. apply NoDup_cons in Hd as [Hn Hd].
  cbn [fold_left List.find fst snd]. rewrite IH by done. destruct (bytes_eqb h k) eqn:E.
  - apply bytes_eqb_eq in E as ->. destruct (List.find _ l) as [p|] eqn:Ef; [|by rewrite lookup_insert_eq].
    apply find_some in Ef as [Hin Hp%bytes_eqb_eq]. exfalso. apply Hn. apply list_elem_of_In, in_map_iff. by exists p.
  - destruct (List.find _ l); [done|]. rewrite lookup_insert_ne; [done|]. intros ->. by rewrite bytes_eqb_refl in E.
Qed.

Lemma pin_entries_ok pins : pins_ok pins -> Forall (fun p => host_ok p.1 /\ graphic_text p.2) (pin_entries pins).
Proof. intros Hok. apply List.Forall_forall. intros [h fp] Hp%list_elem_of_In. apply elem_pin_entries in Hp. by apply Hok. Qed.

(** The text of a table is UTF-8 and has the comments and a line for each pin. *)
Lemma saved_lines pins : pins_ok pins ->
  from_utf8 (save_pins pins) = Some (save_pins pins)
  /\ lines (save_pins pins) = map strip_cr PINS_HEADER ++ map pin_line (pin_entries pins).
Proof.
  intros Hok. pose proof (pin_entries_ok pins Hok) as Hes. unfold save_pins. set (es := pin_entries pins) in *.
  pose proof header_is_ok as Hh. unfold header_ok in Hh.
  apply andb_true_iff in Hh as [[Hh1 Hh2]%andb_true_iff Hh3]. rewrite forallb_forall in Hh1, Hh3. unfold from_utf8.
  assert (Hbody : is_ascii (concat (map (fun l => l ++ [x0a]) (map pin_line es))) = true).
  { clear - Hes. induction Hes as [|[h fp] es [H1 H2] _ IH]; [done|]. cbn [map concat].
    by rewrite !is_ascii_app, (proj1 (pin_line_text h fp H1 H2)), IH. }
  rewrite map_app, concat_app. rewrite utf8_valid_app by (done || by apply ascii_utf8). split; [done|].
  rewrite <- concat_app, <- map_app. rewrite lines_concat.
  - rewrite map_app. f_equal. clear - Hes. induction Hes as [|[h fp] es [H1 H2] _ IH]; [done|]. cbn [map]. rewrite IH.
    by rewrite (proj2 (proj2 (pin_line_text h fp H1 H2))).
  - apply List.Forall_app. split.
    + apply List.Forall_forall. intros l Hl. specialize (Hh3 l Hl). rewrite forallb_forall in Hh3.
      apply List.Forall_forall. intros b Hb ->. specialize (Hh3 _ Hb). by rewrite byte_eqb_refl in Hh3.
    + clear - Hes. induction Hes as [|[h fp] es [H1 H2] _ IH]; constructor; [|done]. by apply pin_line_text.
Qed.

Lemma save_load pins : pins_ok pins -> load_pins (Some (save_pins pins)) = pins.
Proof.
  intros Hok. destruct (saved_lines pins Hok) as [Hu Hl]. unfold load_pins. cbn [mbind option_bind]. rewrite Hu, Hl.
  rewrite fold_left_app. set (m0 := fold_left _ (map strip_cr PINS_HEADER) ∅).
  assert (Hm0 : m0 = ∅) by reflexivity. rewrite Hm0, load_lines by (by apply pin_entries_ok).
  set (es := pin_entries pins).
  assert (Hd : NoDup (map fst es)).
  { unfold es, pin_entries. rewrite (sort_by_key_perm fst). apply NoDup_fst_map_to_list. }
  apply map_eq. intros k. rewrite insert_all by done. rewrite lookup_empty.
  destruct (List.find _ es) as [[h fp]|] eqn:Ef.
  - apply find_some in Ef as [Hin Hp%bytes_eqb_eq]. cbn in Hp. subst h. symmetry. apply elem_pin_entries.
    by apply list_elem_of_In.
  - destruct (pins !! k) as [fp|] eqn:Ek; [|done]. exfalso.
    assert (Hin : (k, fp) ∈ es) by (by apply elem_pin_entries).
    apply list_elem_of_In in Hin. pose proof (find_none _ _ Ef _ Hin) as Hc. cbn in Hc. by rewrite bytes_eqb_refl in Hc.
Qed.

Section Refinement.
Context {H : PlainHash} {HL : PlainHashLaws H}.

Definition op_ok (op : PinOp) : Prop :=
  match op with OpVerify host _ _ _ => host_ok host | OpRemove host _ => host_ok host end.

Lemma fingerprint_ok key : graphic_text (fingerprint key).
Proof.
  unfold fingerprint, graphic_text. pose proof (length_hex_encode (sha256_digest key)) as Hl.
  rewrite sha256_digest_len in Hl. split; [by intros E; rewrite E in Hl|]. generalize (sha256_digest key). clear.
  assert (Hd : forall d, 0 <= d < 16 -> graphic (hex_digit d) = true).
  { intros d Hd. assert (Hin : In d (map Z.of_nat (seq 0 16))).
    { apply in_map_iff. exists (Z.to_nat d). rewrite in_seq. lia. }
    cbn in Hin. repeat destruct Hin as [<-|Hin]; done. }
  induction l as [|b l IH]; [done|]. cbn [hex_encode List.flat_map app forallb]. fold (hex_encode l).
  pose proof (byte_val_bound b). by rewrite !Hd, IH by (Z.to_euclidean_division_equations; lia).
Qed.

(** The file stands for a table that survives being written. *)
Definition file_ok (file : option (list byte)) : Prop := pins_ok (load_pins file).

Lemma pins_ok_insert pins host fp : pins_ok pins -> host_ok host -> graphic_text fp -> pins_ok (<[host := fp]> pins).
Proof. intros Hp Hh Hf k v [[<- <-]|[_ Hk]]%lookup_insert_Some; [done|by apply Hp]. Qed.

Lemma pins_ok_delete pins host : pins_ok pins -> pins_ok (delete host pins).
Proof. intros Hp k v [_ Hk]%lookup_delete_Some. by apply Hp. Qed.

Lemma pin_exec_refines op file : file_ok file -> op_ok op ->
  let '(b, file') := pin_exec op file in
  file_ok file' /\ spec_exec op (load_pins file) = (b, load_pins file').
Proof.
  intros Hf Ho. destruct op as [host key policy saved|host saved]; cbn [op_ok] in Ho.
  - assert (Hl : policy <> InsecureIgnore ->
      let '(r, file') := verify_or_pin_locked host (fingerprint key) saved file in
      file_ok file' /\ match load_pins file !! host with
                       | Some fp => (bool_decide (fp = fingerprint key), load_pins file)
                       | None => (true, if saved then <[host := fingerprint key]> (load_pins file) else load_pins file)
                       end = (match r with inl _ => true | inr _ => false end, load_pins file')).
    { intros _. unfold verify_or_pin_locked. destruct (load_pins file !! host) as [fp|] eqn:E.
      - destruct (bytes_eqb fp (fingerprint key)) eqn:Eb; (split; [done|]).
        + apply bytes_eqb_eq in Eb. by rewrite bool_decide_true.
        + rewrite bool_decide_false; [done|]. intros ->. by rewrite bytes_eqb_refl in Eb.
      - assert (Hn : pins_ok (<[host := fingerprint key]> (load_pins file))).
        { apply pins_ok_insert; [done|done|apply fingerprint_ok]. }
        destruct saved; [|done]. unfold file_ok. by rewrite save_load. }
    cbn [pin_exec spec_exec]. unfold verify_or_pin.
    destruct policy; [| |done]; specialize (Hl ltac:(discriminate)); destruct (verify_or_pin_locked _ _ _ _); exact Hl.
  - cbn [pin_exec spec_exec]. unfold remove_pin. destruct (load_pins file !! host) as [fp|] eqn:E; [|done].
    destruct saved; [|done]. unfold file_ok. rewrite save_load by (by apply pins_ok_delete). split; [|done].
    by apply pins_ok_delete.
Qed.

Lemma pin_run_spec ops : forall file, file_ok file -> Forall op_ok ops ->
  let '(bs, file') := pin_run ops file in
  file_ok file' /\ spec_run ops (load_pins file) = (bs, load_pins file').
Proof.
  induction ops as [|op ops IH]; intros file Hf Ho; [done|]. apply List.Forall_cons_iff in Ho as [Ho Hos].
  cbn [pin_run spec_run]. pose proof (pin_exec_refines op file Hf Ho) as He. destruct (pin_exec op file) as [b file1].
  destruct He as [Hf1 ->]. specialize (IH file1 Hf1 Hos). destruct (pin_run ops file1) as [bs file2].
  destruct IH as [Hf2 ->]. done.
Qed.

(** C22: The file of pins implements a table: whatever connections are made and pins
    removed, each operation succeeds or fails as on a map from hosts to
    fingerprints, and the file reads back as that map, although every change
    goes through its text. *)
Theorem pin_store_refines ops file : file_ok file -> Forall op_ok ops ->
  let '(bs, file') := pin_run ops file in spec_run ops (load_pins file) = (bs, load_pins file').
Proof. intros Hf Ho. pose proof (pin_run_spec ops file Hf Ho) as Hr. destruct (pin_run ops file). by destruct Hr. Qed.

(** ** Trust on first use *)

Definition keeps (host : list byte) (op : PinOp) : Prop :=
  match op with OpRemove h _ => h <> host | _ => True end.

Lemma spec_keeps ops host fp : forall pins, pins !! host = Some fp -> Forall (keeps host) ops ->
  (spec_run ops pins).2 !! host = Some fp.
Proof.
  induction ops as [|op ops IH]; intros pins Hp Hk; [done|]. apply List.Forall_cons_iff in Hk as [Hk Hks].
  cbn [spec_run]. assert (Hn : (spec_exec op pins).2 !! host = Some fp).
  { destruct op as [h key policy saved|h saved]; cbn [spec_exec keeps] in *.
    - destruct policy; [| |done]; (destruct (pins !! h) eqn:E; [done|]; destruct saved; [|done]; cbn;
        rewrite lookup_insert_ne by congruence; done).
    - destruct (pins !! h); [|done]. destruct saved; [|done]. cbn. by rewrite lookup_delete_ne. }
  destruct (spec_exec op pins) as [b pins']. cbn in Hn. specialize (IH pins' Hn Hks). by destruct (spec_run ops pins').
Qed.

(** Trust on first use: once a host's key is in the file, and as long as its pin
    is not removed, the host can only be connected to with a key of that
    fingerprint, whatever happens to other hosts, unless the check is switched
    off. *)
Theorem tofu ops file host key key' policy saved : file_ok file -> Forall op_ok ops -> host_ok host ->
  load_pins file !! host = Some (fingerprint key) -> Forall (keeps host) ops -> policy <> InsecureIgnore ->
  ((verify_or_pin host key' policy saved (pin_run ops file).2).1 = inl tt <-> fingerprint key' = fingerprint key).
Proof.
  intros Hf Ho Hh Hp Hk Hpol. pose proof (pin_run_spec ops file Hf Ho) as Hr. pose proof (spec_keeps ops host _ _ Hp Hk) as Hs.
  destruct (pin_run ops file) as [bs file']. destruct Hr as [_ Hr]. rewrite Hr in Hs. cbn [snd] in *.
  assert (Hv : verify_or_pin host key' policy saved file' = verify_or_pin_locked host (fingerprint key') saved file').
  { by destruct policy. }
  rewrite Hv. unfold verify_or_pin_locked. rewrite Hs. destruct (bytes_eqb _ _) eqn:E; cbn.
  - apply bytes_eqb_eq in E. by rewrite E.
  - split; [done|]. intros Heq. rewrite Heq, bytes_eqb_refl in E. done.
Qed.

(** A pin file that is not valid UTF-8 is treated as empty: any key is accepted
    for every host, and the save that follows drops all other pins. *)
Theorem corrupt_pins_fail_open bytes host key policy :
  utf8_valid bytes = false -> host_ok host -> policy <> InsecureIgnore ->
  let '(r, file) := verify_or_pin host key policy true (Some bytes) in
  r = inl tt /\ load_pins file = {[ host := fingerprint key ]}.
Proof.
  intros Hu Hh Hpol. assert (Hl : load_pins (Some bytes) = ∅).
  { unfold load_pins. cbn [mbind option_bind]. unfold from_utf8. by rewrite Hu. }
  destruct policy; [| |done]; cbn [verify_or_pin]; unfold verify_or_pin_locked; rewrite Hl, lookup_empty; (split; [done|]);
    rewrite save_load by (apply pins_ok_insert; [by intros ? ? ?%lookup_empty_Some|done|apply fingerprint_ok]); done.
Qed.

(** Without the lock ([flock] may fail, and the code goes on), two first
    connections that both load before either saves accept two different keys. *)
Lemma unlocked_race host key1 key2 : host_ok host ->
  let loaded : option (list byte) := None in
  let '(r1, f1) := verify_or_pin host key1 Enforce true loaded in
  let '(r2, f2) := verify_or_pin host key2 Enforce true loaded in
  r1 = inl tt /\ r2 = inl tt /\ load_pins f2 = {[ host := fingerprint key2 ]}.
Proof.
  intros Hh. cbn. unfold verify_or_pin_locked. cbn [load_pins mbind option_bind]. rewrite lookup_empty.
  split_and!; [done|done|]. apply save_load, pins_ok_insert; [by intros ? ? ?%lookup_empty_Some|done|apply fingerprint_ok].
Qed.

End Refinement.

(** ** Witnesses *)

Definition test_host : list byte := string_bytes "example.org".
Definition test_pin_file : option (list byte) := (verify_or_pin test_host [x01] Enforce true None).2.

Lemma test_host_ok : host_ok test_host.
Proof. split; [split; [done|reflexivity]|reflexivity]. Qed.

Lemma empty_file_ok : file_ok None.
Proof. unfold file_ok. change (load_pins None) with (∅ : Pins). by intros ? ? ?%lookup_empty_Some. Qed.

Lemma pin_store_refines_witness :
  spec_run [OpVerify test_host [x01] Enforce true; OpVerify test_host [x02] Enforce true] ∅
  = ([true; false], load_pins (pin_run [OpVerify test_host [x01] Enforce true; OpVerify test_host [x02] Enforce true] None).2).
Proof.
  pose proof (pin_store_refines [OpVerify test_host [x01] Enforce true; OpVerify test_host [x02] Enforce true] None
    empty_file_ok ltac:(rewrite !List.Forall_cons_iff; split_and!; try exact test_host_ok; constructor)) as Hr.
  destruct (pin_run _ None) as [bs file] eqn:E. cbn [snd]. change (load_pins None) with (∅ : Pins) in Hr. rewrite Hr. f_equal.
  change bs with (bs, file).1. rewrite <- E. vm_compute. reflexivity.
Defined.

Lemma tofu_witness :
  (verify_or_pin test_host [x02] Enforce true (pin_run [OpVerify [x61] [x05] Enforce true] test_pin_file).2).1 = inl tt
  <-> fingerprint [x02] = fingerprint [x01].
Proof.
  apply tofu.
  - unfold test_pin_file. apply (pin_exec_refines (OpVerify test_host [x01] Enforce true) None empty_file_ok test_host_ok).
  - rewrite List.Forall_cons_iff. split; [split; [split; [done|reflexivity]|reflexivity]|constructor].
  - exact test_host_ok.
  - vm_compute. reflexivity.
  - repeat constructor.
  - discriminate.
Defined.

Lemma corrupt_pins_fail_open_witness :
  (verify_or_pin test_host [x02] Enforce true (Some [xff])).1 = inl tt.
Proof.
  pose proof (corrupt_pins_fail_open [xff] test_host [x02] Enforce eq_refl test_host_ok ltac:(discriminate)) as Hr.
  destruct (verify_or_pin _ _ _ _ _) as [r file]. apply Hr.
Defined.
