(* ===== verification/Specs.v ===== *)
(** * The texts of the command line

    The small parsers of src/src/bin/seam: the SEAM line by which a remote side
    announces itself and shell quoting (connect.rs), remote specifications
    (ssh.rs), port forwards (forward.rs, fwd.rs), scan targets (scan.rs),
    durations and tokens (share.rs), modes (ls.rs).  An error is its message,
    without the context that [anyhow] adds. *)

From Stdlib Require Import ZArith Lia Bool List String Sorted.
From Stdlib Require Import Strings.Byte.
From stdpp Require Import base list numbers option sorting.
From S2P Require Import Prelude TestCrypto Identity Net Text Json AuditLog.

Open Scope Z_scope.

Definition AT : byte := x40.
Definition COMMA : byte := x2c.
Definition SLASH : byte := x2f.
Definition APOS : byte := x27.
Definition BACKSLASH : byte := x5c.

(** ** connect.rs *)

(** [reject_unsupported_multipath]. *)
Definition reject_unsupported_multipath (multipath : option (list byte)) (multipath_redundant : bool) : unit + string :=
  if match multipath with Some _ => true | None => false end || multipath_redundant
  then inr "--multipath/--multipath-redundant are not supported on this command"%string else inl tt.

(** [s.replace('\'', ...)] between quotes. *)
Definition shell_quote (s : list byte) : list byte :=
  [APOS] ++ List.flat_map (fun b => if Byte.eqb b APOS then [APOS; BACKSLASH; APOS; APOS] else [b]) s ++ [APOS].

Section SeamLine.
Context {K : Kem}.

Definition set_part (part : list byte) (acc : option Z * option (list byte) * option KemPublicKey)
    : (option Z * option (list byte) * option KemPublicKey) + string :=
  let '(port, x25519, kem) := acc in
  match strip_prefix (string_bytes "PORT=") part with
  | Some v => match parse_uint U16_MAX v with Some p => inl (Some p, x25519, kem) | None => inr "bad PORT"%string end
  | None =>
      match strip_prefix (string_bytes "X25519=") part with
      | Some v =>
          match hex_decode v with
          | None => inr "bad X25519 hex"%string
          | Some bytes => match to_hash bytes with
                          | Some x => inl (port, Some x, kem)
                          | None => inr "X25519 must be 32 bytes"%string
                          end
          end
      | None =>
          match strip_prefix (string_bytes "KEM=") part with
          | Some v =>
              match hex_decode v with
              | None => inr "bad KEM hex"%string
              | Some bytes => match pk_from_bytes bytes with
                              | Some pk => inl (port, x25519, Some pk)
                              | None => inr "invalid KEM public key"%string
                              end
              end
          | None => inl acc
          end
      end
  end.

Fixpoint set_parts (parts : list (list byte)) (acc : option Z * option (list byte) * option KemPublicKey)
    : (option Z * option (list byte) * option KemPublicKey) + string :=
  match parts with
  | [] => inl acc
  | part :: parts => match set_part part acc with inl acc => set_parts parts acc | inr e => inr e end
  end.

Definition parse_seam_line (line : list byte) : (Z * list byte * KemPublicKey) + string :=
  match set_parts (drop 1 (split_whitespace line)) (None, None, None) with
  | inr e => inr e
  | inl (port, x25519, kem) =>
      match port, x25519, kem with
      | None, _, _ => inr "missing PORT in SEAM line"%string
      | _, None, _ => inr "missing X25519 in SEAM line"%string
      | _, _, None => inr "missing KEM in SEAM line"%string
      | Some p, Some x, Some k => inl (p, x, k)
      end
  end.

(** The line every receiving side prints. *)
Definition seam_line (port : Z) (x25519 : list byte) (kem : KemPublicKey) : list byte :=
  string_bytes "SEAM PORT=" ++ dec port ++ string_bytes " X25519=" ++ hex_encode x25519 ++ string_bytes " KEM="
  ++ hex_encode (pk_to_bytes kem).

End SeamLine.

(** [Iterator::find_map]. *)
Fixpoint find_map {A B} (f : A -> option B) (l : list A) : option B :=
  match l with
  | [] => None
  | a :: l => match f a with Some b => Some b | None => find_map f l end
  end.

Definition extract_token (line : list byte) : option (list byte) :=
  find_map (strip_prefix (string_bytes "TOKEN=")) (drop 1 (split_whitespace line)).

(** ** ssh.rs *)

Record RemoteInfo : Type := mkRemoteInfo {
  ri_host : list byte;
  ri_user : option (list byte);
  ri_ssh_port : option Z
}.

Definition target (r : RemoteInfo) : list byte :=
  match ri_user r with Some u => u ++ [AT] ++ ri_host r | None => ri_host r end.

(** The arguments of the ssh client, in batch mode and not. *)
Definition ssh_options (batch : bool) : list (list byte) :=
  (if batch then [string_bytes "-o"; string_bytes "BatchMode=yes"] else [])
  ++ [string_bytes "-o"; string_bytes "StrictHostKeyChecking=accept-new"; string_bytes "-o"; string_bytes "ConnectTimeout=10"].

Definition ssh_base (batch : bool) (r : RemoteInfo) : list (list byte) :=
  ssh_options batch ++ match ri_ssh_port r with Some p => [string_bytes "-p"; dec p] | None => [] end ++ [target r].

Definition parse_userhost (s : list byte) : option (list byte) * list byte :=
  match split_once AT s with Some (user, host) => (Some user, host) | None => (None, s) end.

(** The lines of [ssh -G]. *)
Definition ssh_config_line (acc : option (list byte) * option Z * option (list byte)) (line : list byte)
    : option (list byte) * option Z * option (list byte) :=
  let '(user, port, hostname) := acc in
  match strip_prefix (string_bytes "hostname ") line with
  | Some v => (user, port, Some v)
  | None =>
      match strip_prefix (string_bytes "user ") line with
      | Some v => (Some v, port, hostname)
      | None => match strip_prefix (string_bytes "port ") line with
                | Some v => (user, parse_uint U16_MAX v, hostname)
                | None => acc
                end
      end
  end.

Section Remote.
(** The output of [ssh -G] for a host, if the command succeeds. *)
Context (ssh_g : list byte -> option (list byte)).

Definition resolve_ssh_config (host : list byte) : option (list byte) * option Z * option (list byte) :=
  match ssh_g host with
  | None => (None, None, None)
  | Some text => fold_left ssh_config_line (lines text) (None, None, None)
  end.

Definition parse_remote (s : list byte) : option (RemoteInfo * list byte) :=
  match split_once COLON s with
  | None => None
  | Some (host_part, path) =>
      if (length host_part =? 1)%nat then None
      else
        let '(explicit_user, host) := parse_userhost host_part in
        let '(cfg_user, cfg_port, cfg_hostname) := resolve_ssh_config host in
        let user := match explicit_user with Some u => Some u | None => cfg_user end in
        Some (mkRemoteInfo (default host cfg_hostname) user cfg_port, path)
  end.

End Remote.

(** ** forward.rs and fwd.rs *)

Definition parse_forward_spec (spec : list byte) : (Z * list byte * Z) + string :=
  match split_once COLON spec with
  | None => inr "forward spec must be LOCAL_PORT:REMOTE_HOST:REMOTE_PORT"%string
  | Some (local_str, rest) =>
      match parse_uint U16_MAX local_str with
      | None => inr "invalid local port"%string
      | Some local_port =>
          match rsplit_once COLON rest with
          | None => inr "forward spec must be LOCAL_PORT:REMOTE_HOST:REMOTE_PORT"%string
          | Some (remote_host, remote_port_str) =>
              match remote_host with
              | [] => inr "remote_host must not be empty in forward spec"%string
              | _ => match parse_uint U16_MAX remote_port_str with
                     | None => inr "invalid remote port"%string
                     | Some remote_port => inl (local_port, remote_host, remote_port)
                     end
              end
          end
      end
  end.

Definition parse_fwd_spec (spec : list byte) : (option (list byte) * list byte * Z) + string :=
  match rsplit_once COLON spec with
  | None => inr "fwd spec must be user@host:REMOTE_PORT"%string
  | Some (userhost, port_str) =>
      match parse_uint U16_MAX port_str with
      | None => inr "invalid remote port"%string
      | Some remote_port => let '(user, host) := parse_userhost userhost in inl (user, host, remote_port)
      end
  end.

(** ** scan.rs *)

Definition MAX_TOTAL_PROBES : Z := 500000.
Definition MAX_CIDR_HOSTS : Z := 1048576.

(** The ports of one part of the list. *)
Definition parse_port_part (part : list byte) : list Z :=
  let part := trim part in
  match part with
  | [] => []
  | _ =>
      match split_once x2d part with
      | Some (start, end_) =>
          let start := default 0 (parse_uint U16_MAX (trim start)) in
          let end_ := default 0 (parse_uint U16_MAX (trim end_)) in
          if start <=? end_ then seqZ start (end_ - start + 1) else []
      | None => match parse_uint U16_MAX part with Some p => [p] | None => [] end
      end
  end.

(** [Vec::dedup]. *)
Fixpoint dedup (l : list Z) : list Z :=
  match l with
  | a :: ((b :: _) as l') => if a =? b then dedup l' else a :: dedup l'
  | _ => l
  end.

Definition parse_ports (spec : list byte) : list Z := dedup (merge_sort Z.le (concat (map parse_port_part (split COMMA spec)))).

(** The hosts of an IPv4 network; addresses are their 32-bit numbers. *)
Definition expand_cidr_v4 (base prefix : Z) : list Z :=
  let prefix := Z.min prefix 32 in
  let host_bits := 32 - prefix in
  let mask := if 32 <=? host_bits then 0 else Z.land (wrap 64 (Z.shiftl (2 ^ 64 - 1) host_bits)) 0xFFFFFFFF in
  let network := Z.land base mask in
  let count := Z.shiftl 1 host_bits in
  let '(start, end_) := if 0 <? host_bits then (network + 1, network + count - 1) else (network, network) in
  seqZ start (Z.min MAX_CIDR_HOSTS (end_ - start + 1)).

(** The guard of [run_scan]: the number of probes, if it is allowed. *)
Definition total_probes (targets ports : Z) : option Z :=
  let n := targets * ports in if (n <=? U64_MAX) && (n <=? MAX_TOTAL_PROBES) then Some n else None.

(** ** share.rs *)

Definition constant_time_eq (a b : list byte) : bool :=
  if negb (length a =? length b)%nat then false
  else fold_left (fun diff p => Z.lor diff (Z.lxor (byte_val p.1) (byte_val p.2))) (combine a b) 0 =? 0.

(** The unit suffixes, in the order they are tried. *)
Definition DURATION_UNITS : list (byte * Z) := [(x73, 1); (x6d, 60); (x68, 3600); (x64, 86400)].

(** The multiplication is unchecked. *)
Fixpoint parse_suffixed (units : list (byte * Z)) (s : list byte) : Z + string :=
  match units with
  | [] => match parse_uint U64_MAX s with Some n => inl n | None => inr "invalid duration: use 30s, 5m, 1h, or 2d"%string end
  | (suffix, unit) :: units =>
      match strip_suffix [suffix] s with
      | Some n => match parse_uint U64_MAX n with
                  | Some v => inl (wrapping_mul 64 v unit)
                  | None => inr "invalid duration"%string
                  end
      | None => parse_suffixed units s
      end
  end.

Definition parse_duration (s : list byte) : Z + string := parse_suffixed DURATION_UNITS s.

Definition format_duration (secs : Z) : list byte :=
  if secs <? 60 then dec secs ++ [x73]
  else if secs <? 3600 then dec (secs / 60) ++ [x6d]
  else if secs <? 86400 then dec (secs / 3600) ++ [x68]
  else dec (secs / 86400) ++ [x64].

(** ** ls.rs *)

Definition mode_bit (mode bit : Z) (c : byte) : byte := if Z.land mode bit =? 0 then x2d else c.

Definition mode_to_str (mode : Z) : list byte :=
  (if Z.land mode 0x4000 =? 0x4000 then x64 else x2d)
  :: map (fun p => mode_bit mode p.1 p.2)
       [(0x100, x72); (0x80, x77); (0x40, x78); (0x20, x72); (0x10, x77); (0x8, x78); (0x4, x72); (0x2, x77); (0x1, x78)].

(** * Properties *)

(** ** Shell quoting

    The remote shell is not part of the program: it is a parameter, of which
    only the quoting rules that POSIX documents are known (XCU 2.2), and only
    for words made of bytes that no rule of the shell treats specially, escaped
    bytes, and text between apostrophes.  Nothing is said of a line with any
    other byte outside quotes: not of expansions, substitutions, patterns,
    operators, comments, or a double quote. *)

(** Bytes that stand for themselves in every argument: lower-case letters,
    digits, the hyphen and the underscore. *)
Definition plain_sh (b : byte) : bool :=
  ((97 <=? byte_val b) && (byte_val b <=? 122)) || ((48 <=? byte_val b) && (byte_val b <=? 57)) || Byte.eqb b x2d || Byte.eqb b x5f.

(** A piece of a word, as it is written and as it is read. *)
Inductive ShPart : Type := PlainByte (b : byte) | Escaped (b : byte) | InApos (w : list byte).

Definition part_text (p : ShPart) : list byte :=
  match p with PlainByte b => [b] | Escaped b => [BACKSLASH; b] | InApos w => APOS :: w ++ [APOS] end.

Definition part_value (p : ShPart) : list byte :=
  match p with PlainByte b | Escaped b => [b] | InApos w => w end.

(** No line of a shell holds a zero byte, a backslash before a line feed
    continues the line, and no apostrophe stands between apostrophes. *)
Definition part_ok (p : ShPart) : Prop :=
  match p with
  | PlainByte b => plain_sh b = true
  | Escaped b => b <> x00 /\ b <> x0a
  | InApos w => (x00 ∉ w) /\ (APOS ∉ w)
  end.

Definition word_text (w : list ShPart) : list byte := concat (map part_text w).
Definition word_value (w : list ShPart) : list byte := concat (map part_value w).
Definition word_ok (w : list ShPart) : Prop := w <> [] /\ Forall part_ok w.

(** A shell: what it passes as arguments to a command when this text follows the
    command's name on a line. *)
Class PosixShell : Type := { sh_argv : list byte -> option (list (list byte)) }.

(** Words of such pieces with a blank between them, and any blanks at the end,
    are passed as what they stand for. *)
Class PosixShellLaws (S : PosixShell) : Prop := {
  sh_argv_words ws n : Forall word_ok ws ->
    sh_argv (join [SPACE] (map word_text ws) ++ (repeat SPACE n)) = Some (map word_value ws)
}.

(** Text without a zero byte, as every argument of a process is. *)
Definition no_nul (s : list byte) : Prop := x00 ∉ s.

Definition quote_body (s : list byte) : list byte :=
  List.flat_map (fun b => if Byte.eqb b APOS then [APOS; BACKSLASH; APOS; APOS] else [b]) s.

Lemma quote_pieces s : forall w0, no_nul s -> x00 ∉ w0 -> APOS ∉ w0 ->
  exists ps, word_ok ps /\ word_text ps = APOS :: w0 ++ quote_body s ++ [APOS] /\ word_value ps = w0 ++ s.
Proof.
  unfold no_nul. induction s as [|b s IH]; intros w0 Hs H0 Ha.
  - exists [InApos w0]. unfold word_ok, word_text, word_value. cbn. rewrite !app_nil_r. by repeat constructor.
  - apply not_elem_of_cons in Hs as [Hb Hs]. cbn [quote_body List.flat_map]. fold (quote_body s).
    destruct (Byte.eqb b APOS) eqn:E.
    + apply byte_eqb_eq in E as ->. destruct (IH [] Hs) as (ps & [_ Hok] & Ht & Hv); [apply not_elem_of_nil..|].
      exists (InApos w0 :: Escaped APOS :: ps). unfold word_ok, word_text, word_value in *. cbn [map concat part_text part_value].
      rewrite Ht, Hv. split; [split; [done|]|split].
      * constructor; [by split|]. by constructor.
      * cbn. by rewrite <- app_assoc.
      * done.
    + destruct (IH (w0 ++ [b]) Hs) as (ps & Hok & Ht & Hv).
      * intros [?|?%list_elem_of_singleton]%elem_of_app; [done|]. congruence.
      * intros [?|Hx%list_elem_of_singleton]%elem_of_app; [done|]. subst b. by rewrite byte_eqb_refl in E.
      * exists ps. rewrite <- !app_assoc in *. by split.
Qed.

Lemma shell_quote_word s : no_nul s -> exists ps, word_ok ps /\ word_text ps = shell_quote s /\ word_value ps = s.
Proof.
  intros Hs. destruct (quote_pieces s [] Hs) as (ps & H1 & H2 & H3); [apply not_elem_of_nil..|]. by exists ps.
Qed.

(** Shell quoting is safe: whatever bytes an argument has, every POSIX shell
    reads the quoted text as exactly that one argument. *)
Theorem shell_quote_safe {S : PosixShell} {L : PosixShellLaws S} s :
  no_nul s -> sh_argv (shell_quote s) = Some [s].
Proof.
  intros Hs. destruct (shell_quote_word s Hs) as (ps & Hok & <- & Hv).
  pose proof (sh_argv_words [ps] 0 ltac:(by constructor)) as Hw. cbn in Hw. by rewrite app_nil_r, Hv in Hw.
Qed.

(** A shell that refuses every line the law says nothing about: unquoted, it
    knows only blanks, the bytes that stand for themselves, apostrophes and
    backslashes. *)
Inductive ShMode : Type := Between | InWord (w : list byte) | Quoting (w : list byte) | Escaping (w : list byte).

Definition word_so_far (m : ShMode) : list byte :=
  match m with Between => [] | InWord w | Quoting w | Escaping w => w end.

Fixpoint strict_scan (m : ShMode) (l : list byte) : option (list (list byte)) :=
  match l with
  | [] => match m with Between => Some [] | InWord w => Some [w] | Quoting _ | Escaping _ => None end
  | b :: l =>
      match m with
      | Between | InWord _ =>
          let w := word_so_far m in
          if Byte.eqb b SPACE then
            match m with Between => strict_scan Between l | _ => cons w <$> strict_scan Between l end
          else if Byte.eqb b APOS then strict_scan (Quoting w) l
          else if Byte.eqb b BACKSLASH then strict_scan (Escaping w) l
          else if plain_sh b then strict_scan (InWord (w ++ [b])) l
          else None
      | Quoting w =>
          if Byte.eqb b APOS then strict_scan (InWord w) l
          else if Byte.eqb b x00 then None else strict_scan (Quoting (w ++ [b])) l
      | Escaping w =>
          if Byte.eqb b x00 || Byte.eqb b x0a then None else strict_scan (InWord (w ++ [b])) l
      end
  end.

Definition strict_shell : PosixShell := {| sh_argv := strict_scan Between |}.

Lemma plain_sh_spec b : plain_sh b = true -> Byte.eqb b SPACE = false /\ Byte.eqb b APOS = false /\ Byte.eqb b BACKSLASH = false.
Proof. destruct b; try discriminate; by intros _. Qed.

Lemma scan_quoted w : forall w0 rest, x00 ∉ w -> APOS ∉ w ->
  strict_scan (Quoting w0) (w ++ APOS :: rest) = strict_scan (InWord (w0 ++ w)) rest.
Proof.
  induction w as [|b w IH]; intros w0 rest H0 Ha; cbn [app strict_scan]; [by rewrite byte_eqb_refl, app_nil_r|].
  apply not_elem_of_cons in H0 as [H0 H0'], Ha as [Ha Ha']. rewrite !byte_eqb_neq by done.
  rewrite IH by done. by rewrite <- app_assoc.
Qed.

Lemma scan_part m p rest : m = Between \/ (exists w, m = InWord w) -> part_ok p ->
  strict_scan m (part_text p ++ rest) = strict_scan (InWord (word_so_far m ++ part_value p)) rest.
Proof.
  intros Hm Hp. destruct p as [b|b|w]; cbn [part_text part_value part_ok] in *.
  - apply plain_sh_spec in Hp as Hq. destruct Hq as (H1 & H2 & H3).
    destruct Hm as [->|[w ->]]; cbn [app strict_scan]; by rewrite H1, H2, H3, Hp.
  - destruct Hp as [H0 H1].
    destruct Hm as [->|[w ->]]; cbn [app strict_scan]; change (Byte.eqb BACKSLASH SPACE) with false;
      change (Byte.eqb BACKSLASH APOS) with false; change (Byte.eqb BACKSLASH BACKSLASH) with true; cbn iota;
      by rewrite !byte_eqb_neq by done.
  - destruct Hp as [H0 H1].
    destruct Hm as [->|[v ->]]; cbn [app strict_scan]; change (Byte.eqb APOS SPACE) with false;
      change (Byte.eqb APOS APOS) with true; cbn iota; rewrite <- app_assoc; cbn [app]; by apply scan_quoted.
Qed.

Lemma scan_word ps : forall w rest, Forall part_ok ps ->
  strict_scan (InWord w) (word_text ps ++ rest) = strict_scan (InWord (w ++ word_value ps)) rest.
Proof.
  unfold word_text, word_value. induction ps as [|p ps IH]; intros w rest Hp; cbn [map concat app]; [by rewrite app_nil_r|].
  apply List.Forall_cons_iff in Hp as [Hp Hps]. rewrite <- app_assoc, scan_part by (eauto || done). cbn [word_so_far].
  rewrite IH by done. by rewrite <- app_assoc.
Qed.

Lemma scan_first ps rest : word_ok ps ->
  strict_scan Between (word_text ps ++ rest) = strict_scan (InWord (word_value ps)) rest.
Proof.
  intros [Hne Hp]. destruct ps as [|p ps]; [done|]. apply List.Forall_cons_iff in Hp as [Hp Hps].
  unfold word_text. cbn [map concat]. rewrite <- app_assoc, scan_part by (by left || done).
  by apply (scan_word ps (part_value p)).
Qed.

Lemma scan_blanks n : strict_scan Between (repeat SPACE n) = Some [].
Proof. by induction n. Qed.

Lemma strict_shell_laws : PosixShellLaws strict_shell.
Proof.
  constructor. intros ws n Hws. cbn [sh_argv strict_shell]. destruct ws as [|w ws]; [apply scan_blanks|].
  revert w Hws. induction ws as [|v ws IH]; intros w Hws; apply List.Forall_cons_iff in Hws as [Hw Hws]; cbn [map join].
  - rewrite scan_first by done. destruct n as [|n]; [done|]. cbn [repeat strict_scan].
    change (Byte.eqb SPACE SPACE) with true. cbn iota. by rewrite scan_blanks.
  - specialize (IH v Hws). cbn [map] in IH. rewrite <- !app_assoc, scan_first by done. cbn [app strict_scan].
    change (Byte.eqb SPACE SPACE) with true. cbn iota.
    match goal with |- cons _ <$> strict_scan Between ?x = _ =>
      change x with (join [SPACE] (word_text v :: map word_text ws) ++ repeat SPACE n) end.
    by rewrite IH.
Qed.

Lemma shell_quote_safe_witness :
  sh_argv (PosixShell := strict_shell) (shell_quote (string_bytes "a'; rm -")) = Some [string_bytes "a'; rm -"]
  /\ sh_argv (PosixShell := strict_shell) (string_bytes "`reboot`") = None
  /\ sh_argv (PosixShell := strict_shell) (string_bytes "$x") = None.
Proof.
  split; [|split; reflexivity]. apply (shell_quote_safe (S := strict_shell) (L := strict_shell_laws)). unfold no_nul. rewrite list_elem_of_In. cbn. intuition discriminate.
Defined.

(** ** The SEAM line *)

Lemma graphic_dec n : 0 <= n -> graphic_text (dec n).
Proof.
  intros Hn. split.
  - unfold dec. pose proof (digits_nonempty 10 64 n ltac:(lia)) as Hne. fold (digits 10 n) in Hne. by destruct (digits 10 n).
  - apply forallb_forall. intros b Hb. pose proof (dec_digits n Hn) as Hd. rewrite List.Forall_forall in Hd.
    destruct (Hd b Hb) as [d Hv]. unfold digit_val in Hv. unfold graphic.
    destruct ((48 <=? byte_val b) && (byte_val b <=? 57)) eqn:E; [|done].
    apply andb_true_iff in E as [E1%Z.leb_le E2%Z.leb_le].
    rewrite (proj2 (Z.leb_le _ _)), (proj2 (Z.leb_le _ _)) by lia. done.
Qed.

Lemma graphic_hex l : forallb graphic (hex_encode l) = true.
Proof.
  assert (Hd : forall d, 0 <= d < 16 -> graphic (hex_digit d) = true).
  { intros d Hd. assert (Hin : In d (map Z.of_nat (seq 0 16))).
    { apply in_map_iff. exists (Z.to_nat d). rewrite in_seq. lia. }
    cbn in Hin. repeat destruct Hin as [<-|Hin]; done. }
  induction l as [|b l IH]; [done|]. cbn [hex_encode List.flat_map app forallb]. fold (hex_encode l).
  pose proof (byte_val_bound b). by rewrite !Hd, IH by (Z.to_euclidean_division_equations; lia).
Qed.

Lemma graphic_field (k v : list byte) : graphic_text k -> forallb graphic v = true -> graphic_text (k ++ v).
Proof. intros [Hne Hk] Hv. split; [by destruct k|]. by rewrite forallb_app, Hk. Qed.

Section SeamLineProps.
Context {K : Kem} {KL : KemLaws K}.

(** A field the client does not know. *)
Definition other_field (part : list byte) : Prop :=
  graphic_text part /\ strip_prefix (string_bytes "PORT=") part = None
  /\ strip_prefix (string_bytes "X25519=") part = None /\ strip_prefix (string_bytes "KEM=") part = None.

Lemma set_parts_others parts acc : Forall other_field parts -> set_parts parts acc = inl acc.
Proof.
  induction 1 as [|part parts (_ & H1 & H2 & H3) _ IH]; [done|]. cbn [set_parts]. unfold set_part. destruct acc as [[p x] k].
  by rewrite H1, H2, H3.
Qed.

(** The line by which a remote side announces itself is understood: port, key
    and post-quantum key come back, whatever further fields follow. *)
Theorem seam_line_roundtrip port x25519 (kem : KemPublicKey) (more : list (list byte)) :
  is_u 16 port -> length x25519 = 32%nat -> Forall other_field more ->
  parse_seam_line (join [SPACE] (seam_line port x25519 kem :: more)) = inl (port, x25519, kem).
Proof.
  intros Hp Hx Hm. unfold is_u in Hp.
  set (ws := [string_bytes "SEAM"; string_bytes "PORT=" ++ dec port; string_bytes "X25519=" ++ hex_encode x25519;
              string_bytes "KEM=" ++ hex_encode (pk_to_bytes kem)] ++ more).
  assert (Hj : join [SPACE] (seam_line port x25519 kem :: more) = join [SPACE] ws).
  { assert (Hl : seam_line port x25519 kem = join [SPACE] (take 4 ws)).
    { unfold ws, seam_line. cbn [take app join]. rewrite <- !app_assoc. reflexivity. }
    destruct more as [|m more]; [by rewrite Hl|]. rewrite join_cons by done. rewrite Hl. unfold ws.
    cbn [take app]. rewrite !(join_cons [SPACE]) by done. cbn [join]. by rewrite <- !app_assoc. }
  assert (Hw : Forall graphic_text ws).
  { unfold ws. apply List.Forall_app. split.
    - repeat (apply List.Forall_cons_iff; split); [done|..|constructor];
        apply graphic_field; (done || apply graphic_hex || (apply graphic_dec; lia)).
    - eapply List.Forall_impl; [|exact Hm]. by intros a (? & _). }
  unfold parse_seam_line. rewrite Hj, split_whitespace_words by done. unfold ws. cbn [app drop set_parts].
  assert (H1 : forall acc, set_part (string_bytes "PORT=" ++ dec port) acc = inl (Some port, acc.1.2, acc.2)).
  { intros [[p x] k]. unfold set_part. by rewrite strip_prefix_app, parse_uint_dec by (unfold U16_MAX; lia). }
  assert (H2 : forall acc, set_part (string_bytes "X25519=" ++ hex_encode x25519) acc = inl (acc.1.1, Some x25519, acc.2)).
  { intros [[p x] k]. unfold set_part. change (strip_prefix (string_bytes "PORT=") (string_bytes "X25519=" ++ hex_encode x25519))
      with (@None (list byte)). rewrite strip_prefix_app, hex_decode_encode. unfold to_hash. by rewrite Hx. }
  assert (H3 : forall acc, set_part (string_bytes "KEM=" ++ hex_encode (pk_to_bytes kem)) acc = inl (acc.1.1, acc.1.2, Some kem)).
  { intros [[p x] k]. unfold set_part. change (strip_prefix (string_bytes "PORT=") (string_bytes "KEM=" ++ hex_encode (pk_to_bytes kem)))
      with (@None (list byte)).
    change (strip_prefix (string_bytes "X25519=") (string_bytes "KEM=" ++ hex_encode (pk_to_bytes kem))) with (@None (list byte)).
    rewrite strip_prefix_app, hex_decode_encode.
    by rewrite pk_from_to_bytes. }
  rewrite H1. cbn [fst snd]. rewrite H2. cbn [fst snd]. rewrite H3. cbn [fst snd]. by rewrite set_parts_others.
Qed.

End SeamLineProps.

(** ** Port forwards *)

Lemma dec_no_colon n : 0 <= n -> Forall (fun b => b <> COLON) (dec n).
Proof. intros Hn. eapply List.Forall_impl; [|by apply dec_digits]. intros b Hb ->. vm_compute in Hb. by destruct Hb. Qed.

Lemma rsplit_once_last c x y : Forall (fun b => b <> c) y -> rsplit_once c (x ++ c :: y) = Some (x, y).
Proof.
  intros Hy. unfold rsplit_once. rewrite rev_app_distr. cbn [rev]. rewrite <- app_assoc. cbn [app].
  rewrite (proj2 (split_once_Some c _ (rev y) (rev x))).
  - by rewrite !rev_involutive.
  - split; [done|]. apply List.Forall_forall. intros b Hb%in_rev. rewrite List.Forall_forall in Hy. by apply Hy.
Qed.

(** A forward specification is parsed into its parts for every remote host,
    addresses with colons included. *)
Theorem forward_spec_roundtrip local_port host remote_port :
  is_u 16 local_port -> is_u 16 remote_port -> host <> [] ->
  parse_forward_spec (dec local_port ++ [COLON] ++ host ++ [COLON] ++ dec remote_port) = inl (local_port, host, remote_port).
Proof.
  intros Hl Hr Hh. unfold is_u in *. unfold parse_forward_spec.
  rewrite (proj2 (split_once_Some COLON _ (dec local_port) (host ++ [COLON] ++ dec remote_port))).
  - rewrite parse_uint_dec by (unfold U16_MAX; lia). cbn [app]. rewrite rsplit_once_last by (apply dec_no_colon; lia).
    destruct host as [|b host]; [done|]. by rewrite parse_uint_dec by (unfold U16_MAX; lia).
  - split; [done|]. apply dec_no_colon. lia.
Qed.

Lemma forward_spec_roundtrip_witness :
  parse_forward_spec (string_bytes "8080:::1:80") = inl (8080, string_bytes "::1", 80).
Proof. apply (forward_spec_roundtrip 8080 (string_bytes "::1") 80); (done || unfold is_u; lia). Defined.

(** ** Ports *)

Lemma HdRel_dedup a l : HdRel Z.lt a (dedup l) <-> HdRel Z.lt a l.
Proof.
  induction l as [|b l IH]; [done|]. cbn [dedup]. destruct l as [|c l].
  - done.
  - destruct (Z.eqb_spec b c) as [->|].
    + rewrite IH. split; intros H; inversion H; subst; by constructor.
    + split; intros H; inversion H; subst; by constructor.
Qed.

Lemma dedup_sorted l : Sorted Z.le l -> Sorted Z.lt (dedup l).
Proof.
  induction l as [|a l IH]; intros Hs; [constructor|]. apply Sorted_inv in Hs as [Hs Ha]. cbn [dedup].
  destruct l as [|b l]; [by repeat constructor|]. destruct (Z.eqb_spec a b) as [->|Hne]; [by apply IH|].
  constructor; [by apply IH|]. apply HdRel_dedup. inversion Ha; subst. constructor. lia.
Qed.

Lemma elem_of_dedup x l : x ∈ dedup l <-> x ∈ l.
Proof.
  induction l as [|a l IH]; [done|]. cbn [dedup]. destruct l as [|b l]; [done|]. destruct (Z.eqb_spec a b) as [->|Hne].
  - rewrite IH. rewrite !elem_of_cons. tauto.
  - rewrite !(elem_of_cons _ _ a), IH. done.
Qed.

(** The ports of a list are those of its parts, each once, in increasing order. *)
Theorem parse_ports_spec spec :
  Sorted Z.lt (parse_ports spec) /\ forall p, p ∈ parse_ports spec <-> exists part, part ∈ split COMMA spec /\ p ∈ parse_port_part part.
Proof.
  unfold parse_ports. split.
  - apply dedup_sorted, Sorted_merge_sort. intros x y. lia.
  - intros p. rewrite elem_of_dedup, merge_sort_Permutation, list_elem_of_In, in_concat. split.
    + intros (l & Hl & Hp). apply in_map_iff in Hl as (part & <- & Hpart). exists part. by rewrite !list_elem_of_In.
    + intros (part & Hpart & Hp). exists (parse_port_part part). rewrite ?list_elem_of_In in Hpart; rewrite ?list_elem_of_In in Hp.
      split; [|done]. apply in_map_iff. by exists part.
Qed.

(** A bound that is not a number counts as zero: the range starts at port 0. *)
Lemma port_range_bad_start : parse_ports (string_bytes "http-3") = [0; 1; 2; 3].
Proof. vm_compute. reflexivity. Qed.

(** ** Networks *)

Definition cidr_mask (host_bits : Z) : Z :=
  if 32 <=? host_bits then 0 else Z.land (wrap 64 (Z.shiftl (2 ^ 64 - 1) host_bits)) 0xFFFFFFFF.

Lemma cidr_masks : forallb (fun n => cidr_mask (Z.of_nat n) =? Z.ldiff (Z.ones 32) (Z.ones (Z.of_nat n))) (seq 0 33) = true.
Proof. vm_compute. reflexivity. Qed.

Lemma cidr_network base host_bits : is_u 32 base -> 0 <= host_bits <= 32 ->
  Z.land base (cidr_mask host_bits) = base / 2 ^ host_bits * 2 ^ host_bits.
Proof.
  intros Hb Hh. pose proof cidr_masks as Hm. rewrite forallb_forall in Hm.
  specialize (Hm (Z.to_nat host_bits)). rewrite in_seq, Z2Nat.id in Hm by lia. specialize (Hm ltac:(lia)).
  apply Z.eqb_eq in Hm. rewrite Hm. rewrite <- Z.shiftr_div_pow2, <- Z.shiftl_mul_pow2, <- Z.ldiff_ones_r by lia.
  apply Z.bits_inj'. intros n Hn. rewrite Z.land_spec, !Z.ldiff_spec, andb_assoc. f_equal.
  destruct (Z.testbit base n) eqn:E; [|done]. cbn [andb]. apply Z.ones_spec_low. split; [done|].
  destruct (Z.lt_ge_cases n 32); [done|]. by rewrite (testbit_high 32 base n) in E by (done || lia).
Qed.

(** The hosts of a network are its addresses after the first, in order, cut off
    after the cap: none lies outside the network, whatever the prefix. *)
Theorem cidr_hosts base prefix : is_u 32 base -> is_u 8 prefix ->
  let host_bits := 32 - Z.min prefix 32 in
  let network := base / 2 ^ host_bits * 2 ^ host_bits in
  expand_cidr_v4 base prefix
  = (if host_bits =? 0 then [base] else seqZ (network + 1) (Z.min MAX_CIDR_HOSTS (2 ^ host_bits - 1)))
  /\ Forall (fun a => is_u 32 a /\ a / 2 ^ host_bits = base / 2 ^ host_bits) (expand_cidr_v4 base prefix)
  /\ Z.of_nat (length (expand_cidr_v4 base prefix)) <= MAX_CIDR_HOSTS.
Proof.
  intros Hb Hp host_bits network. unfold is_u in Hp.
  assert (Hh : 0 <= host_bits <= 32) by (unfold host_bits; lia).
  assert (Hpow : 0 < 2 ^ host_bits) by (apply Z.pow_pos_nonneg; lia).
  assert (Hdm := Z.div_mod base (2 ^ host_bits) ltac:(lia)). pose proof (Z.mod_pos_bound base (2 ^ host_bits) Hpow).
  assert (E : expand_cidr_v4 base prefix
    = (if host_bits =? 0 then [base] else seqZ (network + 1) (Z.min MAX_CIDR_HOSTS (2 ^ host_bits - 1)))).
  { unfold expand_cidr_v4. fold host_bits. fold (cidr_mask host_bits). rewrite cidr_network by done. fold network.
    rewrite Z.shiftl_mul_pow2, Z.mul_1_l by lia. destruct (Z.eqb_spec host_bits 0) as [E0|Hne].
    - rewrite (proj2 (Z.ltb_ge 0 host_bits)) by lia. replace (Z.min MAX_CIDR_HOSTS (network - network + 1)) with 1
        by (unfold MAX_CIDR_HOSTS; lia). unfold network. rewrite E0, Z.pow_0_r, Z.div_1_r, Z.mul_1_r. done.
    - rewrite (proj2 (Z.ltb_lt 0 host_bits)) by lia. f_equal. f_equal. lia. }
  split; [done|]. rewrite E. clear E. destruct (Z.eqb_spec host_bits 0) as [E0|Hne].
  - split; [|cbn; unfold MAX_CIDR_HOSTS; lia]. constructor; [done|constructor].
  - split; [|rewrite length_seqZ; unfold MAX_CIDR_HOSTS; lia]. apply List.Forall_forall. intros a Ha%list_elem_of_In%elem_of_seqZ.
    assert (Hq : a / 2 ^ host_bits = base / 2 ^ host_bits).
    { symmetry. apply (Z.div_unique _ _ _ (a - network)); unfold network in *; lia. }
    split; [|done]. unfold is_u in *.
    assert (Htop : base / 2 ^ host_bits < 2 ^ (32 - host_bits)).
    { apply Z.div_lt_upper_bound; [lia|]. rewrite <- Z.pow_add_r by lia. replace (host_bits + (32 - host_bits)) with 32 by lia. lia. }
    assert (Hmul : 2 ^ host_bits * 2 ^ (32 - host_bits) = 2 ^ 32).
    { rewrite <- Z.pow_add_r by lia. f_equal. lia. }
    pose proof (Z.div_pos base (2 ^ host_bits) ltac:(lia) Hpow). unfold network in Ha. nia.
Qed.

Lemma cidr_hosts_witness :
  expand_cidr_v4 3232235777 30 = [3232235777; 3232235778; 3232235779]
  /\ Forall (fun a => is_u 32 a /\ a / 2 ^ 2 = 3232235777 / 2 ^ 2) (expand_cidr_v4 3232235777 30).
Proof.
  destruct (cidr_hosts 3232235777 30) as (H1 & H2 & _); [unfold is_u; lia..|]. split; [exact H1|exact H2].
Defined.

(** ** Tokens *)

Lemma lxor_zero a b : Z.lxor a b = 0 <-> a = b.
Proof. split; [apply Z.lxor_eq|intros ->; apply Z.lxor_nilpotent]. Qed.

(** The constant-time comparison is equality. *)
Theorem constant_time_eq_spec a b : constant_time_eq a b = bytes_eqb a b.
Proof.
  unfold constant_time_eq. destruct (Nat.eqb_spec (length a) (length b)) as [Hl|Hl]; cbn [negb].
  - assert (Hg : forall acc, 0 <= acc ->
      (fold_left (fun diff p => Z.lor diff (Z.lxor (byte_val p.1) (byte_val p.2))) (combine a b) acc =? 0)
      = (acc =? 0) && bytes_eqb a b).
    { revert b Hl. induction a as [|x a IH]; intros [|y b] Hl acc Hacc; try done; cbn [combine fold_left bytes_eqb].
      - by rewrite andb_true_r.
      - pose proof (byte_val_bound x). pose proof (byte_val_bound y).
        rewrite IH; [|by injection Hl|apply Z.lor_nonneg; split; [done|apply Z.lxor_nonneg; cbn [fst snd]; lia]].
        assert (E : (Z.lor acc (Z.lxor (byte_val x) (byte_val y)) =? 0) = (acc =? 0) && (byte_val x =? byte_val y)).
        { apply eq_true_iff_eq. by rewrite andb_true_iff, !Z.eqb_eq, Z.lor_eq_0_iff, lxor_zero. }
        cbn [fst snd]. rewrite E. by rewrite andb_assoc. }
    rewrite Hg by lia. done.
  - symmetry. apply not_true_is_false. rewrite bytes_eqb_eq. by intros ->.
Qed.

(** ** Durations *)

Lemma strip_suffix_last c d l : strip_suffix [c] (l ++ [d]) = if Byte.eqb c d then Some l else None.
Proof.
  unfold strip_suffix. rewrite rev_app_distr. cbn [rev app strip_prefix]. destruct (Byte.eqb c d); [|done].
  cbn. by rewrite rev_involutive.
Qed.

(** A printed duration is read back as the duration rounded down to the unit it
    is printed in. *)
Theorem duration_roundtrip secs : is_u 64 secs ->
  exists unit, unit ∈ [1; 60; 3600; 86400] /\ parse_duration (format_duration secs) = inl (secs / unit * unit).
Proof.
  intros Hs. unfold is_u in Hs.
  assert (Hp : forall unit, 0 < unit -> parse_uint U64_MAX (dec (secs / unit)) = Some (secs / unit)
                            /\ wrapping_mul 64 (secs / unit) unit = secs / unit * unit).
  { intros unit Hu. pose proof (Z.div_pos secs unit ltac:(lia) Hu).
    assert (secs / unit <= secs) by (apply Z.div_le_upper_bound; nia). pose proof (Z.mul_div_le secs unit Hu) as Hm.
    rewrite Z.mul_comm in Hm. pose proof (Z.mul_nonneg_nonneg (secs / unit) unit).
    split; [apply parse_uint_dec; unfold U64_MAX; lia|]. unfold wrapping_mul. apply wrap_small. unfold is_u. lia. }
  unfold parse_duration, format_duration, DURATION_UNITS.
  destruct (secs <? 60); [exists 1|destruct (secs <? 3600); [exists 60|destruct (secs <? 86400); [exists 3600|exists 86400]]];
    (split; [rewrite !elem_of_cons; tauto|]); cbn [parse_suffixed]; rewrite !strip_suffix_last.
  - change (Byte.eqb x73 x73) with true. cbn iota. destruct (Hp 1 ltac:(lia)) as [H1 H2]. rewrite Z.div_1_r in *.
    by rewrite H1, H2.
  - change (Byte.eqb x73 x6d) with false. change (Byte.eqb x6d x6d) with true. cbn iota.
    destruct (Hp 60 ltac:(lia)) as [-> ->]. done.
  - change (Byte.eqb x73 x68) with false. change (Byte.eqb x6d x68) with false. change (Byte.eqb x68 x68) with true. cbn iota.
    destruct (Hp 3600 ltac:(lia)) as [-> ->]. done.
  - change (Byte.eqb x73 x64) with false. change (Byte.eqb x6d x64) with false. change (Byte.eqb x68 x64) with false.
    change (Byte.eqb x64 x64) with true. cbn iota. destruct (Hp 86400 ltac:(lia)) as [-> ->]. done.
Qed.

Lemma duration_roundtrip_witness :
  exists unit, unit ∈ [1; 60; 3600; 86400] /\ parse_duration (format_duration 7261) = inl (7261 / unit * unit).
Proof. apply duration_roundtrip. unfold is_u. lia. Defined.

(** The multiplication by the unit is unchecked: half a trillion years is 44
    seconds. *)
Lemma duration_overflow : parse_duration (string_bytes "307445734561825861m") = inl 44.
Proof. vm_compute. reflexivity. Qed.

(** ** Modes *)

(** The directory test looks at one bit of the file type: sockets and block devices
    are shown as directories. *)
Lemma mode_socket_is_directory : mode_to_str 0xC1ED = string_bytes "drwxr-xr-x" /\ mode_to_str 0x61B0 = string_bytes "drw-rw----".
Proof. split; vm_compute; reflexivity. Qed.

(** ** A witness for the SEAM line *)

Lemma seam_line_roundtrip_witness :
  parse_seam_line (join [SPACE] [seam_line 7000 (repeat x07 32) (kem_public (kem_from_seed [])); string_bytes "TCP=80"])
  = inl (7000, repeat x07 32, kem_public (kem_from_seed [])).
Proof.
  apply (seam_line_roundtrip 7000 (repeat x07 32) (kem_public (kem_from_seed [])) [string_bytes "TCP=80"]).
  - unfold is_u. lia.
  - reflexivity.
  - constructor; [|constructor]. split; [split; [done|reflexivity]|done].
Defined.
