(* ===== verification/Config.v ===== *)
(** * The user's configuration

    src/src/bin/seam/config.rs: the record of settings, the file it is kept in, and
    [seam config get/set/init].  TOML is an interface; a printed value is the
    list of its lines. *)

From Stdlib Require Import ZArith Lia Bool List String.
From Stdlib Require Import Strings.Byte.
From coqutil Require Import Datatypes.RecordSetters.
From stdpp Require Import base list numbers option countable.
From S2P Require Import Prelude TestCrypto Identity Net Text Multipath Proc.

Import TriangleBracketNotations.

Open Scope Z_scope.

Record Config : Type := mkConfig {
  cf_cc : list byte;
  cf_compress : bool;
  cf_identity : option (list byte);
  cf_cipher : list byte;
  cf_max_connections : Z;                   (* usize *)
  cf_listen_port : Z;                       (* u16 *)
  cf_fec_k : option Z;                      (* u8 *)
  cf_fec_r : option Z;                      (* u8 *)
  cf_fips_mode : bool;
  cf_relays : list (list byte);
  cf_traffic_padding : option bool;
  cf_cover_traffic_kbps : Z;                (* u32 *)
  cf_timing_jitter_ms : Z;                  (* u32 *)
  cf_obfuscate : bool;
  cf_multipath_addrs : list byte;
  cf_multipath_mode : list byte;
  cf_ratchet_epoch_packets : Z;             (* u64 *)
  cf_ratchet_epoch_seconds : Z;             (* u64 *)
  cf_stun_server : option (list byte);
  cf_connection_migration : bool;
  cf_max_bandwidth : option (list byte)
}.

Definition Config_default : Config :=
  {| cf_cc := string_bytes "cubic"; cf_compress := true; cf_identity := None; cf_cipher := string_bytes "chacha20poly1305";
     cf_max_connections := 1024; cf_listen_port := 0; cf_fec_k := None; cf_fec_r := None; cf_fips_mode := false;
     cf_relays := []; cf_traffic_padding := None; cf_cover_traffic_kbps := 0; cf_timing_jitter_ms := 0;
     cf_obfuscate := false; cf_multipath_addrs := []; cf_multipath_mode := string_bytes "round-robin";
     cf_ratchet_epoch_packets := 1000; cf_ratchet_epoch_seconds := 30; cf_stun_server := None;
     cf_connection_migration := true; cf_max_bandwidth := None |}.

(** ** Effective values *)

(** [env] is the variable SEAM_FIPS_MODE, if it is set. *)
Definition effective_fips_mode (env : option (list byte)) (config_fips cli_fips : bool) : bool :=
  cli_fips
  || match env with
     | Some v => bytes_eqb v (string_bytes "1") || bytes_eqb (to_ascii_lowercase v) (string_bytes "true")
     | None => false
     end
  || config_fips.

Definition effective_traffic_padding (c : Config) (fips_active : bool) : bool :=
  match cf_traffic_padding c with Some v => v | None => fips_active end.

(** ** Keys *)

Inductive Key : Type :=
  | KCc | KCompress | KIdentity | KCipher | KMaxConnections | KListenPort | KFecK | KFecR | KFipsMode | KRelays
  | KTrafficPadding | KCoverTrafficKbps | KTimingJitterMs | KObfuscate | KMultipathAddrs | KMultipathMode
  | KRatchetEpochPackets | KRatchetEpochSeconds.

Definition key_names : list (string * Key) :=
  [("cc", KCc); ("compress", KCompress); ("identity", KIdentity); ("cipher", KCipher);
   ("max_connections", KMaxConnections); ("listen_port", KListenPort); ("fec_k", KFecK); ("fec_r", KFecR);
   ("fips_mode", KFipsMode); ("relays", KRelays); ("traffic_padding", KTrafficPadding);
   ("cover_traffic_kbps", KCoverTrafficKbps); ("timing_jitter_ms", KTimingJitterMs); ("obfuscate", KObfuscate);
   ("multipath_addrs", KMultipathAddrs); ("multipath_mode", KMultipathMode);
   ("ratchet_epoch_packets", KRatchetEpochPackets); ("ratchet_epoch_seconds", KRatchetEpochSeconds)]%string.

Definition key_of (name : list byte) : option Key :=
  snd <$> List.find (fun p => bytes_eqb (string_bytes p.1) name) key_names.

(** ** Values as text *)

Definition show_bool (b : bool) : list byte := string_bytes (if b then "true" else "false").

Definition parse_bool (v : list byte) : option bool :=
  if bytes_eqb v (string_bytes "true") then Some true
  else if bytes_eqb v (string_bytes "false") then Some false else None.

Definition is_text (v : list byte) (s : string) : bool := bytes_eqb v (string_bytes s).

Section Code.
(** Where the identity is kept when the configuration does not say. *)
Context (default_identity : list byte).

Definition identity_path (c : Config) : list byte := default default_identity (cf_identity c).

Definition get_key (k : Key) (c : Config) : list (list byte) :=
  match k with
  | KCc => [cf_cc c]
  | KCompress => [show_bool (cf_compress c)]
  | KIdentity => [identity_path c]
  | KCipher => [cf_cipher c]
  | KMaxConnections => [dec (cf_max_connections c)]
  | KListenPort => [dec (cf_listen_port c)]
  | KFecK => [match cf_fec_k c with Some v => dec v | None => string_bytes "auto" end]
  | KFecR => [match cf_fec_r c with Some v => dec v | None => string_bytes "auto" end]
  | KFipsMode => [show_bool (cf_fips_mode c)]
  | KRelays => cf_relays c
  | KTrafficPadding => [match cf_traffic_padding c with Some v => show_bool v | None => string_bytes "auto" end]
  | KCoverTrafficKbps => [dec (cf_cover_traffic_kbps c)]
  | KTimingJitterMs => [dec (cf_timing_jitter_ms c)]
  | KObfuscate => [show_bool (cf_obfuscate c)]
  | KMultipathAddrs => [cf_multipath_addrs c]
  | KMultipathMode => [cf_multipath_mode c]
  | KRatchetEpochPackets => [dec (cf_ratchet_epoch_packets c)]
  | KRatchetEpochSeconds => [dec (cf_ratchet_epoch_seconds c)]
  end.

End Code.

(** ** Setting *)

Definition ok_or_msg {A} (msg : string) (o : option A) : A + string := match o with Some a => inl a | None => inr msg end.

Definition check (ok : bool) (msg : string) : unit + string := if ok then inl tt else inr msg.

#[local] Notation "'let!' x := a 'in' b" := (match a with inl x => b | inr e => inr e end)
  (at level 10, x name, a at level 100, b at level 200).

Definition set_key (k : Key) (value : list byte) (c : Config) : Config + string :=
  match k with
  | KCc =>
      let! _ := check (is_text value "cubic" || is_text value "bbr") "cc must be 'cubic' or 'bbr'" in
      inl (c <| cf_cc := value |>)
  | KCompress =>
      let! b := ok_or_msg "compress must be true or false" (parse_bool value) in
      inl (c <| cf_compress := b |>)
  | KIdentity => inl (c <| cf_identity := Some value |>)
  | KCipher =>
      let! _ := check (is_text value "chacha20poly1305" || is_text value "aes256gcm")
                      "cipher must be 'chacha20poly1305' or 'aes256gcm'" in
      inl (c <| cf_cipher := value |>)
  | KMaxConnections =>
      let! n := ok_or_msg "max_connections must be a positive integer" (parse_uint U64_MAX value) in
      let! _ := check (negb (n =? 0)) "max_connections must be at least 1" in
      inl (c <| cf_max_connections := n |>)
  | KListenPort =>
      let! p := ok_or_msg "listen_port must be 0-65535" (parse_uint U16_MAX value) in
      inl (c <| cf_listen_port := p |>)
  | KFecK =>
      if is_text value "0" then inl (c <| cf_fec_k := Some 0 |>)
      else if is_text value "auto" then inl (c <| cf_fec_k := None |>)
      else
        let! n := ok_or_msg "fec_k must be 0-255 or 'auto'" (parse_uint U8_MAX value) in
        let! _ := check (negb (n =? 1)) "fec_k must be 0 (disabled/auto) or >= 2" in
        inl (c <| cf_fec_k := Some n |>)
  | KFecR =>
      if is_text value "auto" then inl (c <| cf_fec_r := None |>)
      else
        let! n := ok_or_msg "fec_r must be 1-255 or 'auto'" (parse_uint U8_MAX value) in
        let! _ := check (negb (n =? 0)) "fec_r must be >= 1 when set (or use 'auto')" in
        inl (c <| cf_fec_r := Some n |>)
  | KFipsMode =>
      let! b := ok_or_msg "fips_mode must be true or false" (parse_bool value) in
      inl (c <| cf_fips_mode := b |>)
  | KRelays =>
      match trim value with
      | [] => inl (c <| cf_relays := [] |>)
      | _ => inl (c <| cf_relays := List.filter (fun s => negb (bytes_eqb s [])) (map trim (split x2c value)) |>)
      end
  | KTrafficPadding =>
      if is_text value "auto" then inl (c <| cf_traffic_padding := None |>)
      else
        let! b := ok_or_msg "traffic_padding must be true, false, or auto" (parse_bool value) in
        inl (c <| cf_traffic_padding := Some b |>)
  | KCoverTrafficKbps =>
      let! n := ok_or_msg "cover_traffic_kbps must be an integer" (parse_uint U32_MAX value) in
      inl (c <| cf_cover_traffic_kbps := n |>)
  | KTimingJitterMs =>
      let! n := ok_or_msg "timing_jitter_ms must be an integer" (parse_uint U32_MAX value) in
      let! _ := check (n <=? 5000) "timing_jitter_ms must be at most 5000 ms" in
      inl (c <| cf_timing_jitter_ms := n |>)
  | KObfuscate =>
      let! b := ok_or_msg "obfuscate must be true or false" (parse_bool value) in
      inl (c <| cf_obfuscate := b |>)
  | KMultipathAddrs => inl (c <| cf_multipath_addrs := value |>)
  | KMultipathMode =>
      let! _ := ok_or_msg "multipath_mode must be one of: round-robin, min-latency, redundant, weighted"
                          (PathScheduler_parse value) in
      inl (c <| cf_multipath_mode := value |>)
  | KRatchetEpochPackets =>
      let! n := ok_or_msg "ratchet_epoch_packets must be a positive integer" (parse_uint U64_MAX value) in
      let! _ := check (negb (n =? 0)) "ratchet_epoch_packets must be >= 1" in
      inl (c <| cf_ratchet_epoch_packets := n |>)
  | KRatchetEpochSeconds =>
      let! n := ok_or_msg "ratchet_epoch_seconds must be a positive integer" (parse_uint U64_MAX value) in
      let! _ := check (negb (n =? 0)) "ratchet_epoch_seconds must be >= 1" in
      inl (c <| cf_ratchet_epoch_seconds := n |>)
  end.

(** ** The file *)

(** [toml::to_string_pretty] and [toml::from_str] at the type of the record. *)
Class Toml : Type := {
  toml_to_string : Config -> list byte;
  toml_from_str : list byte -> option Config
}.

Class TomlLaws (T : Toml) : Prop := { toml_round c : toml_from_str (toml_to_string c) = Some c }.

Section File.
Context {T : Toml} (default_identity : list byte).

(** The file's text, [None] when there is none. *)
Definition load (file : option (list byte)) : Config + string :=
  match file with
  | None => inl Config_default
  | Some text => ok_or_msg "parse config" (toml_from_str text)
  end.

Definition save (c : Config) : option (list byte) := Some (toml_to_string c).

Definition get (name : list byte) (file : option (list byte)) : list (list byte) + string :=
  let! c := load file in
  let! k := ok_or_msg "unknown config key" (key_of name) in
  inl (get_key default_identity k c).

(** The new file, when the value was set. *)
Definition set (name value : list byte) (file : option (list byte)) : option (list byte) + string :=
  let! c := load file in
  let! k := ok_or_msg "unknown config key" (key_of name) in
  let! c := set_key k value c in
  inl (save c).

Definition init (file : option (list byte)) : option (list byte) :=
  match file with Some _ => file | None => save Config_default end.

End File.

(** * Properties *)

(** What [set] lets through. *)
Definition config_valid (c : Config) : Prop :=
  (is_text (cf_cc c) "cubic" || is_text (cf_cc c) "bbr") = true
  /\ (is_text (cf_cipher c) "chacha20poly1305" || is_text (cf_cipher c) "aes256gcm") = true
  /\ 1 <= cf_max_connections c <= U64_MAX /\ 0 <= cf_listen_port c <= U16_MAX
  /\ (forall n, cf_fec_k c = Some n -> 0 <= n <= U8_MAX /\ n <> 1)
  /\ (forall n, cf_fec_r c = Some n -> 1 <= n <= U8_MAX)
  /\ 0 <= cf_cover_traffic_kbps c <= U32_MAX /\ 0 <= cf_timing_jitter_ms c <= 5000
  /\ PathScheduler_parse (cf_multipath_mode c) <> None
  /\ 1 <= cf_ratchet_epoch_packets c <= U64_MAX /\ 1 <= cf_ratchet_epoch_seconds c <= U64_MAX.

Lemma parse_digits_bound max l : forall acc n, 0 <= acc <= max -> parse_digits max acc l = Some n -> 0 <= n <= max.
Proof.
  induction l as [|b l IH]; intros acc n Ha Hp; cbn in Hp; [by injection Hp as <-|].
  destruct (digit_val b) as [d|] eqn:Ed; [|done]. destruct (Z.ltb_spec max (acc * 10 + d)); [done|].
  apply IH in Hp; [done|]. unfold digit_val in Ed. destruct ((48 <=? byte_val b) && (byte_val b <=? 57)) eqn:E; [|done].
  apply andb_true_iff in E as [E1%Z.leb_le E2%Z.leb_le]. injection Ed as <-. lia.
Qed.

Lemma parse_uint_bound max v n : 0 <= max -> parse_uint max v = Some n -> 0 <= n <= max.
Proof.
  intros Hm. unfold parse_uint. destruct v as [|b v]; [done|].
  destruct (Byte.eqb b x2b); [destruct v; [done|]|]; apply parse_digits_bound; lia.
Qed.

(** Opens a successful [set_key]. *)
Ltac set_inv H :=
  repeat match type of H with
         | context [match ok_or_msg _ ?o with _ => _ end] =>
             let E := fresh "E" in destruct o eqn:E; cbn [ok_or_msg] in H; [|discriminate H]
         | context [match check ?b _ with _ => _ end] =>
             let E := fresh "E" in destruct b eqn:E; cbn [check] in H; [|discriminate H]
         | context [if ?b then _ else _] => let E := fresh "E" in destruct b eqn:E
         | context [match trim ?v with _ => _ end] => destruct (trim v) eqn:?
         end; injection H as <-.

Lemma Config_default_valid : config_valid Config_default.
Proof. unfold config_valid, U64_MAX, U16_MAX, U32_MAX. cbn. split_and!; (done || lia). Qed.

Lemma set_key_valid k v c c' : config_valid c -> set_key k v c = inl c' -> config_valid c'.
Proof.
  intros (H1 & H2 & H3 & H4 & H5 & H6 & H7 & H8 & H9 & H10 & H11) Hs.
  destruct c; destruct k; cbn [set_key] in Hs; set_inv Hs; unfold config_valid; cbn in *; unfold constant;
    repeat match goal with E : parse_uint ?m _ = Some _ |- _ => apply parse_uint_bound in E; [|unfold U64_MAX, U32_MAX, U16_MAX, U8_MAX; lia] end;
    repeat match goal with E : negb _ = true |- _ => apply negb_true_iff, Z.eqb_neq in E end;
    repeat match goal with E : (_ <=? _) = true |- _ => apply Z.leb_le in E end;
    split_and!; try done; try lia; try congruence; try (intros ? [= <-]; split_and?; (done || lia)).
Qed.

Section FileProps.
Context {T : Toml} {TL : TomlLaws T} (default_identity : list byte).

(** The commands that write the file. *)
Inductive ConfigOp : Type := CSet (name value : list byte) | CInit.

(** A failed [set] leaves the file alone. *)
Definition config_exec (op : ConfigOp) (file : option (list byte)) : option (list byte) :=
  match op with
  | CSet name value => match set name value file with inl file => file | inr _ => file end
  | CInit => init file
  end.

Definition file_valid (file : option (list byte)) : Prop := exists c, load file = inl c /\ config_valid c.

Lemma load_save c : load (save c) = inl c.
Proof. unfold load, save. cbn. by rewrite toml_round. Qed.

Lemma set_inv_file name v file file' : set name v file = inl file' ->
  exists c k c', load file = inl c /\ key_of name = Some k /\ set_key k v c = inl c' /\ file' = save c'.
Proof.
  unfold set. destruct (load file) as [c|]; [|done]. destruct (key_of name) as [k|] eqn:Ek; [|done]. cbn [ok_or_msg].
  destruct (set_key k v c) as [c'|] eqn:Es; [|done]. intros [= <-]. by exists c, k, c'.
Qed.

(** C29: The commands never write a bad configuration: whatever sequence of [set] and
    [init] runs, with whatever names and values, the file loads and holds only
    values in their ranges. *)
Theorem config_stays_valid ops file : file_valid file -> file_valid (fold_left (fun f op => config_exec op f) ops file).
Proof.
  revert file. induction ops as [|op ops IH]; intros file Hf; [done|]. cbn [fold_left]. apply IH. destruct op as [name v|]; cbn.
  - destruct (set name v file) as [file'|] eqn:E; [|done]. apply set_inv_file in E as (c & k & c' & Hl & _ & Hs & ->).
    destruct Hf as (c0 & Hl0 & Hv). rewrite Hl in Hl0. injection Hl0 as <-. exists c'. split; [apply load_save|].
    by eapply set_key_valid.
  - destruct file as [text|]; [done|]. exists Config_default. split; [apply load_save|apply Config_default_valid].
Qed.

Lemma dec_text n max s : 0 <= n <= max -> max <= U64_MAX -> is_text (dec n) s = true -> parse_uint max (string_bytes s) = Some n.
Proof.
  intros Hn Hm H. apply bytes_eqb_eq in H. rewrite <- H. apply parse_uint_dec; [done|]. unfold U64_MAX in Hm. lia.
Qed.

Lemma show_parse_bool b : parse_bool (show_bool b) = Some b.
Proof. by destruct b. Qed.

(** Setting what is printed has the effect of what was set. *)
Lemma set_key_print k v c c' : k <> KRelays -> set_key k v c = inl c' ->
  exists w, get_key default_identity k c' = [w] /\ set_key k w c = inl c'.
Proof.
  intros Hk Hs.
  assert (Hnum : forall max n, parse_uint max v = Some n -> 0 <= max <= U64_MAX -> parse_uint max (dec n) = Some n).
  { intros max n Hp Hm. apply parse_uint_bound in Hp; [|lia]. apply parse_uint_dec; unfold U64_MAX in *; lia. }
  assert (Hfec : forall n s, parse_uint U8_MAX v = Some n -> is_text (dec n) s = true -> parse_uint U8_MAX (string_bytes s) = Some n).
  { intros n s Hp. apply dec_text; [|done]. by eapply parse_uint_bound. }
  destruct k; try done; cbn [set_key] in Hs; set_inv Hs.
  - exists v. cbn [set_key]. by rewrite E.
  - exists (show_bool b). cbn [set_key]. by rewrite show_parse_bool.
  - by exists v.
  - exists v. cbn [set_key]. by rewrite E.
  - exists (dec z). cbn [set_key]. rewrite (Hnum _ _ E) by done. cbn [ok_or_msg]. by rewrite E0.
  - exists (dec z). cbn [set_key]. by rewrite (Hnum _ _ E).
  - exists (dec 0). done.
  - exists (string_bytes "auto"). done.
  - exists (dec z). cbn [set_key]. split; [done|].
    destruct (is_text (dec z) "0") eqn:E3; [apply (Hfec z) in E3; [by injection E3 as <-|done]|].
    destruct (is_text (dec z) "auto") eqn:E4; [by apply (Hfec z) in E4|].
    rewrite (Hnum _ _ E1) by done. cbn [ok_or_msg]. by rewrite E2.
  - exists (string_bytes "auto"). done.
  - exists (dec z). cbn [set_key]. split; [done|].
    destruct (is_text (dec z) "auto") eqn:E4; [by apply (Hfec z) in E4|].
    rewrite (Hnum _ _ E0) by done. cbn [ok_or_msg]. by rewrite E1.
  - exists (show_bool b). cbn [set_key]. by rewrite show_parse_bool.
  - exists (string_bytes "auto"). done.
  - exists (show_bool b). cbn [set_key]. rewrite show_parse_bool. by destruct b.
  - exists (dec z). cbn [set_key]. by rewrite (Hnum _ _ E).
  - exists (dec z). cbn [set_key]. rewrite (Hnum _ _ E) by done. cbn [ok_or_msg]. by rewrite E0.
  - exists (show_bool b). cbn [set_key]. by rewrite show_parse_bool.
  - by exists v.
  - exists v. cbn [set_key]. by rewrite E.
  - exists (dec z). cbn [set_key]. rewrite (Hnum _ _ E) by done. cbn [ok_or_msg]. by rewrite E0.
  - exists (dec z). cbn [set_key]. rewrite (Hnum _ _ E) by done. cbn [ok_or_msg]. by rewrite E0.
Qed.

Lemma set_key_frame k v c c' k' : set_key k v c = inl c' -> k' <> k ->
  get_key default_identity k' c' = get_key default_identity k' c.
Proof.
  intros Hs Hk. destruct k; cbn [set_key] in Hs; set_inv Hs; destruct c, k'; try done.
Qed.

(** [set] then [get]: what [get] prints after a successful [set] is a value with
    the same effect, and no other key is affected. *)
Theorem config_set_get name v file file' : set name v file = inl file' ->
  (key_of name <> Some KRelays ->
     exists w, get default_identity name file' = inl [w] /\ set name w file = inl file')
  /\ forall other, key_of other <> key_of name -> get default_identity other file' = get default_identity other file.
Proof.
  intros Hs. assert (Hs' := Hs). apply set_inv_file in Hs' as (c & k & c' & Hl & Hk & Hset & ->). split.
  - intros Hr. assert (Hne : k <> KRelays) by (intros ->; done).
    destruct (set_key_print k v c c' Hne Hset) as (w & Hg & Hw). exists w. unfold get, set.
    rewrite load_save, Hl, Hk. cbn [ok_or_msg]. by rewrite Hg, Hw.
  - intros other Ho. unfold get. rewrite load_save, Hl. destruct (key_of other) as [k'|]; [|done]. cbn [ok_or_msg]. f_equal.
    apply (set_key_frame k v c c' k' Hset). intros ->. congruence.
Qed.

End FileProps.

(** ** Witnesses *)

(** A file format: the configuration as a number, in binary. *)
Definition config_tuple (c : Config) :=
  (cf_cc c, cf_compress c, cf_identity c, cf_cipher c, cf_max_connections c, cf_listen_port c, cf_fec_k c, cf_fec_r c,
   cf_fips_mode c, cf_relays c, (cf_traffic_padding c, cf_cover_traffic_kbps c, cf_timing_jitter_ms c, cf_obfuscate c,
   cf_multipath_addrs c, cf_multipath_mode c, cf_ratchet_epoch_packets c, cf_ratchet_epoch_seconds c, cf_stun_server c,
   cf_connection_migration c, cf_max_bandwidth c)).

Definition tuple_config t : Config :=
  let '(a, b, c, d, e, f, g, h, i, j, (k, l, m, n, o, p, q, r, s, u, v)) := t in
  mkConfig a b c d e f g h i j k l m n o p q r s u v.

Fixpoint pos_bytes (p : positive) : list byte :=
  match p with xH => [] | xO p => x00 :: pos_bytes p | xI p => x01 :: pos_bytes p end.

Fixpoint bytes_pos (l : list byte) : positive :=
  match l with [] => xH | b :: l => if Byte.eqb b x00 then xO (bytes_pos l) else xI (bytes_pos l) end.

Lemma bytes_pos_bytes p : bytes_pos (pos_bytes p) = p.
Proof. induction p as [p IH|p IH|]; cbn; by rewrite ?IH. Qed.

#[export] Instance test_toml : Toml := {|
  toml_to_string c := pos_bytes (encode (config_tuple c));
  toml_from_str l := tuple_config <$> decode (bytes_pos l)
|}.

#[export] Instance test_toml_laws : TomlLaws test_toml.
Proof.
  constructor. intros c. cbn [toml_to_string toml_from_str test_toml]. rewrite bytes_pos_bytes, decode_encode. by destruct c.
Defined.

Lemma config_stays_valid_witness :
  file_valid (fold_left (fun f op => config_exec op f)
                [CSet (string_bytes "fec_k") (string_bytes "1"); CSet (string_bytes "cc") (string_bytes "bbr")] None).
Proof. apply config_stays_valid. exists Config_default. split; [done|apply Config_default_valid]. Defined.

Lemma config_set_get_witness :
  exists file', set (string_bytes "listen_port") (string_bytes "+07") None = inl file'
    /\ exists w, get [] (string_bytes "listen_port") file' = inl [w] /\ set (string_bytes "listen_port") w None = inl file'.
Proof.
  eexists. split; [reflexivity|].
  apply (config_set_get [] (string_bytes "listen_port") (string_bytes "+07") None _ eq_refl). discriminate.
Defined.
