(* ===== verification/Tui.v ===== *)
(** * The interactive interface

    src/src/bin/seam/tui.rs: the state of the screen, its line editor, the
    navigation, the actions and the key loop.  A text is its UTF-8 bytes, a cursor
    a byte offset; an operation that panics on an offset inside a character is
    [None].  Drawing is represented where it slices text. *)

From Stdlib Require Import ZArith Lia Bool List String.
From Stdlib Require Import Strings.Byte.
From coqutil Require Import Datatypes.RecordSetters.
From stdpp Require Import base list numbers option sorting.
From S2P Require Import Prelude TestCrypto Identity Net Text Json.
Import TriangleBracketNotations.

Open Scope Z_scope.

(** ** Actions *)

Inductive Action : Type :=
  | Shell | Forward | Tunnel | Fwd | Copy | Sync | Ping | Proxy | Scan | Share | Watch | Punch | Route | Mount.

#[export] Instance Action_eq_dec : EqDecision Action.
Proof. solve_decision. Defined.

Definition ALL : list Action :=
  [Shell; Forward; Tunnel; Fwd; Copy; Sync; Ping; Proxy; Scan; Share; Watch; Punch; Route; Mount].

(** The actions shown without the extra ones. *)
Definition BASIC : nat := 9.

Definition shortcut (a : Action) : byte :=
  match a with
  | Shell => x31 | Forward => x32 | Tunnel => x33 | Fwd => x34 | Copy => x35 | Sync => x36 | Ping => x37 | Proxy => x38
  | Scan => x39 | Share => x30 | Watch => x77 | Punch => x70 | Route => x72 | Mount => x6d
  end.

Definition param_label (a : Action) (pull : bool) : option string :=
  match a with
  | Copy | Sync => Some (if pull then "Path (remote, pulling)" else "Path (local, pushing)")%string
  | Forward => Some "Spec"%string
  | Tunnel => Some "Ports"%string
  | Fwd => Some "Spec"%string
  | Proxy => Some "Local port"%string
  | Scan => Some "Ports"%string
  | Share => Some "File/dir"%string
  | Watch => Some "Local path"%string
  | Route => Some "Via hops"%string
  | Mount => Some "Mountpoint"%string
  | Shell | Ping | Punch => None
  end.

Definition param_placeholder (a : Action) (pull : bool) : string :=
  match a with
  | Copy => if pull then "/remote/file.txt" else "./file.txt"
  | Sync => if pull then "/remote/file.txt" else "./mydir"
  | Forward => "8080:localhost:80"
  | Tunnel => "8080 8443"
  | Fwd => "3000:8080"
  | Proxy => "1080"
  | Scan => "22,80,443"
  | Share => "./file.txt"
  | Watch => "./mydir"
  | Route => "--via relay1.example.com"
  | Mount => "/mnt/remote"
  | Shell | Ping | Punch => ""
  end.

Definition needs_param (a : Action) : bool := match param_label a false with Some _ => true | None => false end.

Definition supports_direction (a : Action) : bool := match a with Copy | Sync => true | _ => false end.

Definition is_empty (l : list byte) : bool := match l with [] => true | _ => false end.

Definition word (s : string) : list byte := string_bytes s.

(** The command line of an action. *)
Definition to_args (a : Action) (host param : list byte) (pull : bool) : list (list byte) :=
  let host := trim host in
  let param := trim param in
  match a with
  | Shell => [word "shell"; host]
  | Forward => [word "forward"; param; host]
  | Tunnel => [word "tunnel"] ++ split_whitespace param ++ [host]
  | Fwd =>
      let '(rp, lp) := match splitn 2 COLON param with
                       | [rp; lp] => (rp, default 8080 (parse_uint U16_MAX lp))
                       | _ => (param, 8080)
                       end in
      [word "fwd"; host ++ [COLON] ++ rp; dec lp]
  | Copy => if pull then [word "cp"; host ++ [COLON] ++ param; word "."] else [word "cp"; param; host ++ [COLON]]
  | Sync => if pull then [word "sync"; host ++ [COLON] ++ param; word "."] else [word "sync"; param; host ++ [COLON]]
  | Ping => [word "ping"; host]
  | Proxy => [word "proxy"; host; word "--port"; if is_empty param then word "1080" else param]
  | Scan => [word "scan"; host] ++ (if is_empty param then [] else [word "--ports"; param])
  | Share => [word "share"] ++ (if is_empty param then [] else [param])
  | Watch => if is_empty param then [word "watch"; host] else [word "watch"; param; host ++ [COLON]]
  | Punch => [word "punch"; word "--peer"; host]
  | Route => [word "route"] ++ (if is_empty param then [] else split_whitespace param) ++ [host]
  | Mount => [word "mount"; host ++ word ":/"; if is_empty param then word "/mnt/remote" else param]
  end.

(** [position] of an action in the list. *)
Fixpoint position (p : Action -> bool) (l : list Action) : option nat :=
  match l with
  | [] => None
  | a :: l => if p a then Some 0%nat else option_map S (position p l)
  end.

Definition from_shortcut (c : list byte) : option nat := position (fun a => bytes_eqb [shortcut a] c) ALL.

(** ** Recent connections *)

Record Recent : Type := mkRecent { rc_remote : list byte; rc_subcommand : list byte; rc_ts : list byte }.

Section LoadRecent.
Context {J : SerdeJson}.

Definition json_text (k : string) (v : Json) : list byte := default [] (json_get (string_bytes k) v ≫= as_str).

(** What a line of the audit log contributes. *)
Definition recent_of_line (line : list byte) : option Recent :=
  v ← from_str line;
  let remote := json_text "remote" v in
  if is_empty remote || negb (contains [x40] remote) then None
  else
    let subcommand := json_text "subcommand" v in
    if starts_with [x5f] subcommand || bytes_eqb subcommand (word "recv") || bytes_eqb subcommand (word "serve") then None
    else Some (mkRecent remote subcommand (json_text "ts" v)).

Definition recent_key (r : Recent) : list byte := rc_remote r ++ [COLON] ++ rc_subcommand r.

(** The loop: [seen] keys, [n] more records at most. *)
Fixpoint collect_recent (ls seen : list (list byte)) (n : nat) : list Recent :=
  match ls, n with
  | [], _ | _, O => []
  | line :: ls, S n' =>
      match recent_of_line line with
      | None => collect_recent ls seen n
      | Some r =>
          if List.existsb (bytes_eqb (recent_key r)) seen then collect_recent ls seen n
          else r :: collect_recent ls (recent_key r :: seen) n'
      end
  end.

Definition load_recent (text : list byte) : list Recent := collect_recent (rev (lines text)) [] 10.

End LoadRecent.

(** ** Text positions *)

(** [str::is_char_boundary]. *)
Definition is_char_boundary (s : list byte) (p : nat) : bool :=
  if (p =? 0)%nat then true
  else match drop p s with
       | [] => (p =? length s)%nat
       | b :: _ => negb (is_cont b)
       end.

(** [&s[i..j]]. *)
Definition str_slice (s : list byte) (i j : nat) : option (list byte) :=
  if (i <=? j)%nat && is_char_boundary s i && is_char_boundary s j then Some (slice s i j) else None.

(** Panics on a byte offset inside a character. *)
Definition format_ts_ago (ts : list byte) : option (list byte) :=
  if (16 <=? length ts)%nat then
    a ← str_slice ts 5 10; b ← str_slice ts 11 16; Some (a ++ [SPACE] ++ b)
  else Some ts.

(** The characters of a valid text. *)
Fixpoint chars_fuel (fuel : nat) (s : list byte) : list (list byte) :=
  match fuel, s with
  | S fuel, _ :: _ => let n := default 1%nat (utf8_char_len s) in take n s :: chars_fuel fuel (drop n s)
  | _, _ => []
  end.

Definition chars (s : list byte) : list (list byte) := chars_fuel (length s) s.

Definition ELLIPSIS : list byte := [xe2; x80; xa6].

Definition trunc (s : list byte) (max : nat) : list byte :=
  if (length (chars s) <=? max)%nat then s else concat (take (max - 1) (chars s)) ++ ELLIPSIS.

(** The while loops walk towards the end that stops them. *)
Fixpoint prev_loop (s : list byte) (p : nat) : nat :=
  match p with
  | O => O
  | S p' => if is_char_boundary s p then p else prev_loop s p'
  end.

Definition prev_boundary (s : list byte) (pos : nat) : nat :=
  match pos with O => O | S p => prev_loop s p end.

Fixpoint next_loop (s : list byte) (fuel p : nat) : nat :=
  match fuel with
  | O => p
  | S fuel => if (p <? length s)%nat && negb (is_char_boundary s p) then next_loop s fuel (p + 1) else p
  end.

Definition next_boundary (s : list byte) (pos : nat) : nat :=
  if (length s <=? pos)%nat then length s else next_loop s (length s) (pos + 1).

(** [String::insert], [remove], [truncate] and [drain]. *)
Definition str_insert (s : list byte) (p : nat) (ch : list byte) : option (list byte) :=
  if (p <=? length s)%nat && is_char_boundary s p then Some (take p s ++ ch ++ drop p s) else None.

Definition str_remove (s : list byte) (p : nat) : option (list byte) :=
  if (p <? length s)%nat && is_char_boundary s p
  then Some (take p s ++ drop (default 1%nat (utf8_char_len (drop p s))) (drop p s)) else None.

Definition str_truncate (s : list byte) (p : nat) : option (list byte) :=
  if (p <=? length s)%nat then if is_char_boundary s p then Some (take p s) else None else Some s.

Definition str_drain (s : list byte) (i j : nat) : option (list byte) :=
  if (i <=? j)%nat && (j <=? length s)%nat && is_char_boundary s i && is_char_boundary s j
  then Some (take i s ++ drop j s) else None.

(** A separator of words. *)
Definition word_sep (b : byte) : bool := Byte.eqb b SPACE || Byte.eqb b x2f.

(** Both [trim_end_matches]: the separators are single bytes. *)
Definition word_start (s : list byte) : nat := length (drop_while word_sep (drop_while (fun b => negb (word_sep b)) (rev s))).

(** A text field: its contents and cursor. *)
Record Field : Type := mkField { fd_text : list byte; fd_cursor : nat }.

Definition del_word_back (f : Field) : option Field :=
  let '(mkField s cursor) := f in
  if (cursor =? 0)%nat then Some f
  else before ← str_slice s 0 cursor;
       let new_end := word_start before in
       s ← str_drain s new_end cursor;
       Some (mkField s new_end).

(** ** The screen's state *)

Inductive Focus : Type := FHost | FActions | FParam | FRecent.

#[export] Instance Focus_eq_dec : EqDecision Focus.
Proof. solve_decision. Defined.

(** [host]/[host_cursor] and [param]/[param_cursor] are the two fields;
    [selected] is the list state's selection. *)
Record App : Type := mkApp {
  focus : Focus;
  host : Field;
  action_idx : nat;
  param : Field;
  recent : list Recent;
  selected : option nat;
  last_run : option (list byte * Z);
  validation : option (list byte);
  show_help : bool;
  show_extra : bool;
  pull : bool
}.

Definition empty_field : Field := mkField [] 0.

Definition App_new (recents : list Recent) : App :=
  mkApp FHost empty_field 0 empty_field recents (match recents with [] => None | _ => Some 0%nat end) None None false false false.

(** Indexing past the end panics; [step_invariant] shows the index valid. *)
Definition action (a : App) : option Action := ALL !! action_idx a.

Definition ready_for (a : App) (act : Action) : bool :=
  if is_empty (trim (fd_text (host a))) then false
  else match act with
       | Proxy | Scan | Share => true
       | _ => if needs_param act then negb (is_empty (trim (fd_text (param a)))) else true
       end.

Definition ready (a : App) : option bool := ready_for a <$> action a.

Definition build_args (a : App) : option (list (list byte)) :=
  (fun act => to_args act (fd_text (host a)) (fd_text (param a)) (pull a)) <$> action a.

Definition preview_command (a : App) : option (list byte) :=
  (fun args => word "seam " ++ join [SPACE] args) <$> build_args a.

(** What a command leaves: its exit code and the audit log's recent records. *)
Definition on_command_return (a : App) (cmd : list byte) (exit_code : Z) (recents : list Recent) : App :=
  let had := match recent a with [] => false | _ => true end in
  let prev := default 0%nat (selected a) in
  let a := a <| last_run := Some (cmd, exit_code) |> <| validation := None |> <| recent := recents |> in
  match recents with
  | [] => a
  | _ => a <| selected := Some (if had then Nat.min prev (length recents - 1) else 0%nat) |>
  end.

(** *** Text editing *)

(** Edits the focused field. *)
Definition on_field (f : Field -> option Field) (a : App) : option App :=
  match focus a with
  | FHost => (fun x => a <| host := x |>) <$> f (host a)
  | FParam => (fun x => a <| param := x |>) <$> f (param a)
  | _ => Some a
  end.

Definition field_insert (ch : list byte) (f : Field) : option Field :=
  (fun s => mkField s (fd_cursor f + length ch)) <$> str_insert (fd_text f) (fd_cursor f) ch.

Definition field_backspace (f : Field) : option Field :=
  if (0 <? fd_cursor f)%nat
  then let p := prev_boundary (fd_text f) (fd_cursor f) in (fun s => mkField s p) <$> str_remove (fd_text f) p
  else Some f.

Definition field_left (f : Field) : option Field := Some (mkField (fd_text f) (prev_boundary (fd_text f) (fd_cursor f))).
Definition field_right (f : Field) : option Field := Some (mkField (fd_text f) (next_boundary (fd_text f) (fd_cursor f))).
Definition field_home (f : Field) : option Field := Some (mkField (fd_text f) 0).
Definition field_end (f : Field) : option Field := Some (mkField (fd_text f) (length (fd_text f))).
Definition field_kill (f : Field) : option Field :=
  (fun s => mkField s (fd_cursor f)) <$> str_truncate (fd_text f) (fd_cursor f).

Definition insert_char (ch : list byte) : App -> option App := on_field (field_insert ch).
Definition backspace : App -> option App := on_field field_backspace.
Definition cursor_left : App -> option App := on_field field_left.
Definition cursor_right : App -> option App := on_field field_right.
Definition cursor_home : App -> option App := on_field field_home.
Definition cursor_end : App -> option App := on_field field_end.
Definition delete_word : App -> option App := on_field del_word_back.
Definition kill_to_end : App -> option App := on_field field_kill.

(** *** Navigation *)

Definition action_up (a : App) : App :=
  if (0 <? action_idx a)%nat then a <| action_idx := (action_idx a - 1)%nat |> <| param := empty_field |> else a.

Definition action_down (a : App) : App :=
  let max := if show_extra a then length ALL else BASIC in
  if (action_idx a + 1 <? max)%nat then a <| action_idx := (action_idx a + 1)%nat |> <| param := empty_field |> else a.

Definition recent_up (a : App) : App :=
  match selected a with
  | Some i => if (0 <? i)%nat then a <| selected := Some (i - 1)%nat |> else a
  | None => a
  end.

Definition recent_down (a : App) : App :=
  match selected a with
  | Some i => if (i + 1 <? length (recent a))%nat then a <| selected := Some (i + 1)%nat |> else a
  | None => a
  end.

Definition select_recent (a : App) : App :=
  match i ← selected a; recent a !! i with
  | Some r => a <| host := mkField (rc_remote r) (length (rc_remote r)) |> <| focus := FActions |> <| validation := None |>
  | None => a
  end.

Definition set_action (idx : nat) (a : App) : option App :=
  (fun act => a <| action_idx := idx |> <| param := empty_field |> <| focus := if needs_param act then FParam else FActions |>)
    <$> ALL !! idx.

Definition tab_next (a : App) : option App :=
  act ← action a;
  let recent_or_host := match recent a with [] => FHost | _ => FRecent end in
  Some (a <| focus := match focus a with
                      | FHost => FActions
                      | FActions => if needs_param act then FParam else recent_or_host
                      | FParam => recent_or_host
                      | FRecent => FHost
                      end |>).

Definition tab_prev (a : App) : option App :=
  act ← action a;
  let param_or_actions := if needs_param act then FParam else FActions in
  Some (a <| focus := match focus a with
                      | FHost => match recent a with [] => param_or_actions | _ => FRecent end
                      | FActions => FHost
                      | FParam => FActions
                      | FRecent => param_or_actions
                      end |>).

(** ** Drawing *)

(** The three pieces of a focused field around its cursor. *)
Definition render_input (f : Field) (focused : bool) (placeholder : list byte) : option (list (list byte)) :=
  if focused then
    before ← str_slice (fd_text f) 0 (fd_cursor f);
    rest ← str_slice (fd_text f) (fd_cursor f) (length (fd_text f));
    Some [[SPACE]; before; default [SPACE] (head (chars rest)); concat (drop 1 (chars rest))]
  else if is_empty (fd_text f) then Some [SPACE :: placeholder]
  else Some [[SPACE]; fd_text f].

Definition draw_recent (r : Recent) : option (list byte * list byte) :=
  ts ← format_ts_ago (rc_ts r); Some (trunc (rc_remote r) 18, ts).

(** What [draw] computes from texts; [tall] when the parameter's row is visible. *)
Definition draw (a : App) (tall : bool) : option (list (list byte * list byte) * list (list byte)) :=
  act ← action a;
  items ← mapM draw_recent (recent a);
  h ← render_input (host a) (bool_decide (focus a = FHost)) (word "user@hostname");
  p ← (if needs_param act && tall
       then render_input (param a) (bool_decide (focus a = FParam)) (word (param_placeholder act (pull a)))
       else Some []);
  Some (items, h ++ p).

(** ** The key loop *)

Inductive KeyCode : Type :=
  | Char (c : list byte)
  | Esc | Tab | BackTab | Up | Down | Left | Right | Home | End | Backspace | Delete | Enter | OtherKey.

#[export] Instance KeyCode_eq_dec : EqDecision KeyCode.
Proof. solve_decision. Defined.

(** A key with its modifiers; [ev_code] and [ev_recent] are what a command it
    starts leaves. *)
Record KeyEvent : Type := mkKey {
  ev_key : KeyCode;
  ev_ctrl : bool;
  ev_shift : bool;
  ev_exit : Z;
  ev_recent : list Recent
}.

Definition char_is (k : KeyCode) (b : byte) : bool := match k with Char c => bytes_eqb c [b] | _ => false end.

Definition in_text (a : App) : bool := match focus a with FHost | FParam => true | _ => false end.

Inductive Step : Type :=
  | Quit
  | Next (a : App).

(** The Ctrl shortcuts; [None] when the key falls through. *)
Definition ctrl_key (a : App) (k : KeyCode) : option (option App) :=
  if char_is k x77 && in_text a then Some (delete_word a)
  else if char_is k x61 && in_text a then Some (cursor_home a)
  else if char_is k x65 && in_text a then Some (cursor_end a)
  else if char_is k x6b && in_text a then Some (kill_to_end a)
  else if char_is k x64 then
    match action a with
    | None => Some None
    | Some act => if supports_direction act then Some (Some (a <| pull := negb (pull a) |>)) else None
    end
  else None.

(** A character outside the text fields. *)
Definition command_char (a : App) (c : list byte) : option App :=
  match from_shortcut c with
  | Some idx => set_action idx (if (BASIC <=? idx)%nat then a <| show_extra := true |> else a)
  | None =>
      Some (
        if bytes_eqb c [SPACE] then
          match focus a with
          | FActions =>
              let a := a <| show_extra := negb (show_extra a) |> in
              if negb (show_extra a) && (BASIC <=? action_idx a)%nat then a <| action_idx := 8%nat |> else a
          | _ => a
          end
        else if bytes_eqb c [x6a] then
          match focus a with FActions => action_down a | FRecent => recent_down a | _ => a end
        else if bytes_eqb c [x6b] then
          match focus a with FActions => action_up a | FRecent => recent_up a | _ => a end
        else a)
  end.

(** Enter outside the recent list. *)
Definition enter (a : App) (exit_code : Z) (recents : list Recent) : option App :=
  act ← action a;
  r ← ready a;
  if (r : bool) then
    cmd_str ← preview_command a;
    Some (on_command_return a cmd_str exit_code recents)
  else if is_empty (trim (fd_text (host a))) then
    Some (a <| validation := Some (word "enter a host first  (user@hostname)") |> <| focus := FHost |>)
  else if needs_param act && is_empty (trim (fd_text (param a))) then
    let label := default "param"%string (param_label act (pull a)) in
    Some (a <| validation := Some (word "enter " ++ word label ++ word "  (e.g. "
                                     ++ word (param_placeholder act (pull a)) ++ word ")") |>
            <| focus := FParam |>)
  else Some a.

(** The match on the key. *)
Definition plain_key (a : App) (ev : KeyEvent) : option Step :=
  let k := ev_key ev in
  match k with
  | Esc => Some Quit
  | Tab => Next <$> (if ev_shift ev then tab_prev a else tab_next a)
  | Char c =>
      if in_text a then Next <$> insert_char c (a <| validation := None |>)
      else if char_is k x71 then Some Quit
      else if char_is k x3f then Some (Next (a <| show_help := true |>))
      else Next <$> command_char a c
  | Up => Some (Next (match focus a with FActions => action_up a | FRecent => recent_up a | _ => a end))
  | Down => Some (Next (match focus a with FActions => action_down a | FRecent => recent_down a | _ => a end))
  | Left => Next <$> cursor_left a
  | Right => Next <$> cursor_right a
  | Home => Next <$> cursor_home a
  | End => Next <$> cursor_end a
  | Backspace => a ← backspace a; Some (Next (a <| validation := None |>))
  | Delete => a ← cursor_right a; Next <$> backspace a
  | Enter =>
      match focus a with
      | FRecent => Some (Next (select_recent a))
      | _ => Next <$> enter a (ev_exit ev) (ev_recent ev)
      end
  | BackTab | OtherKey => Some (Next a)
  end.

(** One turn of the loop after its draw; [None] is a panic. *)
Definition key_step (a : App) (ev : KeyEvent) : option Step :=
  let k := ev_key ev in
  if char_is k x63 && ev_ctrl ev then @Some Step Quit
  else if show_help a then
    Some (Next (if char_is k x3f || bool_decide (k = Esc) then a <| show_help := false |> else a))
  else if ev_ctrl ev then
    match ctrl_key a k with
    | Some r => Next <$> r
    | None => plain_key a ev
    end
  else plain_key a ev.

(** The loop: draw, then a key; [Some a] is the state it stopped in. *)
Fixpoint run_keys (a : App) (tall : bool) (evs : list KeyEvent) : option App :=
  _ ← draw a tall;
  match evs with
  | [] => Some a
  | ev :: evs =>
      s ← key_step a ev;
      match s with
      | Quit => Some a
      | Next a => run_keys a tall evs
      end
  end.

(** ** Characters *)

Lemma utf8_char_app c r : utf8_char c -> utf8_char_len (c ++ r) = Some (length c).
Proof. intros [_ H]. by apply (utf8_char_len_app c r). Qed.

Lemma chars_of_valid fuel : forall s, utf8_valid_fuel fuel s = true -> exists cs, Forall utf8_char cs /\ s = concat cs.
Proof.
  induction fuel as [|fuel IH]; intros [|b s] H; try done; try (exists []; done).
  cbn [utf8_valid_fuel] in H. destruct (utf8_char_len (b :: s)) as [n|] eqn:E; [|done].
  destruct (IH _ H) as (cs & Hcs & Hs). exists (take n (b :: s) :: cs). split.
  - constructor; [by apply utf8_char_take|done].
  - cbn [concat]. by rewrite <- Hs, take_drop.
Qed.

(** The characters of a text are the ones it was made of. *)
Lemma chars_concat cs : Forall utf8_char cs -> chars (concat cs) = cs.
Proof.
  intros H. unfold chars. enough (forall fuel, (length (concat cs) <= fuel)%nat -> chars_fuel fuel (concat cs) = cs) by auto.
  induction H as [|c cs Hc _ IH]; intros fuel Hf; [by destruct fuel|]. cbn [concat] in *. rewrite length_app in Hf.
  pose proof (utf8_char_app c (concat cs) Hc) as Hl. destruct c as [|b c]; [by destruct Hc|].
  destruct fuel as [|fuel]; [cbn in Hf; lia|]. cbn [chars_fuel app] in *. rewrite Hl. cbn [default from_option id].
  change (b :: c ++ concat cs) with ((b :: c) ++ concat cs). rewrite take_app_length, drop_app_length, IH; [done|].
  cbn in Hf. lia.
Qed.

(** ** Boundaries *)

Section Boundaries.
Context (cs : list (list byte)) (Hcs : Forall utf8_char cs).

Lemma boundary_between x : is_char_boundary (x ++ concat cs) (length x) = true.
Proof.
  unfold is_char_boundary. destruct (length x =? 0)%nat; [done|]. rewrite drop_app_length.
  destruct Hcs as [|c cs' Hc _]; cbn [concat]; [by rewrite app_nil_r, Nat.eqb_refl|].
  destruct (utf8_char_bytes c Hc) as (b & t & -> & Hb & _). cbn. by rewrite Hb.
Qed.

Lemma boundary_inside x c i y : utf8_char c -> (0 < i < length c)%nat -> is_char_boundary (x ++ c ++ y) (length x + i) = false.
Proof.
  intros Hc Hi. unfold is_char_boundary. destruct (length x + i =? 0)%nat eqn:E; [apply Nat.eqb_eq in E; lia|].
  rewrite drop_app_add, drop_app_le by lia. destruct (utf8_char_bytes c Hc) as (b & t & -> & _ & Ht & _).
  destruct i as [|i]; [lia|]. cbn in *. destruct (drop i t) as [|d r] eqn:Ed.
  - apply (f_equal length) in Ed. rewrite length_drop in Ed. cbn in Ed. lia.
  - cbn. assert (Hd : d ∈ t).
    { apply (subseteq_drop i). rewrite Ed. by left. }
    rewrite List.Forall_forall in Ht. rewrite (Ht d); [done|by apply list_elem_of_In].
Qed.

Lemma prev_loop_char x c y : utf8_char c -> (x = [] \/ is_char_boundary (x ++ c ++ y) (length x) = true) ->
  forall i, (i < length c)%nat -> prev_loop (x ++ c ++ y) (length x + i) = length x.
Proof.
  intros Hc Hx. induction i as [|i IH]; intros Hi.
  - rewrite Nat.add_0_r. destruct Hx as [->|Hx]; [done|]. destruct (length x) eqn:E; [done|]. cbn [prev_loop]. by rewrite Hx.
  - rewrite Nat.add_succ_r. cbn [prev_loop]. rewrite <- Nat.add_succ_r, boundary_inside by (done || lia). apply IH. lia.
Qed.

Lemma next_loop_char x c : utf8_char c -> forall fuel i, (0 < i <= length c)%nat -> (length c - i < fuel)%nat ->
  next_loop (x ++ c ++ concat cs) fuel (length x + i) = (length x + length c)%nat.
Proof.
  intros Hc. induction fuel as [|fuel IH]; intros i Hi Hf; [lia|]. cbn [next_loop]. rewrite !length_app.
  destruct (Nat.eq_dec i (length c)) as [->|Hne].
  - rewrite app_assoc, <- length_app, boundary_between, andb_false_r. done.
  - rewrite boundary_inside by (done || lia). replace (_ <? _)%nat with true by (symmetry; apply Nat.ltb_lt; lia). cbn.
    rewrite <- Nat.add_assoc. apply IH; lia.
Qed.

End Boundaries.

(** ** The line editor over characters

    The abstract editor keeps the characters before the cursor, last first, and
    those after it. *)

Record Zipper : Type := mkZipper { z_before : list (list byte); z_after : list (list byte) }.

Inductive Edit : Type :=
  | EInsert (c : list byte) | EBackspace | ELeft | ERight | EHome | EEnd | EWord | EKill.

Definition is_sep (c : list byte) : bool := bytes_eqb c [SPACE] || bytes_eqb c [x2f].

Fixpoint skip_chars (p : list byte -> bool) (l : list (list byte)) : list (list byte) :=
  match l with
  | c :: r => if p c then skip_chars p r else l
  | [] => []
  end.

Definition zedit (z : Zipper) (e : Edit) : Zipper :=
  let '(mkZipper l r) := z in
  match e with
  | EInsert c => mkZipper (c :: l) r
  | EBackspace => mkZipper (drop 1 l) r
  | ELeft => match l with c :: l => mkZipper l (c :: r) | [] => z end
  | ERight => match r with c :: r => mkZipper (c :: l) r | [] => z end
  | EHome => mkZipper [] (rev l ++ r)
  | EEnd => mkZipper (rev r ++ l) []
  | EWord => mkZipper (skip_chars is_sep (skip_chars (fun c => negb (is_sep c)) l)) r
  | EKill => mkZipper l []
  end.

Definition edit (f : Field) (e : Edit) : option Field :=
  match e with
  | EInsert c => field_insert c f
  | EBackspace => field_backspace f
  | ELeft => field_left f
  | ERight => field_right f
  | EHome => field_home f
  | EEnd => field_end f
  | EWord => del_word_back f
  | EKill => field_kill f
  end.

Fixpoint edits (f : Field) (es : list Edit) : option Field :=
  match es with
  | [] => Some f
  | e :: es => f ← edit f e; edits f es
  end.

(** The field a zipper stands for. *)
Definition field_of (z : Zipper) : Field :=
  mkField (concat (rev (z_before z)) ++ concat (z_after z)) (length (concat (rev (z_before z)))).

Definition zipper_ok (z : Zipper) : Prop := Forall utf8_char (z_before z) /\ Forall utf8_char (z_after z).

Definition edit_ok (e : Edit) : Prop := match e with EInsert c => utf8_char c | _ => True end.

Lemma skip_chars_suffix p l : exists k, l = k ++ skip_chars p l.
Proof.
  induction l as [|c l [k IH]]; [by exists []|]. cbn. destruct (p c); [|by exists []]. exists (c :: k). cbn. by f_equal.
Qed.

Lemma Forall_skip_chars {P : list byte -> Prop} p l : Forall P l -> Forall P (skip_chars p l).
Proof. intros H. destruct (skip_chars_suffix p l) as [k Hk]. rewrite Hk in H. by apply List.Forall_app in H as [_ ?]. Qed.

Lemma zedit_ok z e : zipper_ok z -> edit_ok e -> zipper_ok (zedit z e).
Proof.
  destruct z as [l r]. intros [Hl Hr] He. unfold zipper_ok. cbn in *. destruct e; cbn in *; try done.
  - split; [by constructor|done].
  - split; [by destruct Hl|done].
  - destruct Hl as [|c l Hc Hl]; cbn; [done|]. split; [done|by constructor].
  - destruct Hr as [|c r Hc Hr]; cbn; [done|]. split; [by constructor|done].
  - split; [constructor|]. apply List.Forall_app. split; [by apply List.Forall_rev|done].
  - split; [|constructor]. apply List.Forall_app. split; [by apply List.Forall_rev|done].
  - split; [|done]. by repeat apply Forall_skip_chars.
Qed.

Lemma zipper_ok_valid z : zipper_ok z -> Forall utf8_char (rev (z_before z)) /\ Forall utf8_char (z_after z).
Proof. intros [Hl Hr]. split; [by apply List.Forall_rev|done]. Qed.

(** The cursor of a field is on a boundary. *)
Lemma field_boundary l r : Forall utf8_char r -> is_char_boundary (concat l ++ concat r) (length (concat l)) = true.
Proof. intros H. by apply boundary_between. Qed.

Lemma prev_boundary_char l c r : Forall utf8_char (c :: r) ->
  prev_boundary (concat l ++ c ++ concat r) (length (concat l) + length c) = length (concat l).
Proof.
  intros H. inversion_clear H as [|? ? Hc Hr]. unfold prev_boundary.
  assert (Hn : (0 < length c)%nat) by (destruct Hc as [? _]; destruct c; [done|cbn; lia]).
  destruct (length (concat l) + length c)%nat as [|p] eqn:E; [lia|].
  replace p with (length (concat l) + (length c - 1))%nat by lia. apply prev_loop_char; [done| |lia].
  right. apply (boundary_between (c :: r)). by constructor.
Qed.

Lemma next_boundary_char l c r : Forall utf8_char (c :: r) ->
  next_boundary (concat l ++ c ++ concat r) (length (concat l)) = (length (concat l) + length c)%nat.
Proof.
  intros H. inversion_clear H as [|? ? Hc Hr]. unfold next_boundary.
  assert (Hn : (0 < length c)%nat) by (destruct Hc as [? _]; destruct c; [done|cbn; lia]).
  rewrite (proj2 (Nat.leb_gt _ _)) by (rewrite !length_app; lia). apply next_loop_char; [done|done|lia|].
  rewrite !length_app. lia.
Qed.

Lemma concat_rev_cons (c : list byte) l : concat (rev (c :: l)) = concat (rev l) ++ c.
Proof. cbn [rev]. rewrite concat_app. cbn. by rewrite app_nil_r. Qed.

Lemma length_concat_rev_cons (c : list byte) l : length (concat (rev (c :: l))) = (length (concat (rev l)) + length c)%nat.
Proof. by rewrite concat_rev_cons, length_app. Qed.

Lemma insert_field c z : zipper_ok z -> field_insert c (field_of z) = Some (field_of (zedit z (EInsert c))).
Proof.
  destruct z as [l r]. intros [_ Hr]. unfold field_insert, str_insert, field_of. cbn [z_before z_after fd_text fd_cursor zedit].
  cbn in Hr. rewrite field_boundary by done. rewrite length_app, (proj2 (Nat.leb_le _ _)) by lia. cbn [andb fmap option_fmap option_map].
  rewrite take_app_length, drop_app_length, concat_rev_cons, <- app_assoc, length_app. done.
Qed.

Lemma backspace_field z : zipper_ok z -> field_backspace (field_of z) = Some (field_of (zedit z EBackspace)).
Proof.
  destruct z as [[|c l] r]; intros [Hl Hr]; cbn in Hl, Hr; [done|].
  unfold field_backspace, str_remove, field_of. cbn [z_before z_after fd_text fd_cursor zedit drop].
  assert (Hc : utf8_char c) by by inversion Hl. assert (Hn : (0 < length c)%nat) by (destruct Hc as [? _]; destruct c; [done|cbn; lia]).
  rewrite length_concat_rev_cons, (proj2 (Nat.ltb_lt _ _)) by lia.
  rewrite concat_rev_cons, <- app_assoc, prev_boundary_char by by constructor.
  rewrite !length_app, (proj2 (Nat.ltb_lt _ (_ + _))) by lia. cbn [andb].
  rewrite (boundary_between (c :: r)) by by constructor. cbn [fmap option_fmap option_map].
  rewrite take_app_length, drop_app_length, utf8_char_app by done. cbn [default from_option id]. by rewrite drop_app_length.
Qed.

Lemma left_field z : zipper_ok z -> field_left (field_of z) = Some (field_of (zedit z ELeft)).
Proof.
  destruct z as [[|c l] r]; intros [Hl Hr]; cbn in Hl, Hr; [done|]. unfold field_left, field_of.
  cbn [z_before z_after fd_text fd_cursor zedit].
  rewrite length_concat_rev_cons, concat_rev_cons, <- app_assoc, prev_boundary_char; [done|]. constructor; [by inversion Hl|done].
Qed.

Lemma right_field z : zipper_ok z -> field_right (field_of z) = Some (field_of (zedit z ERight)).
Proof.
  destruct z as [l [|c r]]; intros [Hl Hr]; cbn in Hl, Hr; unfold field_right, field_of; cbn [z_before z_after fd_text fd_cursor zedit concat].
  - unfold next_boundary. rewrite app_nil_r, Nat.leb_refl. done.
  - rewrite next_boundary_char by done. rewrite length_concat_rev_cons, concat_rev_cons, <- app_assoc. done.
Qed.

Lemma home_field z : field_home (field_of z) = Some (field_of (zedit z EHome)).
Proof. destruct z as [l r]. unfold field_home, field_of. cbn. by rewrite concat_app. Qed.

Lemma end_field z : field_end (field_of z) = Some (field_of (zedit z EEnd)).
Proof. destruct z as [l r]. unfold field_end, field_of. cbn. by rewrite rev_app_distr, rev_involutive, concat_app, app_nil_r. Qed.

Lemma kill_field z : zipper_ok z -> field_kill (field_of z) = Some (field_of (zedit z EKill)).
Proof.
  destruct z as [l r]. intros [Hl Hr]. cbn in Hl, Hr. unfold field_kill, str_truncate, field_of. cbn [z_before z_after fd_text fd_cursor zedit concat].
  rewrite length_app, (proj2 (Nat.leb_le _ _)), field_boundary by (done || lia). cbn. by rewrite take_app_length, app_nil_r.
Qed.

(** *** Deleting a word *)

Lemma drop_while_app_all p a b : Forall (fun x => p x = true) a -> drop_while p (a ++ b) = drop_while p b.
Proof. induction 1 as [|x a Hx _ IH]; [done|]. cbn. by rewrite Hx. Qed.

(** Skipping bytes skips characters when each is all in or all out. *)
Lemma drop_while_chars p q l :
  Forall (fun c => c <> [] /\ Forall (fun x => p x = q c) c) l ->
  drop_while p (rev (concat (rev l))) = rev (concat (rev (skip_chars q l))).
Proof.
  induction 1 as [|c l [Hne Hc] _ IH]; [done|]. cbn [skip_chars].
  destruct (q c) eqn:E; rewrite concat_rev_cons, rev_app_distr.
  - rewrite drop_while_app_all by by apply List.Forall_rev. done.
  - destruct c as [|b c] using rev_ind; [done|]. rewrite !rev_app_distr. cbn.
    apply List.Forall_app in Hc as [_ Hc]. apply List.Forall_inv in Hc. by rewrite Hc.
Qed.

(** A separator is a character of one byte, and no byte of another character is one. *)
Lemma char_sep c : utf8_char c -> c <> [] /\ Forall (fun x => word_sep x = is_sep c) c.
Proof.
  intros H. split; [apply H|]. destruct (utf8_char_bytes c H) as (b & t & -> & _ & Ht & Hb).
  destruct t as [|d t]; [apply List.Forall_cons; [by destruct b|apply List.Forall_nil]|].
  destruct Hb as [|Hb]; [done|]. assert (Hs : is_sep (b :: d :: t) = false) by (unfold is_sep; cbn; by rewrite !andb_false_r).
  rewrite Hs. assert (Hw : forall x, 128 <= byte_val x -> word_sep x = false) by (intros x; by destruct x).
  constructor; [by apply Hw|]. eapply List.Forall_impl; [|exact Ht]. intros x Hx. apply Hw. byte_ranges. lia.
Qed.

Lemma word_field z : zipper_ok z -> del_word_back (field_of z) = Some (field_of (zedit z EWord)).
Proof.
  destruct z as [l r]. intros [Hl Hr]. cbn in Hl, Hr. unfold del_word_back, field_of. cbn [z_before z_after zedit].
  destruct (length (concat (rev l)) =? 0)%nat eqn:E.
  { apply Nat.eqb_eq, length_zero_iff_nil in E. destruct l as [|c l]; [done|]. apply (f_equal (@rev byte)) in E.
    rewrite concat_rev_cons, rev_app_distr in E. apply app_eq_nil in E as [E _]. apply (f_equal (@rev byte)) in E.
    rewrite rev_involutive in E. apply List.Forall_inv in Hl as [Hl _]. done. }
  unfold str_slice. rewrite field_boundary by done. cbn [Nat.leb is_char_boundary Nat.eqb andb]. unfold slice.
  rewrite drop_0, Nat.sub_0_r, take_app_length. cbn [mbind option_bind]. unfold word_start.
  set (l2 := skip_chars is_sep (skip_chars (fun c => negb (is_sep c)) l)).
  assert (Hw : drop_while word_sep (drop_while (fun b => negb (word_sep b)) (rev (concat (rev l)))) = rev (concat (rev l2))).
  { assert (Hs : Forall (fun c => c <> [] /\ Forall (fun x => word_sep x = is_sep c) c) l)
      by (eapply List.Forall_impl; [|exact Hl]; exact char_sep).
    rewrite (drop_while_chars _ (fun c => negb (is_sep c))), (drop_while_chars _ is_sep); [done|by apply Forall_skip_chars|].
    eapply List.Forall_impl; [|exact Hs]. intros c [Hne Hc]. split; [done|]. eapply List.Forall_impl; [|exact Hc]. by intros x ->. }
  rewrite Hw, length_rev. destruct (skip_chars_suffix (fun c => negb (is_sep c)) l) as [k1 Hk1].
  destruct (skip_chars_suffix is_sep (skip_chars (fun c => negb (is_sep c)) l)) as [k2 Hk2]. fold l2 in Hk2.
  assert (Hlk : concat (rev l) = concat (rev l2) ++ concat (rev (k1 ++ k2))).
  { rewrite Hk1, Hk2 at 1. by rewrite app_assoc, rev_app_distr, concat_app. }
  unfold str_drain. rewrite Hlk, <- app_assoc, !length_app, !(proj2 (Nat.leb_le _ _)) by lia. cbn [andb].
  assert (HK : Forall utf8_char (rev (k1 ++ k2))).
  { rewrite Hk1, Hk2, app_assoc in Hl. apply List.Forall_rev. by apply List.Forall_app in Hl as [? _]. }
  set (K := rev (k1 ++ k2)) in *.
  assert (B1 : is_char_boundary (concat (rev l2) ++ concat K ++ concat r) (length (concat (rev l2))) = true).
  { rewrite <- concat_app. apply field_boundary, List.Forall_app. done. }
  assert (B2 : is_char_boundary (concat (rev l2) ++ concat K ++ concat r) (length (concat (rev l2)) + length (concat K)) = true).
  { rewrite app_assoc, <- length_app. by apply boundary_between. }
  rewrite B1, B2. cbn [andb mbind option_bind]. rewrite take_app_length, app_assoc, <- length_app, drop_app_length. done.
Qed.

Lemma line_editor_step z e : zipper_ok z -> edit_ok e -> edit (field_of z) e = Some (field_of (zedit z e)) /\ zipper_ok (zedit z e).
Proof.
  intros Hz He. split; [|by apply zedit_ok].
  destruct e; cbn [edit];
    [by apply insert_field|by apply backspace_field|by apply left_field|by apply right_field|by apply home_field
    |by apply end_field|by apply word_field|by apply kill_field].
Qed.

(** C26: The line editor never panics and edits characters: on every sequence of
    insertions, deletions, moves and cuts the byte-offset code of [tui.rs] (a cursor
    into the UTF-8 text, [is_char_boundary] loops, [String::remove], [drain],
    [truncate], [trim_end_matches]) yields the text and cursor of the abstract
    editor, whose operations move whole characters between two stacks. *)
Theorem line_editor_refines z es :
  zipper_ok z -> Forall edit_ok es ->
  edits (field_of z) es = Some (field_of (fold_left zedit es z)) /\ zipper_ok (fold_left zedit es z).
Proof.
  intros Hz Hes. revert z Hz. induction Hes as [|e es He _ IH]; intros z Hz; [done|].
  cbn [edits fold_left]. destruct (line_editor_step z e Hz He) as [-> Hz']. by apply IH.
Qed.

(** Two characters typed, the cursor moved back, a space, and the last word cut. *)
Lemma line_editor_refines_witness :
  let es := [EInsert [x6e]; EInsert [xc3; xa9]; ELeft; EInsert [SPACE]; EEnd; EWord] in
  (zipper_ok (mkZipper [] []) /\ Forall edit_ok es) /\ edits (mkField [] 0) es = Some (mkField [x6e] 1).
Proof.
  intros es. assert (H : zipper_ok (mkZipper [] []) /\ Forall edit_ok es).
  { split; [split; constructor|]. repeat constructor; done. }
  split; [exact H|]. exact (proj1 (line_editor_refines (mkZipper [] []) es (proj1 H) (proj2 H))).
Defined.

(** ** The screen's invariant *)

Definition field_ok (f : Field) : Prop := exists z, zipper_ok z /\ f = field_of z.

(** What the audit log's own writer guarantees of a record. *)
Definition recent_ok (r : Recent) : Prop := utf8_valid (rc_remote r) = true /\ is_ascii (rc_ts r) = true.

Record app_ok (a : App) : Prop := {
  ok_host : field_ok (host a);
  ok_param : field_ok (param a);
  ok_action : (action_idx a < if show_extra a then length ALL else BASIC)%nat;
  ok_param_focus : focus a = FParam -> needs_param <$> action a = Some true;
  ok_recent_focus : focus a = FRecent -> recent a <> [];
  ok_selected : recent a <> [] -> exists i, selected a = Some i /\ (i < length (recent a))%nat;
  ok_recents : Forall recent_ok (recent a)
}.

Definition event_ok (ev : KeyEvent) : Prop :=
  (forall c, ev_key ev = Char c -> utf8_char c) /\ Forall recent_ok (ev_recent ev).

Lemma field_ok_empty : field_ok empty_field.
Proof. by exists (mkZipper [] []). Qed.

Lemma field_ok_edit f e : field_ok f -> edit_ok e -> exists f', edit f e = Some f' /\ field_ok f'.
Proof.
  intros (z & Hz & ->) He. destruct (line_editor_step z e Hz He) as [-> Hz']. eexists. split; [done|]. by exists (zedit z e).
Qed.

Lemma field_ok_text s : utf8_valid s = true -> field_ok (mkField s (length s)).
Proof.
  intros H. destruct (chars_of_valid _ _ H) as (cs & Hcs & ->). exists (mkZipper (rev cs) []). split.
  - split; [by apply List.Forall_rev|constructor].
  - unfold field_of. cbn. by rewrite rev_involutive, app_nil_r.
Qed.

Lemma app_ok_action a : app_ok a -> exists act, action a = Some act.
Proof.
  intros H. apply ok_action in H. unfold action. destruct (ALL !! action_idx a) as [act|] eqn:E; [by exists act|].
  apply lookup_ge_None in E. destruct (show_extra a); cbn in *; unfold BASIC in *; lia.
Qed.

Lemma app_ok_new recents : Forall recent_ok recents -> app_ok (App_new recents).
Proof.
  intros H. split; cbn; try done; try exact field_ok_empty.
  - unfold BASIC. lia.
  - destruct recents as [|r rs]; [done|]. intros _. exists 0%nat. cbn. split; [done|lia].
Qed.

Ltac app_case a H :=
  destruct a; destruct H as [Hh Hp Ha Hpf Hrf Hs Hr]; cbn in *.

Lemma on_field_ok e a : app_ok a -> edit_ok e -> exists a', on_field (fun f => edit f e) a = Some a' /\ app_ok a'.
Proof.
  intros H He. unfold on_field. destruct (focus a) eqn:Ef; try by exists a.
  - destruct (field_ok_edit _ e (ok_host _ H) He) as (f & -> & Hf). eexists. split; [reflexivity|]. by app_case a H; split.
  - destruct (field_ok_edit _ e (ok_param _ H) He) as (f & -> & Hf). eexists. split; [reflexivity|]. by app_case a H; split.
Qed.

(** Moves that need the index, then a focus that may need the parameter. *)
Ltac app_split := split; cbn; try done; try exact field_ok_empty.

Lemma app_ok_help a b : app_ok a -> app_ok (a <| show_help := b |>).
Proof. intros H. by app_case a H; split. Qed.

Lemma app_ok_pull a b : app_ok a -> app_ok (a <| pull := b |>).
Proof. intros H. by app_case a H; split. Qed.

Lemma app_ok_validation a v : app_ok a -> app_ok (a <| validation := v |>).
Proof. intros H. by app_case a H; split. Qed.

Lemma app_ok_focus_actions a v : app_ok a -> app_ok (a <| validation := v |> <| focus := FActions |>).
Proof. intros H. by app_case a H; split. Qed.

Lemma app_ok_focus_host a : app_ok a -> app_ok (a <| focus := FHost |>).
Proof. intros H. by app_case a H; split. Qed.

Lemma app_ok_focus_param a act : app_ok a -> action a = Some act -> needs_param act = true -> app_ok (a <| focus := FParam |>).
Proof. intros H E Hn. app_case a H; split; cbn; try done. intros _. unfold action in *. cbn in *. by rewrite E; cbn; rewrite Hn. Qed.

Lemma app_ok_show_extra a : app_ok a -> app_ok (a <| show_extra := true |>).
Proof. intros H. app_case a H; split; cbn; try done. destruct show_extra0; cbn in *; unfold BASIC in *; lia. Qed.

Lemma app_ok_select a i : app_ok a -> (i < length (recent a))%nat -> app_ok (a <| selected := Some i |>).
Proof. intros H Hi. app_case a H; split; cbn; try done. intros _. by exists i. Qed.

(** A new index clears the parameter; only the Param focus depends on it. *)
Lemma app_ok_index a i : app_ok a -> focus a <> FParam -> (i < if show_extra a then length ALL else BASIC)%nat ->
  app_ok (a <| action_idx := i |> <| param := empty_field |>).
Proof. intros H Hf Hi. app_case a H; app_split. Qed.

Lemma action_up_ok a : app_ok a -> focus a <> FParam -> app_ok (action_up a).
Proof.
  intros H Hf. unfold action_up. destruct (0 <? action_idx a)%nat eqn:E; [|done]. apply app_ok_index; [done|done|].
  pose proof (ok_action _ H). lia.
Qed.

Lemma action_down_ok a : app_ok a -> focus a <> FParam -> app_ok (action_down a).
Proof.
  intros H Hf. unfold action_down. destruct (_ <? _)%nat eqn:E; [|done]. apply Nat.ltb_lt in E. by apply app_ok_index.
Qed.

Lemma recent_up_ok a : app_ok a -> app_ok (recent_up a).
Proof.
  intros H. unfold recent_up. destruct (selected a) as [i|] eqn:E; [|done]. destruct (0 <? i)%nat eqn:Ei; [|done].
  apply Nat.ltb_lt in Ei. destruct (recent a) as [|r rs] eqn:Er.
  - app_case a H; split; cbn; by subst.
  - destruct (ok_selected _ H) as (j & Hj & Hl); [by rewrite Er|]. rewrite E in Hj. injection Hj as ->. apply app_ok_select; [done|lia].
Qed.

Lemma recent_down_ok a : app_ok a -> app_ok (recent_down a).
Proof.
  intros H. unfold recent_down. destruct (selected a) as [i|]; [|done]. destruct (_ <? _)%nat eqn:Ei; [|done].
  apply Nat.ltb_lt in Ei. by apply app_ok_select.
Qed.

Lemma select_recent_ok a : app_ok a -> app_ok (select_recent a).
Proof.
  intros H. unfold select_recent. destruct (i ← selected a; recent a !! i) as [r|] eqn:E; [|done].
  destruct (selected a) as [i|]; [|done]. cbn in E. pose proof (ok_recents _ H) as Hall. rewrite List.Forall_forall in Hall.
  destruct (Hall r) as [Hv _]; [by apply list_elem_of_In, (list_elem_of_lookup_2 _ i)|]. apply field_ok_text in Hv.
  app_case a H; app_split.
Qed.

Lemma set_action_ok idx a : app_ok a -> (idx < if show_extra a then length ALL else BASIC)%nat ->
  exists a', set_action idx a = Some a' /\ app_ok a'.
Proof.
  intros H Hi. unfold set_action.
  destruct (ALL !! idx) as [act|] eqn:E; [|apply lookup_ge_None in E; destruct (show_extra a); cbn in *; unfold BASIC in *; lia].
  assert (Hfn : needs_param <$> ALL !! idx = Some (needs_param act)) by by rewrite E.
  eexists. split; [reflexivity|]. app_case a H; app_split; destruct (needs_param act) eqn:En; try done.
Qed.

Lemma tab_next_ok a : app_ok a -> exists a', tab_next a = Some a' /\ app_ok a'.
Proof.
  intros H. destruct (app_ok_action a H) as [act E]. unfold tab_next. rewrite E. eexists. split; [reflexivity|].
  pose proof (app_ok_focus_param a act H E) as Hfp.
  app_case a H. destruct focus0; cbn; [|destruct (needs_param act); [by apply Hfp|]| |]; try destruct recent0; app_split.
Qed.

Lemma tab_prev_ok a : app_ok a -> exists a', tab_prev a = Some a' /\ app_ok a'.
Proof.
  intros H. destruct (app_ok_action a H) as [act E]. unfold tab_prev. rewrite E. eexists. split; [reflexivity|].
  pose proof (app_ok_focus_param a act H E) as Hfp.
  app_case a H. destruct focus0; cbn; [destruct recent0|..]; try destruct (needs_param act); try (by apply Hfp); app_split.
Qed.

Lemma on_command_return_ok a cmd code recents : app_ok a -> focus a <> FRecent -> Forall recent_ok recents ->
  app_ok (on_command_return a cmd code recents).
Proof.
  intros H Hf Hr'. unfold on_command_return. app_case a H. destruct recents as [|r rs]; [by app_split|]. app_split.
  intros _. eexists. split; [done|]. cbn. destruct recent0; [lia|]. destruct selected0; cbn; lia.
Qed.

(** ** Drawing does not panic *)

Lemma ascii_boundary s p : is_ascii s = true -> (p <= length s)%nat -> is_char_boundary s p = true.
Proof.
  intros H Hp. unfold is_char_boundary. destruct (p =? 0)%nat; [done|]. destruct (drop p s) as [|b r] eqn:E.
  - apply (f_equal length) in E. rewrite length_drop in E. cbn in E. apply Nat.eqb_eq. lia.
  - unfold is_ascii in H. rewrite forallb_forall in H. assert (Hb : b ∈ s) by (apply (subseteq_drop p); rewrite E; by left).
    specialize (H b (proj1 (list_elem_of_In _ _) Hb)). unfold is_cont. apply Z.ltb_lt in H.
    by replace (128 <=? byte_val b) with false by (symmetry; apply Z.leb_gt; lia).
Qed.

Lemma draw_recent_ok r : recent_ok r -> exists x, draw_recent r = Some x.
Proof.
  intros [_ H]. unfold draw_recent, format_ts_ago. destruct (16 <=? length (rc_ts r))%nat eqn:E; [|by eexists].
  apply Nat.leb_le in E. unfold str_slice. rewrite !ascii_boundary by (done || lia). cbn. by eexists.
Qed.

Lemma render_input_ok f focused placeholder : field_ok f -> exists x, render_input f focused placeholder = Some x.
Proof.
  intros (z & Hz & ->). destruct (zipper_ok_valid z Hz) as [Hl Hr]. unfold render_input.
  destruct focused; [|by destruct (is_empty _); eexists]. unfold str_slice, field_of. cbn [fd_text fd_cursor].
  rewrite field_boundary by done.
  assert (Hend : is_char_boundary (concat (rev (z_before z)) ++ concat (z_after z)) (length (concat (rev (z_before z)) ++ concat (z_after z))) = true).
  { rewrite <- (app_nil_r (_ ++ _)) at 1. by apply (boundary_between []). }
  rewrite Hend, length_app, (proj2 (Nat.leb_le _ _)) by lia. by eexists.
Qed.

Lemma draw_ok a tall : app_ok a -> exists x, draw a tall = Some x.
Proof.
  intros H. unfold draw. destruct (app_ok_action a H) as [act ->]. cbn [mbind option_bind].
  destruct (mapM draw_recent (recent a)) as [items|] eqn:E.
  - cbn [mbind option_bind]. destruct (render_input_ok _ (bool_decide (focus a = FHost)) (word "user@hostname") (ok_host _ H)) as [h ->].
    cbn [mbind option_bind]. destruct (needs_param act && tall); [|by eexists].
    destruct (render_input_ok _ (bool_decide (focus a = FParam)) (word (param_placeholder act (pull a))) (ok_param _ H)) as [p ->].
    by eexists.
  - exfalso. apply mapM_None_1, List.Exists_exists in E as (r & Hr & En). pose proof (ok_recents _ H) as Hall.
    rewrite List.Forall_forall in Hall. destruct (draw_recent_ok r (Hall r Hr)) as [x Hx]. by rewrite Hx in En.
Qed.

(** ** The key loop keeps the invariant *)

Definition step_ok (s : option Step) : Prop :=
  exists r, s = Some r /\ match r with Quit => True | Next a => app_ok a end.

Lemma step_ok_next o : (exists a, o = Some a /\ app_ok a) -> step_ok (Next <$> o).
Proof. intros (a & -> & Ha). by exists (Next a). Qed.

Lemma step_ok_some a : app_ok a -> step_ok (Some (Next a)).
Proof. intros Ha. by exists (Next a). Qed.

Lemma position_bound p l : forall idx, position p l = Some idx -> (idx < length l)%nat.
Proof.
  induction l as [|a l IH]; intros idx; cbn; [done|].
  destruct (p a); [intros [= <-]; lia|]. destruct (position _ l) as [i|]; [|done]. cbn. intros [= <-].
  pose proof (IH i eq_refl). lia.
Qed.

Lemma from_shortcut_bound c idx : from_shortcut c = Some idx -> (idx < length ALL)%nat.
Proof. apply position_bound. Qed.

#[local] Arguments Nat.leb : simpl never.

Lemma toggle_extra_ok a : app_ok a -> focus a = FActions ->
  app_ok (let a := a <| show_extra := negb (show_extra a) |> in
          if negb (show_extra a) && (BASIC <=? action_idx a)%nat then a <| action_idx := 8%nat |> else a).
Proof.
  intros H Ef. app_case a H. subst. destruct show_extra0; cbn.
  - destruct (BASIC <=? action_idx0)%nat eqn:Eb; app_split; [unfold constant, BASIC; lia|by apply Nat.leb_gt in Eb].
  - app_split. unfold BASIC in *; lia.
Qed.

Lemma command_char_ok a c : app_ok a -> in_text a = false -> exists a', command_char a c = Some a' /\ app_ok a'.
Proof.
  intros H Ht. unfold command_char. assert (Hf : focus a <> FParam) by (intros E; unfold in_text in Ht; by rewrite E in Ht).
  destruct (from_shortcut c) as [idx|] eqn:E.
  - pose proof (from_shortcut_bound c idx E) as Hi. destruct (BASIC <=? idx)%nat eqn:Eb.
    + apply set_action_ok; [by apply app_ok_show_extra|done].
    + apply Nat.leb_gt in Eb. apply set_action_ok; [done|]. destruct (show_extra a); [done|lia].
  - eexists. split; [reflexivity|]. destruct (bytes_eqb c [SPACE]).
    { destruct (focus a) eqn:Ef; try done. by apply toggle_extra_ok. }
    destruct (bytes_eqb c [x6a]).
    { destruct (focus a) eqn:Ef; try done; [apply action_down_ok|apply recent_down_ok]; try done. by rewrite Ef. }
    destruct (bytes_eqb c [x6b]); [|done].
    destruct (focus a) eqn:Ef; try done; [apply action_up_ok|apply recent_up_ok]; try done. by rewrite Ef.
Qed.

Lemma enter_ok a code recents : app_ok a -> focus a <> FRecent -> Forall recent_ok recents ->
  exists a', enter a code recents = Some a' /\ app_ok a'.
Proof.
  intros H Hf Hr. unfold enter, ready, preview_command, build_args. destruct (app_ok_action a H) as [act E].
  rewrite E. cbn [mbind option_bind fmap option_fmap option_map]. destruct (ready_for a act).
  { eexists. split; [reflexivity|]. by apply on_command_return_ok. }
  destruct (is_empty (trim (fd_text (host a)))).
  { eexists. split; [reflexivity|]. by apply app_ok_focus_host, app_ok_validation. }
  destruct (needs_param act) eqn:En; [|by exists a]. cbn [andb].
  destruct (is_empty (trim (fd_text (param a)))); [|by exists a].
  eexists. split; [reflexivity|]. eapply app_ok_focus_param; [by apply app_ok_validation| |exact En]. by destruct a.
Qed.

Lemma ctrl_key_ok a k r : app_ok a -> ctrl_key a k = Some r -> exists a', r = Some a' /\ app_ok a'.
Proof.
  intros H. unfold ctrl_key.
  repeat match goal with |- (if ?b then Some (?f a) else _) = _ -> _ => destruct b end;
    try (intros [= <-]; first [exact (on_field_ok EWord a H I)|exact (on_field_ok EHome a H I)|exact (on_field_ok EEnd a H I)|exact (on_field_ok EKill a H I)]).
  destruct (char_is k x64); [|done]. destruct (app_ok_action a H) as [act ->]. destruct (supports_direction act); [|done].
  intros [= <-]. eexists. split; [reflexivity|]. by apply app_ok_pull.
Qed.

Lemma plain_key_ok a ev : app_ok a -> event_ok ev -> step_ok (plain_key a ev).
Proof.
  intros H [Hc Hrec]. unfold plain_key.
  assert (Hmove : forall o1 o2 : App -> App, (forall a, app_ok a -> focus a <> FParam -> app_ok (o1 a)) ->
    (forall a, app_ok a -> app_ok (o2 a)) ->
    app_ok (match focus a with FActions => o1 a | FRecent => o2 a | _ => a end)).
  { intros o1 o2 H1 H2. destruct (focus a) eqn:Ef; try done; [apply H1; [done|by rewrite Ef]|by apply H2]. }
  destruct (ev_key ev) as [c| | | | | | | | | | | | |] eqn:Ek; try (by apply step_ok_some).
  - destruct (in_text a) eqn:Et.
    { apply step_ok_next. apply (on_field_ok (EInsert c)); [by apply app_ok_validation|by apply Hc]. }
    destruct (char_is _ _); [by eexists|]. destruct (char_is _ _); [by apply step_ok_some, app_ok_help|].
    by apply step_ok_next, command_char_ok.
  - by eexists.
  - apply step_ok_next. destruct (ev_shift ev); [by apply tab_prev_ok|by apply tab_next_ok].
  - apply step_ok_some, Hmove; [by apply action_up_ok|apply recent_up_ok].
  - apply step_ok_some, Hmove; [by apply action_down_ok|apply recent_down_ok].
  - by apply step_ok_next, (on_field_ok ELeft).
  - by apply step_ok_next, (on_field_ok ERight).
  - by apply step_ok_next, (on_field_ok EHome).
  - by apply step_ok_next, (on_field_ok EEnd).
  - destruct (on_field_ok EBackspace a H I) as (a' & E & Ha'). change (backspace a = Some a') in E. rewrite E.
    by apply step_ok_some, app_ok_validation.
  - destruct (on_field_ok ERight a H I) as (a' & E & Ha'). change (cursor_right a = Some a') in E. rewrite E.
    by apply step_ok_next, (on_field_ok EBackspace).
  - destruct (focus a) eqn:Ef; try (apply step_ok_next, enter_ok; [done|by rewrite Ef|done]).
    by apply step_ok_some, select_recent_ok.
Qed.

Lemma key_step_ok a ev : app_ok a -> event_ok ev -> step_ok (key_step a ev).
Proof.
  intros H He. unfold key_step. destruct (_ && ev_ctrl ev); [by eexists|]. destruct (show_help a).
  { apply step_ok_some. destruct (_ || _); [by apply app_ok_help|done]. }
  destruct (ev_ctrl ev); [|by apply plain_key_ok]. destruct (ctrl_key a (ev_key ev)) as [r|] eqn:E; [|by apply plain_key_ok].
  by apply step_ok_next, (ctrl_key_ok a (ev_key ev)).
Qed.

(** C27: The interface does not panic as long as the audit records it shows have
    ASCII timestamps, as the ones the program writes do, and a valid UTF-8 remote (a record with another
    timestamp can make it panic: [timestamp_panics]): from the start screen, for
    every sequence of keys (their modifiers, the help overlay, the commands they
    start and the audit records those leave) each turn draws and handles its key without an out-of-range
    index or a slice inside a character, and keeps the screen's invariant: both
    texts are whole characters with the cursor between two of them, the selected
    action is on the visible part of the list, the parameter field is focused only
    for an action that has one, and the recent list's selection is in range. *)
Theorem interface_safe recents tall evs :
  Forall recent_ok recents -> Forall event_ok evs ->
  exists a, run_keys (App_new recents) tall evs = Some a /\ app_ok a.
Proof.
  intros Hr Hevs. generalize (app_ok_new recents Hr). generalize (App_new recents). clear recents Hr.
  induction Hevs as [|ev evs He _ IH]; intros a H; cbn [run_keys].
  - destruct (draw_ok a tall H) as [x ->]. by exists a.
  - destruct (draw_ok a tall H) as [x ->]. cbn [mbind option_bind].
    destruct (key_step_ok a ev H He) as (s & -> & Hs). cbn [mbind option_bind]. destruct s as [|a']; [by exists a|by apply IH].
Qed.

(** Host and parameter typed, the command run, its record selected. *)
Definition test_recent : Recent := mkRecent (word "me@box") (word "ping") (word "2024-05-06T07:08:09Z").

Definition test_keys : list KeyEvent :=
  let key k := mkKey k false false 0 [test_recent] in
  [key (Char [x61]); key Left; key (Char [xc3; xa9]); key Delete; key Tab; key (Char [x37]); key Enter; key Tab; key Enter].

Lemma interface_safe_witness :
  (Forall recent_ok [] /\ Forall event_ok test_keys) /\ exists a, run_keys (App_new []) true test_keys = Some a /\ app_ok a.
Proof.
  assert (Hr : recent_ok test_recent) by (split; vm_compute; reflexivity).
  assert (H : Forall recent_ok [] /\ Forall event_ok test_keys).
  { split; [apply List.Forall_nil|]. repeat (apply List.Forall_cons; [split; [intros c [= <-] || done; split; done|by repeat constructor]|]).
    apply List.Forall_nil. }
  split; [exact H|]. exact (interface_safe [] true test_keys (proj1 H) (proj2 H)).
Defined.

Example test_keys_run :
  (fun a => (fd_text (host a), focus a, selected a)) <$> run_keys (App_new []) true test_keys = Some (word "me@box", FActions, Some 0%nat).
Proof. vm_compute. reflexivity. Qed.

(** ** The recent list *)

Section RecentList.
Context {J : SerdeJson}.

(** The first record of each key. *)
Fixpoint newest (rs : list Recent) : list Recent :=
  match rs with
  | [] => []
  | r :: rs => r :: List.filter (fun r' => negb (bytes_eqb (recent_key r') (recent_key r))) (newest rs)
  end.

Definition records (text : list byte) : list Recent := omap recent_of_line (rev (lines text)).

Definition unseen (seen : list (list byte)) (r : Recent) : bool := negb (List.existsb (bytes_eqb (recent_key r)) seen).

Lemma filter_filter {A} (p q : A -> bool) l : List.filter p (List.filter q l) = List.filter (fun x => q x && p x) l.
Proof. induction l as [|x l IH]; [done|]. cbn. destruct (q x); cbn; [destruct (p x)|]; by rewrite IH. Qed.

Lemma unseen_cons k seen r : unseen (k :: seen) r = negb (bytes_eqb (recent_key r) k) && unseen seen r.
Proof. unfold unseen. cbn. by rewrite negb_orb. Qed.

Lemma collect_newest ls : forall seen n,
  collect_recent ls seen n = take n (List.filter (unseen seen) (newest (omap recent_of_line ls))).
Proof.
  induction ls as [|line ls IH]; intros seen [|n]; try done. cbn [collect_recent omap list_omap].
  destruct (recent_of_line line) as [r|]; [|apply IH]. cbn [newest List.filter]. change (unseen seen r) with (negb (List.existsb (bytes_eqb (recent_key r)) seen)).
  destruct (List.existsb (bytes_eqb (recent_key r)) seen) eqn:E; cbn [negb].
  - rewrite IH, filter_filter. f_equal. apply List.filter_ext. intros r'. destruct (bytes_eqb _ _) eqn:Ek; [|done].
    apply bytes_eqb_eq in Ek. unfold unseen. by rewrite Ek, E.
  - cbn [take]. f_equal. rewrite IH, filter_filter. f_equal. apply List.filter_ext. intros r'. apply unseen_cons.
Qed.

Lemma newest_in r rs : r ∈ newest rs -> r ∈ rs.
Proof.
  induction rs as [|x rs IH]; cbn; [done|]. rewrite !elem_of_cons. intros [->|H]; [by left|right].
  apply IH. apply list_elem_of_In, filter_In in H as [H _]. by apply list_elem_of_In.
Qed.

Lemma newest_nodup rs : NoDup (map recent_key (newest rs)).
Proof.
  induction rs as [|r rs IH]; cbn; [constructor|]. constructor.
  - rewrite list_elem_of_fmap. intros (r' & Hk & H). apply list_elem_of_In, filter_In in H as [_ H].
    by rewrite Hk, bytes_eqb_refl in H.
  - revert IH. induction (newest rs) as [|x l IHl]; intros H; [done|]. cbn in *. apply NoDup_cons in H as [Hx Hl].
    destruct (negb _); [|by apply IHl]. constructor; [|by apply IHl]. intros Hin. apply Hx.
    apply list_elem_of_fmap in Hin as (y & -> & Hy). apply list_elem_of_In, filter_In in Hy as [Hy _].
    apply list_elem_of_fmap. exists y. split; [done|by apply list_elem_of_In].
Qed.

(** The recent list is the newest record of each remote and subcommand: the
    early-exit loop over the reversed log with its [seen] set returns the first ten
    of them, newest first, at most ten, no remote and subcommand twice, each read
    from a line of the log that names a user at a host. *)
Theorem recent_list_spec text :
  let rs := load_recent text in
  rs = take 10 (newest (records text)) /\ (length rs <= 10)%nat /\ NoDup (map recent_key rs) /\
  Forall (fun r => contains [x40] (rc_remote r) = true /\ exists line, line ∈ lines text /\ recent_of_line line = Some r) rs.
Proof.
  intros rs. assert (E : rs = take 10 (newest (records text))).
  { subst rs. unfold load_recent. rewrite collect_newest. f_equal. unfold records.
    generalize (newest (omap recent_of_line (rev (lines text)))). intros l. induction l as [|x l IH]; [done|]. cbn. by f_equal. }
  split; [done|]. rewrite E. split_and!.
  - rewrite length_take. lia.
  - pose proof (newest_nodup (records text)) as H. rewrite <- (take_drop 10 (newest _)), map_app in H. by apply NoDup_app in H as [? _].
  - apply List.Forall_forall. intros r Hr. apply list_elem_of_In in Hr. apply (subseteq_take 10), newest_in in Hr.
    unfold records in Hr. apply list_elem_of_omap in Hr as (line & Hl & Hr). apply list_elem_of_In, in_rev, list_elem_of_In in Hl.
    split; [|by exists line]. unfold recent_of_line in Hr. destruct (from_str line) as [v|]; [|done]. cbn in Hr.
    destruct (is_empty (json_text "remote" v) || negb (contains [x40] (json_text "remote" v))) eqn:Ec; [done|].
    apply orb_false_iff in Ec as [_ Ec]. apply negb_false_iff in Ec. destruct (_ || _); [done|]. by injection Hr as <-.
Qed.

End RecentList.

(** ** What the code does that its user would not expect *)

(** Delete at the end of the text deletes the character before the cursor. *)
Lemma delete_at_end f c l : zipper_ok (mkZipper (c :: l) []) -> f = field_of (mkZipper (c :: l) []) ->
  edits f [ERight; EBackspace] = Some (field_of (mkZipper l [])).
Proof.
  intros H ->. cbn [edits]. rewrite (proj1 (line_editor_step _ ERight H I)). cbn [mbind option_bind zedit].
  pose proof (proj1 (line_editor_step _ EBackspace H I)) as E. cbn [zedit drop] in E. by rewrite E.
Qed.

(** A record whose timestamp is not ASCII makes every draw panic. *)
Lemma timestamp_panics : format_ts_ago (word "2024" ++ [xc3; xa9] ++ word "0506T07:08:09Z") = None.
Proof. vm_compute. reflexivity. Qed.

(** Folding the extra actions moves the selection to Scan and keeps the parameter. *)
Lemma collapse_keeps_param a : focus a = FActions -> show_extra a = true -> action a = Some Route ->
  option_map (fun a => (action a, param a)) (command_char a [SPACE]) = Some (Some Scan, param a).
Proof.
  intros Hf Hs Ha. destruct a as [fo ho idx pa re se la va sh ex pu]. cbn in Hf, Hs. subst. unfold action in Ha. cbn [action_idx] in Ha.
  do 14 (destruct idx as [|idx]; [try discriminate Ha; try reflexivity|]). done.
Qed.
