(* ===== verification/Mount.v ===== *)
(** * Mounting a remote directory

    src/src/bin/seam/mount.rs: the requests STAT_PATH, LS_PATH and GET_PATH, their
    server, and the file-system callbacks of the client with their inode table and
    open files.  Each request has a stream of its own: the server writes its whole
    reply and the client reads it frame by frame (Frames.v), so a reply is the
    list of its frames, and a client that has read them all waits for ever. *)

From Stdlib Require Import ZArith Lia Bool List String.
From Stdlib Require Import Strings.Byte.
From stdpp Require Import base list numbers option gmap.
From S2P Require Import Prelude TestCrypto Identity Text Proc Frames Transfer.

Open Scope Z_scope.

(** ** The exported file system *)

Record Meta : Type := mkMeta { m_len : Z; m_mode : Z }.

(** What the system answers: [metadata], [read_dir] with each entry's own
    metadata, and the bytes read until the end, or [None] if opening or reading
    fails. *)
Record RemoteFs : Type := mkRemoteFs {
  rf_metadata : list byte -> option Meta;
  rf_read_dir : list byte -> option (list (list byte * option Meta));
  rf_read : list byte -> option (list byte)
}.

Definition DOTS : list byte := [x2e; x2e].

Definition validate_path (root requested : list byte) : option (list byte) :=
  if contains DOTS requested then None
  else if negb (starts_with root requested) then None
  else Some requested.

Definition build_entry_frame (name : list byte) (size mode : Z) : list byte :=
  [ENTRY] ++ to_be 2 (wrap 16 (Z.of_nat (length name))) ++ name ++ to_be 8 size ++ to_be 4 mode.

(** [Path::file_name] of a path without [..]. *)
Definition file_name (path : list byte) : option (list byte) :=
  list.last (List.filter (fun c => negb (bytes_eqb c [] || bytes_eqb c [x2e])) (split x2f path)).

Definition shown_name (path : list byte) : list byte := default [] (from_utf8_lossy <$> file_name path).

(** [Hangs] when the reply ends before the client has what it waits for. *)
Inductive Answer (A : Type) : Type := Answered (a : A) | Failed (msg : string) | Hangs.
Arguments Answered {A} a.
Arguments Failed {A} msg.
Arguments Hangs {A}.

(** ** The server *)

(** A reply: its frames and the error the handler returns. *)
Definition Reply : Type := list (list byte) * option string.

Definition handle_stat_path (rfs : RemoteFs) (root path_bytes : list byte) : Reply :=
  let path_str := from_utf8_lossy path_bytes in
  match validate_path root path_str with
  | None => ([[DONE]], None)
  | Some path =>
      (match rf_metadata rfs path with
       | Some meta => [build_entry_frame (shown_name path) (m_len meta) (m_mode meta)]
       | None => []
       end ++ [[DONE]], None)
  end.

Definition entry_frame (e : list byte * option Meta) : option (list byte) :=
  (fun meta => build_entry_frame (from_utf8_lossy e.1) (m_len meta) (m_mode meta)) <$> e.2.

Definition handle_ls_path (rfs : RemoteFs) (root path_bytes : list byte) : Reply :=
  let path_str := from_utf8_lossy path_bytes in
  match validate_path root path_str with
  | None => ([[DONE]], None)
  | Some path => (omap entry_frame (default [] (rf_read_dir rfs path)) ++ [[DONE]], None)
  end.

Definition GET_CHUNK : nat := Z.to_nat (32 * 1024).

(** The [while sent < size] loop: the chunks sent. *)
Fixpoint chunks_sent (reads : list (list byte)) (sent size : Z) : list (list byte) :=
  match reads with
  | [] => []
  | chunk :: reads =>
      if sent <? size then chunk :: chunks_sent reads (sent + Z.of_nat (length chunk)) size else []
  end.

Section Code.
Context {H : PlainHash}.

Definition handle_get_path (rfs : RemoteFs) (root path_bytes : list byte) : Reply :=
  let path_str := from_utf8_lossy path_bytes in
  match validate_path root path_str with
  | None => ([], Some "path refused"%string)
  | Some path =>
      match rf_metadata rfs path with
      | None => ([], Some "No such file or directory"%string)
      | Some meta =>
          let size := m_len meta in
          let name := shown_name path in
          let info := [FILE_INFO] ++ to_be 8 size ++ to_be 2 (wrap 16 (Z.of_nat (length name))) ++ name ++ to_be 4 0 in
          match rf_read rfs path with
          | None => ([info], Some "read"%string)
          | Some content =>
              let chunks := chunks_sent (pieces GET_CHUNK content) 0 size in
              ([info] ++ map (cons DATA) chunks ++ [CHECKSUM :: blake3_hash (concat chunks)], None)
          end
      end
  end.

(** One turn of [run_recv]'s loop: the reply to the request's first frame. *)
Definition serve (rfs : RemoteFs) (root frame : list byte) : Reply :=
  match frame with
  | [] => ([], None)
  | t :: rest =>
      if Byte.eqb t STAT_PATH then handle_stat_path rfs root rest
      else if Byte.eqb t LS_PATH then handle_ls_path rfs root rest
      else if Byte.eqb t GET_PATH then handle_get_path rfs root rest
      else ([], None)
  end.

(** ** The client's requests *)

Record RemoteEntry : Type := mkEntry { re_name : list byte; re_size : Z; re_mode : Z }.

Definition parse_entry (frame : list byte) : Answer RemoteEntry :=
  if (length frame <? 3)%nat then Failed "ENTRY frame too short"
  else
    let name_len := Z.to_nat (from_be (slice frame 1 3)) in
    if (length frame <? 3 + name_len + 8 + 4)%nat then Failed "ENTRY frame truncated"
    else Answered (mkEntry (from_utf8_lossy (slice frame 3 (3 + name_len)))
                (from_be (slice frame (3 + name_len) (3 + name_len + 8)))
                (from_be (slice frame (3 + name_len + 8) (3 + name_len + 12)))).

Definition is_tag (t : byte) (frame : list byte) : bool := bytes_eqb (take 1 frame) [t].

Definition read_stat (reply : list (list byte)) : Answer (option RemoteEntry) :=
  match reply with
  | [] => Hangs
  | frame :: _ =>
      if is_tag ENTRY frame
      then match parse_entry frame with Answered e => Answered (Some e) | Failed m => Failed m | Hangs => Hangs end
      else Answered None
  end.

Fixpoint read_ls (reply : list (list byte)) (entries : list RemoteEntry) : Answer (list RemoteEntry) :=
  match reply with
  | [] => Hangs
  | frame :: reply =>
      if is_tag ENTRY frame
      then match parse_entry frame with
           | Answered e => read_ls reply (entries ++ [e])
           | Failed m => Failed m
           | Hangs => Hangs
           end
      else Answered entries
  end.

(** The loop [while content.len() < size], and the checksum. *)
Fixpoint read_content (reply : list (list byte)) (size : Z) (content : list byte) : Answer (list byte) :=
  match reply with
  | [] => Hangs
  | frame :: reply =>
      if Z.of_nat (length content) <? size then
        if is_tag DATA frame then read_content reply size (content ++ drop 1 frame) else Failed "expected DATA frame"
      else if is_checksum frame && negb (bytes_eqb (blake3_hash content) (drop 1 frame)) then Failed "checksum mismatch"
      else Answered content
  end.

Definition read_get (reply : list (list byte)) : Answer (list byte) :=
  match reply with
  | [] => Hangs
  | info :: reply =>
      if negb (is_tag FILE_INFO info) || (length info <? 11)%nat then Failed "expected FILE_INFO response"
      else read_content reply (from_be (slice info 1 9)) []
  end.

(** Each request on a fresh stream, and the server's reply to it. *)
Definition stat_path (rfs : RemoteFs) (root path : list byte) : Answer (option RemoteEntry) :=
  read_stat (serve rfs root (STAT_PATH :: path)).1.

Definition ls_path (rfs : RemoteFs) (root path : list byte) : Answer (list RemoteEntry) :=
  read_ls (serve rfs root (LS_PATH :: path)).1 [].

Definition get_path (rfs : RemoteFs) (root path : list byte) : Answer (list byte) :=
  read_get (serve rfs root (GET_PATH :: path)).1.

End Code.

(** ** Inodes *)

Record InodeTable : Type := mkInodes {
  next_ino : Z;
  ino_to_path : gmap Z (list byte);
  path_to_ino : gmap (list byte) Z
}.

Definition InodeTable_new (root_path : list byte) : InodeTable := mkInodes 2 {[ 1 := root_path ]} {[ root_path := 1 ]}.

Definition path_for (t : InodeTable) (ino : Z) : option (list byte) := ino_to_path t !! ino.

Definition ino_for_path (t : InodeTable) (path : list byte) : InodeTable * Z :=
  match path_to_ino t !! path with
  | Some ino => (t, ino)
  | None =>
      let ino := next_ino t in
      (mkInodes (wrapping_add 64 ino 1) (<[ino := path]> (ino_to_path t)) (<[path := ino]> (path_to_ino t)), ino)
  end.

Definition join_path (parent name : list byte) : list byte :=
  if ends_with [x2f] parent then parent ++ name else parent ++ [x2f] ++ name.

(** ** Attributes *)

Inductive FileType : Type := Directory | RegularFile.

Definition mode_to_kind_and_perm (mode : Z) : FileType * Z :=
  (if Z.land mode 61440 =? 16384 then Directory else RegularFile, Z.land mode 4095).

(** The attributes that depend on the entry. *)
Record FileAttr : Type := mkAttr { fa_ino : Z; fa_size : Z; fa_blocks : Z; fa_kind : FileType; fa_perm : Z; fa_nlink : Z }.

Definition make_attr (ino : Z) (e : RemoteEntry) : FileAttr :=
  let '(kind, perm) := mode_to_kind_and_perm (re_mode e) in
  let perm := if negb (perm =? 0) then perm else match kind with Directory => 493 | RegularFile => 420 end in
  mkAttr ino (re_size e) ((re_size e + 511) / 512) kind perm (match kind with Directory => 2 | RegularFile => 1 end).

(** ** The callbacks *)

Inductive Errno : Type := ENOENT | EINVAL | EIO | EBADF.

Record DirEntry : Type := mkDirEntry { de_ino : Z; de_cookie : Z; de_kind : FileType; de_name : list byte }.

Inductive FsReply : Type :=
  | RpEntry (attr : FileAttr)
  | RpAttr (attr : FileAttr)
  | RpDir (entries : list DirEntry)
  | RpOpened (fh : Z)
  | RpData (data : list byte)
  | RpOk
  | RpError (e : Errno).

Record SeamFS : Type := mkSeamFS { inodes : InodeTable; open_files : gmap Z (list byte); next_fh : Z }.

Definition SeamFS_new (remote_root : list byte) : SeamFS := mkSeamFS (InodeTable_new remote_root) ∅ 1.

Definition set_inodes (s : SeamFS) (t : InodeTable) : SeamFS := mkSeamFS t (open_files s) (next_fh s).

(** The table after the entries of a directory, with their numbers. *)
Fixpoint add_entries (t : InodeTable) (dir : list byte) (entries : list RemoteEntry) : InodeTable * list (Z * FileType * list byte) :=
  match entries with
  | [] => (t, [])
  | e :: entries =>
      let '(t, child_ino) := ino_for_path t (join_path dir (re_name e)) in
      let '(t, rest) := add_entries t dir entries in
      (t, (child_ino, (mode_to_kind_and_perm (re_mode e)).1, re_name e) :: rest)
  end.

(** The listing from [offset] on, as many as [fits] of the reply's buffer; each
    entry's cookie is the offset after it. *)
Definition listed (all : list (Z * FileType * list byte)) (offset fits : nat) : list DirEntry :=
  take fits (drop offset (imap (fun i x => mkDirEntry x.1.1 (Z.of_nat i + 1) x.1.2 x.2) all)).

Section Callbacks.
(** What the requests answer; a callback whose request hangs does not return. *)
Context (stat : list byte -> Answer (option RemoteEntry)) (ls : list byte -> Answer (list RemoteEntry))
  (get : list byte -> Answer (list byte)).

Definition lookup (s : SeamFS) (parent : Z) (name : list byte) : option (SeamFS * FsReply) :=
  match path_for (inodes s) parent with
  | None => Some (s, RpError ENOENT)
  | Some parent_path =>
      if negb (utf8_valid name) then Some (s, RpError EINVAL)
      else
        let child_path := join_path parent_path name in
        match stat child_path with
        | Answered (Some entry) =>
            let '(t, ino) := ino_for_path (inodes s) child_path in
            Some (set_inodes s t, RpEntry (make_attr ino entry))
        | Answered None => Some (s, RpError ENOENT)
        | Failed _ => Some (s, RpError EIO)
        | Hangs => None
        end
  end.

Definition getattr (s : SeamFS) (ino : Z) : option (SeamFS * FsReply) :=
  match path_for (inodes s) ino with
  | None => Some (s, RpError ENOENT)
  | Some path =>
      match stat path with
      | Answered (Some entry) => Some (s, RpAttr (make_attr ino entry))
      | Answered None => Some (s, RpError ENOENT)
      | Failed _ => Some (s, RpError EIO)
      | Hangs => None
      end
  end.

Definition readdir (s : SeamFS) (ino : Z) (offset fits : nat) : option (SeamFS * FsReply) :=
  match path_for (inodes s) ino with
  | None => Some (s, RpError ENOENT)
  | Some path =>
      match ls path with
      | Answered entries =>
          let '(t, children) := add_entries (inodes s) path entries in
          let all := [(ino, Directory, [x2e]); (ino, Directory, DOTS)] ++ children in
          Some (set_inodes s t, RpDir (listed all offset fits))
      | Failed _ => Some (s, RpError EIO)
      | Hangs => None
      end
  end.

Definition open (s : SeamFS) (ino : Z) : option (SeamFS * FsReply) :=
  match path_for (inodes s) ino with
  | None => Some (s, RpError ENOENT)
  | Some path =>
      match get path with
      | Answered bytes =>
          let fh := next_fh s in
          Some (mkSeamFS (inodes s) (<[fh := bytes]> (open_files s)) (wrapping_add 64 fh 1), RpOpened fh)
      | Failed _ => Some (s, RpError EIO)
      | Hangs => None
      end
  end.

Definition read (s : SeamFS) (fh offset size : Z) : SeamFS * FsReply :=
  match open_files s !! fh with
  | None => (s, RpError EBADF)
  | Some content =>
      if Z.of_nat (length content) <=? offset then (s, RpData [])
      else
        let end_ := Z.min (offset + size) (Z.of_nat (length content)) in
        (s, RpData (slice content (Z.to_nat offset) (Z.to_nat end_)))
  end.

Definition release (s : SeamFS) (fh : Z) : SeamFS * FsReply :=
  (mkSeamFS (inodes s) (delete fh (open_files s)) (next_fh s), RpOk).

Inductive FsOp : Type :=
  | OpLookup (parent : Z) (name : list byte)
  | OpGetattr (ino : Z)
  | OpReaddir (ino : Z) (offset fits : nat)
  | OpOpen (ino : Z)
  | OpRead (fh offset size : Z)
  | OpRelease (fh : Z).

Definition fs_step (s : SeamFS) (op : FsOp) : option (SeamFS * FsReply) :=
  match op with
  | OpLookup parent name => lookup s parent name
  | OpGetattr ino => getattr s ino
  | OpReaddir ino offset fits => readdir s ino offset fits
  | OpOpen ino => open s ino
  | OpRead fh offset size => Some (read s fh offset size)
  | OpRelease fh => Some (release s fh)
  end.

End Callbacks.

(** ** Requests *)

Definition meta_ok (m : Meta) : Prop := is_u 64 (m_len m) /\ is_u 32 (m_mode m).

(** Sizes fit their fields and names have at most 255 bytes. *)
Record fs_ok (rfs : RemoteFs) : Prop := {
  ok_metadata p m : rf_metadata rfs p = Some m -> meta_ok m /\ (length (default [] (file_name p)) <= 255)%nat;
  ok_read_dir p es : rf_read_dir rfs p = Some es ->
    Forall (fun e => (length e.1 <= 255)%nat /\ forall m, e.2 = Some m -> meta_ok m) es
}.

Lemma parse_built_entry name size mode :
  utf8_valid name = true -> Z.of_nat (length name) < 2 ^ 16 -> is_u 64 size -> is_u 32 mode ->
  parse_entry (build_entry_frame name size mode) = Answered (mkEntry name size mode).
Proof.
  intros Hv Hl Hs Hm. unfold parse_entry, build_entry_frame.
  assert (Hw : wrap 16 (Z.of_nat (length name)) = Z.of_nat (length name)).
  { apply wrap_small. split; [lia|done]. }
  rewrite Hw. set (frame := [ENTRY] ++ _).
  assert (Hn : slice frame 1 3 = to_be 2 (Z.of_nat (length name))) by (apply (slice_mid [ENTRY]); [done|by rewrite length_to_be]).
  assert (Hlen : length frame = (3 + length name + 8 + 4)%nat).
  { subst frame. rewrite !length_app, !length_to_be. cbn [length]. lia. }
  rewrite Hlen, Hn, from_be_to_be_small, Nat2Z.id.
  2: { split; [lia|done]. }
  rewrite (proj2 (Nat.ltb_ge _ 3)) by lia. rewrite (proj2 (Nat.ltb_ge _ _)) by lia.
  assert (H1 : slice frame 3 (3 + length name) = name).
  { subst frame. rewrite app_assoc. apply slice_mid; [by rewrite length_app, length_to_be|lia]. }
  assert (H2 : slice frame (3 + length name) (3 + length name + 8) = to_be 8 size).
  { subst frame. rewrite !app_assoc, <- (app_assoc _ (to_be 8 size)).
    apply slice_mid; [rewrite !length_app, length_to_be; cbn [length]; lia|rewrite length_to_be; lia]. }
  assert (H3 : slice frame (3 + length name + 8) (3 + length name + 12) = to_be 4 mode).
  { subst frame. rewrite !app_assoc.
    apply slice_last; [rewrite !length_app, !length_to_be; cbn [length]; lia|rewrite length_to_be; lia]. }
  rewrite H1, H2, H3, lossy_valid, !from_be_to_be_small by done. done.
Qed.

Section Requests.
Context {H : PlainHash}.

(** The entry a client sees. *)
Definition seen_entry (name : list byte) (m : Meta) : RemoteEntry := mkEntry name (m_len m) (m_mode m).

Definition seen_entries (es : list (list byte * option Meta)) : list RemoteEntry :=
  omap (fun e => seen_entry (from_utf8_lossy e.1) <$> e.2) es.

Lemma lossy_name_short l : (length l <= 255)%nat -> Z.of_nat (length (from_utf8_lossy l)) < 2 ^ 16.
Proof. intros Hl. pose proof (lossy_length l). lia. Qed.

Lemma stat_answer rfs root path p m :
  fs_ok rfs -> utf8_valid path = true -> validate_path root path = Some p -> rf_metadata rfs p = Some m ->
  stat_path rfs root path = Answered (Some (seen_entry (shown_name p) m)).
Proof.
  intros Hfs Hv Hp Hm. unfold stat_path, serve. change (Byte.eqb STAT_PATH STAT_PATH) with true. cbn iota.
  unfold handle_stat_path. rewrite lossy_valid, Hp, Hm by done. destruct (ok_metadata _ Hfs p m Hm) as [[Hl Hmo] Hn].
  cbn [fst app read_stat]. change (is_tag ENTRY (build_entry_frame _ _ _)) with true. cbn iota.
  assert (Hs : utf8_valid (shown_name p) = true /\ Z.of_nat (length (shown_name p)) < 2 ^ 16).
  { unfold shown_name. destruct (file_name p) as [n|]; cbn in *; [split; [apply lossy_utf8|by apply lossy_name_short]|].
    by split. }
  destruct Hs as [Hs1 Hs2]. rewrite parse_built_entry by done. done.
Qed.

Lemma read_entries_frames es more : forall acc,
  Forall (fun e => (length e.1 <= 255)%nat /\ forall m, e.2 = Some m -> meta_ok m) es ->
  read_ls (omap entry_frame es ++ [DONE] :: more) acc = Answered (acc ++ seen_entries es).
Proof.
  induction es as [|[n [m|]] es IH]; intros acc Hok; cbn [omap list_omap app seen_entries].
  - cbn. by rewrite app_nil_r.
  - apply List.Forall_cons_iff in Hok as [[Hn Hm] Hok]. destruct (Hm m eq_refl) as [Hl Hmo]. cbn [entry_frame fst snd fmap option_fmap option_map] in *.
    cbn [app read_ls]. change (is_tag ENTRY (build_entry_frame _ _ _)) with true. cbn iota.
    rewrite parse_built_entry by (done || apply lossy_utf8 || by apply lossy_name_short).
    rewrite IH by done. by rewrite <- app_assoc.
  - apply List.Forall_cons_iff in Hok as [_ Hok]. cbn. by apply IH.
Qed.

Lemma ls_answer rfs root path p :
  fs_ok rfs -> utf8_valid path = true -> validate_path root path = Some p ->
  ls_path rfs root path = Answered (seen_entries (default [] (rf_read_dir rfs p))).
Proof.
  intros Hfs Hv Hp. unfold ls_path, serve. change (Byte.eqb LS_PATH STAT_PATH) with false.
  change (Byte.eqb LS_PATH LS_PATH) with true. cbn iota. unfold handle_ls_path. rewrite lossy_valid, Hp by done. cbn [fst].
  rewrite read_entries_frames; [done|]. destruct (rf_read_dir rfs p) as [es|] eqn:E; [by apply (ok_read_dir _ Hfs p)|constructor].
Qed.

(** The chunks of the whole contents are all sent and all read. *)
Lemma chunks_all reads : forall sent size, Forall (fun r => r <> []) reads ->
  sent + Z.of_nat (length (concat reads)) = size -> chunks_sent reads sent size = reads.
Proof.
  induction reads as [|r reads IH]; intros sent size Hne Hs; [done|]. apply List.Forall_cons_iff in Hne as [Hr Hne].
  cbn [concat chunks_sent] in *. rewrite length_app in Hs. assert (0 < length r)%nat by (destruct r; [done|cbn; lia]).
  rewrite (proj2 (Z.ltb_lt _ _)) by lia. f_equal. apply IH; [done|lia].
Qed.

Lemma read_chunks reads size tail : forall acc, Forall (fun r => r <> []) reads ->
  Z.of_nat (length acc) + Z.of_nat (length (concat reads)) = size ->
  read_content (map (cons DATA) reads ++ tail) size acc = read_content tail size (acc ++ concat reads).
Proof.
  induction reads as [|r reads IH]; intros acc Hne Hs; cbn [map app concat] in *; [by rewrite app_nil_r|].
  apply List.Forall_cons_iff in Hne as [Hr Hne]. rewrite length_app in Hs. assert (0 < length r)%nat by (destruct r; [done|cbn; lia]).
  cbn [read_content]. rewrite (proj2 (Z.ltb_lt _ _)) by lia. change (is_tag DATA (DATA :: r)) with true. change (drop 1 (DATA :: r)) with r.
  rewrite IH by (done || rewrite length_app; lia). by rewrite <- app_assoc.
Qed.

Lemma get_answer rfs root path p m c :
  utf8_valid path = true -> validate_path root path = Some p -> rf_metadata rfs p = Some m ->
  rf_read rfs p = Some c -> m_len m = Z.of_nat (length c) -> is_u 64 (m_len m) ->
  get_path rfs root path = Answered c.
Proof.
  intros Hv Hp Hm Hc Hlen Hu. unfold get_path, serve. change (Byte.eqb GET_PATH STAT_PATH) with false.
  change (Byte.eqb GET_PATH LS_PATH) with false. change (Byte.eqb GET_PATH GET_PATH) with true. cbn iota.
  unfold handle_get_path. rewrite lossy_valid, Hp, Hm, Hc by done.
  assert (Hpc : concat (pieces GET_CHUNK c) = c) by (apply pieces_spec; unfold GET_CHUNK; lia).
  assert (Hne : Forall (fun r => r <> []) (pieces GET_CHUNK c)) by (apply pieces_spec; unfold GET_CHUNK; lia).
  rewrite chunks_all by (done || rewrite Hpc; lia). rewrite Hpc.
  cbn [fst]. set (info := [FILE_INFO] ++ _). cbn [app read_get].
  assert (Hi : slice info 1 9 = to_be 8 (m_len m)) by (apply (slice_mid [FILE_INFO]); [done|by rewrite length_to_be]).
  assert (Hl : (11 <= length info)%nat) by (subst info; rewrite !length_app, !length_to_be; cbn [length]; lia).
  change (is_tag FILE_INFO info) with true. rewrite (proj2 (Nat.ltb_ge _ _)) by done. cbn [negb orb].
  rewrite Hi, from_be_to_be_small by done. rewrite read_chunks by (done || rewrite Hpc; cbn; lia).
  rewrite Hpc. cbn [app read_content]. rewrite (proj2 (Z.ltb_ge _ _)) by lia.
  rewrite bytes_eqb_refl, andb_false_r. done.
Qed.

(** Every request is answered with the exported file system's state: a path
    under the root is reported with its size and mode or as missing, a directory
    with each of its readable entries in order, a file with its contents (checked
    against their hash); a path outside the root, or with [..], as missing. *)
Theorem mount_requests_answered rfs root path :
  fs_ok rfs -> utf8_valid path = true ->
  stat_path rfs root path
    = Answered (p ← validate_path root path; seen_entry (shown_name p) <$> rf_metadata rfs p)
  /\ ls_path rfs root path
     = Answered (match validate_path root path with
                 | Some p => seen_entries (default [] (rf_read_dir rfs p))
                 | None => []
                 end)
  /\ (forall p m c, validate_path root path = Some p -> rf_metadata rfs p = Some m -> rf_read rfs p = Some c ->
        m_len m = Z.of_nat (length c) -> get_path rfs root path = Answered c).
Proof.
  intros Hfs Hv. split_and!.
  - destruct (validate_path root path) as [p|] eqn:Hp; cbn [mbind option_bind].
    + destruct (rf_metadata rfs p) as [m|] eqn:Hm; [by apply stat_answer|].
      unfold stat_path, serve. change (Byte.eqb STAT_PATH STAT_PATH) with true. cbn iota.
      unfold handle_stat_path. by rewrite lossy_valid, Hp, Hm.
    + unfold stat_path, serve. change (Byte.eqb STAT_PATH STAT_PATH) with true. cbn iota.
      unfold handle_stat_path. by rewrite lossy_valid, Hp.
  - destruct (validate_path root path) as [p|] eqn:Hp; [by apply ls_answer|].
    unfold ls_path, serve. change (Byte.eqb LS_PATH STAT_PATH) with false. change (Byte.eqb LS_PATH LS_PATH) with true.
    cbn iota. unfold handle_ls_path. by rewrite lossy_valid, Hp.
  - intros p m c Hp Hm Hc Hl. destruct (ok_metadata _ Hfs p m Hm) as [[Hu _] _]. by apply (get_answer rfs root path p m c).
Qed.

(** A file that cannot be read hangs the mount: the server's handler of
    GET_PATH returns an error without a reply when the path is refused, gone or
    unreadable (a directory too), and the client waits for the rest of the reply,
    so [open] does not return, and with it, since it holds the connection, no
    other callback. *)
Theorem unreadable_file_hangs rfs root path :
  fs_ok rfs -> utf8_valid path = true ->
  (forall p m, validate_path root path = Some p -> rf_metadata rfs p = Some m -> rf_read rfs p = None) ->
  get_path rfs root path = Hangs.
Proof.
  intros Hfs Hv Hno. unfold get_path, serve. change (Byte.eqb GET_PATH STAT_PATH) with false.
  change (Byte.eqb GET_PATH LS_PATH) with false. change (Byte.eqb GET_PATH GET_PATH) with true. cbn iota.
  unfold handle_get_path. rewrite lossy_valid by done. destruct (validate_path root path) as [p|]; [|done].
  destruct (rf_metadata rfs p) as [m|] eqn:Hm; [|done]. rewrite (Hno p m eq_refl Hm). cbn [fst].
  set (info := [FILE_INFO] ++ _).
  assert (Hl : (11 <= length info)%nat) by (subst info; rewrite !length_app, !length_to_be; cbn [length]; lia).
  cbn [read_get]. change (is_tag FILE_INFO info) with true. by rewrite (proj2 (Nat.ltb_ge _ _)) by done.
Qed.

End Requests.

(** A directory beside the root whose name extends the root's is served too. *)
Lemma sibling_served : validate_path (string_bytes "/mnt/data") (string_bytes "/mnt/data2/x") = Some (string_bytes "/mnt/data2/x").
Proof. vm_compute. reflexivity. Qed.

(** A root directory with one file and one file that cannot be read. *)
Definition test_rfs : RemoteFs := mkRemoteFs
  (fun p => if bytes_eqb p (string_bytes "/d/a") then Some (mkMeta 3 33188) else if bytes_eqb p (string_bytes "/d/b") then Some (mkMeta 4 33188) else None)
  (fun p => if bytes_eqb p (string_bytes "/d") then Some [([x61], Some (mkMeta 3 33188)); ([x62], None)] else None)
  (fun p => if bytes_eqb p (string_bytes "/d/a") then Some [x31; x32; x33] else None).

Lemma test_rfs_ok : fs_ok test_rfs.
Proof.
  split; cbn -[bytes_eqb].
  - intros p m. repeat case_match; intros [= <-]; (split; [split; split; done|]);
      repeat match goal with E : bytes_eqb _ _ = true |- _ => apply bytes_eqb_eq in E; subst end; vm_compute; lia.
  - intros p es. case_match; intros [= <-].
    repeat (apply List.Forall_cons; [split; [cbn; lia|intros m [= <-]; split; done]|]). apply List.Forall_nil.
Qed.

Lemma mount_requests_answered_witness :
  (fs_ok test_rfs /\ utf8_valid (string_bytes "/d") = true)
  /\ ls_path test_rfs (string_bytes "/d") (string_bytes "/d") = Answered [mkEntry [x61] 3 33188].
Proof.
  pose proof test_rfs_ok as H. split; [split; [exact H|reflexivity]|].
  exact (proj1 (proj2 (mount_requests_answered test_rfs (string_bytes "/d") (string_bytes "/d") H eq_refl))).
Defined.

Lemma unreadable_file_hangs_witness :
  get_path test_rfs (string_bytes "/d") (string_bytes "/d/b") = Hangs.
Proof.
  apply (unreadable_file_hangs test_rfs (string_bytes "/d") (string_bytes "/d/b") test_rfs_ok eq_refl).
  intros p m Hp _. vm_compute in Hp. injection Hp as <-. reflexivity.
Defined.

(** ** The inode table *)

Record table_ok (root : list byte) (t : InodeTable) : Prop := {
  ok_next : 2 <= next_ino t < 2 ^ 64;
  ok_bijective i p : ino_to_path t !! i = Some p <-> path_to_ino t !! p = Some i;
  ok_allocated i p : ino_to_path t !! i = Some p -> 1 <= i < next_ino t;
  ok_root : ino_to_path t !! 1 = Some root
}.

(** Numbers given out keep their paths. *)
Definition extends (t t' : InodeTable) : Prop := forall i p, path_for t i = Some p -> path_for t' i = Some p.

#[export] Instance extends_preorder : PreOrder extends.
Proof. split; [by intros t i p|]. intros t1 t2 t3 H12 H23 i p Hp. by apply H23, H12. Qed.

Lemma table_ok_new root : table_ok root (InodeTable_new root).
Proof.
  split; cbn.
  - done.
  - intros i p. rewrite !lookup_singleton_Some. split; intros [<- <-]; done.
  - intros i p. rewrite lookup_singleton_Some. intros [<- _]. lia.
  - by rewrite lookup_singleton_eq.
Qed.

Lemma ino_for_path_spec root t path t' i :
  table_ok root t -> next_ino t + 1 < 2 ^ 64 -> ino_for_path t path = (t', i) ->
  table_ok root t' /\ extends t t' /\ path_for t' i = Some path /\ next_ino t <= next_ino t' <= next_ino t + 1.
Proof.
  intros Hok Hn. unfold ino_for_path. destruct (path_to_ino t !! path) as [ino|] eqn:E; intros [= <- <-].
  { split_and!; [done|done|by apply (ok_bijective _ _ Hok)|lia|lia]. }
  assert (Hfresh : ino_to_path t !! next_ino t = None).
  { destruct (ino_to_path t !! next_ino t) as [p|] eqn:Ep; [|done]. apply (ok_allocated _ _ Hok) in Ep. lia. }
  pose proof (ok_next _ _ Hok) as Hnx.
  assert (Hw : wrapping_add 64 (next_ino t) 1 = next_ino t + 1) by (unfold wrapping_add; apply wrap_small; split; lia).
  unfold path_for, extends. cbn [ino_to_path path_to_ino next_ino]. rewrite Hw, lookup_insert_eq. split_and!; try lia; try done.
  2: { intros j p Hj. unfold path_for in *. cbn [ino_to_path]. rewrite lookup_insert_ne; [done|]. intros <-. by rewrite Hfresh in Hj. }
  split; cbn [ino_to_path path_to_ino next_ino].
  - lia.
  - intros j p. destruct (decide (j = next_ino t)) as [->|Hj].
    + rewrite lookup_insert_eq. destruct (decide (p = path)) as [->|Hp]; [by rewrite lookup_insert_eq; split; intros|].
      rewrite lookup_insert_ne by done. split; [by intros [= ->]|]. intros Hc. apply (ok_bijective _ _ Hok) in Hc. by rewrite Hfresh in Hc.
    + rewrite lookup_insert_ne by done. destruct (decide (p = path)) as [->|Hp].
      * rewrite lookup_insert_eq. split; [|intros [= Ej]; by destruct Hj]. intros Hc. apply (ok_bijective _ _ Hok) in Hc. by rewrite E in Hc.
      * rewrite (lookup_insert_ne _ path) by done. apply (ok_bijective _ _ Hok).
  - intros j p. destruct (decide (j = next_ino t)) as [->|Hj]; [lia|]. rewrite lookup_insert_ne by done.
    intros Hp. apply (ok_allocated _ _ Hok) in Hp. lia.
  - rewrite lookup_insert_ne by lia. apply (ok_root _ _ Hok).
Qed.

Lemma add_entries_spec root dir es : forall t t' children,
  table_ok root t -> next_ino t + Z.of_nat (length es) < 2 ^ 64 -> add_entries t dir es = (t', children) ->
  table_ok root t' /\ extends t t' /\ next_ino t <= next_ino t' <= next_ino t + Z.of_nat (length es)
  /\ Forall2 (fun e c => path_for t' c.1.1 = Some (join_path dir (re_name e)) /\ c.1.2 = (mode_to_kind_and_perm (re_mode e)).1
                         /\ c.2 = re_name e) es children.
Proof.
  induction es as [|e es IH]; intros t t' children Hok Hn; cbn [add_entries length] in *.
  { intros [= <- <-]. split_and!; [done|done|lia|lia|constructor]. }
  destruct (ino_for_path t (join_path dir (re_name e))) as [t1 i] eqn:E1.
  assert (Hlt : next_ino t + 1 < 2 ^ 64) by lia.
  destruct (ino_for_path_spec root t _ t1 i Hok Hlt E1) as (Hok1 & He1 & Hi & Hn1).
  destruct (add_entries t1 dir es) as [t2 rest] eqn:E2. intros [= <- <-].
  assert (Hlt2 : next_ino t1 + Z.of_nat (length es) < 2 ^ 64) by lia.
  destruct (IH t1 t2 rest Hok1 Hlt2 E2) as (Hok2 & He2 & Hn2 & Hf).
  split_and!; [done|by etrans|lia|lia|]. constructor; [|done]. cbn [fst snd]. by split_and!; [apply He2| |].
Qed.

(** ** Runs of the callbacks *)

Record Call : Type := mkCall {
  c_op : FsOp;
  c_stat : list byte -> Answer (option RemoteEntry);
  c_ls : list byte -> Answer (list RemoteEntry);
  c_get : list byte -> Answer (list byte)
}.

Definition do_call (s : SeamFS) (c : Call) : option (SeamFS * FsReply) := fs_step (c_stat c) (c_ls c) (c_get c) s (c_op c).

Fixpoint fs_run (s : SeamFS) (calls : list Call) : option (SeamFS * list FsReply) :=
  match calls with
  | [] => Some (s, [])
  | c :: calls =>
      r ← do_call s c;
      rs ← fs_run r.1 calls;
      Some (rs.1, r.2 :: rs.2)
  end.

(** Directories have at most [n] entries. *)
Definition listings_within (n : Z) (c : Call) : Prop :=
  forall path es, c_ls c path = Answered es -> Z.of_nat (length es) <= n.

Record mount_ok (root : list byte) (s : SeamFS) : Prop := {
  ok_table : table_ok root (inodes s);
  ok_next_fh : 1 <= next_fh s < 2 ^ 64;
  ok_handles fh c : open_files s !! fh = Some c -> 1 <= fh < next_fh s
}.

Lemma mount_ok_new root : mount_ok root (SeamFS_new root).
Proof. split; cbn; [apply table_ok_new|done|]. intros fh c. by rewrite lookup_empty. Qed.

(** What one callback does: only an [open] gives out a handle, only the handle's
    [release] takes its file away. *)
Lemma do_call_spec root n s c s' r :
  mount_ok root s -> 1 <= n -> listings_within n c -> next_ino (inodes s) + n < 2 ^ 64 -> next_fh s + 1 < 2 ^ 64 ->
  do_call s c = Some (s', r) ->
  mount_ok root s' /\ extends (inodes s) (inodes s') /\ next_ino (inodes s') <= next_ino (inodes s) + n
  /\ next_fh s <= next_fh s' <= next_fh s + 1
  /\ (forall fh b, open_files s !! fh = Some b -> c_op c <> OpRelease fh -> open_files s' !! fh = Some b).
Proof.
  intros Hok Hn Hw Hi Hfh. pose proof (ok_table _ _ Hok) as Ht. pose proof (ok_next_fh _ _ Hok) as Hf.
  assert (Hsame : mount_ok root s /\ extends (inodes s) (inodes s) /\ next_ino (inodes s) <= next_ino (inodes s) + n
    /\ next_fh s <= next_fh s <= next_fh s + 1
    /\ (forall fh b, open_files s !! fh = Some b -> c_op c <> OpRelease fh -> open_files s !! fh = Some b)).
  { split_and!; try lia; try done. }
  assert (Htable : forall t, table_ok root t -> extends (inodes s) t -> next_ino t <= next_ino (inodes s) + n ->
    mount_ok root (set_inodes s t) /\ extends (inodes s) t /\ next_ino t <= next_ino (inodes s) + n
    /\ next_fh s <= next_fh s <= next_fh s + 1
    /\ (forall fh b, open_files s !! fh = Some b -> c_op c <> OpRelease fh -> open_files s !! fh = Some b)).
  { intros t Ht' He Hb. split_and!; try lia; try done. split; cbn; [done|done|apply (ok_handles _ _ Hok)]. }
  unfold do_call, fs_step. destruct (c_op c) as [parent name|ino|ino offset fits|ino|fh offset size|fh] eqn:Eop.
  - unfold lookup. destruct (path_for _ parent) as [pp|]; [|by intros [= <- <-]].
    destruct (negb _); [by intros [= <- <-]|]. destruct (c_stat c _) as [[e|]|m|]; [|by intros [= <- <-]|by intros [= <- <-]|done].
    destruct (ino_for_path _ _) as [t i] eqn:E. intros [= <- <-].
    assert (Hlt : next_ino (inodes s) + 1 < 2 ^ 64) by lia.
    destruct (ino_for_path_spec root _ _ t i Ht Hlt E) as (Ht' & He & _ & Hb). apply Htable; [done|done|cbn; lia].
  - unfold getattr. destruct (path_for _ ino) as [p|]; [|by intros [= <- <-]].
    destruct (c_stat c _) as [[e|]|m|]; [by intros [= <- <-]..|done].
  - unfold readdir. destruct (path_for _ ino) as [p|]; [|by intros [= <- <-]].
    destruct (c_ls c p) as [es|m|] eqn:El; [|by intros [= <- <-]|done].
    destruct (add_entries _ _ _) as [t children] eqn:E. intros [= <- <-]. pose proof (Hw p es El).
    assert (Hlt : next_ino (inodes s) + Z.of_nat (length es) < 2 ^ 64) by lia.
    destruct (add_entries_spec root p es _ t children Ht Hlt E) as (Ht' & He & Hb & _). apply Htable; [done|done|cbn; lia].
  - unfold open. destruct (path_for _ ino) as [p|]; [|by intros [= <- <-]].
    destruct (c_get c p) as [bytes|m|]; [|by intros [= <- <-]|done]. intros [= <- <-].
    assert (Hwr : wrapping_add 64 (next_fh s) 1 = next_fh s + 1) by (unfold wrapping_add; apply wrap_small; split; lia).
    cbn [inodes open_files next_fh]. rewrite Hwr. split_and!; try lia; try done.
    + split; cbn [inodes open_files next_fh]; [done|lia|]. intros fh b. rewrite lookup_insert_Some.
      intros [[E _]|[_ Hb]]; [lia|]. apply (ok_handles _ _ Hok) in Hb. lia.
    + intros fh b Hb _. rewrite lookup_insert_ne; [done|]. intros E. apply (ok_handles _ _ Hok) in Hb. lia.
  - unfold read. destruct (open_files s !! fh) as [content|]; [|by intros [= <- <-]]. destruct (_ <=? _); by intros [= <- <-].
  - intros [= <- <-]. unfold release. cbn [inodes open_files next_fh]. split_and!; try lia; try done.
    + split; cbn [inodes open_files next_fh]; [done|done|]. intros fh' b. rewrite lookup_delete_Some. intros [_ Hb].
      by apply (ok_handles _ _ Hok) in Hb.
    + intros fh' b Hb Hne. rewrite lookup_delete_ne; [done|]. by intros ->.
Qed.

Lemma fs_run_spec root n calls : forall s s' rs,
  mount_ok root s -> 1 <= n -> Forall (listings_within n) calls ->
  next_ino (inodes s) + n * Z.of_nat (length calls) < 2 ^ 64 -> next_fh s + Z.of_nat (length calls) < 2 ^ 64 ->
  fs_run s calls = Some (s', rs) ->
  mount_ok root s' /\ extends (inodes s) (inodes s') /\ next_ino (inodes s') <= next_ino (inodes s) + n * Z.of_nat (length calls)
  /\ next_fh s' <= next_fh s + Z.of_nat (length calls)
  /\ (forall fh b, open_files s !! fh = Some b -> Forall (fun c => c_op c <> OpRelease fh) calls -> open_files s' !! fh = Some b).
Proof.
  induction calls as [|c calls IH]; intros s s' rs Hok Hn Hw Hi Hfh; cbn [fs_run length] in *.
  { intros [= <- <-]. split_and!; try lia; done. }
  apply List.Forall_cons_iff in Hw as [Hw1 Hw]. destruct (do_call s c) as [[s1 r]|] eqn:E; [|done]. cbn [mbind option_bind fst snd].
  destruct (fs_run s1 calls) as [[s2 rs2]|] eqn:E2; [|done]. intros [= <- <-]. cbn [fst].
  assert (Hi1 : next_ino (inodes s) + n < 2 ^ 64) by nia.
  assert (Hf1 : next_fh s + 1 < 2 ^ 64) by lia.
  destruct (do_call_spec root n s c s1 r Hok Hn Hw1 Hi1 Hf1 E) as (Hok1 & He1 & Hb1 & Hh1 & Hk1).
  assert (Hi2 : next_ino (inodes s1) + n * Z.of_nat (length calls) < 2 ^ 64) by nia.
  assert (Hf2 : next_fh s1 + Z.of_nat (length calls) < 2 ^ 64) by lia.
  destruct (IH s1 s2 rs2 Hok1 Hn Hw Hi2 Hf2 E2) as (Hok2 & He2 & Hb2 & Hh2 & Hk2).
  split_and!; [done|by etrans|nia|lia|]. intros fh b Hb Hr. apply List.Forall_cons_iff in Hr as [Hr1 Hr]. apply Hk2; [by apply Hk1|done].
Qed.

(** Inode numbers are identities: through any callbacks, whatever the remote
    side answers, the table maps numbers and paths one to one, number 1 is the
    mount's root, and a number once given out means the same path for the life of
    the mount (as long as the numbers last). *)
Theorem inodes_stable root n calls1 calls2 s1 s2 rs1 rs2 :
  1 <= n -> Forall (listings_within n) (calls1 ++ calls2) -> 2 + n * Z.of_nat (length (calls1 ++ calls2)) < 2 ^ 64 ->
  fs_run (SeamFS_new root) calls1 = Some (s1, rs1) -> fs_run s1 calls2 = Some (s2, rs2) ->
  (forall i p, ino_to_path (inodes s2) !! i = Some p <-> path_to_ino (inodes s2) !! p = Some i)
  /\ path_for (inodes s2) 1 = Some root
  /\ (forall i p, path_for (inodes s1) i = Some p -> path_for (inodes s2) i = Some p).
Proof.
  intros Hn Hw Hb H1 H2. apply List.Forall_app in Hw as [Hw1 Hw2]. rewrite length_app in Hb.
  assert (Hc1 : next_ino (inodes (SeamFS_new root)) + n * Z.of_nat (length calls1) < 2 ^ 64) by (cbn [SeamFS_new inodes InodeTable_new next_ino]; nia).
  assert (Hf1 : next_fh (SeamFS_new root) + Z.of_nat (length calls1) < 2 ^ 64) by (cbn [SeamFS_new next_fh]; nia).
  destruct (fs_run_spec root n calls1 _ s1 rs1 (mount_ok_new root) Hn Hw1 Hc1 Hf1 H1) as (Hok1 & _ & Hi1 & Hh1 & _).
  cbn [SeamFS_new inodes InodeTable_new next_ino next_fh] in Hi1, Hh1.
  assert (Hc2 : next_ino (inodes s1) + n * Z.of_nat (length calls2) < 2 ^ 64) by nia.
  assert (Hf2 : next_fh s1 + Z.of_nat (length calls2) < 2 ^ 64) by nia.
  destruct (fs_run_spec root n calls2 s1 s2 rs2 Hok1 Hn Hw2 Hc2 Hf2 H2) as (Hok2 & He & _).
  split; [apply (ok_bijective _ _ (ok_table _ _ Hok2))|]. split; [apply (ok_root _ _ (ok_table _ _ Hok2))|exact He].
Qed.

(** An open file reads as it was when it was opened: through any callbacks but
    the handle's own [release], reading at any offset returns the bytes there, as
    many as asked for and exist. *)
Theorem open_file_snapshot root n calls1 calls2 s1 s2 rs1 rs2 c ino path bytes offset size :
  1 <= n -> Forall (listings_within n) (calls1 ++ [c] ++ calls2) -> 2 + n * Z.of_nat (length (calls1 ++ [c] ++ calls2)) < 2 ^ 64 ->
  fs_run (SeamFS_new root) calls1 = Some (s1, rs1) ->
  c_op c = OpOpen ino -> path_for (inodes s1) ino = Some path -> c_get c path = Answered bytes ->
  fs_run s1 (c :: calls2) = Some (s2, RpOpened (next_fh s1) :: rs2) ->
  Forall (fun c => c_op c <> OpRelease (next_fh s1)) calls2 -> 0 <= offset -> 0 <= size ->
  read s2 (next_fh s1) offset size = (s2, RpData (take (Z.to_nat size) (drop (Z.to_nat offset) bytes))).
Proof.
  intros Hn Hw Hb H1 Hop Hp Hg H2 Hr Ho Hs. apply List.Forall_app in Hw as [Hw1 Hw]. apply List.Forall_cons_iff in Hw as [Hwc Hw2].
  cbn [app] in Hb. rewrite length_app in Hb. cbn [length] in Hb.
  assert (Hc1 : next_ino (inodes (SeamFS_new root)) + n * Z.of_nat (length calls1) < 2 ^ 64) by (cbn [SeamFS_new inodes InodeTable_new next_ino]; nia).
  assert (Hf1 : next_fh (SeamFS_new root) + Z.of_nat (length calls1) < 2 ^ 64) by (cbn [SeamFS_new next_fh]; nia).
  destruct (fs_run_spec root n calls1 _ s1 rs1 (mount_ok_new root) Hn Hw1 Hc1 Hf1 H1) as (Hok1 & _ & Hi1 & Hh1 & _).
  cbn [SeamFS_new inodes InodeTable_new next_ino next_fh] in Hi1, Hh1.
  cbn [fs_run] in H2. destruct (do_call s1 c) as [[s r]|] eqn:E; [|done]. cbn [mbind option_bind fst snd] in H2.
  destruct (fs_run s calls2) as [[s' rs']|] eqn:E2; [|done]. injection H2 as <- _ _.
  assert (Hi2 : next_ino (inodes s1) + n < 2 ^ 64) by nia. assert (Hf2 : next_fh s1 + 1 < 2 ^ 64) by nia.
  destruct (do_call_spec root n s1 c s r Hok1 Hn Hwc Hi2 Hf2 E) as (Hok & _ & Hb2 & Hh2 & _).
  assert (Hopen : open_files s !! next_fh s1 = Some bytes).
  { unfold do_call, fs_step, open in E. rewrite Hop, Hp, Hg in E. injection E as <- _. apply lookup_insert_eq. }
  assert (Hi3 : next_ino (inodes s) + n * Z.of_nat (length calls2) < 2 ^ 64) by nia.
  assert (Hf3 : next_fh s + Z.of_nat (length calls2) < 2 ^ 64) by nia.
  destruct (fs_run_spec root n calls2 s s' rs' Hok Hn Hw2 Hi3 Hf3 E2) as (_ & _ & _ & _ & Hk).
  unfold read. cbn [fst]. rewrite (Hk _ _ Hopen Hr). destruct (Z.of_nat (length bytes) <=? offset) eqn:El; cmp_facts.
  - rewrite (drop_ge bytes) by lia. by rewrite take_nil.
  - unfold slice. do 2 f_equal. replace (Z.to_nat (Z.min (offset + size) (Z.of_nat (length bytes))) - Z.to_nat offset)%nat
      with (Nat.min (Z.to_nat size) (length bytes - Z.to_nat offset)) by lia.
    rewrite <- take_take. f_equal. apply take_ge. rewrite length_drop. lia.
Qed.

(** ** Listing a directory page by page *)

(** The kernel goes on from the last entry's cookie. *)
Fixpoint list_pages (ls : list byte -> Answer (list RemoteEntry)) (s : SeamFS) (ino : Z) (offset : nat) (fits : list nat)
  : option (SeamFS * list DirEntry) :=
  match fits with
  | [] => Some (s, [])
  | f :: fits =>
      r ← readdir ls s ino offset f;
      match r.2 with
      | RpDir page =>
          let offset := match list.last page with Some e => Z.to_nat (de_cookie e) | None => offset end in
          rs ← list_pages ls r.1 ino offset fits;
          Some (rs.1, page ++ rs.2)
      | _ => None
      end
  end.

Lemma listed_names all offset fits : map de_name (listed all offset fits) = take fits (drop offset (map snd all)).
Proof.
  unfold listed. change (map de_name) with (fmap (M := list) de_name). rewrite fmap_take, fmap_drop. do 2 f_equal.
  apply list_eq. intros i. rewrite list_lookup_fmap, list_lookup_imap, list_lookup_fmap. by destruct (all !! i).
Qed.

Lemma listed_length all offset fits : length (listed all offset fits) = Nat.min fits (length all - offset).
Proof. unfold listed. by rewrite length_take, length_drop, length_imap. Qed.

Lemma listed_lookup all offset fits i e : listed all offset fits !! i = Some e ->
  exists x, all !! (offset + i)%nat = Some x /\ e = mkDirEntry x.1.1 (Z.of_nat (offset + i) + 1) x.1.2 x.2.
Proof.
  unfold listed. intros H. apply lookup_take_Some in H as [H _]. rewrite lookup_drop, list_lookup_imap in H.
  destruct (all !! (offset + i)%nat) as [x|]; [|done]. injection H as <-. by exists x.
Qed.

(** The next offset is that after the page. *)
Lemma listed_next all offset fits :
  match list.last (listed all offset fits) with Some e => Z.to_nat (de_cookie e) | None => offset end
  = (offset + length (listed all offset fits))%nat.
Proof.
  destruct (list.last (listed all offset fits)) as [e|] eqn:E.
  - pose proof E as El. rewrite last_lookup in El. apply listed_lookup in El as (x & _ & ->). cbn [de_cookie].
    assert (0 < length (listed all offset fits))%nat by (destruct (listed all offset fits); [done|cbn; lia]). lia.
  - apply last_None in E. rewrite E. cbn. lia.
Qed.

Definition dir_names (es : list RemoteEntry) : list (list byte) := [[x2e]; DOTS] ++ map re_name es.

(** The number of an entry is that of its path. *)
Definition names_child (t : InodeTable) (path : list byte) (ino : Z) (e : DirEntry) : Prop :=
  (de_ino e = ino /\ (de_name e = [x2e] \/ de_name e = DOTS)) \/ path_for t (de_ino e) = Some (join_path path (de_name e)).

Lemma pages_from root ls es path ino fits : forall s offset,
  mount_ok root s -> path_for (inodes s) ino = Some path -> ls path = Answered es ->
  next_ino (inodes s) + Z.of_nat (length es) * Z.of_nat (length fits) < 2 ^ 64 ->
  exists s' entries, list_pages ls s ino offset fits = Some (s', entries)
    /\ map de_name entries = take (sum_list fits) (drop offset (dir_names es))
    /\ Forall (names_child (inodes s') path ino) entries /\ extends (inodes s) (inodes s').
Proof.
  induction fits as [|f fits IH]; intros s offset Hok Hp Hl Hb; cbn [list_pages length] in *.
  { exists s, []. by split_and!. }
  unfold readdir. rewrite Hp, Hl. destruct (add_entries (inodes s) path es) as [t children] eqn:E.
  cbn [mbind option_bind fst snd].
  assert (Hlt : next_ino (inodes s) + Z.of_nat (length es) < 2 ^ 64) by nia.
  destruct (add_entries_spec root path es _ t children (ok_table _ _ Hok) Hlt E) as (Ht & He & Hn & Hf).
  set (all := [(ino, Directory, [x2e]); (ino, Directory, DOTS)] ++ children).
  assert (Hnames : map snd all = dir_names es).
  { unfold all, dir_names. rewrite map_app. f_equal. clear -Hf. induction Hf as [|e c es cs (_ & _ & Hc) _ IH]; [done|]. cbn. by rewrite Hc, IH. }
  rewrite listed_next.
  assert (Hok1 : mount_ok root (set_inodes s t)) by (split; cbn; [done|apply (ok_next_fh _ _ Hok)|apply (ok_handles _ _ Hok)]).
  assert (Hb1 : next_ino (inodes (set_inodes s t)) + Z.of_nat (length es) * Z.of_nat (length fits) < 2 ^ 64)
    by (cbn [set_inodes inodes]; nia).
  destruct (IH (set_inodes s t) (offset + length (listed all offset f))%nat Hok1 (He _ _ Hp) Hl Hb1) as (s' & entries & -> & Hm & Hc & He').
  cbn [mbind option_bind fst snd]. exists s', (listed all offset f ++ entries). split_and!; [done| | |].
  - rewrite map_app, listed_names, Hnames, Hm, listed_length, <- (length_map snd all), Hnames. cbn [sum_list sum_list_with id].
    rewrite <- drop_drop. set (l := drop offset (dir_names es)).
    replace (length (dir_names es) - offset)%nat with (length l) by (subst l; by rewrite length_drop).
    destruct (decide (f <= length l)%nat) as [Hle|Hgt].
    + rewrite Nat.min_l by done. by rewrite take_take_drop.
    + rewrite Nat.min_r by lia. rewrite drop_all, take_nil, app_nil_r, !take_ge by lia. done.
  - apply List.Forall_app. split; [|done]. apply List.Forall_forall. intros e Hin.
    apply list_elem_of_In, list_elem_of_lookup in Hin as [i Hi]. apply listed_lookup in Hi as (x & Hx & ->).
    unfold names_child. cbn [de_ino de_name]. subst all. destruct (offset + i)%nat as [|[|k]]; cbn in Hx.
    + injection Hx as <-. left. by split; [|left].
    + injection Hx as <-. left. by split; [|right].
    + right. apply (Forall2_lookup_r _ _ _ _ _ Hf) in Hx as (e & _ & Hpe & _ & Hn'). rewrite Hn'. by apply He'.
  - by etrans.
Qed.

(** C40: A directory is listed completely and once: reading it page by page, each
    call going on from the cookie of the last entry and taking as many entries as
    its buffer holds, gives [.], [..] and the remote entries in order, none left out
    and none twice, up to the room there was; and each entry's inode number is the
    one of its path. *)
Theorem readdir_pages root ls es path ino fits s :
  mount_ok root s -> path_for (inodes s) ino = Some path -> ls path = Answered es ->
  next_ino (inodes s) + Z.of_nat (length es) * Z.of_nat (length fits) < 2 ^ 64 ->
  exists s' entries, list_pages ls s ino 0 fits = Some (s', entries)
    /\ map de_name entries = take (sum_list fits) (dir_names es)
    /\ Forall (names_child (inodes s') path ino) entries.
Proof.
  intros Hok Hp Hl Hb. destruct (pages_from root ls es path ino fits s 0 Hok Hp Hl Hb) as (s' & entries & H1 & H2 & H3 & _).
  by exists s', entries.
Qed.

(** ** Witnesses *)

Definition test_call (op : FsOp) : Call :=
  mkCall op (stat_path test_rfs (string_bytes "/d")) (ls_path test_rfs (string_bytes "/d")) (get_path test_rfs (string_bytes "/d")).

Lemma test_within op : listings_within 1 (test_call op).
Proof.
  intros path es. cbn [c_ls test_call]. unfold ls_path, serve. change (Byte.eqb LS_PATH STAT_PATH) with false.
  change (Byte.eqb LS_PATH LS_PATH) with true. cbn iota. unfold handle_ls_path.
  destruct (validate_path _ _) as [p|]; [|by intros [= <-]]. cbn [test_rfs rf_read_dir].
  destruct (bytes_eqb p (string_bytes "/d")); intros [= <-]; vm_compute; done.
Qed.

Definition after (s : SeamFS) (calls : list Call) : SeamFS := match fs_run s calls with Some r => r.1 | None => s end.

Lemma inodes_stable_witness :
  let s1 := after (SeamFS_new (string_bytes "/d")) [test_call (OpLookup 1 [x61])] in
  let s2 := after s1 [test_call (OpGetattr 2)] in
  path_for (inodes s2) 1 = Some (string_bytes "/d") /\ path_for (inodes s1) 2 = Some (string_bytes "/d/a").
Proof.
  intros s1 s2. split; [|vm_compute; reflexivity].
  refine (proj1 (proj2 (inodes_stable (string_bytes "/d") 1 [test_call (OpLookup 1 [x61])] [test_call (OpGetattr 2)]
    s1 s2 [RpEntry (mkAttr 2 3 1 RegularFile 420 1)] [RpAttr (mkAttr 2 3 1 RegularFile 420 1)] _ _ _ _ _))).
  - lia.
  - cbn [app]. repeat (apply List.Forall_cons; [apply test_within|]). apply List.Forall_nil.
  - cbn [length app]. lia.
  - vm_compute. reflexivity.
  - vm_compute. reflexivity.
Defined.

Lemma open_file_snapshot_witness :
  let c := test_call (OpOpen 2) in
  let s1 := after (SeamFS_new (string_bytes "/d")) [test_call (OpLookup 1 [x61])] in
  let s2 := after s1 [c; test_call (OpRead 1 0 9)] in
  read s2 (next_fh s1) 1 9 = (s2, RpData [x32; x33]).
Proof.
  intros c s1 s2.
  apply (open_file_snapshot (string_bytes "/d") 1 [test_call (OpLookup 1 [x61])] [test_call (OpRead 1 0 9)]
    s1 s2 [RpEntry (mkAttr 2 3 1 RegularFile 420 1)] [RpData [x31; x32; x33]] c 2 (string_bytes "/d/a") [x31; x32; x33] 1 9).
  - lia.
  - cbn [app]. repeat (apply List.Forall_cons; [apply test_within|]). apply List.Forall_nil.
  - cbn [length app]. lia.
  - vm_compute. reflexivity.
  - reflexivity.
  - vm_compute. reflexivity.
  - vm_compute. reflexivity.
  - vm_compute. reflexivity.
  - apply List.Forall_cons; [done|apply List.Forall_nil].
  - lia.
  - lia.
Defined.

Lemma readdir_pages_witness :
  exists s' entries,
    list_pages (ls_path test_rfs (string_bytes "/d")) (SeamFS_new (string_bytes "/d")) 1 0 [1; 1; 5]%nat = Some (s', entries)
    /\ map de_name entries = [[x2e]; DOTS; [x61]].
Proof.
  destruct (readdir_pages (string_bytes "/d") (ls_path test_rfs (string_bytes "/d")) [mkEntry [x61] 3 33188] (string_bytes "/d") 1 [1; 1; 5]%nat
    (SeamFS_new (string_bytes "/d")) (mount_ok_new _) eq_refl eq_refl eq_refl) as (s' & entries & H1 & H2 & _).
  exists s', entries. split; [exact H1|exact H2].
Defined.
