(* ===== verification/Shell.v ===== *)
(** * Remote shells

    src/src/bin/seam/shell.rs and the shell service of src/src/bin/seam/serve.rs:
    the frames of both directions, the three client loops, the receiver without a
    terminal, and the terminal bridge.  A stream is the bytes that are on their way
    and whether its writer has ended it (Mux.v); [select!] picks any branch that is
    ready, so a session is a step relation; a branch that has begun to read a frame
    waits for the whole of it.  The child process writes and ends as it likes. *)

From Stdlib Require Import ZArith Lia Bool List String.
From Stdlib Require Import Strings.Byte.
From stdpp Require Import base list numbers option relations.
From S2P Require Import Prelude TestCrypto Identity Text.

Open Scope Z_scope.

(** ** Frames *)

Definition SHELL_EXIT : byte := x01.
Definition SHELL_ERR : byte := x02.
Definition SHELL_STDIN : byte := x10.
Definition SHELL_STDIN_EOF : byte := x11.
Definition SHELL_RESIZE : byte := x12.
Definition SHELL_TERM : byte := x13.

Definition stdin_frame (data : list byte) : list byte :=
  [SHELL_STDIN] ++ to_be 2 (wrap 16 (Z.of_nat (length data))) ++ data.

Definition send_resize (cols rows : Z) : list byte := [SHELL_RESIZE] ++ to_be 2 cols ++ to_be 2 rows.

Definition term_frame (term : list byte) : list byte :=
  let term_len := Nat.min (length term) 255 in
  [SHELL_TERM; byte_of (Z.of_nat term_len)] ++ take term_len term.

(** What the receiver sends when the command cannot be started. *)
Definition err_frame (msg : list byte) : list byte :=
  let len := Nat.min (length msg) (Z.to_nat 65535) in
  [SHELL_ERR] ++ to_be 2 (Z.of_nat len) ++ take len msg.

Definition exit_frame (code : byte) : list byte := [SHELL_EXIT; code].

(** ** The client *)

(** [run_pipe_mode]'s variables, and what it wrote to standard output and error. *)
Record Pipe : Type := mkPipe { out_buf : list byte; stdout : list byte; message : option (list byte) }.

Definition Pipe_new : Pipe := mkPipe [] [] None.

Definition flush (c : Pipe) : Pipe := mkPipe [] (stdout c ++ out_buf c) (message c).

Definition push (c : Pipe) (b : byte) : Pipe :=
  let c := mkPipe (out_buf c ++ [b]) (stdout c) (message c) in
  if (4096 <=? length (out_buf c))%nat then flush c else c.

Definition say (c : Pipe) (msg : list byte) : Pipe := mkPipe (out_buf c) (stdout c) (Some (from_utf8_lossy msg)).

(** How a loop ends: with an exit code, or with an error. *)
Inductive Ending : Type := Exits (code : Z) | Bails (msg : string).

Definition Read : Type := Pipe * list byte * option Ending.

(** The read branch of the loop with standard input. *)
Definition pipe_read (c : Pipe) (s : list byte) : Read :=
  match s with
  | [] => (c, [], Some (Exits 0))
  | b :: s =>
      if Byte.eqb b SHELL_EXIT then
        let code := match s with [] => 1 | code :: _ => byte_val code end in
        (flush c, drop 1 s, Some (Exits code))
      else if Byte.eqb b SHELL_ERR then
        let '(len_buf, s) := read_fill 2 s in
        let '(msg, s) := read_fill (Z.to_nat (from_be len_buf)) s in
        (say c msg, s, Some (Exits 1))
      else (push c b, s, None)
  end.

(** The loop without standard input. *)
Definition plain_read (c : Pipe) (s : list byte) : Read :=
  match s with
  | [] => (c, [], Some (Exits 0))
  | b :: s =>
      if Byte.eqb b SHELL_EXIT then
        let ec := match s with [] => 0 | code :: _ => byte_val code end in
        (flush c, drop 1 s, Some (Exits ec))
      else if Byte.eqb b SHELL_ERR then
        match read_exact 2 s with
        | (None, s) => (c, s, Some (Bails "shell: truncated error frame"))
        | (Some len_buf, s) =>
            let '(msg, s) := read_fill (Z.to_nat (from_be len_buf)) s in
            (say c msg, s, Some (Bails "remote command failed to start"))
        end
      else (push c b, s, None)
  end.

(** The read branch of [run_interactive_pty]: each byte is written at once. *)
Definition pty_read (c : Pipe) (s : list byte) : Read :=
  match s with
  | [] => (c, [], Some (Exits 0))
  | b :: s =>
      if Byte.eqb b SHELL_EXIT then
        let code := match s with [] => 1 | code :: _ => byte_val code end in
        (c, drop 1 s, Some (Exits code))
      else if Byte.eqb b SHELL_ERR then
        let '(len_buf, s) := read_fill 2 s in
        let '(msg, s) := read_fill (Z.to_nat (from_be len_buf)) s in
        (say c msg, s, Some (Exits 1))
      else (mkPipe (out_buf c) (stdout c ++ [b]) (message c), s, None)
  end.

(** A loop's reads up to its end; each takes a byte at least. *)
Fixpoint read_loop (read : Pipe -> list byte -> Read) (fuel : nat) (c : Pipe) (s : list byte) : option (Pipe * Ending) :=
  match fuel with
  | O => None
  | S fuel =>
      match read c s with
      | (c, _, Some e) => Some (c, e)
      | (c, s, None) => read_loop read fuel c s
      end
  end.

(** All reads of a stream that ends after [s]. *)
Definition read_all (read : Pipe -> list byte -> Read) (s : list byte) : option (Pipe * Ending) :=
  read_loop read (S (length s)) Pipe_new s.

(** [run_pipe_mode]'s standard-input branch: what is written for what the
    channel gives. *)
Definition stdin_bytes (chunk : option (list byte)) : list byte :=
  match chunk with
  | Some [] => [SHELL_STDIN_EOF]
  | Some data => stdin_frame data
  | None => [SHELL_STDIN_EOF]
  end.

(** ** The receiver without a terminal *)

(** The read branch of [run_recv_plain] while the child's input is open: whether it
    stays open, what is written to it and what is left of the stream.  [failed] is
    how much a failing [write_all] wrote. *)
Definition plain_input (s : list byte) (failed : option nat) : bool * list byte * list byte :=
  match s with
  | [] => (false, [], [])
  | b :: s =>
      if Byte.eqb b SHELL_STDIN then
        match read_exact 2 s with
        | (None, s) => (false, [], s)
        | (Some len_buf, s) =>
            match read_exact (Z.to_nat (from_be len_buf)) s with
            | (None, s) => (false, [], s)
            | (Some data, s) =>
                match failed with
                | None => (true, data, s)
                | Some n => (false, take n data, s)
                end
            end
        end
      else (false, [], s)
  end.

(** ** A session *)

(** Whether a frame that was begun can be read to its end. *)
Definition output_ready (closed : bool) (s : list byte) : bool :=
  closed ||
  match s with
  | [] => false
  | b :: s =>
      if Byte.eqb b SHELL_EXIT then (1 <=? length s)%nat
      else if Byte.eqb b SHELL_ERR then (2 <=? length s)%nat && (2 + Z.to_nat (from_be (take 2 s)) <=? length s)%nat
      else true
  end.

Definition input_ready (s : list byte) : bool :=
  match s with
  | [] => false
  | b :: s =>
      if Byte.eqb b SHELL_STDIN then (2 <=? length s)%nat && (2 + Z.to_nat (from_be (take 2 s)) <=? length s)%nat else true
  end.

(** The client: the rest of its standard input, the channel from the task that
    reads it, whether that task still runs, and the loop. *)
Record Client : Type := mkClient {
  cl_input : list byte; cl_chunks : list (list byte); cl_reading : bool; cl_pipe : Pipe; cl_exit : option Ending }.

(** The receiver: [child_stdin], what was written to it and whether a write
    failed, [stdout_done], [stderr_done], what the child wrote, and its status once
    it was sent. *)
Record Server : Type := mkServer {
  sv_stdin : bool; sv_written : list byte; sv_failed : bool; sv_out_done : bool; sv_err_done : bool;
  sv_output : list byte; sv_status : option byte }.

Record World : Type := mkWorld { w_client : Client; w_server : Server; w_c2s : list byte; w_s2c : list byte }.

Definition start (input : list byte) : World :=
  mkWorld (mkClient input [] true Pipe_new None) (mkServer true [] false false false [] None) [] [].

(** The stream to the client has ended. *)
Definition s2c_closed (sv : Server) : bool := match sv_status sv with Some _ => true | None => false end.

Inductive step : World -> World -> Prop :=
  | st_forward cl sv c2s s2c chunk rest :
      cl_reading cl = true -> cl_input cl = chunk ++ rest -> chunk <> [] -> (length chunk <= 4096)%nat ->
      (length (cl_chunks cl) < 16)%nat ->
      step (mkWorld cl sv c2s s2c)
           (mkWorld (mkClient rest (cl_chunks cl ++ [chunk]) true (cl_pipe cl) (cl_exit cl)) sv c2s s2c)
  | st_forward_end cl sv c2s s2c :
      cl_reading cl = true -> cl_input cl = [] -> (length (cl_chunks cl) < 16)%nat ->
      step (mkWorld cl sv c2s s2c)
           (mkWorld (mkClient [] (cl_chunks cl ++ [[]]) false (cl_pipe cl) (cl_exit cl)) sv c2s s2c)
  | st_client_stdin cl sv c2s s2c chunk chunks :
      cl_exit cl = None ->
      match cl_chunks cl with
      | [] => cl_reading cl = false /\ chunk = None /\ chunks = []
      | c :: cs => chunk = Some c /\ chunks = cs
      end ->
      step (mkWorld cl sv c2s s2c)
           (mkWorld (mkClient (cl_input cl) chunks (cl_reading cl) (cl_pipe cl) None) sv (c2s ++ stdin_bytes chunk) s2c)
  | st_client_read cl sv c2s s2c c s e :
      cl_exit cl = None -> output_ready (s2c_closed sv) s2c = true -> pipe_read (cl_pipe cl) s2c = (c, s, e) ->
      step (mkWorld cl sv c2s s2c)
           (mkWorld (mkClient (cl_input cl) (cl_chunks cl) (cl_reading cl) c e) sv c2s s)
  | st_server_output cl sv c2s s2c bytes :
      sv_status sv = None -> sv_out_done sv && sv_err_done sv = false -> bytes <> [] -> (length bytes <= 4096)%nat ->
      step (mkWorld cl sv c2s s2c)
           (mkWorld cl (mkServer (sv_stdin sv) (sv_written sv) (sv_failed sv) (sv_out_done sv) (sv_err_done sv)
                          (sv_output sv ++ bytes) None) c2s (s2c ++ bytes))
  | st_server_done cl sv c2s s2c out err :
      sv_status sv = None -> sv_out_done sv && sv_err_done sv = false ->
      (sv_out_done sv = true -> out = true) -> (sv_err_done sv = true -> err = true) ->
      step (mkWorld cl sv c2s s2c)
           (mkWorld cl (mkServer (sv_stdin sv) (sv_written sv) (sv_failed sv) out err (sv_output sv) None) c2s s2c)
  | st_server_input cl sv c2s s2c failed open data s :
      sv_status sv = None -> sv_out_done sv && sv_err_done sv = false -> sv_stdin sv = true ->
      input_ready c2s = true -> plain_input c2s failed = (open, data, s) ->
      step (mkWorld cl sv c2s s2c)
           (mkWorld cl (mkServer open (sv_written sv ++ data) (match failed with Some _ => true | None => sv_failed sv end)
                          (sv_out_done sv) (sv_err_done sv) (sv_output sv) None) s s2c)
  | st_server_exit cl sv c2s s2c code :
      sv_status sv = None -> sv_out_done sv = true -> sv_err_done sv = true ->
      step (mkWorld cl sv c2s s2c)
           (mkWorld cl (mkServer false (sv_written sv) (sv_failed sv) true true (sv_output sv) (Some code))
              c2s (s2c ++ exit_frame code)).

(** serve.rs's [serve_shell_plain] is the same loop over the child and the stream. *)
Definition serve_shell_plain : World -> World -> Prop := step.

(** ** The terminal bridge *)

Record PtySetup : Type := mkSetup { term_env : list byte; initial_cols : Z; initial_rows : Z }.

Definition PtySetup_default : PtySetup := mkSetup (string_bytes "xterm-256color") 80 24.

Definition read_size (dim : list byte) : Z * Z := (from_be (slice dim 0 2), from_be (slice dim 2 4)).

(** The control frames before the child starts ([run_recv_pty]): [s] is what
    arrives before the deadline; the byte that ends the loop is consumed. *)
Fixpoint recv_setup (fuel : nat) (p : PtySetup) (s : list byte) : PtySetup * list byte :=
  match fuel, s with
  | O, _ | _, [] => (p, s)
  | S fuel, b :: s =>
      if Byte.eqb b SHELL_TERM then
        match s with
        | [] => (p, [])
        | len :: s =>
            match read_exact (Z.to_nat (byte_val len)) s with
            | (Some buf, s) => recv_setup fuel (mkSetup (from_utf8_lossy buf) (initial_cols p) (initial_rows p)) s
            | (None, s) => recv_setup fuel p s
            end
        end
      else if Byte.eqb b SHELL_RESIZE then
        match read_exact 4 s with
        | (Some dim, s) => (mkSetup (term_env p) (read_size dim).1 (read_size dim).2, s)
        | (None, s) => (p, s)
        end
      else (p, s)
  end.

(** The same of [serve_shell_pty], where a truncated frame is filled with zeros. *)
Fixpoint serve_setup (fuel : nat) (p : PtySetup) (s : list byte) : PtySetup * list byte :=
  match fuel, s with
  | O, _ | _, [] => (p, s)
  | S fuel, b :: s =>
      if Byte.eqb b SHELL_TERM then
        let len := match s with [] => 0 | len :: _ => byte_val len end in
        let '(buf, s) := read_fill (Z.to_nat len) (drop 1 s) in
        serve_setup fuel (mkSetup (from_utf8_lossy buf) (initial_cols p) (initial_rows p)) s
      else if Byte.eqb b SHELL_RESIZE then
        let '(dim, s) := read_fill 4 s in
        (mkSetup (term_env p) (read_size dim).1 (read_size dim).2, s)
      else (p, s)
  end.

(** What [libc::read] on the terminal returns: bytes, or zero or less. *)
Inductive PtyRead : Type := PtyData (data : list byte) | PtyNothing.

(** The task that reads the terminal: the chunks it sends before its channel closes. *)
Fixpoint pty_chunks (reads : list PtyRead) : list (list byte) :=
  match reads with
  | PtyData data :: reads => data :: pty_chunks reads
  | _ => []
  end.

(** What the bridge sent to the stream and to the terminal, and the last size set. *)
Record Bridge : Type := mkBridge { br_sent : list byte; br_typed : list byte; br_size : option (Z * Z) }.

Definition Bridge_new : Bridge := mkBridge [] [] None.

(** The branch of [pty_bridge_loop] that reads the stream; true ends the loop. *)
Definition bridge_input (br : Bridge) (s : list byte) : Bridge * list byte * bool :=
  match s with
  | [] => (br, [], true)
  | b :: s =>
      if Byte.eqb b SHELL_STDIN_EOF then (br, s, true)
      else if Byte.eqb b SHELL_STDIN then
        match read_exact 2 s with
        | (None, s) => (br, s, true)
        | (Some len_buf, s) =>
            match read_exact (Z.to_nat (from_be len_buf)) s with
            | (None, s) => (br, s, true)
            | (Some data, s) => (mkBridge (br_sent br) (br_typed br ++ data) (br_size br), s, false)
            end
        end
      else if Byte.eqb b SHELL_RESIZE then
        match read_exact 4 s with
        | (Some dim, s) => (mkBridge (br_sent br) (br_typed br) (Some (read_size dim)), s, false)
        | (None, s) => (br, s, false)
        end
      else (br, s, false)
  end.

(** The branches in the order they are taken: a chunk of the terminal or the end of
    its channel, or a read of the stream. *)
Inductive BridgeEvent : Type := FromPty (data : option (list byte)) | FromStream.

Fixpoint bridge_loop (events : list BridgeEvent) (br : Bridge) (s : list byte) : Bridge * list byte * bool :=
  match events with
  | [] => (br, s, false)
  | FromPty None :: _ => (br, s, true)
  | FromPty (Some data) :: events => bridge_loop events (mkBridge (br_sent br ++ data) (br_typed br) (br_size br)) s
  | FromStream :: events =>
      match bridge_input br s with
      | (br, s, true) => (br, s, true)
      | (br, s, false) => bridge_loop events br s
      end
  end.

(** What [waitpid] reports. *)
Inductive WaitStatus : Type := WExited (status : Z) | WSignaled (signal : Z) | WOther.

Definition exit_code (w : WaitStatus) : Z :=
  match w with
  | WExited status => wrap 8 status
  | WSignaled signal => wrapping_add 8 128 (wrap 8 signal)
  | WOther => 0
  end.

(** What the client's stream holds when [serve]'s [run_pty_bridge] has returned. *)
Definition run_pty_bridge (events : list BridgeEvent) (s : list byte) (w : WaitStatus) : list byte :=
  br_sent (bridge_loop events Bridge_new s).1.1 ++ exit_frame (byte_of (exit_code w)).

(** The same of [run_recv_pty], whose [stream_send_exit] does nothing. *)
Definition run_recv_pty (events : list BridgeEvent) (s : list byte) (w : WaitStatus) : list byte :=
  br_sent (bridge_loop events Bridge_new s).1.1.

(** ** Clean output *)

(** Output without the two bytes that are control frames. *)
Definition clean (output : list byte) : Prop := Forall (fun b => b <> SHELL_EXIT /\ b <> SHELL_ERR) output.

(** A client loop and a state it can be in: the terminal client has no buffer. *)
Definition reader (read : Pipe -> list byte -> Read) (c : Pipe) : Prop :=
  read = pipe_read \/ read = plain_read \/ (read = pty_read /\ out_buf c = []).

Lemma reader_pty c : reader pty_read c -> out_buf c = [].
Proof.
  intros [H|[H|[_ H]]]; [| |done]; assert (H1 := f_equal (fun r => r Pipe_new [x61]) H); vm_compute in H1; discriminate.
Qed.

(** What a loop has taken in. *)
Definition taken (c : Pipe) : list byte := stdout c ++ out_buf c.

Lemma push_spec c b : taken (push c b) = taken c ++ [b] /\ message (push c b) = message c.
Proof.
  unfold push, taken. split_if; cbn; [|by rewrite app_assoc]. by rewrite app_nil_r, app_assoc.
Qed.

Lemma read_clean read c b s : reader read c -> b <> SHELL_EXIT -> b <> SHELL_ERR ->
  exists c', read c (b :: s) = (c', s, None) /\ reader read c' /\ taken c' = taken c ++ [b] /\ message c' = message c.
Proof.
  intros Hr H1 H2. pose proof (push_spec c b) as [Ht Hm].
  destruct Hr as [->|[->|[-> Hb]]]; cbn [pipe_read plain_read pty_read]; rewrite (byte_eqb_neq b _ H1), (byte_eqb_neq b _ H2).
  - exists (push c b). split_and!; [done|by left|done|done].
  - exists (push c b). split_and!; [done|by right; left|done|done].
  - eexists. split; [done|]. split; [by right; right|]. unfold taken. cbn. by rewrite Hb, !app_nil_r.
Qed.

Lemma read_loop_clean read fuel output : forall c s, reader read c -> clean output -> (length output <= fuel)%nat ->
  exists c', read_loop read fuel c (output ++ s) = read_loop read (fuel - length output) c' s
    /\ reader read c' /\ taken c' = taken c ++ output /\ message c' = message c.
Proof.
  revert fuel. induction output as [|b output IH]; intros fuel c s Hr Hc Hf; cbn [app length] in *.
  { exists c. rewrite Nat.sub_0_r, app_nil_r. done. }
  apply List.Forall_cons_iff in Hc as [[H1 H2] Hc]. destruct fuel as [|fuel]; [lia|]. cbn [read_loop].
  destruct (read_clean read c b (output ++ s) Hr H1 H2) as (c1 & -> & Hr1 & Ht1 & Hm1).
  destruct (IH fuel c1 s Hr1 Hc ltac:(lia)) as (c' & -> & Hr' & Ht' & Hm').
  exists c'. split_and!; [done|done| |congruence]. by rewrite Ht', Ht1, <- app_assoc.
Qed.

(** Each loop reads the report of a command that could not be started. *)
Lemma err_frame_read read msg : reader read Pipe_new -> utf8_valid msg = true -> (length msg <= Z.to_nat 65535)%nat ->
  exists c e, read_all read (err_frame msg) = Some (c, e) /\ e <> Exits 0 /\ message c = Some msg.
Proof.
  intros Hr Hv Hl. unfold err_frame. rewrite Nat.min_l, take_ge by done. set (s := to_be 2 (Z.of_nat (length msg)) ++ msg).
  assert (Hs : (2 <= length s)%nat) by (subst s; rewrite length_app, length_to_be; lia).
  assert (Hn : Z.to_nat (from_be (take 2 s)) = length msg).
  { subst s. rewrite take_app_le by (rewrite length_to_be; lia). rewrite take_ge by (rewrite length_to_be; lia).
    rewrite from_be_to_be_small by (split; cbn; lia). lia. }
  assert (Hd : drop 2 s = msg) by (subst s; rewrite drop_app_le, drop_ge by (rewrite length_to_be; lia); done).
  assert (Hf : read_fill 2 s = (take 2 s, msg)).
  { unfold read_fill. replace (2 - length s)%nat with 0%nat by lia. by rewrite Hd, app_nil_r. }
  assert (Hg : read_fill (length msg) msg = (msg, [])).
  { unfold read_fill. by rewrite Nat.sub_diag, app_nil_r, take_ge, drop_ge. }
  unfold read_all. cbn [read_loop app length].
  destruct Hr as [->|[->|[-> _]]]; cbn [pipe_read plain_read pty_read];
    change (Byte.eqb SHELL_ERR SHELL_EXIT) with false; change (Byte.eqb SHELL_ERR SHELL_ERR) with true; cbn iota.
  - rewrite Hf, Hn, Hg. do 2 eexists. split; [reflexivity|]. split; [done|]. cbn. by rewrite lossy_valid.
  - unfold read_exact. rewrite (proj2 (Nat.ltb_ge _ _)), Hd, Hn, Hg by lia.
    do 2 eexists. split; [reflexivity|]. split; [done|]. cbn. by rewrite lossy_valid.
  - rewrite Hf, Hn, Hg. do 2 eexists. split; [reflexivity|]. split; [done|]. cbn. by rewrite lossy_valid.
Qed.

(** Output without the bytes 0x01 and 0x02 arrives whole: each of the three
    client loops, reading it and the exit frame after it, writes exactly the output
    and ends with the command's code; reading the report of a command that could not
    be started, each ends in failure and says its message. *)
Theorem readers_deliver read output code msg :
  reader read Pipe_new -> clean output -> utf8_valid msg = true -> (length msg <= Z.to_nat 65535)%nat ->
  (exists c, read_all read (output ++ exit_frame code) = Some (c, Exits (byte_val code)) /\ stdout c = output)
  /\ (exists c e, read_all read (err_frame msg) = Some (c, e) /\ e <> Exits 0 /\ message c = Some msg).
Proof.
  intros Hr Hc Hv Hl. split.
  - unfold read_all. rewrite length_app. change (length (exit_frame code)) with 2%nat.
    destruct (read_loop_clean read (S (length output + 2)) output Pipe_new (exit_frame code) Hr Hc ltac:(lia))
      as (c & -> & Hr' & Ht & _). cbn [length exit_frame]. replace (S (length output + 2) - length output)%nat with 3%nat by lia.
    change (taken Pipe_new ++ output) with output in Ht. unfold taken in Ht.
    destruct Hr' as [->|[->|[-> Hb]]]; (eexists; split; [reflexivity|]); cbn; [done|done|]. by rewrite Hb, app_nil_r in Ht.
  - by apply err_frame_read.
Qed.

(** ** Sessions *)

Definition chunk_ok (d : list byte) : Prop := d <> [] /\ (length d <= 4096)%nat.

(** What the child has been given and what is still on its way to it. *)
Definition stdin_inv (input : list byte) (cl : Client) (sv : Server) (c2s : list byte) : Prop :=
  (exists ds mark, cl_chunks cl = ds ++ (if mark : bool then [[]] else []) /\ Forall chunk_ok ds
     /\ (cl_reading cl = true -> mark = false))
  /\ (cl_reading cl = false -> cl_input cl = [])
  /\ (exists rest, input = sv_written sv ++ rest)
  /\ (sv_stdin sv = true -> exists fs k, c2s = concat (map stdin_frame fs) ++ replicate k SHELL_STDIN_EOF /\ Forall chunk_ok fs
        /\ (k <> 0%nat -> cl_chunks cl = [] /\ cl_reading cl = false)
        /\ sv_written sv ++ concat fs ++ concat (cl_chunks cl) ++ cl_input cl = input)
  /\ (sv_stdin sv = false -> sv_status sv = None -> sv_failed sv = false -> sv_written sv = input).

(** What the client has taken in and what is still on its way to it. *)
Definition output_inv (cl : Client) (sv : Server) (s2c : list byte) : Prop :=
  clean (sv_output sv) ->
  match sv_status sv with
  | None => cl_exit cl = None /\ taken (cl_pipe cl) ++ s2c = sv_output sv
  | Some code =>
      (cl_exit cl = None /\ exists rest, s2c = rest ++ exit_frame code /\ taken (cl_pipe cl) ++ rest = sv_output sv)
      \/ (cl_exit cl = Some (Exits (byte_val code)) /\ stdout (cl_pipe cl) = sv_output sv)
  end.

Lemma input_frame d rest failed : chunk_ok d ->
  plain_input (stdin_frame d ++ rest) failed
  = match failed with None => (true, d, rest) | Some n => (false, take n d, rest) end.
Proof.
  intros [_ Hl]. unfold stdin_frame. assert (Hw : wrap 16 (Z.of_nat (length d)) = Z.of_nat (length d)) by (apply wrap_small; split; lia).
  rewrite Hw. cbn [app plain_input]. change (Byte.eqb SHELL_STDIN SHELL_STDIN) with true. cbn iota.
  set (s := (to_be 2 (Z.of_nat (length d)) ++ d) ++ rest).
  assert (E : s = to_be 2 (Z.of_nat (length d)) ++ d ++ rest) by (subst s; by rewrite <- app_assoc).
  assert (Hn : take 2 s = to_be 2 (Z.of_nat (length d))) by (rewrite E; apply take_app_length'; by rewrite length_to_be).
  assert (Hd : drop 2 s = d ++ rest) by (rewrite E; apply drop_app_length'; by rewrite length_to_be).
  unfold read_exact. rewrite Hn, Hd. rewrite (proj2 (Nat.ltb_ge _ _)) by (rewrite E, length_app, length_to_be; lia).
  rewrite from_be_to_be_small, Nat2Z.id by (split; cbn; lia).
  rewrite (proj2 (Nat.ltb_ge _ _)) by (rewrite length_app; lia). rewrite take_app_length, drop_app_length.
  by destruct failed.
Qed.

Lemma input_eof s failed : plain_input (SHELL_STDIN_EOF :: s) failed = (false, [], s).
Proof. done. Qed.

Lemma stdin_bytes_chunk d : chunk_ok d -> stdin_bytes (Some d) = stdin_frame d.
Proof. intros [Hd _]. by destruct d. Qed.

(** The client's branch: the next chunk, or the end of the input again. *)
Lemma stdin_inv_write input cl sv c2s chunk chunks :
  match cl_chunks cl with
  | [] => cl_reading cl = false /\ chunk = None /\ chunks = []
  | c :: cs => chunk = Some c /\ chunks = cs
  end ->
  stdin_inv input cl sv c2s ->
  stdin_inv input (mkClient (cl_input cl) chunks (cl_reading cl) (cl_pipe cl) None) sv (c2s ++ stdin_bytes chunk).
Proof.
  intros Hc ((ds & mark & Hds & Hok & Hm) & Hend & Hpre & Hop & Hcl). unfold stdin_inv. cbn.
  assert (Hmore : forall d, chunk = Some d -> chunk_ok d -> cl_chunks cl = d :: chunks ->
    sv_stdin sv = true -> exists fs k, c2s ++ stdin_bytes chunk = concat (map stdin_frame fs) ++ replicate k SHELL_STDIN_EOF
      /\ Forall chunk_ok fs /\ (k <> 0%nat -> chunks = [] /\ cl_reading cl = false)
      /\ sv_written sv ++ concat fs ++ concat chunks ++ cl_input cl = input).
  { intros d -> Hd Ecs Ho. destruct (Hop Ho) as (fs & k & H1 & H2 & H3 & H4).
    destruct k; [|by destruct (H3 ltac:(done)); simplify_eq; congruence].
    exists (fs ++ [d]), 0%nat. split_and!; [| |done|].
    - rewrite H1, stdin_bytes_chunk by done. by rewrite map_app, concat_app; cbn; rewrite !app_nil_r.
    - apply List.Forall_app. split; [done|]. by apply List.Forall_cons.
    - rewrite <- H4, Ecs, concat_app. cbn. by rewrite app_nil_r, <- !app_assoc. }
  assert (Hlast : stdin_bytes chunk = [SHELL_STDIN_EOF] -> concat (cl_chunks cl) = [] -> chunks = [] -> cl_reading cl = false ->
    sv_stdin sv = true -> exists fs k, c2s ++ stdin_bytes chunk = concat (map stdin_frame fs) ++ replicate k SHELL_STDIN_EOF
      /\ Forall chunk_ok fs /\ (k <> 0%nat -> chunks = [] /\ cl_reading cl = false)
      /\ sv_written sv ++ concat fs ++ concat chunks ++ cl_input cl = input).
  { intros -> Ee -> Er Ho. destruct (Hop Ho) as (fs & k & H1 & H2 & H3 & H4). exists fs, (S k). split_and!; [|done|done|].
    - by rewrite H1, <- app_assoc, replicate_S_end.
    - by rewrite Ee in H4. }
  destruct ds as [|d ds]; cbn in Hds.
  - destruct mark; rewrite Hds in Hc.
    + destruct Hc as [-> ->]. assert (Hr : cl_reading cl = false) by (destruct (cl_reading cl); [by specialize (Hm eq_refl)|done]).
      split; [by exists [], false|]. split; [done|]. split; [done|]. split; [|done]. apply Hlast; by rewrite ?Hds.
    + destruct Hc as (Hr & -> & ->). split; [by exists [], false|]. split; [done|]. split; [done|]. split; [|done].
      apply Hlast; by rewrite ?Hds.
  - rewrite Hds in Hc. destruct Hc as [-> ->]. apply List.Forall_cons_iff in Hok as [Hd Hok].
    split; [by exists ds, mark|]. split; [done|]. split; [done|]. split; [|done]. by apply (Hmore d).
Qed.

(** The receiver's branch: the next frame. *)
Lemma stdin_inv_read input cl sv c2s failed opn data s out :
  sv_stdin sv = true -> sv_status sv = None -> input_ready c2s = true -> plain_input c2s failed = (opn, data, s) ->
  stdin_inv input cl sv c2s ->
  stdin_inv input cl (mkServer opn (sv_written sv ++ data) (match failed with Some _ => true | None => sv_failed sv end)
    (sv_out_done sv) (sv_err_done sv) out None) s.
Proof.
  intros Ho Hst Hready Hin (Hch & Hend & Hpre & Hop & _). destruct (Hop Ho) as (fs & k & -> & H2 & H3 & H4).
  unfold stdin_inv. cbn. split; [done|]. split; [done|]. destruct fs as [|d fs]; cbn in H4.
  - destruct k as [|k]; [done|]. destruct (H3 ltac:(done)) as [Hc Hr]. cbn [map concat app replicate] in Hin.
    rewrite input_eof in Hin. injection Hin as <- <- <-. rewrite Hc, (Hend Hr) in H4. cbn in H4.
    rewrite !app_nil_r in *. split_and!; [by exists []; rewrite app_nil_r|done|done].
  - apply List.Forall_cons_iff in H2 as [Hd H2]. cbn [map concat] in Hin. rewrite <- app_assoc, input_frame in Hin by done.
    destruct failed as [n|]; injection Hin as <- <- <-.
    + split_and!; [|done|done]. exists (drop n d ++ concat fs ++ concat (cl_chunks cl) ++ cl_input cl).
      rewrite <- H4, <- (take_drop n d) at 1. by rewrite <- !app_assoc.
    + split_and!; [| |done]. 1: exists (concat fs ++ concat (cl_chunks cl) ++ cl_input cl); by rewrite <- H4, <- !app_assoc.
      intros _. exists fs, k. split_and!; [done|done|done|]. by rewrite <- H4, <- !app_assoc.
Qed.

Lemma stdin_inv_step input w w' : step w w' ->
  stdin_inv input (w_client w) (w_server w) (w_c2s w) -> stdin_inv input (w_client w') (w_server w') (w_c2s w').
Proof.
  intros Hs Hinv. destruct Hs; cbn in *.
  3: by apply stdin_inv_write.
  6: by apply stdin_inv_read with (c2s := c2s).
  all: destruct Hinv as ((ds & mark & Hds & Hok & Hm) & Hend & Hpre & Hop & Hcl); unfold stdin_inv; cbn.
  - specialize (Hm H) as ->. rewrite app_nil_r in Hds. split; [|split; [done|split; [done|split]]]; [| |done].
    + exists (ds ++ [chunk]), false. rewrite Hds, app_nil_r. split_and!; [done| |done].
      apply List.Forall_app. split; [done|]. by apply List.Forall_cons.
    + intros Ho. destruct (Hop Ho) as (fs & k & H3' & H4 & H5 & H6). exists fs, k. split_and!; [done|done| |].
      * intros Hk. destruct (H5 Hk). congruence.
      * rewrite <- H6, H0, concat_app. cbn. by rewrite app_nil_r, <- !app_assoc.
  - specialize (Hm H) as ->. rewrite app_nil_r in Hds. split; [|split; [done|split; [done|split]]]; [| |done].
    + exists ds, true. by rewrite Hds.
    + intros Ho. destruct (Hop Ho) as (fs & k & H3' & H4 & H5 & H6). exists fs, k. split_and!; [done|done| |].
      * intros Hk. destruct (H5 Hk). congruence.
      * rewrite <- H6, H0, concat_app. cbn. by rewrite !app_nil_r.
  - split; [by exists ds, mark|done].
  - rewrite H in Hcl. split; [by exists ds, mark|done].
  - rewrite H in Hcl. split; [by exists ds, mark|done].
  - split; [by exists ds, mark|]. split; [done|]. split; [done|]. done.
Qed.

Lemma clean_app a b : clean (a ++ b) <-> clean a /\ clean b.
Proof. apply List.Forall_app. Qed.

Lemma pipe_read_exit c code : pipe_read c (exit_frame code) = (flush c, [], Some (Exits (byte_val code))).
Proof. done. Qed.

(** A read of a clean stream that is on its way to the exit frame. *)
Lemma pipe_read_rest c rest code output c' s e :
  clean output -> taken c ++ rest = output -> pipe_read c (rest ++ exit_frame code) = (c', s, e) ->
  (exists rest', rest <> [] /\ e = None /\ s = rest' ++ exit_frame code /\ taken c' ++ rest' = output)
  \/ (rest = [] /\ e = Some (Exits (byte_val code)) /\ stdout c' = output).
Proof.
  intros Hc Ht Hr. destruct rest as [|b rest].
  - right. cbn [app] in Hr. rewrite pipe_read_exit in Hr. injection Hr as <- <- <-. split_and!; [done|done|].
    cbn. by rewrite app_nil_r in Ht.
  - left. rewrite <- Ht in Hc. apply clean_app in Hc as [_ Hc]. apply List.Forall_cons_iff in Hc as [[H1 H2] _].
    destruct (read_clean pipe_read c b (rest ++ exit_frame code)) as (c1 & E & _ & Ht1 & _); [by left|done|done|].
    cbn [app] in Hr. rewrite E in Hr. injection Hr as <- <- <-. exists rest. split_and!; [done|done|done|].
    by rewrite Ht1, <- app_assoc.
Qed.

Lemma output_inv_step w w' : step w w' ->
  output_inv (w_client w) (w_server w) (w_s2c w) -> output_inv (w_client w') (w_server w') (w_s2c w').
Proof.
  intros Hs Hinv. destruct Hs; unfold output_inv in *; cbn in *; intros Hc; try (by apply Hinv).
  - specialize (Hinv Hc). destruct (sv_status sv) as [code|].
    + destruct Hinv as [[_ Hr]|[He _]]; [|congruence]. left. by split.
    + destruct Hinv as [_ Hr]. by split.
  - specialize (Hinv Hc). unfold output_ready, s2c_closed in H0. destruct (sv_status sv) as [code|].
    + destruct Hinv as [[_ (rest & -> & Ht)]|[He _]]; [|congruence].
      destruct (pipe_read_rest _ _ _ _ _ _ _ Hc Ht H1) as [(rest' & _ & -> & -> & Ht')|(_ & -> & Ho)]; [|by right].
      left. split; [done|]. by exists rest'.
    + destruct Hinv as [_ Ht]. destruct s2c as [|b s2c]; [done|].
      rewrite <- Ht in Hc. apply clean_app in Hc as [_ Hc]. apply List.Forall_cons_iff in Hc as [[Hb1 Hb2] _].
      destruct (read_clean pipe_read (cl_pipe cl) b s2c) as (c1 & E & _ & Ht1 & _); [by left|done|done|].
      rewrite E in H1. injection H1 as <- <- <-. split; [done|]. by rewrite Ht1, <- app_assoc.
  - rewrite H in Hinv. apply clean_app in Hc as [Hc _]. destruct (Hinv Hc) as [Hx Ht]. split; [done|].
    by rewrite app_assoc, Ht.
  - rewrite H in Hinv. by apply Hinv.
  - rewrite H in Hinv. by apply Hinv.
  - rewrite H in Hinv. destruct (Hinv Hc) as [Hx Ht]. left. split; [done|]. by exists s2c.
Qed.

Lemma session_inv input w : rtc step (start input) w ->
  stdin_inv input (w_client w) (w_server w) (w_c2s w) /\ output_inv (w_client w) (w_server w) (w_s2c w).
Proof.
  intros Hr. assert (H0 : stdin_inv input (w_client (start input)) (w_server (start input)) (w_c2s (start input))
    /\ output_inv (w_client (start input)) (w_server (start input)) (w_s2c (start input))).
  { split; [|by intros _].
    split; [by exists [], false|]. split; [done|]. split; [by exists input|]. split; [|done].
    intros _. exists [], 0%nat. by split_and!. }
  revert H0. induction Hr as [w|w w1 w' Hs Hr IH]; [done|]. intros [H1 H2]. apply IH.
  split; [by eapply stdin_inv_step|by eapply output_inv_step].
Qed.

(** Once the exit frame is sent, the client can read up to it. *)
Lemma client_finishes cl sv c2s code rest : forall c,
  sv_status sv = Some code -> cl_exit cl = None -> clean (sv_output sv) -> taken c ++ rest = sv_output sv ->
  exists cl' s2c', rtc step (mkWorld (mkClient (cl_input cl) (cl_chunks cl) (cl_reading cl) c None) sv c2s (rest ++ exit_frame code))
      (mkWorld cl' sv c2s s2c') /\ cl_exit cl' = Some (Exits (byte_val code)) /\ stdout (cl_pipe cl') = sv_output sv.
Proof.
  induction rest as [|b rest IH]; intros c Hst Hx Hc Ht;
    lazymatch goal with |- context [rtc step (mkWorld _ _ _ ?s)] => destruct (pipe_read c s) as [[c1 s1] e1] eqn:E end;
    destruct (pipe_read_rest _ _ _ _ _ _ _ Hc Ht E) as [(rest' & Hne & -> & -> & Ht1)|(Hnil & -> & Ho)]; try done.
  - exists (mkClient (cl_input cl) (cl_chunks cl) (cl_reading cl) c1 (Some (Exits (byte_val code)))), s1. split; [|by split].
    apply rtc_once. eapply (st_client_read (mkClient _ _ _ c None)); [done| |exact E]. unfold output_ready, s2c_closed. by rewrite Hst.
  - assert (rest' = rest) as ->.
    { rewrite <- Ht in Hc. apply clean_app in Hc as [_ Hc]. apply List.Forall_cons_iff in Hc as [[Hb1 Hb2] _].
      destruct (read_clean pipe_read c b (rest ++ exit_frame code)) as (c2 & E2 & _); [by left|done|done|].
      cbn [app] in E. rewrite E2 in E. injection E as _ E. by apply app_inv_tail in E. }
    destruct (IH c1 Hst Hx Hc Ht1) as (cl' & s2c' & Hr & H1 & H2). exists cl', s2c'. split; [|done].
    eapply rtc_l; [|exact Hr]. eapply (st_client_read (mkClient _ _ _ c None)); [done| |exact E]. unfold output_ready, s2c_closed. by rewrite Hst.
Qed.

(** C34: A remote command without a terminal, whatever order its two ends and the
    child run in: the child is given a prefix of the local input, and sees its end
    only after all of it unless a write to the child failed; output without the
    bytes 0x01 and 0x02 is printed in order, and the client ends with the child's
    code and only after it has printed the whole output, which it can always do once
    the child has ended. *)
Theorem shell_session input w : rtc step (start input) w ->
  (exists rest, input = sv_written (w_server w) ++ rest)
  /\ (sv_status (w_server w) = None -> sv_stdin (w_server w) = false -> sv_failed (w_server w) = false ->
      sv_written (w_server w) = input)
  /\ (clean (sv_output (w_server w)) ->
      (exists rest, sv_output (w_server w) = stdout (cl_pipe (w_client w)) ++ rest)
      /\ (forall e, cl_exit (w_client w) = Some e -> exists code, e = Exits (byte_val code)
           /\ sv_status (w_server w) = Some code /\ stdout (cl_pipe (w_client w)) = sv_output (w_server w))
      /\ (forall code, sv_status (w_server w) = Some code -> exists w', rtc step w w' /\ w_server w' = w_server w
           /\ cl_exit (w_client w') = Some (Exits (byte_val code)) /\ stdout (cl_pipe (w_client w')) = sv_output (w_server w))).
Proof.
  intros Hr. destruct (session_inv input w Hr) as [(_ & _ & Hpre & _ & Hcl) Ho]. split; [done|]. split; [by intros; apply Hcl|].
  intros Hc. specialize (Ho Hc). destruct w as [cl sv c2s s2c]. cbn in *. split_and!.
  - destruct (sv_status sv) as [code|]; [destruct Ho as [[_ (rest & _ & Ht)]|[_ Ht]]|destruct Ho as [_ Ht]].
    + exists (out_buf (cl_pipe cl) ++ rest). by rewrite <- Ht, app_assoc.
    + exists []. by rewrite app_nil_r.
    + exists (out_buf (cl_pipe cl) ++ s2c). by rewrite <- Ht, app_assoc.
  - intros e He. destruct (sv_status sv) as [code|]; [destruct Ho as [[Hx _]|[Hx Ht]]|destruct Ho as [Hx _]]; [congruence| |congruence].
    exists code. split; [congruence|done].
  - intros code Hst. rewrite Hst in Ho. destruct Ho as [[Hx (rest & -> & Ht)]|[Hx Ht]].
    2: { exists (mkWorld cl sv c2s s2c). split_and!; [apply rtc_refl|done|done|done]. }
    destruct (client_finishes cl sv c2s code rest (cl_pipe cl) Hst Hx Hc Ht) as (cl' & s2c' & Hrun & H1 & H2).
    exists (mkWorld cl' sv c2s s2c'). split; [|done]. destruct cl as [i ch r p x]. cbn in *. by rewrite Hx.
Qed.

(** Output with a byte 0x01 ends the client there, with the next byte as the code,
    while the command still runs. *)
Lemma control_byte_ends_client : exists w, rtc step (start []) w
  /\ sv_output (w_server w) = [x61; SHELL_EXIT; x00; x62] /\ sv_status (w_server w) = None
  /\ cl_exit (w_client w) = Some (Exits 0) /\ stdout (cl_pipe (w_client w)) = [x61].
Proof.
  eexists. split; [|split_and!].
  - eapply rtc_l; [apply (st_server_output _ _ _ _ [x61; SHELL_EXIT; x00; x62]); [done|done|done|cbn; lia]|].
    eapply rtc_l; [eapply st_client_read; reflexivity|]. eapply rtc_l; [eapply st_client_read; reflexivity|]. apply rtc_refl.
  - reflexivity.
  - reflexivity.
  - reflexivity.
  - reflexivity.
Qed.

(** When the local input has ended the client may send its end any number of
    times: the closed channel is always ready. *)
Lemma eof_repeated n : exists w, rtc step (start []) w /\ w_c2s w = replicate (S n) SHELL_STDIN_EOF
  /\ cl_exit (w_client w) = None /\ cl_chunks (w_client w) = [] /\ cl_reading (w_client w) = false.
Proof.
  induction n as [|n (w & Hr & Hs & Hx & Hc & Hd)].
  - eexists. split; [|split_and!].
    + eapply rtc_l; [apply st_forward_end; [done|done|cbn; lia]|]. eapply rtc_l; [eapply st_client_stdin; [done|cbn; split; reflexivity]|].
      apply rtc_refl.
    + done.
    + done.
    + done.
    + done.
  - destruct w as [cl sv c2s s2c]. cbn in *. eexists. split; [|split_and!].
    + eapply rtc_r; [exact Hr|]. apply (st_client_stdin cl sv c2s s2c None []); [done|]. by rewrite Hc.
    + rewrite Hs. cbn. by rewrite <- replicate_S_end.
    + done.
    + done.
    + done.
Qed.

(** ** Terminals *)

Lemma size_bytes cols rows : is_u 16 cols -> is_u 16 rows -> read_size (to_be 2 cols ++ to_be 2 rows) = (cols, rows).
Proof.
  intros Hc Hr. unfold read_size. rewrite slice_app_l by (by rewrite length_to_be).
  rewrite (slice_last (to_be 2 cols) (to_be 2 rows)) by (by rewrite !length_to_be).
  rewrite slice_all by (by rewrite length_to_be). rewrite !from_be_to_be_small by done. done.
Qed.

Lemma term_len_val (term : list byte) : Z.to_nat (byte_val (byte_of (Z.of_nat (Nat.min (length term) 255)))) = length (take 255 term).
Proof. rewrite byte_of_small by lia. rewrite length_take. lia. Qed.

Lemma take_min_length {A} n (l : list A) : take (Nat.min (length l) n) l = take n l.
Proof. rewrite <- take_take. apply take_ge. rewrite length_take. lia. Qed.

Definition named (p : PtySetup) (term : list byte) : PtySetup :=
  mkSetup (from_utf8_lossy (take 255 term)) (initial_cols p) (initial_rows p).

Lemma setup_term fuel p term s :
  recv_setup (S fuel) p (term_frame term ++ s) = recv_setup fuel (named p term) s
  /\ serve_setup (S fuel) p (term_frame term ++ s) = serve_setup fuel (named p term) s.
Proof.
  unfold term_frame. rewrite take_min_length.
  split; cbn [app recv_setup serve_setup]; change (Byte.eqb SHELL_TERM SHELL_TERM) with true; cbn iota; rewrite term_len_val.
  - by rewrite read_exact_app.
  - cbn [drop]. by rewrite drop_0, read_fill_app.
Qed.

Lemma setup_size fuel p cols rows s : is_u 16 cols -> is_u 16 rows ->
  recv_setup (S fuel) p (send_resize cols rows ++ s) = (mkSetup (term_env p) cols rows, s)
  /\ serve_setup (S fuel) p (send_resize cols rows ++ s) = (mkSetup (term_env p) cols rows, s).
Proof.
  intros Hc Hr. change (send_resize cols rows ++ s) with (SHELL_RESIZE :: (to_be 2 cols ++ to_be 2 rows) ++ s).
  pose proof (read_exact_app (to_be 2 cols ++ to_be 2 rows) s) as E1. pose proof (read_fill_app (to_be 2 cols ++ to_be 2 rows) s) as E2.
  rewrite length_app, !length_to_be in E1, E2. change (2 + 2)%nat with 4%nat in E1, E2.
  cbn [recv_setup serve_setup]. change (Byte.eqb SHELL_RESIZE SHELL_TERM) with false.
  change (Byte.eqb SHELL_RESIZE SHELL_RESIZE) with true. cbn iota. rewrite E1, E2, size_bytes by done. done.
Qed.

(** The terminal's name and size arrive, whatever follows them. *)
Lemma setup_roundtrip term cols rows rest fuel : is_u 16 cols -> is_u 16 rows ->
  let frames := term_frame term ++ send_resize cols rows ++ rest in
  let setup := mkSetup (from_utf8_lossy (take 255 term)) cols rows in
  recv_setup (S (S fuel)) PtySetup_default frames = (setup, rest)
  /\ serve_setup (S (S fuel)) PtySetup_default frames = (setup, rest).
Proof.
  intros Hc Hr frames setup. destruct (setup_term (S fuel) PtySetup_default term (send_resize cols rows ++ rest)) as [E1 E2].
  destruct (setup_size fuel (named PtySetup_default term) cols rows rest Hc Hr) as [E3 E4].
  subst frames. by rewrite E1, E2, E3, E4.
Qed.

(** Without a size the first frame of input loses its tag: its length and its bytes
    are then read as tags. *)
Lemma setup_swallows_tag term data rest fuel :
  (recv_setup (S (S fuel)) PtySetup_default (term_frame term ++ stdin_frame data ++ rest)).2
  = to_be 2 (wrap 16 (Z.of_nat (length data))) ++ data ++ rest.
Proof.
  rewrite (proj1 (setup_term (S fuel) PtySetup_default term (stdin_frame data ++ rest))).
  unfold stdin_frame. cbn [app recv_setup]. change (Byte.eqb SHELL_STDIN SHELL_TERM) with false.
  change (Byte.eqb SHELL_STDIN SHELL_RESIZE) with false. cbn iota. cbn [snd]. by rewrite <- app_assoc.
Qed.

(** A terminal that has nothing to read yet ends the output: what it has later is
    never read. *)
Lemma pty_output_ends data later : pty_chunks (PtyData data :: PtyNothing :: later) = [data].
Proof. done. Qed.

(** What the client sends after its setup. *)
Inductive Frame : Type := FrStdin (data : list byte) | FrResize (cols rows : Z).

Definition frame_bytes (f : Frame) : list byte :=
  match f with FrStdin data => stdin_frame data | FrResize cols rows => send_resize cols rows end.

Definition frame_ok (f : Frame) : Prop :=
  match f with FrStdin data => (length data <= 256)%nat | FrResize cols rows => is_u 16 cols /\ is_u 16 rows end.

Definition typed (fs : list Frame) : list byte :=
  concat (map (fun f => match f with FrStdin data => data | FrResize _ _ => [] end) fs).

Definition last_size (fs : list Frame) (size : option (Z * Z)) : option (Z * Z) :=
  fold_left (fun acc f => match f with FrStdin _ => acc | FrResize cols rows => Some (cols, rows) end) fs size.

Lemma bridge_input_frame br f s : frame_ok f ->
  bridge_input br (frame_bytes f ++ s)
  = (mkBridge (br_sent br) (br_typed br ++ typed [f]) (last_size [f] (br_size br)), s, false).
Proof.
  intros Hf. destruct f as [data|cols rows]; cbn [frame_bytes frame_ok] in *.
  - unfold stdin_frame. rewrite wrap_small by (split; cbn; lia). cbn [app bridge_input].
    change (Byte.eqb SHELL_STDIN SHELL_STDIN_EOF) with false. change (Byte.eqb SHELL_STDIN SHELL_STDIN) with true. cbn iota.
    rewrite <- app_assoc. pose proof (read_exact_app (to_be 2 (Z.of_nat (length data))) (data ++ s)) as E.
    rewrite length_to_be in E. rewrite E, from_be_to_be_small, Nat2Z.id, read_exact_app by (split; cbn; lia).
    cbn. by rewrite ?app_nil_r.
  - destruct Hf as [Hc Hr]. unfold send_resize. cbn [app bridge_input].
    change (Byte.eqb SHELL_RESIZE SHELL_STDIN_EOF) with false. change (Byte.eqb SHELL_RESIZE SHELL_STDIN) with false.
    change (Byte.eqb SHELL_RESIZE SHELL_RESIZE) with true. cbn iota.
    pose proof (read_exact_app (to_be 2 cols ++ to_be 2 rows) s) as E. rewrite length_app, !length_to_be in E.
    change (2 + 2)%nat with 4%nat in E. rewrite E, size_bytes by done. cbn. by rewrite app_nil_r.
Qed.

Definition pty_output (events : list BridgeEvent) : list byte :=
  concat (omap (fun e => match e with FromPty data => data | FromStream => None end) events).

Definition stream_reads (events : list BridgeEvent) : nat :=
  length (List.filter (fun e => match e with FromStream => true | _ => false end) events).

Lemma bridge_loop_frames tail events : forall br fs,
  Forall frame_ok fs -> Forall (fun e => e <> FromPty None) events -> (stream_reads events <= length fs)%nat ->
  exists s, bridge_loop (events ++ FromPty None :: tail) br (concat (map frame_bytes fs))
    = (mkBridge (br_sent br ++ pty_output events) (br_typed br ++ typed (take (stream_reads events) fs))
         (last_size (take (stream_reads events) fs) (br_size br)), s, true).
Proof.
  induction events as [|e events IH]; intros br fs Hf He Hn.
  { exists (concat (map frame_bytes fs)). destruct br. cbn. by rewrite !app_nil_r. }
  apply List.Forall_cons_iff in He as [Hne He]. destruct e as [[data|]|]; [|done|].
  - destruct (IH (mkBridge (br_sent br ++ data) (br_typed br) (br_size br)) fs Hf He Hn) as (s & E). exists s.
    cbn [app bridge_loop]. rewrite E. cbn [br_sent br_typed br_size]. unfold pty_output. cbn. by rewrite app_assoc.
  - unfold stream_reads in Hn |- *. cbn [List.filter length] in Hn |- *. fold (stream_reads events) in Hn |- *.
    destruct fs as [|f fs]; [cbn in Hn; lia|]. apply List.Forall_cons_iff in Hf as [Hf1 Hf].
    destruct (IH (mkBridge (br_sent br) (br_typed br ++ typed [f]) (last_size [f] (br_size br))) fs Hf He ltac:(cbn in Hn; lia)) as (s & E).
    exists s. cbn [app bridge_loop map concat take]. rewrite bridge_input_frame by done. rewrite E. cbn [br_sent br_typed br_size].
    do 3 f_equal. unfold typed. cbn. by rewrite app_nil_r, app_assoc.
Qed.

(** A session on a terminal, for any order of the terminal's output and the
    client's frames until the child ends: the child is typed exactly the input of
    the frames read, the last size stands, and the client prints the whole output if
    it has none of the bytes 0x01 and 0x02; its exit code is the child's with [seam
    serve], and 0 whatever the child's with the receiver of [seam shell], which never
    sends it. *)
Theorem pty_session fs events status :
  Forall frame_ok fs -> Forall (fun e => e <> FromPty None) events -> (stream_reads events <= length fs)%nat ->
  let s := concat (map frame_bytes fs) in
  let all := events ++ [FromPty None] in
  let br := (bridge_loop all Bridge_new s).1.1 in
  let read := take (stream_reads events) fs in
  br_typed br = typed read /\ br_size br = last_size read None
  /\ (clean (pty_output events) ->
      (exists c, read_all pty_read (run_pty_bridge all s status) = Some (c, Exits (exit_code status)) /\ stdout c = pty_output events)
      /\ (exists c, read_all pty_read (run_recv_pty all s status) = Some (c, Exits 0) /\ stdout c = pty_output events)).
Proof.
  intros Hf He Hn s all br read. destruct (bridge_loop_frames [] events Bridge_new fs Hf He Hn) as (s' & E).
  fold s all in E. assert (Hbr : br = mkBridge (pty_output events) (typed read) (last_size read None)) by (subst br; by rewrite E).
  rewrite Hbr. split_and!; [done|done|]. intros Hc. unfold run_pty_bridge, run_recv_pty. fold br. rewrite Hbr. cbn [br_sent].
  assert (Hcode : byte_val (byte_of (exit_code status)) = exit_code status).
  { apply byte_of_small. destruct status; cbn [exit_code]; [| |lia]; apply (wrap_is_u 8); lia. }
  assert (Hr : reader pty_read Pipe_new) by (right; by right).
  split; unfold read_all.
  - rewrite length_app. change (length (exit_frame _)) with 2%nat.
    destruct (read_loop_clean pty_read (S (length (pty_output events) + 2)) (pty_output events) Pipe_new
      (exit_frame (byte_of (exit_code status))) Hr Hc ltac:(lia)) as (c & -> & Hb & Ht & _). apply reader_pty in Hb.
    replace (S (length (pty_output events) + 2) - length (pty_output events))%nat with 3%nat by lia. exists c. cbn. rewrite Hcode. split; [done|].
    change (taken Pipe_new ++ pty_output events) with (pty_output events) in Ht. unfold taken in Ht. by rewrite Hb, app_nil_r in Ht.
  - destruct (read_loop_clean pty_read (S (length (pty_output events))) (pty_output events) Pipe_new [] Hr Hc ltac:(lia))
      as (c & E' & Hb & Ht & _). apply reader_pty in Hb. rewrite app_nil_r in E'. rewrite E'.
    replace (S (length (pty_output events)) - length (pty_output events))%nat with 1%nat by lia. exists c. split; [done|].
    change (taken Pipe_new ++ pty_output events) with (pty_output events) in Ht. unfold taken in Ht. by rewrite Hb, app_nil_r in Ht.
Qed.

(** ** Witnesses *)

Lemma readers_deliver_witness :
  (exists c, read_all pipe_read ([x61; x62] ++ exit_frame x03) = Some (c, Exits 3) /\ stdout c = [x61; x62])
  /\ (exists c e, read_all pipe_read (err_frame [x6e; x6f]) = Some (c, e) /\ e <> Exits 0 /\ message c = Some [x6e; x6f]).
Proof.
  apply (readers_deliver pipe_read [x61; x62] x03 [x6e; x6f]).
  - by left.
  - repeat (apply List.Forall_cons; [done|]). apply List.Forall_nil.
  - reflexivity.
  - cbn. lia.
Defined.

(** The input [a] is typed, the child answers and ends. *)
Definition test_session : World :=
  mkWorld (mkClient [] [] true (mkPipe [x62] [] None) None)
    (mkServer false [x61] false true true [x62] (Some x00)) [] (exit_frame x00).

Lemma test_session_runs : rtc step (start [x61]) test_session.
Proof.
  eapply rtc_l; [apply (st_forward _ _ _ _ [x61] []); [done|done|done|cbn; lia|cbn; lia]|].
  eapply rtc_l; [eapply st_client_stdin; [done|cbn; split; reflexivity]|].
  eapply rtc_l; [eapply (st_server_input _ _ _ _ None); reflexivity|].
  eapply rtc_l; [apply (st_server_output _ _ _ _ [x62]); [done|done|done|cbn; lia]|].
  eapply rtc_l; [eapply st_client_read; reflexivity|].
  eapply rtc_l; [apply (st_server_done _ _ _ _ true true); done|].
  eapply rtc_l; [apply (st_server_exit _ _ _ _ x00); done|]. apply rtc_refl.
Qed.

Lemma shell_session_witness :
  exists w', rtc step test_session w' /\ w_server w' = w_server test_session
    /\ cl_exit (w_client w') = Some (Exits 0) /\ stdout (cl_pipe (w_client w')) = [x62].
Proof.
  refine (proj2 (proj2 (proj2 (proj2 (shell_session [x61] test_session test_session_runs)) _)) x00 _).
  - repeat (apply List.Forall_cons; [done|]). apply List.Forall_nil.
  - reflexivity.
Defined.

Lemma pty_session_witness :
  let s := concat (map frame_bytes [FrStdin [x61]; FrResize 80 25]) in
  let all := [FromPty (Some [x62]); FromStream; FromStream] ++ [FromPty None] in
  br_typed (bridge_loop all Bridge_new s).1.1 = [x61] /\ br_size (bridge_loop all Bridge_new s).1.1 = Some (80, 25)
  /\ exists c, read_all pty_read (run_recv_pty all s (WExited 7)) = Some (c, Exits 0) /\ stdout c = [x62].
Proof.
  intros s all.
  destruct (pty_session [FrStdin [x61]; FrResize 80 25] [FromPty (Some [x62]); FromStream; FromStream] (WExited 7)) as (H1 & H2 & H3).
  - apply List.Forall_cons; [cbn; lia|]. apply List.Forall_cons; [split; split; done|]. apply List.Forall_nil.
  - repeat (apply List.Forall_cons; [done|]). apply List.Forall_nil.
  - cbn. lia.
  - split; [exact H1|]. split; [exact H2|]. apply H3. apply List.Forall_cons; [done|]. apply List.Forall_nil.
Defined.
