(* ===== verification/Forwarding.v ===== *)
(** * Forwarded connections

    The streams that carry TCP connections: the target header that
    src/src/bin/seam/forward.rs and proxy.rs write and that forward.rs, proxy.rs and
    serve.rs read, the relay of forward.rs, and the SOCKS5 server of proxy.rs.  A
    stream is read up to its end (Text.v); [copy_bidirectional] hands on what is left
    of it unchanged. *)

From Stdlib Require Import ZArith Lia Bool List String.
From Stdlib Require Import Strings.Byte.
From stdpp Require Import base list numbers option.
From S2P Require Import Prelude TestCrypto Identity Net Text.

Open Scope Z_scope.

(** ** The target header *)

Definition target_header (host : list byte) (port : Z) : list byte :=
  to_be 2 (wrap 16 (Z.of_nat (length host))) ++ host ++ to_be 2 port.

Definition framed (header : list byte) : list byte := to_be 4 (wrap 32 (Z.of_nat (length header))) ++ header.

(** What [run] of forward.rs and [handle_socks5_client] write first. *)
Definition send_header (host : list byte) (port : Z) : list byte := framed (target_header host port).

(** The frame's contents, and what follows. *)
Definition read_framed (s : list byte) : (list byte * list byte) + string :=
  match read_exact 4 s with
  | (None, _) => inr "unexpected end of stream"%string
  | (Some len_buf, s) =>
      let header_len := from_be len_buf in
      if negb ((4 <=? header_len) && (header_len <=? 4096)) then inr "invalid header length"%string
      else match read_exact (Z.to_nat header_len) s with
           | (None, _) => inr "unexpected end of stream"%string
           | (Some header, s) => inl (header, s)
           end
  end.

Definition target (host : list byte) (port : Z) : list byte := host ++ [COLON] ++ dec port.

Definition parse_target (header : list byte) : list byte + string :=
  if (length header <? 4)%nat then inr "header too short"%string
  else
    let host_len := Z.to_nat (from_be (slice header 0 2)) in
    if (length header <? 2 + host_len + 2)%nat then inr "header truncated"%string
    else match from_utf8 (slice header 2 (2 + host_len)) with
         | None => inr "invalid UTF-8 in host"%string
         | Some host => inl (target host (from_be (slice header (2 + host_len) (2 + host_len + 2))))
         end.

(** The target, and the first bytes for it. *)
Definition read_target (s : list byte) : (list byte * list byte) + string :=
  match read_framed s with
  | inr e => inr e
  | inl (header, s) => match parse_target header with inl t => inl (t, s) | inr e => inr e end
  end.

(** ** Receivers *)

Section Receivers.
(** Whether a TCP connection to a target can be opened. *)
Context (connects : list byte -> bool).

(** A stream bridged to a target, with the bytes of the stream it begins with. *)
Inductive Bridged : Type :=
  | Bridge (to : list byte) (first : list byte)
  | Dropped (why : string).

Definition connect_bridge (t first : list byte) : Bridged :=
  if connects t then Bridge t first else Dropped "cannot connect".

(** A stream of forward.rs's [run_recv]. *)
Definition forward_recv (s : list byte) : Bridged :=
  match read_target s with inr e => Dropped e | inl (t, s) => connect_bridge t s end.

Definition serve_forward (s : list byte) : Bridged :=
  match read_target s with inr e => Dropped e | inl (t, s) => connect_bridge t s end.

Definition REP_SUCCESS : byte := x00.
Definition REP_GENERAL_FAILURE : byte := x01.

(** A stream of proxy.rs's [run_recv]: what it writes back, and the bridge. *)
Definition proxy_recv (s : list byte) : list byte * Bridged :=
  match read_target s with
  | inr e => ([], Dropped e)
  | inl (t, s) => if connects t then ([REP_SUCCESS], Bridge t s) else ([REP_GENERAL_FAILURE], Dropped "cannot connect")
  end.

End Receivers.

(** A stream of [run_hop_recv]: what the relay writes to the target's stream. *)
Definition hop_recv (s : list byte) : option (list byte) :=
  match read_framed s with inr _ => None | inl (header, s) => Some (framed header ++ s) end.

(** ** SOCKS5 *)

Definition SOCKS5_VERSION : byte := x05.
Definition NO_AUTH : byte := x00.
Definition AUTH_NONE_ACCEPTABLE : byte := xff.
Definition CMD_CONNECT : byte := x01.
Definition ATYP_IPV4 : byte := x01.
Definition ATYP_DOMAIN : byte := x03.
Definition ATYP_IPV6 : byte := x04.
Definition REP_CMD_NOT_SUPPORTED : byte := x07.
Definition REP_ATYP_NOT_SUPPORTED : byte := x08.

Definition socks5_reply (rep : byte) : list byte := [SOCKS5_VERSION; rep; x00; ATYP_IPV4] ++ repeat x00 4 ++ repeat x00 2.

(** What a client got, what was sent on a stream of the tunnel if one was opened,
    and the client's bytes the bridge begins with, or the error. *)
Record Socks : Type := mkSocks { sk_written : list byte; sk_sent : option (list byte); sk_result : list byte + string }.

(** The address of a request, and what follows it. *)
Definition read_host (atyp : byte) (s : list byte) : option (list byte + string) * list byte :=
  if Byte.eqb atyp ATYP_IPV4 then
    match read_exact 4 s with
    | (Some addr, s) => (Some (inl (ipv4_to_string (from_be addr))), s)
    | (None, s) => (Some (inr "unexpected end of file"%string), s)
    end
  else if Byte.eqb atyp ATYP_DOMAIN then
    match s with
    | [] => (Some (inr "unexpected end of file"%string), [])
    | len :: s =>
        match read_exact (Z.to_nat (byte_val len)) s with
        | (Some domain, s) => (Some (match from_utf8 domain with Some d => inl d | None => inr "invalid domain encoding"%string end), s)
        | (None, s) => (Some (inr "unexpected end of file"%string), s)
        end
    end
  else if Byte.eqb atyp ATYP_IPV6 then
    match read_exact 16 s with
    | (Some addr, s) => (Some (inl (ipv6_to_string addr)), s)
    | (None, s) => (Some (inr "unexpected end of file"%string), s)
    end
  else (None, s).

Section Client.
(** What comes back on the tunnel's stream for what was sent on it. *)
Context (remote : list byte -> list byte).

(** Phases 3 to 5: ask the remote side, answer the client. *)
Definition socks5_connect (written host : list byte) (port : Z) (s : list byte) : Socks :=
  let sent := send_header host port in
  match remote sent with
  | [] => mkSocks written (Some sent) (inr "unexpected end of stream"%string)
  | rep :: _ =>
      if negb (Byte.eqb rep REP_SUCCESS)
      then mkSocks (written ++ socks5_reply REP_GENERAL_FAILURE) (Some sent) (inr "remote could not connect"%string)
      else mkSocks (written ++ socks5_reply REP_SUCCESS) (Some sent) (inl s)
  end.

(** Phase 2: the request. *)
Definition socks5_request (written s : list byte) : Socks :=
  match read_exact 4 s with
  | (Some [ver; cmd; _; atyp], s) =>
      if negb (Byte.eqb ver SOCKS5_VERSION) then mkSocks written None (inr "SOCKS5 request version mismatch"%string)
      else if negb (Byte.eqb cmd CMD_CONNECT)
      then mkSocks (written ++ socks5_reply REP_CMD_NOT_SUPPORTED) None (inr "only CONNECT is supported"%string)
      else match read_host atyp s with
           | (None, _) => mkSocks (written ++ socks5_reply REP_ATYP_NOT_SUPPORTED) None (inr "unsupported ATYP"%string)
           | (Some (inr e), _) => mkSocks written None (inr e)
           | (Some (inl host), s) =>
               match read_exact 2 s with
               | (None, _) => mkSocks written None (inr "unexpected end of file"%string)
               | (Some port, s) => socks5_connect written host (from_be port) s
               end
           end
  | _ => mkSocks written None (inr "unexpected end of file"%string)
  end.

(** The bytes [s] are the client's, up to its end. *)
Definition handle_socks5_client (s : list byte) : Socks :=
  match read_exact 2 s with
  | (Some [ver; nmethods], s) =>
      if negb (Byte.eqb ver SOCKS5_VERSION) then mkSocks [] None (inr "not a SOCKS5 client"%string)
      else match read_exact (Z.to_nat (byte_val nmethods)) s with
           | (None, _) => mkSocks [] None (inr "unexpected end of file"%string)
           | (Some methods, s) =>
               if negb (existsb (Byte.eqb NO_AUTH) methods)
               then mkSocks [SOCKS5_VERSION; AUTH_NONE_ACCEPTABLE] None (inr "client requires authentication"%string)
               else socks5_request [SOCKS5_VERSION; NO_AUTH] s
           end
  | _ => mkSocks [] None (inr "unexpected end of file"%string)
  end.

End Client.

(** ** Headers *)

(** A host name or an address as text, short enough for a header. *)
Definition host_ok (host : list byte) : Prop := utf8_valid host = true /\ (length host <= 4092)%nat.

Lemma length_target_header host port : length (target_header host port) = (4 + length host)%nat.
Proof. unfold target_header. rewrite !length_app, !length_to_be. lia. Qed.

Lemma read_framed_framed header rest : (4 <= length header <= 4096)%nat ->
  read_framed (framed header ++ rest) = inl (header, rest).
Proof.
  intros Hl. unfold read_framed, framed. rewrite wrap_small by (split; cbn; lia).
  rewrite <- app_assoc, read_exact_len by (by rewrite length_to_be).
  rewrite from_be_to_be_small by (split; cbn; lia).
  rewrite (proj2 (Z.leb_le 4 _)), (proj2 (Z.leb_le _ 4096)) by lia. cbn [andb negb].
  by rewrite Nat2Z.id, read_exact_app.
Qed.

Lemma parse_target_header host port : host_ok host -> is_u 16 port -> parse_target (target_header host port) = inl (target host port).
Proof.
  intros [Hv Hl] Hp. unfold parse_target. rewrite length_target_header, (proj2 (Nat.ltb_ge _ 4)) by lia.
  unfold target_header. rewrite wrap_small by (split; cbn; lia). set (header := to_be 2 _ ++ host ++ to_be 2 port).
  assert (H1 : slice header 0 2 = to_be 2 (Z.of_nat (length host))) by (apply (slice_mid []); [done|by rewrite length_to_be]).
  rewrite H1, from_be_to_be_small, Nat2Z.id by (split; cbn; lia). rewrite (proj2 (Nat.ltb_ge _ _)) by lia.
  assert (H2 : slice header 2 (2 + length host) = host) by (apply slice_mid; [by rewrite length_to_be|lia]).
  assert (H3 : slice header (2 + length host) (2 + length host + 2) = to_be 2 port).
  { subst header. rewrite app_assoc. apply slice_last; [by rewrite length_app, length_to_be|rewrite length_to_be; lia]. }
  rewrite H2, H3. unfold from_utf8. by rewrite Hv, from_be_to_be_small by done.
Qed.

Lemma read_target_header host port rest : host_ok host -> is_u 16 port ->
  read_target (send_header host port ++ rest) = inl (target host port, rest).
Proof.
  intros Hh Hp. unfold read_target, send_header.
  rewrite read_framed_framed, parse_target_header by (done || rewrite length_target_header; destruct Hh; lia). done.
Qed.

(** A forwarded connection reaches its target: the receivers of forward.rs and
    serve.rs read from the header the host and the port that were put into it and
    bridge the bytes after it, all of them, to that target if it can be reached;
    a relay hands the stream on byte for byte; a host too long for a header is
    refused by all of them. *)
Theorem forward_reaches_target (connects : list byte -> bool) host port data :
  utf8_valid host = true -> is_u 16 port -> Z.of_nat (length host) + 4 < 2 ^ 32 ->
  let s := send_header host port ++ data in
  if (length host <=? 4092)%nat
  then let bridged := if connects (target host port) then Bridge (target host port) data else Dropped "cannot connect" in
       forward_recv connects s = bridged /\ serve_forward connects s = bridged /\ hop_recv s = Some s
  else (exists e, forward_recv connects s = Dropped e /\ serve_forward connects s = Dropped e) /\ hop_recv s = None.
Proof.
  intros Hv Hp Hb s. destruct (length host <=? 4092)%nat eqn:E; cmp_facts.
  - assert (Hh : host_ok host) by (split; [done|lia]). cbn zeta. unfold forward_recv, serve_forward, hop_recv. subst s.
    rewrite (read_target_header host port data Hh Hp). split_and!; [done|done|].
    unfold send_header. by rewrite read_framed_framed by (rewrite length_target_header; lia).
  - assert (Hr : exists e, read_framed s = inr e).
    { subst s. unfold read_framed, send_header, framed. rewrite length_target_header, wrap_small by (split; lia).
      rewrite <- app_assoc, read_exact_len by (by rewrite length_to_be).
      rewrite from_be_to_be_small by (split; cbn; lia). rewrite (proj2 (Z.leb_gt _ 4096)) by lia. rewrite andb_false_r.
      cbn [negb]. by eexists. }
    destruct Hr as (e & He). unfold forward_recv, serve_forward, hop_recv, read_target. rewrite He. split; [by exists e|done].
Qed.

(** ** Addresses as hosts *)

Lemma digits_fuel_length fuel b n : (length (digits_fuel fuel b n) <= fuel)%nat.
Proof.
  revert n. induction fuel as [|fuel IH]; intros n; cbn [digits_fuel]; [done|].
  destruct (n <? b); [cbn; lia|]. rewrite length_app. specialize (IH (n / b)). cbn [length]. lia.
Qed.

(** Short ASCII text. *)
Definition short (k : nat) (l : list byte) : Prop := is_ascii l = true /\ (length l <= k)%nat.

Lemma short_app j k a b : short j a -> short k b -> short (j + k) (a ++ b).
Proof. intros [Ha Hj] [Hb Hk]. split; [by rewrite is_ascii_app, Ha, Hb|]. rewrite length_app. lia. Qed.

Lemma short_le j k l : (j <= k)%nat -> short j l -> short k l.
Proof. intros Hjk [H Hl]. split; [done|lia]. Qed.

Lemma short_digits b n : 1 < b <= 16 -> 0 <= n -> short 64 (map hex_digit (digits b n)).
Proof.
  intros Hb Hn. split; [|rewrite length_map; apply digits_fuel_length].
  apply forallb_forall. intros c Hc. apply in_map_iff in Hc as (d & <- & Hd).
  pose proof (digits_fuel_range b 64 n ltac:(lia) Hn) as Hr. rewrite List.Forall_forall in Hr. specialize (Hr d Hd). cbn beta in Hr.
  apply Z.ltb_lt. unfold hex_digit. split_if; cmp_facts; rewrite byte_of_small; lia.
Qed.

Lemma short_join k c l : byte_val c < 128 -> Forall (short k) l -> short ((k + 1) * length l) (join [c] l).
Proof.
  intros Hc Hl. induction Hl as [|x l Hx Hl IH]; [split; [done|cbn; lia]|]. destruct l as [|y l].
  - cbn [join length]. apply (short_le k); [lia|done].
  - change (join [c] (x :: y :: l)) with (x ++ [c] ++ join [c] (y :: l)).
    apply (short_le (k + (1 + (k + 1) * length (y :: l)))); [cbn [length]; lia|].
    apply short_app; [done|]. apply short_app; [|done]. split; [|done]. cbn. by rewrite (proj2 (Z.ltb_lt _ _)).
Qed.

Lemma short_host k l : (k <= 4092)%nat -> short k l -> host_ok l.
Proof. intros Hk [Ha Hl]. split; [by apply ascii_utf8|lia]. Qed.

Lemma from_be_nonneg l : 0 <= from_be l.
Proof. unfold from_be. apply from_le_bound. Qed.

Lemma short_ipv4 ip : short 260 (ipv4_to_string ip).
Proof.
  apply (short_join 64 DOT (map dec (ipv4_octets ip))); [done|]. apply List.Forall_map, List.Forall_forall. intros n Hn.
  apply (short_digits 10); [lia|]. cbn in Hn.
  destruct Hn as [<-|[<-|[<-|[<-|[]]]]]; by apply Z.mod_pos_bound.
Qed.

Lemma short_segments l : Forall (fun n => 0 <= n) l -> short (65 * length l) (fmt_segments l).
Proof.
  intros Hl. unfold fmt_segments. rewrite <- (length_map hex l). apply (short_join 64); [done|].
  apply List.Forall_map. eapply List.Forall_impl; [|exact Hl]. intros n Hn. by apply (short_digits 16).
Qed.

Lemma short_ipv6 ip : short 1200 (ipv6_to_string ip).
Proof.
  unfold ipv6_to_string. split_if.
  - apply (short_le (7 + 260)); [lia|]. apply short_app; [by split|apply short_ipv4].
  - assert (Hs : Forall (fun n => 0 <= n) (ipv6_segments ip)).
    { apply List.Forall_map, List.Forall_forall. intros i _. apply from_be_nonneg. }
    assert (Hlen : length (ipv6_segments ip) = 8%nat) by done.
    assert (Hany : forall l, Forall (fun n => 0 <= n) l -> (length l <= 8)%nat -> short 520 (fmt_segments l)).
    { intros l Hl Hk. apply (short_le (65 * length l)); [lia|by apply short_segments]. }
    destruct (longest_zeros _ _ _ _) as [st len]. split_if; [|apply (short_le 520); [lia|apply Hany; [done|by rewrite Hlen]]].
    apply (short_le (520 + (2 + 520))); [lia|]. apply short_app; [|apply short_app; [by split|]].
    + apply Hany; [by apply list.Forall_take|rewrite length_take, Hlen; lia].
    + apply Hany; [by apply list.Forall_drop|rewrite length_drop, Hlen; lia].
Qed.

(** ** SOCKS5 requests *)

(** The three kinds of address of a request. *)
Inductive Host : Type := HIpv4 (addr : list byte) | HDomain (name : list byte) | HIpv6 (addr : list byte).

Definition well_formed (h : Host) : Prop :=
  match h with
  | HIpv4 addr => length addr = 4%nat
  | HDomain name => utf8_valid name = true /\ (length name <= 255)%nat
  | HIpv6 addr => length addr = 16%nat
  end.

Definition host_bytes (h : Host) : list byte :=
  match h with
  | HIpv4 addr => ATYP_IPV4 :: addr
  | HDomain name => [ATYP_DOMAIN; byte_of (Z.of_nat (length name))] ++ name
  | HIpv6 addr => ATYP_IPV6 :: addr
  end.

Definition host_text (h : Host) : list byte :=
  match h with
  | HIpv4 addr => ipv4_to_string (from_be addr)
  | HDomain name => name
  | HIpv6 addr => ipv6_to_string addr
  end.

Definition greeting (methods : list byte) : list byte := [SOCKS5_VERSION; byte_of (Z.of_nat (length methods))] ++ methods.

Definition request (rsv : byte) (h : Host) (port : Z) : list byte :=
  [SOCKS5_VERSION; CMD_CONNECT; rsv] ++ host_bytes h ++ to_be 2 port.

Lemma host_text_ok h : well_formed h -> host_ok (host_text h).
Proof.
  destruct h as [addr|name|addr]; cbn [well_formed host_text]; intros Hw.
  - apply (short_host 260); [lia|apply short_ipv4].
  - destruct Hw as [Hv Hl]. split; [done|lia].
  - apply (short_host 1200); [lia|apply short_ipv6].
Qed.

(** What [read_host] finds is always a host for a header. *)
Lemma read_host_ok atyp s h s' : read_host atyp s = (Some (inl h), s') -> host_ok h.
Proof.
  unfold read_host. intros H. destruct (Byte.eqb atyp ATYP_IPV4).
  { destruct (read_exact 4 s) as [[addr|] r]; simplify_eq; apply (short_host 260); [lia|apply short_ipv4]. }
  destruct (Byte.eqb atyp ATYP_DOMAIN).
  { destruct s as [|len s]; [done|]. destruct (read_exact _ s) as [[domain|] r] eqn:E; [|done]. unfold from_utf8 in H.
    destruct (utf8_valid domain) eqn:Ev; simplify_eq. split; [done|]. unfold read_exact in E.
    split_if_in E; [done|]. injection E as <- _. rewrite length_take. pose proof (byte_val_bound len). lia. }
  destruct (Byte.eqb atyp ATYP_IPV6); [|done].
  destruct (read_exact 16 s) as [[addr|] r]; simplify_eq; apply (short_host 1200); [lia|apply short_ipv6].
Qed.

Lemma read_host_bytes h rest : well_formed h ->
  exists atyp addr, host_bytes h = atyp :: addr /\ read_host atyp (addr ++ rest) = (Some (inl (host_text h)), rest).
Proof.
  destruct h as [addr|name|addr]; cbn [well_formed host_bytes host_text app]; intros Hw; do 2 eexists; (split; [reflexivity|]); unfold read_host.
  - change (Byte.eqb ATYP_IPV4 ATYP_IPV4) with true. cbn iota. by rewrite read_exact_len.
  - destruct Hw as [Hv Hl]. change (Byte.eqb ATYP_DOMAIN ATYP_IPV4) with false. change (Byte.eqb ATYP_DOMAIN ATYP_DOMAIN) with true.
    cbn iota. cbn [app]. rewrite byte_of_small, Nat2Z.id, read_exact_app by lia. unfold from_utf8. by rewrite Hv.
  - change (Byte.eqb ATYP_IPV6 ATYP_IPV4) with false. change (Byte.eqb ATYP_IPV6 ATYP_DOMAIN) with false.
    change (Byte.eqb ATYP_IPV6 ATYP_IPV6) with true. cbn iota. by rewrite read_exact_len.
Qed.

Lemma socks5_request_reads remote written rsv h port data : well_formed h -> is_u 16 port ->
  socks5_request remote written (request rsv h port ++ data) = socks5_connect remote written (host_text h) port data.
Proof.
  intros Hw Hp. destruct (read_host_bytes h (to_be 2 port ++ data) Hw) as (atyp & addr & Eb & Er).
  unfold socks5_request, request. rewrite Eb.
  change (([SOCKS5_VERSION; CMD_CONNECT; rsv] ++ (atyp :: addr) ++ to_be 2 port) ++ data)
    with ([SOCKS5_VERSION; CMD_CONNECT; rsv; atyp] ++ (addr ++ to_be 2 port) ++ data).
  rewrite (read_exact_len 4 [SOCKS5_VERSION; CMD_CONNECT; rsv; atyp]) by done.
  change (Byte.eqb SOCKS5_VERSION SOCKS5_VERSION) with true. change (Byte.eqb CMD_CONNECT CMD_CONNECT) with true. cbn [negb].
  rewrite <- app_assoc, Er, read_exact_len by (by rewrite length_to_be). by rewrite from_be_to_be_small by done.
Qed.

(** C30: The SOCKS5 server connects to what was asked for: a client that offers no
    authentication and asks for an address of any of the three kinds is told of
    success exactly if the remote side could connect to that host and port, and then
    all its further bytes go there, and nothing else does. *)
Theorem socks5_connects (connects : list byte -> bool) methods rsv h port data :
  In NO_AUTH methods -> (length methods <= 255)%nat -> well_formed h -> is_u 16 port ->
  let t := target (host_text h) port in
  let header := send_header (host_text h) port in
  handle_socks5_client (fun sent => (proxy_recv connects sent).1) (greeting methods ++ request rsv h port ++ data)
    = (if connects t
       then mkSocks ([SOCKS5_VERSION; NO_AUTH] ++ socks5_reply REP_SUCCESS) (Some header) (inl data)
       else mkSocks ([SOCKS5_VERSION; NO_AUTH] ++ socks5_reply REP_GENERAL_FAILURE) (Some header) (inr "remote could not connect"%string))
  /\ (proxy_recv connects (header ++ data)).2 = (if connects t then Bridge t data else Dropped "cannot connect").
Proof.
  intros Hm Hl Hw Hp t header. pose proof (host_text_ok h Hw) as Hh. split.
  - unfold handle_socks5_client, greeting. rewrite <- app_assoc, (read_exact_len 2) by done.
    change (Byte.eqb SOCKS5_VERSION SOCKS5_VERSION) with true. cbn [negb]. rewrite byte_of_small, Nat2Z.id, read_exact_app by lia.
    assert (Ex : existsb (Byte.eqb NO_AUTH) methods = true) by (apply existsb_exists; exists NO_AUTH; split; [done|apply byte_eqb_refl]).
    rewrite Ex. cbn [negb]. rewrite socks5_request_reads by done. unfold socks5_connect, proxy_recv.
    pose proof (read_target_header (host_text h) port [] Hh Hp) as Er. rewrite app_nil_r in Er. rewrite Er.
    subst t header. by destruct (connects _).
  - unfold proxy_recv. subst header. rewrite read_target_header by done. subst t. by destruct (connects _).
Qed.

(** The tunnel is only used for a complete request: whatever bytes a client
    sends, a stream is opened only if it offered to go without authentication, and
    what is sent first on it is a header every receiver accepts. *)
Theorem socks5_guards_tunnel remote s sent :
  sk_sent (handle_socks5_client remote s) = Some sent ->
  (exists methods rest, s = greeting methods ++ rest /\ In NO_AUTH methods)
  /\ exists host port, sent = send_header host port /\ forall data, read_target (sent ++ data) = inl (target host port, data).
Proof.
  unfold handle_socks5_client. destruct (read_exact 2 s) as [[l|] r] eqn:E2; [|done].
  destruct l as [|ver [|n [|]]]; try done. destruct (Byte.eqb ver SOCKS5_VERSION) eqn:Ev; [|done]. cbn [negb].
  destruct (read_exact (Z.to_nat (byte_val n)) r) as [[methods|] r'] eqn:E3; [|done].
  destruct (existsb (Byte.eqb NO_AUTH) methods) eqn:Em; [|done]. cbn [negb].
  intros H. split.
  - exists methods, r'. apply byte_eqb_eq in Ev as ->. unfold read_exact in E2, E3.
    split_if_in E2; [done|]. split_if_in E3; [done|]. injection E2 as E2 E2'. injection E3 as <- <-. subst r.
    apply existsb_exists in Em as (b & Hb & Eb). apply byte_eqb_eq in Eb as <-. split; [|done].
    cmp_facts. unfold greeting. rewrite length_take, Nat.min_l by lia. pose proof (byte_val_bound n).
    rewrite Z2Nat.id, byte_of_val by lia. rewrite <- app_assoc, take_drop, <- E2. by rewrite take_drop.
  - revert H. unfold socks5_request. destruct (read_exact 4 r') as [[l|] r2]; [|done].
    destruct l as [|v [|cmd [|rsv [|atyp [|]]]]]; try done. destruct (Byte.eqb v _); [|done]. cbn [negb].
    destruct (Byte.eqb cmd _); [|done]. cbn [negb].
    destruct (read_host atyp r2) as [[[host|]|] r3] eqn:Eh; try done.
    destruct (read_exact 2 r3) as [[port|] r4] eqn:Ep; [|done]. intros H.
    assert (Hs : sent = send_header host (from_be port)).
    { unfold socks5_connect in H. destruct (remote _); [|destruct (negb _)]; by injection H as <-. }
    exists host, (from_be port). split; [done|]. intros data. rewrite Hs. apply read_target_header; [by eapply read_host_ok|].
    unfold read_exact in Ep. split_if_in Ep; [done|]. injection Ep as <- _. cmp_facts.
    unfold from_be. apply (from_le_is_u _ 2). rewrite length_rev, length_take. lia.
Qed.

(** ** Witnesses *)

Definition db : list byte := string_bytes "db".

Lemma forward_reaches_target_witness :
  (length db <=? 4092)%nat = true
  /\ forward_recv (fun _ => true) (send_header db 5432 ++ [x61]) = Bridge (target db 5432) [x61].
Proof.
  assert (E : (length db <=? 4092)%nat = true) by (vm_compute; reflexivity). split; [exact E|].
  assert (Hp : is_u 16 5432) by (split; [lia|reflexivity]).
  assert (Hl : Z.of_nat (length db) + 4 < 2 ^ 32) by (vm_compute; reflexivity).
  pose proof (forward_reaches_target (fun _ => true) db 5432 [x61] eq_refl Hp Hl) as H. cbv zeta in H. rewrite E in H.
  exact (proj1 H).
Defined.

Definition loopback : Host := HIpv4 [x7f; x00; x00; x01].

Lemma socks5_connects_witness :
  let t := target (host_text loopback) 80 in
  (proxy_recv (fun _ => true) (send_header (host_text loopback) 80 ++ [x47])).2 = Bridge t [x47].
Proof.
  assert (Hm : In NO_AUTH [x00; x02]) by (left; reflexivity).
  assert (Hl : (length [x00; x02] <= 255)%nat) by (cbn; lia).
  assert (Hw : well_formed loopback) by reflexivity.
  assert (Hp : is_u 16 80) by (split; [lia|reflexivity]).
  exact (proj2 (socks5_connects (fun _ => true) [x00; x02] x00 loopback 80 [x47] Hm Hl Hw Hp)).
Defined.

Definition test_socks : list byte := greeting [x00] ++ request x00 (HDomain [x61]) 80.

Lemma socks5_guards_tunnel_witness :
  sk_sent (handle_socks5_client (fun _ => []) test_socks) = Some (send_header [x61] 80)
  /\ exists methods rest, test_socks = greeting methods ++ rest /\ In NO_AUTH methods.
Proof.
  assert (H : sk_sent (handle_socks5_client (fun _ => []) test_socks) = Some (send_header [x61] 80)) by (vm_compute; reflexivity).
  split; [exact H|]. exact (proj1 (socks5_guards_tunnel (fun _ => []) test_socks (send_header [x61] 80) H)).
Defined.
