(* ===== verification/Tunnel.v ===== *)
(** * Persistent tunnels

    src/src/bin/seam/tunnel.rs: the status frames, the counters of both sides, the
    streams of a tunnel and what becomes of their bytes, the request and status
    lines shown in HTTP mode, and the delays between reconnections.  A connection is
    the chunks read from it in order; sockets and the printed status are not
    represented. *)

From Stdlib Require Import ZArith Lia Bool List String.
From Stdlib Require Import Strings.Byte.
From stdpp Require Import base list numbers option.
From S2P Require Import Prelude TestCrypto Identity Net Text.

Open Scope Z_scope.

Definition TUNNEL_STATUS_TAG : byte := x20.
Definition TUNNEL_CLOSE_TAG : byte := x21.
Definition TUNNEL_CLOSE_ACK_TAG : byte := x22.

Definition RECONNECT_BASE_MS : Z := 100.
Definition RECONNECT_CAP_MS : Z := 30000.

(** ** Status *)

Record TunnelStats : Type := mkStats {
  connections_served : Z;   (* AtomicU64 *)
  connections_active : Z;   (* AtomicU32 *)
  bytes_in : Z;             (* AtomicU64 *)
  bytes_out : Z             (* AtomicU64 *)
}.

Definition TunnelStats_default : TunnelStats := mkStats 0 0 0 0.

Record TunnelStatusFrame : Type := mkStatus { sf_active : Z; sf_bytes_in : Z; sf_bytes_out : Z; sf_uptime : Z }.

Definition TunnelStatusFrame_encode (f : TunnelStatusFrame) : list byte :=
  [TUNNEL_STATUS_TAG] ++ to_le 4 (sf_active f) ++ to_le 8 (sf_bytes_in f) ++ to_le 8 (sf_bytes_out f) ++ to_le 8 (sf_uptime f).

Definition TunnelStatusFrame_decode (data : list byte) : option TunnelStatusFrame :=
  match data with
  | tag :: _ =>
      if (length data <? 29)%nat || negb (Byte.eqb tag TUNNEL_STATUS_TAG) then None
      else Some (mkStatus (from_le (slice data 1 5)) (from_le (slice data 5 13)) (from_le (slice data 13 21)) (from_le (slice data 21 29)))
  | [] => None
  end.

(** A connection begins and ends. *)
Definition conn_opened (s : TunnelStats) : TunnelStats :=
  mkStats (wrapping_add 64 (connections_served s) 1) (wrapping_add 32 (connections_active s) 1) (bytes_in s) (bytes_out s).

Definition conn_closed (s : TunnelStats) : TunnelStats :=
  mkStats (connections_served s) (wrap 32 (connections_active s - 1)) (bytes_in s) (bytes_out s).

Definition count_in (s : TunnelStats) (n : nat) : TunnelStats :=
  mkStats (connections_served s) (connections_active s) (wrapping_add 64 (bytes_in s) (Z.of_nat n)) (bytes_out s).

Definition count_out (s : TunnelStats) (n : nat) : TunnelStats :=
  mkStats (connections_served s) (connections_active s) (bytes_in s) (wrapping_add 64 (bytes_out s) (Z.of_nat n)).

(** What the broadcaster of [run_recv] sends. *)
Definition status_of (s : TunnelStats) (uptime : Z) : TunnelStatusFrame :=
  mkStatus (connections_active s) (bytes_in s) (bytes_out s) uptime.

(** A stream of [drain_control_streams]. *)
Definition drain_control_stream (s : TunnelStats) (stream : list byte) : TunnelStats :=
  match read_exact 29 stream with
  | (None, _) => s
  | (Some buf, _) =>
      match TunnelStatusFrame_decode buf with
      | None => s
      | Some f => mkStats (connections_served s) (sf_active f) (sf_bytes_in f) (sf_bytes_out f)
      end
  end.

(** ** Streams *)

(** One direction of a bridge: the bytes written, and the counter. *)
Fixpoint copy_counted (count : TunnelStats -> nat -> TunnelStats) (chunks : list (list byte)) (s : TunnelStats)
  : list byte * TunnelStats :=
  match chunks with
  | [] => ([], s)
  | c :: chunks => let '(out, s) := copy_counted count chunks (count s (length c)) in (c ++ out, s)
  end.

(** [bridge_counted]: the connection's bytes go to the stream, the stream's to the
    connection. *)
Definition bridge_counted (from_tcp from_seam : list (list byte)) (s : TunnelStats) : list byte * list byte * TunnelStats :=
  let '(to_tcp, s) := copy_counted count_in from_seam s in
  let '(to_seam, s) := copy_counted count_out from_tcp s in
  (to_seam, to_tcp, s).

(** [bridge_recv], on the other side. *)
Definition bridge_recv (from_seam from_tcp : list (list byte)) (s : TunnelStats) : list byte * list byte * TunnelStats :=
  let '(to_tcp, s) := copy_counted count_out from_seam s in
  let '(to_seam, s) := copy_counted count_in from_tcp s in
  (to_tcp, to_seam, s).

(** The stream's bytes of [bridge_http]: the first read is passed on, then the rest. *)
Definition bridge_http_request (from_tcp : list (list byte)) : option (list byte) :=
  match from_tcp with
  | [] => None
  | hdr :: rest => Some (hdr ++ concat rest)
  end.

(** What a stream of the receiver comes to: nothing read, a close request answered,
    or a connection whose target got bytes and answered. *)
Inductive Received : Type :=
  | RvNothing
  | RvClosed (answer : list byte)
  | RvUnreachable
  | RvBridged (to_tcp to_seam : list byte).

(** [handle_recv_stream]: the stream's first byte, the chunks read after it, and
    what the target sends. *)
Definition handle_recv_stream (reachable : bool) (first : option byte) (from_seam from_tcp : list (list byte)) (s : TunnelStats)
  : Received * TunnelStats :=
  match first with
  | None => (RvNothing, s)
  | Some peek =>
      if Byte.eqb peek TUNNEL_CLOSE_TAG then (RvClosed [TUNNEL_CLOSE_ACK_TAG], s)
      else
        let s := conn_opened s in
        if reachable then
          let '(to_tcp, to_seam, s) := bridge_recv from_seam from_tcp s in
          (RvBridged (peek :: to_tcp) to_seam, conn_closed s)
        else (RvUnreachable, conn_closed s)
  end.

(** ** HTTP lines *)

Definition parse_http_request_line (buf : list byte) : option (list byte * list byte) :=
  text ← from_utf8 buf;
  first ← head (lines text);
  match splitn 3 SPACE first with
  | method :: path :: _ => Some (method, path)
  | _ => None
  end.

Definition parse_http_status (buf : list byte) : list byte :=
  default (string_bytes "???")
    (text ← from_utf8 buf; first ← head (lines text); split SPACE first !! 1%nat).

(** ** Reconnecting *)

Record Retry : Type := mkRetry { backoff_ms : Z; attempt : Z }.

Definition Retry_new : Retry := mkRetry RECONNECT_BASE_MS 0.

(** The delay, and the state after it. *)
Definition retry_later (r : Retry) : Z * Retry :=
  (backoff_ms r, mkRetry (Z.min (wrapping_mul 64 (backoff_ms r) 2) RECONNECT_CAP_MS) (wrapping_add 32 (attempt r) 1)).

(** A turn of [run_port_forward]'s loop: the connection fails, serves until
    [serve_loop] says it dropped, or serves until the end. *)
Inductive Turn : Type := Fails | Drops | Ends.

Fixpoint run_port_forward (turns : list Turn) (r : Retry) : list Z :=
  match turns with
  | [] => []
  | Fails :: turns => let '(d, r) := retry_later r in d :: run_port_forward turns r
  | Drops :: turns => let '(d, r) := retry_later Retry_new in d :: run_port_forward turns r
  | Ends :: _ => []
  end.

(** ** Round trips *)

Lemma slice_field {A} (data p m q : list A) i j :
  data = p ++ m ++ q -> length p = i -> length m = (j - i)%nat -> slice data i j = m.
Proof. intros ->. apply slice_mid. Qed.

(** A status frame decodes to the counters it was encoded from, whatever
    follows it, and the client takes them over. *)
Theorem status_roundtrip f rest s :
  is_u 32 (sf_active f) -> is_u 64 (sf_bytes_in f) -> is_u 64 (sf_bytes_out f) -> is_u 64 (sf_uptime f) ->
  TunnelStatusFrame_decode (TunnelStatusFrame_encode f ++ rest) = Some f
  /\ drain_control_stream s (TunnelStatusFrame_encode f ++ rest)
     = mkStats (connections_served s) (sf_active f) (sf_bytes_in f) (sf_bytes_out f).
Proof.
  intros Ha Hi Ho Hu.
  assert (Hdec : forall rest, TunnelStatusFrame_decode (TunnelStatusFrame_encode f ++ rest) = Some f).
  { clear rest. intros rest. unfold TunnelStatusFrame_decode, TunnelStatusFrame_encode.
    set (t := [TUNNEL_STATUS_TAG]). set (a := to_le 4 (sf_active f)). set (i := to_le 8 (sf_bytes_in f)).
    set (o := to_le 8 (sf_bytes_out f)). set (u := to_le 8 (sf_uptime f)). set (data := (t ++ a ++ i ++ o ++ u) ++ rest).
    assert (La : length a = 4%nat) by apply length_to_le. assert (Li : length i = 8%nat) by apply length_to_le.
    assert (Lo : length o = 8%nat) by apply length_to_le. assert (Lu : length u = 8%nat) by apply length_to_le.
    assert (Lt : length t = 1%nat) by done.
    assert (Hl : (29 <= length data)%nat) by (subst data; rewrite !length_app; lia).
    assert (H1 : slice data 1 5 = a) by (apply (slice_field _ t a (i ++ o ++ u ++ rest)); [by subst data; rewrite <- !app_assoc|done|done]).
    assert (H2 : slice data 5 13 = i)
      by (apply (slice_field _ (t ++ a) i (o ++ u ++ rest)); [by subst data; rewrite <- !app_assoc|rewrite !length_app; lia|done]).
    assert (H3 : slice data 13 21 = o)
      by (apply (slice_field _ (t ++ a ++ i) o (u ++ rest)); [by subst data; rewrite <- !app_assoc|rewrite !length_app; lia|done]).
    assert (H4 : slice data 21 29 = u)
      by (apply (slice_field _ (t ++ a ++ i ++ o) u rest); [by subst data; rewrite <- !app_assoc|rewrite !length_app; lia|done]).
    rewrite H1, H2, H3, H4. subst a i o u. rewrite !from_le_to_le_small by done.
    change data with (TUNNEL_STATUS_TAG :: tail data) at 1. rewrite (proj2 (Nat.ltb_ge _ _)) by done. by destruct f. }
  split; [apply Hdec|]. unfold drain_control_stream.
  assert (He : length (TunnelStatusFrame_encode f) = 29%nat) by (unfold TunnelStatusFrame_encode; by rewrite !length_app, !length_to_le).
  rewrite read_exact_len by done. specialize (Hdec []). rewrite app_nil_r in Hdec. by rewrite Hdec.
Qed.

(** ** Bytes *)

Lemma copy_counted_bytes count chunks s : (copy_counted count chunks s).1 = concat chunks.
Proof.
  revert s. induction chunks as [|c chunks IH]; intros s; [done|]. cbn [copy_counted concat].
  specialize (IH (count s (length c))). destruct (copy_counted count chunks _) as [out s']. cbn in *. by rewrite IH.
Qed.

Lemma count_out_total chunks s : is_u 64 (bytes_out s) ->
  bytes_out (copy_counted count_out chunks s).2 = wrapping_add 64 (bytes_out s) (Z.of_nat (length (concat chunks))).
Proof.
  revert s. induction chunks as [|c chunks IH]; intros s Hs; cbn [copy_counted concat].
  - cbn. unfold wrapping_add. by rewrite Z.add_0_r, wrap_small.
  - assert (Hc : is_u 64 (bytes_out (count_out s (length c)))) by (apply wrap_is_u; lia).
    specialize (IH _ Hc). destruct (copy_counted count_out chunks _) as [out s']. cbn [snd count_out bytes_out] in *.
    rewrite IH. unfold wrapping_add, wrap. rewrite length_app, Zplus_mod_idemp_l. f_equal. lia.
Qed.

Lemma count_in_out chunks s : bytes_out (copy_counted count_in chunks s).2 = bytes_out s.
Proof.
  revert s. induction chunks as [|c chunks IH]; intros s; [done|]. cbn [copy_counted].
  specialize (IH (count_in s (length c))). by destruct (copy_counted count_in chunks _).
Qed.

(** A connection through a tunnel: what the client sends reaches the target
    whole and in order, and is counted, unless its first byte is the close tag, an
    exclamation mark, which the receiver answers as a request to close the tunnel;
    and a connection whose client waits for the target to speak first never gets to
    the target. *)
Theorem tunnel_connection from_tcp from_seam answers s_client s_server :
  is_u 64 (bytes_out s_client) ->
  let sent := (bridge_counted from_tcp [] s_client).1.1 in
  sent = concat from_tcp
  /\ bytes_out (bridge_counted from_tcp [] s_client).2 = wrapping_add 64 (bytes_out s_client) (Z.of_nat (length sent))
  /\ match sent with
     | [] => (handle_recv_stream true (head sent) from_seam answers s_server).1 = RvNothing
     | b :: rest =>
         concat from_seam = rest ->
         (handle_recv_stream true (head sent) from_seam answers s_server).1
         = if Byte.eqb b TUNNEL_CLOSE_TAG then RvClosed [TUNNEL_CLOSE_ACK_TAG] else RvBridged sent (concat answers)
     end.
Proof.
  intros Hc sent. unfold bridge_counted in *. cbn [copy_counted] in *.
  pose proof (copy_counted_bytes count_out from_tcp s_client) as Hb. pose proof (count_out_total from_tcp s_client Hc) as Ho.
  destruct (copy_counted count_out from_tcp s_client) as [out s']. cbn [fst snd] in *. subst sent out.
  split; [done|]. split; [done|]. destruct (concat from_tcp) as [|b rest]; [done|]. intros Hr. unfold handle_recv_stream. cbn [head].
  destruct (Byte.eqb b TUNNEL_CLOSE_TAG); [done|]. unfold bridge_recv.
  pose proof (copy_counted_bytes count_out from_seam (conn_opened s_server)) as H1.
  destruct (copy_counted count_out from_seam _) as [o1 s1]. pose proof (copy_counted_bytes count_in answers s1) as H2.
  destruct (copy_counted count_in answers s1) as [o2 s2]. cbn [fst] in *. by rewrite H1, H2, Hr.
Qed.

(** In HTTP mode the stream gets the same bytes. *)
Lemma http_request_whole from_tcp sent : bridge_http_request from_tcp = Some sent -> sent = concat from_tcp.
Proof. destruct from_tcp; [done|]. by intros [= <-]. Qed.

(** A status that arrives while a connection is open overwrites the client's own
    count, which then wraps. *)
Lemma active_count_wraps :
  let frame := TunnelStatusFrame_encode (status_of TunnelStats_default 5) in
  connections_active (conn_closed (drain_control_stream (conn_opened TunnelStats_default) frame)) = U32_MAX.
Proof. vm_compute. reflexivity. Qed.

(** ** Delays *)

(** [k] failures after the last connection. *)
Definition backoff_after (k : Z) : Z := Z.min (RECONNECT_BASE_MS * 2 ^ k) RECONNECT_CAP_MS.

Fixpoint delays (turns : list Turn) (k : Z) : list Z :=
  match turns with
  | [] => []
  | Fails :: turns => backoff_after k :: delays turns (k + 1)
  | Drops :: turns => backoff_after 0 :: delays turns 1
  | Ends :: _ => []
  end.

Lemma backoff_next k : 0 <= k -> Z.min (wrapping_mul 64 (backoff_after k) 2) RECONNECT_CAP_MS = backoff_after (k + 1).
Proof.
  intros Hk. unfold backoff_after, RECONNECT_BASE_MS, RECONNECT_CAP_MS, wrapping_mul. rewrite Z.pow_add_r, Z.pow_1_r by lia.
  pose proof (Z.pow_pos_nonneg 2 k ltac:(lia) Hk). rewrite wrap_small by (split; lia). lia.
Qed.

Lemma backoff_bounds k : 0 <= k -> RECONNECT_BASE_MS <= backoff_after k <= RECONNECT_CAP_MS.
Proof.
  intros Hk. unfold backoff_after, RECONNECT_BASE_MS, RECONNECT_CAP_MS. pose proof (Z.pow_pos_nonneg 2 k ltac:(lia) Hk). lia.
Qed.

Lemma delays_bounds turns : forall k, 0 <= k -> Forall (fun d => RECONNECT_BASE_MS <= d <= RECONNECT_CAP_MS) (delays turns k).
Proof.
  induction turns as [|[| |] turns IH]; intros k Hk; cbn [delays]; try apply List.Forall_nil.
  - apply List.Forall_cons; [by apply backoff_bounds|]. apply IH. lia.
  - apply List.Forall_cons; [by apply backoff_bounds|]. apply IH. lia.
Qed.

Lemma port_forward_delays turns : forall k a, 0 <= k -> run_port_forward turns (mkRetry (backoff_after k) a) = delays turns k.
Proof.
  induction turns as [|[| |] turns IH]; intros k a Hk; cbn [run_port_forward delays retry_later]; [done| | |done].
  - f_equal. cbn [backoff_ms]. rewrite backoff_next by done. apply IH. lia.
  - change Retry_new with (mkRetry (backoff_after 0) 0). cbn [backoff_ms]. f_equal. rewrite backoff_next by done. by apply IH.
Qed.

(** Reconnecting backs off: the delay after [k] failures in a row is 100
    milliseconds doubled [k] times, at most 30 seconds and never less than 100
    milliseconds, and starts again after every connection. *)
Theorem reconnect_delays turns :
  run_port_forward turns Retry_new = delays turns 0
  /\ Forall (fun d => 100 <= d <= 30000) (run_port_forward turns Retry_new).
Proof.
  change Retry_new with (mkRetry (backoff_after 0) 0). rewrite port_forward_delays by done. split; [done|]. by apply delays_bounds.
Qed.

(** ** Witnesses *)

Lemma status_roundtrip_witness :
  let f := mkStatus 2 700 9 60 in
  drain_control_stream TunnelStats_default (TunnelStatusFrame_encode f ++ [x00]) = mkStats 0 2 700 9.
Proof.
  intros f. apply (status_roundtrip f [x00] TunnelStats_default); (split; [vm_compute; discriminate|vm_compute; reflexivity]).
Defined.

Lemma tunnel_connection_witness :
  (handle_recv_stream true (Some x47) [[x45]] [[x4f]] TunnelStats_default).1 = RvBridged [x47; x45] [x4f].
Proof.
  assert (Hc : is_u 64 (bytes_out TunnelStats_default)) by (split; [vm_compute; discriminate|vm_compute; reflexivity]).
  exact (proj2 (proj2 (tunnel_connection [[x47; x45]] [[x45]] [[x4f]] TunnelStats_default TunnelStats_default Hc)) eq_refl).
Defined.
