(* ===== verification/Share.v ===== *)
(** * Pulling and sharing files

    The pulling side of src/src/bin/seam/copy.rs, and the two programs that send to
    it: send.rs, started on the remote host by a pull, and share.rs, which serves a
    file to whoever has its one-time token, a limited number of times.  Both ends are
    programs of Proc.v, as in Transfer.v. *)

From Stdlib Require Import ZArith Lia Bool List String.
From Stdlib Require Import Strings.Byte.
From stdpp Require Import base list numbers option relations gmap.
From S2P Require Import Prelude TestCrypto Identity Text Proc Frames Transfer Specs.

Open Scope Z_scope.

Section Code.
Context {F : FileHash} {ZS : Zstd}.
Local Open Scope io_scope.

(** ** The pulling side *)

(** The TOKEN frame of a [--direct] pull. *)
Definition token_frame (token : list byte) : list byte :=
  [TOKEN] ++ to_be 2 (wrap 16 (Z.of_nat (length token))) ++ token.

(** The receive loop of copy.rs's [run]. *)
Fixpoint pull_loop (fuel : nat) (compress resume fips : bool) : IO unit :=
  match fuel with
  | O => io_fuel
  | S fuel' =>
      do frame := io_recv in
      match frame with
      | [] => bail "empty frame"
      | t :: _ =>
          if Byte.eqb t FILE_INFO then pull_file fuel frame compress resume fips ;; pull_loop fuel' compress resume fips
          else if Byte.eqb t DONE then ioret tt
          else bail ("unexpected frame type 0x" ++ text (hex_encode [t]))
      end
  end.

(** A pull from the connection on. *)
Definition pull_round (token : option (list byte)) (resume fips : bool) (fuel : nat) : IO unit :=
  (match token with Some token => io_send (token_frame token) | None => ioret tt end) ;;
  do hello := io_recv in
  if bytes_eqb (take 1 hello) [HELLO] then
    let compress := (1 <? length hello)%nat && Byte.eqb (at_ hello 1) COMPRESS_ZSTD in
    io_send [ACK] ;; pull_loop fuel compress resume fips
  else bail "expected HELLO from remote sender".

(** ** The remote sender of a pull *)

(** send.rs's [run]: HELLO, the files with the resume handshake on and FIPS mode
    off, DONE. *)
Definition send_run (files : list (list byte)) (compress : bool) : IO unit :=
  io_send [HELLO; if compress then COMPRESS_ZSTD else COMPRESS_NONE] ;;
  do ack := io_recv in
  if bytes_eqb (take 1 ack) [ACK] then send_all files compress true false ;; io_send [DONE]
  else bail "expected ACK from receiver".

(** ** Sharing *)



End Code.

(** ** The share's connections *)

(** The counter, whether the accept loop runs, and of the downloads that took a
    slot those that are being served, that ended, and that the end of the program
    cut off. *)
Record Share : Type := mkShare { remaining : nat; sharing : bool; serving : nat; ended : nat; cut : nat }.

Definition Share_new (times : nat) : Share := mkShare times true 0 0 0.

(** [try_update]. *)
Definition reserve (s : Share) : Share * bool :=
  match remaining s with
  | O => (s, false)
  | S n => (mkShare n (sharing s) (S (serving s)) (ended s) (cut s), true)
  end.

(** A connection with the right token; a download that ends, well or not; and the
    top of the accept loop, which returns, and ends the program, when no download
    remains or the share has expired. *)
Inductive share_step : Share -> Share -> Prop :=
  | ss_token s s' slot : sharing s = true -> reserve s = (s', slot) -> share_step s s'
  | ss_ends s n : sharing s = true -> serving s = S n ->
      share_step s (mkShare (remaining s) true n (S (ended s)) (cut s))
  | ss_close s (expired : bool) : sharing s = true -> (remaining s = 0%nat \/ expired = true) ->
      share_step s (mkShare (remaining s) false 0 (ended s) (cut s + serving s)).

(** * Properties *)

(** ** Tokens *)


Section Runs.
Context {F : FileHash} {FL : FileHashLaws F} {ZS : Zstd} {ZL : ZstdLaws ZS}.

(** ** A pulled file *)




(** Two programs that end up waiting for each other. *)
Definition stuck {A B} (s : Sys A B) : Prop := exists f g, runs s (mkSys (PRecv f) (PRecv g) [] []).

Lemma stuck_l {A B} (s s' : Sys A B) : step s s' -> stuck s' -> stuck s.
Proof. intros Hs (f & g & Hr). exists f, g. by eapply rtc_l. Qed.

(** Pulling hangs.  The remote sender waits, for every file, for the receiver to
    say where to resume; a pull without [--resume] never says it.  Whatever the order
    of the steps, the two end up waiting for each other in the first file. *)
Theorem pull_hangs fuel rel files content compress fips (fsS fsR : Files) :
  fsS !! rel = Some content -> name_ok rel -> Z.of_nat (length content) < 2 ^ 64 -> (1 < fuel)%nat ->
  forall s, runs (mkSys (send_run (rel :: files) compress fsS) (pull_round None false fips fuel fsR) [] []) s ->
    exists f g, runs s (mkSys (PRecv f) (PRecv g) [] []).
Proof.
  intros Hc Hok Hsz Hf. destruct fuel as [|fuel]; [lia|].
  cut (stuck (mkSys (send_run (rel :: files) compress fsS) (pull_round None false fips (S fuel) fsR) [] [])).
  { intros (f & g & Hr) s Hs. exists f, g. eapply runs_halted_unique; [exact Hr|apply halted_deadlock|exact Hs]. }
  unfold send_run, pull_round. io. eapply stuck_l; [apply step_lsend|]. eapply stuck_l; [apply step_rrecv|]. io.
  cbn [take]. change (bytes_eqb [HELLO] [HELLO]) with true. cbn iota. io.
  eapply stuck_l; [apply step_rsend|]. eapply stuck_l; [apply step_lrecv|]. io.
  cbn [take]. change (bytes_eqb [ACK] [ACK]) with true. cbn iota. cbn [send_all]. unfold send_file. io. rewrite Hc. io.
  eapply stuck_l; [apply step_lsend|]. cbn [pull_loop]. io. eapply stuck_l; [apply step_rrecv|]. io.
  unfold file_info at 1. cbn [app]. change (Byte.eqb FILE_INFO FILE_INFO) with true. cbn iota.
  unfold pull_file. fold (file_info (length content) rel). rewrite (parse_file_info _ _ Hok Hsz). unfold open_for_write. io.
  destruct content as [|b content]; unfold recv_data; cbn [recv_tagged].
  - cbn. do 2 eexists. apply rtc_refl.
  - rewrite (proj2 (Z.ltb_lt _ _)) by (cbn; lia). io. do 2 eexists. apply rtc_refl.
Qed.

End Runs.

(** A share serves at most as many downloads as it allows: the downloads that
    took a slot, being served, ended or cut off, and the slots left are always
    [times] in all; but the accept loop ends the program as soon as the last slot is
    taken, whatever is being served. *)
Theorem share_limited times s : rtc share_step (Share_new times) s ->
  (remaining s + (serving s + ended s + cut s) = times)%nat
  /\ (sharing s = true -> remaining s = 0%nat -> share_step s (mkShare 0 false 0 (ended s) (cut s + serving s))).
Proof.
  intros Hr. split.
  - assert (H0 : (remaining (Share_new times) + (serving (Share_new times) + ended (Share_new times) + cut (Share_new times)) = times)%nat)
      by (cbn; lia).
    revert H0. induction Hr as [s|s s1 s2 Hs _ IH]; [done|]. intros H0. apply IH.
    destruct Hs as [s s' slot _ Hres|s n _ Hn|s expired _ _]; cbn.
    + unfold reserve in Hres. destruct (remaining s) eqn:E; injection Hres as <- _; cbn; lia.
    + lia.
    + lia.
  - intros Hsh H0. pose proof (ss_close s false Hsh (or_introl H0)) as Hs. by rewrite H0 in Hs.
Qed.

(** A single download is cut off if it has not ended when the loop comes round. *)
Lemma only_download_cut : rtc share_step (Share_new 1) (mkShare 0 false 0 0 1).
Proof.
  eapply rtc_l; [eapply ss_token; reflexivity|]. eapply rtc_l; [apply (ss_close _ false); [done|by left]|]. apply rtc_refl.
Qed.

(** ** Witnesses *)


Lemma pull_hangs_witness :
  exists f g, runs (mkSys (send_run [test_name] false test_files) (pull_round None false false 10 ∅) [] []) (mkSys (PRecv f) (PRecv g) [] []).
Proof.
  apply (pull_hangs 10 test_name [] test_content false false test_files ∅).
  - reflexivity.
  - exact test_name_ok.
  - cbn. lia.
  - lia.
  - apply rtc_refl.
Defined.

Lemma share_limited_witness :
  (remaining (mkShare 0 false 0 0 1) + (serving (mkShare 0 false 0 0 1) + ended (mkShare 0 false 0 0 1) + cut (mkShare 0 false 0 0 1)) = 1)%nat.
Proof. exact (proj1 (share_limited 1 (mkShare 0 false 0 0 1) only_download_cut)). Defined.
