(* ===== verification/Serve.v ===== *)
(** * The serve daemon

    src/src/bin/seam/serve.rs: the files of authorised keys, the accept loop with
    its limit, the dispatch of a stream to a service, and the shell service's header.
    The shell and forward services themselves are in Shell.v and Forwarding.v.  A
    HashSet is a [gset]; the accept loop and the connections' tasks, which share the
    atomic counter, interleave freely. *)

From Stdlib Require Import ZArith Lia Bool List String.
From Stdlib Require Import Strings.Byte.
From stdpp Require Import base list numbers option relations gmap.
From S2P Require Import Prelude TestCrypto Identity Net Text AuditLog KnownHosts Specs Shell.

Open Scope Z_scope.

(** ** Authorised keys *)

Inductive AuthError : Type :=
  | UnreadableFile (path : list byte)
  | UnreadableDir
  | BadEntry
  | InvalidHex (source : list byte) (lineno : nat)
  | WrongLength (source : list byte) (lineno len : nat).

(** The loop of [parse_auth_keys_content]; [lineno] counts from one. *)
Fixpoint parse_key_lines (source : list byte) (lineno : nat) (keys : gset (list byte)) (ls : list (list byte))
  : gset (list byte) + AuthError :=
  match ls with
  | [] => inl keys
  | line :: ls =>
      let line := trim line in
      if bool_decide (line = []) || starts_with [HASH_SIGN] line then parse_key_lines source (S lineno) keys ls
      else match hex_decode line with
           | None => inr (InvalidHex source lineno)
           | Some bytes =>
               if negb (length bytes =? 32)%nat then inr (WrongLength source lineno (length bytes))
               else parse_key_lines source (S lineno) ({[bytes]} ∪ keys) ls
           end
  end.

Definition parse_auth_keys_content (content source : list byte) : gset (list byte) + AuthError :=
  parse_key_lines source 1 ∅ (lines content).

(** [read_to_string]: the contents, if the file can be read and is UTF-8. *)
Definition load_auth_keys_file (fs : list byte -> option (list byte)) (path : list byte) : gset (list byte) + AuthError :=
  match fs path ≫= from_utf8 with
  | None => inr (UnreadableFile path)
  | Some content => parse_auth_keys_content content path
  end.

(** [Path::extension]: what follows the last dot, if something precedes it. *)
Definition extension (name : list byte) : option (list byte) :=
  match split DOT name with
  | [] | [_] | [[]; _] => None
  | pieces => list.last pieces
  end.

Fixpoint load_entries (fs : list byte -> option (list byte)) (dir : list byte) (keys : gset (list byte))
  (entries : list (option (list byte))) : gset (list byte) + AuthError :=
  match entries with
  | [] => inl keys
  | None :: _ => inr BadEntry
  | Some name :: entries =>
      if bool_decide (extension name = Some (string_bytes "pub")) then
        match load_auth_keys_file fs (dir ++ string_bytes "/" ++ name) with
        | inl file_keys => load_entries fs dir (keys ∪ file_keys) entries
        | inr e => inr e
        end
      else load_entries fs dir keys entries
  end.

(** [read_dir]: [None] when the directory cannot be opened, else its entries, each of
    which may fail. *)
Definition load_auth_keys_dir (fs : list byte -> option (list byte)) (dir : list byte)
  (entries : option (list (option (list byte)))) : gset (list byte) + AuthError :=
  match entries with
  | None => inr UnreadableDir
  | Some entries => load_entries fs dir ∅ entries
  end.

(** The keys [run] allows. *)
Definition allowed_keys (file dir : option (gset (list byte) + AuthError)) : gset (list byte) + AuthError :=
  match default (inl ∅) file with
  | inr e => inr e
  | inl file_keys =>
      match default (inl ∅) dir with
      | inr e => inr e
      | inl dir_keys => inl (file_keys ∪ dir_keys)
      end
  end.

Definition auth_enabled {A} (file dir : option A) : bool := bool_decide (is_Some file) || bool_decide (is_Some dir).

(** ** The accept loop *)

(** The options that matter after start-up. *)
Record Daemon : Type := mkDaemon { auth : bool; keys : gset (list byte); max_conn : Z }.

(** Whether a connection passes the authentication check. *)
Definition authorised (d : Daemon) (client_pk : option (list byte)) : bool :=
  negb (auth d) || match client_pk with None => false | Some pk => bool_decide (pk ∈ keys d) end.

(** The counter, the connection the loop has counted but not yet decided on with the
    count it saw, the keys of the connections whose tasks run, and whether one was
    turned away for the limit. *)
Record Accepting : Type := mkAccepting {
  active : Z; counted : option (option (list byte) * Z); tasks : list (option (list byte)); refused : bool }.

Definition Accepting_new : Accepting := mkAccepting 0 None [] false.

(** [fetch_add] of the loop. *)
Definition count (pk : option (list byte)) (s : Accepting) : Accepting :=
  mkAccepting (wrapping_add 64 (active s) 1) (Some (pk, wrapping_add 64 (active s) 1)) (tasks s) (refused s).

(** The check of the limit, which drops the connection or spawns its task. *)
Definition decide_conn (d : Daemon) (pk : option (list byte)) (current : Z) (s : Accepting) : Accepting :=
  if (0 <? max_conn d) && (max_conn d <? current)
  then mkAccepting (wrap 64 (active s - 1)) None (tasks s) true
  else mkAccepting (active s) None (pk :: tasks s) (refused s).

Inductive accept_step (d : Daemon) : Accepting -> Accepting -> Prop :=
  | ac_reject pk s : counted s = None -> authorised d pk = false -> accept_step d s s
  | ac_count pk s : counted s = None -> authorised d pk = true -> accept_step d s (count pk s)
  | ac_decide pk current s : counted s = Some (pk, current) -> accept_step d s (decide_conn d pk current s)
  | ac_end s before pk after : tasks s = before ++ pk :: after ->
      accept_step d s (mkAccepting (wrap 64 (active s - 1)) (counted s) (before ++ after) (refused s)).

(** ** Dispatch *)

Definition SVC_SHELL : byte := x01.
Definition SVC_FORWARD : byte := x02.
Definition SVC_INFO : byte := x03.
Definition SVC_PING : byte := x04.

(** The frame of a shell that is switched off. *)
Definition no_shell_frame : list byte :=
  let msg := string_bytes "shell service is disabled on this server" in
  [SHELL_ERR] ++ to_be 2 (wrap 16 (Z.of_nat (length msg))) ++ msg.

(** The arguments of the command in the shell's header. *)
Fixpoint read_args (n : nat) (s : list byte) : option (list (list byte)) * list byte :=
  match n with
  | O => (Some [], s)
  | S n =>
      match s with
      | [] => (None, [])
      | len :: s =>
          match read_exact (Z.to_nat (byte_val len)) s with
          | (None, s) => (None, s)
          | (Some buf, s) => match read_args n s with
                             | (Some args, s) => (Some (from_utf8_lossy buf :: args), s)
                             | (None, s) => (None, s)
                             end
          end
      end
  end.

Definition login_shell (env : option (list byte)) : list byte := default (string_bytes "/bin/sh") env.

(** [serve_shell]: whether a terminal is wanted, the command, and the rest of the
    stream; [env] is the variable SHELL. *)
Definition serve_shell (env : option (list byte)) (s : list byte) : option (bool * list (list byte)) * list byte :=
  match s with
  | use_pty :: cmd_count :: s =>
      match read_args (Z.to_nat (byte_val cmd_count)) s with
      | (None, s) => (None, s)
      | (Some command, s) =>
          let command := match command with [] => [login_shell env; string_bytes "-l"] | _ => command end in
          (Some (negb (Byte.eqb use_pty x00), command), s)
      end
  | _ => (None, [])
  end.

(** The first word when it is the literal [$SHELL]. *)
Definition resolve_shell (env : option (list byte)) (command : list (list byte)) : list (list byte) :=
  match command with
  | c :: args => (if bytes_eqb c (string_bytes "$SHELL") then login_shell env else c) :: args
  | [] => []
  end.

(** What the daemon does with a stream: answers it, starts a command on the rest of
    it, hands it to the forwarder, or gives up. *)
Inductive Service : Type :=
  | Answers (bytes : list byte)
  | RunsShell (use_pty : bool) (command : list (list byte)) (rest : list byte)
  | Forwards (rest : list byte)
  | AnswersInfo
  | GivesUp.

(** [serve_ping] *)
Definition serve_ping (s : list byte) : list byte := default [] (read_exact 4 s).1.

Definition dispatch_stream (no_shell : bool) (env : option (list byte)) (s : list byte) : Service :=
  match s with
  | [] => GivesUp
  | svc :: s =>
      if Byte.eqb svc SVC_SHELL then
        if no_shell then Answers no_shell_frame
        else match serve_shell env s with
             | (Some (use_pty, command), s) => RunsShell use_pty (resolve_shell env command) s
             | (None, _) => GivesUp
             end
      else if Byte.eqb svc SVC_FORWARD then Forwards s
      else if Byte.eqb svc SVC_INFO then AnswersInfo
      else if Byte.eqb svc SVC_PING then Answers (serve_ping s)
      else GivesUp
  end.

(** The header the service's comment describes. *)
Definition shell_header (use_pty : bool) (command : list (list byte)) : list byte :=
  [if use_pty then x01 else x00; byte_of (Z.of_nat (length command))]
  ++ concat (map (fun a => byte_of (Z.of_nat (length a)) :: a) command).

(** * Properties *)

(** ** Authorised keys *)

(** The key a line gives, if it gives one, and whether it is well formed. *)
Definition blank (line : list byte) : bool := bool_decide (trim line = []) || starts_with [HASH_SIGN] (trim line).

Definition key_of_line (line : list byte) : option (list byte) :=
  if blank line then None else bytes ← hex_decode (trim line); guard (length bytes = 32%nat);; Some bytes.

Definition line_ok (line : list byte) : Prop := blank line = true \/ is_Some (key_of_line line).

Lemma key_of_line_Some line k : key_of_line line = Some k <->
  blank line = false /\ hex_decode (trim line) = Some k /\ length k = 32%nat.
Proof.
  unfold key_of_line. destruct (blank line); [split; [done|by intros [? _]]|]. split.
  - intros H. destruct (hex_decode (trim line)) as [b|]; [|done]. cbn in H. case_guard; [|done]. by injection H as <-.
  - intros (_ & -> & Hl). cbn. by rewrite option_guard_True.
Qed.

Lemma parse_key_lines_spec source ls : forall lineno keys,
  match parse_key_lines source lineno keys ls with
  | inl keys' => Forall line_ok ls /\ forall k, k ∈ keys' <-> k ∈ keys \/ exists line, line ∈ ls /\ key_of_line line = Some k
  | inr _ => ~ Forall line_ok ls
  end.
Proof.
  induction ls as [|line ls IH]; intros lineno keys; cbn [parse_key_lines].
  { split; [constructor|]. intros k. split; [by left|]. intros [|(l & Hl & _)]; [done|]. by apply not_elem_of_nil in Hl. }
  assert (Hskip : forall k, key_of_line line = None \/ k ∈ keys -> (k ∈ keys \/ exists l, l ∈ line :: ls /\ key_of_line l = Some k)
                    <-> (k ∈ keys \/ exists l, l ∈ ls /\ key_of_line l = Some k)).
  { intros k Hk. split; (intros [H|(l & Hl & He)]; [by left|]).
    - apply elem_of_cons in Hl as [-> |Hl]; [|right; by exists l]. destruct Hk as [Hk|Hk]; [congruence|by left].
    - right. exists l. split; [by apply elem_of_cons; right|done]. }
  fold (blank line). destruct (blank line) eqn:Eb.
  { specialize (IH (S lineno) keys). destruct (parse_key_lines _ _ _ ls) as [keys'|e].
    - destruct IH as [IH1 IH2]. split; [by constructor; [left|]|]. intros k. rewrite IH2, Hskip; [done|]. left. unfold key_of_line. by rewrite Eb.
    - intros Hf. apply IH. by apply List.Forall_cons_iff in Hf as [_ Hf]. }
  assert (Hbad : key_of_line line = None -> ~ Forall line_ok (line :: ls)).
  { intros Hn Hf. apply List.Forall_cons_iff in Hf as [[Hf|[k Hk]] _]; congruence. }
  destruct (hex_decode (trim line)) as [bytes|] eqn:Eh.
  2:{ apply Hbad. unfold key_of_line. by rewrite Eb, Eh. }
  destruct (length bytes =? 32)%nat eqn:El; cbn [negb].
  2:{ apply Hbad. unfold key_of_line. rewrite Eb, Eh. cbn. apply Nat.eqb_neq in El. by rewrite option_guard_False. }
  apply Nat.eqb_eq in El. assert (Hk : key_of_line line = Some bytes) by (by apply key_of_line_Some).
  specialize (IH (S lineno) ({[bytes]} ∪ keys)). destruct (parse_key_lines _ _ _ ls) as [keys'|e].
  - destruct IH as [IH1 IH2]. split; [constructor; [right; by exists bytes|done]|]. intros k. rewrite IH2.
    rewrite elem_of_union, elem_of_singleton. split.
    + intros [[-> |H]|(l & Hl & He)]; [right; exists line|by left|right; exists l]; (split; [|done]); [by apply elem_of_cons; left|by apply elem_of_cons; right].
    + intros [H|(l & Hl & He)]; [by left; right|]. apply elem_of_cons in Hl as [-> |Hl]; [left; left; congruence|right; by exists l].
  - intros Hf. apply IH. by apply List.Forall_cons_iff in Hf as [_ Hf].
Qed.

Lemma key_of_hex k : length k = 32%nat -> key_of_line (hex_encode k) = Some k.
Proof.
  intros Hl. assert (Hg : graphic_text (hex_encode k)).
  { split; [|apply graphic_hex]. intros E. apply (f_equal length) in E. rewrite length_hex_encode in E. cbn in E. lia. }
  apply key_of_line_Some. unfold blank. rewrite (graphic_trim _ Hg), hex_decode_encode. split_and!; [|done|done].
  destruct Hg as [Hne _]. rewrite bool_decide_eq_false_2 by done. destruct k as [|b k]; [done|].
  unfold starts_with. cbn [hex_encode List.flat_map app strip_prefix]. pose proof (byte_val_bound b).
  assert (Hd : forall d, 0 <= d < 16 -> Byte.eqb HASH_SIGN (hex_digit d) = false).
  { intros d Hd. assert (Hin : In d (map Z.of_nat (seq 0 16))) by (apply in_map_iff; exists (Z.to_nat d); rewrite in_seq; lia).
    cbn in Hin. repeat destruct Hin as [<-|Hin]; done. }
  by rewrite Hd by (Z.to_euclidean_division_equations; lia).
Qed.

Lemma strip_cr_graphic l : forallb graphic l = true -> strip_cr l = l.
Proof.
  intros Hg. destruct l as [|c m _] using rev_ind; [done|]. unfold strip_cr, strip_suffix. rewrite rev_app_distr. cbn [rev app strip_prefix].
  rewrite forallb_app in Hg. cbn in Hg. apply andb_true_iff in Hg as [_ Hc]. rewrite andb_true_r in Hc.
  destruct (Byte.eqb x0d c) eqn:E; [|done]. apply byte_eqb_eq in E as <-. done.
Qed.

(** The keys of a text: one of its lines gives it. *)
Definition key_listed (content k : list byte) : Prop := exists line, line ∈ lines content /\ key_of_line line = Some k.

Lemma parse_content_spec content source :
  match parse_auth_keys_content content source with
  | inl keys => Forall line_ok (lines content) /\ forall k, k ∈ keys <-> key_listed content k
  | inr _ => ~ Forall line_ok (lines content)
  end.
Proof.
  pose proof (parse_key_lines_spec source (lines content) 1 ∅) as H. unfold parse_auth_keys_content.
  destruct (parse_key_lines _ _ _ _); [|done]. destruct H as [H1 H2]. split; [done|]. intros k. rewrite H2.
  split; [|by right]. intros [H|H]; [by apply elem_of_empty in H|done].
Qed.

(** The authorised keys of a file.  A file is accepted exactly if each of its
    lines is blank, a comment or 64 hexadecimal digits, and then allows exactly the
    keys of those lines, all of 32 bytes; a file with one key a line allows exactly
    those keys. *)
Theorem auth_keys_parsed content source :
  (forall keys, parse_auth_keys_content content source = inl keys ->
     Forall line_ok (lines content)
     /\ forall k, k ∈ keys <-> exists line, line ∈ lines content /\ key_of_line line = Some k)
  /\ (forall e, parse_auth_keys_content content source = inr e -> ~ Forall line_ok (lines content))
  /\ (forall ks, Forall (fun k => length k = 32%nat) ks ->
       exists keys, parse_auth_keys_content (concat (map (fun k => hex_encode k ++ [x0a]) ks)) source = inl keys
         /\ forall k, k ∈ keys <-> k ∈ ks).
Proof.
  assert (Hspec := fun content => parse_content_spec content source). unfold key_listed in Hspec.
  split_and!.
  - intros keys E. specialize (Hspec content). by rewrite E in Hspec.
  - intros e E. specialize (Hspec content). by rewrite E in Hspec.
  - intros ks Hks. specialize (Hspec (concat (map (fun k => hex_encode k ++ [x0a]) ks))).
    assert (Hl : lines (concat (map (fun k => hex_encode k ++ [x0a]) ks)) = map hex_encode ks).
    { rewrite <- (map_map hex_encode (fun l => l ++ [x0a])), lines_concat.
      - rewrite map_map. apply map_ext. intros k. apply strip_cr_graphic, graphic_hex.
      - apply List.Forall_map, List.Forall_forall. intros k _. apply graphic_not; [done|apply graphic_hex]. }
    rewrite Hl in Hspec. assert (Hin : forall k, k ∈ ks -> key_of_line (hex_encode k) = Some k).
    { intros k Hk. apply key_of_hex. rewrite List.Forall_forall in Hks. apply Hks. by apply list_elem_of_In. }
    destruct (parse_auth_keys_content _ _) as [keys|e].
    + exists keys. split; [done|]. destruct Hspec as [_ Hk]. intros k. rewrite Hk. split.
      * intros (line & Hline & He). apply list_elem_of_In, in_map_iff in Hline as (k' & <- & Hk'%list_elem_of_In).
        rewrite (Hin k' Hk') in He. by injection He as <-.
      * intros Hk'. exists (hex_encode k). split; [|by apply Hin]. apply list_elem_of_In, in_map_iff. exists k. split; [done|by apply list_elem_of_In].
    + exfalso. apply Hspec. apply List.Forall_forall. intros line (k & <- & Hk)%in_map_iff. right. exists k. apply Hin. by apply list_elem_of_In.
Qed.

(** ** The accept loop *)

(** What the loop and the tasks keep: the counter counts the tasks and the counted
    connection, modulo its width, and every one of them is authorised. *)
Definition accept_inv (d : Daemon) (s : Accepting) : Prop :=
  let n := Z.of_nat (length (tasks s)) in
  Forall (fun pk => authorised d pk = true) (tasks s)
  /\ (0 < max_conn d < 2 ^ 64 - 1 -> n <= max_conn d)
  /\ match counted s with
     | None => active s = wrap 64 n
     | Some (pk, current) =>
         active s = wrap 64 (n + 1) /\ authorised d pk = true
         /\ exists m, n <= m /\ (0 < max_conn d < 2 ^ 64 - 1 -> m <= max_conn d) /\ current = wrap 64 (m + 1)
     end.

Lemma wrap_add_l w a b : 0 <= w -> wrap w (wrap w a + b) = wrap w (a + b).
Proof. intros Hw. unfold wrap. by rewrite Z.add_mod_idemp_l by (apply Z.pow_nonzero; lia). Qed.

Lemma accept_inv_step d s s' : accept_inv d s -> accept_step d s s' -> accept_inv d s'.
Proof.
  intros (Ha & Hm & Hc) Hs. destruct Hs as [pk s _ _|pk s Hn Hau|pk current s Hn|s before pk after Ht].
  - done.
  - unfold accept_inv. rewrite Hn in Hc. cbn. split_and!; [done|done| |done|].
    + unfold wrapping_add. by rewrite Hc, wrap_add_l.
    + exists (Z.of_nat (length (tasks s))). split_and!; [lia|done|]. unfold wrapping_add. by rewrite Hc, wrap_add_l.
  - rewrite Hn in Hc. destruct Hc as (Hac & Hau & m & Hnm & Hmm & ->). unfold decide_conn, accept_inv.
    destruct (0 <? max_conn d) eqn:E0; cbn [andb]; [destruct (max_conn d <? wrap 64 (m + 1)) eqn:E1|]; cmp_facts; cbn [tasks counted active].
    + split_and!; [done|done|]. rewrite Hac. change (wrap 64 (?a) - 1) with (wrap 64 a + -1). rewrite wrap_add_l by done. f_equal. lia.
    + split_and!; [by constructor| |rewrite Hac; f_equal; cbn [length]; lia]. intros Hmx. specialize (Hmm Hmx).
      rewrite wrap_small in E1 by (split; lia). cbn [length]. lia.
    + split_and!; [by constructor|lia|]. rewrite Hac. f_equal. cbn [length]. lia.
  - unfold accept_inv in *. cbn [tasks counted active]. rewrite Ht in Ha, Hm, Hc. apply List.Forall_app in Ha as [Ha1 Ha2].
    apply List.Forall_cons_iff in Ha2 as [_ Ha2]. rewrite length_app in *. cbn [length] in *.
    split_and!; [by apply List.Forall_app|lia|]. destruct (counted s) as [[pk' current]|].
    + destruct Hc as (Hac & Hau & m & Hnm & Hmm & ->). split_and!; [|done|exists m; split_and!; [lia|done|done]].
      rewrite Hac. change (wrap 64 (?a) - 1) with (wrap 64 a + -1). rewrite wrap_add_l by done. f_equal. lia.
    + rewrite Hc. change (wrap 64 (?a) - 1) with (wrap 64 a + -1). rewrite wrap_add_l by done. f_equal. lia.
Qed.

(** Whom the options of the daemon let in: anyone if neither a file nor a
    directory of keys was given, else who shows a key that a line of the file, or
    of a file [*.pub] of the directory, gives. *)
Definition permitted (fs : list byte -> option (list byte)) (entries : list byte -> option (list (option (list byte))))
    (file dir : option (list byte)) (client_pk : option (list byte)) : Prop :=
  (file = None /\ dir = None) \/
  exists k, client_pk = Some k /\
    ((exists path content, file = Some path /\ fs path = Some content /\ key_listed content k)
     \/ (exists d es name content, dir = Some d /\ entries d = Some es /\ Some name ∈ es
           /\ extension name = Some (string_bytes "pub")
           /\ fs (d ++ string_bytes "/" ++ name) = Some content /\ key_listed content k)).

Lemma load_file_spec fs path ks : load_auth_keys_file fs path = inl ks ->
  exists content, fs path = Some content /\ forall k, k ∈ ks <-> key_listed content k.
Proof.
  unfold load_auth_keys_file. destruct (fs path) as [content|]; [|done]. cbn [mbind option_bind]. unfold from_utf8.
  destruct (utf8_valid content); [|done]. intros E. pose proof (parse_content_spec content path) as H. rewrite E in H.
  exists content. by destruct H.
Qed.

Lemma load_entries_spec fs dir es : forall keys ks, load_entries fs dir keys es = inl ks ->
  forall k, k ∈ ks <-> k ∈ keys \/ exists name content, Some name ∈ es /\ extension name = Some (string_bytes "pub")
    /\ fs (dir ++ string_bytes "/" ++ name) = Some content /\ key_listed content k.
Proof.
  induction es as [|[name|] es IH]; intros keys ks E k; cbn [load_entries] in E; [| |done].
  { injection E as ->. split; [by left|]. intros [|(n & c & H & _)]; [done|]. by apply not_elem_of_nil in H. }
  case_bool_decide as Hext.
  - destruct (load_auth_keys_file fs _) as [fk|] eqn:Ef; [|done].
    destruct (load_file_spec _ _ _ Ef) as (content & Hfs & Hk). rewrite (IH _ _ E), elem_of_union, Hk. split.
    + intros [[H|H]|(n & c & Hn & H)]; [by left| |right; exists n, c; split; [by right|done]].
      right. exists name, content. split; [by left|done].
    + intros [H|(n & c & [[= ->]|Hn]%elem_of_cons & Hx & Hc & H)]; [by left; left|left; right; congruence|].
      right. by exists n, c.
  - rewrite (IH _ _ E). split; (intros [H|(n & c & Hn & Hx & H)]; [by left|right; exists n, c]).
    + split; [by right|done].
    + apply elem_of_cons in Hn as [[= ->]|Hn]; [by destruct Hext|done].
Qed.

(** The check of the loop lets in whom the options permit. *)
Lemma authorised_permitted fs entries file dir ks max pk :
  let kf := load_auth_keys_file fs <$> file in
  let kd := (fun d => load_auth_keys_dir fs d (entries d)) <$> dir in
  allowed_keys kf kd = inl ks ->
  authorised (mkDaemon (auth_enabled kf kd) ks max) pk = true <-> permitted fs entries file dir pk.
Proof.
  intros kf kd Ha. unfold allowed_keys in Ha.
  destruct (default (inl ∅) kf) as [fk|] eqn:Ef; [|done]. destruct (default (inl ∅) kd) as [dk|] eqn:Ed; [|done].
  injection Ha as <-. unfold authorised, permitted. cbn [auth keys].
  assert (Hen : negb (auth_enabled kf kd) = true <-> file = None /\ dir = None).
  { unfold auth_enabled, kf, kd. destruct file, dir; (split; [intros H; done|]); intros [? ?]; done. }
  assert (Hf : forall k, k ∈ fk <-> exists path content, file = Some path /\ fs path = Some content /\ key_listed content k).
  { clear -Ef. intros k. unfold kf in Ef. destruct file as [path|]; cbn in Ef.
    - destruct (load_file_spec _ _ _ Ef) as (content & Hfs & Hk). rewrite Hk. split; [by exists path, content|].
      intros (p & c & [= <-] & Hc & H). congruence.
    - injection Ef as <-. split; [intros H; by apply elem_of_empty in H|]. by intros (p & c & ? & _). }
  assert (Hd : forall k, k ∈ dk <-> exists d es name content, dir = Some d /\ entries d = Some es /\ Some name ∈ es
    /\ extension name = Some (string_bytes "pub") /\ fs (d ++ string_bytes "/" ++ name) = Some content /\ key_listed content k).
  { intros k. unfold kd in Ed. destruct dir as [d|]; cbn in Ed.
    - unfold load_auth_keys_dir in Ed. destruct (entries d) as [es|] eqn:Ee; [|done].
      rewrite (load_entries_spec _ _ _ _ _ Ed). split.
      + intros [H|(n & c & H)]; [by apply elem_of_empty in H|]. exists d, es, n, c. by destruct H as (? & ? & ? & ?).
      + intros (d' & es' & n & c & [= <-] & He & H). right. exists n, c. congruence.
    - injection Ed as <-. split; [intros H; by apply elem_of_empty in H|]. by intros (d & es & n & c & ? & _). }
  rewrite orb_true_iff, Hen. destruct pk as [k|].
  - rewrite bool_decide_eq_true, elem_of_union, Hf, Hd. split.
    + intros [H|H]; [by left|]. right. by exists k.
    + intros [H|(k' & [= <-] & H)]; [by left|by right].
  - split; [|by intros [H|(k & ? & _)]; [left|]]. by intros [H|H]; [left|].
Qed.

(** C32: Admission.  Let the daemon be started with any options for the file and
    the directory of authorised keys, read without error, and any limit.  However
    accepting, counting and ending interleave, every connection whose task runs
    is permitted: no key file or directory was given, or the peer has shown a key
    that one of their lines gives.  With a limit there are never more tasks than
    it.  Between two connections the counter is the number of tasks; then a
    connection that is not permitted is never counted, and a permitted one is
    counted and served exactly if there is no limit or fewer tasks than it, and
    otherwise leaves counter and tasks as they were. *)
Theorem daemon_admission fs entries file dir ks max s :
  let kf := load_auth_keys_file fs <$> file in
  let kd := (fun d => load_auth_keys_dir fs d (entries d)) <$> dir in
  let d := mkDaemon (auth_enabled kf kd) ks max in
  allowed_keys kf kd = inl ks -> 0 <= max < 2 ^ 64 - 1 ->
  rtc (accept_step d) Accepting_new s ->
  Forall (permitted fs entries file dir) (tasks s)
  /\ (0 < max -> Z.of_nat (length (tasks s)) <= max)
  /\ (counted s = None -> Z.of_nat (length (tasks s)) < 2 ^ 64 - 1 ->
      active s = Z.of_nat (length (tasks s))
      /\ forall pk,
           (~ permitted fs entries file dir pk ->
              forall s' n, accept_step d s s' -> counted s' <> Some (pk, n))
           /\ (permitted fs entries file dir pk -> exists s1 s',
                 accept_step d s s1 /\ counted s1 = Some (pk, active s + 1) /\ accept_step d s1 s' /\ counted s' = None
                 /\ if (max =? 0) || (active s <? max)
                    then tasks s' = pk :: tasks s /\ active s' = active s + 1
                    else tasks s' = tasks s /\ active s' = active s)).
Proof.
  intros kf kd d Hks Hmax Hr. assert (Hau := fun pk => authorised_permitted fs entries file dir ks max pk Hks).
  fold kf kd d in Hau. assert (Hinv : accept_inv d s).
  { assert (H0 : accept_inv d Accepting_new) by (unfold accept_inv; cbn; split_and!; [constructor|lia|done]).
    revert H0. induction Hr as [s|s s1 s2 Hs _ IH]; [done|]. intros H0. by apply IH, (accept_inv_step d s). }
  destruct Hinv as (Ha & Hm & Hc). split_and!.
  { eapply List.Forall_impl; [|exact Ha]. intros pk. by apply Hau. }
  { cbn in Hm. lia. }
  intros Hn Hlt. rewrite Hn in Hc. rewrite wrap_small in Hc by (split; lia). split; [done|]. intros pk. split.
  - intros Hp s' n Hs Hcn. inversion Hs; subst; cbn in *; try congruence.
    injection Hcn as -> _. by apply Hp, Hau.
  - intros Hp. apply Hau in Hp. exists (count pk s), (decide_conn d pk (active s + 1) (count pk s)).
    assert (Hw : wrapping_add 64 (active s) 1 = active s + 1).
    { unfold wrapping_add. rewrite wrap_small; [done|]. split; lia. }
    split_and!.
    + by apply ac_count.
    + unfold count. cbn. by rewrite Hw.
    + apply ac_decide. unfold count. cbn. by rewrite Hw.
    + unfold decide_conn. by destruct (_ && _).
    + unfold decide_conn, count. cbn [active tasks d max_conn]. rewrite Hw.
      destruct (max =? 0) eqn:E0; cmp_facts; cbn [orb].
      * rewrite (proj2 (Z.ltb_ge 0 _)) by lia. cbn. done.
      * rewrite (proj2 (Z.ltb_lt 0 _)) by lia. cbn [andb]. destruct (active s <? max) eqn:E1; cmp_facts.
        -- rewrite (proj2 (Z.ltb_ge _ _)) by lia. done.
        -- rewrite (proj2 (Z.ltb_lt _ _)) by lia. cbn. split; [done|]. rewrite wrap_small by (split; lia). lia.
Qed.

(** ** Dispatch *)

Lemma read_args_app args rest : Forall (fun a => utf8_valid a = true /\ (length a < 256)%nat) args ->
  read_args (length args) (concat (map (fun a => byte_of (Z.of_nat (length a)) :: a) args) ++ rest) = (Some args, rest).
Proof.
  induction 1 as [|a args [Hv Hl] _ IH]; [done|]. cbn [length map concat app read_args].
  rewrite <- app_assoc, byte_val_of, Z.mod_small, Nat2Z.id, read_exact_app, IH, lossy_valid by (done || lia). done.
Qed.

(** The shell service's header.  A stream that begins with the shell tag and the
    header of a command starts exactly that command, the login shell for an empty one
    and for a first word [$SHELL], on the rest of the stream; on a daemon without the
    service, whatever follows the tag, the answer makes each of the client's loops
    say that the service is disabled and fail. *)
Theorem shell_dispatched env use_pty command rest :
  Forall (fun a => utf8_valid a = true /\ (length a < 256)%nat) command -> (length command < 256)%nat ->
  dispatch_stream false env (SVC_SHELL :: shell_header use_pty command ++ rest)
    = RunsShell use_pty (match command with
                         | [] => [login_shell env; string_bytes "-l"]
                         | c :: args => (if bytes_eqb c (string_bytes "$SHELL") then login_shell env else c) :: args
                         end) rest
  /\ forall s read, reader read Pipe_new ->
       exists frame c e, dispatch_stream true env (SVC_SHELL :: s) = Answers frame
         /\ read_all read frame = Some (c, e) /\ e <> Exits 0
         /\ message c = Some (string_bytes "shell service is disabled on this server").
Proof.
  intros Ha Hl. split.
  - unfold dispatch_stream, shell_header. change (Byte.eqb SVC_SHELL SVC_SHELL) with true. cbn iota. cbn [app serve_shell].
    rewrite byte_val_of, Z.mod_small, Nat2Z.id, read_args_app by (done || lia).
    replace (negb (Byte.eqb (if use_pty then x01 else x00) x00)) with use_pty by (by destruct use_pty).
    destruct command as [|c args]; [|done]. cbn [resolve_shell]. by destruct (bytes_eqb _ _).
  - intros s read Hr. exists no_shell_frame. set (msg := string_bytes "shell service is disabled on this server").
    assert (Hm : (length msg <= Z.to_nat 65535)%nat) by (assert (length msg <= 100)%nat by (vm_compute; lia); lia).
    assert (Hv : utf8_valid msg = true) by (vm_compute; reflexivity).
    assert (E : no_shell_frame = err_frame msg).
    { unfold err_frame, no_shell_frame. fold msg. rewrite Nat.min_l, take_ge by done. by rewrite wrap_small by (split; lia). }
    rewrite E. destruct (err_frame_read read msg Hr Hv Hm) as (c & e & He & Hne & Hmsg). exists c, e. split; [|done].
    unfold dispatch_stream. change (Byte.eqb SVC_SHELL SVC_SHELL) with true. cbn iota. by rewrite E.
Qed.

(** ** Witnesses *)

(** A file with one key. *)
Definition test_fs (path : list byte) : option (list byte) := Some (hex_encode (repeat x07 32)).

Lemma auth_keys_parsed_witness :
  (exists keys, parse_auth_keys_content (hex_encode (repeat x07 32) ++ [x0a]) [x66] = inl keys /\ repeat x07 32 ∈ keys)
  /\ ~ Forall line_ok (lines (string_bytes "07")).
Proof.
  destruct (auth_keys_parsed (string_bytes "07") [x66]) as (_ & H2 & H3). split.
  - destruct (H3 [repeat x07 32]) as (keys & Hp & Hk); [by repeat constructor|]. exists keys. split.
    + rewrite <- Hp. cbn [map concat]. by rewrite app_nil_r.
    + apply Hk, list_elem_of_here.
  - apply (H2 (WrongLength [x66] 1 1)). vm_compute. reflexivity.
Defined.

Lemma daemon_admission_witness : exists ks,
  let d := mkDaemon true ks 1 in
  let s := decide_conn d (Some (repeat x07 32)) 1 (count (Some (repeat x07 32)) Accepting_new) in
  tasks s = [Some (repeat x07 32)]
  /\ Forall (permitted test_fs (fun _ => None) (Some [x66]) None) (tasks s)
  /\ forall s' n, accept_step d s s' -> counted s' <> Some (None, n).
Proof.
  assert (Hl : lines (hex_encode (repeat x07 32)) = [hex_encode (repeat x07 32)]) by (vm_compute; reflexivity).
  assert (Hv : utf8_valid (hex_encode (repeat x07 32)) = true) by (vm_compute; reflexivity).
  assert (exists ks, load_auth_keys_file test_fs [x66] = inl ks) as [ks Ek].
  { unfold load_auth_keys_file, test_fs, from_utf8. cbn [mbind option_bind]. rewrite Hv.
    pose proof (parse_content_spec (hex_encode (repeat x07 32)) [x66]) as H.
    destruct (parse_auth_keys_content _ _) as [ks|e]; [by exists ks|]. destruct H. rewrite Hl.
    constructor; [|constructor]. right. rewrite key_of_hex by reflexivity. by eexists. }
  exists (ks ∪ ∅). set (d := mkDaemon true (ks ∪ ∅) 1).
  assert (Hk : repeat x07 32 ∈ ks).
  { destruct (load_file_spec _ _ _ Ek) as (content & Hc & ->).
    change (Some (hex_encode (repeat x07 32)) = Some content) in Hc. apply (inj Some) in Hc. rewrite <- Hc. exists (hex_encode (repeat x07 32)).
    split; [rewrite Hl; left|]. by apply key_of_hex. }
  assert (Hau : authorised d (Some (repeat x07 32)) = true).
  { unfold authorised. cbn [auth d negb orb keys]. by apply bool_decide_eq_true, elem_of_union_l. }
  set (s := decide_conn d (Some (repeat x07 32)) 1 (count (Some (repeat x07 32)) Accepting_new)).
  destruct (daemon_admission test_fs (fun _ => None) (Some [x66]) None (ks ∪ ∅) 1 s) as (H1 & _ & H3).
  - unfold allowed_keys. cbn [fmap option_fmap option_map default from_option id]. by rewrite Ek.
  - lia.
  - eapply rtc_l; [apply (ac_count _ (Some (repeat x07 32))); [reflexivity|exact Hau]|].
    eapply rtc_l; [apply (ac_decide _ (Some (repeat x07 32)) 1); reflexivity|]. apply rtc_refl.
  - split; [reflexivity|]. split; [exact H1|].
    destruct (H3 eq_refl ltac:(cbn; lia)) as [_ H4]. apply (proj1 (H4 None)).
    intros [[? _]|(k & ? & _)]; discriminate.
Defined.

Lemma shell_dispatched_witness :
  dispatch_stream false None (SVC_SHELL :: shell_header true [string_bytes "$SHELL"; [x61]] ++ [x62])
  = RunsShell true [string_bytes "/bin/sh"; [x61]] [x62].
Proof.
  destruct (shell_dispatched None true [string_bytes "$SHELL"; [x61]] [x62]) as [H _].
  - repeat constructor.
  - cbn. lia.
  - exact H.
Defined.
