(* ===== verification/Limits.v ===== *)
(** * Limits of a transfer

    The rate limiters of src/src/bin/seam/copy.rs ([--rate]) and bench.rs
    ([--bw-cap]), which are meant to be the same, and the distribution of files over
    the paths of a multipath push.  A limiter is asked before each chunk and answers
    how long the sender sleeps; a panic of the conversion to a duration is [None]. *)

From Stdlib Require Import ZArith Lia Bool List.
From Stdlib Require Import Floats.SpecFloat.
From stdpp Require Import base list numbers option.
From S2P Require Import Prelude Float.

Open Scope Z_scope.

(** ** Token buckets *)

Record TokenBucket : Type := mkTokenBucket {
  capacity : Z;         (* u64 *)
  tokens : Z;           (* u64 *)
  rate_bps : Z;         (* u64 *)
  last_refill : Z
}.

Definition TokenBucket_new (rate_mbps : f64) (now : Z) : TokenBucket :=
  let rate_bps := float_to_u 64 (f64_div (f64_mul rate_mbps (f64_of 1000000)) (f64_of 8)) in
  let capacity := Z.max (rate_bps / 1000) 65536 in
  mkTokenBucket capacity capacity rate_bps now.

(** Tokens since the last refill. *)
Definition new_tokens (b : TokenBucket) (now : Z) : Z :=
  float_to_u 64 (f64_mul (as_secs_f64 (duration_since now (last_refill b))) (f64_of (rate_bps b))).

Definition wait_for (b : TokenBucket) (deficit : Z) : option Z :=
  from_secs_f64 (f64_div (f64_of deficit) (f64_of (rate_bps b))).

(** [consume] of copy.rs: how long it sleeps, and the bucket. *)
Definition consume (b : TokenBucket) (now bytes : Z) : option (Z * TokenBucket) :=
  let b := mkTokenBucket (capacity b) (Z.min (wrapping_add 64 (tokens b) (new_tokens b now)) (capacity b)) (rate_bps b) now in
  if bytes <=? tokens b then Some (0, mkTokenBucket (capacity b) (tokens b - bytes) (rate_bps b) now)
  else
    wait ← wait_for b (bytes - tokens b);
    Some (wait, mkTokenBucket (capacity b) 0 (rate_bps b) now).

(** [consume] of bench.rs. *)
Definition bench_consume (b : TokenBucket) (now n : Z) : option (Z * TokenBucket) :=
  let b := if 0 <? new_tokens b now
           then mkTokenBucket (capacity b) (Z.min (wrapping_add 64 (tokens b) (new_tokens b now)) (capacity b)) (rate_bps b) now
           else b in
  if n <=? tokens b then Some (0, mkTokenBucket (capacity b) (tokens b - n) (rate_bps b) (last_refill b))
  else
    wait ← wait_for b (n - tokens b);
    Some (wait, mkTokenBucket (capacity b) 0 (rate_bps b) (now + wait)).

(** ** Distribution over paths *)

(** The buckets of [run_multipath_push]: file [i] goes to path [i % n], or every
    file to every path. *)
Fixpoint round_robin {A} (n i : nat) (files : list A) (buckets : list (list A)) : list (list A) :=
  match files with
  | [] => buckets
  | file :: files => round_robin n (S i) files (alter (fun b => b ++ [file]) (i mod n)%nat buckets)
  end.

Definition multipath_buckets {A} (redundant : bool) (n : nat) (files : list A) : list (list A) :=
  if redundant then replicate n files else round_robin n 0 files (replicate n []).

(** * Properties *)

(** ** Token buckets *)

Definition bucket_ok (b : TokenBucket) : Prop := 0 <= tokens b <= capacity b.

Lemma float_to_u_nonneg w x : 0 <= w -> 0 <= float_to_u w x.
Proof.
  intros Hw. assert (0 < 2 ^ w) by (apply Z.pow_pos_nonneg; lia).
  destruct x as [s|s| |s m e]; cbn; try lia; destruct s; try lia.
  apply Z.min_glb; [lia|]. unfold mag_floor. by apply Z.shiftl_nonneg.
Qed.

Lemma TokenBucket_new_ok rate now : bucket_ok (TokenBucket_new rate now).
Proof. unfold bucket_ok, TokenBucket_new. cbn. lia. Qed.

(** Both keep the bucket between empty and full and let bytes through without a wait
    exactly if it holds as many. *)
Lemma consume_ok b now bytes wait b' : bucket_ok b -> 0 <= bytes ->
  consume b now bytes = Some (wait, b') \/ bench_consume b now bytes = Some (wait, b') ->
  bucket_ok b' /\ capacity b' = capacity b /\ rate_bps b' = rate_bps b.
Proof.
  unfold bucket_ok. intros Hb Hn.
  assert (Hw : 0 <= wrapping_add 64 (tokens b) (new_tokens b now)) by (apply wrap_is_u; lia).
  intros [H|H]; [unfold consume in H|unfold bench_consume in H; destruct (0 <? new_tokens b now) in H];
    cbn [tokens capacity rate_bps last_refill] in H; split_if_in H; cmp_facts;
    try (injection H as <- <-; cbn; lia);
    destruct (wait_for _ _) in H; try done; cbn in H; injection H as <- <-; cbn; lia.
Qed.

(** A sender that has chunks ready whenever the limiter lets it: when it ends. *)
Fixpoint send_chunks (consume : TokenBucket -> Z -> Z -> option (Z * TokenBucket)) (n : nat) (b : TokenBucket) (now : Z) : option Z :=
  match n with
  | O => Some now
  | S n => match consume b now 32768 with
           | Some (wait, b) => send_chunks consume n b (now + wait)
           | None => None
           end
  end.

(** The bucket of 8 Mbit/s, empty since [now]. *)
Definition empty8 (now : Z) : TokenBucket := mkTokenBucket 65536 0 1000000 now.

Lemma new8 now : TokenBucket_new (f64_of 8) now = mkTokenBucket 65536 65536 1000000 now.
Proof. unfold TokenBucket_new. by replace (float_to_u _ _) with 1000000 by (vm_compute; reflexivity). Qed.

Lemma new_tokens8 t now d k : 0 <= d -> float_to_u 64 (f64_mul (as_secs_f64 d) (f64_of 1000000)) = k ->
  new_tokens (mkTokenBucket 65536 t 1000000 now) (now + d) = k.
Proof.
  intros Hd <-. unfold new_tokens, duration_since, saturating_sub. cbn [last_refill rate_bps].
  by replace (Z.max 0 (now + d - now)) with d by lia.
Qed.

Lemma new_tokens8_now t now : new_tokens (mkTokenBucket 65536 t 1000000 now) now = 0.
Proof. pose proof (new_tokens8 t now 0 0 ltac:(lia) ltac:(vm_compute; reflexivity)) as H. by rewrite Z.add_0_r in H. Qed.

Ltac bucket8 :=
  unfold consume, bench_consume, empty8, wait_for; rewrite ?new_tokens8_now; cbn [capacity tokens rate_bps last_refill];
  rewrite ?(new_tokens8 _ _ 32768000 32768) by (lia || (vm_compute; reflexivity)).

(** A chunk to the empty bucket waits; then copy.rs lets the next one pass for
    nothing, bench.rs has the same empty bucket again. *)
Lemma wait8 now : consume (empty8 now) now 32768 = Some (32768000, empty8 now)
  /\ consume (empty8 now) (now + 32768000) 32768 = Some (0, empty8 (now + 32768000))
  /\ bench_consume (empty8 now) now 32768 = Some (32768000, empty8 (now + 32768000)).
Proof. split_and!; bucket8; reflexivity. Qed.

Lemma send_bench n now : send_chunks bench_consume n (empty8 now) now = Some (now + Z.of_nat n * 32768000).
Proof.
  revert now. induction n as [|n IH]; intros now; [cbn; f_equal; lia|]. cbn [send_chunks].
  destruct (wait8 now) as (_ & _ & ->). rewrite IH. f_equal. lia.
Qed.

Lemma send_copy n now : send_chunks consume (2 * n) (empty8 now) now = Some (now + Z.of_nat n * 32768000).
Proof.
  revert now. induction n as [|n IH]; intros now; [cbn; f_equal; lia|].
  replace (2 * S n)%nat with (S (S (2 * n))) by lia. cbn [send_chunks].
  destruct (wait8 now) as (-> & -> & _). rewrite Z.add_0_r, IH. f_equal. lia.
Qed.

(** The limit of copy.rs is exceeded twofold.  It does not count the time it
    slept, so what was waited for is refilled once more at the next call: at 8
    Mbit/s, after the burst, any number of pairs of 32 KiB chunks take half the
    time that the limiter of bench.rs, which does count it, gives them and that the
    rate allows. *)
Theorem rate_limit_doubled n now :
  let b := TokenBucket_new (f64_of 8) now in
  let allowed := Z.of_nat (2 * n) * 32768 * 8 * 1000000000 / 8000000 in
  send_chunks bench_consume (2 + 2 * n) b now = Some (now + allowed)
  /\ send_chunks consume (2 + 2 * n) b now = Some (now + allowed / 2).
Proof.
  cbn zeta. replace (Z.of_nat (2 * n) * 32768 * 8 * 1000000000) with (Z.of_nat (2 * n) * 32768000 * 8000000) by lia.
  rewrite Z.div_mul by done. rewrite new8. change (2 + 2 * n)%nat with (S (S (2 * n))). cbn [send_chunks].
  assert (H1 : forall t, 32768 <= t <= 65536 ->
    consume (mkTokenBucket 65536 t 1000000 now) now 32768 = Some (0, mkTokenBucket 65536 (t - 32768) 1000000 now)
    /\ bench_consume (mkTokenBucket 65536 t 1000000 now) now 32768 = Some (0, mkTokenBucket 65536 (t - 32768) 1000000 now)).
  { intros t Ht. bucket8. unfold wrapping_add. rewrite Z.add_0_r, wrap_small, Z.min_l by (lia || (split; lia)).
    cbn [Z.ltb Z.compare tokens]. by rewrite (proj2 (Z.leb_le _ _)) by lia. }
  destruct (H1 65536) as [-> ->]; [lia|]. rewrite Z.add_0_r. destruct (H1 (65536 - 32768)) as [-> ->]; [lia|]. rewrite Z.add_0_r.
  change (mkTokenBucket 65536 (65536 - 32768 - 32768) 1000000 now) with (empty8 now). rewrite send_bench, send_copy.
  split; [done|]. replace (Z.of_nat (2 * n) * 32768000) with (Z.of_nat n * 32768000 * 2) by lia. by rewrite Z.div_mul.
Qed.

(** A rate that rounds to nothing makes the conversion of the wait panic. *)
Lemma rate_zero_panics : consume (TokenBucket_new (f64_of 0) 0) 0 65537 = None.
Proof. vm_compute. reflexivity. Qed.

(** ** Distribution *)

Lemma length_round_robin {A} n (files : list A) : forall i buckets,
  length (round_robin n i files buckets) = length buckets.
Proof. induction files as [|f files IH]; intros i buckets; [done|]. cbn [round_robin]. by rewrite IH, length_alter. Qed.

Lemma concat_alter_snoc {A} (x : A) i (l : list (list A)) : (i < length l)%nat ->
  Permutation (concat (alter (fun b => b ++ [x]) i l)) (x :: concat l).
Proof.
  revert i. induction l as [|b l IH]; intros i Hi; [cbn in Hi; lia|]. destruct i as [|i].
  - change (concat (alter (fun b => b ++ [x]) 0%nat (b :: l))) with ((b ++ [x]) ++ concat l).
    rewrite <- app_assoc. symmetry. apply Permutation_middle.
  - change (concat (alter (fun b => b ++ [x]) (S i) (b :: l))) with (b ++ concat (alter (fun b => b ++ [x]) i l)).
    rewrite IH by (cbn in Hi; lia). cbn [concat]. symmetry. apply Permutation_middle.
Qed.

Lemma round_robin_perm {A} n (files : list A) : forall i buckets, length buckets = n -> (0 < n)%nat ->
  Permutation (concat (round_robin n i files buckets)) (files ++ concat buckets).
Proof.
  induction files as [|f files IH]; intros i buckets Hl Hn; [done|]. cbn [round_robin].
  rewrite IH by (by rewrite ?length_alter). rewrite concat_alter_snoc by (rewrite Hl; apply Nat.mod_upper_bound; lia).
  cbn [app]. symmetry. apply Permutation_middle.
Qed.

(** Every file of a multipath push crosses exactly one path, or, pushed
    redundantly, each of them, and each path has its bucket. *)
Theorem multipath_partition {A} redundant n (files : list A) : (0 < n)%nat ->
  let buckets := multipath_buckets redundant n files in
  length buckets = n
  /\ if redundant then forall j, (j < n)%nat -> buckets !! j = Some files else Permutation (concat buckets) files.
Proof.
  intros Hn. destruct redundant; cbn zeta; unfold multipath_buckets.
  - split; [by rewrite length_replicate|]. intros j Hj. by apply lookup_replicate_2.
  - split; [by rewrite length_round_robin, length_replicate|].
    rewrite round_robin_perm by (by rewrite ?length_replicate).
    assert (Hc : concat (replicate n ([] : list A)) = []) by (induction n as [|n IHn]; [done|cbn; destruct n; [done|apply IHn; lia]]).
    by rewrite Hc, app_nil_r.
Qed.

(** ** Witness *)

Lemma multipath_partition_witness :
  multipath_buckets false 2 [1; 2; 3] = [[1; 3]; [2]] /\ Permutation (concat (multipath_buckets false 2 [1; 2; 3])) [1; 2; 3].
Proof. split; [reflexivity|]. apply (multipath_partition false 2 [1; 2; 3]). lia. Defined.
