(* ===== verification/Keys.v ===== *)
(** * Rotating the identity key

    src/src/bin/seam/key.rs: showing and rotating the identity key.  The files are a
    map from paths to contents and permission bits; a write can fail before the file
    is opened or after some of its bytes.  What is printed is not represented. *)

From Stdlib Require Import ZArith Lia Bool List String.
From Stdlib Require Import Strings.Byte.
From stdpp Require Import base list numbers option gmap.
From S2P Require Import Prelude Crypto TestCrypto Ratchet Identity Net Text Calendar.

Open Scope Z_scope.

Abbreviation KeyFs := (gmap (list byte) (list byte * Z)).

(** How the write of a file goes: as it should, not opened, or cut off. *)
Inductive WriteOutcome : Type := WriteDone | WriteNotOpened | WriteCut (n : nat).

(** [0o600] *)
Definition OWNER_ONLY : Z := 384.

(** [write_private_key]: the mode of [OpenOptions] is that of a file it creates. *)
Definition write_private_key (path bytes : list byte) (w : WriteOutcome) (fs : KeyFs) : (unit + string) * KeyFs :=
  let mode := match fs !! path with Some (_, mode) => mode | None => OWNER_ONLY end in
  match w with
  | WriteNotOpened => (inr "cannot open"%string, fs)
  | WriteCut n => (inr "cannot write"%string, <[path := (take n bytes, mode)]> fs)
  | WriteDone => (inl tt, <[path := (bytes, mode)]> fs)
  end.

(** [with_file_name]: the identity file is [name] in [dir]. *)
Definition id_path (dir name : list byte) : list byte := dir ++ string_bytes "/" ++ name.

Definition backup_path (dir name : list byte) (secs : Z) : list byte :=
  id_path dir (from_utf8_lossy name ++ string_bytes ".backup." ++ fmt_timestamp_utc secs).

Section Code.
Context {C : Crypto} {X : X25519} {K : Kem} {D : MlDsa}.

Definition generated_bytes (id : IdentityKeypair) : (list byte) + string :=
  match IdentityKeypair_to_bytes id with Some bytes => inl bytes | None => inr "panic"%string end.

(** [show_key]: the key it shows. *)
Definition show_key (dir name : list byte) (fresh : IdentityKeypair) (w : WriteOutcome) (fs : KeyFs)
  : (IdentityKeypair + string) * KeyFs :=
  match fs !! id_path dir name with
  | Some (bytes, _) =>
      match IdentityKeypair_from_bytes bytes with
      | Some id => (inl id, fs)
      | None => (inr "identity key is corrupt"%string, fs)
      end
  | None =>
      match generated_bytes fresh with
      | inr e => (inr e, fs)
      | inl bytes => match write_private_key (id_path dir name) bytes w fs with
                     | (inl _, fs) => (inl fresh, fs)
                     | (inr e, fs) => (inr e, fs)
                     end
      end
  end.

(** The second half of [rotate_key]: the new key, once the old one is safe. *)
Definition install_key (dir name : list byte) (old_id : option IdentityKeypair) (fresh : IdentityKeypair) (w : WriteOutcome) (fs : KeyFs)
  : ((option IdentityKeypair * IdentityKeypair) + string) * KeyFs :=
  match generated_bytes fresh with
  | inr e => (inr e, fs)
  | inl bytes => match write_private_key (id_path dir name) bytes w fs with
                 | (inl _, fs) => (inl (old_id, fresh), fs)
                 | (inr e, fs) => (inr e, fs)
                 end
  end.

(** [rotate_key]: the old key, if there was one, and the new. *)
Definition rotate_key (dir name : list byte) (secs : Z) (fresh : IdentityKeypair) (backup new : WriteOutcome) (fs : KeyFs)
  : ((option IdentityKeypair * IdentityKeypair) + string) * KeyFs :=
  match fs !! id_path dir name with
  | Some (bytes, _) =>
      match IdentityKeypair_from_bytes bytes with
      | None => (inr "existing identity key is corrupt"%string, fs)
      | Some id =>
          match write_private_key (backup_path dir name secs) bytes backup fs with
          | (inr e, fs) => (inr e, fs)
          | (inl _, fs) => install_key dir name (Some id) fresh new fs
          end
      end
  | None => install_key dir name None fresh new fs
  end.

(** Rotations one after the other, all writes done. *)
Fixpoint rotate_all (dir name : list byte) (rs : list (Z * IdentityKeypair)) (fs : KeyFs) : option KeyFs :=
  match rs with
  | [] => Some fs
  | (secs, fresh) :: rs =>
      match rotate_key dir name secs fresh WriteDone WriteDone fs with
      | (inl _, fs) => rotate_all dir name rs fs
      | (inr _, _) => None
      end
  end.

End Code.

(** * Properties *)

(** ** Backups *)

Lemma backup_not_id dir name secs : utf8_valid name = true -> backup_path dir name secs <> id_path dir name.
Proof.
  intros Hv E. apply (f_equal length) in E. unfold backup_path, id_path in E. rewrite lossy_valid in E by done.
  rewrite !length_app in E. change (length (string_bytes ".backup.")) with 8%nat in E. lia.
Qed.

(** Timestamps of different seconds differ, up to the year 9999. *)
Lemma fmt_timestamp_lt s1 s2 : 0 <= s1 < s2 -> s2 < YEAR_10000 -> fmt_timestamp_utc s1 <> fmt_timestamp_utc s2.
Proof.
  intros H1 H2 E. destruct (rfc3339_sorted s1 s2 H1 H2) as [Hlt _].
  assert (Hrfc : now_rfc3339 s1 = now_rfc3339 s2); [|by rewrite Hrfc, bytes_ltb_irrefl in Hlt].
  pose proof (date_fields (s1 / 86400)) as F1. pose proof (date_fields (s2 / 86400)) as F2.
  pose proof (fmt_timestamp_fields s1) as T1. pose proof (fmt_timestamp_fields s2) as T2. unfold YEAR_10000 in *.
  change (253402300800 / 86400) with 2932897 in *.
  assert (0 <= s1 / 86400 < 2932897) by (Z.to_euclidean_division_equations; lia).
  assert (0 <= s2 / 86400 < 2932897) by (Z.to_euclidean_division_equations; lia).
  specialize (F1 ltac:(lia)). specialize (F2 ltac:(lia)). specialize (T1 ltac:(lia)). specialize (T2 ltac:(lia)).
  unfold now_rfc3339. pose proof (Z.mod_pos_bound (s1 / 3600) 24 ltac:(lia)). pose proof (Z.mod_pos_bound (s2 / 3600) 24 ltac:(lia)).
  pose proof (Z.mod_pos_bound (s1 / 60) 60 ltac:(lia)). pose proof (Z.mod_pos_bound (s2 / 60) 60 ltac:(lia)).
  pose proof (Z.mod_pos_bound s1 60 ltac:(lia)). pose proof (Z.mod_pos_bound s2 60 ltac:(lia)).
  destruct (days_to_ymd (s1 / 86400)) as [[y1 m1] d1]. destruct (days_to_ymd (s2 / 86400)) as [[y2 m2] d2].
  rewrite T1, T2 in E.
  do 7 (apply app_inj_1 in E as [?E E]; [|rewrite ?pad_spec; (done || (cbn; lia))]).
  congruence.
Qed.

Lemma backup_path_inj dir name s1 s2 : 0 <= s1 < YEAR_10000 -> 0 <= s2 < YEAR_10000 -> s1 <> s2 ->
  backup_path dir name s1 <> backup_path dir name s2.
Proof.
  intros H1 H2 Hne E. unfold backup_path, id_path in E. do 4 apply app_inv_head in E.
  destruct (Z.lt_total s1 s2) as [Hlt|[Heq|Hlt]]; [|done|symmetry in E]; revert E; apply fmt_timestamp_lt; lia.
Qed.

(** ** Rotation *)

Section Rotation.
Context {C : Crypto} {X : X25519} {K : Kem} {D : MlDsa}.
Context {KL : KemLaws K} {DL : MlDsaLaws D}.

(** No rotation loses the key.  However its two writes go, the bytes of a key
    that was there are afterwards in the identity file or in the backup, no other
    file has changed, and a key that does not parse is refused with nothing changed;
    a rotation that succeeds leaves the backup complete and a file that reads back
    as the new key. *)
Theorem rotation_keeps_key (dir name : list byte) (secs : Z) (fresh : IdentityKeypair) (backup new : WriteOutcome) (fs : KeyFs) (bytes : list byte) (mode : Z)
    (r : (option IdentityKeypair * IdentityKeypair) + string) (fs' : KeyFs) :
  utf8_valid name = true -> identity_wf fresh -> fs !! id_path dir name = Some (bytes, mode) ->
  rotate_key dir name secs fresh backup new fs = (r, fs') ->
  ((exists m, fs' !! id_path dir name = Some (bytes, m)) \/ (exists m, fs' !! backup_path dir name secs = Some (bytes, m)))
  /\ (forall path, path <> id_path dir name -> path <> backup_path dir name secs -> fs' !! path = fs !! path)
  /\ (IdentityKeypair_from_bytes bytes = None -> fs' = fs /\ exists e, r = inr e)
  /\ (forall old id, r = inl (old, id) ->
        id = fresh /\ old = IdentityKeypair_from_bytes bytes
        /\ (exists m, fs' !! backup_path dir name secs = Some (bytes, m))
        /\ show_key dir name fresh WriteDone fs' = (inl fresh, fs')).
Proof.
  intros Hv Hwf Hid Hr. pose proof (backup_not_id dir name secs Hv) as Hne. unfold rotate_key in Hr. rewrite Hid in Hr.
  destruct (IdentityKeypair_from_bytes bytes) as [old|].
  2:{ injection Hr as <- <-. split_and!; eauto. by intros. }
  unfold write_private_key in Hr at 1. destruct backup as [| |n].
  - set (fs1 := <[backup_path dir name secs := (bytes, _)]> fs) in Hr.
    assert (Hb : exists m, fs1 !! backup_path dir name secs = Some (bytes, m)) by (eexists; apply lookup_insert_eq).
    assert (Ho : forall path, path <> backup_path dir name secs -> fs1 !! path = fs !! path)
      by (intros path Hp; by apply lookup_insert_ne).
    unfold install_key in Hr. destruct (generated_bytes fresh) as [b|e] eqn:Eg.
    2:{ injection Hr as <- <-. split_and!; [by right|auto|done|by intros]. }
    unfold write_private_key in Hr. destruct new as [| |n].
    + injection Hr as <- <-. split_and!; [by right; rewrite lookup_insert_ne|intros; rewrite lookup_insert_ne; auto|done|].
      intros o id [= <- <-]. split_and!; [done|done|by rewrite lookup_insert_ne|].
      unfold show_key. rewrite lookup_insert_eq. unfold generated_bytes in Eg.
      destruct (IdentityKeypair_to_bytes fresh) as [b'|] eqn:Et; [|done]. injection Eg as ->.
      pose proof (from_bytes_to_bytes fresh b [] Hwf Et) as Hb2. rewrite app_nil_r in Hb2. by rewrite Hb2.
    + injection Hr as <- <-. split_and!; [by right|auto|done|by intros].
    + injection Hr as <- <-. split_and!; [by right; rewrite lookup_insert_ne|intros; rewrite lookup_insert_ne; auto|done|by intros].
  - injection Hr as <- <-. split_and!; [by left; exists mode|done|done|by intros].
  - injection Hr as <- <-. split_and!; [left; exists mode; by rewrite lookup_insert_ne|intros; by rewrite lookup_insert_ne|done|by intros].
Qed.

(** The mode a write leaves. *)
Definition mode_of (path : list byte) (fs : KeyFs) : Z := match fs !! path with Some (_, mode) => mode | None => OWNER_ONLY end.

(** A rotation whose writes are done. *)
Lemma rotate_done (dir name : list byte) (secs : Z) (fresh old : IdentityKeypair) (b bytes : list byte) (mode : Z) (fs : KeyFs) :
  utf8_valid name = true -> IdentityKeypair_to_bytes fresh = Some b ->
  fs !! id_path dir name = Some (bytes, mode) -> IdentityKeypair_from_bytes bytes = Some old ->
  rotate_key dir name secs fresh WriteDone WriteDone fs
  = (inl (Some old, fresh), <[id_path dir name := (b, mode)]> (<[backup_path dir name secs := (bytes, mode_of (backup_path dir name secs) fs)]> fs)).
Proof.
  intros Hv Hb Hid Hold. pose proof (backup_not_id dir name secs Hv) as Hne.
  unfold rotate_key, install_key, generated_bytes, write_private_key. rewrite Hid, Hold, Hb. fold (mode_of (backup_path dir name secs) fs).
  rewrite lookup_insert_ne by done. by rewrite Hid.
Qed.

(** Two rotations within a second have one backup: the key of before the first is
    gone. *)
Lemma same_second_loses_key (dir name : list byte) (secs : Z) (k1 k2 old : IdentityKeypair) (b1 b2 bytes : list byte) (mode : Z) (fs : KeyFs) :
  utf8_valid name = true -> identity_wf k1 -> IdentityKeypair_to_bytes k1 = Some b1 -> IdentityKeypair_to_bytes k2 = Some b2 ->
  fs !! id_path dir name = Some (bytes, mode) -> IdentityKeypair_from_bytes bytes = Some old ->
  exists fs' m, rotate_all dir name [(secs, k1); (secs, k2)] fs = Some fs'
    /\ fs' = <[id_path dir name := (b2, mode)]> (<[backup_path dir name secs := (b1, m)]> fs).
Proof.
  intros Hv Hwf H1 H2 Hid Hold. pose proof (backup_not_id dir name secs Hv) as Hne.
  pose proof (from_bytes_to_bytes k1 b1 [] Hwf H1) as Hb1. rewrite app_nil_r in Hb1.
  do 2 eexists. cbn [rotate_all]. rewrite (rotate_done dir name secs k1 old b1 bytes mode) by done.
  rewrite (rotate_done dir name secs k2 k1 b2 b1 mode) by (done || apply lookup_insert_eq).
  split; [reflexivity|]. rewrite (insert_insert_ne _ (backup_path dir name secs) (id_path dir name)) by done.
  by rewrite insert_insert_eq, insert_insert_eq.
Qed.

(** An identity file others can read stays so: the new key is written to it. *)
Lemma loose_mode_kept (dir name : list byte) (secs : Z) (fresh old : IdentityKeypair) (b bytes : list byte) (fs : KeyFs) :
  utf8_valid name = true -> IdentityKeypair_to_bytes fresh = Some b ->
  fs !! id_path dir name = Some (bytes, 420) -> IdentityKeypair_from_bytes bytes = Some old ->
  (rotate_key dir name secs fresh WriteDone WriteDone fs).2 !! id_path dir name = Some (b, 420).
Proof.
  intros Hv Hb Hid Hold. rewrite (rotate_done dir name secs fresh old b bytes 420) by done. apply lookup_insert_eq.
Qed.

(** The keys a run of rotations replaces, in order. *)
Fixpoint replaced (bytes : list byte) (rs : list (Z * IdentityKeypair)) : list (Z * list byte) :=
  match rs with
  | [] => []
  | (secs, fresh) :: rs => (secs, bytes) :: replaced (default [] (IdentityKeypair_to_bytes fresh)) rs
  end.

(** Rotations at different seconds keep every key: after any number of them,
    each at a second of its own before the year 10000, each key that was replaced is
    in the backup of its second. *)
Theorem rotations_keep_all (dir name : list byte) (rs : list (Z * IdentityKeypair)) : forall (fs : KeyFs) (bytes : list byte) (mode : Z) (old : IdentityKeypair),
  utf8_valid name = true ->
  Forall (fun r => 0 <= r.1 < YEAR_10000 /\ identity_wf r.2 /\ is_Some (IdentityKeypair_to_bytes r.2)) rs ->
  NoDup (map fst rs) -> fs !! id_path dir name = Some (bytes, mode) -> IdentityKeypair_from_bytes bytes = Some old ->
  exists fs', rotate_all dir name rs fs = Some fs'
    /\ (forall secs b, In (secs, b) (replaced bytes rs) -> exists m, fs' !! backup_path dir name secs = Some (b, m))
    /\ (forall secs, 0 <= secs < YEAR_10000 -> ~ In secs (map fst rs) -> fs' !! backup_path dir name secs = fs !! backup_path dir name secs).
Proof.
  induction rs as [|[secs fresh] rs IH]; intros fs bytes mode old Hv Hf Hnd Hid Hold.
  { exists fs. split_and!; [done|by intros ? ? []|done]. }
  apply List.Forall_cons_iff in Hf as [(Hs & Hwf & [b Hb]) Hf]. cbn [fst snd] in *. cbn [map fst] in Hnd.
  apply NoDup_cons in Hnd as [Hnin Hnd]. pose proof (backup_not_id dir name secs Hv) as Hne.
  cbn [rotate_all]. rewrite (rotate_done dir name secs fresh old b bytes mode) by done.
  set (fs1 := <[id_path dir name := _]> _).
  pose proof (from_bytes_to_bytes fresh b [] Hwf Hb) as Hfb. rewrite app_nil_r in Hfb.
  destruct (IH fs1 b mode fresh Hv Hf Hnd) as (fs' & Hr & Hin & Hout); [by apply lookup_insert_eq|done|].
  exists fs'. split; [done|]. cbn [replaced]. rewrite Hb. cbn [default from_option id].
  assert (Hns : ~ In secs (map fst rs)) by (intros Hi; apply Hnin; by apply list_elem_of_In).
  split.
  - intros s c [[= <- <-]|Hi]; [|by apply Hin]. rewrite Hout by done. subst fs1.
    rewrite lookup_insert_ne, lookup_insert_eq by done. by eexists.
  - intros s Hs' Hn. cbn [map fst] in Hn. rewrite Hout by (done || (intros ?; apply Hn; by right)). subst fs1.
    rewrite lookup_insert_ne by (symmetry; by apply backup_not_id).
    rewrite lookup_insert_ne; [done|]. apply backup_path_inj; [done|done|]. intros <-. apply Hn. by left.
Qed.

End Rotation.

(** ** Witnesses *)

Definition test_dir : list byte := string_bytes "seam".
Definition test_key_name : list byte := string_bytes "identity.key".
Definition test_key_bytes : list byte := default [] (IdentityKeypair_to_bytes test_upgraded).
Definition test_key_fs : KeyFs := <[id_path test_dir test_key_name := (test_key_bytes, OWNER_ONLY)]> ∅.

Lemma test_fresh_wf : identity_wf test_fresh.
Proof. split; vm_compute; reflexivity. Qed.

Lemma test_key_lookup : test_key_fs !! id_path test_dir test_key_name = Some (test_key_bytes, OWNER_ONLY).
Proof. apply lookup_insert_eq. Qed.

Lemma test_key_parses : IdentityKeypair_from_bytes test_key_bytes = Some test_upgraded.
Proof. vm_cast_no_check (eq_refl (Some test_upgraded)). Qed.

Lemma rotation_keeps_key_witness :
  let '(r, fs') := rotate_key test_dir test_key_name 0 test_fresh WriteDone (WriteCut 7) test_key_fs in
  (exists m, fs' !! id_path test_dir test_key_name = Some (test_key_bytes, m))
  \/ (exists m, fs' !! backup_path test_dir test_key_name 0 = Some (test_key_bytes, m)).
Proof.
  destruct (rotate_key test_dir test_key_name 0 test_fresh WriteDone (WriteCut 7) test_key_fs) as [r fs'] eqn:E.
  apply (rotation_keeps_key test_dir test_key_name 0 test_fresh WriteDone (WriteCut 7) test_key_fs test_key_bytes OWNER_ONLY r fs').
  - vm_compute. reflexivity.
  - exact test_fresh_wf.
  - exact test_key_lookup.
  - exact E.
Defined.

Lemma rotations_keep_all_witness :
  exists fs', rotate_all test_dir test_key_name [(0, test_fresh)] test_key_fs = Some fs'
    /\ exists m, fs' !! backup_path test_dir test_key_name 0 = Some (test_key_bytes, m).
Proof.
  destruct (rotations_keep_all test_dir test_key_name [(0, test_fresh)] test_key_fs test_key_bytes OWNER_ONLY test_upgraded)
    as (fs' & H1 & H2 & _).
  - vm_compute. reflexivity.
  - apply List.Forall_cons; [|apply List.Forall_nil]. split; [cbn; unfold YEAR_10000; lia|]. split; [exact test_fresh_wf|].
    eexists. vm_compute. reflexivity.
  - apply NoDup_singleton.
  - exact test_key_lookup.
  - exact test_key_parses.
  - exists fs'. split; [exact H1|]. apply H2. by left.
Defined.
