(* ===== verification/Doctor.v ===== *)
(** * Checks and updates

    The checks of src/src/bin/seam/doctor.rs that look at data - versions, the pin
    file, the FEC self-test - and update.rs: the choice of the asset, the checksum
    and what gets installed.  The network is what a request returns, unpacking an
    archive is an argument, and so are the architecture and the system. *)

From Stdlib Require Import ZArith Lia Bool List String.
From Stdlib Require Import Strings.Byte.
From stdpp Require Import base list numbers option gmap.
From S2P Require Import Prelude GF256 Fec TestCrypto Identity Net Text Json KnownHosts Specs Mount.

Open Scope Z_scope.

(** ** Versions *)

Definition parse_ver (s : list byte) : option (Z * Z * Z) :=
  let parts := splitn 3 DOT s in
  major ← parts !! 0%nat ≫= parse_uint (2 ^ 64 - 1);
  minor ← parts !! 1%nat ≫= parse_uint (2 ^ 64 - 1);
  patch ← parse_uint (2 ^ 64 - 1) (default (string_bytes "0") (parts !! 2%nat));
  Some (major, minor, patch).

(** The derived order of triples. *)
Definition ver_ltb (a b : Z * Z * Z) : bool :=
  let '(a1, a2, a3) := a in
  let '(b1, b2, b3) := b in
  (a1 <? b1) || (a1 =? b1) && ((a2 <? b2) || (a2 =? b2) && (a3 <? b3)).

Definition is_newer (candidate current : list byte) : bool :=
  match parse_ver candidate, parse_ver current with
  | Some c, Some cur => ver_ltb cur c
  | _, _ => false
  end.

(** [trim_start_matches] of a character. *)
Definition trim_start_matches (c : byte) (l : list byte) : list byte := drop_while (fun b => Byte.eqb b c) l.

Inductive VersionCheckResult : Type := VcUpToDate | VcUpdateAvailable (latest : list byte) | VcNetworkError.

(** [check_latest_version]; [tag] is the tag of the latest release, if the answer
    had one. *)
Definition check_latest_version (tag : option (list byte)) (current : list byte) : VersionCheckResult :=
  match tag with
  | None => VcNetworkError
  | Some t =>
      let tag := trim_start_matches x76 t in
      if is_newer tag current then VcUpdateAvailable tag else VcUpToDate
  end.

(** ** The pin file *)

Inductive KnownHostsStatus : Type :=
  | KhNotFound
  | KhEmpty
  | KhOk (count : nat)
  | KhSuspicious (hosts : list (list byte))
  | KhParseError (lineno : nat)
  | KhUnreadable
  | KhPermissions (mode : Z).

Definition is_ascii_hexdigit (b : byte) : bool := match hex_val b with Some _ => true | None => false end.

(** The loop over the lines: the count and the suspicious hosts, or the line that
    is not two fields. *)
Fixpoint check_lines (lineno count : nat) (suspicious : list (list byte)) (ls : list (list byte)) : KnownHostsStatus :=
  match ls with
  | [] =>
      match suspicious with
      | _ :: _ => KhSuspicious suspicious
      | [] => match count with O => KhEmpty | _ => KhOk count end
      end
  | line :: ls =>
      let line := trim line in
      if bool_decide (line = []) || starts_with [HASH_SIGN] line then check_lines (S lineno) count suspicious ls
      else match splitn 2 SPACE line with
           | [host; fp] =>
               let fp := trim fp in
               let bad := negb (length fp =? 64)%nat || negb (forallb is_ascii_hexdigit fp) in
               check_lines (S lineno) (S count) (if bad then suspicious ++ [host] else suspicious) ls
           | _ => KhParseError lineno
           end
  end.

(** [check_known_hosts_integrity]: the file's contents and its permission bits, if
    it exists. *)
Definition check_known_hosts_integrity (file : option (list byte * Z)) : KnownHostsStatus :=
  match file with
  | None => KhNotFound
  | Some (content, mode) =>
      let mode := Z.land mode 511 in
      if negb (Z.land mode 63 =? 0) then KhPermissions mode
      else match from_utf8 content with
           | None => KhUnreadable
           | Some text => check_lines 1 0 [] (lines text)
           end
  end.

(** ** The FEC self-test *)

Definition self_test_source (i : Z) : list byte := map (fun j => byte_of (wrapping_add 8 i (Z.of_nat j mod 256))) (seq 0 64).

Fixpoint push_sources (sources : list (list byte)) (enc : FecEncoder) (repairs : option (list FecRepairData)) : option (option (list FecRepairData)) :=
  match sources with
  | [] => Some repairs
  | src :: sources => match FecEncoder_push_source enc src with
                      | None => None
                      | Some (enc, repairs) => push_sources sources enc repairs
                      end
  end.

Fixpoint add_sources (gid : Z) (sources : list (Z * list byte)) (dec : FecDecoder) : option FecDecoder :=
  match sources with
  | [] => Some dec
  | (i, src) :: sources => match FecDecoder_add_source dec gid i 4 2 src with
                           | None => None
                           | Some (dec, _) => add_sources gid sources dec
                           end
  end.

(** [try_fec_self_test]: the outer [None] is a panic, the inner a failed test. *)
Definition try_fec_self_test : option (option unit) :=
  let sources := map self_test_source (seqZ 0 4) in
  repairs ← push_sources sources (FecEncoder_new 42 4 2) None;
  match repairs with
  | Some ((r0 :: _) as repairs) =>
      if negb (length repairs =? 2)%nat then Some None
      else
        dec ← add_sources (fr_group_id r0) (List.filter (fun p => negb (p.1 =? 1)) (zip (seqZ 0 4) sources)) FecDecoder_new;
        '(_, recovered) ← FecDecoder_add_repair dec r0;
        match recovered with
        | Some [(idx, data)] =>
            Some (if (idx =? 1) && bytes_eqb (take 64 data) (self_test_source 1) then Some tt else None)
        | _ => Some None
        end
  | _ => Some None
  end.

(** ** Updates *)

Record Asset : Type := mkAsset { as_name : list byte; browser_download_url : list byte }.
Record Release : Type := mkRelease { tag_name : list byte; assets : list Asset }.

Definition current_target (arch os : list byte) : list byte :=
  if bytes_eqb os (string_bytes "linux") then
    if bytes_eqb arch (string_bytes "aarch64") then arch ++ string_bytes "-unknown-linux-gnu" else arch ++ string_bytes "-unknown-linux-musl"
  else if bytes_eqb os (string_bytes "macos") then arch ++ string_bytes "-apple-darwin"
  else arch ++ string_bytes "-" ++ os.

Section Code.
Context {H : PlainHash}.

(** A line of checksums.sha256 for an asset. *)
Definition checksum_entry (asset_name line : list byte) : option (list byte) :=
  match splitn 2 SPACE line with
  | hex :: name :: _ =>
      if bytes_eqb (trim_start_matches x2a (trim name)) asset_name then Some (trim hex) else None
  | _ => None
  end.

(** [verify_checksum]; [body] is the checksum file, if it could be fetched as text. *)
Definition verify_checksum (archive asset_name : list byte) (body : option (list byte)) : unit + string :=
  match body ≫= from_utf8 with
  | None => inr "fetch checksums.sha256"%string
  | Some body =>
      match find_map (checksum_entry asset_name) (lines body) with
      | None => inr "no checksum entry"%string
      | Some expected_hex =>
          if bytes_eqb (hex_encode (sha256_digest archive)) expected_hex then inl tt else inr "checksum mismatch"%string
      end
  end.

(** How an update ends. *)
Inductive Updated : Type :=
  | UpToDate
  | Available (latest : list byte)
  | Installed (binary : list byte)
  | UpdateFails (why : string).

(** [run]: [fetch] is what a URL returns, [unpack] the entries of an archive. *)
Definition update (check : bool) (version arch os : list byte) (release : option Release)
  (fetch : list byte -> option (list byte)) (unpack : list byte -> option (list (list byte * list byte))) : Updated :=
  match release with
  | None => UpdateFails "fetch releases"
  | Some release =>
      let latest := trim_start_matches x76 (tag_name release) in
      if bytes_eqb latest version then UpToDate
      else if check then Available latest
      else
        let target := current_target arch os in
        match List.find (fun a => contains target (as_name a) && ends_with (string_bytes ".tar.gz") (as_name a)) (assets release) with
        | None => UpdateFails "no release asset for target"
        | Some asset =>
            match fetch (browser_download_url asset) with
            | None => UpdateFails "download binary"
            | Some archive =>
                let checksum_url := string_bytes "https://github.com/Arcel-Org/Seam/releases/download/" ++ tag_name release
                                    ++ string_bytes "/checksums.sha256" in
                match verify_checksum archive (as_name asset) (fetch checksum_url) with
                | inr e => UpdateFails e
                | inl _ =>
                    match unpack archive with
                    | None => UpdateFails "unpack"
                    | Some entries =>
                        match List.find (fun e => bool_decide (file_name e.1 = Some (string_bytes "seam"))) entries with
                        | None => UpdateFails "seam binary not found in archive"
                        | Some (_, binary) => Installed binary
                        end
                    end
                end
            end
        end
  end.

End Code.

(** * Properties *)

(** ** Versions *)

Definition ver_text (v : Z * Z * Z) : list byte := let '(a, b, c) := v in dec a ++ [DOT] ++ dec b ++ [DOT] ++ dec c.

Definition ver_ok (v : Z * Z * Z) : Prop := let '(a, b, c) := v in is_u 64 a /\ is_u 64 b /\ is_u 64 c.

Lemma parse_ver_text v : ver_ok v -> parse_ver (ver_text v) = Some v.
Proof.
  destruct v as [[a b] c]. intros (Ha & Hb & Hc). unfold parse_ver, ver_text.
  assert (Hno : forall n, is_u 64 n -> Forall (fun x => x <> DOT) (dec n)).
  { intros n Hn. eapply List.Forall_impl; [|by apply dec_no_sep]. by intros x [Hx _]. }
  assert (Hs : splitn 3 DOT (dec a ++ [DOT] ++ dec b ++ [DOT] ++ dec c) = [dec a; dec b; dec c]).
  { cbn [splitn]. rewrite (proj2 (split_once_Some DOT _ (dec a) (dec b ++ [DOT] ++ dec c))) by (split; [done|by apply Hno]).
    by rewrite (proj2 (split_once_Some DOT _ (dec b) (dec c))) by (split; [done|by apply Hno]). }
  assert (Hp : forall n, is_u 64 n -> parse_uint (2 ^ 64 - 1) (dec n) = Some n) by (intros n Hn; apply parse_uint_dec; unfold is_u in Hn; lia).
  cbv zeta. rewrite Hs. change (default (string_bytes "0") ([dec a; dec b; dec c] !! 2%nat)) with (dec c). rewrite (Hp c Hc).
  change (([dec a; dec b; dec c] !! 0%nat ≫= parse_uint (2 ^ 64 - 1))) with (parse_uint (2 ^ 64 - 1) (dec a)).
  change (([dec a; dec b; dec c] !! 1%nat ≫= parse_uint (2 ^ 64 - 1))) with (parse_uint (2 ^ 64 - 1) (dec b)).
  by rewrite (Hp a Ha), (Hp b Hb).
Qed.

(** Newer is the order of versions: for versions as they are printed, the check
    says that one is newer exactly if its numbers come later; whatever the texts, it
    is a strict order, so of two releases at most one is newer. *)
Theorem is_newer_order :
  (forall v w, ver_ok v -> ver_ok w -> is_newer (ver_text w) (ver_text v) = ver_ltb v w)
  /\ (forall a, is_newer a a = false)
  /\ (forall a b c, is_newer a b = true -> is_newer b c = true -> is_newer a c = true).
Proof.
  assert (Hcmp : forall a b, ver_ltb a b = true <-> a.1.1 < b.1.1 \/ a.1.1 = b.1.1 /\ (a.1.2 < b.1.2 \/ a.1.2 = b.1.2 /\ a.2 < b.2)).
  { intros [[a1 a2] a3] [[b1 b2] b3]. cbn. rewrite !orb_true_iff, !andb_true_iff, !orb_true_iff, !andb_true_iff, !Z.ltb_lt, !Z.eqb_eq. lia. }
  split_and!.
  - intros v w Hv Hw. unfold is_newer. by rewrite !parse_ver_text.
  - intros a. unfold is_newer. destruct (parse_ver a) as [v|]; [|done]. apply not_true_is_false. rewrite Hcmp. lia.
  - intros a b c. unfold is_newer. destruct (parse_ver a), (parse_ver b), (parse_ver c); try done. rewrite !Hcmp. lia.
Qed.

(** The update command only asks whether the version differs: it installs an older
    release over a newer one, which the check does not call newer. *)
Lemma update_downgrades :
  check_latest_version (Some (string_bytes "v1.1.9")) (string_bytes "1.2.0") = VcUpToDate
  /\ forall H : PlainHash, update true (string_bytes "1.2.0") [] [] (Some (mkRelease (string_bytes "v1.1.9") [])) (fun _ => None) (fun _ => None)
       = Available (string_bytes "1.1.9").
Proof. split; [|intros H]; vm_compute; reflexivity. Qed.

(** ** The pin file *)

Definition hex64 (fp : list byte) : Prop := length fp = 64%nat /\ forallb is_ascii_hexdigit fp = true.

Lemma check_lines_suspicious ls : forall lineno count suspicious n,
  check_lines lineno count suspicious ls = KhOk n -> suspicious = [].
Proof.
  induction ls as [|line ls IH]; intros lineno count suspicious n; cbn [check_lines].
  - by destruct suspicious.
  - destruct (_ || _); [apply IH|]. destruct (splitn 2 SPACE (trim line)) as [|h [|fp [|]]]; try done.
    destruct (_ || _); intros Hc; apply IH in Hc; [by destruct suspicious|done].
Qed.

Lemma check_lines_sound ls : forall lineno count n (pins : Pins),
  check_lines lineno count [] ls = KhOk n -> (forall h fp, pins !! h = Some fp -> hex64 fp) ->
  forall h fp, fold_left (fun map line => match parse_pin line with Some (host, fp) => <[host := fp]> map | None => map end) ls pins !! h
    = Some fp -> hex64 fp.
Proof.
  induction ls as [|line ls IH]; intros lineno count n pins Hc Hp; [exact Hp|]. cbn [check_lines fold_left] in *.
  unfold parse_pin at 2. destruct (trim line) as [|b l] eqn:Et; [by apply (IH _ _ _ _ Hc)|].
  rewrite bool_decide_eq_false_2 in Hc by done. cbn [orb] in Hc.
  destruct (starts_with [HASH_SIGN] (b :: l)); [by apply (IH _ _ _ _ Hc)|].
  destruct (splitn 2 SPACE (b :: l)) as [|h [|fp [|]]]; try done.
  destruct (negb (length (trim fp) =? 64)%nat || negb (forallb is_ascii_hexdigit (trim fp))) eqn:Eb.
  { by apply check_lines_suspicious in Hc. }
  apply (IH _ _ _ _ Hc). intros k v [[<- <-]|[_ Hk]]%lookup_insert_Some; [|by apply (Hp k)].
  apply orb_false_iff in Eb as [E1%negb_false_iff E2%negb_false_iff]. by apply Nat.eqb_eq in E1.
Qed.

Lemma check_pin_lines es : forall lineno count,
  Forall (fun p => host_ok p.1 /\ graphic_text p.2) es -> Forall (fun p => hex64 p.2) es ->
  check_lines lineno count [] (map pin_line es) = check_lines (lineno + length es) (count + length es) [] [].
Proof.
  induction es as [|[h fp] es IH]; intros lineno count H1 H2; [by rewrite !Nat.add_0_r|].
  apply List.Forall_cons_iff in H1 as [[Hh Hf] H1]. apply List.Forall_cons_iff in H2 as [[Hl Hx] H2]. cbn [fst snd] in *.
  destruct (pin_line_fields h fp Hh Hf) as (Ht & Hne & Hs & Hsp). cbn [map check_lines].
  rewrite Ht, Hs, Hsp, (graphic_trim fp Hf), Hl, Hx, bool_decide_eq_false_2 by done. cbn [orb negb Nat.eqb].
  rewrite IH by done. cbn [length check_lines]. by rewrite !Nat.add_succ_r.
Qed.

Lemma forallb_hex l : forallb is_ascii_hexdigit (hex_encode l) = true.
Proof.
  assert (Hd : forall d, 0 <= d < 16 -> is_ascii_hexdigit (hex_digit d) = true).
  { intros d Hd. assert (Hin : In d (map Z.of_nat (seq 0 16))) by (apply in_map_iff; exists (Z.to_nat d); rewrite in_seq; lia).
    cbn in Hin. repeat destruct Hin as [<-|Hin]; done. }
  induction l as [|b l IH]; [done|]. cbn [hex_encode List.flat_map app forallb]. fold (hex_encode l).
  pose proof (byte_val_bound b). by rewrite !Hd, IH by (Z.to_euclidean_division_equations; lia).
Qed.

Lemma fingerprint_hex64 {H : PlainHash} {HL : PlainHashLaws H} key : hex64 (fingerprint key).
Proof. split; [unfold fingerprint; by rewrite length_hex_encode, sha256_digest_len|apply forallb_hex]. Qed.

(** The check of the pin file and the pin file agree: what connections wrote is
    accepted with the number of its pins, if only its owner can read it, and refused
    with the permissions a new file usually gets, which is how it is written; and in
    a file that is accepted every pin that a connection would compare with is a
    whole SHA-256 fingerprint. *)
Theorem pin_check_agrees :
  (forall pins, pins_ok pins -> (forall h fp, pins !! h = Some fp -> hex64 fp) ->
     check_known_hosts_integrity (Some (save_pins pins, 384)) = (if (size pins =? 0)%nat then KhEmpty else KhOk (size pins))
     /\ check_known_hosts_integrity (Some (save_pins pins, 420)) = KhPermissions 420)
  /\ (forall content mode n host fp, check_known_hosts_integrity (Some (content, mode)) = KhOk n ->
        load_pins (Some content) !! host = Some fp -> hex64 fp).
Proof.
  split.
  - intros pins Hok Hx. split; [|reflexivity]. destruct (saved_lines pins Hok) as [Hu Hl].
    unfold check_known_hosts_integrity. change (negb (Z.land (Z.land 384 511) 63 =? 0)) with false. cbn iota. rewrite Hu, Hl.
    assert (Hh : forall ls, check_lines 1 0 [] (map strip_cr PINS_HEADER ++ ls) = check_lines 3 0 [] ls) by reflexivity.
    rewrite Hh, check_pin_lines by (try apply pin_entries_ok; try done; apply List.Forall_forall; intros [h fp] Hp%list_elem_of_In;
      apply elem_pin_entries in Hp; by apply (Hx h)).
    assert (Hn : length (pin_entries pins) = size pins).
    { unfold pin_entries. rewrite (Permutation_length (sort_by_key_perm fst _)). apply length_map_to_list. }
    rewrite Hn. cbn [check_lines Nat.add]. by destruct (size pins).
  - intros content mode n host fp Hc Hp. unfold check_known_hosts_integrity in Hc. destruct (negb _); [done|].
    unfold load_pins in Hp. cbn [mbind option_bind] in Hp. destruct (from_utf8 content) as [text|]; [|done].
    eapply check_lines_sound; [exact Hc| |exact Hp]. by intros h f ?%lookup_empty_Some.
Qed.

(** ** The self-test *)

(** The FEC self-test passes. *)
Lemma fec_self_test_passes : try_fec_self_test = Some (Some tt).
Proof. vm_compute. reflexivity. Qed.

(** ** Updates *)

(** Only what was checked is installed: a binary that an update installs comes
    from an archive whose SHA-256 digest is the one that the release's checksum file
    lists first for the asset's name, and the asset is one of the release for this
    system. *)
Theorem update_verified {H : PlainHash} check version arch os release fetch unpack binary :
  update check version arch os (Some release) fetch unpack = Installed binary ->
  exists asset archive body path entries,
    In asset (assets release) /\ contains (current_target arch os) (as_name asset) = true
    /\ fetch (browser_download_url asset) = Some archive
    /\ fetch (string_bytes "https://github.com/Arcel-Org/Seam/releases/download/" ++ tag_name release
              ++ string_bytes "/checksums.sha256") = Some body
    /\ find_map (checksum_entry (as_name asset)) (lines body) = Some (hex_encode (sha256_digest archive))
    /\ unpack archive = Some entries /\ In (path, binary) entries.
Proof.
  unfold update. destruct (bytes_eqb _ version); [done|]. destruct check; [done|].
  destruct (List.find _ (assets release)) as [asset|] eqn:Ea; [|done]. apply find_some in Ea as [Hin [Hc _]%andb_true_iff].
  destruct (fetch (browser_download_url asset)) as [archive|] eqn:Ef; [|done].
  destruct (verify_checksum archive (as_name asset) _) as [u|e] eqn:Ev; [|done].
  destruct (unpack archive) as [entries|] eqn:Eu; [|done]. destruct (List.find _ entries) as [[path bin]|] eqn:Ee; [|done].
  intros [= <-]. apply find_some in Ee as [Hine _]. unfold verify_checksum in Ev.
  destruct (fetch (_ ++ _)) as [body|] eqn:Eb; cbn [mbind option_bind] in Ev; [|done]. unfold from_utf8 in Ev.
  destruct (utf8_valid body); [|done]. destruct (find_map _ (lines body)) as [hex|] eqn:Em; [|done].
  destruct (bytes_eqb _ hex) eqn:Ex; [|done]. apply bytes_eqb_eq in Ex as <-.
  exists asset, archive, body, path, entries. done.
Qed.

(** ** Witnesses *)

Definition test_archive : list byte := [x01; x02].

Definition test_release : Release :=
  mkRelease (string_bytes "v2.0.0") [mkAsset (string_bytes "seam-x86_64-unknown-linux-musl.tar.gz") (string_bytes "a")].

Definition test_fetch (url : list byte) : option (list byte) :=
  if bytes_eqb url (string_bytes "a") then Some test_archive
  else Some (hex_encode (sha256_digest test_archive) ++ string_bytes "  seam-x86_64-unknown-linux-musl.tar.gz").

Definition test_unpack (archive : list byte) : option (list (list byte * list byte)) := Some [(string_bytes "bin/seam", [x2a])].

Lemma update_verified_witness :
  update false (string_bytes "1.0.0") (string_bytes "x86_64") (string_bytes "linux") (Some test_release) test_fetch test_unpack = Installed [x2a]
  /\ exists asset archive, In asset (assets test_release) /\ test_fetch (browser_download_url asset) = Some archive.
Proof.
  assert (Hu : update false (string_bytes "1.0.0") (string_bytes "x86_64") (string_bytes "linux") (Some test_release) test_fetch test_unpack
    = Installed [x2a]) by (vm_compute; reflexivity).
  split; [exact Hu|].
  destruct (update_verified false _ _ _ _ _ _ _ Hu) as (asset & archive & body & path & entries & H1 & _ & H2 & _).
  exists asset, archive. split; [exact H1|exact H2].
Defined.

Lemma is_newer_order_witness : is_newer (ver_text (1, 10, 0)) (ver_text (1, 9, 3)) = true.
Proof.
  destruct is_newer_order as (H & _ & _). rewrite H; [reflexivity| |]; repeat split; lia.
Defined.

Lemma pin_check_agrees_witness :
  check_known_hosts_integrity (Some (save_pins {[ test_host := fingerprint [x01] ]}, 384)) = KhOk 1.
Proof.
  destruct pin_check_agrees as [H _]. destruct (H {[ test_host := fingerprint [x01] ]}) as [H1 _].
  - intros h fp [<- <-]%lookup_singleton_Some. split; [exact test_host_ok|apply fingerprint_ok].
  - intros h fp [<- <-]%lookup_singleton_Some. apply fingerprint_hex64.
  - rewrite H1. rewrite map_size_singleton. reflexivity.
Defined.
