(* ===== verification/Addr.v ===== *)
(** * Addresses from text

    [str::parse] of [SocketAddr], which copy.rs uses for the addresses of
    --multipath and route.rs for the address of the next relay.  The scope id of an
    IPv6 address is read and dropped: [SocketAddr] has none. *)

From Stdlib Require Import ZArith Lia Bool List String.
From Stdlib Require Import Strings.Byte.
From stdpp Require Import base list numbers option.
From S2P Require Import Prelude TestCrypto Identity Stun Net Text Json.

Open Scope Z_scope.

(** ** The parser *)

Definition read_given (c : byte) (l : list byte) : option (list byte) :=
  match l with
  | b :: l => if Byte.eqb b c then Some l else None
  | [] => None
  end.

(** [read_separator]: a separator before every item but the first. *)
Definition read_separator {A} (sep : byte) (index : nat) (inner : list byte -> option (A * list byte)) (l : list byte)
  : option (A * list byte) :=
  match index with
  | O => inner l
  | S _ => l ← read_given sep l; inner l
  end.

Definition to_digit (radix : Z) (b : byte) : option Z :=
  match hex_val b with
  | Some d => if d <? radix then Some d else None
  | None => None
  end.

(** The digits a text begins with. *)
Fixpoint take_digits (radix : Z) (l : list byte) : list Z * list byte :=
  match l with
  | b :: r => match to_digit radix b with
              | Some d => let '(ds, rest) := take_digits radix r in (d :: ds, rest)
              | None => ([], l)
              end
  | [] => ([], [])
  end.

(** [read_number] of a type with largest value [max]. *)
Definition read_number (radix max : Z) (max_digits : option nat) (allow_zero_prefix : bool) (l : list byte)
  : option (Z * list byte) :=
  let '(ds, rest) := take_digits radix l in
  let n := undigits radix 0 ds in
  if (length ds =? 0)%nat then None
  else if match max_digits with Some m => (m <? length ds)%nat | None => false end then None
  else if negb allow_zero_prefix && (1 <? length ds)%nat && (hd 1 ds =? 0) then None
  else if n <=? max then Some (n, rest) else None.

Fixpoint read_octets (n index : nat) (l : list byte) : option (list Z * list byte) :=
  match n with
  | O => Some ([], l)
  | S n =>
      '(o, l) ← read_separator DOT index (read_number 10 255 (Some 3%nat) false) l;
      '(os, l) ← read_octets n (S index) l;
      Some (o :: os, l)
  end.

Definition read_ipv4_addr (l : list byte) : option (Z * list byte) :=
  '(os, l) ← read_octets 4 0 l;
  Some (undigits 256 0 os, l).

(** [read_groups] into what is left of the groups: those read, whether they end in
    an embedded IPv4 address, and the rest. *)
Fixpoint read_groups (left index : nat) (l : list byte) : list Z * bool * list byte :=
  match left with
  | O => ([], false, l)
  | S left' =>
      match (if (0 <? left')%nat then read_separator COLON index read_ipv4_addr l else None) with
      | Some (ip, l) => ([ip / 2 ^ 16; ip mod 2 ^ 16], true, l)
      | None =>
          match read_separator COLON index (read_number 16 U16_MAX (Some 4%nat) true) l with
          | Some (g, l) => let '(gs, v4, l) := read_groups left' (S index) l in (g :: gs, v4, l)
          | None => ([], false, l)
          end
      end
  end.

Definition ipv6_bytes (groups : list Z) : list byte := List.flat_map (to_be 2) groups.

Definition read_ipv6_addr (l : list byte) : option (list byte * list byte) :=
  let '(head, head_ipv4, l) := read_groups 8 0 l in
  if (length head =? 8)%nat then Some (ipv6_bytes head, l)
  else if head_ipv4 then None
  else
    l ← read_given COLON l;
    l ← read_given COLON l;
    let '(tail, _, l) := read_groups (8 - (length head + 1)) 0 l in
    Some (ipv6_bytes (head ++ replicate (8 - length head - length tail) 0 ++ tail), l).

Definition read_port (l : list byte) : option (Z * list byte) :=
  l ← read_given COLON l; read_number 10 U16_MAX None true l.

(** The scope id, if there is one. *)
Definition skip_scope_id (l : list byte) : list byte :=
  match read_given x25 l ≫= read_number 10 (2 ^ 32 - 1) None true with
  | Some (_, rest) => rest
  | None => l
  end.

Definition read_socket_addr_v4 (l : list byte) : option (SocketAddr * list byte) :=
  '(ip, l) ← read_ipv4_addr l;
  '(port, l) ← read_port l;
  Some (AddrV4 ip port, l).

Definition read_socket_addr_v6 (l : list byte) : option (SocketAddr * list byte) :=
  l ← read_given x5b l;
  '(ip, l) ← read_ipv6_addr l;
  l ← read_given x5d (skip_scope_id l);
  '(port, l) ← read_port l;
  Some (AddrV6 ip port, l).

(** [SocketAddr::from_str]. *)
Definition parse_socket_addr (l : list byte) : option SocketAddr :=
  match (match read_socket_addr_v4 l with Some r => Some r | None => read_socket_addr_v6 l end) with
  | Some (a, []) => Some a
  | _ => None
  end.

(** copy.rs: the addresses of --multipath. *)
Definition parse_multipath_addrs (s : list byte) : (list SocketAddr) + string :=
  match mapM (fun part => parse_socket_addr (trim part)) (split x2c s) with
  | Some addrs => inl addrs
  | None => inr "invalid --multipath address"%string
  end.

(** * Properties *)

(** ** Numbers *)

Lemma to_digit_hex radix d : 0 <= d < radix -> radix <= 16 -> to_digit radix (hex_digit d) = Some d.
Proof.
  intros Hd Hr. unfold to_digit.
  assert (Hall : forallb (fun d => bool_decide (hex_val (hex_digit d) = Some d)) (map Z.of_nat (seq 0 16)) = true) by (vm_compute; reflexivity).
  rewrite forallb_forall in Hall. specialize (Hall d). rewrite bool_decide_eq_true in Hall. rewrite Hall.
  - by rewrite (proj2 (Z.ltb_lt d radix)) by lia.
  - apply in_map_iff. exists (Z.to_nat d). rewrite in_seq. lia.
Qed.

Lemma take_digits_hex radix ds rest : radix <= 16 -> Forall (fun d => 0 <= d < radix) ds ->
  match rest with b :: _ => to_digit radix b = None | [] => True end ->
  take_digits radix (map hex_digit ds ++ rest) = (ds, rest).
Proof.
  intros Hr Hds Hrest. induction Hds as [|d ds Hd _ IH]; cbn [map app take_digits].
  - destruct rest as [|b rest]; [done|]. cbn [take_digits]. by rewrite Hrest.
  - by rewrite to_digit_hex, IH.
Qed.

(** The canonical digits of a number do not begin with a zero, unless it is 0. *)
Lemma digits_fuel_head fuel b n : 1 < b -> 0 <= n < b ^ Z.of_nat fuel -> (0 < fuel)%nat ->
  (1 < length (digits_fuel fuel b n))%nat -> hd 1 (digits_fuel fuel b n) <> 0.
Proof.
  intros Hb. revert n. induction fuel as [|fuel IH]; intros n Hn Hf Hl; [lia|]. cbn [digits_fuel] in *.
  destruct (Z.ltb_spec n b) as [Hlt|Hge]; [cbn in Hl; lia|].
  assert (Hq : 0 < n / b) by (apply Z.div_str_pos; lia).
  assert (Hq2 : n / b < b ^ Z.of_nat fuel).
  { apply Z.div_lt_upper_bound; [lia|]. rewrite Nat2Z.inj_succ, Z.pow_succ_r in Hn by lia. lia. }
  destruct fuel as [|fuel]; [cbn in Hq2; lia|].
  destruct (digits_fuel (S fuel) b (n / b)) as [|d ds] eqn:E; [by apply digits_nonempty in E; [|lia]|].
  change (hd 1 ((d :: ds) ++ [n mod b])) with d. specialize (IH (n / b)). rewrite E in IH. destruct ds as [|d2 ds].
  - cbn [digits_fuel] in E. destruct (Z.ltb_spec (n / b) b); [injection E as <-; lia|].
    apply (f_equal length) in E. rewrite length_app in E. cbn in E.
    destruct (digits_fuel fuel b (n / b / b)) eqn:E2; [|cbn in E; lia]. destruct fuel; [|by apply digits_nonempty in E2; [|lia]].
    rewrite Z.pow_1_r in Hq2. lia.
  - apply IH; [lia|lia|cbn; lia].
Qed.

Lemma digits_length b n k : 1 < b -> 0 <= n < b ^ Z.of_nat k -> (0 < k <= 64)%nat -> (length (digits b n) <= k)%nat.
Proof.
  intros Hb. unfold digits. generalize 64%nat as fuel. intros fuel. revert n k.
  induction fuel as [|fuel IH]; intros n k Hn Hk; [lia|]. cbn [digits_fuel].
  destruct (Z.ltb_spec n b); [cbn; lia|]. rewrite length_app. cbn [length].
  destruct k as [|k]; [lia|]. destruct k as [|k]; [cbn in Hn; lia|].
  specialize (IH (n / b) (S k)). rewrite (Nat2Z.inj_succ (S k)), Z.pow_succ_r in Hn by lia.
  assert (0 <= n / b < b ^ Z.of_nat (S k)) by (split; [apply Z.div_pos; lia|apply Z.div_lt_upper_bound; lia]).
  specialize (IH ltac:(done) ltac:(lia)). lia.
Qed.

(** A number in canonical digits is read back, whatever non-digit follows. *)
Lemma read_number_digits radix max (m : option nat) z n rest :
  1 < radix <= 16 -> 0 <= n <= max -> n < radix ^ 64 ->
  match m with Some m => n < radix ^ Z.of_nat m /\ (0 < m <= 64)%nat | None => True end ->
  match rest with b :: _ => to_digit radix b = None | [] => True end ->
  read_number radix max m z (map hex_digit (digits radix n) ++ rest) = Some (n, rest).
Proof.
  intros Hr Hn H64 Hm Hrest. unfold read_number.
  rewrite take_digits_hex by (done || lia || (apply digits_fuel_range; lia)).
  rewrite digits_value by lia.
  assert (Hne : (length (digits radix n) =? 0)%nat = false).
  { apply Nat.eqb_neq. intros E%length_zero_iff_nil. by apply digits_nonempty in E; [|lia]. }
  rewrite Hne. cbv zeta. rewrite (proj2 (Z.leb_le n max)) by lia.
  assert (Hlen : match m with Some m => (m <? length (digits radix n))%nat | None => false end = false).
  { destruct m as [m|]; [|done]. destruct Hm as [Hm Hm2]. apply Nat.ltb_ge. apply digits_length; lia. }
  rewrite Hlen.
  assert (Hz : (1 <? length (digits radix n))%nat && (hd 1 (digits radix n) =? 0) = false).
  { apply not_true_is_false. intros [H1%Nat.ltb_lt H2%Z.eqb_eq]%andb_true_iff. revert H2. apply digits_fuel_head; (lia || done). }
  rewrite <- andb_assoc, Hz. by rewrite andb_false_r.
Qed.

Lemma read_dec max (m : option nat) z n rest :
  0 <= n <= max -> n < 10 ^ 64 ->
  match m with Some m => n < 10 ^ Z.of_nat m /\ (0 < m <= 64)%nat | None => True end ->
  match rest with b :: _ => to_digit 10 b = None | [] => True end ->
  read_number 10 max m z (dec n ++ rest) = Some (n, rest).
Proof. intros. by apply read_number_digits. Qed.

(** ** IPv4 *)

Lemma read_octet o rest : 0 <= o < 256 -> match rest with b :: _ => to_digit 10 b = None | [] => True end ->
  read_separator DOT 0 (read_number 10 255 (Some 3%nat) false) (dec o ++ rest) = Some (o, rest)
  /\ forall i, read_separator DOT (S i) (read_number 10 255 (Some 3%nat) false) (DOT :: dec o ++ rest) = Some (o, rest).
Proof.
  intros Ho Hr. assert (H : read_number 10 255 (Some 3%nat) false (dec o ++ rest) = Some (o, rest)).
  { apply read_dec; [lia|lia|split; [cbn; lia|lia]|done]. }
  split; [done|]. intros i. cbn [read_separator read_given]. by rewrite byte_eqb_refl.
Qed.

Lemma read_ipv4_text ip rest : is_u 32 ip -> match rest with b :: _ => to_digit 10 b = None | [] => True end ->
  read_ipv4_addr (ipv4_to_string ip ++ rest) = Some (ip, rest).
Proof.
  intros Hip Hr. unfold is_u in Hip. unfold read_ipv4_addr, ipv4_to_string, ipv4_octets. cbn [map join].
  set (a := ip / 2 ^ 24 mod 256). set (b := ip / 2 ^ 16 mod 256). set (c := ip / 2 ^ 8 mod 256). set (d := ip mod 256).
  assert (Hb : 0 <= a < 256 /\ 0 <= b < 256 /\ 0 <= c < 256 /\ 0 <= d < 256) by (subst a b c d; Z.to_euclidean_division_equations; lia).
  assert (Hip2 : undigits 256 0 [a; b; c; d] = ip).
  { cbn [undigits]. subst a b c d. change (2 ^ 24) with 16777216. change (2 ^ 16) with 65536. change (2 ^ 8) with 256.
    Z.to_euclidean_division_equations; lia. }
  rewrite <- !app_assoc. cbn [read_octets app].
  rewrite (proj1 (read_octet a (DOT :: _) ltac:(lia) (eq_refl _))). cbn [mbind option_bind].
  rewrite (proj2 (read_octet b (DOT :: _) ltac:(lia) (eq_refl _))). cbn [mbind option_bind].
  rewrite (proj2 (read_octet c (DOT :: _) ltac:(lia) (eq_refl _))). cbn [mbind option_bind].
  rewrite (proj2 (read_octet d _ ltac:(lia) Hr)). cbn [mbind option_bind]. by rewrite Hip2.
Qed.

(** An IPv4 address that is printed is parsed. *)
Lemma parse_v4_text ip port : is_u 32 ip -> is_u 16 port ->
  parse_socket_addr (addr_to_string (AddrV4 ip port)) = Some (AddrV4 ip port).
Proof.
  intros Hip Hp. unfold is_u in Hp. unfold parse_socket_addr, read_socket_addr_v4. cbn [addr_to_string].
  rewrite read_ipv4_text by (done || reflexivity). cbn [mbind option_bind app]. unfold read_port. cbn [read_given].
  rewrite byte_eqb_refl. cbn [mbind option_bind].
  rewrite <- (app_nil_r (dec port)), read_dec by (done || unfold U16_MAX; lia). done.
Qed.

(** ** Names are not addresses *)

Definition addr_byte (b : byte) : bool := Byte.eqb b DOT || Byte.eqb b COLON || match to_digit 10 b with Some _ => true | None => false end.

Lemma read_given_eats c l r : read_given c l = Some r -> l = c :: r.
Proof. destruct l as [|b l]; [done|]. cbn. destruct (Byte.eqb b c) eqn:E; [|done]. apply byte_eqb_eq in E as ->. by intros [= ->]. Qed.

Lemma take_digits_eats l : forall ds r, take_digits 10 l = (ds, r) -> exists p, l = p ++ r /\ forallb addr_byte p = true.
Proof.
  induction l as [|b l IH]; intros ds r; cbn [take_digits]; [intros [= <- <-]; by exists []|].
  destruct (to_digit 10 b) as [d|] eqn:E; [|intros [= <- <-]; by exists []].
  destruct (take_digits 10 l) as [ds' r'] eqn:Et. intros [= <- <-]. destruct (IH _ _ eq_refl) as (p & -> & Hp).
  exists (b :: p). split; [done|]. cbn [forallb]. unfold addr_byte at 1. by rewrite E, orb_true_r.
Qed.

Lemma read_number_eats max m z l n r : read_number 10 max m z l = Some (n, r) -> exists p, l = p ++ r /\ forallb addr_byte p = true.
Proof.
  unfold read_number. destruct (take_digits 10 l) as [ds r'] eqn:E. intros H. apply (take_digits_eats _ ds).
  repeat (case_match; simplify_eq/=); done.
Qed.

Lemma read_octets_eats n : forall index l os r, read_octets n index l = Some (os, r) -> exists p, l = p ++ r /\ forallb addr_byte p = true.
Proof.
  induction n as [|n IH]; intros index l os r; cbn [read_octets]; [intros [= <- <-]; by exists []|].
  destruct (read_separator DOT index _ l) as [[o l1]|] eqn:E; cbn [mbind option_bind]; [|done].
  destruct (read_octets n (S index) l1) as [[os1 r1]|] eqn:E2; cbn [mbind option_bind]; [|done]. intros [= <- <-].
  destruct (IH _ _ _ _ E2) as (p2 & -> & Hp2).
  assert (H1 : exists p, l = p ++ p2 ++ r1 /\ forallb addr_byte p = true).
  { destruct index as [|index]; cbn [read_separator] in E; [by apply read_number_eats in E|].
    destruct (read_given DOT l) as [l0|] eqn:Eg; cbn [mbind option_bind] in E; [|done]. apply read_given_eats in Eg as ->.
    apply read_number_eats in E as (p & -> & Hp). exists (DOT :: p). split; [done|]. by cbn [forallb]. }
  destruct H1 as (p & -> & Hp). exists (p ++ p2). rewrite forallb_app, Hp, Hp2. by rewrite app_assoc.
Qed.

(** What is parsed as an address begins with a bracket or has nothing but digits,
    dots and colons. *)
Lemma parsed_addr l a : parse_socket_addr l = Some a -> hd x00 l = x5b \/ forallb addr_byte l = true.
Proof.
  unfold parse_socket_addr. destruct (read_socket_addr_v4 l) as [[a4 r]|] eqn:E.
  - destruct r as [|]; [|done]. intros _. right. unfold read_socket_addr_v4, read_ipv4_addr in E.
    destruct (read_octets 4 0 l) as [[os l1]|] eqn:E1; cbn [mbind option_bind] in E; [|done].
    destruct (read_port l1) as [[port l2]|] eqn:E2; cbn [mbind option_bind] in E; [|done]. injection E as _ ->.
    unfold read_port in E2. destruct (read_given COLON l1) as [l3|] eqn:E3; cbn [mbind option_bind] in E2; [|done].
    apply read_given_eats in E3 as ->. apply read_number_eats in E2 as (p2 & -> & Hp2). rewrite app_nil_r in E1.
    apply read_octets_eats in E1 as (p & -> & Hp). rewrite forallb_app, Hp. by cbn [forallb].
  - unfold read_socket_addr_v6. destruct (read_given x5b l) as [l1|] eqn:E1; cbn [mbind option_bind]; [|done].
    apply read_given_eats in E1 as ->. by left.
Qed.

Example addr_of_v4 : parse_socket_addr (string_bytes "192.168.1.100:0") = Some (AddrV4 0xC0A80164 0).
Proof. vm_compute. reflexivity. Qed.

Example parse_v4_octal : parse_socket_addr (string_bytes "192.168.01.1:0") = None.
Proof. vm_compute. reflexivity. Qed.

Example parse_v6 : parse_socket_addr (string_bytes "[2001:db8::1]:8080")
  = Some (AddrV6 ([x20; x01; x0d; xb8] ++ replicate 11 x00 ++ [x01]) 8080).
Proof. vm_compute. reflexivity. Qed.

Example parse_v6_mapped : parse_socket_addr (string_bytes "[::ffff:10.0.0.1%3]:80")
  = Some (AddrV6 (replicate 10 x00 ++ [xff; xff; x0a; x00; x00; x01]) 80).
Proof. vm_compute. reflexivity. Qed.

Example parse_name : parse_socket_addr (string_bytes "relay.example.com:7000") = None.
Proof. vm_compute. reflexivity. Qed.
