(* ===== verification/Route.v ===== *)
(** * Routes over several hops

    route.rs: the request a client makes of each relay, what the relay does with it,
    the chain the client builds and the UDP proxy of a relay.  A relay's streams are
    a function from the bytes of a request to the bytes that come back; starting the
    program on the next host over SSH, binding the proxy's port and dialling are
    arguments. *)

From Stdlib Require Import ZArith Lia Bool List String.
From Stdlib Require Import Strings.Byte.
From stdpp Require Import base list numbers option.
From S2P Require Import Prelude TestCrypto Identity Stun Net Text AuditLog Specs Addr Shell.

Open Scope Z_scope.

Definition sbind {A B} (r : A + string) (k : A -> B + string) : B + string :=
  match r with inl a => k a | inr e => inr e end.

Definition read_n (n : nat) (s : list byte) : (list byte * list byte) + string :=
  match read_exact n s with
  | (Some l, s) => inl (l, s)
  | (None, _) => inr "unexpected end of stream"%string
  end.

(** A number of two bytes. *)
Definition read_u16 (s : list byte) : (Z * list byte) + string :=
  sbind (read_n 2 s) (fun '(buf, s) => inl (from_be buf, s)).

(** ** The request *)

Definition hop_request (hop : list byte) : list byte :=
  to_be 2 (wrap 16 (Z.of_nat (length hop))) ++ hop ++ to_be 2 0.

(** The part of [do_handle_hop_stream] that reads it: the next host. *)
Definition read_hop_request (s : list byte) : list byte + string :=
  sbind (read_u16 s) (fun '(host_len, s) =>
  if (host_len =? 0) || (512 <? host_len) then inr "invalid host_len"%string
  else sbind (read_n (Z.to_nat host_len) s) (fun '(host_bytes, s) =>
  match from_utf8 host_bytes with
  | None => inr "non-UTF8 host"%string
  | Some next_host => sbind (read_n 2 s) (fun _ => inl next_host)
  end)).

(** ** The relay *)

Section Hops.
Context {K : Kem}.

Definition hop_response (proxy_port : Z) (x25519 : list byte) (kem_pk : KemPublicKey) : list byte :=
  let kem_bytes := pk_to_bytes kem_pk in
  [x01] ++ to_be 2 proxy_port ++ to_be 2 (wrap 16 (Z.of_nat (length x25519))) ++ x25519
  ++ to_be 2 (wrap 16 (Z.of_nat (length kem_bytes))) ++ kem_bytes.

Section Relay.
(** The line that the program prints when it was started on the next host, and the
    port a proxy socket is bound to. *)
Context (start : RemoteInfo -> list byte + string) (bind : RemoteInfo -> option Z).

(** [do_handle_hop_stream]: the response, and the address the proxy forwards to. *)
Definition do_handle_hop_stream (s : list byte) : (list byte * SocketAddr) + string :=
  sbind (read_hop_request s) (fun next_host =>
  let '(user, host) := parse_userhost next_host in
  let remote := mkRemoteInfo host user None in
  sbind (start remote) (fun line =>
  sbind (parse_seam_line line) (fun '(next_port, x25519, kem_pk) =>
  match parse_socket_addr (host ++ [COLON] ++ dec next_port) with
  | None => inr "invalid socket address syntax"%string
  | Some next_addr =>
      match bind remote with
      | None => inr "bind proxy socket"%string
      | Some proxy_port => inl (hop_response proxy_port x25519 kem_pk, next_addr)
      end
  end))).

(** [handle_hop_stream]: what is written, and the proxy that runs from now on. *)
Definition handle_hop_stream (s : list byte) : list byte * option SocketAddr :=
  match do_handle_hop_stream s with
  | inl (resp, next_addr) => (resp, Some next_addr)
  | inr _ => ([x00], None)
  end.

End Relay.

(** ** The client *)

(** The response, as it is read from a relay on the way and from the last one, where
    the lengths are not checked. *)
Definition read_hop_response (checked : bool) (s : list byte) : (Z * list byte * KemPublicKey) + string :=
  sbind (read_n 1 s) (fun '(status, s) =>
  if negb (bytes_eqb status [x01]) then inr "relay failed to forward"%string
  else sbind (read_u16 s) (fun '(proxy_port, s) =>
  sbind (read_u16 s) (fun '(x25519_len, s) =>
  if checked && negb (x25519_len =? 32) then inr "relay returned invalid X25519 key length"%string
  else sbind (read_n (Z.to_nat x25519_len) s) (fun '(x25519, s) =>
  if negb (length x25519 =? 32)%nat then inr "relay returned invalid X25519 key"%string
  else sbind (read_u16 s) (fun '(kem_len, s) =>
  if checked && (2048 <? kem_len) then inr "relay returned oversized KEM key"%string
  else sbind (read_n (Z.to_nat kem_len) s) (fun '(kem_bytes, s) =>
  match pk_from_bytes kem_bytes with
  | None => inr "relay returned invalid KEM public key"%string
  | Some kem_pk => inl (proxy_port, x25519, kem_pk)
  end)))))).

(** A stream of the connection to a relay: what comes back for what is written. *)
Definition Mux : Type := list byte -> list byte.

Section Client.
(** Dialling: the connection, if there is one, for a host, a port and the keys. *)
Context (dial : list byte -> Z -> list byte -> KemPublicKey -> option Mux).

(** One hop: the request, the response and the connection through the proxy; with
    the address that was dialled. *)
Definition next_hop (checked : bool) (mux : Mux) (current_host hop : list byte) : (Mux * (list byte * Z)) + string :=
  sbind (read_hop_response checked (mux (hop_request hop))) (fun '(proxy_port, x25519, kem_pk) =>
  match dial current_host proxy_port x25519 kem_pk with
  | None => inr "connect"%string
  | Some mux => inl (mux, (current_host, proxy_port))
  end).

(** The loop over the further relays. *)
Fixpoint chain (mux : Mux) (current_host : list byte) (hops : list (list byte)) : (Mux * list byte * list (list byte * Z)) + string :=
  match hops with
  | [] => inl (mux, current_host, [])
  | hop :: hops =>
      sbind (next_hop true mux current_host hop) (fun '(mux, dialled) =>
      sbind (chain mux (parse_userhost hop).2 hops) (fun '(mux, host, ds) => inl (mux, host, dialled :: ds)))
  end.

Definition dest_hop (dest : list byte) : list byte :=
  let '(user, host) := parse_userhost dest in target (mkRemoteInfo host user None).

(** How [run] ends: the route alone, or a command on the connection to the
    destination. *)
Inductive RouteEnd : Type :=
  | Established
  | RunsShellOver (mux : Mux) (args : list (list byte))
  | PipesOver (mux : Mux).

(** [run]: [bootstrap] is the connection to the first relay, over SSH.  With it the
    addresses that were dialled after it. *)
Definition route (bootstrap : RemoteInfo -> option Mux) (via : list (list byte)) (dest : list byte) (ssh_port : option Z)
  (subcmd : list (list byte)) : (RouteEnd * list (list byte * Z)) + string :=
  match via with
  | [] => inr "--via must be specified at least once"%string
  | first_hop :: hops =>
      let '(user, host) := parse_userhost first_hop in
      match bootstrap (mkRemoteInfo host user ssh_port) with
      | None => inr "bootstrap"%string
      | Some first_mux =>
          sbind (chain first_mux host hops) (fun '(mux, current_host, ds) =>
          sbind (next_hop false mux current_host (dest_hop dest)) (fun '(dest_mux, d) =>
          match subcmd with
          | [] => inl (Established, ds ++ [d])
          | name :: remaining =>
              if bytes_eqb name (string_bytes "shell") || bytes_eqb name (string_bytes "sh") then inl (RunsShellOver dest_mux remaining, ds ++ [d])
              else if bytes_eqb name (string_bytes "pipe") then inl (PipesOver dest_mux, ds ++ [d])
              else inr "subcommand is not supported through multi-hop routes"%string
          end))
      end
  end.

End Client.
End Hops.

(** ** The UDP proxy *)

Inductive ProxyEvent : Type :=
  | ProxyPacket (from : SocketAddr) (data : list byte)
  | ProxyError
  | ProxyIdle.

(** [udp_proxy_with_timeout]: what is sent, and the client at the end. *)
Fixpoint udp_proxy (next_relay : SocketAddr) (client_addr : option SocketAddr) (evs : list ProxyEvent)
  : list (SocketAddr * list byte) * option SocketAddr :=
  match evs with
  | ProxyPacket from data :: evs =>
      if bool_decide (from = next_relay) then
        let '(out, client) := udp_proxy next_relay client_addr evs in
        (match client_addr with Some ca => (ca, data) :: out | None => out end, client)
      else
        let '(out, client) := udp_proxy next_relay (Some from) evs in ((next_relay, data) :: out, client)
  | _ => ([], client_addr)
  end.

(** * Properties *)

(** ** Requests and responses *)

Lemma read_n_app n l s : length l = n -> read_n n (l ++ s) = inl (l, s).
Proof. intros H. unfold read_n. by rewrite read_exact_len. Qed.

Lemma read_u16_be v s : is_u 16 v -> read_u16 (to_be 2 v ++ s) = inl (v, s).
Proof.
  intros Hv. unfold read_u16. rewrite read_n_app by apply length_to_be. cbn [sbind].
  rewrite from_be_to_be_small; [done|exact Hv].
Qed.

Lemma target_parse_userhost s : let '(user, host) := parse_userhost s in target (mkRemoteInfo host user None) = s.
Proof.
  unfold parse_userhost. destruct (split_once AT s) as [[u h]|] eqn:E; [|done]. cbn. by apply split_once_Some in E as [-> _].
Qed.

Lemma dest_hop_id dest : dest_hop dest = dest.
Proof. pose proof (target_parse_userhost dest) as H. unfold dest_hop. by destruct (parse_userhost dest). Qed.

Definition hop_ok (hop : list byte) : Prop := utf8_valid hop = true /\ (1 <= length hop <= 512)%nat.

(** The request gives the relay the hop, if it is not empty and not too long. *)
Lemma hop_request_read hop : Z.of_nat (length hop) < 2 ^ 16 -> utf8_valid hop = true ->
  read_hop_request (hop_request hop) = (if ((1 <=? length hop) && (length hop <=? 512))%nat then inl hop else inr "invalid host_len"%string).
Proof.
  intros Hl Hv. unfold read_hop_request, hop_request. rewrite wrap_small by (split; lia).
  rewrite read_u16_be by (split; lia). cbn [sbind].
  destruct ((1 <=? length hop) && (length hop <=? 512))%nat eqn:E.
  - apply andb_true_iff in E as [E1%Nat.leb_le E2%Nat.leb_le].
    rewrite (proj2 (Z.eqb_neq _ 0)), (proj2 (Z.ltb_ge 512 _)) by lia. cbn [orb].
    rewrite Nat2Z.id, read_n_app by done. cbn [sbind]. unfold from_utf8. rewrite Hv. reflexivity.
  - assert (Hc : (Z.of_nat (length hop) =? 0) || (512 <? Z.of_nat (length hop)) = true); [|by rewrite Hc].
    apply andb_false_iff in E as [E%Nat.leb_gt|E%Nat.leb_gt]; apply orb_true_iff; [left; apply Z.eqb_eq|right; apply Z.ltb_lt]; lia.
Qed.

Section Exchange.
Context {K : Kem} {KL : KemLaws K}.

Lemma hop_response_read checked q x (k : KemPublicKey) : is_u 16 q -> length x = 32%nat ->
  read_hop_response checked (hop_response q x k) = inl (q, x, k).
Proof.
  intros Hq Hx. unfold read_hop_response, hop_response. cbv zeta.
  assert (Hkl : length (pk_to_bytes k) = 1184%nat) by apply kem_pk_len.
  rewrite read_n_app by done. cbn [sbind]. change (negb (bytes_eqb [x01] [x01])) with false. cbn iota.
  rewrite read_u16_be by done. cbn [sbind]. rewrite Hx, Hkl.
  change (wrap 16 (Z.of_nat 32)) with 32. rewrite read_u16_be by (unfold is_u; lia). cbn [sbind].
  change (negb (32 =? 32)) with false. rewrite andb_false_r. cbn iota.
  rewrite read_n_app by done. cbn [sbind]. rewrite Hx. change (negb (32 =? 32)%nat) with false. cbn iota.
  change (wrap 16 (Z.of_nat 1184)) with 1184. rewrite read_u16_be by (unfold is_u; lia). cbn [sbind].
  change (2048 <? 1184) with false. rewrite andb_false_r. cbn iota.
  rewrite <- (app_nil_r (pk_to_bytes k)), read_n_app by done. cbn [sbind]. by rewrite pk_from_to_bytes.
Qed.

Lemma refusal_read checked : exists e, read_hop_response checked [x00] = inr e.
Proof. by eexists. Qed.

(** The key of an announcement has its length. *)
Lemma set_part_key part (acc acc' : option Z * option (list byte) * option KemPublicKey) :
  (forall x, acc.1.2 = Some x -> length x = 32%nat) -> set_part part acc = inl acc' -> forall x, acc'.1.2 = Some x -> length x = 32%nat.
Proof.
  destruct acc as [[p x0] k]. cbn [fst snd]. intros Ha H x Hx. unfold set_part in H.
  destruct (strip_prefix (string_bytes "PORT=") part) as [v|].
  { destruct (parse_uint U16_MAX v); [|done]. injection H as <-. by apply Ha. }
  destruct (strip_prefix (string_bytes "X25519=") part) as [v|].
  { destruct (hex_decode v) as [b|]; [|done]. unfold to_hash in H. destruct (length b =? 32)%nat eqn:E; [|done].
    injection H as <-. injection Hx as <-. by apply Nat.eqb_eq. }
  destruct (strip_prefix (string_bytes "KEM=") part) as [v|]; [|injection H as <-; by apply Ha].
  destruct (hex_decode v) as [b|]; [|done]. destruct (pk_from_bytes b); [|done]. injection H as <-. by apply Ha.
Qed.

Lemma set_parts_key parts : forall (acc acc' : option Z * option (list byte) * option KemPublicKey),
  (forall x, acc.1.2 = Some x -> length x = 32%nat) -> set_parts parts acc = inl acc' -> forall x, acc'.1.2 = Some x -> length x = 32%nat.
Proof.
  induction parts as [|part parts IH]; intros acc acc' Ha; cbn [set_parts]; [by intros [= <-]|].
  destruct (set_part part acc) as [acc1|] eqn:E; [|done]. apply IH. by apply (set_part_key part acc).
Qed.

Lemma seam_line_key line p x (k : KemPublicKey) : parse_seam_line line = inl (p, x, k) -> length x = 32%nat.
Proof.
  unfold parse_seam_line. destruct (set_parts _ _) as [[[p1 x1] k1]|] eqn:E; [|done].
  destruct p1; [|done]. destruct x1 as [x1|]; [|done]. destruct k1; [|done]. intros [= <- <- <-].
  eapply set_parts_key; [|exact E|done]. done.
Qed.

(** ** One hop *)

Section Relays.
Context (start : RemoteInfo -> list byte + string) (bind : RemoteInfo -> option Z).

Definition remote_of (hop : list byte) : RemoteInfo := let '(user, host) := parse_userhost hop in mkRemoteInfo host user None.

(** What a relay needs to take a client on to a hop: the announcement, an address and
    a proxy socket. *)
Definition reachable (hop : list byte) (q : Z) (x : list byte) (k : KemPublicKey) (next : SocketAddr) : Prop :=
  exists line p, start (remote_of hop) = inl line /\ parse_seam_line line = inl (p, x, k)
    /\ parse_socket_addr ((parse_userhost hop).2 ++ [COLON] ++ dec p) = Some next /\ bind (remote_of hop) = Some q.

Lemma hop_granted hop q x (k : KemPublicKey) next : hop_ok hop -> reachable hop q x k next ->
  handle_hop_stream start bind (hop_request hop) = (hop_response q x k, Some next).
Proof.
  intros [Hv Hl] (line & p & Hs & Hp & Ha & Hb). unfold handle_hop_stream, do_handle_hop_stream.
  rewrite hop_request_read by (done || lia). rewrite (proj2 (andb_true_iff _ _)) by (split; apply Nat.leb_le; lia). cbn [sbind].
  unfold remote_of in *. destruct (parse_userhost hop) as [user host]. cbn [snd] in Ha.
  rewrite Hs. cbn [sbind]. rewrite Hp. cbn [sbind]. by rewrite Ha, Hb.
Qed.

(** A hop that is not an address is refused, whatever happens over SSH: only digits,
    dots and colons, or a bracket, can begin one. *)
Lemma name_refused hop : Z.of_nat (length hop) < 2 ^ 16 -> utf8_valid hop = true ->
  hd x00 (parse_userhost hop).2 <> x5b -> forallb addr_byte (parse_userhost hop).2 = false ->
  handle_hop_stream start bind (hop_request hop) = ([x00], None).
Proof.
  intros Hl Hv Hb Hn. unfold handle_hop_stream, do_handle_hop_stream. rewrite hop_request_read by done.
  destruct (_ && _); [|done]. cbn [sbind]. destruct (parse_userhost hop) as [user host]. cbn [snd] in *.
  destruct (start _) as [line|]; [|done]. cbn [sbind]. destruct (parse_seam_line line) as [[[p x] k]|]; [|done]. cbn [sbind].
  destruct (parse_socket_addr _) as [a|] eqn:E; [|done]. apply parsed_addr in E as [E|E].
  - destruct host as [|b host]; [by cbn in Hn|]. by cbn in E.
  - rewrite forallb_app, Hn in E. done.
Qed.

(** The frames of a shell are no requests: a destination that runs the relay's program
    answers a shell with the byte of a failure. *)
Lemma shell_refused (t : byte) (s : list byte) : t ∈ [SHELL_STDIN; SHELL_STDIN_EOF; SHELL_RESIZE; SHELL_TERM] ->
  handle_hop_stream start bind (t :: s) = ([x00], None).
Proof.
  intros Ht. unfold handle_hop_stream, do_handle_hop_stream, read_hop_request, read_u16, read_n.
  destruct s as [|b s]; [done|]. change (read_exact 2 (t :: b :: s)) with (Some [t; b], s). cbn [sbind].
  assert (Hl : (512 <? from_be [t; b]) = true).
  { apply Z.ltb_lt. pose proof (byte_bounds b). unfold from_be. cbn [rev app from_le].
    rewrite !elem_of_cons in Ht. destruct Ht as [->|[->|[->|[->|Ht%elem_of_nil]]]]; [..|done]; change (byte_val SHELL_STDIN) with 16;
      change (byte_val SHELL_STDIN_EOF) with 17; change (byte_val SHELL_RESIZE) with 18; change (byte_val SHELL_TERM) with 19; lia. }
  by rewrite Hl, orb_true_r.
Qed.

End Relays.
End Exchange.

(** ** The chain *)

Lemma last_default {A} (l : list A) : forall a d, List.last (a :: l) d = List.last l a.
Proof. induction l as [|b l IH]; intros a d; [done|]. change (List.last (b :: l) d = List.last (b :: l) a). by rewrite !IH. Qed.

Lemma combine_snoc {A B} (l : list A) : forall (m : list B) (d : A) b, length l = S (length m) ->
  combine l m ++ [(List.last l d, b)] = combine l (m ++ [b]).
Proof.
  induction l as [|a l IH]; intros m d b Hl; [done|]. destruct m as [|c m].
  - destruct l; [done|cbn in Hl; lia].
  - cbn [combine app]. f_equal. cbn in Hl. rewrite last_default. apply IH. lia.
Qed.

Section World.
Context {K : Kem} {KL : KemLaws K}.
(** What each host gets over SSH and binds, and what the client reaches. *)
Context (start : list byte -> RemoteInfo -> list byte + string) (bind : list byte -> RemoteInfo -> option Z).
Context (dial : list byte -> Z -> list byte -> KemPublicKey -> option Mux).

Definition host_of (hop : list byte) : list byte := (parse_userhost hop).2.

(** The relay's program on a host. *)
Definition relay_at (host : list byte) : Mux := fun s => (handle_hop_stream (start host) (bind host) s).1.

(** The relay on a host takes the client on to a hop, through a proxy on a port. *)
Definition leads (host hop : list byte) (q : Z) : Prop :=
  hop_ok hop /\ is_u 16 q
  /\ exists x (k : KemPublicKey) next, reachable (start host) (bind host) hop q x k next /\ dial host q x k = Some (relay_at (host_of hop)).

Fixpoint leads_all (host : list byte) (hops : list (list byte)) (qs : list Z) : Prop :=
  match hops, qs with
  | [], [] => True
  | hop :: hops, q :: qs => leads host hop q /\ leads_all (host_of hop) hops qs
  | _, _ => False
  end.

Lemma next_hop_leads checked host hop q : leads host hop q ->
  next_hop dial checked (relay_at host) host hop = inl (relay_at (host_of hop), (host, q)).
Proof.
  intros (Hok & Hq & x & k & next & Hr & Hd). unfold next_hop, relay_at at 1.
  rewrite (hop_granted _ _ hop q x k next) by done. cbn [fst].
  assert (Hx : length x = 32%nat) by (destruct Hr as (line & p & _ & Hp & _); by apply (seam_line_key line p x k)).
  rewrite hop_response_read by done. cbn [sbind]. by rewrite Hd.
Qed.

Lemma chain_leads hops : forall host qs last q, leads_all host (hops ++ [last]) (qs ++ [q]) ->
  exists host', chain dial (relay_at host) host hops = inl (relay_at host', host', combine (host :: map host_of hops) qs)
    /\ host' = List.last (map host_of hops) host /\ leads host' last q /\ length qs = length hops.
Proof.
  induction hops as [|hop hops IH]; intros host qs last q Hl.
  - destruct qs as [|q1 qs]; cbn in Hl; [|by destruct Hl as [_ Hl], qs]. exists host. destruct Hl as [Hl _]. done.
  - destruct qs as [|q1 qs]; cbn [app leads_all] in Hl; [by destruct Hl as [_ Hl], hops|]. destruct Hl as [H1 Hl].
    destruct (IH _ _ _ _ Hl) as (host' & Hc & Hh & Hlast & Hlen). exists host'. cbn [chain].
    rewrite (next_hop_leads true host hop q1) by done. cbn [sbind]. fold (host_of hop). rewrite Hc. cbn [sbind].
    split_and!; [done| |done|cbn; lia]. rewrite Hh. cbn [map]. by rewrite last_default.
Qed.

Definition supported (subcmd : list (list byte)) : bool :=
  match subcmd with
  | [] => true
  | name :: _ => existsb (bytes_eqb name) [string_bytes "shell"; string_bytes "sh"; string_bytes "pipe"]
  end.

(** What a route runs over a connection. *)
Definition runs_over (mux : Mux) (subcmd : list (list byte)) : RouteEnd :=
  match subcmd with
  | [] => Established
  | name :: args => if bytes_eqb name (string_bytes "pipe") then PipesOver mux else RunsShellOver mux args
  end.

(** A route is built, and what it is.  If each relay can take the client on to the
    next host, every one given by address, the route is established; each of its
    connections was dialled straight to the host of the relay before it, so that none
    passes through more than one relay; and the destination runs the relay's program,
    which answers every frame of a shell with the byte of a failure. *)
Theorem route_reaches (bootstrap : RemoteInfo -> option Mux) (first : list byte) (hops : list (list byte)) (dest : list byte) (ssh_port : option Z)
    (subcmd : list (list byte)) (qs : list Z) (q : Z) :
  bootstrap (mkRemoteInfo (host_of first) (parse_userhost first).1 ssh_port) = Some (relay_at (host_of first)) ->
  leads_all (host_of first) (hops ++ [dest]) (qs ++ [q]) -> supported subcmd = true ->
  route dial bootstrap (first :: hops) dest ssh_port subcmd
    = inl (runs_over (relay_at (host_of dest)) subcmd, combine (map host_of (first :: hops)) (qs ++ [q]))
  /\ forall t s, t ∈ [SHELL_STDIN; SHELL_STDIN_EOF; SHELL_RESIZE; SHELL_TERM] -> relay_at (host_of dest) (t :: s) = [x00].
Proof.
  intros Hb Hl Hs. split.
  2:{ intros t s Ht. unfold relay_at. by rewrite shell_refused. }
  destruct (chain_leads _ _ _ _ _ Hl) as (host' & Hc & Hh & Hlast & Hlen).
  unfold route. unfold host_of in Hb at 1. destruct (parse_userhost first) as [user host] eqn:Ef. cbn [fst snd] in Hb.
  rewrite Hb. assert (Hf : host_of first = host) by (unfold host_of; by rewrite Ef). rewrite Hf in *.
  rewrite Hc. cbn [sbind]. rewrite dest_hop_id, (next_hop_leads false host' dest q) by done. cbn [sbind].
  assert (Hds : combine (host :: map host_of hops) qs ++ [(host', q)] = combine (map host_of (first :: hops)) (qs ++ [q])).
  { cbn [map]. rewrite Hf, Hh. rewrite <- (combine_snoc (host :: map host_of hops) qs host q) by (cbn; rewrite length_map; lia). by rewrite last_default. }
  rewrite Hds. destruct subcmd as [|name args]; [done|]. cbn [supported existsb] in Hs. unfold runs_over.
  destruct (bytes_eqb name (string_bytes "shell")) eqn:E1; [apply bytes_eqb_eq in E1 as ->; done|].
  destruct (bytes_eqb name (string_bytes "sh")) eqn:E2; [apply bytes_eqb_eq in E2 as ->; done|].
  cbn [orb] in *. by destruct (bytes_eqb name (string_bytes "pipe")).
Qed.

(** Host names never route: a hop whose host is neither digits, dots and colons
    nor a bracketed address is refused by every relay, even if its program was started
    there, and the route fails. *)
Theorem names_never_route (checked : bool) (host hop : list byte) :
  Z.of_nat (length hop) < 2 ^ 16 -> utf8_valid hop = true -> hd x00 (host_of hop) <> x5b -> forallb addr_byte (host_of hop) = false ->
  next_hop dial checked (relay_at host) host hop = inr "relay failed to forward"%string.
Proof. intros Hl Hv Hb Hn. unfold next_hop, relay_at. by rewrite name_refused. Qed.

End World.

(** ** The proxy *)

Definition packets_from (a : SocketAddr) (evs : list ProxyEvent) : list (list byte) :=
  omap (fun ev => match ev with ProxyPacket from data => if bool_decide (from = a) then Some data else None | _ => None end) evs.

Definition sent_to (a : SocketAddr) (out : list (SocketAddr * list byte)) : list (list byte) :=
  omap (fun p => if bool_decide (p.1 = a) then Some p.2 else None) out.

(** The proxy relays: as long as only the client and the next relay send to it,
    each gets exactly the packets of the other, in order and unchanged, and nobody
    else gets any. *)
Theorem proxy_relays (next client : SocketAddr) (evs : list ProxyEvent) : client <> next ->
  Forall (fun ev => exists from data, ev = ProxyPacket from data /\ (from = client \/ from = next)) evs ->
  let '(out, last) := udp_proxy next (Some client) evs in
  last = Some client /\ sent_to next out = packets_from client evs /\ sent_to client out = packets_from next evs
  /\ Forall (fun p => p.1 = client \/ p.1 = next) out.
Proof.
  intros Hne Hevs. pose proof (bool_decide_eq_true_2 (client = client) eq_refl) as Ec. pose proof (bool_decide_eq_true_2 (next = next) eq_refl) as En.
  pose proof (bool_decide_eq_false_2 (client = next) Hne) as Ecn. pose proof (bool_decide_eq_false_2 (next = client) (not_eq_sym Hne)) as Enc.
  induction Hevs as [|ev evs (from & data & -> & Hf) _ IH]; [done|]. cbn [udp_proxy].
  destruct Hf as [-> | ->].
  - rewrite bool_decide_eq_false_2 by done. destruct (udp_proxy next (Some client) evs) as [out last].
    destruct IH as (-> & H1 & H2 & H3). unfold sent_to, packets_from in *. cbn.
    rewrite Ec, En, Ecn, Enc, H1, H2.
    split_and!; [done..|]. constructor; [by right|done].
  - rewrite bool_decide_eq_true_2 by done. destruct (udp_proxy next (Some client) evs) as [out last].
    destruct IH as (-> & H1 & H2 & H3). unfold sent_to, packets_from in *. cbn.
    rewrite Ec, En, Ecn, Enc, H1, H2.
    split_and!; [done..|]. constructor; [by left|done].
Qed.

(** Anybody else who sends a packet becomes the client: the next relay's packets go
    there from then on. *)
Lemma proxy_taken_over (next client other : SocketAddr) (a b : list byte) : other <> next ->
  udp_proxy next (Some client) [ProxyPacket other a; ProxyPacket next b] = ([(next, a); (other, b)], Some other).
Proof. intros Ho. cbn. rewrite bool_decide_eq_false_2 by done. by rewrite bool_decide_eq_true_2. Qed.

(** Packets of the next relay are dropped until a client has sent one. *)
Lemma proxy_before_client (next : SocketAddr) (data : list byte) evs :
  udp_proxy next None (ProxyPacket next data :: evs) = udp_proxy next None evs.
Proof. cbn. rewrite bool_decide_eq_true_2 by done. by destruct (udp_proxy next None evs). Qed.

(** ** Witnesses *)

Definition test_start (relay : list byte) (remote : RemoteInfo) : list byte + string :=
  inl (seam_line 7000 (repeat x07 32) (kem_public (kem_from_seed []))).

Definition test_bind (relay : list byte) (remote : RemoteInfo) : option Z := Some 4000.

Definition test_dial (host : list byte) (port : Z) (x25519 : list byte) (kem_pk : KemPublicKey) : option Mux :=
  Some (relay_at test_start test_bind host).

Lemma test_leads host hop : hop_ok hop -> is_Some (parse_socket_addr (host_of hop ++ [COLON] ++ dec 7000)) ->
  leads test_start test_bind test_dial host hop 4000.
Proof.
  intros Hok [next Hn]. split; [exact Hok|]. split; [unfold is_u; lia|].
  exists (repeat x07 32), (kem_public (kem_from_seed [])), next. split; [|reflexivity].
  eexists. exists 7000. split; [reflexivity|]. split; [vm_compute; reflexivity|]. split; [exact Hn|reflexivity].
Qed.

Lemma route_reaches_witness :
  route test_dial (fun _ => Some (relay_at test_start test_bind (string_bytes "relay1"))) [string_bytes "relay1"; string_bytes "root@10.0.0.2"]
    (string_bytes "10.0.0.3") None [string_bytes "shell"]
  = inl (RunsShellOver (relay_at test_start test_bind (string_bytes "10.0.0.3")) [],
         [(string_bytes "relay1", 4000); (string_bytes "10.0.0.2", 4000)])
  /\ relay_at test_start test_bind (string_bytes "10.0.0.3") (term_frame (string_bytes "xterm")) = [x00].
Proof.
  destruct (route_reaches test_start test_bind test_dial (fun _ => Some (relay_at test_start test_bind (string_bytes "relay1")))
    (string_bytes "relay1") [string_bytes "root@10.0.0.2"] (string_bytes "10.0.0.3") None [string_bytes "shell"] [4000] 4000) as [H1 H2].
  - reflexivity.
  - split; [|split; [|exact I]]; apply test_leads; (split; [reflexivity|cbn; lia]) || (vm_compute; eexists; reflexivity).
  - reflexivity.
  - split; [exact H1|]. apply (H2 SHELL_TERM). repeat constructor.
Defined.

Lemma names_never_route_witness :
  next_hop test_dial true (relay_at test_start test_bind []) [] (string_bytes "relay2.example.com") = inr "relay failed to forward"%string.
Proof. apply (names_never_route test_start test_bind test_dial); (reflexivity || discriminate || (vm_compute; done)). Defined.

Lemma proxy_relays_witness :
  sent_to (AddrV4 1 1) (udp_proxy (AddrV4 2 2) (Some (AddrV4 1 1)) [ProxyPacket (AddrV4 2 2) [x07]; ProxyPacket (AddrV4 1 1) [x08]]).1 = [[x07]].
Proof.
  assert (Hf : Forall (fun ev => exists from data, ev = ProxyPacket from data /\ (from = AddrV4 1 1 \/ from = AddrV4 2 2))
    [ProxyPacket (AddrV4 2 2) [x07]; ProxyPacket (AddrV4 1 1) [x08]]).
  { apply List.Forall_cons; [do 2 eexists; split; [reflexivity|by right]|]. apply List.Forall_cons; [do 2 eexists; split; [reflexivity|by left]|].
    apply List.Forall_nil. }
  pose proof (proxy_relays (AddrV4 2 2) (AddrV4 1 1) _ ltac:(discriminate) Hf) as H.
  destruct (udp_proxy _ _ _) as [out last]. destruct H as (_ & _ & H & _). exact H.
Defined.
