(* ===== verification/Watch.v ===== *)
(** * Watching a directory

    watch.rs: the map of changed files that the watcher's thread fills, the loop that
    sends what has been stable for the debounce time over the persistent connection,
    and what it does when that fails.  A change of the directory and its event are
    separate steps; a batch is read and sent as one round of Transfer.v. *)

From Stdlib Require Import ZArith Lia Bool List String.
From Stdlib Require Import Strings.Byte.
From stdpp Require Import base list numbers option gmap relations.
From S2P Require Import Prelude TestCrypto Text Proc Transfer.

Open Scope Z_scope.

(** The directory, the receiver's files, the events the watcher has not seen yet, the
    pending map with its instants, and whether there is a connection. *)
Record Watching : Type := mkWatching {
  local : Files;
  remote : Files;
  events : list (list byte);
  pending : gmap (list byte) Z;
  session : bool
}.

(** The watcher's thread, for the next path of an event. *)
Definition on_event (now : Z) (s : Watching) : Watching :=
  match events s with
  | [] => s
  | path :: evs =>
      let pending := match local s !! path with
                     | Some _ => <[path := now]> (pending s)
                     | None => pending s
                     end in
      mkWatching (local s) (remote s) evs pending (session s)
  end.

(** The files that have been stable for the debounce time, in the order the map yields
    its entries. *)
Definition stable (debounce now : Z) (entries : list (list byte * Z)) : list (list byte) :=
  map fst (List.filter (fun e => debounce <=? duration_since now e.2) entries).

Definition remove_all (ready : list (list byte)) (m : gmap (list byte) Z) : gmap (list byte) Z :=
  fold_left (fun m p => delete p m) ready m.

(** The names of those that still exist. *)
Definition batch (local : Files) (ready : list (list byte)) : list (list byte) :=
  map from_utf8_lossy (List.filter (fun rel => match local !! rel with Some _ => true | None => false end) ready).

(** How connecting, if there is no connection, and pushing go. *)
Inductive Pushed : Type :=
  | ReconnectFails
  | PushFails (remote : Files)
  | PushDone (remote : Files).

(** One turn of the sync loop. *)
Definition sync_turn (debounce now : Z) (entries : list (list byte * Z)) (outcome : Pushed) (s : Watching) : Watching :=
  let ready := stable debounce now entries in
  let pending := remove_all ready (pending s) in
  match ready with
  | [] => s
  | _ =>
      match batch (local s) ready with
      | [] => mkWatching (local s) (remote s) (events s) pending (session s)
      | _ =>
          match outcome with
          | ReconnectFails => mkWatching (local s) (remote s) (events s) pending false
          | PushFails r => mkWatching (local s) r (events s) pending false
          | PushDone r => mkWatching (local s) r (events s) pending true
          end
      end
  end.

Section Watch.
Context {F : FileHash} {ZS : Zstd}.
Context (compress fips : bool) (debounce : Z).

(** A round of the persistent connection, with the receiver in a loop of rounds. *)
Definition round (files : list (list byte)) (fsS fsR r : Files) : Prop :=
  exists fuel, (fuel_for fsS files <= fuel)%nat /\
    runs (mkSys (push_files files compress false fips fsS) (receiver no_parallel fuel fips fsR) [] [])
         (mkSys (PRet (fsS, inl tt)) (PRet (r, inl tt)) [] []).

Definition outcome_ok (files : list (list byte)) (outcome : Pushed) (s : Watching) : Prop :=
  match outcome with
  | ReconnectFails => session s = false
  | PushFails _ => True
  | PushDone r => round files (local s) (remote s) r
  end.

(** The steps; [names] are the paths that are written. *)
Inductive watch_step (names : list byte -> Prop) : Watching -> Watching -> Prop :=
  | ws_write path content s : names path -> Z.of_nat (length content) < 2 ^ 64 ->
      watch_step names s (mkWatching (<[path := content]> (local s)) (remote s) (events s ++ [path]) (pending s) (session s))
  | ws_delete path s : names path ->
      watch_step names s (mkWatching (delete path (local s)) (remote s) (events s ++ [path]) (pending s) (session s))
  | ws_event now s : watch_step names s (on_event now s)
  | ws_turn now entries r s : entries ≡ₚ map_to_list (pending s) ->
      outcome_ok (batch (local s) (stable debounce now entries)) (PushDone r) s ->
      watch_step names s (sync_turn debounce now entries (PushDone r) s).

(** Events and turns that push, while nothing in the directory changes. *)
Inductive quiet_step : Watching -> Watching -> Prop :=
  | qs_event now s : quiet_step s (on_event now s)
  | qs_turn now entries r s : entries ≡ₚ map_to_list (pending s) ->
      outcome_ok (batch (local s) (stable debounce now entries)) (PushDone r) s ->
      quiet_step s (sync_turn debounce now entries (PushDone r) s).

(** Turns and events alone, whatever the turns' outcome. *)
Inductive idle_step : Watching -> Watching -> Prop :=
  | is_event now s : idle_step s (on_event now s)
  | is_turn now entries outcome s : entries ≡ₚ map_to_list (pending s) ->
      outcome_ok (batch (local s) (stable debounce now entries)) outcome s ->
      idle_step s (sync_turn debounce now entries outcome s).

End Watch.

(** * Properties *)

Lemma remove_all_lookup ready : forall m p, remove_all ready m !! p = if decide (p ∈ ready) then None else m !! p.
Proof.
  induction ready as [|r ready IH]; intros m p; cbn [remove_all fold_left].
  { by rewrite decide_False by apply not_elem_of_nil. }
  fold (remove_all ready (delete r m)). rewrite IH. destruct (decide (p ∈ ready)) as [H|H].
  - by rewrite decide_True by (by right).
  - destruct (decide (p = r)) as [->|Hne]; [by rewrite decide_True, lookup_delete_eq by (by left)|].
    rewrite decide_False by (by rewrite elem_of_cons; intros [|]). by rewrite lookup_delete_ne.
Qed.

Lemma elem_stable debounce now entries p :
  p ∈ stable debounce now entries <-> exists t, (p, t) ∈ entries /\ debounce <= duration_since now t.
Proof.
  unfold stable. rewrite list_elem_of_In, in_map_iff. setoid_rewrite filter_In. setoid_rewrite Z.leb_le. split.
  - intros ([q t] & <- & Hin & Ht). exists t. by rewrite list_elem_of_In.
  - intros (t & Hin & Ht). exists (p, t). by rewrite <- list_elem_of_In.
Qed.

Section Props.
Context {F : FileHash} {FL : FileHashLaws F} {ZS : Zstd} {ZL : ZstdLaws ZS}.
Context (compress fips : bool) (debounce : Z).
(** The paths of the directory: names the receiver takes, none of them the partial
    file of another. *)
Context (names : list byte -> Prop).
Context (names_ok : forall p, names p -> name_ok p).
Context (names_partial : forall p q, names p -> names q -> p <> partial_path q None).

Record wf (s : Watching) : Prop := {
  wf_local p c : names p -> local s !! p = Some c -> Z.of_nat (length c) < 2 ^ 64;
  wf_events p : p ∈ events s -> names p;
  wf_pending p t : pending s !! p = Some t -> names p;
  wf_remote p : names p -> remote s !! partial_path p None = None
}.

(** A file that is not yet with the receiver is known to the watcher. *)
Definition synced (s : Watching) (p : list byte) : Prop :=
  forall c, local s !! p = Some c -> remote s !! p = Some c \/ is_Some (pending s !! p) \/ p ∈ events s.

Lemma stable_names now entries s p : wf s -> entries ≡ₚ map_to_list (pending s) -> p ∈ stable debounce now entries -> names p.
Proof.
  intros Hw He (t & Hin & _)%elem_stable. rewrite He in Hin. apply elem_of_map_to_list in Hin. by apply (wf_pending s Hw p t).
Qed.

Lemma names_utf8 p : names p -> utf8_valid p = true.
Proof. intros Hp. by destruct (names_ok p Hp). Qed.

Lemma elem_batch s ready p : (forall q, q ∈ ready -> names q) ->
  p ∈ batch (local s) ready <-> p ∈ ready /\ is_Some (local s !! p).
Proof.
  intros Hn. unfold batch. rewrite list_elem_of_In, in_map_iff. setoid_rewrite filter_In. split.
  - intros (q & <- & Hin & Hl). apply list_elem_of_In in Hin. rewrite lossy_valid by (by apply names_utf8, Hn).
    split; [done|]. by destruct (local s !! q).
  - intros [Hin [c Hc]]. exists p. rewrite lossy_valid by (by apply names_utf8, Hn). rewrite <- list_elem_of_In. by rewrite Hc.
Qed.

Lemma batch_sendable s ready : wf s -> (forall q, q ∈ ready -> names q) -> Forall (sendable (local s)) (batch (local s) ready).
Proof.
  intros Hw Hn. apply List.Forall_forall. intros p Hp%list_elem_of_In. apply elem_batch in Hp as [Hr [c Hc]]; [|done].
  split; [by apply names_ok, Hn|]. exists c. split; [done|]. apply (wf_local s Hw p); auto.
Qed.

(** A round always ends, with the batch delivered and nothing else. *)
Lemma round_runs s ready : wf s -> (forall q, q ∈ ready -> names q) ->
  round compress fips (batch (local s) ready) (local s) (remote s) (deliver (local s) (remote s) (batch (local s) ready)).
Proof.
  intros Hw Hn. exists (fuel_for (local s) (batch (local s) ready)). split; [done|]. apply push_round; [by apply batch_sendable| | |done].
  - intros p [Hp _]%elem_batch; [|done]. apply (wf_remote s Hw). by apply Hn.
  - intros p q [Hp _]%elem_batch [Hq _]%elem_batch; [|done..]. apply names_partial; by apply Hn.
Qed.

Lemma round_delivers s ready r : wf s -> (forall q, q ∈ ready -> names q) ->
  round compress fips (batch (local s) ready) (local s) (remote s) r -> r = deliver (local s) (remote s) (batch (local s) ready).
Proof.
  intros Hw Hn (fuel & Hf & Hr).
  assert (Hd : runs (mkSys (push_files (batch (local s) ready) compress false fips (local s)) (receiver no_parallel fuel fips (remote s)) [] [])
    (mkSys (PRet (local s, inl tt)) (PRet (deliver (local s) (remote s) (batch (local s) ready), inl tt)) [] [])).
  { apply push_round; [by apply batch_sendable| | |done].
    - intros p [Hp _]%elem_batch; [|done]. apply (wf_remote s Hw). by apply Hn.
    - intros p q [Hp _]%elem_batch [Hq _]%elem_batch; [|done..]. apply names_partial; by apply Hn. }
  pose proof (runs_deterministic _ _ _ Hr (halted_done _ _ _ _) Hd (halted_done _ _ _ _)) as E. by injection E.
Qed.

(** What a turn with a finished round changes. *)
Lemma turn_done now entries r s : wf s -> entries ≡ₚ map_to_list (pending s) ->
  round compress fips (batch (local s) (stable debounce now entries)) (local s) (remote s) r ->
  let s' := sync_turn debounce now entries (PushDone r) s in
  let ready := stable debounce now entries in
  local s' = local s /\ events s' = events s
  /\ (forall p, pending s' !! p = if decide (p ∈ ready) then None else pending s !! p)
  /\ (forall p, remote s' !! p = if decide (p ∈ batch (local s) ready) then local s !! p else remote s !! p).
Proof.
  intros Hw He Hr. cbv zeta. set (ready := stable debounce now entries) in *.
  assert (Hn : forall q, q ∈ ready -> names q) by (intros q; by apply (stable_names now entries s)).
  apply round_delivers in Hr; [|done..].
  assert (Hrem : forall p, r !! p = if decide (p ∈ batch (local s) ready) then local s !! p else remote s !! p).
  { intros p. rewrite Hr. apply deliver_lookup. by apply batch_sendable. }
  unfold sync_turn. fold ready. destruct ready as [|p0 ready'] eqn:Er.
  { split_and!; [done..| |]; intros p; by rewrite decide_False by apply not_elem_of_nil. }
  rewrite <- Er in *. destruct (batch (local s) ready) as [|b bs] eqn:Eb.
  - split_and!; [done..| |]; cbn [pending remote]; intros p; [apply remove_all_lookup|by rewrite decide_False by apply not_elem_of_nil].
  - split_and!; [done..| |]; cbn [pending remote]; intros p; [apply remove_all_lookup|apply Hrem].
Qed.

Lemma on_event_facts now s : let s' := on_event now s in
  local s' = local s /\ remote s' = remote s
  /\ (forall p, p ∈ events s' -> p ∈ events s)
  /\ (forall p t, pending s' !! p = Some t -> pending s !! p = Some t \/ p ∈ events s)
  /\ (forall p, is_Some (local s !! p) -> is_Some (pending s !! p) \/ p ∈ events s -> is_Some (pending s' !! p) \/ p ∈ events s').
Proof.
  cbv zeta. unfold on_event. destruct (events s) as [|path evs] eqn:Ee; [rewrite Ee; split_and!; auto|].
  cbn [local remote events pending]. split_and!; [done..| | |].
  - intros p Hp. by right.
  - intros p t. destruct (local s !! path); [|by left]. intros [[<- _]|[_ H]]%lookup_insert_Some; [right; by left|by left].
  - intros p [c Hc] [Hp|Hp%elem_of_cons].
    + left. destruct (local s !! path); [|done]. destruct (decide (path = p)) as [->|]; [rewrite lookup_insert_eq; by eexists|by rewrite lookup_insert_ne].
    + destruct Hp as [->|Hp]; [|by right]. left. rewrite Hc, lookup_insert_eq. by eexists.
Qed.

Lemma wf_step s s' : wf s -> watch_step compress fips debounce names s s' -> wf s'.
Proof.
  intros Hw Hs. destruct Hs as [path content s Hp Hc|path s Hp|now s|now entries r s He Hr].
  - split; cbn [local remote events pending]; [|intros p [Hi|Hi%list_elem_of_singleton]%elem_of_app| |]; try (by apply Hw); [|by subst].
    intros p c Hn [[<- <-]|[_ H]]%lookup_insert_Some; [done|by apply (wf_local s Hw p)].
  - split; cbn [local remote events pending]; [|intros p [Hi|Hi%list_elem_of_singleton]%elem_of_app| |]; try (by apply Hw); [|by subst].
    intros p c Hn [_ H]%lookup_delete_Some. by apply (wf_local s Hw p).
  - destruct (on_event_facts now s) as (El & Er & He & Hp & _). split.
    + rewrite El. apply (wf_local s Hw).
    + intros p Hi. by apply (wf_events s Hw), He.
    + intros p t [H|H]%Hp; [by apply (wf_pending s Hw p t)|by apply (wf_events s Hw)].
    + rewrite Er. apply (wf_remote s Hw).
  - destruct (turn_done now entries r s Hw He Hr) as (El & Ee & Hp & Hrem). split.
    + rewrite El. apply (wf_local s Hw).
    + rewrite Ee. apply (wf_events s Hw).
    + intros p t. rewrite Hp. destruct (decide _); [done|]. apply (wf_pending s Hw).
    + intros p Hn. rewrite Hrem, decide_False; [by apply (wf_remote s Hw)|].
      intros [Hi _]%elem_batch; [|intros q; by apply (stable_names now entries s)].
      apply (stable_names now entries s) in Hi; [|done..]. by apply (names_partial _ p Hi Hn).
Qed.

Lemma synced_step s s' p : wf s -> watch_step compress fips debounce names s s' -> synced s p -> synced s' p.
Proof.
  intros Hw Hs Hsy. destruct Hs as [path content s Hp Hc|path s Hp|now s|now entries r s He Hr]; intros c; cbn [local remote events pending].
  - rewrite elem_of_app. intros [[<- <-]|[_ H]]%lookup_insert_Some; [right; right; right; by left|].
    destruct (Hsy c H) as [?|[?|?]]; auto.
  - rewrite elem_of_app. intros [_ H]%lookup_delete_Some. destruct (Hsy c H) as [?|[?|?]]; auto.
  - destruct (on_event_facts now s) as (El & Er & _ & _ & Hk). rewrite El, Er. intros H.
    destruct (Hsy c H) as [?|Hi]; [by left|]. right. apply Hk; [by eexists|done].
  - destruct (turn_done now entries r s Hw He Hr) as (El & Ee & Hp & Hrem). rewrite El, Ee, Hp, Hrem. intros H.
    assert (Hb : p ∈ stable debounce now entries -> p ∈ batch (local s) (stable debounce now entries)).
    { intros Hi. apply elem_batch; [intros q; by apply (stable_names now entries s)|]. split; [done|by eexists]. }
    destruct (decide (p ∈ batch _ _)); [by left|]. destruct (decide (p ∈ stable _ _ _)); [by exfalso; auto|]. by apply Hsy.
Qed.

(** What was written is known to the watcher. *)
Lemma written_synced path content s :
  synced (mkWatching (<[path := content]> (local s)) (remote s) (events s ++ [path]) (pending s) (session s)) path.
Proof. intros c _. right. right. apply elem_of_app. right. by left. Qed.

Definition steps : Watching -> Watching -> Prop := rtc (watch_step compress fips debounce names).

Lemma wf_steps s s' : steps s s' -> wf s -> wf s' /\ forall p, synced s p -> synced s' p.
Proof.
  induction 1 as [s|s s1 s' H1 _ IH]; intros Hw; [done|]. destruct (IH (wf_step s s1 Hw H1)) as [Hw' Hs]. split; [done|].
  intros p Hp. by apply Hs, (synced_step s s1).
Qed.

Lemma quiet_watch s s' : quiet_step compress fips debounce s s' -> watch_step compress fips debounce names s s'.
Proof. destruct 1; [apply ws_event|by apply ws_turn]. Qed.

Lemma quiet_steps s s' : rtc (quiet_step compress fips debounce) s s' -> wf s -> steps s s' /\ local s' = local s.
Proof.
  induction 1 as [s|s s1 s' H1 _ IH]; intros Hw; [split; [apply rtc_refl|done]|].
  pose proof (quiet_watch s s1 H1) as Hs. destruct (IH (wf_step s s1 Hw Hs)) as [H2 Hl].
  split; [by eapply rtc_l|]. rewrite Hl. destruct H1 as [now s|now entries r s He Hr].
  - by destruct (on_event_facts now s) as [-> _].
  - by destruct (turn_done now entries r s Hw He Hr) as [-> _].
Qed.

(** The watcher's thread catches up. *)
Lemma events_drain n : forall s, length (events s) = n ->
  exists s1, rtc (quiet_step compress fips debounce) s s1 /\ events s1 = [].
Proof.
  induction n as [|n IH]; intros s Hl.
  - exists s. split; [apply rtc_refl|]. by apply length_zero_iff_nil in Hl.
  - destruct (IH (on_event 0 s)) as (s1 & Hs & He).
    { unfold on_event. destruct (events s); [done|]. cbn in *. lia. }
    exists s1. split; [|done]. eapply rtc_l; [apply qs_event|exact Hs].
Qed.

Lemma all_stable (entries : list (list byte * Z)) : exists now, forall p t, (p, t) ∈ entries -> debounce <= duration_since now t.
Proof.
  exists (debounce + foldr (fun e m => Z.max e.2 m) 0 entries). intros p t Hin.
  assert (H : t <= foldr (fun e m => Z.max e.2 m) 0 entries).
  { induction entries as [|e entries IH]; [by apply not_elem_of_nil in Hin|]. apply elem_of_cons in Hin as [<-|Hin]; cbn; [lia|].
    specialize (IH Hin). lia. }
  unfold duration_since, saturating_sub. lia.
Qed.

(** A turn that finds every change stable, with no event left, ends with the
    receiver up to date. *)
Lemma last_turn now entries r s p c : wf s -> events s = [] -> entries ≡ₚ map_to_list (pending s) ->
  (forall q t, pending s !! q = Some t -> debounce <= duration_since now t) ->
  round compress fips (batch (local s) (stable debounce now entries)) (local s) (remote s) r ->
  synced s p -> local s !! p = Some c -> remote (sync_turn debounce now entries (PushDone r) s) !! p = Some c.
Proof.
  intros Hw He Hen Hst Hr Hsy Hc. destruct (turn_done now entries r s Hw Hen Hr) as (_ & _ & _ & Hrem).
  rewrite Hrem. destruct (decide (p ∈ batch _ _)) as [|Hnb]; [done|].
  destruct (Hsy c Hc) as [H|[[t Ht]|H]]; [done| |].
  - exfalso. apply Hnb, elem_batch; [intros q; by apply (stable_names now entries s)|]. split; [|by eexists].
    apply elem_stable. exists t. rewrite Hen. split; [by apply elem_of_map_to_list|by apply (Hst p)].
  - rewrite He in H. by apply not_elem_of_nil in H.
Qed.

(** C37: Watching loses nothing while pushes succeed.  However writes, deletions, events
    and turns of the sync loop interleave: once the directory stays as it is, the
    loop can go on, by events and turns alone, to a state where no event is left
    and every change is old enough, and any turn from any such state leaves the
    receiver with the current contents of every file of the directory, unless the file
    was there at the start with contents the receiver did not have and no event or
    pending entry of the watcher told of it. *)
Theorem watch_loses_nothing (s0 s : Watching) : wf s0 -> steps s0 s ->
  let quiet := rtc (quiet_step compress fips debounce) in
  (exists s1 now r, quiet s s1 /\ events s1 = []
     /\ (forall q t, pending s1 !! q = Some t -> debounce <= duration_since now t)
     /\ round compress fips (batch (local s1) (stable debounce now (map_to_list (pending s1)))) (local s1) (remote s1) r)
  /\ (forall s1 now entries r, quiet s s1 -> events s1 = [] -> entries ≡ₚ map_to_list (pending s1) ->
       (forall q t, pending s1 !! q = Some t -> debounce <= duration_since now t) ->
       round compress fips (batch (local s1) (stable debounce now entries)) (local s1) (remote s1) r ->
       forall p c, synced s0 p -> local s !! p = Some c ->
         remote (sync_turn debounce now entries (PushDone r) s1) !! p = Some c).
Proof.
  intros Hw0 H0 quiet. destruct (wf_steps s0 s H0 Hw0) as [Hw Hsy]. split.
  - destruct (events_drain _ s eq_refl) as (s1 & H1 & He). destruct (quiet_steps s s1 H1 Hw) as [H1' Hl].
    destruct (wf_steps s s1 H1' Hw) as [Hw1 _]. destruct (all_stable (map_to_list (pending s1))) as [now Hnow].
    exists s1, now. eexists. split_and!; [done|done| |].
    + intros q t Hq. apply (Hnow q). by apply elem_of_map_to_list.
    + apply round_runs; [done|]. intros q. by apply (stable_names now (map_to_list (pending s1)) s1).
  - intros s1 now entries r H1 He Hen Hst Hr p c Hs0 Hc. destruct (quiet_steps s s1 H1 Hw) as [H1' Hl].
    destruct (wf_steps s s1 H1' Hw) as [Hw1 Hsy1]. apply last_turn; try done; [by apply Hsy1, Hsy|by rewrite Hl].
Qed.

End Props.

(** ** Failures *)

Section Failures.
Context {F : FileHash} {ZS : Zstd}.
Context (compress fips : bool) (debounce : Z).

Lemma turn_nothing now entries outcome s : entries ≡ₚ map_to_list (pending s) -> pending s = ∅ -> sync_turn debounce now entries outcome s = s.
Proof. intros He Hp. rewrite Hp, map_to_list_empty in He. apply Permutation_nil_r in He as ->. done. Qed.

Lemma idle_nothing s s' : rtc (idle_step compress fips debounce) s s' -> events s = [] -> pending s = ∅ -> s' = s.
Proof.
  induction 1 as [s|s s1 s' H1 _ IH]; intros He Hp; [done|]. assert (E : s1 = s).
  { destruct H1 as [now s|now entries outcome s Hen _]; [unfold on_event; by rewrite He|by apply turn_nothing]. }
  subst s1. by apply IH.
Qed.

(** A batch that fails is lost.  If the turn that takes the last pending files fails
    to connect or to push, the receiver is left as the failure left it: no later turn
    sends them again, however often it runs and whether it could connect, until they
    change. *)
Theorem failed_batch_lost (now : Z) (entries : list (list byte * Z)) (outcome : Pushed) (s s' : Watching) :
  events s = [] -> entries ≡ₚ map_to_list (pending s) ->
  (forall p t, pending s !! p = Some t -> debounce <= duration_since now t) ->
  (forall r, outcome <> PushDone r) -> batch (local s) (stable debounce now entries) <> [] ->
  rtc (idle_step compress fips debounce) (sync_turn debounce now entries outcome s) s' ->
  remote s' = match outcome with PushFails r => r | _ => remote s end /\ session s' = false.
Proof.
  intros He Hen Hst Hout Hb Hrun. set (s1 := sync_turn debounce now entries outcome s) in *.
  assert (H1 : events s1 = [] /\ pending s1 = ∅ /\ remote s1 = match outcome with PushFails r => r | _ => remote s end /\ session s1 = false).
  { assert (Hall : remove_all (stable debounce now entries) (pending s) = ∅).
    { apply map_eq. intros p. rewrite remove_all_lookup, lookup_empty. destruct (decide _) as [|Hn]; [done|].
      destruct (pending s !! p) as [t|] eqn:Ep; [|done]. exfalso. apply Hn, elem_stable. exists t. split; [|by apply (Hst p)].
      rewrite Hen. by apply elem_of_map_to_list. }
    subst s1. unfold sync_turn. destruct (stable debounce now entries) as [|p0 ready] eqn:Es; [done|]. rewrite <- Es in *.
    destruct (batch (local s) (stable debounce now entries)) as [|b bs] eqn:Eb; [done|]. rewrite Hall.
    destruct outcome as [|r|r]; [done|done|]. by destruct (Hout r). }
  destruct H1 as (H1 & H2 & H3 & H4). by rewrite (idle_nothing _ _ Hrun H1 H2).
Qed.

End Failures.

(** ** Witnesses *)

Definition test_watching : Watching := mkWatching test_files ∅ [test_name] ∅ true.

Lemma watch_loses_nothing_witness :
  exists s1 now r, local s1 = test_files
    /\ remote (sync_turn 100 now (map_to_list (pending s1)) (PushDone r) s1) !! test_name = Some test_content.
Proof.
  assert (Hw : wf (fun p => p = test_name) test_watching).
  { split; cbn [test_watching local remote events pending].
    - intros p c -> Hc. vm_compute in Hc. injection Hc as <-. cbn. lia.
    - intros p Hp. by apply list_elem_of_singleton in Hp.
    - intros p t Hp. by rewrite lookup_empty in Hp.
    - intros p _. apply lookup_empty. }
  assert (Hn : forall p, p = test_name -> name_ok p) by (intros p ->; exact test_name_ok).
  assert (Hp : forall p q, p = test_name -> q = test_name -> p <> partial_path q None)
    by (intros p q -> ->; vm_compute; discriminate).
  destruct (watch_loses_nothing false false 100 (fun p => p = test_name) Hn Hp test_watching test_watching Hw)
    as [(s1 & now & r & Hq & He & Hst & Hr) Hall].
  - apply rtc_refl.
  - exists s1, now, r. split; [by apply (quiet_steps false false 100 _ Hn Hp test_watching s1 Hq Hw)|].
    apply (Hall s1 now (map_to_list (pending s1)) r Hq He (Permutation_refl _) Hst Hr test_name test_content); [|reflexivity].
    intros c _. right. right. by apply list_elem_of_singleton.
Defined.

Definition test_unsent : Watching := mkWatching test_files ∅ [] {[test_name := 0]} false.

Lemma failed_batch_lost_witness :
  forall s', rtc (idle_step false false 100) (sync_turn 100 200 [(test_name, 0)] ReconnectFails test_unsent) s' -> remote s' = ∅.
Proof.
  intros s' Hs. apply (failed_batch_lost false false 100 200 [(test_name, 0)] ReconnectFails test_unsent s').
  - reflexivity.
  - cbn [test_unsent pending]. by rewrite map_to_list_singleton.
  - cbn [test_unsent pending]. intros p t [<- <-]%lookup_singleton_Some. vm_compute. discriminate.
  - discriminate.
  - vm_compute. discriminate.
  - exact Hs.
Defined.
