(* ===== verification/Health.v ===== *)
(** * Health checks, pings and measurements

    health.rs: reading the daemon's information under a cap, the checks and their
    verdict; ping.rs: the ping loop, its counters and the echo; stats.rs: the loop that
    counts bytes.  What the peer does is a list of what each read or ping came to.  The
    details of a check are only printed and left out. *)

From Stdlib Require Import ZArith Lia Bool List String.
From Stdlib Require Import Strings.Byte.
From stdpp Require Import base list numbers option.
From S2P Require Import Prelude TestCrypto Text Json Serve.

Open Scope Z_scope.

(** ** Reading the information *)

Definition MAX_INFO_RESPONSE_BYTES : Z := 1024 * 1024.

(** A read: bytes, or the end of the stream or an error. *)
Inductive InfoRead : Type := IoData (d : list byte) | IoEnd.

Inductive InfoReadOutcome : Type :=
  | InfoComplete (buf : list byte)
  | InfoOversized
  | InfoTimedOut.

(** [read_info_response]: the reads that come before the timeout. *)
Fixpoint read_info_loop (cap : Z) (buf : list byte) (reads : list InfoRead) : InfoReadOutcome :=
  match reads with
  | [] => InfoTimedOut
  | IoEnd :: _ => InfoComplete buf
  | IoData [] :: _ => InfoComplete buf
  | IoData d :: reads =>
      if cap <? Z.of_nat (length buf) + Z.of_nat (length d) then InfoOversized
      else read_info_loop cap (buf ++ d) reads
  end.

Definition read_info_response (cap : Z) (reads : list InfoRead) : InfoReadOutcome := read_info_loop cap [] reads.

(** ** The checks *)

Inductive CheckStatus : Type := Pass | Warn | Failed.

Record CheckResult : Type := mkCheckResult { cr_name : string; cr_status : CheckStatus }.

Definition is_fail (s : CheckStatus) : bool := match s with Failed => true | _ => false end.
Definition is_warn (s : CheckStatus) : bool := match s with Warn => true | _ => false end.
Definition symbol (s : CheckStatus) : string := match s with Pass => "PASS" | Warn => "WARN" | Failed => "FAIL" end.

Definition key_check (peer_pk : option (list byte)) : CheckResult :=
  mkCheckResult "key-fingerprint" (match peer_pk with Some _ => Pass | None => Warn end).

Section Checks.
Context {J : SerdeJson}.

(** [info["version"].as_str().unwrap_or("unknown")] *)
Definition server_version (info : Json) : list byte :=
  default (string_bytes "unknown") (json_get (string_bytes "version") info ≫= as_str).

Definition version_check (local_version : list byte) (outcome : InfoReadOutcome) : CheckResult :=
  mkCheckResult "version"
    match outcome with
    | InfoComplete info_buf =>
        match from_str info_buf with
        | Some info => if bytes_eqb (server_version info) local_version then Pass else Warn
        | None => Warn
        end
    | InfoOversized | InfoTimedOut => Failed
    end.

(** What a ping came to: nothing could be written, so many bytes came back, or none in
    time. *)
Inductive Echo : Type := SendFails | Echoed (b : list byte) | NoEcho.

(** The message of a ping. *)
Definition ping_message (seq : Z) : list byte := SVC_PING :: to_be 4 seq.

(** The loop of pings: how many came back and how many did not; [echo] is what ping
    [i] came to. *)
Fixpoint ping_loop (echo : Z -> Echo) (n : nat) (i : Z) (rtts failed : nat) : nat * nat :=
  match n with
  | O => (rtts, failed)
  | S n =>
      match echo i with
      | Echoed b => if bytes_eqb b (to_be 4 i) then ping_loop echo n (i + 1) (S rtts) failed else ping_loop echo n (i + 1) rtts (S failed)
      | _ => ping_loop echo n (i + 1) rtts (S failed)
      end
  end.

Definition rtt_check (ping_count : nat) (echo : Z -> Echo) : CheckResult :=
  let '(rtts, ping_failed) := ping_loop echo (Nat.min ping_count 20) 0 0 0 in
  mkCheckResult "rtt" (if (rtts =? 0)%nat then Failed else if (0 <? ping_failed)%nat then Warn else Pass).

(** [run], once connected: the results, the verdict and the exit code. *)
Definition health (peer_pk : option (list byte)) (local_version : list byte) (reads : list InfoRead) (ping_count : nat) (echo : Z -> Echo)
  : list CheckResult * string * Z :=
  let results := [mkCheckResult "connection" Pass; key_check peer_pk;
                  version_check local_version (read_info_response MAX_INFO_RESPONSE_BYTES reads); rtt_check ping_count echo] in
  let any_fail := existsb (fun r => is_fail (cr_status r)) results in
  let any_warn := existsb (fun r => is_warn (cr_status r)) results in
  (results, if any_fail then "FAIL" else if any_warn then "WARN" else "PASS", if any_fail then 1 else 0)%string.

(** serve.rs: the information of the daemon. *)
Definition server_info (version : list byte) (pty : bool) : list (list byte * Json) :=
  [(string_bytes "version", JStr version);
   (string_bytes "transport", JStr (string_bytes "Noise_XX + ML-KEM-768"));
   (string_bytes "cipher", JStr (string_bytes "negotiated per-connection"));
   (string_bytes "services", JArr (map (fun s => JStr (string_bytes s)) ["shell"; "forward"; "info"; "ping"]%string));
   (string_bytes "pty", JBool pty)].

End Checks.

(** ** ping.rs *)

Record PingStats : Type := mkPingStats { rtts : list Z; lost : Z; sent : Z }.

Definition PingStats_default : PingStats := mkPingStats [] 0 0.

(** One ping, and the time it took. *)
Definition ping_once (seq : Z) (echo : Echo) (rtt : Z) (s : PingStats) : PingStats :=
  match echo with
  | SendFails | NoEcho => mkPingStats (rtts s) (wrapping_add 32 (lost s) 1) (wrapping_add 32 (sent s) 1)
  | Echoed reply =>
      if bytes_eqb reply (to_be 4 seq)
      then mkPingStats (rtts s ++ [rtt]) (lost s) (wrapping_add 32 (sent s) 1)
      else mkPingStats (rtts s) (wrapping_add 32 (lost s) 1) (wrapping_add 32 (sent s) 1)
  end.

(** The loop: it goes on for ever if [count] is 0; with the statistics whether it
    ended before the pings that are given did. *)
Fixpoint ping_run (count seq : Z) (pings : list (Echo * Z)) (s : PingStats) : PingStats * bool :=
  match pings with
  | [] => (s, false)
  | (echo, rtt) :: pings =>
      let s := ping_once seq echo rtt s in
      let seq := wrapping_add 32 seq 1 in
      if (0 <? count) && (count <=? seq) then (s, true) else ping_run count seq pings s
  end.

(** [run_recv]: what is written back on a stream. *)
Definition ping_recv (s : list byte) : list byte := default [] (read_exact 4 s).1.


(** ** stats.rs *)

Definition DIR_DOWNLOAD : byte := x01.
Definition DIR_UPLOAD : byte := x02.
Definition UL_BUF : Z := 64 * 1024.

Inductive StatsEvent : Type :=
  | DlRead (n : Z)
  | DlEnd
  | UlWritten
  | UlFails
  | Deadline.

(** The loop: the bytes received and sent; a branch that is done is not polled. *)
Fixpoint measure (dl_done ul_done : bool) (recv sent : Z) (evs : list StatsEvent) : option (Z * Z) :=
  if dl_done && ul_done then Some (recv, sent)
  else
    match evs with
    | [] => None
    | Deadline :: _ => Some (recv, sent)
    | DlRead n :: evs => if dl_done then measure dl_done ul_done recv sent evs
                         else if n =? 0 then measure true ul_done recv sent evs
                         else measure dl_done ul_done (wrapping_add 64 recv n) sent evs
    | DlEnd :: evs => measure true ul_done recv sent evs
    | UlWritten :: evs => if ul_done then measure dl_done ul_done recv sent evs else measure dl_done ul_done recv (wrapping_add 64 sent UL_BUF) evs
    | UlFails :: evs => measure dl_done true recv sent evs
    end.

(** The receiver, by the first byte of a stream. *)
Inductive StatsService : Type := SendsZeros | Drains | Nothing.

Definition stats_service (s : list byte) : StatsService :=
  match s with
  | [] => Nothing
  | dir :: _ => if Byte.eqb dir DIR_DOWNLOAD then SendsZeros else if Byte.eqb dir DIR_UPLOAD then Drains else Nothing
  end.

(** * Properties *)

(** ** Reading *)

Definition total (chunks : list (list byte)) : Z := Z.of_nat (length (concat chunks)).

Lemma total_cons d chunks : total (d :: chunks) = Z.of_nat (length d) + total chunks.
Proof. unfold total. cbn [concat]. rewrite length_app. lia. Qed.

(** The cap, for any cutting of the bytes. *)
Lemma info_capped (cap : Z) (chunks : list (list byte)) : Forall (fun d => d <> []) chunks ->
  read_info_response cap (map IoData chunks ++ [IoEnd]) = (if total chunks <=? Z.max 0 cap then InfoComplete (concat chunks) else InfoOversized)
  /\ read_info_response cap (map IoData chunks) = (if total chunks <=? Z.max 0 cap then InfoTimedOut else InfoOversized).
Proof.
  intros Hne.
  assert (H : forall last buf, (forall b, read_info_loop cap b last = match last with [] => InfoTimedOut | _ => InfoComplete b end) ->
    Z.of_nat (length buf) <= Z.max 0 cap ->
    read_info_loop cap buf (map IoData chunks ++ last)
    = (if Z.of_nat (length buf) + total chunks <=? Z.max 0 cap
       then match last with [] => InfoTimedOut | _ => InfoComplete (buf ++ concat chunks) end else InfoOversized)).
  { intros last. induction Hne as [|d chunks Hd _ IH]; intros buf Hlast Hb.
    - cbn [map app concat]. rewrite Hlast, app_nil_r. change (total []) with 0. by rewrite (proj2 (Z.leb_le _ _)) by lia.
    - cbn [map app read_info_loop]. destruct d as [|x d]; [done|]. rewrite total_cons. set (d' := x :: d) in *.
      assert (0 < Z.of_nat (length d')) by (cbn; lia). assert (0 <= total chunks) by (unfold total; lia).
      destruct (Z.ltb_spec cap (Z.of_nat (length buf) + Z.of_nat (length d'))) as [Hlt|Hge].
      + by rewrite (proj2 (Z.leb_gt _ _)) by lia.
      + rewrite IH by (done || rewrite length_app; lia). rewrite length_app, Nat2Z.inj_add, Z.add_assoc. cbn [concat]. by rewrite app_assoc. }
  split; [|rewrite <- (app_nil_r (map IoData chunks))]; unfold read_info_response; rewrite H by (done || cbn; lia); done.
Qed.

(** The cap on the daemon's information is exact, however its bytes are cut: what
    ends within the cap is returned whole, what does not end is a timeout, and more
    than the cap is refused, ended or not, without being kept. *)
Theorem info_read_capped (cap : Z) (chunks : list (list byte)) : Forall (fun d => d <> []) chunks ->
  read_info_response cap (map IoData chunks ++ [IoEnd]) = (if total chunks <=? Z.max 0 cap then InfoComplete (concat chunks) else InfoOversized)
  /\ read_info_response cap (map IoData chunks) = (if total chunks <=? Z.max 0 cap then InfoTimedOut else InfoOversized).
Proof. apply info_capped. Qed.

(** ** Pings *)

(** The daemon and the ping receiver send a ping's bytes back. *)
Lemma ping_echoed no_shell env seq : dispatch_stream no_shell env (ping_message seq) = Answers (to_be 4 seq) /\ ping_recv (to_be 4 seq) = to_be 4 seq.
Proof.
  assert (H : read_exact 4 (to_be 4 seq) = (Some (to_be 4 seq), [])).
  { pose proof (read_exact_len 4 (to_be 4 seq) [] (length_to_be 4 seq)) as H. by rewrite app_nil_r in H. }
  split; [|unfold ping_recv; by rewrite H].
  unfold dispatch_stream, ping_message. change (Byte.eqb SVC_PING SVC_SHELL) with false. change (Byte.eqb SVC_PING SVC_FORWARD) with false.
  change (Byte.eqb SVC_PING SVC_INFO) with false. change (Byte.eqb SVC_PING SVC_PING) with true. cbn iota. unfold serve_ping. by rewrite H.
Qed.

(** The echo of a daemon. *)
Definition daemon_echo (no_shell : bool) (env : option (list byte)) (i : Z) : Echo :=
  match dispatch_stream no_shell env (ping_message i) with Answers b => Echoed b | _ => NoEcho end.

Lemma ping_loop_echoed no_shell env n : forall i r f, ping_loop (daemon_echo no_shell env) n i r f = ((n + r)%nat, f).
Proof.
  induction n as [|n IH]; intros i r f; [done|]. cbn [ping_loop]. unfold daemon_echo at 1. rewrite (proj1 (ping_echoed no_shell env i)).
  rewrite bytes_eqb_refl, IH. f_equal. lia.
Qed.

Section Verdict.
Context {J : SerdeJson}.

(** The version of the daemon's information, whatever the order of its fields. *)
Lemma server_info_version version pty fields : fields ≡ₚ server_info version pty -> server_version (JObj fields) = version.
Proof.
  intros Hp. unfold server_version. cbn [json_get].
  rewrite (obj_get_perm _ fields (server_info version pty)); [reflexivity| |done].
  rewrite Hp. cbn [map fst server_info]. apply (bool_decide_unpack _). vm_compute. exact I.
Qed.

(** A healthy daemon passes: if its information, however it is cut into reads,
    stays within the cap and parses to what it was printed from, in any order of the
    fields, then a client of the same version, with at least one ping, gets four
    passes and exit code 0; a daemon of another version gets a warning, and still
    exit code 0. *)
Theorem healthy_daemon_passes (to_string_pretty : Json -> list byte) (pk version local_version : list byte) (pty no_shell : bool)
    (env : option (list byte)) (chunks : list (list byte)) (ping_count : nat) (fields : list (list byte * Json)) :
  Forall (fun d => d <> []) chunks -> concat chunks = to_string_pretty (JObj (server_info version pty)) ->
  from_str (to_string_pretty (JObj (server_info version pty))) = Some (JObj fields) -> fields ≡ₚ server_info version pty ->
  total chunks <= MAX_INFO_RESPONSE_BYTES -> (0 < ping_count)%nat ->
  health (Some pk) local_version (map IoData chunks ++ [IoEnd]) ping_count (daemon_echo no_shell env)
  = ([mkCheckResult "connection" Pass; mkCheckResult "key-fingerprint" Pass;
      mkCheckResult "version" (if bytes_eqb version local_version then Pass else Warn); mkCheckResult "rtt" Pass],
     if bytes_eqb version local_version then "PASS" else "WARN", 0)%string.
Proof.
  intros Hne Hc Hf Hp Ht Hn. unfold health, version_check, rtt_check.
  assert (Hr : read_info_response MAX_INFO_RESPONSE_BYTES (map IoData chunks ++ [IoEnd]) = InfoComplete (concat chunks)).
  { destruct (info_capped MAX_INFO_RESPONSE_BYTES chunks Hne) as [-> _]. by rewrite (proj2 (Z.leb_le _ _)) by lia. }
  rewrite Hr, Hc, Hf, (server_info_version version pty fields Hp), ping_loop_echoed. cbn [key_check].
  destruct (Nat.min ping_count 20 + 0)%nat eqn:E; [lia|]. cbn [Nat.eqb]. by destruct (bytes_eqb version local_version).
Qed.

(** With no pings asked for, the check of the round-trip time fails. *)
Lemma no_pings_fail (pk : option (list byte)) version reads echo : (health pk version reads 0 echo).2 = 1.
Proof. unfold health. cbn. by rewrite !orb_true_r. Qed.

End Verdict.

(** ** Counters *)

Lemma ping_once_counts seq echo rtt s : 0 <= lost s -> sent s = Z.of_nat (length (rtts s)) + lost s -> sent s + 1 < 2 ^ 32 ->
  let s' := ping_once seq echo rtt s in sent s' = sent s + 1 /\ 0 <= lost s' /\ sent s' = Z.of_nat (length (rtts s')) + lost s'.
Proof.
  intros Hl Hs Hb. cbv zeta. unfold ping_once, wrapping_add.
  assert (Hw : wrap 32 (sent s + 1) = sent s + 1 /\ wrap 32 (lost s + 1) = lost s + 1) by (split; apply wrap_small; unfold is_u; lia).
  destruct Hw as [Hw1 Hw2].
  destruct echo as [|b|]; [| destruct (bytes_eqb b (to_be 4 seq)) |]; cbn [rtts lost sent]; rewrite ?Hw1, ?Hw2, ?length_app; cbn [length]; lia.
Qed.

Lemma ping_run_from count pings : forall seq s, (0 < count -> seq < count) -> 0 <= seq -> seq + Z.of_nat (length pings) < 2 ^ 32 ->
  sent s = seq -> 0 <= lost s -> sent s = Z.of_nat (length (rtts s)) + lost s ->
  let '(s, ended) := ping_run count seq pings s in
  sent s = Z.of_nat (length (rtts s)) + lost s
  /\ sent s = (if 0 <? count then Z.min count (seq + Z.of_nat (length pings)) else seq + Z.of_nat (length pings))
  /\ ended = (0 <? count) && (count <=? seq + Z.of_nat (length pings)).
Proof.
  induction pings as [|[echo rtt] pings IH]; intros seq s Hlt H0 Hb Hs Hl Hsum; cbn [ping_run length] in *.
  - rewrite Z.add_0_r. split_and!; [done| |].
    + destruct (Z.ltb_spec 0 count); lia.
    + destruct (Z.ltb_spec 0 count); [cbn [andb]; symmetry; apply Z.leb_gt; auto|done].
  - destruct (ping_once_counts seq echo rtt s Hl Hsum ltac:(lia)) as (H1 & H2 & H3). set (s1 := ping_once seq echo rtt s) in *.
    unfold wrapping_add. rewrite wrap_small by (split; lia).
    specialize (IH (seq + 1) s1). replace (seq + Z.of_nat (S (length pings))) with (seq + 1 + Z.of_nat (length pings)) by lia.
    destruct (Z.ltb_spec 0 count) as [Hpos|Hneg]; cbn [andb] in *.
    + destruct (Z.leb_spec count (seq + 1)).
      * split_and!; [done|lia|symmetry; apply Z.leb_le; lia].
      * apply IH; (done || lia).
    + apply IH; (done || lia).
Qed.

(** The ping command counts right: it sends exactly as many pings as it was asked
    for, numbered from 0, and ends then; at any time every ping that was sent is either
    among the round-trip times or counted as lost. *)
Theorem ping_run_counts (count : Z) (pings : list (Echo * Z)) : 0 <= count < 2 ^ 32 -> Z.of_nat (length pings) < 2 ^ 32 ->
  let '(s, ended) := ping_run count 0 pings PingStats_default in
  sent s = Z.of_nat (length (rtts s)) + lost s
  /\ sent s = (if 0 <? count then Z.min count (Z.of_nat (length pings)) else Z.of_nat (length pings))
  /\ ended = (0 <? count) && (count <=? Z.of_nat (length pings)).
Proof. intros Hc Hp. apply (ping_run_from count pings 0 PingStats_default); (done || lia). Qed.

(** ** Witnesses *)

Lemma info_read_capped_witness : read_info_response 3 (map IoData [[x01]; [x02; x03]] ++ [IoEnd]) = InfoComplete [x01; x02; x03].
Proof.
  destruct (info_read_capped 3 [[x01]; [x02; x03]]) as [H _]; [|exact H].
  apply List.Forall_cons; [discriminate|]. apply List.Forall_cons; [discriminate|]. apply List.Forall_nil.
Defined.

Definition test_info : list byte := to_string (JObj (server_info (string_bytes "1.0.0") true)).

Lemma test_info_parses : from_str test_info = Some (JObj (sort_fields (server_info (string_bytes "1.0.0") true))).
Proof. vm_compute. reflexivity. Qed.

Lemma healthy_daemon_passes_witness :
  (health (Some (repeat x07 32)) (string_bytes "1.0.0") (map IoData [test_info] ++ [IoEnd]) 5 (daemon_echo true None)).2 = 0.
Proof.
  rewrite (healthy_daemon_passes to_string (repeat x07 32) (string_bytes "1.0.0") (string_bytes "1.0.0") true true None [test_info] 5
    (sort_fields (server_info (string_bytes "1.0.0") true))).
  - reflexivity.
  - apply List.Forall_cons; [vm_compute; discriminate|apply List.Forall_nil].
  - cbn [concat]. apply app_nil_r.
  - exact test_info_parses.
  - apply sort_fields_perm.
  - vm_compute. discriminate.
  - lia.
Defined.

Lemma ping_run_counts_witness : sent (ping_run 2 0 [(Echoed (to_be 4 0), 7); (NoEcho, 0); (NoEcho, 0)] PingStats_default).1 = 2.
Proof.
  pose proof (ping_run_counts 2 [(Echoed (to_be 4 0), 7); (NoEcho, 0); (NoEcho, 0)] ltac:(lia) ltac:(cbn; lia)) as H.
  destruct (ping_run _ _ _ _) as [s ended]. destruct H as (_ & H & _). exact H.
Defined.
