(* ===== verification/Main.v ===== *)
(** * The command line

    main.rs: the commands, the mode and the policy they run under, and the entry the
    audit log gets.  The commands themselves are an argument; with each comes the
    cipher suite its own code chooses from the mode and the configuration. *)

From Stdlib Require Import ZArith Lia Bool List String.
From Stdlib Require Import Strings.Byte.
From stdpp Require Import base list numbers option.
From S2P Require Import Prelude TestCrypto Crypto Identity Text Json AuditLog KnownHosts Specs Config Transfer.

Open Scope Z_scope.

(** ** Commands *)

(** Each with what main looks at of its arguments. *)
Inductive Command : Type :=
  | CCopy (src dest : list byte)
  | CPipe (remote : list byte)
  | CForward (remote : list byte)
  | CSync (src dest : list byte)
  | CTunnel (remote : list byte)
  | CFwd (remote_spec : list byte)
  | CBench (remote : list byte)
  | CPerf
  | CPing (remote : list byte)
  | CKey
  | CStats (remote : list byte)
  | CUpdate
  | CConfig
  | CShell (remote : list byte)
  | CLs (remote : list byte)
  | CDoctor
  | CVersion
  | CCompletions
  | CProxy (remote : list byte)
  | CAudit
  | CServe (bind : list byte) (port : Z)
  | CHealth (remote : list byte)
  | CScan (target : list byte)
  | CPunch
  | CShare (path : list byte)
  | CWatch (remote : list byte)
  | CRoute (dest : list byte)
  | CMount (remote : list byte)
  | CDaemon
  | CForwardRecv | CForwardHopRecv | CSyncRecv | CShellRecv | CRecv | CSend | CLsRecv | CPipeRecv | CTunnelRecv
  | CBenchRecv | CFwdRecv | CStatsRecv | CPingRecv | CProxyRecv | CRouteHopRecv | CMountRecv
  | CTui.

(** The name and the remote of the audit entry, for the commands that get one. *)
Definition audited (c : Command) : option (list byte * list byte) :=
  let entry name remote := Some (string_bytes name, remote) in
  let of_copy src dest := if contains [AT] dest then dest else src in
  match c with
  | CForward r => entry "forward"%string r
  | CSync src dest => entry "sync"%string (of_copy src dest)
  | CCopy src dest => entry "cp"%string (of_copy src dest)
  | CPipe r => entry "pipe"%string r
  | CTunnel r => entry "tunnel"%string r
  | CFwd r => entry "fwd"%string r
  | CBench r => entry "bench"%string r
  | CPerf => entry "perf"%string []
  | CPing r => entry "ping"%string r
  | CKey => entry "key"%string []
  | CStats r => entry "stats"%string r
  | CUpdate => entry "update"%string []
  | CConfig => entry "config"%string []
  | CShell r => entry "shell"%string r
  | CLs r => entry "ls"%string r
  | CDoctor => entry "doctor"%string []
  | CVersion => entry "version"%string []
  | CProxy r => entry "proxy"%string r
  | CServe bind port => entry "serve"%string (bind ++ [Net.COLON] ++ Net.dec port)
  | CHealth r => entry "health"%string r
  | CScan t => entry "scan"%string t
  | CPunch => entry "punch"%string []
  | CShare p => entry "share"%string p
  | CWatch r => entry "watch"%string r
  | CRoute d => entry "route"%string d
  | CMount r => entry "mount"%string r
  | _ => None
  end.

(** The commands that are given the mode. *)
Definition takes_fips (c : Command) : bool :=
  match c with
  | CForward _ | CSync _ _ | CCopy _ _ | CProxy _ | CServe _ _ | CHealth _ | CShare _ | CWatch _ | CRoute _ | CSyncRecv | CRecv => true
  | _ => false
  end.

(** The receivers that work the mode out for themselves, as if without a flag. *)
Definition asks_fips (c : Command) : bool :=
  match c with CForwardRecv | CForwardHopRecv | CProxyRecv | CRouteHopRecv => true | _ => false end.

(** The others that choose a suite, from the configuration alone. *)
Definition ignores_fips (c : Command) : bool :=
  match c with
  | CShell _ | CPipe _ | CTunnel _ | CFwd _ | CBench _ | CPing _ | CStats _ | CLs _ | CMount _ | CSend | CShellRecv | CPipeRecv
  | CTunnelRecv | CBenchRecv | CFwdRecv | CStatsRecv | CPingRecv | CLsRecv | CMountRecv => true
  | _ => false
  end.

(** [CipherSuite::parse(...).unwrap_or_default()] of what the command takes. *)
Definition suite_of (fips : bool) (cfg : Config) : CipherSuite :=
  default CipherSuite_default (CipherSuite_parse (text (if fips then string_bytes "aes256gcm" else cf_cipher cfg))).

(** The suite a command runs with; [None] for those that make no connection. *)
Definition command_suite (c : Command) (fips_active : bool) (env : option (list byte)) (cfg : Config) : option CipherSuite :=
  if takes_fips c then
    let fips := match c with CSyncRecv => fips_active || effective_fips_mode env (cf_fips_mode cfg) false
                        | CRecv => effective_fips_mode env (cf_fips_mode cfg) fips_active
                        | _ => fips_active end in
    Some (suite_of fips cfg)
  else if asks_fips c then Some (suite_of (effective_fips_mode env (cf_fips_mode cfg) false) cfg)
  else if ignores_fips c then Some (suite_of false cfg)
  else None.

(** ** main *)

Record Cli : Type := mkCli {
  cli_cipher : option (list byte);
  cli_fips_mode : bool;
  cli_tofu : bool;
  cli_insecure_ignore_pin : bool;
  cli_command : Command
}.

Section Main.
Context {H : PlainHash} {J : SerdeJson} {T : Toml}.

(** The configuration, the default if it cannot be loaded. *)
Definition config_or_default (file : option (list byte)) : Config :=
  match load file with inl c => c | inr _ => Config_default end.

Definition fips_active (env : option (list byte)) (file : option (list byte)) (cli : Cli) : bool :=
  let cfg_fips := match load file with inl c => cf_fips_mode c | inr _ => false end in
  effective_fips_mode env cfg_fips (cli_fips_mode cli).

Definition pin_policy (cli : Cli) : PinPolicy :=
  if cli_insecure_ignore_pin cli then InsecureIgnore else if cli_tofu cli then TrustOnFirstUse else Enforce.

(** What the environment of a run is: the variable, the configuration file, the clock,
    the process and whether the log can be written. *)
Record Env : Type := mkEnv {
  env_fips : option (list byte);
  env_config : option (list byte);
  env_secs : Z;
  env_pid : Z;
  env_log_written : bool
}.

(** [main]: [body] is the command under a mode and a policy; the result and the audit
    log. *)
Definition main (body : Command -> bool -> PinPolicy -> unit + string) (env : Env) (cli : Cli) (audit : option (list byte))
  : (unit + string) * option (list byte) :=
  let fips := fips_active (env_fips env) (env_config env) cli in
  if fips && match cli_cipher cli with Some c => bytes_eqb c (string_bytes "chacha20poly1305") | None => false end
  then (inr "FIPS mode is active: ChaCha20-Poly1305 is not FIPS-approved."%string, audit)
  else
    let result := body (cli_command cli) fips (pin_policy cli) in
    match audited (cli_command cli) with
    | None => (result, audit)
    | Some (subcommand, remote) =>
        (result, log (env_log_written env) audit
                   (mkAuditEntry (Calendar.now_rfc3339 (env_secs env)) subcommand remote []
                      (Some (match result with inl _ => 0 | inr _ => 1 end)) None fips (env_pid env)))
    end.

End Main.

(** * Properties *)

Lemma suite_fips cfg : suite_of true cfg = Aes256Gcm.
Proof. reflexivity. Qed.

(** Each command makes no connection or is in one of the three groups. *)
Lemma command_groups c : negb (takes_fips c && asks_fips c) && negb (takes_fips c && ignores_fips c) && negb (asks_fips c && ignores_fips c) = true.
Proof. by destruct c. Qed.

Section MainProps.
Context {H : PlainHash} {J : SerdeJson} {T : Toml}.

(** How far FIPS mode reaches.  When it is active, by flag, variable or
    configuration: an explicit --cipher chacha20poly1305 is refused before anything
    runs or is logged; every command that is given the mode uses AES-256-GCM; but the
    others - shell, pipe, tunnel, fwd, ls, ping, stats, bench, mount - are run with
    the configuration's suite, ChaCha20-Poly1305 by default, and logged as run in
    FIPS mode. *)
Theorem fips_reach (body : Command -> bool -> PinPolicy -> unit + string) (env : Env) (cli : Cli) (audit : option (list byte)) :
  fips_active (env_fips env) (env_config env) cli = true ->
  (cli_cipher cli = Some (string_bytes "chacha20poly1305") -> exists e, main body env cli audit = (inr e, audit))
  /\ (takes_fips (cli_command cli) = true ->
        command_suite (cli_command cli) (fips_active (env_fips env) (env_config env) cli) (env_fips env) (config_or_default (env_config env)) = Some Aes256Gcm)
  /\ (ignores_fips (cli_command cli) = true -> cf_cipher (config_or_default (env_config env)) = string_bytes "chacha20poly1305" ->
        cli_cipher cli <> Some (string_bytes "chacha20poly1305") -> env_log_written env = true ->
        command_suite (cli_command cli) (fips_active (env_fips env) (env_config env) cli) (env_fips env) (config_or_default (env_config env)) = Some ChaCha20Poly1305
        /\ (main body env cli audit).1 = body (cli_command cli) true (pin_policy cli)
        /\ forall name remote, audited (cli_command cli) = Some (name, remote) ->
             exists e, (main body env cli audit).2 = Some (append_entry audit e) /\ ae_fips_mode e = true /\ ae_subcommand e = name /\ ae_remote e = remote).
Proof.
  intros Hf. unfold main. rewrite Hf. split_and!.
  - intros ->. rewrite bytes_eqb_refl. by eexists.
  - intros Ht. unfold command_suite. rewrite Ht. destruct (cli_command cli); try done; unfold effective_fips_mode; cbn [orb];
      by rewrite suite_fips.
  - intros Hi Hc Hn Hw.
    assert (Hr : (true && match cli_cipher cli with Some c => bytes_eqb c (string_bytes "chacha20poly1305") | None => false end) = false).
    { cbn [andb]. destruct (cli_cipher cli) as [c|]; [|done]. apply not_true_is_false. intros E. apply bytes_eqb_eq in E as ->. by apply Hn. }
    rewrite Hr. split_and!.
    + unfold command_suite. pose proof (command_groups (cli_command cli)) as Hg. rewrite Hi, !andb_true_r in Hg.
      apply andb_true_iff in Hg as [Hg Hg2]. apply andb_true_iff in Hg as [_ Hg1]. apply negb_true_iff in Hg1, Hg2. rewrite Hg1, Hg2, Hi.
      unfold suite_of. rewrite Hc. reflexivity.
    + by destruct (audited (cli_command cli)) as [[name remote]|].
    + intros name remote ->. cbn [snd]. rewrite Hw. by eexists.
Qed.

(** The flag --cipher has no other effect: whatever it is, the same command runs in the
    same way, as long as it is not refused. *)
Lemma cipher_flag_unused body env (fips tofu insecure : bool) (command : Command) (flag : option (list byte)) audit :
  flag <> Some (string_bytes "chacha20poly1305") ->
  main body env (mkCli flag fips tofu insecure command) audit = main body env (mkCli None fips tofu insecure command) audit.
Proof.
  intros Hn. unfold main. cbn [cli_cipher cli_command]. change (fips_active (env_fips env) (env_config env) (mkCli flag fips tofu insecure command))
    with (fips_active (env_fips env) (env_config env) (mkCli None fips tofu insecure command)).
  change (pin_policy (mkCli flag fips tofu insecure command)) with (pin_policy (mkCli None fips tofu insecure command)).
  destruct flag as [c|]; [|done].
  assert (Hc : bytes_eqb c (string_bytes "chacha20poly1305") = false).
  { apply not_true_is_false. intros E. apply bytes_eqb_eq in E as ->. by apply Hn. }
  by rewrite Hc.
Qed.

(** The entry of a run. *)
Definition entry_of (env : Env) (cli : Cli) (result : unit + string) : option AuditEntry :=
  match audited (cli_command cli) with
  | Some (subcommand, remote) =>
      Some (mkAuditEntry (Calendar.now_rfc3339 (env_secs env)) subcommand remote []
              (Some (match result with inl _ => 0 | inr _ => 1 end)) None (fips_active (env_fips env) (env_config env) cli) (env_pid env))
  | None => None
  end.

(** Runs one after the other. *)
Fixpoint runs_of (body : Command -> bool -> PinPolicy -> unit + string) (rs : list (Env * Cli)) (audit : option (list byte))
  : list (unit + string) * option (list byte) :=
  match rs with
  | [] => ([], audit)
  | (env, cli) :: rs =>
      let '(r, audit) := main body env cli audit in
      let '(results, audit) := runs_of body rs audit in (r :: results, audit)
  end.

(** The log of any runs outside FIPS mode is the chain of the entries of the audited
    ones, in order, each with the exit code of its result. *)
Lemma runs_logged body rs : forall audit,
  Forall (fun r => fips_active (env_fips r.1) (env_config r.1) r.2 = false /\ env_log_written r.1 = true) rs ->
  let '(results, audit') := runs_of body rs audit in
  audit' = fold_left (fun f e => Some (append_entry f e)) (omap (fun p => entry_of p.1.1 p.1.2 p.2) (zip rs results)) audit
  /\ results = map (fun r => body (cli_command r.2) false (pin_policy r.2)) rs.
Proof.
  induction rs as [|[env cli] rs IH]; intros audit Hrs; [done|]. apply List.Forall_cons_iff in Hrs as [[Hf Hw] Hrs]. cbn [fst snd] in *.
  cbn [runs_of]. destruct (main body env cli audit) as [r audit1] eqn:E. specialize (IH audit1 Hrs).
  destruct (runs_of body rs audit1) as [results audit2]. destruct IH as [IH1 IH2].
  assert (Hm : r = body (cli_command cli) false (pin_policy cli)
               /\ audit1 = match entry_of env cli r with Some e => Some (append_entry audit e) | None => audit end).
  { unfold main in E. rewrite Hf in E. cbn [andb] in E. unfold entry_of. rewrite Hf.
    destruct (audited (cli_command cli)) as [[name remote]|]; [rewrite Hw in E|]; injection E as <- <-; done. }
  destruct Hm as [Hr Ha]. split; [|cbn [map fst snd]; by rewrite IH2, Hr].
  rewrite IH1, Ha. cbn [zip zip_with]. change (omap ?f (?x :: ?l)) with (match f x with Some y => y :: omap f l | None => omap f l end).
  cbn [fst snd]. by destruct (entry_of env cli r).
Qed.

End MainProps.

(** ** Witnesses *)

Definition test_env : Env := mkEnv None None 0 7 true.
Definition test_cli : Cli := mkCli None true false false (CShell (string_bytes "host")).

Lemma fips_reach_witness :
  command_suite (CShell (string_bytes "host")) true None Config_default = Some ChaCha20Poly1305
  /\ exists e, (main (fun _ _ _ => inl tt) test_env test_cli None).2 = Some (append_entry None e) /\ ae_fips_mode e = true.
Proof.
  destruct (fips_reach (fun _ _ _ => inl tt) test_env test_cli None eq_refl) as (_ & _ & H).
  destruct (H eq_refl eq_refl ltac:(discriminate) eq_refl) as (H1 & _ & H2). split; [exact H1|].
  destruct (H2 _ _ eq_refl) as (e & He & Hf & _). exists e. split; [exact He|exact Hf].
Defined.
