(* ===== verification/Reverse.v ===== *)
(** * Reverse forwards

    fwd.rs: the slots that bound how many connections are forwarded at once, on both
    sides; the delays of the client when its target cannot be reached; and what an
    opened stream says to the other side. *)

From Stdlib Require Import ZArith Lia Bool List String.
From Stdlib Require Import Strings.Byte.
From stdpp Require Import base list numbers option gmap relations.
From S2P Require Import Prelude Packet Crypto PacketCodec Stream Session.

Open Scope Z_scope.

(** ** Slots *)

Definition MAX_CONCURRENT_FORWARDS : nat := 256.

(** The free permits of the semaphore, whether the accept loop holds one, and the
    connections whose tasks run. *)
Record Forwards : Type := mkForwards { permits : nat; holding : bool; running : list Z }.

Definition Forwards_new : Forwards := mkForwards MAX_CONCURRENT_FORWARDS false [].

(** [acquire_forward_slot], when it returns. *)
Definition acquire_forward_slot (s : Forwards) : option Forwards :=
  match permits s with
  | O => None
  | S n => Some (mkForwards n true (running s))
  end.

(** Accepting: the task takes the permit with it; after an error the permit is given
    back. *)
Definition accepted (conn : option Z) (s : Forwards) : Forwards :=
  match conn with
  | Some c => mkForwards (permits s) false (c :: running s)
  | None => mkForwards (S (permits s)) false (running s)
  end.

(** The loop of [run] and of [run_recv], and the tasks. *)
Inductive fwd_step : Forwards -> Forwards -> Prop :=
  | fs_acquire s s' : holding s = false -> acquire_forward_slot s = Some s' -> fwd_step s s'
  | fs_accept conn s : holding s = true -> fwd_step s (accepted conn s)
  | fs_end before c after s : running s = before ++ c :: after ->
      fwd_step s (mkForwards (S (permits s)) (holding s) (before ++ after)).

(** ** The client's delays *)

(** In milliseconds, by the failures in a row before. *)
Definition backoff (fail_count : Z) : Z :=
  if fail_count =? 0 then 0
  else if fail_count <=? 2 then 100
  else if fail_count <=? 5 then 500
  else 2000.

(** A stream of the client: the delay, and the count after its connection. *)
Definition forward_stream (fail_count : Z) (connects : bool) : Z * Z :=
  (backoff fail_count, if connects then 0 else wrapping_add 32 fail_count 1).

Fixpoint forward_streams (fail_count : Z) (connects : list bool) : list Z :=
  match connects with
  | [] => []
  | c :: cs => let '(delay, n) := forward_stream fail_count c in delay :: forward_streams n cs
  end.

(** * Properties *)

Lemma fwd_step_slots s s' : fwd_step s s' ->
  (permits s + Nat.b2n (holding s) + length (running s) = MAX_CONCURRENT_FORWARDS)%nat ->
  (permits s' + Nat.b2n (holding s') + length (running s') = MAX_CONCURRENT_FORWARDS)%nat.
Proof.
  intros Hs. destruct Hs as [s s' Hh Ha|conn s Hh|before c after s Hr]; intros H.
  - unfold acquire_forward_slot in Ha. rewrite Hh in H. destruct (permits s); [done|]. injection Ha as <-. cbn in *. lia.
  - rewrite Hh in H. destruct conn; cbn in *; lia.
  - rewrite Hr, length_app in H. cbn in *. rewrite length_app. lia.
Qed.

(** A reverse forward serves at most 256 connections at once, on either side,
    however they come, fail and end; no slot is ever lost: the accept loop can go on
    unless all slots are taken, and then as soon as any connection ends. *)
Theorem forwards_bounded (s : Forwards) : rtc fwd_step Forwards_new s ->
  (length (running s) <= MAX_CONCURRENT_FORWARDS)%nat
  /\ (holding s = false -> (exists s', acquire_forward_slot s = Some s') \/ length (running s) = MAX_CONCURRENT_FORWARDS)
  /\ (forall before c after, running s = before ++ c :: after -> holding s = false ->
        exists s', acquire_forward_slot (mkForwards (S (permits s)) (holding s) (before ++ after)) = Some s').
Proof.
  intros Hr.
  assert (H : (permits s + Nat.b2n (holding s) + length (running s) = MAX_CONCURRENT_FORWARDS)%nat).
  { remember Forwards_new as s0 eqn:E0. assert (H0 : (permits s0 + Nat.b2n (holding s0) + length (running s0) = MAX_CONCURRENT_FORWARDS)%nat) by (by subst).
    clear E0. induction Hr as [|s0 s1 s Hs _ IH]; [done|]. apply IH. by apply (fwd_step_slots s0). }
  split_and!.
  - lia.
  - intros Hh. rewrite Hh in H. unfold acquire_forward_slot. destruct (permits s); [right; cbn in H; lia|left; by eexists].
  - intros before c after _ _. by eexists.
Qed.

(** The delays never exceed two seconds and end with the first success. *)
Lemma delays_bounded connects : forall fail_count, Forall (fun d => 0 <= d <= 2000) (forward_streams fail_count connects).
Proof.
  induction connects as [|c cs IH]; intros n; cbn [forward_streams]; [constructor|]. constructor; [|apply IH].
  unfold backoff. repeat case_match; lia.
Qed.

Lemma delay_after_success fail_count connects : forward_streams fail_count (true :: false :: connects) = backoff fail_count :: 0 :: forward_streams 1 connects.
Proof. reflexivity. Qed.

(** ** Opened streams *)

Section Opened.
Context {C : Crypto}.

(** A stream that was opened says nothing by itself: until data is written to it a
    flush has nothing to send for it, so that the other side does not learn of it.  A
    forwarded connection whose server speaks first is not made. *)
Lemma opened_stream_silent (s : Session) (priority now sid : Z) (s' : Session) :
  Session_try_open_stream_with_priority s priority = (s', Some sid) -> flush_streams s' now [sid] = (s', Ok []).
Proof.
  intros H. unfold Session_try_open_stream_with_priority in H. destruct (streams_full s); [done|].
  injection H as <- <-. set (s' := set_ss_streams _ _).
  assert (Hl : ss_streams s' !! ss_next_stream_id s = Some (set_priority (Stream_new (ss_next_stream_id s)) priority)) by apply lookup_insert_eq.
  assert (Hd : drain_fuel s' (ss_next_stream_id s) = 1%nat) by (unfold drain_fuel; by rewrite Hl).
  cbn [flush_streams]. rewrite Hd. cbn [drain_stream]. rewrite Hl.
  change (Stream_poll_send _ _) with (@None (Stream * (Z * list byte))). cbn iota. unfold flush_fin. by rewrite Hl.
Qed.

End Opened.

(** ** Witnesses *)

Lemma forwards_bounded_witness : exists s', acquire_forward_slot Forwards_new = Some s'.
Proof.
  destruct (forwards_bounded Forwards_new (rtc_refl _ _)) as (_ & H & _). destruct (H eq_refl) as [H1|H1]; [exact H1|discriminate H1].
Defined.
