(* ===== verification/Daemon.v ===== *)
(** * The connection daemon

    daemon.rs: the processes, the socket and the pid file that start, stop and the
    worker leave behind, and the lines the daemon and its clients exchange. *)

From Stdlib Require Import ZArith Lia Bool List String.
From Stdlib Require Import Strings.Byte.
From stdpp Require Import base list numbers option relations.
From S2P Require Import Prelude TestCrypto Net Text Json.

Open Scope Z_scope.

(** ** The lines *)

Inductive DaemonRequest : Type := DStop | DStatus.

Record ConnectionInfo : Type := mkConnectionInfo { ci_name : list byte; ci_host : list byte; ci_connected : bool }.

Inductive DaemonResponse : Type :=
  | DOk (message : list byte)
  | DStatusIs (pid : Z) (connections : list ConnectionInfo)
  | DError (message : list byte).

(** [#[serde(tag = "op")]] *)
Definition request_json (r : DaemonRequest) : Json :=
  JObj [(string_bytes "op", JStr (string_bytes (match r with DStop => "stop" | DStatus => "status" end)))].

Definition request_of_json (j : Json) : option DaemonRequest :=
  op ← json_get (string_bytes "op") j ≫= as_str;
  if bytes_eqb op (string_bytes "stop") then Some DStop
  else if bytes_eqb op (string_bytes "status") then Some DStatus
  else None.

Definition info_json (c : ConnectionInfo) : Json :=
  JObj [(string_bytes "name", JStr (ci_name c)); (string_bytes "host", JStr (ci_host c)); (string_bytes "connected", JBool (ci_connected c))].

(** [#[serde(tag = "type")]] *)
Definition response_json (r : DaemonResponse) : Json :=
  match r with
  | DOk message => JObj [(string_bytes "type", JStr (string_bytes "ok")); (string_bytes "message", JStr message)]
  | DStatusIs pid connections =>
      JObj [(string_bytes "type", JStr (string_bytes "status")); (string_bytes "pid", JNum pid);
            (string_bytes "connections", JArr (map info_json connections))]
  | DError message => JObj [(string_bytes "type", JStr (string_bytes "error")); (string_bytes "message", JStr message)]
  end.

Section Lines.
Context {J : SerdeJson}.

(** A client's connection: the responses that are written, and whether the process
    exits. *)
Fixpoint serve_lines (pid : Z) (connections : list ConnectionInfo) (ls : list (list byte)) : list DaemonResponse * bool :=
  match ls with
  | [] => ([], false)
  | line :: ls =>
      match from_str line ≫= request_of_json with
      | None => serve_lines pid connections ls
      | Some DStop => ([DOk (string_bytes "daemon stopping")], true)
      | Some DStatus => let '(rs, exits) := serve_lines pid connections ls in (DStatusIs pid connections :: rs, exits)
      end
  end.

(** The line of a request. *)
Definition request_line (r : DaemonRequest) : list byte := to_string (request_json r).

End Lines.

(** The connections of daemon.toml, as the worker keeps them. *)
Definition configured (entries : list (list byte * list byte)) : list ConnectionInfo :=
  map (fun e => mkConnectionInfo e.1 e.2 false) entries.

(** ** Processes *)

(** The process the socket's path is bound to, the processes that listen, those that
    were started and have not bound the socket yet, and the pid file. *)
Record Host : Type := mkHost {
  bound : option Z;
  alive : list Z;
  started : list Z;
  pid_file : option (list byte)
}.

(** The process a connection to the socket reaches. *)
Definition reached (h : Host) : option Z :=
  match bound h with
  | Some p => if bool_decide (p ∈ alive h) then Some p else None
  | None => None
  end.

(** [probe_daemon_at]: whether a daemon listens, and the pid in the file. *)
Definition probe_daemon (h : Host) : option (option Z) :=
  match reached h with
  | Some _ => Some (text ← pid_file h ≫= from_utf8; parse_uint U32_MAX (trim text))
  | None => None
  end.

(** [start_daemon]; [pid] is the process that is spawned. *)
Definition start_daemon (pid : Z) (h : Host) : Host + string :=
  match probe_daemon h with
  | Some _ => inr "daemon already running"%string
  | None => inl (mkHost (bound h) (alive h) (pid :: started h) (Some (dec pid ++ [x0a])))
  end.

(** [run_daemon_server], up to its accept loop: the socket is removed and bound. *)
Definition worker_binds (pid : Z) (h : Host) : Host :=
  mkHost (Some pid) (pid :: alive h) (List.filter (fun p => negb (p =? pid)) (started h)) (pid_file h).

(** [send_request] of a stop: the process that is reached exits; its socket stays. *)
Definition stop_daemon (h : Host) : Host + string :=
  match reached h with
  | Some p => inl (mkHost (bound h) (List.filter (fun q => negb (q =? p)) (alive h)) (started h) (pid_file h))
  | None => inr "daemon not running"%string
  end.

(** Starts that wait for the worker before, stops, and workers that bind. *)
Inductive host_step : Host -> Host -> Prop :=
  | hs_start pid h h' : started h = [] -> pid ∉ alive h -> start_daemon pid h = inl h' -> host_step h h'
  | hs_bind pid h : pid ∈ started h -> host_step h (worker_binds pid h)
  | hs_stop h h' : stop_daemon h = inl h' -> host_step h h'.

Definition Host_new : Host := mkHost None [] [] None.

(** * Properties *)

(** ** Requests *)

Section LineProps.
Context {J : SerdeJson} {JL : SerdeJsonLaws J}.

Lemma request_parses r : from_str (request_line r) ≫= request_of_json = Some r.
Proof.
  unfold request_line, request_json. rewrite json_parse.
  - by destruct r.
  - split; [apply NoDup_singleton|]. constructor; [|constructor]. by destruct r.
Qed.

(** The daemon answers what it is asked: lines that are no request are passed over,
    each status request before a stop gets one status, a stop is acknowledged and ends
    the process, and nothing after it is answered. *)
Theorem daemon_answers (pid : Z) (connections : list ConnectionInfo) (before after : list DaemonRequest) (junk : list (list byte)) :
  Forall (fun r => r = DStatus) before -> Forall (fun l => from_str l ≫= request_of_json = None) junk ->
  serve_lines pid connections (map request_line before ++ junk ++ request_line DStop :: map request_line after)
    = (map (fun _ => DStatusIs pid connections) before ++ [DOk (string_bytes "daemon stopping")], true)
  /\ serve_lines pid connections (map request_line before ++ junk) = (map (fun _ => DStatusIs pid connections) before, false).
Proof.
  intros Hb Hj.
  assert (Hjunk : forall rest, serve_lines pid connections (junk ++ rest) = serve_lines pid connections rest).
  { intros rest. induction Hj as [|l junk Hl _ IH]; [done|]. cbn [app serve_lines]. by rewrite Hl. }
  induction Hb as [|r before -> _ IH]; cbn [map app].
  - split; [rewrite Hjunk; cbn [serve_lines]; by rewrite request_parses|]. rewrite <- (app_nil_r junk). by rewrite Hjunk.
  - cbn [serve_lines]. rewrite request_parses. destruct IH as [-> ->]. done.
Qed.

End LineProps.

(** ** One daemon *)

Definition host_inv (h : Host) : Prop :=
  match started h with
  | [] => alive h = [] \/ exists p, alive h = [p] /\ bound h = Some p
  | [p] => alive h = []
  | _ => False
  end.

Lemma filter_self p : List.filter (fun q => negb (q =? p)) [p] = [].
Proof. cbn. by rewrite Z.eqb_refl. Qed.

Lemma reached_In h p : reached h = Some p -> p ∈ alive h.
Proof. unfold reached. destruct (bound h); [|done]. case_bool_decide; [|done]. by intros [= <-]. Qed.

Lemma host_step_inv h h' : host_inv h -> host_step h h' -> host_inv h'.
Proof.
  intros Hi Hs. destruct Hs as [pid h h' Hst Hp Hr|pid h Hp|h h' Hr].
  - unfold start_daemon, probe_daemon in Hr. unfold host_inv in Hi. rewrite Hst in Hi. destruct (reached h) as [q|] eqn:Er; [done|].
    injection Hr as <-. unfold host_inv. cbn. rewrite Hst. destruct Hi as [Hi|(q & Ha & Hb)]; [done|].
    unfold reached in Er. rewrite Hb, bool_decide_eq_true_2 in Er; [done|]. rewrite Ha. by left.
  - unfold host_inv in Hi. destruct (started h) as [|q [|]] eqn:Est; [by apply not_elem_of_nil in Hp| |done].
    apply list_elem_of_singleton in Hp as ->. unfold host_inv, worker_binds. cbn [started alive bound]. rewrite Est, filter_self, Hi.
    right. by exists q.
  - unfold stop_daemon in Hr. destruct (reached h) as [p|] eqn:Er; [|done]. injection Hr as <-. pose proof (reached_In h p Er) as Hin.
    unfold host_inv in *. cbn [started alive bound]. destruct (started h) as [|q [|]]; [| |done].
    + left. destruct Hi as [Hi|(q & Ha & _)]; [rewrite Hi in Hin; by apply not_elem_of_nil in Hin|].
      rewrite Ha in *. apply list_elem_of_singleton in Hin as ->. apply filter_self.
    + rewrite Hi in Hin. by apply not_elem_of_nil in Hin.
Qed.

(** One daemon at a time, as long as a start waits for the one before: in any
    sequence of starts, stops and workers that bind the socket, at most one process
    listens, a stop reaches it and leaves none, and a start while it listens is
    refused. *)
Theorem one_daemon (h : Host) : rtc host_step Host_new h ->
  (length (alive h) <= 1)%nat
  /\ (forall p, p ∈ alive h -> reached h = Some p /\ (exists h', stop_daemon h = inl h' /\ alive h' = []) /\ forall pid, exists e, start_daemon pid h = inr e)
  /\ (alive h = [] -> (exists e, stop_daemon h = inr e) /\ forall pid, exists h', start_daemon pid h = inl h').
Proof.
  intros Hr. assert (Hi : host_inv h).
  { remember Host_new as h0 eqn:E0. assert (H0 : host_inv h0) by (subst; by left). clear E0.
    induction Hr as [|h0 h1 h Hs _ IH]; [done|]. apply IH. by apply (host_step_inv h0). }
  unfold host_inv in Hi.
  assert (Hc : alive h = [] \/ exists p, alive h = [p] /\ bound h = Some p) by (destruct (started h) as [|q [|]]; auto; done).
  destruct Hc as [Ha|(p & Ha & Hb)].
  - assert (Hre : reached h = None).
    { unfold reached. destruct (bound h); [|done]. by rewrite Ha, bool_decide_eq_false_2 by apply not_elem_of_nil. }
    rewrite Ha. split_and!; [cbn; lia|intros p Hp; by apply not_elem_of_nil in Hp|]. intros _.
    unfold stop_daemon, start_daemon, probe_daemon. rewrite Hre. split; [by eexists|intros pid; by eexists].
  - assert (Hre : reached h = Some p) by (unfold reached; rewrite Hb, Ha, bool_decide_eq_true_2; [done|by left]).
    rewrite Ha. split_and!; [cbn; lia| |done]. intros q ->%list_elem_of_singleton. split; [done|].
    unfold stop_daemon, start_daemon, probe_daemon. rewrite Hre, Ha. split; [|intros pid; by eexists].
    eexists. split; [reflexivity|]. apply filter_self.
Qed.

(** Two starts at once leave an orphan: the second worker takes the socket over, and
    stopping stops it alone. *)
Lemma concurrent_starts_orphan :
  exists h1 h2 h3, start_daemon 1 Host_new = inl h1 /\ start_daemon 2 h1 = inl h2
    /\ stop_daemon (worker_binds 2 (worker_binds 1 h2)) = inl h3 /\ alive h3 = [1] /\ stop_daemon h3 = inr "daemon not running"%string.
Proof. do 3 eexists. split_and!; reflexivity. Qed.

(** No configured connection is ever made: all are reported as disconnected. *)
Lemma never_connected {J : SerdeJson} pid entries ls :
  Forall (fun r => forall p cs, r = DStatusIs p cs -> Forall (fun c => ci_connected c = false) cs) (serve_lines pid (configured entries) ls).1.
Proof.
  induction ls as [|line ls IH]; cbn [serve_lines]; [constructor|]. destruct (from_str line ≫= request_of_json) as [[|]|]; [| |done].
  - constructor; [done|constructor].
  - destruct (serve_lines pid (configured entries) ls) as [rs exits]. cbn [fst] in *. constructor; [|done].
    intros p cs [= <- <-]. unfold configured. apply List.Forall_forall. intros c Hc. apply in_map_iff in Hc as (e & <- & _). done.
Qed.

(** ** Witnesses *)

Lemma daemon_answers_witness :
  serve_lines 7 [] (map request_line [DStatus] ++ [string_bytes "x"] ++ request_line DStop :: map request_line [DStatus])
  = ([DStatusIs 7 []; DOk (string_bytes "daemon stopping")], true).
Proof.
  destruct (daemon_answers 7 [] [DStatus] [DStatus] [string_bytes "x"]) as [H _].
  - apply List.Forall_cons; [reflexivity|apply List.Forall_nil].
  - apply List.Forall_cons; [vm_compute; reflexivity|apply List.Forall_nil].
  - exact H.
Defined.

Lemma one_daemon_witness : forall h', start_daemon 5 Host_new = inl h' -> exists e, start_daemon 6 (worker_binds 5 h') = inr e.
Proof.
  intros h' Hs. assert (Hr : rtc host_step Host_new (worker_binds 5 h')).
  { eapply rtc_l; [apply (hs_start 5 _ h'); [reflexivity|apply not_elem_of_nil|exact Hs]|]. eapply rtc_l; [|apply rtc_refl].
    apply hs_bind. vm_compute in Hs. injection Hs as <-. by left. }
  destruct (one_daemon _ Hr) as (_ & H & _). destruct (H 5) as (_ & _ & Hst); [by left|]. apply Hst.
Defined.
