(* ===== verification/Bench.v ===== *)
(** * Measurements of the benchmark

    bench.rs: the bounded windows of samples, the loop that drains a stream and the
    quality figures computed from them; perf.rs: the median.  The clock and what each
    read came to are arguments; [None] is a panic. *)

From Stdlib Require Import ZArith Lia Bool List String.
From Stdlib Require Import Floats.SpecFloat.
From stdpp Require Import base list numbers option sorting.
From S2P Require Import Prelude Float Limits.

Open Scope Z_scope.

(** ** Bounded windows *)

Definition MAX_RETAINED_SAMPLES : nat := Z.to_nat 1000000.

(** [push_bounded]: the buffer, and whether its oldest sample went. *)
Definition push_bounded {A} (buf : list A) (value : A) (cap : nat) : list A * bool :=
  let evicted := (cap <=? length buf)%nat in
  ((if evicted then drop 1 buf else buf) ++ [value], evicted).

(** ** Draining *)

(** The state of the loop; a sample of a window is its rate in MiB/s. *)
Record Drain : Type := mkDrain {
  total_bytes : Z;
  window_bytes : Z;
  window_start : Z;
  last_read : Z;
  inter_arrivals : list f64;
  throughput_windows : list f64;
  bucket : option TokenBucket
}.

(** A turn of the loop: the time at its top, and what the read came to: bytes, with the
    times before the limiter and after it, the end, an error or the timeout. *)
Inductive DrainRead : Type :=
  | DrData (n consumed_at now : Z)
  | DrEnd
  | DrError
  | DrTimeout.

Definition WINDOW : Z := 500 * 10 ^ 6.

(** MiB/s of so many bytes in so many seconds. *)
Definition mib_s (bytes : Z) (secs : f64) : f64 := f64_div (f64_div (f64_of bytes) (f64_mul (f64_of 1024) (f64_of 1024))) secs.

Definition drain_limit (b : option TokenBucket) (now n : Z) : option (option TokenBucket) :=
  match b with
  | None => Some None
  | Some tb => '(_, tb) ← bench_consume tb now n; Some (Some tb)
  end.

(** A read of [n] bytes. *)
Definition drain_data (d : Drain) (n consumed_at now : Z) : option Drain :=
  b ← drain_limit (bucket d) consumed_at n;
  let gap_ms := f64_mul (as_secs_f64 (duration_since now (last_read d))) (f64_of 1000) in
  let arrivals := if 0 <? total_bytes d then (push_bounded (inter_arrivals d) gap_ms MAX_RETAINED_SAMPLES).1 else inter_arrivals d in
  let total := wrapping_add 64 (total_bytes d) n in
  let window := wrapping_add 64 (window_bytes d) n in
  if WINDOW <=? duration_since now (window_start d) then
    let w_secs := as_secs_f64 (duration_since now (window_start d)) in
    Some (mkDrain total 0 now now arrivals (push_bounded (throughput_windows d) (mib_s window w_secs) MAX_RETAINED_SAMPLES).1 b)
  else Some (mkDrain total window (window_start d) now arrivals (throughput_windows d) b).

(** The loop, up to its end; [inr] is the read's error, [None] a panic. *)
Fixpoint drain_loop (deadline : option Z) (turns : list (Z * DrainRead)) (d : Drain) : option (Drain + string) :=
  match turns with
  | [] => Some (inl d)
  | (top, r) :: turns =>
      if match deadline with Some dl => duration_since dl top =? 0 | None => false end then Some (inl d)
      else match r with
           | DrData n consumed_at now => d ← drain_data d n consumed_at now; drain_loop deadline turns d
           | DrEnd | DrTimeout => Some (inl d)
           | DrError => Some (inr "read"%string)
           end
  end.

(** The last window, of at least a millisecond. *)
Definition flush_window (now : Z) (d : Drain) : list f64 :=
  if 0 <? window_bytes d
  then (push_bounded (throughput_windows d)
          (mib_s (window_bytes d) (float_max (as_secs_f64 (duration_since now (window_start d))) (f64_lit 1 1000))) MAX_RETAINED_SAMPLES).1
  else throughput_windows d.

(** ** Figures *)

Definition fsum (l : list f64) : f64 := fold_left f64_add l f64_zero.
Definition flen {A} (l : list A) : f64 := f64_of (Z.of_nat (length l)).
Definition f64_sqrt : f64 -> f64 := SFsqrt 53 1024.
Definition mean (l : list f64) : f64 := f64_div (fsum l) (flen l).
Definition variance (l : list f64) : f64 :=
  let m := mean l in f64_div (fsum (map (fun x => let d := f64_sub x m in f64_mul d d) l)) (flen l).

Definition jitter_ms (arrivals : list f64) : f64 :=
  if (1 <? length arrivals)%nat then f64_sqrt (variance arrivals) else f64_zero.

Definition loss_rate_pct (arrivals : list f64) : f64 :=
  if (4 <? length arrivals)%nat then
    let threshold := f64_mul (mean arrivals) (f64_of 3) in
    f64_mul (f64_div (flen (List.filter (fun g => SFltb threshold g) arrivals)) (flen arrivals)) (f64_of 100)
  else f64_zero.

Definition throughput_cv (windows : list f64) : f64 :=
  if (1 <? length windows)%nat then
    if SFltb f64_zero (mean windows) then f64_div (f64_sqrt (variance windows)) (mean windows) else f64_zero
  else f64_zero.

Record CongestionMetrics : Type := mkCongestionMetrics { cm_loss_rate_pct : f64; cm_jitter_ms : f64; cm_throughput_cv : f64; cm_windows : nat }.

(** [bench_drain_with_metrics]: [start] is when it is called, [finish] when the last
    window is flushed. *)
Definition bench_drain_with_metrics (timeout_secs : option Z) (bw_cap_mbps : option f64) (start finish : Z) (turns : list (Z * DrainRead))
  : option ((Z * CongestionMetrics) + string) :=
  let deadline := match timeout_secs with Some s => Some (start + s * 10 ^ 9) | None => None end in
  let b := match bw_cap_mbps with Some mbps => Some (TokenBucket_new mbps start) | None => None end in
  r ← drain_loop deadline turns (mkDrain 0 0 start start [] [] b);
  match r with
  | inr e => Some (inr e)
  | inl d =>
      let windows := flush_window finish d in
      Some (inl (total_bytes d, mkCongestionMetrics (loss_rate_pct (inter_arrivals d)) (jitter_ms (inter_arrivals d))
                                                    (throughput_cv windows) (length windows)))
  end.

(** perf.rs: [None] is the panic on no samples. *)
Definition median_ns (samples : list Z) : option Z :=
  merge_sort Z.le samples !! (length samples / 2)%nat.

(** * Properties *)

(** Pushing keeps the most recent samples: as many as the cap. *)
Lemma push_bounded_recent {A} (cap : nat) (values : list A) : (0 < cap)%nat ->
  fold_left (fun buf v => (push_bounded buf v cap).1) values [] = drop (length values - cap) values.
Proof.
  intros Hc. induction values as [|v values IH] using rev_ind; [done|].
  rewrite fold_left_app, IH. cbn [fold_left]. unfold push_bounded. cbn [fst]. rewrite length_drop, length_app. cbn [length].
  destruct (Nat.leb_spec cap (length values - (length values - cap))) as [Hge|Hlt].
  - rewrite drop_drop. replace (length values + 1 - cap)%nat with (length values - cap + 1)%nat by lia.
    by rewrite (drop_app_le values) by lia.
  - replace (length values + 1 - cap)%nat with 0%nat by lia. by replace (length values - cap)%nat with 0%nat by lia.
Qed.

Lemma push_bounded_length {A} (buf : list A) v cap : (0 < cap)%nat -> (length buf <= cap)%nat -> (length (push_bounded buf v cap).1 <= cap)%nat.
Proof.
  intros Hc Hb. unfold push_bounded. cbn [fst]. rewrite length_app. cbn [length].
  destruct (Nat.leb_spec cap (length buf)); [rewrite length_drop|]; lia.
Qed.

Definition data_bytes (turns : list (Z * DrainRead)) : list Z :=
  omap (fun t => match t.2 with DrData n _ _ => Some n | _ => None end) turns.

Lemma samples_pos : (0 < MAX_RETAINED_SAMPLES)%nat.
Proof. unfold MAX_RETAINED_SAMPLES. lia. Qed.

#[local] Opaque MAX_RETAINED_SAMPLES.

Definition drain_ok (d : Drain) : Prop :=
  (length (inter_arrivals d) <= MAX_RETAINED_SAMPLES)%nat /\ (length (throughput_windows d) <= MAX_RETAINED_SAMPLES)%nat /\ 0 <= total_bytes d.

Lemma drain_data_ok d n consumed_at now d' : drain_ok d -> 0 <= n -> total_bytes d + n < 2 ^ 64 ->
  drain_data d n consumed_at now = Some d' -> drain_ok d' /\ total_bytes d' = total_bytes d + n.
Proof.
  intros (Ha & Hw & Ht) Hn Hb. unfold drain_data. destruct (drain_limit (bucket d) consumed_at n) as [b|]; cbn [mbind option_bind]; [|done].
  set (arr := if 0 <? total_bytes d then _ else _).
  assert (Harr : (length arr <= MAX_RETAINED_SAMPLES)%nat).
  { subst arr. destruct (0 <? total_bytes d); [|done]. apply push_bounded_length; [apply samples_pos|done]. }
  assert (Htot : wrapping_add 64 (total_bytes d) n = total_bytes d + n) by (unfold wrapping_add; apply wrap_small; split; lia).
  rewrite Htot. destruct (WINDOW <=? _); intros [= <-]; unfold drain_ok; cbn [inter_arrivals throughput_windows total_bytes];
    (split; [|done]); (split; [done|]); (split; [|lia]); [apply push_bounded_length; [apply samples_pos|done]|done].
Qed.

Definition bytes_read (turns : list (Z * DrainRead)) : Z := fold_right Z.add 0 (data_bytes turns).

Lemma bytes_read_pos turns : List.Forall (fun n => 0 <= n) (data_bytes turns) -> 0 <= bytes_read turns.
Proof. unfold bytes_read. induction (data_bytes turns) as [|n l IH]; cbn; [lia|]. intros [Hn Hl]%List.Forall_cons_iff. specialize (IH Hl). lia. Qed.

Lemma bytes_read_cons t turns : bytes_read (t :: turns) = match t.2 with DrData n _ _ => n | _ => 0 end + bytes_read turns.
Proof. destruct t as [top r]. unfold bytes_read, data_bytes. cbn. destruct r; cbn; lia. Qed.

Lemma data_bytes_cons (P : Z -> Prop) t turns : List.Forall P (data_bytes (t :: turns)) ->
  List.Forall P (data_bytes turns) /\ match t.2 with DrData n _ _ => P n | _ => True end.
Proof. destruct t as [top r]. unfold data_bytes. cbn. destruct r; cbn; try (intros H; by split). intros [H1 H2]%List.Forall_cons_iff. by split. Qed.

(** A benchmark counts every byte it reads and keeps a bounded number of samples:
    whatever the peer sends and however long it goes on, the figures are computed from
    at most a million gaps and a million windows, the total never exceeds what the
    reads returned, and without a deadline, when every turn is a read of data, it is
    exactly their sum. *)
Theorem drain_bounded (deadline : option Z) (turns : list (Z * DrainRead)) (d d' : Drain) :
  drain_ok d -> List.Forall (fun n => 0 <= n) (data_bytes turns) -> total_bytes d + bytes_read turns < 2 ^ 64 ->
  drain_loop deadline turns d = Some (inl d') ->
  drain_ok d' /\ total_bytes d <= total_bytes d' <= total_bytes d + bytes_read turns
  /\ (deadline = None -> List.Forall (fun t => match t.2 with DrData _ _ _ => True | _ => False end) turns ->
        total_bytes d' = total_bytes d + bytes_read turns).
Proof.
  revert d. induction turns as [|[top r] turns IH]; intros d Hok Hpos Hlt; cbn [drain_loop].
  - intros [= <-]. change (bytes_read []) with 0. split; [done|]. split; [lia|]. intros. lia.
  - apply data_bytes_cons in Hpos as [Hpos Hn]. cbn [snd] in Hn. pose proof (bytes_read_pos _ Hpos).
    rewrite bytes_read_cons in *. cbn [snd] in *.
    destruct (match deadline with Some dl => duration_since dl top =? 0 | None => false end) eqn:Hd.
    { intros [= <-]. split; [done|]. split; [destruct r; lia|]. intros ->. done. }
    destruct r as [n c now| | |]; try done; try (intros [= <-]; split; [done|]; split; [lia|]; intros _ []%List.Forall_cons_iff; done).
    destruct (drain_data d n c now) as [d1|] eqn:Hdata; cbn [mbind option_bind]; [|done].
    apply drain_data_ok in Hdata as [Hok1 Ht]; [|done|lia|lia].
    intros H'. apply IH in H' as (Hok' & Hb & Heq); [|done|done|lia].
    split; [done|]. split; [lia|]. intros Hnone [_ Hall]%List.Forall_cons_iff. rewrite Heq by done. lia.
Qed.

Definition test_turns : list (Z * DrainRead) := [(0, DrData 65536 10 10); (10, DrData 1000 20 600000000); (600000000, DrEnd)].

Lemma drain_bounded_witness : exists d',
  drain_loop None test_turns (mkDrain 0 0 0 0 [] [] None) = Some (inl d') /\ total_bytes d' <= 66536.
Proof.
  eexists. split; [vm_compute; reflexivity|].
  refine (proj2 (proj1 (proj2 (drain_bounded None test_turns (mkDrain 0 0 0 0 [] [] None) _ _ _ _ _)))).
  - unfold drain_ok. cbn. pose proof samples_pos. lia.
  - repeat constructor; lia.
  - vm_compute. reflexivity.
  - vm_compute. reflexivity.
Defined.
