(* ===== verification/Bootstrap.v ===== *)
(** * Starting the other side

    The command lines that the program runs on a remote host over SSH, the line of the
    remote side's announcement in what comes back (ssh.rs, russh_client.rs), and the
    connection to what was announced (connect.rs).  What SSH does and the transport's
    own connecting are arguments. *)

From Stdlib Require Import ZArith Lia Bool List String.
From Stdlib Require Import Strings.Byte.
From stdpp Require Import base list numbers option gmap.
From S2P Require Import Prelude TestCrypto Crypto Packet Identity Stun Net Text Json AuditLog KnownHosts Specs Addr.

Open Scope Z_scope.

(** ** The remote command lines *)

Definition flag (b : bool) (text : string) : list byte := if b then string_bytes text else [].

(** copy.rs *)
Definition send_subcmd (src_path : list byte) (no_compress : bool) : list byte :=
  string_bytes "_send " ++ shell_quote src_path ++ string_bytes " --port 0 --once" ++ flag no_compress " --no-compress".

Definition recv_subcmd (remote_path : list byte) (fips_mode : bool) : list byte :=
  string_bytes "recv " ++ shell_quote remote_path ++ string_bytes " --port 0 --once" ++ flag fips_mode " --fips-mode".

Definition recv_multipath_subcmd (remote_path : list byte) (n : Z) (redundant fips_mode : bool) : list byte :=
  string_bytes "recv " ++ shell_quote remote_path ++ string_bytes " --port 0 --once --multipath-count " ++ dec n
  ++ flag redundant " --multipath-redundant" ++ flag fips_mode " --fips-mode".

(** watch.rs *)
Definition watch_subcmd (remote_path : list byte) (fips_mode : bool) : list byte :=
  string_bytes "recv " ++ shell_quote remote_path ++ string_bytes " --port 0" ++ flag fips_mode " --fips-mode".

(** ls.rs *)
Definition ls_subcmd (remote_path : list byte) : list byte :=
  string_bytes "_ls-recv " ++ shell_quote remote_path ++ string_bytes " --port 0".

(** mount.rs *)
Definition mount_subcmd (remote_root : list byte) : list byte :=
  string_bytes "_mount-recv " ++ shell_quote remote_root ++ string_bytes " --port 0".

(** sync.rs *)
Definition sync_subcmd (remote_dir : list byte) (is_push delete : bool) : list byte :=
  string_bytes "_sync-recv " ++ shell_quote remote_dir ++ string_bytes " --port 0 --direction "
  ++ string_bytes (if is_push then "push" else "pull") ++ flag delete " --delete".

(** tunnel.rs *)
Definition tunnel_subcmd (name : list byte) : list byte :=
  string_bytes "_tunnel-recv localhost 0 --port 0 --name " ++ shell_quote name.

(** forward.rs *)
Definition hop_subcmd (remote : list byte) (port : option Z) : list byte :=
  string_bytes "_forward-hop-recv --port 0 --target " ++ shell_quote remote ++ [SPACE]
  ++ match port with Some p => string_bytes "--target-port " ++ dec p ++ [SPACE] | None => [] end.

(** fwd.rs *)
Definition fwd_subcmd (remote_port : Z) : list byte := string_bytes "_fwd-recv --listen-port " ++ dec remote_port ++ string_bytes " --port 0".

(** bench.rs *)
Definition bench_subcmd (mib : Z) : list byte := string_bytes "_bench-recv --mib " ++ dec mib ++ string_bytes " --port 0".

(** Arguments are appended one by one. *)
Definition push_args (subcmd : list byte) (args : list (list byte)) : list byte :=
  fold_left (fun subcmd arg => subcmd ++ [SPACE] ++ shell_quote arg) args subcmd.

(** pipe.rs *)
Definition pipe_subcmd (command : list (list byte)) : list byte :=
  match command with
  | [] => string_bytes "_pipe-recv --port 0"
  | _ => push_args (string_bytes "_pipe-recv --port 0" ++ string_bytes " --") command
  end.

(** shell.rs: a login shell if no command is given. *)
Definition cmd_parts (command : list (list byte)) : list (list byte) :=
  match command with [] => [string_bytes "$SHELL"; string_bytes "-l"] | _ => command end.

Definition shell_subcmd (use_pty : bool) (command : list (list byte)) : list byte :=
  push_args (string_bytes "_shell-recv --port 0 " ++ flag use_pty "--pty " ++ string_bytes "--") (cmd_parts command).

(** The line the remote shell is given, and the arguments of the local [ssh]. *)
Definition remote_line (seam_bin subcmd : list byte) : list byte := seam_bin ++ [SPACE] ++ subcmd.

Definition ssh_args (r : RemoteInfo) (seam_bin subcmd : list byte) : list (list byte) := ssh_base false r ++ [remote_line seam_bin subcmd].

(** ** The announcement *)

Definition SEAM_PREFIX : list byte := string_bytes "SEAM ".

(** ssh.rs [start_remote_seam]: the lines of the output up to the first that
    announces; [inr] is the error of a line that is not UTF-8 or of the end. *)
Fixpoint find_announcement (ls : list (list byte)) : list byte + string :=
  match ls with
  | [] => inr "exited without printing SEAM handshake line"%string
  | line :: ls =>
      if utf8_valid line then if starts_with SEAM_PREFIX line then inl line else find_announcement ls
      else inr "reading ssh output"%string
  end.

Definition start_remote_seam (output : list byte) : list byte + string := find_announcement (lines output).

(** russh_client.rs [start_remote_seam]: the messages of the channel. *)
Inductive ChannelMsg : Type :=
  | ChData (data : list byte)
  | ChExitStatus (exit_status : Z)
  | ChEof
  | ChOther.

Fixpoint russh_loop (buf : list byte) (msgs : list ChannelMsg) : list byte + string :=
  match msgs with
  | [] => inr "exited without printing SEAM line"%string
  | ChData data :: msgs =>
      let buf := buf ++ from_utf8_lossy data in
      match List.find (starts_with SEAM_PREFIX) (lines buf) with
      | Some line => inl line
      | None => russh_loop buf msgs
      end
  | ChExitStatus _ :: _ => inr "exited with code"%string
  | ChEof :: msgs | ChOther :: msgs => russh_loop buf msgs
  end.

Definition russh_start_remote_seam (msgs : list ChannelMsg) : list byte + string := russh_loop [] msgs.

(** [run_command] and [seam_path], over the output of the command if it could be run. *)
Definition run_command (stdout : option (list byte)) : option (list byte) := (fun out => trim (from_utf8_lossy out)) <$> stdout.

Definition seam_path (stdout : option (list byte)) : option (list byte) :=
  path ← run_command stdout;
  match trim path with [] => None | path => Some path end.

(** ** Copying the program there *)

Definition INSTALLED : list byte := string_bytes "~/.local/bin/seam".

Definition scp_args (r : RemoteInfo) (bin : list byte) : list (list byte) :=
  map string_bytes ["-o"; "StrictHostKeyChecking=accept-new"; "-o"; "ConnectTimeout=10"]%string
  ++ match ri_ssh_port r with Some p => [string_bytes "-P"; dec p] | None => [] end
  ++ [bin; target r ++ string_bytes ":.local/bin/seam"].

Definition ssh_command (r : RemoteInfo) (cmd : string) : list (list byte) := string_bytes "ssh" :: ssh_base false r ++ [string_bytes cmd].
Definition scp_command (r : RemoteInfo) (bin : list byte) : list (list byte) := string_bytes "scp" :: scp_args r bin.

Definition bootstrap_copy_self (r : RemoteInfo) (exe : option (list byte * bool)) (status : list (list byte) -> option Z) : list byte + string :=
  match exe with
  | None => inr "can't find own executable"%string
  | Some (_, false) => inr "stat own binary"%string
  | Some (bin, true) =>
      match status (ssh_command r "mkdir -p ~/.local/bin") with
      | None => inr "ssh mkdir failed"%string
      | Some code =>
          if negb (code =? 0) then inr "failed to create ~/.local/bin"%string
          else if negb (utf8_valid bin) then inr "non-UTF8 exe path"%string
          else match status (scp_command r bin) with
               | None => inr "scp failed"%string
               | Some code =>
                   if negb (code =? 0) then inr "scp failed (exit)"%string
                   else match status (ssh_command r "chmod +x ~/.local/bin/seam") with
                        | None => inr "chmod +x failed"%string
                        | Some _ => inl INSTALLED
                        end
               end
      end
  end.

(** ** Dialling *)

Section Dial.
Context {K : Kem} {H : PlainHash}.
(** [IdentityKeypair], and connecting to an address with the keys expected there. *)
Context {Id Conn : Type} (identity : Id).
Context (connect : SocketAddr -> Id -> list byte -> KemPublicKey -> Conn + string).

(** [dial_from]: the pin file is read and written before anything else. *)
Definition dial (policy : PinPolicy) (saved : bool) (host : list byte) (port : Z) (x25519 : list byte) (kem_pk : KemPublicKey)
  (pins : option (list byte)) : (Conn + string) * option (list byte) :=
  let '(verified, pins) := verify_or_pin host x25519 policy saved pins in
  match verified with
  | inr e => (inr e, pins)
  | inl _ =>
      match parse_socket_addr (host ++ [COLON] ++ dec port) with
      | None => (inr "bad address"%string, pins)
      | Some server_addr => (connect server_addr identity x25519 kem_pk, pins)
      end
  end.

(** What is known of a remote and done for it: the output of the search for the
    program; the local program's path, with whether it has metadata; how a local command
    ends, with [None] if it could not be started; and the output of a remote worker. *)
Record Ssh : Type := mkSsh {
  ssh_remote : RemoteInfo;
  ssh_which : option (list byte);
  ssh_exe : option (list byte * bool);
  ssh_status : list (list byte) -> option Z;
  ssh_output : list byte -> list byte
}.

(** The path the program has on the remote, copied there if it has none. *)
Definition remote_bin (s : Ssh) : list byte + string :=
  match seam_path (ssh_which s) with Some p => inl p | None => bootstrap_copy_self (ssh_remote s) (ssh_exe s) (ssh_status s) end.

Definition bootstrap_and_connect (s : Ssh) (policy : PinPolicy) (saved : bool) (host subcmd : list byte) (pins : option (list byte))
  : (Conn + string) * option (list byte) :=
  match remote_bin s with
  | inr e => (inr e, pins)
  | inl seam_bin =>
      match start_remote_seam (ssh_output s (remote_line seam_bin subcmd)) with
      | inr e => (inr e, pins)
      | inl line =>
          match parse_seam_line line with
          | inr e => (inr e, pins)
          | inl (port, x25519, kem_pk) => dial policy saved host port x25519 kem_pk pins
          end
      end
  end.

End Dial.

(** * Properties *)

(** ** The words of a command line *)

Inductive ShToken : Type := Bare (w : list byte) | Quoted (w : list byte).

Definition token_word (t : ShToken) : list byte := match t with Bare w | Quoted w => w end.
Definition token_text (t : ShToken) : list byte := match t with Bare w => w | Quoted w => shell_quote w end.
Definition token_ok (t : ShToken) : Prop := match t with Bare w => w <> [] /\ forallb plain_sh w = true | Quoted w => no_nul w end.

(** A token is a word of plain, escaped and quoted pieces. *)
Lemma token_pieces t : token_ok t -> exists ps, word_ok ps /\ word_text ps = token_text t /\ word_value ps = token_word t.
Proof.
  destruct t as [w|w]; cbn [token_ok token_text token_word]; [|apply shell_quote_word].
  intros [Hne Hp]. exists (map PlainByte w).
  assert (Hc : forall l, concat (map (fun b : byte => [b]) l) = l) by (induction l as [|b l IH]; cbn; congruence).
  unfold word_ok, word_text, word_value. rewrite !map_map. split; [split|split; apply Hc].
  - by destruct w.
  - apply List.Forall_forall. intros p (b & <- & Hb)%in_map_iff. rewrite forallb_forall in Hp. by apply Hp.
Qed.

Lemma tokens_pieces ts : Forall token_ok ts ->
  exists ws, Forall word_ok ws /\ map word_text ws = map token_text ts /\ map word_value ws = map token_word ts.
Proof.
  induction 1 as [|t ts Ht _ (ws & H1 & H2 & H3)]; [by exists []|].
  destruct (token_pieces t Ht) as (ps & P1 & P2 & P3). exists (ps :: ws). cbn [map]. rewrite P2, H2, P3, H3. split_and!; [by constructor|done|done].
Qed.

Lemma plain_dec n : 0 <= n -> token_ok (Bare (dec n)).
Proof.
  intros Hn. split; [by apply graphic_dec|]. apply forallb_forall. intros b Hb. pose proof (dec_digits n Hn) as Hd.
  rewrite List.Forall_forall in Hd. destruct (Hd b Hb) as [d Hv]. unfold digit_val in Hv. unfold plain_sh.
  destruct ((48 <=? byte_val b) && (byte_val b <=? 57)); [by rewrite orb_true_r|done].
Qed.

Lemma push_args_concat args : forall s, push_args s args = s ++ concat (map (fun a => [SPACE] ++ shell_quote a) args).
Proof.
  induction args as [|a args IH]; intros s; [by rewrite app_nil_r|]. cbn [push_args fold_left map concat].
  fold (push_args (s ++ [SPACE] ++ shell_quote a) args). by rewrite IH, <- !app_assoc.
Qed.

Lemma join_tokens (t : ShToken) (ts : list ShToken) :
  join [SPACE] (map token_text (t :: ts)) = token_text t ++ concat (map (fun u => [SPACE] ++ token_text u) ts).
Proof.
  revert t. induction ts as [|u ts IH]; intros t; [cbn; by rewrite app_nil_r|].
  change (map token_text (t :: u :: ts)) with (token_text t :: map token_text (u :: ts)). rewrite join_cons by done.
  rewrite IH. cbn [map concat]. by rewrite <- !app_assoc.
Qed.

(** What each command line is meant to run, word by word. *)
Inductive Worker : Type :=
  | WSend (src_path : list byte) (no_compress : bool)
  | WRecv (remote_path : list byte) (fips_mode : bool)
  | WRecvMultipath (remote_path : list byte) (n : nat) (redundant fips_mode : bool)
  | WWatch (remote_path : list byte) (fips_mode : bool)
  | WLs (remote_path : list byte)
  | WMount (remote_root : list byte)
  | WSync (remote_dir : list byte) (is_push delete : bool)
  | WTunnel (name : list byte)
  | WHop (remote : list byte) (port : option Z)
  | WFwd (remote_port : Z)
  | WBench (mib : Z)
  | WPipe (command : list (list byte))
  | WShell (use_pty : bool) (command : list (list byte)).

Definition worker_subcmd (w : Worker) : list byte :=
  match w with
  | WSend p c => send_subcmd p c
  | WRecv p f => recv_subcmd p f
  | WRecvMultipath p n r f => recv_multipath_subcmd p (Z.of_nat n) r f
  | WWatch p f => watch_subcmd p f
  | WLs p => ls_subcmd p
  | WMount p => mount_subcmd p
  | WSync d p x => sync_subcmd d p x
  | WTunnel n => tunnel_subcmd n
  | WHop r p => hop_subcmd r p
  | WFwd p => fwd_subcmd p
  | WBench m => bench_subcmd m
  | WPipe c => pipe_subcmd c
  | WShell u c => shell_subcmd u c
  end.

Definition bare (s : string) : ShToken := Bare (string_bytes s).
Definition bare_if (b : bool) (s : string) : list ShToken := if b then [bare s] else [].
Definition PORT0 : list ShToken := [bare "--port"; bare "0"].

Definition worker_tokens (w : Worker) : list ShToken :=
  match w with
  | WSend p c => [bare "_send"; Quoted p] ++ PORT0 ++ [bare "--once"] ++ bare_if c "--no-compress"
  | WRecv p f => [bare "recv"; Quoted p] ++ PORT0 ++ [bare "--once"] ++ bare_if f "--fips-mode"
  | WRecvMultipath p n r f =>
      [bare "recv"; Quoted p] ++ PORT0 ++ [bare "--once"; bare "--multipath-count"; Bare (dec (Z.of_nat n))] ++ bare_if r "--multipath-redundant"
      ++ bare_if f "--fips-mode"
  | WWatch p f => [bare "recv"; Quoted p] ++ PORT0 ++ bare_if f "--fips-mode"
  | WLs p => [bare "_ls-recv"; Quoted p] ++ PORT0
  | WMount p => [bare "_mount-recv"; Quoted p] ++ PORT0
  | WSync d p x => [bare "_sync-recv"; Quoted d] ++ PORT0 ++ [bare "--direction"; bare (if p then "push" else "pull")] ++ bare_if x "--delete"
  | WTunnel n => [bare "_tunnel-recv"; bare "localhost"; bare "0"] ++ PORT0 ++ [bare "--name"; Quoted n]
  | WHop r p => [bare "_forward-hop-recv"] ++ PORT0 ++ [bare "--target"; Quoted r]
                ++ match p with Some p => [bare "--target-port"; Bare (dec p)] | None => [] end
  | WFwd p => [bare "_fwd-recv"; bare "--listen-port"; Bare (dec p)] ++ PORT0
  | WBench m => [bare "_bench-recv"; bare "--mib"; Bare (dec m)] ++ PORT0
  | WPipe c => [bare "_pipe-recv"] ++ PORT0 ++ match c with [] => [] | _ => [bare "--"] ++ map Quoted c end
  | WShell u c => [bare "_shell-recv"] ++ PORT0 ++ bare_if u "--pty" ++ [bare "--"] ++ map Quoted (cmd_parts c)
  end.

Definition worker_argv (w : Worker) : list (list byte) := map token_word (worker_tokens w).

Definition numbers_ok (w : Worker) : Prop :=
  match w with
  | WHop _ (Some p) | WFwd p => is_u 16 p
  | WBench m => is_u 64 m
  | _ => True
  end.

(** The texts given to a worker. *)
Definition given (w : Worker) : list (list byte) :=
  match w with
  | WSend p _ | WRecv p _ | WRecvMultipath p _ _ _ | WWatch p _ | WLs p | WMount p | WSync p _ _ | WTunnel p | WHop p _ => [p]
  | WFwd _ | WBench _ => []
  | WPipe c | WShell _ c => c
  end.

(** Numbers of their width, and texts without a zero byte, which no argument
    of a process can hold. *)
Definition worker_ok (w : Worker) : Prop := numbers_ok w /\ Forall no_nul (given w).

Lemma quoted_ok l : Forall no_nul l -> Forall token_ok (map Quoted l).
Proof. induction 1; cbn; by constructor. Qed.

Lemma cmd_parts_ok c : Forall no_nul c -> Forall no_nul (cmd_parts c).
Proof.
  intros Hc. destruct c; [|done]. repeat (constructor; [unfold no_nul; rewrite list_elem_of_In; cbn; intuition discriminate|]). constructor.
Qed.

Lemma worker_tokens_ok w : worker_ok w -> Forall token_ok (worker_tokens w).
Proof.
  unfold worker_ok, numbers_ok, is_u. intros [Hn Hg].
  pose proof (cmd_parts_ok (given w) Hg) as Hcmd. pose proof (quoted_ok _ Hg) as Hq. pose proof (quoted_ok _ Hcmd) as Hqc.
  destruct w; cbn [worker_tokens]; unfold PORT0, bare_if, bare;
    repeat match goal with
           | |- context [if ?b then _ else _] => destruct b
           | |- context [match ?x with _ => _ end] => destruct x
           end;
    cbn [given app map] in *;
    repeat match goal with H : Forall _ (_ :: _) |- _ => apply List.Forall_cons_iff in H as [? H] end;
    repeat (apply List.Forall_cons_iff; split); try assumption; try (apply plain_dec; lia); try apply List.Forall_nil;
    split; (discriminate || reflexivity).
Qed.

Lemma push_args_join (t : ShToken) ts args :
  push_args (join [SPACE] (map token_text (t :: ts))) args = join [SPACE] (map token_text (t :: ts ++ map Quoted args)).
Proof.
  rewrite push_args_concat, !join_tokens, map_app, concat_app, <- app_assoc. do 3 f_equal. by rewrite map_map.
Qed.

Definition ends_blank (w : Worker) : bool := match w with WHop _ _ => true | _ => false end.

(** A command line is its tokens with blanks between them. *)
Lemma worker_text w : worker_subcmd w = join [SPACE] (map token_text (worker_tokens w)) ++ (if ends_blank w then [SPACE] else []).
Proof.
  destruct w as [p c|p f|p n r f|p f|p|p|d p x|n|r p|p|m|c|u c]; cbn [worker_subcmd ends_blank worker_tokens]; rewrite ?app_nil_r.
  - by destruct c.
  - by destruct f.
  - unfold recv_multipath_subcmd, flag. destruct r, f; cbn [app bare_if]; rewrite ?app_nil_r; reflexivity.
  - by destruct f.
  - reflexivity.
  - reflexivity.
  - by destruct p, x.
  - reflexivity.
  - unfold hop_subcmd. destruct p as [p|]; rewrite ?app_nil_r.
    + change (join [SPACE] (map token_text ([bare "_forward-hop-recv"] ++ PORT0 ++ [bare "--target"; Quoted r] ++ [bare "--target-port"; Bare (dec p)])))
        with (string_bytes "_forward-hop-recv --port 0 --target " ++ shell_quote r ++ [SPACE] ++ string_bytes "--target-port " ++ dec p).
      rewrite <- ?app_assoc. reflexivity.
    + change (join [SPACE] (map token_text ([bare "_forward-hop-recv"] ++ PORT0 ++ [bare "--target"; Quoted r] ++ [])))
        with (string_bytes "_forward-hop-recv --port 0 --target " ++ shell_quote r).
      rewrite <- ?app_assoc. reflexivity.
  - reflexivity.
  - reflexivity.
  - destruct c as [|a c]; [reflexivity|]. unfold pipe_subcmd. set (l := a :: c).
    change (string_bytes "_pipe-recv --port 0" ++ string_bytes " --") with (join [SPACE] (map token_text (bare "_pipe-recv" :: PORT0 ++ [bare "--"]))).
    by rewrite push_args_join.
  - unfold shell_subcmd. destruct u.
    + change (string_bytes "_shell-recv --port 0 " ++ flag true "--pty " ++ string_bytes "--")
        with (join [SPACE] (map token_text (bare "_shell-recv" :: PORT0 ++ [bare "--pty"; bare "--"]))). by rewrite push_args_join.
    + change (string_bytes "_shell-recv --port 0 " ++ flag false "--pty " ++ string_bytes "--")
        with (join [SPACE] (map token_text (bare "_shell-recv" :: PORT0 ++ [bare "--"]))). by rewrite push_args_join.
Qed.

(** C23: The remote shell runs what was meant.  Whatever the paths, names,
    targets and commands are made of (short of a zero byte, which no argument of
    a process holds), every shell that follows the documented quoting rules
    passes to the program, when one of the command lines follows its name,
    exactly the words of the worker and its arguments: nothing the user or
    the local side gave is left where the shell would interpret it. *)
Theorem worker_words {S : PosixShell} {L : PosixShellLaws S} (w : Worker) :
  worker_ok w -> sh_argv (worker_subcmd w) = Some (worker_argv w).
Proof.
  intros Hw. destruct (tokens_pieces _ (worker_tokens_ok w Hw)) as (ws & Hok & Ht & Hv).
  rewrite worker_text. unfold worker_argv. rewrite <- Ht, <- Hv.
  destruct (ends_blank w); [by apply (sh_argv_words ws 1)|by apply (sh_argv_words ws 0)].
Qed.

(** So the words of a command are its own; but without a command the login shell's
    name is quoted as well: it is the worker that expands it. *)
Lemma shell_words (use_pty : bool) (a : list byte) (command : list (list byte)) :
  worker_argv (WShell use_pty (a :: command))
  = [string_bytes "_shell-recv"; string_bytes "--port"; string_bytes "0"] ++ (if use_pty then [string_bytes "--pty"] else [])
    ++ [string_bytes "--"] ++ a :: command.
Proof.
  assert (H : map token_word (map Quoted command) = command) by (rewrite map_map; cbn; apply map_id).
  unfold worker_argv. destruct use_pty; cbn; by rewrite H.
Qed.

Lemma login_shell_unexpanded : worker_argv (WShell false []) = map string_bytes ["_shell-recv"; "--port"; "0"; "--"; "$SHELL"; "-l"]%string.
Proof. reflexivity. Qed.

(** ** The announcement *)

Lemma find_announcement_skips before line after :
  Forall (fun l => utf8_valid l = true /\ starts_with SEAM_PREFIX l = false) before ->
  utf8_valid line = true -> starts_with SEAM_PREFIX line = true -> find_announcement (before ++ line :: after) = inl line.
Proof. intros Hb Hu Hs. induction Hb as [|l before [H1 H2] _ IH]; cbn [app find_announcement]; [by rewrite Hu, Hs|]. by rewrite H1, H2. Qed.

Lemma strip_cr_none l : Forall (fun b => b <> x0d) l -> strip_cr l = l.
Proof.
  intros Hl. unfold strip_cr, strip_suffix. destruct (strip_prefix (rev [x0d]) (rev l)) as [m|] eqn:E; [|done]. exfalso.
  apply strip_prefix_Some in E. rewrite List.Forall_forall in Hl. apply (Hl x0d); [|done]. apply in_rev. rewrite E. by left.
Qed.

Lemma lines_line l rest : Forall (fun b => b <> x0a) l -> lines (l ++ x0a :: rest) = strip_cr l :: lines rest.
Proof.
  intros Hl. unfold lines. rewrite split_app_sep by done. pose proof (split_nonempty x0a rest). by destruct (split x0a rest).
Qed.

Lemma lines_alone l : l <> [] -> Forall (fun b => b <> x0a) l -> lines l = [l].
Proof. intros Hne Hl. unfold lines. rewrite split_no_sep by done. by destruct l. Qed.

(** A line without control bytes that announces. *)
Definition announces (line : list byte) : Prop :=
  Forall (fun b => b <> x0a /\ b <> x0d) line /\ utf8_valid line = true /\ starts_with SEAM_PREFIX line = true.

Definition no_announcement (l : list byte) : Prop :=
  Forall (fun b => b <> x0a) l /\ utf8_valid (strip_cr l) = true /\ starts_with SEAM_PREFIX (strip_cr l) = false.

(** The announcement is found among whatever else the remote side prints before. *)
Lemma announcement_found before line after : Forall no_announcement before -> announces line ->
  start_remote_seam (concat (map (fun l => l ++ [x0a]) before) ++ line ++ x0a :: after) = inl line.
Proof.
  intros Hb (Hl & Hu & Hs). unfold start_remote_seam. induction Hb as [|l before (Hn & Hv & Hp) _ IH]; cbn [map concat app].
  - rewrite lines_line by (eapply List.Forall_impl; [|exact Hl]; by intros b []).
    rewrite strip_cr_none by (eapply List.Forall_impl; [|exact Hl]; by intros b []). cbn [find_announcement]. by rewrite Hu, Hs.
  - rewrite <- !app_assoc. cbn [app]. rewrite lines_line by done. cbn [find_announcement]. by rewrite Hv, Hp.
Qed.

(** The client of russh looks at what has come so far, whole lines or not: a message
    that ends inside the announcement makes it return a part of it. *)
Lemma russh_cut (a b : list byte) (msgs : list ChannelMsg) : announces (SEAM_PREFIX ++ a) ->
  russh_start_remote_seam (ChData (SEAM_PREFIX ++ a) :: ChData b :: msgs) = inl (SEAM_PREFIX ++ a).
Proof.
  intros (Hl & Hu & Hs). unfold russh_start_remote_seam. cbn [russh_loop]. rewrite (lossy_valid _ Hu).
  change ([] ++ SEAM_PREFIX ++ a) with (SEAM_PREFIX ++ a).
  rewrite lines_alone by (done || (eapply List.Forall_impl; [|exact Hl]; by intros c [])). cbn [List.find]. by rewrite Hs.
Qed.

(** Copying succeeds exactly if the directory could be made and the file copied; how
    setting its mode ended does not matter. *)
Lemma copied_iff r exe status p : bootstrap_copy_self r exe status = inl p <->
  p = INSTALLED /\ exists bin, exe = Some (bin, true) /\ utf8_valid bin = true
    /\ status (ssh_command r "mkdir -p ~/.local/bin") = Some 0 /\ status (scp_command r bin) = Some 0
    /\ is_Some (status (ssh_command r "chmod +x ~/.local/bin/seam")).
Proof.
  unfold bootstrap_copy_self. split.
  - destruct exe as [[bin [|]]|]; try done. destruct (status _) as [c1|] eqn:E1; [|done]. destruct (c1 =? 0) eqn:Z1; [|done].
    destruct (utf8_valid bin) eqn:Eu; [|done]. cbn [negb]. destruct (status (scp_command r bin)) as [c2|] eqn:E2; [|done].
    destruct (c2 =? 0) eqn:Z2; [|done]. cbn [negb]. destruct (status (ssh_command r "chmod +x ~/.local/bin/seam")) as [c3|] eqn:E3; [|done].
    intros [= <-]. apply Z.eqb_eq in Z1 as ->. apply Z.eqb_eq in Z2 as ->. split; [done|]. exists bin. split_and!; done.
  - intros (-> & bin & -> & Hu & H1 & H2 & [c3 H3]). by rewrite H1, Hu, H2, H3.
Qed.

Section DialProps.
Context {K : Kem} {KL : KemLaws K} {H : PlainHash}.

(** The announcements of the workers are such lines. *)
Lemma seam_line_announces port x25519 (k : KemPublicKey) : 0 <= port -> announces (seam_line port x25519 k).
Proof.
  intros Hp.
  assert (Hg : forallb (fun b => graphic b || Byte.eqb b SPACE) (seam_line port x25519 k) = true).
  { assert (Hi : forall l, forallb graphic l = true -> forallb (fun b => graphic b || Byte.eqb b SPACE) l = true).
    { intros l. rewrite !forallb_forall. intros Hl b Hb. by rewrite (Hl b Hb). }
    unfold seam_line. rewrite !forallb_app. rewrite (Hi (dec port)) by (apply graphic_dec; lia). by rewrite !(Hi (hex_encode _)) by apply graphic_hex. }
  rewrite forallb_forall in Hg. split; [|split].
  - apply List.Forall_forall. intros b Hb. specialize (Hg b Hb). split; intros ->; discriminate Hg.
  - apply ascii_utf8. unfold is_ascii. apply forallb_forall. intros b Hb. specialize (Hg b Hb). by destruct b.
  - unfold starts_with. change (seam_line port x25519 k) with (SEAM_PREFIX ++ string_bytes "PORT=" ++ dec port ++ string_bytes " X25519="
      ++ hex_encode x25519 ++ string_bytes " KEM=" ++ hex_encode (pk_to_bytes k)). by rewrite strip_prefix_app.
Qed.

Section Dialling.
Context {Id Conn : Type} (identity : Id) (connect : SocketAddr -> Id -> list byte -> KemPublicKey -> Conn + string).

(** Bootstrapping connects to what was announced.  Whatever else the remote side
    prints before and after its announcement: if the host is given by address and its
    key is accepted, the client connects to the announced port of that address and
    expects the announced keys there. *)
Theorem bootstrap_connects (s : Ssh) (policy : PinPolicy) (saved : bool) (ip port : Z) (subcmd seam_bin : list byte) (pins : option (list byte))
    (before : list (list byte)) (after x25519 : list byte) (kem_pk : KemPublicKey) :
  is_u 32 ip -> is_u 16 port -> length x25519 = 32%nat -> Forall no_announcement before ->
  remote_bin s = inl seam_bin ->
  ssh_output s (remote_line seam_bin subcmd) = concat (map (fun l => l ++ [x0a]) before) ++ seam_line port x25519 kem_pk ++ x0a :: after ->
  (verify_or_pin (ipv4_to_string ip) x25519 policy saved pins).1 = inl tt ->
  bootstrap_and_connect identity connect s policy saved (ipv4_to_string ip) subcmd pins
  = (connect (AddrV4 ip port) identity x25519 kem_pk, (verify_or_pin (ipv4_to_string ip) x25519 policy saved pins).2).
Proof.
  intros Hip Hp Hx Hb Hw Ho Hv. unfold bootstrap_and_connect. rewrite Hw, Ho.
  rewrite announcement_found by (done || (apply seam_line_announces; unfold is_u in Hp; lia)).
  pose proof (seam_line_roundtrip port x25519 kem_pk [] Hp Hx (List.Forall_nil _)) as Hl. cbn [join] in Hl. rewrite Hl. unfold dial.
  destruct (verify_or_pin _ _ _ _ _) as [r pins']. cbn [fst snd] in *. rewrite Hv.
  change (ipv4_to_string ip ++ [COLON] ++ dec port) with (addr_to_string (AddrV4 ip port)). by rewrite parse_v4_text.
Qed.

(** A host given by name is never connected to: nothing but digits, dots and
    colons, or a bracketed address, passes for the host of a connection, although SSH
    has resolved the name and started the worker; and by then the key that was
    announced is pinned for the host. *)
Theorem names_never_dial (policy : PinPolicy) (saved : bool) (host : list byte) (port : Z) (x25519 : list byte) (kem_pk : KemPublicKey)
    (pins : option (list byte)) :
  hd x00 host <> x5b -> forallb addr_byte host = false ->
  (exists e, (dial identity connect policy saved host port x25519 kem_pk pins).1 = inr e)
  /\ (policy <> InsecureIgnore -> load_pins pins !! host = None -> saved = true ->
      dial identity connect policy saved host port x25519 kem_pk pins
      = (inr "bad address"%string, Some (save_pins (<[host := fingerprint x25519]> (load_pins pins))))).
Proof.
  intros Hb Hn.
  assert (Ha : parse_socket_addr (host ++ [COLON] ++ dec port) = None).
  { destruct (parse_socket_addr _) as [a|] eqn:E; [|done]. apply parsed_addr in E as [E|E].
    - destruct host as [|b host]; [by cbn in Hn|]. by cbn in E.
    - rewrite forallb_app, Hn in E. done. }
  unfold dial. rewrite Ha. split.
  - destruct (verify_or_pin _ _ _ _ _) as [[u|e] pins']; by eexists.
  - intros Hpol Hl ->. assert (Hv : verify_or_pin host x25519 policy true pins = verify_or_pin_locked host (fingerprint x25519) true pins) by (by destruct policy).
    rewrite Hv. unfold verify_or_pin_locked. by rewrite Hl.
Qed.

End Dialling.
End DialProps.

(** ** Witnesses *)

Lemma worker_words_witness :
  sh_argv (PosixShell := strict_shell) (hop_subcmd (string_bytes "a'b; `ls` $x") (Some 22))
  = Some (map string_bytes ["_forward-hop-recv"; "--port"; "0"; "--target"; "a'b; `ls` $x"; "--target-port"; "22"]%string).
Proof.
  assert (Hn : worker_ok (WHop (string_bytes "a'b; `ls` $x") (Some 22))).
  { split; [unfold numbers_ok, is_u; lia|]. constructor; [|constructor].
    unfold no_nul. rewrite list_elem_of_In. cbn. intuition discriminate. }
  pose proof (worker_words (S := strict_shell) (L := strict_shell_laws) (WHop (string_bytes "a'b; `ls` $x") (Some 22)) Hn) as H.
  vm_compute in H. vm_compute. exact H.
Defined.

Definition test_ssh : Ssh :=
  mkSsh (mkRemoteInfo (string_bytes "host") None None) (Some (string_bytes "/usr/bin/seam")) None (fun _ => None)
    (fun _ => string_bytes "Welcome" ++ x0a :: seam_line 7000 (repeat x07 32) (kem_public (kem_from_seed [])) ++ [x0a]).

Definition test_connect (a : SocketAddr) (id : unit) (x25519 : list byte) (kem_pk : KemPublicKey) : SocketAddr + string := inl a.

Lemma bootstrap_connects_witness :
  (bootstrap_and_connect tt test_connect test_ssh InsecureIgnore true (ipv4_to_string 0x0A000001) (ls_subcmd [x2f]) None).1 = inl (AddrV4 0x0A000001 7000).
Proof.
  rewrite (bootstrap_connects tt test_connect test_ssh InsecureIgnore true 0x0A000001 7000 (ls_subcmd [x2f]) (string_bytes "/usr/bin/seam") None
    [string_bytes "Welcome"] [] (repeat x07 32) (kem_public (kem_from_seed []))); try (unfold is_u; lia); try reflexivity.
  constructor; [|constructor]. split; [|split; reflexivity]. repeat constructor; discriminate.
Defined.

Lemma names_never_dial_witness : exists e,
  (dial tt test_connect TrustOnFirstUse true (string_bytes "example.com") 7000 (repeat x07 32) (kem_public (kem_from_seed [])) None).1 = inr e.
Proof.
  apply (proj1 (names_never_dial tt test_connect TrustOnFirstUse true (string_bytes "example.com") 7000 (repeat x07 32)
    (kem_public (kem_from_seed [])) None ltac:(discriminate) eq_refl)).
Defined.
