(* ===== verification/Ls.v ===== *)
(** * Listing a remote directory

    ls.rs: the client's request and its loop over entries, and the receiver, as two
    programs of Proc.v.  An entry has the layout of the mount's.  The printed line is
    an entry with its mode, size and name; formatting the size is left out. *)

From Stdlib Require Import ZArith Lia Bool List String.
From Stdlib Require Import Strings.Byte.
From stdpp Require Import base list numbers option relations.
From S2P Require Import Prelude TestCrypto Text Proc Frames Transfer Mount.

Open Scope Z_scope.

(** What the path is on the receiving side: a directory with its entries, or the error
    of reading it; a file with its name; or neither.  An entry or a file may have no
    metadata any more. *)
Inductive LsPath : Type :=
  | LsDir (entries : option (list (list byte * option Meta)))
  | LsFile (name : list byte) (meta : option Meta)
  | LsOther.

Definition LsResult (A : Type) : Type := (A + string)%type.

(** The frame of an entry. *)
Definition ls_frame (name : list byte) (meta : Meta) : list byte := build_entry_frame (from_utf8_lossy name) (m_len meta) (m_mode meta).

(** The loop over the directory, and then the rest. *)
Fixpoint send_listing (entries : list (list byte * option Meta)) (k : Proc (LsResult unit)) : Proc (LsResult unit) :=
  match entries with
  | [] => k
  | (name, Some meta) :: entries => PSend (ls_frame name meta) (send_listing entries k)
  | (_, None) :: _ => PRet (inr "metadata"%string)
  end.

Definition ls_done : Proc (LsResult unit) := PSend [DONE] (PRet (inl tt)).

(** [run_recv], once the stream is there. *)
Definition ls_recv (p : LsPath) : Proc (LsResult unit) :=
  PRecv (fun req =>
    match req with
    | t :: _ =>
        if Byte.eqb t LS then
          match p with
          | LsDir None => PRet (inr "read_dir"%string)
          | LsDir (Some entries) => send_listing entries ls_done
          | LsFile name meta => send_listing [(name, meta)] ls_done
          | LsOther => ls_done
          end
        else PRet (inr "expected LS request"%string)
    | [] => PRet (inr "expected LS request"%string)
    end).

(** An entry of the client: [None] if the frame is too short for its fields. *)
Definition ls_entry (frame : list byte) : option RemoteEntry :=
  if (length frame <? 15)%nat then None
  else
    let name_len := Z.to_nat (from_be (slice frame 1 3)) in
    if (length frame <? 3 + name_len + 8 + 4)%nat then None
    else Some (mkEntry (from_utf8_lossy (slice frame 3 (3 + name_len)))
                (from_be (slice frame (3 + name_len) (3 + name_len + 8)))
                (from_be (slice frame (3 + name_len + 8) (3 + name_len + 8 + 4)))).

(** The loop until DONE; [entries] are the lines printed so far. *)
Fixpoint ls_loop (fuel : nat) (entries : list RemoteEntry) : Proc (LsResult (list RemoteEntry)) :=
  match fuel with
  | O => PFuel
  | S fuel =>
      PRecv (fun frame =>
        match frame with
        | [] => PRet (inr "empty frame"%string)
        | t :: _ =>
            if Byte.eqb t ENTRY then
              ls_loop fuel (match ls_entry frame with Some e => entries ++ [e] | None => entries end)
            else if Byte.eqb t DONE then PRet (inl entries)
            else PRet (inr "unexpected frame type"%string)
        end)
  end.

(** [run], once the stream is open. *)
Definition ls_run (fuel : nat) : Proc (LsResult (list RemoteEntry)) := PSend [LS] (ls_loop fuel []).

(** * Properties *)

Definition listed_ok (e : list byte * option Meta) : Prop := (length e.1 <= 255)%nat /\ forall m, e.2 = Some m -> meta_ok m.

(** The entry the client is meant to see. *)
Definition shown (e : list byte * Meta) : RemoteEntry := mkEntry (from_utf8_lossy e.1) (m_len e.2) (m_mode e.2).

Lemma ls_entry_frame name meta : (length name <= 255)%nat -> meta_ok meta -> ls_entry (ls_frame name meta) = Some (shown (name, meta)).
Proof.
  intros Hl [Hs Hm]. pose proof (parse_built_entry (from_utf8_lossy name) (m_len meta) (m_mode meta) (lossy_utf8 _) (lossy_name_short _ Hl) Hs Hm) as Hp.
  unfold ls_entry, ls_frame. unfold parse_entry in Hp. set (frame := build_entry_frame _ _ _) in *.
  assert (Hlen : (15 <= length frame)%nat) by (subst frame; unfold build_entry_frame; rewrite !length_app, !length_to_be; cbn [length]; lia).
  rewrite (proj2 (Nat.ltb_ge _ 3)) in Hp by lia. rewrite (proj2 (Nat.ltb_ge _ 15)) by lia.
  set (n := Z.to_nat (from_be (slice frame 1 3))) in *. destruct (length frame <? 3 + n + 8 + 4)%nat; [discriminate Hp|].
  replace (3 + n + 8 + 4)%nat with (3 + n + 12)%nat by lia. exact (f_equal (fun a => match a with Answered e => Some e | _ => None end) Hp).
Qed.

(** Sending entries takes as many turns of the client's loop. *)
Lemma listing_sent (es : list (list byte * Meta)) : forall fuel acc k,
  List.Forall (fun e => (length e.1 <= 255)%nat /\ meta_ok e.2) es ->
  runs (mkSys (ls_loop (length es + fuel) acc) (send_listing (map (fun e => (e.1, Some e.2)) es) k) [] [])
       (mkSys (ls_loop fuel (acc ++ map shown es)) k [] []).
Proof.
  induction es as [|[name meta] es IH]; intros fuel acc k Hes; [by rewrite app_nil_r; apply rtc_refl|].
  apply List.Forall_cons_iff in Hes as [[Hl Hm] Hes]. cbn [fst snd] in *. cbn [length map fst snd send_listing Nat.add ls_loop].
  eapply rtc_l; [apply step_rsend|]. cbn [app]. eapply rtc_l; [apply step_lrecv|].
  assert (Hf : exists r, ls_frame name meta = ENTRY :: r) by (by eexists). destruct Hf as [r Hf].
  pose proof (ls_entry_frame name meta Hl Hm) as He. rewrite Hf in *. cbn beta iota. rewrite byte_eqb_refl, He.
  change (shown (name, meta) :: map shown es) with ([shown (name, meta)] ++ map shown es). rewrite app_assoc. by apply IH.
Qed.

(** A directory is listed completely: whatever the order in which the two sides
    run, a listing of a directory whose entries have their metadata can always go on
    to the end, with both sides content, every entry printed in order with its mode,
    size and name, and nothing in transit; a path that is neither a directory nor a
    file is listed as empty. *)
Theorem ls_lists (es : list (list byte * Meta)) (fuel : nat) s :
  List.Forall (fun e => (length e.1 <= 255)%nat /\ meta_ok e.2) es -> (length es < fuel)%nat ->
  (runs (mkSys (ls_run fuel) (ls_recv (LsDir (Some (map (fun e => (e.1, Some e.2)) es)))) [] []) s ->
     runs s (mkSys (PRet (inl (map shown es))) (PRet (inl tt)) [] []))
  /\ (runs (mkSys (ls_run fuel) (ls_recv LsOther) [] []) s -> runs s (mkSys (PRet (inl [])) (PRet (inl tt)) [] [])).
Proof.
  intros Hes Hf.
  assert (Hend : forall n acc, runs (mkSys (ls_loop (S n) acc) ls_done [] []) (mkSys (PRet (inl acc)) (PRet (inl tt)) [] [])).
  { intros n acc. unfold ls_done. cbn [ls_loop]. eapply rtc_l; [apply step_rsend|]. cbn [app]. apply rtc_once.
    apply (step_lrecv (fun frame => _) _ [] [DONE] []). }
  split; intros Hr; eapply runs_halted_unique; try exact Hr; try apply halted_done.
  - unfold ls_run, ls_recv. eapply rtc_l; [apply step_lsend|]. cbn [app]. eapply rtc_l; [apply step_rrecv|].
    change (Byte.eqb LS LS) with true. cbn iota. replace fuel with (length es + S (fuel - length es - 1))%nat by lia.
    etrans; [by apply listing_sent|]. apply Hend.
  - unfold ls_run, ls_recv. eapply rtc_l; [apply step_lsend|]. cbn [app]. eapply rtc_l; [apply step_rrecv|].
    change (Byte.eqb LS LS) with true. cbn iota. replace fuel with (S (fuel - 1)) by lia. apply Hend.
Qed.

(** A path that does not exist looks like an empty directory. *)
Lemma missing_path_empty : ls_recv LsOther = ls_recv (LsDir (Some [])).
Proof. reflexivity. Qed.

(** An entry that is gone when its turn comes ends the receiver with an error and
    without DONE: in every run the client comes to wait for a frame that is never
    sent, with the entries before it printed. *)
Theorem ls_entry_gone_hangs (es : list (list byte * Meta)) (name : list byte) (more : list (list byte * option Meta)) (fuel : nat) s :
  List.Forall (fun e => (length e.1 <= 255)%nat /\ meta_ok e.2) es -> (length es < fuel)%nat ->
  runs (mkSys (ls_run fuel) (ls_recv (LsDir (Some (map (fun e => (e.1, Some e.2)) es ++ (name, None) :: more)))) [] []) s ->
  runs s (mkSys (ls_loop (fuel - length es) (map shown es)) (PRet (inr "metadata"%string)) [] [])
  /\ halted (mkSys (ls_loop (fuel - length es) (map shown es)) (PRet (inr "metadata"%string) : Proc (LsResult unit)) [] []).
Proof.
  intros Hes Hf Hr.
  assert (Hh : halted (mkSys (ls_loop (fuel - length es) (map shown es)) (PRet (inr "metadata"%string) : Proc (LsResult unit)) [] [])).
  { replace (fuel - length es)%nat with (S (fuel - length es - 1)) by lia. intros [s' Hs]. inversion Hs. }
  split; [|exact Hh]. eapply runs_halted_unique; [|exact Hh|exact Hr].
  unfold ls_run, ls_recv. eapply rtc_l; [apply step_lsend|]. cbn [app]. eapply rtc_l; [apply step_rrecv|].
  change (Byte.eqb LS LS) with true. cbn iota.
  assert (Hsplit : forall k, send_listing (map (fun e => (e.1, Some e.2)) es ++ (name, None) :: more) k
                   = send_listing (map (fun e => (e.1, Some e.2)) es) (PRet (inr "metadata"%string))).
  { intros k. clear. induction es as [|[n m] es IH]; [done|]. cbn. by rewrite IH. }
  rewrite Hsplit. replace fuel with (length es + (fuel - length es))%nat at 1 by lia. by apply listing_sent.
Qed.

(** ** Witnesses *)

Definition test_listing : list (list byte * Meta) := [(string_bytes "a.txt", mkMeta 7 33188); (string_bytes "d", mkMeta 4096 16877)].

Lemma test_listing_ok : List.Forall (fun e => (length e.1 <= 255)%nat /\ meta_ok e.2) test_listing.
Proof. repeat (apply List.Forall_cons; [split; [cbn; lia|unfold meta_ok, is_u; cbn; lia]|]). apply List.Forall_nil. Qed.

Lemma ls_lists_witness :
  runs (mkSys (ls_run 3) (ls_recv (LsDir (Some (map (fun e => (e.1, Some e.2)) test_listing)))) [] [])
       (mkSys (PRet (inl [mkEntry (string_bytes "a.txt") 7 33188; mkEntry (string_bytes "d") 4096 16877])) (PRet (inl tt)) [] []).
Proof. exact (proj1 (ls_lists test_listing 3 _ test_listing_ok ltac:(cbn; lia)) (rtc_refl _ _)). Defined.

Lemma ls_entry_gone_hangs_witness :
  halted (mkSys (ls_loop 1 (map shown test_listing)) (PRet (inr "metadata"%string) : Proc (LsResult unit)) [] []).
Proof. exact (proj2 (ls_entry_gone_hangs test_listing [x61] [] 3 _ test_listing_ok ltac:(cbn; lia) (rtc_refl _ _))). Defined.
