(* ===== verification/Diagnose.v ===== *)
(** * The doctor

    doctor.rs [run]: every check with the marks it prints, and the verdict.  What the
    system answers (programs found, files, sockets, releases, relays) is a record; the
    checks of the identity, the configuration, the FEC codec and the pin file are
    those of their components. *)

From Stdlib Require Import ZArith Lia Bool List String.
From Stdlib Require Import Strings.Byte.
From stdpp Require Import base list numbers option gmap.
From S2P Require Import Prelude Packet Crypto TestCrypto Ratchet Identity Text Json AuditLog KnownHosts Specs Config Doctor.

Open Scope Z_scope.

(** A result that is printed: good, a warning, one that makes the verdict a failure, or
    neither. *)
Inductive Mark : Type := MOk | MWarn | MBad | MInfo.

Definition is_bad (m : Mark) : bool := match m with MBad => true | _ => false end.

Section Doctor.
Context {C : Crypto} {X : X25519} {K : Kem} {D : MlDsa} {H : PlainHash} {T : Toml}.

(** ** The identity *)

Definition SELFTEST_MSG : list byte := string_bytes "seam-doctor-selftest".

(** The file, if it exists, with whether it can be read and its permission bits. *)
Definition identity_marks (rnd : list byte) (file : option (option (list byte) * Z)) : list Mark :=
  match file with
  | None => [MInfo]
  | Some (None, _) => [MBad]
  | Some (Some bytes, mode) =>
      (if Z.land mode 511 =? 384 then [] else [MWarn])
      ++ match IdentityKeypair_from_bytes bytes with
         | None => [MBad]
         | Some id =>
             [MOk] ++ (if match bytes with b :: _ => byte_val b | [] => 0 end =? 3 then [] else [MWarn])
             ++ match mldsa_sign rnd id SELFTEST_MSG with
                | Some msg => if mldsa_verify (mldsa_pk_into_bytes (mldsa_pk id)) SELFTEST_MSG msg then [MOk] else [MBad]
                | None => [MBad]
                end
         end
  end.

(** ** The configuration *)

(** [known_config_keys]: the fields of [Config]. *)
Definition known_config_keys : list string :=
  ["cc"; "compress"; "identity"; "cipher"; "max_connections"; "listen_port"; "fec_k"; "fec_r"; "fips_mode"; "relays"; "traffic_padding";
   "cover_traffic_kbps"; "timing_jitter_ms"; "obfuscate"; "multipath_addrs"; "multipath_mode"; "ratchet_epoch_packets";
   "ratchet_epoch_seconds"; "stun_server"; "connection_migration"; "max_bandwidth"]%string.

Definition unknown_keys (keys : list (list byte)) : list (list byte) :=
  List.filter (fun k => negb (existsb (fun kk => bytes_eqb (string_bytes kk) k) known_config_keys)) keys.

Definition cc_marks (c : Config) : list Mark :=
  if negb (is_text (cf_cc c) "cubic") && negb (is_text (cf_cc c) "bbr") then [MBad] else [].

Definition cipher_marks (aes_ni : bool) (c : Config) : list Mark :=
  if is_text (cf_cipher c) "aes256gcm" then (if aes_ni then [MOk] else [MWarn])
  else if is_text (cf_cipher c) "chacha20poly1305" then [MOk]
  else [MBad].

Definition connections_marks (c : Config) : list Mark :=
  if cf_max_connections c =? 0 then [MBad] else if 65536 <=? cf_max_connections c then [MWarn] else [MOk].

Definition port_marks (privileged : bool) (c : Config) : list Mark :=
  if cf_listen_port c =? 0 then [MOk]
  else if cf_listen_port c <? 1024 then (if privileged then [MOk] else [MWarn])
  else [MOk].

Definition identity_path_marks (exists_path : list byte -> bool) (c : Config) : list Mark :=
  match cf_identity c with Some id => if exists_path id then [] else [MWarn] | None => [] end.

Definition fec_marks (c : Config) : list Mark :=
  match cf_fec_k c, cf_fec_r c with
  | Some k, Some r => if k =? 0 then [MOk] else if k <? 2 then [MBad] else if r =? 0 then [MBad] else [MOk]
  | Some k, None => if 0 <? k then [MWarn] else [MOk]
  | None, Some _ => [MWarn]
  | None, None => [MOk]
  end.

(** The file's text, if it exists and, inside, if it can be read; [table_keys] are the
    keys of a text that is TOML. *)
Definition config_marks (table_keys : list byte -> option (list (list byte))) (aes_ni privileged : bool) (exists_path : list byte -> bool)
  (file : option (option (list byte))) : list Mark :=
  match file with
  | None => [MInfo]
  | Some None => [MBad; MBad]
  | Some (Some text) =>
      match table_keys text with
      | None => [MBad]
      | Some keys => match unknown_keys keys with [] => [] | _ => [MWarn] end
      end
      ++ match load (Some text) with
         | inr _ => [MBad]
         | inl c => [MOk] ++ cc_marks c ++ cipher_marks aes_ni c ++ connections_marks c ++ port_marks privileged c
                    ++ identity_path_marks exists_path c ++ fec_marks c
         end
  end.

(** ** The network *)

Definition PROBE_SIZES : list Z := [576; 1024; 1280; 1400; 1472; 1500].

(** [probe_path_mtu_loopback] once the sockets are bound: the loop over the sizes;
    [echo] is the length that is received, if sending and receiving succeed. *)
Fixpoint probe_sizes (echo : Z -> option Z) (sizes : list Z) (effective_mtu : Z) : Z :=
  match sizes with
  | [] => effective_mtu
  | size :: sizes =>
      match echo size with
      | Some n => if n =? size then probe_sizes echo sizes size else effective_mtu
      | None => effective_mtu
      end
  end.

Definition probe_path_mtu (echo : Z -> option Z) : Z := probe_sizes echo PROBE_SIZES 576.

Definition mtu_marks (mtu : option Z) : list Mark :=
  match mtu with
  | Some m => [MOk] ++ (if m <? 1280 then [MBad] else if m <? 1400 then [MWarn] else if m <? 1472 then [MWarn] else [])
  | None => [MWarn]
  end.

Definition version_marks (r : VersionCheckResult) : list Mark :=
  match r with VcUpToDate => [MOk] | VcUpdateAvailable _ => [MWarn] | VcNetworkError => [MInfo] end.

Definition known_hosts_marks (s : KnownHostsStatus) : list Mark :=
  match s with
  | KhNotFound => [MInfo]
  | KhEmpty | KhOk _ => [MOk]
  | KhParseError _ | KhUnreadable => [MBad]
  | KhSuspicious _ => [MBad]
  | KhPermissions _ => [MWarn]
  end.

(** The host of a relay, after the last at sign. *)
Definition relay_host (relay : list byte) : list byte := match rsplit_once Specs.AT relay with Some (_, h) => h | None => relay end.

Definition relay_marks (reachable : list byte -> bool) (relays : list (list byte)) : list Mark :=
  match relays with
  | [] => [MInfo]
  | _ => map (fun r => if reachable (relay_host r) then MOk else MBad) relays
  end.

(** ** The run *)

Record System : Type := mkSystem {
  sy_exe : bool;
  sy_in_path : bool;
  sy_ssh : bool;
  sy_ssh_config : bool;
  sy_identity : option (option (list byte) * Z);
  sy_config : option (option (list byte));
  sy_aes_ni : bool;
  sy_privileged : bool;
  sy_exists : list byte -> bool;
  sy_udp_buffers : bool;
  sy_udp_loopback : bool;
  sy_mtu : option (Z -> option Z);
  sy_release : option (list byte);
  sy_version : list byte;
  sy_fips_env : option (list byte);
  sy_known_hosts : option (list byte * Z);
  sy_audit : option (list byte);
  sy_reachable : list byte -> bool
}.

Definition config_or_default (file : option (option (list byte))) : Config :=
  match file with
  | None => Config_default
  | Some None => Config_default
  | Some (Some text) => match load (Some text) with inl c => c | inr _ => Config_default end
  end.

Definition ok_else (m : Mark) (b : bool) : list Mark := [if b then MOk else m].

(** [run]: all marks. *)
Definition doctor_marks (table_keys : list byte -> option (list (list byte))) (rnd : list byte) (s : System) : list Mark :=
  ok_else MBad (sy_exe s) ++ ok_else MWarn (sy_in_path s) ++ ok_else MBad (sy_ssh s) ++ ok_else MWarn (sy_ssh_config s)
  ++ identity_marks rnd (sy_identity s)
  ++ config_marks table_keys (sy_aes_ni s) (sy_privileged s) (sy_exists s) (sy_config s)
  ++ ok_else MWarn (sy_udp_buffers s) ++ ok_else MWarn (sy_udp_loopback s)
  ++ ok_else MBad (match try_fec_self_test with Some (Some _) => true | _ => false end)
  ++ mtu_marks (probe_path_mtu <$> sy_mtu s)
  ++ version_marks (check_latest_version (sy_release s) (sy_version s))
  ++ [if effective_fips_mode (sy_fips_env s) (cf_fips_mode (config_or_default (sy_config s))) false then MOk else MInfo]
  ++ known_hosts_marks (check_known_hosts_integrity (sy_known_hosts s))
  ++ [if (audit_health (sy_audit s)).1.1 then MOk else MInfo]
  ++ relay_marks (sy_reachable s) (cf_relays (config_or_default (sy_config s))).

(** The exit code. *)
Definition doctor (table_keys : list byte -> option (list (list byte))) (rnd : list byte) (s : System) : Z :=
  if existsb is_bad (doctor_marks table_keys rnd s) then 1 else 0.

End Doctor.

(** * Properties *)

Section DoctorProps.
Context {C : Crypto} {X : X25519} {K : Kem} {KL : KemLaws K} {D : MlDsa} {DL : MlDsaLaws D} {H : PlainHash} {T : Toml} {TL : TomlLaws T}.

(** A configuration in its ranges has no bad mark. *)
Lemma valid_config_marks aes_ni privileged exists_path c : config_valid c ->
  existsb is_bad (cc_marks c ++ cipher_marks aes_ni c ++ connections_marks c ++ port_marks privileged c ++ identity_path_marks exists_path c
                  ++ fec_marks c) = false.
Proof.
  intros (Hcc & Hci & Hmc & _ & Hk & Hr & _). rewrite !existsb_app.
  assert (H1 : existsb is_bad (cc_marks c) = false).
  { unfold cc_marks. apply orb_true_iff in Hcc as [-> | ->]; [done|]. by rewrite andb_false_r. }
  assert (H2 : existsb is_bad (cipher_marks aes_ni c) = false).
  { unfold cipher_marks. apply orb_true_iff in Hci as [-> | ->]; repeat case_match; done. }
  assert (H3 : existsb is_bad (connections_marks c) = false).
  { unfold connections_marks. rewrite (proj2 (Z.eqb_neq _ 0)) by lia. by case_match. }
  assert (H4 : existsb is_bad (port_marks privileged c) = false) by (unfold port_marks; repeat case_match; done).
  assert (H5 : existsb is_bad (identity_path_marks exists_path c) = false) by (unfold identity_path_marks; repeat case_match; done).
  assert (H6 : existsb is_bad (fec_marks c) = false).
  { unfold fec_marks. destruct (cf_fec_k c) as [k|], (cf_fec_r c) as [r|]; try done; [|by case_match].
    specialize (Hk k eq_refl). specialize (Hr r eq_refl). destruct (Z.eqb_spec k 0); [done|].
    rewrite (proj2 (Z.ltb_ge k 2)), (proj2 (Z.eqb_neq r 0)) by lia. done. }
  by rewrite H1, H2, H3, H4, H5, H6.
Qed.

(** What [load_or_generate] wrote. *)
Lemma identity_marks_good rnd id b : identity_wf id -> IdentityKeypair_to_bytes id = Some b -> mldsa_pair (mldsa_pk id) (mldsa_sk id) ->
  is_Some (mldsa_sign rnd id SELFTEST_MSG) -> identity_marks rnd (Some (Some b, 384)) = [MOk; MOk].
Proof.
  intros Hwf Hb Hp [sg Hs]. unfold identity_marks. change (Z.land 384 511 =? 384) with true.
  pose proof (from_bytes_to_bytes id b [] Hwf Hb) as Hf. rewrite app_nil_r in Hf. rewrite Hf. destruct (to_bytes_version id b Hb) as [b' ->].
  change (byte_val x03 =? 3) with true. cbn [app]. rewrite Hs. unfold mldsa_verify. rewrite mldsa_pk_round.
  unfold mldsa_sign in Hs. by rewrite (mldsa_sign_verify _ _ _ _ _ _ Hp Hs).
Qed.

(** The doctor finds nothing wrong with what the program wrote: if the program
    and ssh are found, the identity is absent or one that was generated, the
    configuration is absent or in its ranges, as its commands keep it, the pin file is
    absent or one that connections wrote, the loopback carries packets of 1280 bytes
    and the relays can be reached, the verdict is a success, whatever else the system
    answers. *)
Theorem doctor_passes (table_keys : list byte -> option (list (list byte))) (rnd : list byte) (s : System) :
  sy_exe s = true -> sy_ssh s = true ->
  (sy_identity s = None
   \/ exists id b, sy_identity s = Some (Some b, 384) /\ identity_wf id /\ IdentityKeypair_to_bytes id = Some b
       /\ mldsa_pair (mldsa_pk id) (mldsa_sk id) /\ is_Some (mldsa_sign rnd id SELFTEST_MSG)) ->
  (sy_config s = None \/ exists text, sy_config s = Some (Some text) /\ is_Some (table_keys text) /\ file_valid (Some text)) ->
  (sy_known_hosts s = None
   \/ exists (pins : Pins) mode, sy_known_hosts s = Some (save_pins pins, mode) /\ (mode = 384 \/ mode = 420) /\ pins_ok pins
       /\ forall h fp, pins !! h = Some fp -> hex64 fp) ->
  (forall echo, sy_mtu s = Some echo -> 1280 <= probe_path_mtu echo) ->
  (forall r, In r (cf_relays (config_or_default (sy_config s))) -> sy_reachable s (relay_host r) = true) ->
  doctor table_keys rnd s = 0.
Proof.
  intros He Hs Hid Hcfg Hkh Hmtu Hrel. unfold doctor.
  assert (Hm : existsb is_bad (doctor_marks table_keys rnd s) = false); [|by rewrite Hm].
  unfold doctor_marks. rewrite !existsb_app, He, Hs.
  assert (H1 : existsb is_bad (identity_marks rnd (sy_identity s)) = false).
  { destruct Hid as [->|(id & b & -> & Hwf & Hb & Hp & Hsg)]; [done|]. by rewrite (identity_marks_good rnd id b). }
  assert (H2 : existsb is_bad (config_marks table_keys (sy_aes_ni s) (sy_privileged s) (sy_exists s) (sy_config s)) = false).
  { destruct Hcfg as [->|(text & -> & [keys Hk] & c & Hl & Hv)]; [done|]. unfold config_marks. rewrite Hk, Hl, existsb_app.
    pose proof (valid_config_marks (sy_aes_ni s) (sy_privileged s) (sy_exists s) c Hv) as Hmk. cbn [app existsb is_bad orb] in *. rewrite Hmk.
    by destruct (unknown_keys keys). }
  assert (H3 : existsb is_bad (mtu_marks (probe_path_mtu <$> sy_mtu s)) = false).
  { destruct (sy_mtu s) as [echo|]; [|done]. specialize (Hmtu echo eq_refl). cbn [fmap option_fmap option_map]. unfold mtu_marks.
    rewrite (proj2 (Z.ltb_ge _ 1280)) by done. repeat case_match; done. }
  assert (H4 : existsb is_bad (known_hosts_marks (check_known_hosts_integrity (sy_known_hosts s))) = false).
  { destruct Hkh as [->|(pins & mode & -> & Hmode & Hok & Hx)]; [done|]. destruct pin_check_agrees as [Hc _]. destruct (Hc pins Hok Hx) as [Hc1 Hc2].
    destruct Hmode as [-> | ->]; [rewrite Hc1; by destruct (size pins =? 0)%nat|by rewrite Hc2]. }
  assert (H5 : existsb is_bad (relay_marks (sy_reachable s) (cf_relays (config_or_default (sy_config s)))) = false).
  { destruct (cf_relays _) as [|r rs]; [done|]. unfold relay_marks. apply not_true_is_false. rewrite existsb_exists.
    intros (m & Hm & Hb). apply in_map_iff in Hm as (r' & <- & Hr'). by rewrite (Hrel r' Hr') in Hb. }
  assert (H6 : existsb is_bad (version_marks (check_latest_version (sy_release s) (sy_version s))) = false).
  { unfold version_marks. by case_match. }
  rewrite fec_self_test_passes, H1, H2, H3, H4, H5, H6. unfold ok_else. cbn [existsb orb].
  by destruct (sy_in_path s), (sy_ssh_config s), (sy_udp_buffers s), (sy_udp_loopback s), (effective_fips_mode _ _ _), (audit_health _).1.1.
Qed.

(** The loopback's MTU is the largest size of an unbroken run of echoes, 576 at least:
    the check fails exactly if one of the sizes up to 1280 does not come back. *)
Lemma probe_path_mtu_min echo : 1280 <= probe_path_mtu echo <-> echo 576 = Some 576 /\ echo 1024 = Some 1024 /\ echo 1280 = Some 1280.
Proof.
  unfold probe_path_mtu, PROBE_SIZES. cbn [probe_sizes].
  destruct (echo 576) as [a|]; [|split; [lia|by intros []]]. destruct (Z.eqb_spec a 576) as [->|]; [|split; [lia|intros [[=] _]; lia]].
  destruct (echo 1024) as [b|]; [|split; [lia|by intros (_ & [=] & _)]]. destruct (Z.eqb_spec b 1024) as [->|]; [|split; [lia|intros (_ & [=] & _); lia]].
  destruct (echo 1280) as [c|]; [|split; [lia|by intros (_ & _ & [=])]]. destruct (Z.eqb_spec c 1280) as [->|]; [|split; [lia|intros (_ & _ & [=]); lia]].
  split; [done|intros _]. repeat case_match; cmp_facts; lia.
Qed.

End DoctorProps.

(** The keys of the commands are known to the doctor. *)
Lemma command_keys_known : forallb (fun k => existsb (String.eqb k.1) known_config_keys) key_names = true.
Proof. reflexivity. Qed.

(** ** Witnesses *)

Definition test_system : System :=
  mkSystem true false true false None (Some (save Config_default)) false false (fun _ => false) false false (Some Some) None (string_bytes "1.0.0")
    None (Some (save_pins ∅, 420)) None (fun _ => false).

Lemma doctor_passes_witness : doctor (fun _ => Some [string_bytes "cc"]) [] test_system = 0.
Proof.
  apply (doctor_passes (fun _ => Some [string_bytes "cc"]) [] test_system); try reflexivity.
  - by left.
  - right. eexists. split; [reflexivity|]. split; [by eexists|]. exists Config_default. split; [apply load_save|apply Config_default_valid].
  - right. exists ∅, 420. split; [reflexivity|]. split; [by right|]. split; intros h fp Hl; by apply lookup_empty_Some in Hl.
  - intros echo Hecho. change (Some Some = Some echo) in Hecho. injection Hecho as <-. vm_compute. discriminate.
  - intros r Hr. change (In r []) in Hr. destruct Hr.
Defined.
