(* ===== verification/Paths.v ===== *)
(** * Copying over several paths

    copy.rs [run_multipath_push] gives each connection a bucket of files (Limits.v) and
    closes those that have none; recv.rs [run] accepts as many connections, serves each
    in a task and awaits the tasks in the order in which they were accepted.  What a
    task comes to is an argument. *)

From Stdlib Require Import ZArith Lia Bool List String.
From stdpp Require Import base list numbers option relations.
From S2P Require Import Prelude Frames Limits.

(** The tasks in the order of acceptance, with their results once they have ended, how
    many have been awaited, and how [run] ended; when it ends the process exits and the
    tasks that still run with it. *)
Record Awaiting : Type := mkAwaiting {
  tasks : list (option (unit + string));
  awaited : nat;
  ended : option (unit + string)
}.

Definition Awaiting_new (n : nat) : Awaiting := mkAwaiting (replicate n None) 0 None.

(** A task for a path without files: the connection is closed before a stream comes. *)
Definition no_stream : unit + string := match wait_for_stream [None] with Some (inr e) => inr e | _ => inl tt end.

(** [buckets] are those of the accepted connections. *)
Inductive await_step {A} (buckets : list (list A)) : Awaiting -> Awaiting -> Prop :=
  | as_ends i b r s : ended s = None -> tasks s !! i = Some None -> buckets !! i = Some b -> (b = [] -> r = no_stream) ->
      await_step buckets s (mkAwaiting (<[i := Some r]> (tasks s)) (awaited s) None)
  | as_next s : ended s = None -> tasks s !! awaited s = Some (Some (inl tt)) ->
      await_step buckets s (mkAwaiting (tasks s) (S (awaited s)) None)
  | as_fails s e : ended s = None -> tasks s !! awaited s = Some (Some (inr e)) ->
      await_step buckets s (mkAwaiting (tasks s) (awaited s) (Some (inr e)))
  | as_done s : ended s = None -> awaited s = length (tasks s) -> await_step buckets s (mkAwaiting (tasks s) (awaited s) (Some (inl tt))).

(** * Properties *)

(** A path has no files exactly if there are not enough. *)
Lemma round_robin_empty {A} n (files : list A) : forall i buckets j b,
  round_robin n i files buckets !! j = Some b ->
  (b = [] <-> buckets !! j = Some [] /\ forall k, (k < length files)%nat -> ((i + k) mod n)%nat <> j).
Proof.
  induction files as [|f files IH]; intros i buckets j b; cbn [round_robin length].
  - intros ->. split; [intros ->; split; [done|lia]|by intros [[= ->] _]].
  - intros Hb. apply IH in Hb. rewrite Hb. split; intros [H1 H2].
    + assert (Hne : (i mod n)%nat <> j).
      { intros <-. rewrite list_lookup_alter_eq in H1. destruct (buckets !! _) as [b0|]; [|done]. cbn in H1. injection H1 as H1.
        by apply app_eq_nil in H1 as [_ H1]. }
      rewrite list_lookup_alter_ne in H1 by done. split; [done|]. intros [|k] Hk; [by rewrite Nat.add_0_r|].
      rewrite Nat.add_succ_r. apply (H2 k). lia.
    + assert (Hne : (i mod n)%nat <> j) by (rewrite <- (Nat.add_0_r i); apply (H2 0%nat); lia).
      rewrite list_lookup_alter_ne by done. split; [done|]. intros k Hk. rewrite Nat.add_succ_comm. apply (H2 (S k)). lia.
Qed.

Lemma path_without_files {A} n (files : list A) j b : multipath_buckets false n files !! j = Some b -> (b = [] <-> length files <= j)%nat.
Proof.
  unfold multipath_buckets. intros Hb. pose proof (lookup_lt_Some _ _ _ Hb) as Hj. rewrite length_round_robin, length_replicate in Hj.
  apply round_robin_empty in Hb. rewrite Hb. split.
  - intros [_ H]. destruct (Nat.le_gt_cases (length files) j) as [|Hlt]; [done|]. exfalso. apply (H j Hlt). by apply Nat.mod_small.
  - intros Hl. split; [by apply lookup_replicate_2|]. intros k Hk E. cbn in E. pose proof (Nat.Div0.mod_le k n). lia.
Qed.

(** What has been awaited ended well, and a task without files never does. *)
Definition await_inv {A} (buckets : list (list A)) (s : Awaiting) : Prop :=
  length (tasks s) = length buckets
  /\ (forall i, (i < awaited s)%nat -> tasks s !! i = Some (Some (inl tt)))
  /\ (forall i r, tasks s !! i = Some (Some r) -> buckets !! i = Some [] -> r = no_stream)
  /\ (ended s = Some (inl tt) -> awaited s = length (tasks s)).

Lemma await_step_inv {A} (buckets : list (list A)) s s' : await_inv buckets s -> await_step buckets s s' -> await_inv buckets s'.
Proof.
  intros (Hl & Ha & Hr & He) Hs. destruct Hs as [i b r s En Ht Hb Hn|s En Ht|s e En Ht|s En Hw]; unfold await_inv; cbn [tasks awaited ended]; (split; [|split; [|split]]); try done.
  - by rewrite length_insert.
  - intros k Hk. destruct (decide (k = i)) as [->|Hne]; [|rewrite list_lookup_insert_ne by done; by apply Ha].
    rewrite (Ha i Hk) in Ht. discriminate Ht.
  - intros k r' Hk Hbk. destruct (decide (k = i)) as [->|Hne]; [|rewrite list_lookup_insert_ne in Hk by done; by apply (Hr k)].
    rewrite list_lookup_insert_eq in Hk by (by eapply lookup_lt_Some). injection Hk as <-. apply Hn. rewrite Hbk in Hb. by injection Hb as <-.
  - intros k Hk. destruct (decide (k = awaited s)) as [->|Hne]; [done|]. apply Ha. lia.
Qed.

Lemma await_inv_new {A} (buckets : list (list A)) : await_inv buckets (Awaiting_new (length buckets)).
Proof.
  unfold await_inv, Awaiting_new. cbn. split; [by rewrite length_replicate|]. split; [lia|]. split; [|done].
  intros i r Hi. apply lookup_replicate in Hi as [Hi _]. done.
Qed.

Lemma no_stream_fails : exists e, no_stream = inr e.
Proof. by eexists. Qed.

(** A task that fails before one that is awaited after it ends the whole run. *)
Lemma fails_while_running {A} (buckets : list (list A)) (i j : nat) (b : list A) (e : string) :
  (i < j < length buckets)%nat -> (forall k, (k < i)%nat -> exists b, buckets !! k = Some b /\ b <> []) -> buckets !! i = Some b ->
  (b = [] -> inr e = no_stream) ->
  exists s', rtc (await_step buckets) (Awaiting_new (length buckets)) s' /\ ended s' = Some (inr e) /\ tasks s' !! j = Some None.
Proof.
  intros Hij Hbefore Hb Hbe. set (n := length buckets) in *.
  assert (Hat : forall k, (k < n)%nat -> (replicate k (Some (inl tt)) ++ replicate (n - k) None : list (option (unit + string))) !! k = Some None).
  { intros k Hk. rewrite lookup_app_r by (by rewrite length_replicate). rewrite length_replicate, Nat.sub_diag. apply lookup_replicate_2. lia. }
  assert (Hrun : forall k, (k <= i)%nat -> rtc (await_step buckets) (Awaiting_new n) (mkAwaiting (replicate k (Some (inl tt)) ++ replicate (n - k) None) k None)).
  { induction k as [|k IH]; intros Hk; [rewrite Nat.sub_0_r; apply rtc_refl|]. etrans; [apply IH; lia|].
    destruct (Hbefore k ltac:(lia)) as (bk & Hbk & Hne).
    assert (Hins : <[k := Some (inl tt)]> (replicate k (Some (inl tt)) ++ replicate (n - k) None : list (option (unit + string)))
                   = replicate (S k) (Some (inl tt)) ++ replicate (n - S k) None).
    { rewrite insert_app_r_alt by (by rewrite length_replicate). rewrite length_replicate, Nat.sub_diag.
      replace (n - k)%nat with (S (n - S k)) by lia. rewrite (replicate_S_end k), <- app_assoc. reflexivity. }
    eapply rtc_l; [apply (as_ends buckets k bk (inl tt)); [done|apply Hat; lia|done|done]|]. cbn [tasks awaited]. rewrite Hins.
    apply rtc_once. apply as_next; [done|]. cbn [tasks awaited]. rewrite (replicate_S_end k), <- app_assoc.
    rewrite lookup_app_r by (by rewrite length_replicate). by rewrite length_replicate, Nat.sub_diag. }
  pose proof (Hrun i (le_n i)) as Hri. pose proof (Hat i ltac:(lia)) as Hli.
  set (l := replicate i (Some (inl tt)) ++ replicate (n - i) None : list (option (unit + string))) in *.
  assert (Hlj : l !! j = Some None).
  { subst l. rewrite lookup_app_r by (rewrite length_replicate; lia). apply lookup_replicate_2. rewrite length_replicate. lia. }
  exists (mkAwaiting (<[i := Some (inr e)]> l) i (Some (inr e))).
  split; [|split; [done|cbn [tasks]; by rewrite list_lookup_insert_ne by lia]].
  etrans; [exact Hri|]. eapply rtc_l; [apply (as_ends buckets i b (inr e)); [done|exact Hli|done|done]|].
  apply rtc_once. apply as_fails; [done|]. cbn [tasks awaited]. apply list_lookup_insert_eq. by eapply lookup_lt_Some.
Qed.

(** The receiver of a copy over several paths reports success only if every path's
    transfer ended well.  So whenever there are fewer files than paths, and each is
    sent once, it never does: the connections without files fail it, in whatever order
    the connections were accepted; and if such a connection comes before one with
    files, the receiver can exit while that transfer is running. *)
Theorem idle_path_fails {A} (files : list A) (n : nat) (buckets : list (list A)) (s : Awaiting) :
  Permutation buckets (multipath_buckets false n files) ->
  rtc (await_step buckets) (Awaiting_new n) s ->
  (ended s = Some (inl tt) -> Forall (fun t => t = Some (inl tt)) (tasks s) /\ (n <= length files)%nat)
  /\ ((length files < n)%nat -> ended s <> Some (inl tt))
  /\ forall i j, (i < j < n)%nat -> (forall k, (k < i)%nat -> exists b, buckets !! k = Some b /\ b <> []) -> buckets !! i = Some [] ->
       exists s' e, rtc (await_step buckets) (Awaiting_new n) s' /\ ended s' = Some (inr e) /\ tasks s' !! j = Some None.
Proof.
  intros Hp Hr. assert (Hlen : length buckets = n).
  { rewrite Hp. unfold multipath_buckets. by rewrite length_round_robin, length_replicate. }
  assert (Hi : await_inv buckets s).
  { rewrite <- Hlen in Hr. pose proof (await_inv_new buckets) as H0. clear -Hr H0. induction Hr as [|s0 s1 s Hs _ IH]; [done|].
    apply IH. by apply (await_step_inv buckets s0). }
  destruct Hi as (Hl & Ha & Hres & He).
  assert (Hno : (length files < n)%nat -> ended s <> Some (inl tt)).
  { intros Hlt E. assert (Hin : [] ∈ multipath_buckets false n files).
    { destruct (lookup_lt_is_Some_2 (multipath_buckets false n files) (length files)) as [b Hb].
      - unfold multipath_buckets. by rewrite length_round_robin, length_replicate.
      - pose proof (proj2 (path_without_files n files _ b Hb) (le_n _)) as ->. by eapply list_elem_of_lookup_2. }
    rewrite <- Hp in Hin. apply list_elem_of_lookup_1 in Hin as [i Hb]. pose proof (lookup_lt_Some _ _ _ Hb) as Hlt2.
    rewrite (He E), Hl in Ha. specialize (Ha i Hlt2). specialize (Hres i _ Ha Hb). discriminate Hres. }
  split; [|split; [exact Hno|]].
  - intros E. split.
    + apply Forall_lookup. intros i t Ht. pose proof (lookup_lt_Some _ _ _ Ht) as Hlt. rewrite (He E) in Ha.
      rewrite (Ha i Hlt) in Ht. by injection Ht as <-.
    + destruct (Nat.le_gt_cases n (length files)) as [|Hlt]; [done|]. by destruct (Hno Hlt).
  - intros i j Hij Hbefore Hb. destruct no_stream_fails as [e He'].
    destruct (fails_while_running buckets i j [] e) as (s' & Hs'); [by rewrite Hlen|done|done|by rewrite He'|].
    rewrite Hlen in Hs'. by exists s', e.
Qed.

(** Redundant paths do not survive the loss of one: although every path sends every
    file, the receiver can end with the error of the first path while all the others
    still run. *)
Theorem redundancy_defeated {A} (files : list A) (n : nat) (e : string) : files <> [] ->
  forall j, (0 < j < n)%nat ->
  exists s, rtc (await_step (multipath_buckets true n files)) (Awaiting_new n) s /\ ended s = Some (inr e) /\ tasks s !! j = Some None.
Proof.
  intros Hf j Hj. unfold multipath_buckets. pose proof (length_replicate n files) as Hlen.
  destruct (fails_while_running (replicate n files) 0 j files e) as (s & Hs); [by rewrite Hlen|lia|apply lookup_replicate_2; lia|done|].
  rewrite Hlen in Hs. by exists s.
Qed.

Lemma redundancy_defeated_witness : exists s, rtc (await_step (multipath_buckets true 2 [7%Z])) (Awaiting_new 2) s /\ ended s = Some (inr "lost"%string) /\ tasks s !! 1%nat = Some None.
Proof. apply (redundancy_defeated [7%Z] 2 "lost"%string ltac:(discriminate) 1). lia. Defined.

Lemma idle_path_fails_witness : exists s' e, rtc (await_step [[7%Z]; []; [8%Z]]) (Awaiting_new 3) s' /\ ended s' = Some (inr e) /\ tasks s' !! 2%nat = Some None.
Proof.
  assert (Hp : Permutation [[7%Z]; []; [8%Z]] (multipath_buckets false 3 [7%Z; 8%Z])).
  { change (multipath_buckets false 3 [7%Z; 8%Z]) with [[7%Z]; [8%Z]; []]. constructor. constructor. }
  destruct (idle_path_fails [7%Z; 8%Z] 3 [[7%Z]; []; [8%Z]] (Awaiting_new 3) Hp (rtc_refl _ _)) as (_ & _ & H).
  apply (H 1%nat 2%nat); [lia| |reflexivity]. intros k Hk. destruct k as [|k]; [|lia]. exists [7%Z]. split; [reflexivity|discriminate].
Defined.
