(* ===== verification/Punch.v ===== *)
(** * Hole punching

    transport/nat.rs [HolePuncher::punch] and punch.rs: the probes a side sends, the loop
    that waits for one, and two sides that punch at the same time, each behind a NAT
    that lets packets of the other in once it has sent it one.  A side's sender stops
    as soon as it has a probe of the other. *)

From Stdlib Require Import ZArith Lia Bool List String.
From Stdlib Require Import Strings.Byte.
From stdpp Require Import base list numbers option relations.
From S2P Require Import Prelude TestCrypto Stun Net Addr.

Open Scope Z_scope.

(** ** One side *)

Definition PROBE : list byte := string_bytes "SEAM-PUNCH-PROBE-v1".

Definition MAX_PROBES : nat := 50.

(** What comes in within the five seconds; a datagram is cut to the buffer. *)
Inductive PunchEvent : Type :=
  | PunchPacket (from : SocketAddr) (data : list byte)
  | PunchError.

Definition PUNCH_BUF : nat := 256.

(** The receiver; the end of the list is the timeout. *)
Fixpoint wait_for_probe (evs : list PunchEvent) : SocketAddr + string :=
  match evs with
  | [] => inr "hole punch timeout"%string
  | PunchError :: _ => inr "hole punch failed"%string
  | PunchPacket from data :: evs => if bytes_eqb (take PUNCH_BUF data) PROBE then inl from else wait_for_probe evs
  end.

(** [punch]: our external address and the peer's. *)
Definition punch (our_external : SocketAddr) (evs : list PunchEvent) : (SocketAddr * SocketAddr) + string :=
  match wait_for_probe evs with inl verified_peer => inl (our_external, verified_peer) | inr e => inr e end.

(** punch.rs [run] with a peer: [discover] is the external address of the socket. *)
Definition punch_run (peer : list byte) (discover : SocketAddr + string) (evs : list PunchEvent) : (SocketAddr * SocketAddr) + string :=
  match parse_socket_addr peer with
  | None => inr "invalid peer address"%string
  | Some _ =>
      match discover with
      | inr _ => inr "STUN discovery failed"%string
      | inl our_external => punch our_external evs
      end
  end.

(** ** Two sides *)

(** The probes each side has sent, the probes in flight to it, and whether it has one. *)
Record Side : Type := mkSide { sent : nat; inbound : nat; got : bool }.

Definition Side_new : Side := mkSide 0 0 false.

(** A side that still sends puts a probe in flight. *)
Inductive punch_step : Side * Side -> Side * Side -> Prop :=
  | ps_send_left l r : got l = false -> (sent l < MAX_PROBES)%nat ->
      punch_step (l, r) (mkSide (S (sent l)) (inbound l) (got l), mkSide (sent r) (S (inbound r)) (got r))
  | ps_send_right l r : got r = false -> (sent r < MAX_PROBES)%nat ->
      punch_step (l, r) (mkSide (sent l) (S (inbound l)) (got l), mkSide (S (sent r)) (inbound r) (got r))
  | ps_arrive_left l r n : inbound l = S n ->
      punch_step (l, r) (mkSide (sent l) n (got l || (0 <? sent l)%nat), r)
  | ps_arrive_right l r n : inbound r = S n ->
      punch_step (l, r) (l, mkSide (sent r) n (got r || (0 <? sent r)%nat)).

(** * Properties *)

(** The probe carries nothing of the session: whoever sends it first is taken for the
    peer. *)
Lemma punch_any_sender our_external other evs : punch our_external (PunchPacket other PROBE :: evs) = inl (our_external, other).
Proof. reflexivity. Qed.

(** What is returned came with a probe, and only datagrams that are none came before. *)
Lemma wait_for_probe_first evs a : wait_for_probe evs = inl a <->
  exists before after, evs = before ++ PunchPacket a PROBE :: after
    /\ Forall (fun ev => exists from data, ev = PunchPacket from data /\ take PUNCH_BUF data <> PROBE) before.
Proof.
  induction evs as [|ev evs IH]; cbn [wait_for_probe].
  { split; [done|]. intros (before & after & E & _). by destruct before. }
  destruct ev as [from data|].
  2: { split; [done|]. intros ([|ev before] & after & E & Hb); [done|]. injection E as <- _.
       apply List.Forall_cons_iff in Hb as [(f & d & [=] & _) _]. }
  assert (Hp : forall d, take PUNCH_BUF d = PROBE -> d = PROBE).
  { intros d Hd. apply (f_equal length) in Hd as Hl. rewrite length_take in Hl. change (length PROBE) with 19%nat in Hl.
    rewrite take_ge in Hd by (unfold PUNCH_BUF in *; lia). done. }
  destruct (bytes_eqb (take PUNCH_BUF data) PROBE) eqn:E.
  - apply bytes_eqb_eq in E as Et. apply Hp in Et as ->. split.
    + intros [= ->]. by exists [], evs.
    + intros ([|ev before] & after & Ee & Hb); [by injection Ee as ->|]. injection Ee as <- _.
      apply List.Forall_cons_iff in Hb as [(f & d & [= <- <-] & Hne) _]. by destruct Hne.
  - assert (Hne : take PUNCH_BUF data <> PROBE) by (intros Et; rewrite Et, bytes_eqb_refl in E; done). rewrite IH. split.
    + intros (before & after & -> & Hb). exists (PunchPacket from data :: before), after. split; [done|]. constructor; [by do 2 eexists|done].
    + intros ([|ev before] & after & Ee & Hb).
      * injection Ee as -> ->. by destruct Hne.
      * injection Ee as <- ->. apply List.Forall_cons_iff in Hb as [_ Hb]. by exists before, after.
Qed.

Lemma punch_step_spent l r s : punch_step (l, r) s -> got l = true -> inbound r = 0%nat -> got r = false ->
  got s.1 = true /\ inbound s.2 = 0%nat /\ got s.2 = false.
Proof. intros Hs Hl Hi Hr. inversion Hs; subst; cbn in *; try congruence; try done. by rewrite Hl. Qed.

(** Hole punching can end one-sided.  A side that has a probe stops sending; if
    none of its own is in flight then, the other side never gets one, however long it
    goes on.  That happens whenever the side that began first has its first probe
    turned away by the other's NAT and receives the other's first probe before it
    sends again: it reports success, and the other times out after all its probes.
    If it has sent another one in between, both succeed. *)
Theorem punch_one_sided :
  (forall l r s, got l = true -> inbound r = 0%nat -> got r = false -> rtc punch_step (l, r) s -> got s.2 = false)
  /\ rtc punch_step (Side_new, Side_new) (mkSide 1 0 true, mkSide MAX_PROBES 0 false)
  /\ forall l r, (0 < sent r)%nat -> (0 < inbound r)%nat -> exists s, rtc punch_step (l, r) s /\ got s.2 = true.
Proof.
  split; [|split].
  - intros l r s Hl Hi Hr Hs. remember (l, r) as s0 eqn:E0. revert l r E0 Hl Hi Hr.
    induction Hs as [|s0 [l1 r1] s Hs _ IH]; intros l r -> Hl Hi Hr; [done|].
    destruct (punch_step_spent l r _ Hs Hl Hi Hr) as (H1 & H2 & H3). by apply (IH l1 r1).
  - assert (Hrest : forall n, (n <= MAX_PROBES - 1)%nat -> rtc punch_step (mkSide 1 0 true, mkSide 1 0 false) (mkSide 1 0 true, mkSide (S n) 0 false)).
    { induction n as [|n IH]; intros Hn; [apply rtc_refl|]. etrans; [apply IH; lia|].
      eapply rtc_l; [apply (ps_send_right (mkSide 1 0 true) (mkSide (S n) 0 false)); [done|cbn; lia]|].
      cbn [sent inbound got]. apply rtc_once. apply (ps_arrive_left (mkSide 1 1 true) (mkSide (S (S n)) 0 false) 0). reflexivity. }
    eapply rtc_l; [apply ps_send_left; [done|cbn; unfold MAX_PROBES; lia]|]. cbn [sent inbound got Side_new].
    eapply rtc_l; [apply (ps_arrive_right (mkSide 1 0 false) (mkSide 0 1 false) 0); reflexivity|]. cbn [sent inbound got Nat.ltb Nat.leb orb].
    eapply rtc_l; [apply (ps_send_right (mkSide 1 0 false) (mkSide 0 0 false)); [done|cbn; unfold MAX_PROBES; lia]|]. cbn [sent inbound got].
    eapply rtc_l; [apply (ps_arrive_left (mkSide 1 1 false) (mkSide 1 0 false) 0); reflexivity|]. cbn [sent inbound got Nat.ltb Nat.leb orb].
    apply (Hrest 49%nat). unfold MAX_PROBES. lia.
  - intros l r Hs Hi. destruct (inbound r) as [|n] eqn:E; [lia|].
    eexists. split; [apply rtc_once; by apply (ps_arrive_right l r n)|]. cbn [snd got]. rewrite (proj2 (Nat.ltb_lt 0 (sent r)) Hs). apply orb_true_r.
Qed.

Lemma punch_one_sided_witness : forall s, rtc punch_step (mkSide 1 0 true, mkSide 50 0 false) s -> got s.2 = false.
Proof. intros s Hs. exact (proj1 punch_one_sided (mkSide 1 0 true) (mkSide 50 0 false) s eq_refl eq_refl eq_refl Hs). Defined.
