(* ===== verification/Scan.v ===== *)
(** * Scanning

    scan.rs: the targets, the banners as they are shown, and the run: the bound on the
    probes, the semaphore that limits how many run at once, and the open ports that
    are reported.  Resolving a name and what a probe comes to are arguments. *)

From Stdlib Require Import ZArith Lia Bool List String.
From Stdlib Require Import Strings.Byte.
From stdpp Require Import base list numbers option relations.
From S2P Require Import Prelude TestCrypto Stun Net Text Specs Addr.

Open Scope Z_scope.

(** ** Targets *)

(** [IpAddr]: an IPv4 address as its number, or the bytes of an IPv6 address. *)
Inductive Ip : Type := IpV4 (ip : Z) | IpV6 (ip : list byte).

Definition parse_ip (l : list byte) : option Ip :=
  match read_ipv4_addr l with
  | Some (ip, []) => Some (IpV4 ip)
  | _ => match read_ipv6_addr l with Some (ip, []) => Some (IpV6 ip) | _ => None end
  end.

Definition expand_cidr (base : Ip) (prefix : Z) : list Ip :=
  match base with
  | IpV4 v4 => map IpV4 (expand_cidr_v4 v4 prefix)
  | IpV6 _ => [base]
  end.

(** [parse_targets]; [resolve] is the first address of a name. *)
Definition parse_targets (resolve : list byte -> option Ip) (target : list byte) : list Ip :=
  let rest := match parse_ip target with
              | Some ip => [ip]
              | None => match resolve target with Some ip => [ip] | None => [] end
              end in
  match split_once SLASH target with
  | Some (base, prefix_len) =>
      let prefix := default 32 (parse_uint U8_MAX prefix_len) in
      match parse_ip base with Some base_ip => expand_cidr base_ip prefix | None => rest end
  | None => rest
  end.

(** ** Banners *)

(** White space and zeros at the end. *)
Fixpoint trim_banner (fuel : nat) (l : list byte) : list byte :=
  match fuel with
  | O => l
  | S fuel => let l := trim_end l in
              match rev l with
              | x00 :: r => trim_banner fuel (rev r)
              | _ => l
              end
  end.

Definition shown_char (b : byte) : bool := graphic b || Byte.eqb b SPACE.

(** [grab_banner] of the bytes of a read, if it returned some in time. *)
Definition grab_banner (read : option (list byte)) : option (list byte) :=
  match read with
  | None | Some [] => None
  | Some raw =>
      let text := from_utf8_lossy (take 256 raw) in
      let text := trim_banner (S (length text)) text in
      let text := map (fun b => if Byte.eqb b x0a then SPACE else b) text in
      let text := List.filter (fun b => negb (Byte.eqb b x0d)) text in
      match take 120 (List.filter shown_char text) with
      | [] => None
      | banner => Some banner
      end
  end.

(** ** The run *)

(** What a probe came to: closed, or open with the latency and the read. *)
Definition Probe : Type := option (Z * option (list byte)).

Record ScanResult : Type := mkScanResult { sr_host : Ip; sr_port : Z; sr_latency_ms : Z; sr_banner : option (list byte) }.

Definition probe_port (ip : Ip) (port : Z) (p : Probe) : option ScanResult :=
  match p with Some (latency, read) => Some (mkScanResult ip port latency (grab_banner read)) | None => None end.

(** [run_scan]: the open ports, in the order in which they are collected, if all the
    tasks end. *)
Definition run_scan (resolve : list byte -> option Ip) (probe : Ip -> Z -> Probe) (target ports : list byte) : list ScanResult + string :=
  let ports := parse_ports ports in
  let targets := parse_targets resolve target in
  match targets with
  | [] => inr "could not resolve target"%string
  | _ =>
      match ports with
      | [] => inr "no valid ports specified"%string
      | _ =>
          match total_probes (Z.of_nat (length targets)) (Z.of_nat (length ports)) with
          | None => inr "refusing to scan"%string
          | Some _ => inl (omap (fun t => probe_port t.1 t.2 (probe t.1 t.2)) (list_prod targets ports))
          end
      end
  end.

(** The tasks: those that wait for a permit, those that probe and those that ended. *)
Record Tasks : Type := mkTasks { waiting : nat; probing : nat; finished : nat }.

Inductive scan_step (concurrency : nat) : Tasks -> Tasks -> Prop :=
  | sc_acquire w p f : (p < concurrency)%nat -> scan_step concurrency (mkTasks (S w) p f) (mkTasks w (S p) f)
  | sc_end w p f : scan_step concurrency (mkTasks w (S p) f) (mkTasks w p (S f)).

(** * Properties *)

(** A scanned host cannot write to the terminal: whatever bytes it sends, its
    banner is at most 120 printable ASCII characters, not empty, with no control
    byte. *)
Theorem banner_printable (read : option (list byte)) (banner : list byte) :
  grab_banner read = Some banner -> banner <> [] /\ (length banner <= 120)%nat /\ forallb (fun b => (32 <=? byte_val b) && (byte_val b <=? 126)) banner = true.
Proof.
  unfold grab_banner. destruct read as [[|b raw]|]; [done| |done]. cbv zeta. set (l := List.filter shown_char _).
  destruct (take 120 l) as [|c t] eqn:E; [done|]. intros [= <-]. split; [done|]. rewrite <- E. split; [rewrite length_take; lia|].
  apply forallb_forall. intros x Hx. assert (Hin : In x l).
  { rewrite <- (firstn_skipn 120 l). apply in_or_app. left. exact Hx. }
  subst l. apply filter_In in Hin as [_ Hs]. unfold shown_char in Hs. apply orb_true_iff in Hs as [Hg|Hg].
  - unfold graphic in Hg. apply andb_true_iff in Hg as [H1 H2]. apply andb_true_iff. split; [|done]. apply Z.leb_le. apply Z.leb_le in H1. lia.
  - apply byte_eqb_eq in Hg as ->. reflexivity.
Qed.

(** A scan probes what was asked for: for a network given by address within the
    bound, the ports reported are exactly those of the probes of its hosts that were
    open, each with its banner. *)
Theorem scan_reports (resolve : list byte -> option Ip) (probe : Ip -> Z -> Probe) (target ports : list byte) (rs : list ScanResult) (r : ScanResult) :
  run_scan resolve probe target ports = inl rs ->
  (In r rs <-> In (sr_host r) (parse_targets resolve target) /\ In (sr_port r) (parse_ports ports)
               /\ exists read, probe (sr_host r) (sr_port r) = Some (sr_latency_ms r, read) /\ sr_banner r = grab_banner read)
  /\ (length (parse_targets resolve target) * length (parse_ports ports) <= Z.to_nat MAX_TOTAL_PROBES)%nat.
Proof.
  unfold run_scan. destruct (parse_targets resolve target) as [|t ts] eqn:Et; [done|]. rewrite <- Et. clear Et.
  destruct (parse_ports ports) as [|q qs] eqn:Eq; [done|]. rewrite <- Eq. clear Eq.
  destruct (total_probes _ _) as [n|] eqn:En; [|done]. intros [= <-]. split.
  - rewrite <- list_elem_of_In, list_elem_of_omap. split.
    + intros ([ip port] & Hin & Hp). cbn [fst snd] in Hp. apply list_elem_of_In, in_prod_iff in Hin as [H1 H2]. unfold probe_port in Hp.
      destruct (probe ip port) as [[lat read]|] eqn:Ep; [|done]. injection Hp as <-. cbn. split; [done|]. split; [done|]. by exists read.
    + intros (H1 & H2 & read & Hp & Hb). exists (sr_host r, sr_port r). split; [by apply list_elem_of_In, in_prod_iff|].
      cbn [fst snd]. unfold probe_port. rewrite Hp. destruct r as [h p l b]. cbn in *. by rewrite Hb.
  - unfold total_probes in En. destruct (_ && _) eqn:Eb; [|done]. apply andb_true_iff in Eb as [_ Eb%Z.leb_le]. lia.
Qed.

Lemma scan_step_bound c s s' : scan_step c s s' -> (probing s <= c)%nat ->
  (probing s' <= c)%nat /\ (waiting s' + probing s' + finished s' = waiting s + probing s + finished s)%nat.
Proof. destruct 1; cbn; lia. Qed.

(** Every scan ends that may probe at all: never more probes run at once than
    allowed, and as long as that is at least one the tasks can always go on until all
    have ended; with a limit of zero none ever begins. *)
Theorem scan_ends (concurrency n : nat) (s : Tasks) : rtc (scan_step concurrency) (mkTasks n 0 0) s ->
  (probing s <= concurrency)%nat
  /\ ((0 < concurrency)%nat -> rtc (scan_step concurrency) s (mkTasks 0 0 n))
  /\ (concurrency = 0%nat -> s = mkTasks n 0 0).
Proof.
  intros Hr. assert (Hinv : (probing s <= concurrency)%nat /\ (waiting s + probing s + finished s = n)%nat).
  { remember (mkTasks n 0 0) as s0 eqn:E0.
    assert (H0 : (probing s0 <= concurrency)%nat /\ (waiting s0 + probing s0 + finished s0 = n)%nat) by (subst; cbn; lia). clear E0.
    induction Hr as [|s0 s1 s Hs _ IH]; [done|]. apply IH. apply scan_step_bound in Hs; lia. }
  destruct Hinv as [Hp Hn]. split; [done|]. split.
  - intros Hc. destruct s as [w p f]. cbn in *.
    assert (Hdrain : forall p w f, rtc (scan_step concurrency) (mkTasks w p f) (mkTasks w 0 (p + f))).
    { induction p0 as [|p0 IH]; intros w0 f0; [apply rtc_refl|]. eapply rtc_l; [apply sc_end|]. rewrite Nat.add_succ_comm. apply IH. }
    etrans; [apply Hdrain|]. replace n with (w + (p + f))%nat by lia. generalize (p + f)%nat as g. clear -Hc Hdrain.
    induction w as [|w IH]; intros g; [apply rtc_refl|]. eapply rtc_l; [by apply sc_acquire|]. eapply rtc_l; [apply sc_end|].
    rewrite Nat.add_succ_comm. apply IH.
  - intros ->. inversion Hr as [|x y z Hs]; [done|]. subst. inversion Hs; subst; lia.
Qed.

(** ** Witnesses *)

Lemma banner_printable_witness : (length (string_bytes "SSH-2.0-x [31m") <= 120)%nat.
Proof.
  refine (proj1 (proj2 (banner_printable (Some (string_bytes "SSH-2.0-x " ++ [x1b] ++ string_bytes "[31m" ++ [x0d; x0a; x00])) _ _))).
  vm_compute. reflexivity.
Defined.

Definition test_probe (ip : Ip) (port : Z) : Probe := if port =? 22 then Some (7, None) else None.

Lemma scan_reports_witness :
  In (mkScanResult (IpV4 0x0A000001) 22 7 None) (omap (fun t => probe_port t.1 t.2 (test_probe t.1 t.2)) (list_prod [IpV4 0x0A000001] [22; 80])).
Proof.
  assert (Hr : run_scan (fun _ => None) test_probe (string_bytes "10.0.0.1") (string_bytes "22,80")
               = inl (omap (fun t => probe_port t.1 t.2 (test_probe t.1 t.2)) (list_prod [IpV4 0x0A000001] [22; 80]))) by (vm_compute; reflexivity).
  apply (proj1 (scan_reports (fun _ => None) test_probe (string_bytes "10.0.0.1") (string_bytes "22,80") _ (mkScanResult (IpV4 0x0A000001) 22 7 None) Hr)).
  split; [left; vm_compute; reflexivity|]. split; [left; vm_compute; reflexivity|]. exists None. split; reflexivity.
Defined.

Lemma scan_ends_witness : rtc (scan_step 1) (mkTasks 2 0 0) (mkTasks 0 0 2).
Proof. exact (proj1 (proj2 (scan_ends 1 2 (mkTasks 2 0 0) (rtc_refl _ _))) ltac:(lia)). Defined.
