(* ===== verification/Plans.v ===== *)
(** * What a command sets up

    How copy.rs, sync.rs, watch.rs, ls.rs and mount.rs turn their arguments into a
    direction, a remote worker and settings, and the connections of a copy over several
    paths.  The output of [ssh -G], what exists locally and the configuration are
    arguments. *)

From Stdlib Require Import ZArith Lia Bool List String.
From Stdlib Require Import Strings.Byte.
From stdpp Require Import base list numbers option relations gmap.
From S2P Require Import Prelude TestCrypto Crypto Packet Identity Stun Net Text Json AuditLog KnownHosts Specs Addr Config Proc Frames Transfer Sync Share Bootstrap Main.

Open Scope Z_scope.

(** ** copy.rs *)

Record CopyArgs : Type := mkCopyArgs {
  ca_src : list byte;
  ca_dest : list byte;
  ca_no_compress : bool;
  ca_resume : bool;
  ca_direct : option (list byte);
  ca_rate : option Z;                       (* in units of the caller *)
  ca_multipath : option (list byte);
  ca_multipath_redundant : bool;
  ca_parallel : Z                           (* u8, 1 to 8 *)
}.

(** Where the announcement comes from: a line on the command line or a worker that is
    started on a remote. *)
Inductive Start : Type :=
  | StartDirect (line : list byte)
  | StartRemote (remote : RemoteInfo) (subcmd : list byte).

Record CopyPlan : Type := mkCopyPlan {
  cp_is_pull : bool;
  cp_start : Start;
  cp_host : list byte;
  cp_dest : list byte;
  cp_token : option (list byte);
  cp_opens : bool                           (* the client opens the control stream *)
}.

Definition LOOPBACK : list byte := string_bytes "127.0.0.1".

Section Plans.
(** The output of [ssh -G], and the local paths that exist and that are files. *)
Context (ssh_g : list byte -> option (list byte)) (path_exists is_file : list byte -> bool).

Definition copy_plan (fips_mode : bool) (a : CopyArgs) : CopyPlan + string :=
  let src_remote := parse_remote ssh_g (ca_src a) in
  let dst_remote := parse_remote ssh_g (ca_dest a) in
  match ca_direct a with
  | Some direct =>
      let direct_token := extract_token direct in
      let is_pull := match src_remote with Some _ => true | None => false end in
      inl (mkCopyPlan is_pull (StartDirect direct) LOOPBACK (ca_dest a) direct_token
             (negb (is_pull && match direct_token with None => true | Some _ => false end)))
  | None =>
      match src_remote, dst_remote with
      | Some _, Some _ => inr "both source and destination cannot be remote"%string
      | Some (remote, src_path), None =>
          if path_exists (ca_dest a) && is_file (ca_dest a) then inr "destination must be a directory when pulling from remote"%string
          else inl (mkCopyPlan true (StartRemote remote (send_subcmd src_path (ca_no_compress a))) (ri_host remote) (ca_dest a) None false)
      | None, Some (remote, remote_path) =>
          if negb (path_exists (ca_src a)) then inr "source not found"%string
          else inl (mkCopyPlan false (StartRemote remote (recv_subcmd remote_path fips_mode)) (ri_host remote) remote_path None true)
      | None, None => inr "at least one of source or destination must be remote (user@host:/path)"%string
      end
  end.

(** [run_multipath_push], up to the first connection: the remote, its worker and the
    local addresses. *)
Definition multipath_plan (fips_mode : bool) (multipath_str : list byte) (a : CopyArgs) : (RemoteInfo * list byte * list SocketAddr) + string :=
  match ca_direct a with
  | Some _ => inr "--multipath cannot be combined with --direct"%string
  | None =>
      match parse_remote ssh_g (ca_src a) with
      | Some _ => inr "--multipath only supports pushing to a remote destination today, not pulling"%string
      | None =>
          match parse_remote ssh_g (ca_dest a) with
          | None => inr "--multipath requires a remote destination: user@host:/path"%string
          | Some (remote, remote_path) =>
              match parse_multipath_addrs multipath_str with
              | inr e => inr e
              | inl local_addrs =>
                  if (length local_addrs <? 2)%nat then inr "--multipath requires at least 2 comma-separated addresses"%string
                  else if negb (path_exists (ca_src a)) then inr "source not found"%string
                  else inl (remote, recv_multipath_subcmd remote_path (Z.of_nat (length local_addrs)) (ca_multipath_redundant a) fips_mode,
                            local_addrs)
              end
          end
      end
  end.

(** The settings files are pushed with: compression, resuming, streams and rate. *)
Definition copy_compress (cfg : Config) (a : CopyArgs) : bool := if ca_no_compress a then false else cf_compress cfg.

Definition push_settings (cfg : Config) (a : CopyArgs) : bool * bool * Z * option Z :=
  match ca_multipath a with
  | Some _ => (copy_compress cfg a, false, 1, None)
  | None => (copy_compress cfg a, ca_resume a, ca_parallel a, ca_rate a)
  end.

(** ** sync.rs *)

Record SyncArgs : Type := mkSyncArgs {
  sa_src : list byte;
  sa_dest : list byte;
  sa_delete : bool;
  sa_no_compress : bool;
  sa_port : option Z
}.

Record SyncPlan : Type := mkSyncPlan {
  sp_is_push : bool;
  sp_local : list byte;
  sp_remote : RemoteInfo;
  sp_dir : list byte;
  sp_subcmd : list byte
}.

Definition sync_plan (a : SyncArgs) : SyncPlan + string :=
  match parse_remote ssh_g (sa_src a), parse_remote ssh_g (sa_dest a) with
  | Some _, Some _ => inr "both source and destination cannot be remote"%string
  | None, None => inr "at least one of source or destination must be remote (user@host:/path)"%string
  | None, Some (r, rdir) =>
      if negb (path_exists (sa_src a)) then inr "source directory not found"%string
      else if is_file (sa_src a) then inr "seam sync requires a directory, not a file"%string
      else inl (mkSyncPlan true (sa_src a) r rdir (sync_subcmd rdir true (sa_delete a)))
  | Some (r, rdir), None => inl (mkSyncPlan false (sa_dest a) r rdir (sync_subcmd rdir false (sa_delete a)))
  end.

Definition sync_compress (cfg : Config) (a : SyncArgs) : bool := negb (sa_no_compress a) && cf_compress cfg.

(** The remote's mode: no flag is on its command line. *)
Definition sync_recv_mode (env : option (list byte)) (file : option (list byte)) (fips_mode : bool) : bool :=
  fips_mode || effective_fips_mode env (cf_fips_mode (config_or_default file)) false.

(** ** The remote of ls.rs and of mount.rs *)

Definition ls_remote (remote : list byte) (port : option Z) : option (RemoteInfo * list byte) :=
  '(r, path) ← parse_remote ssh_g remote;
  Some (match port with Some _ => mkRemoteInfo (ri_host r) (ri_user r) port | None => r end, path).

(** [trim_end_matches('/')]. *)
Fixpoint drop_slashes (l : list byte) : list byte :=
  match l with b :: r => if Byte.eqb b SLASH then drop_slashes r else l | [] => [] end.

Definition trim_slashes (l : list byte) : list byte := rev (drop_slashes (rev l)).

Definition mount_remote (remote : list byte) (port : option Z) : option (RemoteInfo * list byte) :=
  '(r, root) ← parse_remote ssh_g remote;
  Some (mkRemoteInfo (ri_host r) (ri_user r) port, match trim_slashes root with [] => [SLASH] | root => root end).

End Plans.

(** ** forward.rs and proxy.rs *)

(** A remote without the SSH configuration. *)
Definition unresolved_remote (remote : list byte) (ssh_port : option Z) : RemoteInfo :=
  let '(user, host) := parse_userhost remote in mkRemoteInfo host user ssh_port.

Definition bind_addr (bind_all : bool) (port : Z) : list byte :=
  (if bind_all then string_bytes "0.0.0.0:" else string_bytes "127.0.0.1:") ++ dec port.

Record ForwardArgs : Type := mkForwardArgs {
  fa_spec : list byte;
  fa_remote : list byte;
  fa_via : option (list byte);
  fa_port : option Z;
  fa_bind_all : bool;
  fa_multipath : option (list byte);
  fa_multipath_redundant : bool
}.

Record ForwardPlan : Type := mkForwardPlan {
  fp_remote : RemoteInfo;
  fp_subcmd : list byte;
  fp_bind : list byte;
  fp_target : list byte * Z
}.

Definition forward_plan (a : ForwardArgs) : ForwardPlan + string :=
  match reject_unsupported_multipath (fa_multipath a) (fa_multipath_redundant a) with
  | inr e => inr e
  | inl _ =>
      match parse_forward_spec (fa_spec a) with
      | inr e => inr e
      | inl (local_port, remote_host, remote_port) =>
          let bind := bind_addr (fa_bind_all a) local_port in
          inl match fa_via a with
              | Some via => mkForwardPlan (unresolved_remote via (fa_port a)) (hop_subcmd (fa_remote a) (fa_port a)) bind (remote_host, remote_port)
              | None => mkForwardPlan (unresolved_remote (fa_remote a) (fa_port a)) (string_bytes "_forward-recv --port 0") bind (remote_host, remote_port)
              end
      end
  end.

(** The remote, its command line and the listener of a proxy. *)
Definition proxy_plan (remote : list byte) (ssh_port : option Z) (bind_all : bool) (port : Z) : RemoteInfo * list byte * list byte :=
  (unresolved_remote remote ssh_port, string_bytes "_proxy-recv --port 0", bind_addr bind_all port).

(** ** The connections of a copy over several paths *)

Section Paths.
Context {K : Kem} {H : PlainHash} {Id Conn : Type} (identity : Id).
(** Connecting from a local address. *)
Context (connect : SocketAddr -> SocketAddr -> Id -> list byte -> KemPublicKey -> Conn + string).
Context (policy : PinPolicy) (host : list byte) (port : Z) (x25519 : list byte) (kem_pk : KemPublicKey).

(** The other paths, in the order in which they get to the pin file; [saved] says for
    each whether it could be written. *)
Fixpoint dial_others (paths : list (SocketAddr * bool)) (pins : option (list byte)) : list (Conn + string) * option (list byte) :=
  match paths with
  | [] => ([], pins)
  | (local_addr, saved) :: paths =>
      let '(conn, pins) := dial identity (connect local_addr) policy saved host port x25519 kem_pk pins in
      let '(conns, pins) := dial_others paths pins in
      (conn :: conns, pins)
  end.

(** The first path alone, then the others; the first error is that of the copy. *)
Definition dial_paths (first : SocketAddr) (saved : bool) (others : list (SocketAddr * bool)) (pins : option (list byte))
  : (list Conn + string) * option (list byte) :=
  match dial identity (connect first) policy saved host port x25519 kem_pk pins with
  | (inr e, pins) => (inr e, pins)
  | (inl conn, pins) =>
      let '(conns, pins) := dial_others others pins in
      (fold_right (fun c acc => match c, acc with
                                | inr e, _ => inr e
                                | inl _, inr e => inr e
                                | inl c, inl cs => inl (c :: cs)
                                end) (inl []) (inl conn :: conns), pins)
  end.

End Paths.

(** * Properties *)

(** ** A copy and its worker *)

(** send.rs opens the control stream; recv.rs waits for one. *)
Definition worker_opens (w : Worker) : bool := match w with WSend _ _ => true | _ => false end.

(** A copy starts the worker it then talks to: exactly one of its paths is remote, the
    worker is the sender of the source for a pull and a receiver into the destination,
    in the copy's own mode, for a push, the connection goes to the host it was started
    on, and exactly one of the two opens the control stream. *)
Theorem copy_meets_its_worker ssh_g path_exists is_file (fips_mode : bool) (a : CopyArgs) (p : CopyPlan) (r : RemoteInfo) (subcmd : list byte) :
  copy_plan ssh_g path_exists is_file fips_mode a = inl p -> cp_start p = StartRemote r subcmd ->
  exists w, subcmd = worker_subcmd w /\ cp_host p = ri_host r /\ cp_opens p = negb (worker_opens w)
    /\ if cp_is_pull p
       then exists path, parse_remote ssh_g (ca_src a) = Some (r, path) /\ parse_remote ssh_g (ca_dest a) = None
              /\ w = WSend path (ca_no_compress a) /\ cp_dest p = ca_dest a
       else exists path, parse_remote ssh_g (ca_src a) = None /\ parse_remote ssh_g (ca_dest a) = Some (r, path)
              /\ w = WRecv path fips_mode /\ path_exists (ca_src a) = true.
Proof.
  unfold copy_plan. intros Hp Hs. destruct (ca_direct a) as [direct|]; [by injection Hp as <-|].
  destruct (parse_remote ssh_g (ca_src a)) as [[rs ps]|] eqn:Es, (parse_remote ssh_g (ca_dest a)) as [[rd pd]|] eqn:Ed; try done.
  - destruct (path_exists _ && is_file _); [done|]. injection Hp as <-. injection Hs as <- <-. exists (WSend ps (ca_no_compress a)).
    split_and!; try done. by exists ps.
  - destruct (path_exists (ca_src a)) eqn:Ex; [|done]. injection Hp as <-. injection Hs as <- <-. exists (WRecv pd fips_mode).
    split_and!; try done. by exists pd.
Qed.

(** The remote shell does not expand what is quoted: a destination below the home
    directory is one below a directory of that name. *)
Lemma home_not_expanded : worker_argv (WRecv (string_bytes "~/.local/bin/") false)
  = map string_bytes ["recv"; "~/.local/bin/"; "--port"; "0"; "--once"]%string.
Proof. reflexivity. Qed.

(** Over several paths, resuming, parallel streams and the rate are not used. *)
Lemma multipath_drops_settings (cfg : Config) (a : CopyArgs) : is_Some (ca_multipath a) ->
  push_settings cfg a = (copy_compress cfg a, false, 1, None).
Proof. intros [m Hm]. unfold push_settings. by rewrite Hm. Qed.

(** ** The pin file and several paths *)

Section PathProps.
Context {K : Kem} {H : PlainHash} {HL : PlainHashLaws H} {Id Conn : Type} (identity : Id).
Context (connect : SocketAddr -> SocketAddr -> Id -> list byte -> KemPublicKey -> Conn + string).
Context (policy : PinPolicy) (host : list byte) (port : Z) (x25519 : list byte) (kem_pk : KemPublicKey).

(** Once a key was verified with the pin file saved, verifying it again changes
    nothing. *)
Lemma verified_again (saved : bool) (pins pins1 : option (list byte)) : file_ok pins -> host_ok host ->
  verify_or_pin host x25519 policy true pins = (inl tt, pins1) -> verify_or_pin host x25519 policy saved pins1 = (inl tt, pins1).
Proof.
  intros Hf Hh Hv. assert (Hl : policy <> InsecureIgnore ->
    verify_or_pin_locked host (fingerprint x25519) true pins = (inl tt, pins1) ->
    verify_or_pin_locked host (fingerprint x25519) saved pins1 = (inl tt, pins1)).
  { intros _. unfold verify_or_pin_locked. destruct (load_pins pins !! host) as [fp|] eqn:E.
    - destruct (bytes_eqb fp (fingerprint x25519)) eqn:Eb; [|done]. intros [= <-]. by rewrite E, Eb.
    - intros [= <-]. rewrite save_load by (apply pins_ok_insert; [done|done|apply fingerprint_ok]).
      by rewrite lookup_insert_eq, bytes_eqb_refl. }
  unfold verify_or_pin in *. destruct policy; try by apply Hl. by injection Hv as <-.
Qed.

(** The first path settles the pin: whatever the order in which the other paths get
    to the pin file, and whether they could write it or not, none of them changes it
    and each comes to what its connecting comes to. *)
Theorem first_path_settles_pin (first : SocketAddr) (conn : Conn) (others : list (SocketAddr * bool)) (pins pins1 : option (list byte)) :
  file_ok pins -> host_ok host -> dial identity (connect first) policy true host port x25519 kem_pk pins = (inl conn, pins1) ->
  exists server_addr, parse_socket_addr (host ++ [COLON] ++ dec port) = Some server_addr
    /\ dial_others identity connect policy host port x25519 kem_pk others pins1
       = (map (fun p => connect p.1 server_addr identity x25519 kem_pk) others, pins1).
Proof.
  intros Hf Hh Hd. unfold dial in Hd. destruct (verify_or_pin host x25519 policy true pins) as [[[]|e] pins'] eqn:Ev; [|done].
  destruct (parse_socket_addr _) as [addr|] eqn:Ea; [|done]. injection Hd as _ <-. exists addr. split; [done|].
  induction others as [|[local saved] others IH]; [done|]. cbn [dial_others map fst]. unfold dial.
  rewrite (verified_again saved pins pins' Hf Hh Ev), Ea, IH. done.
Qed.

End PathProps.

(** ** Forwards *)

(** Without --bind-all the listener is on the loopback address, with it on all. *)
Lemma bind_addr_parses (bind_all : bool) (port : Z) : is_u 16 port ->
  parse_socket_addr (bind_addr bind_all port) = Some (AddrV4 (if bind_all then 0 else 0x7F000001) port).
Proof.
  intros Hp. transitivity (parse_socket_addr (addr_to_string (AddrV4 (if bind_all then 0 else 0x7F000001) port))).
  - by destruct bind_all.
  - apply parse_v4_text; [|done]. destruct bind_all; unfold is_u; lia.
Qed.

(** A forward listens where it was told to and nowhere else, and its target travels
    unchanged; over a relay it is the relay that is started and connected to, with the
    remote as the relay's argument. *)
Theorem forward_plan_spec (a : ForwardArgs) (p : ForwardPlan) : forward_plan a = inl p ->
  exists local_port, parse_forward_spec (fa_spec a) = inl (local_port, (fp_target p).1, (fp_target p).2)
    /\ (is_u 16 local_port -> parse_socket_addr (fp_bind p) = Some (AddrV4 (if fa_bind_all a then 0 else 0x7F000001) local_port))
    /\ fp_remote p = unresolved_remote (default (fa_remote a) (fa_via a)) (fa_port a)
    /\ fp_subcmd p = match fa_via a with Some _ => worker_subcmd (WHop (fa_remote a) (fa_port a)) | None => string_bytes "_forward-recv --port 0" end
    /\ fa_multipath a = None.
Proof.
  unfold forward_plan. destruct (reject_unsupported_multipath _ _) eqn:Er; [|done].
  destruct (parse_forward_spec (fa_spec a)) as [[[lp host] rp]|e] eqn:Es; [|done]. intros [= <-]. exists lp.
  assert (Hm : fa_multipath a = None) by (unfold reject_unsupported_multipath in Er; by destruct (fa_multipath a)).
  destruct (fa_via a) as [via|]; cbn; (split_and!; [done|by apply bind_addr_parses|done|done|done]).
Qed.

(** These commands do not ask the SSH configuration: the host they connect to is what
    was typed, also when it is an alias that SSH knows by another name. *)
Lemma host_as_typed remote port : ri_host (unresolved_remote remote port) = (parse_userhost remote).2.
Proof. unfold unresolved_remote. by destruct (parse_userhost remote). Qed.

(** ** Modes of a synchronisation *)

(** [-p] is not used. *)
Lemma sync_port_unused ssh_g path_exists is_file (a : SyncArgs) (port : option Z) :
  sync_plan ssh_g path_exists is_file (mkSyncArgs (sa_src a) (sa_dest a) (sa_delete a) (sa_no_compress a) port)
  = sync_plan ssh_g path_exists is_file a.
Proof. reflexivity. Qed.

(** The port of the SSH configuration is lost without a flag. *)
Lemma mount_port_dropped ssh_g remote r root : mount_remote ssh_g remote None = Some (r, root) -> ri_ssh_port r = None.
Proof. unfold mount_remote. destruct (parse_remote ssh_g remote) as [[r' p]|]; [|done]. cbn. by intros [= <- _]. Qed.

Lemma trim_slashes_spec l : exists n, l = trim_slashes l ++ repeat SLASH n /\ forall p, trim_slashes l <> p ++ [SLASH].
Proof.
  unfold trim_slashes. assert (Hd : forall l, exists n, l = repeat SLASH n ++ drop_slashes l /\ hd x00 (drop_slashes l) <> SLASH).
  { clear l. induction l as [|b l (n & Hl & Hh)]; [by exists 0%nat|]. cbn [drop_slashes]. destruct (Byte.eqb b SLASH) eqn:E.
    - apply byte_eqb_eq in E as ->. exists (S n). cbn [repeat app]. by rewrite <- Hl.
    - exists 0%nat. split; [done|]. cbn [hd]. intros Hb. by rewrite Hb in E. }
  destruct (Hd (rev l)) as (n & Hl & Hh). exists n. split.
  - rewrite <- (rev_involutive l) at 1. rewrite Hl at 1. rewrite rev_app_distr. f_equal. clear. induction n as [|n IH]; [done|].
    cbn [repeat rev]. rewrite IH. clear. induction n as [|n IH]; [done|]. cbn. by rewrite IH.
  - intros p Hp. apply (f_equal (@rev byte)) in Hp. rewrite rev_involutive, rev_app_distr in Hp. rewrite Hp in Hh. by apply Hh.
Qed.

Section SyncModes.
Context {F : FileHash} {FL : FileHashLaws F} {ZS : Zstd} {ZL : ZstdLaws ZS} (walk : Files -> list (list byte)).
Hypothesis walk_spec : forall fs p, p ∈ walk fs <-> is_Some (fs !! p).
Context {T : Toml}.

(** FIPS mode is not passed on: a push in it, to a remote that is not in it by its own
    environment or configuration, is refused in its first file. *)
Theorem sync_fips_refused delete_extra compress fuel (fsS fsR : Files) (env file : option (list byte)) :
  sync_recv_mode env file false = false ->
  tree_ok walk fsS -> tree_ok walk fsR -> (forall p, is_Some (fsS !! p) -> dangerous p = false) -> fsS <> ∅ ->
  (fuel_for fsS (walk fsS) <= fuel)%nat -> modes_differ true false fsS fsR ->
  exists g path content msg, fsS !! path = Some content
    /\ forall s, runs (mkSys (push_client walk delete_extra compress true fsS)
                             (push_server walk fuel delete_extra compress (sync_recv_mode env file false) fsR) [] []) s ->
       runs s (mkSys (PRecv g) (PRet (<[path := content]> fsR, inr msg)) [] []).
Proof. intros ->. intros. by apply (mode_mismatch_refused walk walk_spec). Qed.

End SyncModes.

(** ** Witnesses *)

Definition test_copy : CopyArgs := mkCopyArgs (string_bytes "notes.txt") (string_bytes "host:/srv") false false None None None false 1.

Lemma copy_meets_its_worker_witness : exists w,
  recv_subcmd (string_bytes "/srv") true = worker_subcmd w /\ w = WRecv (string_bytes "/srv") true.
Proof.
  destruct (copy_meets_its_worker (fun _ => None) (fun _ => true) (fun _ => true) true test_copy
    (mkCopyPlan false (StartRemote (mkRemoteInfo (string_bytes "host") None None) (recv_subcmd (string_bytes "/srv") true)) (string_bytes "host")
       (string_bytes "/srv") None true)
    (mkRemoteInfo (string_bytes "host") None None) (recv_subcmd (string_bytes "/srv") true) eq_refl eq_refl)
    as (w & Hw & _ & _ & path & _ & Hp & -> & _).
  assert (E : path = string_bytes "/srv") by (vm_compute in Hp; by injection Hp as <-). subst path.
  exists (WRecv (string_bytes "/srv") true). by split.
Defined.

Definition test_dial (local server : SocketAddr) (id : unit) (x25519 : list byte) (kem_pk : KemPublicKey) : SocketAddr + string := inl local.

Lemma first_path_settles_pin_witness : exists pins server_addr,
  dial_others tt test_dial TrustOnFirstUse (string_bytes "10.0.0.1") 7000 (repeat x07 32) (kem_public (kem_from_seed []))
    [(AddrV4 3 0, true); (AddrV4 2 0, false)] pins
  = (map (fun p => test_dial p.1 server_addr tt (repeat x07 32) (kem_public (kem_from_seed []))) [(AddrV4 3 0, true); (AddrV4 2 0, false)], pins).
Proof.
  destruct (dial tt (test_dial (AddrV4 1 0)) TrustOnFirstUse true (string_bytes "10.0.0.1") 7000 (repeat x07 32) (kem_public (kem_from_seed [])) None)
    as [r pins] eqn:E.
  assert (Hr : r = inl (AddrV4 1 0)) by (apply (f_equal fst) in E; cbn [fst] in E; rewrite <- E; reflexivity). subst r.
  destruct (first_path_settles_pin tt test_dial TrustOnFirstUse (string_bytes "10.0.0.1") 7000 (repeat x07 32) (kem_public (kem_from_seed []))
    (AddrV4 1 0) (AddrV4 1 0) [(AddrV4 3 0, true); (AddrV4 2 0, false)] None pins) as (addr & _ & H).
  - apply empty_file_ok.
  - split; [split; [discriminate|]|]; reflexivity.
  - exact E.
  - by exists pins, addr.
Defined.
