(* ===== verification/Deploy.v ===== *)
(** * Ending and replacing the SSH child

    The end of the child that a remote worker was started with (ssh.rs), and the SSH
    client in Rust (russh_client.rs): its check of the host key, its ways to
    authenticate, the output of a command, copying the program with the SCP protocol.
    What the library and the terminal do is an argument. *)

From Stdlib Require Import ZArith Lia Bool List String.
From Stdlib Require Import Strings.Byte.
From stdpp Require Import base list numbers option gmap.
From S2P Require Import Prelude TestCrypto Crypto Packet Identity Stun Net Text Json AuditLog KnownHosts Specs Addr Proc Mount Bootstrap.

Open Scope Z_scope.

(** ** The end of a child *)

(** What [try_wait] says, and how [terminate] ends: the child is reaped after it exited
    by itself or was killed, or the polling failed. *)
Inductive Poll : Type := Exited | Running | PollError.
Inductive Ended : Type := ReapedExited | ReapedKilled | PollFailed.

Definition GRACE_MS : Z := 500.
Definition POLL_MS : Z := 20.

(** [now] and [poll] are the clock and the child at the [i]th look. *)
Fixpoint terminate_loop (fuel : nat) (now : nat -> Z) (poll : nat -> Poll) (deadline : Z) (i : nat) : option Ended :=
  match fuel with
  | O => None
  | S fuel =>
      match poll i with
      | Exited => Some ReapedExited
      | PollError => Some PollFailed
      | Running => if deadline <=? now i then Some ReapedKilled else terminate_loop fuel now poll deadline (S i)
      end
  end.

Definition terminate (fuel : nat) (start : Z) (now : nat -> Z) (poll : nat -> Poll) : option Ended :=
  terminate_loop fuel now poll (start + GRACE_MS) 0.

(** ** The client in Rust *)

(** [check_server_key]: the answer of the pin file for a plain key, with [None] for a
    changed key; the second part is whether the key is recorded. *)
Definition check_server_key (plain : bool) (known : option bool) : bool * bool :=
  if negb plain then (false, false)
  else match known with
       | Some true => (true, false)
       | Some false => (true, true)
       | None => (false, false)
       end.

Definition KEY_NAMES : list string := ["id_ed25519"; "id_rsa"; "id_ecdsa"]%string.

(** A key file: missing, not usable, or what the server says of its key, with [None]
    for an error. *)
Inductive KeyFile : Type := KeyMissing | KeyUnusable | KeyTried (answer : option bool).

Inductive Auth : Type := AuthKey (name : string) | AuthPassword | AuthFailed (msg : string).

(** The files in order, then the password: its answer, with [None] for an error. *)
Fixpoint try_keys (names : list string) (file : string -> KeyFile) (password : option bool) : Auth :=
  match names with
  | [] => match password with
          | Some true => AuthPassword
          | Some false => AuthFailed "SSH authentication failed"
          | None => AuthFailed "SSH password auth"
          end
  | name :: names =>
      match file name with
      | KeyTried (Some true) => AuthKey name
      | KeyMissing | KeyUnusable | KeyTried _ => try_keys names file password
      end
  end.

Definition connect_and_auth (file : string -> KeyFile) (password : option bool) : Auth := try_keys KEY_NAMES file password.

(** [read_password_tty] over the bytes that come from the terminal; the second part is
    whether echoing is on again. *)
Fixpoint read_password (input buf : list byte) : (list byte + string) * bool :=
  match input with
  | [] => (inr "end of input"%string, false)
  | b :: input =>
      if Byte.eqb b x0a || Byte.eqb b x0d
      then (match from_utf8 buf with Some p => inl p | None => inr "password not valid UTF-8"%string end, true)
      else read_password input (buf ++ [b])
  end.

(** [run_command]: the output, as text. *)
Fixpoint russh_output (output : list byte) (msgs : list ChannelMsg) : list byte :=
  match msgs with
  | [] | ChEof :: _ | ChExitStatus _ :: _ => output
  | ChData data :: msgs => russh_output (output ++ from_utf8_lossy data) msgs
  | ChOther :: msgs => russh_output output msgs
  end.

Definition russh_run_command (msgs : list ChannelMsg) : list byte := trim (russh_output [] msgs).

(** ** Copying the program *)

Definition scp_cmd (remote_path : list byte) : list byte := string_bytes "scp -t " ++ shell_quote remote_path.

Definition scp_header (len : nat) (remote_file : list byte) : list byte :=
  string_bytes "C0755 " ++ dec (Z.of_nat len) ++ [SPACE] ++ remote_file ++ [x0a].

(** The acknowledgement of the header, and the messages after it. *)
Fixpoint header_ack (msgs : list ChannelMsg) : list ChannelMsg + string :=
  match msgs with
  | [] | ChEof :: _ => inr "SCP: closed after header"%string
  | ChData (x00 :: _) :: msgs => inl msgs
  | ChData _ :: _ => inr "SCP header ack error"%string
  | ChExitStatus _ :: msgs | ChOther :: msgs => header_ack msgs
  end.

(** That of the data; the end of the channel is taken for one. *)
Fixpoint data_ack (msgs : list ChannelMsg) : unit + string :=
  match msgs with
  | [] | ChEof :: _ | ChExitStatus _ :: _ => inl tt
  | ChData (x00 :: _) :: _ => inl tt
  | ChData _ :: _ => inr "SCP data ack error"%string
  | ChOther :: msgs => data_ack msgs
  end.

(** [copy_file_to_remote] once the command runs: what is sent, and the outcome. *)
Definition copy_file_to_remote (data remote_path : list byte) (msgs : list ChannelMsg) : list (list byte) * (unit + string) :=
  let header := scp_header (length data) (shown_name remote_path) in
  match header_ack msgs with
  | inr e => ([header], inr e)
  | inl msgs => ([header; data; [x00]], data_ack msgs)
  end.

(** [start_remote_seam_russh]: the user, and the line of the client in Rust or else of
    the one of the system. *)
Definition russh_user (user env_user env_logname : option (list byte)) : list byte :=
  default (string_bytes "root") (match user with Some u => Some u | None => match env_user with Some u => Some u | None => env_logname end end).

Definition start_remote_seam_russh (msgs : list ChannelMsg) (output : list byte) : list byte + string :=
  match russh_start_remote_seam msgs with inl line => inl line | inr _ => start_remote_seam output end.

(** * Properties *)

(** A child is given its grace and then ended: with a clock that advances by at
    least the sleep between two looks, [terminate] returns after at most 26 looks; the
    child is reaped unless polling it fails, and is killed only if it was seen running
    500 ms after the start. *)
Theorem terminate_ends (start : Z) (now : nat -> Z) (poll : nat -> Poll) :
  (forall i, start + POLL_MS * Z.of_nat i <= now i) ->
  exists e, terminate 26 start now poll = Some e
    /\ match e with
       | ReapedExited => exists i, poll i = Exited
       | ReapedKilled => exists i, poll i = Running /\ start + GRACE_MS <= now i /\ forall j, (j < i)%nat -> poll j = Running
       | PollFailed => exists i, poll i = PollError
       end.
Proof.
  intros Hn. unfold terminate, GRACE_MS, POLL_MS in *.
  assert (Hl : forall fuel i, (26 <= fuel + i)%nat -> (i < 26)%nat -> (forall j, (j < i)%nat -> poll j = Running) ->
    exists e, terminate_loop fuel now poll (start + 500) i = Some e
    /\ match e with
       | ReapedExited => exists i, poll i = Exited
       | ReapedKilled => exists i, poll i = Running /\ start + 500 <= now i /\ forall j, (j < i)%nat -> poll j = Running
       | PollFailed => exists i, poll i = PollError
       end).
  { induction fuel as [|fuel IH]; intros i Hf Hi Hj; [lia|]. cbn [terminate_loop]. destruct (poll i) eqn:Ep.
    - eexists. split; [done|]. by exists i.
    - destruct (start + 500 <=? now i) eqn:Ed.
      + eexists. split; [done|]. exists i. apply Z.leb_le in Ed. done.
      + apply Z.leb_gt in Ed. specialize (Hn i). apply IH; [lia|lia|]. intros j Hlt.
        destruct (Nat.eq_dec j i) as [->|]; [done|]. apply Hj. lia.
    - eexists. split; [done|]. by exists i. }
  apply (Hl 26%nat 0%nat); lia.
Qed.

(** The password is asked for only if no key is accepted, and the first key that is
    accepted is used. *)
Lemma connect_and_auth_spec file password :
  match connect_and_auth file password with
  | AuthKey name => file name = KeyTried (Some true)
  | AuthPassword => password = Some true /\ Forall (fun n => file n <> KeyTried (Some true)) KEY_NAMES
  | AuthFailed _ => password <> Some true /\ Forall (fun n => file n <> KeyTried (Some true)) KEY_NAMES
  end.
Proof.
  unfold connect_and_auth. generalize KEY_NAMES as names. induction names as [|name names IH]; cbn [try_keys].
  - destruct password as [[|]|]; split; done.
  - destruct (file name) as [| |[[|]|]] eqn:E; try done; destruct (try_keys names file password); try done;
      (destruct IH as [H1 H2]; split; [done|constructor; [by rewrite E|done]]).
Qed.

(** A changed host key is never accepted, and only a new one is recorded. *)
Lemma check_server_key_spec plain known : (check_server_key plain known).1 = true -> plain = true /\ known <> None.
Proof. destruct plain, known as [[|]|]; done. Qed.

(** An interrupted password leaves the terminal without echo. *)
Lemma echo_left_off input buf : Forall (fun b => b <> x0a /\ b <> x0d) input -> (read_password input buf).2 = false.
Proof.
  revert buf. induction input as [|b input IH]; intros buf Hi; [done|]. apply List.Forall_cons_iff in Hi as [[H1 H2] Hi].
  cbn [read_password]. rewrite (byte_eqb_neq b x0a H1), (byte_eqb_neq b x0d H2). by apply IH.
Qed.

(** Messages are decoded one by one: a character that two of them share is lost. *)
Lemma russh_output_cuts : russh_run_command [ChData [xc3]; ChData [xa9]] <> from_utf8_lossy [xc3; xa9].
Proof. by vm_compute. Qed.

(** ** The SCP protocol *)

(** A receiver of the protocol: a header line, as many bytes as it says, a zero. *)
Definition scp_receive (input : list byte) : option (list byte * list byte) :=
  '(header, rest) ← split_once x0a input;
  line ← strip_prefix (string_bytes "C0755 ") header;
  '(size, name) ← split_once SPACE line;
  n ← parse_uint U64_MAX size;
  match drop (Z.to_nat n) rest with
  | [x00] => Some (name, take (Z.to_nat n) rest)
  | _ => None
  end.

Lemma dec_without n b : 0 <= n -> digit_val b = None -> Forall (fun c => c <> b) (dec n).
Proof. intros Hn Hb. eapply List.Forall_impl; [|by apply dec_digits]. intros c [v Hc] ->. by rewrite Hb in Hc. Qed.

(** What the client sends once its header was acknowledged is a file of the SCP
    protocol: a receiver gets the data under the last component of the path. *)
Theorem scp_roundtrip (data remote_path : list byte) (msgs : list ChannelMsg) :
  is_u 64 (Z.of_nat (length data)) -> Forall (fun b => b <> x0a) (shown_name remote_path) ->
  (copy_file_to_remote data remote_path msgs).1 = [scp_header (length data) (shown_name remote_path)]
  \/ scp_receive (concat (copy_file_to_remote data remote_path msgs).1) = Some (shown_name remote_path, data).
Proof.
  intros Hd Hn. unfold copy_file_to_remote. destruct (header_ack msgs) as [rest|e]; [right|by left]. cbn [fst concat]. rewrite app_nil_r.
  set (name := shown_name remote_path) in *. set (n := Z.of_nat (length data)) in *. unfold is_u in Hd.
  assert (E : scp_header (length data) name ++ data ++ [x00] = (string_bytes "C0755 " ++ dec n ++ SPACE :: name) ++ x0a :: data ++ [x00]).
  { unfold scp_header. fold n. rewrite <- !app_assoc. reflexivity. }
  rewrite E. unfold scp_receive. rewrite (proj2 (split_once_Some x0a _ (string_bytes "C0755 " ++ dec n ++ SPACE :: name) (data ++ [x00]))).
  - cbn [mbind option_bind]. rewrite strip_prefix_app. cbn [mbind option_bind].
    rewrite (proj2 (split_once_Some SPACE _ (dec n) name)) by (split; [done|]; apply dec_without; [lia|done]). cbn [mbind option_bind].
    rewrite parse_uint_dec by (unfold U64_MAX; lia). cbn [mbind option_bind]. unfold n. rewrite Nat2Z.id.
    by rewrite drop_app_length, take_app_length.
  - split; [done|]. apply List.Forall_app. split; [repeat constructor; discriminate|]. apply List.Forall_app.
    split; [apply dec_without; [lia|done]|]. by constructor.
Qed.

(** The last acknowledgement does not tell a copy that went wrong: a failure of the
    remote command counts as success, and a receiver that acknowledges its start is one
    ahead, so that its verdict on the data is never read. *)
Lemma scp_failure_unseen data remote_path code :
  (copy_file_to_remote data remote_path [ChData [x00]; ChExitStatus code]).2 = inl tt.
Proof. reflexivity. Qed.

Lemma scp_verdict_unread data remote_path verdict :
  (copy_file_to_remote data remote_path [ChData [x00]; ChData [x00]; ChData verdict]).2 = inl tt.
Proof. reflexivity. Qed.

(** ** Witnesses *)

Lemma terminate_ends_witness : exists e, terminate 26 0 (fun i => 25 * Z.of_nat i) (fun _ => Running) = Some e /\ e = ReapedKilled.
Proof.
  destruct (terminate_ends 0 (fun i => 25 * Z.of_nat i) (fun _ => Running) ltac:(intros i; unfold POLL_MS; lia)) as ([| |] & He & Hx).
  - by destruct Hx as [i Hi].
  - by exists ReapedKilled.
  - by destruct Hx as [i Hi].
Defined.

Lemma scp_roundtrip_witness :
  scp_receive (concat (copy_file_to_remote [x7f; x45] (string_bytes "~/.local/bin/seam") [ChData [x00]; ChData [x00]]).1)
  = Some (string_bytes "seam", [x7f; x45]).
Proof.
  destruct (scp_roundtrip [x7f; x45] (string_bytes "~/.local/bin/seam") [ChData [x00]; ChData [x00]]) as [H|H].
  - cbn. unfold is_u. lia.
  - repeat constructor; discriminate.
  - discriminate H.
  - exact H.
Defined.
