(* ===== verification/AuditTable.v ===== *)
(** * The table and the clearing of the audit log

    What [seam audit show] prints of a record's remote and exit code, and
    [seam audit clear] (audit.rs). *)

From Stdlib Require Import ZArith Lia Bool List String.
From Stdlib Require Import Strings.Byte.
From stdpp Require Import base list numbers option gmap.
From S2P Require Import Prelude TestCrypto Crypto Packet Stun Net Identity Text Json AuditLog Tui.

Open Scope Z_scope.

(** The columns of a record; [None] is a panic. *)
Definition exit_cell (r : AuditRecord) : list byte :=
  match ar_exit_code r with
  | Some n => if n =? 0 then string_bytes "ok" else string_bytes "err(" ++ (if n <? 0 then [x2d] ++ dec (- n) else dec n) ++ string_bytes ")"
  | None => string_bytes "-"
  end.

Definition remote_cell (r : AuditRecord) : option (list byte) :=
  if (28 <? length (ar_remote r))%nat then (fun s => s ++ ELLIPSIS) <$> str_slice (ar_remote r) 0 27 else Some (ar_remote r).

(** The rows of the table, each with the columns above; the first panic is the end. *)
Definition table (records : list (list byte * AuditRecord)) : option (list (list byte * list byte)) :=
  mapM (fun r => remote ← remote_cell r.2; Some (remote, exit_cell r.2)) records.

(** [clear]: [answer] is the line read from the terminal, and [saved] whether the
    empty file could be written and renamed. *)
Definition clear (yes : bool) (answer : option (list byte)) (saved : bool) (file : option (list byte)) : (unit + string) * option (list byte) :=
  match file with
  | None => (inl tt, None)
  | Some f =>
      if negb yes && negb (bytes_eqb (trim (default [] answer)) (string_bytes "yes")) then (inl tt, Some f)
      else if saved then (inl tt, Some []) else (inr "write failed"%string, Some f)
  end.

(** * Properties *)

(** Showing the log panics exactly if a record to be shown has a remote of more
    than 28 bytes whose 27th byte is inside a character; otherwise the table has a row
    for each record, in order. *)
Theorem table_panics (records : list (list byte * AuditRecord)) :
  (table records = None <-> exists r, r ∈ records /\ (28 < length (ar_remote r.2))%nat /\ is_char_boundary (ar_remote r.2) 27 = false)
  /\ forall rows, table records = Some rows -> map snd rows = map (fun r => exit_cell r.2) records.
Proof.
  assert (Hc : forall r, remote_cell r = None <-> (28 < length (ar_remote r))%nat /\ is_char_boundary (ar_remote r) 27 = false).
  { intros r. unfold remote_cell. destruct (28 <? length (ar_remote r))%nat eqn:El.
    - apply Nat.ltb_lt in El. unfold str_slice. change (0 <=? 27)%nat with true. change (is_char_boundary (ar_remote r) 0) with true. cbn [andb].
      destruct (is_char_boundary (ar_remote r) 27); cbn; split; [done|by intros [_ ?]|done|done].
    - apply Nat.ltb_ge in El. split; [done|]. intros [H _]. lia. }
  split.
  - unfold table. induction records as [|r records IH]; cbn [mapM]; [split; [done|intros (r & Hr & _); by apply not_elem_of_nil in Hr]|].
    destruct (remote_cell r.2) as [c|] eqn:E; cbn [mbind option_bind].
    + destruct (mapM _ records) as [rows|]; cbn [mbind option_bind].
      * split; [done|]. intros (q & [->|Hq]%elem_of_cons & H); [by apply Hc in H; rewrite E in H|]. exfalso.
        assert (Hn : Some rows = None) by (apply IH; by exists q). done.
      * split; [|done]. intros _. destruct (proj1 IH eq_refl) as (q & Hq & H). exists q. split; [by right|done].
    + split; [|done]. intros _. exists r. split; [by left|]. by apply Hc.
  - intros rows. unfold table. revert rows. induction records as [|r records IH]; intros rows; cbn [mapM]; [by intros [= <-]|].
    destruct (remote_cell r.2) as [c|]; [|done]. cbn [mbind option_bind]. destruct (mapM _ records) as [rows'|] eqn:Em; [|done].
    cbn. intros [= <-]. cbn. by rewrite (IH rows' eq_refl).
Qed.

(** Clearing asks: without the flag and the word nothing changes. *)
Lemma clear_asks answer saved file : trim (default [] answer) <> string_bytes "yes" -> (clear false answer saved file).2 = file.
Proof.
  intros Ha. unfold clear. destruct file as [f|]; [|done]. destruct (bytes_eqb _ _) eqn:E; [|done]. by apply bytes_eqb_eq in E.
Qed.

Section Cleared.
Context {H : PlainHash} {J : SerdeJson}.

(** A cleared log goes on as a new one: its chain does not tell that there were
    entries. *)
Lemma cleared_log_is_new file e : append_entry (clear true None true (Some file)).2 e = append_entry None e.
Proof. reflexivity. Qed.

End Cleared.

Example remote_inside_char :
  remote_cell (mkAuditRecord [] [] (repeat x61 26 ++ [xc3; xa9; x61]) None None false 0 None) = None.
Proof. reflexivity. Qed.
